(* ===== verification/_CoqProject ===== *)
-Q . S2P
Prelude.v
Externals.v
JsonFacts.v
Base.v
Instances.v
Settings.v
Guardrails.v
Canonicalization.v
DomainScope.v
UrlMatcher.v
Crawler.v
NetworkPolicy.v
Snapshot.v
Pacing.v
Robots.v
TraversalTables.v
Store.v
TraversalStore.v
Progress.v
Checkpoint.v
Runs.v
Traversal.v
CrawlExecution.v
TraversalInvariants.v
TraversalTheorems.v
RecoveryTheorems.v
ExecutionTheorems.v
ExecutionReadBack.v
DiscoveryTheorems.v
JobQueue.v
JobInvariants.v
JobTheorems.v
JobEvidence.v
Preview.v
SemanticTraversal.v
SemanticCheckpoint.v
PreviewReport.v
SemanticInvariants.v
PreviewExample.v
SemanticTheorems.v
ReportTheorems.v
SemanticRoundTrip.v
LinkTheorems.v
StructuralFacts.v
CompactSerde.v
Diagnostics.v
CrawlRecovery.v
Finalization.v
WorkerSignals.v
JobRuntime.v
RuntimeTheorems.v
JobActions.v
ActionTheorems.v
TestEvidence.v
VersionValidation.v
ValidationTheorems.v
SemanticHash.v
SemanticHashTheorems.v
AuthoringStore.v
Authoring.v
EvidenceStore.v
AuthoringOps.v
AuthoringEdits.v
AuthoringInvariants.v
AuthoringLifecycle.v
AuthoringExample.v
AuthoringTheorems.v
EvidenceTheorems.v
