(* ===== verification/Prelude.v ===== *)
(** * Erabi verification development

    The model, in Rocq, of the core of Erabi, a self-hosted web crawler
    ([crates/erabi-domain], [crates/erabi-crawler], [crates/erabi-db],
    [crates/erabi-jobs]): the rules by which URLs are identified, scoped and matched, the
    limits and policies a crawl obeys, the authoring and publication of crawler versions,
    the frozen configuration of a run, the traversal that decides which page a crawl
    visits next, the durable job queue that executes it and the worker around it.  Each
    file opens with what it models; this header says how they fit together.

    ** Parts and files

    - [Prelude.v]: Rust's [Result], integers, strings ([str::chars], [trim], splitting,
      number parsing), comparisons ([Ord::cmp]), stable sorting; the tactics [boolify]
      and the hint database [erabi].
    - [Externals.v]: the libraries the program calls ([uuid], [url], [regex], the public
      suffix list, [serde_json], SHA-256), each a class of operations; what the
      program relies on is a separate class of laws.  [Instances.v] implements them, so
      that the laws can hold and the witnesses compute.  [JsonFacts.v]: lemmas on JSON.
    - [Base.v], [Settings.v]: identifiers, statuses, errors; layered settings
      ([SettingLayers::resolve]).
    - [Guardrails.v]: [CrawlerVersionGuardrails::validate], effective limits,
      [budget.rs]'s decision on one more page, the transition graph,
      [complete_snapshot.rs].
    - [Canonicalization.v], [DomainScope.v], [UrlMatcher.v]: what a page's identity is,
      which hosts are in scope, which page type a URL has.
    - [Crawler.v]: crawlers, drafts and published versions as records changed by their
      methods, with reachability over those methods.
    - [TestEvidence.v], [VersionValidation.v]: the evidence of the test lab, its contract
      and comparison by behaviour ([test_evidence.rs]); the registry of contributors, the
      core contributor and the report that decides publication ([version_validation.rs]).
      [ValidationTheorems.v] is about the latter.
    - [AuthoringStore.v], [Authoring.v], [EvidenceStore.v], [AuthoringOps.v],
      [AuthoringEdits.v]: the repositories [crawler.rs] and [test_evidence.rs] over their
      tables and triggers ([AuthoringDb], the transactions [Atx]): what is loaded and how
      it is checked, stored evidence, drafts, clones, publication and reactivation, the
      edits, and all of them as [AuthoringOp] with [reachable_authoring].
      [SemanticHash.v]: the hash that tells whether two configurations mean the same, from
      the labels of their rows to the payload; [SemanticHashTheorems.v] is about it.
      [AuthoringInvariants.v]: each statement and each operation keeps the history of
      published versions ([history]).  [AuthoringLifecycle.v]: the pointers and states of
      versions ([lifecycle_ok]).  [AuthoringTheorems.v] and [EvidenceTheorems.v] derive
      what holds of every database the operations reach; [AuthoringExample.v] is the
      database of their witnesses.
    - [Snapshot.v]: the configuration frozen at the creation of a run, its canonical
      JSON text and its two hashes.
    - [NetworkPolicy.v], [Robots.v], [Pacing.v]: what may be requested, whether the site
      permits it, and when: pacing is a transition system over a store of shared
      origin states ([step]), each critical section of the code one step.
    - [Store.v], [TraversalTables.v], [TraversalStore.v]: the tables of
      [migrations/0002_crawler_core.sql] to [0006_crawl_traversal_state.sql] with their
      constraints and triggers, and transactions as a state-and-error monad ([Tx],
      [transact]: an error rolls back).
    - [Runs.v], [Progress.v], [Checkpoint.v], [JobQueue.v], [Traversal.v],
      [CrawlExecution.v]: the repositories [run.rs], [progress.rs], [checkpoint.rs],
      [job.rs], [crawl_traversal.rs] and [crawl_execution.rs], statement by statement.
    - [JobInvariants.v]: the queue's invariant ([queue_wf]), the relation of its
      elementary changes ([change]), and that every operation is a sequence of them.
      [JobTheorems.v] and [JobEvidence.v] derive from it what holds of every reachable
      queue.
    - [TraversalInvariants.v]: the same for crawl work: the invariant of the traversal
      tables ([tables_wf]), their elementary changes ([table_change]), and that every
      operation of the traversal and execution repositories ([crawl_op]) is a sequence
      of them.  [TraversalTheorems.v], [RecoveryTheorems.v], [ExecutionTheorems.v],
      [ExecutionReadBack.v] and [DiscoveryTheorems.v] derive what holds of every
      database they reach.
    - [StructuralFacts.v], [Diagnostics.v], [CompactSerde.v], [CrawlRecovery.v],
      [Finalization.v]: what the durable evidence of a run adds up to ([finalization.rs] of
      the crawler), whether it may be resumed ([checkpoint.rs] and [recovery.rs]) and how
      it is finalized ([production/finalization.rs]).
    - [WorkerSignals.v], [JobRuntime.v], [JobActions.v]: the two signal controllers
      ([cancellation.rs], [storage_pressure.rs]) as transition systems, each critical
      section one step; a worker's turn ([lib.rs] of the jobs crate); the actions on a job
      ([actions.rs]).  [RuntimeTheorems.v] and [ActionTheorems.v] are about the last two.
    - [Preview.v], [SemanticTraversal.v], [SemanticCheckpoint.v], [PreviewReport.v]:
      [discovery_preview/service.rs], the traversal both a preview and a production crawl
      run: its state ([SemanticTraversal]), one unit of work ([step]), the expansion of a
      page, its checkpoints and its report.  The provider and the clock are functions of
      the number of calls made before.  [SemanticInvariants.v]: the part of the state the
      theorems are about ([Core]) and its invariant ([traversal_ok]), kept by every
      operation.  [SemanticTheorems.v], [SemanticRoundTrip.v], [LinkTheorems.v] and
      [ReportTheorems.v] derive what holds of every traversal that a frozen snapshot
      starts; [PreviewExample.v] is the crawl their witnesses run.

    ** How the parts interact

    A draft is edited and published by the operations of [AuthoringOps.v] and
    [AuthoringEdits.v]; publication validates the stored rows ([VersionValidation.v]) with
    the evidence stored against the same semantic hash ([EvidenceStore.v],
    [SemanticHash.v]).  A run's snapshot ([Snapshot.v]) holds the version ([Crawler.v]) it executes; its job
    ([JobQueue.v]) is created with the run in one transaction ([Runs.v]).  A worker
    leases the job, appends checkpoints ([Checkpoint.v]) and progress ([Progress.v])
    while it owns it, and gives it up; stale recovery assesses the checkpoint, fails
    the run and ends the stream when no attempt is left.  While it owns the job, the
    worker records the crawl's work: discovery boundaries extend the states of the run's
    URLs ([Traversal.v]), and each fetch is recorded against the generation of the work
    it was made for ([CrawlExecution.v]).  A later action job prepares what is to be
    done again, in the next generation.  The worker itself is [JobRuntime.v]: a turn
    acquires a job, registers its signals ([WorkerSignals.v]), runs the handler under a
    heartbeat and records one outcome; [JobActions.v] queues a continuation only on
    evidence that [CrawlRecovery.v] accepts, and a finished run is summarised by
    [Finalization.v] from [StructuralFacts.v].  URLs found on a page pass
    canonicalization, scope and matching before a budget decides on them, all of which
    the traversal calls ([SemanticTraversal.expand_unique]); a request passes network
    policy, robots and pacing before it leaves.  The traversal's state is what the
    discovery boundaries of [Traversal.v] record.

    ** What the theorems show

    - Queue: its invariant and the success of its consistency queries on every
      reachable queue; fencing of stale leases; refinement of the abstract lease
      protocol [LeaseSpec]; finality of ended jobs and finished attempts; the job
      [acquire_next] picks, and that it is never stuck; completeness of stale recovery;
      termination of lineage walks; well-typed reads; that a contradiction between a
      finished job and its run makes every later reconciliation fail.
    - Crawl work: refinement of the protocol [work_step] (discovered once, started and
      finished within a generation, taken up in the next, resolved for good); evidence
      is append-only; the recovery model of every run can be read back, in the order of
      a restart; an action takes up exactly its kind of work, and replays to the same
      selection; work of an earlier generation is refused, and a finished generation is
      recorded once; a persisted execution is read back; discovery evidence is immutable
      under replay; a redirect to an unseen URL fails its whole boundary.
    - Semantic traversal: its invariant on every reachable state, whatever the provider
      answers; the page, byte, page-type and transition budgets; no canonical URL is
      taken up twice and depths never decrease; it ends; a checkpoint restores the
      traversal it was taken of, unless a URL was unmatched or ambiguous, when it is
      refused; each link of a page is expanded once; a link the scope cannot classify
      fails its page; the cycle search of the report decides reachability.
    - Runtime: a turn reports what is durable; a turn whose lease was taken over records
      nothing; a job that was asked to stop is durably cancelled by its next turn, and no
      cancellation or pressure signal is lost between threads; a start leaves no orphan.
      A continuation is authorised by accepted evidence and changes one job and its run; a
      rerun is independent of its source; a refused action changes nothing.
    - Recovery and finalization: the control record survives its storage; work resumes
      exactly on an accepted checkpoint with coherent evidence; a run is trusted as a
      complete snapshot exactly when its evidence shows a whole crawl; finalization commits
      the rebuilt facts or nothing.
    - Authoring: published versions, their rows, the audit and stored evidence are never
      changed by any operation; pointers and states of versions agree on every reachable
      database, with one draft per crawler; a publication is decided by the report on the
      stored rows; storing evidence leaves the draft's hash as it was; creating a draft
      answers whatever contention it meets.  The semantic hash depends neither on the ids
      of the rows nor on their order.  The validation report is normalised, independent of
      the order of registration, and its core decides publishability.
    - Progress and checkpoints: gap-free, closed, replayable streams under every
      operation; the envelope's round trip; a stale owner is refused; the appended
      checkpoint is the latest and is resumable.
    - Pacing, robots, network: concurrency, spacing and back-off bounds of every
      grant; rule precedence equals its glob specification; overrides only where
      permitted; only public unicast targets.
    - Domain: idempotent canonicalization, fail-closed scope, page-type resolution,
      immutability of published versions, tamper-evident snapshots.

    ** Conventions, bounds and fuel

    Integers are [Z] with the code's saturating, checked or wrapping operation written
    out; instants of the queue are seconds in [i64], pacing counts nanoseconds.  Maps
    are [gmap]s, tables are maps from the primary key, a query's [ORDER BY] is a sort.
    Fuel appears in the lineage walk (the number of jobs is enough,
    [JobEvidence.lineage_terminates]), in [SemanticTraversal.traverse] (some fuel always is,
    [SemanticTheorems.traverse_terminates]), in the cycle search ([PreviewReport.reach_fuel],
    [ReportTheorems.cycle_search_decides]), in paged replay ([Progress.replay_all], one page
    more than there are events) and in the string loops of [Robots.v] and [Prelude.v]
    (the length of the text).  The refinement of semantic labels runs as many rounds as
    there are entities and the contention loop five attempts, as in the code; the
    heartbeat loop runs over an explicit list of events, and [None] is a handler that does
    not end within them.  Derived (de)serializers are the interfaces [SnapshotWire],
    [VersionWire] and [AuthoringWire]; tokio's [Notify] is one of [WorkerSignals.v].
    An action decides and acts on one store: no operation comes between the two.

    ** Not modelled

    - I/O failures of SQLite, the filesystem and the network: a statement fails only on
      a constraint or a trigger, except for the contention plan of [AuthoringOps.v].
      Write transactions are serialised, as SQLite serialises them.
    - [crates/erabi-api], [erabi-cli], [erabi-observability], [erabi-crawl4ai] and
      [apps/web]: HTTP, process and telemetry glue.  [erabi-export] and
      [erabi-extraction] are empty crates.
    - Of [crates/erabi-jobs] the handlers ([quick_scrape.rs], [production/crawl_stage.rs],
      [production/page_execution.rs]): asynchronous drivers of the modelled parts, here a
      parameter of the turn.  Of [crates/erabi-db] the worker thread, the migrations, the
      artifact store and the source repository.  Of [crates/erabi-crawler] the services
      around the traversal (test lab, quick scrape, the adapters of a provider).
    - [Robots.v] leaves out the wait of a second caller for a fetch in flight. *)

From Stdlib Require Export ZArith Lia Ascii.
From stdpp Require Export base gmap list strings sorting.
#[global] Open Scope Z_scope.
#[global] Arguments String.append _ _ : simpl nomatch.

(** ** Results *)

Declare Scope erabi_scope.
Delimit Scope erabi_scope with erabi.
#[global] Open Scope erabi_scope.

(** Rust's [Result<A, E>]. *)
Inductive result (E A : Type) : Type :=
| Ok (a : A)
| Err (e : E).
Arguments Ok {E A} a.
Arguments Err {E A} e.

Notation "'let?' x := c 'in' k" :=
  (match c with Ok x => k | Err e => Err e end)
  (at level 10, x pattern, c at level 100, k at level 200) : erabi_scope.

Definition is_ok {E A} (r : result E A) : bool :=
  match r with Ok _ => true | Err _ => false end.

Definition is_err {E A} (r : result E A) : bool := negb (is_ok r).

Definition map_err {E F A} (f : E -> F) (r : result E A) : result F A :=
  match r with Ok a => Ok a | Err e => Err (f e) end.

Definition ok_or {E A} (e : E) (o : option A) : result E A :=
  match o with Some a => Ok a | None => Err e end.

(** [if bad { return Err(e) }]. *)
Definition reject_if {E} (bad : bool) (e : E) : result E unit :=
  if bad then Err e else Ok tt.

(** A [for] loop whose body returns early with [?]. *)
Fixpoint for_each {E A} (f : A -> result E unit) (l : list A) : result E unit :=
  match l with
  | [] => Ok tt
  | x :: l' => let? _ := f x in for_each f l'
  end.

(** [iter().map(f).collect::<Result<Vec<_>, _>>()]. *)
Fixpoint collect {E A B} (f : A -> result E B) (l : list A) : result E (list B) :=
  match l with
  | [] => Ok []
  | x :: l' => let? y := f x in let? ys := collect f l' in Ok (y :: ys)
  end.

(** ** Machine integers, kept as [Z] with their range *)

Definition u8_max : Z := 2 ^ 8 - 1.
Definition u16_max : Z := 2 ^ 16 - 1.
Definition u32_max : Z := 2 ^ 32 - 1.
Definition u64_max : Z := 2 ^ 64 - 1.
Definition i64_min : Z := - 2 ^ 63.
Definition i64_max : Z := 2 ^ 63 - 1.

Definition in_u8 (z : Z) : Prop := 0 <= z <= u8_max.
Definition in_u16 (z : Z) : Prop := 0 <= z <= u16_max.
Definition in_u32 (z : Z) : Prop := 0 <= z <= u32_max.
Definition in_u64 (z : Z) : Prop := 0 <= z <= u64_max.
Definition in_i64 (z : Z) : Prop := i64_min <= z <= i64_max.

(** [a.checked_add(b)] at the width whose largest value is [max]. *)
Definition checked_add (max a b : Z) : option Z :=
  if a + b <=? max then Some (a + b) else None.

Definition saturating_add (max a b : Z) : Z := Z.min max (a + b).
Definition saturating_sub (a b : Z) : Z := Z.max 0 (a - b).

(** [u32::try_from(n).unwrap_or(u32::MAX)] of a [usize]. *)
Definition u32_of_usize (n : nat) : Z := Z.min u32_max (Z.of_nat n).

(** [i64::checked_add]. *)
Definition i64_checked_add (a b : Z) : option Z :=
  if (i64_min <=? a + b) && (a + b <=? i64_max) then Some (a + b) else None.

(** ** Strings

    A Rust [String] is its UTF-8 byte sequence; [chars] decodes it. *)

Definition byte_of (c : ascii) : Z := Z.of_N (N_of_ascii c).

Definition cont (c : ascii) : Z := Z.land (byte_of c) 63.

(** [str::chars]: the Unicode scalar values of a UTF-8 string. *)
Fixpoint chars (s : string) : list Z :=
  match s with
  | EmptyString => []
  | String a s1 =>
    let b := byte_of a in
    if b <? 128 then b :: chars s1
    else if b <? 224 then
      match s1 with
      | String a1 s2 => (Z.land b 31 * 64 + cont a1) :: chars s2
      | EmptyString => []
      end
    else if b <? 240 then
      match s1 with
      | String a1 (String a2 s3) =>
        (Z.land b 15 * 4096 + cont a1 * 64 + cont a2) :: chars s3
      | _ => []
      end
    else
      match s1 with
      | String a1 (String a2 (String a3 s4)) =>
        (Z.land b 7 * 262144 + cont a1 * 4096 + cont a2 * 64 + cont a3) :: chars s4
      | _ => []
      end
  end.

Definition chr (z : Z) : ascii := ascii_of_N (Z.to_N z).

(** [char::encode_utf8]. *)
Definition encode_utf8 (c : Z) (rest : string) : string :=
  if c <? 128 then String (chr c) rest
  else if c <? 2048 then
    String (chr (192 + Z.shiftr c 6)) (String (chr (128 + Z.land c 63)) rest)
  else if c <? 65536 then
    String (chr (224 + Z.shiftr c 12))
      (String (chr (128 + Z.land (Z.shiftr c 6) 63))
        (String (chr (128 + Z.land c 63)) rest))
  else
    String (chr (240 + Z.shiftr c 18))
      (String (chr (128 + Z.land (Z.shiftr c 12) 63))
        (String (chr (128 + Z.land (Z.shiftr c 6) 63))
          (String (chr (128 + Z.land c 63)) rest))).

(** [iter.collect::<String>()] of scalar values. *)
Definition of_chars (l : list Z) : string := foldr encode_utf8 EmptyString l.

(** [s.chars().count()]. *)
Definition char_count (s : string) : nat := length (chars s).

(** [char::is_control]: the Unicode category Cc. *)
Definition is_control (c : Z) : bool := (c <=? 31) || ((127 <=? c) && (c <=? 159)).

(** [char::is_whitespace]: the Unicode property White_Space. *)
Definition is_whitespace (c : Z) : bool :=
  ((9 <=? c) && (c <=? 13)) || (c =? 32) || (c =? 133) || (c =? 160) || (c =? 5760)
  || ((8192 <=? c) && (c <=? 8202)) || (c =? 8232) || (c =? 8233) || (c =? 8239)
  || (c =? 8287) || (c =? 12288).

Definition has_control (s : string) : bool := existsb is_control (chars s).
Definition has_whitespace (s : string) : bool := existsb is_whitespace (chars s).

Fixpoint drop_while {A} (p : A -> bool) (l : list A) : list A :=
  match l with
  | [] => []
  | x :: l' => if p x then drop_while p l' else l
  end.

(** [str::trim]. *)
Definition trim_chars (p : Z -> bool) (l : list Z) : list Z :=
  rev (drop_while p (rev (drop_while p l))).
Definition trim (s : string) : string := of_chars (trim_chars is_whitespace (chars s)).

Definition str_is_empty (s : string) : bool :=
  match s with EmptyString => true | _ => false end.

(** [s.trim().is_empty()]. *)
Definition blank (s : string) : bool := str_is_empty (trim s).

Definition is_ascii_upper (b : Z) : bool := (65 <=? b) && (b <=? 90).
Definition is_ascii_lower (b : Z) : bool := (97 <=? b) && (b <=? 122).
Definition is_ascii_digit (b : Z) : bool := (48 <=? b) && (b <=? 57).
Definition is_ascii_alphabetic (b : Z) : bool := is_ascii_upper b || is_ascii_lower b.
Definition is_ascii_alphanumeric (b : Z) : bool := is_ascii_alphabetic b || is_ascii_digit b.
Definition is_ascii_hexdigit (b : Z) : bool :=
  is_ascii_digit b || ((65 <=? b) && (b <=? 70)) || ((97 <=? b) && (b <=? 102)).

Fixpoint bytes (s : string) : list Z :=
  match s with
  | EmptyString => []
  | String c s' => byte_of c :: bytes s'
  end.

Definition ascii_lower (c : ascii) : ascii :=
  if is_ascii_upper (byte_of c) then chr (byte_of c + 32) else c.

Fixpoint map_string (f : ascii -> ascii) (s : string) : string :=
  match s with
  | EmptyString => EmptyString
  | String c s' => String (f c) (map_string f s')
  end.

(** [str::to_ascii_lowercase] and [str::eq_ignore_ascii_case]. *)
Definition to_ascii_lowercase (s : string) : string := map_string ascii_lower s.
Definition eq_ignore_ascii_case (a b : string) : bool :=
  String.eqb (to_ascii_lowercase a) (to_ascii_lowercase b).

(** [str::len] counts bytes. *)
Definition str_len (s : string) : nat := String.length s.
Definition byte_len (s : string) : Z := Z.of_nat (str_len s).

Fixpoint str_contains (p : ascii -> bool) (s : string) : bool :=
  match s with
  | EmptyString => false
  | String c s' => p c || str_contains p s'
  end.
Definition contains_ch (ch : ascii) (s : string) : bool := str_contains (Ascii.eqb ch) s.

(** [s.split(ch)]: always at least one piece. *)
Fixpoint split_on (ch : ascii) (s : string) : list string :=
  match s with
  | EmptyString => [EmptyString]
  | String c s' =>
    if Ascii.eqb c ch then EmptyString :: split_on ch s'
    else match split_on ch s' with
         | p :: ps => String c p :: ps
         | [] => [String c EmptyString]
         end
  end.

(** [pieces.join(sep)]. *)
Definition join (sep : string) (l : list string) : string := String.concat sep l.

Fixpoint str_strip_prefix (p s : string) : option string :=
  match p, s with
  | EmptyString, _ => Some s
  | String a p', String b s' => if Ascii.eqb a b then str_strip_prefix p' s' else None
  | String _ _, EmptyString => None
  end.
Definition starts_with (s p : string) : bool := bool_decide (is_Some (str_strip_prefix p s)).

Fixpoint str_rev_app (s acc : string) : string :=
  match s with
  | EmptyString => acc
  | String c s' => str_rev_app s' (String c acc)
  end.
Definition str_rev (s : string) : string := str_rev_app s EmptyString.

Definition str_strip_suffix (p s : string) : option string :=
  str_rev <$> str_strip_prefix (str_rev p) (str_rev s).
Definition ends_with (s p : string) : bool := bool_decide (is_Some (str_strip_suffix p s)).

(** [s.split_once(sep)] for a non-empty separator. *)
Fixpoint split_once (sep s : string) : option (string * string) :=
  match str_strip_prefix sep s with
  | Some rest => Some (EmptyString, rest)
  | None =>
    match s with
    | EmptyString => None
    | String c s' =>
      match split_once sep s' with
      | Some (l, r) => Some (String c l, r)
      | None => None
      end
    end
  end.

(** [s.rsplit_once(ch)]. *)
Fixpoint rsplit_once (ch : ascii) (s : string) : option (string * string) :=
  match s with
  | EmptyString => None
  | String c s' =>
    match rsplit_once ch s' with
    | Some (l, r) => Some (String c l, r)
    | None => if Ascii.eqb c ch then Some (EmptyString, s') else None
    end
  end.

(** The prefix of [s] before the first byte satisfying [p], and the rest. *)
Fixpoint split_at_first (p : ascii -> bool) (s : string) : string * string :=
  match s with
  | EmptyString => (EmptyString, EmptyString)
  | String c s' =>
    if p c then (EmptyString, s)
    else let '(l, r) := split_at_first p s' in (String c l, r)
  end.

(** [str::is_char_boundary] and [s.get(a..b)]. *)
Definition is_char_boundary (s : string) (i : nat) : bool :=
  match String.get i s with
  | Some c => negb ((128 <=? byte_of c) && (byte_of c <? 192))
  | None => Nat.eqb i (String.length s)
  end.
Definition str_get (a b : nat) (s : string) : option string :=
  if Nat.leb a b && Nat.leb b (String.length s) && is_char_boundary s a && is_char_boundary s b
  then Some (String.substring a (b - a) s) else None.

(** [s.find(ch)], a byte index. *)
Fixpoint str_find (ch : ascii) (s : string) : option nat :=
  match s with
  | EmptyString => None
  | String c s' => if Ascii.eqb c ch then Some 0%nat else S <$> str_find ch s'
  end.

(** [s.replace(pat, rep)] for a non-empty pattern: the occurrences from the left,
    without overlap; the fuel bounds the steps by the length of [s]. *)
Fixpoint str_replace_from (fuel : nat) (pat rep s : string) : string :=
  match fuel with
  | O => s
  | S fuel' =>
    match str_strip_prefix pat s with
    | Some rest => rep ++ str_replace_from fuel' pat rep rest
    | None =>
      match s with
      | EmptyString => EmptyString
      | String c s' => String c (str_replace_from fuel' pat rep s')
      end
    end
  end%string.
Definition str_replace (pat rep s : string) : string :=
  str_replace_from (S (String.length s)) pat rep s.

(** [s.matches(ch).count()]. *)
Definition count_ch (ch : ascii) (s : string) : nat :=
  length (filter (fun b => b = byte_of ch) (bytes s)).

(** [str::parse] at an unsigned width: an optional [+], then decimal digits. *)
Definition parse_digits (max : Z) (s : string) : option Z :=
  match s with
  | EmptyString => None
  | _ =>
    foldl (fun acc b =>
      match acc with
      | Some n =>
        if is_ascii_digit b then
          let n' := n * 10 + (b - 48) in if n' <=? max then Some n' else None
        else None
      | None => None
      end) (Some 0) (bytes s)
  end.
Definition parse_unsigned (max : Z) (s : string) : option Z :=
  match s with
  | String "+" s' => parse_digits max s'
  | _ => parse_digits max s
  end.

(** ** Orders, as Rust's [Ord::cmp] *)

(** What sorting relies on: a total preorder given by a three-way comparison. *)
Class PreCmp {A} (c : A -> A -> comparison) : Prop := {
  cmp_opp : forall x y, c x y = CompOpp (c y x);
  cmp_le_trans : forall x y z, c x y <> Gt -> c y z <> Gt -> c x z <> Gt
}.

(** The comparisons whose equality is identity. *)
Class LawfulCmp {A} (c : A -> A -> comparison) : Prop := {
  lawful_pre :: PreCmp c;
  cmp_eq : forall x y, c x y = Eq -> x = y
}.

Definition cmp_lex (c d : comparison) : comparison :=
  match c with Eq => d | _ => c end.

(** [a.cmp(b).then(...)] on a pair, and comparing by a key. *)
Definition cmp_pair {A B} (ca : A -> A -> comparison) (cb : B -> B -> comparison)
    (x y : A * B) : comparison := cmp_lex (ca x.1 y.1) (cb x.2 y.2).
Definition cmp_on {A K} (key : A -> K) (c : K -> K -> comparison) (x y : A) : comparison :=
  c (key x) (key y).
Definition cmp_reverse {A} (c : A -> A -> comparison) (x y : A) : comparison := c y x.

Fixpoint cmp_list {A} (c : A -> A -> comparison) (l k : list A) : comparison :=
  match l, k with
  | [], [] => Eq
  | [], _ => Lt
  | _, [] => Gt
  | x :: l', y :: k' => cmp_lex (c x y) (cmp_list c l' k')
  end.

Definition cmp_option {A} (c : A -> A -> comparison) (x y : option A) : comparison :=
  match x, y with
  | None, None => Eq
  | None, Some _ => Lt
  | Some _, None => Gt
  | Some a, Some b => c a b
  end.

Definition cmp_le {A} (c : A -> A -> comparison) (x y : A) : Prop := c x y <> Gt.

(** ** Stable sorting, consecutive deduplication, maxima *)

Section sort.
Context {A : Type} (c : A -> A -> comparison).

Fixpoint insert_sorted (x : A) (l : list A) : list A :=
  match l with
  | [] => [x]
  | y :: l' => match c x y with Gt => y :: insert_sorted x l' | _ => x :: l end
  end.

(** [slice::sort_by], a stable sort. *)
Definition sort_by (l : list A) : list A := foldr insert_sorted [] l.

(** [Iterator::max]: the last of the greatest elements. *)
Definition max_by (l : list A) : option A :=
  foldl (fun best x =>
    match best with
    | None => Some x
    | Some b => match c b x with Gt => Some b | _ => Some x end
    end) None l.

(** [Iterator::min]: the first of the least elements. *)
Definition min_by (l : list A) : option A :=
  foldl (fun best x =>
    match best with
    | None => Some x
    | Some b => match c b x with Gt => Some x | _ => Some b end
    end) None l.

(** [Vec::dedup] when equality is the comparison's. *)
Fixpoint dedup (l : list A) : list A :=
  match l with
  | [] => []
  | x :: l' =>
    match dedup l' with
    | y :: k => match c x y with Eq => x :: k | _ => x :: y :: k end
    | [] => [x]
    end
  end.
End sort.

(** ** [BTreeMap] and [BTreeSet] over strings: iteration is in key order *)

Definition btree_to_list {A} (m : gmap string A) : list (string * A) :=
  sort_by (cmp_on fst String.compare) (map_to_list m).
Definition btree_values {A} (m : gmap string A) : list A := map snd (btree_to_list m).
Definition btree_elements (s : gset string) : list string := sort_by String.compare (elements s).

(** ** Functional update of one field of a record *)

Class Setter {R T : Type} (field : R -> T) := update_field : (T -> T) -> R -> R.
Arguments update_field {R T} field {_} f r /.

Notation "r <| field := v |>" := (update_field field (fun _ => v) r)
  (at level 1, left associativity, field at level 99,
   format "r  <| field  :=  v |>") : erabi_scope.
Notation "r <| field ::= f |>" := (update_field field f r)
  (at level 1, left associativity, field at level 99,
   format "r  <| field  ::=  f |>") : erabi_scope.

(** The setter of [field], from the record's eta expansion. *)
Ltac setter_of eta field :=
  let e := eval cbv beta delta [eta] in eta in
  let e := eval pattern field in e in
  match e with
  | ?g _ =>
    let f := eval cbv beta in (fun f => g (fun r => f (field r))) in
    exact f
  end.

(** * Lemmas *)

(** ** Automation *)

Create HintDb erabi.

(** Case analysis on the scrutinee of a [match] or an [if]. *)
Ltac case_match_in H :=
  match type of H with
  | context [ match ?x with _ => _ end ] => destruct x eqn:?; simplify_eq/=
  end.
Ltac case_match_goal :=
  match goal with
  | |- context [ match ?x with _ => _ end ] => destruct x eqn:?; simplify_eq/=
  end.
Ltac break_in H := repeat case_match_in H.
Ltac break := repeat case_match_goal.

(** Boolean connectives to propositions, everywhere. *)
Ltac boolify :=
  repeat match goal with
  | H : (_ && _)%bool = true |- _ => apply andb_true_iff in H as [? ?]
  | H : (_ || _)%bool = false |- _ => apply orb_false_iff in H as [? ?]
  | H : negb _ = true |- _ => apply negb_true_iff in H
  | H : negb _ = false |- _ => apply negb_false_iff in H
  | H : (_ =? _) = true |- _ => apply Z.eqb_eq in H
  | H : (_ =? _) = false |- _ => apply Z.eqb_neq in H
  | H : (_ <=? _) = true |- _ => apply Z.leb_le in H
  | H : (_ <=? _) = false |- _ => apply Z.leb_gt in H
  | H : (_ <? _) = true |- _ => apply Z.ltb_lt in H
  | H : (_ <? _) = false |- _ => apply Z.ltb_ge in H
  | H : String.eqb _ _ = true |- _ => apply String.eqb_eq in H
  | H : String.eqb _ _ = false |- _ => apply String.eqb_neq in H
  | H : bool_decide _ = true |- _ => apply bool_decide_eq_true_1 in H
  | H : bool_decide _ = false |- _ => apply bool_decide_eq_false_1 in H
  end.

(** ** Lists *)

Lemma elem_of_map {A B} (f : A -> B) (l : list A) (y : B) :
  y ∈ map f l <-> exists x, y = f x /\ x ∈ l.
Proof. apply list_elem_of_fmap. Qed.

(** ** Results *)

Lemma reject_if_ok {E} (b : bool) (e : E) (u : unit) : reject_if b e = Ok u <-> b = false.
Proof. destruct b, u; simpl; split; congruence. Qed.

Lemma reject_if_err {E} (b : bool) (e e' : E) : reject_if b e = Err e' <-> b = true /\ e' = e.
Proof. destruct b; simpl; naive_solver. Qed.

Lemma is_ok_exists {E A} (r : result E A) : is_ok r = true -> exists a, r = Ok a.
Proof. destruct r; simpl; naive_solver. Qed.

(** The shape of a guard followed by the rest of a function. *)
Lemma reject_then_ok {E A} (b : bool) (e : E) (k : result E A) (a : A) :
  match reject_if b e with Ok _ => k | Err e' => Err e' end = Ok a <-> b = false /\ k = Ok a.
Proof. destruct b; simpl; naive_solver. Qed.

Lemma reject_then_err {E A} (b : bool) (e : E) (k : result E A) (e' : E) :
  match reject_if b e with Ok _ => k | Err e1 => Err e1 end = Err e' <->
  (b = true /\ e' = e) \/ (b = false /\ k = Err e').
Proof. destruct b; simpl; naive_solver. Qed.

Lemma bind_ok {E A B} (r : result E A) (k : A -> result E B) (b : B) :
  match r with Ok x => k x | Err e => Err e end = Ok b <-> exists a, r = Ok a /\ k a = Ok b.
Proof. destruct r; naive_solver. Qed.

Lemma ok_or_ok {E A} (e : E) (o : option A) (a : A) : ok_or e o = Ok a <-> o = Some a.
Proof. destruct o; simpl; naive_solver. Qed.

Lemma for_each_ok {E A} (f : A -> result E unit) (l : list A) (u : unit) :
  for_each f l = Ok u <-> Forall (fun x => f x = Ok tt) l.
Proof.
  destruct u. induction l as [|x l IH]; simpl; [by split|].
  rewrite Forall_cons, <- IH. destruct (f x) as [[]|e]; naive_solver.
Qed.

Lemma for_each_err {E A} (f : A -> result E unit) (l : list A) (e : E) :
  for_each f l = Err e -> exists x, x ∈ l /\ f x = Err e.
Proof.
  induction l as [|x l IH]; simpl; [done|].
  destruct (f x) as [[]|e'] eqn:Hx; intros H; simplify_eq.
  - destruct (IH H) as (y & Hy & Hf). exists y. split; [by apply list_elem_of_further|done].
  - exists x. split; [apply list_elem_of_here|done].
Qed.

Lemma collect_ok {E A B} (f : A -> result E B) (l : list A) (ys : list B) :
  collect f l = Ok ys <-> Forall2 (fun x y => f x = Ok y) l ys.
Proof.
  revert ys. induction l as [|x l IH]; intros ys; simpl.
  - split; [naive_solver constructor|]. by inversion 1.
  - split.
    + intros H. destruct (f x) eqn:Hx; [|done]. destruct (collect f l) eqn:Hl; [|done].
      simplify_eq. constructor; [done|]. by apply IH.
    + inversion 1 as [|? y ? ys' Hx Hl]; subst. apply IH in Hl. by rewrite Hx, Hl.
Qed.

(** ** Strings *)

Lemma str_app_assoc (a b c : string) : ((a ++ b) ++ c = a ++ (b ++ c))%string.
Proof. induction a as [|x a IH]; [done|]. exact (f_equal (String x) IH). Qed.

Lemma str_app_nil_r (a : string) : (a ++ "")%string = a.
Proof. induction a as [|x a IH]; [done|]. exact (f_equal (String x) IH). Qed.

Lemma str_contains_impl p q s :
  (forall c, p c = true -> q c = true) -> str_contains q s = false -> str_contains p s = false.
Proof.
  intros Hpq. induction s as [|c s IH]; simpl; [done|]. intros H. boolify.
  rewrite IH by done. rewrite orb_false_r. destruct (p c) eqn:Hp; [|done].
  apply Hpq in Hp. congruence.
Qed.

Lemma str_contains_app p a b : str_contains p (a ++ b) = str_contains p a || str_contains p b.
Proof. induction a as [|c a IH]; simpl; [done|]. by rewrite IH, orb_assoc. Qed.

Lemma str_contains_chars p s :
  str_contains p s = true <-> exists c, contains_ch c s = true /\ p c = true.
Proof.
  unfold contains_ch. induction s as [|a s IH]; simpl; [naive_solver|].
  rewrite orb_true_iff, IH. split.
  - intros [Ha|(c & Hc & Hp)]; [exists a; by rewrite Ascii.eqb_refl|].
    exists c. by rewrite Hc, orb_true_r.
  - intros (c & Hc & Hp). apply orb_true_iff in Hc as [Heq%Ascii.eqb_eq|Hc]; [left; congruence|].
    right. eauto.
Qed.

Lemma str_contains_cons_false p c s :
  str_contains p (String c s) = false <-> p c = false /\ str_contains p s = false.
Proof. simpl. apply orb_false_iff. Qed.

Lemma str_app_length (a b : string) : String.length (a ++ b) = (String.length a + String.length b)%nat.
Proof. induction a as [|c a IH]; simpl; congruence. Qed.

Lemma split_at_first_app p a b :
  str_contains p a = false ->
  match b with EmptyString => True | String c _ => p c = true end ->
  split_at_first p (a ++ b) = (a, b).
Proof.
  induction a as [|c a IH]; simpl.
  - intros _ Hb. destruct b as [|c b]; simpl; [done|]. by rewrite Hb.
  - intros Ha Hb. boolify. rewrite H, IH; done.
Qed.

Lemma rsplit_once_none ch s : contains_ch ch s = false -> rsplit_once ch s = None.
Proof.
  unfold contains_ch. induction s as [|c s IH]; simpl; [done|]. intros H. boolify.
  rewrite IH by done. by rewrite Ascii.eqb_sym, H.
Qed.

Lemma rsplit_once_last ch a t :
  contains_ch ch t = false -> rsplit_once ch (a ++ String ch t) = Some (a, t).
Proof.
  intros Ht. induction a as [|c a IH]; simpl.
  - by rewrite rsplit_once_none, Ascii.eqb_refl.
  - by rewrite IH.
Qed.

Lemma str_find_none ch s : contains_ch ch s = false -> str_find ch s = None.
Proof.
  unfold contains_ch. induction s as [|c s IH]; simpl; [done|]. intros H. boolify.
  by rewrite Ascii.eqb_sym, H, IH.
Qed.

Lemma str_find_first ch a t :
  contains_ch ch a = false -> str_find ch (a ++ String ch t) = Some (String.length a).
Proof.
  unfold contains_ch. induction a as [|c a IH]; simpl; [by rewrite Ascii.eqb_refl|].
  intros H. boolify. rewrite Ascii.eqb_sym, H, IH; done.
Qed.

Lemma substring_all s : String.substring 0 (String.length s) s = s.
Proof. induction s as [|c s IH]; simpl; congruence. Qed.

Lemma substring_app a b : String.substring (String.length a) (String.length b) (a ++ b) = b.
Proof. induction a as [|c a IH]; simpl; [apply substring_all|done]. Qed.

Lemma get_app_length a b : String.get (String.length a) (a ++ b) = String.get 0 b.
Proof. induction a as [|c a IH]; simpl; done. Qed.

Lemma get_beyond s : String.get (String.length s) s = None.
Proof. induction s as [|c s IH]; simpl; done. Qed.

(** [&s[a.len()..]] when the cut is in front of an ASCII character. *)
Lemma str_get_suffix a b :
  match b with EmptyString => True | String c _ => byte_of c < 128 end ->
  str_get (String.length a) (String.length (a ++ b)) (a ++ b) = Some b.
Proof.
  intros Hb. unfold str_get.
  assert (is_char_boundary (a ++ b) (String.length a) = true) as ->.
  { unfold is_char_boundary. rewrite get_app_length. destruct b as [|c b]; simpl.
    - rewrite str_app_nil_r. apply Nat.eqb_refl.
    - destruct (Z.leb_spec 128 (byte_of c)); [lia|done]. }
  assert (is_char_boundary (a ++ b) (String.length (a ++ b)) = true) as ->.
  { unfold is_char_boundary. rewrite get_beyond. apply Nat.eqb_refl. }
  rewrite Nat.leb_refl, str_app_length.
  rewrite (proj2 (Nat.leb_le _ _)) by lia. simpl.
  replace (_ - _)%nat with (String.length b) by lia. by rewrite substring_app.
Qed.

(** Splitting and joining. *)
Lemma split_on_not_nil ch s : split_on ch s <> [].
Proof. destruct s as [|c s]; simpl; [done|]. destruct (Ascii.eqb c ch); [done|]. by destruct (split_on ch s). Qed.

Lemma split_on_pieces ch s : Forall (fun p => contains_ch ch p = false) (split_on ch s).
Proof.
  unfold contains_ch. induction s as [|c s IH]; simpl; [by repeat constructor|].
  destruct (Ascii.eqb c ch) eqn:Hc; [by constructor|].
  destruct (split_on ch s) as [|p ps]; constructor; simpl.
  - by rewrite Ascii.eqb_sym, Hc.
  - done.
  - inversion IH. by rewrite Ascii.eqb_sym, Hc.
  - by inversion IH.
Qed.

Lemma join_cons sep x y l : join sep (x :: y :: l) = (x ++ sep ++ join sep (y :: l))%string.
Proof. done. Qed.

Lemma split_on_app_sep ch a t :
  contains_ch ch a = false -> split_on ch (a ++ String ch t) = a :: split_on ch t.
Proof.
  unfold contains_ch. induction a as [|c a IH]; simpl; [by rewrite Ascii.eqb_refl|].
  intros H. boolify. rewrite Ascii.eqb_sym, H, IH; done.
Qed.

Lemma split_on_none ch a : contains_ch ch a = false -> split_on ch a = [a].
Proof.
  unfold contains_ch. induction a as [|c a IH]; simpl; [done|].
  intros H. boolify. rewrite Ascii.eqb_sym, H, IH; done.
Qed.

Lemma split_on_join ch l :
  l <> [] -> Forall (fun p => contains_ch ch p = false) l ->
  split_on ch (join (String ch EmptyString) l) = l.
Proof.
  induction l as [|x l IH]; [done|]. intros _ [Hx Hl]%Forall_cons.
  destruct l as [|y l]; [by apply split_on_none|].
  rewrite join_cons. change (String ch "" ++ ?t)%string with (String ch t).
  rewrite split_on_app_sep by done. f_equal. by apply IH.
Qed.

Lemma join_split_on ch s : join (String ch EmptyString) (split_on ch s) = s.
Proof.
  induction s as [|c s IH]; [done|]. cbn [split_on]. pose proof (split_on_not_nil ch s).
  destruct (Ascii.eqb_spec c ch) as [->|Hc]; destruct (split_on ch s) as [|p ps]; try done.
  - rewrite join_cons, IH. done.
  - destruct ps as [|q ps]; [by rewrite <- IH|]. rewrite !join_cons in *. by rewrite <- IH.
Qed.

Lemma contains_join ch c l :
  contains_ch c (join (String ch EmptyString) l) = true ->
  c = ch \/ exists p, p ∈ l /\ contains_ch c p = true.
Proof.
  unfold contains_ch. induction l as [|x l IH]; [done|].
  destruct l as [|y l]; [intros H; right; exists x; split; [left|done]|].
  rewrite join_cons, !str_contains_app. simpl.
  rewrite !orb_true_iff. intros [H|[[H|H]|H]]; [right; exists x; split; [left|done]| |done|].
  - left. by apply Ascii.eqb_eq in H.
  - destruct (IH H) as [?|(p & Hp & Hc)]; [by left|right; exists p; split; [by right|done]].
Qed.

Lemma contains_split_on ch c s p :
  p ∈ split_on ch s -> contains_ch c p = true -> contains_ch c s = true.
Proof.
  intros Hin Hc. rewrite <- (join_split_on ch s).
  generalize dependent (split_on ch s). unfold contains_ch in *.
  induction l as [|x l IH]; [by intros []%not_elem_of_nil|].
  intros Hin. destruct l as [|y l].
  - apply list_elem_of_singleton in Hin as ->. done.
  - rewrite join_cons, !str_contains_app.
    apply elem_of_cons in Hin as [->|Hin]; [by rewrite Hc|]. rewrite (IH Hin). by rewrite !orb_true_r.
Qed.

(** Reversal, prefixes and suffixes. *)
Lemma str_rev_app_spec s acc : str_rev_app s acc = (str_rev_app s EmptyString ++ acc)%string.
Proof.
  revert acc. induction s as [|c s IH]; intros acc; simpl; [done|].
  rewrite IH, (IH (String c EmptyString)), str_app_assoc. done.
Qed.

Lemma str_rev_cons c s : str_rev (String c s) = (str_rev s ++ String c EmptyString)%string.
Proof. unfold str_rev. simpl. apply str_rev_app_spec. Qed.

Lemma str_rev_append a b : str_rev (a ++ b) = (str_rev b ++ str_rev a)%string.
Proof.
  induction a as [|c a IH]; [by rewrite str_app_nil_r|].
  change (String c a ++ b)%string with (String c (a ++ b)). by rewrite !str_rev_cons, IH, str_app_assoc.
Qed.

Lemma str_rev_involutive s : str_rev (str_rev s) = s.
Proof. induction s as [|c s IH]; [done|]. rewrite str_rev_cons, str_rev_append, IH. done. Qed.

Lemma str_strip_prefix_spec p s r : str_strip_prefix p s = Some r <-> s = (p ++ r)%string.
Proof.
  revert s. induction p as [|a p IH]; intros [|b s]; simpl; try naive_solver.
  destruct (Ascii.eqb_spec a b) as [->|]; [rewrite IH|]; naive_solver.
Qed.

Lemma str_strip_suffix_spec p s r : str_strip_suffix p s = Some r <-> s = (r ++ p)%string.
Proof.
  unfold str_strip_suffix. rewrite fmap_Some. split.
  - intros (t & Ht%str_strip_prefix_spec & ->). rewrite <- (str_rev_involutive s), Ht.
    by rewrite str_rev_append, str_rev_involutive.
  - intros ->. exists (str_rev r). rewrite str_rev_involutive. split; [|done].
    apply str_strip_prefix_spec, str_rev_append.
Qed.

Lemma starts_with_spec s p : starts_with s p = true <-> exists r, s = (p ++ r)%string.
Proof.
  unfold starts_with. rewrite bool_decide_eq_true. unfold is_Some.
  split; intros [r Hr]; exists r; by apply str_strip_prefix_spec.
Qed.

Lemma ends_with_spec s p : ends_with s p = true <-> exists r, s = (r ++ p)%string.
Proof.
  unfold ends_with. rewrite bool_decide_eq_true. unfold is_Some.
  split; intros [r Hr]; exists r; by apply str_strip_suffix_spec.
Qed.

(** ** Machine integers *)

Lemma checked_add_some max a b r : checked_add max a b = Some r <-> r = a + b /\ a + b <= max.
Proof. unfold checked_add. destruct (Z.leb_spec (a + b) max); naive_solver lia. Qed.

Lemma checked_add_none max a b : checked_add max a b = None <-> max < a + b.
Proof. unfold checked_add. destruct (Z.leb_spec (a + b) max); naive_solver lia. Qed.

(** ** Orders *)

Section order_lemmas.
Context {A : Type} (c : A -> A -> comparison).

Lemma cmp_refl `{!PreCmp c} x : c x x = Eq.
Proof. pose proof (cmp_opp (c := c) x x) as H. by destruct (c x x). Qed.

Lemma cmp_le_refl `{!PreCmp c} x : cmp_le c x x.
Proof. unfold cmp_le. by rewrite cmp_refl. Qed.

Lemma cmp_gt_le `{!PreCmp c} x y : c x y = Gt -> cmp_le c y x.
Proof. unfold cmp_le. rewrite (cmp_opp (c := c) y x). intros ->. done. Qed.

Lemma cmp_le_total `{!PreCmp c} x y : cmp_le c x y \/ cmp_le c y x.
Proof.
  unfold cmp_le. destruct (c x y) eqn:H; [by left|by left|right]. by apply cmp_gt_le.
Qed.

Lemma cmp_le_antisym `{!LawfulCmp c} x y : cmp_le c x y -> cmp_le c y x -> x = y.
Proof.
  unfold cmp_le. pose proof (lawful_pre (c := c)). rewrite (cmp_opp (c := c) y x).
  intros H1 H2. apply (cmp_eq (c := c)). by destruct (c x y).
Qed.

Lemma cmp_eq_iff `{!LawfulCmp c} x y : c x y = Eq <-> x = y.
Proof.
  split; [apply cmp_eq|]. intros ->. pose proof (lawful_pre (c := c)). apply cmp_refl.
Qed.
End order_lemmas.

#[export] Existing Instance lawful_pre.
#[export] Hint Opaque cmp_on cmp_reverse cmp_pair cmp_list cmp_option : typeclass_instances.
#[export] Hint Resolve cmp_le_refl cmp_gt_le : erabi.

(** A comparison given by a boolean total order. *)
Lemma pre_cmp_on {A K} (key : A -> K) (c : K -> K -> comparison) :
  PreCmp c -> PreCmp (cmp_on key c).
Proof.
  intros H. split; unfold cmp_on; intros; [apply cmp_opp|by eapply cmp_le_trans].
Qed.
#[export] Instance pre_cmp_on_instance {A K} (key : A -> K) (c : K -> K -> comparison)
  `{!PreCmp c} : PreCmp (cmp_on key c) := pre_cmp_on key c _.

Lemma lawful_cmp_on {A K} (key : A -> K) (c : K -> K -> comparison) :
  LawfulCmp c -> (forall x y, key x = key y -> x = y) -> LawfulCmp (cmp_on key c).
Proof.
  intros H Hinj. split; [apply _|]. unfold cmp_on. intros x y Hc. apply Hinj. by eapply cmp_eq.
Qed.

#[export] Instance Z_compare_lawful : LawfulCmp Z.compare.
Proof.
  split; [split|].
  - intros. apply Z.compare_antisym.
  - intros x y z. rewrite !Z.compare_le_iff. lia.
  - intros x y. apply Z.compare_eq_iff.
Qed.

#[export] Instance nat_compare_lawful : LawfulCmp Nat.compare.
Proof.
  split; [split|].
  - intros. apply Nat.compare_antisym.
  - intros x y z. rewrite !Nat.compare_le_iff. lia.
  - intros x y. apply Nat.compare_eq_iff.
Qed.

Lemma ascii_compare_trans a b d :
  Ascii.compare a b <> Gt -> Ascii.compare b d <> Gt -> Ascii.compare a d <> Gt.
Proof. unfold Ascii.compare. rewrite !N.compare_le_iff. lia. Qed.

Lemma ascii_compare_eq a b : Ascii.compare a b = Eq -> a = b.
Proof. apply Ascii.compare_eq_iff. Qed.

(** Lexicographic combination keeps both transitivity and antisymmetry. *)
Lemma cmp_lex_trans {A B} (ca : A -> A -> comparison) (cb : B -> B -> comparison)
    `{!PreCmp ca} x y z (p q r : B) :
  (cb p q <> Gt -> cb q r <> Gt -> cb p r <> Gt) ->
  cmp_lex (ca x y) (cb p q) <> Gt -> cmp_lex (ca y z) (cb q r) <> Gt ->
  cmp_lex (ca x z) (cb p r) <> Gt.
Proof.
  intros Hb H1 H2.
  pose proof (cmp_le_trans (c := ca) x y z) as T1.
  pose proof (cmp_le_trans (c := ca) z x y) as T2.
  pose proof (cmp_le_trans (c := ca) y z x) as T3.
  pose proof (cmp_opp (c := ca) z x) as O1. pose proof (cmp_opp (c := ca) y x) as O2.
  pose proof (cmp_opp (c := ca) z y) as O3.
  destruct (ca x y) eqn:E1, (ca y z) eqn:E2, (ca x z) eqn:E3; simpl in *;
    try congruence; try (by auto); rewrite ?O1, ?O2, ?O3 in *; simpl in *;
    exfalso; (apply T1 + apply T2 + apply T3); congruence.
Qed.

#[export] Instance cmp_pair_pre {A B} (ca : A -> A -> comparison) (cb : B -> B -> comparison)
  `{!PreCmp ca, !PreCmp cb} : PreCmp (cmp_pair ca cb).
Proof.
  split; unfold cmp_pair.
  - intros x y. rewrite (cmp_opp (c := ca) x.1), (cmp_opp (c := cb) x.2).
    by destruct (ca y.1 x.1).
  - intros x y z. apply cmp_lex_trans; [done|]. apply cmp_le_trans.
Qed.

#[export] Instance cmp_pair_lawful {A B} (ca : A -> A -> comparison) (cb : B -> B -> comparison)
  `{!LawfulCmp ca, !LawfulCmp cb} : LawfulCmp (cmp_pair ca cb).
Proof.
  split; [apply _|]. intros [a b] [a' b']. unfold cmp_pair; simpl.
  destruct (ca a a') eqn:Ha; simpl; [|done|done]. intros Hb.
  apply cmp_eq in Ha, Hb. congruence.
Qed.

#[export] Instance cmp_list_pre {A} (c : A -> A -> comparison) `{!PreCmp c} : PreCmp (cmp_list c).
Proof.
  split.
  - induction x as [|a l IH]; intros [|b k]; simpl; try done.
    rewrite (cmp_opp (c := c) a b), IH. by destruct (c b a).
  - induction x as [|a l IH]; intros [|b k] [|d m]; simpl; try done.
    apply cmp_lex_trans; [done|]. apply IH.
Qed.

#[export] Instance cmp_list_lawful {A} (c : A -> A -> comparison) `{!LawfulCmp c} :
  LawfulCmp (cmp_list c).
Proof.
  split; [apply _|]. induction x as [|a l IH]; intros [|b k]; simpl; try done.
  destruct (c a b) eqn:Hab; simpl; try done. intros Hl. f_equal; [by apply cmp_eq in Hab|by apply IH].
Qed.

#[export] Instance cmp_option_pre {A} (c : A -> A -> comparison) `{!PreCmp c} :
  PreCmp (cmp_option c).
Proof.
  split.
  - intros [x|] [y|]; simpl; try done. apply cmp_opp.
  - intros [x|] [y|] [z|]; simpl; try done. apply cmp_le_trans.
Qed.

#[export] Instance cmp_option_lawful {A} (c : A -> A -> comparison) `{!LawfulCmp c} :
  LawfulCmp (cmp_option c).
Proof.
  split; [apply _|]. intros [x|] [y|]; simpl; try done. intros H. f_equal. by eapply cmp_eq.
Qed.

#[export] Instance cmp_reverse_pre {A} (c : A -> A -> comparison) `{!PreCmp c} :
  PreCmp (cmp_reverse c).
Proof.
  split; unfold cmp_reverse; intros; [apply cmp_opp|by eapply cmp_le_trans].
Qed.

#[export] Instance cmp_reverse_lawful {A} (c : A -> A -> comparison) `{!LawfulCmp c} :
  LawfulCmp (cmp_reverse c).
Proof. split; [apply _|]. unfold cmp_reverse. intros x y H. symmetry. by eapply cmp_eq. Qed.

(** Strings compare bytewise, as Rust's do. *)
Lemma string_compare_bytes s t : String.compare s t = cmp_list Z.compare (bytes s) (bytes t).
Proof.
  revert t. induction s as [|a s IH]; intros [|b t]; simpl; try done.
  rewrite IH. unfold byte_of, cmp_lex. rewrite N2Z.inj_compare. unfold Ascii.compare.
  by destruct (_ ?= _)%N.
Qed.

#[export] Instance string_compare_lawful : LawfulCmp String.compare.
Proof.
  split; [split|].
  - intros. apply String.compare_antisym.
  - intros x y z. rewrite !string_compare_bytes. apply cmp_le_trans.
  - intros x y. apply String.compare_eq_iff.
Qed.

(** ** Sorting *)

Section sort_lemmas.
Context {A : Type} (c : A -> A -> comparison).

Lemma insert_sorted_perm x l : insert_sorted c x l ≡ₚ x :: l.
Proof.
  induction l as [|y l IH]; simpl; [done|]. destruct (c x y); try done.
  rewrite IH. apply perm_swap.
Qed.

Lemma sort_by_perm l : sort_by c l ≡ₚ l.
Proof. induction l as [|x l IH]; simpl; [done|]. by rewrite insert_sorted_perm, IH. Qed.

Lemma elem_of_sort_by x l : x ∈ sort_by c l <-> x ∈ l.
Proof. by rewrite sort_by_perm. Qed.

Lemma sort_by_length l : length (sort_by c l) = length l.
Proof. by rewrite sort_by_perm. Qed.

Lemma insert_sorted_Sorted `{!PreCmp c} x l :
  StronglySorted (cmp_le c) l -> StronglySorted (cmp_le c) (insert_sorted c x l).
Proof.
  induction 1 as [|y l Hl IH Hy]; simpl; [repeat constructor|].
  destruct (c x y) eqn:Hc.
  1,2: constructor; [by constructor|]; constructor; [by unfold cmp_le; rewrite Hc|];
    eapply Forall_impl; [exact Hy|]; intros z Hz; eapply cmp_le_trans; [|exact Hz];
    by rewrite Hc.
  constructor; [done|]. rewrite insert_sorted_perm. constructor; [|done]. by apply cmp_gt_le.
Qed.

Lemma sort_by_Sorted `{!PreCmp c} l : StronglySorted (cmp_le c) (sort_by c l).
Proof. induction l; simpl; [constructor|]. by apply insert_sorted_Sorted. Qed.

Lemma sorted_perm_unique_on `{!PreCmp c} l k :
  (forall x y, x ∈ l -> y ∈ l -> c x y = Eq -> x = y) ->
  StronglySorted (cmp_le c) l -> StronglySorted (cmp_le c) k -> l ≡ₚ k -> l = k.
Proof.
  intros Hid Hl. revert k. induction Hl as [|x l Hl IH Hx]; intros k Hk Hp.
  - symmetry. by apply Permutation_nil.
  - destruct Hk as [|y k Hk Hy]; [by apply Permutation_sym, Permutation_nil in Hp|].
    assert (Hyin : y ∈ x :: l) by (rewrite Hp; left).
    assert (x = y) as <-.
    { apply Hid; [left|done|]. rewrite Forall_forall in Hx, Hy.
      assert (cmp_le c x y) by
        (apply elem_of_cons in Hyin as [->|?]; [apply cmp_le_refl; apply _|by apply Hx]).
      assert (cmp_le c y x) by
        (assert (x ∈ y :: k) as [->|?]%elem_of_cons by (rewrite <- Hp; left);
          [apply cmp_le_refl; apply _|by apply Hy]).
      unfold cmp_le in *. rewrite (cmp_opp (c := c) x y) in *. by destruct (c y x). }
    f_equal. apply IH; [|done|by apply Permutation_cons_inv in Hp].
    intros a b Ha Hb. apply Hid; by right.
Qed.

Lemma sorted_perm_unique `{!LawfulCmp c} l k :
  StronglySorted (cmp_le c) l -> StronglySorted (cmp_le c) k -> l ≡ₚ k -> l = k.
Proof. apply sorted_perm_unique_on. intros x y _ _. apply cmp_eq. Qed.

Lemma sort_by_permutation `{!LawfulCmp c} l k : l ≡ₚ k -> sort_by c l = sort_by c k.
Proof.
  intros H. apply sorted_perm_unique; [apply sort_by_Sorted; apply _..|]. by rewrite !sort_by_perm.
Qed.

Lemma sort_by_sorted_id `{!PreCmp c} l : StronglySorted (cmp_le c) l -> sort_by c l = l.
Proof.
  induction 1 as [|x l Hl IH Hx]; simpl; [done|]. rewrite IH.
  destruct Hx as [|y l Hy _]; simpl; [done|]. unfold cmp_le in Hy. by destruct (c x y).
Qed.

Lemma sort_by_idem `{!PreCmp c} l : sort_by c (sort_by c l) = sort_by c l.
Proof. by apply sort_by_sorted_id, sort_by_Sorted. Qed.

(** Maxima *)
Let max_step (best : option A) (x : A) : option A :=
  match best with
  | None => Some x
  | Some b => match c b x with Gt => Some b | _ => Some x end
  end.

Lemma max_by_from `{!PreCmp c} l b m :
  foldl max_step (Some b) l = Some m ->
  m ∈ b :: l /\ cmp_le c b m /\ Forall (fun x => cmp_le c x m) l.
Proof.
  revert b. induction l as [|x l IH]; intros b; simpl.
  - intros [= ->]. split_and!; [left| |constructor]. by apply cmp_le_refl.
  - destruct (c b x) eqn:Hc; intros (Hin & Hle & Hall)%IH.
    1,2: split_and!; [set_solver| |by constructor]; eapply cmp_le_trans; [|exact Hle];
      by rewrite Hc.
    split_and!; [set_solver|done|]. constructor; [|done]. eapply cmp_le_trans; [|exact Hle].
    by apply cmp_gt_le.
Qed.

Lemma max_by_some `{!PreCmp c} l m :
  max_by c l = Some m -> m ∈ l /\ Forall (fun x => cmp_le c x m) l.
Proof.
  destruct l as [|x l]; [done|]. intros (Hin & Hle & Hall)%max_by_from.
  split; [done|by constructor].
Qed.

Lemma max_by_none l : max_by c l = None <-> l = [].
Proof.
  destruct l as [|x l]; [done|]. split; [|done]. change (foldl max_step (Some x) l = None -> x :: l = []).
  revert x. induction l as [|y l IH]; intros x; simpl; [done|].
  destruct (c x y); intros H%IH; discriminate.
Qed.

Lemma max_by_unique `{!LawfulCmp c} l m :
  m ∈ l -> Forall (fun x => cmp_le c x m) l -> max_by c l = Some m.
Proof.
  intros Hin Hall. destruct (max_by c l) as [n|] eqn:Hn.
  - apply max_by_some in Hn as [Hn Hle]. rewrite Forall_forall in *.
    f_equal. apply (cmp_le_antisym c); auto.
  - apply max_by_none in Hn as ->. by apply not_elem_of_nil in Hin.
Qed.

Lemma max_by_permutation `{!LawfulCmp c} l k : l ≡ₚ k -> max_by c l = max_by c k.
Proof.
  intros Hp. destruct (max_by c l) as [m|] eqn:Hm.
  - symmetry. apply max_by_some in Hm as [Hin Hall].
    apply max_by_unique; by rewrite <- Hp.
  - apply max_by_none in Hm as ->. apply Permutation_nil in Hp as ->. done.
Qed.

(** Minima *)
Let min_step (best : option A) (x : A) : option A :=
  match best with
  | None => Some x
  | Some b => match c b x with Gt => Some x | _ => Some b end
  end.

Lemma min_by_from `{!PreCmp c} l b m :
  foldl min_step (Some b) l = Some m ->
  m ∈ b :: l /\ cmp_le c m b /\ Forall (cmp_le c m) l.
Proof.
  revert b. induction l as [|x l IH]; intros b; simpl.
  - intros [= ->]. split_and!; [left| |constructor]. by apply cmp_le_refl.
  - destruct (c b x) eqn:Hc; intros (Hin & Hle & Hall)%IH.
    1,2: split_and!; [set_solver|done|]; constructor; [|done]; eapply cmp_le_trans; [exact Hle|];
      by rewrite Hc.
    split_and!; [set_solver| |by constructor]. eapply cmp_le_trans; [exact Hle|].
    by apply cmp_gt_le.
Qed.

Lemma min_by_some `{!PreCmp c} l m : min_by c l = Some m -> m ∈ l /\ Forall (cmp_le c m) l.
Proof.
  destruct l as [|x l]; [done|]. intros (Hin & Hle & Hall)%min_by_from.
  split; [done|by constructor].
Qed.

Lemma min_by_none l : min_by c l = None <-> l = [].
Proof.
  destruct l as [|x l]; [done|]. split; [|done]. change (foldl min_step (Some x) l = None -> x :: l = []).
  revert x. induction l as [|y l IH]; intros x; simpl; [done|].
  destruct (c x y); intros H%IH; discriminate.
Qed.

(** Deduplication *)
Lemma dedup_head x l : exists k, dedup c (x :: l) = x :: k.
Proof. simpl. destruct (dedup c l); [by eexists|]. destruct (c x _); by eexists. Qed.

Lemma elem_of_dedup `{!LawfulCmp c} x l : x ∈ dedup c l <-> x ∈ l.
Proof.
  induction l as [|y l IH]; [done|].
  rewrite elem_of_cons, <- IH. clear IH. simpl.
  destruct (dedup c l) as [|z k]; [by rewrite elem_of_cons|].
  destruct (c y z) eqn:Hc; [apply cmp_eq in Hc as ->|..]; rewrite !elem_of_cons; naive_solver.
Qed.
End sort_lemmas.

Lemma NoDup_map_inj {A K} (key : A -> K) (l : list A) x y :
  NoDup (map key l) -> x ∈ l -> y ∈ l -> key x = key y -> x = y.
Proof.
  intros Hnd [i Hi]%list_elem_of_lookup [j Hj]%list_elem_of_lookup Hk.
  assert (i = j) as ->; [|congruence].
  eapply (NoDup_lookup (key <$> l)); [done|..]; rewrite list_lookup_fmap;
    [by rewrite Hi|by rewrite Hj, Hk].
Qed.

(** Sorting by a key that does not repeat. *)
Lemma sort_by_key_permutation {A K} (key : A -> K) (c : K -> K -> comparison) `{!LawfulCmp c}
    (l k : list A) :
  NoDup (map key l) -> l ≡ₚ k -> sort_by (cmp_on key c) l = sort_by (cmp_on key c) k.
Proof.
  intros Hnd Hp. apply (sorted_perm_unique_on (cmp_on key c)).
  - intros x y Hx%elem_of_sort_by Hy%elem_of_sort_by Hc.
    eapply NoDup_map_inj; [done..|]. by eapply cmp_eq.
  - apply sort_by_Sorted. apply _.
  - apply sort_by_Sorted. apply _.
  - by rewrite !sort_by_perm.
Qed.

Lemma sort_by_map {A B} (f : A -> B) (c : A -> A -> comparison) (d : B -> B -> comparison) l :
  (forall x y, d (f x) (f y) = c x y) -> sort_by d (map f l) = map f (sort_by c l).
Proof.
  intros H. induction l as [|x l IH]; simpl; [done|]. rewrite IH. generalize (sort_by c l).
  induction l0 as [|y l0 IHl]; simpl; [done|]. rewrite H. destruct (c x y); simpl; congruence.
Qed.

Lemma cmp_le_Z x y : cmp_le Z.compare x y <-> x <= y.
Proof. done. Qed.

Lemma filter_sorted {A} (c : A -> A -> comparison) (P : A -> Prop) `{!forall x, Decision (P x)} l :
  StronglySorted (cmp_le c) l -> StronglySorted (cmp_le c) (filter P l).
Proof.
induction 1 as [|x l Hl IH Hx]; [constructor|]. rewrite filter_cons.
destruct (decide (P x)); [|done]. constructor; [done|].
rewrite Forall_forall in *. intros y [_ Hy]%list_elem_of_filter. by apply Hx.
Qed.

Lemma filter_filter_same {A} (P : A -> Prop) `{!forall x, Decision (P x)} (l : list A) :
  filter P (filter P l) = filter P l.
Proof. rewrite list_filter_filter. apply list_filter_iff. naive_solver. Qed.

#[export] Hint Resolve sort_by_perm sort_by_Sorted filter_sorted : erabi.

(** ** Ranges of parsed numbers, and maxima of integers *)

Lemma parse_digits_range m s n : 0 <= m -> parse_digits m s = Some n -> 0 <= n <= m.
Proof.
  intros Hm. unfold parse_digits. destruct s as [|c s]; [done|]. generalize (bytes (String c s)).
  intros l. assert (Hinv : forall a, (forall k, a = Some k -> 0 <= k <= m) -> forall k,
    foldl (fun acc b => match acc with
      | Some n => if is_ascii_digit b then
          let n' := n * 10 + (b - 48) in if n' <=? m then Some n' else None else None
      | None => None end) a l = Some k -> 0 <= k <= m).
  { induction l as [|b l IH]; intros a Ha k; simpl; [apply Ha|]. apply IH.
    intros k'. destruct a as [j|]; [|done]. destruct (is_ascii_digit b) eqn:Hb; [|done].
    unfold is_ascii_digit in Hb. boolify. destruct (Z.leb_spec (j * 10 + (b - 48)) m); [|done].
    intros [= <-]. specialize (Ha j eq_refl). lia. }
  apply Hinv. intros k [= <-]. lia.
Qed.

Lemma parse_unsigned_range m s n : 0 <= m -> parse_unsigned m s = Some n -> 0 <= n <= m.
Proof.
  intros Hm. unfold parse_unsigned. destruct s as [|c s]; [by apply parse_digits_range|].
  destruct c as [[] [] [] [] [] [] [] []]; by apply parse_digits_range.
Qed.

Lemma foldl_max_ge l m : m <= foldl (fun m x => Z.max m x) m l /\ Forall (fun x => x <= foldl (fun m x => Z.max m x) m l) l.
Proof.
  revert m. induction l as [|x l IH]; intros m; simpl; [split; [lia|constructor]|].
  destruct (IH (Z.max m x)) as [H1 H2]. split; [lia|]. constructor; [lia|done].
Qed.

Lemma foldl_max_in l m : foldl (fun m x => Z.max m x) m l = m \/ foldl (fun m x => Z.max m x) m l ∈ l.
Proof.
  revert m. induction l as [|x l IH]; intros m; simpl; [by left|].
  destruct (IH (Z.max m x)) as [-> |H]; [|by right; right].
  destruct (Z.max_spec m x) as [[_ ->]|[_ ->]]; [right; left|by left].
Qed.

Lemma foldl_map_max {A} (f : A -> Z) l m :
  foldl (fun m x => Z.max m (f x)) m l = foldl (fun m x => Z.max m x) m (map f l).
Proof. revert m. induction l; intros m; simpl; auto. Qed.
