(* ===== verification/Externals.v ===== *)
(** * The libraries the program calls

    Rust crates outside the repository ([uuid], [url], [regex], [psl], the
    standard library's [IpAddr] parser, [serde_json]'s data) as interfaces.  An
    operation is a field of a [Class]; what the program relies on beyond the
    types is a field of a separate [...Laws] class, so that a theorem shows by its
    context whether it relies on documented behaviour or on none.  [Instances.v]
    gives implementations that satisfy every law. *)

From S2P Require Import Prelude.

(** ** uuid *)

(** [uuid::Uuid]: [to_string], [parse_str], [get_version_num], and the supply of identifiers
    [Uuid::now_v7] draws from, indexed by the number of calls made before. *)
Class UuidLib := {
  uuid : Type;
  uuid_eq_dec :: EqDecision uuid;
  uuid_to_string : uuid -> string;
  uuid_parse_str : string -> option uuid;
  uuid_version : uuid -> Z;
  uuid_now_v7 : nat -> uuid
}.

(** The hyphenated form is read back, and [now_v7] yields pairwise distinct
    identifiers of version 7. *)
Class UuidLaws (U : UuidLib) : Prop := {
  uuid_parse_to_string : forall a, uuid_parse_str (uuid_to_string a) = Some a;
  uuid_now_v7_version : forall n, uuid_version (uuid_now_v7 n) = 7;
  uuid_now_v7_inj : forall n m, uuid_now_v7 n = uuid_now_v7 m -> n = m
}.

Lemma uuid_to_string_inj `{Laws : UuidLaws} a b : uuid_to_string a = uuid_to_string b -> a = b.
Proof. intros H%(f_equal uuid_parse_str). rewrite !uuid_parse_to_string in H. congruence. Qed.

(** ** url *)

(** [url::Url] with the accessors and setters the program calls.  A setter that
    returns [Result<(), ()>] leaves the URL alone on [Err]. *)
Class UrlLib := {
  url : Type;
  url_eq_dec :: EqDecision url;
  url_parse : string -> option url;
  url_as_str : url -> string;
  url_scheme : url -> string;
  url_username : url -> string;
  url_password : url -> option string;
  url_host_str : url -> option string;
  url_port : url -> option Z;
  url_path : url -> string;
  url_query : url -> option string;
  url_fragment : url -> option string;
  (** [url.query_pairs()] *)
  url_query_pairs : url -> list (string * string);
  url_set_scheme : url -> string -> option url;
  url_set_host : url -> option string -> option url;
  url_set_port : url -> option Z -> option url;
  url_set_path : url -> string -> url;
  url_set_query : url -> option string -> url;
  url_set_fragment : url -> option string -> url;
  (** the key of [form_urlencoded::parse(bytes).next()] *)
  form_urlencoded_first_key : string -> option string
}.

Definition http_or_https (scheme : string) : bool :=
  String.eqb scheme "http" || String.eqb scheme "https".

(** The components of a URL. *)
Record url_view := {
  v_scheme : string;
  v_username : string;
  v_password : option string;
  v_host : option string;
  v_port : option Z;
  v_path : string;
  v_query : option string;
  v_fragment : option string
}.

Definition view `{L : UrlLib} (u : url) : url_view :=
  {| v_scheme := url_scheme u; v_username := url_username u; v_password := url_password u;
     v_host := url_host_str u; v_port := url_port u; v_path := url_path u;
     v_query := url_query u; v_fragment := url_fragment u |}.

Definition with_port (p : option Z) (v : url_view) : url_view :=
  Build_url_view (v_scheme v) (v_username v) (v_password v) (v_host v) p (v_path v)
    (v_query v) (v_fragment v).
Definition with_query (q : option string) (v : url_view) : url_view :=
  Build_url_view (v_scheme v) (v_username v) (v_password v) (v_host v) (v_port v) (v_path v)
    q (v_fragment v).
Definition with_fragment (f : option string) (v : url_view) : url_view :=
  Build_url_view (v_scheme v) (v_username v) (v_password v) (v_host v) (v_port v) (v_path v)
    (v_query v) f.

(** A URL the crawler may visit: HTTP(S), a host and no user information. *)
Definition crawlable (v : url_view) : Prop :=
  http_or_https (v_scheme v) = true /\ is_Some (v_host v) /\
  v_username v = EmptyString /\ v_password v = None.

(** The bytes that end an authority or separate its parts. *)
Definition authority_byte (c : ascii) : bool :=
  Ascii.eqb c "/" || Ascii.eqb c "?" || Ascii.eqb c "#" || Ascii.eqb c "@".

(** The text of the port in a serialised URL. *)
Definition port_text (port : option Z) (t : string) : Prop :=
  match port with
  | None => t = EmptyString
  | Some p => exists digits, t = String ":" digits /\ parse_unsigned u16_max digits = Some p /\
      str_contains (fun c => authority_byte c || Ascii.eqb c ":" || Ascii.eqb c "]") digits = false
  end.

Class UrlLaws (L : UrlLib) : Prop := {
  (** a serialised URL parses back to itself *)
  url_parse_as_str : forall u, url_parse (url_as_str u) = Some u;
  (** a crawlable URL is serialised as scheme, host, port, path and the rest *)
  url_serialized : forall u h, crawlable (view u) -> url_host_str u = Some h ->
    exists port rest, port_text (url_port u) port /\
      url_as_str u = (url_scheme u ++ "://" ++ h ++ port ++ url_path u ++ rest)%string;
  (** schemes, and the hosts of HTTP(S) URLs, are serialised in lower case *)
  url_scheme_lower : forall u, to_ascii_lowercase (url_scheme u) = url_scheme u;
  url_host_lower : forall u h, http_or_https (url_scheme u) = true ->
    url_host_str u = Some h -> to_ascii_lowercase h = h;
  (** only an IPv6 host, in brackets, holds a colon *)
  url_host_text : forall u h, http_or_https (url_scheme u) = true -> url_host_str u = Some h ->
    str_contains authority_byte h = false /\
    (str_contains (fun c => Ascii.eqb c ":" || Ascii.eqb c "]") h = false \/
     exists x, h = (String "[" x ++ "]")%string /\ contains_ch "]" x = false);
  (** a default port is not stored *)
  url_port_not_default : forall u p, url_port u = Some p ->
    (url_scheme u = "http"%string -> p <> 80) /\ (url_scheme u = "https"%string -> p <> 443);
  (** the path of an HTTP(S) URL starts with a slash *)
  url_path_absolute : forall u, http_or_https (url_scheme u) = true ->
    exists p, url_path u = String "/" p;
  (** setting a component to its present value changes nothing *)
  url_set_scheme_same : forall u, url_set_scheme u (url_scheme u) = Some u;
  url_set_host_same : forall u h, url_host_str u = Some h -> url_set_host u (Some h) = Some u;
  url_set_query_same : forall u, url_set_query u (url_query u) = u;
  url_set_fragment_same : forall u, url_set_fragment u (url_fragment u) = u;
  (** the port of a crawlable URL can be removed *)
  url_set_port_crawlable : forall u, crawlable (view u) -> is_Some (url_set_port u None);
  (** a setter changes its own component only *)
  url_set_port_view : forall u u', url_set_port u None = Some u' ->
    view u' = with_port None (view u);
  url_set_fragment_view : forall u, view (url_set_fragment u None) = with_fragment None (view u);
  url_set_query_view : forall u q,
    view (url_set_query u q) = with_query (url_query (url_set_query u q)) (view u);
  url_set_query_none : forall u, url_query (url_set_query u None) = None;
  (** text made of [&] and of characters of the present query, which is
      percent-encoded already, is stored as it is *)
  url_set_query_encoded : forall u q0 q, url_query u = Some q0 ->
    (forall ch, contains_ch ch q = true -> contains_ch ch q0 = true \/ ch = "&"%char) ->
    url_query (url_set_query u (Some q)) = Some q
}.

(** [Url::join], as [.ok()] of its result. *)
Class UrlJoin (L : UrlLib) := { url_join : url -> string -> option url }.

(** ** regex *)

(** [regex::Regex::new], [is_match] and [regex::escape]. *)
Class RegexLib := {
  regex : Type;
  regex_new : string -> option regex;
  regex_is_match : regex -> string -> bool;
  regex_escape : string -> string
}.

(** ** Hosts *)

(** [s.parse::<IpAddr>().is_ok()] and [psl::domain], the public suffix list. *)
Class HostLib := {
  parses_as_ip : string -> bool;
  psl_domain : string -> option string
}.

(** ** serde_json *)

(** [serde_json::Value]; a number is kept as its rendered text, an object as its
    entries. *)
Inductive Json :=
| JNull
| JBool (b : bool)
| JNumber (text : string)
| JString (s : string)
| JArray (items : list Json)
| JObject (entries : list (string * Json)).

(** [value.get(key)], [value.as_str()], [value.as_u64()]. *)
Definition json_get (key : string) (v : Json) : option Json :=
  match v with
  | JObject entries => snd <$> List.find (fun e => String.eqb e.1 key) entries
  | _ => None
  end.
Definition json_as_str (v : Json) : option string :=
  match v with JString s => Some s | _ => None end.
Definition json_as_u64 (v : Json) : option Z :=
  match v with JNumber t => parse_unsigned u64_max t | _ => None end.

(** [serde_json::to_string] of a string. *)
Class JsonLib := { json_string : string -> string }.

(** It is quoted, and escaped so that its end can be told. *)
Class JsonLaws (J : JsonLib) : Prop := {
  json_string_quoted : forall s, exists t, json_string s = String "034" t;
  json_string_prefix_free : forall s s' r r',
    (json_string s ++ r = json_string s' ++ r')%string -> s = s' /\ r = r'
}.

(** Values that differ only in the order of object entries, at any depth; the keys
    of an object are distinct. *)
Inductive json_equiv : Json -> Json -> Prop :=
| equiv_null : json_equiv JNull JNull
| equiv_bool b : json_equiv (JBool b) (JBool b)
| equiv_number t : json_equiv (JNumber t) (JNumber t)
| equiv_string s : json_equiv (JString s) (JString s)
| equiv_array l l' : Forall2 json_equiv l l' -> json_equiv (JArray l) (JArray l')
| equiv_object l l1 l' :
    NoDup (map fst l) ->
    Forall2 (fun e e' => e.1 = e'.1 /\ json_equiv e.2 e'.2) l l1 -> l1 ≡ₚ l' ->
    json_equiv (JObject l) (JObject l').

(** A JSON number as [serde_json] renders it, and values whose numbers are such and
    whose objects have distinct keys. *)
Definition number_char (c : ascii) : bool :=
  is_ascii_digit (byte_of c) || Ascii.eqb c "-" || Ascii.eqb c "+" || Ascii.eqb c "."
  || Ascii.eqb c "e" || Ascii.eqb c "E".
Definition number_text (t : string) : bool :=
  match t with
  | String c _ => (is_ascii_digit (byte_of c) || Ascii.eqb c "-") && negb (str_contains (fun x => negb (number_char x)) t)
  | EmptyString => false
  end.

Fixpoint json_wf (v : Json) : bool :=
  match v with
  | JNumber t => number_text t
  | JArray l => forallb json_wf l
  | JObject l => bool_decide (NoDup (map fst l)) && forallb (fun e => json_wf e.2) l
  | _ => true
  end.

(** [serde_json::to_string] and [serde_json::from_str] of a [Value]. *)
Class SerdeLib := {
  json_to_string : Json -> string;
  json_from_str : string -> option Json
}.

(** Text written from a value reads back as that value; objects are maps, so the
    order of their entries may change. *)
Class SerdeLaws (S : SerdeLib) : Prop := {
  json_round_trip : forall v, json_wf v = true ->
    exists v', json_from_str (json_to_string v) = Some v' /\ json_equiv v v'
}.

(** ** sha2 *)

(** [Sha256::digest]: 32 bytes. *)
Class HashLib := { sha256 : string -> list Z }.

Class HashLaws (H : HashLib) : Prop := {
  sha256_length : forall s, length (sha256 s) = 32%nat;
  sha256_bytes : forall s, Forall in_u8 (sha256 s)
}.

(** ** Induction on JSON values *)

Section json_induction.
Context (P : Json -> Prop).
Context (Hnull : P JNull) (Hbool : forall b, P (JBool b)) (Hnumber : forall t, P (JNumber t)).
Context (Hstring : forall s, P (JString s)).
Context (Harray : forall l, Forall P l -> P (JArray l)).
Context (Hobject : forall l, Forall (fun e => P e.2) l -> P (JObject l)).

Fixpoint json_induction (v : Json) : P v :=
  match v with
  | JNull => Hnull
  | JBool b => Hbool b
  | JNumber t => Hnumber t
  | JString s => Hstring s
  | JArray l =>
    Harray l ((fix all l := match l return Forall P l with
      | [] => Forall_nil_2 P
      | x :: k => Forall_cons_2 P x k (json_induction x) (all k)
      end) l)
  | JObject l =>
    Hobject l ((fix all l := match l return Forall (fun e : string * Json => P e.2) l with
      | [] => Forall_nil_2 _
      | x :: k => Forall_cons_2 (fun e : string * Json => P e.2) x k (json_induction x.2) (all k)
      end) l)
  end.
End json_induction.
