(* ===== verification/JsonFacts.v ===== *)
(** * Facts of JSON values

    Reading fields of equivalent objects, numbers as text, and well-formedness. *)

From stdpp Require Import pretty.
From S2P Require Import Prelude Externals.

Lemma json_wf_items l : forallb json_wf l = true -> Forall (fun v => json_wf v = true) l.
Proof. intros H. apply Forall_forall. intros v Hv%list_elem_of_In. by eapply forallb_forall in H. Qed.

Lemma json_wf_entries l :
  json_wf (JObject l) = true -> NoDup (map fst l) /\ Forall (fun e => json_wf e.2 = true) l.
Proof.
  simpl. intros [Hnd%bool_decide_eq_true H]%andb_true_iff. split; [done|].
  apply Forall_forall. intros e He%list_elem_of_In. eapply forallb_forall in H; [|done]. done.
Qed.

Lemma json_equiv_refl v : json_wf v = true -> json_equiv v v.
Proof.
  induction v as [| | | |l IH|l IH] using json_induction; intros Hwf; try by constructor.
  - apply json_wf_items in Hwf. constructor. apply Forall_Forall2_diag.
    eapply Forall_impl; [exact (proj2 (Forall_and _ _) (conj IH Hwf))|]. simpl. tauto.
  - apply json_wf_entries in Hwf as [Hnd Hwf]. apply (equiv_object l l l); [done| |done].
    apply Forall_Forall2_diag.
    eapply Forall_impl; [exact (proj2 (Forall_and _ _) (conj IH Hwf))|]. simpl. tauto.
Qed.

Definition all_number_chars (s : string) : bool :=
  negb (str_contains (fun c => negb (number_char c)) s).

Lemma pretty_char x : is_ascii_digit (byte_of (pretty_N_char x)) = true.
Proof. unfold pretty_N_char. by repeat case_match. Qed.

Lemma pretty_go_text x s :
  all_number_chars s = true -> (x = 0%N -> number_text s = true) ->
  number_text (pretty_N_go x s) = true.
Proof.
  revert s. induction (N.lt_wf_0 x) as [x _ IH]; intros s Hs Hx.
  destruct (decide (x = 0%N)) as [->|Hne]; [rewrite pretty_N_go_0; by apply Hx|].
  pose proof (pretty_char (x mod 10)) as Hd.
  assert (Hc : all_number_chars (String (pretty_N_char (x mod 10)) s) = true).
  { unfold all_number_chars in *; simpl. unfold number_char at 1. by rewrite Hd. }
  rewrite pretty_N_go_step by lia. apply IH; [apply N.div_lt; lia|done|].
  intros _. unfold number_text. rewrite Hd. exact Hc.
Qed.

Lemma pretty_N_text (x : N) : number_text (pretty x) = true.
Proof.
  unfold pretty, pretty_N. case_decide; [done|]. by apply pretty_go_text.
Qed.

Lemma pretty_Z_text (z : Z) : number_text (pretty z) = true.
Proof.
  destruct z as [|p|p]; [done|apply (pretty_N_text (N.pos p))|].
  change (number_text (String "-" (pretty (N.pos p))) = true).
  pose proof (pretty_N_text (N.pos p)) as H. revert H. unfold number_text.
  destruct (pretty (N.pos p)); [done|]. intros [_ H]%andb_true_iff. exact H.
Qed.

Lemma array_json_wf {A} (f : A -> Json) l :
  (forall a, json_wf (f a) = true) -> json_wf (JArray (map f l)) = true.
Proof. intros H. simpl. induction l; simpl; [done|]. by rewrite H. Qed.

Lemma object_json_wf l :
  bool_decide (NoDup (map fst l)) = true -> Forall (fun e => json_wf e.2 = true) l ->
  json_wf (JObject l) = true.
Proof.
  intros Hl H. simpl. rewrite Hl. simpl. apply forallb_forall. intros e He%list_elem_of_In.
  rewrite Forall_forall in H. by apply H.
Qed.

Ltac json_entries :=
  first [apply Forall_nil_2 | apply Forall_cons_2; [cbn [fst snd]|json_entries]].
Ltac json_object := apply object_json_wf; [reflexivity|json_entries].


(** ** Reading fields *)

Lemma json_get_elem k l x : NoDup (map fst l) -> json_get k (JObject l) = Some x <-> (k, x) ∈ l.
Proof.
  intros Hnd. simpl. induction l as [|[k' y] l IH]; simpl in *.
  - split; [done|]. by intros ?%not_elem_of_nil.
  - apply NoDup_cons in Hnd as [Hk Hnd]. destruct (String.eqb_spec k' k) as [->|Hne]; simpl.
    + split; [intros [= ->]; left|]. intros [[= ->]|Hin]%elem_of_cons; [done|].
      destruct Hk. apply elem_of_map. by exists (k, x).
    + rewrite IH by done. rewrite elem_of_cons. naive_solver.
Qed.

Lemma json_equiv_object l v' :
  json_equiv (JObject l) v' -> exists l', v' = JObject l' /\ NoDup (map fst l) /\ NoDup (map fst l') /\
    exists l1, Forall2 (fun e e' => e.1 = e'.1 /\ json_equiv e.2 e'.2) l l1 /\ l1 ≡ₚ l'.
Proof.
  intros H. inversion H as [| | | | |l0 l1 l' Hnd Hf Hp]; subst. exists l'. split; [done|].
  split; [done|]. split; [|by exists l1]. rewrite <- Hp.
  assert (map fst l1 = map fst l) as ->; [|done].
  clear -Hf. induction Hf as [|e e' l l1 [He _] _ IH]; simpl; [done|]. by rewrite He, IH.
Qed.

(** Equivalent objects have equivalent fields. *)
Lemma json_get_equiv k v v' :
  json_equiv v v' ->
  match json_get k v, json_get k v' with
  | Some x, Some x' => json_equiv x x'
  | None, None => True
  | _, _ => False
  end.
Proof.
  destruct v as [| | | | |l]; try (intros H; inversion H; subst; simpl; exact I).
  intros (l' & -> & Hnd & Hnd' & l1 & Hf & Hp)%json_equiv_object.
  destruct (json_get k (JObject l)) as [x|] eqn:Hx, (json_get k (JObject l')) as [x'|] eqn:Hx'; [| | |done].
  - apply json_get_elem in Hx, Hx'; [|done..]. rewrite <- Hp in Hx'.
    apply list_elem_of_lookup in Hx as [i Hi].
    destruct (Forall2_lookup_l _ _ _ _ _ Hf Hi) as ([k1 y] & Hy & Hk & Hxy). cbn [fst snd] in *. subst k1.
    apply list_elem_of_lookup_2 in Hy.
    assert (Hnd1 : NoDup (map fst l1)) by (by rewrite Hp).
    by pose proof (NoDup_map_inj fst l1 _ _ Hnd1 Hy Hx' eq_refl) as [= ->].
  - apply json_get_elem in Hx; [|done]. apply list_elem_of_lookup in Hx as [i Hi].
    destruct (Forall2_lookup_l _ _ _ _ _ Hf Hi) as ([k1 y] & Hy & Hk & Hxy). cbn [fst snd] in *. subst k1.
    apply list_elem_of_lookup_2 in Hy. rewrite Hp in Hy. apply json_get_elem in Hy; [|done]. congruence.
  - apply json_get_elem in Hx'; [|done]. rewrite <- Hp in Hx'. apply list_elem_of_lookup in Hx' as [i Hi].
    destruct (Forall2_lookup_r _ _ _ _ _ Hf Hi) as ([k1 y] & Hy & Hk & Hxy). cbn [fst snd] in *. subst k1.
    apply list_elem_of_lookup_2 in Hy. apply json_get_elem in Hy; [|done]. congruence.
Qed.

Lemma json_equiv_string s v : json_equiv (JString s) v -> v = JString s.
Proof. intros H. by inversion H. Qed.
Lemma json_equiv_number s v : json_equiv (JNumber s) v -> v = JNumber s.
Proof. intros H. by inversion H. Qed.
Lemma json_equiv_null v : json_equiv JNull v -> v = JNull.
Proof. intros H. by inversion H. Qed.
Lemma json_equiv_bool b v : json_equiv (JBool b) v -> v = JBool b.
Proof. intros H. by inversion H. Qed.

(** ** Comparing values *)

(** [Value::eq]: the entries of an object are compared as a map. *)
Fixpoint json_eqb (v w : Json) : bool :=
  match v, w with
  | JNull, JNull => true
  | JBool a, JBool b => Bool.eqb a b
  | JNumber a, JNumber b | JString a, JString b => String.eqb a b
  | JArray l, JArray k =>
    (fix go (l k : list Json) : bool :=
       match l, k with
       | [], [] => true
       | x :: l', y :: k' => json_eqb x y && go l' k'
       | _, _ => false
       end) l k
  | JObject l, JObject k =>
    Nat.eqb (length l) (length k)
    && (fix all (l : list (string * Json)) : bool :=
          match l with
          | [] => true
          | e :: l' => match json_get e.1 (JObject k) with
                       | Some y => json_eqb e.2 y | None => false end && all l'
          end) l
  | _, _ => false
  end.

Lemma json_eqb_equiv v w : json_equiv v w -> json_eqb v w = true.
Proof.
  revert w. induction v as [|b|t|s|l IH|l IH] using json_induction; intros w Hw.
  - by rewrite (json_equiv_null _ Hw).
  - rewrite (json_equiv_bool _ _ Hw). apply Bool.eqb_true_iff. done.
  - rewrite (json_equiv_number _ _ Hw). apply String.eqb_refl.
  - rewrite (json_equiv_string _ _ Hw). apply String.eqb_refl.
  - inversion Hw as [| | | |l0 k Hf|]; subst. simpl. clear Hw. revert IH.
    induction Hf as [|x y l k Hxy Hf IHf]; intros HF; [done|].
    apply Forall_cons in HF as [Hx HF]. by rewrite (Hx y Hxy), (IHf HF).
  - destruct (json_equiv_object _ _ Hw) as (k & -> & Hnd & _ & l1 & Hf & Hp).
    cbn [json_eqb]. rewrite (Forall2_length _ _ _ Hf), Hp, Nat.eqb_refl. cbn [andb].
    assert (Hall : Forall (fun e => match json_get e.1 (JObject k) with
                                    | Some y => json_eqb e.2 y | None => false end = true) l).
    { apply Forall_forall. intros [key x] Hin. cbn [fst snd].
      pose proof (json_get_equiv key _ _ Hw) as Hg.
      rewrite (proj2 (json_get_elem key l x Hnd) Hin) in Hg.
      destruct (json_get key (JObject k)) as [y|]; [|by destruct Hg].
      rewrite Forall_forall in IH. by apply (IH (key, x) Hin). }
    clear -Hall. induction Hall as [|e l He Hl IHl]; [done|]. by rewrite He, IHl.
Qed.

(** ** Numbers as text *)

Lemma pretty_char_value x :
  (x < 10)%N -> byte_of (pretty_N_char x) = 48 + Z.of_N x.
Proof.
  intros Hx. assert (x = 0 \/ x = 1 \/ x = 2 \/ x = 3 \/ x = 4 \/ x = 5 \/ x = 6 \/ x = 7 \/ x = 8
    \/ x = 9)%N as H by lia. by repeat destruct H as [-> |H]; subst.
Qed.

Definition digit_step (max : Z) (acc : option Z) (b : Z) : option Z :=
  match acc with
  | Some n => if is_ascii_digit b then let n' := n * 10 + (b - 48) in if n' <=? max then Some n' else None else None
  | None => None
  end.

Lemma parse_digits_step max c s :
  parse_digits max (String c s) = foldl (digit_step max) (Some 0) (bytes (String c s)).
Proof. done. Qed.

Lemma pretty_go_parse max x s :
  Z.of_N x <= max ->
  foldl (digit_step max) (Some 0) (bytes (pretty_N_go x s))
  = foldl (digit_step max) (Some (Z.of_N x)) (bytes s).
Proof.
  revert s. induction (N.lt_wf_0 x) as [x _ IH]; intros s Hx.
  destruct (decide (x = 0%N)) as [->|Hne]; [by rewrite pretty_N_go_0|].
  assert (Hdiv : (x / 10 < x)%N) by (apply N.div_lt; lia).
  rewrite pretty_N_go_step by lia. rewrite IH by lia. simpl. unfold digit_step at 2.
  rewrite pretty_char. rewrite pretty_char_value by (apply N.mod_lt; lia).
  assert (Z.of_N (x / 10) * 10 + (48 + Z.of_N (x mod 10) - 48) = Z.of_N x) as ->.
  { pose proof (N.div_mod x 10). lia. }
  assert ((Z.of_N x <=? max) = true) as -> by (by apply Z.leb_le). done.
Qed.

(** A machine integer is read back from its text. *)
Lemma parse_unsigned_pretty max (z : Z) : 0 <= z <= max -> parse_unsigned max (pretty z) = Some z.
Proof.
  intros [H0 Hmax]. assert (Hgo : exists x, z = Z.of_N x) by (exists (Z.to_N z); lia).
  destruct Hgo as [x ->]. destruct (decide (x = 0%N)) as [->|Hne].
  { change (parse_unsigned max "0" = Some 0). unfold parse_unsigned. rewrite parse_digits_step.
    change (digit_step max (Some 0) 48 = Some 0). unfold digit_step.
    change (is_ascii_digit 48) with true. cbv iota zeta. change (0 * 10 + (48 - 48)) with 0.
    by assert ((0 <=? max) = true) as -> by (by apply Z.leb_le). }
  assert (pretty (Z.of_N x) = pretty_N_go x EmptyString) as ->.
  { destruct x as [|p]; [done|].
    change (pretty (N.pos p) = pretty_N_go (N.pos p) EmptyString).
    unfold pretty, pretty_N. by case_decide. }
  pose proof (pretty_go_parse max x EmptyString Hmax) as Hp.
  pose proof (pretty_go_text x EmptyString eq_refl (fun H => False_ind _ (Hne H))) as Ht.
  unfold number_text in Ht.
  destruct (pretty_N_go x EmptyString) as [|c t]; [done|].
  unfold parse_unsigned. rewrite <- parse_digits_step in Hp. simpl in Hp.
  destruct c as [[] [] [] [] [] [] [] []]; try exact Hp. done.
Qed.
