(* ===== verification/Base.v ===== *)
(** * Errors, identifiers and statuses

    [crates/erabi-domain/src]: [error.rs], [id.rs], [status.rs],
    [crawl_execution.rs], [naming.rs], [seed.rs], [source.rs]. *)

From S2P Require Import Prelude Externals.

(** ** Errors ([error.rs]) *)

Inductive ErrorCode :=
| SchemaDrift | AmbiguousPageType | UnresolvedReference | StorageCritical
| CrawlerUnavailable | ValidationError | Conflict | NotFound | AccessDenied
| CrawlerTimeout | InvalidCanonicalizationPolicy | InvalidUrl | UnsupportedUrlScheme
| InvalidDomainScope | InvalidDomainScopeRule | RegistrableDomainUnavailable
| InvalidDiscoveryTransition | InvalidCrawlGuardrails | InvalidPageTypeBudget
| InvalidTransitionBudget | BudgetOverflow.

#[export] Instance error_code_eq_dec : EqDecision ErrorCode.
Proof. solve_decision. Defined.

Record SuggestedAction := { label : string; action : string }.

Record ProductError := {
  code : ErrorCode;
  safe_message : string;
  details : Json;
  recoverable : bool;
  suggested_actions : list SuggestedAction;
  trace_id : string
}.

Definition with_code (c : ErrorCode) (message : string) : ProductError :=
  {| code := c; safe_message := message; details := JNull; recoverable := false;
     suggested_actions := []; trace_id := EmptyString |}.

Definition conflict (message : string) : ProductError :=
  {| code := Conflict; safe_message := message; details := JNull; recoverable := false;
     suggested_actions := []; trace_id := EmptyString |}.

(** ** Identifiers ([id.rs])

    One phantom-typed wrapper stands for the newtypes of [typed_uuid_id!]. *)

Inductive id_kind :=
| CrawlerKind | CrawlerVersionKind | SeedKind | PageTypeKind | DiscoveryTransitionKind
| SourceKind | CollectionKind | RunProfileKind | TestEvidenceKind | CrawlRunKind
| CrawlExecutionKind | ArtifactKind | CanonicalizationPolicyKind | DomainScopeKindId.

Section ids.
Context `{U : UuidLib}.

Record typed_id (k : id_kind) := mk_id { as_uuid : uuid }.
Arguments mk_id {k} _.
Arguments as_uuid {k} _.

#[export] Instance typed_id_eq_dec k : EqDecision (typed_id k).
Proof. solve_decision. Defined.

(** [new()] after [n] earlier identifiers. *)
Definition new_id {k} (n : nat) : typed_id k := mk_id (uuid_now_v7 n).

Definition from_uuid {k} (value : uuid) : option (typed_id k) :=
  if uuid_version value =? 7 then Some (mk_id value) else None.

Definition id_to_string {k} (i : typed_id k) : string := uuid_to_string (as_uuid i).

Definition CrawlerId := typed_id CrawlerKind.
Definition CrawlerVersionId := typed_id CrawlerVersionKind.
Definition SeedId := typed_id SeedKind.
Definition PageTypeId := typed_id PageTypeKind.
Definition DiscoveryTransitionId := typed_id DiscoveryTransitionKind.
Definition SourceId := typed_id SourceKind.
Definition CollectionId := typed_id CollectionKind.
Definition RunProfileId := typed_id RunProfileKind.
Definition TestEvidenceId := typed_id TestEvidenceKind.
Definition CrawlRunId := typed_id CrawlRunKind.
Definition CrawlExecutionId := typed_id CrawlExecutionKind.
Definition ArtifactId := typed_id ArtifactKind.
End ids.
Arguments mk_id {U k} _.
Arguments as_uuid {U k} _.

(** ** Statuses ([status.rs], [crawl_execution.rs]) *)

Inductive CrawlRunType := QuickScrape | TestRun | DiscoveryPreview | ProductionRun.
Inductive CrawlRunStatus :=
| RunQueued | RunRunning | RunSucceeded | RunPartialResult | RunFailed | RunCancelled.
Inductive SourceTargetType := WebPage | FileAsset.
Inductive SourceStatus := SourceActive | SourceArchived | SourceTrashed.

Inductive CrawlExecutionOutcome :=
| ExecutionCompleted | ExecutionPartial | ExecutionFailed | ExecutionCancelled.
Inductive CrawlExecutionErrorCode :=
| ExecAccessDenied | ExecNotFound | ExecTimeout | ExecProviderUnavailable
| ExecInvalidResponse | ExecRateLimited | ExecRemoteFailure | ExecUnsupportedCapability
| ExecPartialResult | ExecCancelled | ExecRobotsExcluded | ExecPageTypeAmbiguous
| ExecStoragePressure.

#[export] Instance run_type_eq_dec : EqDecision CrawlRunType.
Proof. solve_decision. Defined.
#[export] Instance run_status_eq_dec : EqDecision CrawlRunStatus.
Proof. solve_decision. Defined.
#[export] Instance execution_outcome_eq_dec : EqDecision CrawlExecutionOutcome.
Proof. solve_decision. Defined.
#[export] Instance execution_error_eq_dec : EqDecision CrawlExecutionErrorCode.
Proof. solve_decision. Defined.

(** ** Seeds and sources ([seed.rs], [source.rs]) *)

Section seeds.
Context `{U : UuidLib} `{L : UrlLib}.

Record Seed := {
  seed_id : SeedId;
  original_url : url;
  canonical_url : url;
  enabled : bool;
  seed_label : option string;
  entry_page_type_hint : option PageTypeId
}.

Definition new_seed (n : nat) (original canonical : url) : Seed :=
  {| seed_id := new_id n; original_url := original; canonical_url := canonical;
     enabled := true; seed_label := None; entry_page_type_hint := None |}.

Record Source := {
  source_id : SourceId;
  source_collection_id : option CollectionId;
  source_name : string;
  source_original_url : url;
  source_canonical_url : url;
  source_target_type : SourceTargetType;
  source_status : SourceStatus;
  source_run_ids : list CrawlRunId;
  source_artifact_ids : list ArtifactId
}.

Definition new_source (n : nat) (name : string) (original canonical : url)
    (target : SourceTargetType) : Source :=
  {| source_id := new_id n; source_collection_id := None; source_name := name;
     source_original_url := original; source_canonical_url := canonical;
     source_target_type := target; source_status := SourceActive;
     source_run_ids := []; source_artifact_ids := [] |}.

(** ** Display names ([naming.rs]) *)

Definition trim_matches_slash (s : string) : string := of_chars (trim_chars (Z.eqb 47) (chars s)).

Definition derive_source_name (page_title og_title : option string) (u : url) : string :=
  let usable o := match o with Some v => if blank v then None else Some v | None => None end in
  match (match usable page_title with Some v => Some v | None => usable og_title end) with
  | Some title => trim title
  | None =>
    let domain := default EmptyString (url_host_str u) in
    let path := trim_matches_slash (url_path u) in
    if negb (str_is_empty domain) && negb (str_is_empty path)
    then (domain ++ "/" ++ path)%string
    else if negb (str_is_empty domain) then domain
    else "Untitled Source"%string
  end.
End seeds.

Definition derive_dataset_name (source_name page_type_name : string) : string :=
  trim (trim source_name ++ " " ++ trim page_type_name)%string.

(** * Lemmas *)

Lemma id_to_string_inj `{Laws : UuidLaws} {k} (a b : typed_id k) :
  id_to_string a = id_to_string b -> a = b.
Proof. destruct a, b. unfold id_to_string. simpl. by intros ->%uuid_to_string_inj. Qed.

Lemma new_id_inj `{Laws : UuidLaws} {k} n m : new_id (k := k) n = new_id m -> n = m.
Proof. unfold new_id. intros H. simplify_eq. by apply uuid_now_v7_inj. Qed.

Lemma from_uuid_as_uuid `{U : UuidLib} {k} v (i : typed_id k) :
  from_uuid v = Some i <-> as_uuid i = v /\ uuid_version v = 7.
Proof.
  unfold from_uuid. destruct (Z.eqb_spec (uuid_version v) 7); destruct i; naive_solver.
Qed.
