(* ===== verification/Instances.v ===== *)
(** * Implementations of the library interfaces

    Small implementations that satisfy every law of [Externals.v].  They show that
    the documented behaviour the theorems rely on can hold, and the witnesses
    evaluate the program on them.  They stand for no code of the repository. *)

From stdpp Require Import countable.
From S2P Require Import Prelude Externals JsonFacts.


Fixpoint plain_bits (p : positive) : string :=
  match p with
  | xH => EmptyString
  | xO p => String "0" (plain_bits p)
  | xI p => String "1" (plain_bits p)
  end.

Fixpoint plain_unbits (s : string) : option positive :=
  match s with
  | EmptyString => Some xH
  | String "0" s => xO <$> plain_unbits s
  | String "1" s => xI <$> plain_unbits s
  | _ => None
  end.

(** ** Identifiers: numbers whose last hexadecimal digit is the version *)

#[export] Instance plain_uuid : UuidLib := {|
  uuid := N;
  uuid_eq_dec := N.eq_dec;
  uuid_to_string n := plain_bits (N.succ_pos n);
  uuid_parse_str s := Pos.pred_N <$> plain_unbits s;
  uuid_version n := Z.of_N (n mod 16);
  uuid_now_v7 n := (16 * N.of_nat n + 7)%N
|}.

(** ** URLs: lower-case host, default ports only, no user information *)

Definition plain_host_ok (h : string) : bool :=
  negb (str_is_empty h) && String.eqb (to_ascii_lowercase h) h
  && negb (str_contains (fun c => Ascii.eqb c "/" || Ascii.eqb c "?" || Ascii.eqb c "#"
                               || Ascii.eqb c ":" || Ascii.eqb c "@" || Ascii.eqb c "]") h).

Definition plain_path_ok (p : string) : bool :=
  match p with
  | String "/" _ => negb (str_contains (fun c => Ascii.eqb c "?" || Ascii.eqb c "#") p)
  | _ => false
  end.

Definition plain_query_ok (q : option string) : bool :=
  match q with Some q => negb (contains_ch "#" q) | None => true end.

Record plain_url_data := mk_plain {
  p_https : bool;
  p_host : string;
  p_path : string;
  p_query : option string;
  p_fragment : option string
}.

Definition plain_ok (u : plain_url_data) : bool :=
  plain_host_ok (p_host u) && plain_path_ok (p_path u) && plain_query_ok (p_query u).

Record plain_url_t := { plain_data : plain_url_data; plain_is_ok : plain_ok plain_data = true }.

Definition plain_check (d : plain_url_data) : option plain_url_t :=
  match decide (plain_ok d = true) with
  | left H => Some {| plain_data := d; plain_is_ok := H |}
  | right _ => None
  end.

Definition plain_scheme (u : plain_url_t) : string :=
  if p_https (plain_data u) then "https" else "http".

Definition plain_as_str (u : plain_url_t) : string :=
  (plain_scheme u ++ "://" ++ p_host (plain_data u) ++ p_path (plain_data u)
   ++ match p_query (plain_data u) with Some q => "?" ++ q | None => "" end
   ++ match p_fragment (plain_data u) with Some f => "#" ++ f | None => "" end)%string.

(** What follows the authority. *)
Definition plain_tail (https : bool) (host tail : string) : option plain_url_t :=
  let '(path, tail) := split_at_first (fun c => Ascii.eqb c "?" || Ascii.eqb c "#") tail in
  let '(query, tail) :=
    match tail with
    | String "?" t => let '(q, t) := split_at_first (Ascii.eqb "#") t in (Some q, t)
    | _ => (None, tail)
    end in
  let fragment := match tail with String "#" f => Some f | _ => None end in
  plain_check (mk_plain https host (if str_is_empty path then "/" else path) query fragment).

Definition plain_parse (s : string) : option plain_url_t :=
  match split_once "://" s with
  | None => None
  | Some (scheme, rest) =>
    let scheme := to_ascii_lowercase scheme in
    if http_or_https scheme then
      let https := String.eqb scheme "https" in
      let '(authority, tail) :=
        split_at_first (fun c => Ascii.eqb c "/" || Ascii.eqb c "?" || Ascii.eqb c "#") rest in
      let authority :=
        default authority (str_strip_suffix (if https then ":443" else ":80") authority) in
      plain_tail https (to_ascii_lowercase authority) tail
    else None
  end.

Fixpoint string_filter (p : ascii -> bool) (s : string) : string :=
  match s with
  | EmptyString => EmptyString
  | String c s' => if p c then String c (string_filter p s') else string_filter p s'
  end.

Lemma str_contains_filter p s : str_contains p (string_filter (fun c => negb (p c)) s) = false.
Proof. induction s as [|c s IH]; simpl; [done|]. destruct (p c) eqn:Hp; simpl; by rewrite ?Hp. Qed.

Lemma string_filter_id p s : str_contains (fun c => negb (p c)) s = false -> string_filter p s = s.
Proof.
  induction s as [|c s IH]; simpl; [done|]. destruct (p c); simpl; [|done].
  intros H. by rewrite IH.
Qed.

Lemma plain_set_query_ok (u : plain_url_t) (q : option string) :
  plain_ok (mk_plain (p_https (plain_data u)) (p_host (plain_data u)) (p_path (plain_data u))
    (string_filter (fun c => negb (Ascii.eqb "#" c)) <$> q) (p_fragment (plain_data u))) = true.
Proof.
  destruct u as [d H]. unfold plain_ok in *; simpl in *. boolify.
  rewrite !andb_true_iff. split_and!; try done.
  destruct q as [q|]; simpl; [|done]. unfold contains_ch. by rewrite str_contains_filter.
Qed.

Definition plain_set_query (u : plain_url_t) (q : option string) : plain_url_t :=
  {| plain_is_ok := plain_set_query_ok u q |}.

Lemma plain_set_fragment_ok (u : plain_url_t) (f : option string) :
  plain_ok (mk_plain (p_https (plain_data u)) (p_host (plain_data u)) (p_path (plain_data u))
    (p_query (plain_data u)) f) = true.
Proof. by destruct u. Qed.

Definition plain_set_fragment (u : plain_url_t) (f : option string) : plain_url_t :=
  {| plain_is_ok := plain_set_fragment_ok u f |}.

Definition plain_set_scheme (u : plain_url_t) (s : string) : option plain_url_t :=
  if http_or_https s then
    plain_check (mk_plain (String.eqb s "https") (p_host (plain_data u)) (p_path (plain_data u))
      (p_query (plain_data u)) (p_fragment (plain_data u)))
  else None.

Definition plain_set_host (u : plain_url_t) (h : option string) : option plain_url_t :=
  match h with
  | Some h =>
    plain_check (mk_plain (p_https (plain_data u)) h (p_path (plain_data u))
      (p_query (plain_data u)) (p_fragment (plain_data u)))
  | None => None
  end.

Definition plain_set_path (u : plain_url_t) (p : string) : plain_url_t :=
  default u (plain_check (mk_plain (p_https (plain_data u)) (p_host (plain_data u)) p
    (p_query (plain_data u)) (p_fragment (plain_data u)))).

(** [key=value] pairs, without percent-decoding. *)
Definition plain_pair (raw : string) : string * string :=
  match split_once "=" raw with Some (k, v) => (k, v) | None => (raw, EmptyString) end.

Definition plain_pairs (q : string) : list (string * string) :=
  map plain_pair (filter (fun p => p <> EmptyString) (split_on "&" q)).

Lemma plain_url_eq (u v : plain_url_t) : plain_data u = plain_data v -> u = v.
Proof. destruct u, v; simpl. intros ->. f_equal. apply eq_pi; apply _. Qed.

#[export] Instance plain_url_data_eq_dec : EqDecision plain_url_data.
Proof. solve_decision. Defined.

#[export] Instance plain_url_eq_dec : EqDecision plain_url_t.
Proof.
  intros u v. destruct (decide (plain_data u = plain_data v)) as [H|H].
  - left. by apply plain_url_eq.
  - right. by intros ->.
Defined.

#[export] Instance plain_url : UrlLib := {|
  url := plain_url_t;
  url_eq_dec := plain_url_eq_dec;
  url_parse := plain_parse;
  url_as_str := plain_as_str;
  url_scheme := plain_scheme;
  url_username _ := EmptyString;
  url_password _ := None;
  url_host_str u := Some (p_host (plain_data u));
  url_port _ := None;
  url_path u := p_path (plain_data u);
  url_query u := p_query (plain_data u);
  url_fragment u := p_fragment (plain_data u);
  url_query_pairs u := match p_query (plain_data u) with Some q => plain_pairs q | None => [] end;
  url_set_scheme := plain_set_scheme;
  url_set_host := plain_set_host;
  url_set_port u _ := Some u;
  url_set_path := plain_set_path;
  url_set_query := plain_set_query;
  url_set_fragment := plain_set_fragment;
  form_urlencoded_first_key raw := fst <$> head (plain_pairs raw)
|}.

(** An absolute reference is parsed; one that starts with a slash replaces the path and what
    follows it. *)
#[export] Instance plain_join : UrlJoin plain_url := {|
  url_join base href :=
    match plain_parse href with
    | Some u => Some u
    | None =>
      if starts_with href "/"
      then plain_tail (p_https (plain_data base)) (p_host (plain_data base)) href
      else None
    end
|}.

(** ** Regular expressions: literal text *)

#[export] Instance plain_regex : RegexLib := {|
  regex := string;
  regex_new s := Some s;
  regex_is_match e t := String.eqb e t;
  regex_escape s := s
|}.

(** [http://<host><path>]. *)
Definition plain_page_url (host path : string)
    (H : plain_ok (mk_plain false host path None None) = true) : url (UrlLib := plain_url) :=
  {| plain_is_ok := H |}.

(** ** Hosts: no IP addresses, the last two labels are registrable *)

Definition plain_psl_domain (h : string) : option string :=
  match rev (split_on "." h) with
  | tld :: name :: _ => Some (name ++ "." ++ tld)%string
  | _ => None
  end.

#[export] Instance plain_hosts : HostLib := {|
  parses_as_ip _ := false;
  psl_domain := plain_psl_domain
|}.

(** ** JSON strings that escape the quote and the backslash, and a digest that
    keeps a prefix *)

Fixpoint plain_escape (s : string) : string :=
  match s with
  | EmptyString => String "034" EmptyString
  | String c s' =>
    if Ascii.eqb c "034" || Ascii.eqb c "092" then String "092" (String c (plain_escape s'))
    else String c (plain_escape s')
  end.

#[export] Instance plain_json : JsonLib := {| json_string s := String "034" (plain_escape s) |}.

(** ** JSON text: the bits of a code of the value *)

Fixpoint plain_tree (v : Json) : gen_tree string :=
  match v with
  | JNull => GenNode 0 []
  | JBool b => GenNode (if b then 1 else 2) []
  | JNumber t => GenNode 3 [GenLeaf t]
  | JString s => GenNode 4 [GenLeaf s]
  | JArray l => GenNode 5 (map plain_tree l)
  | JObject l => GenNode 6 (map (fun e => GenNode 7 [GenLeaf e.1; plain_tree e.2]) l)
  end.

Fixpoint plain_untree (t : gen_tree string) : Json :=
  match t with
  | GenNode 1 _ => JBool true
  | GenNode 2 _ => JBool false
  | GenNode 3 [GenLeaf t] => JNumber t
  | GenNode 4 [GenLeaf s] => JString s
  | GenNode 5 l => JArray (map plain_untree l)
  | GenNode 6 l => JObject (map (fun e => match e with
      | GenNode _ [GenLeaf k; v] => (k, plain_untree v)
      | _ => (EmptyString, JNull)
      end) l)
  | _ => JNull
  end.

#[export] Instance plain_serde : SerdeLib := {|
  json_to_string v := plain_bits (encode (plain_tree v));
  json_from_str s := p ← plain_unbits s; plain_untree <$> decode p
|}.

#[export] Instance plain_hash : HashLib := {|
  sha256 s := take 32 (bytes s ++ replicate 32 0)
|}.

(** * The laws *)

Lemma plain_escape_prefix_free s s' r r' :
  (plain_escape s ++ r = plain_escape s' ++ r')%string -> s = s' /\ r = r'.
Proof.
  revert s'. induction s as [|c s IH]; intros [|c' s']; simpl.
  - by intros [= ->].
  - destruct (Ascii.eqb_spec c' "034"), (Ascii.eqb_spec c' "092"); simpl; congruence.
  - destruct (Ascii.eqb_spec c "034"), (Ascii.eqb_spec c "092"); simpl; congruence.
  - destruct (Ascii.eqb_spec c "034"), (Ascii.eqb_spec c "092"), (Ascii.eqb_spec c' "034"),
      (Ascii.eqb_spec c' "092"); simpl; intros [= Hc]; subst; try done;
      repeat match goal with H : (plain_escape _ ++ _ = _)%string |- _ => apply IH in H as [-> ->] end;
      done.
Qed.

#[export] Instance plain_json_laws : JsonLaws plain_json.
Proof.
  split.
  - intros s. by eexists.
  - intros s s' r r'. simpl. intros [= H]. by apply plain_escape_prefix_free.
Qed.

Lemma plain_unbits_bits p : plain_unbits (plain_bits p) = Some p.
Proof. induction p as [p IH|p IH|]; simpl; by rewrite ?IH. Qed.

Lemma plain_untree_tree v : plain_untree (plain_tree v) = v.
Proof.
  induction v as [|[]| | |l IH|l IH] using json_induction; simpl; [done..| |]; f_equal;
    rewrite List.map_map; induction IH as [|x l Hx _ IH]; simpl; [done| |done|];
    rewrite ?Hx, IH; [done|]. by destruct x.
Qed.

#[export] Instance plain_serde_laws : SerdeLaws plain_serde.
Proof.
  split. intros v Hwf. exists v. simpl. rewrite plain_unbits_bits. simpl.
  rewrite decode_encode. simpl. rewrite plain_untree_tree. by split; [|apply json_equiv_refl].
Qed.

#[export] Instance plain_hash_laws : HashLaws plain_hash.
Proof.
  split.
  - intros s. simpl. apply length_take_le. rewrite List.length_app. simpl. lia.
  - intros s. simpl. apply Forall_take, Forall_app. split.
    + induction s as [|c s IH]; simpl; constructor; [|done]. unfold in_u8, byte_of.
      pose proof (N_ascii_bounded c). unfold u8_max. lia.
    + repeat (constructor; [by unfold in_u8, u8_max|]). constructor.
Qed.

#[export] Instance plain_uuid_laws : UuidLaws plain_uuid.
Proof.
  split; simpl.
  - intros a. rewrite plain_unbits_bits. simpl. by rewrite N.pos_pred_succ.
  - intros n. rewrite (N.mul_comm 16), N.add_comm, N.Div0.mod_add. done.
  - intros n m H. lia.
Qed.

Lemma plain_check_data (u : plain_url_t) d : d = plain_data u -> plain_check d = Some u.
Proof.
  intros ->. unfold plain_check. destruct (decide _) as [H|H].
  - f_equal. by apply plain_url_eq.
  - by destruct u.
Qed.

Lemma str_contains_rev p s : str_contains p (str_rev s) = str_contains p s.
Proof.
  unfold str_rev. induction s as [|c s IH]; simpl; [done|].
  rewrite str_rev_app_spec, str_contains_app, IH. simpl. rewrite orb_false_r. apply orb_comm.
Qed.

Lemma strip_prefix_contains p pre s r :
  str_strip_prefix pre s = Some r -> str_contains p pre = true -> str_contains p s = true.
Proof.
  revert s. induction pre as [|a pre IH]; intros [|b s]; simpl; try done.
  destruct (Ascii.eqb_spec a b) as [->|]; [|done]. intros Hs.
  destruct (p b); simpl; [done|]. by apply IH.
Qed.

Lemma strip_suffix_none p suf s :
  str_contains p suf = true -> str_contains p s = false -> str_strip_suffix suf s = None.
Proof.
  intros Hsuf Hs. unfold str_strip_suffix. destruct (str_strip_prefix _ _) eqn:Hp; [|done].
  apply (strip_prefix_contains p) in Hp; [|by rewrite str_contains_rev].
  rewrite str_contains_rev in Hp. congruence.
Qed.

Lemma plain_host_ok_no h p :
  plain_host_ok h = true ->
  (forall c, p c = true -> Ascii.eqb c "/" || Ascii.eqb c "?" || Ascii.eqb c "#"
     || Ascii.eqb c ":" || Ascii.eqb c "@" || Ascii.eqb c "]" = true) ->
  str_contains p h = false.
Proof. unfold plain_host_ok. intros H Hp. boolify. eapply str_contains_impl; [exact Hp|done]. Qed.

Lemma plain_parse_as_str (u : plain_url_t) : plain_parse (plain_as_str u) = Some u.
Proof.
  destruct u as [d Hd]. pose proof Hd as Hok. unfold plain_ok in Hok.
  apply andb_true_iff in Hok as [Hok Hq]. apply andb_true_iff in Hok as [Hh Hp].
  unfold plain_parse, plain_as_str, plain_scheme; simpl.
  set (rest := (p_host d ++ p_path d ++ _)%string).
  assert (Hsplit : split_once "://" ((if p_https d then "https" else "http") ++ String ":"
      (String "/" (String "/" rest)))
    = Some ((if p_https d then "https" else "http")%string, rest)) by (by destruct (p_https d)).
  rewrite Hsplit. clear Hsplit.
  assert (Hauth : split_at_first (fun c => Ascii.eqb c "/" || Ascii.eqb c "?" || Ascii.eqb c "#") rest
    = (p_host d, (p_path d ++ match p_query d with Some q => "?" ++ q | None => "" end
        ++ match p_fragment d with Some f => "#" ++ f | None => "" end)%string)).
  { apply split_at_first_app.
    - apply plain_host_ok_no; [done|]. intros c Hc. rewrite !orb_true_iff in *. tauto.
    - unfold plain_path_ok in Hp. destruct (p_path d) as [|c p]; [done|]. simpl.
      destruct c as [[] [] [] [] [] [] [] []]; try done. }
  rewrite Hauth. clear Hauth rest.
  assert (to_ascii_lowercase (if p_https d then "https" else "http")
    = (if p_https d then "https" else "http")%string) as -> by (by destruct (p_https d)).
  assert (http_or_https (if p_https d then "https" else "http") = true) as ->
    by (by destruct (p_https d)).
  assert (String.eqb (if p_https d then "https" else "http") "https" = p_https d) as ->
    by (by destruct (p_https d)).
  rewrite (strip_suffix_none (Ascii.eqb ":")); simpl.
  2:{ by destruct (p_https d). }
  2:{ apply plain_host_ok_no; [done|]. intros c Hc. apply Ascii.eqb_eq in Hc as <-. done. }
  assert (to_ascii_lowercase (p_host d) = p_host d) as ->.
  { unfold plain_host_ok in Hh. by boolify. }
  unfold plain_tail. rewrite split_at_first_app.
  2:{ unfold plain_path_ok in Hp. destruct (p_path d) as [|c p]; [done|].
      destruct c as [[] [] [] [] [] [] [] []]; try done. boolify. done. }
  2:{ destruct (p_query d), (p_fragment d); done. }
  assert (str_is_empty (p_path d) = false) as -> by (by destruct (p_path d)).
  destruct d as [https host path query fragment]; simpl in *.
  destruct query as [q|]; simpl.
  - unfold contains_ch in Hq. apply negb_true_iff in Hq. rewrite split_at_first_app.
    + apply plain_check_data; simpl. f_equal. by destruct fragment.
    + done.
    + by destruct fragment.
  - destruct fragment; by apply plain_check_data.
Qed.

Lemma plain_ok_parts (u : plain_url_t) :
  plain_host_ok (p_host (plain_data u)) = true /\ plain_path_ok (p_path (plain_data u)) = true /\
  plain_query_ok (p_query (plain_data u)) = true.
Proof. destruct u as [d H]; simpl. unfold plain_ok in H. by boolify. Qed.

Lemma plain_query_filter (u : plain_url_t) (q : string) :
  contains_ch "#" q = false -> string_filter (fun c => negb (Ascii.eqb "#" c)) q = q.
Proof.
  intros H. apply string_filter_id. unfold contains_ch in H.
  eapply str_contains_impl; [|exact H]. intros c. by rewrite negb_involutive.
Qed.

Lemma plain_set_query_same (u : plain_url_t) : plain_set_query u (p_query (plain_data u)) = u.
Proof.
  apply plain_url_eq. destruct (plain_ok_parts u) as (_ & _ & Hq).
  destruct u as [[ht h p q f] H]; simpl in *. f_equal.
  destruct q as [q|]; simpl in *; [|done]. f_equal. apply negb_true_iff in Hq.
  by apply (plain_query_filter {| plain_is_ok := H |}).
Qed.

#[export] Instance plain_url_laws : UrlLaws plain_url.
Proof.
  split.
  - apply plain_parse_as_str.
  - intros u h _ [= <-]. exists EmptyString. eexists. split; [done|reflexivity].
  - intros u. simpl. unfold plain_scheme. by destruct (p_https _).
  - intros u h _ [= <-]. destruct (plain_ok_parts u) as (Hh & _ & _).
    unfold plain_host_ok in Hh. by boolify.
  - intros u h _ [= <-]. destruct (plain_ok_parts u) as (Hh & _ & _).
    split; [|left]; (apply plain_host_ok_no; [done|]); unfold authority_byte;
      intros c Hc; rewrite !orb_true_iff in *; tauto.
  - by intros u p.
  - intros u _. destruct (plain_ok_parts u) as (_ & Hp & _). unfold plain_path_ok in Hp. simpl.
    destruct (p_path _) as [|[[] [] [] [] [] [] [] []] p]; try done. by exists p.
  - intros u. simpl. unfold plain_set_scheme, plain_scheme.
    destruct (p_https _) eqn:Hh; simpl; apply plain_check_data; rewrite <- Hh; by destruct (plain_data u).
  - intros u h [= <-]. apply plain_check_data. by destruct (plain_data u).
  - apply plain_set_query_same.
  - intros u. apply plain_url_eq. by destruct u as [[] ?].
  - by eexists.
  - by intros u u' [= <-].
  - done.
  - done.
  - done.
  - intros u q0 q Hq Hsub. simpl. f_equal. apply (plain_query_filter u).
    destruct (contains_ch "#" q) eqn:Hc; [|done]. apply Hsub in Hc as [Hc|Hc]; [|done].
    destruct (plain_ok_parts u) as (_ & _ & Hok). simpl in Hq. rewrite Hq in Hok. simpl in Hok.
    by rewrite Hc in Hok.
Qed.

(** A parsed URL, from its evaluated components. *)
Lemma plain_parse_data (o : string) (d : plain_url_data) :
  plain_data <$> plain_parse o = Some d ->
  exists u, url_parse (UrlLib := plain_url) o = Some u /\ plain_data u = d.
Proof. change (url_parse o) with (plain_parse o). destruct (plain_parse o); naive_solver. Qed.
