(* ===== verification/Settings.v ===== *)
(** * Operational settings

    [crates/erabi-domain/src/settings.rs] and [run_profile.rs]: a setting has a
    value at each layer of the precedence chain, and resolution takes the first
    applicable layer that does not defer. *)

From S2P Require Import Prelude Externals Base.

Inductive LayerValue (T : Type) :=
| Inherit
| Custom (value : T)
| ResetToBuiltIn.
Arguments Inherit {T}.
Arguments Custom {T} value.
Arguments ResetToBuiltIn {T}.

Inductive SettingSource :=
| PerRunOverride | RunProfileSource | CrawlerOperationalDefault | CollectionOverride
| GlobalSetting | BuiltInDefault.

Record ResolvedValue (T : Type) := { resolved_value : T; resolved_source : SettingSource }.
Arguments Build_ResolvedValue {T} _ _.
Arguments resolved_value {T} _.
Arguments resolved_source {T} _.

Record SettingLayers (T : Type) := {
  per_run : LayerValue T;
  run_profile : option (LayerValue T);
  crawler_layer : option (LayerValue T);
  collection_layer : option (LayerValue T);
  global_layer : LayerValue T
}.
Arguments Build_SettingLayers {T} _ _ _ _ _.
Arguments per_run {T} _.
Arguments run_profile {T} _.
Arguments crawler_layer {T} _.
Arguments collection_layer {T} _.
Arguments global_layer {T} _.

Definition quick_scrape {T} (per_run : LayerValue T) (collection : option (LayerValue T))
    (global : LayerValue T) : SettingLayers T :=
  Build_SettingLayers per_run None None collection global.

(** The array [layers] of [resolve]. *)
Definition layers {T} (self : SettingLayers T) : list (SettingSource * option (LayerValue T)) :=
  [ (PerRunOverride, Some (per_run self));
    (RunProfileSource, run_profile self);
    (CrawlerOperationalDefault, crawler_layer self);
    (CollectionOverride, collection_layer self);
    (GlobalSetting, Some (global_layer self)) ].

Fixpoint resolve_layers {T} (built_in : T) (ls : list (SettingSource * option (LayerValue T)))
    : ResolvedValue T :=
  match ls with
  | [] => Build_ResolvedValue built_in BuiltInDefault
  | (src, layer_value) :: ls' =>
    match layer_value with
    | Some (Custom v) => Build_ResolvedValue v src
    | Some ResetToBuiltIn => Build_ResolvedValue built_in BuiltInDefault
    | Some Inherit | None => resolve_layers built_in ls'
    end
  end.

Definition resolve {T} (self : SettingLayers T) (built_in : T) : ResolvedValue T :=
  resolve_layers built_in (layers self).

(** ** Run profiles *)

Record OperationalOverrides := {
  override_max_pages : LayerValue Z;
  override_max_depth : LayerValue Z;
  override_max_duration_seconds : LayerValue Z;
  override_concurrency : LayerValue Z;
  override_request_delay_ms : LayerValue Z;
  override_timeout_ms : LayerValue Z;
  override_screenshot : LayerValue bool;
  override_asset_download_limit_bytes : LayerValue Z
}.

Section run_profiles.
Context `{U : UuidLib}.

Record RunProfile := {
  run_profile_id : RunProfileId;
  run_profile_name : string;
  run_profile_overrides : OperationalOverrides
}.

Definition new_run_profile (n : nat) (name : string) (overrides : OperationalOverrides)
    : RunProfile :=
  {| run_profile_id := new_id n; run_profile_name := name; run_profile_overrides := overrides |}.
End run_profiles.

(** ** What a resolution means *)

(** A layer takes part unless it does not apply or defers. *)
Definition defers {T} (l : option (LayerValue T)) : bool :=
  match l with None | Some Inherit => true | _ => false end.

(** The first layer that takes part, in precedence order. *)
Definition effective_layer {T} (self : SettingLayers T)
    : option (SettingSource * option (LayerValue T)) :=
  find (fun l => negb (defers l.2)) (layers self).

(** Changes the value of the layer at one source. *)
Definition set_layer {T} (src : SettingSource) (l : LayerValue T) (self : SettingLayers T)
    : SettingLayers T :=
  match src with
  | PerRunOverride =>
    Build_SettingLayers l (run_profile self) (crawler_layer self) (collection_layer self) (global_layer self)
  | RunProfileSource =>
    Build_SettingLayers (per_run self) (Some l) (crawler_layer self) (collection_layer self) (global_layer self)
  | CrawlerOperationalDefault =>
    Build_SettingLayers (per_run self) (run_profile self) (Some l) (collection_layer self) (global_layer self)
  | CollectionOverride =>
    Build_SettingLayers (per_run self) (run_profile self) (crawler_layer self) (Some l) (global_layer self)
  | GlobalSetting =>
    Build_SettingLayers (per_run self) (run_profile self) (crawler_layer self) (collection_layer self) l
  | BuiltInDefault => self
  end.

(** The layer at one source; the built-in default is no layer. *)
Definition layer_at {T} (src : SettingSource) (self : SettingLayers T) : option (LayerValue T) :=
  match src with
  | PerRunOverride => Some (per_run self)
  | RunProfileSource => run_profile self
  | CrawlerOperationalDefault => crawler_layer self
  | CollectionOverride => collection_layer self
  | GlobalSetting => Some (global_layer self)
  | BuiltInDefault => None
  end.

(** Precedence, highest first. *)
Definition precedence (src : SettingSource) : nat :=
  match src with
  | PerRunOverride => 0 | RunProfileSource => 1 | CrawlerOperationalDefault => 2
  | CollectionOverride => 3 | GlobalSetting => 4 | BuiltInDefault => 5
  end.

(** * Theorems *)

Lemma resolve_layers_find {T} (built_in : T) ls :
  resolve_layers built_in ls =
  match find (fun l => negb (defers l.2)) ls with
  | Some (src, Some (Custom v)) => Build_ResolvedValue v src
  | _ => Build_ResolvedValue built_in BuiltInDefault
  end.
Proof.
  induction ls as [|[src [[|v|]|]] ls IH]; simpl; [done|exact IH|done|done|exact IH].
Qed.

Lemma resolve_spec {T} (self : SettingLayers T) (built_in : T) :
  resolve self built_in =
  match effective_layer self with
  | Some (src, Some (Custom v)) => Build_ResolvedValue v src
  | _ => Build_ResolvedValue built_in BuiltInDefault
  end.
Proof. apply resolve_layers_find. Qed.

(** When some layer takes part, the one of highest precedence decides: every
    layer above it defers, its custom value is returned with its source, a reset
    there returns the built-in value, and no change to a layer below it can alter
    the outcome. *)
Theorem resolve_precedence {T} (self : SettingLayers T) (built_in : T) (src : SettingSource)
    (l : option (LayerValue T)) (Hl : effective_layer self = Some (src, l)) :
  layer_at src self = l /\
  (forall src', (precedence src' < precedence src)%nat -> defers (layer_at src' self) = true) /\
  (forall v, l = Some (Custom v) -> resolve self built_in = Build_ResolvedValue v src) /\
  (l = Some ResetToBuiltIn ->
    resolve self built_in = Build_ResolvedValue built_in BuiltInDefault) /\
  (forall lower l', (precedence src < precedence lower)%nat ->
    resolve (set_layer lower l' self) built_in = resolve self built_in).
Proof.
  rewrite resolve_spec, Hl. unfold effective_layer, layers in Hl. split_and!.
  - destruct self as [[] [[]|] [[]|] [[]|] []]; simpl in Hl; by simplify_eq/=.
  - intros src'. destruct self as [[] [[]|] [[]|] [[]|] []]; simplify_eq/=; destruct src'; simpl;
      first [done|lia].
  - by intros v ->.
  - by intros ->.
  - intros lower l' Hp. rewrite resolve_spec.
    destruct self as [[] [[]|] [[]|] [[]|] []]; simplify_eq/=; destruct lower; simpl in *;
      first [done|lia].
Qed.

Lemma resolve_precedence_witness :
  resolve (Build_SettingLayers Inherit (Some ResetToBuiltIn) None None (Custom 9)) 5
    = Build_ResolvedValue 5 BuiltInDefault /\
  resolve (Build_SettingLayers Inherit (Some (Custom 3)) None None (Custom 9)) 5
    = Build_ResolvedValue 3 RunProfileSource.
Proof.
  split.
  - apply (resolve_precedence
      (Build_SettingLayers Inherit (Some ResetToBuiltIn) None None (Custom 9)) 5
      RunProfileSource (Some ResetToBuiltIn) eq_refl). reflexivity.
  - apply (resolve_precedence
      (Build_SettingLayers Inherit (Some (Custom 3)) None None (Custom 9)) 5
      RunProfileSource (Some (Custom 3)) eq_refl). reflexivity.
Defined.

Lemma quick_scrape_ignores {T} (p g : LayerValue T) k (built_in : T) :
  resolved_source (resolve (quick_scrape p k g) built_in) <> RunProfileSource /\
  resolved_source (resolve (quick_scrape p k g) built_in) <> CrawlerOperationalDefault.
Proof. destruct p, k as [[]|], g; done. Qed.
