(* ===== verification/Guardrails.v ===== *)
(** * Guardrails, transitions and discovery budgets

    [crates/erabi-domain/src]: [guardrails.rs], [transition.rs], [budget.rs] and
    [complete_snapshot.rs]: the safety baseline of a crawler version, the
    transition graph over its page types, the decision whether one more page may
    be scheduled, and whether a finished run is a complete snapshot. *)

From S2P Require Import Prelude Externals Base Instances.

Definition GUARDRAIL_POLICY_VERSION : Z := 1.

Inductive DeferredPageTypeHealth := DeferredExtractionHealth (version : Z).

(** Values after the layers are resolved. *)
Record ResolvedOperationalLimits := {
  limit_max_pages : Z;
  limit_max_depth : Z;
  limit_max_duration_seconds : Z;
  limit_max_downloaded_bytes : Z;
  limit_concurrency : Z;
  limit_request_delay_ms : Z
}.

Definition err_mandatory_guardrails : ProductError :=
  with_code InvalidCrawlGuardrails "mandatory crawler guardrails must be valid and positive".
Definition err_page_type_budgets : ProductError :=
  with_code InvalidPageTypeBudget "PageType budgets must be positive and unique".
Definition err_health_version : ProductError :=
  with_code InvalidPageTypeBudget "the PageType health contract version is unsupported".
Definition err_limits_exceed : ProductError :=
  with_code InvalidCrawlGuardrails "resolved operational limits exceed the crawler safety baseline".

Section guardrails.
Context `{U : UuidLib}.

Record PageTypeDiscoveryGuardrails := {
  page_type_id : PageTypeId;
  page_budget : option Z;
  health_threshold : option DeferredPageTypeHealth
}.

Record CrawlerVersionGuardrails := {
  guardrails_version : Z;
  max_pages : Z;
  max_depth : Z;
  max_duration_seconds : Z;
  max_downloaded_bytes : Z;
  max_concurrent_requests_per_domain : Z;
  min_request_delay_ms : Z;
  guardrails_page_types : list PageTypeDiscoveryGuardrails
}.

Definition default_guardrails : CrawlerVersionGuardrails :=
  {| guardrails_version := GUARDRAIL_POLICY_VERSION; max_pages := 1000; max_depth := 16;
     max_duration_seconds := 3600; max_downloaded_bytes := 100 * 1024 * 1024;
     max_concurrent_requests_per_domain := 1; min_request_delay_ms := 100;
     guardrails_page_types := [] |}.

Definition health_version_unsupported (h : option DeferredPageTypeHealth) : bool :=
  match h with Some (DeferredExtractionHealth v) => negb (v =? 1) | None => false end.

(** The loop over [page_types], with the set of identifiers seen so far. *)
Fixpoint validate_page_types (seen : gset string) (l : list PageTypeDiscoveryGuardrails)
    : result ProductError unit :=
  match l with
  | [] => Ok tt
  | p :: l' =>
    let key := id_to_string (page_type_id p) in
    let? _ := reject_if (bool_decide (key ∈ seen) || bool_decide (page_budget p = Some 0))
      err_page_type_budgets in
    let? _ := reject_if (health_version_unsupported (health_threshold p)) err_health_version in
    validate_page_types ({[key]} ∪ seen) l'
  end.

Definition guardrails_validate (self : CrawlerVersionGuardrails) : result ProductError unit :=
  let? _ := reject_if
    (negb (guardrails_version self =? GUARDRAIL_POLICY_VERSION) || (max_pages self =? 0)
     || (max_depth self =? 0) || (max_duration_seconds self =? 0)
     || (max_downloaded_bytes self =? 0) || (max_concurrent_requests_per_domain self =? 0))
    err_mandatory_guardrails in
  validate_page_types ∅ (guardrails_page_types self).

Definition validate_effective_operational_limits (self : CrawlerVersionGuardrails)
    (limits : ResolvedOperationalLimits) : result ProductError unit :=
  let? _ := guardrails_validate self in
  reject_if
    ((max_pages self <? limit_max_pages limits) || (max_depth self <? limit_max_depth limits)
     || (max_duration_seconds self <? limit_max_duration_seconds limits)
     || (max_downloaded_bytes self <? limit_max_downloaded_bytes limits)
     || (max_concurrent_requests_per_domain self <? limit_concurrency limits)
     || (limit_request_delay_ms limits <? min_request_delay_ms self))
    err_limits_exceed.

Definition guardrails_page_type (self : CrawlerVersionGuardrails) (id : PageTypeId)
    : option PageTypeDiscoveryGuardrails :=
  find (fun budget => bool_decide (page_type_id budget = id)) (guardrails_page_types self).

(** ** Transitions ([transition.rs]) *)

Record TransitionBudget := {
  max_links_per_source_page : Z;
  total_budget : option Z;
  depth_contribution : Z
}.

Record DiscoveryTransition := {
  transition_id : DiscoveryTransitionId;
  source_page_type_id : PageTypeId;
  target_page_type_id : PageTypeId;
  transition_name : string;
  transition_enabled : bool;
  link_selector : string;
  url_constraints : option string;
  transition_priority : Z;
  transition_budget : TransitionBudget;
  deduplicate : bool;
  latest_test_evidence_id : option TestEvidenceId
}.

Definition invalid_transition (message : string) : ProductError :=
  with_code InvalidDiscoveryTransition message.

Definition constraints_invalid (c : option string) : bool :=
  match c with
  | Some s => blank s || (2048 <? char_count s)%nat || has_control s
  | None => false
  end.

Definition transition_validate (self : DiscoveryTransition) : result ProductError unit :=
  let? _ := reject_if (blank (transition_name self) || (256 <? char_count (transition_name self))%nat)
    (invalid_transition "transition name must be non-empty and at most 256 characters") in
  let? _ := reject_if (blank (link_selector self) || (1024 <? char_count (link_selector self))%nat)
    (invalid_transition "transition link selector must be non-empty and bounded") in
  let? _ := reject_if (constraints_invalid (url_constraints self))
    (invalid_transition "transition URL constraints are invalid") in
  let? _ := reject_if (max_links_per_source_page (transition_budget self) =? 0)
    (with_code InvalidTransitionBudget "transition link budget must be positive") in
  reject_if (bool_decide (total_budget (transition_budget self) = Some 0))
    (with_code InvalidTransitionBudget "transition total budget must be positive when configured").

(** A [TransitionGraph] is the list of transitions [new] accepted. *)
Record TransitionGraph := { transitions : list DiscoveryTransition }.

Fixpoint check_transitions (page_type_ids seen : gset string) (l : list DiscoveryTransition)
    : result ProductError unit :=
  match l with
  | [] => Ok tt
  | t :: l' =>
    let? _ := transition_validate t in
    let key := id_to_string (transition_id t) in
    let? _ := reject_if (bool_decide (key ∈ seen))
      (invalid_transition "transition IDs must be unique") in
    let? _ := reject_if (bool_decide (id_to_string (source_page_type_id t) ∉ page_type_ids))
      (invalid_transition "transition source PageType is not owned by the version") in
    let? _ := reject_if (bool_decide (id_to_string (target_page_type_id t) ∉ page_type_ids))
      (invalid_transition "transition target PageType is not owned by the version") in
    check_transitions page_type_ids ({[key]} ∪ seen) l'
  end.

Definition graph_new (page_type_ids : list PageTypeId) (ts : list DiscoveryTransition)
    : result ProductError TransitionGraph :=
  let? _ := check_transitions (list_to_set (map id_to_string page_type_ids)) ∅ ts in
  Ok {| transitions := ts |}.

(** ** Discovery budgets ([budget.rs]) *)

Record DiscoveryBudgetCandidate := {
  pages_already_scheduled : Z;
  current_depth : Z;
  elapsed_duration_seconds : Z;
  downloaded_bytes : Z;
  page_type_pages : Z;
  transition_links_on_source_page : Z;
  transition_total_links : Z;
  prospective_download_bytes : Z
}.

Inductive DiscoveryBudgetExclusion :=
| MaxPages | MaxDuration | MaxDepth | MaxDownloadedBytes | PageTypePageBudget
| TransitionPerPageLinkLimit | TransitionTotalBudget.

Inductive DiscoveryBudgetDecision :=
| Allowed
| Excluded (why : DiscoveryBudgetExclusion).

Inductive DiscoveryBudgetError := InvalidGuardrails | InvalidTransitionBudgetConfig | Overflow.

Record DiscoveryBudgetEvaluator := {
  ev_guardrails : CrawlerVersionGuardrails;
  ev_page_type : option PageTypeDiscoveryGuardrails;
  ev_transition : option TransitionBudget
}.

(** [x >= cap] for an optional cap. *)
Definition reaches (x : Z) (cap : option Z) : bool :=
  match cap with Some b => b <=? x | None => false end.

Definition evaluate (self : DiscoveryBudgetEvaluator) (c : DiscoveryBudgetCandidate)
    : result DiscoveryBudgetError DiscoveryBudgetDecision :=
  let g := ev_guardrails self in
  let? _ := map_err (fun _ => InvalidGuardrails) (guardrails_validate g) in
  let? _ := reject_if
    (match ev_page_type self with
     | Some p => bool_decide (page_budget p = Some 0) | None => false end) InvalidGuardrails in
  let? _ := reject_if
    (match ev_transition self with
     | Some t => (max_links_per_source_page t =? 0) || bool_decide (total_budget t = Some 0)
     | None => false end) InvalidTransitionBudgetConfig in
  if max_pages g <=? pages_already_scheduled c then Ok (Excluded MaxPages) else
  if max_duration_seconds g <=? elapsed_duration_seconds c then Ok (Excluded MaxDuration) else
  let contribution :=
    match ev_transition self with Some t => depth_contribution t | None => 0 end in
  let? depth := ok_or Overflow (checked_add u32_max (current_depth c) contribution) in
  if max_depth g <? depth then Ok (Excluded MaxDepth) else
  let? prospective :=
    ok_or Overflow (checked_add u64_max (downloaded_bytes c) (prospective_download_bytes c)) in
  if max_downloaded_bytes g <? prospective then Ok (Excluded MaxDownloadedBytes) else
  if reaches (page_type_pages c)
    (match ev_page_type self with Some p => page_budget p | None => None end)
  then Ok (Excluded PageTypePageBudget) else
  let pages_step :=
    let? _ := ok_or Overflow (checked_add u64_max (pages_already_scheduled c) 1) in Ok Allowed in
  match ev_transition self with
  | Some t =>
    if max_links_per_source_page t <=? transition_links_on_source_page c
    then Ok (Excluded TransitionPerPageLinkLimit) else
    if reaches (transition_total_links c) (total_budget t)
    then Ok (Excluded TransitionTotalBudget) else
    let? _ := ok_or Overflow (checked_add u32_max (transition_links_on_source_page c) 1) in
    let? _ := ok_or Overflow (checked_add u64_max (transition_total_links c) 1) in
    pages_step
  | None => pages_step
  end.

Definition product_error_of_budget (e : DiscoveryBudgetError) : ProductError :=
  match e with
  | Overflow =>
    with_code BudgetOverflow "budget arithmetic exceeded its safe integer range"
  | InvalidGuardrails => with_code InvalidCrawlGuardrails "crawler guardrails are invalid"
  | InvalidTransitionBudgetConfig =>
    with_code InvalidTransitionBudget "transition budget is invalid"
  end.
End guardrails.

(** ** Complete snapshots ([complete_snapshot.rs]) *)

Inductive ExtractionHealth :=
| NotRequired | NotEvaluated | Healthy | CriticalFailure | HealthProductionBreakingSchemaDrift.

Inductive CompleteSnapshotReason :=
| NonProductionRun | RunNotSuccessful | InScopeWorkIncomplete | PaginationTruncated
| UnresolvedPartialWork | PageTypeAmbiguity | ExtractionHealthNotEvaluated
| CriticalExtractionFailure | ProductionBreakingSchemaDrift.

Record CompleteSnapshotStructuralInput := {
  input_run_type : CrawlRunType;
  input_status : CrawlRunStatus;
  in_scope_pages_planned : Z;
  in_scope_pages_completed : Z;
  pagination_truncation_count : Z;
  unresolved_partial_work_count : Z;
  page_type_ambiguity_count : Z;
  extraction_health : ExtractionHealth
}.

Inductive CompleteSnapshotStructuralInputError := CompletedExceedsPlanned.

Inductive CompleteSnapshotStructuralDecision :=
| Complete
| Incomplete (reasons : list CompleteSnapshotReason).

(** [if cond { reasons.push(r) }]. *)
Definition push_if {A} (cond : bool) (r : A) : list A := if cond then [r] else [].

Definition decide_snapshot (self : CompleteSnapshotStructuralInput)
    : result CompleteSnapshotStructuralInputError CompleteSnapshotStructuralDecision :=
  let? _ := reject_if (in_scope_pages_planned self <? in_scope_pages_completed self)
    CompletedExceedsPlanned in
  let reasons :=
    push_if (bool_decide (input_run_type self <> ProductionRun)) NonProductionRun
    ++ push_if (bool_decide (input_status self <> RunSucceeded)) RunNotSuccessful
    ++ push_if (in_scope_pages_completed self <? in_scope_pages_planned self) InScopeWorkIncomplete
    ++ push_if (0 <? pagination_truncation_count self) PaginationTruncated
    ++ push_if (0 <? unresolved_partial_work_count self) UnresolvedPartialWork
    ++ push_if (0 <? page_type_ambiguity_count self) PageTypeAmbiguity
    ++ match extraction_health self with
       | NotRequired | Healthy => []
       | NotEvaluated => [ExtractionHealthNotEvaluated]
       | CriticalFailure => [CriticalExtractionFailure]
       | HealthProductionBreakingSchemaDrift => [ProductionBreakingSchemaDrift]
       end in
  match reasons with
  | [] => Ok Complete
  | _ => Ok (Incomplete reasons)
  end.

(** * What the checks mean *)

Section specs.
Context `{U : UuidLib}.

(** The fields hold values of their Rust types. *)
Record guardrails_in_range (g : CrawlerVersionGuardrails) : Prop := {
  range_max_pages : in_u64 (max_pages g);
  range_max_depth : in_u32 (max_depth g);
  range_max_duration : in_u64 (max_duration_seconds g);
  range_max_bytes : in_u64 (max_downloaded_bytes g);
  range_concurrency : in_u32 (max_concurrent_requests_per_domain g);
  range_delay : in_u64 (min_request_delay_ms g);
  range_budgets : Forall (fun p => forall b, page_budget p = Some b -> in_u64 b)
    (guardrails_page_types g)
}.

(** The contract of a safety baseline: every mandatory cap is a positive number,
    so none means "unlimited", and each page type has at most one budget. *)
Record guardrails_well_formed (g : CrawlerVersionGuardrails) : Prop := {
  wf_version : guardrails_version g = GUARDRAIL_POLICY_VERSION;
  wf_pages : 0 < max_pages g;
  wf_depth : 0 < max_depth g;
  wf_duration : 0 < max_duration_seconds g;
  wf_bytes : 0 < max_downloaded_bytes g;
  wf_concurrency : 0 < max_concurrent_requests_per_domain g;
  wf_unique : NoDup (map page_type_id (guardrails_page_types g));
  wf_budgets : Forall (fun p => forall b, page_budget p = Some b -> 0 < b)
    (guardrails_page_types g);
  wf_health : Forall (fun p => forall v,
    health_threshold p = Some (DeferredExtractionHealth v) -> v = 1) (guardrails_page_types g)
}.

(** The limits stay inside the baseline. *)
Definition limits_within (g : CrawlerVersionGuardrails) (l : ResolvedOperationalLimits) : Prop :=
  limit_max_pages l <= max_pages g /\
  limit_max_depth l <= max_depth g /\
  limit_max_duration_seconds l <= max_duration_seconds g /\
  limit_max_downloaded_bytes l <= max_downloaded_bytes g /\
  limit_concurrency l <= max_concurrent_requests_per_domain g /\
  min_request_delay_ms g <= limit_request_delay_ms l.

Record transition_well_formed (t : DiscoveryTransition) : Prop := {
  twf_name : blank (transition_name t) = false /\ (char_count (transition_name t) <= 256)%nat;
  twf_selector : blank (link_selector t) = false /\ (char_count (link_selector t) <= 1024)%nat;
  twf_constraints : forall s, url_constraints t = Some s ->
    blank s = false /\ (char_count s <= 2048)%nat /\ has_control s = false;
  twf_links : max_links_per_source_page (transition_budget t) <> 0;
  twf_total : total_budget (transition_budget t) <> Some 0
}.

(** Every edge joins page types the version owns; cycles are allowed. *)
Record graph_well_formed (ids : list PageTypeId) (ts : list DiscoveryTransition) : Prop := {
  gwf_transitions : Forall transition_well_formed ts;
  gwf_unique : NoDup (map transition_id ts);
  gwf_sources : Forall (fun t => source_page_type_id t ∈ ids) ts;
  gwf_targets : Forall (fun t => target_page_type_id t ∈ ids) ts
}.

Definition ev_contribution (ev : DiscoveryBudgetEvaluator) : Z :=
  match ev_transition ev with Some t => depth_contribution t | None => 0 end.

(** The caps in the order they are tried, each with whether the candidate breaks
    it, on unbounded integers. *)
Definition caps (ev : DiscoveryBudgetEvaluator) (c : DiscoveryBudgetCandidate)
    : list (DiscoveryBudgetExclusion * bool) :=
  let g := ev_guardrails ev in
  [ (MaxPages, max_pages g <=? pages_already_scheduled c);
    (MaxDuration, max_duration_seconds g <=? elapsed_duration_seconds c);
    (MaxDepth, max_depth g <? current_depth c + ev_contribution ev);
    (MaxDownloadedBytes,
      max_downloaded_bytes g <? downloaded_bytes c + prospective_download_bytes c);
    (PageTypePageBudget,
      reaches (page_type_pages c) (ev_page_type ev ≫= page_budget));
    (TransitionPerPageLinkLimit,
      match ev_transition ev with
      | Some t => max_links_per_source_page t <=? transition_links_on_source_page c
      | None => false end);
    (TransitionTotalBudget,
      reaches (transition_total_links c) (ev_transition ev ≫= total_budget)) ].

Definition first_violation (ev : DiscoveryBudgetEvaluator) (c : DiscoveryBudgetCandidate)
    : option DiscoveryBudgetExclusion := fst <$> find snd (caps ev c).

(** The evaluator's configuration is one [evaluate] accepts. *)
Record evaluator_valid (ev : DiscoveryBudgetEvaluator) : Prop := {
  ev_range : guardrails_in_range (ev_guardrails ev);
  ev_valid_guardrails : guardrails_validate (ev_guardrails ev) = Ok tt;
  ev_valid_page_type : ev_page_type ev ≫= page_budget <> Some 0;
  ev_valid_transition : forall t, ev_transition ev = Some t ->
    0 < max_links_per_source_page t <= u32_max /\ total_budget t <> Some 0
}.

(** No sum of the evaluation leaves its integer type. *)
Definition no_overflow (ev : DiscoveryBudgetEvaluator) (c : DiscoveryBudgetCandidate) : Prop :=
  current_depth c + ev_contribution ev <= u32_max /\
  downloaded_bytes c + prospective_download_bytes c <= u64_max /\
  (ev_transition ev = None \/ transition_total_links c < u64_max).
End specs.

(** The structural facts of a run whose snapshot is complete. *)
Record snapshot_complete (i : CompleteSnapshotStructuralInput) : Prop := {
  complete_production : input_run_type i = ProductionRun;
  complete_succeeded : input_status i = RunSucceeded;
  complete_pages : in_scope_pages_completed i = in_scope_pages_planned i;
  complete_pagination : pagination_truncation_count i = 0;
  complete_partial : unresolved_partial_work_count i = 0;
  complete_ambiguity : page_type_ambiguity_count i = 0;
  complete_health : extraction_health i = NotRequired \/ extraction_health i = Healthy
}.

(** ** A configuration the witnesses evaluate *)

Section examples.
Let page (n : nat) : typed_id PageTypeKind := new_id (U := plain_uuid) n.

(** A baseline with two budgeted page types. *)
Definition example_guardrails : CrawlerVersionGuardrails :=
  {| guardrails_version := 1; max_pages := 10; max_depth := 3; max_duration_seconds := 60;
     max_downloaded_bytes := 1000; max_concurrent_requests_per_domain := 2;
     min_request_delay_ms := 50;
     guardrails_page_types :=
       [ {| page_type_id := page 0; page_budget := Some 5; health_threshold := None |};
         {| page_type_id := page 1; page_budget := None;
            health_threshold := Some (DeferredExtractionHealth 1) |} ] |}.

Definition example_transition_budget : TransitionBudget :=
  {| max_links_per_source_page := 4; total_budget := Some 20; depth_contribution := 1 |}.

Definition example_evaluator : DiscoveryBudgetEvaluator :=
  {| ev_guardrails := example_guardrails;
     ev_page_type := guardrails_page_type example_guardrails (page 0);
     ev_transition := Some example_transition_budget |}.

Definition example_candidate (page_type_pages links : Z) : DiscoveryBudgetCandidate :=
  {| pages_already_scheduled := 6; current_depth := 1; elapsed_duration_seconds := 10;
     downloaded_bytes := 500; page_type_pages := page_type_pages;
     transition_links_on_source_page := links; transition_total_links := 7;
     prospective_download_bytes := 100 |}.

(** Page type 0 links to itself and to page type 1, which links back. *)
Definition example_transition (n src tgt : nat) : DiscoveryTransition :=
  {| transition_id := new_id (U := plain_uuid) n; source_page_type_id := page src;
     target_page_type_id := page tgt; transition_name := "next"; transition_enabled := true;
     link_selector := "a.next"; url_constraints := None; transition_priority := 0;
     transition_budget := example_transition_budget; deduplicate := true;
     latest_test_evidence_id := None |}.
End examples.

(** * Theorems *)

Section guardrail_theorems.
Context `{Laws : UuidLaws}.

Lemma health_version_supported h :
  health_version_unsupported h = false <->
  (forall v, h = Some (DeferredExtractionHealth v) -> v = 1).
Proof.
  destruct h as [[v]|]; simpl; [|naive_solver].
  rewrite negb_false_iff, Z.eqb_eq. naive_solver.
Qed.

(** [seen] holds the keys of the page types already visited. *)
Lemma validate_page_types_ok seen l :
  validate_page_types seen l = Ok tt <->
  NoDup (map page_type_id l) /\
  Forall (fun p => id_to_string (page_type_id p) ∉ seen) l /\
  Forall (fun p => page_budget p <> Some 0) l /\
  Forall (fun p => health_version_unsupported (health_threshold p) = false) l.
Proof.
  revert seen. induction l as [|p l IH]; intros seen; simpl; [naive_solver constructor|].
  rewrite NoDup_cons, !Forall_cons, elem_of_map.
  destruct (bool_decide (id_to_string (page_type_id p) ∈ seen)) eqn:Hs;
    [boolify; naive_solver|].
  destruct (bool_decide (page_budget p = Some 0)) eqn:Hb; [boolify; naive_solver|].
  destruct (health_version_unsupported (health_threshold p)) eqn:Hh; [naive_solver|].
  boolify. simpl. rewrite IH. rewrite !Forall_forall.
  split; intros (Hn & Hseen & Hbud & Hhealth).
  - split_and!; try done.
    + intros (q & Hq & Hin). apply Hseen in Hin. rewrite Hq in Hin. set_solver.
    + intros q Hin. apply Hseen in Hin. set_solver.
  - destruct Hn as [Hp Hn], Hseen as [_ Hseen], Hbud as [_ Hbud], Hhealth as [_ Hhealth].
    split_and!; try done. intros q Hin. rewrite elem_of_union, elem_of_singleton.
    intros [Heq%id_to_string_inj|Hin']; [|by apply (Hseen q)].
    apply Hp. by exists q.
Qed.

Lemma validate_page_types_tt seen l u :
  validate_page_types seen l = Ok u -> u = tt.
Proof. by destruct u. Qed.

(** Validation accepts exactly the well-formed baselines: the supported
    version, five positive mandatory caps, at most one budget per page type, no
    zero budget and only the known health contract. *)
Theorem guardrails_validate_ok (g : CrawlerVersionGuardrails) (Hg : guardrails_in_range g) :
  guardrails_validate g = Ok tt <-> guardrails_well_formed g.
Proof.
  unfold guardrails_validate.
  destruct Hg as [Hp Hd Ht Hb Hc _ Hr]. unfold in_u64, in_u32 in *.
  destruct (_ || (max_concurrent_requests_per_domain g =? 0)) eqn:Hm; simpl.
  - split; [done|]. intros []. rewrite !orb_true_iff in Hm. exfalso.
    destruct Hm as [[[[[Hm|Hm]|Hm]|Hm]|Hm]|Hm]; boolify; lia.
  - boolify. rewrite validate_page_types_ok. rewrite !Forall_forall in *.
    split.
    + intros (Hn & _ & Hbud & Hh). split; rewrite ?Forall_forall; try done; try lia.
      * intros p Hin b Hpb. pose proof (Hr p Hin b Hpb). pose proof (Hbud p Hin).
        destruct (decide (b = 0)); [subst; contradiction|lia].
      * intros p Hin. apply health_version_supported. by apply Hh.
    + intros []. rewrite !Forall_forall in *. split; [done|]. split; [|split].
      * intros p _. apply not_elem_of_empty.
      * intros p Hin Hpb. specialize (wf_budgets0 p Hin 0 Hpb). lia.
      * intros p Hin. apply health_version_supported. eauto.
Qed.

(** A rejected baseline names its fault: the mandatory caps are reported first. *)
Lemma guardrails_validate_err (g : CrawlerVersionGuardrails) e :
  guardrails_validate g = Err e ->
  e = err_mandatory_guardrails \/ e = err_page_type_budgets \/ e = err_health_version.
Proof.
  unfold guardrails_validate. destruct (_ || _); simpl; [intros [= <-]; by left|].
  generalize (∅ : gset string). induction (guardrails_page_types g) as [|p l IH];
    intros seen; simpl; [done|].
  destruct (_ || _); simpl; [intros [= <-]; auto|].
  destruct (health_version_unsupported _); simpl; [intros [= <-]; auto|]. apply IH.
Qed.

(** Resolved operational limits are accepted exactly when the baseline is
    well formed and no limit widens it: every cap is at most the baseline's and
    the request delay at least the baseline's. *)
Theorem effective_limits_never_widen (g : CrawlerVersionGuardrails)
    (l : ResolvedOperationalLimits) (Hg : guardrails_in_range g) :
  validate_effective_operational_limits g l = Ok tt <->
  guardrails_well_formed g /\ limits_within g l.
Proof.
  rewrite <- guardrails_validate_ok by done. unfold validate_effective_operational_limits.
  destruct (guardrails_validate g) as [[]|e]; [|naive_solver].
  rewrite reject_if_ok, !orb_false_iff, !Z.ltb_ge. unfold limits_within. naive_solver.
Qed.

(** The budget of a page type is the one its entry gives. *)
Lemma guardrails_page_type_find (g : CrawlerVersionGuardrails) p :
  NoDup (map page_type_id (guardrails_page_types g)) ->
  p ∈ guardrails_page_types g -> guardrails_page_type g (page_type_id p) = Some p.
Proof.
  unfold guardrails_page_type. induction (guardrails_page_types g) as [|q l IH]; simpl.
  - intros _ []%not_elem_of_nil.
  - rewrite NoDup_cons, elem_of_map. intros [Hq Hn] [->|Hin]%elem_of_cons.
    + by rewrite bool_decide_true.
    + rewrite bool_decide_false; [by apply IH|]. intros Heq. apply Hq. by exists p.
Qed.

(** ** Transitions *)

Lemma transition_validate_ok t : transition_validate t = Ok tt <-> transition_well_formed t.
Proof.
  unfold transition_validate. rewrite !reject_then_ok, reject_if_ok.
  rewrite !orb_false_iff, !Nat.ltb_ge, Z.eqb_neq, bool_decide_eq_false.
  assert (constraints_invalid (url_constraints t) = false <->
    forall s, url_constraints t = Some s ->
      blank s = false /\ (char_count s <= 2048)%nat /\ has_control s = false) as ->.
  { unfold constraints_invalid. destruct (url_constraints t) as [s|]; [|naive_solver].
    rewrite !orb_false_iff, Nat.ltb_ge. naive_solver. }
  split; [intros (?&?&?&?&?); by split|intros []; tauto].
Qed.

Lemma check_transitions_ok (ids : list PageTypeId) seen ts :
  check_transitions (list_to_set (map id_to_string ids)) seen ts = Ok tt <->
  graph_well_formed ids ts /\ Forall (fun t => id_to_string (transition_id t) ∉ seen) ts.
Proof.
  assert (Hkey : forall i : PageTypeId,
    id_to_string i ∈ (list_to_set (map id_to_string ids) : gset string) <-> i ∈ ids).
  { intros i. rewrite elem_of_list_to_set, elem_of_map.
    split; [intros (j & ->%id_to_string_inj & ?); done|eauto]. }
  revert seen. induction ts as [|t ts IH]; intros seen; simpl.
  { split; [intros _; split; [split|]; constructor|done]. }
  destruct (transition_validate t) as [[]|e] eqn:Ht.
  2:{ split; [done|]. intros [[Hf _ _ _] _]. apply Forall_cons in Hf as [Hw _].
      apply transition_validate_ok in Hw. congruence. }
  apply transition_validate_ok in Ht.
  destruct (bool_decide (id_to_string (transition_id t) ∈ seen)) eqn:Hs; boolify; simpl.
  { split; [done|]. rewrite Forall_cons. naive_solver. }
  destruct (bool_decide (id_to_string (source_page_type_id t) ∉ _)) eqn:Hsrc; boolify; simpl.
  { split; [done|]. intros [[_ _ Hf _] _]. apply Forall_cons in Hf as [Hw _].
    by apply Hkey in Hw. }
  destruct (bool_decide (id_to_string (target_page_type_id t) ∉ _)) eqn:Htgt; boolify; simpl.
  { split; [done|]. intros [[_ _ _ Hf] _]. apply Forall_cons in Hf as [Hw _].
    by apply Hkey in Hw. }
  apply dec_stable in Hsrc, Htgt. rewrite Hkey in Hsrc, Htgt.
  rewrite IH, Forall_cons, !Forall_forall. split.
  - intros [[Hw Hu Hss Htt] Hseen]. split_and!; [|done|].
    + split; simpl; rewrite ?Forall_cons; try done.
      constructor; [|done]. rewrite elem_of_map.
      intros (q & Hq & Hin). apply Hseen in Hin. rewrite Hq in Hin. set_solver.
    + intros q Hin. apply Hseen in Hin. set_solver.
  - intros [[Hw Hu Hss Htt] [_ Hseen]]. simpl in *.
    apply Forall_cons in Hw as [_ Hw], Hss as [_ Hss], Htt as [_ Htt].
    apply NoDup_cons in Hu as [Hnin Hu]. split; [by split|]. intros q Hin.
    rewrite elem_of_union, elem_of_singleton. intros [Heq%id_to_string_inj|Hin'].
    + apply Hnin. rewrite elem_of_map. by exists q.
    + by apply (Hseen q).
Qed.

(** [TransitionGraph::new] succeeds exactly on the lists whose transitions
    are well formed, have distinct identifiers and join page types of the version
    (cycles and self-edges included), and it keeps the list as given. *)
Theorem graph_new_spec (ids : list PageTypeId) (ts : list DiscoveryTransition) graph :
  graph_new ids ts = Ok graph <-> graph_well_formed ids ts /\ transitions graph = ts.
Proof.
  unfold graph_new. pose proof (check_transitions_ok ids ∅ ts) as H.
  assert (Forall (fun t : DiscoveryTransition =>
    id_to_string (transition_id t) ∉ (∅ : gset string)) ts) as Hempty.
  { rewrite Forall_forall. set_solver. }
  destruct (check_transitions _ ∅ ts) as [[]|e]; destruct graph; naive_solver.
Qed.
End guardrail_theorems.

Section budget_theorems.
Context `{U : UuidLib}.

Lemma reaches_not x cap : reaches x cap = false <-> forall b, cap = Some b -> x < b.
Proof. destruct cap as [b|]; simpl; [rewrite Z.leb_gt|]; naive_solver. Qed.

(** The guards before the caps let a valid configuration pass. *)
Lemma evaluate_valid (ev : DiscoveryBudgetEvaluator) (Hv : evaluator_valid ev) :
  guardrails_validate (ev_guardrails ev) = Ok tt /\
  (match ev_page_type ev with
   | Some p => bool_decide (page_budget p = Some 0) | None => false end) = false /\
  (match ev_transition ev with
   | Some t => (max_links_per_source_page t =? 0) || bool_decide (total_budget t = Some 0)
   | None => false end) = false.
Proof.
  destruct Hv as [_ Hg Hp Ht]. split_and!; [done| |].
  - destruct (ev_page_type ev); simpl in *; [|done]. by rewrite bool_decide_false.
  - destruct (ev_transition ev) as [t|]; [|done]. destruct (Ht t eq_refl) as [Hl Hb].
    rewrite bool_decide_false by done. rewrite orb_false_r. apply Z.eqb_neq. lia.
Qed.

Lemma evaluate_mandatory (ev : DiscoveryBudgetEvaluator) (Hv : evaluator_valid ev) :
  0 < max_pages (ev_guardrails ev) <= u64_max /\
  max_depth (ev_guardrails ev) <= u32_max /\
  max_downloaded_bytes (ev_guardrails ev) <= u64_max.
Proof.
  destruct Hv as [[[] [] _ [] _ _ _] Hg _ _]. unfold guardrails_validate in Hg.
  apply reject_then_ok in Hg as [Hg _]. boolify. lia.
Qed.

(** With a valid configuration and no sum that leaves its integer type, the
    evaluator answers with the first cap, in the fixed order, that the candidate
    breaks over the unbounded integers, and with Allowed when it breaks none. *)
Theorem evaluate_first_violated_cap (ev : DiscoveryBudgetEvaluator)
    (c : DiscoveryBudgetCandidate) (Hv : evaluator_valid ev) (Ho : no_overflow ev c) :
  evaluate ev c =
  Ok (match first_violation ev c with Some why => Excluded why | None => Allowed end).
Proof.
  destruct (evaluate_valid ev Hv) as (H1 & H2 & H3).
  destruct (evaluate_mandatory ev Hv) as (Hp & _ & _).
  destruct Ho as (Hd & Hb & Ht). pose proof (ev_valid_transition ev Hv) as Htv.
  unfold evaluate, first_violation, caps, ev_contribution in *.
  rewrite H1, H2, H3. simpl. clear H1 H2 H3.
  destruct (_ <=? pages_already_scheduled c) eqn:Hpages; [done|].
  destruct (_ <=? elapsed_duration_seconds c); [done|].
  unfold checked_add. rewrite (proj2 (Z.leb_le _ _) Hd). simpl.
  destruct (_ <? current_depth c + _); [done|].
  rewrite (proj2 (Z.leb_le _ _) Hb). simpl.
  destruct (_ <? downloaded_bytes c + _); [done|].
  change (match ev_page_type ev with Some p => page_budget p | None => None end)
    with (ev_page_type ev ≫= page_budget).
  destruct (reaches (page_type_pages c) _); [done|]. boolify.
  rewrite (proj2 (Z.leb_le (pages_already_scheduled c + 1) _)) by lia. simpl.
  destruct (ev_transition ev) as [t|]; simpl; [|done]. destruct (Htv t eq_refl) as [Hl _].
  destruct (_ <=? transition_links_on_source_page c) eqn:Hlinks; [done|].
  destruct (reaches (transition_total_links c) _); [done|]. boolify.
  destruct Ht as [|Ht]; [done|].
  rewrite !(proj2 (Z.leb_le _ _)) by lia. done.
Qed.

(** Fail-safe for any configuration and any counters: a page is Allowed only
    if the guardrails are valid and no cap is broken over the unbounded integers;
    an arithmetic overflow is reported as an error, never as permission. *)
Theorem evaluate_allowed_sound (ev : DiscoveryBudgetEvaluator) (c : DiscoveryBudgetCandidate)
    (Ha : evaluate ev c = Ok Allowed) :
  guardrails_validate (ev_guardrails ev) = Ok tt /\ first_violation ev c = None /\
  pages_already_scheduled c + 1 <= max_pages (ev_guardrails ev) /\
  current_depth c + ev_contribution ev <= max_depth (ev_guardrails ev) /\
  downloaded_bytes c + prospective_download_bytes c <= max_downloaded_bytes (ev_guardrails ev).
Proof.
  unfold evaluate, first_violation, caps, ev_contribution in *.
  destruct (guardrails_validate (ev_guardrails ev)) as [[]|e]; simpl in *; [|done].
  rewrite !reject_then_ok in Ha. destruct Ha as (_ & _ & Ha).
  destruct (_ <=? pages_already_scheduled c) eqn:Hpages; [done|].
  destruct (_ <=? elapsed_duration_seconds c); [done|].
  unfold checked_add in Ha. destruct (_ <=? u32_max) eqn:Hd; simpl in *; [|done].
  destruct (_ <? current_depth c + _) eqn:Hdepth; [done|].
  destruct (_ <=? u64_max) eqn:Hb; simpl in *; [|done].
  destruct (_ <? downloaded_bytes c + _) eqn:Hbytes; [done|].
  change (match ev_page_type ev with Some p => page_budget p | None => None end)
    with (ev_page_type ev ≫= page_budget) in Ha.
  destruct (reaches (page_type_pages c) _); [done|]. boolify.
  destruct (ev_transition ev) as [t|]; simpl in *; [|split_and!; [done|done|lia..]].
  destruct (_ <=? transition_links_on_source_page c) eqn:Hlinks; [done|].
  destruct (reaches (transition_total_links c) _); [done|]. simpl. split_and!; [done|done|lia..].
Qed.
End budget_theorems.

(** ** Complete snapshots *)

Lemma push_if_nil {A} b (x : A) : push_if b x = [] <-> b = false.
Proof. by destruct b. Qed.

Lemma elem_of_push_if {A} b (x y : A) : y ∈ push_if b x <-> b = true /\ y = x.
Proof. destruct b; simpl; set_solver. Qed.

(** A snapshot is declared complete exactly for a successful production run
    with all planned in-scope pages completed, no truncation, partial work or
    ambiguity, and an extraction health that is healthy or not required; whatever
    the counts of an impossible input (more completed than planned), it is refused. *)
Theorem decide_snapshot_complete (i : CompleteSnapshotStructuralInput)
    (Hc : 0 <= pagination_truncation_count i /\ 0 <= unresolved_partial_work_count i /\
          0 <= page_type_ambiguity_count i) :
  decide_snapshot i = Ok Complete <-> snapshot_complete i.
Proof.
  unfold decide_snapshot. rewrite reject_then_ok.
  destruct i as [rt st planned done_ trunc part amb health]; simpl in *.
  transitivity (done_ <= planned /\ rt = ProductionRun /\ st = RunSucceeded /\ planned <= done_ /\
    trunc <= 0 /\ part <= 0 /\ amb <= 0 /\ (health = NotRequired \/ health = Healthy)).
  - rewrite Z.ltb_ge. apply and_iff_compat_l.
    destruct (bool_decide (rt <> ProductionRun)) eqn:?; boolify;
      [split; [discriminate|intros (?&_); contradiction]|].
    destruct (bool_decide (st <> RunSucceeded)) eqn:?; boolify;
      [split; [discriminate|intros (_&?&_); contradiction]|].
    destruct (done_ <? planned) eqn:?; boolify; [split; [discriminate|lia]|].
    destruct (0 <? trunc) eqn:?; boolify; [split; [discriminate|lia]|].
    destruct (0 <? part) eqn:?; boolify; [split; [discriminate|lia]|].
    destruct (0 <? amb) eqn:?; boolify; [split; [discriminate|lia]|].
    repeat match goal with H : ~ (_ <> _) |- _ => apply dec_stable in H end. simpl.
    destruct health; (split; [intros H; try discriminate H|intros H]);
      first [split_and!; auto; lia|reflexivity|naive_solver].
  - split; [intros (?&?&?&?&?&?&?&?); split; simpl; done || lia|].
    intros []; simpl in *. subst. split_and!; done || lia.
Qed.

(** * Witnesses *)

Lemma example_guardrails_in_range : guardrails_in_range example_guardrails.
Proof.
  split; simpl; unfold in_u64, in_u32, u64_max, u32_max; [lia..|].
  constructor; [|constructor; [|constructor]]; simpl; intros b Hb; simplify_eq; lia.
Qed.

Lemma example_evaluator_valid : evaluator_valid example_evaluator.
Proof.
  split; [apply example_guardrails_in_range|vm_compute; reflexivity|vm_compute; discriminate|].
  intros t [= <-]. split; [vm_compute; split; [done|discriminate]|discriminate].
Qed.

Lemma guardrails_validate_ok_witness : guardrails_well_formed example_guardrails.
Proof.
  apply (guardrails_validate_ok example_guardrails example_guardrails_in_range).
  vm_compute. reflexivity.
Defined.

Lemma effective_limits_never_widen_witness :
  limits_within example_guardrails
    {| limit_max_pages := 8; limit_max_depth := 3; limit_max_duration_seconds := 30;
       limit_max_downloaded_bytes := 900; limit_concurrency := 1; limit_request_delay_ms := 60 |}.
Proof.
  apply (effective_limits_never_widen example_guardrails _ example_guardrails_in_range).
  vm_compute. reflexivity.
Defined.

Lemma evaluate_first_violated_cap_witness :
  evaluate example_evaluator (example_candidate 4 2) = Ok Allowed /\
  evaluate example_evaluator (example_candidate 5 4) = Ok (Excluded PageTypePageBudget).
Proof.
  split.
  - apply (evaluate_first_violated_cap example_evaluator (example_candidate 4 2)
      example_evaluator_valid).
    vm_compute. split_and!; [discriminate|discriminate|by right].
  - apply (evaluate_first_violated_cap example_evaluator (example_candidate 5 4)
      example_evaluator_valid).
    vm_compute. split_and!; [discriminate|discriminate|by right].
Defined.

Lemma evaluate_allowed_sound_witness :
  first_violation example_evaluator (example_candidate 4 2) = None.
Proof.
  apply (evaluate_allowed_sound example_evaluator (example_candidate 4 2)).
  vm_compute. reflexivity.
Defined.

Lemma decide_snapshot_complete_witness :
  snapshot_complete
    {| input_run_type := ProductionRun; input_status := RunSucceeded; in_scope_pages_planned := 3;
       in_scope_pages_completed := 3; pagination_truncation_count := 0;
       unresolved_partial_work_count := 0; page_type_ambiguity_count := 0;
       extraction_health := NotRequired |}.
Proof.
  apply decide_snapshot_complete; [simpl; lia|reflexivity].
Defined.

(** A cyclic graph is accepted. *)
Example cyclic_graph_accepted :
  is_ok (graph_new [new_id (U := plain_uuid) 0; new_id 1]
    [example_transition 5 0 1; example_transition 6 1 0; example_transition 7 0 0]) = true.
Proof. vm_compute. reflexivity. Qed.

Lemma graph_new_spec_witness :
  graph_well_formed [new_id (U := plain_uuid) 0; new_id 1]
    [example_transition 5 0 1; example_transition 6 1 0; example_transition 7 0 0].
Proof.
  apply (graph_new_spec [new_id (U := plain_uuid) 0; new_id 1]
    [example_transition 5 0 1; example_transition 6 1 0; example_transition 7 0 0]
    {| transitions :=
         [example_transition 5 0 1; example_transition 6 1 0; example_transition 7 0 0] |}).
  vm_compute. reflexivity.
Defined.
