(* ===== verification/Canonicalization.v ===== *)
(** * URL canonicalization

    [crates/erabi-domain/src/canonicalization.rs]: the identity of a crawled page.
    Query pairs are kept as their raw text beside the decoded parameter name, as
    [RawQueryPair] keeps them; the URL itself is the [url] crate's. *)

From S2P Require Import Prelude Externals Base Instances.

Definition CANONICALIZATION_POLICY_VERSION : Z := 1.

Record CanonicalizationPolicy := {
  canon_version : Z;
  explicit_keep_parameters : gset string;
  explicit_drop_parameters : gset string
}.

Definition default_canonicalization : CanonicalizationPolicy :=
  {| canon_version := CANONICALIZATION_POLICY_VERSION; explicit_keep_parameters := ∅;
     explicit_drop_parameters := ∅ |}.

Definition invalid_policy (message : string) : ProductError :=
  with_code InvalidCanonicalizationPolicy message.

Definition valid_parameter_name (parameter : string) : bool :=
  negb (str_is_empty parameter)
  && forallb (fun c => negb (is_control c) && negb ((c =? 38) || (c =? 61) || (c =? 35)))
       (chars parameter).

(** The sets are traversed in some order; every violation has the same error. *)
Definition canon_validate (self : CanonicalizationPolicy) : result ProductError unit :=
  let? _ := reject_if (negb (canon_version self =? CANONICALIZATION_POLICY_VERSION))
    (invalid_policy "unsupported canonicalization policy version") in
  let? _ := for_each (fun parameter => reject_if (negb (valid_parameter_name parameter))
      (invalid_policy "canonicalization parameter rule is invalid"))
    (elements (explicit_keep_parameters self) ++ elements (explicit_drop_parameters self)) in
  reject_if (bool_decide (explicit_keep_parameters self ∩ explicit_drop_parameters self <> ∅))
    (invalid_policy "canonicalization KEEP and DROP rules overlap").

Definition canon_new (keep drop : gset string) : result ProductError CanonicalizationPolicy :=
  let policy := {| canon_version := CANONICALIZATION_POLICY_VERSION;
                   explicit_keep_parameters := keep; explicit_drop_parameters := drop |} in
  let? _ := canon_validate policy in
  Ok policy.

Inductive CanonicalizationDecision :=
| SchemeNormalized
| HostNormalized
| DefaultPortRemoved
| FragmentRemoved
| PathNormalized
| QuerySorted
| TrackingParameterRemoved (parameter : string)
| CustomParameterDropped (parameter : string)
| ExplicitParameterKept (parameter : string).

(** ** The raw text of the original URL *)

Definition original_scheme (original_url : string) : option string :=
  fst <$> split_once "://" original_url.

Definition authority_end (c : ascii) : bool :=
  Ascii.eqb c "/" || Ascii.eqb c "?" || Ascii.eqb c "#".

Definition original_authority (original_url : string) : option string :=
  (fun r => (split_at_first authority_end r.2).1) <$> split_once "://" original_url.

Definition original_path_is_empty (original_url : string) : bool :=
  match split_once "://" original_url with
  | None => false
  | Some (_, authority_and_path) =>
    match split_at_first authority_end authority_and_path with
    | (_, EmptyString) => true
    | (_, rest) => negb (starts_with rest "/")
    end
  end.

(** [authority.rsplit_once('@').map_or(authority, |(_, host)| host)] *)
Definition without_userinfo (authority : string) : string :=
  match rsplit_once "@" authority with Some (_, host) => host | None => authority end.

Definition original_host (original_url : string) : option string :=
  match original_authority original_url with
  | None => None
  | Some authority =>
    let authority := without_userinfo authority in
    match str_find "]" authority with
    | Some end_ => str_get 1 end_ authority
    | None =>
      match rsplit_once ":" authority with
      | None => Some authority
      | Some (host, port) => (fun _ => host) <$> parse_unsigned u16_max port
      end
    end
  end.

(** The text after the last colon of the authority, if any. *)
Definition original_port_text (original_url : string) : option string :=
  match original_authority original_url with
  | None => None
  | Some authority =>
    let authority := without_userinfo authority in
    match str_find "]" authority with
    | Some end_ => str_get (S end_) (str_len authority) authority ≫= str_strip_prefix ":"
    | None => snd <$> rsplit_once ":" authority
    end
  end.

Definition original_default_port (original_url scheme : string) : bool :=
  match original_port_text original_url ≫= parse_unsigned u16_max with
  | Some port =>
    (String.eqb scheme "http" && (port =? 80)) || (String.eqb scheme "https" && (port =? 443))
  | None => false
  end.

(** ** Query pairs *)

Definition is_default_tracking_parameter (parameter : string) : bool :=
  starts_with parameter "utm_" || String.eqb parameter "fbclid" || String.eqb parameter "gclid".

Record RawQueryPair := { raw : string; parameter : string }.

#[export] Instance raw_query_pair_eq_dec : EqDecision RawQueryPair.
Proof. solve_decision. Defined.

Definition sort_key (p : RawQueryPair) : string * string := (parameter p, raw p).

Definition pair_cmp : RawQueryPair -> RawQueryPair -> comparison :=
  cmp_on sort_key (cmp_pair String.compare String.compare).

(** The loop over [sorted_pairs]: the decisions it pushes and the raw texts it
    retains. *)
Fixpoint retain_pairs (self : CanonicalizationPolicy) (pairs : list RawQueryPair)
    : list CanonicalizationDecision * list string :=
  match pairs with
  | [] => ([], [])
  | p :: pairs' =>
    let '(decisions, retained) := retain_pairs self pairs' in
    if bool_decide (parameter p ∈ explicit_keep_parameters self)
    then (ExplicitParameterKept (parameter p) :: decisions, raw p :: retained)
    else if bool_decide (parameter p ∈ explicit_drop_parameters self)
    then (CustomParameterDropped (parameter p) :: decisions, retained)
    else if is_default_tracking_parameter (parameter p)
    then (TrackingParameterRemoved (parameter p) :: decisions, retained)
    else (decisions, raw p :: retained)
  end.

Section canonicalize.
Context `{L : UrlLib}.

Definition new_raw_query_pair (raw : string) : RawQueryPair :=
  {| raw := raw;
     parameter :=
       match form_urlencoded_first_key raw with
       | Some key => key
       | None => hd EmptyString (split_on "=" raw)
       end |}.

Record CanonicalizationResult := {
  result_original_url : string;
  result_canonical_url : url;
  result_decisions : list CanonicalizationDecision
}.

(** Each step returns the URL it leaves and the decisions it pushes. *)

Definition normalize_scheme (original_url : string) (u : url)
    : result ProductError (url * list CanonicalizationDecision) :=
  let scheme := to_ascii_lowercase (url_scheme u) in
  if (match original_scheme original_url with
      | Some original => negb (String.eqb original scheme) | None => false end)
  then
    let? u := ok_or (with_code InvalidUrl "the URL scheme is invalid") (url_set_scheme u scheme) in
    Ok (u, [SchemeNormalized])
  else Ok (u, []).

Definition normalize_host (original_url : string) (u : url)
    : result ProductError (url * list CanonicalizationDecision) :=
  let? host := ok_or (with_code InvalidUrl "the URL host is missing") (url_host_str u) in
  let normalized_host := to_ascii_lowercase host in
  if negb (String.eqb normalized_host host)
     || (match original_host original_url with
         | Some original => existsb is_ascii_upper (chars original) | None => false end)
  then
    let? u := ok_or (with_code InvalidUrl "the URL host is invalid")
      (url_set_host u (Some normalized_host)) in
    Ok (u, [HostNormalized])
  else Ok (u, []).

Definition has_default_port (u : url) : bool :=
  match url_port u with
  | Some port =>
    (String.eqb (url_scheme u) "http" && (port =? 80))
    || (String.eqb (url_scheme u) "https" && (port =? 443))
  | None => false
  end.

Definition remove_default_port (original_url scheme : string) (u : url)
    : result ProductError (url * list CanonicalizationDecision) :=
  if original_default_port original_url scheme || has_default_port u then
    match url_port u with
    | Some _ =>
      let? u := ok_or (with_code InvalidUrl "the URL port is invalid") (url_set_port u None) in
      Ok (u, [DefaultPortRemoved])
    | None => Ok (u, [DefaultPortRemoved])
    end
  else Ok (u, []).

Definition remove_fragment (u : url) : url * list CanonicalizationDecision :=
  match url_fragment u with
  | Some _ => (url_set_fragment u None, [FragmentRemoved])
  | None => (u, [])
  end.

Definition normalize_root_path (original_url : string) (u : url)
    : url * list CanonicalizationDecision :=
  if str_is_empty (url_path u) || original_path_is_empty original_url then
    (if str_is_empty (url_path u) then url_set_path u "/" else u, [PathNormalized])
  else (u, []).

(** The pairs of a raw query, sorted. *)
Definition sorted_pairs (raw_query : string) : list RawQueryPair :=
  sort_by pair_cmp (map new_raw_query_pair (split_on "&" raw_query)).

(** The query of the canonical URL, from the query of the original. *)
Definition canonical_query (self : CanonicalizationPolicy) (query : option string)
    : option string :=
  let raw_query := default EmptyString query in
  let retained := (retain_pairs self (sorted_pairs raw_query)).2 in
  match query with
  | None => None
  | Some _ => match retained with [] => None | _ => Some (join "&" retained) end
  end.

Definition query_decisions (self : CanonicalizationPolicy) (query : option string)
    : list CanonicalizationDecision :=
  let raw_query := default EmptyString query in
  (if bool_decide (sorted_pairs raw_query = map new_raw_query_pair (split_on "&" raw_query))
   then [] else [QuerySorted])
  ++ (retain_pairs self (sorted_pairs raw_query)).1.

Definition canonicalize (self : CanonicalizationPolicy) (original_url : string)
    : result ProductError CanonicalizationResult :=
  let? _ := canon_validate self in
  let? u := ok_or (with_code InvalidUrl "the URL is invalid") (url_parse original_url) in
  let? _ := reject_if (negb (http_or_https (url_scheme u)))
    (with_code UnsupportedUrlScheme "only HTTP and HTTPS URLs are supported") in
  let? _ := reject_if
    (bool_decide (url_host_str u = None) || negb (str_is_empty (url_username u))
     || bool_decide (is_Some (url_password u)))
    (with_code InvalidUrl "the URL is not a valid crawl target") in
  let scheme := to_ascii_lowercase (url_scheme u) in
  let? (u, d1) := normalize_scheme original_url u in
  let? (u, d2) := normalize_host original_url u in
  let? (u, d3) := remove_default_port original_url scheme u in
  let '(u, d4) := remove_fragment u in
  let '(u, d5) := normalize_root_path original_url u in
  let query := url_query u in
  Ok {| result_original_url := original_url;
        result_canonical_url := url_set_query u (canonical_query self query);
        result_decisions := d1 ++ d2 ++ d3 ++ d4 ++ d5 ++ query_decisions self query |}.
End canonicalize.

(** ** Specification *)

(** Which pairs survive: explicit keeps win over drops, drops and default tracking
    parameters go, everything else stays. *)
Definition kept (self : CanonicalizationPolicy) (p : RawQueryPair) : bool :=
  bool_decide (parameter p ∈ explicit_keep_parameters self)
  || negb (bool_decide (parameter p ∈ explicit_drop_parameters self)
           || is_default_tracking_parameter (parameter p)).

(** The pieces of an optional query. *)
Definition query_pieces (q : option string) : list string :=
  match q with Some q => split_on "&" q | None => [] end.

Definition canon_well_formed (p : CanonicalizationPolicy) : Prop :=
  canon_version p = CANONICALIZATION_POLICY_VERSION /\
  (forall n, n ∈ explicit_keep_parameters p ∪ explicit_drop_parameters p ->
    valid_parameter_name n = true) /\
  explicit_keep_parameters p ## explicit_drop_parameters p.

(** The pieces the canonical query retains, in order. *)
Definition retained_pieces `{L : UrlLib} (self : CanonicalizationPolicy) (q : string)
    : list string :=
  map raw (filter (fun p => kept self p = true) (sorted_pairs q)).

(** ** A policy and URLs the witnesses evaluate *)

Definition example_policy : CanonicalizationPolicy :=
  {| canon_version := 1; explicit_keep_parameters := {["utm_id"]};
     explicit_drop_parameters := {["session"]} |}.

Definition example_original : string :=
  "HTTP://Example.COM:80?utm_source=x&b=2&session=9&a=1&utm_id=7#top".
Definition example_reordered : string := "http://example.com/?a=1&utm_id=7&session=9&b=2&utm_source=x".

Definition example_result (o : string) : result ProductError string :=
  match canonicalize (L := plain_url) example_policy o with
  | Ok r => Ok (url_as_str (UrlLib := plain_url) (result_canonical_url r))
  | Err e => Err e
  end.

(** * Theorems *)

#[export] Instance pair_cmp_lawful : LawfulCmp pair_cmp.
Proof.
apply lawful_cmp_on; [apply _|]. intros [r p] [r' p']. unfold sort_key; simpl. congruence.
Qed.

Lemma retain_pairs_spec self l : (retain_pairs self l).2 = map raw (filter (fun p => kept self p = true) l).
Proof.
induction l as [|p l IH]; [done|]. simpl retain_pairs.
destruct (retain_pairs self l) as [ds rs] eqn:Hr. simpl in IH. subst rs.
rewrite filter_cons. destruct (decide (kept self p = true)) as [Hk|Hk]; unfold kept in Hk;
  destruct (bool_decide (parameter p ∈ explicit_keep_parameters self));
  destruct (bool_decide (parameter p ∈ explicit_drop_parameters self));
  destruct (is_default_tracking_parameter (parameter p)); simpl in *; congruence.
Qed.

Lemma canon_validate_ok p : canon_validate p = Ok tt <-> canon_well_formed p.
Proof.
unfold canon_validate, canon_well_formed.
rewrite reject_then_ok, negb_false_iff, Z.eqb_eq, bind_ok. apply and_iff_compat_l.
transitivity ((forall n, n ∈ explicit_keep_parameters p ∪ explicit_drop_parameters p ->
  valid_parameter_name n = true) /\
  explicit_keep_parameters p ∩ explicit_drop_parameters p = ∅).
2: by rewrite disjoint_intersection_L.
split.
- intros ([] & Hf & Hr). rewrite for_each_ok, Forall_forall in Hf. split.
  + intros n Hn. specialize (Hf n). rewrite elem_of_app, !elem_of_elements in Hf.
    apply elem_of_union, Hf, reject_if_ok, negb_false_iff in Hn. done.
  + apply reject_if_ok, bool_decide_eq_false_1, dec_stable in Hr. done.
- intros [Hn Hi]. exists tt. split.
  + apply for_each_ok, Forall_forall. intros n. rewrite elem_of_app, !elem_of_elements.
    rewrite <- elem_of_union. intros H. by rewrite Hn.
  + apply reject_if_ok, bool_decide_eq_false. tauto.
Qed.

Section canonicalize_theorems.
Context `{Laws : UrlLaws}.

Lemma new_pair_raw s : raw (new_raw_query_pair s) = s.
Proof. done. Qed.

(** Every pair the code builds is determined by its raw text. *)
Lemma sorted_pairs_raw q p : p ∈ sorted_pairs q -> p = new_raw_query_pair (raw p) /\ raw p ∈ split_on "&" q.
Proof.
unfold sorted_pairs. rewrite elem_of_sort_by, elem_of_map. intros (s & -> & Hs). done.
Qed.

Lemma retained_pieces_in self q s : s ∈ retained_pieces self q -> s ∈ split_on "&" q.
Proof.
unfold retained_pieces. rewrite elem_of_map. intros (p & -> & Hp).
apply list_elem_of_filter in Hp as [_ Hp]. by apply sorted_pairs_raw in Hp as [_ ?].
Qed.

Lemma retained_pieces_no_amp self q : Forall (fun p => contains_ch "&" p = false) (retained_pieces self q).
Proof.
apply Forall_forall. intros s Hs%retained_pieces_in.
pose proof (split_on_pieces "&" q) as Hp. rewrite Forall_forall in Hp. by apply Hp.
Qed.

Lemma retained_pieces_rebuild self q :
  map new_raw_query_pair (retained_pieces self q) = filter (fun p => kept self p = true) (sorted_pairs q).
Proof.
unfold retained_pieces. rewrite map_map.
assert (H : Forall (fun p => new_raw_query_pair (raw p) = p)
  (filter (fun p => kept self p = true) (sorted_pairs q))).
{ apply Forall_forall. intros p [_ Hp]%list_elem_of_filter. by apply sorted_pairs_raw in Hp as [<- _]. }
induction H as [|p l Hp Hl IH]; simpl; [done|]. by rewrite Hp, IH.
Qed.

(** Joined again, the retained pieces are retained as they stand. *)
Lemma retained_pieces_idem self q :
  retained_pieces self q <> [] ->
  retained_pieces self (join "&" (retained_pieces self q)) = retained_pieces self q.
Proof.
intros Hne. unfold retained_pieces at 1, sorted_pairs.
rewrite split_on_join; [|done|apply retained_pieces_no_amp].
rewrite retained_pieces_rebuild, (sort_by_sorted_id pair_cmp).
- by rewrite filter_filter_same.
- apply filter_sorted, sort_by_Sorted. apply _.
Qed.

Lemma canonical_query_spec self q :
  canonical_query self (Some q) =
  match retained_pieces self q with [] => None | l => Some (join "&" l) end.
Proof.
unfold canonical_query, retained_pieces; simpl. rewrite retain_pairs_spec.
by destruct (map raw _).
Qed.

Lemma canonical_pieces self q :
  query_pieces (canonical_query self (Some q)) = retained_pieces self q.
Proof.
rewrite canonical_query_spec. pose proof (retained_pieces_no_amp self q).
destruct (retained_pieces self q) as [|x l]; [done|]. by apply split_on_join.
Qed.

Lemma canonical_query_idem self q : canonical_query self (canonical_query self q) = canonical_query self q.
Proof.
destruct q as [q|]; [|done]. rewrite canonical_query_spec.
destruct (retained_pieces self q) as [|x l] eqn:Hr; [done|].
rewrite canonical_query_spec, <- Hr, retained_pieces_idem, Hr; [done|by rewrite Hr].
Qed.

Lemma canonical_query_permutation self q1 q2 :
  split_on "&" q1 ≡ₚ split_on "&" q2 -> canonical_query self (Some q1) = canonical_query self (Some q2).
Proof.
intros H. rewrite !canonical_query_spec. unfold retained_pieces, sorted_pairs.
rewrite (sort_by_permutation pair_cmp _ (map new_raw_query_pair (split_on "&" q2))); [done|].
by rewrite H.
Qed.

(** The text of the canonical query holds no byte the original's lacks. *)
Lemma canonical_query_bytes self q q' ch :
  canonical_query self (Some q) = Some q' -> contains_ch ch q' = true ->
  contains_ch ch q = true \/ ch = "&"%char.
Proof.
rewrite canonical_query_spec. intros Hq Hc.
assert (q' = join "&" (retained_pieces self q)) as ->.
{ destruct (retained_pieces self q); [done|]. by injection Hq. }
apply contains_join in Hc as [?|(p & Hp & Hc)]; [by right|left].
apply retained_pieces_in in Hp. by eapply contains_split_on.
Qed.

(** ** The steps on a crawlable URL *)

Lemma crawlable_host (u : url) : crawlable (view u) -> exists h, url_host_str u = Some h.
Proof. intros (_ & [h Hh] & _). by exists h. Qed.

Lemma normalize_scheme_same o u : exists d, normalize_scheme o u = Ok (u, d).
Proof.
unfold normalize_scheme. rewrite url_scheme_lower.
destruct (match original_scheme o with Some _ => _ | None => _ end); [|by eexists].
rewrite url_set_scheme_same. by eexists.
Qed.

Lemma normalize_host_same o u : crawlable (view u) -> exists d, normalize_host o u = Ok (u, d).
Proof.
intros Hc. destruct (crawlable_host u Hc) as [h Hh]. unfold normalize_host. rewrite Hh. simpl.
rewrite (url_host_lower u h (proj1 Hc) Hh), String.eqb_refl.
destruct (_ || _); [|by eexists]. rewrite (url_set_host_same u h Hh). by eexists.
Qed.

Lemma has_default_port_false u : has_default_port u = false.
Proof.
unfold has_default_port. destruct (url_port u) as [p|] eqn:Hp; [|done].
destruct (url_port_not_default u p Hp) as [H1 H2].
apply orb_false_iff; split; apply andb_false_iff.
- destruct (String.eqb_spec (url_scheme u) "http"); [right|by left]. apply Z.eqb_neq. auto.
- destruct (String.eqb_spec (url_scheme u) "https"); [right|by left]. apply Z.eqb_neq. auto.
Qed.

(** Removing the port leaves a URL that differs in its port at most. *)
Lemma remove_default_port_view o s u u' d :
  remove_default_port o s u = Ok (u', d) ->
  exists p, view u' = with_port p (view u) /\ (p = url_port u /\ u' = u \/ p = None).
Proof.
unfold remove_default_port. destruct (_ || _).
- destruct (url_port u) as [p|] eqn:Hp.
  + destruct (url_set_port u None) as [v|] eqn:Hv; simpl; intros [= <- <-].
    exists None. split; [by apply url_set_port_view|by right].
  + intros [= <- <-]. exists None. split; [|by right]. unfold view, with_port; simpl.
    by rewrite Hp.
- intros [= <- <-]. exists (url_port u). split; [done|by left].
Qed.

Lemma remove_fragment_is u : (remove_fragment u).1 = url_set_fragment u None.
Proof.
unfold remove_fragment. destruct (url_fragment u) eqn:Hf; [done|]. simpl.
by rewrite <- Hf, url_set_fragment_same.
Qed.

Lemma normalize_root_path_same o u :
  http_or_https (url_scheme u) = true -> (normalize_root_path o u).1 = u.
Proof.
intros H. unfold normalize_root_path. destruct (url_path_absolute u H) as [p ->]. simpl.
by destruct (original_path_is_empty o).
Qed.

(** The inverse of [canonicalize]: what a result says about its input. *)
Lemma canonicalize_ok self o r :
  canonicalize self o = Ok r ->
  exists u v, canon_validate self = Ok tt /\ url_parse o = Some u /\ crawlable (view u) /\
    (exists d, remove_default_port o (url_scheme u) u = Ok (v, d)) /\
    result_original_url r = o /\
    result_canonical_url r =
      url_set_query (url_set_fragment v None) (canonical_query self (url_query v)).
Proof.
unfold canonicalize. rewrite bind_ok. intros ([] & Hv & H).
rewrite bind_ok in H. destruct H as (u & Hu & H). apply ok_or_ok in Hu.
rewrite !reject_then_ok in H. destruct H as (Hs & Hc & H). boolify.
assert (Hcrawl : crawlable (view u)).
{ split_and!; simpl; [done|by apply not_eq_None_Some|by destruct (url_username u)|].
  by apply eq_None_not_Some. }
rewrite url_scheme_lower in H.
destruct (normalize_scheme_same o u) as [d1 Hn]. rewrite Hn in H.
destruct (normalize_host_same o u Hcrawl) as [d2 Hh]. rewrite Hh in H.
destruct (remove_default_port o (url_scheme u) u) as [[v d3]|e] eqn:Hp; [|done].
exists u, v. do 3 (split; [done|]). split; [by eexists|].
pose proof (remove_fragment_is v) as Hf. destruct (remove_fragment v) as [w d4]. simpl in Hf. subst w.
pose proof (url_set_fragment_view v) as Hfv.
destruct (remove_default_port_view _ _ _ _ _ Hp) as (p & Hpv & _).
pose proof (normalize_root_path_same o (url_set_fragment v None)) as Hr.
destruct (normalize_root_path o (url_set_fragment v None)) as [w d5]. simpl in Hr.
assert (url_query (url_set_fragment v None) = url_query v) as Hq.
{ by injection Hfv. }
assert (w = url_set_fragment v None) as ->.
{ apply Hr. assert (url_scheme (url_set_fragment v None) = url_scheme u) as ->; [|done].
  transitivity (url_scheme v); [by injection Hfv|by injection Hpv]. }
rewrite Hq in H. injection H as <-. done.
Qed.

(** What the canonical URL looks like. *)
Lemma canonical_view self o r u :
  canonicalize self o = Ok r -> url_parse o = Some u ->
  exists p, (p = url_port u \/ p = None) /\
    view (result_canonical_url r) =
      with_query (canonical_query self (url_query u)) (with_fragment None (with_port p (view u))).
Proof.
intros H Hu. destruct (canonicalize_ok _ _ _ H) as (u' & v & _ & Hu' & _ & [d Hp] & _ & Hr).
assert (u' = u) as -> by congruence.
destruct (remove_default_port_view _ _ _ _ _ Hp) as (p & Hpv & Hpp).
exists p. split; [tauto|]. rewrite Hr, url_set_query_view, url_set_fragment_view, Hpv.
assert (url_query v = url_query u) as -> by (by injection Hpv).
f_equal. destruct (canonical_query self (url_query u)) as [q|] eqn:Hq; [|apply url_set_query_none].
destruct (url_query u) as [q0|] eqn:Hq0; [|done].
apply (url_set_query_encoded _ q0).
- transitivity (url_query v); [by injection (url_set_fragment_view v)|].
  transitivity (url_query u); [by injection Hpv|done].
- intros ch. by apply (canonical_query_bytes self).
Qed.

(** ** The canonical URL, read back *)

Lemma split_once_scheme (s rest : string) :
  http_or_https s = true -> split_once "://" (s ++ "://" ++ rest) = Some (s, rest).
Proof.
unfold http_or_https. rewrite orb_true_iff, !String.eqb_eq. by intros [->| ->].
Qed.

Lemma default_port_digits s digits p :
  parse_unsigned u16_max digits = Some p ->
  (s = "http"%string -> p <> 80) /\ (s = "https"%string -> p <> 443) ->
  match Some digits ≫= parse_unsigned u16_max with
  | Some port => (String.eqb s "http" && (port =? 80)) || (String.eqb s "https" && (port =? 443))
  | None => false
  end = false.
Proof.
intros Hp [H1 H2]. simpl. rewrite Hp.
apply orb_false_iff; split; apply andb_false_iff.
- destruct (String.eqb_spec s "http"); [right|by left]. apply Z.eqb_neq. auto.
- destruct (String.eqb_spec s "https"); [right|by left]. apply Z.eqb_neq. auto.
Qed.

Lemma authority_byte_split (a : string) :
  str_contains authority_byte a = false ->
  str_contains authority_end a = false /\ contains_ch "@" a = false.
Proof.
intros H. split; (eapply str_contains_impl; [|exact H]); intros c; unfold authority_byte, authority_end.
- rewrite !orb_true_iff. tauto.
- intros <-%Ascii.eqb_eq. done.
Qed.

(** The host and port of a serialised URL hold no default port. *)
Lemma original_default_port_serialized (u : url) :
  crawlable (view u) -> original_default_port (url_as_str u) (url_scheme u) = false.
Proof.
intros Hc. destruct (crawlable_host u Hc) as [h Hh].
destruct (url_serialized u h Hc Hh) as (port & rest & Hport & ->).
destruct (url_host_text u h (proj1 Hc) Hh) as [Hauth Hcolon].
destruct (url_path_absolute u (proj1 Hc)) as [path ->].
assert (Hport' : str_contains authority_byte port = false).
{ unfold port_text in Hport. destruct (url_port u); [|by subst].
  destruct Hport as (digits & -> & _ & Hd). apply str_contains_cons_false. split; [done|].
  eapply str_contains_impl; [|exact Hd]. intros c Hc'. cbv beta. by rewrite Hc'. }
unfold original_default_port, original_port_text, original_authority.
rewrite split_once_scheme by apply Hc. simpl.
destruct (authority_byte_split h Hauth) as [He Ha].
destruct (authority_byte_split port Hport') as [He' Ha'].
rewrite <- str_app_assoc, split_at_first_app; [|by rewrite str_contains_app, He, He'|done].
simpl. unfold without_userinfo. rewrite rsplit_once_none.
2:{ unfold contains_ch in *. by rewrite str_contains_app, Ha, Ha'. }
pose proof (url_port_not_default u) as Hdef.
destruct Hcolon as [Hcolon|(x & -> & Hx)].
- assert (contains_ch ":" h = false /\ contains_ch "]" h = false) as [Hh1 Hh2].
  { split; (eapply str_contains_impl; [|exact Hcolon]); intros c <-%Ascii.eqb_eq; done. }
  unfold port_text in Hport. destruct (url_port u) as [p|].
  + destruct Hport as (digits & -> & Hp & Hd).
    assert (contains_ch ":" digits = false /\ contains_ch "]" digits = false) as [Hd1 Hd2].
    { split; (eapply str_contains_impl; [|exact Hd]); intros c <-%Ascii.eqb_eq; done. }
    rewrite str_find_none by (unfold contains_ch in *; rewrite str_contains_app, Hh2; done).
    rewrite rsplit_once_last by done. by apply (default_port_digits _ _ p); [|apply Hdef].
  + subst port. rewrite str_app_nil_r, str_find_none, rsplit_once_none by done. done.
- rewrite str_app_assoc. change ("]" ++ port)%string with (String "]" port).
  change (String "[" x ++ String "]" port)%string with (String "[" (x ++ String "]" port)).
  assert (str_find "]" (String "[" (x ++ String "]" port)) = Some (S (String.length x))) as ->.
  { simpl. by rewrite str_find_first. }
  assert (str_get (S (S (String.length x))) (str_len (String "[" (x ++ String "]" port)))
    (String "[" (x ++ String "]" port)) = Some port) as ->.
  { assert (Heq : String "[" (x ++ String "]" port) = ((String "[" x ++ "]") ++ port)%string).
    { rewrite str_app_assoc. done. }
    assert (Hlen : S (S (String.length x)) = String.length (String "[" x ++ "]")).
    { rewrite str_app_length. simpl. lia. }
    unfold str_len. rewrite Heq, Hlen. apply str_get_suffix. unfold port_text in Hport.
    destruct (url_port u); [|by subst]. by destruct Hport as (digits & -> & _). }
  unfold port_text in Hport. destruct (url_port u) as [p|]; [|by subst].
  destruct Hport as (digits & -> & Hp & Hd). change (Some _ ≫= str_strip_prefix ":") with (Some digits).
  by apply (default_port_digits _ _ p); [|apply Hdef].
Qed.

Lemma remove_default_port_total o s u :
  crawlable (view u) -> exists v d, remove_default_port o s u = Ok (v, d).
Proof.
intros Hc. unfold remove_default_port. destruct (_ || _); [|by do 2 eexists].
destruct (url_port u); [|by do 2 eexists].
destruct (url_set_port_crawlable u Hc) as [v ->]. by do 2 eexists.
Qed.

(** Forwards: valid policy and crawlable URL give a result. *)
Lemma canonicalize_run self o u v d :
  canon_validate self = Ok tt -> url_parse o = Some u -> crawlable (view u) ->
  remove_default_port o (url_scheme u) u = Ok (v, d) ->
  exists r, canonicalize self o = Ok r /\
    result_canonical_url r =
      url_set_query (url_set_fragment v None) (canonical_query self (url_query v)).
Proof.
intros Hv Hu Hc Hp. assert (is_ok (canonicalize self o) = true) as Hok.
{ unfold canonicalize. rewrite Hv, Hu. destruct Hc as (Hs & [h Hh] & Hn & Hw). simpl in *.
  rewrite Hs, Hh, Hn, Hw, url_scheme_lower. simpl.
  destruct (normalize_scheme_same o u) as [d1 ->].
  destruct (normalize_host_same o u) as [d2 ->].
  { split_and!; simpl; [done|by eexists|done|done]. }
  rewrite Hp. destruct (remove_fragment v). by destruct (normalize_root_path o _). }
destruct (canonicalize self o) as [r|e] eqn:Hr; [|done]. exists r. split; [done|].
destruct (canonicalize_ok _ _ _ Hr) as (u' & v' & _ & Hu' & _ & [d' Hp'] & _ & ->).
assert (u' = u) as -> by congruence. by assert (v' = v) as -> by congruence.
Qed.

(** Canonicalization accepts exactly the crawl targets: with a well-formed
    policy it succeeds on the texts that parse as an HTTP(S) URL with a host and
    without user information, and on nothing else. *)
Theorem canonicalize_accepts (self : CanonicalizationPolicy) (o : string) :
  is_ok (canonicalize self o) = true <->
  canon_well_formed self /\ exists u, url_parse o = Some u /\ crawlable (view u).
Proof.
rewrite <- canon_validate_ok. split.
- destruct (canonicalize self o) as [r|e] eqn:H; [|done]. intros _.
  destruct (canonicalize_ok _ _ _ H) as (u & v & Hv & Hu & Hc & _). eauto.
- intros (Hv & u & Hu & Hc). destruct (remove_default_port_total o (url_scheme u) u Hc) as (v & d & Hp).
  by destruct (canonicalize_run self o u v d Hv Hu Hc Hp) as (r & -> & _).
Qed.

(** The canonical URL keeps the scheme, the host and the path, has no fragment
    and no user information, and its query is made of exactly the pieces of the
    original query the policy keeps (explicit keeps before explicit drops before
    the default tracking parameters), in the order of their decoded names. *)
Theorem canonicalize_spec (self : CanonicalizationPolicy) (o : string)
    (r : CanonicalizationResult) (u : url)
    (Hr : canonicalize self o = Ok r) (Hu : url_parse o = Some u) :
  let c := result_canonical_url r in
  url_scheme c = url_scheme u /\ url_host_str c = url_host_str u /\
  url_path c = url_path u /\ url_fragment c = None /\ crawlable (view c) /\
  query_pieces (url_query c) ≡ₚ
    filter (fun s => kept self (new_raw_query_pair s) = true) (query_pieces (url_query u)) /\
  StronglySorted (cmp_le pair_cmp) (map new_raw_query_pair (query_pieces (url_query c))).
Proof.
destruct (canonical_view _ _ _ _ Hr Hu) as (p & _ & Hview).
destruct (canonicalize_ok _ _ _ Hr) as (u' & v & _ & Hu' & Hc & _).
assert (u' = u) as -> by congruence.
assert (url_query (result_canonical_url r) = canonical_query self (url_query u)) as Hq
  by (by injection Hview).
cbv zeta. rewrite Hview, Hq. split_and!; try (by injection Hview); try exact Hc.
all: destruct (url_query u) as [q|]; [|constructor]; rewrite canonical_pieces.
- unfold retained_pieces, sorted_pairs. rewrite sort_by_perm. simpl.
  generalize (split_on "&" q). induction l as [|x l IH]; simpl; [done|].
  rewrite !filter_cons. by destruct (decide _); simpl; rewrite IH.
- rewrite retained_pieces_rebuild. apply filter_sorted, sort_by_Sorted. apply _.
Qed.

(** Canonicalization is idempotent: the text of a canonical URL canonicalizes,
    under the same policy, to that URL, so it is a stable page identity. *)
Theorem canonicalize_idempotent (self : CanonicalizationPolicy) (o : string)
    (r : CanonicalizationResult) (Hr : canonicalize self o = Ok r) :
  exists r', canonicalize self (url_as_str (result_canonical_url r)) = Ok r' /\
    result_canonical_url r' = result_canonical_url r.
Proof.
destruct (canonicalize_ok _ _ _ Hr) as (u & v & Hv & Hu & Hc & _).
destruct (canonical_view _ _ _ _ Hr Hu) as (p & Hp & Hview).
set (c := result_canonical_url r) in *.
assert (Hcc : crawlable (view c)) by (rewrite Hview; exact Hc).
assert (Hrm : remove_default_port (url_as_str c) (url_scheme c) c = Ok (c, [])).
{ unfold remove_default_port.
  by rewrite original_default_port_serialized, has_default_port_false. }
destruct (canonicalize_run self _ c c [] Hv (url_parse_as_str c) Hcc Hrm) as (r' & Hr' & Hcr).
exists r'. split; [done|]. rewrite Hcr.
assert (url_query c = canonical_query self (url_query u)) as Hq by (by injection Hview).
assert (url_fragment c = None) as Hf by (by injection Hview).
rewrite <- Hf at 1. rewrite url_set_fragment_same.
rewrite Hq, canonical_query_idem, <- Hq. apply url_set_query_same.
Qed.

(** The order of the query parameters does not matter: two texts whose URLs
    agree outside the query, with permuted query pieces, have one canonical URL. *)
Theorem canonicalize_query_order (self : CanonicalizationPolicy) (o1 o2 q1 q2 : string)
    (u1 u2 : url) (r1 r2 : CanonicalizationResult)
    (Hr1 : canonicalize self o1 = Ok r1) (Hr2 : canonicalize self o2 = Ok r2)
    (Hu1 : url_parse o1 = Some u1) (Hu2 : url_parse o2 = Some u2)
    (Hport : url_port u1 = None)
    (Hq1 : url_query u1 = Some q1) (Hq2 : url_query u2 = Some q2)
    (Hsame : forall q, url_set_query (url_set_fragment u1 None) q
      = url_set_query (url_set_fragment u2 None) q)
    (Hperm : split_on "&" q1 ≡ₚ split_on "&" q2) :
  result_canonical_url r1 = result_canonical_url r2.
Proof.
assert (Hport2 : url_port u2 = None).
{ specialize (Hsame None). apply (f_equal view) in Hsame.
  rewrite !url_set_query_view, !url_set_fragment_view in Hsame. injection Hsame. congruence. }
destruct (canonicalize_ok _ _ _ Hr1) as (w1 & v1 & _ & Hw1 & _ & [d1 Hp1] & _ & ->).
destruct (canonicalize_ok _ _ _ Hr2) as (w2 & v2 & _ & Hw2 & _ & [d2 Hp2] & _ & ->).
assert (w1 = u1) as -> by congruence. assert (w2 = u2) as -> by congruence.
unfold remove_default_port in Hp1, Hp2. rewrite Hport in Hp1. rewrite Hport2 in Hp2.
assert (v1 = u1) as -> by (destruct (_ || _) in Hp1; congruence).
assert (v2 = u2) as -> by (destruct (_ || _) in Hp2; congruence).
rewrite Hq1, Hq2, Hsame. f_equal. by apply canonical_query_permutation.
Qed.
End canonicalize_theorems.

(** * Witnesses *)

Lemma example_original_parses :
  exists u, url_parse (UrlLib := plain_url) example_original = Some u /\
    plain_data u = mk_plain false "example.com" "/"
      (Some "utm_source=x&b=2&session=9&a=1&utm_id=7"%string) (Some "top"%string).
Proof. apply plain_parse_data. vm_compute. reflexivity. Qed.

Lemma example_reordered_parses :
  exists u, url_parse (UrlLib := plain_url) example_reordered = Some u /\
    plain_data u = mk_plain false "example.com" "/"
      (Some "a=1&utm_id=7&session=9&b=2&utm_source=x"%string) None.
Proof. apply plain_parse_data. vm_compute. reflexivity. Qed.

Lemma example_original_ok :
  exists r, canonicalize (L := plain_url) example_policy example_original = Ok r.
Proof. apply is_ok_exists. vm_compute. reflexivity. Qed.

Lemma example_reordered_ok :
  exists r, canonicalize (L := plain_url) example_policy example_reordered = Ok r.
Proof. apply is_ok_exists. vm_compute. reflexivity. Qed.

Lemma example_original_text r :
  canonicalize (L := plain_url) example_policy example_original = Ok r ->
  url_as_str (result_canonical_url r) = "http://example.com/?a=1&b=2&utm_id=7"%string.
Proof.
intros H. assert (example_result example_original = Ok "http://example.com/?a=1&b=2&utm_id=7"%string) as He
  by (vm_compute; reflexivity).
unfold example_result in He. rewrite H in He. by injection He.
Qed.

Lemma canonicalize_accepts_witness :
  exists u, url_parse (UrlLib := plain_url) example_original = Some u /\ crawlable (view u).
Proof.
apply (canonicalize_accepts example_policy example_original). vm_compute. reflexivity.
Defined.

Lemma canonicalize_spec_witness :
  exists r, canonicalize (L := plain_url) example_policy example_original = Ok r /\
    url_as_str (result_canonical_url r) = "http://example.com/?a=1&b=2&utm_id=7"%string /\
    url_fragment (result_canonical_url r) = None.
Proof.
destruct example_original_ok as [r Hr]. destruct example_original_parses as (u & Hu & _).
exists r. split; [exact Hr|]. split; [by apply example_original_text|].
apply (canonicalize_spec example_policy example_original r u Hr Hu).
Defined.

Lemma canonicalize_idempotent_witness :
  exists r, canonicalize (L := plain_url) example_policy "http://example.com/?a=1&b=2&utm_id=7" = Ok r /\
    url_as_str (result_canonical_url r) = "http://example.com/?a=1&b=2&utm_id=7"%string.
Proof.
destruct example_original_ok as [r Hr].
destruct (canonicalize_idempotent example_policy example_original r Hr) as (r' & Hr' & Hc).
pose proof (example_original_text r Hr) as Ht. rewrite Ht in Hr'.
exists r'. split; [exact Hr'|]. by rewrite Hc.
Defined.

Lemma canonicalize_query_order_witness :
  exists r1 r2, canonicalize (L := plain_url) example_policy example_original = Ok r1 /\
    canonicalize (L := plain_url) example_policy example_reordered = Ok r2 /\
    result_canonical_url r1 = result_canonical_url r2.
Proof.
destruct example_original_ok as [r1 Hr1]. destruct example_reordered_ok as [r2 Hr2].
destruct example_original_parses as (u1 & Hu1 & Hd1).
destruct example_reordered_parses as (u2 & Hu2 & Hd2).
exists r1, r2. split; [exact Hr1|]. split; [exact Hr2|].
apply (canonicalize_query_order example_policy example_original example_reordered
  "utm_source=x&b=2&session=9&a=1&utm_id=7" "a=1&utm_id=7&session=9&b=2&utm_source=x"
  u1 u2 r1 r2 Hr1 Hr2 Hu1 Hu2 eq_refl).
- simpl. by rewrite Hd1.
- simpl. by rewrite Hd2.
- intros q. apply plain_url_eq. simpl. by rewrite Hd1, Hd2.
- apply (bool_decide_unpack _). vm_compute. exact I.
Defined.
