(* ===== verification/DomainScope.v ===== *)
(** * Domain scopes

    [crates/erabi-domain/src/domain_scope.rs]: which hosts a crawler version may
    visit.  IP parsing and the public suffix list are interfaces; a host is
    normalised text. *)

From S2P Require Import Prelude Externals Base Instances.

Definition DOMAIN_SCOPE_POLICY_VERSION : Z := 1.

Definition invalid_scope (message : string) : ProductError := with_code InvalidDomainScope message.
Definition invalid_scope_rule (message : string) : ProductError :=
  with_code InvalidDomainScopeRule message.

Inductive DomainScopeHostRule :=
| Exact (host : string)
| Subdomains (host : string).

#[export] Instance host_rule_eq_dec : EqDecision DomainScopeHostRule.
Proof. solve_decision. Defined.

#[export] Instance host_rule_countable : Countable DomainScopeHostRule.
Proof.
refine (inj_countable' (fun r => match r with Exact h => inl h | Subdomains h => inr h end)
  (fun s => match s with inl h => Exact h | inr h => Subdomains h end) _).
by intros [].
Defined.

Inductive DomainScopeKind :=
| SeedDomainsOnly
| SameRegistrableDomain (explicit_subdomains : gset string)
| ExplicitAllowlist (hosts : gset string)
| CustomScope (allow block : gset DomainScopeHostRule).

Record DomainScopePolicy := { scope_version : Z; policy : DomainScopeKind }.

Definition seed_domains_only : DomainScopePolicy :=
  {| scope_version := DOMAIN_SCOPE_POLICY_VERSION; policy := SeedDomainsOnly |}.

Inductive DomainScopeRationale :=
| SeedHost | RegistrableDomain | ExplicitSubdomain | UnselectedSubdomain | ByExplicitAllowlist
| OutsideSeedDomains | OutsideAllowlist | ExplicitBlock | CustomAllow | OutsideCustomAllow.

Inductive DomainScopeClassification :=
| InScope (host : string) (rationale : DomainScopeRationale)
| External (host : string) (rationale : DomainScopeRationale)
| Blocked (host : string) (rationale : DomainScopeRationale).

Definition rule_host (r : DomainScopeHostRule) : string :=
  match r with Exact host | Subdomains host => host end.

(** [candidate.strip_suffix(root).is_some_and(|rest| rest.ends_with('.'))] *)
Definition host_is_within_root (candidate root : string) : bool :=
  String.eqb candidate root
  || match str_strip_suffix root candidate with Some rest => ends_with rest "." | None => false end.

Definition rule_matches_host (r : DomainScopeHostRule) (candidate : string) : bool :=
  match r with
  | Exact host => String.eqb candidate host
  | Subdomains host => host_is_within_root candidate host
  end.

Section domain_scope.
Context `{U : UuidLib} `{L : UrlLib} `{H : HostLib}.

Definition validate_crawl_url (u : url) : result ProductError unit :=
  reject_if
    (negb (http_or_https (url_scheme u)) || bool_decide (url_host_str u = None)
     || negb (str_is_empty (url_username u)) || bool_decide (is_Some (url_password u))
     || bool_decide (is_Some (url_fragment u)))
    (with_code InvalidUrl "the URL is not a valid HTTP(S) crawl target").

Definition normalized_url_host (u : url) : result ProductError string :=
  ok_or (invalid_scope "the URL host is missing") (to_ascii_lowercase <$> url_host_str u).

Definition validate_normalized_host (host : string) : result ProductError unit :=
  let? _ := reject_if (str_is_empty host || has_whitespace host || contains_ch "/" host)
    (invalid_scope_rule "Domain Scope host is invalid") in
  if parses_as_ip host then Ok tt else
  let? parsed := ok_or (invalid_scope_rule "Domain Scope host is invalid")
    (url_parse ("https://" ++ host ++ "/")) in
  reject_if
    (bool_decide (url_host_str parsed = None) || bool_decide (is_Some (url_port parsed))
     || bool_decide (url_host_str parsed <> Some host))
    (invalid_scope_rule "Domain Scope host is invalid").

Definition normalize_rule_host (host : string) : result ProductError string :=
  let host := to_ascii_lowercase (trim host) in
  let? _ := validate_normalized_host host in
  Ok host.

Definition rule_exact (host : string) : result ProductError DomainScopeHostRule :=
  let? host := normalize_rule_host host in Ok (Exact host).

Definition rule_subdomains (host : string) : result ProductError DomainScopeHostRule :=
  let? host := normalize_rule_host host in Ok (Subdomains host).

Definition rule_validate (r : DomainScopeHostRule) : result ProductError unit :=
  let? normalized := normalize_rule_host (rule_host r) in
  reject_if (negb (String.eqb normalized (rule_host r)))
    (invalid_scope_rule "Domain Scope hosts must be normalized").

(** The rule sets are traversed in some order; the check is the same for each. *)
Definition scope_validate (self : DomainScopePolicy) : result ProductError unit :=
  let? _ := reject_if (negb (scope_version self =? DOMAIN_SCOPE_POLICY_VERSION))
    (invalid_scope "unsupported Domain Scope policy version") in
  match policy self with
  | SeedDomainsOnly => Ok tt
  | SameRegistrableDomain explicit_subdomains =>
    for_each validate_normalized_host (elements explicit_subdomains)
  | ExplicitAllowlist hosts =>
    let? _ := reject_if (bool_decide (hosts = ∅))
      (invalid_scope "Domain Scope allowlist must not be empty") in
    for_each validate_normalized_host (elements hosts)
  | CustomScope allow block =>
    let? _ := reject_if (bool_decide (allow = ∅))
      (invalid_scope "custom Domain Scope allow rules must not be empty") in
    for_each rule_validate (elements allow ++ elements block)
  end.

Definition registrable_domain (host : string) : result ProductError string :=
  if parses_as_ip host || negb (contains_ch "." host) then Ok host
  else ok_or (with_code RegistrableDomainUnavailable
         "registrable-domain data is unavailable for this host") (psl_domain host).

Definition seed_host (s : Seed) : result ProductError string :=
  let? _ := validate_crawl_url (canonical_url s) in
  normalized_url_host (canonical_url s).

(** The hosts of the enabled seeds. *)
Definition seed_hosts (seeds : list Seed) : result ProductError (gset string) :=
  let? hosts := collect seed_host (filter (fun s => enabled s = true) seeds) in
  Ok (list_to_set hosts).

Definition any_rule_matches (rules : gset DomainScopeHostRule) (candidate : string) : bool :=
  existsb (fun r => rule_matches_host r candidate) (elements rules).

Definition classify (self : DomainScopePolicy) (candidate : url) (seeds : list Seed)
    : result ProductError DomainScopeClassification :=
  let? _ := scope_validate self in
  let? _ := validate_crawl_url candidate in
  let? candidate_host := normalized_url_host candidate in
  let? hosts := seed_hosts seeds in
  match policy self with
  | SeedDomainsOnly =>
    let? _ := reject_if (bool_decide (hosts = ∅))
      (invalid_scope "Domain Scope requires an enabled seed") in
    Ok (if bool_decide (candidate_host ∈ hosts) then InScope candidate_host SeedHost
        else External candidate_host OutsideSeedDomains)
  | SameRegistrableDomain explicit_subdomains =>
    let? _ := reject_if (bool_decide (hosts = ∅))
      (invalid_scope "Domain Scope requires an enabled seed") in
    let? roots := collect registrable_domain (elements hosts) in
    let? candidate_root := registrable_domain candidate_host in
    Ok (if bool_decide (candidate_host ∈ explicit_subdomains)
           && existsb (host_is_within_root candidate_host) roots
        then InScope candidate_host ExplicitSubdomain
        else if bool_decide (candidate_root ∈ roots) && String.eqb candidate_host candidate_root
        then InScope candidate_host RegistrableDomain
        else if bool_decide (candidate_host ∈ hosts) then InScope candidate_host SeedHost
        else External candidate_host UnselectedSubdomain)
  | ExplicitAllowlist allowed =>
    Ok (if bool_decide (candidate_host ∈ allowed) then InScope candidate_host ByExplicitAllowlist
        else External candidate_host OutsideAllowlist)
  | CustomScope allow block =>
    Ok (if any_rule_matches block candidate_host then Blocked candidate_host ExplicitBlock
        else if any_rule_matches allow candidate_host then InScope candidate_host CustomAllow
        else External candidate_host OutsideCustomAllow)
  end.

(** ** Specification *)

(** [h] is [root] or a name under it. *)
Definition within (root h : string) : Prop :=
  h = root \/ exists sub, h = (sub ++ "." ++ root)%string.

Definition rule_denotes (r : DomainScopeHostRule) (h : string) : Prop :=
  match r with Exact host => h = host | Subdomains host => within host h end.

(** The hosts each policy admits, given the hosts of the enabled seeds. *)
Definition scope_admits (k : DomainScopeKind) (hosts : gset string) (h : string) : Prop :=
  match k with
  | SeedDomainsOnly => h ∈ hosts
  | SameRegistrableDomain explicit =>
    h ∈ hosts \/
    (exists s, s ∈ hosts /\ registrable_domain s = Ok h /\ registrable_domain h = Ok h) \/
    (h ∈ explicit /\ exists s root, s ∈ hosts /\ registrable_domain s = Ok root /\ within root h)
  | ExplicitAllowlist allowed => h ∈ allowed
  | CustomScope allow block =>
    (exists r, r ∈ allow /\ rule_denotes r h) /\ ~ (exists r, r ∈ block /\ rule_denotes r h)
  end.

(** A URL without user information or fragment. *)
Definition crawl_target (u : url) : Prop := crawlable (view u) /\ url_fragment u = None.
End domain_scope.

(** ** A scope and seeds the witnesses evaluate *)

Definition example_custom_scope : DomainScopePolicy :=
  {| scope_version := 1;
     policy := CustomScope {[Subdomains "example.com"]} {[Exact "admin.example.com"]} |}.

Definition example_candidate_url : url (UrlLib := plain_url) := plain_page_url "shop.example.com" "/" eq_refl.
Definition example_admin_url : url (UrlLib := plain_url) := plain_page_url "admin.example.com" "/" eq_refl.
Definition example_seeds : list (Seed (U := plain_uuid)) :=
  [new_seed 0 (plain_page_url "www.example.com" "/" eq_refl) (plain_page_url "www.example.com" "/" eq_refl)].

(** * Theorems *)

Section domain_scope_theorems.
Context `{U : UuidLib} `{L : UrlLib} `{H : HostLib}.

Lemma host_is_within_root_spec h root : host_is_within_root h root = true <-> within root h.
Proof.
unfold host_is_within_root, within. rewrite orb_true_iff, String.eqb_eq. apply or_iff_compat_l.
split.
- destruct (str_strip_suffix root h) as [rest|] eqn:Hs; [|done].
  apply str_strip_suffix_spec in Hs as ->. intros [sub ->]%ends_with_spec. exists sub.
  by rewrite str_app_assoc.
- intros [sub ->]. assert (str_strip_suffix root (sub ++ "." ++ root) = Some (sub ++ ".")%string) as ->.
  { apply str_strip_suffix_spec. by rewrite str_app_assoc. }
  apply ends_with_spec. by exists sub.
Qed.

Lemma rule_matches_host_spec r h : rule_matches_host r h = true <-> rule_denotes r h.
Proof. destruct r; simpl; [apply String.eqb_eq|apply host_is_within_root_spec]. Qed.

Lemma any_rule_matches_spec rules h :
  any_rule_matches rules h = true <-> exists r, r ∈ rules /\ rule_denotes r h.
Proof.
unfold any_rule_matches. rewrite existsb_exists.
split; intros (r & Hr & Hm); exists r; rewrite rule_matches_host_spec in *;
  rewrite <- elem_of_elements, ?list_elem_of_In in *; done.
Qed.

Lemma validate_crawl_url_ok u : validate_crawl_url u = Ok tt <-> crawl_target u.
Proof.
unfold validate_crawl_url. rewrite reject_if_ok, !orb_false_iff.
rewrite !negb_false_iff, !bool_decide_eq_false. unfold crawl_target, crawlable; simpl.
rewrite <- !eq_None_not_Some, <- not_eq_None_Some.
destruct (url_username u); simpl; naive_solver.
Qed.

Lemma normalized_url_host_ok u h :
  normalized_url_host u = Ok h <-> exists h0, url_host_str u = Some h0 /\ h = to_ascii_lowercase h0.
Proof. unfold normalized_url_host. rewrite ok_or_ok, fmap_Some. done. Qed.

Lemma elem_of_seed_hosts seeds hosts h :
  seed_hosts seeds = Ok hosts ->
  h ∈ hosts <-> exists s, s ∈ seeds /\ enabled s = true /\ seed_host s = Ok h.
Proof.
unfold seed_hosts. rewrite bind_ok. intros (l & Hl%collect_ok & [= <-]).
rewrite elem_of_list_to_set. split.
- intros Hh. apply list_elem_of_lookup in Hh as [i Hi].
  destruct (Forall2_lookup_r _ _ _ _ _ Hl Hi) as (s & Hs & Hsh).
  apply list_elem_of_lookup_2, list_elem_of_filter in Hs as [? ?]. by exists s.
- intros (s & Hs & He & Hsh).
  assert (s ∈ filter (fun s => enabled s = true) seeds) as Hin by by apply list_elem_of_filter.
  apply list_elem_of_lookup in Hin as [i Hi].
  destruct (Forall2_lookup_l _ _ _ _ _ Hl Hi) as (h' & Hh' & Hsh').
  apply list_elem_of_lookup_2 in Hh'. congruence.
Qed.

Lemma elem_of_roots hosts roots root :
  collect registrable_domain (elements (hosts : gset string)) = Ok roots ->
  root ∈ roots <-> exists s, s ∈ hosts /\ registrable_domain s = Ok root.
Proof.
intros Hl%collect_ok. split.
- intros Hh. apply list_elem_of_lookup in Hh as [i Hi].
  destruct (Forall2_lookup_r _ _ _ _ _ Hl Hi) as (s & Hs & Hsh).
  apply list_elem_of_lookup_2, elem_of_elements in Hs. by exists s.
- intros (s & Hs & Hsh). apply elem_of_elements, list_elem_of_lookup in Hs as [i Hi].
  destruct (Forall2_lookup_l _ _ _ _ _ Hl Hi) as (h' & Hh' & Hsh').
  apply list_elem_of_lookup_2 in Hh'. congruence.
Qed.

(** What a successful classification has checked. *)
Lemma classify_ok self u seeds c :
  classify self u seeds = Ok c ->
  scope_validate self = Ok tt /\ crawl_target u /\
  exists h hosts, normalized_url_host u = Ok h /\ seed_hosts seeds = Ok hosts.
Proof.
unfold classify. intros Hc. apply bind_ok in Hc as ([] & Hv & Hc).
apply bind_ok in Hc as ([] & Hu & Hc). apply bind_ok in Hc as (h & Hh & Hc).
apply bind_ok in Hc as (hosts & Hs & _). apply validate_crawl_url_ok in Hu. eauto 6.
Qed.

(** A classification says in scope exactly for the hosts the policy admits:
    a seed's host; the registrable domain of a seed or a selected name under it; a
    listed host; or a host some allow rule denotes and no block rule does. *)
Theorem classify_in_scope (self : DomainScopePolicy) (u : url) (seeds : list Seed)
    (c : DomainScopeClassification) (h : string) (hosts : gset string)
    (Hc : classify self u seeds = Ok c)
    (Hh : normalized_url_host u = Ok h) (Hs : seed_hosts seeds = Ok hosts) :
  (exists why, c = InScope h why) <-> scope_admits (policy self) hosts h.
Proof.
unfold classify in Hc. apply bind_ok in Hc as ([] & _ & Hc). apply bind_ok in Hc as ([] & _ & Hc).
rewrite Hh, Hs in Hc. destruct (policy self) as [|sub|allowed|allow block]; simpl in *.
- apply reject_then_ok in Hc as [_ [= <-]].
  destruct (bool_decide (h ∈ hosts)) eqn:Hd; boolify; naive_solver.
- apply reject_then_ok in Hc as [_ Hc]. apply bind_ok in Hc as (roots & Hroots & Hc).
  apply bind_ok in Hc as (root & Hroot & [= <-]).
  pose proof (elem_of_roots hosts roots) as Hin.
  assert (Hex : existsb (host_is_within_root h) roots = true <->
    exists s root, s ∈ hosts /\ registrable_domain s = Ok root /\ within root h).
  { rewrite existsb_exists. split.
    - intros (r & Hr%list_elem_of_In & Hw%host_is_within_root_spec).
      apply (Hin r Hroots) in Hr as (s & ? & ?). by exists s, r.
    - intros (s & r & Hs' & Hr & Hw%host_is_within_root_spec). exists r. split; [|done].
      apply list_elem_of_In, (Hin r Hroots). by exists s. }
  destruct (bool_decide (h ∈ sub)) eqn:Hsub, (existsb _ roots) eqn:He; simpl; boolify;
    try (split; [intros _; right; right; split; [done|by apply Hex]|by eexists]).
  all: destruct (bool_decide (root ∈ roots)) eqn:Hr, (String.eqb h root) eqn:Heq; simpl; boolify.
  all: try (subst root; split; [intros _; right; left; apply (Hin h Hroots) in Hr as (s & ? & ?);
    by exists s|by eexists]).
  all: destruct (bool_decide (h ∈ hosts)) eqn:Hhh; boolify;
    try (split; [by left|by eexists]); split; [by intros [? ?]|].
  all: intros [?|[(s & Hs1 & Hs2 & Hs3)|[? Hw]]]; try done; exfalso.
  all: try (apply Hex in Hw; congruence).
  all: assert (root = h) as -> by congruence; try done.
  all: apply Hr, (Hin h Hroots); by exists s.
- injection Hc as <-. destruct (bool_decide (h ∈ allowed)) eqn:Hd; boolify; naive_solver.
- injection Hc as <-. rewrite <- !any_rule_matches_spec.
  destruct (any_rule_matches block h), (any_rule_matches allow h); naive_solver.
Qed.

(** Scopes fail closed: a classification is given only under a valid policy,
    for a crawl target without fragment, with every enabled seed a crawl target,
    and the seed-based policies refuse to classify without an enabled seed. *)
Theorem classify_fail_closed (self : DomainScopePolicy) (u : url) (seeds : list Seed)
    (c : DomainScopeClassification) (Hc : classify self u seeds = Ok c) :
  scope_validate self = Ok tt /\ crawl_target u /\
  (forall s, s ∈ seeds -> enabled s = true -> crawl_target (canonical_url s)) /\
  match policy self with
  | SeedDomainsOnly | SameRegistrableDomain _ => exists s, s ∈ seeds /\ enabled s = true
  | _ => True
  end.
Proof.
destruct (classify_ok _ _ _ _ Hc) as (Hv & Hu & h & hosts & Hh & Hs).
split; [done|]. split; [done|]. split.
- intros s Hin He. unfold seed_hosts in Hs. apply bind_ok in Hs as (l & Hl%collect_ok & _).
  assert (s ∈ filter (fun s => enabled s = true) seeds) as Hf by by apply list_elem_of_filter.
  apply list_elem_of_lookup in Hf as [i Hi].
  destruct (Forall2_lookup_l _ _ _ _ _ Hl Hi) as (h' & _ & Hsh). unfold seed_host in Hsh.
  apply bind_ok in Hsh as ([] & Hsh & _). by apply validate_crawl_url_ok.
- assert (hosts <> ∅ -> exists s, s ∈ seeds /\ enabled s = true) as Hne.
  { intros Hn. apply set_choose_L in Hn as [x Hx].
    apply (elem_of_seed_hosts _ _ _ Hs) in Hx as (s & ? & ? & _). by exists s. }
  unfold classify in Hc. apply bind_ok in Hc as ([] & _ & Hc). apply bind_ok in Hc as ([] & _ & Hc).
  rewrite Hh, Hs in Hc. destruct (policy self); [| |done|done].
  all: apply reject_then_ok in Hc as [Hc%bool_decide_eq_false_1 _]; by apply Hne.
Qed.

(** Block rules win: whatever the allow rules and the seeds, a host that a
    block rule denotes is classified as blocked. *)
Theorem classify_block_wins (self : DomainScopePolicy) (u : url) (seeds : list Seed)
    (c : DomainScopeClassification) (allow block : gset DomainScopeHostRule) (h : string)
    (r : DomainScopeHostRule)
    (Hp : policy self = CustomScope allow block) (Hc : classify self u seeds = Ok c)
    (Hh : normalized_url_host u = Ok h) (Hr : r ∈ block) (Hd : rule_denotes r h) :
  c = Blocked h ExplicitBlock.
Proof.
unfold classify in Hc. apply bind_ok in Hc as ([] & _ & Hc). apply bind_ok in Hc as ([] & _ & Hc).
rewrite Hh, Hp in Hc. apply bind_ok in Hc as (hosts & _ & [= <-]).
assert (any_rule_matches block h = true) as ->; [|done].
apply any_rule_matches_spec. by exists r.
Qed.
End domain_scope_theorems.

(** * Witnesses *)

Lemma classify_in_scope_witness :
  scope_admits (policy example_custom_scope) {["www.example.com"]} "shop.example.com".
Proof.
apply (classify_in_scope example_custom_scope example_candidate_url example_seeds
  (InScope "shop.example.com" CustomAllow) "shop.example.com" {["www.example.com"]}).
- vm_compute. reflexivity.
- vm_compute. reflexivity.
- vm_compute. reflexivity.
- by exists CustomAllow.
Defined.

Lemma classify_fail_closed_witness :
  classify seed_domains_only example_candidate_url example_seeds
    = Ok (External "shop.example.com" OutsideSeedDomains) /\
  exists s, s ∈ example_seeds /\ enabled s = true.
Proof.
assert (classify seed_domains_only example_candidate_url example_seeds
    = Ok (External "shop.example.com" OutsideSeedDomains)) as H by (vm_compute; reflexivity).
split; [exact H|]. apply (classify_fail_closed _ _ _ _ H).
Defined.

Lemma classify_block_wins_witness :
  classify example_custom_scope example_admin_url example_seeds
    = Ok (Blocked "admin.example.com" ExplicitBlock).
Proof.
destruct (is_ok_exists (classify example_custom_scope example_admin_url example_seeds)) as [c Hc].
{ vm_compute. reflexivity. }
rewrite Hc. f_equal.
apply (classify_block_wins example_custom_scope example_admin_url example_seeds c
  {[Subdomains "example.com"]} {[Exact "admin.example.com"]} "admin.example.com"
  (Exact "admin.example.com") eq_refl Hc).
- vm_compute. reflexivity.
- set_solver.
- reflexivity.
Defined.
