(* ===== verification/UrlMatcher.v ===== *)
(** * URL matchers and page types

    [crates/erabi-domain/src]: [url_matcher.rs], [page_type.rs] and [matching.rs]:
    the matcher definitions a page type owns, their specificity, and which page
    type a URL has. *)

From S2P Require Import Prelude Externals Base Instances.

Inductive UrlMatcherKind := KindExactUrl | KindExactHostPathTemplate | KindPathPrefixOrGlob | KindRegex.

#[export] Instance matcher_kind_eq_dec : EqDecision UrlMatcherKind.
Proof. solve_decision. Defined.

Definition rank (k : UrlMatcherKind) : Z :=
  match k with
  | KindExactUrl => 4
  | KindExactHostPathTemplate => 3
  | KindPathPrefixOrGlob => 2
  | KindRegex => 1
  end.

Record SpecificityKey := {
  matcher_kind_rank : Z;
  literal_path_segments : Z;
  explicit_query_constraints : Z;
  literal_characters : Z;
  (** the count inside [Reverse] *)
  inverse_wildcards : Z
}.

#[export] Instance specificity_eq_dec : EqDecision SpecificityKey.
Proof. solve_decision. Defined.

(** The derived [Ord]: the fields in order, the last reversed. *)
Definition specificity_fields (k : SpecificityKey) : Z * (Z * (Z * (Z * Z))) :=
  (matcher_kind_rank k, (literal_path_segments k, (explicit_query_constraints k,
    (literal_characters k, inverse_wildcards k)))).
Definition specificity_cmp : SpecificityKey -> SpecificityKey -> comparison :=
  cmp_on specificity_fields
    (cmp_pair Z.compare (cmp_pair Z.compare (cmp_pair Z.compare
      (cmp_pair Z.compare (cmp_reverse Z.compare))))).

(** ** Text checks *)

Definition not_empty (s : string) : bool := negb (str_is_empty s).

(** [template.split('/').filter(|part| !part.is_empty())] *)
Definition path_parts (s : string) : list string :=
  filter (fun p => not_empty p = true) (split_on "/" s).

Definition is_capture (segment : string) : bool :=
  starts_with segment "{" && ends_with segment "}".

Definition segment_matches (left right : string) : bool :=
  is_capture left || String.eqb left right.

Definition template_matches (template actual : string) : bool :=
  let expected := path_parts template in
  let actual := path_parts actual in
  Nat.eqb (length expected) (length actual)
  && forallb (fun p => segment_matches p.1 p.2) (combine expected actual).

Definition is_glob_meta (c : ascii) : bool :=
  Ascii.eqb c "{" || Ascii.eqb c "}" || Ascii.eqb c "*".

(** [&segment[1..segment.len() - 1]] of a segment of length at least two. *)
Definition inner_text (segment : string) : string :=
  String.substring 1 (str_len segment - 2) segment.

Definition valid_template_segment (segment : string) : bool :=
  if starts_with segment "{" || ends_with segment "}" then
    Nat.ltb 2 (str_len segment) && starts_with segment "{" && ends_with segment "}"
    && negb (str_contains (fun c => is_glob_meta c || Ascii.eqb c "/") (inner_text segment))
  else negb (str_contains is_glob_meta segment).

Definition valid_path_template (path : string) : bool :=
  not_empty path && starts_with path "/" && forallb valid_template_segment (tl (split_on "/" path)).

Definition valid_path_prefix (path : string) : bool :=
  not_empty path && starts_with path "/" && negb (str_contains is_glob_meta path).

Definition valid_path_glob (path : string) : bool := not_empty path && starts_with path "/".

(** A [BTreeMap<String, String>]: its entries in the order of the keys. *)
Definition QueryMap := list (string * string).

Definition valid_query (query : QueryMap) : bool :=
  forallb (fun kv => not_empty kv.1 && negb (has_whitespace kv.1)) query.

(** A path segment without wildcard or capture text. *)
Definition is_literal_segment (part : string) : bool :=
  not_empty part && negb (contains_ch "*" part) && negb (contains_ch "{" part)
  && negb (contains_ch "(" part).

Definition count_where {A} (p : A -> bool) (l : list A) : nat :=
  length (filter (fun x => p x = true) l).

Section url_matcher.
Context `{U : UuidLib} `{L : UrlLib} `{R : RegexLib}.

(** [Definition]; [UrlMatcherDefinition] is the same type without [serde], and
    [definition] the identity. *)
Inductive UrlMatcher :=
| ExactUrl (expected : url)
| ExactHostPathTemplate (host path_template : string) (query : QueryMap)
| PathPrefix (host : option string) (prefix : string)
| PathGlob (host : option string) (pattern : string)
| Regex (pattern : string).

Definition valid_host (host : string) : bool :=
  if blank host || has_whitespace host then false
  else match url_parse ("https://" ++ host ++ "/") with
       | None => false
       | Some parsed =>
         bool_decide (url_port parsed = None)
         && match url_host_str parsed with
            | Some value => eq_ignore_ascii_case value host | None => false end
       end.

Definition valid_optional_host (host : option string) : bool :=
  match host with Some h => valid_host h | None => true end.

Definition validate_definition (m : UrlMatcher) : result ProductError unit :=
  match m with
  | ExactUrl _ => Ok tt
  | ExactHostPathTemplate host path_template query =>
    if valid_host host && valid_path_template path_template && valid_query query then Ok tt
    else Err (conflict "invalid exact host/path template matcher")
  | PathPrefix host prefix =>
    if valid_optional_host host && valid_path_prefix prefix then Ok tt
    else Err (conflict "invalid URL path prefix matcher")
  | PathGlob host pattern =>
    if valid_optional_host host && valid_path_glob pattern then Ok tt
    else Err (conflict "invalid URL path glob matcher")
  | Regex pattern =>
    match regex_new pattern with
    | Some _ => Ok tt
    | None => Err (conflict "invalid URL matcher regex")
    end
  end.

Definition validated (m : UrlMatcher) : result ProductError UrlMatcher :=
  let? _ := validate_definition m in Ok m.

Definition exact_url (u : url) : UrlMatcher := ExactUrl u.
Definition exact_host_path_template (host path_template : string) (query : QueryMap) : UrlMatcher :=
  ExactHostPathTemplate host path_template query.
Definition path_prefix (host : option string) (prefix : string) : UrlMatcher := PathPrefix host prefix.
Definition try_exact_host_path_template (host path_template : string) (query : QueryMap)
    : result ProductError UrlMatcher := validated (ExactHostPathTemplate host path_template query).
Definition try_path_prefix (host : option string) (prefix : string) : result ProductError UrlMatcher :=
  validated (PathPrefix host prefix).
Definition path_glob (host : option string) (pattern : string) : result ProductError UrlMatcher :=
  validated (PathGlob host pattern).
Definition regex_matcher (pattern : string) : result ProductError UrlMatcher := validated (Regex pattern).

Definition kind (m : UrlMatcher) : UrlMatcherKind :=
  match m with
  | ExactUrl _ => KindExactUrl
  | ExactHostPathTemplate _ _ _ => KindExactHostPathTemplate
  | PathPrefix _ _ | PathGlob _ _ => KindPathPrefixOrGlob
  | Regex _ => KindRegex
  end.

Definition matcher_pattern (m : UrlMatcher) : string :=
  match m with
  | ExactUrl u => url_as_str u
  | ExactHostPathTemplate host path_template _ => (host ++ path_template)%string
  | PathPrefix _ prefix => prefix
  | PathGlob _ pattern | Regex pattern => pattern
  end.

Definition specificity (m : UrlMatcher) : SpecificityKey :=
  let path :=
    match m with
    | ExactUrl u => url_path u
    | ExactHostPathTemplate _ path_template _ => path_template
    | PathPrefix _ prefix => prefix
    | PathGlob _ pattern | Regex pattern => pattern
    end in
  {| matcher_kind_rank := rank (kind m);
     literal_path_segments := u32_of_usize (count_where is_literal_segment (split_on "/" path));
     explicit_query_constraints :=
       match m with
       | ExactUrl u => u32_of_usize (length (url_query_pairs u))
       | ExactHostPathTemplate _ _ query => u32_of_usize (length query)
       | _ => 0
       end;
     literal_characters := u32_of_usize (count_where is_ascii_alphanumeric (chars path));
     inverse_wildcards :=
       u32_of_usize (count_ch "*" path + count_ch "{" path + count_ch "(" path) |}.

(** [regex::Regex::new(pattern).is_ok_and(|e| e.is_match(text))] *)
Definition regex_matches (pattern text : string) : bool :=
  match regex_new pattern with Some e => regex_is_match e text | None => false end.

Definition glob_matches (pattern actual : string) : bool :=
  let escaped := str_replace "\*" ".*" (regex_escape pattern) in
  regex_matches ("^" ++ escaped ++ "$") actual.

Definition host_matches (u : url) (host : string) : bool :=
  match url_host_str u with Some actual => eq_ignore_ascii_case actual host | None => false end.

Definition optional_host_matches (u : url) (host : option string) : bool :=
  match host with Some expected => host_matches u expected | None => true end.

Definition query_satisfied (u : url) (query : QueryMap) : bool :=
  forallb (fun kv => existsb (fun a => String.eqb a.1 kv.1 && String.eqb a.2 kv.2)
    (url_query_pairs u)) query.

Definition matches (m : UrlMatcher) (u : url) : bool :=
  match m with
  | ExactUrl expected => bool_decide (expected = u)
  | ExactHostPathTemplate host path_template query =>
    host_matches u host && template_matches path_template (url_path u) && query_satisfied u query
  | PathPrefix host prefix => optional_host_matches u host && starts_with (url_path u) prefix
  | PathGlob host pattern => optional_host_matches u host && glob_matches pattern (url_path u)
  | Regex pattern => regex_matches pattern (url_as_str u)
  end.

(** ** Page types *)

Record PageType := {
  pt_id : PageTypeId;
  pt_name : string;
  pt_priority : Z;
  pt_matchers : list UrlMatcher
}.

Definition new_page_type (n : nat) (name : string) (priority : Z) (matchers : list UrlMatcher)
    : PageType :=
  {| pt_id := new_id n; pt_name := name; pt_priority := priority; pt_matchers := matchers |}.

Record PageTypeCandidate := {
  cand_id : PageTypeId;
  cand_name : string;
  cand_priority : Z;
  cand_kind : UrlMatcherKind;
  cand_specificity : SpecificityKey;
  cand_patterns : list string
}.

Inductive PageTypeMatchDecision :=
| Matched (c : PageTypeCandidate)
| Ambiguous (candidates : list PageTypeCandidate)
| Unmatched.

Definition matching_matchers (u : url) (p : PageType) : list UrlMatcher :=
  filter (fun m => matches m u = true) (pt_matchers p).

(** The candidate of one page type, if any of its matchers applies. *)
Definition candidate_of (u : url) (p : PageType) : option PageTypeCandidate :=
  match max_by specificity_cmp (map specificity (matching_matchers u p)) with
  | None => None
  | Some s =>
    let best m := matches m u && bool_decide (specificity m = s) in
    Some {| cand_id := pt_id p; cand_name := pt_name p; cand_priority := pt_priority p;
            cand_kind := match find best (pt_matchers p) with
                         | Some m => kind m | None => KindRegex end;
            cand_specificity := s;
            cand_patterns := dedup String.compare (sort_by String.compare
              (map matcher_pattern (filter (fun m => best m = true) (pt_matchers p)))) |}
  end.

Definition candidate_rank (c : PageTypeCandidate) : Z * SpecificityKey :=
  (cand_priority c, cand_specificity c).

Definition rank_cmp : Z * SpecificityKey -> Z * SpecificityKey -> comparison :=
  cmp_pair Z.compare specificity_cmp.

Definition candidate_order : PageTypeCandidate -> PageTypeCandidate -> comparison :=
  cmp_on (fun c => (cand_name c, cand_patterns c)) (cmp_pair String.compare (cmp_list String.compare)).

(** The candidates with the greatest priority and specificity, in display order. *)
Definition best_candidates (candidates : list PageTypeCandidate) : list PageTypeCandidate :=
  let best := max_by rank_cmp (map candidate_rank candidates) in
  sort_by candidate_order (filter (fun c => Some (candidate_rank c) = best) candidates).

(** The candidates of the page types that match. *)
Definition page_type_candidates (u : url) (page_types : list PageType) : list PageTypeCandidate :=
  omap (candidate_of u) page_types.

Definition resolve_page_type (u : url) (page_types : list PageType) : PageTypeMatchDecision :=
  match page_type_candidates u page_types with
  | [] => Unmatched
  | candidates =>
    match best_candidates candidates with
    | [c] => Matched c
    | cs => Ambiguous cs
    end
  end.
End url_matcher.

(** ** Specification *)

Section specification.
Context `{U : UuidLib} `{L : UrlLib} `{R : RegexLib}.

(** [c] is strictly above [d] in priority, then specificity. *)
Definition outranks (c d : PageTypeCandidate) : Prop :=
  rank_cmp (candidate_rank d) (candidate_rank c) = Lt.

(** Decisions that name the same candidates. *)
Definition decision_equiv (d1 d2 : PageTypeMatchDecision) : Prop :=
  match d1, d2 with
  | Matched c1, Matched c2 => c1 = c2
  | Ambiguous l1, Ambiguous l2 => l1 ≡ₚ l2
  | Unmatched, Unmatched => True
  | _, _ => False
  end.

(** The same page type with its matchers listed in another order. *)
Definition same_page_type (p q : PageType) : Prop :=
  pt_id p = pt_id q /\ pt_name p = pt_name q /\ pt_priority p = pt_priority q /\
  pt_matchers p ≡ₚ pt_matchers q.
End specification.

(** ** Page types the witnesses evaluate *)

Section examples.
#[local] Existing Instances plain_uuid plain_url plain_regex.

Definition example_item : url := plain_page_url "shop.example.com" "/items/42" eq_refl.

Definition item_template : UrlMatcher :=
  ExactHostPathTemplate "Shop.example.com" "/items/{id}" [].
Definition item_prefix : UrlMatcher := PathPrefix None "/items".

Definition example_page_types : list PageType :=
  [ new_page_type 0 "Item" 5 [item_prefix; item_template];
    new_page_type 1 "Listing" 5 [item_prefix] ].
Definition example_page_types_reordered : list PageType :=
  [ new_page_type 1 "Listing" 5 [item_prefix];
    new_page_type 0 "Item" 5 [item_template; item_prefix] ].

Definition example_item_candidate : PageTypeCandidate :=
  {| cand_id := new_id 0; cand_name := "Item"; cand_priority := 5;
     cand_kind := KindExactHostPathTemplate; cand_specificity := specificity item_template;
     cand_patterns := ["Shop.example.com/items/{id}"%string] |}.
End examples.

(** * Theorems *)

#[export] Instance specificity_cmp_lawful : LawfulCmp specificity_cmp.
Proof.
apply lawful_cmp_on; [apply _|]. intros [] []. unfold specificity_fields; simpl. congruence.
Qed.

#[export] Instance rank_cmp_lawful : LawfulCmp rank_cmp.
Proof. unfold rank_cmp. apply _. Qed.

Lemma rank_inj k1 k2 : rank k1 = rank k2 -> k1 = k2.
Proof. by destruct k1, k2. Qed.

(** A key of at least another's has at least its kind rank. *)
Lemma specificity_rank_le s t :
  cmp_le specificity_cmp s t -> matcher_kind_rank s <= matcher_kind_rank t.
Proof.
unfold cmp_le, specificity_cmp, cmp_on, cmp_pair; simpl. intros H.
destruct (Z.compare_spec (matcher_kind_rank s) (matcher_kind_rank t)); simpl in H; [lia|lia|done].
Qed.

Section matching_theorems.
Context `{U : UuidLib} `{L : UrlLib} `{R : RegexLib}.

Lemma specificity_kind m1 m2 : specificity m1 = specificity m2 -> kind m1 = kind m2.
Proof. intros H. apply rank_inj. exact (f_equal matcher_kind_rank H). Qed.

Lemma candidate_of_none u p : candidate_of u p = None <-> matching_matchers u p = [].
Proof.
unfold candidate_of. destruct (max_by _ _) as [s|] eqn:Hm.
- split; [done|]. intros Hn. rewrite Hn in Hm. done.
- apply max_by_none in Hm. split; [|done]. intros _. by destruct (matching_matchers u p).
Qed.

(** The candidate describes the most specific matchers of its page type. *)
Lemma candidate_of_some u p c :
  candidate_of u p = Some c ->
  cand_id c = pt_id p /\ cand_name c = pt_name p /\ cand_priority c = pt_priority p /\
  (exists m, m ∈ pt_matchers p /\ matches m u = true /\ specificity m = cand_specificity c /\
    kind m = cand_kind c) /\
  (forall m, m ∈ pt_matchers p -> matches m u = true ->
    cmp_le specificity_cmp (specificity m) (cand_specificity c)).
Proof.
unfold candidate_of. destruct (max_by _ _) as [s|] eqn:Hm; [|done]. intros [= <-]. simpl.
apply max_by_some in Hm as [Hin Hall]; [|apply _].
apply elem_of_map in Hin as (m & -> & Hin). unfold matching_matchers in *.
apply list_elem_of_filter in Hin as [Hmatch Hin].
do 3 (split; [done|]). split.
- exists m. do 3 (split; [done|]).
  destruct (find _ (pt_matchers p)) as [n|] eqn:Hf.
  + apply find_some in Hf as [_ Hf]. boolify. apply specificity_kind. done.
  + exfalso. eapply find_none in Hf; [|by apply list_elem_of_In].
    simpl in Hf. rewrite Hmatch, bool_decide_true in Hf; done.
- intros n Hn Hmn. rewrite Forall_forall in Hall. apply Hall, elem_of_map. exists n.
  split; [done|]. by apply list_elem_of_filter.
Qed.

(** Listing the matchers in another order gives the same candidate. *)
Lemma candidate_of_same u p q : same_page_type p q -> candidate_of u p = candidate_of u q.
Proof.
intros (Hi & Hn & Hp & Hm).
assert (Hmax : max_by specificity_cmp (map specificity (matching_matchers u p)) =
  max_by specificity_cmp (map specificity (matching_matchers u q))).
{ apply (max_by_permutation specificity_cmp). unfold matching_matchers. by rewrite Hm. }
destruct (candidate_of u p) as [c|] eqn:Hc.
- pose proof (candidate_of_some u p c Hc) as (_ & _ & _ & (m & _ & _ & Hs & Hk) & _).
  unfold candidate_of in *. rewrite <- Hmax.
  destruct (max_by _ (map specificity (matching_matchers u p))) as [s|] eqn:Hs'; [|done].
  injection Hc as <-. simpl in *. subst s.
  apply max_by_some in Hs' as [Hin _]; [|apply _].
  apply elem_of_map in Hin as (m' & Hm' & Hin). apply list_elem_of_filter in Hin as [Hmm Hin].
  rewrite Hm in Hin. f_equal. rewrite <- Hi, <- Hn, <- Hp. f_equal.
  + rewrite <- Hk. destruct (find _ (pt_matchers q)) as [n|] eqn:Hf.
    * apply find_some in Hf as [_ Hf]. boolify. symmetry. by apply specificity_kind.
    * exfalso. eapply find_none in Hf; [|by apply list_elem_of_In].
      simpl in Hf. rewrite Hmm, bool_decide_true in Hf; done.
  + f_equal. apply (sort_by_permutation String.compare). by rewrite Hm.
- symmetry. apply candidate_of_none in Hc. apply candidate_of_none.
  apply Permutation_nil. unfold matching_matchers in *. by rewrite <- Hm, Hc.
Qed.

Lemma best_candidates_nonempty cs : cs <> [] -> best_candidates cs <> [].
Proof.
intros Hne. unfold best_candidates.
destruct (max_by rank_cmp (map candidate_rank cs)) as [r|] eqn:Hr.
- apply max_by_some in Hr as [Hin _]; [|apply _]. apply elem_of_map in Hin as (c & -> & Hc).
  intros Hnil. assert (c ∈ ([] : list PageTypeCandidate)) as []%not_elem_of_nil.
  rewrite <- Hnil. apply elem_of_sort_by, list_elem_of_filter. done.
- apply max_by_none in Hr. by destruct cs.
Qed.

(** Membership of the best group: no candidate outranks it. *)
Lemma elem_of_best_candidates cs c :
  c ∈ best_candidates cs <->
  c ∈ cs /\ Forall (fun d => cmp_le rank_cmp (candidate_rank d) (candidate_rank c)) cs.
Proof.
unfold best_candidates. rewrite elem_of_sort_by, list_elem_of_filter.
split.
- intros [Hr Hc]. symmetry in Hr. apply max_by_some in Hr as [_ Hall]; [|apply _].
  split; [done|]. rewrite Forall_forall in Hall. apply Forall_forall. intros d Hd.
  apply Hall, elem_of_map. by exists d.
- intros [Hc Hall]. split; [|done]. symmetry. apply (max_by_unique rank_cmp).
  + apply elem_of_map. by exists c.
  + rewrite Forall_forall in Hall. apply Forall_forall. intros r (d & -> & Hd)%elem_of_map.
    by apply Hall.
Qed.

Lemma best_candidates_permutation cs ds : cs ≡ₚ ds -> best_candidates cs ≡ₚ best_candidates ds.
Proof.
intros Hp. unfold best_candidates. rewrite !sort_by_perm.
assert (Hm : max_by rank_cmp (map candidate_rank cs) = max_by rank_cmp (map candidate_rank ds)).
{ apply (max_by_permutation rank_cmp). by rewrite Hp. }
rewrite Hm. by rewrite Hp.
Qed.

Lemma candidates_same u pts qts :
  Forall2 same_page_type pts qts -> page_type_candidates u pts = page_type_candidates u qts.
Proof.
unfold page_type_candidates.
induction 1 as [|p q pts qts Hpq _ IH]; [done|].
simpl. rewrite (candidate_of_same u p q Hpq). by destruct (candidate_of u q); simpl; rewrite ?IH; [f_equal|].
Qed.

(** The winner of a list of candidates, and the rest. *)
Lemma best_candidates_single cs c :
  best_candidates cs = [c] <-> exists others, cs ≡ₚ c :: others /\ Forall (outranks c) others.
Proof.
split.
- intros Hb. assert (Hc : c ∈ best_candidates cs) by (rewrite Hb; left).
  pose proof Hc as [Hin Hmax]%elem_of_best_candidates.
  apply list_elem_of_split in Hin as (l1 & l2 & ->). exists (l1 ++ l2).
  split; [by rewrite Permutation_middle|].
  apply Forall_forall. intros d Hd. rewrite Forall_forall in Hmax.
  specialize (Hmax d). unfold outranks, cmp_le in *.
  destruct (rank_cmp (candidate_rank d) (candidate_rank c)) eqn:Hcmp; [exfalso|done|].
  + apply cmp_eq in Hcmp. unfold best_candidates in Hb.
    assert (Hl : length (filter (fun c0 => Some (candidate_rank c0)
        = max_by rank_cmp (map candidate_rank (l1 ++ c :: l2))) (l1 ++ c :: l2)) = 1%nat).
    { rewrite <- (sort_by_length candidate_order), Hb. done. }
    assert (Hbest : max_by rank_cmp (map candidate_rank (l1 ++ c :: l2)) = Some (candidate_rank c)).
    { unfold best_candidates in Hc. by apply elem_of_sort_by, list_elem_of_filter in Hc as [-> _]. }
    rewrite Hbest, <- Permutation_middle in Hl.
    rewrite filter_cons_True in Hl by done. simpl in Hl. injection Hl as Hl.
    apply length_zero_iff_nil in Hl.
    assert (d ∈ filter (fun c0 => Some (candidate_rank c0) = Some (candidate_rank c)) (l1 ++ l2)) as Hf.
    { apply list_elem_of_filter. by rewrite Hcmp. }
    rewrite Hl in Hf. by apply not_elem_of_nil in Hf.
  + exfalso. apply Hmax; [|done]. apply elem_of_app in Hd as [?|?]; apply elem_of_app;
      [by left|right; by right].
- intros (others & Hp & Hout).
  assert (Hbest : max_by rank_cmp (map candidate_rank cs) = Some (candidate_rank c)).
  { apply (max_by_unique rank_cmp); rewrite Hp; [simpl; left|]. simpl.
    constructor; [apply cmp_le_refl, _|]. apply Forall_forall.
    intros r (d & -> & Hd)%elem_of_map. rewrite Forall_forall in Hout.
    unfold cmp_le. by rewrite (Hout d Hd). }
  apply Permutation_singleton_r. unfold best_candidates. rewrite Hbest, sort_by_perm, Hp.
  rewrite filter_cons_True by done. apply Permutation_skip.
  destruct (filter _ others) as [|d l] eqn:Hf; [done|exfalso].
  assert (d ∈ d :: l) as Hd by left. rewrite <- Hf in Hd. apply list_elem_of_filter in Hd as [Heq Hd].
  rewrite Forall_forall in Hout. specialize (Hout d Hd). unfold outranks in Hout.
  assert (candidate_rank d = candidate_rank c) as Hr by congruence.
  rewrite Hr, (cmp_refl rank_cmp) in Hout. done.
Qed.

(** ** Results *)

Lemma resolve_cases u pts :
  (resolve_page_type u pts = Unmatched /\ page_type_candidates u pts = []) \/
  (exists c, resolve_page_type u pts = Matched c /\
    best_candidates (page_type_candidates u pts) = [c]) \/
  (exists c d l, resolve_page_type u pts = Ambiguous (c :: d :: l) /\
    best_candidates (page_type_candidates u pts) = c :: d :: l).
Proof.
unfold resolve_page_type. destruct (page_type_candidates u pts) as [|x xs] eqn:Hc; [by left|right].
pose proof (best_candidates_nonempty (x :: xs) ltac:(done)) as Hne.
destruct (best_candidates (x :: xs)) as [|c [|d l]]; [done|left; by exists c|right; by exists c, d, l].
Qed.

(** The three outcomes of page-type resolution.  Unmatched: no page type has
    a matcher for the URL.  Matched: exactly one candidate, and it strictly outranks
    (priority first, then specificity) the candidate of every other matching page
    type.  Ambiguous: at least two candidates, namely all those no candidate
    outranks. *)
Theorem resolve_page_type_spec (u : url) (pts : list PageType) :
  match resolve_page_type u pts with
  | Unmatched => forall p m, p ∈ pts -> m ∈ pt_matchers p -> matches m u = false
  | Matched c =>
    exists others, page_type_candidates u pts ≡ₚ c :: others /\ Forall (outranks c) others
  | Ambiguous cs =>
    (2 <= length cs)%nat /\
    forall c, c ∈ cs <-> c ∈ page_type_candidates u pts /\
      Forall (fun d => cmp_le rank_cmp (candidate_rank d) (candidate_rank c))
        (page_type_candidates u pts)
  end.
Proof.
destruct (resolve_cases u pts) as [[-> Hn]|[(c & -> & Hb)|(c & d & l & -> & Hb)]].
- intros p m Hp Hm. destruct (matches m u) eqn:Hmatch; [exfalso|done].
  destruct (candidate_of u p) as [c|] eqn:Hc.
  + assert (c ∈ page_type_candidates u pts) as Hin.
    { apply list_elem_of_omap. by exists p. }
    rewrite Hn in Hin. by apply not_elem_of_nil in Hin.
  + apply candidate_of_none in Hc. unfold matching_matchers in Hc.
    apply (filter_nil_not_elem_of _ _ m Hc); done.
- by apply best_candidates_single.
- split; [simpl; lia|]. intros e. rewrite <- elem_of_best_candidates, Hb. done.
Qed.

(** Resolution does not depend on the order in which the page types, or the
    matchers inside a page type, are listed. *)
Theorem resolve_page_type_order (u : url) (pts qts rts : list PageType)
    (Hm : Forall2 same_page_type pts qts) (Hp : qts ≡ₚ rts) :
  decision_equiv (resolve_page_type u pts) (resolve_page_type u rts).
Proof.
assert (Hc : page_type_candidates u pts ≡ₚ page_type_candidates u rts).
{ rewrite (candidates_same u pts qts Hm). unfold page_type_candidates. by rewrite Hp. }
pose proof (best_candidates_permutation _ _ Hc) as Hb.
destruct (resolve_cases u pts) as [[-> H1]|[(c & -> & H1)|(c & d & l & -> & H1)]],
  (resolve_cases u rts) as [[-> H2]|[(c' & -> & H2)|(c' & d' & l' & -> & H2)]]; simpl;
  rewrite H1, H2 in *; try done;
  try (apply Permutation_length in Hc; simpl in Hc; discriminate);
  try (apply Permutation_length in Hb; simpl in Hb; discriminate).
all: try by apply Permutation_singleton_inj.
all: try (apply Permutation_nil in Hc; rewrite Hc in H2; discriminate).
all: try (symmetry in Hc; apply Permutation_nil in Hc; rewrite Hc in H1; discriminate).
Qed.

(** A matched page type respects priority before specificity, and the kind
    of matcher before its other measures: a page type that also matches has a lower
    priority, or the same priority and no matcher of a higher kind for the URL. *)
Theorem resolve_matched_precedence (u : url) (pts : list PageType) (c : PageTypeCandidate)
    (p : PageType) (m : UrlMatcher)
    (Hr : resolve_page_type u pts = Matched c) (Hp : p ∈ pts)
    (Hm : m ∈ pt_matchers p) (Hmatch : matches m u = true) :
  pt_priority p < cand_priority c \/
  (pt_priority p = cand_priority c /\ rank (kind m) <= rank (cand_kind c)).
Proof.
destruct (resolve_cases u pts) as [[Hr' _]|[(c' & Hr' & Hb)|(? & ? & ? & Hr' & _)]];
  rewrite Hr in Hr'; try discriminate. injection Hr' as <-.
assert (c ∈ best_candidates (page_type_candidates u pts)) as Hin by (rewrite Hb; left).
apply elem_of_best_candidates in Hin as [Hin Hmax].
destruct (candidate_of u p) as [d|] eqn:Hd.
2:{ apply candidate_of_none in Hd. unfold matching_matchers in Hd.
    exfalso. apply (filter_nil_not_elem_of _ _ m Hd); done. }
assert (d ∈ page_type_candidates u pts) as Hdin by (apply list_elem_of_omap; by exists p).
rewrite Forall_forall in Hmax. specialize (Hmax d Hdin).
destruct (candidate_of_some u p d Hd) as (_ & _ & Hdp & _ & Hle).
specialize (Hle m Hm Hmatch). apply specificity_rank_le in Hle.
apply list_elem_of_omap in Hin as (q & _ & Hq).
destruct (candidate_of_some u q c Hq) as (_ & _ & _ & (n & _ & _ & Hs & Hk) & _).
assert (Hrank : matcher_kind_rank (cand_specificity c) = rank (cand_kind c)).
{ rewrite <- Hs, <- Hk. done. }
unfold cmp_le, rank_cmp, cmp_pair, candidate_rank in Hmax; simpl in Hmax. rewrite Hdp in Hmax.
destruct (Z.compare_spec (pt_priority p) (cand_priority c)) as [Heq|Hlt|Hgt]; simpl in Hmax;
  [right|by left|done].
split; [done|]. apply specificity_rank_le in Hmax. simpl in Hle. lia.
Qed.
End matching_theorems.

(** * Witnesses *)

Lemma resolve_page_type_order_witness :
  decision_equiv (U := plain_uuid) (resolve_page_type (R := plain_regex) example_item example_page_types)
    (resolve_page_type example_item example_page_types_reordered).
Proof.
apply (resolve_page_type_order example_item example_page_types
  [ new_page_type 0 "Item" 5 [item_template; item_prefix]; new_page_type 1 "Listing" 5 [item_prefix] ]
  example_page_types_reordered).
- constructor; [|constructor; [|constructor]]; repeat split; simpl; [apply perm_swap|done].
- apply perm_swap.
Defined.

Lemma resolve_matched_precedence_witness :
  resolve_page_type (U := plain_uuid) (R := plain_regex) example_item example_page_types
    = Matched example_item_candidate /\
  rank (kind (L := plain_url) item_prefix) <= rank (cand_kind example_item_candidate).
Proof.
assert (H : resolve_page_type (U := plain_uuid) (R := plain_regex) example_item example_page_types
    = Matched example_item_candidate) by reflexivity.
split; [exact H|].
destruct (resolve_matched_precedence example_item example_page_types example_item_candidate
  (new_page_type 1 "Listing" 5 [item_prefix]) item_prefix H) as [Hlt|[_ Hle]].
- right. left.
- left.
- reflexivity.
- simpl in Hlt. lia.
- exact Hle.
Defined.
