(* ===== verification/Crawler.v ===== *)
(** * Crawlers and their versions

    [crates/erabi-domain/src]: [crawler_version.rs] and [crawler.rs]: a crawler has
    at most one active draft and one active published version; a version is edited
    while it is a draft, frozen when it is published, and cloned into a new draft.

    A method that takes [&mut self] is a function to the changed record; on an error
    the record is the one before the call, as the code checks before it assigns.
    Fresh identifiers come from the supply of [Uuid::now_v7], indexed by the number
    drawn so far. *)

From S2P Require Import Prelude Externals Base Instances Settings Guardrails Canonicalization DomainScope.

Inductive CrawlerVersionState := Draft | Published.

#[export] Instance version_state_eq_dec : EqDecision CrawlerVersionState.
Proof. solve_decision. Defined.

(** [iter().position(p)]. *)
Fixpoint position {A} (p : A -> bool) (l : list A) : option nat :=
  match l with
  | [] => None
  | x :: l' => if p x then Some 0%nat else S <$> position p l'
  end.

Section crawler.
Context `{U : UuidLib} `{L : UrlLib} `{H : HostLib}.

Definition CanonicalizationPolicyId := typed_id CanonicalizationPolicyKind.
Definition DomainScopeId := typed_id DomainScopeKindId.

(** ** Versions *)

Record CrawlerVersion := {
  version_id : CrawlerVersionId;
  version_crawler_id : CrawlerId;
  version_state : CrawlerVersionState;
  version_seeds : list Seed;
  page_type_ids : list PageTypeId;
  transition_ids : list DiscoveryTransitionId;
  canonicalization_policy_id : option CanonicalizationPolicyId;
  domain_scope_id : option DomainScopeId;
  canonicalization_policy : CanonicalizationPolicy;
  domain_scope : DomainScopePolicy;
  version_guardrails : CrawlerVersionGuardrails
}.

Definition draft (n : nat) (crawler_id : CrawlerId) : CrawlerVersion :=
  {| version_id := new_id n; version_crawler_id := crawler_id; version_state := Draft;
     version_seeds := []; page_type_ids := []; transition_ids := [];
     canonicalization_policy_id := None; domain_scope_id := None;
     canonicalization_policy := default_canonicalization; domain_scope := seed_domains_only;
     version_guardrails := default_guardrails |}.

Definition ensure_draft (self : CrawlerVersion) : result ProductError unit :=
  reject_if (bool_decide (version_state self = Published))
    (conflict "published crawler versions are immutable").

(** The record with some fields replaced. *)
Definition with_seeds (s : list Seed) (v : CrawlerVersion) : CrawlerVersion :=
  Build_CrawlerVersion (version_id v) (version_crawler_id v) (version_state v) s (page_type_ids v)
    (transition_ids v) (canonicalization_policy_id v) (domain_scope_id v)
    (canonicalization_policy v) (domain_scope v) (version_guardrails v).
Definition with_page_types (p : list PageTypeId) (v : CrawlerVersion) : CrawlerVersion :=
  Build_CrawlerVersion (version_id v) (version_crawler_id v) (version_state v) (version_seeds v) p
    (transition_ids v) (canonicalization_policy_id v) (domain_scope_id v)
    (canonicalization_policy v) (domain_scope v) (version_guardrails v).
Definition with_transitions (t : list DiscoveryTransitionId) (v : CrawlerVersion) : CrawlerVersion :=
  Build_CrawlerVersion (version_id v) (version_crawler_id v) (version_state v) (version_seeds v)
    (page_type_ids v) t (canonicalization_policy_id v) (domain_scope_id v)
    (canonicalization_policy v) (domain_scope v) (version_guardrails v).
Definition with_policy_ids (c : option CanonicalizationPolicyId) (d : option DomainScopeId)
    (v : CrawlerVersion) : CrawlerVersion :=
  Build_CrawlerVersion (version_id v) (version_crawler_id v) (version_state v) (version_seeds v)
    (page_type_ids v) (transition_ids v) c d
    (canonicalization_policy v) (domain_scope v) (version_guardrails v).
Definition with_policies (c : CanonicalizationPolicy) (d : DomainScopePolicy)
    (g : CrawlerVersionGuardrails) (v : CrawlerVersion) : CrawlerVersion :=
  Build_CrawlerVersion (version_id v) (version_crawler_id v) (version_state v) (version_seeds v)
    (page_type_ids v) (transition_ids v) (canonicalization_policy_id v) (domain_scope_id v) c d g.
Definition with_state (s : CrawlerVersionState) (v : CrawlerVersion) : CrawlerVersion :=
  Build_CrawlerVersion (version_id v) (version_crawler_id v) s (version_seeds v) (page_type_ids v)
    (transition_ids v) (canonicalization_policy_id v) (domain_scope_id v)
    (canonicalization_policy v) (domain_scope v) (version_guardrails v).

Definition add_seed (seed : Seed) (self : CrawlerVersion) : result ProductError CrawlerVersion :=
  let? _ := ensure_draft self in
  Ok (with_seeds (version_seeds self ++ [seed]) self).

(** [page_types.iter().any(|budget| !ids.contains(&budget.page_type_id))] *)
Definition budget_outside (ids : list PageTypeId) (g : CrawlerVersionGuardrails) : bool :=
  existsb (fun b => bool_decide (page_type_id b ∉ ids)) (guardrails_page_types g).

Definition err_budget_outside : ProductError :=
  with_code InvalidPageTypeBudget "PageType guardrail references a PageType outside the version".

Definition set_page_type_ids (ids : list PageTypeId) (self : CrawlerVersion)
    : result ProductError CrawlerVersion :=
  let? _ := ensure_draft self in
  let? _ := reject_if (budget_outside ids (version_guardrails self)) err_budget_outside in
  Ok (with_page_types ids self).

Definition set_transition_ids (ids : list DiscoveryTransitionId) (self : CrawlerVersion)
    : result ProductError CrawlerVersion :=
  let? _ := ensure_draft self in
  Ok (with_transitions ids self).

Definition set_canonicalization_policy_id (id : option CanonicalizationPolicyId)
    (self : CrawlerVersion) : result ProductError CrawlerVersion :=
  let? _ := ensure_draft self in
  Ok (with_policy_ids id (domain_scope_id self) self).

Definition set_domain_scope_id (id : option DomainScopeId) (self : CrawlerVersion)
    : result ProductError CrawlerVersion :=
  let? _ := ensure_draft self in
  Ok (with_policy_ids (canonicalization_policy_id self) id self).

Definition set_canonicalization_policy (p : CanonicalizationPolicy) (self : CrawlerVersion)
    : result ProductError CrawlerVersion :=
  let? _ := ensure_draft self in
  let? _ := canon_validate p in
  Ok (with_policies p (domain_scope self) (version_guardrails self) self).

Definition set_domain_scope (p : DomainScopePolicy) (self : CrawlerVersion)
    : result ProductError CrawlerVersion :=
  let? _ := ensure_draft self in
  let? _ := scope_validate p in
  Ok (with_policies (canonicalization_policy self) p (version_guardrails self) self).

Definition set_guardrails (g : CrawlerVersionGuardrails) (self : CrawlerVersion)
    : result ProductError CrawlerVersion :=
  let? _ := ensure_draft self in
  let? _ := guardrails_validate g in
  let? _ := reject_if (budget_outside (page_type_ids self) g) err_budget_outside in
  Ok (with_policies (canonicalization_policy self) (domain_scope self) g self).

Definition validate_semantic_contract (self : CrawlerVersion) : result ProductError unit :=
  let? _ := canon_validate (canonicalization_policy self) in
  let? _ := scope_validate (domain_scope self) in
  let? _ := guardrails_validate (version_guardrails self) in
  reject_if (budget_outside (page_type_ids self) (version_guardrails self)) err_budget_outside.

Definition publish (self : CrawlerVersion) : result ProductError CrawlerVersion :=
  let? _ := ensure_draft self in
  Ok (with_state Published self).

(** *** Cloning *)

Definition set_seed_id (i : SeedId) (s : Seed) : Seed :=
  {| seed_id := i; original_url := original_url s; canonical_url := canonical_url s;
     enabled := enabled s; seed_label := seed_label s;
     entry_page_type_hint := entry_page_type_hint s |}.
Definition set_seed_hint (h : option PageTypeId) (s : Seed) : Seed :=
  {| seed_id := seed_id s; original_url := original_url s; canonical_url := canonical_url s;
     enabled := enabled s; seed_label := seed_label s; entry_page_type_hint := h |}.
Definition set_budget_page_type (i : PageTypeId) (b : PageTypeDiscoveryGuardrails)
    : PageTypeDiscoveryGuardrails :=
  {| page_type_id := i; page_budget := page_budget b; health_threshold := health_threshold b |}.

Definition index_of (id : PageTypeId) (ids : list PageTypeId) : option nat :=
  position (fun source => bool_decide (source = id)) ids.

(** [l.len()] fresh identifiers after [n] others. *)
Definition fresh_ids {A} {k} (n : nat) (l : list A) : list (typed_id k) :=
  imap (fun i _ => new_id (n + i)) l.

(** [ids[index]]; the indexes come from [position] on a list of the same length. *)
Definition id_at (ids : list PageTypeId) (index : nat) (old : PageTypeId) : PageTypeId :=
  nth index ids old.

Definition rename_budget (old new : list PageTypeId) (b : PageTypeDiscoveryGuardrails)
    : result ProductError PageTypeDiscoveryGuardrails :=
  match index_of (page_type_id b) old with
  | None => Err (with_code InvalidPageTypeBudget
      "published PageType guardrail references a missing PageType")
  | Some index => Ok (set_budget_page_type (id_at new index (page_type_id b)) b)
  end.

Definition rename_hint (old new : list PageTypeId) (hint : option PageTypeId) : option PageTypeId :=
  match hint with
  | None => None
  | Some h => (fun index => id_at new index h) <$> index_of h old
  end.

Definition hint_missing (ids : list PageTypeId) (s : Seed) : bool :=
  match entry_page_type_hint s with Some h => bool_decide (h ∉ ids) | None => false end.

Definition with_guardrail_page_types (bs : list PageTypeDiscoveryGuardrails)
    (g : CrawlerVersionGuardrails) : CrawlerVersionGuardrails :=
  {| guardrails_version := guardrails_version g; max_pages := max_pages g;
     max_depth := max_depth g; max_duration_seconds := max_duration_seconds g;
     max_downloaded_bytes := max_downloaded_bytes g;
     max_concurrent_requests_per_domain := max_concurrent_requests_per_domain g;
     min_request_delay_ms := min_request_delay_ms g; guardrails_page_types := bs |}.

(** The clone draws one identifier for itself, then one per seed, page type and
    transition, in this order, from the [n]-th on. *)
Definition draft_from_published (n : nat) (self : CrawlerVersion)
    : result ProductError CrawlerVersion :=
  let? _ := validate_semantic_contract self in
  let? _ := reject_if (bool_decide (version_state self <> Published))
    (conflict "only published crawler versions can create drafts") in
  let source_page_type_ids := page_type_ids self in
  let? _ := reject_if (existsb (hint_missing source_page_type_ids) (version_seeds self))
    (conflict "published seed references a missing Page Type") in
  let seeds_from := S n in
  let pages_from := (seeds_from + length (version_seeds self))%nat in
  let transitions_from := (pages_from + length source_page_type_ids)%nat in
  let new_page_type_ids := fresh_ids pages_from source_page_type_ids in
  let? budgets := collect (rename_budget source_page_type_ids new_page_type_ids)
    (guardrails_page_types (version_guardrails self)) in
  Ok {| version_id := new_id n;
        version_crawler_id := version_crawler_id self;
        version_state := Draft;
        version_seeds := imap (fun i s =>
          set_seed_hint (rename_hint source_page_type_ids new_page_type_ids (entry_page_type_hint s))
            (set_seed_id (new_id (seeds_from + i)) s)) (version_seeds self);
        page_type_ids := new_page_type_ids;
        transition_ids := fresh_ids transitions_from (transition_ids self);
        canonicalization_policy_id := canonicalization_policy_id self;
        domain_scope_id := domain_scope_id self;
        canonicalization_policy := canonicalization_policy self;
        domain_scope := domain_scope self;
        version_guardrails := with_guardrail_page_types budgets (version_guardrails self) |}.

(** ** Crawlers *)

Record Crawler := {
  crawler_id : CrawlerId;
  crawler_name : string;
  crawler_collection_id : option CollectionId;
  operational_defaults : OperationalOverrides;
  active_published_version_id : option CrawlerVersionId;
  active_draft_version_id : option CrawlerVersionId
}.

Definition default_overrides : OperationalOverrides :=
  Build_OperationalOverrides Inherit Inherit Inherit Inherit Inherit Inherit Inherit Inherit.

Definition new_crawler (n : nat) (name : string) : Crawler :=
  {| crawler_id := new_id n; crawler_name := name; crawler_collection_id := None;
     operational_defaults := default_overrides; active_published_version_id := None;
     active_draft_version_id := None |}.

Definition set_operational_defaults (defaults : OperationalOverrides) (self : Crawler) : Crawler :=
  {| crawler_id := crawler_id self; crawler_name := crawler_name self;
     crawler_collection_id := crawler_collection_id self; operational_defaults := defaults;
     active_published_version_id := active_published_version_id self;
     active_draft_version_id := active_draft_version_id self |}.

Definition with_pointers (published draft : option CrawlerVersionId) (self : Crawler) : Crawler :=
  {| crawler_id := crawler_id self; crawler_name := crawler_name self;
     crawler_collection_id := crawler_collection_id self;
     operational_defaults := operational_defaults self;
     active_published_version_id := published; active_draft_version_id := draft |}.

Definition activate_draft (version : CrawlerVersion) (self : Crawler) : result ProductError Crawler :=
  let? _ := reject_if
    (bool_decide (version_crawler_id version <> crawler_id self)
     || bool_decide (version_state version <> Draft))
    (conflict "draft version does not belong to this crawler") in
  let? _ := reject_if
    (match active_draft_version_id self with
     | Some id => bool_decide (id <> version_id version) | None => false end)
    (conflict "crawler already has an active draft") in
  Ok (with_pointers (active_published_version_id self) (Some (version_id version)) self).

Definition reactivate_published (version : CrawlerVersion) (self : Crawler)
    : result ProductError Crawler :=
  let? _ := reject_if
    (bool_decide (version_crawler_id version <> crawler_id self)
     || bool_decide (version_state version <> Published))
    (conflict "published version does not belong to this crawler") in
  let draft :=
    if bool_decide (active_draft_version_id self = Some (version_id version)) then None
    else active_draft_version_id self in
  Ok (with_pointers (Some (version_id version)) draft self).

(** ** Histories *)

(** The edits of a version, and what each does. *)
Inductive VersionEdit :=
| AddSeed (s : Seed)
| SetPageTypeIds (ids : list PageTypeId)
| SetTransitionIds (ids : list DiscoveryTransitionId)
| SetCanonicalizationPolicyId (id : option CanonicalizationPolicyId)
| SetDomainScopeId (id : option DomainScopeId)
| SetCanonicalizationPolicy (p : CanonicalizationPolicy)
| SetDomainScope (p : DomainScopePolicy)
| SetGuardrails (g : CrawlerVersionGuardrails)
| Publish.

Definition apply_edit (e : VersionEdit) (v : CrawlerVersion) : result ProductError CrawlerVersion :=
  match e with
  | AddSeed s => add_seed s v
  | SetPageTypeIds ids => set_page_type_ids ids v
  | SetTransitionIds ids => set_transition_ids ids v
  | SetCanonicalizationPolicyId id => set_canonicalization_policy_id id v
  | SetDomainScopeId id => set_domain_scope_id id v
  | SetCanonicalizationPolicy p => set_canonicalization_policy p v
  | SetDomainScope p => set_domain_scope p v
  | SetGuardrails g => set_guardrails g v
  | Publish => publish v
  end.

(** Edits applied in turn, stopping at the first error. *)
Fixpoint apply_edits (es : list VersionEdit) (v : CrawlerVersion) : result ProductError CrawlerVersion :=
  match es with
  | [] => Ok v
  | e :: es' => let? v' := apply_edit e v in apply_edits es' v'
  end.

(** The versions the operations can produce: a fresh draft, an edited version, a
    clone of a published version. *)
Inductive reachable_version : CrawlerVersion -> Prop :=
| reachable_draft n c : reachable_version (draft n c)
| reachable_edit e v v' :
    reachable_version v -> apply_edit e v = Ok v' -> reachable_version v'
| reachable_clone n v v' :
    reachable_version v -> draft_from_published n v = Ok v' -> reachable_version v'.

(** What an edit may not change. *)
Definition same_identity (v v' : CrawlerVersion) : Prop :=
  version_id v' = version_id v /\ version_crawler_id v' = version_crawler_id v.

(** A clone carries the configuration over: the same policies, seeds with the same
    addresses, and page-type references moved along the positions of the page types. *)
Definition moved (old new : list PageTypeId) (a b : PageTypeId) : Prop :=
  exists i, index_of a old = Some i /\ new !! i = Some b.

Definition seed_cloned (old new : list PageTypeId) (s s' : Seed) : Prop :=
  original_url s' = original_url s /\ canonical_url s' = canonical_url s /\
  enabled s' = enabled s /\ seed_label s' = seed_label s /\
  option_Forall2 (moved old new) (entry_page_type_hint s) (entry_page_type_hint s').

Definition budget_cloned (old new : list PageTypeId) (b b' : PageTypeDiscoveryGuardrails) : Prop :=
  page_budget b' = page_budget b /\ health_threshold b' = health_threshold b /\
  moved old new (page_type_id b) (page_type_id b').

Record cloned (v c : CrawlerVersion) : Prop := {
  cloned_state : version_state c = Draft;
  cloned_crawler : version_crawler_id c = version_crawler_id v;
  cloned_pages : length (page_type_ids c) = length (page_type_ids v);
  cloned_transitions : length (transition_ids c) = length (transition_ids v);
  cloned_policies : canonicalization_policy c = canonicalization_policy v /\
    domain_scope c = domain_scope v;
  cloned_seeds : Forall2 (seed_cloned (page_type_ids v) (page_type_ids c))
    (version_seeds v) (version_seeds c);
  cloned_budgets : Forall2 (budget_cloned (page_type_ids v) (page_type_ids c))
    (guardrails_page_types (version_guardrails v)) (guardrails_page_types (version_guardrails c))
}.

(** The identifiers a clone drew. *)
Definition drawn_after (n : nat) {k} (i : typed_id k) : Prop := exists m, (n <= m)%nat /\ i = new_id m.
End crawler.

(** ** A history the witnesses evaluate *)

Section examples.
#[local] Existing Instances plain_uuid plain_url plain_hosts.

Definition example_page (n : nat) : PageTypeId := new_id n.

Definition example_seed : Seed :=
  set_seed_hint (Some (example_page 3))
    (new_seed 4 (plain_page_url "shop.example.com" "/" eq_refl)
      (plain_page_url "shop.example.com" "/" eq_refl)).

Definition example_budgeted : CrawlerVersionGuardrails :=
  with_guardrail_page_types
    [{| page_type_id := example_page 2; page_budget := Some 5; health_threshold := None |}]
    default_guardrails.

Definition example_published : CrawlerVersion :=
  {| version_id := new_id 1; version_crawler_id := new_id 0; version_state := Published;
     version_seeds := [example_seed]; page_type_ids := [example_page 2; example_page 3];
     transition_ids := []; canonicalization_policy_id := None; domain_scope_id := None;
     canonicalization_policy := default_canonicalization; domain_scope := seed_domains_only;
     version_guardrails := example_budgeted |}.

Definition example_edits : list VersionEdit :=
  [SetPageTypeIds [example_page 2; example_page 3]; SetGuardrails example_budgeted;
   AddSeed example_seed; Publish].
End examples.

(** * Theorems *)

Lemma position_lookup {A} (p : A -> bool) l i :
  position p l = Some i -> exists x, l !! i = Some x /\ p x = true.
Proof.
revert i. induction l as [|x l IH]; intros i; simpl; [done|].
destruct (p x) eqn:Hp; [intros [= <-]; by exists x|].
destruct (position p l) as [j|]; simpl; [|done]. intros [= <-]. by apply IH.
Qed.

Lemma position_is_some {A} (p : A -> bool) l x : x ∈ l -> p x = true -> is_Some (position p l).
Proof.
induction l as [|y l IH]; [by intros []%not_elem_of_nil|]. simpl.
intros [->|Hx]%elem_of_cons Hp; [by rewrite Hp|].
destruct (p y); [done|]. destruct (IH Hx Hp) as [j ->]. by eexists.
Qed.

Section version_theorems.
Context `{Laws : UuidLaws} `{L : UrlLib} `{H : HostLib}.

Lemma ensure_draft_ok v : ensure_draft v = Ok tt <-> version_state v = Draft.
Proof.
unfold ensure_draft. rewrite reject_if_ok, bool_decide_eq_false. by destruct (version_state v).
Qed.

Lemma ensure_draft_then {A} v (k : result ProductError A) a :
  match ensure_draft v with Ok _ => k | Err e => Err e end = Ok a <->
  version_state v = Draft /\ k = Ok a.
Proof.
rewrite bind_ok, <- ensure_draft_ok. split; [intros ([] & ? & ?); done|].
intros [? ?]. by exists tt.
Qed.

Lemma budget_outside_false ids g :
  budget_outside ids g = false <->
  Forall (fun b => page_type_id b ∈ ids) (guardrails_page_types g).
Proof.
unfold budget_outside. induction (guardrails_page_types g) as [|b l IH]; simpl; [done|].
rewrite orb_false_iff, IH, bool_decide_eq_false, Forall_cons.
destruct (decide (page_type_id b ∈ ids)); naive_solver.
Qed.

Lemma index_of_some id ids : id ∈ ids -> is_Some (index_of id ids).
Proof. intros Hin. apply (position_is_some _ ids id Hin). by apply bool_decide_eq_true. Qed.

Lemma index_of_lookup id ids i : index_of id ids = Some i -> ids !! i = Some id.
Proof.
intros (x & Hx & Hp)%position_lookup. by apply bool_decide_eq_true_1 in Hp as ->.
Qed.

Lemma fresh_ids_lookup {A} {k} n (l : list A) i :
  (i < length l)%nat -> (fresh_ids (k := k) n l) !! i = Some (new_id (n + i)).
Proof.
intros Hi. unfold fresh_ids. rewrite list_lookup_imap.
destruct (lookup_lt_is_Some_2 l i Hi) as [x ->]. done.
Qed.

Lemma fresh_ids_length {A} {k} n (l : list A) : length (fresh_ids (k := k) n l) = length l.
Proof. unfold fresh_ids. apply length_imap. Qed.

Lemma fresh_ids_nodup {A} {k} n (l : list A) : NoDup (fresh_ids (k := k) n l).
Proof.
apply NoDup_alt. intros i j x Hi Hj.
pose proof (lookup_lt_Some _ _ _ Hi) as Hli. pose proof (lookup_lt_Some _ _ _ Hj) as Hlj.
rewrite fresh_ids_length in Hli, Hlj. rewrite fresh_ids_lookup in Hi, Hj by done.
rewrite <- Hj in Hi. injection Hi as Hi. apply uuid_now_v7_inj in Hi. lia.
Qed.

Lemma elem_of_fresh_ids {A} {k} n (l : list A) (i : typed_id k) :
  i ∈ fresh_ids n l -> exists j, (j < length l)%nat /\ i = new_id (n + j).
Proof.
intros [j Hj]%list_elem_of_lookup.
assert (j < length l)%nat as Hlt by (apply lookup_lt_Some in Hj; by rewrite fresh_ids_length in Hj).
rewrite fresh_ids_lookup in Hj by done. injection Hj as <-. by exists j.
Qed.

(** The identifier at a position found in a list of the same length. *)
Lemma id_at_lookup n (old : list PageTypeId) id index :
  index_of id old = Some index ->
  id_at (fresh_ids n old) index id = new_id (n + index) /\
  fresh_ids n old !! index = Some (new_id (n + index) : PageTypeId).
Proof.
intros Hi. pose proof (index_of_lookup _ _ _ Hi) as Hl%lookup_lt_Some.
pose proof (fresh_ids_lookup (k := PageTypeKind) n old index Hl) as Hf.
split; [|done]. unfold id_at. by apply nth_lookup_Some.
Qed.

Lemma rename_hint_moved n old s :
  hint_missing old s = false ->
  option_Forall2 (moved old (fresh_ids n old)) (entry_page_type_hint s)
    (rename_hint old (fresh_ids n old) (entry_page_type_hint s)).
Proof.
unfold hint_missing, rename_hint. destruct (entry_page_type_hint s) as [h|]; [|constructor].
intros Hh%bool_decide_eq_false_1%dec_stable. destruct (index_of_some h old Hh) as [i Hi].
rewrite Hi. simpl. destruct (id_at_lookup n old h i Hi) as [-> Hl].
constructor. by exists i.
Qed.

Lemma rename_budget_ok n old b b' :
  rename_budget old (fresh_ids n old) b = Ok b' -> budget_cloned old (fresh_ids n old) b b'.
Proof.
unfold rename_budget. destruct (index_of (page_type_id b) old) as [i|] eqn:Hi; [|done].
intros [= <-]. do 2 (split; [done|]). exists i. split; [done|].
destruct (id_at_lookup n old _ i Hi) as [Hid Hl]. unfold set_budget_page_type; simpl.
by rewrite Hid.
Qed.

Lemma rename_budgets_total n old bs :
  Forall (fun b => page_type_id b ∈ old) bs ->
  exists bs', collect (rename_budget old (fresh_ids n old)) bs = Ok bs'.
Proof.
induction 1 as [|b bs Hb _ [bs' IH]]; simpl; [by eexists|].
unfold rename_budget at 1. destruct (index_of_some _ _ Hb) as [i ->]. rewrite IH. by eexists.
Qed.

(** Distinct identifiers are moved to distinct identifiers. *)
Lemma moved_inj n old a a' b :
  moved old (fresh_ids n old) a b -> moved old (fresh_ids n old) a' b -> a = a'.
Proof.
intros (i & Hi & Hb) (j & Hj & Hb').
pose proof (index_of_lookup _ _ _ Hi) as Hia. pose proof (index_of_lookup _ _ _ Hj) as Hja.
assert (Some (new_id (n + i)) = Some b) as Hn.
{ rewrite <- Hb. symmetry. apply fresh_ids_lookup. by eapply lookup_lt_Some. }
assert (Some (new_id (n + j)) = Some b) as Hn'.
{ rewrite <- Hb'. symmetry. apply fresh_ids_lookup. by eapply lookup_lt_Some. }
assert (i = j) as <-; [|congruence].
rewrite <- Hn' in Hn. injection Hn as Hn. apply uuid_now_v7_inj in Hn. lia.
Qed.

Lemma budgets_cloned_nodup n old bs bs' :
  Forall2 (budget_cloned old (fresh_ids n old)) bs bs' ->
  NoDup (map page_type_id bs) -> NoDup (map page_type_id bs').
Proof.
induction 1 as [|b b' bs bs' Hb Hl IH]; simpl; [done|].
rewrite !NoDup_cons, !elem_of_map. intros [Hn Hd]. split; [|by apply IH].
intros (c' & Heq & Hc'). apply list_elem_of_lookup in Hc' as [k Hk].
destruct (Forall2_lookup_r _ _ _ _ _ Hl Hk) as (c & Hc & _ & _ & Hm).
destruct Hb as (_ & _ & Hb). apply Hn. exists c. split; [|by eapply list_elem_of_lookup_2].
rewrite Heq in Hb. by apply (moved_inj n old _ _ (page_type_id c')).
Qed.

(** Guardrail validation looks at the budgets only through their identifiers'
    distinctness, amounts and health contracts. *)
Lemma guardrails_validate_cloned n old bs' g :
  Forall2 (budget_cloned old (fresh_ids n old)) (guardrails_page_types g) bs' ->
  guardrails_validate g = Ok tt -> guardrails_validate (with_guardrail_page_types bs' g) = Ok tt.
Proof.
intros Hc. unfold guardrails_validate. rewrite !reject_then_ok. simpl. intros [Hm Hv].
split; [done|]. rewrite validate_page_types_ok in *. destruct Hv as (Hd & _ & Hb & Hh).
split; [by eapply budgets_cloned_nodup|]. split.
{ apply Forall_forall. intros. apply not_elem_of_empty. }
clear Hd Hm. induction Hc as [|b b' bs bs'' (Hb1 & Hb2 & _) _ IH]; [done|].
apply Forall_cons in Hb as [Hb Hbs], Hh as [Hh Hhs]. destruct (IH Hbs Hhs) as [? ?].
split; constructor; congruence.
Qed.

Lemma contract_parts v :
  validate_semantic_contract v = Ok tt <->
  canon_validate (canonicalization_policy v) = Ok tt /\ scope_validate (domain_scope v) = Ok tt /\
  guardrails_validate (version_guardrails v) = Ok tt /\
  Forall (fun b => page_type_id b ∈ page_type_ids v) (guardrails_page_types (version_guardrails v)).
Proof.
unfold validate_semantic_contract. rewrite <- budget_outside_false.
destruct (canon_validate _) as [[]|]; [|naive_solver].
destruct (scope_validate _) as [[]|]; [|naive_solver].
destruct (guardrails_validate _) as [[]|]; [|naive_solver].
rewrite reject_if_ok. naive_solver.
Qed.

(** What a clone is, from the call that made it. *)
Lemma draft_from_published_inv n v c :
  draft_from_published n v = Ok c ->
  validate_semantic_contract v = Ok tt /\ version_state v = Published /\
  Forall (fun s => hint_missing (page_type_ids v) s = false) (version_seeds v) /\
  let pages_from := (S n + length (version_seeds v))%nat in
  exists bs, Forall2 (budget_cloned (page_type_ids v) (fresh_ids pages_from (page_type_ids v)))
    (guardrails_page_types (version_guardrails v)) bs /\
  c = {| version_id := new_id n; version_crawler_id := version_crawler_id v; version_state := Draft;
         version_seeds := imap (fun i s =>
           set_seed_hint (rename_hint (page_type_ids v) (fresh_ids pages_from (page_type_ids v))
             (entry_page_type_hint s)) (set_seed_id (new_id (S n + i)) s)) (version_seeds v);
         page_type_ids := fresh_ids pages_from (page_type_ids v);
         transition_ids := fresh_ids (pages_from + length (page_type_ids v)) (transition_ids v);
         canonicalization_policy_id := canonicalization_policy_id v;
         domain_scope_id := domain_scope_id v;
         canonicalization_policy := canonicalization_policy v; domain_scope := domain_scope v;
         version_guardrails := with_guardrail_page_types bs (version_guardrails v) |}.
Proof.
unfold draft_from_published. rewrite bind_ok. intros ([] & Hv & Hr).
rewrite !reject_then_ok in Hr. destruct Hr as (Hs & Hh & Hr).
apply bool_decide_eq_false_1, dec_stable in Hs.
apply bind_ok in Hr as (bs & Hbs & [= <-]).
do 2 (split; [done|]). split.
{ apply Forall_forall. intros s Hin. destruct (hint_missing (page_type_ids v) s) eqn:Hm; [|done].
  rewrite <- not_true_iff_false in Hh. exfalso. apply Hh, existsb_exists. exists s.
  split; [by apply list_elem_of_In|done]. }
exists bs. split; [|done]. apply collect_ok in Hbs. eapply Forall2_impl; [exact Hbs|].
intros b b'. apply rename_budget_ok.
Qed.

Lemma clone_contract n v c :
  draft_from_published n v = Ok c -> validate_semantic_contract c = Ok tt.
Proof.
intros Hd. destruct (draft_from_published_inv n v c Hd) as (Hv & _ & _ & bs & Hbs & ->).
apply contract_parts in Hv as (Hc & Hs & Hg & _). apply contract_parts. simpl.
do 2 (split; [done|]). split; [by eapply guardrails_validate_cloned|].
apply Forall_forall. intros b' Hb'. apply list_elem_of_lookup in Hb' as [k Hk].
destruct (Forall2_lookup_r _ _ _ _ _ Hbs Hk) as (b & _ & _ & _ & i & _ & Hi).
by eapply list_elem_of_lookup_2.
Qed.

Lemma seeds_cloned n old seeds_from (ss : list Seed) :
  Forall (fun s => hint_missing old s = false) ss ->
  Forall2 (seed_cloned old (fresh_ids n old)) ss
    (imap (fun i s => set_seed_hint (rename_hint old (fresh_ids n old) (entry_page_type_hint s))
      (set_seed_id (new_id (seeds_from + i)) s)) ss).
Proof.
intros Hh. apply Forall2_same_length_lookup. split; [by rewrite length_imap|].
intros i s s' Hs Hs'. rewrite list_lookup_imap, Hs in Hs'. injection Hs' as <-.
rewrite Forall_forall in Hh. split_and!; try done. simpl.
apply rename_hint_moved, Hh. by eapply list_elem_of_lookup_2.
Qed.

(** The edits keep the semantic contract. *)
Lemma edit_contract e v v' :
  apply_edit e v = Ok v' -> validate_semantic_contract v = Ok tt ->
  validate_semantic_contract v' = Ok tt.
Proof.
intros He Hv. apply contract_parts in Hv as (Hc & Hs & Hg & Hb).
apply contract_parts. destruct e; simpl in He;
  apply ensure_draft_then in He as [_ He]; try (injection He as <-; by split_and!).
- apply reject_then_ok in He as [Ho [= <-]]. apply budget_outside_false in Ho. by split_and!.
- apply bind_ok in He as ([] & ? & [= <-]). by split_and!.
- apply bind_ok in He as ([] & ? & [= <-]). by split_and!.
- apply bind_ok in He as ([] & ? & He). apply reject_then_ok in He as [Ho [= <-]].
  apply budget_outside_false in Ho. by split_and!.
Qed.

(** The semantic contract is an invariant of the editing operations: every
    version that drafts, edits, publications and clones can produce has a valid
    canonicalization policy, a valid domain scope and valid guardrails whose page-type
    budgets refer to page types of that version. *)
Theorem reachable_version_contract (v : CrawlerVersion) (Hv : reachable_version v) :
  validate_semantic_contract v = Ok tt.
Proof.
induction Hv as [n c|e v v' _ IH He|n v v' _ IH Hd].
- apply contract_parts. by split_and!.
- by eapply edit_contract.
- by eapply clone_contract.
Qed.

(** Publishing freezes a version: every edit of a published version, a second
    publication included, is refused with the same conflict, and an edit that succeeds
    was made on a draft and keeps the version's identity and owner. *)
Theorem published_immutable (v : CrawlerVersion) (e : VersionEdit) :
  (version_state v = Published ->
    apply_edit e v = Err (conflict "published crawler versions are immutable")) /\
  (forall v', apply_edit e v = Ok v' -> version_state v = Draft /\ same_identity v v' /\
    (version_state v' = Published <-> e = Publish)).
Proof.
split.
- intros Hp. assert (ensure_draft v = Err (conflict "published crawler versions are immutable")) as Hd.
  { unfold ensure_draft. by rewrite bool_decide_true. }
  destruct e; simpl; unfold add_seed, set_page_type_ids, set_transition_ids,
    set_canonicalization_policy_id, set_domain_scope_id, set_canonicalization_policy,
    set_domain_scope, set_guardrails, publish; by rewrite Hd.
- intros v' He. destruct e; simpl in He; apply ensure_draft_then in He as [Hd He];
    (split; [done|]);
    repeat first [apply reject_then_ok in He as [_ He] | apply bind_ok in He as ([] & _ & He)];
    injection He as <-; (split; [done|simpl; rewrite ?Hd; done]).
Qed.

(** Cloning a published version gives a draft of the same crawler with the
    same policies and the same seeds; every reference to a page type (seed hints and
    budgets) is moved to the new page type at the same position; the clone satisfies
    the contract; and its own identifiers are fresh. *)
Theorem draft_from_published_spec (n : nat) (v c : CrawlerVersion)
    (Hc : draft_from_published n v = Ok c) :
  version_state v = Published /\ cloned v c /\ validate_semantic_contract c = Ok tt /\
  drawn_after n (version_id c) /\
  Forall (drawn_after n) (map seed_id (version_seeds c)) /\
  Forall (drawn_after n) (page_type_ids c) /\
  Forall (drawn_after n) (transition_ids c) /\
  NoDup (page_type_ids c).
Proof.
pose proof (clone_contract n v c Hc) as Hcontract.
destruct (draft_from_published_inv n v c Hc) as (_ & Hs & Hh & bs & Hbs & ->); clear Hc.
split; [done|]. split; [|split; [done|]].
{ split; [done|done|apply fresh_ids_length|apply fresh_ids_length|done|
    exact (seeds_cloned _ _ (S n) _ Hh)|exact Hbs]. }
simpl. split; [exists n; split; [lia|done]|]. split; [|split; [|split]].
- apply Forall_forall. intros i (s' & -> & Hin)%elem_of_map.
  apply elem_of_lookup_imap in Hin as (k & s & -> & _). simpl. exists (S n + k)%nat.
  split; [lia|done].
- apply Forall_forall. intros i (j & _ & ->)%elem_of_fresh_ids. eexists. split; [|done]. lia.
- apply Forall_forall. intros i (j & _ & ->)%elem_of_fresh_ids. eexists. split; [|done]. lia.
- apply fresh_ids_nodup.
Qed.

(** A published version that the operations can produce is cloned without
    error exactly when every seed hint names a page type of the version. *)
Theorem draft_from_published_total (n : nat) (v : CrawlerVersion)
    (Hv : reachable_version v) (Hp : version_state v = Published) :
  is_ok (draft_from_published n v) = true <->
  Forall (fun s => forall h, entry_page_type_hint s = Some h -> h ∈ page_type_ids v) (version_seeds v).
Proof.
assert (Hmiss : forall s, hint_missing (page_type_ids v) s = false <->
  forall h, entry_page_type_hint s = Some h -> h ∈ page_type_ids v).
{ intros s. unfold hint_missing. destruct (entry_page_type_hint s) as [h|]; [|naive_solver].
  rewrite bool_decide_eq_false. split; [intros Hh%dec_stable ? [= <-]; done|].
  intros Hh Hn. apply Hn. by apply Hh. }
split.
- destruct (draft_from_published n v) as [c|] eqn:Hd; [|done]. intros _.
  destruct (draft_from_published_inv n v c Hd) as (_ & _ & Hh & _).
  eapply Forall_impl; [exact Hh|]. intros s. apply Hmiss.
- intros Hh. pose proof (reachable_version_contract v Hv) as Hcontract.
  unfold draft_from_published. rewrite Hcontract. rewrite bool_decide_false by tauto.
  assert (existsb (hint_missing (page_type_ids v)) (version_seeds v) = false) as ->.
  { apply not_true_iff_false. intros (s & Hin & Hs)%existsb_exists.
    rewrite Forall_forall in Hh. apply list_elem_of_In in Hin.
    pose proof (proj2 (Hmiss s) (Hh s Hin)). congruence. }
  apply contract_parts in Hcontract as (_ & _ & _ & Hb).
  destruct (rename_budgets_total (S n + length (version_seeds v)) (page_type_ids v) _ Hb) as [bs Hbs].
  cbv zeta. by rewrite Hbs.
Qed.

(** ** Crawlers *)

(** A crawler never loses its active draft to another one: activation
    succeeds exactly for a draft of the crawler when no other draft is active, and
    sets only the draft pointer; reactivating a published version of the crawler sets
    the published pointer and clears the draft pointer only if it named that version. *)
Theorem crawler_pointers (self : Crawler) (v : CrawlerVersion) (c' : Crawler) :
  (activate_draft v self = Ok c' <->
    version_crawler_id v = crawler_id self /\ version_state v = Draft /\
    (active_draft_version_id self = None \/ active_draft_version_id self = Some (version_id v)) /\
    c' = with_pointers (active_published_version_id self) (Some (version_id v)) self) /\
  (reactivate_published v self = Ok c' <->
    version_crawler_id v = crawler_id self /\ version_state v = Published /\
    exists d, c' = with_pointers (Some (version_id v)) d self /\ d <> Some (version_id v) /\
      (d = active_draft_version_id self \/
       (d = None /\ active_draft_version_id self = Some (version_id v)))).
Proof.
unfold activate_draft, reactivate_published.
rewrite !reject_then_ok, !orb_false_iff, !bool_decide_eq_false. split.
- split.
  + intros ([H1%dec_stable H2%dec_stable] & Hd & [= <-]). split_and!; try done.
    destruct (active_draft_version_id self) as [i|]; [right|by left].
    apply bool_decide_eq_false_1, dec_stable in Hd. congruence.
  + intros (H1 & H2 & Hd & ->). split; [split; tauto|]. split; [|done].
    destruct Hd as [->| ->]; [done|]. apply bool_decide_eq_false. tauto.
- split.
  + intros ([H1%dec_stable H2%dec_stable] & [= <-]). split_and!; try done.
    eexists. split; [done|]. case_bool_decide; naive_solver.
  + intros (H1 & H2 & d & -> & Hd & Hcase). split; [split; tauto|]. f_equal. f_equal.
    case_bool_decide; naive_solver.
Qed.
End version_theorems.

(** * Witnesses *)

Lemma apply_edits_reachable `{U : UuidLib} `{L : UrlLib} `{H : HostLib} es v v' :
  reachable_version v -> apply_edits es v = Ok v' -> reachable_version v'.
Proof.
revert v. induction es as [|e es IH]; intros v Hv; simpl; [by intros [= <-]|].
intros (w & Hw & He)%bind_ok. apply (IH w); [|done]. by apply (reachable_edit e v).
Qed.

Lemma example_edits_run :
  apply_edits example_edits (draft (U := plain_uuid) (L := plain_url) 1 (new_id 0)) = Ok example_published.
Proof. reflexivity. Qed.

Lemma example_published_reachable : reachable_version (H := plain_hosts) example_published.
Proof.
apply (apply_edits_reachable example_edits (draft 1 (new_id 0))); [constructor|].
apply example_edits_run.
Qed.

Lemma example_clones : exists c, draft_from_published (H := plain_hosts) 10 example_published = Ok c.
Proof. apply is_ok_exists. vm_compute. reflexivity. Qed.

Lemma reachable_version_contract_witness :
  validate_semantic_contract (H := plain_hosts) example_published = Ok tt.
Proof. exact (reachable_version_contract example_published example_published_reachable). Defined.

Lemma draft_from_published_spec_witness :
  exists c, draft_from_published (H := plain_hosts) 10 example_published = Ok c /\
    cloned example_published c /\ NoDup (page_type_ids c).
Proof.
destruct example_clones as [c Hc]. exists c. split; [exact Hc|].
destruct (draft_from_published_spec 10 example_published c Hc) as (_ & H1 & _ & _ & _ & _ & _ & H2).
split; [exact H1|exact H2].
Defined.

Lemma draft_from_published_total_witness :
  is_ok (draft_from_published (H := plain_hosts) 10 example_published) = true.
Proof.
apply (draft_from_published_total 10 example_published example_published_reachable eq_refl).
constructor; [|constructor]. intros h [= <-]. right. left.
Defined.
