(* ===== verification/NetworkPolicy.v ===== *)
(** * Outbound network targets

    [crates/erabi-crawler/src/network_policy.rs]: no request leaves before its URL and
    every address it resolves to have been checked, and the request uses exactly the
    addresses that were checked.  Name resolution is a parameter. *)

From S2P Require Import Prelude Externals Base Instances.

(** ** Addresses *)

(** [Ipv4Addr::octets] and [Ipv6Addr::segments]. *)
Record Ipv4Addr := { o1 : Z; o2 : Z; o3 : Z; o4 : Z }.
Record Ipv6Addr := { s0 : Z; s1 : Z; s2 : Z; s3 : Z; s4 : Z; s5 : Z; s6 : Z; s7 : Z }.

Inductive IpAddr := V4 (a : Ipv4Addr) | V6 (a : Ipv6Addr).

(** [SocketAddr::new(ip, port)]. *)
Record SocketAddr := { ip : IpAddr; port : Z }.

#[export] Instance ipv4_eq_dec : EqDecision Ipv4Addr.
Proof. solve_decision. Defined.
#[export] Instance ipv6_eq_dec : EqDecision Ipv6Addr.
Proof. solve_decision. Defined.
#[export] Instance ip_eq_dec : EqDecision IpAddr.
Proof. solve_decision. Defined.
#[export] Instance socket_eq_dec : EqDecision SocketAddr.
Proof. solve_decision. Defined.

Definition octets (a : Ipv4Addr) : list Z := [o1 a; o2 a; o3 a; o4 a].
Definition segments (a : Ipv6Addr) : list Z := [s0 a; s1 a; s2 a; s3 a; s4 a; s5 a; s6 a; s7 a].

(** The order of [SocketAddr]: IPv4 before IPv6, then the address, then the port. *)
Definition ip_key (i : IpAddr) : Z * list Z :=
  match i with V4 a => (4, octets a) | V6 a => (6, segments a) end.
Definition socket_cmp : SocketAddr -> SocketAddr -> comparison :=
  cmp_on (fun s => (ip_key (ip s), port s)) (cmp_pair (cmp_pair Z.compare (cmp_list Z.compare)) Z.compare).

(** [(lo..=hi).contains(&x)] *)
Definition between (lo hi x : Z) : bool := (lo <=? x) && (x <=? hi).

Definition is_public_ipv4 (address : Ipv4Addr) : bool :=
  let first := o1 address in
  let second := o2 address in
  let third := o3 address in
  negb ((first =? 0)
     || (first =? 10)
     || ((first =? 100) && between 64 127 second)
     || (first =? 127)
     || ((first =? 169) && (second =? 254))
     || ((first =? 172) && between 16 31 second)
     || ((first =? 192) && (second =? 0) && (third =? 0))
     || ((first =? 192) && (second =? 0) && (third =? 2))
     || ((first =? 192) && (second =? 168))
     || ((first =? 192) && (second =? 88) && (third =? 99))
     || ((first =? 198) && between 18 19 second)
     || ((first =? 198) && (second =? 51) && (third =? 100))
     || ((first =? 203) && (second =? 0) && (third =? 113))
     || (224 <=? first)).

(** [Ipv6Addr::is_unspecified], [is_loopback] and [is_multicast]. *)
Definition is_unspecified (a : Ipv6Addr) : bool := forallb (Z.eqb 0) (segments a).
Definition is_loopback (a : Ipv6Addr) : bool :=
  forallb (Z.eqb 0) (take 7 (segments a)) && (s7 a =? 1).
Definition is_multicast (a : Ipv6Addr) : bool := Z.land (s0 a) 0xff00 =? 0xff00.

Definition is_public_ipv6 (a : Ipv6Addr) : bool :=
  negb (is_unspecified a
     || is_loopback a
     || is_multicast a
     || ((s0 a =? 0) && (s1 a =? 0) && (s2 a =? 0) && (s3 a =? 0) && (s4 a =? 0) && (s5 a =? 0))
     || ((s0 a =? 0) && (s1 a =? 0) && (s2 a =? 0) && (s3 a =? 0) && (s4 a =? 0) && (s5 a =? 0xffff))
     || ((s0 a =? 0x64) && (s1 a =? 0xff9b) && (s2 a =? 0) && (s3 a =? 0) && (s4 a =? 0) && (s5 a =? 0))
     || ((s0 a =? 0x64) && (s1 a =? 0xff9b) && (s2 a =? 1))
     || ((s0 a =? 0x100) && (s1 a =? 0) && (s2 a =? 0) && (s3 a =? 0))
     || ((s0 a =? 0x2001) && between 0 0x01ff (s1 a))
     || (s0 a =? 0x2002)
     || ((s0 a =? 0x2001) && (s1 a =? 0xdb8))
     || ((s0 a =? 0x3fff) && between 0 0x0fff (s1 a))
     || (s0 a =? 0x5f00)
     || (Z.land (s0 a) 0xfe00 =? 0xfc00)
     || (Z.land (s0 a) 0xffc0 =? 0xfe80)).

Definition is_public_unicast (address : IpAddr) : bool :=
  match address with
  | V4 a => is_public_ipv4 a
  | V6 a => is_public_ipv6 a
  end.

(** ** Errors and results *)

Inductive NetworkResolveError := ResolveFailed | ResolveTooManyAddresses.

Inductive NetworkTargetError :=
| UnsupportedScheme | MissingHost | CredentialsNotAllowed | FragmentNotAllowed | InvalidPort
| ProhibitedLiteralAddress | ResolutionFailed | ResolutionTimedOut | EmptyResolution
| TooManyAddresses | ProhibitedResolvedAddress.

Definition DEFAULT_NETWORK_RESOLUTION_TIMEOUT : Z := 3.
Definition DEFAULT_NETWORK_RESOLUTION_ADDRESS_LIMIT : nat := 16.

(** [url.host()]. *)
Inductive Host :=
| Domain (name : string)
| Ipv4 (a : Ipv4Addr)
| Ipv6 (a : Ipv6Addr).

(** The accessors of [url::Url] the policy adds to those of [UrlLib]. *)
Class UrlHostLib `{L : UrlLib} := {
  url_host : url -> option Host;
  url_port_or_known_default : url -> option Z
}.

(** A resolver's answer within the timeout; [None] when it is not back in time. *)
Definition Resolver := string -> Z -> Z -> option (result NetworkResolveError (list SocketAddr)).

(** [SystemNetworkResolver], given what [lookup_host] yields. *)
Fixpoint collect_answers (seen : list SocketAddr) (answers : list SocketAddr)
    : result NetworkResolveError (list SocketAddr) :=
  match answers with
  | [] => Ok seen
  | a :: rest =>
    if Nat.leb DEFAULT_NETWORK_RESOLUTION_ADDRESS_LIMIT (length seen)
    then Err ResolveTooManyAddresses
    else collect_answers (seen ++ [a]) rest
  end.

Definition system_resolve (lookup_host : string -> Z -> option (list SocketAddr))
    (host : string) (port : Z) : result NetworkResolveError (list SocketAddr) :=
  let? answers := ok_or ResolveFailed (lookup_host host port) in
  collect_answers [] answers.

(** [StaticNetworkResolver]. *)
Definition static_resolve (answers : gmap string (result NetworkResolveError (list SocketAddr)))
    (host : string) (port : Z) : result NetworkResolveError (list SocketAddr) :=
  default (Err ResolveFailed) (answers !! host).

(** The loop over the answers; an entry keeps the address and takes the port. *)
Fixpoint check_addresses (port : Z) (addresses : list SocketAddr)
    : result NetworkTargetError (list SocketAddr) :=
  match addresses with
  | [] => Ok []
  | a :: rest =>
    let? _ := reject_if (negb (is_public_unicast (ip a))) ProhibitedResolvedAddress in
    let? checked := check_addresses port rest in
    Ok ({| ip := ip a; port := port |} :: checked)
  end.

(** A [BTreeSet] collected: sorted, without duplicates. *)
Definition btree_set (l : list SocketAddr) : list SocketAddr :=
  dedup socket_cmp (sort_by socket_cmp l).

Definition normalize_and_validate_addresses (addresses : list SocketAddr) (port : Z)
    (address_limit : nat) : result NetworkTargetError (list SocketAddr) :=
  let? _ := reject_if (bool_decide (addresses = [])) EmptyResolution in
  let? _ := reject_if (Nat.eqb address_limit 0 || Nat.ltb address_limit (length addresses))
    TooManyAddresses in
  let? checked := check_addresses port addresses in
  let normalized := btree_set checked in
  let? _ := reject_if (bool_decide (normalized = [])) EmptyResolution in
  Ok normalized.

Section network_policy.
Context `{L : UrlLib} `{N : !UrlHostLib}.

Record NetworkTargetPolicy := {
  resolver : Resolver;
  resolution_timeout : Z;
  address_limit : nat
}.

Definition new_policy (r : Resolver) : NetworkTargetPolicy :=
  {| resolver := r; resolution_timeout := DEFAULT_NETWORK_RESOLUTION_TIMEOUT;
     address_limit := DEFAULT_NETWORK_RESOLUTION_ADDRESS_LIMIT |}.

Definition with_resolution_timeout (timeout : Z) (self : NetworkTargetPolicy) : NetworkTargetPolicy :=
  {| resolver := resolver self;
     resolution_timeout := Z.min timeout DEFAULT_NETWORK_RESOLUTION_TIMEOUT;
     address_limit := address_limit self |}.

Definition with_address_limit (limit : nat) (self : NetworkTargetPolicy) : NetworkTargetPolicy :=
  {| resolver := resolver self; resolution_timeout := resolution_timeout self;
     address_limit := Nat.min limit DEFAULT_NETWORK_RESOLUTION_ADDRESS_LIMIT |}.

Record ValidatedNetworkTarget := {
  target_url : url;
  target_host : string;
  target_port : Z;
  target_addresses : list SocketAddr
}.

Definition validate_url_shape (u : url) : result NetworkTargetError unit :=
  let? _ := reject_if (negb (http_or_https (url_scheme u))) UnsupportedScheme in
  let? _ := reject_if (bool_decide (url_host_str u = None)) MissingHost in
  let? _ := reject_if
    (negb (str_is_empty (url_username u)) || bool_decide (is_Some (url_password u)))
    CredentialsNotAllowed in
  reject_if (bool_decide (is_Some (url_fragment u))) FragmentNotAllowed.

Definition validate_url (u : url) : result NetworkTargetError unit :=
  let? _ := validate_url_shape u in
  let? port := ok_or InvalidPort (url_port_or_known_default u) in
  reject_if (port =? 0) InvalidPort.

Definition resolve_error (e : NetworkResolveError) : NetworkTargetError :=
  match e with
  | ResolveFailed => ResolutionFailed
  | ResolveTooManyAddresses => TooManyAddresses
  end.

Definition validate_and_resolve (self : NetworkTargetPolicy) (u : url)
    : result NetworkTargetError ValidatedNetworkTarget :=
  let? _ := validate_url u in
  let? host := ok_or MissingHost (url_host_str u) in
  let? port := ok_or InvalidPort (url_port_or_known_default u) in
  let? addresses :=
    match url_host u with
    | Some (Ipv4 a) =>
      let? _ := reject_if (negb (is_public_unicast (V4 a))) ProhibitedLiteralAddress in
      Ok [{| ip := V4 a; port := port |}]
    | Some (Ipv6 a) =>
      let? _ := reject_if (negb (is_public_unicast (V6 a))) ProhibitedLiteralAddress in
      Ok [{| ip := V6 a; port := port |}]
    | Some (Domain _) =>
      let? answer := ok_or ResolutionTimedOut (resolver self host port (resolution_timeout self)) in
      let? resolution := map_err resolve_error answer in
      normalize_and_validate_addresses resolution port (address_limit self)
    | None => Err MissingHost
    end in
  Ok {| target_url := u; target_host := host; target_port := port; target_addresses := addresses |}.
End network_policy.

(** ** A resolver and URLs the witnesses evaluate *)

#[export] Instance plain_hosts_of_urls : UrlHostLib (L := plain_url) := {|
  url_host u := Some (Domain (p_host (plain_data u)));
  url_port_or_known_default u := Some (if p_https (plain_data u) then 443 else 80)
|}.

Definition v4 (a b c d : Z) : IpAddr := V4 (Build_Ipv4Addr a b c d).

(** [public.test] has two public answers; [mixed.test] one of each sort. *)
Definition example_resolver : Resolver := fun host port _ =>
  Some (static_resolve
    {["public.test" := Ok [Build_SocketAddr (v4 93 184 216 34) 1; Build_SocketAddr (v4 8 8 8 8) 2];
      "mixed.test" := Ok [Build_SocketAddr (v4 8 8 8 8) 2; Build_SocketAddr (v4 10 0 0 7) 2]]} host port).

Definition example_net_policy : NetworkTargetPolicy := with_address_limit 8 (new_policy example_resolver).
Definition example_public_url : url (UrlLib := plain_url) := plain_page_url "public.test" "/" eq_refl.
Definition example_mixed_url : url (UrlLib := plain_url) := plain_page_url "mixed.test" "/" eq_refl.

(** The addresses of a validated target. *)
Definition example_ips (u : url (UrlLib := plain_url)) : option (list IpAddr) :=
  match validate_and_resolve example_net_policy u with
  | Ok t => Some (map ip (target_addresses t))
  | Err _ => None
  end.

(** ** Specification: address blocks *)

Definition octet (z : Z) : Prop := 0 <= z <= 255.
Definition segment (z : Z) : Prop := 0 <= z <= 0xffff.
Definition ipv4_valid (a : Ipv4Addr) : Prop := octet (o1 a) /\ octet (o2 a) /\ octet (o3 a) /\ octet (o4 a).
Definition ipv6_valid (a : Ipv6Addr) : Prop :=
  segment (s0 a) /\ segment (s1 a) /\ segment (s2 a) /\ segment (s3 a) /\
  segment (s4 a) /\ segment (s5 a) /\ segment (s6 a) /\ segment (s7 a).

(** An address as one 32-bit or 128-bit number. *)
Definition ipv4_value (a : Ipv4Addr) : Z := ((o1 a * 256 + o2 a) * 256 + o3 a) * 256 + o4 a.
Definition segments_value (l : list Z) : Z := fold_left (fun acc s => acc * 0x10000 + s) l 0.
Definition ipv6_value (a : Ipv6Addr) : Z := segments_value (segments a).

(** The block of the addresses of [width] bits that share the first [len] bits of
    [base]. *)
Definition in_block (width base len x : Z) : Prop := x / 2 ^ (width - len) = base / 2 ^ (width - len).

(** The special-purpose IPv4 blocks: "this network", private use (three), shared
    address space, loopback, link local, IETF protocols, documentation (three), 6to4
    relays, benchmarking, and multicast with everything above it. *)
Definition special_ipv4 : list (Ipv4Addr * Z) :=
  [ (Build_Ipv4Addr 0 0 0 0, 8); (Build_Ipv4Addr 10 0 0 0, 8); (Build_Ipv4Addr 100 64 0 0, 10);
    (Build_Ipv4Addr 127 0 0 0, 8); (Build_Ipv4Addr 169 254 0 0, 16);
    (Build_Ipv4Addr 172 16 0 0, 12); (Build_Ipv4Addr 192 0 0 0, 24);
    (Build_Ipv4Addr 192 0 2 0, 24); (Build_Ipv4Addr 192 168 0 0, 16);
    (Build_Ipv4Addr 192 88 99 0, 24); (Build_Ipv4Addr 198 18 0 0, 15);
    (Build_Ipv4Addr 198 51 100 0, 24); (Build_Ipv4Addr 203 0 113 0, 24);
    (Build_Ipv4Addr 224 0 0 0, 3) ].

(** The special-purpose IPv6 blocks: multicast; unspecified, loopback and
    IPv4-compatible; IPv4-mapped; the two translation prefixes; discard only; IETF
    protocols; 6to4; documentation (two); segment routing; unique and link local. *)
Definition special_ipv6 : list (Ipv6Addr * Z) :=
  [ (Build_Ipv6Addr 0xff00 0 0 0 0 0 0 0, 8);
    (Build_Ipv6Addr 0 0 0 0 0 0 0 0, 96); (Build_Ipv6Addr 0 0 0 0 0 0xffff 0 0, 96);
    (Build_Ipv6Addr 0x64 0xff9b 0 0 0 0 0 0, 96); (Build_Ipv6Addr 0x64 0xff9b 1 0 0 0 0 0, 48);
    (Build_Ipv6Addr 0x100 0 0 0 0 0 0 0, 64); (Build_Ipv6Addr 0x2001 0 0 0 0 0 0 0, 23);
    (Build_Ipv6Addr 0x2002 0 0 0 0 0 0 0, 16); (Build_Ipv6Addr 0x2001 0xdb8 0 0 0 0 0 0, 32);
    (Build_Ipv6Addr 0x3fff 0 0 0 0 0 0 0, 20); (Build_Ipv6Addr 0x5f00 0 0 0 0 0 0 0, 16);
    (Build_Ipv6Addr 0xfc00 0 0 0 0 0 0 0, 7); (Build_Ipv6Addr 0xfe80 0 0 0 0 0 0 0, 10) ].

Definition special_v4 (a : Ipv4Addr) : Prop :=
  exists b, b ∈ special_ipv4 /\ in_block 32 (ipv4_value b.1) b.2 (ipv4_value a).
Definition special_v6 (a : Ipv6Addr) : Prop :=
  exists b, b ∈ special_ipv6 /\ in_block 128 (ipv6_value b.1) b.2 (ipv6_value a).

Definition ip_valid (i : IpAddr) : Prop :=
  match i with V4 a => ipv4_valid a | V6 a => ipv6_valid a end.
Definition special (i : IpAddr) : Prop :=
  match i with V4 a => special_v4 a | V6 a => special_v6 a end.

(** The policies the constructors build. *)
Inductive built_policy : NetworkTargetPolicy -> Prop :=
| built_new r : built_policy (new_policy r)
| built_timeout t p : built_policy p -> built_policy (with_resolution_timeout t p)
| built_limit l p : built_policy p -> built_policy (with_address_limit l p).

(** * Theorems *)

(** An aligned block is an interval. *)
Lemma in_block_range width base len x :
  0 <= len <= width -> base mod 2 ^ (width - len) = 0 ->
  in_block width base len x <-> base <= x < base + 2 ^ (width - len).
Proof.
intros Hlen Hmod. unfold in_block. set (m := 2 ^ (width - len)) in *.
assert (0 < m) by (apply Z.pow_pos_nonneg; lia).
pose proof (Z.div_mod base m ltac:(lia)) as Hb. pose proof (Z.div_mod x m ltac:(lia)) as Hx.
pose proof (Z.mod_pos_bound x m ltac:(lia)). split; intros Hr.
- rewrite Hr in Hx. lia.
- symmetry. apply Z.div_unique with (r := x - base); lia.
Qed.

(** Two disjunctions whose clauses agree one by one. *)
Ltac match_clauses :=
  lazymatch goal with
  | |- (_ \/ _) <-> (_ \/ _) => apply Morphisms_Prop.or_iff_morphism; [lia|match_clauses]
  | _ => lia
  end.

Lemma special_v4_ranges a : special_v4 a <->
  Exists (fun b => ipv4_value b.1 <= ipv4_value a < ipv4_value b.1 + 2 ^ (32 - b.2)) special_ipv4.
Proof.
unfold special_v4. rewrite Exists_exists.
assert (H : Forall (fun b => 0 <= b.2 <= 32 /\ ipv4_value b.1 mod 2 ^ (32 - b.2) = 0) special_ipv4).
{ repeat constructor; vm_compute; discriminate. }
rewrite Forall_forall in H.
split; intros (b & Hb & Hr); exists b; (split; [done|]); destruct (H b Hb) as [H1 H2];
  by apply in_block_range.
Qed.

Lemma is_public_ipv4_special a : ipv4_valid a -> is_public_ipv4 a = false <-> special_v4 a.
Proof.
intros (H1 & H2 & H3 & H4). rewrite special_v4_ranges. unfold octet in *.
unfold is_public_ipv4, between. rewrite negb_false_iff.
unfold special_ipv4. rewrite !Exists_cons, Exists_nil. unfold ipv4_value; simpl.
rewrite !orb_true_iff, !andb_true_iff, !Z.eqb_eq, !Z.leb_le, !Logic.or_assoc.
destruct a as [a b c d]; simpl in *. match_clauses.
Qed.

(** Numbers written in segments. *)
Lemma segments_value_acc l acc :
  fold_left (fun acc s => acc * 0x10000 + s) l acc
  = acc * 0x10000 ^ Z.of_nat (length l) + segments_value l.
Proof.
unfold segments_value. revert acc. induction l as [|x l IH]; intros acc; simpl fold_left; [simpl; lia|].
rewrite (IH (acc * 65536 + x)), (IH (0 * 65536 + x)).
rewrite (length_cons x), Nat2Z.inj_succ, Z.pow_succ_r by lia. ring.
Qed.

Lemma segments_value_app p q :
  segments_value (p ++ q) = segments_value p * 0x10000 ^ Z.of_nat (length q) + segments_value q.
Proof. unfold segments_value at 1. rewrite fold_left_app. apply segments_value_acc. Qed.

Lemma segments_value_cons x q :
  segments_value (x :: q) = x * 0x10000 ^ Z.of_nat (length q) + segments_value q.
Proof. exact (segments_value_app [x] q). Qed.

Lemma segments_value_bound l :
  Forall segment l -> 0 <= segments_value l < 0x10000 ^ Z.of_nat (length l).
Proof.
induction 1 as [|x l Hx Hl IH]; [done|]. rewrite segments_value_cons, length_cons.
rewrite Nat2Z.inj_succ, Z.pow_succ_r by lia. unfold segment in Hx. nia.
Qed.

(** Quotient and remainder are unique. *)
Lemma mixed_radix_inj m a b a' b' :
  0 <= b < m -> 0 <= b' < m -> a * m + b = a' * m + b' <-> a = a' /\ b = b'.
Proof.
intros Hb Hb'. split; [|by intros [-> ->]]. intros Heq.
assert (a = a') as -> by nia. split; [done|lia].
Qed.

Lemma segments_value_inj l k :
  Forall segment l -> Forall segment k -> length l = length k ->
  segments_value l = segments_value k <-> l = k.
Proof.
intros Hl. revert k. induction Hl as [|x l Hx Hl IH]; intros k Hk Hlen.
- by destruct k.
- destruct Hk as [|y k Hy Hk]; [done|]. injection Hlen as Hlen.
  rewrite !segments_value_cons, Hlen, mixed_radix_inj.
  + rewrite (IH k Hk Hlen). naive_solver.
  + rewrite <- Hlen. by apply segments_value_bound.
  + by apply segments_value_bound.
Qed.

(** Sharing [16 * j + r] bits is sharing [j] segments and [r] bits of the next. *)
Lemma in_block_segments (p p' t t' : list Z) (x y r : Z) :
  Forall segment p -> Forall segment p' -> Forall segment t -> Forall segment t' ->
  segment x -> segment y -> length p = length p' -> length t = length t' -> 0 <= r <= 16 ->
  in_block (16 * (Z.of_nat (length p) + 1 + Z.of_nat (length t))) (segments_value (p' ++ y :: t'))
    (16 * Z.of_nat (length p) + r) (segments_value (p ++ x :: t))
  <-> p = p' /\ x / 2 ^ (16 - r) = y / 2 ^ (16 - r).
Proof.
intros Hp Hp' Ht Ht' Hx Hy Hlp Hlt Hr.
assert (Hdiv : forall q z u, segment z -> Forall segment u -> length u = length t ->
  segments_value (q ++ z :: u) / 2 ^ (16 * (Z.of_nat (length p) + 1 + Z.of_nat (length t))
    - (16 * Z.of_nat (length p) + r)) = segments_value q * 2 ^ r + z / 2 ^ (16 - r)).
{ intros q z u Hz Hu Hlu. pose proof (segments_value_bound u Hu) as Hb.
  replace (16 * (Z.of_nat (length p) + 1 + Z.of_nat (length t)) - (16 * Z.of_nat (length p) + r))
    with (16 * Z.of_nat (length u) + (16 - r)) by lia.
  assert (Hpow : 0x10000 ^ Z.of_nat (length u) = 2 ^ (16 * Z.of_nat (length u))).
  { change 0x10000 with (2 ^ 16). rewrite <- Z.pow_mul_r by lia. done. }
  assert (0 < 2 ^ (16 * Z.of_nat (length u))) by (apply Z.pow_pos_nonneg; lia).
  assert (0 < 2 ^ (16 - r)) by (apply Z.pow_pos_nonneg; lia).
  rewrite Z.pow_add_r, <- Z.div_div by lia.
  assert (segments_value (q ++ z :: u) / 2 ^ (16 * Z.of_nat (length u)) = segments_value q * 2 ^ 16 + z) as ->.
  { rewrite segments_value_app, segments_value_cons, length_cons, Nat2Z.inj_succ, Z.pow_succ_r by lia.
    rewrite Hpow in *. symmetry. apply Z.div_unique with (r := segments_value u); [lia|ring]. }
  replace (2 ^ 16) with (2 ^ r * 2 ^ (16 - r)) by (rewrite <- Z.pow_add_r by lia; f_equal; lia).
  rewrite Z.mul_assoc, Z.div_add_l by lia. done. }
unfold in_block. rewrite !Hdiv by done.
assert (Hbound : forall z, segment z -> 0 <= z / 2 ^ (16 - r) < 2 ^ r).
{ intros z Hz. unfold segment in Hz. assert (0 < 2 ^ (16 - r)) by (apply Z.pow_pos_nonneg; lia).
  split; [apply Z.div_pos; lia|]. apply Z.div_lt_upper_bound; [lia|].
  rewrite <- Z.pow_add_r by lia. replace (16 - r + r) with 16 by lia. lia. }
rewrite mixed_radix_inj by auto. rewrite segments_value_inj by done. done.
Qed.

(** Masking the high bits of a segment rounds it down. *)
Lemma land_high_mask k x :
  0 <= k <= 16 -> segment x -> Z.land x (Z.ldiff (Z.ones 16) (Z.ones k)) = x / 2 ^ k * 2 ^ k.
Proof.
intros Hk Hx. unfold segment in Hx.
assert (Hl : Z.land x (Z.ldiff (Z.ones 16) (Z.ones k)) = Z.ldiff (Z.land x (Z.ones 16)) (Z.ones k)).
{ apply Z.bits_inj'. intros n Hn. rewrite Z.land_spec, !Z.ldiff_spec, Z.land_spec.
  by rewrite andb_assoc. }
rewrite Hl, Z.land_ones, Z.mod_small, Z.ldiff_ones_r, Z.shiftl_mul_pow2, Z.shiftr_div_pow2 by lia.
done.
Qed.

Ltac mask_interval :=
  unfold segment, between in *; apply eq_true_iff_eq;
  rewrite andb_true_iff, Z.eqb_eq, !Z.leb_le; Z.div_mod_to_equations; lia.

Lemma mask_multicast x : segment x -> (Z.land x 0xff00 =? 0xff00) = between 0xff00 0xffff x.
Proof.
intros Hx. change 0xff00 with (Z.ldiff (Z.ones 16) (Z.ones 8)) at 1.
rewrite land_high_mask by (done || lia). change (2 ^ 8) with 256. mask_interval.
Qed.

Lemma mask_unique_local x : segment x -> (Z.land x 0xfe00 =? 0xfc00) = between 0xfc00 0xfdff x.
Proof.
intros Hx. change 0xfe00 with (Z.ldiff (Z.ones 16) (Z.ones 9)).
rewrite land_high_mask by (done || lia). change (2 ^ 9) with 512. mask_interval.
Qed.

Lemma mask_link_local x : segment x -> (Z.land x 0xffc0 =? 0xfe80) = between 0xfe80 0xfebf x.
Proof.
intros Hx. change 0xffc0 with (Z.ldiff (Z.ones 16) (Z.ones 6)).
rewrite land_high_mask by (done || lia). change (2 ^ 6) with 64. mask_interval.
Qed.

(** The same for two addresses: the prefix ends in segment [j]. *)
Lemma in_block_v6 (a b : Ipv6Addr) (len : Z) :
  ipv6_valid a -> ipv6_valid b -> 1 <= len <= 128 ->
  let j := Z.to_nat ((len - 1) / 16) in
  let r := len - 16 * ((len - 1) / 16) in
  in_block 128 (ipv6_value b) len (ipv6_value a) <->
  take j (segments a) = take j (segments b) /\
  nth j (segments a) 0 / 2 ^ (16 - r) = nth j (segments b) 0 / 2 ^ (16 - r).
Proof.
intros Ha Hb Hlen.
pose proof (Z.div_mod (len - 1) 16 ltac:(lia)) as Hdm. pose proof (Z.mod_pos_bound (len - 1) 16 ltac:(lia)) as Hm.
generalize dependent ((len - 1) mod 16). generalize ((len - 1) / 16). intros q m Hdm Hm j r.
assert (Hq : 0 <= q < 8) by lia. assert (Hj : (j < 8)%nat) by (unfold j; lia).
assert (Hjq : Z.of_nat j = q) by (unfold j; lia). assert (Hr : 0 <= r <= 16) by (unfold r; lia).
clearbody j. assert (Hlr : 16 * Z.of_nat j + r = len) by (unfold r; lia). clearbody r. clear Hdm Hm m.
assert (Hsegs : forall c, ipv6_valid c -> Forall segment (segments c)).
{ intros c (?&?&?&?&?&?&?&?). unfold segments. repeat (apply List.Forall_cons; [done|]). apply List.Forall_nil. }
assert (Hsplit : forall c, segments c = take j (segments c) ++ nth j (segments c) 0 :: drop (S j) (segments c)).
{ intros c. rewrite <- (take_drop j (segments c)) at 1. f_equal.
  apply drop_S. destruct (nth_lookup_or_length (segments c) j 0) as [|Hl]; [done|]. simpl in Hl. lia. }
assert (Hlenj : forall c, length (take j (segments c)) = j) by (intros c; apply length_take_le; simpl; lia).
assert (Hlent : forall c, length (drop (S j) (segments c)) = (7 - j)%nat) by (intros c; by rewrite length_drop).
unfold ipv6_value. rewrite (Hsplit a) at 1. rewrite (Hsplit b) at 1.
pose proof (Forall_take segment j _ (Hsegs a Ha)) as Hta. pose proof (Forall_take segment j _ (Hsegs b Hb)) as Htb.
pose proof (Forall_drop segment (S j) _ (Hsegs a Ha)) as Hda.
pose proof (Forall_drop segment (S j) _ (Hsegs b Hb)) as Hdb.
rewrite <- (in_block_segments (take j (segments a)) (take j (segments b)) (drop (S j) (segments a))
  (drop (S j) (segments b)) (nth j (segments a) 0) (nth j (segments b) 0) r); try done.
- rewrite Hlenj, Hlent.
  replace (16 * (Z.of_nat j + 1 + Z.of_nat (7 - j))) with 128 by lia.
  by rewrite Hlr.
- pose proof (Hsegs a Ha) as Hs. rewrite Forall_forall in Hs. apply Hs, list_elem_of_In, nth_In. simpl. lia.
- pose proof (Hsegs b Hb) as Hs. rewrite Forall_forall in Hs. apply Hs, list_elem_of_In, nth_In. simpl. lia.
- by rewrite !Hlenj.
- by rewrite !Hlent.
Qed.

(** Evaluates the split of a closed prefix length. *)
Ltac eval_prefix :=
  repeat match goal with
  | |- context [Z.to_nat ?e] =>
    let v := eval vm_compute in (Z.to_nat e) in change (Z.to_nat e) with v
  | |- context [2 ^ ?e] => let v := eval vm_compute in (2 ^ e) in change (2 ^ e) with v
  end.

(** One clause of the test against one block. *)
Ltac block_clause :=
  eval_prefix; cbn [take nth segments s0 s1 s2 s3 s4 s5 s6 s7];
  rewrite ?andb_true_iff, ?Z.eqb_eq, ?Z.leb_le; split;
  [ intros Hc; split; [repeat (f_equal; try lia)|Z.div_mod_to_equations; lia]
  | intros [Hl Hd]; simplify_eq; Z.div_mod_to_equations; lia ].

Ltac match_blocks :=
  lazymatch goal with
  | |- (_ \/ _) <-> (_ \/ _) =>
    apply Morphisms_Prop.or_iff_morphism; [block_clause|match_blocks]
  | |- _ <-> _ \/ False => rewrite (right_id False or); block_clause
  end.

Lemma is_public_ipv6_special a : ipv6_valid a -> is_public_ipv6 a = false <-> special_v6 a.
Proof.
intros Ha.
assert (Hb : Forall (fun b => ipv6_valid b.1 /\ 1 <= b.2 <= 128) special_ipv6).
{ unfold special_ipv6, ipv6_valid, segment. repeat (apply List.Forall_cons; [simpl; lia|]).
  apply List.Forall_nil. }
transitivity (Exists (fun b => let j := Z.to_nat ((b.2 - 1) / 16) in
  let r := b.2 - 16 * ((b.2 - 1) / 16) in
  take j (segments a) = take j (segments b.1) /\
  nth j (segments a) 0 / 2 ^ (16 - r) = nth j (segments b.1) 0 / 2 ^ (16 - r)) special_ipv6).
2:{ unfold special_v6. rewrite Exists_exists. rewrite Forall_forall in Hb.
    split; intros (b & Hin & Hr); exists b; (split; [done|]); destruct (Hb b Hin);
      by apply in_block_v6. }
destruct Ha as (H0 & H1 & H2 & H3 & H4 & H5 & H6 & H7).
unfold is_public_ipv6, is_multicast. rewrite negb_false_iff.
rewrite mask_multicast, mask_unique_local, mask_link_local by done.
assert (Hzero : is_unspecified a = true \/ is_loopback a = true ->
  s0 a = 0 /\ s1 a = 0 /\ s2 a = 0 /\ s3 a = 0 /\ s4 a = 0 /\ s5 a = 0).
{ unfold is_unspecified, is_loopback, segments. cbn [forallb take].
  rewrite !andb_true_iff, !Z.eqb_eq. intros []; naive_solver. }
rewrite !orb_true_iff, !Logic.or_assoc.
destruct a as [a0 a1 a2 a3 a4 a5 a6 a7]. cbn [s0 s1 s2 s3 s4 s5 s6 s7] in *.
unfold special_ipv6. rewrite !Exists_cons, Exists_nil. cbn [fst snd]. cbv zeta. unfold between, segment in *.
match goal with |- (?u \/ ?l \/ ?m \/ ?c \/ ?r) <-> _ =>
  transitivity (m \/ c \/ r)
end.
{ rewrite !andb_true_iff, !Z.eqb_eq. tauto. }
clear Hzero Hb. match_blocks.
Qed.

(** The public-unicast test is exact: an address is refused precisely when it
    lies in one of the special-purpose address blocks (private, loopback, link local,
    mapped, documentation, multicast, reserved and the other listed prefixes). *)
Theorem is_public_unicast_spec (i : IpAddr) (Hi : ip_valid i) :
  is_public_unicast i = false <-> special i.
Proof. destruct i; [by apply is_public_ipv4_special|by apply is_public_ipv6_special]. Qed.

#[export] Instance socket_cmp_lawful : LawfulCmp socket_cmp.
Proof.
apply lawful_cmp_on; [apply _|]. intros [i p] [i' p'] H. simpl in H. injection H as Hk ->.
f_equal. unfold ip_key, octets, segments in Hk.
destruct i as [[]|[]], i' as [[]|[]]; simpl in Hk; by simplify_eq.
Qed.

Lemma built_policy_bounds p :
  built_policy p ->
  (address_limit p <= DEFAULT_NETWORK_RESOLUTION_ADDRESS_LIMIT)%nat /\
  resolution_timeout p <= DEFAULT_NETWORK_RESOLUTION_TIMEOUT.
Proof. induction 1 as [|t p _ IH|l p _ IH]; simpl; [lia|lia|]. split; [apply Nat.le_min_r|lia]. Qed.

Lemma check_addresses_ok port l checked :
  check_addresses port l = Ok checked <->
  Forall (fun a => is_public_unicast (ip a) = true) l /\
  checked = map (fun a => {| ip := ip a; port := port |}) l.
Proof.
revert checked. induction l as [|a l IH]; intros checked; simpl.
- split; [intros [= <-]; by split|by intros [_ ->]].
- rewrite reject_then_ok, negb_false_iff, Forall_cons, bind_ok. split.
  + intros (Ha & c & Hc & [= <-]). apply IH in Hc as [Hl ->]. done.
  + intros ((Ha & Hl) & ->). split; [done|]. eexists. split; [by apply IH|done].
Qed.

Lemma check_addresses_err port l e :
  check_addresses port l = Err e <->
  e = ProhibitedResolvedAddress /\ Exists (fun a => is_public_unicast (ip a) = false) l.
Proof.
induction l as [|a l IH]; simpl; [rewrite Exists_nil; naive_solver|].
rewrite Exists_cons. destruct (is_public_unicast (ip a)); simpl; [|naive_solver].
destruct (check_addresses port l); naive_solver.
Qed.

Lemma elem_of_btree_set l a : a ∈ btree_set l <-> a ∈ l.
Proof. unfold btree_set. by rewrite (elem_of_dedup socket_cmp), elem_of_sort_by. Qed.

(** What normalization accepts and returns. *)
Lemma normalize_ok answers port limit out :
  normalize_and_validate_addresses answers port limit = Ok out ->
  answers <> [] /\ (length answers <= limit)%nat /\
  Forall (fun a => is_public_unicast (ip a) = true) answers /\
  out = btree_set (map (fun a => {| ip := ip a; port := port |}) answers).
Proof.
unfold normalize_and_validate_addresses. rewrite !reject_then_ok.
intros (Hne & Hl & H). apply bind_ok in H as (c & Hc & H). apply check_addresses_ok in Hc as [Hall ->].
apply reject_then_ok in H as [_ [= <-]]. boolify. rewrite Nat.ltb_ge in *. by split_and!.
Qed.

Section network_theorems.
Context `{L : UrlLib} `{N : !UrlHostLib}.

Lemma validate_url_ok u :
  validate_url u = Ok tt ->
  crawlable (view u) /\ url_fragment u = None /\
  exists p, url_port_or_known_default u = Some p /\ p <> 0.
Proof.
unfold validate_url, validate_url_shape. rewrite bind_ok. intros ([] & Hs & H).
rewrite !reject_then_ok, reject_if_ok in Hs. destruct Hs as (H1 & H2 & H3 & H4). boolify.
apply bind_ok in H as (p & Hp & H). apply ok_or_ok in Hp. apply reject_if_ok in H. boolify.
split; [|split; [by apply eq_None_not_Some|by exists p]].
split_and!; simpl; [done|by apply not_eq_None_Some|by destruct (url_username u)|by apply eq_None_not_Some].
Qed.

(** C40. A validated target is safe to contact: it is an HTTP(S) URL without
    credentials or fragment and with a non-zero port; it carries at least one address;
    every address it carries is public unicast and has that port; and for a host name
    the addresses are exactly those of the resolver's answer, all of which were public
    and at most sixteen: a target carries no address that was not checked. *)
Theorem validated_target_safe (self : NetworkTargetPolicy) (u : url) (t : ValidatedNetworkTarget)
    (Hp : built_policy self) (Ht : validate_and_resolve self u = Ok t) :
  target_url t = u /\ crawlable (view u) /\ url_fragment u = None /\
  url_host_str u = Some (target_host t) /\ target_port t <> 0 /\
  target_addresses t <> [] /\
  Forall (fun a => is_public_unicast (ip a) = true /\ port a = target_port t) (target_addresses t) /\
  (forall name, url_host u = Some (Domain name) ->
    exists answers,
      resolver self (target_host t) (target_port t) (resolution_timeout self) = Some (Ok answers) /\
      (length answers <= DEFAULT_NETWORK_RESOLUTION_ADDRESS_LIMIT)%nat /\
      Forall (fun a => is_public_unicast (ip a) = true) answers /\
      forall i, i ∈ map ip (target_addresses t) <-> i ∈ map ip answers).
Proof.
unfold validate_and_resolve in Ht. apply bind_ok in Ht as ([] & Hv & Ht).
destruct (validate_url_ok u Hv) as (Hc & Hf & p & Hport & Hp0).
apply bind_ok in Ht as (h & Hh & Ht). apply ok_or_ok in Hh.
rewrite Hport in Ht. apply bind_ok in Ht as (p' & Hp' & Ht). injection Hp' as <-.
apply bind_ok in Ht as (addrs & Ha & [= <-]). simpl.
do 5 (split; [done|]).
destruct (url_host u) as [[name|a|a]|]; [| | |done].
- apply bind_ok in Ha as (answer & Hans & Ha). apply ok_or_ok in Hans.
  apply bind_ok in Ha as (answers & Hres & Ha).
  assert (answer = Ok answers) as -> by (destruct answer; simpl in Hres; congruence).
  destruct (normalize_ok _ _ _ _ Ha) as (Hne & Hlen & Hall & ->).
  destruct (built_policy_bounds self Hp) as [Hlim _].
  split; [|split].
  + destruct answers as [|a l]; [done|]. intros Hnil.
    assert ({| ip := ip a; port := p |} ∈ ([] : list SocketAddr)) as []%not_elem_of_nil.
    rewrite <- Hnil, elem_of_btree_set. left.
  + apply Forall_forall. intros a. rewrite elem_of_btree_set, elem_of_map.
    intros (b & -> & Hb). rewrite Forall_forall in Hall. simpl. by split; [apply Hall|].
  + intros n _. exists answers. split; [done|]. split; [lia|]. split; [done|].
    intros i. rewrite !elem_of_map. split.
    * intros (a & -> & Hin). apply elem_of_btree_set, elem_of_map in Hin as (b & -> & Hb). by exists b.
    * intros (b & -> & Hb). exists {| ip := ip b; port := p |}. split; [done|].
      apply elem_of_btree_set, elem_of_map. by exists b.
- apply reject_then_ok in Ha as [Ha [= <-]]. apply negb_false_iff in Ha.
  split; [done|]. split; [|done]. by repeat constructor.
- apply reject_then_ok in Ha as [Ha [= <-]]. apply negb_false_iff in Ha.
  split; [done|]. split; [|done]. by repeat constructor.
Qed.

(** One bad answer condemns the name: if the answer for a host name holds an
    address that is not public unicast, the target is refused as a whole, however
    many public addresses the answer also holds. *)
Theorem prohibited_answer_rejected (self : NetworkTargetPolicy) (u : url) (name : string)
    (h : string) (p : Z) (answers : list SocketAddr)
    (Hv : validate_url u = Ok tt) (Hn : url_host u = Some (Domain name))
    (Hh : url_host_str u = Some h) (Hp : url_port_or_known_default u = Some p)
    (Hr : resolver self h p (resolution_timeout self) = Some (Ok answers))
    (Hl : (length answers <= address_limit self)%nat)
    (Hbad : Exists (fun a => is_public_unicast (ip a) = false) answers) :
  validate_and_resolve self u = Err ProhibitedResolvedAddress.
Proof.
unfold validate_and_resolve. rewrite Hv, Hh, Hp. simpl. rewrite Hn, Hr. simpl.
assert (normalize_and_validate_addresses answers p (address_limit self)
  = Err ProhibitedResolvedAddress) as ->; [|done].
unfold normalize_and_validate_addresses.
destruct answers as [|a l]; [by apply Exists_nil in Hbad|]. rewrite bool_decide_false by done.
assert (Nat.eqb (address_limit self) 0 || Nat.ltb (address_limit self) (length (a :: l)) = false) as ->.
{ simpl in *. apply orb_false_iff. split; [apply Nat.eqb_neq; lia|apply Nat.ltb_ge; lia]. }
simpl reject_if. cbv iota.
by rewrite (proj2 (check_addresses_err p (a :: l) ProhibitedResolvedAddress)).
Qed.
End network_theorems.

(** * Witnesses *)

Lemma is_public_unicast_spec_witness :
  special (v4 100 100 1 2) /\ is_public_unicast (v4 100 128 1 2) = true.
Proof.
split; [|reflexivity].
apply (is_public_unicast_spec (v4 100 100 1 2)); [|reflexivity].
unfold ip_valid, v4, ipv4_valid, octet. simpl. lia.
Defined.

Lemma example_net_policy_built : built_policy example_net_policy.
Proof. apply built_limit, built_new. Qed.

Lemma validated_target_safe_witness :
  exists t, validate_and_resolve example_net_policy example_public_url = Ok t /\
    map ip (target_addresses t) = [v4 8 8 8 8; v4 93 184 216 34] /\
    Forall (fun a => is_public_unicast (ip a) = true /\ port a = target_port t) (target_addresses t).
Proof.
assert (example_ips example_public_url = Some [v4 8 8 8 8; v4 93 184 216 34]) as Hips
  by (vm_compute; reflexivity).
unfold example_ips in Hips.
destruct (validate_and_resolve example_net_policy example_public_url) as [t|e] eqn:Ht; [|done].
exists t. split; [reflexivity|]. split; [by injection Hips|].
apply (validated_target_safe example_net_policy example_public_url t example_net_policy_built Ht).
Defined.

Lemma prohibited_answer_rejected_witness :
  validate_and_resolve example_net_policy example_mixed_url = Err ProhibitedResolvedAddress.
Proof.
apply (prohibited_answer_rejected example_net_policy example_mixed_url "mixed.test" "mixed.test" 80
  [Build_SocketAddr (v4 8 8 8 8) 2; Build_SocketAddr (v4 10 0 0 7) 2]);
  [vm_compute; reflexivity|reflexivity|reflexivity|reflexivity|vm_compute; reflexivity|simpl; lia|].
right. left. reflexivity.
Defined.
