(* ===== verification/Snapshot.v ===== *)
(** * Run snapshots

    [crates/erabi-domain/src/crawl_snapshot.rs]: the configuration frozen when a run
    is created, its canonical JSON text and its two hashes.  The serde
    representations are written out as [..._json] functions; SHA-256 and JSON string
    escaping are parameters. *)

From stdpp Require Import pretty.
From S2P Require Import Prelude Externals JsonFacts Base Instances Settings.

Definition MAX_ROBOTS_OVERRIDE_REASON_CHARS : nat := 1000.

(** [CanonicalSerialization] never occurs for the types of a snapshot: their
    serialised forms below are total. *)
Inductive SnapshotError :=
| SnapshotInvalid (message : string)
| CanonicalSerialization.

(** ** Canonical JSON *)

Definition hex_digit (n : Z) : ascii := chr (if n <? 10 then 48 + n else 87 + n).

Fixpoint hex_encode (bytes : list Z) : string :=
  match bytes with
  | [] => EmptyString
  | b :: rest => String (hex_digit (Z.shiftr b 4)) (String (hex_digit (Z.land b 15)) (hex_encode rest))
  end.

Section canonical_json.
Context `{J : JsonLib} `{Hash : HashLib}.

(** The entries of an object are written in the order of their keys. *)
Definition key_order {A} : string * A -> string * A -> comparison := cmp_on fst String.compare.

Definition write_entry (e : string * string) : string := (json_string e.1 ++ ":" ++ e.2)%string.

Fixpoint write_canonical_json (value : Json) : string :=
  match value with
  | JNull => "null"
  | JBool b => if b then "true" else "false"
  | JNumber text => text
  | JString s => json_string s
  | JArray values => ("[" ++ join "," (map write_canonical_json values) ++ "]")%string
  | JObject entries =>
    ("{" ++ join "," (map write_entry (sort_by key_order
       (map (fun e => (e.1, write_canonical_json e.2)) entries))) ++ "}")%string
  end.

Definition canonical_sha256 (value : Json) : string :=
  hex_encode (sha256 (write_canonical_json value)).
End canonical_json.

(** ** The snapshot *)

Definition require_non_empty (label value : string) : result SnapshotError unit :=
  reject_if (blank value) (SnapshotInvalid (label ++ " must not be empty")).

Section snapshot.
Context `{U : UuidLib} `{L : UrlLib} `{J : JsonLib} `{Hash : HashLib}.

Record SnapshotOperationalSettings := {
  set_max_pages : ResolvedValue Z;
  set_max_depth : ResolvedValue Z;
  set_max_duration_seconds : ResolvedValue Z;
  set_concurrency : ResolvedValue Z;
  set_request_delay_ms : ResolvedValue Z;
  set_timeout_ms : ResolvedValue Z;
  set_screenshot : ResolvedValue bool;
  set_asset_download_limit_bytes : ResolvedValue Z;
  set_retain_artifacts : ResolvedValue bool;
  set_user_agent : ResolvedValue string
}.

Inductive RunConfiguration :=
| ConfCrawlerVersion (crawler_id : CrawlerId) (crawler_version_id : CrawlerVersionId)
    (semantic_config_hash : string)
| ConfQuickScrape (target_url : url) (ad_hoc_configuration : list (string * Json)).

Inductive RobotsDecision :=
| Respect
| Override (reason : string).

Record RobotsAudit := {
  robots_decision : RobotsDecision;
  robots_actor : string;
  decided_at : string;
  affected_scope : string;
  robots_user_agent : string;
  robots_crawler_version_id : option CrawlerVersionId
}.

Definition reason_too_long : SnapshotError :=
  SnapshotInvalid "robots override reason must not exceed 1000 characters".

Definition respect (actor decided_at affected_scope user_agent : string)
    (version : option CrawlerVersionId) : RobotsAudit :=
  Build_RobotsAudit Respect actor decided_at affected_scope user_agent version.

Definition override_with_reason (reason actor decided_at affected_scope user_agent : string)
    (version : option CrawlerVersionId) : result SnapshotError RobotsAudit :=
  let? _ := require_non_empty "robots override reason" reason in
  let? _ := reject_if (Nat.ltb MAX_ROBOTS_OVERRIDE_REASON_CHARS (char_count reason)) reason_too_long in
  Ok (Build_RobotsAudit (Override reason) actor decided_at affected_scope user_agent version).

Definition audit_validate (self : RobotsAudit) : result SnapshotError unit :=
  let? _ := require_non_empty "robots actor" (robots_actor self) in
  let? _ := require_non_empty "robots decision time" (decided_at self) in
  let? _ := require_non_empty "robots affected scope" (affected_scope self) in
  let? _ := require_non_empty "robots user agent" (robots_user_agent self) in
  match robots_decision self with
  | Respect => Ok tt
  | Override reason =>
    let? _ := require_non_empty "robots override reason" reason in
    reject_if (Nat.ltb MAX_ROBOTS_OVERRIDE_REASON_CHARS (char_count reason)) reason_too_long
  end.

Record CrawlRunSnapshotDraft := {
  draft_run_type : CrawlRunType;
  draft_configuration : RunConfiguration;
  draft_selected_seed_ids : list SeedId;
  draft_run_profile_id : option RunProfileId;
  draft_settings : SnapshotOperationalSettings;
  draft_robots : RobotsAudit;
  draft_actor : string;
  draft_created_at : string
}.

(** A snapshot is its draft with the two hashes. *)
Record CrawlRunSnapshot := {
  snapshot_draft : CrawlRunSnapshotDraft;
  snapshot_hash : string;
  checkpoint_compatibility_hash : string
}.

(** *** The serialised forms *)

Definition number_json (z : Z) : Json := JNumber (pretty z).
Definition id_json {k} (i : typed_id k) : Json := JString (id_to_string i).
Definition option_json {A} (f : A -> Json) (o : option A) : Json :=
  match o with Some a => f a | None => JNull end.

Definition source_json (s : SettingSource) : Json :=
  JString match s with
          | PerRunOverride => "PER_RUN_OVERRIDE"
          | RunProfileSource => "RUN_PROFILE"
          | CrawlerOperationalDefault => "CRAWLER_OPERATIONAL_DEFAULT"
          | CollectionOverride => "COLLECTION_OVERRIDE"
          | GlobalSetting => "GLOBAL_SETTING"
          | BuiltInDefault => "BUILT_IN_DEFAULT"
          end.

Definition resolved_json {T} (f : T -> Json) (r : ResolvedValue T) : Json :=
  JObject [("value"%string, f (resolved_value r)); ("source"%string, source_json (resolved_source r))].

Definition settings_json (s : SnapshotOperationalSettings) : Json :=
  JObject [("max_pages"%string, resolved_json number_json (set_max_pages s));
    ("max_depth"%string, resolved_json number_json (set_max_depth s));
    ("max_duration_seconds"%string, resolved_json number_json (set_max_duration_seconds s));
    ("concurrency"%string, resolved_json number_json (set_concurrency s));
    ("request_delay_ms"%string, resolved_json number_json (set_request_delay_ms s));
    ("timeout_ms"%string, resolved_json number_json (set_timeout_ms s));
    ("screenshot"%string, resolved_json JBool (set_screenshot s));
    ("asset_download_limit_bytes"%string, resolved_json number_json (set_asset_download_limit_bytes s));
    ("retain_artifacts"%string, resolved_json JBool (set_retain_artifacts s));
    ("user_agent"%string, resolved_json JString (set_user_agent s))].

Definition run_type_json (t : CrawlRunType) : Json :=
  JString match t with
          | QuickScrape => "QUICK_SCRAPE" | TestRun => "TEST_RUN"
          | DiscoveryPreview => "DISCOVERY_PREVIEW" | ProductionRun => "PRODUCTION_RUN"
          end.

Definition configuration_json (c : RunConfiguration) : Json :=
  match c with
  | ConfCrawlerVersion crawler version h =>
    JObject [("kind"%string, JString "CRAWLER_VERSION"); ("crawler_id"%string, id_json crawler);
      ("crawler_version_id"%string, id_json version); ("semantic_config_hash"%string, JString h)]
  | ConfQuickScrape target ad_hoc =>
    JObject [("kind"%string, JString "QUICK_SCRAPE"); ("target_url"%string, JString (url_as_str target));
      ("ad_hoc_configuration"%string, JObject ad_hoc)]
  end.

Definition decision_json (d : RobotsDecision) : Json :=
  match d with
  | Respect => JObject [("decision"%string, JString "RESPECT")]
  | Override reason => JObject [("decision"%string, JString "OVERRIDE"); ("reason"%string, JString reason)]
  end.

Definition audit_json (a : RobotsAudit) : Json :=
  JObject [("decision"%string, decision_json (robots_decision a)); ("actor"%string, JString (robots_actor a));
    ("decided_at"%string, JString (decided_at a)); ("affected_scope"%string, JString (affected_scope a));
    ("user_agent"%string, JString (robots_user_agent a));
    ("crawler_version_id"%string, option_json id_json (robots_crawler_version_id a))].

Definition draft_json (d : CrawlRunSnapshotDraft) : Json :=
  JObject [("run_type"%string, run_type_json (draft_run_type d));
    ("configuration"%string, configuration_json (draft_configuration d));
    ("selected_seed_ids"%string, JArray (map id_json (draft_selected_seed_ids d)));
    ("run_profile_id"%string, option_json id_json (draft_run_profile_id d));
    ("settings"%string, settings_json (draft_settings d));
    ("robots"%string, audit_json (draft_robots d));
    ("actor"%string, JString (draft_actor d)); ("created_at"%string, JString (draft_created_at d))].

(** [CheckpointCompatibility]: the part of a draft a resumed run must share. *)
Definition compatibility_json (d : CrawlRunSnapshotDraft) : Json :=
  JObject [("run_type"%string, run_type_json (draft_run_type d));
    ("configuration"%string, configuration_json (draft_configuration d));
    ("selected_seed_ids"%string, JArray (map id_json (draft_selected_seed_ids d)));
    ("settings"%string, settings_json (draft_settings d));
    ("robots_decision"%string, decision_json (robots_decision (draft_robots d)));
    ("robots_scope"%string, JString (affected_scope (draft_robots d)));
    ("user_agent"%string, JString (robots_user_agent (draft_robots d)))].

(** *** Construction *)

Definition hash_malformed (h : string) : bool :=
  negb (Nat.eqb (str_len h) 64) || negb (forallb is_ascii_hexdigit (chars h)).

Definition validate_draft (d : CrawlRunSnapshotDraft) : result SnapshotError unit :=
  let agent := resolved_value (set_user_agent (draft_settings d)) in
  let? _ := require_non_empty "run actor" (draft_actor d) in
  let? _ := require_non_empty "run creation time" (draft_created_at d) in
  let? _ := require_non_empty "resolved user agent" agent in
  let? _ := audit_validate (draft_robots d) in
  let? _ := reject_if (negb (String.eqb agent (robots_user_agent (draft_robots d))))
    (SnapshotInvalid "resolved user agent must match robots audit user agent") in
  match draft_run_type d, draft_configuration d with
  | QuickScrape, ConfQuickScrape _ _ =>
    reject_if (bool_decide (is_Some (robots_crawler_version_id (draft_robots d))))
      (SnapshotInvalid "Quick Scrape robots audit cannot reference a CrawlerVersion")
  | QuickScrape, ConfCrawlerVersion _ _ _ =>
    Err (SnapshotInvalid "QUICK_SCRAPE requires an ad-hoc Quick Scrape configuration")
  | _, ConfQuickScrape _ _ =>
    Err (SnapshotInvalid "only QUICK_SCRAPE may use an ad-hoc Quick Scrape configuration")
  | _, ConfCrawlerVersion _ crawler_version_id semantic_config_hash =>
    let? _ := reject_if
      (bool_decide (robots_crawler_version_id (draft_robots d) <> Some crawler_version_id))
      (SnapshotInvalid "robots audit must reference the snapshotted CrawlerVersion") in
    reject_if (hash_malformed semantic_config_hash)
      (SnapshotInvalid "semantic configuration hash must be a SHA-256 hex value")
  end.

Definition snapshot_new (d : CrawlRunSnapshotDraft) : result SnapshotError CrawlRunSnapshot :=
  let? _ := validate_draft d in
  Ok {| snapshot_draft := d; snapshot_hash := canonical_sha256 (draft_json d);
        checkpoint_compatibility_hash := canonical_sha256 (compatibility_json d) |}.

Definition rehydrate (d : CrawlRunSnapshotDraft) (stored_hash stored_compatibility_hash : string)
    : result SnapshotError CrawlRunSnapshot :=
  let? snapshot := snapshot_new d in
  let? _ := reject_if (negb (String.eqb (snapshot_hash snapshot) stored_hash))
    (SnapshotInvalid "stored snapshot hash does not match the canonical snapshot") in
  let? _ := reject_if
    (negb (String.eqb (checkpoint_compatibility_hash snapshot) stored_compatibility_hash))
    (SnapshotInvalid "stored checkpoint compatibility hash does not match the canonical snapshot") in
  Ok snapshot.

(** ** Specification *)

Record audit_well_formed (a : RobotsAudit) : Prop := {
  awf_actor : blank (robots_actor a) = false;
  awf_time : blank (decided_at a) = false;
  awf_scope : blank (affected_scope a) = false;
  awf_agent : blank (robots_user_agent a) = false;
  awf_reason : forall reason, robots_decision a = Override reason ->
    blank reason = false /\ (char_count reason <= MAX_ROBOTS_OVERRIDE_REASON_CHARS)%nat
}.

(** A draft that may be frozen: complete audit context, the user agent the audit
    names, and the configuration the run type calls for. *)
Record draft_well_formed (d : CrawlRunSnapshotDraft) : Prop := {
  dwf_actor : blank (draft_actor d) = false;
  dwf_time : blank (draft_created_at d) = false;
  dwf_audit : audit_well_formed (draft_robots d);
  dwf_agent : resolved_value (set_user_agent (draft_settings d)) = robots_user_agent (draft_robots d);
  dwf_configuration :
    match draft_configuration d with
    | ConfQuickScrape _ _ =>
      draft_run_type d = QuickScrape /\ robots_crawler_version_id (draft_robots d) = None
    | ConfCrawlerVersion _ version h =>
      draft_run_type d <> QuickScrape /\ robots_crawler_version_id (draft_robots d) = Some version /\
      hash_malformed h = false
    end
}.

(** The same configuration, up to the order of entries inside an ad-hoc one. *)
Definition same_configuration (c c' : RunConfiguration) : Prop :=
  match c, c' with
  | ConfCrawlerVersion i v h, ConfCrawlerVersion i' v' h' => i = i' /\ v = v' /\ h = h'
  | ConfQuickScrape u o, ConfQuickScrape u' o' => u = u' /\ json_equiv (JObject o) (JObject o')
  | _, _ => False
  end.

Definition same_draft (d d' : CrawlRunSnapshotDraft) : Prop :=
  draft_run_type d = draft_run_type d' /\
  same_configuration (draft_configuration d) (draft_configuration d') /\
  draft_selected_seed_ids d = draft_selected_seed_ids d' /\
  draft_run_profile_id d = draft_run_profile_id d' /\ draft_settings d = draft_settings d' /\
  draft_robots d = draft_robots d' /\ draft_actor d = draft_actor d' /\
  draft_created_at d = draft_created_at d'.

(** Drafts that a run may be resumed across: whatever decides how it executes is the
    same; who asked, when, and which profile was named are not compared. *)
Definition execution_equivalent (d d' : CrawlRunSnapshotDraft) : Prop :=
  draft_run_type d = draft_run_type d' /\
  same_configuration (draft_configuration d) (draft_configuration d') /\
  draft_selected_seed_ids d = draft_selected_seed_ids d' /\ draft_settings d = draft_settings d' /\
  robots_decision (draft_robots d) = robots_decision (draft_robots d') /\
  affected_scope (draft_robots d) = affected_scope (draft_robots d') /\
  robots_user_agent (draft_robots d) = robots_user_agent (draft_robots d').
End snapshot.

(** * Lemmas *)

(** ** Canonical text *)

(** What may follow a value in canonical text. *)
Definition delim_char (c : ascii) : bool :=
  Ascii.eqb c "," || Ascii.eqb c "]" || Ascii.eqb c "}".
Definition delimited (r : string) : bool :=
  match r with EmptyString => true | String c _ => delim_char c end.

Lemma number_text_inj t : forall t' r r',
  str_contains (fun x => negb (number_char x)) t = false ->
  str_contains (fun x => negb (number_char x)) t' = false ->
  delimited r = true -> delimited r' = true -> (t ++ r = t' ++ r')%string -> t = t' /\ r = r'.
Proof.
  assert (Hstop : forall c t r, number_char c = true -> delimited r = true -> String c t <> r).
  { intros c t0 r Hc Hr <-. revert Hc Hr. simpl. by destruct c as [[] [] [] [] [] [] [] []]. }
  induction t as [|c t IH]; intros [|c' t'] r r'; simpl; intros Ht Ht' Hr Hr' Heq.
  - done.
  - apply orb_false_iff in Ht' as [Hc%negb_false_iff _]. by destruct (Hstop c' (t' ++ r')%string r).
  - apply orb_false_iff in Ht as [Hc%negb_false_iff _]. by destruct (Hstop c (t ++ r)%string r').
  - apply orb_false_iff in Ht as [_ Ht], Ht' as [_ Ht']. injection Heq as -> Heq.
    by destruct (IH t' r r') as [-> ->].
Qed.

(** Text that starts with an ordinary character. *)
Definition opened (s : string) : bool :=
  match s with EmptyString => false | String c _ => negb (delim_char c) end.

Lemma opened_app s t : opened s = true -> opened (s ++ t) = true.
Proof. by destruct s. Qed.

Lemma opened_not_delim c s t : delim_char c = true -> opened s = true -> s <> String c t.
Proof. intros Hc Hs ->. simpl in Hs. by rewrite Hc in Hs. Qed.

Lemma join_items {A} (w : A -> string) x l r :
  (join "," (map w (x :: l)) ++ r)%string
  = (w x ++ match l with [] => r | _ => String "," (join "," (map w l) ++ r) end)%string.
Proof. destruct l; simpl; [done|]. unfold join; simpl. by rewrite !str_app_assoc. Qed.

(** The items of a list between separators, before a closing bracket; [Q] is what
    is known of the items, [R] what equal texts give. *)
Lemma join_inj {A} (w : A -> string) (Q : A -> Prop) (R : A -> A -> Prop) (close : ascii) l :
  delim_char close = true -> close <> ","%char ->
  (forall x, Q x -> opened (w x) = true) ->
  Forall (fun x => Q x /\ forall y r r', Q y -> delimited r = true ->
    delimited r' = true -> (w x ++ r = w y ++ r')%string -> R x y /\ r = r') l ->
  forall l' r r', Forall Q l' ->
  (join "," (map w l) ++ String close r = join "," (map w l') ++ String close r')%string ->
  Forall2 R l l' /\ r = r'.
Proof.
  intros Hclose Hcomma Hopen. induction 1 as [|x l [Hx Hinj] Hl IH]; intros l' r r' Hl' Heq.
  - destruct Hl' as [|y l' Hy Hl']; [by injection Heq as ->|].
    rewrite join_items in Heq. symmetry in Heq. apply opened_not_delim in Heq; [done..|].
    by apply opened_app, Hopen.
  - destruct Hl' as [|y l' Hy Hl']; rewrite join_items in Heq.
    { apply opened_not_delim in Heq; [done..|]. by apply opened_app, Hopen. }
    rewrite join_items in Heq. apply Hinj in Heq as [HR Heq]; [|done|..].
    + destruct Hl as [|x1 l], Hl' as [|y1 l']; simplify_eq.
      * split; [|done]. by repeat constructor.
      * destruct (IH (y1 :: l') r r') as [? ->]; [by constructor|done|]. split; [by constructor|done].
    + by destruct l.
    + by destruct l'.
Qed.

Section canonical.
Context `{J : JsonLib, JL : !JsonLaws J}.

(** The first character of a text tells the kind of the value. *)
Definition kind_of_head (s : string) : nat :=
  match s with
  | EmptyString => 0
  | String c _ =>
    if Ascii.eqb c "n" then 1 else if Ascii.eqb c "t" then 2 else if Ascii.eqb c "f" then 3
    else if Ascii.eqb c "034" then 4 else if Ascii.eqb c "[" then 5 else if Ascii.eqb c "{" then 6
    else if is_ascii_digit (byte_of c) || Ascii.eqb c "-" then 7 else 0
  end.
Definition kind_of (v : Json) : nat :=
  match v with
  | JNull => 1 | JBool true => 2 | JBool false => 3 | JString _ => 4 | JArray _ => 5
  | JObject _ => 6 | JNumber _ => 7
  end.

Lemma write_kind v r :
  json_wf v = true -> kind_of_head (write_canonical_json v ++ r) = kind_of v.
Proof.
  destruct v as [|[]|t|s|l|l]; simpl; try done.
  - destruct t as [|c t]; simpl; [done|]. intros [Hc _]%andb_true_iff.
    revert Hc. by destruct c as [[] [] [] [] [] [] [] []].
  - intros _. by destruct (json_string_quoted s) as [t ->].
Qed.

Lemma write_opened v : json_wf v = true -> opened (write_canonical_json v) = true.
Proof.
  intros Hwf. pose proof (write_kind v EmptyString Hwf) as Hk.
  rewrite str_app_nil_r in Hk. revert Hk. destruct (write_canonical_json v) as [|c t].
  - by destruct v as [|[]| | | |].
  - simpl. destruct (delim_char c) eqn:Hc; [|done]. revert Hc.
    destruct c as [[] [] [] [] [] [] [] []]; try done; by destruct v as [|[]| | | |].
Qed.

Definition entry_text (e : string * Json) : string :=
  (json_string e.1 ++ ":" ++ write_canonical_json e.2)%string.
Definition same_entry (e e' : string * Json) : Prop := e.1 = e'.1 /\ json_equiv e.2 e'.2.

Lemma write_entries l :
  map write_entry (sort_by key_order (map (fun e => (e.1, write_canonical_json e.2)) l))
  = map entry_text (sort_by (key_order (A := Json)) l).
Proof. rewrite (sort_by_map _ key_order); [|done]. by rewrite map_map. Qed.

(** Equal canonical texts come from values that agree up to the order of object
    entries. *)
Lemma write_inj v : forall v' r r',
  json_wf v = true -> json_wf v' = true -> delimited r = true -> delimited r' = true ->
  (write_canonical_json v ++ r = write_canonical_json v' ++ r')%string ->
  json_equiv v v' /\ r = r'.
Proof.
  induction v as [|b|t|s|l IH|l IH] using json_induction; intros v' r r' Hv Hv' Hr Hr' Heq;
    pose proof (f_equal kind_of_head Heq) as Hk; rewrite !write_kind in Hk by done;
    destruct v' as [|b'|t'|s'|l'|l']; try (by destruct b); try (by destruct b'); try done.
  - injection Heq as ->. split; [constructor|done].
  - destruct b, b'; try done; injection Heq as ->; split; [constructor|done|constructor|done].
  - simpl in *. destruct (number_text_inj t t' r r') as [-> ->]; try done; [| |split; [constructor|done]].
    + destruct t; [done|]. apply andb_true_iff in Hv as [_ ?%negb_true_iff]. done.
    + destruct t'; [done|]. apply andb_true_iff in Hv' as [_ ?%negb_true_iff]. done.
  - apply json_string_prefix_free in Heq as [-> ->]. split; [constructor|done].
  - apply json_wf_items in Hv, Hv'. simpl in Heq. rewrite !str_app_assoc in Heq.
    injection Heq as Heq.
    eapply (join_inj _ (fun v => json_wf v = true) json_equiv) in Heq as [HR ->]; try done.
    + split; [by constructor|done].
    + apply write_opened.
    + eapply Forall_impl; [exact (proj2 (Forall_and _ _) (conj IH Hv))|].
      simpl. intros v [IHv Hwf]. split; [done|]. intros y s s' Hy Hs Hs'. by apply IHv.
  - apply json_wf_entries in Hv as [Hnd Hv], Hv' as [Hnd' Hv']. simpl in Heq.
    rewrite !write_entries, !str_app_assoc in Heq. injection Heq as Heq.
    eapply (join_inj _ (fun e => json_wf e.2 = true) same_entry) in Heq as [HR ->]; try done.
    + split; [|done].
      destruct (Permutation_Forall2 (P := same_entry) (sort_by_perm key_order l) HR)
        as (l1 & Hl1 & HR1).
      apply (equiv_object l l1 l'); [done..|]. by rewrite <- Hl1, sort_by_perm.
    + intros e He. unfold entry_text. by destruct (json_string_quoted e.1) as [t ->].
    + rewrite sort_by_perm. eapply Forall_impl; [exact (proj2 (Forall_and _ _) (conj IH Hv))|].
      simpl. intros e [IHe Hwf]. split; [done|]. intros y s s' Hy Hs Hs' He.
      unfold entry_text in He. rewrite !str_app_assoc in He.
      apply json_string_prefix_free in He as [Hk1 He]. injection He as He.
      apply IHe in He as [? ->]; try done.
    + by rewrite sort_by_perm.
Qed.

(** And the order of the entries never shows. *)
Lemma write_equiv v : forall v', json_equiv v v' ->
  write_canonical_json v = write_canonical_json v'.
Proof.
  induction v as [|b|t|s|l IH|l IH] using json_induction; intros v' Hv;
    inversion Hv as [| | | |? l' Hl|? l1 l' Hnd Hl Hp]; subst; simpl; try done.
  - do 3 f_equal. clear Hv. induction Hl as [|x y l l' Hxy Hl IHl]; simpl; [done|].
    apply Forall_cons in IH as [IHx IH]. f_equal; [by apply IHx|by apply IHl].
  - set (g := fun e : string * Json => (e.1, write_canonical_json e.2)).
    assert (map g l = map g l1) as Hg.
    { clear Hp Hnd Hv. induction Hl as [|e e' l l1 [He1 He2] _ IHl]; simpl; [done|].
      apply Forall_cons in IH as [IHe IH]. f_equal; [|by apply IHl].
      unfold g. f_equal; [done|]. by apply IHe. }
    do 4 f_equal. rewrite Hg. apply (sort_by_key_permutation fst String.compare).
    + rewrite <- Hg, map_map. done.
    + by apply Permutation_map.
Qed.

End canonical.

(** ** Fields of equivalent objects *)

Definition json_field (k : string) (v : Json) : option Json :=
  match v with
  | JObject l => snd <$> head (filter (fun e => e.1 = k) l)
  | _ => None
  end.

Lemma json_field_in k l x : json_field k (JObject l) = Some x -> (k, x) ∈ l.
Proof.
  simpl. intros H. destruct (filter _ l) as [|[k' y] f] eqn:Hf; [done|]. injection H as ->.
  assert ((k', x) ∈ filter (fun e : string * Json => e.1 = k) l) as Hin by (rewrite Hf; left).
  by apply list_elem_of_filter in Hin as [<- Hin].
Qed.

Lemma equiv_field k v v' x x' :
  json_equiv v v' -> json_field k v = Some x -> json_field k v' = Some x' -> json_equiv x x'.
Proof.
  destruct 1 as [| | | | |l l1 l' Hnd Hl Hp]; try done.
  intros Hx%json_field_in Hx'%json_field_in. rewrite <- Hp in Hx'.
  apply list_elem_of_lookup in Hx' as [i Hi].
  destruct (Forall2_lookup_r _ _ _ _ _ Hl Hi) as ([k0 y] & Hy & Hk & Hyx). simpl in *. subst k0.
  apply list_elem_of_lookup_2 in Hy.
  by pose proof (NoDup_map_inj fst l (k, x) (k, y) Hnd Hx Hy eq_refl) as [= ->].
Qed.

(** Encodings whose equivalent values have [R]-related arguments. *)
Class JsonInj {A} (f : A -> Json) (R : A -> A -> Prop) : Prop :=
  json_inj : forall a b, json_equiv (f a) (f b) -> R a b.

#[export] Instance string_json_inj : JsonInj JString eq.
Proof. intros a b H. by inversion H. Qed.
#[export] Instance bool_json_inj : JsonInj JBool eq.
Proof. intros a b H. by inversion H. Qed.
#[export] Instance number_json_inj : JsonInj number_json eq.
Proof. intros a b H. inversion H as [| |t Ht Hb| | |]. by simplify_eq. Qed.
#[export] Instance source_json_inj : JsonInj source_json eq.
Proof. intros a b H. inversion H. by destruct a, b. Qed.
#[export] Instance run_type_json_inj : JsonInj run_type_json eq.
Proof. intros a b H. inversion H. by destruct a, b. Qed.
#[export] Instance id_json_inj `{U : UuidLib, UL : !UuidLaws U} k : JsonInj (id_json (k := k)) eq.
Proof.
  intros [a] [b] H. inversion H as [| | |s Hs Hb| |]. f_equal.
  unfold id_to_string in *. simpl in *. by apply uuid_to_string_inj.
Qed.
#[export] Instance option_json_inj {A} (f : A -> Json) :
  (forall a, f a <> JNull) -> JsonInj f eq -> JsonInj (option_json f) eq.
Proof.
  intros Hnull Hf [a|] [b|]; simpl; intros H; [f_equal; by apply Hf| | |done].
  - inversion H as [H1|H1|H1|H1|H1|H1]; congruence.
  - inversion H; congruence.
Qed.
#[export] Instance array_json_inj {A} (f : A -> Json) :
  JsonInj f eq -> JsonInj (fun l => JArray (map f l)) eq.
Proof.
  intros Hf l l' H. inversion H as [| | | |k k' Hk|]; subst. clear H.
  revert l' Hk. induction l as [|x l IH]; intros [|y l'] Hk; inversion Hk; subst; [done|].
  f_equal; [by apply Hf|by apply IH].
Qed.

Lemma field_inj {A} (f : A -> Json) R `{!JsonInj f R} k v v' a b :
  json_equiv v v' -> json_field k v = Some (f a) -> json_field k v' = Some (f b) -> R a b.
Proof. intros H Ha Hb. by apply json_inj, (equiv_field k v v'). Qed.

#[export] Instance resolved_json_inj {T} (f : T -> Json) :
  JsonInj f eq -> JsonInj (resolved_json f) eq.
Proof.
  intros Hf [v s] [v' s'] H. f_equal.
  - by apply (field_inj f eq "value" _ _ v v' H).
  - by apply (field_inj source_json eq "source" _ _ s s' H).
Qed.

#[export] Instance settings_json_inj : JsonInj settings_json eq.
Proof.
  intros s s' H. destruct s, s'. f_equal.
  - by apply (field_inj (resolved_json number_json) eq "max_pages" _ _ _ _ H).
  - by apply (field_inj (resolved_json number_json) eq "max_depth" _ _ _ _ H).
  - by apply (field_inj (resolved_json number_json) eq "max_duration_seconds" _ _ _ _ H).
  - by apply (field_inj (resolved_json number_json) eq "concurrency" _ _ _ _ H).
  - by apply (field_inj (resolved_json number_json) eq "request_delay_ms" _ _ _ _ H).
  - by apply (field_inj (resolved_json number_json) eq "timeout_ms" _ _ _ _ H).
  - by apply (field_inj (resolved_json JBool) eq "screenshot" _ _ _ _ H).
  - by apply (field_inj (resolved_json number_json) eq "asset_download_limit_bytes" _ _ _ _ H).
  - by apply (field_inj (resolved_json JBool) eq "retain_artifacts" _ _ _ _ H).
  - by apply (field_inj (resolved_json JString) eq "user_agent" _ _ _ _ H).
Qed.

#[export] Instance decision_json_inj : JsonInj decision_json eq.
Proof.
  intros [|r] [|r'] H; [done| | |].
  - by pose proof (field_inj JString eq "decision" _ _ _ _ H eq_refl eq_refl).
  - by pose proof (field_inj JString eq "decision" _ _ _ _ H eq_refl eq_refl).
  - f_equal. by apply (field_inj JString eq "reason" _ _ _ _ H).
Qed.

Section draft_inj.
Context `{U : UuidLib, UL : !UuidLaws U} `{L : UrlLib, LL : !UrlLaws L}.

#[export] Instance url_json_inj : JsonInj (fun u => JString (url_as_str u)) eq.
Proof.
  intros u u' H. inversion H as [| | |s Hs Heq| |]. pose proof (url_parse_as_str u) as Hu.
  rewrite Heq, url_parse_as_str in Hu. congruence.
Qed.

#[export] Instance configuration_json_inj : JsonInj configuration_json same_configuration.
Proof.
  intros [c v h|u o] [c' v' h'|u' o'] H; simpl.
  - split_and!.
    + by apply (field_inj id_json eq "crawler_id" _ _ _ _ H).
    + by apply (field_inj id_json eq "crawler_version_id" _ _ _ _ H).
    + by apply (field_inj JString eq "semantic_config_hash" _ _ _ _ H).
  - by pose proof (field_inj JString eq "kind" _ _ _ _ H eq_refl eq_refl).
  - by pose proof (field_inj JString eq "kind" _ _ _ _ H eq_refl eq_refl).
  - split.
    + by apply (field_inj (fun u => JString (url_as_str u)) eq "target_url" _ _ _ _ H).
    + by apply (equiv_field "ad_hoc_configuration" _ _ _ _ H).
Qed.

#[export] Instance option_id_json_inj k : JsonInj (option_json (id_json (k := k))) eq.
Proof. by apply option_json_inj; [|apply _]. Qed.

#[export] Instance audit_json_inj : JsonInj audit_json eq.
Proof.
  intros a a' H. destruct a, a'. f_equal.
  - by apply (field_inj decision_json eq "decision" _ _ _ _ H).
  - by apply (field_inj JString eq "actor" _ _ _ _ H).
  - by apply (field_inj JString eq "decided_at" _ _ _ _ H).
  - by apply (field_inj JString eq "affected_scope" _ _ _ _ H).
  - by apply (field_inj JString eq "user_agent" _ _ _ _ H).
  - by apply (field_inj (option_json id_json) eq "crawler_version_id" _ _ _ _ H).
Qed.

Lemma draft_json_inj : JsonInj draft_json same_draft.
Proof.
  intros d d' H. destruct d, d'. unfold same_draft; simpl. split_and!.
  - by apply (field_inj run_type_json eq "run_type" _ _ _ _ H).
  - by apply (field_inj configuration_json same_configuration "configuration" _ _ _ _ H).
  - by apply (field_inj (fun l => JArray (map id_json l)) eq "selected_seed_ids" _ _ _ _ H).
  - by apply (field_inj (option_json id_json) eq "run_profile_id" _ _ _ _ H).
  - by apply (field_inj settings_json eq "settings" _ _ _ _ H).
  - by apply (field_inj audit_json eq "robots" _ _ _ _ H).
  - by apply (field_inj JString eq "actor" _ _ _ _ H).
  - by apply (field_inj JString eq "created_at" _ _ _ _ H).
Qed.

Lemma compatibility_json_inj : JsonInj compatibility_json execution_equivalent.
Proof.
  intros d d' H. unfold execution_equivalent. split_and!.
  - by apply (field_inj run_type_json eq "run_type" _ _ _ _ H).
  - by apply (field_inj configuration_json same_configuration "configuration" _ _ _ _ H).
  - by apply (field_inj (fun l => JArray (map id_json l)) eq "selected_seed_ids" _ _ _ _ H).
  - by apply (field_inj settings_json eq "settings" _ _ _ _ H).
  - by apply (field_inj decision_json eq "robots_decision" _ _ _ _ H).
  - by apply (field_inj JString eq "robots_scope" _ _ _ _ H).
  - by apply (field_inj JString eq "user_agent" _ _ _ _ H).
Qed.
End draft_inj.

(** ** Hashes *)

Lemma hex_digit_value n : 0 <= n < 16 -> is_ascii_hexdigit (byte_of (hex_digit n)) = true /\
  (byte_of (hex_digit n) < 128) /\ forall m, 0 <= m < 16 -> hex_digit n = hex_digit m -> n = m.
Proof.
  intros Hn. assert (Hall : forall k, 0 <= k < 16 -> k ∈ seqZ 0 16).
  { intros k Hk. apply elem_of_seqZ. lia. }
  pose proof (Hall n Hn) as H. clear Hn. vm_compute in H.
  repeat (apply elem_of_cons in H as [->|H]; [split_and!; [done|done|]|]); [..|by inversion H];
    intros m Hm; apply Hall in Hm; vm_compute in Hm;
    repeat (apply elem_of_cons in Hm as [->|Hm]; [done|]); by inversion Hm.
Qed.

Lemma u8_nibbles b : in_u8 b -> 0 <= Z.shiftr b 4 < 16 /\ 0 <= Z.land b 15 < 16 /\
  b = Z.shiftr b 4 * 16 + Z.land b 15.
Proof.
  unfold in_u8, u8_max. intros Hb. rewrite Z.shiftr_div_pow2 by done.
  change 15 with (Z.ones 4). rewrite Z.land_ones by done. change (2 ^ 4) with 16.
  split_and!; Z.div_mod_to_equations; lia.
Qed.

Lemma hex_encode_inj l : forall l', Forall in_u8 l -> Forall in_u8 l' ->
  hex_encode l = hex_encode l' -> l = l'.
Proof.
  induction l as [|b l IH]; intros [|b' l'] Hl Hl'; simpl; try done. intros [= H1 H2 H3].
  apply Forall_cons in Hl as [Hb Hl], Hl' as [Hb' Hl'].
  apply u8_nibbles in Hb as (Hh & Hlo & ->), Hb' as (Hh' & Hlo' & ->).
  apply hex_digit_value in H1, H2; [|done..]. rewrite H1, H2. f_equal. by apply IH.
Qed.

Lemma hex_encode_length l : str_len (hex_encode l) = (2 * length l)%nat.
Proof. unfold str_len. induction l as [|b l IH]; simpl; [done|]. rewrite IH. lia. Qed.

Lemma hex_encode_digits l : Forall in_u8 l -> forallb is_ascii_hexdigit (chars (hex_encode l)) = true.
Proof.
  induction 1 as [|b l Hb Hl IH]; [done|]. apply u8_nibbles in Hb as (Hh & Hlo & _).
  apply hex_digit_value in Hh as (Hx & Hx' & _), Hlo as (Hy & Hy' & _).
  cbn [hex_encode chars]. apply Z.ltb_lt in Hx', Hy'. rewrite Hx', Hy'. simpl. by rewrite Hx, Hy, IH.
Qed.

(** Two texts on which the digest fails to be collision free. *)
Definition collision `{HashLib} (a b : string) : Prop := a <> b /\ sha256 a = sha256 b.

Section hashes.
Context `{J : JsonLib, JL : !JsonLaws J} `{Hash : HashLib, HL : !HashLaws Hash}.

Lemma canonical_sha256_shape v : hash_malformed (canonical_sha256 v) = false.
Proof.
  unfold hash_malformed, canonical_sha256.
  by rewrite hex_encode_length, sha256_length, hex_encode_digits by apply sha256_bytes.
Qed.

Lemma canonical_sha256_inj v v' :
  json_wf v = true -> json_wf v' = true -> canonical_sha256 v = canonical_sha256 v' ->
  json_equiv v v' \/ collision (write_canonical_json v) (write_canonical_json v').
Proof.
  intros Hv Hv' H. apply hex_encode_inj in H; [|apply sha256_bytes..].
  destruct (decide (write_canonical_json v = write_canonical_json v')) as [He|]; [left|by right].
  eapply (write_inj v v' EmptyString EmptyString); [done..|]. by rewrite !str_app_nil_r.
Qed.
End hashes.

(** ** The serialised forms are well-formed *)

Lemma option_json_wf {A} (f : A -> Json) o :
  (forall a, json_wf (f a) = true) -> json_wf (option_json f o) = true.
Proof. destruct o; simpl; auto. Qed.

Lemma resolved_json_wf {T} (f : T -> Json) r :
  (forall t, json_wf (f t) = true) -> json_wf (resolved_json f r) = true.
Proof. intros H. json_object; [apply H|done]. Qed.

Lemma settings_json_wf s : json_wf (settings_json s) = true.
Proof. json_object; apply resolved_json_wf; try done; intros; apply pretty_Z_text. Qed.

Lemma decision_json_wf d : json_wf (decision_json d) = true.
Proof. by destruct d. Qed.

Section wf.
Context `{U : UuidLib} `{L : UrlLib}.

(** The ad-hoc configuration holds well-formed JSON. *)
Definition ad_hoc_wf (c : RunConfiguration) : bool :=
  match c with ConfQuickScrape _ ad_hoc => json_wf (JObject ad_hoc) | _ => true end.

Lemma configuration_json_wf c : ad_hoc_wf c = true -> json_wf (configuration_json c) = true.
Proof. destruct c; intros H; json_object; done. Qed.

Lemma audit_json_wf a : json_wf (audit_json a) = true.
Proof. json_object; try done; [apply decision_json_wf|by apply option_json_wf]. Qed.

Lemma draft_json_wf d : ad_hoc_wf (draft_configuration d) = true -> json_wf (draft_json d) = true.
Proof.
  intros H. json_object; try done.
  - by apply configuration_json_wf.
  - by apply array_json_wf.
  - by apply option_json_wf.
  - apply settings_json_wf.
  - apply audit_json_wf.
Qed.

Lemma compatibility_json_wf d :
  ad_hoc_wf (draft_configuration d) = true -> json_wf (compatibility_json d) = true.
Proof.
  intros H. json_object; try done.
  - by apply configuration_json_wf.
  - by apply array_json_wf.
  - apply settings_json_wf.
  - apply decision_json_wf.
Qed.

Lemma configuration_json_equiv c c' :
  ad_hoc_wf c = true -> same_configuration c c' ->
  json_equiv (configuration_json c) (configuration_json c').
Proof.
  intros Hwf Hc. pose proof (configuration_json_wf c Hwf) as Hj.
  destruct c as [i v h|u o], c' as [i' v' h'|u' o']; try done.
  - destruct Hc as (-> & -> & ->). by apply json_equiv_refl.
  - destruct Hc as [-> Ho]. apply json_wf_entries in Hj as [Hnd Hj].
    eapply equiv_object; [exact Hnd| |done].
    repeat (apply Forall2_cons; split); try done; split; try done; apply equiv_string.
Qed.

Lemma compatibility_json_equiv d d' :
  ad_hoc_wf (draft_configuration d) = true -> execution_equivalent d d' ->
  json_equiv (compatibility_json d) (compatibility_json d').
Proof.
  intros Hwf (Ht & Hc & Hs & He & Hr & Hsc & Hu).
  pose proof (compatibility_json_wf d Hwf) as Hd. unfold compatibility_json in *.
  rewrite <- Ht, <- Hs, <- He, <- Hr, <- Hsc, <- Hu. apply json_wf_entries in Hd as [Hnd Hd].
  eapply equiv_object; [done| |done]. repeat (apply Forall_cons in Hd as [? Hd]).
  repeat (apply Forall2_cons; split); try done; try (split; [done|by apply json_equiv_refl]).
  split; [done|]. by apply configuration_json_equiv.
Qed.
End wf.

(** ** Validation *)

Lemma require_non_empty_ok label v u : require_non_empty label v = Ok u <-> blank v = false.
Proof. apply reject_if_ok. Qed.

Section validation.
Context `{U : UuidLib} `{L : UrlLib} `{J : JsonLib} `{Hash : HashLib}.

Lemma audit_validate_ok a u : audit_validate a = Ok u <-> audit_well_formed a.
Proof.
  unfold audit_validate, require_non_empty. rewrite !reject_then_ok. split.
  - intros (Ha & Ht & Hs & Hu & Hr). split; try done. intros reason Hd. rewrite Hd in Hr.
    rewrite reject_then_ok, reject_if_ok in Hr. destruct Hr as [? Hr%Nat.ltb_ge]. by split.
  - intros [Ha Ht Hs Hu Hr]. split_and!; try done. destruct u, (robots_decision a) as [|reason]; [done|].
    rewrite reject_then_ok, reject_if_ok, Nat.ltb_ge. by apply Hr.
Qed.

Lemma validate_draft_ok d u : validate_draft d = Ok u <-> draft_well_formed d.
Proof.
  unfold validate_draft. unfold require_non_empty at 1 2 3. rewrite !reject_then_ok, bind_ok.
  setoid_rewrite audit_validate_ok. setoid_rewrite reject_then_ok.
  setoid_rewrite negb_false_iff. setoid_rewrite String.eqb_eq. split.
  - intros (Ha & Ht & Hg & (_ & Hw & He & Hc)). split; try done.
    destruct (draft_run_type d), (draft_configuration d); try done;
      rewrite ?reject_then_ok, ?reject_if_ok, ?bool_decide_eq_false in Hc;
      split_and!; try done; (apply eq_None_not_Some; tauto) || (apply dec_stable; tauto) || tauto.
  - intros [Ha Ht Hw He Hc]. split_and!; try done.
    { rewrite He. apply Hw. }
    exists tt. split_and!; try done. destruct u.
    destruct (draft_configuration d); destruct (draft_run_type d); destruct_and?; try done;
      rewrite ?reject_then_ok, ?reject_if_ok, ?bool_decide_eq_false; split_and?; try tauto;
      rewrite eq_None_not_Some in *; tauto.
Qed.

Lemma snapshot_new_ok d s :
  snapshot_new d = Ok s <->
  draft_well_formed d /\ s = {| snapshot_draft := d; snapshot_hash := canonical_sha256 (draft_json d);
    checkpoint_compatibility_hash := canonical_sha256 (compatibility_json d) |}.
Proof.
  unfold snapshot_new. rewrite bind_ok. setoid_rewrite validate_draft_ok. split.
  - by intros (_ & ? & [= <-]).
  - intros [? ->]. by exists tt.
Qed.

Lemma rehydrate_ok d h c s :
  rehydrate d h c = Ok s <->
  snapshot_new d = Ok s /\ h = snapshot_hash s /\ c = checkpoint_compatibility_hash s.
Proof.
  unfold rehydrate. rewrite bind_ok. split.
  - intros (s0 & Hs & H). rewrite !reject_then_ok, !negb_false_iff, !String.eqb_eq in H.
    by destruct H as (<- & <- & [= <-]).
  - intros (Hs & -> & ->). exists s. by rewrite !String.eqb_refl.
Qed.
End validation.

(** * Properties *)

Section properties.
Context `{J : JsonLib, JL : !JsonLaws J} `{Hash : HashLib, HL : !HashLaws Hash}.

(** Canonical JSON is a normal form: two values are written as the same text
    exactly when they agree up to the order of object entries, at any depth. *)
Theorem canonical_text_iff v v' :
  json_wf v = true -> json_wf v' = true ->
  write_canonical_json v = write_canonical_json v' <-> json_equiv v v'.
Proof.
  intros Hv Hv'. split; [|apply write_equiv]. intros H.
  eapply (write_inj v v' EmptyString EmptyString); [done..|]. by rewrite H.
Qed.

Context `{U : UuidLib, UL : !UuidLaws U} `{L : UrlLib, LL : !UrlLaws L}.

(** A snapshot is frozen exactly from a draft with complete audit context, the
    user agent its audit names and the configuration its run type calls for; both of
    its hashes are then SHA-256 values in hexadecimal. *)
Theorem snapshot_new_spec d :
  (is_ok (snapshot_new d) = true <-> draft_well_formed d) /\
  forall s, snapshot_new d = Ok s -> snapshot_draft s = d /\
    hash_malformed (snapshot_hash s) = false /\
    hash_malformed (checkpoint_compatibility_hash s) = false.
Proof.
  split.
  - split.
    + intros [s [? _]%snapshot_new_ok]%is_ok_exists. done.
    + intros H. by rewrite (proj2 (snapshot_new_ok d _) (conj H eq_refl)).
  - intros s [_ ->]%snapshot_new_ok. simpl. split_and!; [done|apply canonical_sha256_shape..].
Qed.

(** C39. A stored snapshot comes back as it was frozen, and is tamper evident: any
    draft that is accepted under the stored hash is the frozen draft, or else two
    texts on which SHA-256 collides have been found. *)
Theorem rehydrate_tamper_evident d s :
  snapshot_new d = Ok s -> ad_hoc_wf (draft_configuration d) = true ->
  rehydrate d (snapshot_hash s) (checkpoint_compatibility_hash s) = Ok s /\
  forall d' c s', rehydrate d' (snapshot_hash s) c = Ok s' ->
    ad_hoc_wf (draft_configuration d') = true ->
    same_draft d d' \/
    collision (write_canonical_json (draft_json d)) (write_canonical_json (draft_json d')).
Proof.
  intros Hs Hd. split; [by apply rehydrate_ok|].
  intros d' c s' (Hs' & Hh & _)%rehydrate_ok Hd'.
  apply snapshot_new_ok in Hs as [_ ->], Hs' as [_ ->]. simpl in Hh.
  destruct (canonical_sha256_inj _ _ (draft_json_wf d Hd) (draft_json_wf d' Hd') Hh); [left|by right].
  by apply draft_json_inj.
Qed.

(** The checkpoint compatibility hash compares exactly what decides execution:
    drafts that execute alike have the same hash whoever froze them, when, and under
    whichever profile; drafts with the same hash execute alike, or SHA-256 collides. *)
Theorem compatibility_hash_iff d d' s s' :
  snapshot_new d = Ok s -> snapshot_new d' = Ok s' ->
  ad_hoc_wf (draft_configuration d) = true -> ad_hoc_wf (draft_configuration d') = true ->
  (execution_equivalent d d' ->
    checkpoint_compatibility_hash s = checkpoint_compatibility_hash s') /\
  (checkpoint_compatibility_hash s = checkpoint_compatibility_hash s' ->
    execution_equivalent d d' \/
    collision (write_canonical_json (compatibility_json d))
      (write_canonical_json (compatibility_json d'))).
Proof.
  intros [_ ->]%snapshot_new_ok [_ ->]%snapshot_new_ok Hd Hd'. simpl.
  split; intros H.
  - unfold canonical_sha256. do 2 f_equal. apply write_equiv. by apply compatibility_json_equiv.
  - destruct (canonical_sha256_inj _ _ (compatibility_json_wf d Hd) (compatibility_json_wf d' Hd') H);
      [left|by right]. by apply compatibility_json_inj.
Qed.
End properties.

(** ** Witnesses *)

Definition example_value {T} (v : T) : ResolvedValue T := Build_ResolvedValue v GlobalSetting.

Definition example_settings : SnapshotOperationalSettings := {|
  set_max_pages := example_value 500; set_max_depth := example_value 5;
  set_max_duration_seconds := example_value 3600; set_concurrency := example_value 5;
  set_request_delay_ms := example_value 0; set_timeout_ms := example_value 30000;
  set_screenshot := example_value false; set_asset_download_limit_bytes := example_value 1048576;
  set_retain_artifacts := example_value true; set_user_agent := example_value "Erabi"%string |}.

(** A production run of a published version, frozen by [actor]. *)
Definition example_draft (actor : string) : CrawlRunSnapshotDraft (U := plain_uuid) (L := plain_url) := {|
  draft_run_type := ProductionRun;
  draft_configuration := ConfCrawlerVersion (new_id 0) (new_id 1)
    "0123456789abcdef0123456789abcdef0123456789abcdef0123456789abcdef";
  draft_selected_seed_ids := [new_id 2];
  draft_run_profile_id := None;
  draft_settings := example_settings;
  draft_robots := respect actor "2026-01-01T00:00:00Z" "example.com" "Erabi" (Some (new_id 1));
  draft_actor := actor;
  draft_created_at := "2026-01-01T00:00:00Z" |}.

Lemma example_draft_wf actor : blank actor = false -> draft_well_formed (example_draft actor).
Proof. intros H. split; [exact H|done| |done|by split]. split; [exact H|done|done|done|done]. Qed.

Lemma example_snapshot_new actor : blank actor = false ->
  snapshot_new (example_draft actor) = Ok {| snapshot_draft := example_draft actor;
    snapshot_hash := canonical_sha256 (draft_json (example_draft actor));
    checkpoint_compatibility_hash := canonical_sha256 (compatibility_json (example_draft actor)) |}.
Proof. intros H. apply snapshot_new_ok. split; [by apply example_draft_wf|done]. Qed.

Definition example_object (swap : bool) : Json :=
  JObject (if swap then [("b"%string, JNull); ("a"%string, JNumber "1")]
           else [("a"%string, JNumber "1"); ("b"%string, JNull)]).

Lemma canonical_text_iff_witness :
  json_equiv (example_object false) (example_object true).
Proof. apply canonical_text_iff; reflexivity. Defined.

Lemma snapshot_new_spec_witness : is_ok (snapshot_new (example_draft "operator")) = true.
Proof. apply snapshot_new_spec. by apply example_draft_wf. Defined.

Lemma rehydrate_tamper_evident_witness : exists s, snapshot_new (example_draft "operator") = Ok s /\
  rehydrate (example_draft "operator") (snapshot_hash s) (checkpoint_compatibility_hash s) = Ok s.
Proof.
  eexists. split; [by apply example_snapshot_new|].
  eapply rehydrate_tamper_evident; [by apply example_snapshot_new|reflexivity].
Defined.

Lemma compatibility_hash_iff_witness : exists s s', snapshot_new (example_draft "operator") = Ok s /\
  snapshot_new (example_draft "scheduler") = Ok s' /\
  checkpoint_compatibility_hash s = checkpoint_compatibility_hash s'.
Proof.
  eexists _, _. split; [by apply example_snapshot_new|]. split; [by apply example_snapshot_new|].
  eapply compatibility_hash_iff; [by apply example_snapshot_new|by apply example_snapshot_new
    |reflexivity|reflexivity|]. done.
Defined.
