(* ===== verification/Pacing.v ===== *)
(** * Origin pacing

    [crates/erabi-crawler/src/pacing.rs]: every request to an origin passes one
    process-wide admission state: a concurrency limit (the least of the live
    registrations), a delay between requests, and the back-off a rate-limited answer
    asks for.  The [Arc]s are addresses into a store, and each critical section is one
    step; instants and durations are counted in nanoseconds. *)

From S2P Require Import Prelude Externals Base Instances Settings Snapshot NetworkPolicy.

(** ** Time *)

Definition from_secs (s : Z) : Z := s * 10 ^ 9.
Definition from_millis (ms : Z) : Z := ms * 10 ^ 6.

(** [Duration::MAX]. *)
Definition duration_max : Z := from_secs u64_max + (10 ^ 9 - 1).

Definition MAX_PACING_DELAY : Z := from_secs 300.
Definition RATE_LIMIT_BACKOFF_BASE : Z := from_secs 1.
Definition MAX_RATE_LIMIT_BACKOFF : Z := from_secs 60.
Definition MAX_ORIGIN_PACING_STATES : nat := 1024.

(** ** Origins *)

Record OriginKey := { ok_scheme : string; ok_host : string; ok_port : Z }.

#[export] Instance origin_key_eq_dec : EqDecision OriginKey.
Proof. solve_decision. Defined.
#[export] Instance origin_key_countable : Countable OriginKey.
Proof.
  apply (inj_countable' (fun o => (ok_scheme o, ok_host o, ok_port o))
    (fun t => Build_OriginKey t.1.1 t.1.2 t.2)). by intros [].
Defined.

(** The derived order, which the registry's [BTreeMap] iterates in. *)
Definition origin_cmp : OriginKey -> OriginKey -> comparison :=
  cmp_on (fun o => (ok_scheme o, ok_host o, ok_port o))
    (cmp_pair (cmp_pair String.compare String.compare) Z.compare).

Inductive OriginKeyError := UnsupportedScheme | MissingHost | MissingEffectivePort.

Definition origin_from_url `{L : UrlLib, !UrlHostLib} (u : url) : result OriginKeyError OriginKey :=
  let? _ := reject_if (negb (http_or_https (url_scheme u))) UnsupportedScheme in
  let? host := ok_or MissingHost (url_host_str u) in
  let? port := ok_or MissingEffectivePort (url_port_or_known_default u) in
  let? _ := reject_if (port =? 0) MissingEffectivePort in
  Ok {| ok_scheme := to_ascii_lowercase (url_scheme u); ok_host := to_ascii_lowercase host;
        ok_port := port |}.

(** [impl fmt::Display for OriginKey]; the argument renders the port. *)
Definition origin_display (render : Z -> string) (o : OriginKey) : string :=
  let host := if contains_ch ":" (ok_host o) then ("[" ++ ok_host o ++ "]")%string else ok_host o in
  (ok_scheme o ++ "://" ++ host ++ ":" ++ render (ok_port o))%string.

(** ** Retry-After *)

Inductive RetryAfterTiming :=
| Absent
| Honored (delay : Z)
| Clamped (delay : Z)
| Invalid.

Definition retry_from_duration (duration : Z) : RetryAfterTiming :=
  if MAX_PACING_DELAY <? duration then Clamped MAX_PACING_DELAY else Honored duration.

Definition from_provider_millis (value : option Z) : RetryAfterTiming :=
  match value with
  | None => Absent
  | Some milliseconds => retry_from_duration (from_millis milliseconds)
  end.

(** [httpdate::parse_http_date]: nanoseconds since the epoch. *)
Class HttpDateLib := { parse_http_date : string -> option Z }.

Definition from_http_header `{HttpDateLib} (value : string) (now : Z) : RetryAfterTiming :=
  let value := trim value in
  if str_is_empty value then Invalid
  else match parse_unsigned u64_max value with
  | Some seconds => retry_from_duration (from_secs seconds)
  | None =>
    match parse_http_date value with
    | None => Invalid
    | Some deadline => if deadline <? now then Invalid else retry_from_duration (deadline - now)
    end
  end.

Definition retry_delay (t : RetryAfterTiming) : option Z :=
  match t with Honored d | Clamped d => Some d | Absent | Invalid => None end.

(** ** Outcomes, errors and configuration *)

Inductive PacingOutcome :=
| OutcomeSuccess
| OutcomeFailed
| RateLimited (retry_after : RetryAfterTiming).

(** [CrawlerAdapterError] of [adapter.rs]. *)
Inductive CrawlerAdapterError :=
| AdapterUnavailable | AdapterTimeout | AdapterAccessDenied | AdapterNotFound
| AdapterRateLimited (retry_after_ms : option Z)
| AdapterRemoteFailure (status_code : option Z)
| AdapterUnsupportedCapability | AdapterInvalidProviderResponse | AdapterCancelled.

Definition from_adapter_error (error : CrawlerAdapterError) : PacingOutcome :=
  match error with
  | AdapterRateLimited retry_after_ms => RateLimited (from_provider_millis retry_after_ms)
  | _ => OutcomeFailed
  end.

Inductive AdmissionError :=
| RobotsDisallowed | AdmissionCancelled | InvalidConcurrency | RequestDelayTooLarge
| RobotsOriginMismatch | RegistrationReleased | OriginCapacityExhausted
| RegistrationIdExhausted | ClockOverflow.

Record ResolvedPacingConfiguration := { conf_concurrency : Z; conf_request_delay : Z }.

Definition from_snapshot `{UuidLib} `{UrlLib} (snapshot : CrawlRunSnapshot)
    : result AdmissionError ResolvedPacingConfiguration :=
  let settings := draft_settings (snapshot_draft snapshot) in
  let concurrency := resolved_value (set_concurrency settings) in
  let? _ := reject_if (concurrency =? 0) InvalidConcurrency in
  let request_delay := from_millis (resolved_value (set_request_delay_ms settings)) in
  let? _ := reject_if (MAX_PACING_DELAY <? request_delay) RequestDelayTooLarge in
  Ok {| conf_concurrency := concurrency; conf_request_delay := request_delay |}.

(** The admission material robots evaluation produces ([RobotsAdmission] of
    [robots.rs], without its evidence). *)
Inductive RobotsAdmissionDecision := Allowed | Disallowed | Overridden.
Record RobotsAdmission := {
  admission_origin : OriginKey;
  admission_decision : RobotsAdmissionDecision;
  admission_crawl_delay : option Z
}.

(** ** The state of an origin *)

Record OriginPacingState := {
  in_flight : Z;
  registrations : gmap Z Z;
  waiting_admissions : Z;
  next_request_at : option Z;
  backoff_until : option Z;
  retry_after_until : option Z;
  consecutive_rate_limits : Z
}.

(** [OriginPacingState::default()]. *)
Definition origin_default : OriginPacingState :=
  {| in_flight := 0; registrations := ∅; waiting_admissions := 0; next_request_at := None;
     backoff_until := None; retry_after_until := None; consecutive_rate_limits := 0 |}.

Definition set_registrations (m : gmap Z Z) (s : OriginPacingState) : OriginPacingState :=
  {| in_flight := in_flight s; registrations := m; waiting_admissions := waiting_admissions s;
     next_request_at := next_request_at s; backoff_until := backoff_until s;
     retry_after_until := retry_after_until s; consecutive_rate_limits := consecutive_rate_limits s |}.
Definition set_in_flight (n : Z) (s : OriginPacingState) : OriginPacingState :=
  {| in_flight := n; registrations := registrations s; waiting_admissions := waiting_admissions s;
     next_request_at := next_request_at s; backoff_until := backoff_until s;
     retry_after_until := retry_after_until s; consecutive_rate_limits := consecutive_rate_limits s |}.
Definition set_waiting (n : Z) (s : OriginPacingState) : OriginPacingState :=
  {| in_flight := in_flight s; registrations := registrations s; waiting_admissions := n;
     next_request_at := next_request_at s; backoff_until := backoff_until s;
     retry_after_until := retry_after_until s; consecutive_rate_limits := consecutive_rate_limits s |}.
Definition set_deadlines (next backoff retry : option Z) (s : OriginPacingState) : OriginPacingState :=
  {| in_flight := in_flight s; registrations := registrations s;
     waiting_admissions := waiting_admissions s; next_request_at := next; backoff_until := backoff;
     retry_after_until := retry; consecutive_rate_limits := consecutive_rate_limits s |}.
Definition set_rate_limits (n : Z) (s : OriginPacingState) : OriginPacingState :=
  {| in_flight := in_flight s; registrations := registrations s;
     waiting_admissions := waiting_admissions s; next_request_at := next_request_at s;
     backoff_until := backoff_until s; retry_after_until := retry_after_until s;
     consecutive_rate_limits := n |}.

Definition effective_concurrency (s : OriginPacingState) : option Z :=
  min_by Z.compare (map snd (map_to_list (registrations s))).

Definition expire (now : Z) (deadline : option Z) : option Z :=
  match deadline with Some d => if d <=? now then None else Some d | None => None end.

Definition normalize_expired_safety (now : Z) (s : OriginPacingState) : OriginPacingState :=
  set_deadlines (expire now (next_request_at s)) (expire now (backoff_until s))
    (expire now (retry_after_until s)) s.

(** The predicate also normalises the state it looks at. *)
Definition is_safe_to_retire (now : Z) (s : OriginPacingState) : OriginPacingState * bool :=
  let s := normalize_expired_safety now s in
  (s, bool_decide (registrations s = ∅) && (in_flight s =? 0) && (waiting_admissions s =? 0)
      && bool_decide (next_request_at s = None) && bool_decide (backoff_until s = None)
      && bool_decide (retry_after_until s = None)).

Definition add_registration (id concurrency : Z) (s : OriginPacingState) : OriginPacingState :=
  set_registrations (<[id := concurrency]> (registrations s)) s.
Definition release_registration (id : Z) (s : OriginPacingState) : OriginPacingState :=
  set_registrations (delete id (registrations s)) s.
Definition register_waiter (s : OriginPacingState) : OriginPacingState :=
  set_waiting (saturating_add u32_max (waiting_admissions s) 1) s.
Definition release_waiter (s : OriginPacingState) : OriginPacingState :=
  set_waiting (saturating_sub (waiting_admissions s) 1) s.
Definition release (s : OriginPacingState) : OriginPacingState :=
  set_in_flight (saturating_sub (in_flight s) 1) s.

(** [[...].into_iter().flatten().max()]. *)
Definition latest_deadline (s : OriginPacingState) : option Z :=
  max_by Z.compare (omap id [next_request_at s; backoff_until s; retry_after_until s]).

Definition later_deadline (current : option Z) (candidate : Z) : Z :=
  match current with Some current => Z.max current candidate | None => candidate end.

(** [1_u32.checked_shl(e)] and [Duration::checked_mul]. *)
Definition checked_shl_one (e : Z) : option Z :=
  if e <? 32 then Some (Z.shiftl 1 e mod 2 ^ 32) else None.
Definition duration_checked_mul (d m : Z) : option Z :=
  if d * m <=? duration_max then Some (d * m) else None.

Definition bounded_backoff (consecutive_rate_limits : Z) : Z :=
  let exponent := Z.min (saturating_sub consecutive_rate_limits 1) 6 in
  let multiplier := default u32_max (checked_shl_one exponent) in
  Z.min (default MAX_RATE_LIMIT_BACKOFF (duration_checked_mul RATE_LIMIT_BACKOFF_BASE multiplier))
    MAX_RATE_LIMIT_BACKOFF.

Inductive AdmissionAttempt :=
| Acquired
| WaitUntil (deadline : Z)
| WaitForPermit.

(** ** The registry and the live handles *)

Record Registration := {
  registration_origin : OriginKey;
  registration_state : nat;
  configuration : ResolvedPacingConfiguration
}.

(** A pending [acquire]: it borrows its registration and owns a [WaiterGuard]. *)
Record Waiter := { waiter_registration : Z; waiter_state : nat; waiter_delay : Z }.

Record Permit := { permit_origin : OriginKey; permit_state : nat; outcome_recorded : bool }.

(** The process: the clock, the registry ([states], [next_registration_id]), the
    store the [Arc<OriginState>]s point into, and the live handles.  The last two
    fields are history, which no operation reads: every deadline set for an origin,
    and the states on which an admission was counted without a permit. *)
Record Process := {
  clock : Z;
  states : gmap OriginKey nat;
  next_registration_id : option Z;
  store : gmap nat OriginPacingState;
  next_address : nat;
  live_registrations : gmap Z Registration;
  waiters : gmap nat Waiter;
  permits : gmap nat Permit;
  next_handle : nat;
  deadlines_set : list (OriginKey * Z);
  leaked : list nat
}.

Definition initial (now : Z) : Process :=
  {| clock := now; states := ∅; next_registration_id := Some 1; store := ∅; next_address := 0;
     live_registrations := ∅; waiters := ∅; permits := ∅; next_handle := 0;
     deadlines_set := []; leaked := [] |}.

Definition with_clock (t : Z) (p : Process) : Process :=
  {| clock := t; states := states p; next_registration_id := next_registration_id p; store
     := store p; next_address := next_address p; live_registrations := live_registrations p;
     waiters := waiters p; permits := permits p; next_handle := next_handle p; deadlines_set
     := deadlines_set p; leaked := leaked p |}.
Definition with_registry (m : gmap OriginKey nat) (h : gmap nat OriginPacingState) (p : Process) : Process :=
  {| clock := clock p; states := m; next_registration_id := next_registration_id p; store :=
     h; next_address := next_address p; live_registrations := live_registrations p; waiters
     := waiters p; permits := permits p; next_handle := next_handle p; deadlines_set :=
     deadlines_set p; leaked := leaked p |}.
Definition with_next (n : option Z) (a : nat) (p : Process) : Process :=
  {| clock := clock p; states := states p; next_registration_id := n; store := store p;
     next_address := a; live_registrations := live_registrations p; waiters := waiters p;
     permits := permits p; next_handle := next_handle p; deadlines_set := deadlines_set p;
     leaked := leaked p |}.
Definition with_store (h : gmap nat OriginPacingState) (p : Process) : Process :=
  {| clock := clock p; states := states p; next_registration_id := next_registration_id p;
     store := h; next_address := next_address p; live_registrations := live_registrations p;
     waiters := waiters p; permits := permits p; next_handle := next_handle p; deadlines_set
     := deadlines_set p; leaked := leaked p |}.
Definition with_registrations (r : gmap Z Registration) (p : Process) : Process :=
  {| clock := clock p; states := states p; next_registration_id := next_registration_id p;
     store := store p; next_address := next_address p; live_registrations := r; waiters :=
     waiters p; permits := permits p; next_handle := next_handle p; deadlines_set :=
     deadlines_set p; leaked := leaked p |}.
Definition with_waiters (w : gmap nat Waiter) (p : Process) : Process :=
  {| clock := clock p; states := states p; next_registration_id := next_registration_id p;
     store := store p; next_address := next_address p; live_registrations :=
     live_registrations p; waiters := w; permits := permits p; next_handle := next_handle p;
     deadlines_set := deadlines_set p; leaked := leaked p |}.
Definition with_permits (x : gmap nat Permit) (p : Process) : Process :=
  {| clock := clock p; states := states p; next_registration_id := next_registration_id p;
     store := store p; next_address := next_address p; live_registrations :=
     live_registrations p; waiters := waiters p; permits := x; next_handle := next_handle p;
     deadlines_set := deadlines_set p; leaked := leaked p |}.
Definition with_handle (n : nat) (p : Process) : Process :=
  {| clock := clock p; states := states p; next_registration_id := next_registration_id p;
     store := store p; next_address := next_address p; live_registrations :=
     live_registrations p; waiters := waiters p; permits := permits p; next_handle := n;
     deadlines_set := deadlines_set p; leaked := leaked p |}.
Definition with_history (d : list (OriginKey * Z)) (k : list nat) (p : Process) : Process :=
  {| clock := clock p; states := states p; next_registration_id := next_registration_id p;
     store := store p; next_address := next_address p; live_registrations :=
     live_registrations p; waiters := waiters p; permits := permits p; next_handle :=
     next_handle p; deadlines_set := d; leaked := k |}.

(** ** The process

    [instant_max] is the last representable [Instant], [capacity] the bound of the
    registry. *)

Section process.
Context (instant_max : Z) (capacity : nat).

Definition instant_add (now duration : Z) : result AdmissionError Z :=
  ok_or ClockOverflow (checked_add instant_max now duration).

(** [OriginState::record_outcome]; an early return keeps what was written before. *)
Definition record_outcome (outcome : PacingOutcome) (now : Z) (s : OriginPacingState)
    : OriginPacingState * result AdmissionError unit :=
  let s := normalize_expired_safety now s in
  match outcome with
  | OutcomeSuccess => (set_rate_limits 0 s, Ok tt)
  | OutcomeFailed => (s, Ok tt)
  | RateLimited retry_after =>
    let s := set_rate_limits (saturating_add u8_max (consecutive_rate_limits s) 1) s in
    match instant_add now (bounded_backoff (consecutive_rate_limits s)) with
    | Err e => (s, Err e)
    | Ok until =>
      let s := set_deadlines (next_request_at s) (Some (later_deadline (backoff_until s) until))
        (retry_after_until s) s in
      match retry_delay retry_after with
      | None => (s, Ok tt)
      | Some delay =>
        match instant_add now delay with
        | Err e => (s, Err e)
        | Ok until =>
          (set_deadlines (next_request_at s) (backoff_until s)
             (Some (later_deadline (retry_after_until s) until)) s, Ok tt)
        end
      end
    end
  end.

(** The locked part of [acquire_with_delay_inner]. *)
Definition attempt (effective_delay now : Z) (s : OriginPacingState)
    : OriginPacingState * result AdmissionError AdmissionAttempt :=
  let s := normalize_expired_safety now s in
  match effective_concurrency s with
  | None => (s, Err RegistrationReleased)
  | Some effective =>
    let not_before := latest_deadline s in
    let open := match not_before with Some deadline => deadline <=? now | None => true end in
    if (in_flight s <? effective) && open then
      let s := set_in_flight (saturating_add u32_max (in_flight s) 1) s in
      match instant_add now effective_delay with
      | Err e => (s, Err e)
      | Ok next =>
        (set_deadlines (Some next) (backoff_until s) (retry_after_until s) s, Ok Acquired)
      end
    else
      (s, Ok match not_before with
             | Some deadline => if now <? deadline then WaitUntil deadline else WaitForPermit
             | None => WaitForPermit
             end)
  end.

Definition deref (h : gmap nat OriginPacingState) (l : nat) : OriginPacingState :=
  default origin_default (h !! l).
Definition update_at (f : OriginPacingState -> OriginPacingState) (l : nat)
    (h : gmap nat OriginPacingState) : gmap nat OriginPacingState := <[l := f (deref h l)]> h.

(** [prune_safe_states]: the registered states are examined in key order, and the
    idle ones removed until there is room. *)
Fixpoint retire_scan (now : Z) (entries : list (OriginKey * nat)) (h : gmap nat OriginPacingState)
    : gmap nat OriginPacingState * list OriginKey :=
  match entries with
  | [] => (h, [])
  | (origin, l) :: rest =>
    let '(s, safe) := is_safe_to_retire now (deref h l) in
    let '(h, removable) := retire_scan now rest (<[l := s]> h) in
    (h, if safe then origin :: removable else removable)
  end.

Fixpoint remove_until_room (removable : list OriginKey) (m : gmap OriginKey nat) : gmap OriginKey nat :=
  match removable with
  | [] => m
  | origin :: rest =>
    if Nat.ltb (size m) capacity then m else remove_until_room rest (delete origin m)
  end.

Definition prune_safe_states (now : Z) (m : gmap OriginKey nat) (h : gmap nat OriginPacingState)
    : gmap OriginKey nat * gmap nat OriginPacingState :=
  let '(h, removable) := retire_scan now (sort_by (cmp_on fst origin_cmp) (map_to_list m)) h in
  (remove_until_room removable m, h).

(** [OriginRegistry::register]: the state of the origin is found, or created when
    there is room; the registration is then added to it. *)
Definition find_state (origin : OriginKey) (now : Z) (p : Process) : Process * option nat :=
  match states p !! origin with
  | Some l => (p, Some l)
  | None =>
    let p := if Nat.leb capacity (size (states p)) then
               let '(m, h) := prune_safe_states now (states p) (store p) in with_registry m h p
             else p in
    if Nat.leb capacity (size (states p)) then (p, None)
    else
      let l := next_address p in
      (with_next (next_registration_id p) (S l)
         (with_registry (<[origin := l]> (states p)) (<[l := origin_default]> (store p)) p), Some l)
  end.

Inductive Reply :=
| Done
| Registered (id : Z)
| Waiting (handle : nat)
| Granted (permit : nat)
| StillWaiting (a : AdmissionAttempt)
| Failed (e : AdmissionError).

Definition register (origin : OriginKey) (c : ResolvedPacingConfiguration) (now : Z) (p : Process)
    : Process * Reply :=
  let '(p, found) := find_state origin now p in
  match found, next_registration_id p with
  | None, _ => (p, Failed OriginCapacityExhausted)
  | Some _, None => (p, Failed RegistrationIdExhausted)
  | Some l, Some id =>
    (with_registrations
       (<[id := Build_Registration origin l c]> (live_registrations p))
       (with_next (checked_add u64_max id 1) (next_address p)
         (with_store (update_at (add_registration id (conf_concurrency c)) l (store p)) p)),
     Registered id)
  end.

(** [Drop for PacingRegistration]; a pending acquisition borrows the registration. *)
Definition drop_registration (id : Z) (p : Process) : option (Process * Reply) :=
  match live_registrations p !! id with
  | None => None
  | Some r =>
    if bool_decide (map_Forall (fun _ w => waiter_registration w <> id) (waiters p)) then
      Some (with_registrations (delete id (live_registrations p))
        (with_store (update_at (release_registration id) (registration_state r) (store p)) p), Done)
    else None
  end.

(** The start of [acquire_with_delay_inner]: [WaiterGuard::new].  Fewer than 2^32
    acquisitions are pending at a time. *)
Definition start_waiting (id : Z) (r : Registration) (robots_delay : option Z) (p : Process)
    : option (Process * Reply) :=
  if Z.of_nat (size (waiters p)) <? u32_max then
    let w := {| waiter_registration := id; waiter_state := registration_state r;
                waiter_delay := Z.max (conf_request_delay (configuration r)) (default 0 robots_delay) |} in
    Some (with_handle (S (next_handle p))
      (with_waiters (<[next_handle p := w]> (waiters p))
        (with_store (update_at register_waiter (registration_state r) (store p)) p)),
      Waiting (next_handle p))
  else None.

(** [PacingRegistration::acquire] and [acquire_robots_fetch], up to the wait. *)
Definition acquire (id : Z) (robots : RobotsAdmission) (p : Process) : option (Process * Reply) :=
  match live_registrations p !! id with
  | None => None
  | Some r =>
    if negb (bool_decide (admission_origin robots = registration_origin r)) then
      Some (p, Failed RobotsOriginMismatch)
    else match admission_decision robots with
    | Disallowed => Some (p, Failed RobotsDisallowed)
    | _ => start_waiting id r (admission_crawl_delay robots) p
    end
  end.
Definition acquire_robots_fetch (id : Z) (p : Process) : option (Process * Reply) :=
  match live_registrations p !! id with
  | None => None
  | Some r => start_waiting id r None p
  end.

(** The waiter ends: its guard is dropped. *)
Definition end_waiter (handle : nat) (l : nat) (p : Process) : Process :=
  with_waiters (delete handle (waiters p)) (with_store (update_at release_waiter l (store p)) p).

(** One turn of the loop of [acquire_with_delay_inner]. *)
Definition try_acquire (handle : nat) (p : Process) : option (Process * Reply) :=
  match waiters p !! handle with
  | None => None
  | Some w =>
    match live_registrations p !! waiter_registration w with
    | None => None
    | Some r =>
      let l := waiter_state w in
      let before := deref (store p) l in
      let '(after, answer) := attempt (waiter_delay w) (clock p) before in
      let q := with_store (<[l := after]> (store p)) p in
      match answer with
      | Ok Acquired =>
        let permit := Build_Permit (registration_origin r) l false in
        Some (with_handle (S (next_handle q))
          (with_permits (<[next_handle q := permit]> (permits q))
            (with_history ((registration_origin r, clock p + waiter_delay w) :: deadlines_set q)
              (leaked q) (end_waiter handle l q))), Granted (next_handle q))
      | Ok a => Some (q, StillWaiting a)
      | Err e =>
        Some (with_history (deadlines_set q)
          (if in_flight before <? in_flight after then l :: leaked q else leaked q)
          (end_waiter handle l q), Failed e)
      end
    end
  end.

Definition cancel_waiter (handle : nat) (p : Process) : option (Process * Reply) :=
  match waiters p !! handle with
  | None => None
  | Some w => Some (end_waiter handle (waiter_state w) p, Failed AdmissionCancelled)
  end.

(** The deadlines a recorded outcome sets. *)
Definition outcome_deadlines (outcome : PacingOutcome) (now : Z) (s : OriginPacingState) : list Z :=
  match outcome with
  | RateLimited retry_after =>
    let n := saturating_add u8_max (consecutive_rate_limits s) 1 in
    match instant_add now (bounded_backoff n) with
    | Err _ => []
    | Ok b =>
      b :: match retry_delay retry_after with
           | Some d => match instant_add now d with Ok r => [r] | Err _ => [] end
           | None => []
           end
    end
  | _ => []
  end.

(** [AdmissionPermit::record_outcome]: the first call counts. *)
Definition permit_record_outcome (handle : nat) (outcome : PacingOutcome) (now : Z) (p : Process)
    : option (Process * Reply) :=
  match permits p !! handle with
  | None => None
  | Some x =>
    if outcome_recorded x then Some (p, Done)
    else
      let l := permit_state x in
      let before := deref (store p) l in
      let '(after, answer) := record_outcome outcome now before in
      Some (with_history
          (map (pair (permit_origin x)) (outcome_deadlines outcome now before) ++ deadlines_set p)
          (leaked p)
        (with_permits (<[handle := Build_Permit (permit_origin x) l true]> (permits p))
          (with_store (<[l := after]> (store p)) p)),
        match answer with Ok _ => Done | Err e => Failed e end)
  end.

(** [Drop for AdmissionPermit]. *)
Definition drop_permit (handle : nat) (p : Process) : option (Process * Reply) :=
  match permits p !! handle with
  | None => None
  | Some x =>
    Some (with_permits (delete handle (permits p))
      (with_store (update_at release (permit_state x) (store p)) p), Done)
  end.

(** *** Steps

    [register] and [record_outcome] read the clock before they take the lock, so the
    instant they use may lie in the past. *)
Inductive Event :=
| Tick (elapsed : Z)
| Register (origin : OriginKey) (c : ResolvedPacingConfiguration) (now : Z)
| DropRegistration (id : Z)
| Acquire (id : Z) (robots : RobotsAdmission)
| AcquireRobotsFetch (id : Z)
| TryAcquire (handle : nat)
| CancelWaiter (handle : nat)
| RecordOutcome (handle : nat) (outcome : PacingOutcome) (now : Z)
| DropPermit (handle : nat).

(** What [from_snapshot] lets through, at the width of the settings. *)
Definition configuration_valid (c : ResolvedPacingConfiguration) : bool :=
  (0 <? conf_concurrency c) && (conf_concurrency c <=? u32_max)
  && (0 <=? conf_request_delay c) && (conf_request_delay c <=? MAX_PACING_DELAY).

Definition step (e : Event) (p : Process) : option (Process * Reply) :=
  match e with
  | Tick elapsed => if 0 <=? elapsed then Some (with_clock (clock p + elapsed) p, Done) else None
  | Register origin c now =>
    if (now <=? clock p) && configuration_valid c then Some (register origin c now p) else None
  | DropRegistration id => drop_registration id p
  | Acquire id robots => acquire id robots p
  | AcquireRobotsFetch id => acquire_robots_fetch id p
  | TryAcquire handle => try_acquire handle p
  | CancelWaiter handle => cancel_waiter handle p
  | RecordOutcome handle outcome now =>
    if now <=? clock p then permit_record_outcome handle outcome now p else None
  | DropPermit handle => drop_permit handle p
  end.

Inductive reachable : Process -> Prop :=
| reachable_initial now : reachable (initial now)
| reachable_step e p p' r : reachable p -> step e p = Some (p', r) -> reachable p'.

(** A run, for evaluation. *)
Fixpoint run (es : list Event) (p : Process) : option Process :=
  match es with
  | [] => Some p
  | e :: es' => match step e p with Some (p', _) => run es' p' | None => None end
  end.
End process.

(** * Lemmas *)

(** ** Counting the entries of a map that point at an address *)

Section counts.
Context {A : Type} (f : A -> nat).

Definition pointing (l : nat) (m : gmap nat A) : nat := size (filter (fun x => f x.2 = l) m).

Lemma pointing_insert l m i x :
  m !! i = None -> pointing l (<[i := x]> m) = ((if decide (f x = l) then 1 else 0) + pointing l m)%nat.
Proof.
  intros Hi. unfold pointing. destruct (decide (f x = l)) as [Hx|Hx].
  - rewrite map_filter_insert_True by done. rewrite map_size_insert_None; [done|].
    apply map_lookup_filter_None. by left.
  - by rewrite map_filter_insert_False, delete_id.
Qed.

Lemma pointing_delete l m i x :
  m !! i = Some x -> pointing l m = ((if decide (f x = l) then 1 else 0) + pointing l (delete i m))%nat.
Proof.
  intros Hi. rewrite <- (insert_delete_id m i x Hi) at 1.
  apply pointing_insert. apply lookup_delete_eq.
Qed.

Lemma pointing_replace l m i x y :
  m !! i = Some x -> f y = f x -> pointing l (<[i := y]> m) = pointing l m.
Proof.
  intros Hi Hf. rewrite (pointing_delete l m i x Hi), <- Hf, <- insert_delete_eq.
  rewrite pointing_insert; [done|]. apply lookup_delete_eq.
Qed.

Lemma pointing_zero l m i x : pointing l m = 0%nat -> m !! i = Some x -> f x <> l.
Proof.
  intros Hz Hi Hf. rewrite (pointing_delete l m i x Hi) in Hz. by rewrite decide_True in Hz.
Qed.
End counts.

(** ** The operations on one origin *)

Definition deadlines (s : OriginPacingState) : list Z :=
  omap id [next_request_at s; backoff_until s; retry_after_until s].

(** No request leaves before [d]. *)
Definition protects (d : Z) (s : OriginPacingState) : Prop := exists x, x ∈ deadlines s /\ d <= x.

Lemma elem_of_deadlines x s :
  x ∈ deadlines s <-> next_request_at s = Some x \/ backoff_until s = Some x \/ retry_after_until s = Some x.
Proof.
  unfold deadlines. rewrite list_elem_of_omap. setoid_rewrite elem_of_cons.
  setoid_rewrite elem_of_cons. setoid_rewrite list_elem_of_singleton. unfold id. naive_solver.
Qed.

Lemma expire_some now o x : expire now o = Some x <-> o = Some x /\ now < x.
Proof.
  unfold expire. destruct o as [d|]; [|naive_solver]. destruct (Z.leb_spec d now); [|naive_solver].
  split; [done|]. intros [[= ->] ?]. lia.
Qed.

Lemma normalize_deadlines now s x :
  x ∈ deadlines (normalize_expired_safety now s) <-> x ∈ deadlines s /\ now < x.
Proof. rewrite !elem_of_deadlines. simpl. rewrite !expire_some. tauto. Qed.

Lemma normalize_protects now d s :
  protects d s -> protects d (normalize_expired_safety now s) \/ d <= now.
Proof.
  intros (x & Hx & Hd). destruct (Z.ltb_spec now x); [left|right; lia].
  exists x. by rewrite normalize_deadlines.
Qed.

Lemma normalize_safe now s :
  is_safe_to_retire now (normalize_expired_safety now s) = is_safe_to_retire now s.
Proof.
  assert (He : forall o, expire now (expire now o) = expire now o).
  { intros [x|]; simpl; [|done]. destruct (Z.leb_spec x now); simpl; [done|].
    destruct (Z.leb_spec x now); [lia|done]. }
  unfold is_safe_to_retire, normalize_expired_safety. simpl. by rewrite !He.
Qed.

Lemma safe_to_retire_spec now s :
  (is_safe_to_retire now s).2 = true <->
  registrations s = ∅ /\ in_flight s = 0 /\ waiting_admissions s = 0 /\
  forall x, x ∈ deadlines s -> x <= now.
Proof.
  set (n := normalize_expired_safety now s).
  assert (Hdl : (next_request_at n = None /\ backoff_until n = None /\ retry_after_until n = None)
    <-> forall x, x ∈ deadlines s -> x <= now).
  { transitivity (forall x, x ∉ deadlines n).
    - setoid_rewrite elem_of_deadlines. split; [intros (-> & -> & ->) x; naive_solver|].
      intros H. destruct (next_request_at n) as [x|] eqn:H1; [destruct (H x); auto|].
      destruct (backoff_until n) as [x|] eqn:H2; [destruct (H x); auto|].
      destruct (retry_after_until n) as [x|] eqn:H3; [destruct (H x); auto|]. done.
    - unfold n. setoid_rewrite normalize_deadlines. split.
      + intros H x Hx. destruct (Z.leb_spec x now); [done|]. by destruct (H x).
      + intros H x [Hx ?]. specialize (H x Hx). lia. }
  unfold is_safe_to_retire. cbn [snd]. fold n. rewrite !andb_true_iff, !bool_decide_eq_true, !Z.eqb_eq.
  rewrite <- Hdl. simpl. tauto.
Qed.

Lemma latest_deadline_le s now :
  match latest_deadline s with Some x => x <=? now | None => true end = true <->
  forall x, x ∈ deadlines s -> x <= now.
Proof.
  unfold latest_deadline. fold (deadlines s). destruct (max_by Z.compare (deadlines s)) as [m|] eqn:Hm.
  - apply max_by_some in Hm as [Hin Hall]; [|apply _]. rewrite Forall_forall in Hall. rewrite Z.leb_le.
    split; [|by auto]. intros Hle x Hx. specialize (Hall x Hx). rewrite cmp_le_Z in Hall. lia.
  - apply max_by_none in Hm as ->. split; [|done]. intros _ x Hx. by apply not_elem_of_nil in Hx.
Qed.

Lemma effective_concurrency_some s e :
  effective_concurrency s = Some e ->
  (exists i, registrations s !! i = Some e) /\ forall i c, registrations s !! i = Some c -> e <= c.
Proof.
  unfold effective_concurrency. intros Hm. apply min_by_some in Hm as [Hin Hall]; [|apply _].
  rewrite Forall_forall in Hall. split.
  - apply elem_of_map in Hin as ([i c] & -> & Hi%elem_of_map_to_list). by exists i.
  - intros i c Hi. assert (Hc : c ∈ map snd (map_to_list (registrations s))).
    { apply elem_of_map. exists (i, c). by rewrite elem_of_map_to_list. }
    specialize (Hall c Hc). by rewrite cmp_le_Z in Hall.
Qed.

Lemma effective_concurrency_none s : effective_concurrency s = None <-> registrations s = ∅.
Proof.
  unfold effective_concurrency. rewrite min_by_none. split.
  - intros H%map_eq_nil. by apply map_to_list_empty_iff.
  - intros ->. by rewrite map_to_list_empty.
Qed.

Lemma attempt_acquired instant_max delay now s s' :
  attempt instant_max delay now s = (s', Ok Acquired) <->
  (exists e, effective_concurrency s = Some e /\ in_flight s < e) /\
  (forall x, x ∈ deadlines s -> x <= now) /\ now + delay <= instant_max /\
  s' = set_deadlines (Some (now + delay)) None None
    (set_in_flight (saturating_add u32_max (in_flight s) 1) s).
Proof.
  set (n := normalize_expired_safety now s).
  assert (Hopen : match latest_deadline n with Some d => d <=? now | None => true end = true
    <-> forall x, x ∈ deadlines s -> x <= now).
  { rewrite latest_deadline_le. unfold n. setoid_rewrite normalize_deadlines. split.
    - intros H x Hx. destruct (Z.leb_spec x now); [done|]. by apply H.
    - intros H x [Hx _]. by apply H. }
  assert (Hnone : (forall x, x ∈ deadlines s -> x <= now) ->
    backoff_until n = None /\ retry_after_until n = None).
  { intros H. pose proof (fun x => elem_of_deadlines x n) as He.
    split; [destruct (backoff_until n) as [x|] eqn:Hx|destruct (retry_after_until n) as [x|] eqn:Hx];
      try done; assert (x ∈ deadlines n) as [Hin ?]%normalize_deadlines by (apply He; auto);
      specialize (H x Hin); lia. }
  unfold attempt. change (effective_concurrency (normalize_expired_safety now s)) with (effective_concurrency s).
  fold n. destruct (effective_concurrency s) as [e|]; [|by split; [intros [=]|intros [(? & [=] & _) _]]].
  change (in_flight n) with (in_flight s).
  destruct ((in_flight s <? e) && _) eqn:Hgo.
  - apply andb_true_iff in Hgo as [Hlt%Z.ltb_lt Ho]. rewrite Hopen in Ho. destruct (Hnone Ho) as [Hb Hr].
    unfold instant_add. destruct (checked_add instant_max now delay) as [next|] eqn:Hadd; simpl.
    + apply checked_add_some in Hadd as [-> Hle]. unfold n in Hb, Hr. simpl in Hb, Hr. rewrite Hb, Hr.
      split; [intros [= <-]; split_and!; try done; by exists e|by intros (_ & _ & _ & ->)].
    + apply checked_add_none in Hadd. split; [done|]. intros (_ & _ & ? & _). lia.
  - split.
    + destruct (latest_deadline n) as [x|]; [|done]. by destruct (now <? x).
    + intros ((e' & [= <-] & Hlt) & Ho & _). rewrite <- Hopen in Ho. apply Z.ltb_lt in Hlt.
      by rewrite Hlt, Ho in Hgo.
Qed.

(** An attempt that is not granted only tidies the state, unless the clock
    overflowed after the admission was counted. *)
Lemma attempt_other instant_max delay now s s' a :
  attempt instant_max delay now s = (s', a) -> a <> Ok Acquired ->
  s' = normalize_expired_safety now s \/
  (a = Err ClockOverflow /\ instant_max < now + delay /\
   s' = set_in_flight (saturating_add u32_max (in_flight s) 1) (normalize_expired_safety now s) /\
   exists e, effective_concurrency s = Some e /\ in_flight s < e).
Proof.
  unfold attempt. change (effective_concurrency (normalize_expired_safety now s)) with (effective_concurrency s).
  destruct (effective_concurrency s) as [e|]; [|by intros [= <- <-]; left].
  destruct ((_ <? e) && _) eqn:Hgo; [|intros [= <- <-]; by left].
  apply andb_true_iff in Hgo as [Hlt%Z.ltb_lt _].
  unfold instant_add. destruct (checked_add instant_max now delay) as [next|] eqn:Hadd; simpl.
  - by intros [= <- <-].
  - apply checked_add_none in Hadd. intros [= <- <-] _. right. split_and!; try done. by exists e.
Qed.

Lemma record_outcome_frame instant_max o now s s' r :
  record_outcome instant_max o now s = (s', r) ->
  registrations s' = registrations s /\ in_flight s' = in_flight s /\
  waiting_admissions s' = waiting_admissions s.
Proof. unfold record_outcome. intros H. break_in H; by simplify_eq/=. Qed.

Lemma later_deadline_ge o d : d <= later_deadline o d /\ forall x, o = Some x -> x <= later_deadline o d.
Proof. destruct o as [y|]; simpl; [|by split; [lia|]]. split; [lia|]. intros x [= ->]. lia. Qed.

Lemma record_outcome_protects instant_max o now s s' r d :
  record_outcome instant_max o now s = (s', r) ->
  protects d (normalize_expired_safety now s) \/ d ∈ outcome_deadlines instant_max o now s ->
  protects d s'.
Proof.
  set (n := normalize_expired_safety now s).
  unfold record_outcome, outcome_deadlines. fold n. change (consecutive_rate_limits n) with (consecutive_rate_limits s).
  destruct o as [| |ra]; [intros [= <- <-] [H|H%not_elem_of_nil]; done..|]. simpl.
  destruct (instant_add _ now _) as [b|e]; [|intros [= <- <-] [H|H%not_elem_of_nil]; done].
  pose proof (later_deadline_ge (backoff_until n) b) as [Hb Hb'].
  assert (Hstep : forall s1 : OriginPacingState, next_request_at s1 = next_request_at n ->
    backoff_until s1 = Some (later_deadline (backoff_until n) b) ->
    (forall x, retry_after_until n = Some x -> exists y, retry_after_until s1 = Some y /\ x <= y) ->
    protects d n \/ d = b -> protects d s1).
  { intros s1 H1 H2 H3 [(x & Hx & Hd)| ->].
    - apply elem_of_deadlines in Hx as [Hx|[Hx|Hx]].
      + exists x. rewrite elem_of_deadlines, H1. auto.
      + exists (later_deadline (backoff_until n) b). rewrite elem_of_deadlines, H2.
        specialize (Hb' x Hx). split; [auto|lia].
      + destruct (H3 x Hx) as (y & Hy & ?). exists y. rewrite elem_of_deadlines, Hy. split; [auto|lia].
    - exists (later_deadline (backoff_until n) b). rewrite elem_of_deadlines, H2. auto. }
  destruct (retry_delay ra) as [rd|].
  2:{ intros [= <- <-] H. apply Hstep; try done; [intros x Hx; exists x; split; [exact Hx|lia]|].
      destruct H as [H|H%list_elem_of_singleton]; auto. }
  destruct (instant_add _ now rd) as [rt|e].
  2:{ intros [= <- <-] H. apply Hstep; try done; [intros x Hx; exists x; split; [exact Hx|lia]|].
      destruct H as [H|H%list_elem_of_singleton]; auto. }
  pose proof (later_deadline_ge (retry_after_until n) rt) as [Hr Hr'].
  intros [= <- <-] H. rewrite !elem_of_cons in H.
  destruct H as [H|[H|[H|H%not_elem_of_nil]]]; [| | |done].
  - apply Hstep; try done; [|by left]. intros x Hx. eexists. split; [done|]. by apply Hr'.
  - apply Hstep; try done; [|by right]. intros x Hx. eexists. split; [done|]. by apply Hr'.
  - exists (later_deadline (retry_after_until n) rt). rewrite elem_of_deadlines. simpl.
    subst d. auto.
Qed.

(** ** Reading the store *)

Lemma deref_insert l s h : deref (<[l := s]> h) l = s.
Proof. unfold deref. by rewrite lookup_insert_eq. Qed.
Lemma deref_insert_ne l l' s h : l <> l' -> deref (<[l := s]> h) l' = deref h l'.
Proof. intros. unfold deref. by rewrite lookup_insert_ne. Qed.

(** What a scan or an update may do to the states it does not concern. *)
Definition tidied (now : Z) (s s' : OriginPacingState) : Prop :=
  s' = s \/ s' = normalize_expired_safety now s.

Lemma tidied_frame now s s' : tidied now s s' ->
  registrations s' = registrations s /\ in_flight s' = in_flight s /\
  waiting_admissions s' = waiting_admissions s.
Proof. by intros [-> | ->]. Qed.

Lemma tidied_protects now d s s' : tidied now s s' -> protects d s -> protects d s' \/ d <= now.
Proof. intros [-> | ->]; [auto|apply normalize_protects]. Qed.

Lemma tidied_trans now s s' s'' : tidied now s s' -> tidied now s' s'' -> tidied now s s''.
Proof.
  assert (Hn : normalize_expired_safety now (normalize_expired_safety now s) = normalize_expired_safety now s).
  { pose proof (normalize_safe now s) as H. exact (f_equal fst H). }
  intros [-> | ->] [-> | ->]; unfold tidied; rewrite ?Hn; auto.
Qed.

Lemma retire_scan_spec now entries h h' removable :
  retire_scan now entries h = (h', removable) ->
  (forall l, tidied now (deref h l) (deref h' l)) /\
  (forall l, h !! l = None -> l ∉ entries.*2 -> h' !! l = None) /\
  (forall o, o ∈ removable -> exists l, (o, l) ∈ entries /\ (is_safe_to_retire now (deref h l)).2 = true).
Proof.
  revert h h' removable. induction entries as [|[o l] entries IH]; intros h h' removable.
  { intros [= <- <-]. split_and!; [by left|done|by intros o ?%not_elem_of_nil]. }
  cbn [retire_scan]. set (s := normalize_expired_safety now (deref h l)).
  change (is_safe_to_retire now (deref h l)) with (s, (is_safe_to_retire now (deref h l)).2).
  cbn [fst snd]. set (safe := snd _). cbv zeta.
  destruct (retire_scan now entries (<[l := s]> h)) as [h1 rem] eqn:Hscan.
  intros [= <- <-]. apply IH in Hscan as (Ht & Hf & Hr). clear IH.
  assert (Hl : forall l', tidied now (deref h l') (deref (<[l := s]> h) l')).
  { intros l'. destruct (decide (l = l')) as [<-|Hne].
    - rewrite deref_insert. by right.
    - rewrite deref_insert_ne by done. by left. }
  split_and!.
  - intros l'. by eapply tidied_trans.
  - intros l' Hn Hnin. rewrite fmap_cons in Hnin. apply not_elem_of_cons in Hnin as [Hne Hnin].
    apply Hf; [|done]. by rewrite lookup_insert_ne.
  - intros o' Ho'. assert (Hcase : (o' = o /\ safe = true) \/ o' ∈ rem).
    { destruct safe; [apply elem_of_cons in Ho' as [->|?]; auto|auto]. }
    destruct Hcase as [[-> Hsafe]|Hin]; [exists l; split; [left|done]|].
    destruct (Hr o' Hin) as (l' & Hl' & Hsafe). exists l'. split; [by right|].
    destruct (Hl l') as [Heq|Heq]; rewrite Heq in Hsafe; [done|]. by rewrite normalize_safe in Hsafe.
Qed.

Lemma remove_until_room_spec capacity removable m o l :
  m !! o = Some l ->
  remove_until_room capacity removable m !! o = Some l \/ o ∈ removable.
Proof.
  revert m. induction removable as [|x removable IH]; intros m Hm; simpl; [by left|].
  destruct (Nat.ltb _ _); [by left|]. destruct (decide (x = o)) as [->|Hne]; [right; left|].
  destruct (IH (delete x m)) as [H|H]; [by rewrite lookup_delete_ne|by left|right; by right].
Qed.

Lemma remove_until_room_sub capacity removable m : remove_until_room capacity removable m ⊆ m.
Proof.
  revert m. induction removable as [|x removable IH]; intros m; simpl; [done|].
  destruct (Nat.ltb _ _); [done|]. etransitivity; [apply IH|apply delete_subseteq].
Qed.

(** ** The invariant *)

(** The registrations an address should hold. *)
Definition registered_at (l : nat) (m : gmap Z Registration) : gmap Z Z :=
  (fun r => conf_concurrency (configuration r)) <$> filter (fun x => registration_state x.2 = l) m.

Lemma registered_at_lookup l m id c :
  registered_at l m !! id = Some c <->
  exists r, m !! id = Some r /\ registration_state r = l /\ conf_concurrency (configuration r) = c.
Proof.
  unfold registered_at. rewrite lookup_fmap_Some. setoid_rewrite map_lookup_filter_Some. simpl.
  naive_solver.
Qed.

Lemma registered_at_insert l m id r :
  m !! id = None ->
  registered_at l (<[id := r]> m)
  = if decide (registration_state r = l) then <[id := conf_concurrency (configuration r)]> (registered_at l m)
    else registered_at l m.
Proof.
  intros Hid. apply map_eq. intros i. apply option_eq. intros c. rewrite registered_at_lookup.
  setoid_rewrite lookup_insert_Some. destruct (decide _) as [Hl|Hl];
    rewrite ?lookup_insert_Some, !registered_at_lookup; naive_solver.
Qed.

Lemma registered_at_delete l m id :
  registered_at l (delete id m) = delete id (registered_at l m).
Proof.
  apply map_eq. intros i. apply option_eq. intros c.
  rewrite registered_at_lookup, lookup_delete_Some, registered_at_lookup.
  setoid_rewrite lookup_delete_Some. naive_solver.
Qed.

(** What the handles of a process say about the state at an address. *)
Definition state_ok (p : Process) (l : nat) (s : OriginPacingState) : Prop :=
  registrations s = registered_at l (live_registrations p) /\
  in_flight s = Z.of_nat (pointing permit_state l (permits p) + length (filter (eq l) (leaked p))) /\
  waiting_admissions s = Z.of_nat (pointing waiter_state l (waiters p)).

Record inv (capacity : nat) (p : Process) : Prop := {
  inv_size : (size (states p) <= capacity)%nat;
  inv_address : forall o l, states p !! o = Some l -> (l < next_address p)%nat;
  inv_fresh : forall l, (next_address p <= l)%nat -> store p !! l = None;
  inv_distinct : forall o o' l, states p !! o = Some l -> states p !! o' = Some l -> o = o';
  inv_registration : forall id r, live_registrations p !! id = Some r ->
    states p !! registration_origin r = Some (registration_state r) /\
    configuration_valid (configuration r) = true /\ 1 <= id <= u64_max /\
    forall n, next_registration_id p = Some n -> id < n;
  inv_next : forall n, next_registration_id p = Some n -> 1 <= n <= u64_max;
  inv_permit : forall h x, permits p !! h = Some x -> states p !! permit_origin x = Some (permit_state x);
  inv_waiter : forall h w, waiters p !! h = Some w ->
    exists r, live_registrations p !! waiter_registration w = Some r /\ registration_state r = waiter_state w;
  inv_handles : forall h, (next_handle p <= h)%nat -> waiters p !! h = None /\ permits p !! h = None;
  inv_waiting : Z.of_nat (size (waiters p)) <= u32_max;
  inv_state : forall l, state_ok p l (deref (store p) l);
  inv_deadlines : forall o d, (o, d) ∈ deadlines_set p ->
    d <= clock p \/ exists l, states p !! o = Some l /\ protects d (deref (store p) l)
}.

Lemma inv_initial capacity now : inv capacity (initial now).
Proof.
  split; simpl; try (intros; by simplify_map_eq).
  - rewrite map_size_empty. lia.
  - by intros o d ?%not_elem_of_nil.
Qed.

Lemma state_ok_no_handles capacity p l s :
  inv capacity p -> registrations s = ∅ -> in_flight s = 0 -> state_ok p l s ->
  (forall id r, live_registrations p !! id = Some r -> registration_state r <> l) /\
  (forall h x, permits p !! h = Some x -> permit_state x <> l).
Proof.
  intros Hinv Hr Hf (Hreg & Hin & _). rewrite Hr in Hreg. split.
  - intros id r Hid Hl. assert (Hc : registered_at l (live_registrations p) !! id = None)
      by (rewrite <- Hreg; apply lookup_empty).
    apply eq_None_not_Some in Hc. apply Hc. eexists. apply registered_at_lookup. by exists r.
  - intros h x Hx. eapply pointing_zero; [|done]. lia.
Qed.

(** Pruning keeps the invariant: no handle points at a state it removes. *)
Lemma inv_prune capacity now p m h :
  inv capacity p -> now <= clock p ->
  prune_safe_states capacity now (states p) (store p) = (m, h) ->
  inv capacity (with_registry m h p).
Proof.
  intros Hinv Hnow. unfold prune_safe_states.
  destruct (retire_scan _ _ _) as [h' removable] eqn:Hscan. intros [= <- <-].
  apply retire_scan_spec in Hscan as (Ht & Hf & Hr).
  assert (Hsafe : forall o l, states p !! o = Some l -> o ∈ removable ->
    (is_safe_to_retire now (deref (store p) l)).2 = true).
  { intros o l Hl (l' & Hin & Hsafe)%Hr. rewrite sort_by_perm in Hin.
    apply elem_of_map_to_list in Hin. by simplify_eq. }
  assert (Hkeep : forall o l, states p !! o = Some l ->
    remove_until_room capacity removable (states p) !! o = Some l \/
    (is_safe_to_retire now (deref (store p) l)).2 = true).
  { intros o l Hl. destruct (remove_until_room_spec capacity removable (states p) o l Hl); eauto. }
  pose proof (remove_until_room_sub capacity removable (states p)) as Hsub.
  assert (Hsub' : forall o l, remove_until_room capacity removable (states p) !! o = Some l ->
    states p !! o = Some l) by (intros; by eapply lookup_weaken).
  pose proof Hinv as [Hsize Haddr Hfresh Hdist Hreg Hnext Hperm Hwait Hhand Hwaiting Hstate Hdl].
  assert (Hnone : forall l, (is_safe_to_retire now (deref (store p) l)).2 = true ->
    (forall id r, live_registrations p !! id = Some r -> registration_state r <> l) /\
    (forall h x, permits p !! h = Some x -> permit_state x <> l)).
  { intros l (Hregs & Hin & _)%safe_to_retire_spec. by eapply state_ok_no_handles. }
  split; simpl; try done.
  - etransitivity; [by apply map_subseteq_size|done].
  - eauto.
  - intros l Hl. apply Hf; [by apply Hfresh|]. rewrite sort_by_perm.
    intros ([o l'] & -> & Hin)%list_elem_of_fmap. apply elem_of_map_to_list, Haddr in Hin. simpl in *. lia.
  - eauto.
  - intros id r Hid. destruct (Hreg id r Hid) as (Hl & ? & ? & ?). split_and!; try done; try lia.
    destruct (Hkeep _ _ Hl) as [?|[Hno _]%Hnone]; [done|]. by destruct (Hno id r Hid).
  - intros i x Hx. destruct (Hkeep _ _ (Hperm i x Hx)) as [?|[_ Hno]%Hnone]; [done|].
    by destruct (Hno i x Hx).
  - intros l. destruct (Hstate l) as (H1 & H2 & H3), (tidied_frame _ _ _ (Ht l)) as (E1 & E2 & E3).
    unfold state_ok. simpl. by rewrite E1, E2, E3.
  - intros o d Hod. destruct (Hdl o d Hod) as [?|(l & Hl & Hp)]; [by left|].
    destruct (Hkeep o l Hl) as [Hl'|(_ & _ & _ & Hle)%safe_to_retire_spec].
    + destruct (tidied_protects _ _ _ _ (Ht l) Hp) as [?|?]; [right; by exists l|left; lia].
    + left. destruct Hp as (x & Hx & ?). specialize (Hle x Hx). lia.
Qed.

(** Finding or creating the state of an origin keeps it. *)
Lemma inv_find_state capacity origin now p q found :
  inv capacity p -> now <= clock p -> find_state capacity origin now p = (q, found) ->
  inv capacity q /\ live_registrations q = live_registrations p /\
  next_registration_id q = next_registration_id p /\
  (forall l, found = Some l -> states q !! origin = Some l).
Proof.
  intros Hinv Hnow. unfold find_state. destruct (states p !! origin) as [l|] eqn:Ho.
  { intros [= <- <-]. split_and!; try done. by intros l' [= <-]. }
  match goal with |- context [ (if ?b then ?x else p) ] => set (p1 := if b then x else p) end.
  assert (Hp1 : inv capacity p1 /\ live_registrations p1 = live_registrations p /\
    next_registration_id p1 = next_registration_id p /\ states p1 !! origin = None).
  { unfold p1. destruct (Nat.leb _ _); [|done]. destruct (prune_safe_states _ _ _ _) as [m h] eqn:Hprune.
    pose proof Hprune as Hinv'. eapply inv_prune in Hinv'; [|done..]. split_and!; try done. simpl.
    unfold prune_safe_states in Hprune. destruct (retire_scan _ _ _). injection Hprune as <- _.
    by eapply lookup_weaken_None, remove_until_room_sub. }
  destruct Hp1 as (Hp1 & E1 & E2 & Ho1). clearbody p1.
  destruct (Nat.leb_spec capacity (size (states p1))) as [|Hroom]; intros [= <- <-].
  { by split_and!. }
  assert (Hmap : forall o l, <[origin := next_address p1]> (states p1) !! o = Some l ->
    (o = origin /\ l = next_address p1) \/ (o <> origin /\ states p1 !! o = Some l)).
  { intros o l. rewrite lookup_insert_Some. naive_solver. }
  assert (Hold : forall o l, states p1 !! o = Some l ->
    <[origin := next_address p1]> (states p1) !! o = Some l).
  { intros o l Hl. rewrite lookup_insert_ne; [done|]. congruence. }
  assert (Hderef : forall l, deref (<[next_address p1 := origin_default]> (store p1)) l = deref (store p1) l).
  { intros l. destruct (decide (next_address p1 = l)) as [<-|Hne]; [|by apply deref_insert_ne].
    rewrite deref_insert. unfold deref. by rewrite (inv_fresh capacity p1 Hp1) by done. }
  destruct Hp1 as [Hsize Haddr Hfresh Hdist Hreg Hnext Hperm Hwait Hhand Hwaiting Hstate Hdl].
  split; [split; simpl|split_and!; try done; simpl]; try done.
  - rewrite map_size_insert_None by done. lia.
  - intros o l [[_ ->]|[_ Hl%Haddr]]%Hmap; lia.
  - intros l Hl. rewrite lookup_insert_ne by lia. apply Hfresh. lia.
  - intros o o' l [[-> ->]|[? Hl]]%Hmap [[-> ?]|[? Hl']]%Hmap; subst; try done.
    + apply Haddr in Hl'. lia.
    + apply Haddr in Hl. lia.
    + eauto.
  - intros id r Hid. destruct (Hreg id r Hid) as (? & ? & ? & ?). split_and!; try done; auto; lia.
  - eauto.
  - intros l. rewrite Hderef. apply Hstate.
  - intros o d [?|(l & Hl & Hp)]%Hdl; [by left|right]. exists l. rewrite Hderef. auto.
  - intros l [= <-]. apply lookup_insert_eq.
Qed.

(** An operation that writes the state at one address. *)
Lemma inv_update capacity p q l s' :
  inv capacity p -> (l < next_address p)%nat -> states q = states p ->
  next_address q = next_address p -> clock q = clock p -> store q = <[l := s']> (store p) ->
  (forall l' s, l' <> l -> state_ok p l' s -> state_ok q l' s) -> state_ok q l s' ->
  (forall d, protects d (deref (store p) l) -> protects d s' \/ d <= clock p) ->
  (forall o d, (o, d) ∈ deadlines_set q -> (o, d) ∈ deadlines_set p \/
    (states p !! o = Some l /\ (protects d s' \/ d <= clock p))) ->
  (forall id r, live_registrations q !! id = Some r ->
    states p !! registration_origin r = Some (registration_state r) /\
    configuration_valid (configuration r) = true /\ 1 <= id <= u64_max /\
    forall n, next_registration_id q = Some n -> id < n) ->
  (forall n, next_registration_id q = Some n -> 1 <= n <= u64_max) ->
  (forall h x, permits q !! h = Some x -> states p !! permit_origin x = Some (permit_state x)) ->
  (forall h w, waiters q !! h = Some w ->
    exists r, live_registrations q !! waiter_registration w = Some r /\ registration_state r = waiter_state w) ->
  (forall h, (next_handle q <= h)%nat -> waiters q !! h = None /\ permits q !! h = None) ->
  Z.of_nat (size (waiters q)) <= u32_max ->
  inv capacity q.
Proof.
  intros [Hsize Haddr Hfresh Hdist _ _ _ _ _ _ Hstate Hdl] Hl Es Ea Ec Est Hother Hok Hprot Hnew
    Hreg Hnext Hperm Hwait Hhand Hwaiting.
  split; rewrite ?Es, ?Ea, ?Ec, ?Est; try done.
  - intros l' Hl'. rewrite lookup_insert_ne by lia. by apply Hfresh.
  - intros l'. destruct (decide (l = l')) as [<-|Hne]; [by rewrite deref_insert|].
    rewrite deref_insert_ne by done. by apply Hother.
  - intros o d Hod. destruct (Hnew o d Hod) as [Hold|[Ho [Hp|?]]]; [| |by left].
    + destruct (Hdl o d Hold) as [?|(l' & Hl' & Hp)]; [by left|].
      destruct (decide (l = l')) as [<-|Hne].
      * destruct (Hprot d Hp) as [?|?]; [right|by left]. exists l. by rewrite deref_insert.
      * right. exists l'. by rewrite deref_insert_ne.
    + right. exists l. by rewrite deref_insert.
Qed.

(** ** Every operation keeps the invariant *)

Lemma inv_register capacity origin c now p q r :
  inv capacity p -> now <= clock p -> configuration_valid c = true ->
  register capacity origin c now p = (q, r) -> inv capacity q.
Proof.
  intros Hinv Hnow Hc. unfold register. destruct (find_state _ _ _ _) as [p1 found] eqn:Hfind.
  apply inv_find_state in Hfind as (Hp1 & E1 & E2 & Hl); [|done..]. clear Hinv.
  destruct found as [l|]; [|by intros [= <- _]].
  destruct (next_registration_id p1) as [id|] eqn:Hid; [|by intros [= <- _]].
  intros [= <- _]. specialize (Hl l eq_refl).
  pose proof (inv_next _ _ Hp1 id Hid) as Hrange.
  assert (Hfree : live_registrations p1 !! id = None).
  { apply eq_None_not_Some. intros [r' Hr']. destruct (inv_registration _ _ Hp1 id r' Hr') as (_ & _ & _ & Hlt).
    specialize (Hlt id Hid). lia. }
  apply (inv_update capacity p1 _ l (add_registration id (conf_concurrency c) (deref (store p1) l)));
    try done; try apply Hp1.
  - by eapply inv_address.
  - intros l' s Hne (H1 & H2 & H3). unfold state_ok; simpl. rewrite registered_at_insert by done.
    by rewrite decide_False by (simpl; congruence).
  - destruct (inv_state _ _ Hp1 l) as (H1 & H2 & H3). unfold state_ok; simpl.
    rewrite registered_at_insert by done. rewrite decide_True by done. simpl. by rewrite H1.
  - by left.
  - by left.
  - simpl. intros i r' [[<- <-]|[Hne Hr']]%lookup_insert_Some.
    + split_and!; try done; try lia. intros n [-> ?]%checked_add_some. lia.
    + destruct (inv_registration _ _ Hp1 i r' Hr') as (? & ? & ? & Hlt). split_and!; try done; try lia.
      intros n [-> ?]%checked_add_some. specialize (Hlt id Hid). lia.
  - simpl. intros n [-> ?]%checked_add_some. lia.
  - simpl. intros h w Hw. destruct (inv_waiter _ _ Hp1 h w Hw) as (r' & Hr' & Hst).
    exists r'. rewrite lookup_insert_ne; [done|]. congruence.
Qed.

Lemma inv_drop_registration capacity id p q r :
  inv capacity p -> drop_registration id p = Some (q, r) -> inv capacity q.
Proof.
  intros Hinv. unfold drop_registration. destruct (live_registrations p !! id) as [g|] eqn:Hg; [|done].
  case_bool_decide as Hw; [|done]. intros [= <- _].
  destruct (inv_registration _ _ Hinv id g Hg) as (Hl & _ & _ & _).
  apply (inv_update capacity p _ (registration_state g)
    (release_registration id (deref (store p) (registration_state g)))); try done; try apply Hinv.
  - by eapply inv_address.
  - intros l' s Hne (H1 & H2 & H3). unfold state_ok; simpl. rewrite registered_at_delete.
    split_and!; try done. rewrite delete_id; [done|]. apply eq_None_not_Some.
    intros [c (g' & Hg' & Hst & _)%registered_at_lookup]. congruence.
  - destruct (inv_state _ _ Hinv (registration_state g)) as (H1 & H2 & H3). unfold state_ok; simpl.
    by rewrite registered_at_delete, H1.
  - by left.
  - by left.
  - simpl. intros i r' [_ Hr']%lookup_delete_Some. by eapply inv_registration.
  - simpl. intros h w Hhw. destruct (inv_waiter _ _ Hinv h w Hhw) as (r' & Hr' & Hst).
    exists r'. rewrite lookup_delete_ne; [done|]. intros Heq. by eapply Hw.
Qed.

Lemma inv_start_waiting capacity id g delay p q r :
  inv capacity p -> live_registrations p !! id = Some g ->
  start_waiting id g delay p = Some (q, r) -> inv capacity q.
Proof.
  intros Hinv Hg. unfold start_waiting. destruct (Z.ltb_spec (Z.of_nat (size (waiters p))) u32_max); [|done].
  intros [= <- _]. set (l := registration_state g).
  destruct (inv_registration _ _ Hinv id g Hg) as (Hl & _ & _ & _).
  assert (Hfree : waiters p !! next_handle p = None) by (by apply Hinv).
  apply (inv_update capacity p _ l (register_waiter (deref (store p) l))); try done; try apply Hinv.
  - by eapply inv_address.
  - intros l' s Hne (H1 & H2 & H3). unfold state_ok; simpl. rewrite pointing_insert by done.
    by rewrite decide_False by (simpl; congruence).
  - destruct (inv_state _ _ Hinv l) as (H1 & H2 & H3). unfold state_ok; simpl.
    rewrite pointing_insert by done. rewrite decide_True by done. split_and!; try done. rewrite H3.
    unfold saturating_add. assert (pointing waiter_state l (waiters p) <= size (waiters p))%nat; [|lia].
    apply map_subseteq_size, map_filter_subseteq.
  - by left.
  - by left.
  - simpl. intros h w [[<- <-]|[_ Hw]]%lookup_insert_Some; [by exists g|]. by eapply inv_waiter.
  - simpl. intros h Hh. rewrite lookup_insert_ne by lia. apply Hinv. lia.
  - simpl. rewrite map_size_insert_None by done. lia.
Qed.

(** What a live waiter gives. *)
Lemma waiter_facts capacity h w p :
  inv capacity p -> waiters p !! h = Some w ->
  exists g, live_registrations p !! waiter_registration w = Some g /\
    registration_state g = waiter_state w /\
    states p !! registration_origin g = Some (waiter_state w) /\
    (waiter_state w < next_address p)%nat /\ configuration_valid (configuration g) = true /\
    (forall l, l <> waiter_state w ->
      pointing waiter_state l (delete h (waiters p)) = pointing waiter_state l (waiters p)) /\
    saturating_sub (waiting_admissions (deref (store p) (waiter_state w))) 1
      = Z.of_nat (pointing waiter_state (waiter_state w) (delete h (waiters p))).
Proof.
  intros Hinv Hw. destruct (inv_waiter _ _ Hinv h w Hw) as (g & Hg & Hst).
  destruct (inv_registration _ _ Hinv _ g Hg) as (Hl & Hc & _ & _).
  destruct (inv_state _ _ Hinv (waiter_state w)) as (_ & _ & H3).
  exists g. rewrite Hst in Hl. split_and!; try done.
  - by eapply inv_address.
  - intros l Hne. rewrite (pointing_delete _ _ (waiters p) _ _ Hw). by rewrite decide_False by congruence.
  - rewrite H3, (pointing_delete _ _ _ _ _ Hw), decide_True by done. unfold saturating_sub. lia.
Qed.

(** The waiter map after a waiter ended. *)
Lemma inv_waiters_delete capacity h p :
  inv capacity p ->
  (forall i w, delete h (waiters p) !! i = Some w ->
    exists r, live_registrations p !! waiter_registration w = Some r /\ registration_state r = waiter_state w) /\
  Z.of_nat (size (delete h (waiters p))) <= u32_max.
Proof.
  intros Hinv. split.
  - intros i w [_ Hw]%lookup_delete_Some. by eapply inv_waiter.
  - pose proof (inv_waiting _ _ Hinv). assert (size (delete h (waiters p)) <= size (waiters p))%nat; [|lia].
    apply map_subseteq_size, delete_subseteq.
Qed.

Lemma inv_end_waiter capacity h w p s' k :
  inv capacity p -> waiters p !! h = Some w ->
  registrations s' = registrations (deref (store p) (waiter_state w)) ->
  waiting_admissions s' = waiting_admissions (deref (store p) (waiter_state w)) ->
  in_flight s' = in_flight (deref (store p) (waiter_state w)) + Z.of_nat (length k) ->
  Forall (eq (waiter_state w)) k ->
  (forall d, protects d (deref (store p) (waiter_state w)) -> protects d s' \/ d <= clock p) ->
  inv capacity (with_history (deadlines_set p) (k ++ leaked p)
    (end_waiter h (waiter_state w) (with_store (<[waiter_state w := s']> (store p)) p))).
Proof.
  intros Hinv Hw Hr Ha Hf Hk Hprot.
  destruct (waiter_facts _ _ _ _ Hinv Hw) as (g & Hg & Hst & Hl & Hlt & _ & Hothers & Hown).
  destruct (inv_waiters_delete _ h _ Hinv) as [Hws Hsz].
  assert (Hleak : forall l, length (filter (eq l) (k ++ leaked p))
    = ((if decide (l = waiter_state w) then length k else 0) + length (filter (eq l) (leaked p)))%nat).
  { intros l. clear Hf. rewrite filter_app, List.length_app. f_equal. destruct (decide _) as [->|Hne].
    - f_equal. induction Hk as [|x k <- Hk IH]; [done|]. rewrite filter_cons_True by done. simpl. by rewrite IH.
    - induction Hk as [|x k <- Hk IH]; [done|]. by rewrite filter_cons_False by done. }
  apply (inv_update capacity p _ (waiter_state w) (release_waiter s')); try done; try apply Hinv.
  - simpl. unfold update_at. by rewrite insert_insert_eq, deref_insert.
  - intros l' s Hne (H1 & H2 & H3). unfold state_ok; simpl.
    rewrite Hleak, decide_False, Hothers by congruence. done.
  - destruct (inv_state _ _ Hinv (waiter_state w)) as (H1 & H2 & H3). unfold state_ok; simpl.
    rewrite Hr, Ha, Hf, Hleak, decide_True, Hown by done. split_and!; try done. rewrite H2. lia.
  - by left.
  - simpl. intros i Hi. rewrite lookup_delete_None. destruct (inv_handles _ _ Hinv i Hi). auto.
Qed.

Lemma inv_cancel_waiter capacity h p q r :
  inv capacity p -> cancel_waiter h p = Some (q, r) -> inv capacity q.
Proof.
  intros Hinv. unfold cancel_waiter. destruct (waiters p !! h) as [w|] eqn:Hw; [|done].
  intros [= <- _].
  pose proof (inv_end_waiter capacity h w p (deref (store p) (waiter_state w)) [] Hinv Hw eq_refl eq_refl)
    as H. simpl in H. unfold end_waiter, update_at in *. simpl in H.
  rewrite insert_insert_eq, deref_insert in H. destruct p; apply H; [lia|constructor|auto].
Qed.

Lemma concurrency_range capacity p l e :
  inv capacity p -> effective_concurrency (deref (store p) l) = Some e -> e <= u32_max.
Proof.
  intros Hinv [[i Hi] _]%effective_concurrency_some.
  destruct (inv_state _ _ Hinv l) as (H1 & _ & _). rewrite H1 in Hi.
  apply registered_at_lookup in Hi as (g & Hg & _ & <-).
  destruct (inv_registration _ _ Hinv i g Hg) as (_ & Hc & _ & _). unfold configuration_valid in Hc.
  boolify. lia.
Qed.

Lemma in_flight_nonneg capacity p l : inv capacity p -> 0 <= in_flight (deref (store p) l).
Proof. intros Hinv. destruct (inv_state _ _ Hinv l) as (_ & -> & _). lia. Qed.

Lemma inv_try_acquire instant_max capacity h p q r :
  inv capacity p -> try_acquire instant_max h p = Some (q, r) -> inv capacity q.
Proof.
  intros Hinv. unfold try_acquire. destruct (waiters p !! h) as [w|] eqn:Hw; [|done].
  destruct (waiter_facts _ _ _ _ Hinv Hw) as (g & Hg & Hst & Hl & Hlt & _ & Hothers & Hown).
  rewrite Hg. destruct (attempt _ _ _ _) as [after answer] eqn:Hatt.
  set (l := waiter_state w) in *. set (before := deref (store p) l) in *.
  assert (Hcase : answer = Ok Acquired \/ answer <> Ok Acquired)
    by (destruct answer as [[| |]|]; auto; right; congruence).
  destruct Hcase as [->|Hans].
  - apply attempt_acquired in Hatt as ((e & He & Hlte) & Hopen & Hmax & ->).
    pose proof (concurrency_range _ _ _ _ Hinv He). intros [= <- _].
    destruct (inv_waiters_delete _ h _ Hinv) as [Hws Hsz].
    destruct (inv_state _ _ Hinv l) as (H1 & H2 & H3). fold before in H1, H2, H3.
    assert (Hfree : permits p !! next_handle p = None) by (by apply Hinv).
    eapply (inv_update capacity p _ l); try done; try apply Hinv; simpl.
    + unfold update_at. by rewrite insert_insert_eq, deref_insert.
    + intros l' s Hne (E1 & E2 & E3). unfold state_ok; simpl.
      rewrite Hothers, pointing_insert, decide_False by (done || simpl; congruence). done.
    + unfold state_ok; simpl. rewrite pointing_insert, decide_True by done. rewrite <- Hown.
      split_and!; try done. unfold saturating_add. lia.
    + intros d (x & Hx & Hd). right. specialize (Hopen x Hx). lia.
    + intros o d [[= -> ->]|Hod]%elem_of_cons; [right|by left]. split; [done|]. left.
      eexists. rewrite elem_of_deadlines. split; [by left|done].
    + intros i x [[<- <-]|[_ Hx]]%lookup_insert_Some; [done|]. by eapply inv_permit.
    + intros i Hi. rewrite lookup_delete_None, lookup_insert_ne by lia.
      destruct (inv_handles _ _ Hinv i ltac:(lia)). auto.
  - assert (Htidy : tidied (clock p) before after -> forall k, k ++ leaked p = leaked p ->
      inv capacity (with_store (<[l := after]> (store p)) p) /\
      inv capacity (with_history (deadlines_set p) (leaked p) (end_waiter h l (with_store (<[l := after]> (store p)) p)))).
    { intros Htidy _ _. destruct (tidied_frame _ _ _ Htidy) as (E1 & E2 & E3). split.
      - apply (inv_update capacity p _ l after); try done; try apply Hinv.
        + destruct (inv_state _ _ Hinv l) as (H1 & H2 & H3). unfold state_ok. simpl. by rewrite E1, E2, E3.
        + intros d. by apply tidied_protects.
        + by left.
      - apply (inv_end_waiter capacity h w p after []); try done; [simpl; fold l before; lia|].
        intros d. by apply tidied_protects. }
    destruct (attempt_other _ _ _ _ _ _ Hatt Hans) as [Heq|(-> & _ & Heq & e & He & Hlte)].
    + specialize (Htidy (or_intror Heq) [] eq_refl) as [Hi1 Hi2].
      assert ((in_flight before <? in_flight after) = false) as -> by (rewrite Heq; simpl; lia).
      destruct answer as [[| |]|]; intros [= <- _]; done.
    + clear Htidy. pose proof (concurrency_range _ _ _ _ Hinv He).
      pose proof (in_flight_nonneg _ _ l Hinv) as Hnn. fold before in Hnn.
      assert (Hinc : in_flight after = in_flight before + 1)
        by (rewrite Heq; simpl; unfold saturating_add; lia).
      assert ((in_flight before <? in_flight after) = true) as -> by (rewrite Hinc; lia).
      intros [= <- _]. apply (inv_end_waiter capacity h w p after [l]); try (by rewrite Heq).
      * done.
      * done.
      * by rewrite Hinc.
      * by constructor.
      * intros d Hd. apply (normalize_protects (clock p)) in Hd. by rewrite Heq.
Qed.

Lemma inv_permit_record_outcome instant_max capacity h o now p q r :
  inv capacity p -> now <= clock p ->
  permit_record_outcome instant_max h o now p = Some (q, r) -> inv capacity q.
Proof.
  intros Hinv Hnow. unfold permit_record_outcome. destruct (permits p !! h) as [x|] eqn:Hx; [|done].
  destruct (outcome_recorded x); [by intros [= <- _]|].
  set (l := permit_state x). destruct (record_outcome _ _ _ _) as [after answer] eqn:Hrec.
  intros [= <- _]. pose proof (inv_permit _ _ Hinv h x Hx) as Hl.
  destruct (record_outcome_frame _ _ _ _ _ _ Hrec) as (E1 & E2 & E3).
  assert (Hpoint : forall l', pointing permit_state l' (<[h := Build_Permit (permit_origin x) l true]> (permits p))
    = pointing permit_state l' (permits p)) by (intros; by eapply pointing_replace).
  apply (inv_update capacity p _ l after); try done; try apply Hinv; simpl.
  - by eapply inv_address.
  - intros l' s Hne (H1 & H2 & H3). unfold state_ok; simpl. by rewrite Hpoint.
  - destruct (inv_state _ _ Hinv l) as (H1 & H2 & H3). unfold state_ok; simpl.
    by rewrite Hpoint, E1, E2, E3.
  - intros d Hd. destruct (normalize_protects now _ _ Hd) as [Hp|?]; [left|right; lia].
    eapply record_outcome_protects; [done|by left].
  - intros o' d [Hnew|?]%elem_of_app; [right|by left].
    apply elem_of_map in Hnew as (d' & [= -> ->] & Hd'). split; [done|]. left.
    eapply record_outcome_protects; [done|by right].
  - intros i y [[<- <-]|[_ Hy]]%lookup_insert_Some; [done|]. by eapply inv_permit.
  - intros i Hi. destruct (inv_handles _ _ Hinv i Hi) as [? Hi']. split; [done|].
    rewrite lookup_insert_ne; [done|]. intros <-. by rewrite Hx in Hi'.
Qed.

Lemma inv_drop_permit capacity h p q r :
  inv capacity p -> drop_permit h p = Some (q, r) -> inv capacity q.
Proof.
  intros Hinv. unfold drop_permit. destruct (permits p !! h) as [x|] eqn:Hx; [|done].
  intros [= <- _]. pose proof (inv_permit _ _ Hinv h x Hx) as Hl.
  apply (inv_update capacity p _ (permit_state x) (release (deref (store p) (permit_state x))));
    try done; try apply Hinv; simpl.
  - by eapply inv_address.
  - intros l' s Hne (H1 & H2 & H3). unfold state_ok; simpl.
    rewrite (pointing_delete _ _ _ _ _ Hx), decide_False in H2 by congruence. done.
  - destruct (inv_state _ _ Hinv (permit_state x)) as (H1 & H2 & H3). unfold state_ok; simpl.
    rewrite (pointing_delete _ _ _ _ _ Hx), decide_True in H2 by done.
    split_and!; try done. rewrite H2. unfold saturating_sub. lia.
  - by left.
  - by left.
  - intros i y [_ Hy]%lookup_delete_Some. by eapply inv_permit.
  - intros i Hi. rewrite lookup_delete_None. destruct (inv_handles _ _ Hinv i Hi). auto.
Qed.

Lemma inv_step instant_max capacity e p q r :
  inv capacity p -> step instant_max capacity e p = Some (q, r) -> inv capacity q.
Proof.
  intros Hinv. destruct e; simpl.
  - destruct (Z.leb_spec 0 elapsed); [|done]. intros [= <- _].
    destruct Hinv. split; try done. simpl. intros o d Hod.
    destruct (inv_deadlines0 o d Hod) as [?|?]; [left; lia|by right].
  - destruct (_ && _) eqn:Hok; [|done]. apply andb_true_iff in Hok as [Hnow%Z.leb_le Hc].
    intros [= Hq]. by eapply inv_register.
  - by apply inv_drop_registration.
  - unfold acquire. destruct (live_registrations p !! id) as [g|] eqn:Hg; [|done].
    destruct (negb _); [by intros [= <- _]|].
    destruct (admission_decision robots); try (by intros [= <- _]); by eapply inv_start_waiting.
  - unfold acquire_robots_fetch. destruct (live_registrations p !! id) as [g|] eqn:Hg; [|done].
    by eapply inv_start_waiting.
  - by apply inv_try_acquire.
  - by apply inv_cancel_waiter.
  - destruct (Z.leb_spec now (clock p)); [|done]. by apply inv_permit_record_outcome.
  - by apply inv_drop_permit.
Qed.

Lemma inv_reachable instant_max capacity p : reachable instant_max capacity p -> inv capacity p.
Proof. induction 1; [apply inv_initial|by eapply inv_step]. Qed.

(** ** Grants *)

Lemma try_acquire_granted instant_max capacity h p q x :
  inv capacity p -> try_acquire instant_max h p = Some (q, Granted x) ->
  exists w r, waiters p !! h = Some w /\ live_registrations p !! waiter_registration w = Some r /\
    states p !! registration_origin r = Some (waiter_state w) /\
    (exists e, effective_concurrency (deref (store p) (waiter_state w)) = Some e /\
      in_flight (deref (store p) (waiter_state w)) < e) /\
    (forall d, d ∈ deadlines (deref (store p) (waiter_state w)) -> d <= clock p) /\
    clock q = clock p /\ live_registrations q = live_registrations p /\
    permits p !! x = None /\
    permits q = <[x := Build_Permit (registration_origin r) (waiter_state w) false]> (permits p) /\
    deadlines_set q = (registration_origin r, clock p + waiter_delay w) :: deadlines_set p.
Proof.
  intros Hinv. unfold try_acquire. destruct (waiters p !! h) as [w|] eqn:Hw; [|done].
  destruct (waiter_facts _ _ _ _ Hinv Hw) as (g & Hg & Hst & Hl & _). rewrite Hg.
  destruct (attempt _ _ _ _) as [after answer] eqn:Hatt.
  destruct answer as [[| |]|e]; intros [= <- ?]; subst x.
  apply attempt_acquired in Hatt as (Hc & Hopen & _ & _). exists w, g. split_and!; try done.
  by apply (inv_handles _ _ Hinv).
Qed.

Lemma deadlines_set_grow instant_max capacity e p q r :
  step instant_max capacity e p = Some (q, r) -> deadlines_set p ⊆ deadlines_set q /\ clock p <= clock q.
Proof.
  assert (Hrefl : deadlines_set p ⊆ deadlines_set p /\ clock p <= clock p) by (split; [set_solver|lia]).
  destruct e; simpl.
  - destruct (Z.leb_spec 0 elapsed); [|done]. intros [= <- _]. simpl. split; [set_solver|lia].
  - destruct (_ && _); [|done]. intros [= Hq]. unfold register, find_state in Hq.
    destruct (states p !! origin) as [l|]; [destruct (next_registration_id p); by injection Hq as <- _|].
    destruct (Nat.leb capacity (size (states p))).
    + destruct (prune_safe_states _ _ _ _) as [m h]. destruct (Nat.leb _ _); [by injection Hq as <- _|].
      simpl in Hq. destruct (next_registration_id p); by injection Hq as <- _.
    + destruct (Nat.leb _ _); [by injection Hq as <- _|].
      simpl in Hq. destruct (next_registration_id p); by injection Hq as <- _.
  - unfold drop_registration. destruct (_ !! _); [|done]. case_bool_decide; [|done]. by intros [= <- _].
  - unfold acquire, start_waiting. destruct (_ !! _); [|done]. destruct (negb _); [by intros [= <- _]|].
    destruct (admission_decision robots); try (by intros [= <- _]);
      (destruct (_ <? _); [|done]); by intros [= <- _].
  - unfold acquire_robots_fetch, start_waiting. destruct (_ !! _); [|done].
    destruct (_ <? _); [|done]. by intros [= <- _].
  - unfold try_acquire. destruct (_ !! _); [|done]. destruct (_ !! _); [|done].
    destruct (attempt _ _ _ _) as [? [[| |]|]]; intros [= <- _]; simpl; split; try lia; set_solver.
  - unfold cancel_waiter. destruct (_ !! _); [|done]. by intros [= <- _].
  - destruct (now <=? clock p); [|done]. unfold permit_record_outcome. destruct (_ !! _); [|done].
    destruct (outcome_recorded _); [by intros [= <- _]|]. destruct (record_outcome _ _ _ _).
    intros [= <- _]. simpl. split; [set_solver|lia].
  - unfold drop_permit. destruct (_ !! _); [|done]. by intros [= <- _].
Qed.

Lemma run_reachable instant_max capacity es p q :
  reachable instant_max capacity p -> run instant_max capacity es p = Some q ->
  reachable instant_max capacity q /\ deadlines_set p ⊆ deadlines_set q.
Proof.
  revert p. induction es as [|e es IH]; intros p Hp; simpl; [intros [= ->]; split; [done|set_solver]|].
  destruct (step _ _ _ _) as [[p' r]|] eqn:Hs; [|done]. intros Hrun.
  destruct (IH p') as [? ?]; [by eapply reachable_step|done|]. split; [done|].
  apply deadlines_set_grow in Hs. set_solver.
Qed.

(** A deadline set for an origin binds every later grant. *)
Lemma deadline_binds instant_max capacity p q h x d o es :
  reachable instant_max capacity p -> (o, d) ∈ deadlines_set p ->
  run instant_max capacity es p = Some q ->
  forall q' g, step instant_max capacity (TryAcquire h) q = Some (q', Granted x) ->
  permits q' !! x = Some g -> permit_origin g = o -> d <= clock q.
Proof.
  intros Hp Hd Hrun q' g Hs Hg Ho. destruct (run_reachable _ _ _ _ _ Hp Hrun) as [Hq Hsub].
  pose proof (inv_reachable _ _ _ Hq) as Hinv.
  apply (try_acquire_granted _ _ _ _ _ _ Hinv) in Hs as
    (w & r & Hw & Hr & Hl & _ & Hopen & _ & _ & _ & Hperm & _).
  rewrite Hperm, lookup_insert_eq in Hg. injection Hg as <-. simpl in Ho. subst o.
  destruct (inv_deadlines _ _ Hinv _ _ (Hsub _ Hd)) as [?|(l & Hl' & y & Hy & Hle)]; [done|].
  rewrite Hl in Hl'. injection Hl' as <-. specialize (Hopen y Hy). lia.
Qed.

(** ** Retry-After *)

Lemma retry_from_duration_delay n d :
  retry_delay (retry_from_duration n) = Some d -> 0 <= n ->
  0 <= d <= MAX_PACING_DELAY /\ d = Z.min MAX_PACING_DELAY n.
Proof.
  unfold retry_from_duration. destruct (Z.ltb_spec MAX_PACING_DELAY n); simpl; intros [= <-] ?; [|lia].
  split; [done|lia].
Qed.

(** The latest deadline that lies ahead. *)
Lemma latest_normalized now s :
  match latest_deadline (normalize_expired_safety now s) with
  | None => forall d, d ∈ deadlines s -> d <= now
  | Some m => m ∈ deadlines s /\ now < m /\ forall d, d ∈ deadlines s -> d <= m
  end.
Proof.
  unfold latest_deadline. fold (deadlines (normalize_expired_safety now s)).
  destruct (max_by _ _) as [m|] eqn:Hm.
  - apply max_by_some in Hm as [[Hin Hlt]%normalize_deadlines Hall]; [|apply _].
    rewrite Forall_forall in Hall. split_and!; try done. intros d Hd.
    destruct (Z.ltb_spec now d); [|lia]. apply cmp_le_Z, Hall. by apply normalize_deadlines.
  - apply max_by_none in Hm. intros d Hd. destruct (Z.leb_spec d now) as [|Hlt]; [done|].
    assert (d ∈ deadlines (normalize_expired_safety now s)) as Hin by (by apply normalize_deadlines).
    rewrite Hm in Hin. by apply not_elem_of_nil in Hin.
Qed.

(** ** Back-off *)

Lemma bounded_backoff_value n :
  0 <= n <= u8_max -> bounded_backoff n = Z.min MAX_RATE_LIMIT_BACKOFF (from_secs (2 ^ Z.max 0 (n - 1))).
Proof.
  intros Hn. set (e := Z.min (saturating_sub n 1) 6).
  assert (He : bounded_backoff n = Z.min MAX_RATE_LIMIT_BACKOFF (from_secs (2 ^ e))).
  { assert (Hin : e ∈ seqZ 0 7) by (apply elem_of_seqZ; unfold e, saturating_sub; lia).
    unfold bounded_backoff. fold e. clearbody e. vm_compute in Hin.
    repeat (apply elem_of_cons in Hin as [->|Hin]; [done|]). by inversion Hin. }
  rewrite He. unfold e, saturating_sub. destruct (Z.le_gt_cases (n - 1) 6) as [Hle|Hgt].
  - do 3 f_equal. lia.
  - rewrite (Z.min_r _ 6) by lia. rewrite Z.max_r by lia.
    assert (2 ^ 6 <= 2 ^ (n - 1)) by (apply Z.pow_le_mono_r; lia).
    unfold MAX_RATE_LIMIT_BACKOFF, from_secs. change (10 ^ 9) with 1000000000.
    change (2 ^ 6) with 64 in *. lia.
Qed.

Lemma bounded_backoff_base n : RATE_LIMIT_BACKOFF_BASE <= bounded_backoff n.
Proof.
  set (e := Z.min (saturating_sub n 1) 6).
  assert (Hin : e ∈ seqZ 0 7) by (apply elem_of_seqZ; unfold e, saturating_sub; lia).
  unfold bounded_backoff. fold e. clearbody e. vm_compute in Hin.
  repeat (apply elem_of_cons in Hin as [->|Hin]; [done|]). by inversion Hin.
Qed.

(** Registration fails for lack of room only when nothing can be retired. *)
Lemma retire_scan_complete now entries h h' removable o l :
  retire_scan now entries h = (h', removable) -> (o, l) ∈ entries -> o ∉ removable ->
  (is_safe_to_retire now (deref h l)).2 = false.
Proof.
  revert h h' removable. induction entries as [|[o1 l1] entries IH]; intros h h' removable.
  { by intros _ ?%not_elem_of_nil. }
  cbn [retire_scan]. set (s := normalize_expired_safety now (deref h l1)).
  change (is_safe_to_retire now (deref h l1)) with (s, (is_safe_to_retire now (deref h l1)).2).
  cbn [fst snd]. set (safe := snd _). cbv zeta. destruct (retire_scan now entries (<[l1 := s]> h)) as [h1 rem] eqn:Hscan.
  intros [= <- <-] [Heq|Hin]%elem_of_cons Hno.
  - injection Heq as E1 E2. subst o l. fold safe. destruct safe; [|done]. exfalso. apply Hno. left.
  - assert (Hno' : o ∉ rem) by (destruct safe; [set_solver|done]).
    pose proof (IH _ _ _ Hscan Hin Hno') as Hs. destruct (decide (l1 = l)) as [->|Hne].
    + rewrite deref_insert in Hs. unfold s in Hs. by rewrite normalize_safe in Hs.
    + by rewrite deref_insert_ne in Hs.
Qed.

(** * Properties *)

(** The permits for an origin that are out. *)
Definition permits_out (o : OriginKey) (p : Process) : nat :=
  size (filter (fun x : nat * Permit => permit_origin x.2 = o) (permits p)).

Section properties.
Context (instant_max : Z) (capacity : nat).
Local Abbreviation reachable := (reachable instant_max capacity).
Local Abbreviation step := (step instant_max capacity).
Local Abbreviation run := (run instant_max capacity).

(** Concurrency: right after an admission is granted, the permits out for its
    origin number at most the concurrency of every live registration of that origin,
    wherever and whenever those permits were granted. *)
Theorem granted_within_concurrency p h q x :
  reachable p -> step (TryAcquire h) p = Some (q, Granted x) ->
  exists g, permits q !! x = Some g /\
  forall id r, live_registrations q !! id = Some r -> registration_origin r = permit_origin g ->
    Z.of_nat (permits_out (permit_origin g) q) <= conf_concurrency (configuration r).
Proof.
  intros Hp%inv_reachable Hs. pose proof (inv_step _ _ _ _ _ _ Hp Hs) as Hq.
  apply (try_acquire_granted _ _ _ _ _ _ Hp) in Hs as
    (w & r & Hw & Hr & Hl & (e & He & Hlt) & _ & _ & Hregs & Hx & Hperm & _).
  eexists. split; [rewrite Hperm; apply lookup_insert_eq|]. simpl. intros id r' Hr' Ho.
  set (o := registration_origin r) in *. set (l := waiter_state w) in *.
  assert (Hout : (permits_out o q <= pointing permit_state l (permits q))%nat).
  { apply map_subseteq_size, map_subseteq_spec. intros i g Hg.
    apply map_lookup_filter_Some in Hg as [Hg Hgo]. apply map_lookup_filter_Some. split; [done|].
    rewrite Hperm in Hg. apply lookup_insert_Some in Hg as [[_ <-]|[_ Hg]]; [done|].
    apply (inv_permit _ _ Hp) in Hg. simpl in *. congruence. }
  rewrite Hperm, pointing_insert, decide_True in Hout by done.
  destruct (inv_state _ _ Hp l) as (H1 & H2 & _).
  apply effective_concurrency_some in He as [_ Hmin].
  assert (e <= conf_concurrency (configuration r')); [|lia].
  rewrite Hregs in Hr'. apply (Hmin id). rewrite H1. apply registered_at_lookup. exists r'.
  split_and!; try done. apply (inv_registration _ _ Hp) in Hr' as [Hr' _]. congruence.
Qed.

(** One state per origin: the registry never exceeds its capacity, and every live
    registration and permit uses the one state registered for its origin, which no
    other origin uses, so no interleaving splits the accounting of an origin. *)
Theorem one_state_per_origin p :
  reachable p ->
  (size (states p) <= capacity)%nat /\
  (forall id r, live_registrations p !! id = Some r ->
    states p !! registration_origin r = Some (registration_state r)) /\
  (forall h g, permits p !! h = Some g -> states p !! permit_origin g = Some (permit_state g)) /\
  (forall o o' l, states p !! o = Some l -> states p !! o' = Some l -> o = o').
Proof.
  intros Hinv%inv_reachable. split_and!; apply Hinv.
Qed.

(** Spacing: after a request to an origin is granted, no other one is granted
    before the delay in force for the first has passed, whatever happens in between,
    retirement of the origin's state included. *)
Theorem requests_spaced p h q x w g es q1 h' q2 y g' :
  reachable p -> waiters p !! h = Some w ->
  step (TryAcquire h) p = Some (q, Granted x) -> permits q !! x = Some g ->
  run es q = Some q1 -> step (TryAcquire h') q1 = Some (q2, Granted y) ->
  permits q2 !! y = Some g' -> permit_origin g' = permit_origin g ->
  clock p + waiter_delay w <= clock q1.
Proof.
  intros Hp Hw Hs Hg Hrun Hs' Hg' Ho. pose proof (inv_reachable _ _ _ Hp) as Hinv.
  pose proof Hs as Hs0. apply (try_acquire_granted _ _ _ _ _ _ Hinv) in Hs as
    (w' & r & Hw' & Hr & Hl & _ & _ & _ & _ & Hx & Hperm & Hlog).
  rewrite Hperm, lookup_insert_eq in Hg. simplify_eq.
  eapply deadline_binds; [by eapply reachable_step| |done..]. rewrite Hlog. left.
Qed.

(** Rate limits: once a permit has recorded a rate-limited answer, no request to
    its origin is granted before the back-off base has passed, nor before the
    Retry-After delay the answer carried. *)
Theorem rate_limit_respected p h g ra now q es q1 h' q2 y g' :
  reachable p -> permits p !! h = Some g -> outcome_recorded g = false ->
  step (RecordOutcome h (RateLimited ra) now) p = Some (q, Done) ->
  run es q = Some q1 -> step (TryAcquire h') q1 = Some (q2, Granted y) ->
  permits q2 !! y = Some g' -> permit_origin g' = permit_origin g ->
  now + RATE_LIMIT_BACKOFF_BASE <= clock q1 /\
  forall d, retry_delay ra = Some d -> now + d <= clock q1.
Proof.
  intros Hp Hg Hrec Hs Hrun Hs' Hg' Ho.
  assert (Hq : reachable q) by (by eapply reachable_step).
  assert (Hbind : forall d, (permit_origin g, d) ∈ deadlines_set q -> d <= clock q1)
    by (intros; by eapply deadline_binds).
  revert Hs. cbn [step]. destruct (now <=? clock p); [|done]. unfold permit_record_outcome.
  rewrite Hg, Hrec. set (l := permit_state g). unfold record_outcome, outcome_deadlines.
  change (consecutive_rate_limits (normalize_expired_safety now (deref (store p) l)))
    with (consecutive_rate_limits (deref (store p) l)).
  set (n := saturating_add u8_max _ 1). cbn [consecutive_rate_limits set_rate_limits].
  destruct (instant_add instant_max now (bounded_backoff n)) as [b|] eqn:Hb; [|by intros [=]].
  unfold instant_add in Hb. apply ok_or_ok, checked_add_some in Hb as [-> _].
  pose proof (bounded_backoff_base n) as Hbase.
  destruct (retry_delay ra) as [rd|] eqn:Hra.
  - destruct (instant_add instant_max now rd) as [rt|] eqn:Hrt; [|by intros [=]].
    apply ok_or_ok, checked_add_some in Hrt as [-> _]. intros [= <-].
    split; [transitivity (now + bounded_backoff n); [lia|]|intros d [= <-]]; apply Hbind; simpl.
    + left.
    + right; left.
  - intros [= <-]. split; [|done]. transitivity (now + bounded_backoff n); [lia|]. apply Hbind. left.
Qed.
(** A registration is refused for lack of room only when the registry is full, the
    origin is new, and none of the registered states may be retired. *)
Theorem capacity_error_only_when_full p o c now q :
  reachable p -> step (Register o c now) p = Some (q, Failed OriginCapacityExhausted) ->
  states p !! o = None /\ size (states p) = capacity /\
  forall o' l, states p !! o' = Some l -> (is_safe_to_retire now (deref (store p) l)).2 = false.
Proof.
  intros Hinv%inv_reachable. cbn [step]. destruct (_ && _); [|done]. unfold register, find_state.
  destruct (states p !! o) as [l|] eqn:Ho; [destruct (next_registration_id p); by intros [=]|].
  pose proof (inv_size _ _ Hinv) as Hsize.
  destruct (Nat.leb_spec capacity (size (states p))) as [Hfull|Hroom].
  2:{ destruct (Nat.leb_spec capacity (size (states p))); [lia|]. simpl.
      destruct (next_registration_id p); by intros [=]. }
  destruct (prune_safe_states _ _ _ _) as [m h] eqn:Hprune. simpl.
  destruct (Nat.leb_spec capacity (size m)) as [Hfull'|]; [intros _|destruct (next_registration_id p); by intros [=]].
  split_and!; [done|lia|]. intros o' l Hl.
  unfold prune_safe_states in Hprune. destruct (retire_scan _ _ _) as [h' removable] eqn:Hscan.
  injection Hprune as <- <-.
  assert (removable = []) as ->.
  { destruct removable as [|o1 rest]; [done|exfalso].
    apply retire_scan_spec in Hscan as (_ & _ & Hr). destruct (Hr o1 ltac:(left)) as (l1 & Hin & _).
    rewrite sort_by_perm, elem_of_map_to_list in Hin. cbn [remove_until_room] in Hfull'.
    destruct (Nat.ltb_spec (size (states p)) capacity); [lia|].
    pose proof (remove_until_room_sub capacity rest (delete o1 (states p))) as Hsub%map_subseteq_size.
    rewrite map_size_delete_Some in Hsub by done.
    assert (size (states p) <> 0%nat); [|lia]. intros Hz%map_size_empty_inv.
    by rewrite Hz, lookup_empty in Hin. }
  eapply retire_scan_complete; [exact Hscan| |by apply not_elem_of_nil].
  by rewrite sort_by_perm, elem_of_map_to_list.
Qed.

(** No capacity is lost while the clock does not overflow: once an origin has no
    live registration and no permit out, and its deadlines have passed, its state may
    be retired. *)
Theorem quiescent_origin_retires p o l now :
  reachable p -> leaked p = [] -> states p !! o = Some l ->
  (forall id r, live_registrations p !! id = Some r -> registration_origin r <> o) ->
  permits_out o p = 0%nat -> (forall d, d ∈ deadlines (deref (store p) l) -> d <= now) ->
  (is_safe_to_retire now (deref (store p) l)).2 = true.
Proof.
  intros Hinv%inv_reachable Hleak Hl Hno Hout Hdl.
  destruct (inv_state _ _ Hinv l) as (H1 & H2 & H3). apply safe_to_retire_spec.
  assert (Hnone : forall id r, live_registrations p !! id = Some r -> registration_state r <> l).
  { intros id r Hr Hst. apply (Hno id r Hr). apply (inv_registration _ _ Hinv) in Hr as [Hr _].
    rewrite Hst in Hr. by eapply inv_distinct. }
  split_and!; [| | |done].
  - rewrite H1. apply map_empty. intros i. apply eq_None_not_Some.
    intros [c (r & Hr & Hst & _)%registered_at_lookup]. by eapply Hnone.
  - rewrite H2, Hleak. simpl. assert (pointing permit_state l (permits p) <= permits_out o p)%nat; [|lia].
    apply map_subseteq_size, map_subseteq_spec. intros i g [Hg Hgl]%map_lookup_filter_Some.
    apply map_lookup_filter_Some. split; [done|]. simpl in *.
    apply (inv_permit _ _ Hinv) in Hg. rewrite Hgl in Hg. by eapply inv_distinct.
  - rewrite H3. assert (pointing waiter_state l (waiters p) = 0%nat) as ->; [|done].
    apply map_size_empty_iff, map_empty. intros i. apply map_lookup_filter_None. right.
    intros w Hw. simpl. intros Hwl. destruct (inv_waiter _ _ Hinv i w Hw) as (r & Hr & Hst).
    apply (Hnone _ r Hr). congruence.
Qed.

(** An attempt of a live acquisition is granted exactly when the origin is below
    the least concurrency of its registrations, every deadline has passed and the next
    one is representable; it never finds its registration released, and otherwise it
    waits for the latest deadline or, when none lies ahead, for a permit. *)
Theorem attempt_decides p h w :
  reachable p -> waiters p !! h = Some w ->
  let s := deref (store p) (waiter_state w) in
  exists e q r, effective_concurrency s = Some e /\ step (TryAcquire h) p = Some (q, r) /\
  ((exists x, r = Granted x) <->
    in_flight s < e /\ (forall d, d ∈ deadlines s -> d <= clock p) /\
    clock p + waiter_delay w <= instant_max) /\
  (forall d, r = StillWaiting (WaitUntil d) <->
    d ∈ deadlines s /\ clock p < d /\ forall d', d' ∈ deadlines s -> d' <= d) /\
  (r = StillWaiting WaitForPermit <->
    e <= in_flight s /\ forall d, d ∈ deadlines s -> d <= clock p) /\
  r <> Failed RegistrationReleased.
Proof.
  intros Hinv%inv_reachable Hw s.
  destruct (waiter_facts _ _ _ _ Hinv Hw) as (g & Hg & Hst & _ & _ & _ & _ & _).
  destruct (effective_concurrency s) as [e|] eqn:He.
  2:{ exfalso. apply effective_concurrency_none in He.
      destruct (inv_state _ _ Hinv (waiter_state w)) as (H1 & _). fold s in H1. rewrite He in H1.
      assert (Hn : registered_at (waiter_state w) (live_registrations p) !! waiter_registration w = None)
        by (rewrite <- H1; apply lookup_empty).
      apply eq_None_not_Some in Hn. apply Hn. eexists. apply registered_at_lookup. by exists g. }
  cbn [step]. unfold try_acquire. rewrite Hw, Hg. fold s. unfold attempt.
  change (effective_concurrency (normalize_expired_safety (clock p) s)) with (effective_concurrency s).
  rewrite He. change (in_flight (normalize_expired_safety (clock p) s)) with (in_flight s).
  pose proof (latest_normalized (clock p) s) as Hlatest.
  destruct (latest_deadline _) as [m|].
  - destruct Hlatest as (Hin & Hlt & Hmax).
    assert ((m <=? clock p) = false) as -> by lia. assert ((clock p <? m) = true) as -> by lia.
    rewrite andb_false_r. do 3 eexists. split_and!; try done.
    + split; [by intros [x [=]]|]. intros (_ & Hall & _). specialize (Hall m Hin). lia.
    + intros d. split; [by intros [= <-]|]. intros (Hd & _ & Hd'). do 2 f_equal.
      specialize (Hmax d Hd). specialize (Hd' m Hin). lia.
    + split; [done|]. intros [_ Hall]. specialize (Hall m Hin). lia.
  - rewrite andb_true_r. destruct (Z.ltb_spec (in_flight s) e).
    + destruct (instant_add _ _ _) as [t|err] eqn:Hadd; unfold instant_add in Hadd.
      * apply ok_or_ok, checked_add_some in Hadd as [-> Hle]. do 3 eexists. split_and!; try done.
        -- split; [by intros _|]. intros _. by eexists.
        -- intros d. split; [done|]. intros (Hd & Hlt & _). specialize (Hlatest d Hd). lia.
        -- split; [done|]. intros [? _]. lia.
      * destruct (checked_add _ _ _) eqn:Hc; [done|]. apply checked_add_none in Hc.
        injection Hadd as <-. do 3 eexists. split_and!; try done.
        -- split; [by intros [x [=]]|]. intros (_ & _ & ?). lia.
        -- intros d. split; [done|]. intros (Hd & Hlt & _). specialize (Hlatest d Hd). lia.
        -- split; [done|]. intros [? _]. lia.
    + do 3 eexists. split_and!; try done.
      * split; [by intros [x [=]]|]. intros (? & _). lia.
      * intros d. split; [done|]. intros (Hd & Hlt & _). specialize (Hlatest d Hd). lia.
Qed.

End properties.

(** The back-off after [n] consecutive rate limits is [2^(n-1)] seconds, at most a
    minute and at least a second, for every value of the 8-bit counter. *)
Theorem bounded_backoff_spec n :
  in_u8 n ->
  bounded_backoff n = Z.min MAX_RATE_LIMIT_BACKOFF (from_secs (2 ^ Z.max 0 (n - 1))) /\
  RATE_LIMIT_BACKOFF_BASE <= bounded_backoff n <= MAX_RATE_LIMIT_BACKOFF.
Proof.
  intros Hn. pose proof (bounded_backoff_value n Hn) as Hv. pose proof (bounded_backoff_base n).
  split; [done|]. rewrite Hv at 2. lia.
Qed.

(** A Retry-After, from a provider or an HTTP header, in seconds or as a date, gives
    a delay between zero and five minutes, which is the one asked for unless that was
    longer. *)
Theorem retry_after_bounded `{HttpDateLib} value header now d :
  (forall ms, value = Some ms -> 0 <= ms) ->
  (retry_delay (from_provider_millis value) = Some d ->
    0 <= d <= MAX_PACING_DELAY /\ exists n, value = Some n /\ d = Z.min MAX_PACING_DELAY (from_millis n)) /\
  (retry_delay (from_http_header header now) = Some d ->
    0 <= d <= MAX_PACING_DELAY /\
    ((exists n, parse_unsigned u64_max (trim header) = Some n /\ d = Z.min MAX_PACING_DELAY (from_secs n)) \/
     (exists t, parse_http_date (trim header) = Some t /\ now <= t /\ d = Z.min MAX_PACING_DELAY (t - now)))).
Proof.
  intros Hms. split.
  - destruct value as [n|]; [|done]. intros Hd. specialize (Hms n eq_refl).
    apply retry_from_duration_delay in Hd as [? ->]; [|unfold from_millis; lia].
    split; [done|]. by exists n.
  - unfold from_http_header. destruct (str_is_empty _); [done|].
    destruct (parse_unsigned _ _) as [n|] eqn:Hn.
    + pose proof (parse_unsigned_range u64_max _ _ ltac:(done) Hn). intros Hd.
      apply retry_from_duration_delay in Hd as [? ->]; [|unfold from_secs; lia].
      split; [done|]. left. by exists n.
    + destruct (parse_http_date _) as [t|]; [|done]. destruct (Z.ltb_spec t now); [done|].
      intros Hd. apply retry_from_duration_delay in Hd as [? ->]; [|lia]. split; [done|]. right.
      exists t. split_and!; done.
Qed.

(** When the next deadline is not representable, [acquire] fails after the admission
    was counted; no permit exists to give it back, and the origin is blocked. *)
Theorem overflow_leaks_capacity :
  exists instant_max capacity p q, reachable instant_max capacity p /\ permits p = ∅ /\
    deadlines_set p = [] /\ step instant_max capacity (TryAcquire 1) p = Some (q, StillWaiting WaitForPermit).
Proof.
  set (o := Build_OriginKey "https" "example.com" 443).
  set (es := [Register o (Build_ResolvedPacingConfiguration 1 (from_secs 1)) 0; AcquireRobotsFetch 1;
              TryAcquire 0; AcquireRobotsFetch 1]).
  destruct (run 10 4 es (initial 0)) as [p|] eqn:Hrun; [|by vm_compute in Hrun].
  exists 10, 4%nat, p. vm_compute in Hrun. injection Hrun as <-. eexists. split_and!.
  - eapply (run_reachable 10 4 es (initial 0)); [apply reachable_initial|vm_compute; reflexivity].
  - reflexivity.
  - reflexivity.
  - vm_compute. reflexivity.
Qed.

(** ** Witnesses *)

Definition example_instant_max : Z := from_secs u32_max.
Definition example_origin : OriginKey := Build_OriginKey "https" "example.com" 443.
Definition example_configuration : ResolvedPacingConfiguration :=
  {| conf_concurrency := 2; conf_request_delay := from_secs 1 |}.

Definition example_run (es : list Event) : Process :=
  default (initial 0) (run example_instant_max 1 es (initial 0)).

(** Two acquisitions of one registration are pending. *)
Definition two_waiting : list Event :=
  [Register example_origin example_configuration 0; AcquireRobotsFetch 1; AcquireRobotsFetch 1].
Definition one_granted : list Event := two_waiting ++ [TryAcquire 0].
Definition rate_limited : list Event := one_granted ++
  [RecordOutcome 2 (RateLimited (Honored (from_secs 5))) 0].
Definition limit_passed : list Event := [Tick (from_secs 5)].

Lemma example_reachable es : is_Some (run example_instant_max 1 es (initial 0)) ->
  reachable example_instant_max 1 (example_run es).
Proof.
  intros [p Hp]. unfold example_run. rewrite Hp. simpl.
  by eapply (run_reachable example_instant_max 1 es (initial 0)); [apply reachable_initial|].
Qed.

Ltac evaluate := vm_compute; reflexivity.
Ltac example_reach := apply example_reachable; vm_compute; eexists; reflexivity.

Lemma granted_within_concurrency_witness : exists q g,
  step example_instant_max 1 (TryAcquire 0) (example_run two_waiting) = Some (q, Granted 2) /\
  permits q !! 2%nat = Some g.
Proof.
  eexists. destruct (granted_within_concurrency example_instant_max 1 (example_run two_waiting) 0
    _ 2 ltac:(example_reach) ltac:(evaluate)) as (g & Hg & _).
  exists g. split; [evaluate|exact Hg].
Defined.

Lemma one_state_per_origin_witness : (size (states (example_run one_granted)) <= 1)%nat.
Proof. apply (one_state_per_origin example_instant_max 1). example_reach. Defined.

Lemma requests_spaced_witness :
  clock (example_run two_waiting) + from_secs 1 <= clock (example_run (one_granted ++ limit_passed)).
Proof.
  eapply (requests_spaced example_instant_max 1 (example_run two_waiting) 0 (example_run one_granted) 2
    (Build_Waiter 1 0 (from_secs 1)) (Build_Permit example_origin 0 false) limit_passed
    (example_run (one_granted ++ limit_passed)) 1 _ 3); [example_reach|evaluate..].
Defined.

Lemma rate_limit_respected_witness :
  0 + from_secs 5 <= clock (example_run (rate_limited ++ limit_passed)).
Proof.
  eapply (rate_limit_respected example_instant_max 1 (example_run one_granted) 2
    (Build_Permit example_origin 0 false) (Honored (from_secs 5)) 0 (example_run rate_limited)
    limit_passed (example_run (rate_limited ++ limit_passed)) 1 _ 3); [example_reach|evaluate..].
Defined.

Lemma capacity_error_only_when_full_witness :
  size (states (example_run one_granted)) = 1%nat.
Proof.
  eapply (capacity_error_only_when_full example_instant_max 1 (example_run one_granted)
    (Build_OriginKey "https" "example.org" 443) example_configuration 0); [example_reach|evaluate].
Defined.

Lemma quiescent_origin_retires_witness :
  let p := example_run [Register example_origin example_configuration 0; DropRegistration 1] in
  (is_safe_to_retire 0 (deref (store p) 0)).2 = true.
Proof.
  apply (quiescent_origin_retires example_instant_max 1 _ example_origin);
    [example_reach|evaluate|evaluate| |evaluate|].
  - intros id r Hr. vm_compute in Hr. by destruct id.
  - intros d Hd. vm_compute in Hd. by apply not_elem_of_nil in Hd.
Defined.

Lemma attempt_decides_witness : exists e q r,
  effective_concurrency (deref (store (example_run two_waiting)) 0) = Some e /\
  step example_instant_max 1 (TryAcquire 0) (example_run two_waiting) = Some (q, r) /\
  r <> Failed RegistrationReleased.
Proof.
  destruct (attempt_decides example_instant_max 1 (example_run two_waiting) 0
    (Build_Waiter 1 0 (from_secs 1)) ltac:(example_reach) ltac:(evaluate))
    as (e & q & r & He & Hs & _ & _ & _ & Hr).
  by exists e, q, r.
Defined.

Lemma bounded_backoff_spec_witness : in_u8 255 /\ bounded_backoff 255 <= MAX_RATE_LIMIT_BACKOFF.
Proof. assert (H : in_u8 255) by done. split; [exact H|]. apply (bounded_backoff_spec 255 H). Defined.

#[local] Instance no_dates : HttpDateLib := {| parse_http_date _ := None |}.

Lemma retry_after_bounded_witness : 0 <= 1000000 <= MAX_PACING_DELAY.
Proof.
  destruct (retry_after_bounded (Some 1) "600" 0 1000000) as [H _]; [by intros ms [= <-]|].
  apply H. evaluate.
Defined.
