(* ===== verification/Robots.v ===== *)
(** * Robots policy

    [crates/erabi-crawler/src/robots.rs]: the robots file of an origin is parsed into
    groups of rules, the groups that concern the run's user agent are selected, and
    the most specific matching rule decides; responses are classified, parsed policies
    cached, and a frozen override may turn a parsed disallow, and nothing else, into an
    admission. *)

From S2P Require Import Prelude Externals Base Instances Settings Snapshot NetworkPolicy Pacing.

Definition MAX_ROBOTS_RESPONSE_BYTES : nat := 512 * 1024.
Definition ROBOTS_CACHE_TTL : Z := from_secs 600.
Definition MAX_ROBOTS_CACHE_ENTRIES : nat := 256.

(** ** Errors and evidence *)

Inductive RobotsPolicyEvidence := EvNetworkPolicy | EvCache | EvNotFound | EvAccessDenied.

Inductive RobotsUnavailable :=
| RobotsTimeout | RobotsTransport | RobotsRedirect | RobotsServerFailure | RobotsRateLimited
| RobotsOtherStatus.

Inductive RobotsInvalidPolicy :=
| ResponseTooLarge | InvalidEncoding | MalformedDirective | InvalidCrawlDelay.

Inductive RobotsPolicyError :=
| RobotsOrigin (e : OriginKeyError)
| RobotsNetworkTarget (e : NetworkTargetError)
| RobotsAdmissionError (e : AdmissionError)
| Unavailable (e : RobotsUnavailable)
| UnavailableWithPacing (failure : RobotsUnavailable) (pacing : AdmissionError)
| InvalidPolicy (e : RobotsInvalidPolicy).

(** The body is the bytes received. *)
Record RobotsHttpResponse := {
  response_status : Z;
  response_body : string;
  response_retry_after : RetryAfterTiming
}.

Inductive RobotsTransportError := TransportTimeout | TransportUnavailable | TransportTooLarge.

(** [read_bounded_body]: the announced length, then the chunks as they come. *)
Fixpoint read_chunks (body : string) (chunks : list string) : result RobotsTransportError string :=
  match chunks with
  | [] => Ok body
  | chunk :: rest =>
    if Nat.ltb (MAX_ROBOTS_RESPONSE_BYTES - str_len body) (str_len chunk) then Err TransportTooLarge
    else read_chunks (body ++ chunk) rest
  end.
Definition read_bounded_body (content_length : option nat) (chunks : list string)
    : result RobotsTransportError string :=
  let? _ := reject_if
    match content_length with Some n => Nat.ltb MAX_ROBOTS_RESPONSE_BYTES n | None => false end
    TransportTooLarge in
  read_chunks EmptyString chunks.

(** ** Documents *)

Record RobotsRule := {
  pattern : string;
  allow : bool;
  specificity : nat;
  end_anchored : bool
}.

Record RobotsGroup := {
  user_agents : list string;
  rules : list RobotsRule;
  crawl_delays : list Z
}.

Record RobotsDocument := { groups : list RobotsGroup; allow_all : bool; deny_all : bool }.

Definition group_default : RobotsGroup := {| user_agents := []; rules := []; crawl_delays := [] |}.
Definition doc_allow_all : RobotsDocument := {| groups := []; allow_all := true; deny_all := false |}.
Definition doc_deny_all : RobotsDocument := {| groups := []; allow_all := false; deny_all := true |}.

Definition permits_disallow_override (d : RobotsDocument) : bool :=
  negb (allow_all d) && negb (deny_all d).

(** ** Strings *)

(** [str::find(p)], as the text after the first occurrence, and [str::contains]. *)
Definition after_first (p s : string) : option string := snd <$> split_once p s.
Definition contains_str (p s : string) : bool := bool_decide (is_Some (split_once p s)).

Definition bom : string := String "239" (String "187" (String "191" EmptyString)).

(** [s.trim_start_matches(U+FEFF)]; each step shortens the text. *)
Fixpoint strip_boms (fuel : nat) (s : string) : string :=
  match fuel with
  | O => s
  | S fuel => match str_strip_prefix bom s with Some r => strip_boms fuel r | None => s end
  end.
Definition trim_start_boms (s : string) : string := strip_boms (str_len s) s.

(** [str::lines]: the end of a line is LF or CRLF, and an empty last line is none. *)
Definition strip_cr (s : string) : string := default s (str_strip_suffix (String "013" EmptyString) s).
Fixpoint lines_of (pieces : list string) : list string :=
  match pieces with
  | [] => []
  | [last] => if str_is_empty last then [] else [last]
  | piece :: rest => strip_cr piece :: lines_of rest
  end.
Definition lines (s : string) : list string := lines_of (split_on "010" s).

(** [std::str::from_utf8(..).is_ok()]. *)
Definition is_cont (c : ascii) : bool := between 128 191 (byte_of c).
Fixpoint utf8_valid (s : string) : bool :=
  match s with
  | EmptyString => true
  | String a s1 =>
    let b := byte_of a in
    if b <? 128 then utf8_valid s1
    else if between 194 223 b then
      match s1 with String x s2 => is_cont x && utf8_valid s2 | _ => false end
    else if between 224 239 b then
      match s1 with
      | String x (String y s3) =>
        (if b =? 224 then between 160 191 (byte_of x)
         else if b =? 237 then between 128 159 (byte_of x) else is_cont x)
        && is_cont y && utf8_valid s3
      | _ => false
      end
    else if between 240 244 b then
      match s1 with
      | String x (String y (String z s4)) =>
        (if b =? 240 then between 144 191 (byte_of x)
         else if b =? 244 then between 128 143 (byte_of x) else is_cont x)
        && is_cont y && is_cont z && utf8_valid s4
      | _ => false
      end
    else false
  end.

(** ** Parsing *)

(** [f64]: [str::parse], [is_finite], [is_sign_negative] and
    [Duration::try_from_secs_f64], in nanoseconds. *)
Class FloatLib := {
  f64 : Type;
  f64_parse : string -> option f64;
  f64_is_finite : f64 -> bool;
  f64_is_sign_negative : f64 -> bool;
  try_from_secs_f64 : f64 -> option Z
}.

(** A duration is not negative. *)
Class FloatLaws (F : FloatLib) : Prop := {
  try_from_secs_nonneg : forall x d, try_from_secs_f64 x = Some d -> 0 <= d
}.

(** What the parser holds between lines: the groups closed so far, the open one, and
    whether the open one has a rule or a delay already. *)
Record ParserState := {
  closed : list RobotsGroup;
  current : option RobotsGroup;
  group_has_policy_directive : bool
}.

Definition close_group (closed : list RobotsGroup) (current : option RobotsGroup) : list RobotsGroup :=
  match current with
  | Some g => match user_agents g with [] => closed | _ => closed ++ [g] end
  | None => closed
  end.

Definition make_rule (name value : string) : option RobotsRule :=
  let '(p, anchored) := match str_strip_suffix "$" value with
                        | Some p => (p, true) | None => (value, false) end in
  if str_is_empty p then None
  else Some {| pattern := p; allow := String.eqb name "allow";
               specificity := length (filter (fun b => b <> 42) (bytes p)); end_anchored := anchored |}.

Section robots.
Context `{F : FloatLib}.

Definition parse_crawl_delay (value : string) : result RobotsInvalidPolicy Z :=
  let? seconds := ok_or InvalidCrawlDelay (f64_parse value) in
  let? _ := reject_if (negb (f64_is_finite seconds) || f64_is_sign_negative seconds) InvalidCrawlDelay in
  let? duration := ok_or InvalidCrawlDelay (try_from_secs_f64 seconds) in
  Ok (Z.min duration MAX_PACING_DELAY).

(** The directive [name: value] of a line. *)
Definition parse_directive (name value : string) (s : ParserState)
    : result RobotsInvalidPolicy ParserState :=
  if String.eqb name "user-agent" then
    let? _ := reject_if (str_is_empty value || has_control value) MalformedDirective in
    let '(done, open) := if group_has_policy_directive s then (close_group (closed s) (current s), None)
                         else (closed s, current s) in
    let g := default group_default open in
    Ok {| closed := done;
          current := Some {| user_agents := user_agents g ++ [to_ascii_lowercase value];
                             rules := rules g; crawl_delays := crawl_delays g |};
          group_has_policy_directive := false |}
  else if String.eqb name "allow" || String.eqb name "disallow" then
    let? g := ok_or MalformedDirective (current s) in
    if str_is_empty value then
      Ok {| closed := closed s; current := Some g; group_has_policy_directive := true |}
    else
      let? _ := reject_if (has_control value) MalformedDirective in
      let added := match make_rule name value with Some r => [r] | None => [] end in
      Ok {| closed := closed s;
            current := Some {| user_agents := user_agents g; rules := rules g ++ added;
                               crawl_delays := crawl_delays g |};
            group_has_policy_directive := true |}
  else if String.eqb name "crawl-delay" then
    let? g := ok_or MalformedDirective (current s) in
    let? delay := parse_crawl_delay value in
    Ok {| closed := closed s;
          current := Some {| user_agents := user_agents g; rules := rules g;
                             crawl_delays := crawl_delays g ++ [delay] |};
          group_has_policy_directive := true |}
  else Ok s.

Definition parse_line (raw_line : string) (s : ParserState) : result RobotsInvalidPolicy ParserState :=
  let line := trim match split_once "#" raw_line with Some (before, _) => before | None => raw_line end in
  if str_is_empty line then
    Ok {| closed := close_group (closed s) (current s); current := None;
          group_has_policy_directive := false |}
  else match split_once ":" line with
  | None => Ok s
  | Some (name, value) => parse_directive (to_ascii_lowercase (trim name)) (trim value) s
  end.

Fixpoint parse_lines (ls : list string) (s : ParserState) : result RobotsInvalidPolicy ParserState :=
  match ls with
  | [] => Ok s
  | l :: ls => let? s := parse_line l s in parse_lines ls s
  end.

Definition parser_start : ParserState :=
  {| closed := []; current := None; group_has_policy_directive := false |}.

Definition parse_robots_document (body : string) : result RobotsInvalidPolicy RobotsDocument :=
  let? s := parse_lines (lines (trim_start_boms body)) parser_start in
  Ok {| groups := close_group (closed s) (current s); allow_all := false; deny_all := false |}.
End robots.

(** ** Selection and matching *)

(** [char::is_ascii_whitespace]. *)
Definition is_ascii_whitespace (b : Z) : bool :=
  (b =? 32) || (b =? 9) || (b =? 10) || (b =? 12) || (b =? 13).

Definition user_agent_matches (active selector : string) : bool :=
  if String.eqb active selector then true
  else match str_strip_prefix selector active with
  | None => false
  | Some remainder =>
    match chars remainder with c :: _ => (c =? 47) || is_ascii_whitespace c | [] => false end
  end.

(** The longest named agent of a group that matches. *)
Definition group_specificity (active : string) (g : RobotsGroup) : option nat :=
  max_by Nat.compare (map str_len
    (filter (fun agent => user_agent_matches active agent = true)
      (filter (fun agent => agent <> "*"%string) (user_agents g)))).

Definition select_groups (gs : list RobotsGroup) (user_agent : string) : list RobotsGroup :=
  let active := to_ascii_lowercase user_agent in
  let exact_matches := omap (fun g => s ← group_specificity active g; Some (s, g)) gs in
  let highest := foldl (fun h m => Nat.max h m.1) 0%nat exact_matches in
  if Nat.ltb 0 highest then map snd (filter (fun m => m.1 = highest) exact_matches)
  else filter (fun g => existsb (String.eqb "*") (user_agents g) = true) gs.

Definition request_path_for_robots `{L : UrlLib} (target : url) : string :=
  match url_query target with
  | Some query => (url_path target ++ "?" ++ query)%string
  | None => url_path target
  end.

(** The loop over the pieces after the first; the last piece is peeked at. *)
Fixpoint match_parts (end_anchored : bool) (parts : list string) (remaining : string) : bool :=
  match parts with
  | [] => negb end_anchored || str_is_empty remaining
  | [part] => if end_anchored then ends_with remaining part else contains_str part remaining
  | part :: rest =>
    match after_first part remaining with
    | None => false
    | Some remaining => match_parts end_anchored rest remaining
    end
  end.

Definition rule_matches (rule : RobotsRule) (request_path : string) : bool :=
  match split_on "*" (pattern rule) with
  | [] => false
  | first :: rest =>
    match str_strip_prefix first request_path with
    | None => false
    | Some remaining => match_parts (end_anchored rule) rest remaining
    end
  end.

Record RobotsRuleEvaluation := { evaluation_allowed : bool; evaluation_crawl_delay : option Z }.

(** One matching rule against the best so far. *)
Definition better_rule (best : option (nat * bool)) (r : RobotsRule) : option (nat * bool) :=
  match best with
  | Some (s, a) =>
    if Nat.ltb (specificity r) s || (Nat.eqb s (specificity r) && a) then Some (s, a)
    else Some (specificity r, allow r)
  | None => Some (specificity r, allow r)
  end.

Definition longer_delay (crawl_delay : option Z) (delay : Z) : option Z :=
  Some match crawl_delay with Some current => Z.max current delay | None => delay end.

Definition doc_evaluate `{L : UrlLib} (d : RobotsDocument) (target : url) (user_agent : string)
    : RobotsRuleEvaluation :=
  if allow_all d then {| evaluation_allowed := true; evaluation_crawl_delay := None |}
  else if deny_all d then {| evaluation_allowed := false; evaluation_crawl_delay := None |}
  else
    let request_path := request_path_for_robots target in
    let '(best_rule, crawl_delay) :=
      foldl (fun acc group =>
        (foldl (fun best rule => if rule_matches rule request_path then better_rule best rule else best)
           acc.1 (rules group),
         foldl longer_delay acc.2 (crawl_delays group)))
        (None, None) (select_groups (groups d) user_agent) in
    {| evaluation_allowed := match best_rule with Some (_, a) => a | None => true end;
       evaluation_crawl_delay := crawl_delay |}.

(** ** The cache *)

Record CacheEntry := {
  entry_document : RobotsDocument;
  entry_expires_at : Z;
  entry_evidence : RobotsPolicyEvidence
}.
Abbreviation RobotsCache := (gmap OriginKey CacheEntry).

(** [entries.retain(|_, entry| entry.expires_at > now)]. *)
Definition retain_fresh (now : Z) (cache : RobotsCache) : RobotsCache :=
  filter (fun e => now < entry_expires_at e.2) cache.

Definition cache_get (origin : OriginKey) (now : Z) (cache : RobotsCache)
    : RobotsCache * option (RobotsDocument * RobotsPolicyEvidence) :=
  let cache := retain_fresh now cache in
  (cache, (fun e => (entry_document e, entry_evidence e)) <$> cache !! origin).

(** [min_by_key(|(key, entry)| (entry.expires_at, key))]. *)
Definition eviction_cmp : OriginKey * CacheEntry -> OriginKey * CacheEntry -> comparison :=
  cmp_on (fun e => (entry_expires_at e.2, e.1)) (cmp_pair Z.compare origin_cmp).

Definition cache_insert (origin : OriginKey) (document : RobotsDocument)
    (evidence : RobotsPolicyEvidence) (now expires_at : Z) (cache : RobotsCache) : RobotsCache :=
  let cache := retain_fresh now cache in
  let cache :=
    if bool_decide (cache !! origin = None) && Nat.leb MAX_ROBOTS_CACHE_ENTRIES (size cache) then
      match min_by eviction_cmp (sort_by (cmp_on fst origin_cmp) (map_to_list cache)) with
      | Some eviction => delete eviction.1 cache
      | None => cache
      end
    else cache in
  <[origin := {| entry_document := document; entry_expires_at := expires_at;
                 entry_evidence := evidence |}]> cache.

(** ** Fetching and deciding *)

Definition robots_url `{L : UrlLib} (target : url) : url :=
  url_set_fragment (url_set_query (url_set_path target "/robots.txt") None) None.

Definition transport_error (e : RobotsTransportError) : RobotsPolicyError :=
  match e with
  | TransportTimeout => Unavailable RobotsTimeout
  | TransportUnavailable => Unavailable RobotsTransport
  | TransportTooLarge => InvalidPolicy ResponseTooLarge
  end.

(** An unsuccessful response: the outcome is recorded, and its failure reported. *)
Definition unavailable_after (recorded : result AdmissionError unit) (failure : RobotsUnavailable)
    : RobotsPolicyError :=
  match recorded with Ok _ => Unavailable failure | Err pacing => UnavailableWithPacing failure pacing end.

Section service.
Context `{L : UrlLib} `{N : !UrlHostLib} `{U : UuidLib} `{F : FloatLib}.
Context (instant_max : Z).

(** The classification of a response by [fetch_document]; [record] is
    [permit.record_outcome]. *)
Definition classify_response (record : PacingOutcome -> result AdmissionError unit)
    (response : RobotsHttpResponse) : result RobotsPolicyError (RobotsDocument * RobotsPolicyEvidence) :=
  let status := response_status response in
  let? _ := reject_if (Nat.ltb MAX_ROBOTS_RESPONSE_BYTES (str_len (response_body response)))
    (InvalidPolicy ResponseTooLarge) in
  let? answer :=
    if between 200 299 status then
      let? _ := reject_if (negb (utf8_valid (response_body response))) (InvalidPolicy InvalidEncoding) in
      let? document := map_err InvalidPolicy (parse_robots_document (response_body response)) in
      Ok (document, EvNetworkPolicy)
    else if (status =? 401) || (status =? 403) then Ok (doc_deny_all, EvAccessDenied)
    else if status =? 404 then Ok (doc_allow_all, EvNotFound)
    else if between 300 399 status then Err (Unavailable RobotsRedirect)
    else if status =? 429 then
      Err (unavailable_after (record (RateLimited (response_retry_after response))) RobotsRateLimited)
    else if between 500 599 status then
      Err (unavailable_after (record OutcomeFailed) RobotsServerFailure)
    else Err (unavailable_after (record OutcomeFailed) RobotsOtherStatus) in
  let? _ := map_err RobotsAdmissionError (record OutcomeSuccess) in
  Ok answer.

(** What a fetch meets outside this module: the registration and permit it acquires,
    the transport, what recording an outcome returns, and the clock afterwards. *)
Record FetchEnvironment := {
  env_permit : result AdmissionError unit;
  env_transport : ValidatedNetworkTarget -> string -> result RobotsTransportError RobotsHttpResponse;
  env_record : PacingOutcome -> result AdmissionError unit;
  env_now : Z
}.

(** [fetch_document] up to the cache: the policy, and when it expires. *)
Definition fetch_answer (policy : NetworkTargetPolicy) (env : FetchEnvironment) (target : url)
    (user_agent : string) : result RobotsPolicyError ((RobotsDocument * RobotsPolicyEvidence) * Z) :=
  let? target := map_err RobotsNetworkTarget (validate_and_resolve policy (robots_url target)) in
  let? _ := map_err RobotsAdmissionError (env_permit env) in
  let? response := map_err transport_error (env_transport env target user_agent) in
  let? answer := classify_response (env_record env) response in
  let? expires_at := map_err RobotsAdmissionError (instant_add instant_max (env_now env) ROBOTS_CACHE_TTL) in
  Ok (answer, expires_at).

Definition fetch_document (policy : NetworkTargetPolicy) (env : FetchEnvironment) (target : url)
    (user_agent : string) (origin : OriginKey) (cache : RobotsCache)
    : RobotsCache * result RobotsPolicyError (RobotsDocument * RobotsPolicyEvidence) :=
  match fetch_answer policy env target user_agent with
  | Err e => (cache, Err e)
  | Ok (answer, expires_at) =>
    (cache_insert origin answer.1 answer.2 (env_now env) expires_at cache, Ok answer)
  end.

(** A call that does not wait for another fetch of the same origin. *)
Definition cached_or_fetch_document (policy : NetworkTargetPolicy) (env : FetchEnvironment)
    (now : Z) (target : url) (user_agent : string) (origin : OriginKey) (cache : RobotsCache)
    : RobotsCache * result RobotsPolicyError (RobotsDocument * RobotsPolicyEvidence) :=
  let '(cache, cached) := cache_get origin now cache in
  match cached with
  | Some (document, _) => (cache, Ok (document, EvCache))
  | None => fetch_document policy env target user_agent origin cache
  end.

(** The decision of [evaluate_inner]. *)
Definition decide_admission (document : RobotsDocument) (decision : RobotsDecision)
    (evaluated : RobotsRuleEvaluation) : RobotsAdmissionDecision :=
  if evaluation_allowed evaluated then Allowed
  else if permits_disallow_override document
       && match decision with Override _ => true | Respect => false end then Overridden
  else Disallowed.

Definition evaluate_robots (policy : NetworkTargetPolicy) (env : FetchEnvironment) (now : Z) (target : url)
    (snapshot : CrawlRunSnapshot) (cache : RobotsCache)
    : RobotsCache * result RobotsPolicyError (RobotsAdmission * RobotsPolicyEvidence) :=
  let user_agent := resolved_value (set_user_agent (draft_settings (snapshot_draft snapshot))) in
  match map_err RobotsNetworkTarget (validate_url target), map_err RobotsOrigin (origin_from_url target) with
  | Err e, _ | Ok _, Err e => (cache, Err e)
  | Ok _, Ok origin =>
    let '(cache, answer) := cached_or_fetch_document policy env now target user_agent origin cache in
    (cache,
     let? (document, evidence) := answer in
     let evaluated := doc_evaluate document target user_agent in
     Ok ({| admission_origin := origin;
            admission_decision := decide_admission document
              (robots_decision (draft_robots (snapshot_draft snapshot))) evaluated;
            admission_crawl_delay := evaluation_crawl_delay evaluated |}, evidence))
  end.
End service.

(** ** Specification *)

(** A pattern in which [*] stands for any text, as a relation on the characters. *)
Inductive glob : string -> string -> Prop :=
| glob_nil : glob EmptyString EmptyString
| glob_char c p s : c <> "*"%char -> glob p s -> glob (String c p) (String c s)
| glob_star_end p s : glob p s -> glob (String "*" p) s
| glob_star_more c p s : glob (String "*" p) s -> glob (String "*" p) (String c s).

(** A rule concerns a path that its pattern matches, entirely when it is anchored and
    up to some prefix otherwise. *)
Definition rule_concerns (r : RobotsRule) (path : string) : Prop :=
  if end_anchored r then glob (pattern r) path
  else exists prefix rest, path = (prefix ++ rest)%string /\ glob (pattern r) prefix.

(** * Lemmas *)

(** ** Matching *)

Lemma split_once_sound sep s l r : split_once sep s = Some (l, r) -> s = (l ++ sep ++ r)%string.
Proof.
  revert l r. induction s as [|c s IH]; intros l r; cbn [split_once].
  - destruct (str_strip_prefix sep _) eqn:Hp; [|done]. intros [= <- <-].
    by apply str_strip_prefix_spec in Hp.
  - destruct (str_strip_prefix sep _) as [x|] eqn:Hp.
    + intros [= <- <-]. by apply str_strip_prefix_spec in Hp.
    + destruct (split_once sep s) as [[l' r']|]; [|done]. intros [= <- <-].
      simpl. f_equal. by apply IH.
Qed.

(** Two ways to write a text: the shorter remainder is a suffix of the longer. *)
Lemma app_suffix (a b c d : string) :
  (a ++ b = c ++ d)%string -> (str_len b <= str_len d)%nat -> exists x, d = (x ++ b)%string.
Proof.
  revert c. induction a as [|ch a IH]; intros [|ch' c]; simpl; intros Heq Hlen.
  - exists EmptyString. by rewrite Heq.
  - exfalso. subst b. unfold str_len in Hlen. simpl in Hlen. rewrite str_app_length in Hlen. lia.
  - by exists (String ch a).
  - injection Heq as _ Heq. by eapply IH.
Qed.

(** The first occurrence leaves the longest remainder. *)
Lemma split_once_leftmost sep gap rest :
  exists l x, split_once sep (gap ++ sep ++ rest) = Some (l, (x ++ rest)%string).
Proof.
  induction gap as [|c gap IH].
  - simpl. exists EmptyString, EmptyString.
    assert (Hp : str_strip_prefix sep (sep ++ rest) = Some rest) by (by apply str_strip_prefix_spec).
    destruct (sep ++ rest)%string; cbn [split_once]; by rewrite Hp.
  - change (String c gap ++ sep ++ rest)%string with (String c (gap ++ sep ++ rest)). cbn [split_once].
    destruct (str_strip_prefix sep _) as [r|] eqn:Hp.
    + apply str_strip_prefix_spec in Hp. exists EmptyString.
      destruct (app_suffix (String c gap ++ sep) rest sep r) as [x ->].
      * by rewrite str_app_assoc.
      * assert (Hl : str_len (String c (gap ++ sep ++ rest)) = str_len (sep ++ r)) by (by rewrite Hp).
        unfold str_len in *. simpl in Hl. rewrite !str_app_length in Hl. lia.
      * by exists x.
    + destruct IH as (l & x & Hs). rewrite Hs. by exists (String c l), x.
Qed.

(** The text after the pieces so far, read as gaps and pieces. *)
Fixpoint spread (anchored : bool) (parts : list string) (s : string) : Prop :=
  match parts with
  | [] => anchored = false \/ s = EmptyString
  | part :: rest => exists gap r, s = (gap ++ part ++ r)%string /\ spread anchored rest r
  end.

Lemma spread_prepend anchored part rest x s :
  spread anchored (part :: rest) s -> spread anchored (part :: rest) (x ++ s).
Proof. intros (gap & r & -> & H). exists (x ++ gap)%string, r. by rewrite !str_app_assoc. Qed.

Lemma contains_str_spec p s : contains_str p s = true <-> exists a b, s = (a ++ p ++ b)%string.
Proof.
  unfold contains_str. rewrite bool_decide_eq_true. split.
  - intros [[l r] H%split_once_sound]. eauto.
  - intros (a & b & ->). destruct (split_once_leftmost p a b) as (l & x & ->). eauto.
Qed.

Lemma match_parts_spec anchored parts s : match_parts anchored parts s = true <-> spread anchored parts s.
Proof.
  revert s. induction parts as [|part rest IH]; intros s.
  - simpl. rewrite orb_true_iff, negb_true_iff. destruct s; simpl; split; intros [?|?]; auto; done.
  - destruct rest as [|part' rest].
    + clear IH. cbn [match_parts spread]. destruct anchored.
      * rewrite ends_with_spec. split.
        -- intros [gap ->]. exists gap, EmptyString. rewrite str_app_nil_r. auto.
        -- intros (gap & r & -> & [| ->]); [done|]. exists gap. by rewrite str_app_nil_r.
      * rewrite contains_str_spec. split; [intros (a & b & ->); eauto|intros (a & b & -> & _); eauto].
    + change (match_parts anchored (part :: part' :: rest) s) with
        (match after_first part s with None => false | Some r => match_parts anchored (part' :: rest) r end).
      unfold after_first. split.
      * destruct (split_once part s) as [[l r]|] eqn:Hs; [|done]. simpl fmap. intros H%IH.
        apply split_once_sound in Hs as ->. by exists l, r.
      * intros (gap & r & -> & Hr). destruct (split_once_leftmost part gap r) as (l & x & ->).
        simpl fmap. apply IH. by apply spread_prepend.
Qed.

Lemma glob_star p s : glob (String "*" p) s <-> exists gap r, s = (gap ++ r)%string /\ glob p r.
Proof.
  split.
  - intros H. remember (String "*" p) as q eqn:Hq. revert p Hq.
    induction H as [|c p' s Hc|p' s Hp _|c p' s Hp IH]; intros p Hq; simplify_eq.
    + by exists EmptyString, s.
    + destruct (IH p eq_refl) as (gap & r & -> & Hr). by exists (String c gap), r.
  - intros (gap & r & -> & Hr). induction gap as [|c gap IH]; simpl; by constructor.
Qed.

Lemma glob_split p : forall s first rest, split_on "*" p = first :: rest ->
  glob p s <-> exists r, s = (first ++ r)%string /\ spread true rest r.
Proof.
  induction p as [|c p IH]; intros s first rest; cbn [split_on].
  - intros [= <- <-]. split; [intros H; inversion H; exists EmptyString; simpl; auto|].
    intros (r & -> & [| ->]); [done|]. constructor.
  - destruct (Ascii.eqb_spec c "*") as [->|Hc].
    + intros [= <- <-]. rewrite glob_star.
      destruct (split_on "*" p) as [|f ps] eqn:Hp; [by apply split_on_not_nil in Hp|].
      setoid_rewrite (IH _ f ps eq_refl). split.
      * intros (gap & r & -> & r' & -> & H). exists (gap ++ f ++ r')%string. split; [done|]. by exists gap, r'.
      * intros (r & -> & gap & r' & -> & H). exists gap, (f ++ r')%string. eauto.
    + destruct (split_on "*" p) as [|f ps] eqn:Hp; [by apply split_on_not_nil in Hp|].
      intros [= <- <-]. split.
      * intros H. inversion H as [|? ? s' _ Hs| |]; subst; [|by destruct Hc..].
        apply (IH _ f ps eq_refl) in Hs as (r & -> & Hr). by exists r.
      * intros (r & -> & Hr). simpl. constructor; [done|]. apply (IH _ f ps eq_refl). eauto.
Qed.

Lemma spread_unanchored parts s :
  spread false parts s <-> exists a b, s = (a ++ b)%string /\ spread true parts a.
Proof.
  revert s. induction parts as [|p parts IH]; intros s; simpl.
  - split; [|by left]. intros _. exists EmptyString, s. auto.
  - setoid_rewrite IH. split.
    + intros (gap & r & -> & a & b & -> & H). exists (gap ++ p ++ a)%string, b.
      rewrite !str_app_assoc. split; [done|]. by exists gap, a.
    + intros (a & b & -> & gap & r & -> & H). exists gap, (r ++ b)%string.
      rewrite !str_app_assoc. split; [done|]. by exists r, b.
Qed.

Lemma rule_matches_spec r path : rule_matches r path = true <-> rule_concerns r path.
Proof.
  unfold rule_matches, rule_concerns.
  destruct (split_on "*" (pattern r)) as [|first rest] eqn:Hp; [by apply split_on_not_nil in Hp|].
  assert (Hm : match str_strip_prefix first path with
    | None => false | Some remaining => match_parts (end_anchored r) rest remaining end = true
    <-> exists t, path = (first ++ t)%string /\ spread (end_anchored r) rest t).
  { split.
    - destruct (str_strip_prefix first path) as [t|] eqn:Ht; [|done].
      apply str_strip_prefix_spec in Ht. intros H%match_parts_spec. eauto.
    - intros (t & Ht & H). apply str_strip_prefix_spec in Ht. rewrite Ht. by apply match_parts_spec. }
  rewrite Hm. destruct (end_anchored r); [by rewrite (glob_split _ _ _ _ Hp)|].
  setoid_rewrite spread_unanchored. setoid_rewrite (glob_split _ _ _ _ Hp). split.
  - intros (t & -> & a & b & -> & H). exists (first ++ a)%string, b. rewrite str_app_assoc. eauto.
  - intros (x & y & -> & a & -> & H). exists (a ++ y)%string. rewrite str_app_assoc. eauto 6.
Qed.

(** ** Precedence *)

Definition applicable_rules (gs : list RobotsGroup) : list RobotsRule := concat (map rules gs).

(** The best rule among those seen: the most specific, an allow before a disallow. *)
Definition best_of (seen : list RobotsRule) (best : option (nat * bool)) : Prop :=
  match best with
  | None => seen = []
  | Some (s, a) =>
    (exists r, r ∈ seen /\ specificity r = s /\ allow r = a) /\
    (forall r, r ∈ seen -> (specificity r <= s)%nat) /\
    (a = false -> forall r, r ∈ seen -> allow r = true -> (specificity r < s)%nat)
  end.

Lemma better_rule_best seen best r : best_of seen best -> best_of (seen ++ [r]) (better_rule best r).
Proof.
  destruct best as [[s a]|]; simpl.
  - intros (He & Hle & Hlt). destruct (_ || _) eqn:Hkeep; simpl; split_and!.
    + destruct He as (x & Hx & ?). exists x. rewrite elem_of_app. auto.
    + intros x [?| ->%list_elem_of_singleton]%elem_of_app; [by apply Hle|].
      apply orb_true_iff in Hkeep as [?%Nat.ltb_lt|[?%Nat.eqb_eq _]%andb_true_iff]; lia.
    + intros -> x [?| ->%list_elem_of_singleton]%elem_of_app; [by apply Hlt|].
      rewrite andb_false_r, orb_false_r in Hkeep. apply Nat.ltb_lt in Hkeep. auto.
    + exists r. rewrite elem_of_app, list_elem_of_singleton. auto.
    + apply orb_false_iff in Hkeep as [Hs%Nat.ltb_ge _].
      intros x [Hx| ->%list_elem_of_singleton]%elem_of_app; [specialize (Hle x Hx)|]; lia.
    + apply orb_false_iff in Hkeep as [Hs%Nat.ltb_ge Ha].
      intros Hr x [Hx| ->%list_elem_of_singleton]%elem_of_app Hax; [|congruence].
      specialize (Hle x Hx). destruct (Nat.eqb_spec s (specificity r)) as [->|]; [|lia].
      by apply Hlt.
  - intros ->. split_and!.
    + exists r. split; [left|done].
    + by intros x ->%list_elem_of_singleton.
    + intros Ha x ->%list_elem_of_singleton Hx. congruence.
Qed.

Lemma best_of_rules path rs : forall seen best, best_of seen best ->
  best_of (seen ++ filter (fun r => rule_matches r path = true) rs)
    (foldl (fun best rule => if rule_matches rule path then better_rule best rule else best) best rs).
Proof.
  induction rs as [|r rs IH]; intros seen best Hb; simpl; [by rewrite app_nil_r|].
  rewrite filter_cons. destruct (rule_matches r path); simpl.
  - change (r :: filter (fun x => rule_matches x path = true) rs)
      with ([r] ++ filter (fun x => rule_matches x path = true) rs).
    rewrite app_assoc. by apply IH, better_rule_best.
  - by apply IH.
Qed.

Lemma evaluate_fold path gs best delay :
  foldl (fun acc group =>
    (foldl (fun best rule => if rule_matches rule path then better_rule best rule else best)
       acc.1 (rules group),
     foldl longer_delay acc.2 (crawl_delays group))) (best, delay) gs
  = (foldl (fun best rule => if rule_matches rule path then better_rule best rule else best)
       best (applicable_rules gs),
     foldl longer_delay delay (concat (map crawl_delays gs))).
Proof.
  revert best delay. induction gs as [|g gs IH]; intros best delay; simpl; [done|].
  rewrite IH. unfold applicable_rules. simpl. by rewrite !foldl_app.
Qed.

(** ** Selection *)

(** An agent name of [g], other than [*], that matches, and its length. *)
Definition names (active : string) (g : RobotsGroup) (n : nat) : Prop :=
  exists agent, agent ∈ user_agents g /\ agent <> "*"%string /\
    user_agent_matches active agent = true /\ str_len agent = n.

#[local] Instance nat_compare_pre : PreCmp Nat.compare.
Proof.
  split; [intros; apply Nat.compare_antisym|]. intros x y z.
  intros H1%Nat.compare_le_iff H2%Nat.compare_le_iff.
  apply Nat.compare_le_iff. lia.
Qed.

Lemma group_specificity_spec active g :
  match group_specificity active g with
  | Some n => names active g n /\ forall m, names active g m -> (m <= n)%nat
  | None => forall m, ~ names active g m
  end.
Proof.
  unfold group_specificity. set (l := map str_len _).
  assert (Hl : forall n, n ∈ l <-> names active g n).
  { intros n. unfold l. rewrite elem_of_map. setoid_rewrite list_elem_of_filter.
    setoid_rewrite list_elem_of_filter. unfold names. naive_solver. }
  destruct (max_by _ l) as [n|] eqn:Hm.
  - apply max_by_some in Hm as [Hin Hall]; [|apply _]. rewrite Forall_forall in Hall.
    split; [by apply Hl|]. intros m Hn%Hl. by apply Nat.compare_le_iff, Hall.
  - apply max_by_none in Hm. intros m Hn%Hl. rewrite Hm in Hn. by apply not_elem_of_nil in Hn.
Qed.

Lemma foldl_key_max_ge {A} (f : A -> nat) l b x :
  (x <= b)%nat \/ (exists y, y ∈ l /\ (x <= f y)%nat) -> (x <= foldl (fun h m => Nat.max h (f m)) b l)%nat.
Proof.
  revert b. induction l as [|a l IH]; intros b; simpl.
  - intros [?|(y & ?%not_elem_of_nil & _)]; done.
  - intros H. apply IH. destruct H as [?|(y & [->|?]%elem_of_cons & ?)]; [left; lia|left; lia|right; eauto].
Qed.

Lemma foldl_key_max_in {A} (f : A -> nat) l b :
  foldl (fun h m => Nat.max h (f m)) b l = b \/ exists y, y ∈ l /\ foldl (fun h m => Nat.max h (f m)) b l = f y.
Proof.
  revert b. induction l as [|a l IH]; intros b; simpl; [by left|].
  destruct (IH (Nat.max b (f a))) as [H|(y & Hy & H)]; [|right; exists y; by split; [right|]].
  destruct (Nat.max_spec b (f a)) as [[? Hm]|[? Hm]]; rewrite Hm in *; [right; exists a; by split; [left|]|by left].
Qed.

Lemma elem_of_select_groups gs agent g :
  let active := to_ascii_lowercase agent in
  g ∈ select_groups gs agent <-> g ∈ gs /\
    ((exists n, (0 < n)%nat /\ names active g n /\
        forall g' m, g' ∈ gs -> names active g' m -> (m <= n)%nat) \/
     ((forall g' m, g' ∈ gs -> names active g' m -> m = 0%nat) /\ "*"%string ∈ user_agents g)).
Proof.
  intros active. unfold select_groups. fold active. set (exact := omap _ gs).
  set (highest := foldl _ 0%nat exact).
  assert (Hex : forall s g', (s, g') ∈ exact <-> g' ∈ gs /\ group_specificity active g' = Some s).
  { intros s g'. unfold exact. rewrite list_elem_of_omap. split.
    - intros (x & Hx & Hs). destruct (group_specificity active x) eqn:E; simplify_eq/=. auto.
    - intros [Hg Hs]. exists g'. by rewrite Hs. }
  assert (Hge : forall g' m, g' ∈ gs -> names active g' m -> (m <= highest)%nat).
  { intros g' m Hg Hm. apply foldl_key_max_ge. right. pose proof (group_specificity_spec active g') as Hs.
    destruct (group_specificity active g') as [n|] eqn:E; [|by destruct (Hs m)].
    exists (n, g'). split; [by apply Hex|]. by apply Hs. }
  destruct (Nat.ltb_spec 0 highest) as [Hpos|Hzero].
  - rewrite elem_of_map. setoid_rewrite list_elem_of_filter.
    assert (Hmax : exists g' , (highest, g') ∈ exact).
    { destruct (foldl_key_max_in fst exact 0) as [H0|([s g'] & Hy & Hs)]; [unfold highest in *; lia|].
      exists g'. unfold highest. by rewrite Hs. }
    split.
    + intros ([s g'] & -> & Hs & Hin). simpl in *. subst s. apply Hex in Hin as [Hg Hs].
      split; [done|left]. exists highest. pose proof (group_specificity_spec active g') as Hn.
      rewrite Hs in Hn. destruct Hn as [Hn _]. split_and!; [lia|done|done].
    + intros [Hg [(n & Hn0 & Hn & Hall)|[Hnone _]]].
      * destruct Hmax as (g' & Hin). apply Hex in Hin as [Hg' Hs'].
        pose proof (group_specificity_spec active g') as Hsp'. rewrite Hs' in Hsp'.
        destruct Hsp' as [Hnames' _]. pose proof (Hall _ _ Hg' Hnames'). pose proof (Hge _ _ Hg Hn).
        pose proof (group_specificity_spec active g) as Hsp.
        destruct (group_specificity active g) as [k|] eqn:E; [|by destruct (Hsp n)].
        destruct Hsp as [Hk Hkmax]. specialize (Hkmax n Hn). pose proof (Hge _ _ Hg Hk).
        exists (k, g). split_and!; [done|simpl; lia|by apply Hex].
      * destruct Hmax as (g' & Hin). apply Hex in Hin as [Hg' Hs'].
        pose proof (group_specificity_spec active g') as Hsp'. rewrite Hs' in Hsp'.
        destruct Hsp' as [Hnames' _]. specialize (Hnone _ _ Hg' Hnames'). lia.
  - rewrite list_elem_of_filter, existsb_exists. setoid_rewrite String.eqb_eq. split.
    + intros [(x & Hx & <-) Hg]. split; [done|]. right. split; [|by apply list_elem_of_In].
      intros g' m Hg' Hm. specialize (Hge _ _ Hg' Hm). lia.
    + intros [Hg [(n & Hn0 & Hn & _)|[_ Hstar]]]; [specialize (Hge _ _ Hg Hn); lia|].
      split; [|done]. exists "*"%string. by rewrite <- list_elem_of_In.
Qed.

(** ** Delays *)

Definition delay_ok (d : Z) : Prop := 0 <= d <= MAX_PACING_DELAY.
Definition group_ok (g : RobotsGroup) : Prop := Forall delay_ok (crawl_delays g).
Definition document_ok (d : RobotsDocument) : Prop := Forall group_ok (groups d).

Definition parser_ok (s : ParserState) : Prop :=
  Forall group_ok (closed s) /\ forall g, current s = Some g -> group_ok g.

Lemma close_group_ok done open :
  Forall group_ok done -> (forall g, open = Some g -> group_ok g) -> Forall group_ok (close_group done open).
Proof.
  intros Hd Ho. destruct open as [g|]; simpl; [|done]. specialize (Ho g eq_refl).
  destruct (user_agents g); [done|]. apply Forall_app. auto.
Qed.

Section delays.
Context `{F : FloatLib, FL : !FloatLaws F}.

Lemma parse_crawl_delay_ok value d : parse_crawl_delay value = Ok d -> delay_ok d.
Proof.
  unfold parse_crawl_delay. intros (x & _ & H)%bind_ok. rewrite reject_then_ok in H.
  destruct H as [_ (y & Hy%ok_or_ok & [= <-])%bind_ok]. apply try_from_secs_nonneg in Hy.
  unfold delay_ok, MAX_PACING_DELAY, from_secs. lia.
Qed.

Lemma parse_directive_ok name value s s' :
  parser_ok s -> parse_directive name value s = Ok s' -> parser_ok s'.
Proof.
  intros [Hc Ho]. unfold parse_directive. destruct (String.eqb name "user-agent").
  { rewrite reject_then_ok. intros [_ H]. destruct (group_has_policy_directive s); injection H as <-;
      (split; simpl; [|intros g [= <-]; unfold group_ok; simpl]).
    - by apply close_group_ok.
    - constructor.
    - done.
    - destruct (current s) as [g|]; simpl; [by apply Ho|constructor]. }
  destruct (_ || _).
  { intros (g & Hg%ok_or_ok & H)%bind_ok. specialize (Ho g Hg).
    destruct (str_is_empty value); [injection H as <-; split; simpl; [done|by intros ? [= <-]]|].
    rewrite reject_then_ok in H. destruct H as [_ [= <-]]. split; simpl; [done|]. by intros ? [= <-]. }
  destruct (String.eqb name "crawl-delay").
  { intros (g & Hg%ok_or_ok & (d & Hd%parse_crawl_delay_ok & [= <-])%bind_ok)%bind_ok.
    split; simpl; [done|]. intros ? [= <-]. unfold group_ok. simpl. apply Forall_app.
    split; [by apply Ho|by constructor]. }
  by intros [= <-].
Qed.

Lemma parse_lines_ok ls : forall s s', parser_ok s -> parse_lines ls s = Ok s' -> parser_ok s'.
Proof.
  induction ls as [|l ls IH]; intros s s' Hs; simpl; [by intros [= <-]|].
  intros (s1 & H1 & H)%bind_ok. apply (IH s1); [|done]. revert H1. unfold parse_line.
  destruct (str_is_empty _).
  - intros [= <-]. destruct Hs. split; [by apply close_group_ok|done].
  - destruct (split_once ":" _) as [[name value]|]; [by apply parse_directive_ok|by intros [= <-]].
Qed.

Lemma parse_robots_document_ok body d : parse_robots_document body = Ok d -> document_ok d.
Proof.
  intros (s & Hs & [= <-])%bind_ok. apply parse_lines_ok in Hs as [Hc Ho]; [by apply close_group_ok|].
  split; [constructor|done].
Qed.
End delays.

Lemma longer_delay_ok o ds d :
  (forall x, o = Some x -> delay_ok x) -> Forall delay_ok ds -> foldl longer_delay o ds = Some d -> delay_ok d.
Proof.
  revert o. induction ds as [|x ds IH]; intros o Ho Hds; simpl; [by apply Ho|].
  apply Forall_cons in Hds as [Hx Hds]. apply IH; [|done]. intros y [= <-].
  destruct o as [z|]; [|done]. specialize (Ho z eq_refl). unfold delay_ok in *. lia.
Qed.

Lemma doc_evaluate_delay `{L : UrlLib} d target agent x :
  document_ok d -> evaluation_crawl_delay (doc_evaluate d target agent) = Some x -> delay_ok x.
Proof.
  unfold doc_evaluate. destruct (allow_all d); [done|]. destruct (deny_all d); [done|].
  rewrite evaluate_fold. simpl. intros Hd. apply longer_delay_ok; [done|].
  apply Forall_concat, Forall_forall. intros ds (g & -> & Hg)%elem_of_map.
  unfold document_ok in Hd. rewrite Forall_forall in Hd. apply Hd.
  by apply (elem_of_select_groups (groups d) agent g) in Hg as [Hg _].
Qed.

(** ** The cache *)

Record cache_ok (cache : RobotsCache) : Prop := {
  cache_size : (size cache <= MAX_ROBOTS_CACHE_ENTRIES)%nat;
  cache_documents : forall o e, cache !! o = Some e -> document_ok (entry_document e)
}.

Lemma retain_fresh_lookup now cache o e :
  retain_fresh now cache !! o = Some e <-> cache !! o = Some e /\ now < entry_expires_at e.
Proof. unfold retain_fresh. apply map_lookup_filter_Some. Qed.

Lemma retain_fresh_ok now cache : cache_ok cache -> cache_ok (retain_fresh now cache).
Proof.
  intros [Hs Hd]. split.
  - etransitivity; [|exact Hs]. apply map_subseteq_size, map_filter_subseteq.
  - intros o e [He _]%retain_fresh_lookup. by eapply Hd.
Qed.

Lemma cache_insert_ok o d ev now ex cache :
  cache_ok cache -> document_ok d -> cache_ok (cache_insert o d ev now ex cache).
Proof.
  intros Hc%(retain_fresh_ok now) Hd. unfold cache_insert. set (fresh := retain_fresh now cache) in *.
  clearbody fresh. destruct Hc as [Hs Hdocs]. split.
  - case_bool_decide as Ho; cbn [andb].
    + destruct (Nat.leb_spec MAX_ROBOTS_CACHE_ENTRIES (size fresh)) as [Hfull|Hroom].
      2:{ rewrite map_size_insert_None; [exact Hroom|exact Ho]. }
      destruct (min_by _ _) as [[o' e']|] eqn:Hm.
      * apply min_by_some in Hm as [Hin _]; [|apply _].
        rewrite sort_by_perm, elem_of_map_to_list in Hin. cbn [fst].
        rewrite map_size_insert_None; [rewrite map_size_delete_Some by done; unfold MAX_ROBOTS_CACHE_ENTRIES in *; lia|].
        rewrite lookup_delete_None. by right.
      * apply min_by_none in Hm. exfalso. assert (Hz : length (map_to_list fresh) = 0%nat).
        { rewrite <- (sort_by_length (cmp_on fst origin_cmp)), Hm. done. }
        rewrite length_map_to_list in Hz. unfold MAX_ROBOTS_CACHE_ENTRIES in Hfull. lia.
    + destruct (fresh !! o) as [e|] eqn:He; [|done]. by rewrite map_size_insert_Some by done.
  - intros o' e' [[<- <-]|[_ He]]%lookup_insert_Some; [done|]. apply (Hdocs o').
    revert He. destruct (_ && _); [|done]. destruct (min_by _ _); [|done].
    by intros [_ ?]%lookup_delete_Some.
Qed.

(** ** The service *)

Section service_lemmas.
Context `{L : UrlLib} `{N : !UrlHostLib} `{U : UuidLib} `{F : FloatLib, FL : !FloatLaws F}.
Context (instant_max : Z).

Lemma classify_response_ok record response d ev :
  classify_response record response = Ok (d, ev) -> document_ok d.
Proof.
  unfold classify_response. rewrite reject_then_ok. intros [_ ((d' & ev') & Ha & H)%bind_ok].
  apply bind_ok in H as (_ & _ & [= -> ->]).
  repeat match type of Ha with
  | (if ?b then _ else _) = _ => destruct b
  end; try done; try (by injection Ha as <- <-; constructor).
  rewrite reject_then_ok in Ha. destruct Ha as [_ (d'' & Hp & [= <- <-])%bind_ok].
  destruct (parse_robots_document _) eqn:Hparse; [|done]. injection Hp as ->.
  by eapply parse_robots_document_ok.
Qed.

Lemma fetch_document_ok policy env target agent o cache cache' r :
  cache_ok cache -> fetch_document instant_max policy env target agent o cache = (cache', r) ->
  cache_ok cache' /\ forall d ev, r = Ok (d, ev) -> document_ok d.
Proof.
  intros Hc. unfold fetch_document. destruct (fetch_answer _ _ _ _ _) as [[[d ev] ex]|e] eqn:Ha;
    intros [= <- <-]; [|by split].
  assert (Hd : document_ok d).
  { unfold fetch_answer in Ha. do 3 (apply bind_ok in Ha as (? & _ & Ha)).
    apply bind_ok in Ha as ([d' ev'] & Hd & Ha). apply bind_ok in Ha as (? & _ & [= -> -> _]).
    by eapply classify_response_ok. }
  split; [by apply cache_insert_ok|]. by intros d' ev' [= <- _].
Qed.

Lemma cached_or_fetch_ok policy env now target agent o cache cache' r :
  cache_ok cache ->
  cached_or_fetch_document instant_max policy env now target agent o cache = (cache', r) ->
  cache_ok cache' /\ forall d ev, r = Ok (d, ev) -> document_ok d.
Proof.
  intros Hc%(retain_fresh_ok now). unfold cached_or_fetch_document, cache_get.
  destruct (retain_fresh now cache !! o) as [e|] eqn:He; simpl; [|by apply fetch_document_ok].
  intros [= <- <-]. split; [done|]. intros d ev [= <- _]. by eapply cache_documents.
Qed.
End service_lemmas.

(** The same run under another robots decision. *)
Definition with_robots_decision `{UuidLib} `{UrlLib} (d : RobotsDecision) (s : CrawlRunSnapshot)
    : CrawlRunSnapshot :=
  let draft := snapshot_draft s in
  let a := draft_robots draft in
  {| snapshot_draft := {| draft_run_type := draft_run_type draft;
       draft_configuration := draft_configuration draft;
       draft_selected_seed_ids := draft_selected_seed_ids draft;
       draft_run_profile_id := draft_run_profile_id draft; draft_settings := draft_settings draft;
       draft_robots := {| robots_decision := d; robots_actor := robots_actor a; decided_at := decided_at a;
         affected_scope := affected_scope a; robots_user_agent := robots_user_agent a;
         robots_crawler_version_id := robots_crawler_version_id a |};
       draft_actor := draft_actor draft; draft_created_at := draft_created_at draft |};
     snapshot_hash := snapshot_hash s; checkpoint_compatibility_hash := checkpoint_compatibility_hash s |}.

(** * Properties *)

(** Matching implements the pattern language: a rule matches a request path exactly
    when its pattern, with [*] for any text, describes the whole path if it is anchored
    with [$] and some prefix of it otherwise; scanning for the first occurrence of each
    piece loses no match. *)
Theorem rule_matches_glob r path : rule_matches r path = true <-> rule_concerns r path.
Proof. apply rule_matches_spec. Qed.

(** Selection: the groups that name the user agent most specifically are the ones
    that apply, and the groups for [*] apply when, and only when, no group names it. *)
Theorem select_groups_spec gs agent g :
  g ∈ select_groups gs agent <-> g ∈ gs /\
    ((exists n, (0 < n)%nat /\ names (to_ascii_lowercase agent) g n /\
        forall g' m, g' ∈ gs -> names (to_ascii_lowercase agent) g' m -> (m <= n)%nat) \/
     ((forall g' m, g' ∈ gs -> names (to_ascii_lowercase agent) g' m -> m = 0%nat) /\
      "*"%string ∈ user_agents g)).
Proof. apply elem_of_select_groups. Qed.

(** Precedence: a parsed policy refuses a target exactly when a disallow rule of the
    selected groups concerns its path and query and is strictly more specific than
    every allow rule that concerns them. *)
Theorem robots_precedence `{L : UrlLib} d target agent :
  allow_all d = false -> deny_all d = false ->
  let applicable := applicable_rules (select_groups (groups d) agent) in
  let path := request_path_for_robots target in
  evaluation_allowed (doc_evaluate d target agent) = false <->
  exists r, r ∈ applicable /\ allow r = false /\ rule_concerns r path /\
    forall r', r' ∈ applicable -> allow r' = true -> rule_concerns r' path ->
      (specificity r' < specificity r)%nat.
Proof.
  intros Ha Hd applicable path. unfold doc_evaluate. rewrite Ha, Hd, evaluate_fold. simpl.
  fold applicable path. pose proof (best_of_rules path applicable [] None eq_refl) as Hb.
  simpl in Hb. set (matching := filter _ applicable) in Hb.
  assert (Hm : forall r, r ∈ matching <-> r ∈ applicable /\ rule_concerns r path).
  { intros r. unfold matching. rewrite list_elem_of_filter, rule_matches_spec. tauto. }
  destruct (foldl _ None applicable) as [[s a]|]; simpl in Hb.
  - destruct Hb as ((r & Hr & Hs & Hra) & Hle & Hlt). split.
    + intros ->. apply Hm in Hr as Hr'. destruct Hr' as [Hin Hc].
      exists r. split_and!; try done. intros r' Hin' Ha' Hc'. rewrite Hs. apply Hlt; [done| |done].
      by apply Hm.
    + intros (r1 & Hin1 & Ha1 & Hc1 & Hall). destruct a; [|done].
      apply Hm in Hr as [Hin Hc]. specialize (Hall r Hin Hra Hc).
      assert (r1 ∈ matching) as H1 by (by apply Hm). specialize (Hle r1 H1). lia.
  - split; [done|]. intros (r & Hin & _ & Hc & _).
    assert (r ∈ matching) as Hr by (by apply Hm). rewrite Hb in Hr. by apply not_elem_of_nil in Hr.
Qed.

Section service_properties.
Context `{L : UrlLib} `{N : !UrlHostLib} `{U : UuidLib} `{F : FloatLib, FL : !FloatLaws F}.

(** The scope of an override: against the same run without one, it leaves every
    error, every allowed target and every crawl delay as they are, and turns a disallow
    into an overridden admission only where the policy was parsed, never where access
    to the robots file was denied. *)
Theorem override_scope instant_max policy env now target snapshot cache reason :
  let run d := evaluate_robots instant_max policy env now target (with_robots_decision d snapshot) cache in
  (run (Override reason)).1 = (run Respect).1 /\
  ((run (Override reason)).2 = (run Respect).2 \/
   exists origin delay evidence document,
     (run Respect).2 = Ok (Build_RobotsAdmission origin Disallowed delay, evidence) /\
     (run (Override reason)).2 = Ok (Build_RobotsAdmission origin Overridden delay, evidence) /\
     (cached_or_fetch_document instant_max policy env now target
        (resolved_value (set_user_agent (draft_settings (snapshot_draft snapshot)))) origin cache).2
       = Ok (document, evidence) /\ allow_all document = false /\ deny_all document = false) /\
  forall admission evidence, (run Respect).2 = Ok (admission, evidence) ->
    admission_decision admission <> Overridden.
Proof.
  intros run. unfold run, evaluate_robots. simpl.
  destruct (validate_url target) as [[]|e]; simpl; [|by split_and!; [|left|]].
  destruct (origin_from_url target) as [origin|e]; simpl; [|by split_and!; [|left|]].
  destruct (cached_or_fetch_document _ _ _ _ _ _ _ _) as [cache' [[document evidence]|e]] eqn:Hdoc; simpl;
    [|by split_and!; [|left|]].
  set (agent := resolved_value _) in *. unfold decide_admission. rewrite andb_false_r.
  destruct (evaluation_allowed _) eqn:Hallowed.
  { split_and!; [done|by left|]. by intros ? ? [= <- _]. }
  unfold permits_disallow_override.
  destruct (allow_all document) eqn:Ha; [split_and!; [done|by left|by intros ? ? [= <- _]]|].
  destruct (deny_all document) eqn:Hd; [split_and!; [done|by left|by intros ? ? [= <- _]]|].
  split_and!; [done| |by intros ? ? [= <- _]]. right. simpl.
  eexists origin, _, evidence, document. split_and!; try done. by rewrite Hdoc.
Qed.

(** The policy cache never holds more than 256 origins, and every crawl delay it
    holds, and every delay handed to pacing, lies between zero and five minutes,
    whatever the robots files say. *)
Theorem robots_cache_bounded instant_max policy env now target snapshot cache cache' answer :
  cache_ok cache -> evaluate_robots instant_max policy env now target snapshot cache = (cache', answer) ->
  cache_ok cache' /\
  forall admission evidence delay, answer = Ok (admission, evidence) ->
    admission_crawl_delay admission = Some delay -> delay_ok delay.
Proof.
  intros Hc. unfold evaluate_robots.
  destruct (validate_url target); simpl; [|by intros [= <- <-]].
  destruct (origin_from_url target) as [origin|]; simpl; [|by intros [= <- <-]].
  destruct (cached_or_fetch_document _ _ _ _ _ _ _ _) as [c r] eqn:Hdoc.
  apply cached_or_fetch_ok in Hdoc as [Hc' Hr]; [|done]. intros [= <- <-]. split; [done|].
  intros admission evidence delay. destruct r as [[document ev]|e]; [|done].
  intros [= <- _]. simpl. by eapply doc_evaluate_delay, Hr.
Qed.

(** A fetched policy is served from the cache until its ten minutes are over and no
    longer; a fetch that fails stores nothing, so no failure is remembered as a
    policy. *)
Theorem cached_policy_fresh instant_max policy env target agent origin cache cache' answer now :
  fetch_document instant_max policy env target agent origin cache = (cache', answer) ->
  match answer with
  | Ok (document, evidence) =>
    (cache_get origin now cache').2
    = if now <? env_now env + ROBOTS_CACHE_TTL then Some (document, evidence) else None
  | Err _ => cache' = cache
  end.
Proof.
  unfold fetch_document. destruct (fetch_answer _ _ _ _ _) as [[[d ev] ex]|e] eqn:Ha; intros [= <- <-]; [|done].
  assert (ex = env_now env + ROBOTS_CACHE_TTL) as ->.
  { unfold fetch_answer in Ha. do 3 (apply bind_ok in Ha as (? & _ & Ha)).
    apply bind_ok in Ha as ([? ?] & _ & Ha). apply bind_ok in Ha as (t & Ht & [= _ _ ->]).
    unfold instant_add in Ht. destruct (checked_add _ _ _) eqn:Hadd; [|done].
    simpl in Ht. injection Ht as <-. by apply checked_add_some in Hadd as [-> _]. }
  unfold cache_get. simpl. unfold cache_insert.
  match goal with |- context [ <[origin := ?e]> ?m ] => set (entry := e); set (others := m) end.
  clearbody others. destruct (Z.ltb_spec now (env_now env + ROBOTS_CACHE_TTL)).
  - assert (retain_fresh now (<[origin := entry]> others) !! origin = Some entry) as ->; [|done].
    apply retain_fresh_lookup. by rewrite lookup_insert_eq.
  - assert (retain_fresh now (<[origin := entry]> others) !! origin = None) as ->; [|done].
    apply eq_None_not_Some. intros [e He%retain_fresh_lookup]. rewrite lookup_insert_eq in He.
    destruct He as [[= <-] He]. unfold entry in He. simpl in He. lia.
Qed.
End service_properties.

(** ** Witnesses *)

(** Whole seconds. *)
#[export] Instance plain_floats : FloatLib := {|
  f64 := Z;
  f64_parse s := parse_unsigned u64_max s;
  f64_is_finite _ := true;
  f64_is_sign_negative x := x <? 0;
  try_from_secs_f64 x := if x <? 0 then None else Some (from_secs x)
|}.

#[export] Instance plain_floats_laws : FloatLaws plain_floats.
Proof.
  split. intros x d. simpl. destruct (Z.ltb_spec x 0); [done|]. intros [= <-]. unfold from_secs. lia.
Qed.

Definition example_robots_text : string := join (String "010" EmptyString)
  ["User-agent: *"; "Disallow: /private # keep out"; "Allow: /private/open*$"; "Crawl-delay: 900"; "";
   "User-agent: Erabi"; "Disallow: /*.pdf$"]%string.
Definition example_document : RobotsDocument :=
  match parse_robots_document example_robots_text with Ok d => d | Err _ => doc_deny_all end.

Lemma example_document_parsed :
  map (fun g => (user_agents g, map pattern (rules g), crawl_delays g)) (groups example_document)
  = [(["*"%string], ["/private"; "/private/open*"]%string, [MAX_PACING_DELAY]);
     (["erabi"%string], ["/*.pdf"%string], [])].
Proof. vm_compute. reflexivity. Qed.

Definition example_target (path : string)
    (H : plain_ok (mk_plain false "public.test" path None None) = true) : url (UrlLib := plain_url) :=
  plain_page_url "public.test" path H.

Definition example_disallow : RobotsRule :=
  {| pattern := "/private"; allow := false; specificity := 8; end_anchored := false |}.

Lemma robots_precedence_witness :
  evaluation_allowed (doc_evaluate example_document (example_target "/private/x" eq_refl) "OtherBot/1.0") = false.
Proof.
  apply (robots_precedence example_document (example_target "/private/x" eq_refl) "OtherBot/1.0" eq_refl eq_refl).
  exists example_disallow. split_and!.
  - vm_compute. left.
  - reflexivity.
  - apply rule_matches_spec. vm_compute. reflexivity.
  - intros r Hin Hallow Hc%rule_matches_spec. vm_compute in Hin.
    repeat (apply elem_of_cons in Hin as [->|Hin]; [vm_compute in Hallow, Hc; congruence|]).
    by apply not_elem_of_nil in Hin.
Defined.

Definition example_env (status : Z) (body : string) : FetchEnvironment (L := plain_url) := {|
  env_permit := Ok tt;
  env_transport _ _ := Ok {| response_status := status; response_body := body; response_retry_after := Absent |};
  env_record _ := Ok tt;
  env_now := 0
|}.

Definition example_robots_snapshot : CrawlRunSnapshot (U := plain_uuid) (L := plain_url) :=
  {| snapshot_draft := example_draft "operator"; snapshot_hash := EmptyString;
     checkpoint_compatibility_hash := EmptyString |}.

Lemma cache_ok_empty : cache_ok ∅.
Proof.
  split.
  - rewrite map_size_empty. unfold MAX_ROBOTS_CACHE_ENTRIES. lia.
  - intros o e. by rewrite lookup_empty.
Qed.

Lemma robots_cache_bounded_witness :
  cache_ok (evaluate_robots example_instant_max example_net_policy (example_env 200 example_robots_text) 0
    (example_target "/private/x" eq_refl) example_robots_snapshot ∅).1.
Proof.
  destruct (evaluate_robots _ _ _ _ _ _ _) as [cache answer] eqn:Heq.
  destruct (robots_cache_bounded example_instant_max example_net_policy (example_env 200 example_robots_text) 0
    (example_target "/private/x" eq_refl) example_robots_snapshot ∅ cache answer cache_ok_empty Heq) as [H _].
  exact H.
Defined.

Lemma cached_policy_fresh_witness :
  (cache_get example_origin 1 (fetch_document example_instant_max example_net_policy (example_env 404 EmptyString)
    (example_target "/" eq_refl) "Erabi" example_origin ∅).1).2 = Some (doc_allow_all, EvNotFound).
Proof.
  apply (cached_policy_fresh example_instant_max example_net_policy (example_env 404 EmptyString)
    (example_target "/" eq_refl) "Erabi" example_origin ∅ _ (Ok (doc_allow_all, EvNotFound)) 1).
  vm_compute. reflexivity.
Defined.
