(* ===== verification/TraversalTables.v ===== *)
(** * Rows of the traversal and execution tables

    [migrations/0002_crawler_core.sql], [0003_runs.sql], [0005_crawl_execution.sql] and
    [0006_crawl_traversal_state.sql]: the logical work of a crawl, its discovery
    evidence, its executions and its recovery actions.

    Identifiers are held by the text they are stored under.  A column whose [CHECK]
    lists its values is held as the enumeration, a [0]/[1] column as a [bool]. *)

From S2P Require Import Prelude Externals Base Crawler.

(** ** Enumerations ([crawl_traversal.rs], [crawl_execution.rs]) *)

Inductive CrawlAdmissionState := AdmittedWork | PreserveOnly | Resolved.
Inductive CrawlWorkState :=
| WorkPending | WorkRunning | WorkCompleted | WorkPartial | WorkFailed | WorkCancelled.
Inductive CrawlRecoveryActionKind := ActionRetry | ActionRetryFailedParts | ActionRestartFromBeginning.
Inductive CrawlPageTypeMatchState := PageTypeMatched | PageTypeUnmatched | PageTypeAmbiguous.
Inductive CrawlExecutionArtifactKind := RawHtml | CleanedHtml | RenderedHtml | Markdown | Screenshot.

#[export] Instance admission_state_eq_dec : EqDecision CrawlAdmissionState.
Proof. solve_decision. Defined.
#[export] Instance work_state_eq_dec : EqDecision CrawlWorkState.
Proof. solve_decision. Defined.
#[export] Instance recovery_kind_eq_dec : EqDecision CrawlRecoveryActionKind.
Proof. solve_decision. Defined.
#[export] Instance match_state_eq_dec : EqDecision CrawlPageTypeMatchState.
Proof. solve_decision. Defined.
#[export] Instance artifact_kind_eq_dec : EqDecision CrawlExecutionArtifactKind.
Proof. solve_decision. Defined.

#[export] Instance artifact_kind_countable : Countable CrawlExecutionArtifactKind.
Proof.
  apply (inj_countable' (fun k => match k with
      | RawHtml => 0%nat | CleanedHtml => 1%nat | RenderedHtml => 2%nat | Markdown => 3%nat
      | Screenshot => 4%nat end)
    (fun n => match n with
      | 0%nat => RawHtml | 1%nat => CleanedHtml | 2%nat => RenderedHtml | 3%nat => Markdown
      | _ => Screenshot end)).
  by intros [].
Defined.

(** [CrawlRecoveryActionKind::as_str]. *)
Definition recovery_kind_as_str (k : CrawlRecoveryActionKind) : string :=
  match k with
  | ActionRetry => "RETRY"
  | ActionRetryFailedParts => "RETRY_FAILED_PARTS"
  | ActionRestartFromBeginning => "RESTART_FROM_BEGINNING"
  end.

(** ** Logical work: [crawl_url_state]

    The columns but the key, which a [CrawlUrlStateRecord] shares with its row. *)
Record UrlStateColumns := {
  us_run : string;
  us_canonical_url : string;
  us_first_discovered_url_id : option string;
  us_requested_url : string;
  us_parent_url_state_id : option string;
  us_parent_discovered_url_id : option string;
  us_admission_state : CrawlAdmissionState;
  us_preserve_reason : option string;
  us_resolved_to_url_state_id : option string;
  us_admission_sequence : option Z;
  us_depth : option Z;
  us_target_page_type_id : option string;
  us_transition_id : option string;
  us_pagination : bool;
  us_final_canonical_url : option string;
  us_current_work_state : option CrawlWorkState;
  us_work_generation : Z;
  us_current_execution_id : option string;
  us_seen : bool;
  us_sampled : bool;
  us_expanded : bool;
  us_in_scope : bool;
  us_page_type_match_state : option CrawlPageTypeMatchState
}.

#[export] Instance url_state_columns_eq_dec : EqDecision UrlStateColumns.
Proof. solve_decision. Defined.

(** [crawl_traversal_control]: the columns but the key. *)
Record ControlColumns := {
  ct_consumed_bytes : Z;
  ct_raw_link_count : Z;
  ct_duplicate_count : Z;
  ct_robots_excluded_count : Z;
  ct_provider_error_count : Z;
  ct_external_url_count : Z;
  ct_blocked_url_count : Z;
  ct_peak_expansion_count : Z;
  ct_elapsed_millis : Z;
  ct_time_budget_hit : bool;
  ct_duration_work_not_expanded : bool;
  ct_pagination_truncation_count : Z;
  ct_next_admission_sequence : Z
}.

#[export] Instance control_columns_eq_dec : EqDecision ControlColumns.
Proof. solve_decision. Defined.

(** ** Evidence: [discovered_urls], [crawl_execution_results] *)

Record DiscoveredUrlRow := {
  du_run : string;
  du_source_id : option string;
  du_raw_href : option string;
  du_original_url : string;
  du_canonical_url : string;
  du_status : string;
  du_discovered_at : string;
  du_detail_json : string
}.

Record ExecutionRow := {
  ex_run : string;
  ex_requested_url : string;
  ex_canonical_url : string;
  ex_observed_final_url : option string;
  ex_source_id : option string;
  ex_page_type_id : option string;
  ex_transition_id : option string;
  ex_discovered_url_id : option string;
  ex_outcome : CrawlExecutionOutcome;
  ex_error_code : option CrawlExecutionErrorCode;
  ex_http_status : option Z;
  ex_media_type : option string;
  ex_content_length_bytes : option Z;
  ex_provider_elapsed_ms : option Z;
  ex_url_state_id : option string;
  ex_job_attempt_id : option string;
  ex_work_generation : Z
}.

(** ** Recovery: [crawl_recovery_actions], [crawl_recovery_action_items] *)

Record RecoveryActionRow := {
  ra_source_job_id : string;
  ra_run : string;
  ra_kind : CrawlRecoveryActionKind;
  ra_prepared_at : Z
}.

Record RecoveryItemRow := {
  ri_run : string;
  ri_previous_work_generation : Z;
  ri_prepared_work_generation : Z
}.

(** ** What the crawl refers to: [sources], [crawler_versions], [page_types],
    [discovery_transitions], [seeds], [artifacts] *)

Record SourceRow := { src_original_url : string; src_canonical_url : string }.
Record TransitionRow := { tr_version_id : string; tr_configuration_json : string }.
Record VersionRow := {
  vr_crawler_id : string;
  vr_state : CrawlerVersionState;
  vr_configuration_json : string
}.
Record ArtifactRow := { ar_run : option string; ar_source_id : option string }.

(** [page_types] and [seeds] are held by the version each row belongs to. *)
Record Catalogue := {
  sources : gmap string SourceRow;
  page_types : gmap string string;
  discovery_transitions : gmap string TransitionRow;
  seeds : gmap string string;
  version_rows : gmap string VersionRow;
  artifacts : gmap string ArtifactRow
}.

Definition empty_catalogue : Catalogue :=
  {| sources := ∅; page_types := ∅; discovery_transitions := ∅; seeds := ∅;
     version_rows := ∅; artifacts := ∅ |}.

(** [crawl_execution_summaries]: the columns but the key. *)
Record SummaryColumns := {
  sm_in_scope_pages_planned : Z;
  sm_in_scope_pages_completed : Z;
  sm_pagination_truncation_count : Z;
  sm_unresolved_partial_work_count : Z;
  sm_page_type_ambiguity_count : Z
}.

(** ** The tables

    [seed_provenance] maps a state and a seed to the ordinal; the counts are keyed by
    run and page type, and by run, transition and source state; the items by action
    job and state; the artifacts of an execution by execution and kind. *)
Record TraversalTables := {
  discovered_urls : gmap string DiscoveredUrlRow;
  crawl_url_state : gmap string UrlStateColumns;
  seed_provenance : gmap (string * string) Z;
  page_type_counts : gmap (string * string) (Z * Z);
  transition_source_counts : gmap (string * string * string) Z;
  traversal_control : gmap string ControlColumns;
  recovery_actions : gmap string RecoveryActionRow;
  recovery_action_items : gmap (string * string) RecoveryItemRow;
  execution_results : gmap string ExecutionRow;
  execution_artifacts : gmap (string * CrawlExecutionArtifactKind) string;
  execution_summaries : gmap string SummaryColumns
}.

Definition empty_traversal : TraversalTables :=
  {| discovered_urls := ∅; crawl_url_state := ∅; seed_provenance := ∅; page_type_counts := ∅;
     transition_source_counts := ∅; traversal_control := ∅; recovery_actions := ∅;
     recovery_action_items := ∅; execution_results := ∅; execution_artifacts := ∅;
     execution_summaries := ∅ |}.

(** One table replaced. *)
Definition set_discovered_urls (t : gmap string DiscoveredUrlRow) (tr : TraversalTables) : TraversalTables :=
  {| discovered_urls := t; crawl_url_state := crawl_url_state tr;
     seed_provenance := seed_provenance tr; page_type_counts := page_type_counts tr;
     transition_source_counts := transition_source_counts tr;
     traversal_control := traversal_control tr; recovery_actions := recovery_actions tr;
     recovery_action_items := recovery_action_items tr;
     execution_results := execution_results tr; execution_artifacts := execution_artifacts tr;
     execution_summaries := execution_summaries tr |}.
Definition set_crawl_url_state (t : gmap string UrlStateColumns) (tr : TraversalTables) : TraversalTables :=
  {| discovered_urls := discovered_urls tr; crawl_url_state := t;
     seed_provenance := seed_provenance tr; page_type_counts := page_type_counts tr;
     transition_source_counts := transition_source_counts tr;
     traversal_control := traversal_control tr; recovery_actions := recovery_actions tr;
     recovery_action_items := recovery_action_items tr;
     execution_results := execution_results tr; execution_artifacts := execution_artifacts tr;
     execution_summaries := execution_summaries tr |}.
Definition set_seed_provenance (t : gmap (string * string) Z) (tr : TraversalTables) : TraversalTables :=
  {| discovered_urls := discovered_urls tr; crawl_url_state := crawl_url_state tr;
     seed_provenance := t; page_type_counts := page_type_counts tr;
     transition_source_counts := transition_source_counts tr;
     traversal_control := traversal_control tr; recovery_actions := recovery_actions tr;
     recovery_action_items := recovery_action_items tr;
     execution_results := execution_results tr; execution_artifacts := execution_artifacts tr;
     execution_summaries := execution_summaries tr |}.
Definition set_page_type_counts (t : gmap (string * string) (Z * Z)) (tr : TraversalTables) : TraversalTables :=
  {| discovered_urls := discovered_urls tr; crawl_url_state := crawl_url_state tr;
     seed_provenance := seed_provenance tr; page_type_counts := t;
     transition_source_counts := transition_source_counts tr;
     traversal_control := traversal_control tr; recovery_actions := recovery_actions tr;
     recovery_action_items := recovery_action_items tr;
     execution_results := execution_results tr; execution_artifacts := execution_artifacts tr;
     execution_summaries := execution_summaries tr |}.
Definition set_transition_source_counts (t : gmap (string * string * string) Z) (tr : TraversalTables) : TraversalTables :=
  {| discovered_urls := discovered_urls tr; crawl_url_state := crawl_url_state tr;
     seed_provenance := seed_provenance tr; page_type_counts := page_type_counts tr;
     transition_source_counts := t; traversal_control := traversal_control tr;
     recovery_actions := recovery_actions tr;
     recovery_action_items := recovery_action_items tr;
     execution_results := execution_results tr; execution_artifacts := execution_artifacts tr;
     execution_summaries := execution_summaries tr |}.
Definition set_traversal_control (t : gmap string ControlColumns) (tr : TraversalTables) : TraversalTables :=
  {| discovered_urls := discovered_urls tr; crawl_url_state := crawl_url_state tr;
     seed_provenance := seed_provenance tr; page_type_counts := page_type_counts tr;
     transition_source_counts := transition_source_counts tr; traversal_control := t;
     recovery_actions := recovery_actions tr;
     recovery_action_items := recovery_action_items tr;
     execution_results := execution_results tr; execution_artifacts := execution_artifacts tr;
     execution_summaries := execution_summaries tr |}.
Definition set_recovery_actions (t : gmap string RecoveryActionRow) (tr : TraversalTables) : TraversalTables :=
  {| discovered_urls := discovered_urls tr; crawl_url_state := crawl_url_state tr;
     seed_provenance := seed_provenance tr; page_type_counts := page_type_counts tr;
     transition_source_counts := transition_source_counts tr;
     traversal_control := traversal_control tr; recovery_actions := t;
     recovery_action_items := recovery_action_items tr;
     execution_results := execution_results tr; execution_artifacts := execution_artifacts tr;
     execution_summaries := execution_summaries tr |}.
Definition set_recovery_action_items (t : gmap (string * string) RecoveryItemRow) (tr : TraversalTables) : TraversalTables :=
  {| discovered_urls := discovered_urls tr; crawl_url_state := crawl_url_state tr;
     seed_provenance := seed_provenance tr; page_type_counts := page_type_counts tr;
     transition_source_counts := transition_source_counts tr;
     traversal_control := traversal_control tr; recovery_actions := recovery_actions tr;
     recovery_action_items := t; execution_results := execution_results tr;
     execution_artifacts := execution_artifacts tr;
     execution_summaries := execution_summaries tr |}.
Definition set_execution_results (t : gmap string ExecutionRow) (tr : TraversalTables) : TraversalTables :=
  {| discovered_urls := discovered_urls tr; crawl_url_state := crawl_url_state tr;
     seed_provenance := seed_provenance tr; page_type_counts := page_type_counts tr;
     transition_source_counts := transition_source_counts tr;
     traversal_control := traversal_control tr; recovery_actions := recovery_actions tr;
     recovery_action_items := recovery_action_items tr; execution_results := t;
     execution_artifacts := execution_artifacts tr;
     execution_summaries := execution_summaries tr |}.
Definition set_execution_artifacts (t : gmap (string * CrawlExecutionArtifactKind) string) (tr : TraversalTables) : TraversalTables :=
  {| discovered_urls := discovered_urls tr; crawl_url_state := crawl_url_state tr;
     seed_provenance := seed_provenance tr; page_type_counts := page_type_counts tr;
     transition_source_counts := transition_source_counts tr;
     traversal_control := traversal_control tr; recovery_actions := recovery_actions tr;
     recovery_action_items := recovery_action_items tr;
     execution_results := execution_results tr; execution_artifacts := t;
     execution_summaries := execution_summaries tr |}.
Definition set_execution_summaries (t : gmap string SummaryColumns) (tr : TraversalTables) : TraversalTables :=
  {| discovered_urls := discovered_urls tr; crawl_url_state := crawl_url_state tr;
     seed_provenance := seed_provenance tr; page_type_counts := page_type_counts tr;
     transition_source_counts := transition_source_counts tr;
     traversal_control := traversal_control tr; recovery_actions := recovery_actions tr;
     recovery_action_items := recovery_action_items tr;
     execution_results := execution_results tr; execution_artifacts := execution_artifacts tr;
     execution_summaries := t |}.
