(* ===== verification/Store.v ===== *)
(** * The durable tables

    [migrations/0003_runs.sql] and [migrations/0004_jobs.sql]: the tables the job
    queue, its checkpoints and its progress streams live in, with the [CHECK]s,
    [UNIQUE]s, foreign keys and triggers SQLite enforces, and the transactions of
    [crates/erabi-db/src/repositories].

    A table is a map from its primary key.  A [TEXT] column whose [CHECK] lists its
    values is held as the enumeration.  A statement fails only when a constraint or
    a trigger rejects it: the failures of the database file and of its worker are never
    answers of the model, and appear only where the code tells failures apart. *)

From S2P Require Import Prelude Externals Base TraversalTables.

(** ** Statement failures ([lib.rs]) *)

Inductive MigrationFailureState := Apply | ChecksumMismatch | UnsupportedSchema | InvalidPlan.
Record MigrationFailure := {
  failed_version : option string;
  migration_state : MigrationFailureState;
  migration_message : string
}.

Inductive DatabaseFailure :=
| Busy | BusySnapshot | Full | ReadOnly | ConstraintViolation | NotADatabase | Corrupt | InterruptedStatement
| Conversion | OtherFailure.
Inductive WorkerFailureKind := ShuttingDown | WorkerPanicked.
Inductive DbError :=
| DbDatabase (failure : DatabaseFailure)
| DbWorker (failure : WorkerFailureKind)
| DbSerialization (message : string)
| DbMigration (failure : MigrationFailure)
| DbInvariant (message : string).

(** Whether the worker must fail closed for this failure. *)
Definition is_durable_invariant (e : DbError) : bool :=
  match e with
  | DbWorker ShuttingDown
  | DbDatabase (Busy | BusySnapshot | Full | ReadOnly | InterruptedStatement) => false
  | _ => true
  end.

(** ** Columns that hold an enumeration ([job.rs]) *)

Inductive JobState := Queued | Running | Succeeded | Failed | Cancelled.
Inductive JobFailureCode :=
| HandlerFailed | HandlerPanicked | LeaseExpiredCode | CancelledCode | StoragePressureCode.
Inductive AttemptOutcome :=
| AttemptRunning | AttemptSucceeded | AttemptFailed | AttemptLeaseExpired.

#[export] Instance job_state_eq_dec : EqDecision JobState.
Proof. solve_decision. Defined.
#[export] Instance failure_code_eq_dec : EqDecision JobFailureCode.
Proof. solve_decision. Defined.
#[export] Instance attempt_outcome_eq_dec : EqDecision AttemptOutcome.
Proof. solve_decision. Defined.

(** ** Rows *)

Record JobRow := {
  row_kind : string;
  row_priority : Z;
  row_state : JobState;
  row_parent_job_id : option string;
  row_crawl_run_id : option string;
  row_scheduled_at : Z;
  row_current_attempt : Z;
  row_max_attempts : Z;
  row_lease_id : option string;
  row_lease_owner : option string;
  row_lease_generation : Z;
  row_lease_acquired_at : option Z;
  row_lease_expires_at : option Z;
  row_heartbeat_at : option Z;
  row_failure_code : option JobFailureCode;
  row_created_at : Z;
  row_updated_at : Z
}.

Record AttemptRow := {
  att_job_id : string;
  att_number : Z;
  att_lease_id : string;
  att_lease_generation : Z;
  att_worker_id : string;
  att_started_at : Z;
  att_finished_at : option Z;
  att_outcome : AttemptOutcome;
  att_failure_code : option JobFailureCode
}.

Record CheckpointRow := {
  ckpt_job_id : string;
  ckpt_attempt_id : option string;
  ckpt_json : string;
  ckpt_created_at : Z
}.

Record ProgressRow := {
  prog_job_id : string;
  prog_attempt_id : option string;
  prog_sequence : Z;
  prog_event_type : string;
  prog_payload_json : string;
  prog_created_at : Z
}.

Record RunRow := {
  run_type : CrawlRunType;
  run_status : CrawlRunStatus;
  run_crawler_id : option string;
  run_crawler_version_id : option string;
  run_snapshot_json : string;
  run_snapshot_hash : string;
  run_checkpoint_compatibility_hash : string;
  run_actor : string;
  run_created_at : string
}.

Record AuditRow := {
  audit_event_type : string;
  audit_actor : string;
  audit_occurred_at : string;
  audit_entity_type : string;
  audit_entity_id : string;
  audit_payload_json : string
}.

(** [crawlers] and [crawler_versions] hold the keys a run may refer to, [catalogue] the
    rows a crawl may refer to, [traversal] its traversal and execution tables;
    [uuids_drawn] counts the identifiers [Uuid::now_v7] has supplied. *)
Record Db := {
  jobs : gmap string JobRow;
  job_attempts : gmap string AttemptRow;
  job_checkpoints : gmap string CheckpointRow;
  job_progress_events : gmap string ProgressRow;
  crawl_runs : gmap string RunRow;
  audit_events : gmap string AuditRow;
  crawlers : gset string;
  crawler_versions : gset string;
  catalogue : Catalogue;
  traversal : TraversalTables;
  uuids_drawn : nat
}.

Definition empty_db (crawler_ids version_ids : gset string) : Db :=
  {| jobs := ∅; job_attempts := ∅; job_checkpoints := ∅; job_progress_events := ∅;
     crawl_runs := ∅; audit_events := ∅; crawlers := crawler_ids;
     crawler_versions := version_ids; catalogue := empty_catalogue; traversal := empty_traversal;
     uuids_drawn := 0 |}.

Definition with_jobs (t : gmap string JobRow) (db : Db) : Db :=
  {| jobs := t; job_attempts := job_attempts db; job_checkpoints := job_checkpoints db;
     job_progress_events := job_progress_events db; crawl_runs := crawl_runs db;
     audit_events := audit_events db; crawlers := crawlers db;
     crawler_versions := crawler_versions db; catalogue := catalogue db;
     traversal := traversal db; uuids_drawn := uuids_drawn db |}.
Definition with_attempts (t : gmap string AttemptRow) (db : Db) : Db :=
  {| jobs := jobs db; job_attempts := t; job_checkpoints := job_checkpoints db;
     job_progress_events := job_progress_events db; crawl_runs := crawl_runs db;
     audit_events := audit_events db; crawlers := crawlers db;
     crawler_versions := crawler_versions db; catalogue := catalogue db;
     traversal := traversal db; uuids_drawn := uuids_drawn db |}.
Definition with_checkpoints (t : gmap string CheckpointRow) (db : Db) : Db :=
  {| jobs := jobs db; job_attempts := job_attempts db; job_checkpoints := t;
     job_progress_events := job_progress_events db; crawl_runs := crawl_runs db;
     audit_events := audit_events db; crawlers := crawlers db;
     crawler_versions := crawler_versions db; catalogue := catalogue db;
     traversal := traversal db; uuids_drawn := uuids_drawn db |}.
Definition with_progress (t : gmap string ProgressRow) (db : Db) : Db :=
  {| jobs := jobs db; job_attempts := job_attempts db; job_checkpoints := job_checkpoints db;
     job_progress_events := t; crawl_runs := crawl_runs db;
     audit_events := audit_events db; crawlers := crawlers db;
     crawler_versions := crawler_versions db; catalogue := catalogue db;
     traversal := traversal db; uuids_drawn := uuids_drawn db |}.
Definition with_runs (t : gmap string RunRow) (db : Db) : Db :=
  {| jobs := jobs db; job_attempts := job_attempts db; job_checkpoints := job_checkpoints db;
     job_progress_events := job_progress_events db; crawl_runs := t;
     audit_events := audit_events db; crawlers := crawlers db;
     crawler_versions := crawler_versions db; catalogue := catalogue db;
     traversal := traversal db; uuids_drawn := uuids_drawn db |}.
Definition with_audit (t : gmap string AuditRow) (db : Db) : Db :=
  {| jobs := jobs db; job_attempts := job_attempts db; job_checkpoints := job_checkpoints db;
     job_progress_events := job_progress_events db; crawl_runs := crawl_runs db;
     audit_events := t; crawlers := crawlers db;
     crawler_versions := crawler_versions db; catalogue := catalogue db;
     traversal := traversal db; uuids_drawn := uuids_drawn db |}.
Definition with_drawn (n : nat) (db : Db) : Db :=
  {| jobs := jobs db; job_attempts := job_attempts db; job_checkpoints := job_checkpoints db;
     job_progress_events := job_progress_events db; crawl_runs := crawl_runs db;
     audit_events := audit_events db; crawlers := crawlers db;
     crawler_versions := crawler_versions db; catalogue := catalogue db;
     traversal := traversal db; uuids_drawn := n |}.

Definition with_traversal (t : TraversalTables) (db : Db) : Db :=
  {| jobs := jobs db; job_attempts := job_attempts db; job_checkpoints := job_checkpoints db;
     job_progress_events := job_progress_events db; crawl_runs := crawl_runs db;
     audit_events := audit_events db; crawlers := crawlers db;
     crawler_versions := crawler_versions db; catalogue := catalogue db;
     traversal := t; uuids_drawn := uuids_drawn db |}.
Definition with_catalogue (c : Catalogue) (db : Db) : Db :=
  {| jobs := jobs db; job_attempts := job_attempts db; job_checkpoints := job_checkpoints db;
     job_progress_events := job_progress_events db; crawl_runs := crawl_runs db;
     audit_events := audit_events db; crawlers := crawlers db;
     crawler_versions := crawler_versions db; catalogue := c;
     traversal := traversal db; uuids_drawn := uuids_drawn db |}.

(** ** Transactions *)

(** Code that runs inside a transaction. *)
Definition Tx (E A : Type) : Type := Db -> result E (A * Db).

Definition tx_ret {E A} (a : A) : Tx E A := fun db => Ok (a, db).
Definition tx_fail {E A} (e : E) : Tx E A := fun _ => Err e.
Definition tx_bind {E A B} (t : Tx E A) (k : A -> Tx E B) : Tx E B :=
  fun db => match t db with Ok (a, db') => k a db' | Err e => Err e end.
(** A query. *)
Definition tx_get {E} : Tx E Db := fun db => Ok (db, db).
Definition tx_of {E A} (r : result E A) : Tx E A :=
  fun db => match r with Ok a => Ok (a, db) | Err e => Err e end.
Definition tx_map_err {E F A} (f : E -> F) (t : Tx E A) : Tx F A :=
  fun db => map_err f (t db).

Notation "'let!' x := t 'in' k" := (tx_bind t (fun x => k))
  (at level 10, x pattern, t at level 100, k at level 200) : erabi_scope.

(** [if bad { return Err(e); }] *)
Definition tx_reject {E} (bad : bool) (e : E) : Tx E unit := tx_of (reject_if bad e).

(** A query that expects a row: [QueryReturnedNoRows] otherwise. *)
Definition no_rows : DbError := DbDatabase OtherFailure.

(** A loop over queried rows whose body may return early with [?]. *)
Fixpoint tx_fold {E A B} (f : B -> A -> Tx E B) (l : list A) (acc : B) : Tx E B :=
  match l with
  | [] => tx_ret acc
  | x :: l' => let! acc' := f acc x in tx_fold f l' acc'
  end.

Definition tx_each {E A} (f : A -> Tx E unit) (l : list A) : Tx E unit :=
  tx_fold (fun _ x => f x) l tt.

(** [transaction_with_behavior(Immediate)], then [commit] or [rollback]; with
    write transactions serialised by SQLite, an operation is one such step. *)
Definition transact {E A} (t : Tx E A) (db : Db) : result E A * Db :=
  match t db with Ok (a, db') => (Ok a, db') | Err e => (Err e, db) end.

(** ** Statements *)

Section keyed_statements.
Context {K Row : Type} `{Countable K}.

(** The rows a [WHERE] clause selects. *)
Definition matching (p : K -> Row -> bool) (t : gmap K Row) : gmap K Row :=
  filter (fun kv => p kv.1 kv.2 = true) t.

Definition exists_where (p : K -> Row -> bool) (t : gmap K Row) : bool :=
  existsb (fun kv => p kv.1 kv.2) (map_to_list t).
End keyed_statements.

Section statements.
Context {Row : Type}.

(** [SELECT ... WHERE p], in the order of the keys. *)
Definition select_where (p : string -> Row -> bool) (t : gmap string Row) : list (string * Row) :=
  sort_by (cmp_on fst String.compare) (filter (fun kv => p kv.1 kv.2 = true) (map_to_list t)).

(** [UPDATE ... SET f WHERE p]: the number of rows changed, or [None] when a
    constraint or a trigger rejects a row. *)
Definition update_where (allowed : Row -> Row -> bool) (p : string -> Row -> bool)
    (f : Row -> Row) (t : gmap string Row) : option (nat * gmap string Row) :=
  if forallb (fun kv => allowed kv.2 (f kv.2)) (map_to_list (matching p t))
  then Some (size (matching p t), map_imap (fun k r => Some (if p k r then f r else r)) t)
  else None.
End statements.

Definition constraint {A} : Tx DbError A := tx_fail (DbDatabase ConstraintViolation).

(** *** [jobs] *)

Definition lease_columns_null (r : JobRow) : bool :=
  negb (bool_decide (is_Some (row_lease_id r)) || bool_decide (is_Some (row_lease_owner r))
    || bool_decide (is_Some (row_lease_acquired_at r))
    || bool_decide (is_Some (row_lease_expires_at r)) || bool_decide (is_Some (row_heartbeat_at r))).
Definition lease_columns_set (r : JobRow) : bool :=
  bool_decide (is_Some (row_lease_id r)) && bool_decide (is_Some (row_lease_owner r))
  && bool_decide (is_Some (row_lease_acquired_at r))
  && bool_decide (is_Some (row_lease_expires_at r)) && bool_decide (is_Some (row_heartbeat_at r)).

(** [lo >= hi] on nullable columns, [NULL] passing. *)
Definition not_before (later earlier : option Z) : bool :=
  match later, earlier with Some l, Some e => e <=? l | _, _ => true end.

(** The [CHECK]s of [jobs], and the trigger [jobs_lease_state_consistency]. *)
Definition jobs_check (r : JobRow) : bool :=
  (1 <=? Z.of_nat (char_count (row_kind r))) && (Z.of_nat (char_count (row_kind r)) <=? 64)
  && (0 <=? row_current_attempt r) && (1 <=? row_max_attempts r)
  && (0 <=? row_lease_generation r) && (row_current_attempt r <=? row_max_attempts r)
  && (if decide (row_state r = Running) then lease_columns_set r else lease_columns_null r)
  && not_before (row_lease_expires_at r) (row_heartbeat_at r)
  && not_before (row_heartbeat_at r) (row_lease_acquired_at r).

(** The trigger [jobs_legal_state_transition], which fires when [state] is set. *)
Definition legal_transition (old new : JobState) : bool :=
  match old, new with
  | Queued, (Running | Cancelled) => true
  | Running, (Queued | Succeeded | Failed | Cancelled) => true
  | _, _ => false
  end.

Definition insert_job (id : string) (r : JobRow) : Tx DbError unit :=
  let! db := tx_get in
  if bool_decide (jobs db !! id = None) && jobs_check r && bool_decide (row_state r = Queued)
     && match row_parent_job_id r with
        | Some p => bool_decide (p = id) || bool_decide (is_Some (jobs db !! p))
        | None => true
        end
     && match row_crawl_run_id r with
        | Some run => bool_decide (is_Some (crawl_runs db !! run))
        | None => true
        end
  then fun db => Ok (tt, with_jobs (<[id := r]> (jobs db)) db)
  else constraint.

(** [UPDATE jobs SET f WHERE p]; [sets_state] tells whether [state] is among the
    columns set. *)
Definition update_jobs (sets_state : bool) (p : string -> JobRow -> bool) (f : JobRow -> JobRow)
    : Tx DbError nat := fun db =>
  match update_where (fun old new => jobs_check new &&
          (negb sets_state || legal_transition (row_state old) (row_state new))) p f (jobs db) with
  | Some (changed, t) => Ok (changed, with_jobs t db)
  | None => constraint db
  end.

(** [DELETE FROM jobs WHERE p]: no recovery action, attempt, checkpoint, event or child
    may refer to a deleted row. *)
Definition delete_jobs (p : string -> JobRow -> bool) : Tx DbError nat := fun db =>
  let gone := matching p (jobs db) in
  let refers o := match o with Some id => bool_decide (is_Some (gone !! id)) | None => false end in
  let kept := filter (fun kv => p kv.1 kv.2 = false) (jobs db) in
  if exists_where (fun k a => refers (Some k) || refers (Some (ra_source_job_id a)))
       (recovery_actions (traversal db))
     || exists_where (fun _ a => refers (Some (att_job_id a))) (job_attempts db)
     || exists_where (fun _ c => refers (Some (ckpt_job_id c))) (job_checkpoints db)
     || exists_where (fun _ e => refers (Some (prog_job_id e))) (job_progress_events db)
     || exists_where (fun _ r => refers (row_parent_job_id r)) kept
  then constraint db
  else Ok (size gone, with_jobs kept db).

(** *** [job_attempts] *)

Definition attempts_check (a : AttemptRow) : bool :=
  (1 <=? att_number a) && (1 <=? att_lease_generation a)
  && match att_outcome a with
     | AttemptRunning =>
       bool_decide (att_finished_at a = None) && bool_decide (att_failure_code a = None)
     | AttemptSucceeded =>
       bool_decide (is_Some (att_finished_at a)) && bool_decide (att_failure_code a = None)
     | AttemptFailed | AttemptLeaseExpired =>
       bool_decide (is_Some (att_finished_at a)) && bool_decide (is_Some (att_failure_code a))
     end.

(** The trigger [job_attempts_terminal_history_immutable]. *)
Definition attempt_update_allowed (old new : AttemptRow) : bool :=
  bool_decide (att_outcome old = AttemptRunning) && bool_decide (att_job_id new = att_job_id old)
  && (att_number new =? att_number old) && String.eqb (att_lease_id new) (att_lease_id old)
  && (att_lease_generation new =? att_lease_generation old)
  && String.eqb (att_worker_id new) (att_worker_id old)
  && (att_started_at new =? att_started_at old)
  && negb (bool_decide (att_outcome new = AttemptRunning))
  && bool_decide (is_Some (att_finished_at new)).

Definition insert_attempt (id : string) (a : AttemptRow) : Tx DbError unit := fun db =>
  if bool_decide (job_attempts db !! id = None) && attempts_check a
     && bool_decide (is_Some (jobs db !! att_job_id a))
     && negb (exists_where (fun _ b => bool_decide (att_job_id b = att_job_id a)
                 && (att_number b =? att_number a)) (job_attempts db))
     && negb (exists_where (fun _ b => String.eqb (att_lease_id b) (att_lease_id a)) (job_attempts db))
  then Ok (tt, with_attempts (<[id := a]> (job_attempts db)) db)
  else constraint db.

Definition update_attempts (p : string -> AttemptRow -> bool) (f : AttemptRow -> AttemptRow)
    : Tx DbError nat := fun db =>
  match update_where (fun old new => attempts_check new && attempt_update_allowed old new) p f
          (job_attempts db) with
  | Some (changed, t) => Ok (changed, with_attempts t db)
  | None => constraint db
  end.

(** *** [job_checkpoints] and [job_progress_events], which triggers keep append-only *)

Definition known_attempt (o : option string) (db : Db) : bool :=
  match o with Some a => bool_decide (is_Some (job_attempts db !! a)) | None => true end.

Definition insert_checkpoint (id : string) (c : CheckpointRow) : Tx DbError unit := fun db =>
  if bool_decide (job_checkpoints db !! id = None) && bool_decide (is_Some (jobs db !! ckpt_job_id c))
     && known_attempt (ckpt_attempt_id c) db
  then Ok (tt, with_checkpoints (<[id := c]> (job_checkpoints db)) db)
  else constraint db.

Definition insert_progress (id : string) (e : ProgressRow) : Tx DbError unit := fun db =>
  if bool_decide (job_progress_events db !! id = None)
     && bool_decide (is_Some (jobs db !! prog_job_id e)) && known_attempt (prog_attempt_id e) db
     && (1 <=? prog_sequence e) && (1 <=? Z.of_nat (char_count (prog_event_type e)))
     && (Z.of_nat (char_count (prog_event_type e)) <=? 64)
     && negb (exists_where (fun _ x => bool_decide (prog_job_id x = prog_job_id e)
                 && (prog_sequence x =? prog_sequence e)) (job_progress_events db))
  then Ok (tt, with_progress (<[id := e]> (job_progress_events db)) db)
  else constraint db.

(** *** [crawl_runs], whose snapshot columns a trigger keeps immutable *)

Definition set_run_status (s : CrawlRunStatus) (r : RunRow) : RunRow :=
  {| run_type := run_type r; run_status := s; run_crawler_id := run_crawler_id r;
     run_crawler_version_id := run_crawler_version_id r; run_snapshot_json := run_snapshot_json r;
     run_snapshot_hash := run_snapshot_hash r;
     run_checkpoint_compatibility_hash := run_checkpoint_compatibility_hash r;
     run_actor := run_actor r; run_created_at := run_created_at r |}.

Definition insert_run (id : string) (r : RunRow) : Tx DbError unit := fun db =>
  if bool_decide (crawl_runs db !! id = None)
     && match run_crawler_id r with Some c => bool_decide (c ∈ crawlers db) | None => true end
     && match run_crawler_version_id r with
        | Some v => bool_decide (v ∈ crawler_versions db) | None => true end
  then Ok (tt, with_runs (<[id := r]> (crawl_runs db)) db)
  else constraint db.

(** [UPDATE crawl_runs SET status = s WHERE id = ? AND status IN (from)]. *)
Definition update_run_status (id : string) (from : list CrawlRunStatus) (s : CrawlRunStatus)
    : Tx DbError nat := fun db =>
  match update_where (fun _ _ => true)
          (fun k r => String.eqb k id && bool_decide (run_status r ∈ from))
          (set_run_status s) (crawl_runs db) with
  | Some (changed, t) => Ok (changed, with_runs t db)
  | None => constraint db
  end.

Definition insert_audit (id : string) (a : AuditRow) : Tx DbError unit := fun db =>
  if bool_decide (audit_events db !! id = None)
  then Ok (tt, with_audit (<[id := a]> (audit_events db)) db)
  else constraint db.

(** [Uuid::now_v7()]. *)
Definition draw_uuid `{U : UuidLib} {E} : Tx E uuid := fun db =>
  Ok (uuid_now_v7 (uuids_drawn db), with_drawn (S (uuids_drawn db)) db).

(** * Lemmas *)

(** ** Transactions *)

Lemma tx_bind_ok {E A B} (t : Tx E A) (k : A -> Tx E B) db b db' :
  tx_bind t k db = Ok (b, db') <-> exists a db1, t db = Ok (a, db1) /\ k a db1 = Ok (b, db').
Proof. unfold tx_bind. destruct (t db) as [[a db1]|e]; naive_solver. Qed.

Lemma tx_map_err_ok {E F A} (f : E -> F) (t : Tx E A) db a db' :
  tx_map_err f t db = Ok (a, db') <-> t db = Ok (a, db').
Proof. unfold tx_map_err. destruct (t db) as [[]|]; naive_solver. Qed.

Lemma tx_get_ok {E} db a db' : tx_get (E := E) db = Ok (a, db') <-> a = db /\ db' = db.
Proof. unfold tx_get. naive_solver. Qed.

Lemma tx_ret_ok {E A} (a : A) db b db' : tx_ret (E := E) a db = Ok (b, db') <-> b = a /\ db' = db.
Proof. unfold tx_ret. naive_solver. Qed.

Lemma tx_of_ok {E A} (r : result E A) db a db' : tx_of r db = Ok (a, db') <-> r = Ok a /\ db' = db.
Proof. unfold tx_of. destruct r; naive_solver. Qed.

Lemma tx_reject_ok {E} bad (e : E) db u db' :
  tx_reject bad e db = Ok (u, db') <-> bad = false /\ db' = db.
Proof. unfold tx_reject. rewrite tx_of_ok, reject_if_ok. done. Qed.

(** A failed transaction leaves the database as it was. *)
Lemma transact_err {E A} (t : Tx E A) db e db' : transact t db = (Err e, db') -> db' = db.
Proof. unfold transact. destruct (t db) as [[]|]; naive_solver. Qed.

Lemma transact_ok {E A} (t : Tx E A) db a db' :
  transact t db = (Ok a, db') <-> t db = Ok (a, db').
Proof. unfold transact. destruct (t db) as [[]|]; naive_solver. Qed.

(** Runs a transaction hypothesis [H : t db = Ok (a, db')] to its steps. *)
Ltac tx_step H :=
  lazymatch type of H with
  | tx_bind _ _ _ = Ok _ =>
    let a := fresh "a" in let d := fresh "d" in let Hs := fresh "Hs" in
    apply tx_bind_ok in H as (a & d & Hs & H); cbv beta in H; tx_step Hs; tx_step H
  | tx_map_err _ _ _ = Ok _ => apply tx_map_err_ok in H; tx_step H
  | tx_get _ = Ok _ => apply tx_get_ok in H as [-> ->]
  | tx_ret _ _ = Ok _ => let E := fresh "Eret" in apply tx_ret_ok in H as [E ->]; try subst
  | tx_of _ _ = Ok _ => let E := fresh "Eof" in apply tx_of_ok in H as [E ->]
  | tx_reject _ _ _ = Ok _ => let E := fresh "Erej" in apply tx_reject_ok in H as [E ->]
  | tx_fail _ _ = Ok _ => discriminate H
  | _ => idtac
  end.

(** What a transaction keeps true. *)
Definition preserves {E A} (I : Db -> Prop) (t : Tx E A) : Prop :=
  forall db a db', I db -> t db = Ok (a, db') -> I db'.

Lemma preserves_bind {E A B} I (t : Tx E A) (k : A -> Tx E B) :
  preserves I t -> (forall a, preserves I (k a)) -> preserves I (tx_bind t k).
Proof. intros Ht Hk db b db' HI (a & db1 & H1 & H2)%tx_bind_ok. eapply Hk, H2. by eapply Ht, H1. Qed.

Lemma preserves_ret {E A} I (a : A) : preserves (E := E) I (tx_ret a).
Proof. intros db b db' HI [-> ->]%tx_ret_ok. done. Qed.

Lemma preserves_get {E} I : preserves (E := E) I tx_get.
Proof. intros db b db' HI [-> ->]%tx_get_ok. done. Qed.

Lemma preserves_of {E A} I (r : result E A) : preserves I (tx_of r).
Proof. intros db b db' HI [-> ->]%tx_of_ok. done. Qed.

Lemma preserves_reject {E} I bad (e : E) : preserves I (tx_reject bad e).
Proof. apply preserves_of. Qed.

Lemma preserves_fail {E A} I (e : E) : preserves (A := A) I (tx_fail e).
Proof. by intros db b db' HI. Qed.

Lemma preserves_map_err {E F A} I (f : E -> F) (t : Tx E A) :
  preserves I t -> preserves I (tx_map_err f t).
Proof. intros Ht db b db' HI H%tx_map_err_ok. by eapply Ht, H. Qed.

Lemma preserves_fold {E A B} I (f : B -> A -> Tx E B) l :
  (forall b a, preserves I (f b a)) -> forall acc, preserves I (tx_fold f l acc).
Proof.
  intros Hf. induction l as [|x l IH]; intros acc; [apply preserves_ret|].
  apply preserves_bind; [done|]. intros b. apply IH.
Qed.

Lemma transact_preserves {E A} I (t : Tx E A) db r db' :
  preserves I t -> I db -> transact t db = (r, db') -> I db'.
Proof. unfold transact. intros Ht HI. destruct (t db) as [[]|] eqn:?; naive_solver. Qed.

#[export] Hint Resolve preserves_bind preserves_ret preserves_get preserves_of preserves_reject
  preserves_fail preserves_map_err preserves_fold : erabi.

(** ** Statements *)

Section keyed_statements_lemmas.
Context {K Row : Type} `{Countable K}.
Implicit Types (t : gmap K Row) (p : K -> Row -> bool).

Lemma exists_where_spec p t :
  exists_where p t = true <-> exists k r, t !! k = Some r /\ p k r = true.
Proof.
  unfold exists_where. rewrite existsb_exists. split.
  - intros ([k r] & Hin & Hp). exists k, r. split; [|done].
    by apply elem_of_map_to_list, list_elem_of_In.
  - intros (k & r & Hin & Hp). exists (k, r). split; [|done].
    by apply list_elem_of_In, elem_of_map_to_list.
Qed.

Lemma exists_where_false p t :
  exists_where p t = false <-> forall k r, t !! k = Some r -> p k r = false.
Proof.
  rewrite <- not_true_iff_false, exists_where_spec. split.
  - intros Hn k r Hin. apply not_true_iff_false. intros Hp. apply Hn. eauto.
  - intros Hn (k & r & Hin & Hp). by rewrite (Hn k r Hin) in Hp.
Qed.

Lemma matching_lookup p t k r :
  matching p t !! k = Some r <-> t !! k = Some r /\ p k r = true.
Proof. unfold matching. rewrite map_lookup_filter_Some. done. Qed.
End keyed_statements_lemmas.

Section statements_lemmas.
Context {Row : Type}.
Implicit Types (t : gmap string Row) (p : string -> Row -> bool).

Lemma elem_of_select_where p t k r :
  (k, r) ∈ select_where p t <-> t !! k = Some r /\ p k r = true.
Proof.
  unfold select_where. rewrite elem_of_sort_by, list_elem_of_filter, elem_of_map_to_list.
  simpl. tauto.
Qed.

(** A clause that selects the row [k] alone. *)
Definition selects (p : string -> Row -> bool) t k r : Prop :=
  t !! k = Some r /\ p k r = true /\ forall k' r', t !! k' = Some r' -> p k' r' = true -> k' = k.

Lemma matching_one p t k r : selects p t k r -> matching p t = {[k := r]}.
Proof.
  intros (Hk & Hp & Hu). apply map_eq. intros i. apply option_eq. intros x.
  rewrite matching_lookup, lookup_singleton_Some. split.
  - intros [Hi Hpi]. pose proof (Hu _ _ Hi Hpi) as ->. split; congruence.
  - intros [-> ->]. done.
Qed.

Lemma update_rows_one p f t k r :
  selects p t k r -> map_imap (fun k r => Some (if p k r then f r else r)) t = <[k := f r]> t.
Proof.
  intros (Hk & Hp & Hu). apply map_eq. intros i. rewrite map_lookup_imap.
  destruct (decide (i = k)) as [->|Hne].
  - by rewrite lookup_insert_eq, Hk; simpl; rewrite Hp.
  - rewrite lookup_insert_ne by done. destruct (t !! i) as [x|] eqn:Hi; simpl; [|done].
    destruct (p i x) eqn:Hpi; [|done]. by apply (Hu _ _ Hi) in Hpi.
Qed.

Lemma update_where_selects ok p f t k r :
  selects p t k r ->
  update_where ok p f t = if ok r (f r) then Some (1%nat, <[k := f r]> t) else None.
Proof.
  intros Hs. unfold update_where.
  rewrite (matching_one _ _ _ _ Hs), (update_rows_one _ _ _ _ _ Hs), map_size_singleton.
  rewrite map_to_list_singleton. simpl. by rewrite andb_true_r.
Qed.

(** An update that reports one row changed that row, and nothing else. *)
Lemma update_where_one ok p f t t' :
  update_where ok p f t = Some (1%nat, t') ->
  exists k r, selects p t k r /\ ok r (f r) = true /\ t' = <[k := f r]> t.
Proof.
  unfold update_where. destruct (forallb _ _) eqn:Hok; [|done]. intros [= Hsize Ht].
  assert (exists k r, matching p t = {[k := r]}) as (k & r & Hm).
  { destruct (map_to_list (matching p t)) as [|[k r] [|y l]] eqn:Hl;
      apply (f_equal length) in Hl as Hlen; rewrite length_map_to_list, Hsize in Hlen; try done.
    exists k, r. apply map_to_list_inj. by rewrite Hl, map_to_list_singleton. }
  assert (Hs : selects p t k r).
  { assert (matching p t !! k = Some r) as [Hk Hp]%matching_lookup
      by (by rewrite Hm, lookup_singleton_eq).
    split; [done|]. split; [done|]. intros k' r' Hk' Hp'.
    assert (matching p t !! k' = Some r') as H' by (by apply matching_lookup).
    rewrite Hm, lookup_singleton_Some in H'. by destruct H'. }
  exists k, r. split; [done|].
  rewrite <- (update_rows_one _ f _ _ _ Hs), Ht. split; [|done].
  rewrite Hm, map_to_list_singleton in Hok. simpl in Hok. by rewrite andb_true_r in Hok.
Qed.

(** Without a row to change, nothing happens. *)
Lemma update_where_none ok p f t :
  (forall k r, t !! k = Some r -> p k r = false) -> update_where ok p f t = Some (0%nat, t).
Proof.
  intros Hn. unfold update_where. assert (matching p t = ∅) as ->.
  { apply map_eq. intros i. rewrite lookup_empty. apply eq_None_not_Some. intros [r Hr].
    apply matching_lookup in Hr as [Hr Hp]. by rewrite (Hn _ _ Hr) in Hp. }
  rewrite map_to_list_empty, map_size_empty. simpl. f_equal. f_equal.
  apply map_eq. intros i. rewrite map_lookup_imap. destruct (t !! i) eqn:Hi; simpl; [|done].
  by rewrite (Hn _ _ Hi).
Qed.

Lemma update_where_zero ok p f t t' :
  update_where ok p f t = Some (0%nat, t') -> t' = t /\ forall k r, t !! k = Some r -> p k r = false.
Proof.
  intros H. assert (Hn : forall k r, t !! k = Some r -> p k r = false).
  { unfold update_where in H. destruct (forallb _ _); [|done]. injection H as Hsize _.
    apply map_size_empty_inv in Hsize. intros k r Hk. destruct (p k r) eqn:Hp; [|done].
    assert (matching p t !! k = Some r) as Hm by (by apply matching_lookup).
    by rewrite Hsize, lookup_empty in Hm. }
  rewrite (update_where_none _ _ _ _ Hn) in H. split; [congruence|done].
Qed.

(** A clause on the primary key. *)
Lemma selects_key q t k r :
  t !! k = Some r -> q r = true -> selects (fun i x => String.eqb i k && q x) t k r.
Proof.
  intros Hk Hq. split; [done|]. split; [by rewrite String.eqb_refl|].
  intros k' r' _ H. by boolify.
Qed.
End statements_lemmas.

Section select_lemmas.
Context {Row : Type}.
Implicit Types (t : gmap string Row) (p : string -> Row -> bool).

Lemma select_where_perm p t :
  select_where p t ≡ₚ filter (fun kv => p kv.1 kv.2 = true) (map_to_list t).
Proof. apply sort_by_perm. Qed.

Lemma select_where_keys p t : NoDup (map fst (select_where p t)).
Proof.
  rewrite (Permutation_map fst (select_where_perm p t)).
  apply (sublist_NoDup _ (map fst (map_to_list t))); [apply NoDup_fst_map_to_list|].
  apply (fmap_sublist fst), sublist_filter.
Qed.

Lemma select_where_NoDup p t : NoDup (select_where p t).
Proof. eapply NoDup_fmap_1, select_where_keys. Qed.

(** The answer to a query depends on the selected rows only. *)
Lemma select_where_ext p p' t t' :
  (forall k r, t !! k = Some r /\ p k r = true <-> t' !! k = Some r /\ p' k r = true) ->
  select_where p t = select_where p' t'.
Proof.
  intros H. apply (sorted_perm_unique_on (cmp_on fst String.compare)).
  - intros [k x] [k' y] Hx%elem_of_select_where Hy%elem_of_select_where Hc.
    unfold cmp_on in Hc. apply cmp_eq in Hc. simpl in Hc. subst k'. f_equal. naive_solver.
  - apply sort_by_Sorted; apply _.
  - apply sort_by_Sorted; apply _.
  - apply NoDup_Permutation; [apply select_where_NoDup..|]. intros [k x].
    rewrite !elem_of_select_where. apply H.
Qed.

Lemma select_where_insert p t k r :
  t !! k = None -> p k r = true -> select_where p (<[k := r]> t) ≡ₚ (k, r) :: select_where p t.
Proof.
  intros Hk Hp. rewrite !select_where_perm, map_to_list_insert by done.
  by rewrite filter_cons_True.
Qed.
End select_lemmas.
