(* ===== verification/TraversalStore.v ===== *)
(** * Statements on the traversal tables

    [migrations/0006_crawl_traversal_state.sql] and [discovered_urls] of
    [0003_runs.sql]: the [CHECK]s, [UNIQUE]s, foreign keys and triggers a statement on
    these tables is subject to. *)

From S2P Require Import Prelude Externals Base TraversalTables Store.

(** ** Statements *)

Definition write_traversal (f : TraversalTables -> TraversalTables) : Tx DbError unit :=
  fun db => Ok (tt, with_traversal (f (traversal db)) db).

(** [if ok] the row is written, and otherwise a constraint rejects it. *)
Definition constrained (ok : Db -> bool) (f : TraversalTables -> TraversalTables) : Tx DbError unit :=
  fun db => if ok db then write_traversal f db else constraint db.

Definition known {A} (t : gmap string A) (o : option string) : bool :=
  match o with Some k => bool_decide (is_Some (t !! k)) | None => true end.

(** [length(text) BETWEEN 1 AND 4096] *)
Definition url_length (s : string) : bool :=
  (1 <=? Z.of_nat (char_count s)) && (Z.of_nat (char_count s) <=? 4096).

Definition all_non_negative (l : list Z) : bool := forallb (Z.leb 0) l.

(** *** [discovered_urls] *)

Definition insert_discovered_url (id : string) (r : DiscoveredUrlRow) : Tx DbError unit :=
  constrained (fun db =>
    bool_decide (discovered_urls (traversal db) !! id = None)
    && bool_decide (is_Some (crawl_runs db !! du_run r))
    && known (sources (catalogue db)) (du_source_id r))
    (fun tr => set_discovered_urls (<[id := r]> (discovered_urls tr)) tr).

Definition discovered_in (run : string) (o : option string) (db : Db) : bool :=
  match o with
  | Some k => match discovered_urls (traversal db) !! k with
              | Some r => String.eqb (du_run r) run | None => false end
  | None => true
  end.

(** *** [crawl_url_state] *)

Definition PRESERVE_REASONS : list string :=
  ["CANONICAL_DUPLICATE"; "AMBIGUOUS_PAGE_TYPE"; "UNMATCHED"; "EXTERNAL"; "BLOCKED";
   "BUDGET_EXCLUDED"; "INVALID"; "ROBOTS_EXCLUDED"; "PROVIDER_ERROR"; "TRANSITION_INELIGIBLE";
   "CANONICAL_REDIRECT"]%string.

Definition is_some {A} (o : option A) : bool := match o with Some _ => true | None => false end.
Definition is_none {A} (o : option A) : bool := negb (is_some o).

(** A comparison with [NULL] is not false, so a [CHECK] admits it. *)
Definition url_state_check (c : UrlStateColumns) : bool :=
  url_length (us_canonical_url c) && url_length (us_requested_url c)
  && match us_preserve_reason c with Some r => bool_decide (r ∈ PRESERVE_REASONS) | None => true end
  && match us_final_canonical_url c with Some u => url_length u | None => true end
  && (0 <=? us_work_generation c)
  && (negb (us_expanded c) || us_sampled c)
  && Bool.eqb (us_in_scope c) (is_some (us_page_type_match_state c))
  && match us_admission_state c with
     | AdmittedWork =>
       is_none (us_preserve_reason c) && is_none (us_resolved_to_url_state_id c)
       && is_some (us_admission_sequence c) && is_some (us_depth c) && is_some (us_current_work_state c)
     | PreserveOnly =>
       is_some (us_preserve_reason c) && is_none (us_resolved_to_url_state_id c)
       && is_none (us_admission_sequence c) && is_none (us_depth c)
       && is_none (us_target_page_type_id c) && is_none (us_transition_id c)
       && is_none (us_current_work_state c) && is_none (us_current_execution_id c)
       && negb (us_sampled c) && negb (us_expanded c)
     | Resolved =>
       match us_preserve_reason c with Some r => String.eqb r "CANONICAL_REDIRECT" | None => true end
       && is_some (us_resolved_to_url_state_id c) && is_none (us_admission_sequence c)
       && is_none (us_depth c) && is_none (us_target_page_type_id c) && is_none (us_transition_id c)
       && is_none (us_current_work_state c) && is_none (us_current_execution_id c)
     end.

(** A reference to a state of the same run; a row may refer to itself. *)
Definition state_in (id run : string) (o : option string) (db : Db) : bool :=
  match o with
  | Some k => String.eqb k id || match crawl_url_state (traversal db) !! k with
                                 | Some c => String.eqb (us_run c) run | None => false end
  | None => true
  end.

Definition execution_in (run : string) (o : option string) (db : Db) : bool :=
  match o with
  | Some k => match execution_results (traversal db) !! k with
              | Some e => String.eqb (ex_run e) run | None => false end
  | None => true
  end.

Definition url_state_foreign_keys (id : string) (c : UrlStateColumns) (db : Db) : bool :=
  bool_decide (is_Some (crawl_runs db !! us_run c))
  && known (page_types (catalogue db)) (us_target_page_type_id c)
  && known (discovery_transitions (catalogue db)) (us_transition_id c)
  && discovered_in (us_run c) (us_first_discovered_url_id c) db
  && discovered_in (us_run c) (us_parent_discovered_url_id c) db
  && state_in id (us_run c) (us_parent_url_state_id c) db
  && state_in id (us_run c) (us_resolved_to_url_state_id c) db
  && execution_in (us_run c) (us_current_execution_id c) db.

(** [UNIQUE (crawl_run_id, canonical_url)] and the unique index on the admission
    sequences that are not [NULL]. *)
Definition url_state_conflict (id : string) (c : UrlStateColumns) (k : string) (d : UrlStateColumns)
    : bool :=
  negb (String.eqb k id) && String.eqb (us_run d) (us_run c)
  && (String.eqb (us_canonical_url d) (us_canonical_url c)
      || is_some (us_admission_sequence c)
         && bool_decide (us_admission_sequence d = us_admission_sequence c)).

Definition url_state_unique (id : string) (c : UrlStateColumns) (db : Db) : bool :=
  negb (exists_where (url_state_conflict id c) (crawl_url_state (traversal db))).

Definition insert_url_state (id : string) (c : UrlStateColumns) : Tx DbError unit :=
  constrained (fun db =>
    bool_decide (crawl_url_state (traversal db) !! id = None) && url_state_check c
    && url_state_foreign_keys id c db && url_state_unique id c db)
    (fun tr => set_crawl_url_state (<[id := c]> (crawl_url_state tr)) tr).

(** The triggers [crawl_url_state_work_generation_monotonic] and
    [crawl_url_state_current_execution_matches_work]. *)
Definition execution_matches (id : string) (c : UrlStateColumns) (db : Db) : bool :=
  match us_current_execution_id c with
  | None => true
  | Some e =>
    match execution_results (traversal db) !! e with
    | Some row => String.eqb (ex_run row) (us_run c) && bool_decide (ex_url_state_id row = Some id)
                  && (ex_work_generation row =? us_work_generation c)
    | None => false
    end
  end.

Definition work_triggers (id : string) (old new : UrlStateColumns) (db : Db) : bool :=
  (us_work_generation old <=? us_work_generation new) && execution_matches id new db.

Definition url_state_update_ok (sets_work : bool) (id : string) (old new : UrlStateColumns) (db : Db)
    : bool :=
  url_state_check new && url_state_foreign_keys id new db && url_state_unique id new db
  && (negb sets_work || work_triggers id old new db).

(** [UPDATE crawl_url_state SET f WHERE p] for a clause that names a key of the table;
    [sets_work] tells whether [work_generation] or [current_execution_id] is set. *)
Definition update_url_states (sets_work : bool) (p : string -> UrlStateColumns -> bool)
    (f : UrlStateColumns -> UrlStateColumns) : Tx DbError nat := fun db =>
  let t := crawl_url_state (traversal db) in
  if forallb (fun kv => url_state_update_ok sets_work kv.1 kv.2 (f kv.2) db) (map_to_list (matching p t))
  then match update_where (fun _ _ => true) p f t with
       | Some (changed, t') => Ok (changed, with_traversal (set_crawl_url_state t' (traversal db)) db)
       | None => constraint db
       end
  else constraint db.

(** *** [crawl_url_seed_provenance] *)

Definition insert_seed_provenance_row (state seed : string) (ordinal : Z) : Tx DbError unit :=
  constrained (fun db =>
    bool_decide (seed_provenance (traversal db) !! (state, seed) = None)
    && bool_decide (is_Some (crawl_url_state (traversal db) !! state))
    && bool_decide (is_Some (seeds (catalogue db) !! seed)) && (0 <=? ordinal)
    && negb (exists_where (fun k o => String.eqb k.1 state && (o =? ordinal))
               (seed_provenance (traversal db))))
    (fun tr => set_seed_provenance (<[(state, seed) := ordinal]> (seed_provenance tr)) tr).

(** *** [crawl_traversal_page_type_counts], [crawl_transition_source_counts] *)

Definition delete_page_type_counts (run : string) : Tx DbError unit :=
  write_traversal (fun tr => set_page_type_counts
    (filter (fun kv => String.eqb kv.1.1 run = false) (page_type_counts tr)) tr).

Definition insert_page_type_count (run page_type : string) (sampled discovered : Z) : Tx DbError unit :=
  constrained (fun db =>
    bool_decide (page_type_counts (traversal db) !! (run, page_type) = None)
    && bool_decide (is_Some (crawl_runs db !! run))
    && bool_decide (is_Some (page_types (catalogue db) !! page_type))
    && all_non_negative [sampled; discovered])
    (fun tr => set_page_type_counts
      (<[(run, page_type) := (sampled, discovered)]> (page_type_counts tr)) tr).

Definition delete_transition_counts (run : string) : Tx DbError unit :=
  write_traversal (fun tr => set_transition_source_counts
    (filter (fun kv => String.eqb kv.1.1.1 run = false) (transition_source_counts tr)) tr).

Definition insert_transition_count (run transition source : string) (count : Z) : Tx DbError unit :=
  constrained (fun db =>
    bool_decide (transition_source_counts (traversal db) !! (run, transition, source) = None)
    && bool_decide (is_Some (crawl_runs db !! run))
    && bool_decide (is_Some (discovery_transitions (catalogue db) !! transition))
    && match crawl_url_state (traversal db) !! source with
       | Some c => String.eqb (us_run c) run | None => false end
    && (0 <=? count))
    (fun tr => set_transition_source_counts
      (<[(run, transition, source) := count]> (transition_source_counts tr)) tr).

(** *** [crawl_traversal_control] *)

Definition control_check (c : ControlColumns) : bool :=
  all_non_negative [ct_consumed_bytes c; ct_raw_link_count c; ct_duplicate_count c;
    ct_robots_excluded_count c; ct_provider_error_count c; ct_external_url_count c;
    ct_blocked_url_count c; ct_peak_expansion_count c; ct_elapsed_millis c;
    ct_pagination_truncation_count c; ct_next_admission_sequence c].

Definition insert_control_row (run : string) (c : ControlColumns) : Tx DbError unit :=
  constrained (fun db =>
    bool_decide (traversal_control (traversal db) !! run = None)
    && bool_decide (is_Some (crawl_runs db !! run)) && control_check c)
    (fun tr => set_traversal_control (<[run := c]> (traversal_control tr)) tr).

(** [UPDATE crawl_traversal_control SET ... WHERE crawl_run_id = run]. *)
Definition update_control_row (run : string) (c : ControlColumns) : Tx DbError nat := fun db =>
  match update_where (fun _ new => control_check new) (fun k _ => String.eqb k run) (fun _ => c)
          (traversal_control (traversal db)) with
  | Some (changed, t) => Ok (changed, with_traversal (set_traversal_control t (traversal db)) db)
  | None => constraint db
  end.

(** *** [crawl_recovery_actions], [crawl_recovery_action_items], which triggers keep
    immutable *)

(** The trigger [crawl_recovery_action_same_run]. *)
Definition recovery_lineage (action : string) (r : RecoveryActionRow) (db : Db) : bool :=
  match jobs db !! action, jobs db !! ra_source_job_id r with
  | Some a, Some s =>
    bool_decide (row_parent_job_id a = Some (ra_source_job_id r))
    && bool_decide (row_crawl_run_id a = Some (ra_run r))
    && bool_decide (row_crawl_run_id s = Some (ra_run r))
  | _, _ => false
  end.

Definition insert_recovery_action (action : string) (r : RecoveryActionRow) : Tx DbError unit :=
  constrained (fun db =>
    bool_decide (recovery_actions (traversal db) !! action = None)
    && bool_decide (is_Some (crawl_runs db !! ra_run r)) && recovery_lineage action r db)
    (fun tr => set_recovery_actions (<[action := r]> (recovery_actions tr)) tr).

Definition insert_recovery_item (action state : string) (r : RecoveryItemRow) : Tx DbError unit :=
  constrained (fun db =>
    bool_decide (recovery_action_items (traversal db) !! (action, state) = None)
    && match recovery_actions (traversal db) !! action with
       | Some a => String.eqb (ra_run a) (ri_run r) | None => false end
    && match crawl_url_state (traversal db) !! state with
       | Some c => String.eqb (us_run c) (ri_run r) | None => false end
    && (0 <=? ri_previous_work_generation r)
    && (ri_prepared_work_generation r =? ri_previous_work_generation r + 1))
    (fun tr => set_recovery_action_items
      (<[(action, state) := r]> (recovery_action_items tr)) tr).

(** * Lemmas *)

Lemma constrained_ok ok f db u db' :
  constrained ok f db = Ok (u, db') <->
  ok db = true /\ db' = with_traversal (f (traversal db)) db.
Proof. unfold constrained, write_traversal, constraint, tx_fail. destruct (ok db), u; naive_solver. Qed.

Lemma write_traversal_ok f db u db' :
  write_traversal f db = Ok (u, db') <-> db' = with_traversal (f (traversal db)) db.
Proof. unfold write_traversal. destruct u. naive_solver. Qed.

Lemma update_url_states_inv sw p f db n db' :
  update_url_states sw p f db = Ok (n, db') ->
  (forall k c, crawl_url_state (traversal db) !! k = Some c -> p k c = true ->
     url_state_update_ok sw k c (f c) db = true) /\
  n = size (matching p (crawl_url_state (traversal db))) /\
  db' = with_traversal (set_crawl_url_state
    (map_imap (fun k c => Some (if p k c then f c else c)) (crawl_url_state (traversal db)))
    (traversal db)) db.
Proof.
  unfold update_url_states. destruct (forallb _ _) eqn:Hok; [|done].
  unfold update_where. replace (forallb _ _) with true by (symmetry; by apply forallb_forall).
  intros [= <- <-]. split; [|done]. intros k c Hk Hp. rewrite forallb_forall in Hok.
  apply (Hok (k, c)), list_elem_of_In, elem_of_map_to_list, matching_lookup. done.
Qed.

(** An update that changed one row. *)
Lemma update_url_states_one sw p f db db' :
  update_url_states sw p f db = Ok (1%nat, db') ->
  exists k c, selects p (crawl_url_state (traversal db)) k c /\
    url_state_update_ok sw k c (f c) db = true /\
    db' = with_traversal (set_crawl_url_state (<[k := f c]> (crawl_url_state (traversal db)))
            (traversal db)) db.
Proof.
  unfold update_url_states. destruct (forallb _ _) eqn:Hok; [|done].
  destruct (update_where _ _ _ _) as [[n t]|] eqn:Hu; [|done]. intros [= -> <-].
  apply update_where_one in Hu as (k & c & Hs & _ & ->). exists k, c. split; [done|]. split; [|done].
  destruct Hs as (Hk & Hp & _). rewrite forallb_forall in Hok.
  apply (Hok (k, c)), list_elem_of_In, elem_of_map_to_list, matching_lookup. done.
Qed.

Lemma update_url_states_selects sw p f db k c :
  selects p (crawl_url_state (traversal db)) k c -> url_state_update_ok sw k c (f c) db = true ->
  update_url_states sw p f db =
    Ok (1%nat, with_traversal (set_crawl_url_state (<[k := f c]> (crawl_url_state (traversal db)))
                 (traversal db)) db).
Proof.
  intros Hs Hok. unfold update_url_states.
  rewrite (matching_one _ _ _ _ Hs), map_to_list_singleton. simpl. rewrite Hok. simpl.
  by rewrite (update_where_selects _ _ _ _ _ _ Hs).
Qed.

Lemma known_some {A} (t : gmap string A) k : known t (Some k) = true <-> is_Some (t !! k).
Proof. apply bool_decide_eq_true. Qed.

Lemma is_some_true {A} (o : option A) : is_some o = true <-> is_Some o.
Proof. destruct o; naive_solver. Qed.

Lemma is_none_true {A} (o : option A) : is_none o = true <-> o = None.
Proof. destruct o; naive_solver. Qed.
