(* ===== verification/Progress.v ===== *)
(** * Progress streams

    [crates/erabi-db/src/repositories/progress.rs]: the append-only, per-job stream
    of user-facing progress events, its bounded metadata, the allocation of sequence
    numbers inside a transaction, the single terminal event, and bounded replay.

    A [BTreeMap] is a [gmap]; it is written in the order of its keys.  Newtypes with
    a private field ([ProgressKey], [ProgressMetadataKey], ...) are their contents,
    and their constructors the functions that accept them. *)

From stdpp Require Import pretty.
From S2P Require Import Prelude Externals JsonFacts Base Instances Store.

Definition MAX_PROGRESS_KEY_BYTES : Z := 64.
Definition MAX_METADATA_ENTRIES : Z := 16.
Definition MAX_METADATA_KEY_BYTES : Z := 32.
Definition MAX_METADATA_CODE_BYTES : Z := 64.
Definition MAX_REPLAY_LIMIT : Z := 256.

Inductive ProgressRepositoryError :=
| ProgDatabase (e : DbError)
| InvalidProgressKey | InvalidProgressMetadata | InvalidAttemptId | InvalidProgressSequence
| InvalidReplayRequest | JobNotFound | AttemptNotFound | AttemptJobMismatch
| TerminalStreamClosed | ProgressInvariant.

(** [is_ascii_uppercase() || is_ascii_digit() || b'_'] *)
Definition upper_identifier_byte (b : Z) : bool := is_ascii_upper b || is_ascii_digit b || (b =? 95).

Definition progress_sequence_new (value : Z) : result ProgressRepositoryError Z :=
  if value =? 0 then Err InvalidProgressSequence else Ok value.

Definition progress_key_new (value : string) : result ProgressRepositoryError string :=
  if str_is_empty value || (MAX_PROGRESS_KEY_BYTES <? byte_len value)
     || negb (forallb upper_identifier_byte (bytes value))
  then Err InvalidProgressKey else Ok value.

Inductive ProgressTerminalState := TerminalSucceeded | TerminalFailed | TerminalCancelled.

#[export] Instance terminal_eq_dec : EqDecision ProgressTerminalState.
Proof. solve_decision. Defined.

Definition terminal_as_storage (t : ProgressTerminalState) : string :=
  match t with
  | TerminalSucceeded => "SUCCEEDED" | TerminalFailed => "FAILED" | TerminalCancelled => "CANCELLED"
  end.

Definition terminal_parse (value : string) : result ProgressRepositoryError ProgressTerminalState :=
  if String.eqb value "SUCCEEDED" then Ok TerminalSucceeded
  else if String.eqb value "FAILED" then Ok TerminalFailed
  else if String.eqb value "CANCELLED" then Ok TerminalCancelled
  else Err ProgressInvariant.

(** [value.contains(pattern)] *)
Definition contains_str (pattern value : string) : bool :=
  bool_decide (is_Some (split_once pattern value)).

Definition has_sensitive_name (value : string) : bool :=
  existsb (fun sensitive => contains_str sensitive value)
    ["token"; "secret"; "password"; "credential"; "authorization"; "cookie"; "connection";
     "request"; "response"; "body"; "record"]%string.

Definition metadata_key_byte (b : Z) : bool := is_ascii_lower b || is_ascii_digit b || (b =? 95).

Definition metadata_key_new (value : string) : result ProgressRepositoryError string :=
  let valid_shape := negb (str_is_empty value) && (byte_len value <=? MAX_METADATA_KEY_BYTES)
    && match bytes value with
       | first :: rest => is_ascii_lower first && forallb metadata_key_byte rest
       | [] => true
       end in
  if negb valid_shape || has_sensitive_name value then Err InvalidProgressMetadata else Ok value.

Definition metadata_code_new (value : string) : result ProgressRepositoryError string :=
  if str_is_empty value || (MAX_METADATA_CODE_BYTES <? byte_len value)
     || negb (forallb upper_identifier_byte (bytes value))
     || has_sensitive_name (to_ascii_lowercase value)
  then Err InvalidProgressMetadata else Ok value.

Inductive ProgressMetadataValue :=
| MetaCode (code : string)
| MetaCount (n : Z)
| MetaFlag (b : bool).

Abbreviation ProgressMetadata := (gmap string ProgressMetadataValue).

Definition metadata_new (entries : ProgressMetadata) : result ProgressRepositoryError ProgressMetadata :=
  if MAX_METADATA_ENTRIES <? Z.of_nat (size entries) then Err InvalidProgressMetadata else Ok entries.

Record NewProgressEvent := {
  new_job_id : string;
  new_attempt_id : option string;
  new_key : string;
  new_metadata : ProgressMetadata;
  new_terminal : option ProgressTerminalState
}.

Definition progress_event_new (job_id key : string) (metadata : ProgressMetadata) : NewProgressEvent :=
  {| new_job_id := job_id; new_attempt_id := None; new_key := key; new_metadata := metadata;
     new_terminal := None |}.

Definition progress_event_terminal (job_id : string) (terminal : ProgressTerminalState)
    (metadata : ProgressMetadata) : result ProgressRepositoryError NewProgressEvent :=
  let? key := progress_key_new "COMPLETED" in
  Ok {| new_job_id := job_id; new_attempt_id := None; new_key := key; new_metadata := metadata;
        new_terminal := Some terminal |}.

Definition with_attempt (attempt_id : string) (e : NewProgressEvent) : NewProgressEvent :=
  {| new_job_id := new_job_id e; new_attempt_id := Some attempt_id; new_key := new_key e;
     new_metadata := new_metadata e; new_terminal := new_terminal e |}.

Record ProgressEvent := {
  event_id : string;
  event_job_id : string;
  event_attempt_id : option string;
  event_sequence : Z;
  event_key : string;
  event_metadata : ProgressMetadata;
  event_terminal : option ProgressTerminalState;
  event_created_at : Z
}.

(** ** The stored payload *)

Record StoredProgressPayload := {
  stored_metadata : gmap string ProgressMetadataValue;
  stored_terminal : option string
}.

Definition stored_value_json (v : ProgressMetadataValue) : Json :=
  match v with
  | MetaCode code => JObject [("kind"%string, JString "CODE"); ("value"%string, JString code)]
  | MetaCount n => JObject [("kind"%string, JString "COUNT"); ("value"%string, JNumber (pretty n))]
  | MetaFlag b => JObject [("kind"%string, JString "FLAG"); ("value"%string, JBool b)]
  end.

Definition key_order {A} : string * A -> string * A -> comparison := cmp_on fst String.compare.

Definition stored_payload_json (p : StoredProgressPayload) : Json :=
  JObject [("metadata"%string, JObject (map (fun e => (e.1, stored_value_json e.2))
      (sort_by key_order (map_to_list (stored_metadata p)))));
    ("terminal"%string, match stored_terminal p with Some t => JString t | None => JNull end)].

Definition stored_value_of_json (v : Json) : option ProgressMetadataValue :=
  kind ← json_get "kind" v ≫= json_as_str;
  value ← json_get "value" v;
  if String.eqb kind "CODE" then MetaCode <$> json_as_str value
  else if String.eqb kind "COUNT" then
    match value with JNumber t => MetaCount <$> parse_unsigned u32_max t | _ => None end
  else if String.eqb kind "FLAG" then match value with JBool b => Some (MetaFlag b) | _ => None end
  else None.

Definition stored_payload_of_json (v : Json) : option StoredProgressPayload :=
  match json_get "metadata" v with
  | Some (JObject entries) =>
    values ← mapM (fun e => value ← stored_value_of_json e.2; Some (e.1, value)) entries;
    terminal ← match json_get "terminal" v with
      | None | Some JNull => Some None
      | Some (JString t) => Some (Some t)
      | Some _ => None
      end;
    Some {| stored_metadata := list_to_map values; stored_terminal := terminal |}
  | _ => None
  end.

Definition payload_from_event (e : NewProgressEvent) : StoredProgressPayload :=
  {| stored_metadata := new_metadata e; stored_terminal := terminal_as_storage <$> new_terminal e |}.

Definition check_metadata_entry (e : string * ProgressMetadataValue) : result ProgressRepositoryError unit :=
  let? _ := map_err (fun _ => ProgressInvariant) (metadata_key_new e.1) in
  match e.2 with
  | MetaCode code => let? _ := map_err (fun _ => ProgressInvariant) (metadata_code_new code) in Ok tt
  | MetaCount _ | MetaFlag _ => Ok tt
  end.

Definition payload_into_metadata (p : StoredProgressPayload)
    : result ProgressRepositoryError (ProgressMetadata * option ProgressTerminalState) :=
  let? _ := for_each check_metadata_entry (map_to_list (stored_metadata p)) in
  let? metadata := map_err (fun _ => ProgressInvariant) (metadata_new (stored_metadata p)) in
  match stored_terminal p with
  | None => Ok (metadata, None)
  | Some t => let? terminal := terminal_parse t in Ok (metadata, Some terminal)
  end.

Section progress.
Context `{U : UuidLib} `{SD : SerdeLib}.

Definition progress_attempt_id_new (value : string) : result ProgressRepositoryError string :=
  match uuid_parse_str value with
  | Some parsed => if uuid_version parsed =? 7 then Ok value else Err InvalidAttemptId
  | None => Err InvalidAttemptId
  end.

Definition decode_payload (payload_json : string)
    : result ProgressRepositoryError (ProgressMetadata * option ProgressTerminalState) :=
  let? payload := ok_or ProgressInvariant (json_from_str payload_json ≫= stored_payload_of_json) in
  payload_into_metadata payload.

(** ** Appending *)

(** The events of a job, [ORDER BY sequence ASC]. *)
Definition stream_rows (job_id : string) (db : Db) : list (string * ProgressRow) :=
  sort_by (cmp_on (fun e => prog_sequence e.2) Z.compare)
    (select_where (fun _ e => String.eqb (prog_job_id e) job_id) (job_progress_events db)).

Definition ensure_job_exists (job_id : string) : Tx ProgressRepositoryError unit :=
  let! db := tx_get in tx_reject (negb (bool_decide (is_Some (jobs db !! job_id)))) JobNotFound.

Definition ensure_attempt_belongs_to_job (e : NewProgressEvent) : Tx ProgressRepositoryError unit :=
  match new_attempt_id e with
  | None => tx_ret tt
  | Some attempt_id =>
    let! db := tx_get in
    match job_attempts db !! attempt_id with
    | None => tx_fail AttemptNotFound
    | Some a => tx_reject (negb (String.eqb (att_job_id a) (new_job_id e))) AttemptJobMismatch
    end
  end.

Definition ensure_stream_open (job_id : string) : Tx ProgressRepositoryError unit :=
  let! db := tx_get in
  match last (stream_rows job_id db) with
  | None => tx_ret tt
  | Some (_, row) =>
    let! decoded := tx_of (decode_payload (prog_payload_json row)) in
    tx_reject (bool_decide (is_Some (snd decoded))) TerminalStreamClosed
  end.

(** [COALESCE(MAX(sequence), 0)] *)
Definition max_sequence (rows : list (string * ProgressRow)) : Z :=
  match rows with
  | [] => 0
  | e :: rest => foldl (fun m x => Z.max m (prog_sequence x.2)) (prog_sequence e.2) rest
  end.

Definition allocate_sequence (job_id : string) : Tx ProgressRepositoryError Z :=
  let! db := tx_get in
  let previous := max_sequence (stream_rows job_id db) in
  let! next := tx_of (ok_or ProgressInvariant (i64_checked_add previous 1)) in
  let! _ := tx_reject (next <? 0) ProgressInvariant in
  tx_of (map_err (fun _ => ProgressInvariant) (progress_sequence_new next)).

Definition append_progress_in_transaction (event : NewProgressEvent) (created_at : Z)
    : Tx ProgressRepositoryError ProgressEvent :=
  let! _ := ensure_job_exists (new_job_id event) in
  let! _ := ensure_attempt_belongs_to_job event in
  let! _ := ensure_stream_open (new_job_id event) in
  let! sequence := allocate_sequence (new_job_id event) in
  let payload_json := json_to_string (stored_payload_json (payload_from_event event)) in
  let! drawn := draw_uuid in
  let id := uuid_to_string drawn in
  let! _ := tx_reject (i64_max <? sequence) ProgressInvariant in
  let! _ := tx_map_err ProgDatabase (insert_progress id
    {| prog_job_id := new_job_id event; prog_attempt_id := new_attempt_id event;
       prog_sequence := sequence; prog_event_type := new_key event;
       prog_payload_json := payload_json; prog_created_at := created_at |}) in
  tx_ret {| event_id := id; event_job_id := new_job_id event;
    event_attempt_id := new_attempt_id event; event_sequence := sequence;
    event_key := new_key event; event_metadata := new_metadata event;
    event_terminal := new_terminal event; event_created_at := created_at |}.

Definition append_at (event : NewProgressEvent) (created_at : Z) (db : Db)
    : result ProgressRepositoryError ProgressEvent * Db :=
  transact (append_progress_in_transaction event created_at) db.

(** ** Replay *)

Record ProgressReplayRequest := { replay_after : option Z; replay_limit : Z }.

Definition replay_request_new (after : option Z) (limit : Z)
    : result ProgressRepositoryError ProgressReplayRequest :=
  if (limit =? 0) || (MAX_REPLAY_LIMIT <? limit) then Err InvalidReplayRequest
  else Ok {| replay_after := after; replay_limit := limit |}.

Record ProgressReplayPage := { page_events : list ProgressEvent; next_after : option Z }.

Definition progress_event_from_row (id : string) (row : ProgressRow)
    : result ProgressRepositoryError ProgressEvent :=
  let? _ := ok_or ProgressInvariant (uuid_parse_str id) in
  let? attempt_id :=
    match prog_attempt_id row with
    | None => Ok None
    | Some a => let? a := map_err (fun _ => ProgressInvariant) (progress_attempt_id_new a) in Ok (Some a)
    end in
  let? _ := reject_if (prog_sequence row <? 0) ProgressInvariant in
  let? sequence := map_err (fun _ => ProgressInvariant) (progress_sequence_new (prog_sequence row)) in
  let? key := map_err (fun _ => ProgressInvariant) (progress_key_new (prog_event_type row)) in
  let? decoded := decode_payload (prog_payload_json row) in
  Ok {| event_id := id; event_job_id := prog_job_id row; event_attempt_id := attempt_id;
        event_sequence := sequence; event_key := key; event_metadata := decoded.1;
        event_terminal := decoded.2; event_created_at := prog_created_at row |}.

Definition replay (job_id : string) (request : ProgressReplayRequest) (db : Db)
    : result ProgressRepositoryError ProgressReplayPage :=
  let? _ := reject_if (negb (bool_decide (is_Some (jobs db !! job_id)))) JobNotFound in
  let? after :=
    match replay_after request with
    | None => Ok 0
    | Some v => let? _ := reject_if (i64_max <? v) InvalidReplayRequest in Ok v
    end in
  let rows := take (Z.to_nat (saturating_add u64_max (replay_limit request) 1))
    (filter (fun e => after < prog_sequence e.2) (stream_rows job_id db)) in
  let? events := collect (fun e => progress_event_from_row e.1 e.2)
    (take (Z.to_nat (replay_limit request)) rows) in
  let has_more := bool_decide (length events < length rows)%nat in
  Ok {| page_events := events;
        next_after := if has_more then event_sequence <$> last events else None |}.
End progress.

(** ** Specification *)

Definition metadata_ok (m : ProgressMetadata) : Prop :=
  (Z.of_nat (size m) <= MAX_METADATA_ENTRIES) /\
  forall k v, m !! k = Some v -> metadata_key_new k = Ok k /\
    match v with
    | MetaCode code => metadata_code_new code = Ok code
    | MetaCount n => 0 <= n <= u32_max
    | MetaFlag _ => True
    end.

(** What the constructors of [NewProgressEvent] and of its parts guarantee. *)
Record event_ok `{U : UuidLib} (e : NewProgressEvent) : Prop := {
  eo_key : progress_key_new (new_key e) = Ok (new_key e);
  eo_metadata : metadata_ok (new_metadata e);
  eo_attempt : forall a, new_attempt_id e = Some a -> progress_attempt_id_new a = Ok a
}.

(** The stream of a job: numbered 1, 2, 3, ... without a gap, every row readable,
    and nothing after a terminal event. *)
Record stream_ok `{U : UuidLib} `{SD : SerdeLib} (job_id : string) (db : Db) : Prop := {
  so_sequences : map (fun e => prog_sequence e.2) (stream_rows job_id db)
    = seqZ 1 (Z.of_nat (length (stream_rows job_id db)));
  so_bound : Z.of_nat (length (stream_rows job_id db)) <= i64_max;
  so_rows : forall i id row, stream_rows job_id db !! i = Some (id, row) ->
    exists e, progress_event_from_row id row = Ok e /\
      (is_Some (event_terminal e) -> S i = length (stream_rows job_id db))
}.

Definition streams_ok `{U : UuidLib} `{SD : SerdeLib} (db : Db) : Prop :=
  forall job_id, stream_ok job_id db.

(** * Lemmas *)

(** ** Payloads *)

Lemma terminal_round_trip t : terminal_parse (terminal_as_storage t) = Ok t.
Proof. by destruct t. Qed.

Lemma stored_value_wf v : json_wf (stored_value_json v) = true.
Proof. destruct v; json_object; try done. apply pretty_Z_text. Qed.

Lemma stored_value_round_trip v v' :
  match v with MetaCount n => 0 <= n <= u32_max | _ => True end ->
  json_equiv (stored_value_json v) v' -> stored_value_of_json v' = Some v.
Proof.
  intros Hv H. unfold stored_value_of_json.
  pose proof (json_get_equiv "kind" _ _ H) as Hk. pose proof (json_get_equiv "value" _ _ H) as Hx.
  destruct v as [code|n|b]; simpl in Hk, Hx;
    destruct (json_get "kind" v'), (json_get "value" v'); try done;
    apply json_equiv_string in Hk as ->.
  - by apply json_equiv_string in Hx as ->.
  - apply json_equiv_number in Hx as ->. simpl. by rewrite parse_unsigned_pretty.
  - by apply json_equiv_bool in Hx as ->.
Qed.

(** Reading a map back from entries in any order. *)
Lemma mapM_entries {A B} (f : A -> option B) (l : list (string * A)) (k : list (string * B)) :
  Forall2 (fun x y => x.1 = y.1 /\ f x.2 = Some y.2) l k ->
  mapM (fun e => value ← f e.2; Some (e.1, value)) l = Some k.
Proof.
  intros H. apply mapM_Some_2. eapply Forall2_impl; [exact H|].
  intros [x a] [y b] [Hx Ha]; simpl in *. subst. by rewrite Ha.
Qed.

Lemma stored_payload_wf p : json_wf (stored_payload_json p) = true.
Proof.
  json_object; [|by destruct (stored_terminal p)].
  apply object_json_wf.
  - apply bool_decide_eq_true_2. rewrite List.map_map. simpl.
    change (fun x : string * ProgressMetadataValue => x.1)
      with (@fst string ProgressMetadataValue).
    rewrite (Permutation_map fst (sort_by_perm key_order _)). apply NoDup_fst_map_to_list.
  - apply Forall_forall. intros e He. apply elem_of_map in He as (x & -> & _). apply stored_value_wf.
Qed.

Lemma stored_payload_round_trip p v' :
  (forall k v, stored_metadata p !! k = Some v ->
    match v with MetaCount n => 0 <= n <= u32_max | _ => True end) ->
  json_equiv (stored_payload_json p) v' -> stored_payload_of_json v' = Some p.
Proof.
  intros Hp H. unfold stored_payload_of_json.
  pose proof (json_get_equiv "metadata" _ _ H) as Hm. pose proof (json_get_equiv "terminal" _ _ H) as Ht.
  simpl in Hm, Ht. destruct (json_get "metadata" v') as [m|]; [|done].
  apply json_equiv_object in Hm as (entries & -> & _ & _ & l1 & Hf & Hperm).
  set (l := sort_by key_order (map_to_list (stored_metadata p))) in *.
  assert (exists k, Forall2 (fun x y => x.1 = y.1 /\ stored_value_of_json x.2 = Some y.2) entries k
      /\ k ≡ₚ l) as (k & Hk & Hkl).
  { assert (H1 : Forall2 (fun x y => x.1 = y.1 /\ stored_value_of_json x.2 = Some y.2) l1 l).
    { apply Forall2_flip. apply Forall2_fmap_l in Hf. clear -Hf Hp.
      assert (Hin : Forall (fun e => stored_metadata p !! e.1 = Some e.2) l).
      { apply Forall_forall. intros [k v] He. unfold l in He.
        rewrite elem_of_sort_by in He. by apply elem_of_map_to_list in He. }
      clearbody l. induction Hf as [|x y l l1 [Hx Hy] _ IH]; [constructor|].
      apply Forall_cons in Hin as [Hx' Hin]. constructor; [|by apply IH].
      simpl in *. split; [done|]. eapply stored_value_round_trip; [|done]. by eapply Hp. }
    destruct (Permutation_Forall2 Hperm H1) as (k & Hkl & Hk). by exists k. }
  rewrite (mapM_entries _ _ _ Hk). simpl.
  assert (list_to_map k = stored_metadata p) as ->.
  { rewrite (list_to_map_proper k (map_to_list (stored_metadata p))).
    - apply list_to_map_to_list.
    - rewrite (Permutation_map fst Hkl). unfold l. rewrite (Permutation_map fst (sort_by_perm _ _)).
      apply NoDup_fst_map_to_list.
    - rewrite Hkl. apply sort_by_perm. }
  destruct p as [pm [t|]]; simpl in *; destruct (json_get "terminal" v') as [x|]; try done.
  - by apply json_equiv_string in Ht as ->.
  - by apply json_equiv_null in Ht as ->.
Qed.

(** ** Streams *)

Lemma elem_of_stream job_id db id row :
  (id, row) ∈ stream_rows job_id db <->
  job_progress_events db !! id = Some row /\ prog_job_id row = job_id.
Proof.
  unfold stream_rows. rewrite elem_of_sort_by, elem_of_select_where. by rewrite String.eqb_eq.
Qed.

Lemma stream_sorted job_id db :
  StronglySorted (cmp_le (cmp_on (fun e => prog_sequence e.2) Z.compare)) (stream_rows job_id db).
Proof. apply sort_by_Sorted. apply _. Qed.

Lemma stream_other job_id db db' :
  (forall id row, prog_job_id row = job_id ->
    job_progress_events db !! id = Some row <-> job_progress_events db' !! id = Some row) ->
  stream_rows job_id db = stream_rows job_id db'.
Proof.
  intros H. unfold stream_rows. f_equal. apply select_where_ext. intros k r.
  rewrite String.eqb_eq. specialize (H k r). naive_solver.
Qed.

Lemma sorted_snoc {A} (c : A -> A -> comparison) l x :
  StronglySorted (cmp_le c) l -> Forall (fun y => cmp_le c y x) l ->
  StronglySorted (cmp_le c) (l ++ [x]).
Proof.
  intros Hl Hx. induction Hl as [|y l Hl IH Hy]; simpl; [by repeat constructor|].
  apply Forall_cons in Hx as [Hyx Hx]. constructor; [by apply IH|].
  apply Forall_app. split; [done|]. by constructor.
Qed.

(** A row with a later number goes to the end. *)
Lemma stream_snoc job_id db id row :
  NoDup (map (fun e => prog_sequence e.2) (stream_rows job_id db)) ->
  job_progress_events db !! id = None -> prog_job_id row = job_id ->
  Forall (fun e => prog_sequence e.2 < prog_sequence row) (stream_rows job_id db) ->
  stream_rows job_id (with_progress (<[id := row]> (job_progress_events db)) db)
  = stream_rows job_id db ++ [(id, row)].
Proof.
  intros Hnd Hid Hjob Hlt.
  assert (Hperm : stream_rows job_id (with_progress (<[id := row]> (job_progress_events db)) db)
      ≡ₚ stream_rows job_id db ++ [(id, row)]).
  { unfold stream_rows at 1. rewrite sort_by_perm. simpl.
    rewrite select_where_insert by (done || by apply String.eqb_eq).
    rewrite <- Permutation_cons_append. apply Permutation_skip. unfold stream_rows.
    by rewrite sort_by_perm. }
  apply (sorted_perm_unique_on (cmp_on (fun e => prog_sequence e.2) Z.compare)).
  - intros x y Hx Hy Hc. unfold cmp_on in Hc. apply cmp_eq in Hc. rewrite Hperm in Hx, Hy.
    apply elem_of_app in Hx as [Hx|Hx%list_elem_of_singleton],
      Hy as [Hy|Hy%list_elem_of_singleton]; subst; [| | |done].
    + by eapply NoDup_map_inj.
    + rewrite Forall_forall in Hlt. apply Hlt in Hx. simpl in *. lia.
    + rewrite Forall_forall in Hlt. apply Hlt in Hy. simpl in *. lia.
  - apply stream_sorted.
  - apply sorted_snoc; [apply stream_sorted|]. eapply Forall_impl; [exact Hlt|].
    intros x Hx. simpl in Hx. unfold cmp_le, cmp_on. simpl.
    apply Z.lt_le_incl in Hx. done.
  - done.
Qed.

(** The greatest number of a gap-free stream is its length. *)
Lemma max_sequence_length rows :
  map (fun e => prog_sequence e.2) rows = seqZ 1 (Z.of_nat (length rows)) ->
  max_sequence rows = Z.of_nat (length rows).
Proof.
  intros H. destruct rows as [|e rows]; [done|].
  cbn [max_sequence]. rewrite (foldl_map_max (fun e : string * ProgressRow => prog_sequence e.2)).
  cbn [map] in H. set (l := map _ rows) in *.
  assert (Hall : forall x, x ∈ prog_sequence e.2 :: l <-> 1 <= x < 1 + Z.of_nat (length (e :: rows)))
    by (intros x; rewrite H; apply elem_of_seqZ).
  destruct (foldl_max_ge l (prog_sequence e.2)) as [Hge Hall'].
  assert (Hin : foldl (fun m x => Z.max m x) (prog_sequence e.2) l ∈ prog_sequence e.2 :: l).
  { destruct (foldl_max_in l (prog_sequence e.2)) as [-> |]; [left|by right]. }
  apply Hall in Hin.
  assert (Hlast : Z.of_nat (length (e :: rows)) ∈ prog_sequence e.2 :: l).
  { apply Hall. simpl. lia. }
  apply elem_of_cons in Hlast as [Heq|Hlast]; [cbn [length] in *; lia|].
  rewrite Forall_forall in Hall'. apply Hall' in Hlast. lia.
Qed.

Section progress_lemmas.
Context `{U : UuidLib} `{SD : SerdeLib} {UL : UuidLaws U} {SL : SerdeLaws SD}.

Lemma decode_payload_round_trip e :
  metadata_ok (new_metadata e) ->
  decode_payload (json_to_string (stored_payload_json (payload_from_event e)))
  = Ok (new_metadata e, new_terminal e).
Proof.
  intros [Hsize Hm]. unfold decode_payload.
  destruct (json_round_trip (stored_payload_json (payload_from_event e))) as (v' & -> & Hv');
    [apply stored_payload_wf|].
  simpl. rewrite (stored_payload_round_trip (payload_from_event e)); [|simpl|done].
  2:{ intros k v Hk. apply Hm in Hk as [_ Hk]. by destruct v. }
  simpl. unfold payload_into_metadata. simpl.
  assert (for_each check_metadata_entry (map_to_list (new_metadata e)) = Ok tt) as ->.
  { apply for_each_ok. apply Forall_forall. intros [k v] Hk%elem_of_map_to_list.
    apply Hm in Hk as [Hk Hv]. unfold check_metadata_entry. simpl. rewrite Hk. simpl.
    destruct v; simpl; [by rewrite Hv|done..]. }
  unfold metadata_new. assert ((MAX_METADATA_ENTRIES <? Z.of_nat (size (new_metadata e))) = false) as ->
    by (by apply Z.ltb_ge). simpl.
  destruct (new_terminal e) as [t|]; simpl; [by rewrite terminal_round_trip|done].
Qed.
End progress_lemmas.

Section stream_lemmas.
Context `{U : UuidLib} `{SD : SerdeLib} {UL : UuidLaws U} {SL : SerdeLaws SD}.

Definition event_row (payload_json : string) (e : ProgressEvent) : ProgressRow :=
  {| prog_job_id := event_job_id e; prog_attempt_id := event_attempt_id e;
     prog_sequence := event_sequence e; prog_event_type := event_key e;
     prog_payload_json := payload_json; prog_created_at := event_created_at e |}.

Definition event_payload (event : NewProgressEvent) : string :=
  json_to_string (stored_payload_json (payload_from_event event)).

Definition allocated_event (event : NewProgressEvent) (created_at : Z) (db : Db) : ProgressEvent :=
  {| event_id := uuid_to_string (uuid_now_v7 (uuids_drawn db));
     event_job_id := new_job_id event; event_attempt_id := new_attempt_id event;
     event_sequence := max_sequence (stream_rows (new_job_id event) db) + 1;
     event_key := new_key event; event_metadata := new_metadata event;
     event_terminal := new_terminal event; event_created_at := created_at |}.

(** The stream accepts another event. *)
Definition stream_open (job_id : string) (db : Db) : Prop :=
  forall r, last (stream_rows job_id db) = Some r ->
    exists m, decode_payload (prog_payload_json r.2) = Ok (m, None).

Definition attempt_belongs (event : NewProgressEvent) (db : Db) : Prop :=
  forall a, new_attempt_id event = Some a ->
    exists row, job_attempts db !! a = Some row /\ att_job_id row = new_job_id event.

Lemma ensure_attempt_inv event db u db' :
  ensure_attempt_belongs_to_job event db = Ok (u, db') -> attempt_belongs event db /\ db' = db.
Proof.
  intros H. unfold ensure_attempt_belongs_to_job in H. unfold attempt_belongs.
  destruct (new_attempt_id event) as [a0|]; tx_step H; [|done].
  destruct (job_attempts db !! a0) as [row|] eqn:Hrow; tx_step H. boolify.
  split; [|done]. intros a [= <-]. by exists row.
Qed.

Lemma ensure_open_inv job_id db u db' :
  ensure_stream_open job_id db = Ok (u, db') -> stream_open job_id db /\ db' = db.
Proof.
  intros H. unfold ensure_stream_open in H. unfold stream_open. tx_step H.
  destruct (last _) as [[id row]|]; tx_step H; [|done]. boolify.
  split; [|done]. intros r [= <-]. destruct a as [m [t|]]; simpl in *; [|by exists m].
  by destruct Erej; exists t.
Qed.

Lemma insert_progress_inv id e db u db' :
  insert_progress id e db = Ok (u, db') ->
  job_progress_events db !! id = None /\ is_Some (jobs db !! prog_job_id e) /\ 1 <= prog_sequence e /\
  db' = with_progress (<[id := e]> (job_progress_events db)) db.
Proof.
  unfold insert_progress. destruct (_ && _) eqn:Hc; [|done]. intros [= <- <-]. by boolify.
Qed.

Lemma append_inv event created_at db e db' :
  append_progress_in_transaction event created_at db = Ok (e, db') ->
  is_Some (jobs db !! new_job_id event) /\ attempt_belongs event db /\
  stream_open (new_job_id event) db /\
  e = allocated_event event created_at db /\ 1 <= event_sequence e <= i64_max /\
  job_progress_events db !! event_id e = None /\
  db' = with_progress (<[event_id e := event_row (event_payload event) e]> (job_progress_events db))
          (with_drawn (S (uuids_drawn db)) db).
Proof.
  intros H. unfold append_progress_in_transaction, ensure_job_exists, allocate_sequence in H.
  tx_step H. boolify.
  apply ensure_attempt_inv in Hs as [Hattempt ->]. apply ensure_open_inv in Hs0 as [Hopen ->].
  unfold draw_uuid in Hs1. injection Hs1 as <- <-.
  apply insert_progress_inv in Hs2 as (Hid & Hjob & Hseq & ->). simpl in *.
  unfold i64_checked_add in Eof. destruct (_ && _) eqn:Hb in Eof; [|done]. injection Eof as <-.
  unfold progress_sequence_new in Eof0. destruct (_ =? 0); [done|]. injection Eof0 as <-.
  split_and!; done.
Qed.

Lemma appended_row_reads event created_at db :
  event_ok event -> 1 <= event_sequence (allocated_event event created_at db) ->
  progress_event_from_row (event_id (allocated_event event created_at db))
    (event_row (event_payload event) (allocated_event event created_at db))
  = Ok (allocated_event event created_at db).
Proof.
  intros [Hkey Hmeta Hatt] Hseq. unfold progress_event_from_row. simpl in *.
  rewrite uuid_parse_to_string. simpl.
  assert ((match new_attempt_id event with
    | None => Ok None
    | Some a => let? a := map_err (fun _ => ProgressInvariant) (progress_attempt_id_new a) in Ok (Some a)
    end) = Ok (new_attempt_id event)) as ->.
  { destruct (new_attempt_id event) as [a|]; [|done]. by rewrite Hatt. }
  set (n := max_sequence _ + 1) in *.
  assert ((n <? 0) = false) as -> by (apply Z.ltb_ge; lia).
  unfold progress_sequence_new. assert ((n =? 0) = false) as -> by (apply Z.eqb_neq; lia).
  cbn [reject_if map_err]. rewrite Hkey. cbn [map_err]. unfold event_payload.
  rewrite decode_payload_round_trip by done. done.
Qed.

Lemma append_stream event created_at db e db' :
  stream_ok (new_job_id event) db ->
  append_progress_in_transaction event created_at db = Ok (e, db') ->
  stream_rows (new_job_id event) db'
    = stream_rows (new_job_id event) db ++ [(event_id e, event_row (event_payload event) e)] /\
  event_sequence e = Z.of_nat (length (stream_rows (new_job_id event) db')) /\
  forall job_id, job_id <> new_job_id event -> stream_rows job_id db' = stream_rows job_id db.
Proof.
  intros [Hseqs _ Hrows] (Hjob & _ & _ & He & Hrange & Hid & ->)%append_inv.
  assert (Hmax : event_sequence e = Z.of_nat (length (stream_rows (new_job_id event) db)) + 1)
    by (rewrite He; simpl; by rewrite max_sequence_length).
  assert (Hsnoc : stream_rows (new_job_id event)
      (with_progress (<[event_id e := event_row (event_payload event) e]> (job_progress_events db)) db)
    = stream_rows (new_job_id event) db ++ [(event_id e, event_row (event_payload event) e)]).
  { apply stream_snoc; [rewrite Hseqs; apply NoDup_seqZ|done|by rewrite He|].
    apply Forall_forall. intros x Hx. simpl. rewrite Hmax.
    assert (prog_sequence x.2 ∈ map (fun e => prog_sequence e.2) (stream_rows (new_job_id event) db)) as Hin
      by (apply elem_of_map; by exists x).
    rewrite Hseqs in Hin. apply elem_of_seqZ in Hin. lia. }
  split; [exact Hsnoc|]. split.
  - etransitivity; [exact Hmax|].
    etransitivity; [|apply (f_equal (fun l => Z.of_nat (length l)) (eq_sym Hsnoc))].
    rewrite length_app. simpl. lia.
  - intros job_id Hne. apply stream_other. intros id row Hrow. simpl.
    rewrite lookup_insert_Some. split; [intros [[<- <-]|[]]; [|done]|].
    + rewrite He in Hrow. simpl in Hrow. congruence.
    + intros H. right. split; [|done]. intros <-. congruence.
Qed.

Lemma append_streams_ok event created_at db e db' :
  event_ok event -> streams_ok db ->
  append_progress_in_transaction event created_at db = Ok (e, db') -> streams_ok db'.
Proof.
  intros Hev Hok Happ job_id.
  destruct (append_stream _ _ _ _ _ (Hok (new_job_id event)) Happ) as (Hs & Hlen & Hother).
  destruct (decide (job_id = new_job_id event)) as [-> |Hne].
  2:{ destruct (Hok job_id) as [H1 H2 H3]. rewrite <- (Hother _ Hne) in H1, H2, H3. by split. }
  destruct (Hok (new_job_id event)) as [Hseqs _ Hrows].
  apply append_inv in Happ as (_ & _ & Hopen & He & Hrange & _ & _).
  split; rewrite Hs in *; rewrite !length_app in *; cbn [length] in *; [|lia|].
  - rewrite map_app, Hseqs, Nat2Z.inj_add, seqZ_app by lia. simpl. f_equal.
    rewrite seqZ_cons by lia. simpl. f_equal. lia.
  - intros i id row Hi. apply lookup_app_Some in Hi as [Hi|[Hge Hi]].
    + pose proof (lookup_lt_Some _ _ _ Hi) as Hlt.
      destruct (Hrows _ _ _ Hi) as (e0 & He0 & Hterm). exists e0. split; [done|].
      intros Hsome. specialize (Hterm Hsome).
      assert (Hl : last (stream_rows (new_job_id event) db) = Some (id, row)).
      { rewrite last_lookup, <- Hterm. exact Hi. }
      destruct (Hopen _ Hl) as [m Hm]. simpl in Hm. unfold progress_event_from_row in He0.
      rewrite Hm in He0. break_in He0. simpl in Hsome. by destruct Hsome.
    + apply list_lookup_singleton_Some in Hi as [Hi [= <- <-]]. exists e. split; [|intros _; lia].
      rewrite He. apply appended_row_reads; [done|]. rewrite <- He. lia.
Qed.

(** ** Replay *)

Definition decode_rows (rows : list (string * ProgressRow)) : result ProgressRepositoryError (list ProgressEvent) :=
  collect (fun e => progress_event_from_row e.1 e.2) rows.

Lemma row_sequence id row e : progress_event_from_row id row = Ok e -> event_sequence e = prog_sequence row.
Proof.
  unfold progress_event_from_row, progress_sequence_new. intros H.
  destruct (Z.eqb_spec (prog_sequence row) 0) as [Hz|Hz]; break_in H; by simplify_eq/=.
Qed.

Lemma stream_decodes job_id db :
  stream_ok job_id db -> exists events, decode_rows (stream_rows job_id db) = Ok events /\
    map event_sequence events = seqZ 1 (Z.of_nat (length events)) /\
    Z.of_nat (length events) <= i64_max.
Proof.
  intros [Hseqs Hbound Hrows].
  assert (exists events, Forall2 (fun r e => progress_event_from_row r.1 r.2 = Ok e)
      (stream_rows job_id db) events) as [events Hev].
  { assert (Hall : Forall (fun r => exists e, progress_event_from_row r.1 r.2 = Ok e) (stream_rows job_id db)).
    { apply Forall_lookup. intros i [id row] Hi. destruct (Hrows _ _ _ Hi) as (e & He & _). eauto. }
    clear -Hall. induction Hall as [|r l [e He] _ [es IH]]; [by exists []|].
    exists (e :: es). by constructor. }
  exists events. split; [by apply collect_ok|].
  rewrite <- (Forall2_length _ _ _ Hev). split; [|done]. rewrite <- Hseqs.
  clear -Hev. induction Hev as [|r e l es He _ IH]; simpl; [done|].
  by rewrite (row_sequence _ _ _ He), IH.
Qed.

Lemma filter_all {A} (P : A -> Prop) `{!forall x, Decision (P x)} l : Forall P l -> filter P l = l.
Proof. induction 1 as [|x l Hx _ IH]; [done|]. by rewrite filter_cons_True, IH. Qed.

(** Rows after a cursor are the rest of the stream. *)
Lemma filter_after {A} (seq : A -> Z) (k : nat) (n : Z) l :
  map seq l = seqZ (n + 1) (Z.of_nat (length l)) ->
  filter (fun x => n + Z.of_nat k < seq x) l = drop k l.
Proof.
  revert n k. induction l as [|x l IH]; intros n k Hl; [by rewrite drop_nil|].
  destruct k as [|k].
  - rewrite drop_0. apply filter_all, Forall_forall. intros y Hy.
    assert (seq y ∈ map seq (x :: l)) as Hin by (apply elem_of_map; by exists y).
    rewrite Hl in Hin. apply elem_of_seqZ in Hin. lia.
  - cbn [map length] in Hl. rewrite Nat2Z.inj_succ, seqZ_cons in Hl by lia.
    injection Hl as Hx Hl. rewrite Z.pred_succ in Hl.
    rewrite filter_cons_False by lia. cbn [drop]. rewrite <- (IH (n + 1) k).
    + apply list_filter_iff. intros y. lia.
    + rewrite Hl. f_equal; lia.
Qed.

Lemma collect_take {E A B} (f : A -> result E B) l ys k j :
  collect f l = Ok ys -> collect f (take k (drop j l)) = Ok (take k (drop j ys)).
Proof. rewrite !collect_ok. intros H. by apply Forall2_take, Forall2_drop. Qed.

(** A page is the next [limit] events, and its cursor is set exactly when more follow. *)
Lemma replay_page job_id db events (cursor : option Z) (a : nat) limit :
  is_Some (jobs db !! job_id) -> stream_ok job_id db ->
  decode_rows (stream_rows job_id db) = Ok events ->
  default 0 cursor = Z.of_nat a -> (a <= length events)%nat -> 1 <= limit <= MAX_REPLAY_LIMIT ->
  replay job_id {| replay_after := cursor; replay_limit := limit |} db
  = Ok {| page_events := take (Z.to_nat limit) (drop a events);
          next_after := if bool_decide (a + Z.to_nat limit < length events)%nat
            then Some (Z.of_nat a + limit) else None |}.
Proof.
  intros Hjob Hok Hdec Ha Hle Hlimit. destruct (stream_decodes _ _ Hok) as (events' & Hev & Hseq & Hbound).
  rewrite Hdec in Hev. injection Hev as <-. destruct Hok as [Hseqs _ Hrows].
  assert (Hlen : length (stream_rows job_id db) = length events).
  { apply collect_ok in Hdec. by apply Forall2_length in Hdec. }
  unfold replay. simpl. rewrite bool_decide_eq_true_2 by done. simpl.
  assert ((match cursor with None => Ok 0
    | Some v => let? _ := reject_if (i64_max <? v) InvalidReplayRequest in Ok v end) = Ok (Z.of_nat a)) as ->.
  { destruct cursor as [v|]; simpl in Ha; [|by rewrite Ha]. subst v.
    assert ((i64_max <? Z.of_nat a) = false) as -> by (apply Z.ltb_ge; lia). done. }
  rewrite (filter_after (fun e => prog_sequence e.2) a 0); [|exact Hseqs].
  assert (saturating_add u64_max limit 1 = limit + 1) as ->.
  { unfold saturating_add, u64_max, MAX_REPLAY_LIMIT in *. lia. }
  rewrite take_take, Nat.min_l by lia.
  rewrite (collect_take _ _ _ _ _ Hdec). f_equal.
  assert (Hcmp : (length (take (Z.to_nat limit) (drop a events))
        < length (take (Z.to_nat (limit + 1)) (drop a (stream_rows job_id db))))%nat
      <-> (a + Z.to_nat limit < length events)%nat).
  { rewrite !length_take, !length_drop, Hlen. lia. }
  rewrite (bool_decide_ext _ _ Hcmp). case_bool_decide as Hmore; [|done]. f_equal.
  assert (exists e, last (take (Z.to_nat limit) (drop a events)) = Some e /\
      events !! (a + pred (Z.to_nat limit))%nat = Some e) as (e & -> & He).
  { destruct (lookup_lt_is_Some_2 events (a + pred (Z.to_nat limit))) as [e He]; [lia|].
    exists e. split; [|done]. rewrite last_lookup, length_take, length_drop.
    rewrite Nat.min_l by lia. rewrite lookup_take_lt by lia. by rewrite lookup_drop. }
  simpl. f_equal. assert (Hat : (map event_sequence events) !! (a + pred (Z.to_nat limit))%nat
    = Some (event_sequence e)) by (by rewrite list_lookup_fmap, He).
  rewrite Hseq in Hat. apply lookup_seqZ in Hat. lia.
Qed.

(** A client that follows the cursor of every page. *)
Fixpoint replay_all (fuel : nat) (job_id : string) (cursor : option Z) (limit : Z) (db : Db)
    : option (list ProgressEvent) :=
  match fuel with
  | O => None
  | S fuel' =>
    match replay job_id {| replay_after := cursor; replay_limit := limit |} db with
    | Ok page =>
      match next_after page with
      | None => Some (page_events page)
      | Some c => app (page_events page) <$> replay_all fuel' job_id (Some c) limit db
      end
    | Err _ => None
    end
  end.

Lemma replay_all_from job_id db events limit fuel a cursor :
  is_Some (jobs db !! job_id) -> stream_ok job_id db ->
  decode_rows (stream_rows job_id db) = Ok events -> 1 <= limit <= MAX_REPLAY_LIMIT ->
  default 0 cursor = Z.of_nat a -> (a <= length events)%nat -> (length events - a < fuel)%nat ->
  replay_all fuel job_id cursor limit db = Some (drop a events).
Proof.
  intros Hjob Hok Hdec Hlimit. revert a cursor. induction fuel as [|fuel IH]; intros a cursor Ha Hle Hf; [lia|].
  cbn [replay_all]. rewrite (replay_page _ _ _ _ _ _ Hjob Hok Hdec Ha Hle Hlimit). cbn [next_after page_events].
  case_bool_decide as Hmore.
  - rewrite (IH (a + Z.to_nat limit)%nat); simpl; [|lia..].
    f_equal. by rewrite <- drop_drop, take_drop.
  - f_equal. apply take_ge. rewrite length_drop. lia.
Qed.
End stream_lemmas.

(** * Properties *)

Section progress_properties.
Context `{U : UuidLib} `{SD : SerdeLib} {UL : UuidLaws U} {SL : SerdeLaws SD}.

(** Appending a well-formed event to gap-free streams commits it at the end of
    its own job's stream under the next number, where it reads back as the event
    that was returned; the streams stay gap-free with no event after a terminal
    one, no earlier event changes, and the streams of other jobs are untouched. *)
Theorem append_extends_stream event created_at db e db' :
  event_ok event -> streams_ok db -> append_at event created_at db = (Ok e, db') ->
  streams_ok db' /\
  (exists payload, stream_rows (new_job_id event) db'
      = stream_rows (new_job_id event) db ++ [(event_id e, event_row payload e)] /\
    progress_event_from_row (event_id e) (event_row payload e) = Ok e) /\
  event_sequence e = Z.of_nat (length (stream_rows (new_job_id event) db)) + 1 /\
  forall job_id, job_id <> new_job_id event -> stream_rows job_id db' = stream_rows job_id db.
Proof.
  intros Hev Hok H%transact_ok. split; [by eapply append_streams_ok|].
  destruct (append_stream _ _ _ _ _ (Hok (new_job_id event)) H) as (Hs & Hlen & Hother).
  split; [|split; [|done]].
  - exists (event_payload event). split; [done|].
    apply append_inv in H as (_ & _ & _ & He & Hr & _ & _). rewrite He.
    apply appended_row_reads; [done|]. rewrite <- He. lia.
  - rewrite Hlen, Hs, length_app. simpl. lia.
Qed.

(** Once a stream holds a terminal event it is closed: every further append to
    that job is refused with [TerminalStreamClosed] and changes nothing. *)
Theorem terminal_stream_closed event created_at db id row e :
  stream_ok (new_job_id event) db -> is_Some (jobs db !! new_job_id event) ->
  attempt_belongs event db ->
  (id, row) ∈ stream_rows (new_job_id event) db -> progress_event_from_row id row = Ok e ->
  is_Some (event_terminal e) ->
  append_at event created_at db = (Err TerminalStreamClosed, db).
Proof.
  intros Hok Hjob Hatt [i Hi]%list_elem_of_lookup Hrow Hterm.
  destruct (so_rows _ _ Hok _ _ _ Hi) as (e' & He' & Hlast). rewrite Hrow in He'. injection He' as <-.
  assert (Hl : last (stream_rows (new_job_id event) db) = Some (id, row))
    by (rewrite last_lookup, <- (Hlast Hterm); exact Hi).
  assert (exists m t, decode_payload (prog_payload_json row) = Ok (m, Some t)) as (m & t & Hdec).
  { unfold progress_event_from_row in Hrow. break_in Hrow. simplify_eq/=.
    destruct Hterm as [t Ht]. simpl in Ht. destruct a4 as [m o]. simpl in Ht. subst o. by exists m, t. }
  unfold append_at, append_progress_in_transaction, transact, ensure_job_exists, tx_bind, tx_reject, tx_of, tx_get.
  rewrite bool_decide_eq_true_2 by done. simpl.
  assert (ensure_attempt_belongs_to_job event db = Ok (tt, db)) as ->.
  { unfold ensure_attempt_belongs_to_job, attempt_belongs in *.
    destruct (new_attempt_id event) as [a|]; [|done]. destruct (Hatt a eq_refl) as (r & Hr & Hj).
    unfold tx_bind, tx_get. rewrite Hr, Hj, String.eqb_refl. done. }
  unfold ensure_stream_open, tx_bind, tx_get. rewrite Hl. simpl. rewrite Hdec. done.
Qed.

(** Bounded replay loses nothing: a client that starts at the beginning and
    follows the cursors, with any page size from 1 to 256, receives every committed
    event of the stream exactly once and in order. *)
Theorem replay_complete job_id db limit :
  is_Some (jobs db !! job_id) -> stream_ok job_id db -> 1 <= limit <= MAX_REPLAY_LIMIT ->
  exists events, decode_rows (stream_rows job_id db) = Ok events /\
    map event_sequence events = seqZ 1 (Z.of_nat (length events)) /\
    replay_all (S (length events)) job_id None limit db = Some events.
Proof.
  intros Hjob Hok Hlimit. destruct (stream_decodes _ _ Hok) as (events & Hdec & Hseq & _).
  exists events. split; [done|]. split; [done|].
  rewrite (replay_all_from job_id db events limit _ 0) by (done || lia). by rewrite drop_0.
Qed.
End progress_properties.

(** * Witnesses *)

Lemma stream_rows_empty job_id db : job_progress_events db = ∅ -> stream_rows job_id db = [].
Proof.
  intros H. destruct (stream_rows job_id db) as [|[id row] l] eqn:Hl; [done|].
  assert ((id, row) ∈ stream_rows job_id db) as [Hin _]%elem_of_stream by (rewrite Hl; left).
  by rewrite H, lookup_empty in Hin.
Qed.

Lemma streams_ok_empty `{U : UuidLib} `{SD : SerdeLib} db : job_progress_events db = ∅ -> streams_ok db.
Proof.
  intros H job_id. split; rewrite (stream_rows_empty _ _ H); [done| |done].
  by apply Z.leb_le.
Qed.

Definition example_job : JobRow :=
  {| row_kind := "QUICK_SCRAPE"; row_priority := 0; row_state := Queued; row_parent_job_id := None;
     row_crawl_run_id := None; row_scheduled_at := 0; row_current_attempt := 0; row_max_attempts := 1;
     row_lease_id := None; row_lease_owner := None; row_lease_generation := 0;
     row_lease_acquired_at := None; row_lease_expires_at := None; row_heartbeat_at := None;
     row_failure_code := None; row_created_at := 0; row_updated_at := 0 |}.

Definition example_db : Db := with_jobs {["j"%string := example_job]} (empty_db ∅ ∅).

Definition example_event (terminal : option ProgressTerminalState) : NewProgressEvent :=
  {| new_job_id := "j"; new_attempt_id := None; new_key := "LOADING";
     new_metadata := {["pages"%string := MetaCount 3]}; new_terminal := terminal |}.

Lemma example_event_ok t : event_ok (U := plain_uuid) (example_event t).
Proof.
  split; [vm_compute; reflexivity| |by intros a].
  split; [vm_compute; discriminate|]. intros k v H.
  change (({["pages"%string := MetaCount 3]} : gmap string ProgressMetadataValue) !! k = Some v) in H.
  apply lookup_singleton_Some in H as [<- <-].
  split; [vm_compute; reflexivity|]. vm_compute. by split.
Qed.

Definition example_appended : result ProgressRepositoryError ProgressEvent * Db :=
  append_at (U := plain_uuid) (SD := plain_serde) (example_event (Some TerminalFailed)) 5 example_db.

Lemma append_extends_stream_witness :
  exists e, example_appended.1 = Ok e /\ event_sequence e = 1 /\
    streams_ok (U := plain_uuid) (SD := plain_serde) example_appended.2.
Proof.
  eexists. split; [vm_compute; reflexivity|]. split; [reflexivity|].
  eapply (append_extends_stream (UL := plain_uuid_laws) (SL := plain_serde_laws)
    (example_event (Some TerminalFailed)) 5 example_db).
  - apply example_event_ok.
  - by apply streams_ok_empty.
  - vm_compute. reflexivity.
Defined.

Lemma terminal_stream_closed_witness :
  append_at (U := plain_uuid) (SD := plain_serde) (example_event None) 6 example_appended.2
  = (Err TerminalStreamClosed, example_appended.2).
Proof.
  assert (exists e, append_progress_in_transaction (U := plain_uuid) (SD := plain_serde)
    (example_event (Some TerminalFailed)) 5 example_db = Ok (e, example_appended.2)) as [e Happ]
    by (eexists; vm_compute; reflexivity).
  assert (Hjob : is_Some (jobs example_appended.2 !! "j"%string)) by (vm_compute; by eexists).
  revert Happ Hjob. generalize example_appended.2. intros db1 Happ Hjob.
  assert (Hempty : streams_ok (U := plain_uuid) (SD := plain_serde) example_db)
    by (by apply streams_ok_empty).
  pose proof (append_streams_ok (UL := plain_uuid_laws) (SL := plain_serde_laws)
    _ _ _ _ _ (example_event_ok _) Hempty Happ) as Hok.
  pose proof (append_stream (U := plain_uuid) (SD := plain_serde)
    _ _ _ _ _ (Hempty _) Happ) as (Hrows & _ & _).
  apply append_inv in Happ as (_ & _ & _ & He & Hr & _ & _).
  apply (terminal_stream_closed (U := plain_uuid) (SD := plain_serde) (example_event None) 6 db1
    (event_id e) (event_row (event_payload (example_event (Some TerminalFailed))) e) e).
  - apply Hok.
  - exact Hjob.
  - by intros a.
  - change (new_job_id (example_event None)) with (new_job_id (example_event (Some TerminalFailed))).
    rewrite Hrows. apply elem_of_app. right. left.
  - rewrite He. apply (appended_row_reads (UL := plain_uuid_laws) (SL := plain_serde_laws));
      [apply example_event_ok|rewrite <- He; lia].
  - rewrite He. by eexists.
Defined.

Lemma replay_complete_witness :
  exists events, decode_rows (U := plain_uuid) (SD := plain_serde) (stream_rows "j" example_db) = Ok events /\
    map event_sequence events = seqZ 1 (Z.of_nat (length events)) /\
    replay_all (U := plain_uuid) (SD := plain_serde) (S (length events)) "j" None 10 example_db = Some events.
Proof.
  apply (replay_complete (U := plain_uuid) (SD := plain_serde)).
  - by eexists.
  - by apply streams_ok_empty.
  - unfold MAX_REPLAY_LIMIT. lia.
Defined.
