(* ===== verification/Checkpoint.v ===== *)
(** * Checkpoint evidence

    [crates/erabi-db/src/repositories/checkpoint.rs]: the bounded checkpoint
    envelope, its stored text, the append that a worker may make only while it owns
    the running attempt, and the assessment of a stale job's latest checkpoint. *)

From stdpp Require Import pretty.
From S2P Require Import Prelude Externals JsonFacts Base Instances Store Progress.

Definition CHECKPOINT_ENVELOPE_FORMAT_VERSION : Z := 1.
Definition MAX_CHECKPOINT_BYTES : Z := 64 * 1024.
Definition MAX_CHECKPOINT_PAYLOAD_KIND_BYTES : Z := 64.
Definition MAX_SNAPSHOT_ID_BYTES : Z := 128.
Definition MAX_ATTEMPT_ID_BYTES : Z := 128.

Inductive CheckpointRepositoryError :=
| CkptDatabase (e : DbError)
| UnsupportedFormatVersion | InvalidEnvelope | PayloadTooLarge | Malformed | CkptSerialization
| CkptNotFound | CkptLeaseLost.

(** [JobLease] ([job.rs]): evidence of current ownership. *)
Record JobLease := {
  lease_id : string;
  lease_owner : string;
  lease_generation : Z;
  lease_acquired_at : Z;
  lease_expires_at : Z;
  lease_heartbeat_at : Z
}.

#[export] Instance lease_eq_dec : EqDecision JobLease.
Proof. solve_decision. Defined.

(** ** Envelopes *)

Record CheckpointIdentity := {
  snapshot_id : string;
  identity_snapshot_hash : string;
  compatibility_hash : string
}.

#[export] Instance identity_eq_dec : EqDecision CheckpointIdentity.
Proof. solve_decision. Defined.

Definition bounded_non_empty (value : string) (max_bytes : Z) : result CheckpointRepositoryError unit :=
  reject_if (blank value || (max_bytes <? byte_len value)) InvalidEnvelope.

Definition valid_hash (value : string) : result CheckpointRepositoryError unit :=
  reject_if (negb (byte_len value =? 64) || negb (forallb is_ascii_hexdigit (bytes value))) InvalidEnvelope.

Definition identity_validate (i : CheckpointIdentity) : result CheckpointRepositoryError unit :=
  let? _ := bounded_non_empty (snapshot_id i) MAX_SNAPSHOT_ID_BYTES in
  let? _ := valid_hash (identity_snapshot_hash i) in
  valid_hash (compatibility_hash i).

Definition identity_new (snapshot_id snapshot_hash compatibility_hash : string)
    : result CheckpointRepositoryError CheckpointIdentity :=
  let i := {| snapshot_id := snapshot_id; identity_snapshot_hash := snapshot_hash;
              compatibility_hash := compatibility_hash |} in
  let? _ := identity_validate i in Ok i.

Definition payload_kind_validate (kind : string) : result CheckpointRepositoryError unit :=
  reject_if (str_is_empty kind || (MAX_CHECKPOINT_PAYLOAD_KIND_BYTES <? byte_len kind)
    || negb (forallb upper_identifier_byte (bytes kind))) InvalidEnvelope.

Definition payload_kind_new (value : string) : result CheckpointRepositoryError string :=
  let? _ := payload_kind_validate value in Ok value.

Record CheckpointEnvelope := {
  format_version : Z;
  ckpt_sequence : Z;
  identity : CheckpointIdentity;
  payload_kind : string;
  payload : Json
}.

Definition with_sequence (n : Z) (e : CheckpointEnvelope) : CheckpointEnvelope :=
  {| format_version := format_version e; ckpt_sequence := n; identity := identity e;
     payload_kind := payload_kind e; payload := payload e |}.

Definition is_object (v : Json) : bool := match v with JObject _ => true | _ => false end.

Definition envelope_validate (e : CheckpointEnvelope) : result CheckpointRepositoryError unit :=
  let? _ := reject_if (negb (format_version e =? CHECKPOINT_ENVELOPE_FORMAT_VERSION))
    UnsupportedFormatVersion in
  let? _ := identity_validate (identity e) in
  let? _ := payload_kind_validate (payload_kind e) in
  reject_if (negb (is_object (payload e))) InvalidEnvelope.

Definition envelope_new (i : CheckpointIdentity) (kind : string) (payload : Json)
    : result CheckpointRepositoryError CheckpointEnvelope :=
  let e := {| format_version := CHECKPOINT_ENVELOPE_FORMAT_VERSION; ckpt_sequence := 0;
              identity := i; payload_kind := kind; payload := payload |} in
  let? _ := envelope_validate e in Ok e.

(** The serde forms. *)
Definition identity_json (i : CheckpointIdentity) : Json :=
  JObject [("snapshot_id"%string, JString (snapshot_id i));
    ("snapshot_hash"%string, JString (identity_snapshot_hash i));
    ("compatibility_hash"%string, JString (compatibility_hash i))].

Definition envelope_json (e : CheckpointEnvelope) : Json :=
  JObject [("format_version"%string, JNumber (pretty (format_version e)));
    ("sequence"%string, JNumber (pretty (ckpt_sequence e)));
    ("identity"%string, identity_json (identity e));
    ("payload_kind"%string, JString (payload_kind e)); ("payload"%string, payload e)].

Definition json_unsigned (max : Z) (v : Json) : option Z :=
  match v with JNumber t => parse_unsigned max t | _ => None end.

Definition identity_of_json (v : Json) : option CheckpointIdentity :=
  id ← json_get "snapshot_id" v ≫= json_as_str;
  hash ← json_get "snapshot_hash" v ≫= json_as_str;
  compat ← json_get "compatibility_hash" v ≫= json_as_str;
  Some {| snapshot_id := id; identity_snapshot_hash := hash; compatibility_hash := compat |}.

Definition envelope_of_json (v : Json) : option CheckpointEnvelope :=
  version ← json_get "format_version" v ≫= json_unsigned u16_max;
  sequence ← json_get "sequence" v ≫= json_unsigned u64_max;
  identity ← json_get "identity" v ≫= identity_of_json;
  kind ← json_get "payload_kind" v ≫= json_as_str;
  payload ← json_get "payload" v;
  Some {| format_version := version; ckpt_sequence := sequence; identity := identity;
          payload_kind := kind; payload := payload |}.

Section checkpoints.
Context `{U : UuidLib} `{SD : SerdeLib}.

Definition encode_envelope (e : CheckpointEnvelope) : result CheckpointRepositoryError string :=
  let? _ := envelope_validate e in
  let encoded := json_to_string (envelope_json e) in
  if MAX_CHECKPOINT_BYTES <? byte_len encoded then Err PayloadTooLarge else Ok encoded.

Definition decode_envelope (value : string) (encoded_length : Z)
    : result CheckpointRepositoryError CheckpointEnvelope :=
  let? _ := reject_if (MAX_CHECKPOINT_BYTES <? encoded_length) PayloadTooLarge in
  let? parsed := ok_or Malformed (json_from_str value) in
  let? _ := reject_if (negb (is_object parsed)) Malformed in
  let? _ := reject_if (bool_decide (is_Some (json_get "schema_version" parsed))) UnsupportedFormatVersion in
  let? _ := reject_if
    (match json_get "format_version" parsed with
     | Some (JNumber t) =>
       bool_decide (json_as_u64 (JNumber t) <> Some CHECKPOINT_ENVELOPE_FORMAT_VERSION)
     | _ => false
     end) UnsupportedFormatVersion in
  let? checkpoint := ok_or Malformed (envelope_of_json parsed) in
  let? _ := envelope_validate checkpoint in
  let? _ := reject_if (ckpt_sequence checkpoint =? 0) InvalidEnvelope in
  Ok checkpoint.

(** ** Records *)

Record CheckpointRecord := {
  record_id : string;
  record_job_id : string;
  record_attempt_id : option string;
  record_checkpoint : CheckpointEnvelope;
  record_created_at : Z
}.

Definition record_from_row (db : Db) (id : string) (row : CheckpointRow)
    : result CheckpointRepositoryError CheckpointRecord :=
  let attempt_job_id := a ← ckpt_attempt_id row; att_job_id <$> job_attempts db !! a in
  let? _ := reject_if (bool_decide (ckpt_attempt_id row = None)
      || negb (bool_decide (attempt_job_id = Some (ckpt_job_id row)))) InvalidEnvelope in
  let? checkpoint := decode_envelope (ckpt_json row)
    (Z.max (Z.of_nat (char_count (ckpt_json row))) (byte_len (ckpt_json row))) in
  Ok {| record_id := id; record_job_id := ckpt_job_id row; record_attempt_id := ckpt_attempt_id row;
        record_checkpoint := checkpoint; record_created_at := ckpt_created_at row |}.

Definition encoded_or_empty (e : CheckpointEnvelope) : string :=
  match encode_envelope e with Ok s => s | Err _ => EmptyString end.

Definition record_cmp (l r : CheckpointRecord) : comparison :=
  cmp_lex (Z.compare (ckpt_sequence (record_checkpoint l)) (ckpt_sequence (record_checkpoint r)))
    (cmp_lex (Z.compare (record_created_at l) (record_created_at r))
      (String.compare (encoded_or_empty (record_checkpoint l)) (encoded_or_empty (record_checkpoint r)))).

(** The rows of a job; SQLite leaves their order open, the records are sorted. *)
Definition checkpoint_rows (job_id : string) (db : Db) : list (string * CheckpointRow) :=
  select_where (fun _ c => String.eqb (ckpt_job_id c) job_id) (job_checkpoints db).

Definition records_from_connection (job_id : string) (db : Db)
    : result CheckpointRepositoryError (list CheckpointRecord) :=
  let? records := collect (fun e => record_from_row db e.1 e.2) (checkpoint_rows job_id db) in
  Ok (sort_by record_cmp records).

Definition latest (job_id : string) (db : Db) : result CheckpointRepositoryError (option CheckpointRecord) :=
  let? records := records_from_connection job_id db in Ok (last records).

(** ** Appending *)

(** [i64::try_from(generation).unwrap_or(i64::MIN)] *)
Definition generation_or_min (g : Z) : Z := if g <=? i64_max then g else i64_min.

Definition row_owned_by (lease : JobLease) (now : Z) (row : JobRow) : bool :=
  bool_decide (row_state row = Running) && bool_decide (row_lease_id row = Some (lease_id lease))
  && bool_decide (row_lease_owner row = Some (lease_owner lease))
  && (row_lease_generation row =? generation_or_min (lease_generation lease))
  && match row_lease_expires_at row with Some expires_at => now <? expires_at | None => false end.

Definition attempt_owned_by (job_id : string) (lease : JobLease) (a : AttemptRow) : bool :=
  String.eqb (att_job_id a) job_id && String.eqb (att_lease_id a) (lease_id lease)
  && (att_lease_generation a =? generation_or_min (lease_generation lease))
  && String.eqb (att_worker_id a) (lease_owner lease)
  && bool_decide (att_outcome a = AttemptRunning).

Definition ensure_owned_attempt (job_id attempt_id : string) (lease : JobLease) (now : Z)
    : Tx CheckpointRepositoryError unit :=
  let! db := tx_get in
  let! row := tx_of (ok_or CkptNotFound (jobs db !! job_id)) in
  let! _ := tx_reject (negb (row_owned_by lease now row)) CkptLeaseLost in
  tx_reject (negb (match job_attempts db !! attempt_id with
    | Some a => attempt_owned_by job_id lease a
    | None => false
    end)) CkptLeaseLost.

Definition next_checkpoint_sequence (job_id : string) (db : Db) : result CheckpointRepositoryError Z :=
  let? decoded := collect (fun e => decode_envelope (ckpt_json e.2) (byte_len (ckpt_json e.2)))
    (checkpoint_rows job_id db) in
  match map ckpt_sequence decoded with
  | [] => Ok 1
  | n :: rest => ok_or InvalidEnvelope (checked_add u64_max (foldl Z.max n rest) 1)
  end.

Definition append_checkpoint_in_transaction (job_id attempt_id : string) (lease : JobLease)
    (checkpoint : CheckpointEnvelope) (created_at : Z) : Tx CheckpointRepositoryError CheckpointRecord :=
  let! _ := tx_reject (str_is_empty attempt_id || (MAX_ATTEMPT_ID_BYTES <? byte_len attempt_id))
    InvalidEnvelope in
  let! _ := ensure_owned_attempt job_id attempt_id lease created_at in
  let! db := tx_get in
  let! sequence := tx_of (next_checkpoint_sequence job_id db) in
  let stored := with_sequence sequence checkpoint in
  let! encoded := tx_of (encode_envelope stored) in
  let! drawn := draw_uuid in
  let id := uuid_to_string drawn in
  let! _ := tx_map_err CkptDatabase (insert_checkpoint id
    {| ckpt_job_id := job_id; ckpt_attempt_id := Some attempt_id; ckpt_json := encoded;
       ckpt_created_at := created_at |}) in
  tx_ret {| record_id := id; record_job_id := job_id; record_attempt_id := Some attempt_id;
            record_checkpoint := stored; record_created_at := created_at |}.

Definition append_checkpoint (job_id attempt_id : string) (lease : JobLease)
    (checkpoint : CheckpointEnvelope) (created_at : Z) (db : Db)
    : result CheckpointRepositoryError CheckpointRecord * Db :=
  if str_is_empty attempt_id || (MAX_ATTEMPT_ID_BYTES <? byte_len attempt_id)
  then (Err InvalidEnvelope, db)
  else transact (append_checkpoint_in_transaction job_id attempt_id lease checkpoint created_at) db.

(** ** Assessing a stale job *)

Inductive CheckpointEnvelopeDisposition := ResumeCandidate | RestartRequired | InvalidCheckpoint.

Definition active_checkpoint_lineage_is_valid (job_id attempt_id : string) (db : Db) : bool :=
  match jobs db !! job_id, job_attempts db !! attempt_id with
  | Some job, Some a =>
    bool_decide (row_state job = Running) && String.eqb (att_job_id a) job_id
    && (att_number a =? row_current_attempt job) && bool_decide (att_outcome a = AttemptRunning)
    && bool_decide (Some (att_lease_id a) = row_lease_id job)
    && (att_lease_generation a =? row_lease_generation job)
    && bool_decide (Some (att_worker_id a) = row_lease_owner job)
  | _, _ => false
  end.

Definition assess_one_stale_job (job_id : string) (run_id : option string) (db : Db)
    : result CheckpointRepositoryError CheckpointEnvelopeDisposition :=
  match records_from_connection job_id db with
  | Err (UnsupportedFormatVersion | Malformed | InvalidEnvelope | PayloadTooLarge) => Ok InvalidCheckpoint
  | Err e => Err e
  | Ok records =>
    match last records with
    | None => Ok RestartRequired
    | Some record =>
      match record_attempt_id record with
      | None => Ok InvalidCheckpoint
      | Some attempt_id =>
        if active_checkpoint_lineage_is_valid job_id attempt_id db then
          match run_id with
          | None => Ok RestartRequired
          | Some run =>
            match crawl_runs db !! run with
            | None => Ok InvalidCheckpoint
            | Some row =>
              match identity_new run (run_snapshot_hash row) (run_checkpoint_compatibility_hash row) with
              | Err _ => Ok InvalidCheckpoint
              | Ok current =>
                if decide (identity (record_checkpoint record) = current)
                then Ok ResumeCandidate else Ok RestartRequired
              end
            end
          end
        else Ok InvalidCheckpoint
      end
    end
  end.
End checkpoints.

(** * Lemmas *)

Lemma chars_length s : (length (chars s) <= String.length s)%nat.
Proof.
  assert (H : forall n s, (String.length s <= n)%nat -> (length (chars s) <= String.length s)%nat).
  { induction n as [|n IH]; intros t Ht.
    - destruct t; simpl in *; lia.
    - destruct t as [|a t]; simpl in *; [lia|].
      repeat case_match; simpl in *; try lia;
        match goal with |- context [length (chars ?u)] =>
          specialize (IH u ltac:(simpl in *; lia)); simpl in *; lia end. }
  by apply (H (String.length s)).
Qed.

Definition same_envelope (e e' : CheckpointEnvelope) : Prop :=
  format_version e' = format_version e /\ ckpt_sequence e' = ckpt_sequence e /\
  identity e' = identity e /\ payload_kind e' = payload_kind e /\ json_equiv (payload e) (payload e').

Lemma envelope_validate_ok e u :
  envelope_validate e = Ok u ->
  format_version e = 1 /\ identity_validate (identity e) = Ok tt /\
  payload_kind_validate (payload_kind e) = Ok tt /\ is_object (payload e) = true.
Proof.
  unfold envelope_validate, CHECKPOINT_ENVELOPE_FORMAT_VERSION. intros H.
  destruct (Z.eqb_spec (format_version e) 1) as [Hv|]; simpl in H; [|done].
  destruct (identity_validate _) as [[]|]; simpl in H; [|done].
  destruct (payload_kind_validate _) as [[]|]; simpl in H; [|done].
  apply reject_if_ok in H. boolify. done.
Qed.

Lemma envelope_validate_same e e' u :
  same_envelope e e' -> envelope_validate e = Ok u -> envelope_validate e' = Ok tt.
Proof.
  intros (Hv & _ & Hi & Hk & Hp) H%envelope_validate_ok. destruct H as (H1 & H2 & H3 & H4).
  unfold envelope_validate. rewrite Hv, H1, Hi, H2, Hk, H3. simpl.
  destruct (payload e); try done. by apply json_equiv_object in Hp as (l' & -> & _).
Qed.

Lemma envelope_json_wf e : json_wf (payload e) = true -> json_wf (envelope_json e) = true.
Proof. intros H. json_object; try apply pretty_Z_text; done. Qed.

(** The value of a field of an equivalent object. *)
Ltac field_of H key :=
  let Hf := fresh "Hf" in
  pose proof (json_get_equiv key _ _ H) as Hf; cbn in Hf;
  let v := fresh "v" in destruct (json_get key _) as [v|]; [|done].

Lemma identity_of_equiv i v : json_equiv (identity_json i) v -> identity_of_json v = Some i.
Proof.
  intros H. unfold identity_of_json.
  field_of H "snapshot_id"%string. apply json_equiv_string in Hf as ->.
  field_of H "snapshot_hash"%string. apply json_equiv_string in Hf as ->.
  field_of H "compatibility_hash"%string. apply json_equiv_string in Hf as ->.
  by destruct i.
Qed.

Lemma envelope_of_equiv e v :
  format_version e = 1 -> 0 <= ckpt_sequence e <= u64_max -> json_equiv (envelope_json e) v ->
  exists e', envelope_of_json v = Some e' /\ same_envelope e e' /\
    json_get "format_version" v = Some (JNumber "1") /\ json_get "schema_version" v = None /\
    is_object v = true.
Proof.
  intros Hv Hs H. unfold envelope_of_json.
  assert (json_get "schema_version" v = None /\ is_object v = true) as [-> ->].
  { pose proof (json_get_equiv "schema_version" _ _ H) as Hf. cbn in Hf.
    apply json_equiv_object in H as (l' & -> & _). split; [|done]. by destruct (json_get _ _). }
  field_of H "format_version"%string. apply json_equiv_number in Hf as ->. rewrite Hv.
  field_of H "sequence"%string. apply json_equiv_number in Hf as ->.
  field_of H "identity"%string. field_of H "payload_kind"%string. apply json_equiv_string in Hf0 as ->.
  field_of H "payload"%string.
  assert (json_unsigned u16_max (JNumber (pretty 1)) = Some 1) as Hone by reflexivity.
  assert (json_unsigned u64_max (JNumber (pretty (ckpt_sequence e))) = Some (ckpt_sequence e)) as Hseq
    by (by apply parse_unsigned_pretty).
  cbn [mbind option_bind]. rewrite Hone, Hseq. cbn [mbind option_bind].
  rewrite (identity_of_equiv _ _ Hf). cbn. eexists. split; [done|]. split; [|done].
  by unfold same_envelope.
Qed.

Section checkpoint_lemmas.
Context `{U : UuidLib} `{SD : SerdeLib} {UL : UuidLaws U} {SL : SerdeLaws SD}.

Lemma encode_ok e text :
  encode_envelope e = Ok text ->
  envelope_validate e = Ok tt /\ text = json_to_string (envelope_json e) /\
  byte_len text <= MAX_CHECKPOINT_BYTES.
Proof.
  unfold encode_envelope. destruct (envelope_validate e) as [[]|]; simpl; [|done].
  destruct (_ <? _) eqn:Hlen; [done|]. intros [= <-]. by boolify.
Qed.

Lemma decode_encoded e text n :
  json_wf (payload e) = true -> 1 <= ckpt_sequence e <= u64_max ->
  encode_envelope e = Ok text -> n <= byte_len text ->
  exists e', decode_envelope text n = Ok e' /\ same_envelope e e'.
Proof.
  intros Hwf Hseq (Hval & -> & Hlen)%encode_ok Hn.
  pose proof (envelope_validate_ok _ _ Hval) as (Hv & _).
  destruct (json_round_trip (envelope_json e)) as (v & Hread & Hequiv); [by apply envelope_json_wf|].
  destruct (envelope_of_equiv e v Hv) as (e' & He' & Hsame & Hfv & Hsv & Hobj); [lia|done|].
  exists e'. split; [|done]. unfold decode_envelope.
  assert ((MAX_CHECKPOINT_BYTES <? n) = false) as -> by (apply Z.ltb_ge; lia).
  rewrite Hread. cbn [reject_if ok_or]. rewrite Hobj, Hsv, Hfv. cbn.
  rewrite He'. cbn. rewrite (envelope_validate_same _ _ _ Hsame Hval). cbn.
  destruct Hsame as (_ & -> & _). by assert ((ckpt_sequence e =? 0) = false) as -> by (apply Z.eqb_neq; lia).
Qed.

(** *** Order of the records *)

#[export] Instance record_cmp_pre : PreCmp record_cmp.
Proof.
  apply (pre_cmp_on (fun r => (ckpt_sequence (record_checkpoint r),
      (record_created_at r, encoded_or_empty (record_checkpoint r))))
    (cmp_pair Z.compare (cmp_pair Z.compare String.compare))).
  apply _.
Qed.

Lemma sorted_last {A} (c : A -> A -> comparison) `{!PreCmp c} l x :
  x ∈ l -> (forall y, y ∈ l -> y = x \/ c y x = Lt) -> last (sort_by c l) = Some x.
Proof.
  intros Hx Hmax. rewrite <- (elem_of_sort_by c) in Hx.
  assert (Hall : forall y, y ∈ sort_by c l -> y = x \/ c y x = Lt)
    by (intros y Hy%elem_of_sort_by; auto).
  pose proof (sort_by_Sorted c l) as Hs. revert Hx Hall Hs. generalize (sort_by c l). clear l Hmax.
  intros l. induction l as [|y l IH]; intros Hx Hall Hs; [by apply not_elem_of_nil in Hx|].
  apply StronglySorted_inv in Hs as [Hs Hy].
  destruct l as [|z l]; [by apply list_elem_of_singleton in Hx as ->|].
  change (last (y :: z :: l)) with (last (z :: l)).
  apply elem_of_cons in Hx as [-> |Hx].
  - assert (z = y \/ c z y = Lt) as [-> |Hlt] by (apply Hall; right; left).
    + apply IH; [left| |done]. intros w Hw. apply Hall. by right.
    + apply Forall_cons in Hy as [Hyz _]. unfold cmp_le in Hyz.
      rewrite (cmp_opp (c := c) y z), Hlt in Hyz. done.
  - apply IH; [done| |done]. intros w Hw. apply Hall. by right.
Qed.

Lemma decode_sequence text n e : decode_envelope text n = Ok e -> 1 <= ckpt_sequence e <= u64_max.
Proof.
  unfold decode_envelope. intros H.
  destruct (reject_if _ PayloadTooLarge); simpl in H; [|done].
  destruct (ok_or Malformed (json_from_str text)) as [v|]; simpl in H; [|done].
  destruct (reject_if _ Malformed); simpl in H; [|done].
  destruct (reject_if _ _); simpl in H; [|done].
  destruct (reject_if _ _); simpl in H; [|done].
  destruct (envelope_of_json v) as [e0|] eqn:He; simpl in H; [|done].
  destruct (envelope_validate e0) as [|]; simpl in H; [|done].
  destruct (Z.eqb_spec (ckpt_sequence e0) 0) as [|Hne]; simpl in H; [done|]. injection H as <-.
  assert (0 <= ckpt_sequence e0 <= u64_max); [|lia].
  unfold envelope_of_json in He.
  destruct (json_get "format_version" v ≫= _) as [x|]; simpl in He; [|done].
  destruct (json_get "sequence" v) as [y|]; simpl in He; [|done].
  destruct (json_unsigned u64_max y) as [z|] eqn:Hz; simpl in He; [|done].
  destruct (json_get "identity" v ≫= _) as [i|]; simpl in He; [|done].
  destruct (json_get "payload_kind" v ≫= _) as [k|]; simpl in He; [|done].
  destruct (json_get "payload" v) as [p|]; simpl in He; [|done]. injection He as <-. simpl.
  destruct y as [| |t| | |]; try done. simpl in Hz. by eapply parse_unsigned_range, Hz.
Qed.

(** The next number is above every number in use. *)
Lemma next_sequence_above job_id db n :
  next_checkpoint_sequence job_id db = Ok n ->
  1 <= n <= u64_max /\
  forall id row e, (id, row) ∈ checkpoint_rows job_id db ->
    decode_envelope (ckpt_json row) (byte_len (ckpt_json row)) = Ok e -> ckpt_sequence e < n.
Proof.
  unfold next_checkpoint_sequence. intros H. destruct (collect _ _) as [decoded|] eqn:Hc; [|done].
  apply collect_ok in Hc.
  assert (Hall : Forall (fun e => 1 <= ckpt_sequence e <= u64_max) decoded).
  { apply Forall_forall. intros e [i Hi]%list_elem_of_lookup.
    destruct (Forall2_lookup_r _ _ _ _ _ Hc Hi) as (row & _ & Hrow). by eapply decode_sequence. }
  assert (Hin : forall id row e, (id, row) ∈ checkpoint_rows job_id db ->
      decode_envelope (ckpt_json row) (byte_len (ckpt_json row)) = Ok e -> ckpt_sequence e ∈ map ckpt_sequence decoded).
  { intros id row e [i Hi]%list_elem_of_lookup He.
    destruct (Forall2_lookup_l _ _ _ _ _ Hc Hi) as (e' & He' & Hdec). simpl in Hdec.
    rewrite He in Hdec. injection Hdec as <-. apply elem_of_map. exists e.
    split; [done|]. by eapply list_elem_of_lookup_2. }
  destruct decoded as [|d rest]; simpl in *.
  - injection H as <-. split; [done|]. intros id row e Hrow He.
    by apply (Hin _ _ _ Hrow), not_elem_of_nil in He.
  - apply ok_or_ok, checked_add_some in H as [-> Hmax].
    destruct (foldl_max_ge (map ckpt_sequence rest) (ckpt_sequence d)) as [Hge Hall'].
    apply Forall_cons in Hall as [Hd _]. change (fun m x => Z.max m x) with Z.max in *.
    split; [lia|]. intros id row e Hrow He. specialize (Hin _ _ _ Hrow He).
    rewrite Forall_forall in Hall'. apply elem_of_cons in Hin as [-> |Hin]; [lia|].
    apply Hall' in Hin. lia.
Qed.

(** *** What an append does *)

Lemma insert_checkpoint_inv id c db u db' :
  insert_checkpoint id c db = Ok (u, db') ->
  job_checkpoints db !! id = None /\ db' = with_checkpoints (<[id := c]> (job_checkpoints db)) db.
Proof.
  unfold insert_checkpoint. destruct (_ && _) eqn:Hc; [|done]. intros [= <- <-]. by boolify.
Qed.

Lemma ensure_owned_inv job_id attempt_id lease now db u db' :
  ensure_owned_attempt job_id attempt_id lease now db = Ok (u, db') ->
  db' = db /\ exists row a, jobs db !! job_id = Some row /\ row_owned_by lease now row = true /\
    job_attempts db !! attempt_id = Some a /\ attempt_owned_by job_id lease a = true.
Proof.
  intros H. unfold ensure_owned_attempt in H. tx_step H. boolify. split; [done|].
  apply ok_or_ok in Eof. destruct (job_attempts db !! attempt_id) as [r|]; [|done].
  by exists a, r.
Qed.

Definition stored_row (job_id attempt_id text : string) (created_at : Z) : CheckpointRow :=
  {| ckpt_job_id := job_id; ckpt_attempt_id := Some attempt_id; ckpt_json := text;
     ckpt_created_at := created_at |}.

Lemma append_checkpoint_inv job_id attempt_id lease c created_at db r db' :
  append_checkpoint_in_transaction job_id attempt_id lease c created_at db = Ok (r, db') ->
  (exists row a, jobs db !! job_id = Some row /\ row_owned_by lease created_at row = true /\
    job_attempts db !! attempt_id = Some a /\ attempt_owned_by job_id lease a = true) /\
  exists n text, next_checkpoint_sequence job_id db = Ok n /\
    encode_envelope (with_sequence n c) = Ok text /\
    r = {| record_id := uuid_to_string (uuid_now_v7 (uuids_drawn db)); record_job_id := job_id;
           record_attempt_id := Some attempt_id; record_checkpoint := with_sequence n c;
           record_created_at := created_at |} /\
    job_checkpoints db !! record_id r = None /\
    db' = with_checkpoints (<[record_id r := stored_row job_id attempt_id text created_at]>
            (job_checkpoints db)) (with_drawn (S (uuids_drawn db)) db).
Proof.
  intros H. unfold append_checkpoint_in_transaction in H. tx_step H.
  apply ensure_owned_inv in Hs as [-> Howned].
  unfold draw_uuid in Hs0. injection Hs0 as <- <-.
  apply insert_checkpoint_inv in Hs1 as [Hid ->]. split; [done|].
  eexists _, _. split_and!; done.
Qed.

(** The new row reads back. *)
Lemma stored_row_reads job_id attempt_id lease c created_at db r db' :
  json_wf (payload c) = true ->
  append_checkpoint_in_transaction job_id attempt_id lease c created_at db = Ok (r, db') ->
  exists r' text, record_from_row db' (record_id r) (stored_row job_id attempt_id text created_at) = Ok r' /\
    db' = with_checkpoints (<[record_id r := stored_row job_id attempt_id text created_at]>
            (job_checkpoints db)) (with_drawn (S (uuids_drawn db)) db) /\
    record_id r' = record_id r /\ record_job_id r' = job_id /\
    record_attempt_id r' = Some attempt_id /\ record_created_at r' = created_at /\
    same_envelope (record_checkpoint r) (record_checkpoint r').
Proof.
  intros Hwf (Hown & n & text & Hn & Henc & -> & Hid & ->)%append_checkpoint_inv.
  destruct Hown as (row & a & Hrow & _ & Ha & Howned).
  apply next_sequence_above in Hn as [Hrange _].
  destruct (decode_encoded (with_sequence n c) text
    (Z.max (Z.of_nat (char_count text)) (byte_len text))) as (e' & Hdec & Hsame); try done.
  { unfold char_count, byte_len, str_len. pose proof (chars_length text). lia. }
  exists {| record_id := uuid_to_string (uuid_now_v7 (uuids_drawn db)); record_job_id := job_id;
    record_attempt_id := Some attempt_id; record_checkpoint := e'; record_created_at := created_at |}, text.
  split; [|split_and!; done]. unfold record_from_row. simpl.
  rewrite Ha. simpl. unfold attempt_owned_by in Howned. boolify.
  rewrite bool_decide_eq_true_2 by congruence. simpl. by rewrite Hdec.
Qed.

Lemma append_records job_id attempt_id lease c created_at db r db' records :
  json_wf (payload c) = true -> records_from_connection job_id db = Ok records ->
  append_checkpoint_in_transaction job_id attempt_id lease c created_at db = Ok (r, db') ->
  exists r' records', records_from_connection job_id db' = Ok records' /\ last records' = Some r' /\
    record_id r' = record_id r /\ record_job_id r' = job_id /\
    record_attempt_id r' = Some attempt_id /\ record_created_at r' = created_at /\
    same_envelope (record_checkpoint r) (record_checkpoint r') /\
    forall old, old ∈ records -> ckpt_sequence (record_checkpoint old) < ckpt_sequence (record_checkpoint r).
Proof.
  intros Hwf Hrec Happ.
  destruct (stored_row_reads _ _ _ _ _ _ _ _ Hwf Happ) as
    (r' & text & Hread & Hdb & Hid' & Hjob' & Hatt' & Hcr' & Hsame).
  destruct (append_checkpoint_inv _ _ _ _ _ _ _ _ Happ) as (_ & n & text' & Hn & _ & Hr & Hid & _).
  apply next_sequence_above in Hn as [Hrange Habove].
  unfold records_from_connection in Hrec. destruct (collect _ _) as [rs|] eqn:Hc; [|done].
  injection Hrec as <-. apply collect_ok in Hc.
  assert (Hperm : (record_id r, stored_row job_id attempt_id text created_at) :: checkpoint_rows job_id db
      ≡ₚ checkpoint_rows job_id db').
  { rewrite Hdb. unfold checkpoint_rows. simpl. symmetry. apply select_where_insert; [done|].
    by apply String.eqb_eq. }
  assert (Hall : Forall2 (fun e y => record_from_row db' e.1 e.2 = Ok y)
      ((record_id r, stored_row job_id attempt_id text created_at) :: checkpoint_rows job_id db) (r' :: rs)).
  { constructor; [done|]. eapply Forall2_impl; [exact Hc|]. intros e y. by rewrite Hdb. }
  destruct (Permutation_Forall2 Hperm Hall) as (rs' & Hrs' & Hall').
  assert (Hlt : forall old, old ∈ rs -> ckpt_sequence (record_checkpoint old) < n).
  { intros old [i Hi]%list_elem_of_lookup.
    destruct (Forall2_lookup_r _ _ _ _ _ Hc Hi) as ([id row] & Hrow & Hold).
    apply list_elem_of_lookup_2 in Hrow. unfold record_from_row in Hold. simpl in Hold.
    destruct (reject_if _ _); simpl in Hold; [|done].
    destruct (decode_envelope _ _) as [e|] eqn:He; simpl in Hold; [|done]. injection Hold as <-. simpl.
    assert (Z.max (Z.of_nat (char_count (ckpt_json row))) (byte_len (ckpt_json row))
      = byte_len (ckpt_json row)) as Hmax.
    { unfold char_count, byte_len, str_len. pose proof (chars_length (ckpt_json row)). lia. }
    rewrite Hmax in He. by eapply Habove. }
  assert (Hseq' : ckpt_sequence (record_checkpoint r') = n).
  { destruct Hsame as (_ & -> & _). by rewrite Hr. }
  exists r', (sort_by record_cmp rs'). split_and!; try done.
  - unfold records_from_connection. apply collect_ok in Hall'. by rewrite Hall'.
  - apply sorted_last; [apply _|rewrite <- Hrs'; left|]. intros y Hy. rewrite <- Hrs' in Hy.
    apply elem_of_cons in Hy as [-> |Hy]; [by left|]. right. apply Hlt in Hy.
    unfold record_cmp. rewrite Hseq'. by apply Z.compare_lt_iff in Hy as ->.
  - intros old Hold%elem_of_sort_by. rewrite Hr. simpl. by apply Hlt.
Qed.
End checkpoint_lemmas.

(** * Properties *)

Section checkpoint_properties.
Context `{U : UuidLib} `{SD : SerdeLib} {UL : UuidLaws U} {SL : SerdeLaws SD}.

(** A numbered envelope that can be stored reads back as the same envelope: the
    same format, sequence number, identity and payload kind, and the same payload
    up to the order of object entries. *)
Theorem envelope_round_trip e text :
  json_wf (payload e) = true -> 1 <= ckpt_sequence e <= u64_max -> encode_envelope e = Ok text ->
  byte_len text <= MAX_CHECKPOINT_BYTES /\
  exists e', decode_envelope text (byte_len text) = Ok e' /\ same_envelope e e'.
Proof.
  intros Hwf Hseq Henc. pose proof (encode_ok _ _ Henc) as (_ & _ & Hlen). split; [done|].
  by apply decode_encoded.
Qed.

(** A checkpoint a worker appends becomes the latest of its job: it reads back as
    what was stored, under a number above every earlier checkpoint's, and neither the
    job nor its attempts change. *)
Theorem appended_checkpoint_latest job_id attempt_id lease c created_at db r db' records :
  json_wf (payload c) = true -> records_from_connection job_id db = Ok records ->
  append_checkpoint job_id attempt_id lease c created_at db = (Ok r, db') ->
  (exists r', latest job_id db' = Ok (Some r') /\ record_id r' = record_id r /\
    record_attempt_id r' = Some attempt_id /\ record_created_at r' = created_at /\
    same_envelope (record_checkpoint r) (record_checkpoint r')) /\
  (forall old, old ∈ records ->
    ckpt_sequence (record_checkpoint old) < ckpt_sequence (record_checkpoint r)) /\
  jobs db' = jobs db /\ job_attempts db' = job_attempts db.
Proof.
  intros Hwf Hrec Happ. unfold append_checkpoint in Happ. destruct (_ || _); [done|].
  apply transact_ok in Happ.
  destruct (append_records _ _ _ _ _ _ _ _ _ Hwf Hrec Happ)
    as (r' & records' & Hrec' & Hlast & Hid & _ & Hatt & Hcr & Hsame & Habove).
  apply append_checkpoint_inv in Happ as (_ & n & text & _ & _ & _ & _ & Hdb).
  split; [|by rewrite Hdb]. exists r'. split; [|done]. unfold latest. rewrite Hrec'. by rewrite Hlast.
Qed.

(** Fencing of checkpoint writes: without the running attempt's current,
    unexpired lease an append is refused with [LeaseLost] and changes nothing. *)
Theorem stale_checkpoint_refused job_id attempt_id lease c created_at db row :
  jobs db !! job_id = Some row ->
  str_is_empty attempt_id = false -> byte_len attempt_id <= MAX_ATTEMPT_ID_BYTES ->
  row_owned_by lease created_at row = false \/
    (forall a, job_attempts db !! attempt_id = Some a -> attempt_owned_by job_id lease a = false) ->
  append_checkpoint job_id attempt_id lease c created_at db = (Err CkptLeaseLost, db).
Proof.
  intros Hrow Hne Hlen Hstale. unfold append_checkpoint. rewrite Hne.
  assert ((MAX_ATTEMPT_ID_BYTES <? byte_len attempt_id) = false) as Hl by (by apply Z.ltb_ge).
  rewrite Hl. cbn [orb]. unfold transact, append_checkpoint_in_transaction, tx_reject.
  rewrite Hne, Hl. cbn [orb]. unfold tx_bind at 1. cbn [reject_if tx_of].
  unfold tx_bind at 1. unfold ensure_owned_attempt, tx_bind at 1, tx_get. rewrite Hrow.
  unfold tx_bind, tx_reject, tx_of, ok_or.
  destruct (row_owned_by lease created_at row) eqn:Hown; cbn [negb reject_if]; [|done].
  destruct Hstale as [|Hatt]; [done|].
  destruct (job_attempts db !! attempt_id) as [a|]; [|done]. by rewrite (Hatt a).
Qed.

(** A checkpoint written by the attempt that holds the job, for the run it
    executes, makes the job a resume candidate when its lease is later assessed. *)
Theorem own_checkpoint_is_resumable job_id attempt_id lease c created_at db r db' records run row :
  json_wf (payload c) = true -> records_from_connection job_id db = Ok records ->
  active_checkpoint_lineage_is_valid job_id attempt_id db = true ->
  crawl_runs db !! run = Some row ->
  identity c = {| snapshot_id := run; identity_snapshot_hash := run_snapshot_hash row;
                  compatibility_hash := run_checkpoint_compatibility_hash row |} ->
  append_checkpoint job_id attempt_id lease c created_at db = (Ok r, db') ->
  assess_one_stale_job job_id (Some run) db' = Ok ResumeCandidate.
Proof.
  intros Hwf Hrec Hlineage Hrun Hi Happ. unfold append_checkpoint in Happ. destruct (_ || _); [done|].
  apply transact_ok in Happ.
  destruct (append_records _ _ _ _ _ _ _ _ _ Hwf Hrec Happ)
    as (r' & records' & Hrec' & Hlast & _ & _ & Hatt & _ & Hsame & _).
  apply append_checkpoint_inv in Happ as (_ & n & text & _ & Henc & Hr & _ & Hdb).
  unfold assess_one_stale_job. rewrite Hrec', Hlast, Hatt.
  assert (active_checkpoint_lineage_is_valid job_id attempt_id db' = true) as -> by (by rewrite Hdb).
  assert (crawl_runs db' !! run = Some row) as -> by (by rewrite Hdb).
  apply encode_ok in Henc as (Hval & _ & _). apply envelope_validate_ok in Hval as (_ & Hid & _).
  simpl in Hid. unfold identity_new. rewrite <- Hi, Hid.
  destruct Hsame as (_ & _ & Hsi & _). rewrite Hr in Hsi. simpl in Hsi. rewrite Hsi.
  by rewrite decide_True.
Qed.
End checkpoint_properties.

(** * Witnesses *)

(** A running job [j] of worker [w], with its attempt [a] of the run [r]. *)
Definition example_hash (c : string) : string := String.concat EmptyString (replicate 64 c).

Definition example_lease : JobLease :=
  {| lease_id := "L"; lease_owner := "w"; lease_generation := 1; lease_acquired_at := 10;
     lease_expires_at := 100; lease_heartbeat_at := 10 |}.

Definition leased_row : JobRow :=
  {| row_kind := "QUICK_SCRAPE"; row_priority := 0; row_state := Running; row_parent_job_id := None;
     row_crawl_run_id := Some "r"%string; row_scheduled_at := 0; row_current_attempt := 1;
     row_max_attempts := 3; row_lease_id := Some "L"%string; row_lease_owner := Some "w"%string;
     row_lease_generation := 1; row_lease_acquired_at := Some 10; row_lease_expires_at := Some 100;
     row_heartbeat_at := Some 10; row_failure_code := None; row_created_at := 0; row_updated_at := 10 |}.

Definition leased_attempt : AttemptRow :=
  {| att_job_id := "j"; att_number := 1; att_lease_id := "L"; att_lease_generation := 1;
     att_worker_id := "w"; att_started_at := 10; att_finished_at := None;
     att_outcome := AttemptRunning; att_failure_code := None |}.

Definition example_run : RunRow :=
  {| run_type := QuickScrape; run_status := RunRunning; run_crawler_id := None;
     run_crawler_version_id := None; run_snapshot_json := "{}"; run_snapshot_hash := example_hash "a";
     run_checkpoint_compatibility_hash := example_hash "b"; run_actor := "me"; run_created_at := "0" |}.

Definition leased_db : Db :=
  with_runs {["r"%string := example_run]} (with_attempts {["a"%string := leased_attempt]}
    (with_jobs {["j"%string := leased_row]} (empty_db ∅ ∅))).

Definition example_envelope : CheckpointEnvelope :=
  {| format_version := 1; ckpt_sequence := 1;
     identity := {| snapshot_id := "r"; identity_snapshot_hash := example_hash "a";
                    compatibility_hash := example_hash "b" |};
     payload_kind := "CRAWL"; payload := JObject [("page"%string, JNumber "3")] |}.

Definition example_checkpointed : result CheckpointRepositoryError CheckpointRecord * Db :=
  append_checkpoint (U := plain_uuid) (SD := plain_serde) "j" "a" example_lease example_envelope 20 leased_db.

Lemma example_records : records_from_connection (SD := plain_serde) "j" leased_db = Ok [].
Proof. vm_compute. reflexivity. Qed.

Lemma example_append : exists r,
  append_checkpoint (U := plain_uuid) (SD := plain_serde) "j" "a" example_lease example_envelope 20 leased_db
  = (Ok r, example_checkpointed.2).
Proof. eexists. vm_compute. reflexivity. Qed.

Lemma envelope_round_trip_witness :
  exists text e', encode_envelope (SD := plain_serde) example_envelope = Ok text /\
    decode_envelope (SD := plain_serde) text (byte_len text) = Ok e' /\
    same_envelope example_envelope e'.
Proof.
  assert (exists text, encode_envelope (SD := plain_serde) example_envelope = Ok text) as [text Henc]
    by (eexists; vm_compute; reflexivity).
  exists text.
  destruct (envelope_round_trip (SL := plain_serde_laws) example_envelope text) as (_ & e' & Hdec & Hsame).
  - vm_compute. reflexivity.
  - vm_compute. by split.
  - exact Henc.
  - by exists e'.
Defined.

Lemma appended_checkpoint_latest_witness :
  exists r r', latest (SD := plain_serde) "j" example_checkpointed.2 = Ok (Some r') /\
      record_id r' = record_id r.
Proof.
  destruct example_append as [r Hr]. exists r.
  destruct (appended_checkpoint_latest (U := plain_uuid) (SL := plain_serde_laws)
    "j" "a" example_lease example_envelope 20 leased_db r example_checkpointed.2 []) as ((r' & H1 & H2 & _) & _).
  - vm_compute. reflexivity.
  - apply example_records.
  - exact Hr.
  - exists r'. split; [exact H1|exact H2].
Defined.

(** At its expiry the lease no longer admits a checkpoint. *)
Lemma stale_checkpoint_refused_witness :
  append_checkpoint (U := plain_uuid) (SD := plain_serde) "j" "a" example_lease example_envelope 100 leased_db
  = (Err CkptLeaseLost, leased_db).
Proof.
  apply (stale_checkpoint_refused (U := plain_uuid) (SD := plain_serde)) with leased_row.
  - reflexivity.
  - reflexivity.
  - vm_compute. discriminate.
  - left. reflexivity.
Defined.

Lemma own_checkpoint_is_resumable_witness :
  assess_one_stale_job (SD := plain_serde) "j" (Some "r"%string) example_checkpointed.2 = Ok ResumeCandidate.
Proof.
  destruct example_append as [r Hr].
  apply (own_checkpoint_is_resumable (U := plain_uuid) (SL := plain_serde_laws)
    "j" "a" example_lease example_envelope 20 leased_db r example_checkpointed.2 [] "r" example_run).
  - vm_compute. reflexivity.
  - apply example_records.
  - vm_compute. reflexivity.
  - reflexivity.
  - reflexivity.
  - exact Hr.
Defined.
