(* ===== verification/Runs.v ===== *)
(** * Crawl runs

    [crates/erabi-db/src/repositories/run.rs]: the insertion of a run with its
    creation audit event and the reading of both, the transitions of its status, and
    the discovered URLs recorded as its evidence.  The decoding of a stored snapshot calls the derived
    deserializer of its fields ([SnapshotWire]). *)

From stdpp Require Import pretty.
From S2P Require Import Prelude Externals JsonFacts Base Instances Settings Snapshot.
From S2P Require Import TraversalTables Store TraversalStore.

Inductive CrawlRunRepositoryError :=
| RunDatabase (e : DbError)
| RunNotFound.

Section runs.
Context `{U : UuidLib} `{L : UrlLib} `{SD : SerdeLib}.

(** The serde form of a snapshot: its draft's fields and the two hashes. *)
Definition snapshot_json (s : CrawlRunSnapshot) : Json :=
  match draft_json (snapshot_draft s) with
  | JObject fields => JObject (fields ++ [("snapshot_hash"%string, JString (snapshot_hash s));
      ("checkpoint_compatibility_hash"%string, JString (checkpoint_compatibility_hash s))])
  | v => v
  end.

Definition robots_audit_payload (s : CrawlRunSnapshot) : string :=
  let robots := draft_robots (snapshot_draft s) in
  json_to_string (JObject
    ([("robots"%string, decision_json (robots_decision robots));
      ("actor"%string, JString (robots_actor robots));
      ("decision_at"%string, JString (decided_at robots));
      ("affected_scope"%string, JString (affected_scope robots));
      ("user_agent"%string, JString (robots_user_agent robots))]
     ++ match draft_configuration (snapshot_draft s) with
        | ConfCrawlerVersion crawler_id crawler_version_id _ =>
          [("crawler_id"%string, JString (id_to_string crawler_id));
           ("crawler_version_id"%string, JString (id_to_string crawler_version_id))]
        | ConfQuickScrape _ _ => []
        end)).

Definition insert_run_in_transaction (id : CrawlRunId) (status : CrawlRunStatus)
    (s : CrawlRunSnapshot) (serialized : string) : Tx DbError unit :=
  let d := snapshot_draft s in
  let ids :=
    match draft_configuration d with
    | ConfCrawlerVersion crawler_id crawler_version_id _ =>
      (Some (id_to_string crawler_id), Some (id_to_string crawler_version_id))
    | ConfQuickScrape _ _ => (None, None)
    end in
  let! _ := insert_run (id_to_string id)
    {| run_type := draft_run_type d; run_status := status; run_crawler_id := ids.1;
       run_crawler_version_id := ids.2; run_snapshot_json := serialized;
       run_snapshot_hash := snapshot_hash s;
       run_checkpoint_compatibility_hash := checkpoint_compatibility_hash s;
       run_actor := draft_actor d; run_created_at := draft_created_at d |} in
  insert_audit ("run:" ++ id_to_string id)
    {| audit_event_type := "CRAWL_RUN_CREATED"; audit_actor := draft_actor d;
       audit_occurred_at := draft_created_at d; audit_entity_type := "CRAWL_RUN";
       audit_entity_id := id_to_string id; audit_payload_json := robots_audit_payload s |}.

(** The statuses each execution status may be entered from. *)
Definition execution_sources (s : CrawlRunStatus) : option (list CrawlRunStatus) :=
  match s with
  | RunRunning => Some [RunQueued; RunRunning]
  | RunSucceeded => Some [RunQueued; RunRunning; RunSucceeded]
  | RunPartialResult => Some [RunQueued; RunRunning; RunPartialResult]
  | RunFailed => Some [RunQueued; RunRunning; RunFailed]
  | RunQueued | RunCancelled => None
  end.

(** An update that must change the row, or tell a missing run from an illegal step. *)
Definition transition_from (from : list CrawlRunStatus) (s : CrawlRunStatus) (illegal : string)
    (id : CrawlRunId) : Tx CrawlRunRepositoryError unit :=
  let! changed := tx_map_err RunDatabase (update_run_status (id_to_string id) from s) in
  if Nat.eqb changed 1 then tx_ret tt
  else
    let! db := tx_get in
    tx_fail (if bool_decide (is_Some (crawl_runs db !! id_to_string id))
      then RunDatabase (DbInvariant illegal) else RunNotFound).

Definition transition_execution_status_in_transaction (id : CrawlRunId) (s : CrawlRunStatus)
    : Tx CrawlRunRepositoryError unit :=
  match execution_sources s with
  | Some from => transition_from from s "Crawl Run lifecycle transition is not legal" id
  | None => tx_fail (RunDatabase (DbInvariant
      "execution workers cannot directly set queued or cancelled run status"))
  end.

Definition cancel_execution_status_in_transaction : CrawlRunId -> Tx CrawlRunRepositoryError unit :=
  transition_from [RunQueued; RunRunning; RunCancelled] RunCancelled
    "Crawl Run cancellation transition is not legal".

Definition transition_execution_status (id : CrawlRunId) (s : CrawlRunStatus) (db : Db)
    : result CrawlRunRepositoryError unit * Db :=
  transact (transition_execution_status_in_transaction id s) db.

Definition transition_recovery_status (id : CrawlRunId) (db : Db)
    : result CrawlRunRepositoryError unit * Db :=
  transact (transition_from [RunQueued; RunRunning; RunFailed; RunCancelled; RunPartialResult]
    RunRunning "Crawl Run recovery transition is not legal" id) db.

Definition transition_restart_status (id : CrawlRunId) (db : Db)
    : result CrawlRunRepositoryError unit * Db :=
  transact (transition_from
    [RunQueued; RunRunning; RunSucceeded; RunFailed; RunCancelled; RunPartialResult]
    RunRunning "Crawl Run restart transition is not legal" id) db.

Definition run_status_of (id : CrawlRunId) (db : Db) : result CrawlRunRepositoryError CrawlRunStatus :=
  ok_or RunNotFound (run_status <$> crawl_runs db !! id_to_string id).

(** ** Discovered URLs *)

Record DiscoveredUrlRecord := {
  dr_id : string;
  dr_crawl_run_id : CrawlRunId;
  dr_source_id : option SourceId;
  dr_raw_href : option string;
  dr_original_url : string;
  dr_canonical_url : string;
  dr_status : string;
  dr_discovered_at : string;
  dr_detail : Json
}.

Definition crawl_identity_url (value : string) : bool :=
  match url_parse value with
  | None => false
  | Some parsed =>
    Nat.leb (char_count value) 4096 && negb (has_control value)
    && http_or_https (url_scheme parsed) && is_some (url_host_str parsed)
    && str_is_empty (url_username parsed) && is_none (url_password parsed)
    && is_none (url_fragment parsed)
  end.

Definition validate_discovered_url_record (r : DiscoveredUrlRecord) : result DbError unit :=
  let? _ := reject_if
    (match uuid_parse_str (dr_id r) with Some id => negb (uuid_version id =? 7) | None => true end
     || str_is_empty (dr_status r) || (128 <? byte_len (dr_status r))
     || existsb (fun byte => negb (is_ascii_upper byte) && negb (byte =? 95)) (bytes (dr_status r))
     || blank (dr_discovered_at r) || Nat.ltb 256 (char_count (dr_discovered_at r)))
    (DbInvariant "discovered URL evidence is invalid") in
  let? _ := for_each (fun value =>
    reject_if (negb (crawl_identity_url value)) (DbInvariant "discovered URL is invalid"))
    [dr_original_url r; dr_canonical_url r] in
  reject_if (match dr_raw_href r with
    | Some value => Nat.ltb 4096 (char_count value) || has_control value
    | None => false
    end) (DbInvariant "discovered href is invalid").

Definition discovered_row (r : DiscoveredUrlRecord) : DiscoveredUrlRow :=
  {| du_run := id_to_string (dr_crawl_run_id r); du_source_id := id_to_string <$> dr_source_id r;
     du_raw_href := dr_raw_href r; du_original_url := dr_original_url r;
     du_canonical_url := dr_canonical_url r; du_status := dr_status r;
     du_discovered_at := dr_discovered_at r; du_detail_json := json_to_string (dr_detail r) |}.

Definition record_discovered_url_values (r : DiscoveredUrlRecord) : Tx CrawlRunRepositoryError unit :=
  tx_map_err RunDatabase (insert_discovered_url (dr_id r) (discovered_row r)).

(** The row holds the record's evidence, the time of observation aside. *)
Definition same_evidence (row : DiscoveredUrlRow) (persisted_detail : Json) (r : DiscoveredUrlRecord)
    : bool :=
  String.eqb (du_run row) (id_to_string (dr_crawl_run_id r))
  && bool_decide (du_source_id row = id_to_string <$> dr_source_id r)
  && bool_decide (du_raw_href row = dr_raw_href r)
  && String.eqb (du_original_url row) (dr_original_url r)
  && String.eqb (du_canonical_url row) (dr_canonical_url r)
  && String.eqb (du_status row) (dr_status r) && json_eqb (dr_detail r) persisted_detail.

Definition record_discovered_url_in_transaction (r : DiscoveredUrlRecord)
    : Tx CrawlRunRepositoryError unit :=
  let! _ := tx_of (map_err RunDatabase (validate_discovered_url_record r)) in
  let! db := tx_get in
  match discovered_urls (traversal db) !! dr_id r with
  | Some row =>
    let! persisted_detail := tx_of (ok_or
      (RunDatabase (DbInvariant "stored discovered URL detail is invalid"))
      (json_from_str (du_detail_json row))) in
    tx_reject (negb (same_evidence row persisted_detail r)) (RunDatabase (DbInvariant
      "discovered URL identity was replayed with conflicting immutable evidence"))
  | None => record_discovered_url_values r
  end.

Definition record_discovered_url (r : DiscoveredUrlRecord) (db : Db)
    : result CrawlRunRepositoryError unit * Db :=
  match validate_discovered_url_record r with
  | Err e => (Err (RunDatabase e), db)
  | Ok _ =>
    transact (
      let! db := tx_get in
      let! _ := tx_reject (negb (bool_decide (is_Some (crawl_runs db !! id_to_string (dr_crawl_run_id r)))))
        RunNotFound in
      record_discovered_url_values r) db
  end.

Definition discovered_record (run_id : CrawlRunId) (id : string) (row : DiscoveredUrlRow)
    : result CrawlRunRepositoryError DiscoveredUrlRecord :=
  let? source := match du_source_id row with
    | None => Ok None
    | Some value =>
      let? s := ok_or (RunDatabase (DbInvariant "stored discovered URL source identity is invalid"))
        (uuid_parse_str value ≫= from_uuid) in Ok (Some s)
    end in
  let? detail := ok_or (RunDatabase (DbInvariant "stored discovered URL detail is invalid"))
    (json_from_str (du_detail_json row)) in
  let r := {| dr_id := id; dr_crawl_run_id := run_id; dr_source_id := source;
              dr_raw_href := du_raw_href row; dr_original_url := du_original_url row;
              dr_canonical_url := du_canonical_url row; dr_status := du_status row;
              dr_discovered_at := du_discovered_at row; dr_detail := detail |} in
  let? _ := map_err RunDatabase (validate_discovered_url_record r) in
  Ok r.

Definition discovered_urls_of (run_id : CrawlRunId) (db : Db)
    : result CrawlRunRepositoryError (list DiscoveredUrlRecord) :=
  let? _ := reject_if (negb (bool_decide (is_Some (crawl_runs db !! id_to_string run_id)))) RunNotFound in
  collect (fun e => discovered_record run_id e.1 e.2)
    (sort_by (cmp_on (fun e : string * DiscoveredUrlRow => (du_discovered_at e.2, e.1))
       (cmp_pair String.compare String.compare))
      (select_where (fun _ row => String.eqb (du_run row) (id_to_string run_id))
        (discovered_urls (traversal db)))).
End runs.

(** The derived deserializer of a snapshot's fields: the draft and the two hashes. *)
Class SnapshotWire `{U : UuidLib} `{L : UrlLib} := {
  snapshot_wire : string -> option (CrawlRunSnapshotDraft * string * string)
}.

(** [serde_json::from_str::<CrawlRunSnapshot>]. *)
Definition snapshot_from_str `{U : UuidLib} `{L : UrlLib} `{J : JsonLib} `{H : HashLib}
    `{W : !SnapshotWire} (text : string) : option CrawlRunSnapshot :=
  match snapshot_wire text with
  | Some (draft, hash, compatibility_hash) =>
    match rehydrate draft hash compatibility_hash with Ok s => Some s | Err _ => None end
  | None => None
  end.

(** ** Creation and reading *)

Section run_reads.
Context `{U : UuidLib} `{L : UrlLib} `{SD : SerdeLib} `{J : JsonLib} `{H : HashLib} `{W : !SnapshotWire}.

Definition create (id : CrawlRunId) (status : CrawlRunStatus) (s : CrawlRunSnapshot) (db : Db)
    : result DbError unit * Db :=
  transact (insert_run_in_transaction id status s (json_to_string (snapshot_json s))) db.

(** The text of a decoding error is left out of the message. *)
Definition snapshot_by_stored_id (stored_id : string) (db : Db)
    : result CrawlRunRepositoryError CrawlRunSnapshot :=
  let? row := ok_or RunNotFound (crawl_runs db !! stored_id) in
  let? snapshot := ok_or (RunDatabase (DbInvariant "stored CrawlRunSnapshot is invalid"))
    (snapshot_from_str (run_snapshot_json row)) in
  let? _ := reject_if (negb (String.eqb (snapshot_hash snapshot) (run_snapshot_hash row)))
    (RunDatabase (DbInvariant
      "stored CrawlRunSnapshot hash column does not match snapshot JSON")) in
  let? _ := reject_if (negb (String.eqb (checkpoint_compatibility_hash snapshot)
      (run_checkpoint_compatibility_hash row)))
    (RunDatabase (DbInvariant
      "stored CrawlRunSnapshot checkpoint hash column does not match snapshot JSON")) in
  Ok snapshot.

Definition snapshot_of (id : CrawlRunId) (db : Db) : result CrawlRunRepositoryError CrawlRunSnapshot :=
  snapshot_by_stored_id (id_to_string id) db.

Definition creation_event (stored_id : string) (db : Db) : option AuditRow :=
  match audit_events db !! ("run:" ++ stored_id)%string with
  | Some a => if String.eqb (audit_event_type a) "CRAWL_RUN_CREATED" then Some a else None
  | None => None
  end.

Definition created_audit_payload (id : CrawlRunId) (db : Db) : result DbError Json :=
  let? a := ok_or no_rows (creation_event (id_to_string id) db) in
  ok_or (DbInvariant "stored Crawl Run audit payload is invalid") (json_from_str (audit_payload_json a)).

Definition created_audit_occurred_at_by_stored_id (stored_id : string) (db : Db)
    : result CrawlRunRepositoryError string :=
  let? a := ok_or RunNotFound (creation_event stored_id db) in Ok (audit_occurred_at a).
End run_reads.

(** * Lemmas *)

(** The status update changes the status of one run, or nothing. *)
Lemma update_run_status_inv id from s db n db' :
  update_run_status id from s db = Ok (n, db') ->
  (n = 1%nat /\ exists r, crawl_runs db !! id = Some r /\ run_status r ∈ from /\
     db' = with_runs (<[id := set_run_status s r]> (crawl_runs db)) db) \/
  (n = 0%nat /\ db' = db /\ forall r, crawl_runs db !! id = Some r -> run_status r ∉ from).
Proof.
  unfold update_run_status.
  destruct (crawl_runs db !! id) as [r|] eqn:Hr; [destruct (decide (run_status r ∈ from)) as [Hin|Hin]|].
  - rewrite (update_where_selects _ _ _ _ id r).
    + intros [= <- <-]. left. split; [done|]. by exists r.
    + apply (selects_key (fun r => bool_decide (run_status r ∈ from))); [done|].
      by apply bool_decide_eq_true_2.
  - rewrite update_where_none.
    + intros [= <- <-]. right. split; [done|]. split; [by destruct db|]. intros r' [= <-]. done.
    + intros k x Hk. destruct (String.eqb_spec k id) as [-> |]; [|done]. simpl.
      apply bool_decide_eq_false_2. congruence.
  - rewrite update_where_none.
    + intros [= <- <-]. right. split; [done|]. split; [by destruct db|]. done.
    + intros k x Hk. destruct (String.eqb_spec k id) as [-> |]; [|done]. congruence.
Qed.

Section run_lemmas.
Context `{U : UuidLib} `{L : UrlLib} `{SD : SerdeLib}.

Lemma transition_from_inv from s m id db u db' :
  transition_from from s m id db = Ok (u, db') ->
  exists r, crawl_runs db !! id_to_string id = Some r /\ run_status r ∈ from /\
    db' = with_runs (<[id_to_string id := set_run_status s r]> (crawl_runs db)) db.
Proof.
  intros H. unfold transition_from in H. tx_step H.
  apply update_run_status_inv in Hs as [[-> Hr]|[-> _]]; simpl in H; tx_step H. done.
Qed.

Lemma insert_run_inv id r db u db' :
  insert_run id r db = Ok (u, db') ->
  crawl_runs db !! id = None /\ db' = with_runs (<[id := r]> (crawl_runs db)) db.
Proof. unfold insert_run. destruct (_ && _) eqn:Hc; [|done]. intros [= <- <-]. by boolify. Qed.

Lemma insert_audit_inv id a db u db' :
  insert_audit id a db = Ok (u, db') -> db' = with_audit (<[id := a]> (audit_events db)) db.
Proof. unfold insert_audit. case_bool_decide; [|done]. by intros [= <- <-]. Qed.
End run_lemmas.
