(* ===== verification/Traversal.v ===== *)
(** * Logical crawl work

    [crates/erabi-db/src/repositories/crawl_traversal.rs]: the authoritative state of a
    crawl's work: its initialization, the discovery boundaries that extend it, redirects
    between its URLs, the recovery model read back from it, and the preparation of a
    recovery action.

    The fields a record shares with its row are [UrlStateColumns] and [ControlColumns];
    run identifiers are compared by their text. *)

From S2P Require Import Prelude Externals JsonFacts Base Instances Settings Snapshot.
From S2P Require Import TraversalTables Store TraversalStore Progress Checkpoint Runs.

Definition MAX_URL_CHARS : Z := 4096.

Inductive CrawlTraversalRepositoryError :=
| TrCrawlRunNotFound | TrInvalidState | TrCorruptState
| TrDatabase (e : DbError)
| TrCheckpoint (e : CheckpointRepositoryError)
| TrDiscovery (e : CrawlRunRepositoryError).

(** ** Data *)

Record CrawlUrlStateRecord := {
  st_id : string;
  st_columns : UrlStateColumns;
  st_seed_provenance : list string
}.

Record CrawlTraversalControl := {
  ctl_run : string;
  ctl_columns : ControlColumns
}.

Record CrawlTransitionSourceCount := {
  tc_transition_id : string;
  tc_source_url_state_id : string;
  tc_eligible_edge_count : Z
}.

Record CrawlTraversalUrlSemanticState := {
  sem_canonical_url : string;
  sem_sampled : bool;
  sem_expanded : bool;
  sem_in_scope : bool;
  sem_page_type_match_state : option CrawlPageTypeMatchState
}.

Record CrawlTraversalPageTypeCounts := {
  pc_page_type_id : string;
  pc_sampled_count : Z;
  pc_discovered_count : Z
}.

Record CrawlTraversalSemanticProjection := {
  url_states : list CrawlTraversalUrlSemanticState;
  projection_page_type_counts : list CrawlTraversalPageTypeCounts
}.

Record CrawlRedirectReconciliation := {
  alias_url_state_id : string;
  final_url_state_id : string;
  alias_canonical_url : string;
  final_canonical_url : string
}.

Record CrawlInFlightWork := {
  flight_state_id : string;
  expected_work_generation : option Z
}.

Record ReconstructedTraversalState := {
  rec_control : CrawlTraversalControl;
  rec_work : list CrawlUrlStateRecord;
  rec_transition_source_counts : list CrawlTransitionSourceCount;
  rec_page_type_counts : list CrawlTraversalPageTypeCounts
}.

Record CrawlRecoveryActionSelection := {
  sel_action_job_id : string;
  sel_run : string;
  sel_kind : CrawlRecoveryActionKind;
  sel_state_ids : list string
}.

#[export] Instance control_eq_dec : EqDecision CrawlTraversalControl.
Proof. solve_decision. Defined.

(** ** Conversions

    Unsigned counters are stored in [INTEGER] columns. *)

Definition as_u64 (value : Z) : result CrawlTraversalRepositoryError Z :=
  if 0 <=? value then Ok value else Err TrCorruptState.

Definition as_u32 (value : Z) : result CrawlTraversalRepositoryError Z :=
  if (0 <=? value) && (value <=? u32_max) then Ok value else Err TrCorruptState.

Definition i64_from (value : Z) : result CrawlTraversalRepositoryError Z :=
  if value <=? i64_max then Ok value else Err TrInvalidState.

(** [value.map(f).transpose()] *)
Definition transpose {E A B} (f : A -> result E B) (o : option A) : result E (option B) :=
  match o with Some a => let? b := f a in Ok (Some b) | None => Ok None end.

(** [db(error)] *)
Definition dbt {A} (t : Tx DbError A) : Tx CrawlTraversalRepositoryError A := tx_map_err TrDatabase t.

(** *** Changes of columns *)

Definition set_work (generation : Z) (state : option CrawlWorkState) (execution : option string)
    (c : UrlStateColumns) : UrlStateColumns :=
  {| us_run := us_run c; us_canonical_url := us_canonical_url c;
     us_first_discovered_url_id := us_first_discovered_url_id c;
     us_requested_url := us_requested_url c; us_parent_url_state_id := us_parent_url_state_id c;
     us_parent_discovered_url_id := us_parent_discovered_url_id c;
     us_admission_state := us_admission_state c; us_preserve_reason := us_preserve_reason c;
     us_resolved_to_url_state_id := us_resolved_to_url_state_id c;
     us_admission_sequence := us_admission_sequence c; us_depth := us_depth c;
     us_target_page_type_id := us_target_page_type_id c; us_transition_id := us_transition_id c;
     us_pagination := us_pagination c; us_final_canonical_url := us_final_canonical_url c;
     us_current_work_state := state; us_work_generation := generation;
     us_current_execution_id := execution; us_seen := us_seen c; us_sampled := us_sampled c;
     us_expanded := us_expanded c; us_in_scope := us_in_scope c;
     us_page_type_match_state := us_page_type_match_state c |}.

Definition set_semantics (v : CrawlTraversalUrlSemanticState) (c : UrlStateColumns) : UrlStateColumns :=
  {| us_run := us_run c; us_canonical_url := us_canonical_url c;
     us_first_discovered_url_id := us_first_discovered_url_id c;
     us_requested_url := us_requested_url c; us_parent_url_state_id := us_parent_url_state_id c;
     us_parent_discovered_url_id := us_parent_discovered_url_id c;
     us_admission_state := us_admission_state c; us_preserve_reason := us_preserve_reason c;
     us_resolved_to_url_state_id := us_resolved_to_url_state_id c;
     us_admission_sequence := us_admission_sequence c; us_depth := us_depth c;
     us_target_page_type_id := us_target_page_type_id c; us_transition_id := us_transition_id c;
     us_pagination := us_pagination c; us_final_canonical_url := us_final_canonical_url c;
     us_current_work_state := us_current_work_state c; us_work_generation := us_work_generation c;
     us_current_execution_id := us_current_execution_id c; us_seen := us_seen c;
     us_sampled := sem_sampled v; us_expanded := sem_expanded v; us_in_scope := sem_in_scope v;
     us_page_type_match_state := sem_page_type_match_state v |}.

(** An alias whose URL redirects to the state [final_id]. *)
Definition set_resolved (final_id final_url : string) (c : UrlStateColumns) : UrlStateColumns :=
  {| us_run := us_run c; us_canonical_url := us_canonical_url c;
     us_first_discovered_url_id := us_first_discovered_url_id c;
     us_requested_url := us_requested_url c; us_parent_url_state_id := us_parent_url_state_id c;
     us_parent_discovered_url_id := us_parent_discovered_url_id c;
     us_admission_state := Resolved; us_preserve_reason := Some "CANONICAL_REDIRECT"%string;
     us_resolved_to_url_state_id := Some final_id; us_admission_sequence := None; us_depth := None;
     us_target_page_type_id := None; us_transition_id := None; us_pagination := us_pagination c;
     us_final_canonical_url := Some final_url; us_current_work_state := None;
     us_work_generation := us_work_generation c; us_current_execution_id := None;
     us_seen := us_seen c; us_sampled := false; us_expanded := false; us_in_scope := false;
     us_page_type_match_state := None |}.

(** [COALESCE(a, b)] *)
Definition coalesce {A} (a b : option A) : option A := match a with Some _ => a | None => b end.

(** The update of pending work by a later observation [n] of its URL. *)
Definition merge_pending (n c : UrlStateColumns) : UrlStateColumns :=
  {| us_run := us_run c; us_canonical_url := us_canonical_url c;
     us_first_discovered_url_id := coalesce (us_first_discovered_url_id c) (us_first_discovered_url_id n);
     us_requested_url := us_requested_url n;
     us_parent_url_state_id := coalesce (us_parent_url_state_id n) (us_parent_url_state_id c);
     us_parent_discovered_url_id :=
       coalesce (us_parent_discovered_url_id c) (us_parent_discovered_url_id n);
     us_admission_state := us_admission_state c; us_preserve_reason := us_preserve_reason c;
     us_resolved_to_url_state_id := us_resolved_to_url_state_id c;
     us_admission_sequence := us_admission_sequence n; us_depth := us_depth n;
     us_target_page_type_id := us_target_page_type_id n; us_transition_id := us_transition_id n;
     us_pagination := us_pagination n;
     us_final_canonical_url := coalesce (us_final_canonical_url n) (us_final_canonical_url c);
     us_current_work_state := us_current_work_state c; us_work_generation := us_work_generation c;
     us_current_execution_id := us_current_execution_id c; us_seen := us_seen c;
     us_sampled := us_sampled c; us_expanded := us_expanded c; us_in_scope := us_in_scope c;
     us_page_type_match_state := us_page_type_match_state c |}.

(** The update of work that is under way, finished or not admitted. *)
Definition merge_settled (n c : UrlStateColumns) : UrlStateColumns :=
  {| us_run := us_run c; us_canonical_url := us_canonical_url c;
     us_first_discovered_url_id := coalesce (us_first_discovered_url_id c) (us_first_discovered_url_id n);
     us_requested_url := us_requested_url c; us_parent_url_state_id := us_parent_url_state_id c;
     us_parent_discovered_url_id :=
       coalesce (us_parent_discovered_url_id c) (us_parent_discovered_url_id n);
     us_admission_state := us_admission_state c; us_preserve_reason := us_preserve_reason c;
     us_resolved_to_url_state_id := us_resolved_to_url_state_id c;
     us_admission_sequence := us_admission_sequence c; us_depth := us_depth c;
     us_target_page_type_id := us_target_page_type_id c; us_transition_id := us_transition_id c;
     us_pagination := us_pagination c;
     us_final_canonical_url := coalesce (us_final_canonical_url c) (us_final_canonical_url n);
     us_current_work_state := us_current_work_state c; us_work_generation := us_work_generation c;
     us_current_execution_id := us_current_execution_id c; us_seen := us_seen c;
     us_sampled := us_sampled c; us_expanded := us_expanded c; us_in_scope := us_in_scope c;
     us_page_type_match_state := us_page_type_match_state c |}.

(** The columns of a row that holds the work of [alias] under another URL. *)
Definition redirected_copy (final_url : string) (c : UrlStateColumns) : UrlStateColumns :=
  {| us_run := us_run c; us_canonical_url := final_url;
     us_first_discovered_url_id := us_first_discovered_url_id c;
     us_requested_url := us_requested_url c; us_parent_url_state_id := us_parent_url_state_id c;
     us_parent_discovered_url_id := us_parent_discovered_url_id c;
     us_admission_state := us_admission_state c; us_preserve_reason := us_preserve_reason c;
     us_resolved_to_url_state_id := us_resolved_to_url_state_id c;
     us_admission_sequence := us_admission_sequence c; us_depth := us_depth c;
     us_target_page_type_id := us_target_page_type_id c; us_transition_id := us_transition_id c;
     us_pagination := us_pagination c; us_final_canonical_url := None;
     us_current_work_state := us_current_work_state c; us_work_generation := us_work_generation c;
     us_current_execution_id := None; us_seen := true; us_sampled := us_sampled c;
     us_expanded := us_expanded c; us_in_scope := us_in_scope c;
     us_page_type_match_state := us_page_type_match_state c |}.

(** ** Validation *)

Definition validate_state (s : CrawlUrlStateRecord) : result CrawlTraversalRepositoryError unit :=
  let c := st_columns s in
  let? _ := reject_if (str_is_empty (st_id s) || str_is_empty (us_canonical_url c)
    || (MAX_URL_CHARS <? byte_len (us_canonical_url c)) || str_is_empty (us_requested_url c)
    || (MAX_URL_CHARS <? byte_len (us_requested_url c))) TrInvalidState in
  let? _ := reject_if (negb (us_seen c) || us_expanded c && negb (us_sampled c)) TrInvalidState in
  let? _ := reject_if (negb (Bool.eqb (us_in_scope c) (is_some (us_page_type_match_state c))))
    TrInvalidState in
  reject_if (negb match us_admission_state c with
    | AdmittedWork =>
      is_none (us_preserve_reason c) && is_none (us_resolved_to_url_state_id c)
      && is_some (us_admission_sequence c) && is_some (us_depth c) && is_some (us_current_work_state c)
    | PreserveOnly =>
      is_some (us_preserve_reason c) && is_none (us_resolved_to_url_state_id c)
      && is_none (us_admission_sequence c) && is_none (us_depth c)
      && is_none (us_target_page_type_id c) && is_none (us_transition_id c)
      && is_none (us_current_work_state c) && is_none (us_current_execution_id c)
      && negb (us_sampled c) && negb (us_expanded c)
    | Resolved =>
      bool_decide (us_preserve_reason c = Some "CANONICAL_REDIRECT"%string)
      && is_some (us_resolved_to_url_state_id c) && is_none (us_admission_sequence c)
      && is_none (us_depth c) && is_none (us_target_page_type_id c) && is_none (us_transition_id c)
      && is_none (us_current_work_state c) && is_none (us_current_execution_id c)
    end) TrInvalidState.

(** The fields a replayed initialization must find again. *)
Definition initial_state_matches (persisted expected : CrawlUrlStateRecord) : bool :=
  let p := st_columns persisted in
  let e := st_columns expected in
  String.eqb (st_id persisted) (st_id expected) && String.eqb (us_run p) (us_run e)
  && String.eqb (us_canonical_url p) (us_canonical_url e)
  && String.eqb (us_requested_url p) (us_requested_url e)
  && bool_decide (us_first_discovered_url_id p = us_first_discovered_url_id e)
  && bool_decide (us_parent_url_state_id p = us_parent_url_state_id e)
  && bool_decide (us_parent_discovered_url_id p = us_parent_discovered_url_id e)
  && bool_decide (us_admission_state p = us_admission_state e)
  && bool_decide (us_preserve_reason p = us_preserve_reason e)
  && bool_decide (us_resolved_to_url_state_id p = us_resolved_to_url_state_id e)
  && bool_decide (us_admission_sequence p = us_admission_sequence e)
  && bool_decide (us_depth p = us_depth e)
  && bool_decide (us_target_page_type_id p = us_target_page_type_id e)
  && bool_decide (us_transition_id p = us_transition_id e)
  && Bool.eqb (us_pagination p) (us_pagination e)
  && bool_decide (us_final_canonical_url p = us_final_canonical_url e)
  && forallb (fun seed => bool_decide (seed ∈ st_seed_provenance persisted)) (st_seed_provenance expected).

Section traversal.
Context `{U : UuidLib} `{L : UrlLib} `{SD : SerdeLib} `{J : JsonLib} `{Hash : HashLib} `{W : !SnapshotWire}.

Definition ensure_run (run : string) : Tx CrawlTraversalRepositoryError unit :=
  let! db := tx_get in
  tx_reject (negb (bool_decide (is_Some (crawl_runs db !! run)))) TrCrawlRunNotFound.

(** *** Ownership *)

Definition version_owns (owner version : option string) : bool :=
  match owner, version with Some o, Some v => String.eqb o v | _, _ => false end.

(** [require_same_run_reference]: [EXISTS(SELECT 1 FROM table WHERE crawl_run_id = run AND id = k)]. *)
Definition same_run_state (run : string) (k : string) (db : Db) : bool :=
  match crawl_url_state (traversal db) !! k with Some c => String.eqb (us_run c) run | None => false end.

Definition validate_state_relationships (s : CrawlUrlStateRecord) (run : string) : Tx CrawlTraversalRepositoryError unit :=
  let c := st_columns s in
  let! db := tx_get in
  let! _ := tx_reject (negb (discovered_in run (us_first_discovered_url_id c) db)) TrInvalidState in
  let! _ := tx_reject (negb (discovered_in run (us_parent_discovered_url_id c) db)) TrInvalidState in
  let other o := match o with
    | Some k => negb (String.eqb k (st_id s)) && same_run_state run k db
    | None => true
    end in
  let! _ := tx_reject (negb (other (us_parent_url_state_id c))) TrInvalidState in
  let! _ := tx_reject (negb (other (us_resolved_to_url_state_id c))) TrInvalidState in
  match us_current_execution_id c with
  | None => tx_ret tt
  | Some e =>
    let! generation := tx_of (i64_from (us_work_generation c)) in
    tx_reject (negb match execution_results (traversal db) !! e with
      | Some row => String.eqb (ex_run row) run && bool_decide (ex_url_state_id row = Some (st_id s))
                    && (ex_work_generation row =? generation)
      | None => false
      end) TrInvalidState
  end.

Definition validate_state_ownership (s : CrawlUrlStateRecord) (run : string) : Tx CrawlTraversalRepositoryError unit :=
  let c := st_columns s in
  let! _ := tx_reject (negb (String.eqb (us_run c) run)) TrInvalidState in
  let! db := tx_get in
  let! row := tx_of (ok_or (TrDatabase no_rows) (crawl_runs db !! run)) in
  let version := run_crawler_version_id row in
  let! selected_seed_ids := tx_of (match st_seed_provenance s with
    | [] => Ok None
    | _ =>
      let? snapshot := ok_or TrInvalidState (snapshot_from_str (run_snapshot_json row)) in
      Ok (Some (map id_to_string (draft_selected_seed_ids (snapshot_draft snapshot))))
    end) in
  let! _ := tx_reject (match us_target_page_type_id c with
    | Some k =>
      negb (match version with Some v => negb (str_is_empty v) && negb (str_is_empty k) | None => false end)
      || negb (version_owns (page_types (catalogue db) !! k) version)
    | None => false
    end) TrInvalidState in
  let! _ := tx_reject (match us_transition_id c with
    | Some k => negb (version_owns (tr_version_id <$> discovery_transitions (catalogue db) !! k) version)
    | None => false
    end) TrInvalidState in
  let! _ := tx_of (for_each (fun seed => reject_if
      (match selected_seed_ids with Some l => negb (bool_decide (seed ∈ l)) | None => false end
       || negb (version_owns (seeds (catalogue db) !! seed) version)) TrInvalidState)
    (st_seed_provenance s)) in
  validate_state_relationships s run.

(** *** Seed provenance *)

Definition provenance_of (state : string) (db : Db) : list (string * string * Z) :=
  filter (fun kv => String.eqb kv.1.1 state = true) (map_to_list (seed_provenance (traversal db))).

Definition read_seed_provenance (state : string) (db : Db) : list string :=
  map (fun kv => kv.1.2)
    (sort_by (cmp_on (fun kv : string * string * Z => (kv.2, kv.1.2)) (cmp_pair Z.compare String.compare))
      (provenance_of state db)).

(** [COALESCE(MAX(ordinal), -1) + 1] *)
Definition next_ordinal (state : string) (db : Db) : Z :=
  foldr Z.max (-1) (map snd (provenance_of state db)) + 1.

Definition insert_seed_provenance_value (s : CrawlUrlStateRecord) (seed : string) : Tx CrawlTraversalRepositoryError unit :=
  let! db := tx_get in
  let! _ := tx_reject (negb (version_owns (seeds (catalogue db) !! seed)
    (crawl_runs db !! us_run (st_columns s) ≫= run_crawler_version_id))) TrInvalidState in
  if bool_decide (is_Some (seed_provenance (traversal db) !! (st_id s, seed))) then tx_ret tt
  else dbt (insert_seed_provenance_row (st_id s) seed (next_ordinal (st_id s) db)).

Definition insert_seed_provenance (s : CrawlUrlStateRecord) : Tx CrawlTraversalRepositoryError unit :=
  tx_each (insert_seed_provenance_value s) (st_seed_provenance s).

Definition append_seed_provenance (s : CrawlUrlStateRecord) (seed_ids : list string) : Tx CrawlTraversalRepositoryError unit :=
  let merged := foldl (fun merged seed => if bool_decide (seed ∈ merged) then merged else merged ++ [seed])
    (st_seed_provenance s) seed_ids in
  tx_each (insert_seed_provenance_value s) (drop (length (st_seed_provenance s)) merged).

(** *** Reading states *)

Definition record_of_row (db : Db) (id : string) (c : UrlStateColumns)
    : result CrawlTraversalRepositoryError CrawlUrlStateRecord :=
  let? _ := transpose as_u64 (us_admission_sequence c) in
  let? _ := transpose as_u32 (us_depth c) in
  let? _ := as_u64 (us_work_generation c) in
  let s := {| st_id := id; st_columns := c; st_seed_provenance := read_seed_provenance id db |} in
  let? _ := validate_state s in
  Ok s.

Definition at_canonical (run canonical_url : string) (_ : string) (c : UrlStateColumns) : bool :=
  String.eqb (us_run c) run && String.eqb (us_canonical_url c) canonical_url.

Definition row_by_canonical (run canonical_url : string) (db : Db) : option (string * UrlStateColumns) :=
  head (select_where (at_canonical run canonical_url) (crawl_url_state (traversal db))).

Definition read_state_by_canonical (run canonical_url : string) (db : Db)
    : result CrawlTraversalRepositoryError (option CrawlUrlStateRecord) :=
  match row_by_canonical run canonical_url db with
  | Some (id, c) => let? s := record_of_row db id c in Ok (Some s)
  | None => Ok None
  end.

(** *** Writing states *)

(** [seen] is stored as [1], which [validate_state] requires it to be. *)
Definition stored_columns (s : CrawlUrlStateRecord) : result CrawlTraversalRepositoryError UrlStateColumns :=
  let? _ := transpose i64_from (us_admission_sequence (st_columns s)) in
  let? _ := i64_from (us_work_generation (st_columns s)) in
  Ok (st_columns s).

Definition insert_state (s : CrawlUrlStateRecord) : Tx CrawlTraversalRepositoryError unit :=
  let! _ := tx_of (validate_state s) in
  let! _ := validate_state_ownership s (us_run (st_columns s)) in
  let! c := tx_of (stored_columns s) in
  let! _ := dbt (insert_url_state (st_id s) c) in
  insert_seed_provenance s.

(** [WHERE id = k AND crawl_run_id = run AND p] *)
Definition state_key (k run : string) (p : UrlStateColumns -> bool) (id : string) (c : UrlStateColumns)
    : bool := String.eqb id k && (String.eqb (us_run c) run && p c).

Definition upsert_discovery_state (s : CrawlUrlStateRecord) : Tx CrawlTraversalRepositoryError unit :=
  let n := st_columns s in
  let! _ := tx_of (validate_state s) in
  let! _ := validate_state_ownership s (us_run n) in
  let! db := tx_get in
  match row_by_canonical (us_run n) (us_canonical_url n) db with
  | None => insert_state s
  | Some (existing_id, existing) =>
    let! _ := tx_reject (negb (String.eqb (st_id s) existing_id)) TrInvalidState in
    let! _ := tx_reject (bool_decide (us_admission_state existing = Resolved)
      && bool_decide (us_admission_state n <> PreserveOnly)) TrInvalidState in
    let! _ := tx_reject (bool_decide (us_admission_state existing = PreserveOnly)
      && bool_decide (us_admission_state n = AdmittedWork)) TrInvalidState in
    let! _ :=
      if bool_decide (us_admission_state existing = AdmittedWork)
         && bool_decide (us_admission_state n = AdmittedWork)
         && bool_decide (us_current_work_state existing = Some WorkPending)
      then
        let! sequence := tx_of (ok_or TrInvalidState (us_admission_sequence n)) in
        let! _ := tx_of (i64_from sequence) in
        let! _ := tx_of (ok_or TrInvalidState (us_depth n)) in
        dbt (update_url_states false
          (state_key existing_id (us_run n)
            (fun c => bool_decide (us_current_work_state c = Some WorkPending)))
          (merge_pending n))
      else dbt (update_url_states false (state_key existing_id (us_run n) (fun _ => true)) (merge_settled n)) in
    insert_seed_provenance s
  end.

Definition reconcile_redirect (run : string) (redirect : CrawlRedirectReconciliation) : Tx CrawlTraversalRepositoryError unit :=
  let! _ := tx_reject (str_is_empty (alias_canonical_url redirect)
    || str_is_empty (final_canonical_url redirect)
    || String.eqb (alias_canonical_url redirect) (final_canonical_url redirect)
    || str_is_empty (alias_url_state_id redirect) || str_is_empty (final_url_state_id redirect))
    TrInvalidState in
  let! db := tx_get in
  let! found := tx_of (read_state_by_canonical run (alias_canonical_url redirect) db) in
  let! alias := tx_of (ok_or TrInvalidState found) in
  let! _ := tx_reject (negb (String.eqb (st_id alias) (alias_url_state_id redirect))) TrInvalidState in
  match us_admission_state (st_columns alias) with
  | Resolved =>
    tx_reject (bool_decide (us_resolved_to_url_state_id (st_columns alias)
      <> Some (final_url_state_id redirect))) TrInvalidState
  | PreserveOnly => tx_fail TrInvalidState
  | AdmittedWork =>
    let! final_state := tx_of (read_state_by_canonical run (final_canonical_url redirect) db) in
    let! _ := match final_state with
      | Some final_state =>
        let! _ := tx_reject (negb (String.eqb (st_id final_state) (final_url_state_id redirect))
          || bool_decide (us_admission_state (st_columns final_state) <> AdmittedWork)) TrInvalidState in
        append_seed_provenance final_state (st_seed_provenance alias)
      | None =>
        insert_state {| st_id := final_url_state_id redirect;
          st_columns := redirected_copy (final_canonical_url redirect) (st_columns alias);
          st_seed_provenance := st_seed_provenance alias |}
      end in
    let! changed := dbt (update_url_states true
      (state_key (st_id alias) run (fun c => bool_decide (us_admission_state c = AdmittedWork)))
      (set_resolved (final_url_state_id redirect) (final_canonical_url redirect))) in
    tx_reject (negb (Nat.eqb changed 1)) TrCorruptState
  end.

(** *** Control *)

Definition control_counters (c : ControlColumns) : list Z :=
  [ct_consumed_bytes c; ct_raw_link_count c; ct_duplicate_count c; ct_robots_excluded_count c;
   ct_provider_error_count c; ct_external_url_count c; ct_blocked_url_count c;
   ct_peak_expansion_count c; ct_elapsed_millis c; ct_pagination_truncation_count c;
   ct_next_admission_sequence c].

Definition control_values (control : CrawlTraversalControl)
    : result CrawlTraversalRepositoryError ControlColumns :=
  let? _ := collect i64_from (control_counters (ctl_columns control)) in
  Ok (ctl_columns control).

Definition insert_control (control : CrawlTraversalControl) : Tx CrawlTraversalRepositoryError unit :=
  let! values := tx_of (control_values control) in
  dbt (insert_control_row (ctl_run control) values).

Definition update_control (control : CrawlTraversalControl) : Tx CrawlTraversalRepositoryError unit :=
  let! values := tx_of (control_values control) in
  let! changed := dbt (update_control_row (ctl_run control) values) in
  tx_reject (negb (Nat.eqb changed 1)) TrCorruptState.

Definition read_control (run : string) (db : Db)
    : result CrawlTraversalRepositoryError CrawlTraversalControl :=
  let? c := ok_or TrCrawlRunNotFound (traversal_control (traversal db) !! run) in
  let? _ := collect as_u64 (control_counters c) in
  Ok {| ctl_run := run; ctl_columns := c |}.

(** [read_traversal_control] *)
Definition read_traversal_control := read_control.

(** *** Transition budgets *)

Definition replace_transition_counts (run : string) (counts : list CrawlTransitionSourceCount)
    : Tx CrawlTraversalRepositoryError unit :=
  let! db := tx_get in
  let! row := tx_of (ok_or (TrDatabase no_rows) (crawl_runs db !! run)) in
  let version := run_crawler_version_id row in
  let! _ := tx_of (for_each (fun count =>
    let? _ := reject_if (str_is_empty (tc_transition_id count) || str_is_empty (tc_source_url_state_id count))
      TrInvalidState in
    let? _ := reject_if (negb match crawl_url_state (traversal db) !! tc_source_url_state_id count with
      | Some c => String.eqb (us_run c) run && bool_decide (us_admission_state c = AdmittedWork)
      | None => false
      end) TrInvalidState in
    reject_if (negb (version_owns
      (tr_version_id <$> discovery_transitions (catalogue db) !! tc_transition_id count) version))
      TrInvalidState) counts) in
  let! _ := dbt (delete_transition_counts run) in
  tx_each (fun count =>
    let! n := tx_of (i64_from (tc_eligible_edge_count count)) in
    dbt (insert_transition_count run (tc_transition_id count) (tc_source_url_state_id count) n)) counts.

Definition read_transition_counts (run : string) (db : Db)
    : result CrawlTraversalRepositoryError (list CrawlTransitionSourceCount) :=
  collect (fun kv : string * string * string * Z =>
      let? n := as_u64 kv.2 in
      Ok {| tc_transition_id := kv.1.1.2; tc_source_url_state_id := kv.1.2; tc_eligible_edge_count := n |})
    (sort_by (cmp_on (fun kv : string * string * string * Z => (kv.1.1.2, kv.1.2))
                (cmp_pair String.compare String.compare))
      (filter (fun kv => String.eqb kv.1.1.1 run = true)
        (map_to_list (transition_source_counts (traversal db))))).

Definition read_page_type_counts (run : string) (db : Db)
    : result CrawlTraversalRepositoryError (list CrawlTraversalPageTypeCounts) :=
  collect (fun kv : string * string * (Z * Z) =>
      let? sampled := as_u64 kv.2.1 in
      let? discovered := as_u64 kv.2.2 in
      Ok {| pc_page_type_id := kv.1.2; pc_sampled_count := sampled; pc_discovered_count := discovered |})
    (sort_by (cmp_on (fun kv : string * string * (Z * Z) => kv.1.2) String.compare)
      (filter (fun kv => String.eqb kv.1.1 run = true) (map_to_list (page_type_counts (traversal db))))).

(** *** The semantic projection *)

(** One state of the projection; [seen] holds the URLs before it. *)
Definition project_state (run : string) (seen : list string) (value : CrawlTraversalUrlSemanticState)
    : Tx CrawlTraversalRepositoryError (list string) :=
  let url := sem_canonical_url value in
  let! _ := tx_reject (str_is_empty url || bool_decide (url ∈ seen)) TrInvalidState in
  let! _ := tx_reject (sem_expanded value && negb (sem_sampled value)) TrInvalidState in
  let! _ := tx_reject (negb (Bool.eqb (sem_in_scope value) (is_some (sem_page_type_match_state value))))
    TrInvalidState in
  let! changed := dbt (update_url_states false
    (fun k c => at_canonical run url k c && us_seen c) (set_semantics value)) in
  let! _ := tx_reject (negb (Nat.eqb changed 1)) TrInvalidState in
  tx_ret (url :: seen).

Definition project_page_type (run : string) (page_types_seen : list string)
    (count : CrawlTraversalPageTypeCounts) : Tx CrawlTraversalRepositoryError (list string) :=
  let id := pc_page_type_id count in
  let! _ := tx_reject (bool_decide (id ∈ page_types_seen)) TrInvalidState in
  let! db := tx_get in
  let! _ := tx_reject (negb (version_owns (page_types (catalogue db) !! id)
    (crawl_runs db !! run ≫= run_crawler_version_id))) TrInvalidState in
  let! sampled := tx_of (i64_from (pc_sampled_count count)) in
  let! discovered := tx_of (i64_from (pc_discovered_count count)) in
  let! _ := dbt (insert_page_type_count run id sampled discovered) in
  tx_ret (id :: page_types_seen).

Definition apply_semantic_projection (run : string) (projection : CrawlTraversalSemanticProjection)
    : Tx CrawlTraversalRepositoryError unit :=
  match url_states projection with
  | [] => tx_ret tt
  | _ =>
    let! seen := tx_fold (project_state run) (url_states projection) [] in
    let! db := tx_get in
    let! _ := tx_reject (exists_where
      (fun _ c => String.eqb (us_run c) run && negb (bool_decide (us_canonical_url c ∈ seen)))
      (crawl_url_state (traversal db))) TrInvalidState in
    let! _ := dbt (delete_page_type_counts run) in
    let! _ := tx_fold (project_page_type run) (projection_page_type_counts projection) [] in
    tx_ret tt
  end.

(** *** Work in flight *)

Definition mark_one (run : string) (state_ids : list string) (work : CrawlInFlightWork)
    : Tx CrawlTraversalRepositoryError (list string) :=
  let id := flight_state_id work in
  let! _ := tx_reject (str_is_empty id || bool_decide (id ∈ state_ids)) TrInvalidState in
  let! db := tx_get in
  let! c := tx_of (ok_or TrInvalidState
    (match crawl_url_state (traversal db) !! id with
     | Some c => if String.eqb (us_run c) run then Some c else None
     | None => None
     end)) in
  let! generation := tx_of (as_u64 (us_work_generation c)) in
  let! _ := tx_reject (bool_decide (us_admission_state c <> AdmittedWork)
    || match expected_work_generation work with
       | Some expected => negb (expected =? generation) | None => false end) TrInvalidState in
  if bool_decide (us_current_work_state c = Some WorkCompleted) && is_some (us_current_execution_id c)
  then tx_ret (id :: state_ids)
  else
    let! _ := tx_reject (negb (bool_decide
      (us_current_work_state c ∈ [Some WorkPending; Some WorkRunning]))) TrInvalidState in
    let! expected := tx_of (i64_from generation) in
    let! changed := dbt (update_url_states false
      (state_key id run (fun c => bool_decide (us_admission_state c = AdmittedWork)
         && (us_work_generation c =? expected)
         && bool_decide (us_current_work_state c ∈ [Some WorkPending; Some WorkRunning])))
      (fun c => set_work (us_work_generation c) (Some WorkRunning) (us_current_execution_id c) c)) in
    let! _ := tx_reject (negb (Nat.eqb changed 1)) TrCorruptState in
    tx_ret (id :: state_ids).

Definition mark_in_flight_work (run : string) (in_flight : list CrawlInFlightWork)
    : Tx CrawlTraversalRepositoryError unit :=
  let! _ := tx_fold (mark_one run) in_flight [] in tx_ret tt.

(** ** Initialization *)

Definition install_roots (run : string) (roots : list CrawlUrlStateRecord)
    : Tx CrawlTraversalRepositoryError unit :=
  tx_each (fun root => let! _ := validate_state_ownership root run in insert_state root) roots.

(** The roots and the control row of an earlier initialization are found again. *)
Definition check_initialized (run : string) (control : CrawlTraversalControl) (db : Db)
    : result CrawlTraversalRepositoryError unit :=
  let? persisted := read_control run db in
  reject_if (bool_decide (persisted <> control)) TrInvalidState.

Definition check_roots (run : string) (roots : list CrawlUrlStateRecord) (db : Db)
    : result CrawlTraversalRepositoryError unit :=
  for_each (fun root =>
    let? found := read_state_by_canonical run (us_canonical_url (st_columns root)) db in
    match found with
    | None => Err TrInvalidState
    | Some persisted => reject_if (negb (initial_state_matches persisted root)) TrInvalidState
    end) roots.

Definition initialized (run : string) (db : Db) : bool :=
  bool_decide (is_Some (traversal_control (traversal db) !! run)).

Definition initialize_run_state (run : string) (roots : list CrawlUrlStateRecord)
    (control : CrawlTraversalControl) (db : Db) : result CrawlTraversalRepositoryError unit * Db :=
  if negb (String.eqb (ctl_run control) run) || bool_decide (roots = []) then (Err TrInvalidState, db)
  else transact (
    let! _ := ensure_run run in
    let! db := tx_get in
    if initialized run db then
      let! _ := tx_of (check_initialized run control db) in
      tx_of (check_roots run roots db)
    else
      let! _ := insert_control control in
      install_roots run roots) db.

Definition initialize_run_state_with_checkpoint (run : string) (roots : list CrawlUrlStateRecord)
    (control : CrawlTraversalControl) (job_id attempt_id : string) (lease : JobLease)
    (checkpoint : CheckpointEnvelope) (created_at : Z) (db : Db)
    : result CrawlTraversalRepositoryError CheckpointRecord * Db :=
  if negb (String.eqb (ctl_run control) run) || bool_decide (roots = []) then (Err TrInvalidState, db)
  else transact (
    let! _ := ensure_run run in
    let! _ := insert_control control in
    let! _ := install_roots run roots in
    tx_map_err TrCheckpoint
      (append_checkpoint_in_transaction job_id attempt_id lease checkpoint created_at)) db.

Definition record_evidence (evidence : list DiscoveredUrlRecord) : Tx CrawlTraversalRepositoryError unit :=
  tx_each (fun r => tx_map_err TrDiscovery (record_discovered_url_in_transaction r)) evidence.

Definition foreign_evidence (run : string) (evidence : list DiscoveredUrlRecord) : bool :=
  existsb (fun r => negb (String.eqb (id_to_string (dr_crawl_run_id r)) run)) evidence.

Definition initialize_run_state_with_checkpoint_and_evidence (run : string)
    (roots : list CrawlUrlStateRecord) (evidence : list DiscoveredUrlRecord)
    (control : CrawlTraversalControl) (projection : CrawlTraversalSemanticProjection)
    (job_id attempt_id : string) (lease : JobLease) (checkpoint : CheckpointEnvelope)
    (created_at : Z) (db : Db) : result CrawlTraversalRepositoryError CheckpointRecord * Db :=
  if negb (String.eqb (ctl_run control) run) || bool_decide (roots = []) || foreign_evidence run evidence
  then (Err TrInvalidState, db)
  else
    let '(outcome, db') := transact (
      let! _ := ensure_run run in
      let! db := tx_get in
      if initialized run db then
        let! _ := tx_of (check_initialized run control db) in
        let! _ := record_evidence evidence in
        let! db := tx_get in
        let! _ := tx_of (check_roots run roots db) in
        tx_ret None
      else
        let! _ := record_evidence evidence in
        let! _ := insert_control control in
        let! _ := install_roots run roots in
        let! _ := apply_semantic_projection run projection in
        let! record := tx_map_err TrCheckpoint
          (append_checkpoint_in_transaction job_id attempt_id lease checkpoint created_at) in
        tx_ret (Some record)) db in
    (match outcome with
     | Err e => Err e
     | Ok (Some record) => Ok record
     | Ok None =>
       match latest job_id db' with
       | Err e => Err (TrCheckpoint e)
       | Ok found => ok_or TrInvalidState found
       end
     end, db').

(** ** Discovery boundaries *)

Definition upsert_work (run : string) (work : list CrawlUrlStateRecord)
    : Tx CrawlTraversalRepositoryError unit :=
  tx_each (fun state => let! _ := validate_state_ownership state run in upsert_discovery_state state) work.

Definition apply_discovery_delta (run : string) (work : list CrawlUrlStateRecord)
    (control : CrawlTraversalControl) (counts : list CrawlTransitionSourceCount) (db : Db)
    : result CrawlTraversalRepositoryError unit * Db :=
  if negb (String.eqb (ctl_run control) run) then (Err TrInvalidState, db)
  else transact (
    let! _ := ensure_run run in
    let! _ := upsert_work run work in
    let! _ := update_control control in
    replace_transition_counts run counts) db.

Definition apply_discovery_delta_with_evidence (run : string) (evidence : list DiscoveredUrlRecord)
    (work : list CrawlUrlStateRecord) (control : CrawlTraversalControl)
    (counts : list CrawlTransitionSourceCount) (db : Db)
    : result CrawlTraversalRepositoryError unit * Db :=
  if negb (String.eqb (ctl_run control) run) || foreign_evidence run evidence then (Err TrInvalidState, db)
  else transact (
    let! _ := ensure_run run in
    let! _ := record_evidence evidence in
    let! _ := upsert_work run work in
    let! _ := update_control control in
    replace_transition_counts run counts) db.

Definition apply_discovery_delta_with_projection (run : string) (evidence : list DiscoveredUrlRecord)
    (work : list CrawlUrlStateRecord) (control : CrawlTraversalControl)
    (counts : list CrawlTransitionSourceCount) (projection : CrawlTraversalSemanticProjection)
    (redirects : list CrawlRedirectReconciliation) (in_flight : list CrawlInFlightWork) (db : Db)
    : result CrawlTraversalRepositoryError unit * Db :=
  if negb (String.eqb (ctl_run control) run) || foreign_evidence run evidence then (Err TrInvalidState, db)
  else transact (
    let! _ := ensure_run run in
    let! _ := record_evidence evidence in
    let! _ := upsert_work run work in
    let! _ := tx_each (reconcile_redirect run) redirects in
    let! _ := apply_semantic_projection run projection in
    let! _ := mark_in_flight_work run in_flight in
    let! _ := update_control control in
    replace_transition_counts run counts) db.

Definition replace_transition_source_counts (run : string) (counts : list CrawlTransitionSourceCount)
    (db : Db) : result CrawlTraversalRepositoryError unit * Db :=
  transact (let! _ := ensure_run run in replace_transition_counts run counts) db.

(** ** Recovery *)

(** [ASC NULLS LAST]: [None] is the greatest value. *)
Definition cmp_nulls_last : option Z -> option Z -> comparison :=
  cmp_reverse (cmp_option (cmp_reverse Z.compare)).

(** Depth, admission sequence, canonical URL, requested URL. *)
Definition recovery_key (e : string * UrlStateColumns) : option Z * (option Z * (string * string)) :=
  (us_depth e.2, (us_admission_sequence e.2, (us_canonical_url e.2, us_requested_url e.2))).

Definition recovery_cmp : string * UrlStateColumns -> string * UrlStateColumns -> comparison :=
  cmp_on recovery_key
    (cmp_pair cmp_nulls_last (cmp_pair cmp_nulls_last (cmp_pair String.compare String.compare))).

Definition in_recovery_order (p : string -> UrlStateColumns -> bool) (db : Db)
    : list (string * UrlStateColumns) :=
  sort_by recovery_cmp (select_where p (crawl_url_state (traversal db))).

Definition reconstruct_recovery_state (run : string) (db : Db)
    : result CrawlTraversalRepositoryError ReconstructedTraversalState :=
  let? control := read_control run db in
  let? work := collect (fun e => record_of_row db e.1 e.2)
    (in_recovery_order (fun _ c => String.eqb (us_run c) run) db) in
  let? transitions := read_transition_counts run db in
  let? page_types := read_page_type_counts run db in
  Ok {| rec_control := control; rec_work := work; rec_transition_source_counts := transitions;
        rec_page_type_counts := page_types |}.

(** The lease of the action's running attempt, and the action's source. *)
Definition action_source (action_job_id action_attempt_id run : string) (kind : CrawlRecoveryActionKind)
    (now : Z) (db : Db) : result CrawlTraversalRepositoryError string :=
  match jobs db !! action_job_id, job_attempts db !! action_attempt_id with
  | Some job, Some attempt =>
    let? _ := reject_if (negb (String.eqb (att_job_id attempt) action_job_id)) TrInvalidState in
    let? source := ok_or TrInvalidState (row_parent_job_id job) in
    let? _ := reject_if (bool_decide (row_crawl_run_id job <> Some run)
      || negb (String.eqb (row_kind job) (recovery_kind_as_str kind))
      || bool_decide (row_state job <> Running)
      || negb (row_current_attempt job =? att_number attempt)
      || bool_decide (row_lease_id job <> Some (att_lease_id attempt))
      || negb (row_lease_generation job =? att_lease_generation attempt)
      || bool_decide (att_outcome attempt <> AttemptRunning)
      || match row_lease_expires_at job with Some expires_at => expires_at <=? now | None => true end)
      TrInvalidState in
    let? source_job := ok_or TrInvalidState (jobs db !! source) in
    let? _ := reject_if (bool_decide (row_crawl_run_id source_job <> Some run)) TrInvalidState in
    Ok source
  | _, _ => Err TrInvalidState
  end.

(** The work an action of this kind takes up again. *)
Definition work_predicate (kind : CrawlRecoveryActionKind) (state : option CrawlWorkState) : bool :=
  match kind with
  | ActionRetry =>
    bool_decide (state ∈ [Some WorkPending; Some WorkFailed; Some WorkPartial; Some WorkCancelled])
  | ActionRetryFailedParts => bool_decide (state ∈ [Some WorkFailed; Some WorkPartial])
  | ActionRestartFromBeginning => is_some state
  end.

Definition action_selects (run : string) (kind : CrawlRecoveryActionKind) (_ : string)
    (c : UrlStateColumns) : bool :=
  String.eqb (us_run c) run && bool_decide (us_admission_state c = AdmittedWork)
  && work_predicate kind (us_current_work_state c).

(** [checked_add(1)] on the [u64] read from the row, which then has to fit the column. *)
Definition next_generation (previous : Z) : result CrawlTraversalRepositoryError Z :=
  let? g := as_u64 previous in
  let? next := ok_or TrInvalidState (checked_add u64_max g 1) in
  i64_from next.

(** Takes up one selected state: its generation advances and it is pending again. *)
Definition prepare_state (action_job_id run : string) (selected : list string)
    (e : string * UrlStateColumns) : Tx CrawlTraversalRepositoryError (list string) :=
  let previous := us_work_generation e.2 in
  let! prepared := tx_of (next_generation previous) in
  let! changed := dbt (update_url_states true
    (state_key e.1 run (fun c => bool_decide (us_admission_state c = AdmittedWork)
       && (us_work_generation c =? previous)))
    (set_work prepared (Some WorkPending) None)) in
  let! _ := tx_reject (negb (Nat.eqb changed 1)) TrCorruptState in
  let! _ := dbt (insert_recovery_item action_job_id e.1
    {| ri_run := run; ri_previous_work_generation := previous;
       ri_prepared_work_generation := prepared |}) in
  tx_ret (selected ++ [e.1]).

(** The items of an action joined with the states they name. *)
Definition action_items (action_job_id run : string) (db : Db)
    : list (string * UrlStateColumns * RecoveryItemRow) :=
  omap (fun e =>
      item ← recovery_action_items (traversal db) !! (action_job_id, e.1);
      if String.eqb (ri_run item) run then Some (e, item) else None)
    (in_recovery_order (fun _ c => String.eqb (us_run c) run) db).

(** One row of the join; [state_ids] holds the states before it. *)
Definition read_item (state_ids : list string) (row : string * UrlStateColumns * RecoveryItemRow)
    : result CrawlTraversalRepositoryError (list string) :=
  let? prepared := as_u64 (ri_prepared_work_generation row.2) in
  let? current := as_u64 (us_work_generation row.1.2) in
  let? _ := reject_if (negb (prepared =? current)
    || bool_decide (last state_ids = Some row.1.1)) TrInvalidState in
  Ok (state_ids ++ [row.1.1]).

Definition read_recovery_action_items (action_job_id run : string) (db : Db)
    : result CrawlTraversalRepositoryError (list string) :=
  foldl (fun acc row => let? ids := acc in read_item ids row) (Ok []) (action_items action_job_id run db).

Definition prepare_recovery_action (action_job_id action_attempt_id run : string)
    (kind : CrawlRecoveryActionKind) (now : Z) (db : Db)
    : result CrawlTraversalRepositoryError CrawlRecoveryActionSelection * Db :=
  let selection ids := {| sel_action_job_id := action_job_id; sel_run := run; sel_kind := kind;
                          sel_state_ids := ids |} in
  if str_is_empty action_job_id || str_is_empty action_attempt_id || (now <? 0)
  then (Err TrInvalidState, db)
  else transact (
    let! db := tx_get in
    let! source_job_id := tx_of (action_source action_job_id action_attempt_id run kind now db) in
    match recovery_actions (traversal db) !! action_job_id with
    | Some existing =>
      let! _ := tx_reject (negb (String.eqb (ra_source_job_id existing) source_job_id)
        || negb (String.eqb (ra_run existing) run) || bool_decide (ra_kind existing <> kind)) TrInvalidState in
      let! ids := tx_of (read_recovery_action_items action_job_id run db) in
      tx_ret (selection ids)
    | None =>
      let! _ := dbt (insert_recovery_action action_job_id
        {| ra_source_job_id := source_job_id; ra_run := run; ra_kind := kind; ra_prepared_at := now |}) in
      let! db := tx_get in
      if initialized run db then
        let! ids := tx_fold (prepare_state action_job_id run)
          (in_recovery_order (action_selects run kind) db) [] in
        tx_ret (selection ids)
      else tx_ret (selection [])
    end) db.

Definition read_work_generation (run state_id : string) (db : Db)
    : result CrawlTraversalRepositoryError Z :=
  match crawl_url_state (traversal db) !! state_id with
  | Some c =>
    if String.eqb (us_run c) run && bool_decide (us_admission_state c = AdmittedWork)
    then as_u64 (us_work_generation c) else Err TrInvalidState
  | None => Err TrInvalidState
  end.
End traversal.
