(* ===== verification/CrawlExecution.v ===== *)
(** * Page executions

    [crates/erabi-db/src/repositories/crawl_execution.rs]: the durable evidence of each
    provider call, the guarded advance of the logical work it belongs to, and the
    summary a run is finalized with; with [migrations/0005_crawl_execution.sql] and the
    triggers of [0006_crawl_traversal_state.sql] on its tables.

    The derived deserializers of a crawler version and of a transition are a parameter
    ([VersionWire]). *)

From S2P Require Import Prelude Externals JsonFacts Base Instances Settings Guardrails Crawler Snapshot.
From S2P Require Import TraversalTables Store TraversalStore Progress Checkpoint Runs Traversal.

Definition MAX_EXECUTION_URL_CHARS : nat := 4096.
Definition MAX_EXECUTION_MEDIA_TYPE_CHARS : nat := 256.
Definition MAX_DISCOVERED_URL_ID_CHARS : nat := 256.

Inductive CrawlExecutionRepositoryError :=
| ExCrawlRunNotFound | ExNotFound | DuplicateExecution | ArtifactNotFound | ArtifactNotOwnedByRun
| SourceNotFound | SourceNotOwnedByRun | PageTypeNotApplicable | PageTypeNotFound
| PageTypeNotOwnedByRun | TransitionNotApplicable | TransitionNotFound | TransitionNotOwnedByRun
| TransitionDoesNotMatchPageType | DiscoveredUrlNotOwnedByRun | InvalidReference
| InvalidInput (what : string) | CounterOutOfRange | CompletedExceedsPlannedPages | ExCorruptState
| SummaryNotFound
| ExDatabase (e : DbError).

Definition corrupt_on_read {A} (r : result CrawlExecutionRepositoryError A)
    : result CrawlExecutionRepositoryError A :=
  map_err (fun e => match e with ExDatabase d => ExDatabase d | _ => ExCorruptState end) r.

Definition dbx {A} (t : Tx DbError A) : Tx CrawlExecutionRepositoryError A := tx_map_err ExDatabase t.

(** ** Statements *)

Definition between (lo hi : Z) (o : option Z) : bool :=
  match o with Some v => (lo <=? v) && (v <=? hi) | None => true end.
Definition length_between (hi : Z) (o : option string) : bool :=
  match o with
  | Some s => (1 <=? Z.of_nat (char_count s)) && (Z.of_nat (char_count s) <=? hi)
  | None => true
  end.

Definition outcome_error_check (outcome : CrawlExecutionOutcome) (code : option CrawlExecutionErrorCode)
    : bool :=
  match outcome, code with
  | ExecutionCompleted, None => true
  | ExecutionPartial, Some ExecPartialResult => true
  | ExecutionFailed, Some (ExecPartialResult | ExecCancelled) => false
  | ExecutionFailed, Some _ => true
  | ExecutionCancelled, Some ExecCancelled => true
  | _, _ => false
  end.

(** The [CHECK]s of [crawl_execution_results]. *)
Definition execution_check (r : ExecutionRow) : bool :=
  url_length (ex_requested_url r) && url_length (ex_canonical_url r)
  && length_between 4096 (ex_observed_final_url r) && between 100 599 (ex_http_status r)
  && length_between 256 (ex_media_type r)
  && match ex_content_length_bytes r with Some n => 0 <=? n | None => true end
  && match ex_provider_elapsed_ms r with Some n => 0 <=? n | None => true end
  && outcome_error_check (ex_outcome r) (ex_error_code r) && (0 <=? ex_work_generation r).

(** The triggers before an insertion: the lineage is complete, and the state, the
    attempt and the discovery evidence belong to the run. *)
Definition execution_triggers (r : ExecutionRow) (db : Db) : bool :=
  Bool.eqb (is_none (ex_url_state_id r)) (is_none (ex_job_attempt_id r))
  && match ex_url_state_id r with
     | Some k => match crawl_url_state (traversal db) !! k with
                 | Some c => String.eqb (us_run c) (ex_run r)
                             && (us_work_generation c =? ex_work_generation r)
                 | None => false end
     | None => true
     end
  && match ex_job_attempt_id r with
     | Some a => match job_attempts db !! a ≫= (fun a => jobs db !! att_job_id a) with
                 | Some job => bool_decide (row_crawl_run_id job = Some (ex_run r))
                 | None => false end
     | None => true
     end
  && discovered_in (ex_run r) (ex_discovered_url_id r) db.

Definition insert_execution (id : string) (r : ExecutionRow) : Tx DbError unit :=
  constrained (fun db =>
    bool_decide (execution_results (traversal db) !! id = None)
    && bool_decide (is_Some (crawl_runs db !! ex_run r))
    && known (sources (catalogue db)) (ex_source_id r)
    && known (page_types (catalogue db)) (ex_page_type_id r)
    && known (discovery_transitions (catalogue db)) (ex_transition_id r)
    && execution_check r && execution_triggers r db)
    (fun tr => set_execution_results (<[id := r]> (execution_results tr)) tr).

Definition insert_execution_artifact (id artifact : string) (kind : CrawlExecutionArtifactKind)
    : Tx DbError unit :=
  constrained (fun db =>
    bool_decide (execution_artifacts (traversal db) !! (id, kind) = None)
    && negb (exists_where (fun k a => String.eqb k.1 id && String.eqb a artifact)
               (execution_artifacts (traversal db)))
    && bool_decide (is_Some (execution_results (traversal db) !! id))
    && bool_decide (is_Some (artifacts (catalogue db) !! artifact)))
    (fun tr => set_execution_artifacts (<[(id, kind) := artifact]> (execution_artifacts tr)) tr).

Definition summary_check (c : SummaryColumns) : bool :=
  all_non_negative [sm_in_scope_pages_planned c; sm_in_scope_pages_completed c;
    sm_pagination_truncation_count c; sm_unresolved_partial_work_count c;
    sm_page_type_ambiguity_count c]
  && (sm_in_scope_pages_completed c <=? sm_in_scope_pages_planned c).

Definition insert_summary (run : string) (c : SummaryColumns) : Tx DbError unit :=
  constrained (fun db =>
    bool_decide (execution_summaries (traversal db) !! run = None)
    && bool_decide (is_Some (crawl_runs db !! run)) && summary_check c)
    (fun tr => set_execution_summaries (<[run := c]> (execution_summaries tr)) tr).

Definition update_summary (run : string) (c : SummaryColumns) : Tx DbError nat := fun db =>
  match update_where (fun _ new => summary_check new) (fun k _ => String.eqb k run) (fun _ => c)
          (execution_summaries (traversal db)) with
  | Some (changed, t) => Ok (changed, with_traversal (set_execution_summaries t (traversal db)) db)
  | None => constraint db
  end.

Section executions.
Context `{U : UuidLib} `{L : UrlLib} `{SD : SerdeLib} `{J : JsonLib} `{Hash : HashLib} `{Hosts : HostLib}.
Context `{W : !SnapshotWire}.

(** ** Data *)

Record CrawlExecutionArtifact := {
  artifact_id : ArtifactId;
  artifact_kind : CrawlExecutionArtifactKind
}.

Record CrawlExecutionRecord := {
  exec_id : CrawlExecutionId;
  exec_crawl_run_id : CrawlRunId;
  exec_requested_url : string;
  exec_canonical_url : string;
  exec_observed_final_url : option string;
  exec_source_id : option SourceId;
  exec_page_type_id : option PageTypeId;
  exec_transition_id : option DiscoveryTransitionId;
  exec_discovered_url_id : option string;
  exec_outcome : CrawlExecutionOutcome;
  exec_error_code : option CrawlExecutionErrorCode;
  exec_http_status : option Z;
  exec_media_type : option string;
  exec_content_length_bytes : option Z;
  exec_provider_elapsed_ms : option Z;
  exec_artifacts : list CrawlExecutionArtifact
}.

Record CrawlExecutionSummary := {
  summary_run_id : CrawlRunId;
  summary_columns : SummaryColumns
}.

Class VersionWire := {
  version_from_str : string -> option CrawlerVersion;
  transition_from_str : string -> option DiscoveryTransition
}.
Context `{VW : VersionWire}.

(** ** Validation *)

Definition validate_http_url (value : string) : result CrawlExecutionRepositoryError unit :=
  let? _ := reject_if (str_is_empty value || Nat.ltb MAX_EXECUTION_URL_CHARS (char_count value)
    || has_control value) (InvalidInput "URL is outside its bounded form") in
  let? parsed := ok_or (InvalidInput "URL is not valid HTTP(S) syntax") (url_parse value) in
  reject_if (negb (http_or_https (url_scheme parsed)) || is_none (url_host_str parsed)
    || negb (str_is_empty (url_username parsed)) || is_some (url_password parsed)
    || is_some (url_fragment parsed)) (InvalidInput "URL is not a valid crawl identity").

Definition validate_outcome_error (outcome : CrawlExecutionOutcome)
    (code : option CrawlExecutionErrorCode) : result CrawlExecutionRepositoryError unit :=
  let valid := match outcome, code with
    | ExecutionCompleted, None => true
    | ExecutionPartial, Some ExecPartialResult => true
    | ExecutionCancelled, Some ExecCancelled => true
    | ExecutionFailed, Some code =>
      match code with ExecPartialResult | ExecCancelled => false | _ => true end
    | _, _ => false
    end in
  reject_if (negb valid) (InvalidInput "outcome and error code are incoherent").

(** No kind and no artifact occurs twice. *)
Fixpoint distinct_artifacts (kinds : list CrawlExecutionArtifactKind) (ids : list ArtifactId)
    (l : list CrawlExecutionArtifact) : bool :=
  match l with
  | [] => true
  | a :: l' =>
    negb (bool_decide (artifact_kind a ∈ kinds)) && negb (bool_decide (artifact_id a ∈ ids))
    && distinct_artifacts (artifact_kind a :: kinds) (artifact_id a :: ids) l'
  end.

Definition validate_record_input (r : CrawlExecutionRecord) : result CrawlExecutionRepositoryError unit :=
  let? _ := reject_if (negb (uuid_version (as_uuid (exec_id r)) =? 7)
    || negb (uuid_version (as_uuid (exec_crawl_run_id r)) =? 7))
    (InvalidInput "execution identity is not a UUIDv7") in
  let? _ := validate_http_url (exec_requested_url r) in
  let? _ := validate_http_url (exec_canonical_url r) in
  let? _ := match exec_observed_final_url r with Some u => validate_http_url u | None => Ok tt end in
  let? _ := reject_if (match exec_media_type r with
    | Some m => str_is_empty m || negb (String.eqb (trim m) m)
                || Nat.ltb MAX_EXECUTION_MEDIA_TYPE_CHARS (char_count m) || has_control m
    | None => false
    end) (InvalidInput "media type is outside its bounded normalized form") in
  let? _ := reject_if (match exec_discovered_url_id r with
    | Some d => str_is_empty d || Nat.ltb MAX_DISCOVERED_URL_ID_CHARS (char_count d) || has_control d
    | None => false
    end) (InvalidInput "discovered URL identity is invalid") in
  let? _ := reject_if (negb (between 100 599 (exec_http_status r)))
    (InvalidInput "HTTP status is outside the valid range") in
  let? _ := validate_outcome_error (exec_outcome r) (exec_error_code r) in
  reject_if (negb (distinct_artifacts [] [] (exec_artifacts r))) InvalidReference.

(** [parse_run_id], [parse_source_id], ... *)
Definition parse_id {k} (value : string) : result CrawlExecutionRepositoryError (typed_id k) :=
  ok_or ExCorruptState (uuid_parse_str value ≫= from_uuid).

Definition parse_optional_id {k} (value : option string)
    : result CrawlExecutionRepositoryError (option (typed_id k)) :=
  match value with Some v => let? i := parse_id v in Ok (Some i) | None => Ok None end.

(** *** The run and its version *)

Record RunContext := {
  ctx_snapshot : CrawlRunSnapshot;
  ctx_crawler_id : option CrawlerId;
  ctx_crawler_version_id : option CrawlerVersionId
}.

(** [stored_id != id] of a row found under the text of [id]. *)
Definition stored_id_is {k} (id : typed_id k) : result CrawlExecutionRepositoryError unit :=
  let? stored := parse_id (k := k) (id_to_string id) in
  reject_if (bool_decide (stored <> id)) ExCorruptState.

Definition load_run_context (run_id : CrawlRunId) (db : Db)
    : result CrawlExecutionRepositoryError RunContext :=
  let? row := ok_or ExCrawlRunNotFound (crawl_runs db !! id_to_string run_id) in
  let? _ := stored_id_is run_id in
  let? crawler_id := parse_optional_id (run_crawler_id row) in
  let? crawler_version_id := parse_optional_id (run_crawler_version_id row) in
  let? snapshot := ok_or ExCorruptState (snapshot_from_str (run_snapshot_json row)) in
  let? _ := reject_if (negb (String.eqb (snapshot_hash snapshot) (run_snapshot_hash row))
    || negb (String.eqb (checkpoint_compatibility_hash snapshot)
               (run_checkpoint_compatibility_hash row))) ExCorruptState in
  let? _ := reject_if (bool_decide (draft_run_type (snapshot_draft snapshot) <> run_type row))
    ExCorruptState in
  let? _ := reject_if (match draft_configuration (snapshot_draft snapshot) with
    | ConfQuickScrape _ _ => is_some crawler_id || is_some crawler_version_id
    | ConfCrawlerVersion snapshot_crawler_id snapshot_version_id _ =>
      bool_decide (crawler_id <> Some snapshot_crawler_id)
      || bool_decide (crawler_version_id <> Some snapshot_version_id)
    end) ExCorruptState in
  Ok {| ctx_snapshot := snapshot; ctx_crawler_id := crawler_id;
        ctx_crawler_version_id := crawler_version_id |}.

Definition load_version (id : CrawlerVersionId) (db : Db)
    : result CrawlExecutionRepositoryError CrawlerVersion :=
  let? row := ok_or ExCorruptState (version_rows (catalogue db) !! id_to_string id) in
  let? stored := parse_id (id_to_string id) in
  let? crawler_id := parse_id (vr_crawler_id row) in
  let? version := ok_or ExCorruptState (version_from_str (vr_configuration_json row)) in
  let? _ := reject_if (bool_decide (stored <> id) || bool_decide (version_id version <> id)
    || bool_decide (version_crawler_id version <> crawler_id)
    || bool_decide (version_state version <> vr_state row)) ExCorruptState in
  match validate_semantic_contract version with Ok _ => Ok version | Err _ => Err ExCorruptState end.

(** *** References *)

Definition validate_source_reference (r : CrawlExecutionRecord) (source : SourceId) (db : Db)
    : result CrawlExecutionRepositoryError unit :=
  let? row := ok_or SourceNotFound (sources (catalogue db) !! id_to_string source) in
  let? _ := stored_id_is source in
  let? _ := map_err (fun _ => ExCorruptState)
    (let? _ := validate_http_url (src_original_url row) in validate_http_url (src_canonical_url row)) in
  if String.eqb (src_canonical_url row) (exec_canonical_url r) then Ok tt
  else reject_if (negb (exists_where (fun _ d => String.eqb (du_run d) (id_to_string (exec_crawl_run_id r))
      && bool_decide (du_source_id d = Some (id_to_string source))
      && String.eqb (du_canonical_url d) (exec_canonical_url r)) (discovered_urls (traversal db))))
    SourceNotOwnedByRun.

Definition validate_page_type_reference (version : CrawlerVersion) (page_type : PageTypeId) (db : Db)
    : result CrawlExecutionRepositoryError unit :=
  let? owner := ok_or PageTypeNotFound (page_types (catalogue db) !! id_to_string page_type) in
  let? stored := parse_id (id_to_string page_type) in
  let? owner := parse_id owner in
  let? _ := reject_if (bool_decide (stored <> page_type)) ExCorruptState in
  let? _ := reject_if (bool_decide (owner <> version_id version)) PageTypeNotOwnedByRun in
  reject_if (negb (bool_decide (page_type ∈ page_type_ids version))) ExCorruptState.

Definition validate_transition_reference (version : CrawlerVersion) (id : DiscoveryTransitionId) (db : Db)
    : result CrawlExecutionRepositoryError PageTypeId :=
  let? row := ok_or TransitionNotFound (discovery_transitions (catalogue db) !! id_to_string id) in
  let? stored := parse_id (id_to_string id) in
  let? owner := parse_id (tr_version_id row) in
  let? transition := ok_or ExCorruptState (transition_from_str (tr_configuration_json row)) in
  let? _ := reject_if (bool_decide (stored <> id) || bool_decide (transition_id transition <> id))
    ExCorruptState in
  let? _ := reject_if (bool_decide (owner <> version_id version)) TransitionNotOwnedByRun in
  let? _ := reject_if (negb (bool_decide (id ∈ transition_ids version))) ExCorruptState in
  let? _ := map_err (fun _ => ExCorruptState) (transition_validate transition) in
  let? _ := for_each (fun page_type =>
      map_err (fun _ => ExCorruptState) (validate_page_type_reference version page_type db))
    [source_page_type_id transition; target_page_type_id transition] in
  Ok (target_page_type_id transition).

Definition validate_discovered_url_reference (r : CrawlExecutionRecord) (id : string) (db : Db)
    : result CrawlExecutionRepositoryError unit :=
  let? row := ok_or DiscoveredUrlNotOwnedByRun (discovered_urls (traversal db) !! id) in
  let? stored_run := parse_id (du_run row) in
  let? stored_source := parse_optional_id (du_source_id row) in
  let? _ := reject_if (bool_decide (stored_run <> exec_crawl_run_id r)
    || bool_decide (stored_source <> exec_source_id r)
    || negb (String.eqb (du_original_url row) (exec_requested_url r))
    || negb (String.eqb (du_canonical_url row) (exec_canonical_url r))) DiscoveredUrlNotOwnedByRun in
  map_err (fun _ => ExCorruptState)
    (let? _ := validate_http_url (du_original_url row) in validate_http_url (du_canonical_url row)).

Definition validate_artifact_reference (r : CrawlExecutionRecord) (db : Db) (a : CrawlExecutionArtifact)
    : result CrawlExecutionRepositoryError unit :=
  let? row := ok_or ArtifactNotFound (artifacts (catalogue db) !! id_to_string (artifact_id a)) in
  let? stored := parse_id (id_to_string (artifact_id a)) in
  let? stored_run := parse_optional_id (ar_run row) in
  let? stored_source := parse_optional_id (ar_source_id row) in
  let? _ := reject_if (bool_decide (stored <> artifact_id a)) ExCorruptState in
  let? _ := reject_if (bool_decide (stored_run <> Some (exec_crawl_run_id r))) ArtifactNotOwnedByRun in
  reject_if (is_some stored_source && bool_decide (stored_source <> exec_source_id r))
    ArtifactNotOwnedByRun.

Definition validate_artifact_references (r : CrawlExecutionRecord) (db : Db)
    : result CrawlExecutionRepositoryError unit :=
  for_each (validate_artifact_reference r db) (exec_artifacts r).

(** The version's state fits the type of the run. *)
Definition state_fits_run (t : CrawlRunType) (s : CrawlerVersionState) : bool :=
  match t, s with
  | ProductionRun, Published => true
  | (TestRun | DiscoveryPreview), Draft => true
  | _, _ => false
  end.

Definition validate_references (r : CrawlExecutionRecord) (run : RunContext) (db : Db)
    : result CrawlExecutionRepositoryError unit :=
  let draft := snapshot_draft (ctx_snapshot run) in
  let? _ := reject_if (match draft_configuration draft with
    | ConfQuickScrape target_url _ => negb (String.eqb (exec_requested_url r) (url_as_str target_url))
    | ConfCrawlerVersion _ _ _ => false
    end) InvalidReference in
  let? _ := match exec_source_id r with
    | Some source => validate_source_reference r source db | None => Ok tt end in
  let? _ := match exec_discovered_url_id r with
    | Some id => validate_discovered_url_reference r id db | None => Ok tt end in
  match ctx_crawler_version_id run with
  | None =>
    let? _ := reject_if (is_some (exec_page_type_id r)) PageTypeNotApplicable in
    let? _ := reject_if (is_some (exec_transition_id r)) TransitionNotApplicable in
    reject_if (is_some (exec_discovered_url_id r)) InvalidReference
  | Some id =>
    let? version := load_version id db in
    let? _ := reject_if (bool_decide (ctx_crawler_id run <> Some (version_crawler_id version)))
      ExCorruptState in
    let? _ := reject_if (negb (state_fits_run (draft_run_type draft) (version_state version)))
      ExCorruptState in
    let? _ := match exec_page_type_id r with
      | Some page_type => validate_page_type_reference version page_type db | None => Ok tt end in
    match exec_transition_id r with
    | None => Ok tt
    | Some id =>
      let? target := validate_transition_reference version id db in
      reject_if (match exec_page_type_id r with
        | Some page_type => bool_decide (page_type <> target) | None => false end)
        TransitionDoesNotMatchPageType
    end
  end.

(** ** Writing *)

Definition checked_counter (value : Z) : result CrawlExecutionRepositoryError Z :=
  if value <=? i64_max then Ok value else Err CounterOutOfRange.
Definition optional_counter (value : option Z) : result CrawlExecutionRepositoryError (option Z) :=
  match value with Some v => let? n := checked_counter v in Ok (Some n) | None => Ok None end.

(** The state, the attempt and the generation an execution belongs to. *)
Definition Lineage : Type := string * string * Z.

Definition execution_row (r : CrawlExecutionRecord) (content_length provider_elapsed : option Z)
    (lineage : option Lineage) : ExecutionRow :=
  {| ex_run := id_to_string (exec_crawl_run_id r); ex_requested_url := exec_requested_url r;
     ex_canonical_url := exec_canonical_url r; ex_observed_final_url := exec_observed_final_url r;
     ex_source_id := id_to_string <$> exec_source_id r;
     ex_page_type_id := id_to_string <$> exec_page_type_id r;
     ex_transition_id := id_to_string <$> exec_transition_id r;
     ex_discovered_url_id := exec_discovered_url_id r; ex_outcome := exec_outcome r;
     ex_error_code := exec_error_code r; ex_http_status := exec_http_status r;
     ex_media_type := exec_media_type r; ex_content_length_bytes := content_length;
     ex_provider_elapsed_ms := provider_elapsed;
     ex_url_state_id := (fun l => l.1.1) <$> lineage; ex_job_attempt_id := (fun l => l.1.2) <$> lineage;
     ex_work_generation := match lineage with Some l => l.2 | None => 0 end |}.

Definition reject_duplicate (r : CrawlExecutionRecord) : Tx CrawlExecutionRepositoryError unit :=
  let! db := tx_get in
  tx_reject (bool_decide (is_Some (execution_results (traversal db) !! id_to_string (exec_id r))))
    DuplicateExecution.

Definition insert_execution_row (r : CrawlExecutionRecord) (content_length provider_elapsed : option Z)
    (lineage : option Lineage) : Tx CrawlExecutionRepositoryError unit :=
  let! _ := reject_duplicate r in
  let! _ := tx_of (match lineage with
    | Some l => let? _ := checked_counter l.2 in Ok tt | None => Ok tt end) in
  let! _ := dbx (insert_execution (id_to_string (exec_id r))
    (execution_row r content_length provider_elapsed lineage)) in
  tx_each (fun a => dbx (insert_execution_artifact (id_to_string (exec_id r))
    (id_to_string (artifact_id a)) (artifact_kind a))) (exec_artifacts r).

(** The counters, the run and the references, then the rows. *)
Definition insert_validated (r : CrawlExecutionRecord) (lineage : option Lineage)
    : Tx CrawlExecutionRepositoryError unit :=
  let! content_length := tx_of (optional_counter (exec_content_length_bytes r)) in
  let! provider_elapsed := tx_of (optional_counter (exec_provider_elapsed_ms r)) in
  let! db := tx_get in
  let! run := tx_of (load_run_context (exec_crawl_run_id r) db) in
  let! _ := tx_of (validate_references r run db) in
  let! _ := tx_of (validate_artifact_references r db) in
  insert_execution_row r content_length provider_elapsed lineage.

Definition persist_in_transaction (r : CrawlExecutionRecord) : Tx CrawlExecutionRepositoryError unit :=
  insert_validated r None.

Definition persist_in_transaction_with_lineage (r : CrawlExecutionRecord) (state_id attempt_id : string)
    (generation : Z) : Tx CrawlExecutionRepositoryError unit :=
  let! _ := reject_duplicate r in
  insert_validated r (Some (state_id, attempt_id, generation)).

Definition persist (r : CrawlExecutionRecord) (db : Db) : result CrawlExecutionRepositoryError unit * Db :=
  match validate_record_input r with
  | Err e => (Err e, db)
  | Ok _ => transact (persist_in_transaction r) db
  end.

(** *** Ownership of the work *)

Definition active_attempt (run_id : CrawlRunId) (job_id attempt_id : string) (now : Z) (db : Db) : bool :=
  match job_attempts db !! attempt_id, jobs db !! job_id with
  | Some attempt, Some job =>
    String.eqb (att_job_id attempt) job_id
    && bool_decide (row_crawl_run_id job = Some (id_to_string run_id))
    && bool_decide (row_state job = Running)
    && (row_current_attempt job =? att_number attempt)
    && bool_decide (row_lease_id job = Some (att_lease_id attempt))
    && bool_decide (row_lease_owner job = Some (att_worker_id attempt))
    && (row_lease_generation job =? att_lease_generation attempt)
    && bool_decide (att_outcome attempt = AttemptRunning)
    && match row_lease_expires_at job with Some expires_at => now <? expires_at | None => false end
  | _, _ => false
  end.

Definition validate_active_attempt_owner (run_id : CrawlRunId) (job_id attempt_id : string) (now : Z)
    : Tx CrawlExecutionRepositoryError unit :=
  let! db := tx_get in
  tx_reject (negb (active_attempt run_id job_id attempt_id now db)) InvalidReference.

(** The state the record belongs to, at the expected generation. *)
Definition owned_state (r : CrawlExecutionRecord) (state_id : string) (generation : Z)
    (p : UrlStateColumns -> bool) (db : Db) : bool :=
  match crawl_url_state (traversal db) !! state_id with
  | Some c =>
    String.eqb (us_run c) (id_to_string (exec_crawl_run_id r))
    && String.eqb (us_canonical_url c) (exec_canonical_url r)
    && bool_decide (us_admission_state c = AdmittedWork) && p c
    && (us_work_generation c =? generation_or_min generation)
  | None => false
  end.

Definition open_work (state : option CrawlWorkState) : bool :=
  bool_decide (state ∈ [Some WorkPending; Some WorkRunning]).

Definition finished_work (c : UrlStateColumns) : bool :=
  bool_decide (us_current_work_state c ∈
    [Some WorkCompleted; Some WorkPartial; Some WorkFailed; Some WorkCancelled])
  && is_some (us_current_execution_id c).

Definition validate_current_work_owner (r : CrawlExecutionRecord) (state_id job_id attempt_id : string)
    (generation now : Z) : Tx CrawlExecutionRepositoryError unit :=
  let! db := tx_get in
  let! _ := tx_reject (negb (owned_state r state_id generation
    (fun c => open_work (us_current_work_state c)) db)) InvalidReference in
  validate_active_attempt_owner (exec_crawl_run_id r) job_id attempt_id now.

Definition validate_historical_work_owner (r : CrawlExecutionRecord)
    (state_id job_id attempt_id : string) (generation now : Z) : Tx CrawlExecutionRepositoryError unit :=
  let! db := tx_get in
  let! _ := tx_reject (negb (owned_state r state_id generation finished_work db)) InvalidReference in
  validate_active_attempt_owner (exec_crawl_run_id r) job_id attempt_id now.

Definition outcome_matches_work_state (outcome : CrawlExecutionOutcome) (state : CrawlWorkState) : bool :=
  match outcome, state with
  | ExecutionCompleted, WorkCompleted | ExecutionPartial, WorkPartial
  | ExecutionFailed, WorkFailed | ExecutionCancelled, WorkCancelled => true
  | _, _ => false
  end.

Definition persist_current_work (r : CrawlExecutionRecord) (state_id job_id attempt_id : string)
    (state : CrawlWorkState) (generation now : Z) (db : Db)
    : result CrawlExecutionRepositoryError unit * Db :=
  match validate_record_input r with
  | Err e => (Err e, db)
  | Ok _ =>
    if str_is_empty state_id || str_is_empty attempt_id
       || negb (outcome_matches_work_state (exec_outcome r) state)
    then (Err (InvalidInput "logical work lineage"), db)
    else transact (
      let! _ := validate_current_work_owner r state_id job_id attempt_id generation now in
      let! _ := persist_in_transaction_with_lineage r state_id attempt_id generation in
      let! expected := tx_of (checked_counter generation) in
      let! changed := dbx (update_url_states true
        (state_key state_id (id_to_string (exec_crawl_run_id r))
          (fun c => (us_work_generation c =? expected) && open_work (us_current_work_state c)))
        (fun c => set_work (us_work_generation c) (Some state) (Some (id_to_string (exec_id r))) c)) in
      tx_reject (negb (Nat.eqb changed 1)) ExCorruptState) db
  end.

Definition activate_current_work (run_id : CrawlRunId) (state_id job_id attempt_id : string)
    (generation now : Z) (db : Db) : result CrawlExecutionRepositoryError unit * Db :=
  if str_is_empty state_id || str_is_empty attempt_id
  then (Err (InvalidInput "logical work activation"), db)
  else transact (
    let! _ := validate_active_attempt_owner run_id job_id attempt_id now in
    let! expected := tx_of (checked_counter generation) in
    let! changed := dbx (update_url_states true
      (state_key state_id (id_to_string run_id)
        (fun c => bool_decide (us_admission_state c = AdmittedWork) && (us_work_generation c =? expected)
           && bool_decide (us_current_work_state c ∈ [Some WorkPending; Some WorkRunning; Some WorkFailed])))
      (fun c => set_work (us_work_generation c) (Some WorkRunning) None c)) in
    tx_reject (negb (Nat.eqb changed 1)) InvalidReference) db.

Definition persist_historical_work (r : CrawlExecutionRecord) (state_id job_id attempt_id : string)
    (generation now : Z) (db : Db) : result CrawlExecutionRepositoryError unit * Db :=
  match validate_record_input r with
  | Err e => (Err e, db)
  | Ok _ =>
    if str_is_empty state_id || str_is_empty attempt_id
    then (Err (InvalidInput "historical logical work lineage"), db)
    else transact (
      let! _ := validate_historical_work_owner r state_id job_id attempt_id generation now in
      persist_in_transaction_with_lineage r state_id attempt_id generation) db
  end.

(** ** Reading *)

(** The name a kind is stored under. *)
Definition artifact_kind_name (k : CrawlExecutionArtifactKind) : string :=
  match k with
  | RawHtml => "RAW_HTML" | CleanedHtml => "CLEANED_HTML" | RenderedHtml => "RENDERED_HTML"
  | Markdown => "MARKDOWN" | Screenshot => "SCREENSHOT"
  end.

Definition artifact_rows (id : string) (db : Db) : list (string * CrawlExecutionArtifactKind * string) :=
  sort_by (cmp_on (fun kv : string * CrawlExecutionArtifactKind * string => (artifact_kind_name kv.1.2, kv.2))
             (cmp_pair String.compare String.compare))
    (filter (fun kv => String.eqb kv.1.1 id = true) (map_to_list (execution_artifacts (traversal db)))).

Definition read_artifacts (id : CrawlExecutionId) (db : Db)
    : result CrawlExecutionRepositoryError (list CrawlExecutionArtifact) :=
  let? l := collect (fun kv : string * CrawlExecutionArtifactKind * string =>
      let? a := parse_id kv.2 in Ok {| artifact_id := a; artifact_kind := kv.1.2 |})
    (artifact_rows (id_to_string id) db) in
  let? _ := reject_if (negb (distinct_artifacts [] [] l)) ExCorruptState in
  Ok l.

Definition parse_optional_counter (value : option Z) : result CrawlExecutionRepositoryError (option Z) :=
  match value with
  | Some v => if 0 <=? v then Ok (Some v) else Err ExCorruptState
  | None => Ok None
  end.

Definition parse_optional_status (value : option Z) : result CrawlExecutionRepositoryError (option Z) :=
  match value with
  | Some v => if (100 <=? v) && (v <=? 599) then Ok (Some v) else Err ExCorruptState
  | None => Ok None
  end.

Definition read_record (key : string) (row : ExecutionRow) (db : Db)
    : result CrawlExecutionRepositoryError CrawlExecutionRecord :=
  let? id := parse_id key in
  let? run_id := parse_id (ex_run row) in
  let? source := parse_optional_id (ex_source_id row) in
  let? page_type := parse_optional_id (ex_page_type_id row) in
  let? transition := parse_optional_id (ex_transition_id row) in
  let? status := parse_optional_status (ex_http_status row) in
  let? content_length := parse_optional_counter (ex_content_length_bytes row) in
  let? elapsed := parse_optional_counter (ex_provider_elapsed_ms row) in
  let? found := read_artifacts id db in
  let r := {| exec_id := id; exec_crawl_run_id := run_id; exec_requested_url := ex_requested_url row;
    exec_canonical_url := ex_canonical_url row; exec_observed_final_url := ex_observed_final_url row;
    exec_source_id := source; exec_page_type_id := page_type; exec_transition_id := transition;
    exec_discovered_url_id := ex_discovered_url_id row; exec_outcome := ex_outcome row;
    exec_error_code := ex_error_code row; exec_http_status := status;
    exec_media_type := ex_media_type row; exec_content_length_bytes := content_length;
    exec_provider_elapsed_ms := elapsed; exec_artifacts := found |} in
  let? _ := validate_record_input r in
  let? run := load_run_context run_id db in
  let? _ := validate_references r run db in
  let? _ := validate_artifact_references r db in
  Ok r.

Definition read_execution (id : CrawlExecutionId) (db : Db)
    : result CrawlExecutionRepositoryError CrawlExecutionRecord :=
  let? row := ok_or ExNotFound (execution_results (traversal db) !! id_to_string id) in
  corrupt_on_read (read_record (id_to_string id) row db).

Definition list_for_run (run_id : CrawlRunId) (db : Db)
    : result CrawlExecutionRepositoryError (list CrawlExecutionRecord) :=
  let? _ := load_run_context run_id db in
  collect (fun e => corrupt_on_read (read_record e.1 e.2 db))
    (sort_by (cmp_on (fun e : string * ExecutionRow => (ex_canonical_url e.2, e.1))
       (cmp_pair String.compare String.compare))
      (select_where (fun _ row => String.eqb (ex_run row) (id_to_string run_id))
        (execution_results (traversal db)))).

(** ** Summaries *)

Definition validate_summary (s : CrawlExecutionSummary) : result CrawlExecutionRepositoryError unit :=
  let? _ := reject_if (negb (uuid_version (as_uuid (summary_run_id s)) =? 7))
    (InvalidInput "summary run identity is not a UUIDv7") in
  reject_if (sm_in_scope_pages_planned (summary_columns s) <? sm_in_scope_pages_completed (summary_columns s))
    CompletedExceedsPlannedPages.

Definition summary_counters (c : SummaryColumns) : list Z :=
  [sm_in_scope_pages_planned c; sm_in_scope_pages_completed c; sm_pagination_truncation_count c;
   sm_unresolved_partial_work_count c; sm_page_type_ambiguity_count c].

Definition summary_sql_values (s : CrawlExecutionSummary)
    : result CrawlExecutionRepositoryError SummaryColumns :=
  let? _ := validate_summary s in
  let? _ := collect checked_counter (summary_counters (summary_columns s)) in
  Ok (summary_columns s).

(** [parse_counter] of every column, and the validation of what was read. *)
Definition summary_from_row (key : string) (c : SummaryColumns)
    : result CrawlExecutionRepositoryError CrawlExecutionSummary :=
  let? run_id := parse_id key in
  let? _ := collect (fun v => if 0 <=? v then Ok v else Err ExCorruptState) (summary_counters c) in
  let s := {| summary_run_id := run_id; summary_columns := c |} in
  let? _ := map_err (fun e => match e with
    | CompletedExceedsPlannedPages | CounterOutOfRange | InvalidInput _ => ExCorruptState
    | other => other
    end) (validate_summary s) in
  Ok s.

Definition save_summary_in_transaction (s : CrawlExecutionSummary) (values : SummaryColumns)
    : Tx CrawlExecutionRepositoryError unit :=
  let! db := tx_get in
  let! _ := tx_of (load_run_context (summary_run_id s) db) in
  let key := id_to_string (summary_run_id s) in
  match execution_summaries (traversal db) !! key with
  | Some existing =>
    let! _ := tx_of (summary_from_row key existing) in
    let! updated := dbx (update_summary key values) in
    tx_reject (negb (Nat.eqb updated 1)) ExCorruptState
  | None => dbx (insert_summary key values)
  end.

Definition save_summary (s : CrawlExecutionSummary) (db : Db)
    : result CrawlExecutionRepositoryError unit * Db :=
  match summary_sql_values s with
  | Err e => (Err e, db)
  | Ok values => transact (save_summary_in_transaction s values) db
  end.

Definition map_run_error (e : CrawlRunRepositoryError) : CrawlExecutionRepositoryError :=
  match e with RunNotFound => ExNotFound | RunDatabase d => ExDatabase d end.

Definition finalize (s : CrawlExecutionSummary) (status : CrawlRunStatus) (db : Db)
    : result CrawlExecutionRepositoryError unit * Db :=
  match summary_sql_values s with
  | Err e => (Err e, db)
  | Ok values =>
    transact (
      let! _ := save_summary_in_transaction s values in
      tx_map_err map_run_error
        (if bool_decide (status = RunCancelled)
         then cancel_execution_status_in_transaction (summary_run_id s)
         else transition_execution_status_in_transaction (summary_run_id s) status)) db
  end.

Definition summary_of (run_id : CrawlRunId) (db : Db)
    : result CrawlExecutionRepositoryError CrawlExecutionSummary :=
  let? _ := load_run_context run_id db in
  let? c := ok_or SummaryNotFound (execution_summaries (traversal db) !! id_to_string run_id) in
  corrupt_on_read (summary_from_row (id_to_string run_id) c).
End executions.
