(* ===== verification/TraversalInvariants.v ===== *)
(** * Crawl work: the invariant and the elementary changes

    What [Traversal.v] and [CrawlExecution.v] keep true of the traversal tables.
    [tables_wf] is their invariant, [table_change] the relation of their elementary
    changes; every operation of the two repositories is a sequence of changes
    ([crawl_op_changes]). *)

From S2P Require Import Prelude Externals JsonFacts Base Instances Settings Guardrails Crawler Snapshot.
From S2P Require Import TraversalTables Store TraversalStore Progress Checkpoint Runs Traversal CrawlExecution.

(** ** The invariant *)

Record state_valid (k : string) (c : UrlStateColumns) : Prop := {
  sv_check : url_state_check c = true;
  sv_id : str_is_empty k = false;
  sv_canonical : byte_len (us_canonical_url c) <= MAX_URL_CHARS;
  sv_requested : byte_len (us_requested_url c) <= MAX_URL_CHARS;
  sv_seen : us_seen c = true;
  sv_reason : us_admission_state c = Resolved -> us_preserve_reason c = Some "CANONICAL_REDIRECT"%string;
  sv_sequence : forall s, us_admission_sequence c = Some s -> 0 <= s <= i64_max;
  sv_depth : forall d, us_depth c = Some d -> in_u32 d;
  sv_generation : 0 <= us_work_generation c <= i64_max
}.

(** The state's current execution is evidence of its current generation. *)
Definition execution_linked (tr : TraversalTables) (k : string) (c : UrlStateColumns) : Prop :=
  forall e, us_current_execution_id c = Some e ->
  exists row, execution_results tr !! e = Some row /\ ex_run row = us_run c /\
    ex_url_state_id row = Some k /\ ex_work_generation row = us_work_generation c.

(** No other state of the run has the URL or the admission sequence of [c]. *)
Definition no_conflict (tr : TraversalTables) (k : string) (c : UrlStateColumns) : Prop :=
  forall k' d, crawl_url_state tr !! k' = Some d -> url_state_conflict k c k' d = false.

Definition counter (n : Z) : Prop := 0 <= n <= i64_max.

Record tables_wf (tr : TraversalTables) : Prop := {
  tw_states : forall k c, crawl_url_state tr !! k = Some c ->
    state_valid k c /\ execution_linked tr k c /\ no_conflict tr k c;
  tw_control : forall run c, traversal_control tr !! run = Some c -> Forall counter (control_counters c);
  tw_page_types : forall k v, page_type_counts tr !! k = Some v -> counter v.1 /\ counter v.2;
  tw_transitions : forall k n, transition_source_counts tr !! k = Some n -> counter n;
  (** an item belongs to its action, and names a state of the action's run *)
  tw_items : forall a k i, recovery_action_items tr !! (a, k) = Some i ->
    (exists r, recovery_actions tr !! a = Some r /\ ra_run r = ri_run i) /\
    (exists c, crawl_url_state tr !! k = Some c /\ us_run c = ri_run i) /\
    0 <= ri_previous_work_generation i /\
    ri_prepared_work_generation i = ri_previous_work_generation i + 1;
  tw_artifacts : forall e kind x, execution_artifacts tr !! (e, kind) = Some x ->
    is_Some (execution_results tr !! e)
}.

(** ** Elementary changes *)

(** A change of one state outside a recovery action. *)
Inductive work_update : UrlStateColumns -> UrlStateColumns -> Prop :=
| wu_observed n c :
    us_admission_state c = AdmittedWork -> us_current_work_state c = Some WorkPending ->
    byte_len (us_requested_url n) <= MAX_URL_CHARS ->
    (forall s, us_admission_sequence n = Some s -> 0 <= s <= i64_max) ->
    (forall d, us_depth n = Some d -> in_u32 d) -> work_update c (merge_pending n c)
| wu_settled n c : work_update c (merge_settled n c)
| wu_semantics v c : work_update c (set_semantics v c)
| wu_resolved final_id url c :
    us_admission_state c = AdmittedWork -> work_update c (set_resolved final_id url c)
| wu_started e c :
    us_admission_state c = AdmittedWork ->
    us_current_work_state c ∈ [Some WorkPending; Some WorkRunning; Some WorkFailed] ->
    e = None \/ e = us_current_execution_id c ->
    work_update c (set_work (us_work_generation c) (Some WorkRunning) e c)
| wu_finished s e c :
    us_admission_state c = AdmittedWork -> open_work (us_current_work_state c) = true ->
    s ∈ [WorkCompleted; WorkPartial; WorkFailed; WorkCancelled] ->
    work_update c (set_work (us_work_generation c) (Some s) (Some e) c).

(** The next generation of a state's work, and the item that records it. *)
Definition bumped (c : UrlStateColumns) : UrlStateColumns :=
  set_work (us_work_generation c + 1) (Some WorkPending) None c.
Definition item_for (run : string) (c : UrlStateColumns) : RecoveryItemRow :=
  {| ri_run := run; ri_previous_work_generation := us_work_generation c;
     ri_prepared_work_generation := us_work_generation c + 1 |}.

Definition bump_all (l : list (string * UrlStateColumns)) (m : gmap string UrlStateColumns)
    : gmap string UrlStateColumns := foldl (fun m e => <[e.1 := bumped e.2]> m) m l.
Definition add_items (action run : string) (l : list (string * UrlStateColumns))
    (m : gmap (string * string) RecoveryItemRow) : gmap (string * string) RecoveryItemRow :=
  foldl (fun m e => <[(action, e.1) := item_for run e.2]> m) m l.

Definition prepared_tables (action : string) (r : RecoveryActionRow)
    (l : list (string * UrlStateColumns)) (tr : TraversalTables) : TraversalTables :=
  set_recovery_action_items (add_items action (ra_run r) l (recovery_action_items tr))
    (set_crawl_url_state (bump_all l (crawl_url_state tr))
      (set_recovery_actions (<[action := r]> (recovery_actions tr)) tr)).

(** A state an action may take up. *)
Definition preparable (run : string) (tr : TraversalTables) (e : string * UrlStateColumns) : Prop :=
  crawl_url_state tr !! e.1 = Some e.2 /\ us_run e.2 = run /\ us_admission_state e.2 = AdmittedWork /\
  us_work_generation e.2 + 1 <= i64_max.

Definition keeps_execution (c c' : UrlStateColumns) : Prop :=
  us_run c' = us_run c /\ us_current_execution_id c' = us_current_execution_id c /\
  us_work_generation c' = us_work_generation c.

Inductive table_change (tr : TraversalTables) : TraversalTables -> Prop :=
| tc_insert_state k c :
    crawl_url_state tr !! k = None -> state_valid k c -> execution_linked tr k c -> no_conflict tr k c ->
    table_change tr (set_crawl_url_state (<[k := c]> (crawl_url_state tr)) tr)
| tc_update_state k c c' :
    crawl_url_state tr !! k = Some c -> work_update c c' -> url_state_check c' = true ->
    keeps_execution c c' \/ execution_linked tr k c' -> no_conflict tr k c' ->
    table_change tr (set_crawl_url_state (<[k := c']> (crawl_url_state tr)) tr)
| tc_prepare action r l :
    recovery_actions tr !! action = None -> NoDup (map fst l) ->
    Forall (preparable (ra_run r) tr) l -> table_change tr (prepared_tables action r l tr)
| tc_discover id r :
    discovered_urls tr !! id = None ->
    table_change tr (set_discovered_urls (<[id := r]> (discovered_urls tr)) tr)
| tc_execute id r :
    execution_results tr !! id = None ->
    table_change tr (set_execution_results (<[id := r]> (execution_results tr)) tr)
| tc_artifact k a :
    execution_artifacts tr !! k = None -> is_Some (execution_results tr !! k.1) ->
    table_change tr (set_execution_artifacts (<[k := a]> (execution_artifacts tr)) tr)
| tc_provenance k ordinal :
    seed_provenance tr !! k = None ->
    table_change tr (set_seed_provenance (<[k := ordinal]> (seed_provenance tr)) tr)
| tc_control run c :
    Forall counter (control_counters c) ->
    table_change tr (set_traversal_control (<[run := c]> (traversal_control tr)) tr)
| tc_page_types t :
    (forall k v, t !! k = Some v -> page_type_counts tr !! k = Some v \/ counter v.1 /\ counter v.2) ->
    table_change tr (set_page_type_counts t tr)
| tc_transitions t :
    (forall k n, t !! k = Some n -> transition_source_counts tr !! k = Some n \/ counter n) ->
    table_change tr (set_transition_source_counts t tr)
| tc_summary t : table_change tr (set_execution_summaries t tr).

Definition table_changes : TraversalTables -> TraversalTables -> Prop := rtc table_change.

(** A transaction changes the traversal tables by elementary changes only. *)
Definition crawls {E A} (t : Tx E A) : Prop :=
  forall db a db', t db = Ok (a, db') -> table_changes (traversal db) (traversal db').

(** * Lemmas *)

(** ** Transactions *)

(** [tx_step] through the error conversions of the two repositories. *)
Ltac crawl_step H := unfold dbt, dbx in H; tx_step H; subst.

Section crawls_lemmas.
Context {E A B : Type}.

Lemma crawls_bind (t : Tx E A) (k : A -> Tx E B) :
  crawls t -> (forall a, crawls (k a)) -> crawls (tx_bind t k).
Proof.
  intros Ht Hk db b db' (a & db1 & H1 & H2)%tx_bind_ok. etrans; [by eapply Ht|by eapply Hk].
Qed.

Lemma crawls_ret (a : A) : crawls (E := E) (tx_ret a).
Proof. intros db b db' [-> ->]%tx_ret_ok. apply rtc_refl. Qed.
Lemma crawls_get : crawls (E := E) tx_get.
Proof. intros db b db' [-> ->]%tx_get_ok. apply rtc_refl. Qed.
Lemma crawls_of (r : result E A) : crawls (tx_of r).
Proof. intros db b db' [_ ->]%tx_of_ok. apply rtc_refl. Qed.
Lemma crawls_fail (e : E) : crawls (A := A) (tx_fail e).
Proof. by intros db b db' H. Qed.
Lemma crawls_reject b (e : E) : crawls (tx_reject b e).
Proof. intros db u db' [_ ->]%tx_reject_ok. apply rtc_refl. Qed.
Lemma crawls_map_err {F} (f : E -> F) (t : Tx E A) : crawls t -> crawls (tx_map_err f t).
Proof. intros Ht db a db' H%tx_map_err_ok. by eapply Ht. Qed.

Lemma crawls_fold (f : B -> A -> Tx E B) l :
  (forall b a, a ∈ l -> crawls (f b a)) -> forall acc, crawls (tx_fold f l acc).
Proof.
  induction l as [|x l IH]; intros Hf acc db b db' H; simpl in H.
  - apply tx_ret_ok in H as [_ ->]. apply rtc_refl.
  - apply tx_bind_ok in H as (b1 & db1 & H1 & H2). etrans.
    + eapply Hf; [left|done].
    + eapply IH, H2. intros. apply Hf. by right.
Qed.

Lemma crawls_elsewhere (t : Tx E A) :
  (forall db a db', t db = Ok (a, db') -> traversal db' = traversal db) -> crawls t.
Proof. intros H db a db' Ht. rewrite (H _ _ _ Ht). apply rtc_refl. Qed.
End crawls_lemmas.

Lemma crawls_each {E A} (f : A -> Tx E unit) l :
  (forall a, a ∈ l -> crawls (f a)) -> crawls (tx_each f l).
Proof. intros Hf. apply crawls_fold. intros _ a. apply Hf. Qed.

#[export] Hint Resolve crawls_bind crawls_ret crawls_get crawls_of crawls_fail crawls_reject
  crawls_map_err : erabi.

Lemma transact_crawls {E A} (t : Tx E A) db r db' :
  crawls t -> transact t db = (r, db') -> table_changes (traversal db) (traversal db').
Proof.
  unfold transact. intros Ht. destruct (t db) as [[a db1]|e] eqn:H; intros [= _ <-]; [by eapply Ht|].
  apply rtc_refl.
Qed.

(** ** Statements *)

Lemma no_conflict_spec k c db :
  url_state_unique k c db = true <-> no_conflict (traversal db) k c.
Proof. unfold url_state_unique. rewrite negb_true_iff, exists_where_false. done. Qed.

Lemma execution_matches_linked k c db :
  execution_matches k c db = true -> execution_linked (traversal db) k c.
Proof.
  unfold execution_matches. intros H e He. rewrite He in H.
  destruct (execution_results _ !! e) as [row|]; [|done]. boolify. exists row. done.
Qed.

Lemma state_change sw k c c' db :
  crawl_url_state (traversal db) !! k = Some c -> work_update c c' ->
  url_state_update_ok sw k c c' db = true -> sw = true \/ keeps_execution c c' ->
  table_change (traversal db) (set_crawl_url_state (<[k := c']> (crawl_url_state (traversal db))) (traversal db)).
Proof.
  unfold url_state_update_ok. intros Hk Hu Hok Hsw. apply andb_true_iff in Hok as [Hok Htr].
  apply andb_true_iff in Hok as [Hok Hun]. apply andb_true_iff in Hok as [Hc _].
  apply tc_update_state with c; [done..| |by apply no_conflict_spec].
  destruct Hsw as [->|]; [right|by left]. cbn [negb orb] in Htr. unfold work_triggers in Htr.
  apply andb_true_iff in Htr as [_ Htr]. by apply execution_matches_linked.
Qed.

Lemma with_traversal_same db :
  with_traversal (set_crawl_url_state (crawl_url_state (traversal db)) (traversal db)) db = db.
Proof. destruct db as [? ? ? ? ? ? ? ? ? [] ?]. done. Qed.

(** An update that selects nothing changes nothing. *)
Lemma update_url_states_none sw p f db n db' :
  (forall k c, crawl_url_state (traversal db) !! k = Some c -> p k c = false) ->
  update_url_states sw p f db = Ok (n, db') -> n = 0%nat /\ db' = db.
Proof.
  intros Hn (_ & -> & ->)%update_url_states_inv. split.
  - assert (matching p (crawl_url_state (traversal db)) = ∅) as ->; [|done].
    apply map_eq. intros i. rewrite lookup_empty. apply eq_None_not_Some.
    intros [d [Hd Hp]%matching_lookup]. by rewrite (Hn _ _ Hd) in Hp.
  - etrans; [|apply with_traversal_same]. f_equal. f_equal. apply map_eq. intros i.
    rewrite map_lookup_imap. destruct (_ !! i) eqn:Hi; simpl; [|done]. by rewrite (Hn _ _ Hi).
Qed.

(** An update by key changes one row, or nothing. *)
Lemma update_key_inv sw k run q f db n db' :
  update_url_states sw (state_key k run q) f db = Ok (n, db') ->
  (n = 1%nat /\ exists c, crawl_url_state (traversal db) !! k = Some c /\ us_run c = run /\ q c = true /\
     url_state_update_ok sw k c (f c) db = true /\
     db' = with_traversal (set_crawl_url_state (<[k := f c]> (crawl_url_state (traversal db)))
             (traversal db)) db) \/
  (n = 0%nat /\ db' = db).
Proof.
  intros H. destruct (crawl_url_state (traversal db) !! k) as [c|] eqn:Hk;
    [destruct (String.eqb (us_run c) run && q c) eqn:Hq|].
  - left. assert (Hs : selects (state_key k run q) (crawl_url_state (traversal db)) k c).
    { by apply (selects_key (fun c => String.eqb (us_run c) run && q c)). }
    assert (n = 1%nat) as ->.
    { apply update_url_states_inv in H as (_ & -> & _).
      by rewrite (matching_one _ _ _ _ Hs), map_size_singleton. }
    split; [done|]. apply update_url_states_one in H as (k' & c' & (Hk' & Hp' & _) & Hok & ->).
    unfold state_key in Hp'. apply andb_true_iff in Hp' as [->%String.eqb_eq _].
    rewrite Hk in Hk'. injection Hk' as <-. apply andb_true_iff in Hq as [Hr%String.eqb_eq Hq].
    by exists c.
  - right. apply update_url_states_none in H; [done|]. intros i d Hi. unfold state_key.
    destruct (String.eqb_spec i k) as [-> |]; [|done]. rewrite Hk in Hi. by injection Hi as <-.
  - right. apply update_url_states_none in H; [done|]. intros i d Hi. unfold state_key.
    destruct (String.eqb_spec i k) as [-> |]; [|done]. congruence.
Qed.

(** ** Records *)

Lemma validate_state_ok s u :
  validate_state s = Ok u ->
  let c := st_columns s in
  str_is_empty (st_id s) = false /\ byte_len (us_canonical_url c) <= MAX_URL_CHARS /\
  byte_len (us_requested_url c) <= MAX_URL_CHARS /\ us_seen c = true /\
  (us_admission_state c = Resolved -> us_preserve_reason c = Some "CANONICAL_REDIRECT"%string) /\
  (us_admission_state c = AdmittedWork -> is_Some (us_admission_sequence c)).
Proof.
  unfold validate_state. rewrite !reject_then_ok, reject_if_ok. intros (H1 & H2 & _ & H3).
  apply negb_false_iff in H3. boolify. simpl. split; [done|]. split; [done|]. split; [done|].
  split; [done|]. split; intros Ha; rewrite Ha in H3; boolify; [done|]. by apply is_some_true.
Qed.

(** The fields of a record are unsigned, the depth a [u32]. *)
Definition typed_state (s : CrawlUrlStateRecord) : Prop :=
  let c := st_columns s in
  (forall n, us_admission_sequence c = Some n -> 0 <= n) /\
  (forall d, us_depth c = Some d -> in_u32 d) /\ 0 <= us_work_generation c.

Lemma i64_from_ok v n : i64_from v = Ok n <-> n = v /\ v <= i64_max.
Proof. unfold i64_from. destruct (Z.leb_spec v i64_max); naive_solver lia. Qed.

Lemma stored_columns_ok s c :
  stored_columns s = Ok c ->
  c = st_columns s /\ (forall n, us_admission_sequence c = Some n -> n <= i64_max) /\
  us_work_generation c <= i64_max.
Proof.
  unfold stored_columns, transpose. intros H.
  destruct (us_admission_sequence (st_columns s)) as [n|] eqn:Hs.
  - destruct (i64_from n) eqn:Hn; [|done]. apply i64_from_ok in Hn as [_ Hn].
    destruct (i64_from (us_work_generation _)) eqn:Hg; [|done]. apply i64_from_ok in Hg as [_ Hg].
    injection H as <-. split; [done|]. rewrite Hs. split; [|done]. by intros ? [= <-].
  - destruct (i64_from (us_work_generation _)) eqn:Hg; [|done]. apply i64_from_ok in Hg as [_ Hg].
    injection H as <-. split; [done|]. rewrite Hs. done.
Qed.

(** A checked, validated record may be stored. *)
Lemma stored_valid s u c :
  typed_state s -> validate_state s = Ok u -> stored_columns s = Ok c -> url_state_check c = true ->
  state_valid (st_id s) c.
Proof.
  intros (Hseq & Hdepth & Hgen) (Hid & Hcan & Hreq & Hseen & Hres & _)%validate_state_ok
    (-> & Hseq' & Hgen')%stored_columns_ok Hc.
  split; try done.
  - intros n Hn. specialize (Hseq n Hn). specialize (Hseq' n Hn). lia.
Qed.

Lemma as_u64_ok v n : as_u64 v = Ok n <-> n = v /\ 0 <= v.
Proof. unfold as_u64. destruct (Z.leb_spec 0 v); naive_solver lia. Qed.

Lemma as_u32_ok v n : as_u32 v = Ok n <-> n = v /\ in_u32 v.
Proof.
  unfold as_u32, in_u32. destruct (Z.leb_spec 0 v), (Z.leb_spec v u32_max); simpl; naive_solver lia.
Qed.

Section operations.
Context `{U : UuidLib} `{L : UrlLib} `{SD : SerdeLib} `{J : JsonLib} `{Hash : HashLib} `{Hosts : HostLib}.
Context `{W : !SnapshotWire} `{VW : !VersionWire}.

Lemma crawls_insert_provenance s seed : crawls (insert_seed_provenance_value s seed).
Proof.
  intros db u db' H. unfold insert_seed_provenance_value in H. crawl_step H.
  destruct (bool_decide _); crawl_step H; [apply rtc_refl|].
  unfold insert_seed_provenance_row in H. apply constrained_ok in H as [Hok ->]. boolify.
  by apply rtc_once, tc_provenance.
Qed.
Hint Resolve crawls_insert_provenance : erabi.

Lemma crawls_provenance s : crawls (insert_seed_provenance s).
Proof. apply crawls_each. eauto with erabi. Qed.

Lemma crawls_append_provenance s seeds : crawls (append_seed_provenance s seeds).
Proof. apply crawls_each. eauto with erabi. Qed.
Hint Resolve crawls_provenance crawls_append_provenance : erabi.

(** Validation leaves the database alone. *)
Lemma relationships_ok s run db u db' :
  validate_state_relationships s run db = Ok (u, db') ->
  db' = db /\ forall e, us_current_execution_id (st_columns s) = Some e ->
    exists row, execution_results (traversal db) !! e = Some row /\ ex_run row = run /\
      ex_url_state_id row = Some (st_id s) /\ ex_work_generation row = us_work_generation (st_columns s).
Proof.
  unfold validate_state_relationships. intros H. tx_step H.
  destruct (us_current_execution_id (st_columns s)) as [e|]; tx_step H; subst; [|done].
  split; [done|]. intros ? [= <-]. apply i64_from_ok in Eof as [-> _].
  destruct (execution_results _ !! e) as [row|]; [|done]. apply negb_false_iff in Erej.
  boolify. by exists row.
Qed.

Lemma ownership_ok s run db u db' :
  validate_state_ownership s run db = Ok (u, db') ->
  db' = db /\ us_run (st_columns s) = run /\ validate_state_relationships s run db = Ok (u, db).
Proof.
  unfold validate_state_ownership. intros H. tx_step H. subst.
  apply negb_false_iff, String.eqb_eq in Erej. pose proof H as H'.
  apply relationships_ok in H' as [-> _]. done.
Qed.

Lemma insert_url_state_ok k c db u db' :
  insert_url_state k c db = Ok (u, db') ->
  crawl_url_state (traversal db) !! k = None /\ url_state_check c = true /\
  no_conflict (traversal db) k c /\
  db' = with_traversal (set_crawl_url_state (<[k := c]> (crawl_url_state (traversal db))) (traversal db)) db.
Proof.
  unfold insert_url_state. intros [Hok ->]%constrained_ok.
  apply andb_true_iff in Hok as [Hok Hun%no_conflict_spec]. boolify. done.
Qed.

Lemma crawls_insert_state s : typed_state s -> crawls (insert_state s).
Proof.
  intros Hty db u db' H. unfold insert_state in H. crawl_step H.
  match goal with Ho : validate_state_ownership _ _ _ = _ |- _ => apply ownership_ok in Ho as (-> & _ & Hrel) end.
  apply relationships_ok in Hrel as [_ Hex].
  match goal with Hi : insert_url_state _ _ _ = _ |- _ =>
    apply insert_url_state_ok in Hi as (Hnone & Hc & Hun & ->) end.
  pose proof (stored_columns_ok _ _ Eof0) as [Hcols _].
  eapply rtc_l; [|eapply crawls_provenance, H].
  apply tc_insert_state; [done|by eapply stored_valid| |done].
  intros e He. rewrite Hcols in He |- *. destruct (Hex e He) as (row & Hr). by exists row.
Qed.

Lemma row_by_canonical_some run url db k c :
  row_by_canonical run url db = Some (k, c) ->
  crawl_url_state (traversal db) !! k = Some c /\ us_run c = run /\ us_canonical_url c = url.
Proof.
  unfold row_by_canonical. intros Hh. assert (Hin : (k, c) ∈ select_where (at_canonical run url)
      (crawl_url_state (traversal db))).
  { destruct (select_where _ _) as [|e l]; [done|]. injection Hh as ->. left. }
  apply elem_of_select_where in Hin as [Hk Hp]. unfold at_canonical in Hp. boolify. done.
Qed.

Lemma row_by_canonical_none run url db :
  row_by_canonical run url db = None ->
  forall k c, crawl_url_state (traversal db) !! k = Some c -> at_canonical run url k c = false.
Proof.
  unfold row_by_canonical. intros Hh k c Hk. destruct (at_canonical run url k c) eqn:Hp; [|done].
  assert (Hin : (k, c) ∈ select_where (at_canonical run url) (crawl_url_state (traversal db)))
    by (by apply elem_of_select_where).
  destruct (select_where _ _); [by apply not_elem_of_nil in Hin|done].
Qed.

Lemma crawls_upsert s : typed_state s -> crawls (upsert_discovery_state s).
Proof.
  intros Hty db u db' H. unfold upsert_discovery_state in H. crawl_step H.
  match goal with Ho : validate_state_ownership _ _ _ = _ |- _ => apply ownership_ok in Ho as (-> & _ & _) end.
  destruct (row_by_canonical _ _ db) as [[k c]|] eqn:Hrow; [|by eapply crawls_insert_state].
  apply row_by_canonical_some in Hrow as (Hk & _ & _). crawl_step H.
  etrans; [|eapply crawls_provenance, H].
  destruct (bool_decide _ && _ && _) eqn:Hpend; crawl_step Hs.
  - apply andb_true_iff in Hpend as [[Ha _]%andb_true_iff Hp]. apply bool_decide_eq_true in Ha, Hp.
    apply update_key_inv in Hs as [(_ & c' & Hk' & _ & _ & Hok & ->)|[_ ->]]; [|apply rtc_refl].
    rewrite Hk in Hk'. injection Hk' as <-. simpl. apply rtc_once.
    apply (state_change false _ c); [done| |done|by right].
    destruct (validate_state_ok _ _ Eof) as (_ & _ & Hreq & _).
    apply wu_observed; [done..| |by destruct Hty as (_ & Hd & _)].
    intros n Hn. destruct Hty as (Hseq & _ & _). specialize (Hseq n Hn).
    apply ok_or_ok in Eof0. rewrite Hn in Eof0. injection Eof0 as <-. apply i64_from_ok in Eof1 as [_ ?]. lia.
  - apply update_key_inv in Hs as [(_ & c' & Hk' & _ & _ & Hok & ->)|[_ ->]]; [|apply rtc_refl].
    rewrite Hk in Hk'. injection Hk' as <-. simpl. apply rtc_once.
    apply (state_change false _ c); [done|apply wu_settled|done|by right].
Qed.

Lemma record_of_row_ok db k c s :
  record_of_row db k c = Ok s ->
  st_id s = k /\ st_columns s = c /\ typed_state s /\ validate_state s = Ok tt.
Proof.
  unfold record_of_row, transpose. intros H.
  assert (Hseq : forall n, us_admission_sequence c = Some n -> 0 <= n).
  { intros n Hn. rewrite Hn in H. destruct (as_u64 n) eqn:Hu; [|done]. by apply as_u64_ok in Hu as [_ Hu]. }
  destruct (match us_admission_sequence c with Some _ => _ | None => _ end); [|done].
  assert (Hdepth : forall n, us_depth c = Some n -> in_u32 n).
  { intros n Hn. rewrite Hn in H. destruct (as_u32 n) eqn:Hu; [|done]. by apply as_u32_ok in Hu as [_ Hu]. }
  destruct (match us_depth c with Some _ => _ | None => _ end); [|done].
  destruct (as_u64 (us_work_generation c)) eqn:Hg; [|done]. apply as_u64_ok in Hg as [_ Hg].
  destruct (validate_state _) as [[]|] eqn:Hv; [|done]. injection H as <-. done.
Qed.

Lemma read_by_canonical_ok run url db found :
  read_state_by_canonical run url db = Ok found ->
  match found with
  | Some s => crawl_url_state (traversal db) !! st_id s = Some (st_columns s) /\
      us_run (st_columns s) = run /\ us_canonical_url (st_columns s) = url /\
      typed_state s /\ validate_state s = Ok tt
  | None => row_by_canonical run url db = None
  end.
Proof.
  unfold read_state_by_canonical. destruct (row_by_canonical run url db) as [[k c]|] eqn:Hrow.
  - apply row_by_canonical_some in Hrow as (Hk & Hrun & Hurl).
    destruct (record_of_row db k c) as [s|] eqn:Hs; [|done]. intros [= <-].
    apply record_of_row_ok in Hs as (Hid & Hcols & Hty & Hv). by rewrite Hid, Hcols.
  - by intros [= <-].
Qed.

Lemma crawls_resolve k run final_id url :
  crawls (dbt (update_url_states true
    (state_key k run (fun c => bool_decide (us_admission_state c = AdmittedWork)))
    (set_resolved final_id url))).
Proof.
  intros db n db' H. crawl_step H.
  apply update_key_inv in H as [(_ & c & Hk & _ & Ha & Hok & ->)|[_ ->]]; [|apply rtc_refl].
  apply bool_decide_eq_true in Ha. apply rtc_once, (state_change true _ c); [done| |done|by left].
  by apply wu_resolved.
Qed.
Hint Resolve crawls_resolve : erabi.

Lemma crawls_reconcile run redirect : crawls (reconcile_redirect run redirect).
Proof.
  intros db u db' H. unfold reconcile_redirect in H. tx_step H. subst.
  apply ok_or_ok in Eof0. subst. apply read_by_canonical_ok in Eof as (_ & _ & _ & Hty & _).
  destruct (us_admission_state (st_columns a1)) eqn:Ha; [|by tx_step H|].
  2: { tx_step H. apply rtc_refl. }
  apply tx_bind_ok in H as (found & db1 & Hf & H). tx_step Hf. subst.
  apply tx_bind_ok in H as (v & db2 & Hfinal & H). etrans.
  2: { eapply (crawls_bind _ _ (crawls_resolve _ _ _ _)); [|exact H]. intros. apply crawls_reject. }
  destruct found as [s|].
  - tx_step Hfinal. by eapply crawls_append_provenance.
  - eapply crawls_insert_state, Hfinal. destruct Hty as (? & ? & ?). by split.
Qed.

Lemma control_values_ok control c :
  control_values control = Ok c ->
  c = ctl_columns control /\ Forall (fun n => n <= i64_max) (control_counters c).
Proof.
  unfold control_values. destruct (collect _ _) as [l|] eqn:Hl; [|done]. intros [= <-]. split; [done|].
  apply collect_ok in Hl. clear -Hl. induction Hl as [|n m l k Hn _ IH]; constructor; [|done].
  by apply i64_from_ok in Hn as [_ Hn].
Qed.

Lemma counters_in_range control c :
  control_values control = Ok c -> control_check c = true -> Forall counter (control_counters c).
Proof.
  intros [-> Hmax]%control_values_ok Hc. unfold control_check, all_non_negative in Hc.
  rewrite forallb_forall in Hc. apply Forall_forall. intros n Hn. rewrite Forall_forall in Hmax.
  split; [|by apply Hmax]. apply Z.leb_le, Hc, list_elem_of_In, Hn.
Qed.

Lemma crawls_insert_control control : crawls (insert_control control).
Proof.
  intros db u db' H. unfold insert_control in H. crawl_step H. unfold insert_control_row in H.
  apply constrained_ok in H as [Hok ->]. apply andb_true_iff in Hok as [_ Hc].
  apply rtc_once, tc_control. by eapply counters_in_range.
Qed.

Lemma crawls_update_control control : crawls (update_control control).
Proof.
  intros db u db' H. unfold update_control in H. crawl_step H.
  match goal with Hu : update_control_row _ _ _ = _ |- _ => rename Hu into Hs end.
  unfold update_control_row in Hs. destruct (update_where _ _ _ _) as [[n t]|] eqn:Hu; [|done].
  injection Hs as -> <-. apply negb_false_iff, Nat.eqb_eq in Erej. subst.
  apply update_where_one in Hu as (k & c & _ & Hc & ->). apply rtc_once, tc_control.
  by eapply counters_in_range.
Qed.
Hint Resolve crawls_insert_control crawls_update_control crawls_reconcile : erabi.

(** *** Counts, projection, work in flight *)

Definition typed_counts (l : list CrawlTransitionSourceCount) : Prop :=
  Forall (fun c => 0 <= tc_eligible_edge_count c) l.

Lemma crawls_transition_counts run counts :
  typed_counts counts -> crawls (replace_transition_counts run counts).
Proof.
  intros Hty. unfold replace_transition_counts. repeat (apply crawls_bind; [solve [eauto with erabi]|intros ?]).
  apply crawls_bind.
  - intros db u db' H. crawl_step H. apply write_traversal_ok in H as ->. apply rtc_once, tc_transitions.
    intros k n Hk. apply map_lookup_filter_Some in Hk as [Hk _]. by left.
  - intros _. apply crawls_each. intros c Hc db u db' H. crawl_step H.
    apply i64_from_ok in Eof as [-> Hmax]. unfold insert_transition_count in H.
    apply constrained_ok in H as [_ ->]. apply rtc_once, tc_transitions. intros k n Hk.
    apply lookup_insert_Some in Hk as [[_ <-]|[_ Hk]]; [right|by left]. split; [|done].
    unfold typed_counts in Hty. rewrite Forall_forall in Hty. by apply Hty.
Qed.

Lemma crawls_project_state run seen v : crawls (project_state run seen v).
Proof.
  intros db l db' H. unfold project_state in H. crawl_step H.
  apply negb_false_iff, Nat.eqb_eq in Erej2. subst.
  match goal with Hu : update_url_states _ _ _ _ = _ |- _ =>
    apply update_url_states_one in Hu as (k & c & (Hk & _) & Hok & ->) end.
  apply rtc_once, (state_change false _ c); [done|apply wu_semantics|done|by right].
Qed.

Definition typed_page_counts (c : CrawlTraversalPageTypeCounts) : Prop :=
  0 <= pc_sampled_count c /\ 0 <= pc_discovered_count c.

Lemma crawls_project_page_type run seen c :
  typed_page_counts c -> crawls (project_page_type run seen c).
Proof.
  intros [H1 H2] db l db' H. unfold project_page_type in H. crawl_step H.
  apply i64_from_ok in Eof as [-> ?], Eof0 as [-> ?].
  match goal with Hi : insert_page_type_count _ _ _ _ _ = _ |- _ =>
    unfold insert_page_type_count in Hi; apply constrained_ok in Hi as [_ ->] end.
  apply rtc_once, tc_page_types. intros k v Hk.
  apply lookup_insert_Some in Hk as [[_ <-]|[_ Hk]]; [right|by left]. by repeat split.
Qed.

Definition typed_projection (p : CrawlTraversalSemanticProjection) : Prop :=
  Forall typed_page_counts (projection_page_type_counts p).

Lemma crawls_projection run p : typed_projection p -> crawls (apply_semantic_projection run p).
Proof.
  intros Hty. unfold apply_semantic_projection. destruct (url_states p) as [|v l]; [apply crawls_ret|].
  apply crawls_bind; [apply crawls_fold; intros; apply crawls_project_state|]. intros seen.
  repeat (apply crawls_bind; [solve [eauto with erabi]|intros ?]). apply crawls_bind.
  - intros db u db' H. crawl_step H. apply write_traversal_ok in H as ->. apply rtc_once, tc_page_types.
    intros k n Hk. apply map_lookup_filter_Some in Hk as [Hk _]. by left.
  - intros _. apply crawls_bind; [|eauto with erabi]. apply crawls_fold. intros b c Hc.
    apply crawls_project_page_type. unfold typed_projection in Hty. rewrite Forall_forall in Hty. by apply Hty.
Qed.

Lemma crawls_mark_one run ids w : crawls (mark_one run ids w).
Proof.
  intros db l db' H. unfold mark_one in H. crawl_step H.
  destruct (bool_decide _ && _); crawl_step H; [apply rtc_refl|].
  match goal with Hu : update_url_states _ _ _ _ = _ |- _ =>
    apply update_key_inv in Hu as [(_ & c & Hk & _ & Hq & Hok & ->)|[_ ->]] end; [|apply rtc_refl].
  apply andb_true_iff in Hq as [[Ha _]%andb_true_iff Hp]. apply bool_decide_eq_true in Ha, Hp.
  apply rtc_once, (state_change false _ c); [done| |done|by right].
  apply wu_started; [done| |by right]. set_solver.
Qed.

Lemma crawls_mark run l : crawls (mark_in_flight_work run l).
Proof.
  apply crawls_bind; [|eauto with erabi]. apply crawls_fold. intros. apply crawls_mark_one.
Qed.

(** *** Evidence *)

Lemma crawls_discover r : crawls (record_discovered_url_in_transaction r).
Proof.
  intros db u db' H. unfold record_discovered_url_in_transaction in H. crawl_step H.
  destruct (discovered_urls _ !! dr_id r) as [row|] eqn:Hr; crawl_step H; [apply rtc_refl|].
  unfold record_discovered_url_values in H. crawl_step H. unfold insert_discovered_url in H.
  apply constrained_ok in H as [_ ->]. by apply rtc_once, tc_discover.
Qed.

Lemma crawls_evidence l : crawls (record_evidence l).
Proof. apply crawls_each. intros r _. apply crawls_map_err, crawls_discover. Qed.
Hint Resolve crawls_mark crawls_evidence : erabi.

Lemma crawls_checkpoint job attempt lease c at_ :
  crawls (append_checkpoint_in_transaction job attempt lease c at_).
Proof.
  apply crawls_elsewhere. intros db r db' H.
  apply append_checkpoint_inv in H as (_ & n & text & _ & _ & _ & _ & ->). done.
Qed.

(** *** Recovery actions *)

Lemma elem_of_recovery_order p db k c :
  (k, c) ∈ in_recovery_order p db <-> crawl_url_state (traversal db) !! k = Some c /\ p k c = true.
Proof. unfold in_recovery_order. by rewrite elem_of_sort_by, elem_of_select_where. Qed.

Lemma recovery_order_keys p db : NoDup (map fst (in_recovery_order p db)).
Proof.
  unfold in_recovery_order. rewrite (Permutation_map fst (sort_by_perm _ _)). apply select_where_keys.
Qed.

Lemma next_generation_ok g n : next_generation g = Ok n <-> n = g + 1 /\ 0 <= g /\ g + 1 <= i64_max.
Proof.
  unfold next_generation, as_u64, ok_or, checked_add, i64_from.
  assert (i64_max < u64_max) by done.
  destruct (Z.leb_spec 0 g); [|naive_solver lia].
  destruct (Z.leb_spec (g + 1) u64_max); [|naive_solver lia].
  destruct (Z.leb_spec (g + 1) i64_max); naive_solver lia.
Qed.

(** The tables after the states of [l] are taken up by [action]. *)
Definition taken_up (action run : string) (l : list (string * UrlStateColumns)) (tr : TraversalTables)
    : TraversalTables :=
  set_recovery_action_items (add_items action run l (recovery_action_items tr))
    (set_crawl_url_state (bump_all l (crawl_url_state tr)) tr).

Lemma prepare_state_inv a run acc e db ids db' :
  prepare_state a run acc e db = Ok (ids, db') -> crawl_url_state (traversal db) !! e.1 = Some e.2 ->
  ids = acc ++ [e.1] /\ preparable run (traversal db) e /\ 0 <= us_work_generation e.2 /\
  db' = with_traversal (taken_up a run [e] (traversal db)) db.
Proof.
  intros H Hk. unfold prepare_state in H. crawl_step H. apply next_generation_ok in Eof as (-> & Hg & Hmax).
  match goal with Hu : update_url_states _ _ _ _ = _ |- _ =>
    apply update_key_inv in Hu as [(_ & c & Hk' & Hrun & Hq & _ & ->)|[-> _]] end; [|done].
  rewrite Hk in Hk'. injection Hk' as <-. apply andb_true_iff in Hq as [Ha _].
  apply bool_decide_eq_true in Ha.
  match goal with Hi : insert_recovery_item _ _ _ _ = _ |- _ =>
    unfold insert_recovery_item in Hi; apply constrained_ok in Hi as [_ ->] end.
  split; [done|]. split; [done|]. split; [done|]. done.
Qed.

Lemma prepare_fold_inv a run l : forall acc db ids db',
  tx_fold (prepare_state a run) l acc db = Ok (ids, db') -> NoDup (map fst l) ->
  Forall (fun e => crawl_url_state (traversal db) !! e.1 = Some e.2) l ->
  ids = acc ++ map fst l /\ Forall (preparable run (traversal db)) l /\
  Forall (fun e => 0 <= us_work_generation e.2) l /\
  db' = with_traversal (taken_up a run l (traversal db)) db.
Proof.
  induction l as [|e l IH]; intros acc db ids db' H Hnd Hl; simpl in H.
  - apply tx_ret_ok in H as [-> ->]. rewrite app_nil_r. split; [done|]. split; [done|]. split; [done|].
    by destruct db as [? ? ? ? ? ? ? ? ? [] ?].
  - apply tx_bind_ok in H as (ids1 & db1 & H1 & H2). apply Forall_cons in Hl as [He Hl].
    apply NoDup_cons in Hnd as [Hnin Hnd].
    apply prepare_state_inv in H1 as (-> & Hp & Hg & ->); [|done].
    assert (Hother : Forall (fun x => x.1 <> e.1) l).
    { apply Forall_forall. intros x Hx Heq. apply Hnin. rewrite <- Heq. by apply elem_of_map; exists x. }
    apply IH in H2 as (-> & Hps & Hgs & ->); [|done|].
    + split; [by rewrite <- app_assoc|]. split; [constructor; [done|]|].
      { apply Forall_forall. intros x Hx. rewrite Forall_forall in Hps, Hl, Hother.
        destruct (Hps x Hx) as (Hlk & Hx'). split; [by apply Hl|done]. }
      split; [by constructor|]. done.
    + apply Forall_forall. intros x Hx. rewrite Forall_forall in Hl, Hother. simpl.
      rewrite lookup_insert_ne by (intros Heq; by eapply Hother). by apply Hl.
Qed.

(** What an action takes up: the selected work of an initialized run, in order. *)
Definition action_list (run : string) (kind : CrawlRecoveryActionKind) (db : Db)
    : list (string * UrlStateColumns) :=
  if initialized run db then in_recovery_order (action_selects run kind) db else [].

Lemma prepare_inv a att run kind now db sel db' :
  prepare_recovery_action a att run kind now db = (Ok sel, db') ->
  exists source, action_source a att run kind now db = Ok source /\
  match recovery_actions (traversal db) !! a with
  | Some x =>
    ra_source_job_id x = source /\ ra_run x = run /\ ra_kind x = kind /\ db' = db /\
    read_recovery_action_items a run db = Ok (sel_state_ids sel)
  | None =>
    let l := action_list run kind db in
    sel_state_ids sel = map fst l /\ Forall (preparable run (traversal db)) l /\
    Forall (fun e => 0 <= us_work_generation e.2) l /\
    db' = with_traversal (prepared_tables a {| ra_source_job_id := source; ra_run := run;
      ra_kind := kind; ra_prepared_at := now |} l (traversal db)) db
  end.
Proof.
  unfold prepare_recovery_action. destruct (_ || _); [done|]. intros H%transact_ok. crawl_step H.
  match goal with Hsrc : action_source _ _ _ _ _ ?d = Ok ?s |- _ =>
    exists s; split; [done|]; rename d into db0; destruct (recovery_actions (traversal db0) !! a) as [x|] eqn:Ha end.
  - crawl_step H. boolify. split; [done|]. split; [done|]. split; [by apply dec_stable|]. done.
  - crawl_step H. unfold insert_recovery_action in Hs. apply constrained_ok in Hs as [_ ->].
    unfold action_list. change (initialized run (with_traversal _ db0)) with (initialized run db0) in H.
    destruct (initialized run db0); crawl_step H.
    + match goal with Hf : tx_fold _ _ _ _ = _ |- _ => apply prepare_fold_inv in Hf as (-> & Hp & Hg & ->) end.
      * done.
      * apply recovery_order_keys.
      * apply Forall_forall. intros [k c] [Hk _]%elem_of_recovery_order. done.
    + split; [done|]. split; [done|]. split; [done|]. by destruct db0 as [? ? ? ? ? ? ? ? ? [] ?].
Qed.

Lemma action_list_keys run kind db : NoDup (map fst (action_list run kind db)).
Proof. unfold action_list. destruct (initialized run db); [apply recovery_order_keys|constructor]. Qed.

Lemma prepare_changes a att run kind now db r db' :
  prepare_recovery_action a att run kind now db = (r, db') ->
  table_changes (traversal db) (traversal db').
Proof.
  destruct r as [sel|e]; intros H.
  - apply prepare_inv in H as (source & _ & H). destruct (recovery_actions (traversal db) !! a) eqn:Ha.
    + destruct H as (_ & _ & _ & -> & _). apply rtc_refl.
    + destruct H as (_ & Hp & _ & ->). apply rtc_once, tc_prepare; [done|apply action_list_keys|done].
  - unfold prepare_recovery_action in H. destruct (_ || _); [injection H as _ <-; apply rtc_refl|].
    apply transact_err in H as ->. apply rtc_refl.
Qed.

(** *** Executions *)

Lemma crawls_execution_row r len elapsed lineage : crawls (insert_execution_row r len elapsed lineage).
Proof.
  unfold insert_execution_row. apply crawls_bind.
  { apply crawls_elsewhere. intros db a db' H. unfold reject_duplicate in H. by tx_step H; subst. }
  intros _. apply crawls_bind; [apply crawls_of|]. intros _. apply crawls_bind.
  - intros db a db' H. crawl_step H. unfold insert_execution in H. apply constrained_ok in H as [Hok ->].
    boolify. by apply rtc_once, tc_execute.
  - intros _. apply crawls_each. intros x _ db a db' H. crawl_step H. unfold insert_execution_artifact in H.
    apply constrained_ok in H as [Hok ->]. boolify. by apply rtc_once, tc_artifact.
Qed.

Lemma crawls_validated r lineage : crawls (insert_validated r lineage).
Proof.
  unfold insert_validated. do 6 (apply crawls_bind; [solve [eauto with erabi]|intros ?]).
  apply crawls_execution_row.
Qed.

Lemma crawls_lineage r state attempt generation :
  crawls (persist_in_transaction_with_lineage r state attempt generation).
Proof.
  apply crawls_bind; [|intros; apply crawls_validated].
  apply crawls_elsewhere. intros db a db' H. unfold reject_duplicate in H. by tx_step H; subst.
Qed.

Lemma crawls_attempt_owner run job attempt now : crawls (validate_active_attempt_owner run job attempt now).
Proof. unfold validate_active_attempt_owner. eauto with erabi. Qed.
Hint Resolve crawls_lineage crawls_attempt_owner : erabi.

(** The advance of current work by its execution. *)
Lemma crawls_finish_work r state k run expected :
  outcome_matches_work_state (exec_outcome r) state = true ->
  crawls (dbx (update_url_states true (state_key k run
      (fun c => (us_work_generation c =? expected) && open_work (us_current_work_state c)))
    (fun c => set_work (us_work_generation c) (Some state) (Some (id_to_string (exec_id r))) c))).
Proof.
  intros Hm db n db' H. crawl_step H.
  apply update_key_inv in H as [(_ & c & Hk & _ & Hq & Hok & ->)|[_ ->]]; [|apply rtc_refl].
  apply andb_true_iff in Hq as [_ Hq]. apply rtc_once, (state_change true _ c); [done| |done|by left].
  assert (Ha : us_admission_state c = AdmittedWork).
  { unfold url_state_update_ok in Hok. apply andb_true_iff in Hok as [Hok _].
    apply andb_true_iff in Hok as [Hok _]. apply andb_true_iff in Hok as [Hok _].
    unfold url_state_check in Hok. apply andb_true_iff in Hok as [_ Hok]. simpl in Hok.
    destruct (us_admission_state c); [done|by rewrite !andb_false_r in Hok|by rewrite !andb_false_r in Hok]. }
  apply wu_finished; [done..|]. destruct (exec_outcome r), state; try done; set_solver.
Qed.

Lemma crawls_activate k run expected :
  crawls (dbx (update_url_states true (state_key k run
      (fun c => bool_decide (us_admission_state c = AdmittedWork) && (us_work_generation c =? expected)
         && bool_decide (us_current_work_state c ∈ [Some WorkPending; Some WorkRunning; Some WorkFailed])))
    (fun c => set_work (us_work_generation c) (Some WorkRunning) None c))).
Proof.
  intros db n db' H. crawl_step H.
  apply update_key_inv in H as [(_ & c & Hk & _ & Hq & Hok & ->)|[_ ->]]; [|apply rtc_refl].
  apply andb_true_iff in Hq as [[Ha _]%andb_true_iff Hp]. apply bool_decide_eq_true in Ha, Hp.
  apply rtc_once, (state_change true _ c); [done| |done|by left]. apply wu_started; [done|done|by left].
Qed.
Hint Resolve crawls_activate : erabi.

Lemma crawls_summary s values : crawls (save_summary_in_transaction s values).
Proof.
  intros db u db' H. unfold save_summary_in_transaction in H. crawl_step H.
  match type of H with context [execution_summaries (traversal ?d)] => rename d into db0 end.
  destruct (execution_summaries (traversal db0) !! _) as [x|]; crawl_step H.
  - match goal with Hu : update_summary _ _ _ = _ |- _ => unfold update_summary in Hu;
      destruct (update_where _ _ _ _) as [[n t]|]; [|done]; injection Hu as _ <- end.
    apply rtc_once, tc_summary.
  - unfold insert_summary in H. apply constrained_ok in H as [_ ->]. apply rtc_once, tc_summary.
Qed.
End operations.

(** ** The operations of the two repositories *)

Section operation_relation.
Context `{U : UuidLib} `{L : UrlLib} `{SD : SerdeLib} `{J : JsonLib} `{Hash : HashLib} `{Hosts : HostLib}.
Context `{W : !SnapshotWire} `{VW : !VersionWire}.

(** An operation with any result, or one of another repository. *)
Inductive crawl_op (db db' : Db) : Prop :=
| op_initialize run roots control r :
    Forall typed_state roots -> initialize_run_state run roots control db = (r, db') -> crawl_op db db'
| op_initialize_checkpoint run roots control job attempt lease c at_ r :
    Forall typed_state roots ->
    initialize_run_state_with_checkpoint run roots control job attempt lease c at_ db = (r, db') ->
    crawl_op db db'
| op_initialize_evidence run roots evidence control p job attempt lease c at_ r :
    Forall typed_state roots -> typed_projection p ->
    initialize_run_state_with_checkpoint_and_evidence run roots evidence control p job attempt lease c at_
      db = (r, db') -> crawl_op db db'
| op_delta run work control counts r :
    Forall typed_state work -> typed_counts counts ->
    apply_discovery_delta run work control counts db = (r, db') -> crawl_op db db'
| op_delta_evidence run evidence work control counts r :
    Forall typed_state work -> typed_counts counts ->
    apply_discovery_delta_with_evidence run evidence work control counts db = (r, db') -> crawl_op db db'
| op_delta_projection run evidence work control counts p redirects in_flight r :
    Forall typed_state work -> typed_counts counts -> typed_projection p ->
    apply_discovery_delta_with_projection run evidence work control counts p redirects in_flight db
      = (r, db') -> crawl_op db db'
| op_replace_counts run counts r :
    typed_counts counts -> replace_transition_source_counts run counts db = (r, db') -> crawl_op db db'
| op_prepare a att run kind now r :
    prepare_recovery_action a att run kind now db = (r, db') -> crawl_op db db'
| op_record_discovered record r : record_discovered_url record db = (r, db') -> crawl_op db db'
| op_persist record r : persist record db = (r, db') -> crawl_op db db'
| op_persist_current record k job attempt state generation now r :
    persist_current_work record k job attempt state generation now db = (r, db') -> crawl_op db db'
| op_activate run k job attempt generation now r :
    activate_current_work run k job attempt generation now db = (r, db') -> crawl_op db db'
| op_persist_historical record k job attempt generation now r :
    persist_historical_work record k job attempt generation now db = (r, db') -> crawl_op db db'
| op_save_summary s r : save_summary s db = (r, db') -> crawl_op db db'
| op_finalize s status r : finalize s status db = (r, db') -> crawl_op db db'
| op_elsewhere : traversal db' = traversal db -> crawl_op db db'.

Definition crawl_steps : Db -> Db -> Prop := rtc crawl_op.

(** A database the operations lead to from one without crawl work. *)
Definition crawl_reachable (db : Db) : Prop :=
  exists db0, traversal db0 = empty_traversal /\ crawl_steps db0 db.

Lemma crawls_ensure_run run : crawls (ensure_run run).
Proof. unfold ensure_run. eauto with erabi. Qed.

Lemma crawls_ownership s run : crawls (validate_state_ownership s run).
Proof. intros db u db' [-> _]%ownership_ok. apply rtc_refl. Qed.

Lemma crawls_roots run roots : Forall typed_state roots -> crawls (install_roots run roots).
Proof.
  intros Hty. apply crawls_each. intros s Hs. rewrite Forall_forall in Hty.
  apply crawls_bind; [apply crawls_ownership|]. intros _. by apply crawls_insert_state, Hty.
Qed.

Lemma crawls_work run work : Forall typed_state work -> crawls (upsert_work run work).
Proof.
  intros Hty. apply crawls_each. intros s Hs. rewrite Forall_forall in Hty.
  apply crawls_bind; [apply crawls_ownership|]. intros _. by apply crawls_upsert, Hty.
Qed.

Lemma crawls_redirects run redirects : crawls (tx_each (reconcile_redirect run) redirects).
Proof. apply crawls_each. intros. apply crawls_reconcile. Qed.

Lemma crawls_if {E A} (b : bool) (t t' : Tx E A) : crawls t -> crawls t' -> crawls (if b then t else t').
Proof. by destruct b. Qed.

Hint Resolve crawls_ensure_run crawls_roots crawls_work crawls_redirects crawls_transition_counts
  crawls_projection crawls_checkpoint crawls_insert_control crawls_update_control crawls_evidence
  crawls_mark crawls_if crawls_lineage crawls_summary crawls_validated crawls_activate
  crawls_attempt_owner : erabi.

Ltac crawls_body :=
  repeat first [solve [eauto 6 with erabi] | apply crawls_bind; [solve [eauto with erabi]|intros ?]].

Lemma crawls_transition_from from s m id : crawls (transition_from from s m id).
Proof.
  apply crawls_elsewhere. intros db u db' H. by apply transition_from_inv in H as (r & _ & _ & ->).
Qed.

Lemma crawls_execution_status id s : crawls (transition_execution_status_in_transaction id s).
Proof.
  unfold transition_execution_status_in_transaction. destruct (execution_sources s).
  - apply crawls_transition_from.
  - apply crawls_fail.
Qed.

Lemma crawls_cancel_status id : crawls (cancel_execution_status_in_transaction id).
Proof. apply crawls_transition_from. Qed.
Hint Resolve crawls_execution_status crawls_cancel_status : erabi.

Lemma crawl_op_changes db db' : crawl_op db db' -> table_changes (traversal db) (traversal db').
Proof.
  destruct 1 as [run roots control r Hty H|run roots control job attempt lease c at_ r Hty H
    |run roots evidence control p job attempt lease c at_ r Hty Hp H|run work control counts r Hty Hc H
    |run evidence work control counts r Hty Hc H
    |run evidence work control counts p redirects in_flight r Hty Hc Hp H|run counts r Hc H
    |a att run kind now r H|record r H|record r H|record k job attempt state generation now r H
    |run k job attempt generation now r H|record k job attempt generation now r H|s r H|s status r H|H].
  - unfold initialize_run_state in H. destruct (_ || _); [injection H as _ <-; apply rtc_refl|].
    eapply transact_crawls, H. crawls_body.
  - unfold initialize_run_state_with_checkpoint in H. destruct (_ || _); [injection H as _ <-; apply rtc_refl|].
    eapply transact_crawls, H. crawls_body.
  - unfold initialize_run_state_with_checkpoint_and_evidence in H.
    destruct (_ || _); [injection H as _ <-; apply rtc_refl|].
    destruct (transact _ db) as [o db1] eqn:Ht. injection H as _ <-.
    eapply transact_crawls, Ht. do 2 (apply crawls_bind; [solve [eauto with erabi]|intros ?]).
    apply crawls_if; crawls_body.
  - unfold apply_discovery_delta in H. destruct (negb _); [injection H as _ <-; apply rtc_refl|].
    eapply transact_crawls, H. crawls_body.
  - unfold apply_discovery_delta_with_evidence in H. destruct (_ || _); [injection H as _ <-; apply rtc_refl|].
    eapply transact_crawls, H. crawls_body.
  - unfold apply_discovery_delta_with_projection in H.
    destruct (_ || _); [injection H as _ <-; apply rtc_refl|]. eapply transact_crawls, H. crawls_body.
  - eapply transact_crawls, H. crawls_body.
  - by eapply prepare_changes.
  - unfold record_discovered_url in H. destruct (validate_discovered_url_record record);
      [|injection H as _ <-; apply rtc_refl].
    eapply transact_crawls, H. crawls_body. intros db1 u db2 Hr. unfold record_discovered_url_values in Hr.
    crawl_step Hr. unfold insert_discovered_url in Hr. apply constrained_ok in Hr as [Hok ->].
    boolify. by apply rtc_once, tc_discover.
  - unfold persist in H. destruct (validate_record_input record); [|injection H as _ <-; apply rtc_refl].
    eapply transact_crawls, H. apply crawls_validated.
  - unfold persist_current_work in H.
    destruct (validate_record_input record); [|injection H as _ <-; apply rtc_refl].
    destruct (_ || _) eqn:Hm; [injection H as _ <-; apply rtc_refl|]. boolify.
    eapply transact_crawls, H. unfold validate_current_work_owner.
    repeat (apply crawls_bind; [solve [eauto 8 with erabi]|intros ?]).
    apply crawls_bind; [by apply crawls_finish_work|eauto with erabi].
  - unfold activate_current_work in H. destruct (_ || _); [injection H as _ <-; apply rtc_refl|].
    eapply transact_crawls, H. crawls_body.
  - unfold persist_historical_work in H.
    destruct (validate_record_input record); [|injection H as _ <-; apply rtc_refl].
    destruct (_ || _); [injection H as _ <-; apply rtc_refl|].
    eapply transact_crawls, H. unfold validate_historical_work_owner. eauto 8 with erabi.
  - unfold save_summary in H. destruct (summary_sql_values s); [|injection H as _ <-; apply rtc_refl].
    eapply transact_crawls, H. apply crawls_summary.
  - unfold finalize in H. destruct (summary_sql_values s); [|injection H as _ <-; apply rtc_refl].
    eapply transact_crawls, H. crawls_body.
  - rewrite H. apply rtc_refl.
Qed.

Lemma crawl_steps_changes db db' : crawl_steps db db' -> table_changes (traversal db) (traversal db').
Proof. induction 1 as [|db db1 db2 H _ IH]; [apply rtc_refl|]. etrans; [by apply crawl_op_changes|done]. Qed.
End operation_relation.
