(* ===== verification/TraversalTheorems.v ===== *)
(** * Crawl work: what holds of every reachable database

    The invariant of the traversal tables, the protocol each unit of work follows
    ([work_step]), the finality of evidence, the recovery model and recovery actions,
    and the fencing of executions by the work generation. *)

From S2P Require Import Prelude Externals JsonFacts Base Instances Settings Guardrails Crawler Snapshot.
From S2P Require Import TraversalTables Store TraversalStore Progress Checkpoint Runs Traversal CrawlExecution.
From S2P Require Import TraversalInvariants.

(** ** Specifications *)

(** A URL of a run as work: not yet seen, kept but not crawled, resolved to another
    state, or work of a generation. *)
Inductive logical_work :=
| Unseen
| Excluded
| Alias (target : option string)
| Work (generation : Z) (state : CrawlWorkState).

(** The protocol: discovered once; started and finished within a generation, a failure
    alone being open to another start; taken up again in the next generation; and
    resolved to another state, which is final as exclusion is. *)
Inductive work_step : logical_work -> logical_work -> Prop :=
| ws_discover w : w <> Unseen -> work_step Unseen w
| ws_start g s : s ∈ [WorkPending; WorkRunning; WorkFailed] -> work_step (Work g s) (Work g WorkRunning)
| ws_finish g s s' :
    s ∈ [WorkPending; WorkRunning] -> s' ∈ [WorkCompleted; WorkPartial; WorkFailed; WorkCancelled] ->
    work_step (Work g s) (Work g s')
| ws_take_up g s : work_step (Work g s) (Work (g + 1) WorkPending)
| ws_redirect g s target : work_step (Work g s) (Alias target).

Definition view_columns (c : UrlStateColumns) : logical_work :=
  match us_admission_state c, us_current_work_state c with
  | AdmittedWork, Some s => Work (us_work_generation c) s
  | Resolved, _ => Alias (us_resolved_to_url_state_id c)
  | _, _ => Excluded
  end.

Definition work_view (tr : TraversalTables) (k : string) : logical_work :=
  match crawl_url_state tr !! k with Some c => view_columns c | None => Unseen end.

(** Evidence is appended to, never changed; a state keeps its run and its URL. *)
Record evidence_kept (tr tr' : TraversalTables) : Prop := {
  ek_discovered : discovered_urls tr ⊆ discovered_urls tr';
  ek_executions : execution_results tr ⊆ execution_results tr';
  ek_artifacts : execution_artifacts tr ⊆ execution_artifacts tr';
  ek_provenance : seed_provenance tr ⊆ seed_provenance tr';
  ek_actions : recovery_actions tr ⊆ recovery_actions tr';
  ek_items : recovery_action_items tr ⊆ recovery_action_items tr';
  ek_states : forall k c, crawl_url_state tr !! k = Some c ->
    exists c', crawl_url_state tr' !! k = Some c' /\ us_run c' = us_run c /\
      us_canonical_url c' = us_canonical_url c
}.

(** * Lemmas *)

(** ** Preparations *)

Lemma bump_all_lookup l : forall m k,
  NoDup (map fst l) -> Forall (fun e => m !! e.1 = Some e.2) l ->
  (forall c, (k, c) ∈ l -> bump_all l m !! k = Some (bumped c)) /\
  ((k ∉ map fst l) -> bump_all l m !! k = m !! k).
Proof.
  induction l as [|[k0 c0] l IH]; intros m k Hnd Hl; [split; [by intros c ?%not_elem_of_nil|done]|].
  apply NoDup_cons in Hnd as [Hnin Hnd]. apply Forall_cons in Hl as [_ Hl].
  assert (Hl' : Forall (fun e => <[k0 := bumped c0]> m !! e.1 = Some e.2) l).
  { apply Forall_forall. intros e He. rewrite Forall_forall in Hl.
    rewrite lookup_insert_ne; [by apply Hl|]. intros ->. apply Hnin, elem_of_map. by exists e. }
  change (bump_all ((k0, c0) :: l) m) with (bump_all l (<[k0 := bumped c0]> m)).
  destruct (IH (<[k0 := bumped c0]> m) k Hnd Hl') as [H1 H2]. split.
  - intros c [[= -> ->]|Hin]%elem_of_cons; [|by apply H1]. by rewrite H2, lookup_insert_eq.
  - simpl. intros Hk. rewrite not_elem_of_cons in Hk. destruct Hk as [Hne Hk].
    rewrite H2 by done. by rewrite lookup_insert_ne.
Qed.

(** A state after a preparation. *)
Lemma bump_all_inv l m k c' :
  NoDup (map fst l) -> Forall (fun e => m !! e.1 = Some e.2) l -> bump_all l m !! k = Some c' ->
  (exists c, (k, c) ∈ l /\ m !! k = Some c /\ c' = bumped c) \/ ((k ∉ map fst l) /\ m !! k = Some c').
Proof.
  intros Hnd Hl Hk. destruct (bump_all_lookup l m k Hnd Hl) as [H1 H2].
  destruct (decide (k ∈ map fst l)) as [Hin|Hnin].
  - apply elem_of_map in Hin as ([k1 c] & -> & Hin). left. exists c. split; [done|].
    rewrite (H1 c Hin) in Hk. injection Hk as <-. rewrite Forall_forall in Hl.
    by pose proof (Hl _ Hin).
  - right. split; [done|]. by rewrite <- H2.
Qed.

Lemma preparable_lookup run tr l :
  Forall (preparable run tr) l -> Forall (fun e => crawl_url_state tr !! e.1 = Some e.2) l.
Proof. intros H. eapply Forall_impl; [exact H|]. by intros e (Hk & _). Qed.

Lemma add_items_lookup a run l : forall m b k i,
  add_items a run l m !! (b, k) = Some i ->
  (b = a /\ exists c, (k, c) ∈ l /\ i = item_for run c) \/ m !! (b, k) = Some i.
Proof.
  induction l as [|[k0 c0] l IH]; intros m b k i H; [by right|].
  change (add_items a run ((k0, c0) :: l) m) with (add_items a run l (<[(a, k0) := item_for run c0]> m)) in H.
  apply IH in H as [(-> & c & Hin & ->)|H]; [left; split; [done|]; exists c; split; [by right|done]|].
  apply lookup_insert_Some in H as [[[= -> ->] <-]|[_ H]]; [left|by right].
  split; [done|]. exists c0. split; [left|done].
Qed.

Lemma add_items_other a run l : forall m b k, b <> a -> add_items a run l m !! (b, k) = m !! (b, k).
Proof.
  induction l as [|e l IH]; intros m b k Hb; [done|]. simpl. unfold add_items in *. simpl.
  rewrite IH by done. rewrite lookup_insert_ne; [done|]. by intros [= ->].
Qed.

Lemma add_items_listed a run l : forall m k c,
  NoDup (map fst l) -> (k, c) ∈ l -> add_items a run l m !! (a, k) = Some (item_for run c).
Proof.
  induction l as [|[k0 c0] l IH]; intros m k c Hnd Hin; [by apply not_elem_of_nil in Hin|].
  apply NoDup_cons in Hnd as [Hnin Hnd].
  change (add_items a run ((k0, c0) :: l) m) with (add_items a run l (<[(a, k0) := item_for run c0]> m)).
  apply elem_of_cons in Hin as [[= -> ->]|Hin]; [|by apply IH].
  assert (Hout : forall m, (forall x, x ∈ l -> x.1 <> k0) -> add_items a run l m !! (a, k0) = m !! (a, k0)).
  { clear. induction l as [|e l IH]; intros m Hx; [done|]. unfold add_items in *. simpl.
    rewrite IH by (intros; apply Hx; by right). rewrite lookup_insert_ne; [done|].
    intros [= Heq]. by apply (Hx e); [left|]. }
  rewrite Hout; [by rewrite lookup_insert_eq|]. intros x Hx <-. apply Hnin, elem_of_map. by exists x.
Qed.

(** ** The invariant *)

Lemma check_admitted c :
  url_state_check c = true -> us_admission_state c = AdmittedWork ->
  exists s, us_current_work_state c = Some s.
Proof.
  unfold url_state_check. intros [_ H]%andb_true_iff Ha. rewrite Ha in H.
  apply andb_true_iff in H as [_ H]. apply is_some_true in H as [s Hs]. by exists s.
Qed.

(** Columns the checks do not mention. *)
Lemma bumped_valid k c :
  state_valid k c -> us_admission_state c = AdmittedWork -> us_work_generation c + 1 <= i64_max ->
  state_valid k (bumped c).
Proof.
  intros [Hc Hid Hcan Hreq Hseen Hres Hseq Hdep Hgen] Ha Hmax. split; try done; simpl; [|lia].
  unfold url_state_check in *. simpl. rewrite Ha in *. rewrite !andb_true_iff in *.
  assert ((0 <=? us_work_generation c + 1) = true) by (apply Z.leb_le; lia). naive_solver.
Qed.

Lemma update_valid k c c' :
  state_valid k c -> work_update c c' -> url_state_check c' = true -> state_valid k c'.
Proof.
  intros [Hc Hid Hcan Hreq Hseen Hres Hseq Hdep Hgen] Hu Hc'. destruct Hu; split; try done.
Qed.

(** *** What a change leaves of the invariant *)

Lemma execution_linked_grows tr tr' k c :
  execution_results tr ⊆ execution_results tr' -> execution_linked tr k c -> execution_linked tr' k c.
Proof.
  intros Hsub Hl e He. destruct (Hl e He) as (row & Hrow & H). exists row.
  split; [by eapply lookup_weaken|done].
Qed.

Lemma execution_linked_same tr k c c' :
  keeps_execution c c' -> execution_linked tr k c -> execution_linked tr k c'.
Proof. intros (Hr & He & Hg) Hl e Hc. rewrite Hr, Hg. apply Hl. by rewrite <- He. Qed.

Lemma conflict_sym k c k' c' :
  url_state_conflict k c k' c' = url_state_conflict k' c' k c.
Proof.
  unfold url_state_conflict, is_some. rewrite (String.eqb_sym k' k), (String.eqb_sym (us_run c')),
    (String.eqb_sym (us_canonical_url c')).
  f_equal. f_equal. destruct (us_admission_sequence c), (us_admission_sequence c'); simpl; try done.
  apply bool_decide_ext. naive_solver.
Qed.

(** One row inserted or replaced. *)
Lemma no_conflict_insert tr k c k' d :
  no_conflict tr k c -> (forall k' d, k' <> k -> crawl_url_state tr !! k' = Some d -> no_conflict tr k' d) ->
  <[k := c]> (crawl_url_state tr) !! k' = Some d ->
  forall k2 d2, <[k := c]> (crawl_url_state tr) !! k2 = Some d2 -> url_state_conflict k' d k2 d2 = false.
Proof.
  intros Hc Hold Hk' k2 d2 Hk2.
  assert (Hself : forall i x, url_state_conflict i x i x = false).
  { intros i x. unfold url_state_conflict. by rewrite String.eqb_refl. }
  apply lookup_insert_Some in Hk' as [[<- <-]|[Hne Hk']]; apply lookup_insert_Some in Hk2 as [[<- <-]|[Hne2 Hk2]].
  - apply Hself.
  - by apply Hc.
  - rewrite conflict_sym. by apply Hc.
  - by eapply Hold.
Qed.

Lemma work_update_identity c c' :
  work_update c c' -> us_run c' = us_run c /\ us_canonical_url c' = us_canonical_url c.
Proof. by destruct 1. Qed.

(** Conflicts depend on the run, the URL and the admission sequence. *)
Lemma conflict_bumped k c k2 d : url_state_conflict k (bumped c) k2 d = url_state_conflict k c k2 d.
Proof. done. Qed.
Lemma conflict_bumped_r k c k2 d : url_state_conflict k c k2 (bumped d) = url_state_conflict k c k2 d.
Proof. done. Qed.

(** A row [k] with the columns [c] put in place. *)
Lemma wf_put tr k c :
  tables_wf tr -> state_valid k c -> execution_linked tr k c -> no_conflict tr k c ->
  (forall d, crawl_url_state tr !! k = Some d -> us_run c = us_run d) ->
  tables_wf (set_crawl_url_state (<[k := c]> (crawl_url_state tr)) tr).
Proof.
  intros [Hst Hct Hpt Htr Hit Har] Hv Hl Hn Hrun. split; try done.
  - intros k' d Hk'. simpl in Hk'. split.
    { apply lookup_insert_Some in Hk' as [[<- <-]|[_ Hk']]; [done|by apply Hst]. }
    split; [apply lookup_insert_Some in Hk' as [[<- <-]|[_ Hk']]; [done|by apply Hst]|].
    intros k2 d2 Hk2. eapply no_conflict_insert; [exact Hn| |exact Hk'|exact Hk2].
    intros k1 d1 _ H1. by apply Hst.
  - intros a j i Hi. destruct (Hit a j i Hi) as (Hact & (d & Hd & Hdr) & Hg). split; [done|].
    split; [|done]. simpl. destruct (decide (j = k)) as [->|Hne].
    + exists c. rewrite lookup_insert_eq. split; [done|]. rewrite <- Hdr. by apply Hrun.
    + exists d. by rewrite lookup_insert_ne.
Qed.

Lemma wf_prepare tr action r l :
  tables_wf tr -> recovery_actions tr !! action = None -> NoDup (map fst l) ->
  Forall (preparable (ra_run r) tr) l -> tables_wf (prepared_tables action r l tr).
Proof.
  intros [Hst Hct Hpt Htr Hit Har] Hact Hnd Hp. pose proof (preparable_lookup _ _ _ Hp) as Hlk.
  rewrite Forall_forall in Hp. split; try done.
  - intros k c' Hk. simpl in Hk. split.
    { apply bump_all_inv in Hk as [(c & Hin & Hk & ->)|[_ Hk]]; [|by apply Hst|done|done].
      destruct (Hp _ Hin) as (_ & _ & Ha & Hmax). apply bumped_valid; [by apply Hst|done|done]. }
    split.
    { apply bump_all_inv in Hk as [(c & Hin & Hk & ->)|[_ Hk]]; [done|by apply Hst|done|done]. }
    intros k2 d' Hk2. simpl in Hk2.
    apply bump_all_inv in Hk as [(c & _ & Hk & ->)|[_ Hk]], Hk2 as [(d & _ & Hk2 & ->)|[_ Hk2]]; try done.
    all: rewrite ?conflict_bumped, ?conflict_bumped_r; by eapply Hst.
  - intros a k i Hi. simpl in Hi. split; [|].
    + apply add_items_lookup in Hi as [(-> & c & Hin & ->)|Hi].
      * exists r. simpl. by rewrite lookup_insert_eq.
      * destruct (Hit a k i Hi) as ((x & Hx & Hxr) & _). exists x. simpl.
        rewrite lookup_insert_ne; [done|]. congruence.
    + apply add_items_lookup in Hi as [(-> & c & Hin & ->)|Hi].
      * destruct (Hp _ Hin) as (Hk & Hr & _ & _). simpl in *. split.
        { exists (bumped c). split; [|done]. by apply bump_all_lookup. }
        split; [|done]. by destruct (Hst _ _ Hk) as ([] & _); lia.
      * destruct (Hit a k i Hi) as (_ & (c & Hc & Hcr) & Hg). split; [|done]. simpl.
        destruct (bump_all_lookup l (crawl_url_state tr) k Hnd Hlk) as [H1 H2].
        destruct (decide (k ∈ map fst l)) as [Hin|Hnin].
        { apply elem_of_map in Hin as ([k1 c1] & -> & Hin). exists (bumped c1). split; [by apply H1|].
          destruct (Hp _ Hin) as (Hk1 & _). simpl in Hk1, Hc. rewrite Hc in Hk1. by injection Hk1 as <-. }
        exists c. by rewrite H2.
Qed.

Lemma wf_change tr tr' : tables_wf tr -> table_change tr tr' -> tables_wf tr'.
Proof.
  intros Hwf Hch. pose proof Hwf as [Hst Hct Hpt Htr Hit Har].
  destruct Hch as [k c Hk Hv Hl Hn|k c c' Hk Hu Hc Hl Hn|action r l Hact Hnd Hp|id r Hid|id r Hid
    |k a Hk|k o Hk|run c Hc|t Ht|t Ht|t].
  - apply wf_put; try done. intros d Hd. congruence.
  - destruct (Hst k c Hk) as (Hv & Hlk & _). apply wf_put; try done.
    + by eapply update_valid.
    + destruct Hl as [Hl|Hl]; [|done]. by eapply execution_linked_same.
    + intros d Hd. rewrite Hk in Hd. injection Hd as <-. by apply work_update_identity in Hu as [-> _].
  - by apply wf_prepare.
  - by split.
  - split; try done.
    + intros k c Hk. destruct (Hst k c Hk) as (Hv & Hl & Hn). split; [done|].
      split; [|done]. eapply execution_linked_grows, Hl. by apply insert_subseteq.
    + simpl. intros e kind x Hx. destruct (Har e kind x Hx) as [row Hrow]. exists row.
      rewrite lookup_insert_ne; [done|]. congruence.
  - split; try done. simpl. intros e kind x [[-> _]|[_ Hx]]%lookup_insert_Some; [done|by eapply Har].
  - by split.
  - split; try done. simpl. intros run' c' [[<- <-]|[_ H]]%lookup_insert_Some; [done|by eapply Hct].
  - split; try done. simpl. intros k v Hk. destruct (Ht k v Hk); [by eapply Hpt|done].
  - split; try done. simpl. intros k n Hk. destruct (Ht k n Hk); [by eapply Htr|done].
  - by split.
Qed.

Lemma wf_changes tr tr' : tables_wf tr -> table_changes tr tr' -> tables_wf tr'.
Proof. intros Hwf H. induction H as [|tr tr1 tr2 H _ IH]; [done|]. eapply IH, wf_change; eauto. Qed.

Lemma wf_empty : tables_wf empty_traversal.
Proof. by split. Qed.

(** ** Evidence *)

Lemma evidence_refl tr : evidence_kept tr tr.
Proof. split; try done. eauto. Qed.

Lemma evidence_trans tr tr1 tr2 : evidence_kept tr tr1 -> evidence_kept tr1 tr2 -> evidence_kept tr tr2.
Proof.
  intros [H1 H2 H3 H4 H5 H6 H7] [K1 K2 K3 K4 K5 K6 K7].
  split; try by etrans. intros k c Hk. destruct (H7 k c Hk) as (c1 & Hk1 & Hr1 & Hu1).
  destruct (K7 k c1 Hk1) as (c2 & Hk2 & Hr2 & Hu2). exists c2. split; [done|]. split; congruence.
Qed.

Lemma evidence_states tr t :
  (forall k c, crawl_url_state tr !! k = Some c -> exists c', t !! k = Some c' /\
     us_run c' = us_run c /\ us_canonical_url c' = us_canonical_url c) ->
  evidence_kept tr (set_crawl_url_state t tr).
Proof. intros H. by split. Qed.

Lemma evidence_change tr tr' : tables_wf tr -> table_change tr tr' -> evidence_kept tr tr'.
Proof.
  intros Hwf Hch. destruct Hch as [k c Hk Hv Hl Hn|k c c' Hk Hu Hc Hl Hn|action r l Hact Hnd Hp|id r Hid
    |id r Hid|k a Hk Hex|k o Hk|run c Hc|t Ht|t Ht|t];
    try (split; simpl; solve [done|by apply insert_subseteq|by eauto]).
  - apply evidence_states. intros k' d Hk'. exists d. split; [|done].
    rewrite lookup_insert_ne; [done|]. congruence.
  - apply evidence_states. intros k' d Hk'. destruct (decide (k' = k)) as [->|Hne].
    + rewrite Hk in Hk'. injection Hk' as <-. exists c'. rewrite lookup_insert_eq.
      split; [done|]. by apply work_update_identity.
    + exists d. by rewrite lookup_insert_ne.
  - pose proof (preparable_lookup _ _ _ Hp) as Hlk. split; try done; simpl.
    + by apply insert_subseteq.
    + apply map_subseteq_spec. intros [b k] i Hi. rewrite add_items_other; [done|]. intros ->.
      destruct (tw_items _ Hwf _ _ _ Hi) as ((x & Hx & _) & _). congruence.
    + intros k c Hk. destruct (bump_all_lookup l (crawl_url_state tr) k Hnd Hlk) as [H1 H2].
      destruct (decide (k ∈ map fst l)) as [Hin|Hnin]; [|exists c; by rewrite H2].
      apply elem_of_map in Hin as ([k1 c1] & -> & Hin). rewrite Forall_forall in Hlk.
      pose proof (Hlk _ Hin) as Hk1. simpl in Hk1, Hk. rewrite Hk1 in Hk. injection Hk as <-.
      exists (bumped c1). split; [by apply H1|done].
Qed.

Lemma evidence_changes tr tr' : tables_wf tr -> table_changes tr tr' -> evidence_kept tr tr'.
Proof.
  intros Hwf H. induction H as [|tr tr1 tr2 H _ IH]; [apply evidence_refl|].
  eapply evidence_trans; [by apply evidence_change|]. by eapply IH, wf_change.
Qed.

(** ** The protocol *)

Lemma view_pending n c : view_columns (merge_pending n c) = view_columns c.
Proof. done. Qed.

Lemma update_steps c c' :
  url_state_check c = true -> work_update c c' -> rtc work_step (view_columns c) (view_columns c').
Proof.
  intros Hc Hu. destruct Hu as [n c Ha Hw _ _ _|n c|v c|f u c Ha|e c Ha Hw He|s e c Ha Hw Hs];
    try apply rtc_refl.
  - destruct (check_admitted _ Hc Ha) as [s Hs]. apply rtc_once. unfold view_columns. rewrite Ha, Hs.
    apply ws_redirect.
  - unfold view_columns. simpl. rewrite Ha. destruct (us_current_work_state c) as [s|].
    + apply rtc_once, ws_start. set_solver.
    + set_solver.
  - unfold open_work in Hw. apply bool_decide_eq_true in Hw.
    unfold view_columns. simpl. rewrite Ha. destruct (us_current_work_state c) as [s0|]; [|set_solver].
    apply rtc_once, ws_finish; [set_solver|done].
Qed.

Lemma view_bumped c :
  url_state_check c = true -> us_admission_state c = AdmittedWork ->
  rtc work_step (view_columns c) (view_columns (bumped c)).
Proof.
  intros Hc Ha. destruct (check_admitted _ Hc Ha) as [s Hs]. apply rtc_once.
  unfold view_columns. simpl. rewrite Ha, Hs. apply ws_take_up.
Qed.

Lemma view_columns_seen c : view_columns c <> Unseen.
Proof. unfold view_columns. by destruct (us_admission_state c), (us_current_work_state c). Qed.

Lemma change_steps tr tr' k :
  tables_wf tr -> table_change tr tr' -> rtc work_step (work_view tr k) (work_view tr' k).
Proof.
  intros Hwf Hch. destruct Hch as [j c Hj Hv Hl Hn|j c c' Hj Hu Hc Hl Hn|action r l Hact Hnd Hp| | | | | | | |];
    try apply rtc_refl; unfold work_view; simpl.
  - destruct (decide (k = j)) as [->|Hne]; [|by rewrite lookup_insert_ne].
    rewrite Hj, lookup_insert_eq. apply rtc_once, ws_discover, view_columns_seen.
  - destruct (decide (k = j)) as [->|Hne]; [|by rewrite lookup_insert_ne].
    rewrite Hj, lookup_insert_eq. apply update_steps; [|done]. by apply (tw_states _ Hwf _ _ Hj).
  - pose proof (preparable_lookup _ _ _ Hp) as Hlk.
    destruct (bump_all_lookup l (crawl_url_state tr) k Hnd Hlk) as [H1 H2].
    destruct (decide (k ∈ map fst l)) as [Hin|Hnin]; [|rewrite H2; done].
    apply elem_of_map in Hin as ([k1 c1] & -> & Hin). rewrite Forall_forall in Hp.
    destruct (Hp _ Hin) as (Hk & _ & Ha & _). simpl in *. rewrite Hk, (H1 c1) by done.
    apply view_bumped; [|done]. by apply (tw_states _ Hwf _ _ Hk).
Qed.

Lemma changes_steps tr tr' k :
  tables_wf tr -> table_changes tr tr' -> rtc work_step (work_view tr k) (work_view tr' k).
Proof.
  intros Hwf H. induction H as [|tr tr1 tr2 H _ IH]; [apply rtc_refl|].
  etrans; [by apply change_steps|]. by eapply IH, wf_change.
Qed.

(** What the protocol implies. *)
Definition finished (s : CrawlWorkState) : Prop := s ∈ [WorkCompleted; WorkPartial; WorkCancelled].

Definition follows (w w' : logical_work) : Prop :=
  match w with
  | Unseen => True
  | Excluded => w' = Excluded
  | Alias t => w' = Alias t
  | Work g s =>
    match w' with
    | Work g' s' => g < g' \/ g' = g /\ (finished s -> s' = s) /\ (s <> WorkPending -> s' <> WorkPending)
    | Alias _ => True
    | _ => False
    end
  end.

Lemma follows_refl w : follows w w.
Proof. destruct w; simpl; auto. Qed.

Lemma step_follows w w1 w2 : work_step w w1 -> follows w1 w2 -> follows w w2.
Proof.
  unfold finished. destruct 1 as [w Hw|g s Hs|g s s' Hs Hs'|g s|g s t]; simpl; [done|..].
  - destruct w2; simpl; try done. intros [?|(-> & Hf & Hp)]; [by left|]. right. split; [done|].
    split; [|naive_solver]. intros Hfin. set_solver.
  - destruct w2; simpl; try done. intros [?|(-> & Hf & Hp)]; [by left|]. right. split; [done|].
    split; [set_solver|]. intros _. apply Hp. set_solver.
  - destruct w2; simpl; try done. intros [?|(-> & _)]; left; lia.
  - intros ->. done.
Qed.

Lemma steps_follow w w' : rtc work_step w w' -> follows w w'.
Proof. induction 1; [apply follows_refl|]. by eapply step_follows. Qed.

(** ** The recovery model *)

Lemma url_length_not_empty s : url_length s = true -> str_is_empty s = false.
Proof. unfold url_length. intros [H _]%andb_true_iff. by destruct s. Qed.

Lemma valid_state k c l :
  state_valid k c -> validate_state {| st_id := k; st_columns := c; st_seed_provenance := l |} = Ok tt.
Proof.
  intros [Hc Hid Hcan Hreq Hseen Hres _ _ _]. unfold validate_state. simpl. rewrite Hid, Hseen.
  unfold url_state_check in Hc. rewrite !andb_true_iff in Hc.
  destruct Hc as (((((((Hu1 & Hu2) & Hr) & _) & _) & Hexp) & Hin) & Hadm).
  rewrite (url_length_not_empty _ Hu1), (url_length_not_empty _ Hu2).
  rewrite (proj2 (Z.ltb_ge _ _) Hcan), (proj2 (Z.ltb_ge _ _) Hreq), Hin. simpl.
  destruct (us_expanded c && negb (us_sampled c)) eqn:He.
  { boolify. by rewrite H, H0 in Hexp. }
  simpl. apply reject_if_ok, negb_false_iff. destruct (us_admission_state c).
  - exact Hadm.
  - exact Hadm.
  - rewrite Hres in Hadm |- * by done. by rewrite bool_decide_true.
Qed.

Lemma valid_record_of_row db k c :
  state_valid k c ->
  record_of_row db k c =
    Ok {| st_id := k; st_columns := c; st_seed_provenance := read_seed_provenance k db |}.
Proof.
  intros Hv. pose proof Hv as [_ _ _ _ _ _ Hseq Hdep Hgen]. unfold record_of_row, transpose.
  assert ((match us_admission_sequence c with Some a => let? b := as_u64 a in Ok (Some b) | None => Ok None end)
    = Ok (E := CrawlTraversalRepositoryError) (us_admission_sequence c)) as ->.
  { destruct (us_admission_sequence c) as [n|]; [|done].
    by rewrite (proj2 (as_u64_ok n n)) by (split; [done|apply Hseq; done]). }
  assert ((match us_depth c with Some a => let? b := as_u32 a in Ok (Some b) | None => Ok None end)
    = Ok (E := CrawlTraversalRepositoryError) (us_depth c)) as ->.
  { destruct (us_depth c) as [n|]; [|done]. by rewrite (proj2 (as_u32_ok n n)) by (split; [done|by apply Hdep]). }
  rewrite (proj2 (as_u64_ok _ (us_work_generation c))) by (split; [done|lia]).
  by rewrite valid_state.
Qed.

Lemma collect_total {E A B} (f : A -> result E B) (g : A -> B) l :
  (forall x, x ∈ l -> f x = Ok (g x)) -> collect f l = Ok (map g l).
Proof.
  induction l as [|x l IH]; intros H; [done|]. simpl. rewrite H by left.
  rewrite IH; [done|]. intros y Hy. apply H. by right.
Qed.

Lemma read_control_ok run c db :
  tables_wf (traversal db) -> traversal_control (traversal db) !! run = Some c ->
  read_control run db = Ok {| ctl_run := run; ctl_columns := c |}.
Proof.
  intros Hwf Hc. unfold read_control. rewrite Hc. simpl ok_or. cbv iota beta.
  rewrite (collect_total as_u64 (fun n => n)); [done|]. intros n Hn. apply as_u64_ok. split; [done|].
  pose proof (tw_control _ Hwf _ _ Hc) as H. rewrite Forall_forall in H. by apply H.
Qed.

Definition transition_of (kv : string * string * string * Z) : CrawlTransitionSourceCount :=
  {| tc_transition_id := kv.1.1.2; tc_source_url_state_id := kv.1.2; tc_eligible_edge_count := kv.2 |}.
Definition page_type_of (kv : string * string * (Z * Z)) : CrawlTraversalPageTypeCounts :=
  {| pc_page_type_id := kv.1.2; pc_sampled_count := kv.2.1; pc_discovered_count := kv.2.2 |}.

Lemma read_transitions_ok run db :
  tables_wf (traversal db) -> exists l, read_transition_counts run db = Ok l /\
    forall t s n, {| tc_transition_id := t; tc_source_url_state_id := s; tc_eligible_edge_count := n |} ∈ l <->
      transition_source_counts (traversal db) !! (run, t, s) = Some n.
Proof.
  intros Hwf. unfold read_transition_counts. eexists. split.
  { apply (collect_total _ transition_of). intros [[[r t] s] n] Hin. simpl.
    rewrite elem_of_sort_by, list_elem_of_filter, elem_of_map_to_list in Hin. destruct Hin as [_ Hin].
    pose proof (tw_transitions _ Hwf _ _ Hin) as [H _].
    by rewrite (proj2 (as_u64_ok n n)). }
  intros t s n. rewrite elem_of_map. split.
  - intros ([[[r t'] s'] n'] & [= -> -> ->] & Hin).
    rewrite elem_of_sort_by, list_elem_of_filter, elem_of_map_to_list in Hin. destruct Hin as [Hr Hin].
    simpl in Hr. by apply String.eqb_eq in Hr as ->.
  - intros Hk. exists (run, t, s, n). split; [done|].
    rewrite elem_of_sort_by, list_elem_of_filter, elem_of_map_to_list. split; [|done]. apply String.eqb_refl.
Qed.

Lemma read_page_types_ok run db :
  tables_wf (traversal db) -> exists l, read_page_type_counts run db = Ok l /\
    forall p s d, {| pc_page_type_id := p; pc_sampled_count := s; pc_discovered_count := d |} ∈ l <->
      page_type_counts (traversal db) !! (run, p) = Some (s, d).
Proof.
  intros Hwf. unfold read_page_type_counts. eexists. split.
  { apply (collect_total _ page_type_of). intros [[r p] [s d]] Hin. simpl.
    rewrite elem_of_sort_by, list_elem_of_filter, elem_of_map_to_list in Hin. destruct Hin as [_ Hin].
    pose proof (tw_page_types _ Hwf _ _ Hin) as [[H1 _] [H2 _]]. simpl in *.
    by rewrite (proj2 (as_u64_ok s s)), (proj2 (as_u64_ok d d)). }
  intros p s d. rewrite elem_of_map. split.
  - intros ([[r p'] [s' d']] & [= -> -> ->] & Hin).
    rewrite elem_of_sort_by, list_elem_of_filter, elem_of_map_to_list in Hin. destruct Hin as [Hr Hin].
    simpl in Hr. by apply String.eqb_eq in Hr as ->.
  - intros Hk. exists (run, p, (s, d)). split; [done|].
    rewrite elem_of_sort_by, list_elem_of_filter, elem_of_map_to_list. split; [|done]. apply String.eqb_refl.
Qed.

(** ** Recovery actions *)

(** The states of an action's items, as the join finds them. *)
Lemma action_items_spec a run db k c i :
  (k, c, i) ∈ action_items a run db <->
  crawl_url_state (traversal db) !! k = Some c /\ us_run c = run /\
  recovery_action_items (traversal db) !! (a, k) = Some i /\ ri_run i = run.
Proof.
  unfold action_items. rewrite list_elem_of_omap. split.
  - intros ([k' c'] & Hin & H). apply elem_of_recovery_order in Hin as [Hk Hr]. simpl in H.
    destruct (recovery_action_items _ !! (a, k')) as [j|] eqn:Hj; [|done]. simpl in H.
    destruct (String.eqb_spec (ri_run j) run); [|done]. injection H as <- <- <-. boolify. done.
  - intros (Hk & Hr & Hi & Hir). exists (k, c). split.
    + apply elem_of_recovery_order. split; [done|]. by apply String.eqb_eq.
    + simpl. rewrite Hi. simpl. by rewrite (proj2 (String.eqb_eq _ _) Hir).
Qed.

Lemma action_items_keys a run db : NoDup (map (fun x => x.1.1) (action_items a run db)).
Proof.
  unfold action_items. pose proof (recovery_order_keys (fun _ c => String.eqb (us_run c) run) db) as Hnd.
  induction (in_recovery_order _ db) as [|[k c] l IH]; [constructor|]. simpl in Hnd |- *.
  apply NoDup_cons in Hnd as [Hnin Hnd].
  destruct (recovery_action_items _ !! (a, k)) as [i|]; simpl; [|by apply IH].
  destruct (String.eqb _ _); [|by apply IH]. simpl. apply NoDup_cons. split; [|by apply IH].
  intros Hin. apply Hnin. apply elem_of_map in Hin as ([[k' c'] i'] & Heq & Hin). simpl in Heq. subst k'.
  apply list_elem_of_omap in Hin as ([k2 c2] & Hin & H).
  destruct (recovery_action_items _ !! (a, (k2, c2).1)) as [j|]; [|done]. simpl in H.
  destruct (String.eqb _ _); [|done]. injection H as Hk _ _. apply elem_of_map. by exists (k2, c2).
Qed.

(** Reading the items succeeds when every generation is current. *)
Lemma read_items_ok l : forall ids,
  NoDup (ids ++ map (fun x => x.1.1) l) ->
  Forall (fun x : string * UrlStateColumns * RecoveryItemRow => 0 <= us_work_generation x.1.2 /\
    ri_prepared_work_generation x.2 = us_work_generation x.1.2) l ->
  foldl (fun acc row => let? ids := acc in read_item ids row) (Ok ids) l
    = Ok (ids ++ map (fun x => x.1.1) l).
Proof.
  induction l as [|[[k c] i] l IH]; intros ids Hnd Hl; simpl; [by rewrite app_nil_r|].
  apply Forall_cons in Hl as [[Hg Hi] Hl]. simpl in *. unfold read_item at 2. simpl.
  rewrite Hi, (proj2 (as_u64_ok _ (us_work_generation c))) by done. rewrite Z.eqb_refl.
  assert (bool_decide (last ids = Some k) = false) as ->.
  { apply bool_decide_eq_false. intros Hlast. apply last_Some_elem_of in Hlast.
    apply NoDup_app in Hnd as (_ & Hnd & _). apply (Hnd k Hlast). left. }
  simpl. rewrite IH; [by rewrite <- app_assoc|by rewrite <- app_assoc|done].
Qed.

Lemma read_items_inv l : forall ids ids',
  foldl (fun acc row => let? ids := acc in read_item ids row) (Ok ids) l = Ok ids' ->
  ids' = ids ++ map (fun x => x.1.1) l /\
  Forall (fun x : string * UrlStateColumns * RecoveryItemRow =>
    ri_prepared_work_generation x.2 = us_work_generation x.1.2) l.
Proof.
  assert (Herr : forall l e, foldl (fun acc row => let? ids := acc in read_item ids row)
    (Err e : result CrawlTraversalRepositoryError (list string)) l = Err e).
  { clear. induction l as [|x l IH]; [done|]. intros e. apply IH. }
  induction l as [|[[k c] i] l IH]; intros ids ids' H; simpl in H.
  - injection H as <-. by rewrite app_nil_r.
  - destruct (read_item ids (k, c, i)) as [ids1|e] eqn:Hr; [|by rewrite Herr in H].
    unfold read_item in Hr. simpl in Hr. destruct (as_u64 (ri_prepared_work_generation i)) eqn:H1; [|done].
    apply as_u64_ok in H1 as [-> _]. destruct (as_u64 (us_work_generation c)) eqn:H2; [|done].
    apply as_u64_ok in H2 as [-> _]. destruct (reject_if _ _) eqn:H3; [|done]. apply reject_if_ok in H3.
    injection Hr as <-. apply IH in H as [-> Hl]. rewrite <- app_assoc. split; [done|].
    boolify. by constructor.
Qed.

(** *** The items of an action never change *)

Lemma items_fixed_change tr tr' a x k :
  recovery_actions tr !! a = Some x -> table_change tr tr' ->
  recovery_actions tr' !! a = Some x /\
  recovery_action_items tr' !! (a, k) = recovery_action_items tr !! (a, k).
Proof.
  intros Ha Hch. destruct Hch as [| |action r l Hact Hnd Hp| | | | | | | |]; try done. simpl.
  assert (a <> action) by congruence. by rewrite lookup_insert_ne, add_items_other.
Qed.

Lemma items_fixed tr tr' a x k :
  recovery_actions tr !! a = Some x -> table_changes tr tr' ->
  recovery_actions tr' !! a = Some x /\
  recovery_action_items tr' !! (a, k) = recovery_action_items tr !! (a, k).
Proof.
  intros Ha H. induction H as [|tr tr1 tr2 H _ IH]; [done|].
  destruct (items_fixed_change _ _ _ _ k Ha H) as [Ha1 <-]. by apply IH.
Qed.

Section crawl_theorems.
Context `{U : UuidLib} `{L : UrlLib} `{SD : SerdeLib} `{J : JsonLib} `{Hash : HashLib} `{Hosts : HostLib}.
Context `{W : !SnapshotWire} `{VW : !VersionWire}.

Lemma crawl_reachable_wf db : crawl_reachable db -> tables_wf (traversal db).
Proof.
  intros (db0 & Hdb0 & H%crawl_steps_changes). eapply wf_changes, H. rewrite Hdb0. apply wf_empty.
Qed.

Lemma crawl_steps_wf db db' : crawl_reachable db -> crawl_steps db db' -> tables_wf (traversal db').
Proof. intros Hr Hs. eapply wf_changes; [by apply crawl_reachable_wf|by apply crawl_steps_changes]. Qed.

Lemma prepare_step a att run kind now db r db' :
  prepare_recovery_action a att run kind now db = (r, db') -> crawl_steps db db'.
Proof. intros H. apply rtc_once. by eapply op_prepare. Qed.

(** The states an action has selected are those of its items, at the generations
    these record. *)
Lemma prepared_items a att run kind now db sel db' :
  crawl_reachable db -> prepare_recovery_action a att run kind now db = (Ok sel, db') ->
  (exists x, recovery_actions (traversal db') !! a = Some x /\
     action_source a att run kind now db = Ok (ra_source_job_id x) /\ ra_run x = run /\ ra_kind x = kind) /\
  NoDup (sel_state_ids sel) /\
  (forall k, k ∈ sel_state_ids sel <-> is_Some (recovery_action_items (traversal db') !! (a, k))) /\
  (forall k i, recovery_action_items (traversal db') !! (a, k) = Some i -> exists c,
     crawl_url_state (traversal db') !! k = Some c /\ us_run c = run /\ ri_run i = run /\
     ri_prepared_work_generation i = us_work_generation c).
Proof.
  intros Hreach Hp. pose proof (crawl_reachable_wf _ Hreach) as Hwf.
  assert (Hwf' : tables_wf (traversal db')) by (eapply crawl_steps_wf; [done|by eapply prepare_step]).
  apply prepare_inv in Hp as (source & Hsrc & H).
  destruct (recovery_actions (traversal db) !! a) as [x|] eqn:Ha.
  - destruct H as (<- & <- & <- & -> & H). apply read_items_inv in H as [Hids Hgen]. simpl in Hids.
    assert (Hjoin : forall k i, recovery_action_items (traversal db) !! (a, k) = Some i ->
      exists c, (k, c, i) ∈ action_items a (ra_run x) db).
    { intros k i Hi. destruct (tw_items _ Hwf _ _ _ Hi) as ((y & Hy & Hr) & (c & Hc & Hcr) & _).
      assert (y = x) as -> by congruence. exists c. apply action_items_spec. split_and!; congruence. }
    split; [by exists x|]. split; [rewrite Hids; apply action_items_keys|]. split.
    + intros k. rewrite Hids, elem_of_map. split.
      * intros ([[k' c] i] & -> & (_ & _ & Hi & _)%action_items_spec). by exists i.
      * intros [i [c Hin]%Hjoin]. by exists (k, c, i).
    + intros k i [c Hin]%Hjoin. rewrite Forall_forall in Hgen. pose proof (Hgen _ Hin) as Hg.
      apply action_items_spec in Hin as (Hk & Hr & _ & Hir). by exists c.
  - destruct H as (Hids & Hpr & Hg & ->). set (l := action_list run kind db) in *.
    pose proof (action_list_keys run kind db) as Hnd. fold l in Hnd.
    pose proof (preparable_lookup _ _ _ Hpr) as Hlk. simpl.
    assert (Hitem : forall k i, add_items a run l (recovery_action_items (traversal db)) !! (a, k) = Some i ->
      exists c, (k, c) ∈ l /\ i = item_for run c).
    { intros k i [[_ Hi]|Hi]%add_items_lookup; [done|].
      destruct (tw_items _ Hwf _ _ _ Hi) as ((y & Hy & _) & _). congruence. }
    split; [eexists; rewrite lookup_insert_eq; by split|]. split; [by rewrite Hids|]. split.
    + intros k. rewrite Hids. split.
      * intros ([k' c] & -> & Hin)%elem_of_map. exists (item_for run c). by apply add_items_listed.
      * intros [i (c & Hin & _)%Hitem]. apply elem_of_map. by exists (k, c).
    + intros k i (c & Hin & ->)%Hitem. exists (bumped c). split; [by apply bump_all_lookup|].
      rewrite Forall_forall in Hpr. by destruct (Hpr _ Hin) as (_ & Hr & _).
Qed.

(** * Properties *)

(** C5. Every unit of a crawl's work follows the protocol [work_step], whichever
    operations of the two repositories run, succeed or fail: a URL is discovered once;
    its work starts and finishes within a generation, and only failed work starts again
    in the same one; a recovery action takes it up in the next generation; and a URL
    resolved by a redirect, or kept without being crawled, never becomes work again. *)
Theorem crawl_refines_work_protocol db db' k :
  crawl_reachable db -> crawl_steps db db' ->
  rtc work_step (work_view (traversal db) k) (work_view (traversal db') k).
Proof. intros Hr Hs. apply changes_steps; [by apply crawl_reachable_wf|by apply crawl_steps_changes]. Qed.

(** Evidence is append-only: discovered URLs, executions, their artifacts, seed
    provenance, recovery actions and their items are never changed nor removed, and a
    state never moves to another run or URL. *)
Theorem crawl_evidence_is_final db db' :
  crawl_reachable db -> crawl_steps db db' -> evidence_kept (traversal db) (traversal db').
Proof. intros Hr Hs. apply evidence_changes; [by apply crawl_reachable_wf|by apply crawl_steps_changes]. Qed.

(** C31. The recovery model of every initialized run can be reconstructed: whatever the
    operations left, no column is read as corrupt.  It holds the control row, each state
    of the run once, with its seed provenance, in the order by which a restart replays
    them (depth, admission sequence, URL), and exactly the counts stored for the run. *)
Theorem recovery_state_reconstructs run control db :
  crawl_reachable db -> traversal_control (traversal db) !! run = Some control ->
  exists st l, reconstruct_recovery_state run db = Ok st /\
    rec_control st = {| ctl_run := run; ctl_columns := control |} /\
    rec_work st = map (fun e => {| st_id := e.1; st_columns := e.2;
      st_seed_provenance := read_seed_provenance e.1 db |}) l /\
    StronglySorted (cmp_le recovery_cmp) l /\ NoDup (map fst l) /\
    (forall k c, (k, c) ∈ l <-> crawl_url_state (traversal db) !! k = Some c /\ us_run c = run) /\
    (forall t s n, {| tc_transition_id := t; tc_source_url_state_id := s; tc_eligible_edge_count := n |}
        ∈ rec_transition_source_counts st <->
      transition_source_counts (traversal db) !! (run, t, s) = Some n) /\
    (forall p s d, {| pc_page_type_id := p; pc_sampled_count := s; pc_discovered_count := d |}
        ∈ rec_page_type_counts st <-> page_type_counts (traversal db) !! (run, p) = Some (s, d)).
Proof.
  intros Hwf%crawl_reachable_wf Hc. set (l := in_recovery_order (fun _ c => String.eqb (us_run c) run) db).
  destruct (read_transitions_ok run db Hwf) as (ts & Ht & Hts).
  destruct (read_page_types_ok run db Hwf) as (ps & Hp & Hps).
  assert (Hl : forall k c, (k, c) ∈ l <-> crawl_url_state (traversal db) !! k = Some c /\ us_run c = run).
  { intros k c. unfold l. by rewrite elem_of_recovery_order, String.eqb_eq. }
  eexists _, l. unfold reconstruct_recovery_state. rewrite (read_control_ok _ _ _ Hwf Hc).
  rewrite (collect_total _ (fun e => {| st_id := e.1; st_columns := e.2;
    st_seed_provenance := read_seed_provenance e.1 db |})), Ht, Hp.
  - split; [done|]. split; [done|]. split; [done|]. split; [|split; [apply recovery_order_keys|done]].
    apply sort_by_Sorted, _.
  - intros [k c] [Hk _]%Hl. by apply valid_record_of_row, (tw_states _ Hwf).
Qed.
End crawl_theorems.

(** * Witnesses *)

(** A run frozen by [operator], whose snapshot is the one text stored. *)
Definition crawl_run : CrawlRunId (U := plain_uuid) := new_id 0.
Definition crawl_run_text : string := id_to_string crawl_run.

Definition crawl_url : plain_url_t := plain_page_url "shop.example.com" "/" eq_refl.

Definition crawl_draft : CrawlRunSnapshotDraft (U := plain_uuid) (L := plain_url) := {|
  draft_run_type := QuickScrape; draft_configuration := ConfQuickScrape (crawl_url : url) [];
  draft_selected_seed_ids := []; draft_run_profile_id := None; draft_settings := example_settings;
  draft_robots := respect "operator" "2026-01-01T00:00:00Z" "shop.example.com" "Erabi" None;
  draft_actor := "operator"; draft_created_at := "2026-01-01T00:00:00Z" |}.

Definition crawl_hash : string := canonical_sha256 (draft_json crawl_draft).
Definition crawl_compatibility : string := canonical_sha256 (compatibility_json crawl_draft).

#[export] Instance crawl_wire : SnapshotWire (U := plain_uuid) (L := plain_url) :=
  {| snapshot_wire _ := Some (crawl_draft, crawl_hash, crawl_compatibility) |}.
#[export] Instance crawl_version_wire : VersionWire (U := plain_uuid) (L := plain_url) :=
  {| version_from_str _ := None; transition_from_str _ := None |}.

(** The run's first job failed; [retry] is its action, running until 100. *)
Definition crawl_job (kind : string) (parent : option string) (lease : option string) : JobRow :=
  {| row_kind := kind; row_priority := 0;
     row_state := match lease with Some _ => Running | None => Failed end; row_parent_job_id := parent;
     row_crawl_run_id := Some crawl_run_text; row_scheduled_at := 0; row_current_attempt := 1;
     row_max_attempts := 1; row_lease_id := lease; row_lease_owner := (fun _ => "w"%string) <$> lease;
     row_lease_generation := 1; row_lease_acquired_at := (fun _ => 10) <$> lease;
     row_lease_expires_at := (fun _ => 100) <$> lease; row_heartbeat_at := (fun _ => 10) <$> lease;
     row_failure_code := None; row_created_at := 0; row_updated_at := 10 |}.

Definition crawl_attempt : AttemptRow :=
  {| att_job_id := "retry"; att_number := 1; att_lease_id := "L"; att_lease_generation := 1;
     att_worker_id := "w"; att_started_at := 10; att_finished_at := None;
     att_outcome := AttemptRunning; att_failure_code := None |}.

Definition crawl_run_row : RunRow :=
  {| run_type := QuickScrape; run_status := RunRunning; run_crawler_id := None;
     run_crawler_version_id := None; run_snapshot_json := "{}"; run_snapshot_hash := crawl_hash;
     run_checkpoint_compatibility_hash := crawl_compatibility; run_actor := "operator";
     run_created_at := "0" |}.

(** Two artifacts stored for the run. *)
Definition crawl_artifact (n : nat) : ArtifactId (U := plain_uuid) := new_id n.
Definition crawl_catalogue : Catalogue :=
  let row := {| ar_run := Some crawl_run_text; ar_source_id := None |} in
  {| sources := ∅; page_types := ∅; discovery_transitions := ∅; seeds := ∅; version_rows := ∅;
     artifacts := {[id_to_string (crawl_artifact 8) := row; id_to_string (crawl_artifact 9) := row]} |}.

Definition crawl_start : Db :=
  with_catalogue crawl_catalogue (with_runs {[crawl_run_text := crawl_run_row]}
    (with_attempts {["a"%string := crawl_attempt]}
      (with_jobs {["first"%string := crawl_job "QUICK_SCRAPE" None None;
                   "retry"%string := crawl_job "RETRY" (Some "first"%string) (Some "L"%string)]}
        (empty_db ∅ ∅)))).

(** One page of the run, pending as the [n]th admitted. *)
Definition crawl_page (id path : string) (n : Z) : CrawlUrlStateRecord :=
  {| st_id := id; st_seed_provenance := [];
     st_columns := {| us_run := crawl_run_text; us_canonical_url := "http://shop.example.com" ++ path;
       us_first_discovered_url_id := None; us_requested_url := "http://shop.example.com" ++ path;
       us_parent_url_state_id := None; us_parent_discovered_url_id := None;
       us_admission_state := AdmittedWork; us_preserve_reason := None;
       us_resolved_to_url_state_id := None; us_admission_sequence := Some n; us_depth := Some 0;
       us_target_page_type_id := None; us_transition_id := None; us_pagination := false;
       us_final_canonical_url := None; us_current_work_state := Some WorkPending;
       us_work_generation := 0; us_current_execution_id := None; us_seen := true;
       us_sampled := false; us_expanded := false; us_in_scope := false;
       us_page_type_match_state := None |} |}.

Definition crawl_control : ControlColumns :=
  {| ct_consumed_bytes := 0; ct_raw_link_count := 0; ct_duplicate_count := 0;
     ct_robots_excluded_count := 0; ct_provider_error_count := 0; ct_external_url_count := 0;
     ct_blocked_url_count := 0; ct_peak_expansion_count := 0; ct_elapsed_millis := 0;
     ct_time_budget_hit := false; ct_duration_work_not_expanded := false;
     ct_pagination_truncation_count := 0; ct_next_admission_sequence := 1 |}.

Definition crawl_initialized : Db :=
  (initialize_run_state crawl_run_text [crawl_page "s0" "/" 0]
    {| ctl_run := crawl_run_text; ctl_columns := crawl_control |} crawl_start).2.

(** The page's work taken up by [retry]. *)
Definition crawl_retried : Db :=
  (prepare_recovery_action "retry" "a" crawl_run_text ActionRetry 20 crawl_initialized).2.

Lemma crawl_initialized_steps : crawl_steps crawl_start crawl_initialized.
Proof.
  apply rtc_once. eapply (op_initialize _ _ crawl_run_text [crawl_page "s0" "/" 0]).
  - constructor; [|constructor]. split; [by intros n [= <-]|]. split; [by intros d [= <-]|done].
  - apply surjective_pairing.
Qed.

Lemma crawl_initialized_reachable : crawl_reachable crawl_initialized.
Proof. exists crawl_start. split; [reflexivity|exact crawl_initialized_steps]. Qed.

Lemma crawl_retried_steps : crawl_steps crawl_initialized crawl_retried.
Proof. eapply prepare_step. apply surjective_pairing. Qed.

Lemma crawl_retried_reachable : crawl_reachable crawl_retried.
Proof.
  exists crawl_start. split; [reflexivity|]. etrans; [exact crawl_initialized_steps|exact crawl_retried_steps].
Qed.

Lemma crawl_retried_ok : exists sel,
  prepare_recovery_action "retry" "a" crawl_run_text ActionRetry 20 crawl_initialized
  = (Ok sel, crawl_retried) /\ sel_state_ids sel = ["s0"%string].
Proof. eexists. split; vm_compute; reflexivity. Qed.

Lemma crawl_refines_work_protocol_witness :
  rtc work_step (Work 0 WorkPending) (Work 1 WorkPending).
Proof.
  pose proof (crawl_refines_work_protocol crawl_initialized crawl_retried "s0"
    crawl_initialized_reachable crawl_retried_steps) as H.
  assert (work_view (traversal crawl_initialized) "s0" = Work 0 WorkPending) as H0 by (vm_compute; reflexivity).
  assert (work_view (traversal crawl_retried) "s0" = Work 1 WorkPending) as H1 by (vm_compute; reflexivity).
  rewrite H0, H1 in H. exact H.
Defined.

Lemma crawl_evidence_is_final_witness :
  evidence_kept (traversal crawl_initialized) (traversal crawl_retried).
Proof. exact (crawl_evidence_is_final _ _ crawl_initialized_reachable crawl_retried_steps). Defined.

Lemma recovery_state_reconstructs_witness : exists st,
  reconstruct_recovery_state crawl_run_text crawl_initialized = Ok st /\
  rec_control st = {| ctl_run := crawl_run_text; ctl_columns := crawl_control |} /\
  "s0"%string ∈ map st_id (rec_work st).
Proof.
  destruct (recovery_state_reconstructs crawl_run_text crawl_control crawl_initialized)
    as (st & l & Hst & Hct & Hw & _ & _ & Hl & _).
  - exact crawl_initialized_reachable.
  - vm_compute. reflexivity.
  - exists st. split; [exact Hst|]. split; [exact Hct|]. rewrite Hw, List.map_map.
    apply elem_of_map. exists ("s0"%string, st_columns (crawl_page "s0" "/" 0)). split; [reflexivity|].
    apply Hl. vm_compute. split; reflexivity.
Defined.
