(* ===== verification/RecoveryTheorems.v ===== *)
(** * Recovery actions

    A recovery action takes up the work its kind names, once: what a preparation
    selects and that it succeeds, and that a replay of it selects the same work. *)

From S2P Require Import Prelude Externals JsonFacts Base Instances Settings Guardrails Crawler Snapshot.
From S2P Require Import TraversalTables Store TraversalStore Progress Checkpoint Runs Traversal CrawlExecution.
From S2P Require Import TraversalInvariants TraversalTheorems.

(** ** Specifications *)

(** The work an action takes up: a retry whatever is not under way or completed, a
    retry of failed parts what failed or is incomplete, a restart everything. *)
Inductive takes_up : CrawlRecoveryActionKind -> CrawlWorkState -> Prop :=
| tu_retry s : s <> WorkRunning -> s <> WorkCompleted -> takes_up ActionRetry s
| tu_failed_parts s : s = WorkFailed \/ s = WorkPartial -> takes_up ActionRetryFailedParts s
| tu_restart s : takes_up ActionRestartFromBeginning s.

(** [c] is admitted work of the run that an action of this kind takes up. *)
Definition work_of_action (run : string) (kind : CrawlRecoveryActionKind) (c : UrlStateColumns) : Prop :=
  us_run c = run /\ us_admission_state c = AdmittedWork /\
  exists s, us_current_work_state c = Some s /\ takes_up kind s.

(** What a preparation makes of the states [l] it selects. *)
Record prepared (a run : string) (l : list (string * UrlStateColumns)) (tr tr' : TraversalTables) : Prop := {
  pr_selected : forall k c, (k, c) ∈ l -> crawl_url_state tr' !! k = Some (bumped c);
  pr_others : forall k, k ∉ map fst l -> crawl_url_state tr' !! k = crawl_url_state tr !! k;
  pr_items : forall k c, (k, c) ∈ l -> recovery_action_items tr' !! (a, k) = Some (item_for run c);
  pr_no_items : forall k, k ∉ map fst l -> recovery_action_items tr' !! (a, k) = None;
  pr_other_items : forall b k, b <> a ->
    recovery_action_items tr' !! (b, k) = recovery_action_items tr !! (b, k);
  pr_evidence : execution_results tr' = execution_results tr /\ discovered_urls tr' = discovered_urls tr
}.

(** A row a preparation can update: SQLite keeps its foreign keys, and its
    generation can be advanced. *)
Definition advanceable (db : Db) (k : string) (c : UrlStateColumns) : Prop :=
  url_state_foreign_keys k c db = true /\ us_work_generation c < i64_max.

(** * Lemmas *)

Lemma action_selects_spec run kind k c :
  action_selects run kind k c = true <-> work_of_action run kind c.
Proof.
  unfold action_selects, work_of_action. rewrite !andb_true_iff, String.eqb_eq, bool_decide_eq_true.
  split.
  - intros [[Hr Ha] Hw]. split; [done|]. split; [done|].
    destruct kind, (us_current_work_state c) as [[]|]; try done; eexists; split; try done; constructor;
      solve [done|by left|by right].
  - intros (Hr & Ha & s & Hs & Ht). split; [done|]. rewrite Hs. destruct Ht as [s H1 H2|s [->| ->]|s]; try done.
    by destruct s.
Qed.

Lemma no_item tr a k :
  tables_wf tr -> recovery_actions tr !! a = None -> recovery_action_items tr !! (a, k) = None.
Proof.
  intros Hwf Ha. apply eq_None_not_Some. intros [i Hi].
  destruct (tw_items _ Hwf _ _ _ Hi) as ((y & Hy & _) & _). congruence.
Qed.

Lemma prepared_tables_spec a r l tr :
  tables_wf tr -> recovery_actions tr !! a = None -> NoDup (map fst l) ->
  Forall (fun e => crawl_url_state tr !! e.1 = Some e.2) l ->
  prepared a (ra_run r) l tr (prepared_tables a r l tr).
Proof.
  intros Hwf Ha Hnd Hl. split; simpl.
  - intros k c. by apply bump_all_lookup.
  - intros k. by apply bump_all_lookup.
  - intros k c Hin. by apply add_items_listed.
  - intros k Hk. apply eq_None_not_Some. intros [i Hi].
    apply add_items_lookup in Hi as [(_ & c & Hin & _)|Hi]; [|by rewrite no_item in Hi].
    apply Hk, elem_of_map. by exists (k, c).
  - intros b k Hb. by apply add_items_other.
  - done.
Qed.

(** ** A preparation succeeds *)

(** What the preparation of [e] needs of the database. *)
Definition ready (a run : string) (db : Db) (e : string * UrlStateColumns) : Prop :=
  crawl_url_state (traversal db) !! e.1 = Some e.2 /\ us_run e.2 = run /\
  us_admission_state e.2 = AdmittedWork /\ 0 <= us_work_generation e.2 < i64_max /\
  url_state_check (bumped e.2) = true /\ no_conflict (traversal db) e.1 e.2 /\
  url_state_foreign_keys e.1 e.2 db = true /\
  recovery_action_items (traversal db) !! (a, e.1) = None.

(** Preparing one state leaves the runs of the states, and so the foreign keys. *)
Lemma foreign_keys_same k c db db' :
  crawl_runs db' = crawl_runs db -> catalogue db' = catalogue db ->
  discovered_urls (traversal db') = discovered_urls (traversal db) ->
  execution_results (traversal db') = execution_results (traversal db) ->
  (forall j, us_run <$> crawl_url_state (traversal db') !! j = us_run <$> crawl_url_state (traversal db) !! j) ->
  url_state_foreign_keys k c db' = url_state_foreign_keys k c db.
Proof.
  intros H1 H2 H3 H4 H5. unfold url_state_foreign_keys, discovered_in, execution_in.
  rewrite H1, H2, H3, H4. assert (Hin : forall o, state_in k (us_run c) o db' = state_in k (us_run c) o db).
  { intros [j|]; [|done]. simpl. specialize (H5 j).
    destruct (crawl_url_state (traversal db') !! j), (crawl_url_state (traversal db) !! j); simpl in H5; try done.
    by injection H5 as ->. }
  by rewrite !Hin.
Qed.

Lemma foreign_keys_bumped k c db :
  url_state_foreign_keys k c db = true -> url_state_foreign_keys k (bumped c) db = true.
Proof. unfold url_state_foreign_keys. simpl. by intros [-> _]%andb_true_iff. Qed.

Lemma next_generation_total g : 0 <= g < i64_max -> next_generation g = Ok (g + 1).
Proof. intros H. apply next_generation_ok. lia. Qed.

Lemma prepare_state_total a run acc e db x :
  ready a run db e -> recovery_actions (traversal db) !! a = Some x -> ra_run x = run ->
  prepare_state a run acc e db =
    Ok (acc ++ [e.1], with_traversal (taken_up a run [e] (traversal db)) db).
Proof.
  destruct e as [k c]. intros (Hk & Hr & Ha & Hg & Hc & Hn & Hf & Hi) Hx Hxr. simpl in *.
  unfold prepare_state. simpl. rewrite next_generation_total by done. unfold tx_bind at 1. simpl.
  unfold tx_bind at 1, dbt, tx_map_err. rewrite (update_url_states_selects true _ _ _ k c).
  - unfold tx_bind, tx_reject, insert_recovery_item, constrained. simpl.
    rewrite Hi, Hx, Hxr, lookup_insert_eq. simpl. rewrite Hr, !String.eqb_refl. simpl.
    rewrite (proj2 (Z.leb_le 0 _)) by lia. by rewrite Z.eqb_refl.
  - apply (selects_key (fun c0 => String.eqb (us_run c0) run &&
      (bool_decide (us_admission_state c0 = AdmittedWork) && (us_work_generation c0 =? us_work_generation c))));
      [done|]. rewrite Hr, String.eqb_refl, Ha, Z.eqb_refl. done.
  - unfold url_state_update_ok. change (set_work _ _ _ c) with (bumped c).
    rewrite Hc, foreign_keys_bumped by done. simpl.
    rewrite (proj2 (no_conflict_spec k (bumped c) db)) by exact Hn. simpl.
    unfold work_triggers, execution_matches. simpl. rewrite andb_true_r. apply Z.leb_le. lia.
Qed.

Lemma ready_after a run e e' db :
  ready a run db e -> ready a run db e' -> e'.1 <> e.1 ->
  ready a run (with_traversal (taken_up a run [e] (traversal db)) db) e'.
Proof.
  destruct e as [k c], e' as [k' c']. intros (Hk & Hr & _) (Hk' & Hr' & Ha & Hg & Hc & Hn & Hf & Hi) Hne.
  simpl in *. repeat split; simpl; try done; try lia.
  - by rewrite lookup_insert_ne.
  - intros j d Hj. simpl in Hj. apply lookup_insert_Some in Hj as [[<- <-]|[_ Hj]]; [|by apply Hn].
    rewrite conflict_bumped_r. by apply Hn.
  - rewrite <- Hf. apply foreign_keys_same; try done. intros j. simpl.
    destruct (decide (j = k)) as [->|Hj]; [by rewrite lookup_insert_eq, Hk|by rewrite lookup_insert_ne].
  - rewrite lookup_insert_ne; [done|]. congruence.
Qed.

Lemma prepare_fold_total a run x l : forall acc db,
  NoDup (map fst l) -> Forall (ready a run db) l ->
  recovery_actions (traversal db) !! a = Some x -> ra_run x = run ->
  exists db', tx_fold (prepare_state a run) l acc db = Ok (acc ++ map fst l, db').
Proof.
  induction l as [|e l IH]; intros acc db Hnd Hl Hx Hxr; [exists db; simpl; by rewrite app_nil_r|].
  apply NoDup_cons in Hnd as [Hnin Hnd]. apply Forall_cons in Hl as [He Hl].
  simpl. unfold tx_bind. rewrite (prepare_state_total _ _ _ _ _ x He Hx Hxr).
  destruct (IH (acc ++ [e.1]) (with_traversal (taken_up a run [e] (traversal db)) db)) as [db' H]; try done.
  - rewrite Forall_forall in Hl |- *. intros y Hy. apply ready_after; [done|by apply Hl|].
    intros Heq. apply Hnin, elem_of_map. by exists y.
  - exists db'. by rewrite H, <- app_assoc.
Qed.

Lemma action_source_lineage a att run kind now db source :
  action_source a att run kind now db = Ok source ->
  recovery_lineage a {| ra_source_job_id := source; ra_run := run; ra_kind := kind; ra_prepared_at := now |} db
  = true.
Proof.
  unfold action_source, recovery_lineage. simpl.
  destruct (jobs db !! a) as [job|]; [|done]. destruct (job_attempts db !! att) as [t|]; [|done].
  destruct (reject_if _ _); [|done]. destruct (row_parent_job_id job) as [p|]; [|done]. simpl.
  destruct (reject_if (_ || _) _) eqn:H1; [|done]. apply reject_if_ok in H1.
  destruct (jobs db !! p) as [s|] eqn:Hp; [|done]. simpl.
  destruct (reject_if _ _) eqn:H2; [|done]. apply reject_if_ok in H2. intros [= <-]. rewrite Hp.
  apply orb_false_iff in H1 as [H1 _]. repeat apply orb_false_iff in H1 as [H1 _].
  apply bool_decide_eq_false in H1, H2. apply dec_stable in H1, H2. rewrite H1, H2.
  rewrite !bool_decide_true by done. done.
Qed.

Lemma action_list_ready a run kind db :
  tables_wf (traversal db) -> recovery_actions (traversal db) !! a = None ->
  (forall k c, crawl_url_state (traversal db) !! k = Some c -> advanceable db k c) ->
  Forall (ready a run db) (action_list run kind db).
Proof.
  intros Hwf Ha Hadv. unfold action_list. destruct (initialized run db); [|constructor].
  apply Forall_forall. intros [k c] [Hk Hs]%elem_of_recovery_order.
  apply action_selects_spec in Hs as (Hr & Had & _). destruct (Hadv k c Hk) as [Hf Hmax].
  destruct (tw_states _ Hwf _ _ Hk) as (Hv & _ & Hn). pose proof (sv_generation _ _ Hv) as Hg.
  split; [done|]. split; [done|]. split; [done|]. split; [simpl; lia|]. split.
  - apply (sv_check k), bumped_valid; [done|done|simpl; lia].
  - split; [done|]. split; [done|]. by apply no_item.
Qed.

(** The preparation of a new action. *)
Lemma prepare_total a att run kind now db source :
  tables_wf (traversal db) -> recovery_actions (traversal db) !! a = None ->
  str_is_empty a = false -> str_is_empty att = false -> 0 <= now ->
  action_source a att run kind now db = Ok source -> is_Some (crawl_runs db !! run) ->
  (forall k c, crawl_url_state (traversal db) !! k = Some c -> advanceable db k c) ->
  exists sel db', prepare_recovery_action a att run kind now db = (Ok sel, db').
Proof.
  intros Hwf Ha H1 H2 H3 Hs Hrun Hadv. pose proof (action_list_ready a run kind db Hwf Ha Hadv) as Hl.
  pose proof (action_list_keys run kind db) as Hnd.
  set (row := {| ra_source_job_id := source; ra_run := run; ra_kind := kind; ra_prepared_at := now |}).
  unfold prepare_recovery_action. rewrite H1, H2, (proj2 (Z.ltb_ge now 0)) by done. simpl.
  unfold transact, tx_bind at 1 2, tx_get, tx_of. rewrite Hs, Ha.
  unfold tx_bind at 1, dbt at 1, tx_map_err at 1, insert_recovery_action, constrained.
  rewrite Ha, (action_source_lineage _ _ _ _ _ _ _ Hs), (bool_decide_true (is_Some (crawl_runs db !! _)) Hrun).
  fold row. simpl.
  unfold write_traversal, tx_bind at 1, tx_get. unfold action_list in Hl, Hnd.
  set (db1 := with_traversal _ _). change (initialized run db1) with (initialized run db).
  destruct (initialized run db); [|by eexists _, _].
  destruct (prepare_fold_total a run row (in_recovery_order (action_selects run kind) db1) [] db1)
    as [db' Hf]; [exact Hnd|exact Hl|by apply lookup_insert_eq|done|].
  unfold tx_bind. rewrite Hf. by eexists _, _.
Qed.

(** The replay of a prepared action whose generations are current. *)
Lemma replay_total a att run kind now db x :
  tables_wf (traversal db) -> recovery_actions (traversal db) !! a = Some x ->
  ra_run x = run -> ra_kind x = kind ->
  str_is_empty a = false -> str_is_empty att = false -> 0 <= now ->
  action_source a att run kind now db = Ok (ra_source_job_id x) ->
  (forall k i c, recovery_action_items (traversal db) !! (a, k) = Some i ->
     crawl_url_state (traversal db) !! k = Some c -> ri_prepared_work_generation i = us_work_generation c) ->
  exists sel, prepare_recovery_action a att run kind now db = (Ok sel, db).
Proof.
  intros Hwf Hx Hr Hk H1 H2 H3 Hs Hgen. unfold prepare_recovery_action.
  rewrite H1, H2, (proj2 (Z.ltb_ge now 0)) by done. simpl.
  unfold transact, tx_bind at 1 2, tx_get, tx_of. rewrite Hs, Hx, Hr, Hk.
  unfold tx_reject at 1. rewrite !String.eqb_refl, bool_decide_false by (intros ?; done). simpl.
  unfold tx_bind, tx_ret, read_recovery_action_items. rewrite read_items_ok; [by eexists| |].
  - simpl. apply action_items_keys.
  - apply Forall_forall. intros [[k c] i] (Hc & _ & Hi & _)%action_items_spec. simpl. split.
    + by destruct (tw_states _ Hwf _ _ Hc) as ([] & _); lia.
    + by eapply Hgen.
Qed.

Lemma prepare_named a att run kind now db sel db' :
  prepare_recovery_action a att run kind now db = (Ok sel, db') -> str_is_empty a = false.
Proof. unfold prepare_recovery_action. by destruct (str_is_empty a). Qed.

Section recovery_theorems.
Context `{U : UuidLib} `{L : UrlLib} `{SD : SerdeLib} `{J : JsonLib} `{Hash : HashLib} `{Hosts : HostLib}.
Context `{W : !SnapshotWire} `{VW : !VersionWire}.

(** * Properties *)

(** C32. A recovery action whose attempt owns its lease takes up exactly the work its
    kind names, in recovery order: each selected state is pending again in the next
    generation, without an execution, and the action has an item that records both
    generations; every other state, the items of other actions and all evidence stay.
    The preparation succeeds whenever the rows of the states satisfy their foreign keys
    and no generation is exhausted. *)
Theorem prepare_selects_exactly a att run kind now db source :
  crawl_reachable db -> recovery_actions (traversal db) !! a = None ->
  str_is_empty a = false -> str_is_empty att = false -> 0 <= now ->
  action_source a att run kind now db = Ok source -> is_Some (crawl_runs db !! run) ->
  is_Some (traversal_control (traversal db) !! run) ->
  (forall k c, crawl_url_state (traversal db) !! k = Some c -> advanceable db k c) ->
  exists sel db' l, prepare_recovery_action a att run kind now db = (Ok sel, db') /\
    sel_state_ids sel = map fst l /\ NoDup (map fst l) /\ StronglySorted (cmp_le recovery_cmp) l /\
    (forall k c, (k, c) ∈ l <->
       crawl_url_state (traversal db) !! k = Some c /\ work_of_action run kind c) /\
    prepared a run l (traversal db) (traversal db').
Proof.
  intros Hwf%crawl_reachable_wf Ha H1 H2 H3 Hs Hrun Hinit Hadv.
  destruct (prepare_total a att run kind now db source) as (sel & db' & Hp); try done.
  exists sel, db', (in_recovery_order (action_selects run kind) db). split; [done|].
  apply prepare_inv in Hp as (source' & Hs' & H). rewrite Hs in Hs'. injection Hs' as <-. rewrite Ha in H.
  unfold action_list, initialized in H. rewrite bool_decide_true in H by done.
  destruct H as (Hids & Hpr & _ & ->). split; [done|]. pose proof (recovery_order_keys (action_selects run kind) db).
  split; [done|]. split; [apply sort_by_Sorted, _|]. split.
  - intros k c. by rewrite elem_of_recovery_order, action_selects_spec.
  - change run with (ra_run {| ra_source_job_id := source; ra_run := run; ra_kind := kind;
      ra_prepared_at := now |}) at 1. apply prepared_tables_spec; [done..|].
    by eapply preparable_lookup.
Qed.

(** A preparation is replayable: whatever the operations do in between, preparing
    the same action again, under whichever attempt, changes nothing, and answers with
    the work selected the first time or not at all; it answers as long as none of that
    work has since been taken up by another action. *)
Theorem prepared_action_replays a att run kind now db sel db1 db2 :
  crawl_reachable db -> prepare_recovery_action a att run kind now db = (Ok sel, db1) ->
  crawl_steps db1 db2 ->
  (forall att' run' kind' now' r db3,
     prepare_recovery_action a att' run' kind' now' db2 = (r, db3) -> db3 = db2 /\
     forall sel', r = Ok sel' -> run' = run /\ kind' = kind /\ sel_state_ids sel' ≡ₚ sel_state_ids sel) /\
  (forall att' now' source, action_source a att run kind now db = Ok source ->
     action_source a att' run kind now' db2 = Ok source -> str_is_empty att' = false -> 0 <= now' ->
     (forall k, k ∈ sel_state_ids sel -> exists c1 c2,
        crawl_url_state (traversal db1) !! k = Some c1 /\ crawl_url_state (traversal db2) !! k = Some c2 /\
        us_work_generation c2 = us_work_generation c1) ->
     exists sel', prepare_recovery_action a att' run kind now' db2 = (Ok sel', db2)).
Proof.
  intros Hreach Hp Hs. pose proof (prepare_step _ _ _ _ _ _ _ _ Hp) as Hs1.
  assert (Hreach2 : crawl_reachable db2).
  { destruct Hreach as (db0 & H0 & H). exists db0. split; [done|]. by do 2 (etrans; [done|]). }
  pose proof (crawl_reachable_wf _ Hreach2) as Hwf2.
  destruct (prepared_items _ _ _ _ _ _ _ _ Hreach Hp) as ((x & Hx & Hsrc & Hxr & Hxk) & Hnd & Hsel & Hgen).
  assert (Hfix : forall k, recovery_actions (traversal db2) !! a = Some x /\
    recovery_action_items (traversal db2) !! (a, k) = recovery_action_items (traversal db1) !! (a, k)).
  { intros k. eapply items_fixed; [exact Hx|by apply crawl_steps_changes]. }
  destruct (Hfix EmptyString) as [Hx2 _]. split.
  - intros att' run' kind' now' r db3 Hp'. destruct r as [sel'|e].
    2: { unfold prepare_recovery_action in Hp'. destruct (_ || _); [by injection Hp' as _ <-|].
         by apply transact_err in Hp'. }
    destruct (prepared_items _ _ _ _ _ _ _ _ Hreach2 Hp') as (_ & Hnd' & Hsel' & _).
    apply prepare_inv in Hp' as (source' & _ & H). rewrite Hx2 in H. destruct H as (_ & Hr & Hk & -> & _).
    split; [done|]. intros ? [= <-]. split; [congruence|]. split; [congruence|].
    apply NoDup_Permutation; [done..|]. intros k. rewrite Hsel', Hsel. by destruct (Hfix k) as [_ ->].
  - intros att' now' source Hsrc1 Hsrc2 Hatt Hnow Hcur. rewrite Hsrc in Hsrc1. injection Hsrc1 as <-.
    apply (replay_total a att' run kind now' db2 x); try done.
    + by eapply prepare_named.
    + intros k i c2 Hi Hc2. destruct (Hfix k) as [_ Hk]. rewrite Hk in Hi.
      destruct (Hcur k) as (c1 & c2' & Hc1 & Hc2' & Hg); [by apply Hsel; exists i|].
      destruct (Hgen k i Hi) as (c & Hc & _ & _ & Hic). congruence.
Qed.
End recovery_theorems.

(** * Witnesses *)

Lemma crawl_action_source att now : att = "a"%string -> now < 100 ->
  action_source "retry" att crawl_run_text ActionRetry now crawl_initialized = Ok "first"%string.
Proof.
  intros -> Hn. assert (exists job t source_job,
    jobs crawl_initialized !! "retry"%string = Some job /\ job_attempts crawl_initialized !! "a"%string = Some t /\
    jobs crawl_initialized !! "first"%string = Some source_job /\
    job = crawl_job "RETRY" (Some "first"%string) (Some "L"%string) /\ t = crawl_attempt /\
    source_job = crawl_job "QUICK_SCRAPE" None None) as (j & t & s & Hj & Ht & Hs & -> & -> & ->).
  { eexists _, _, _. split_and!; vm_compute; reflexivity. }
  unfold action_source. rewrite Hj, Ht. simpl. rewrite Hs. rewrite (proj2 (Z.leb_gt 100 now)) by exact Hn.
  vm_compute. reflexivity.
Qed.

Lemma crawl_initialized_state k c :
  crawl_url_state (traversal crawl_initialized) !! k = Some c ->
  k = "s0"%string /\ c = st_columns (crawl_page "s0" "/" 0).
Proof.
  intros H. assert (Ht : crawl_url_state (traversal crawl_initialized) =
    {["s0"%string := st_columns (crawl_page "s0" "/" 0)]}) by (vm_compute; reflexivity).
  rewrite Ht in H. apply lookup_singleton_Some in H as [-> ->]. split; reflexivity.
Qed.

Lemma prepare_selects_exactly_witness : exists sel db' l,
  prepare_recovery_action "retry" "a" crawl_run_text ActionRetry 20 crawl_initialized = (Ok sel, db') /\
  prepared "retry" crawl_run_text l (traversal crawl_initialized) (traversal db').
Proof.
  destruct (prepare_selects_exactly "retry" "a" crawl_run_text ActionRetry 20 crawl_initialized "first")
    as (sel & db' & l & Hp & _ & _ & _ & _ & Hl).
  - exact crawl_initialized_reachable.
  - vm_compute. reflexivity.
  - reflexivity.
  - reflexivity.
  - lia.
  - apply crawl_action_source; [reflexivity|lia].
  - eexists. vm_compute. reflexivity.
  - eexists. vm_compute. reflexivity.
  - intros k c [-> ->]%crawl_initialized_state. split; [vm_compute; reflexivity|reflexivity].
  - exists sel, db', l. split; [exact Hp|exact Hl].
Defined.

Lemma prepared_action_replays_witness : exists sel',
  prepare_recovery_action "retry" "a" crawl_run_text ActionRetry 30 crawl_retried = (Ok sel', crawl_retried).
Proof.
  destruct crawl_retried_ok as (sel & Hp & Hids).
  destruct (prepared_action_replays "retry" "a" crawl_run_text ActionRetry 20 crawl_initialized sel
    crawl_retried crawl_retried) as [_ H].
  - exact crawl_initialized_reachable.
  - exact Hp.
  - apply rtc_refl.
  - apply (H "a"%string 30 "first"%string).
    + apply crawl_action_source; [reflexivity|lia].
    + vm_compute. reflexivity.
    + reflexivity.
    + lia.
    + intros k Hk. rewrite Hids in Hk. apply list_elem_of_singleton in Hk as ->.
      eexists _, _. split; [vm_compute; reflexivity|]. split; vm_compute; reflexivity.
Defined.
