(* ===== verification/ExecutionTheorems.v ===== *)
(** * Executions: fencing, single recording, and reading back

    An execution is evidence of one generation of a unit of work: work of an earlier
    generation is refused, a finished generation is recorded once, and what was
    persisted is read back. *)

From S2P Require Import Prelude Externals JsonFacts Base Instances Settings Guardrails Crawler Snapshot.
From S2P Require Import TraversalTables Store TraversalStore Progress Checkpoint Runs Traversal CrawlExecution.
From S2P Require Import TraversalInvariants TraversalTheorems.

(** ** Specifications *)

(** The operation fails and leaves the database as it was. *)
Definition refused {E A} (outcome : result E A * Db) (db : Db) : Prop :=
  is_err outcome.1 = true /\ outcome.2 = db.

(** * Lemmas *)

Lemma not_ok_refused {E A} (o : result E A * Db) db :
  (forall a, o.1 = Ok a -> False) -> (forall e, o.1 = Err e -> o.2 = db) -> refused o db.
Proof. intros H1 H2. destruct o as [[a|e] db']; [by destruct (H1 a)|split; [done|by apply (H2 e)]]. Qed.

Lemma transact_refused {E A} (t : Tx E A) db :
  (forall a db', t db = Ok (a, db') -> False) -> refused (transact t db) db.
Proof.
  intros H. unfold refused, transact. destruct (t db) as [[a db']|e] eqn:Ht; [by destruct (H a db')|done].
Qed.

Lemma view_admitted tr k c :
  tables_wf tr -> crawl_url_state tr !! k = Some c -> us_admission_state c = AdmittedWork ->
  exists s, us_current_work_state c = Some s /\ work_view tr k = Work (us_work_generation c) s.
Proof.
  intros Hwf Hk Ha. destruct (tw_states _ Hwf _ _ Hk) as (Hv & _).
  destruct (check_admitted c (sv_check _ _ Hv) Ha) as [s Hs]. exists s. split; [done|].
  unfold work_view, view_columns. by rewrite Hk, Ha, Hs.
Qed.

Lemma generation_or_min_ok g n : 0 <= n -> n = generation_or_min g -> n = g.
Proof. unfold generation_or_min, i64_min. destruct (g <=? i64_max); lia. Qed.

Lemma checked_counter_ok v n : checked_counter v = Ok n <-> n = v /\ v <= i64_max.
Proof. unfold checked_counter. destruct (Z.leb_spec v i64_max); naive_solver lia. Qed.

Section execution_lemmas.
Context `{U : UuidLib} `{L : UrlLib} `{SD : SerdeLib} `{J : JsonLib} `{Hash : HashLib} `{Hosts : HostLib}.
Context `{W : !SnapshotWire} `{VW : !VersionWire}.

(** The work an owned state is. *)
Lemma owned_state_inv r k generation p db :
  tables_wf (traversal db) -> owned_state r k generation p db = true ->
  exists c s, crawl_url_state (traversal db) !! k = Some c /\
    us_run c = id_to_string (exec_crawl_run_id r) /\ us_canonical_url c = exec_canonical_url r /\
    us_admission_state c = AdmittedWork /\ p c = true /\ us_work_generation c = generation /\
    us_current_work_state c = Some s /\ work_view (traversal db) k = Work generation s.
Proof.
  unfold owned_state. intros Hwf H. destruct (crawl_url_state _ !! k) as [c|] eqn:Hk; [|done].
  boolify. destruct (view_admitted _ _ _ Hwf Hk) as (s & Hs & Hv); [done|].
  assert (us_work_generation c = generation) as Hg.
  { apply generation_or_min_ok; [|done]. by destruct (tw_states _ Hwf _ _ Hk) as ([] & _); lia. }
  exists c, s. by rewrite <- Hg at 2.
Qed.

(** The artifact rows of an execution. *)
Definition artifact_entries (id : string) (l : list CrawlExecutionArtifact)
    (m : gmap (string * CrawlExecutionArtifactKind) string) :=
  foldl (fun m a => <[(id, artifact_kind a) := id_to_string (artifact_id a)]> m) m l.

Lemma insert_artifacts_inv id l : forall db u db',
  tx_each (fun a => dbx (insert_execution_artifact id (id_to_string (artifact_id a)) (artifact_kind a))) l db
    = Ok (u, db') ->
  db' = with_traversal (set_execution_artifacts
    (artifact_entries id l (execution_artifacts (traversal db))) (traversal db)) db.
Proof.
  induction l as [|x l IH]; intros db u db' H.
  - apply tx_ret_ok in H as [_ ->]. by destruct db as [? ? ? ? ? ? ? ? ? [] ?].
  - apply tx_bind_ok in H as ([] & mid & H1 & H2). apply (IH mid u) in H2 as ->.
    unfold dbx in H1. tx_step H1. unfold insert_execution_artifact in H1. by apply constrained_ok in H1 as [_ ->].
Qed.

(** The insertion of an execution adds its row and those of its artifacts. *)
Definition with_execution (r : CrawlExecutionRecord) (row : ExecutionRow) (db : Db) : Db :=
  let id := id_to_string (exec_id r) in
  with_traversal (set_execution_artifacts
    (artifact_entries id (exec_artifacts r) (execution_artifacts (traversal db)))
    (set_execution_results (<[id := row]> (execution_results (traversal db))) (traversal db))) db.

Lemma insert_execution_row_inv r len elapsed lineage db u db' :
  insert_execution_row r len elapsed lineage db = Ok (u, db') ->
  execution_results (traversal db) !! id_to_string (exec_id r) = None /\
  execution_check (execution_row r len elapsed lineage) = true /\
  db' = with_execution r (execution_row r len elapsed lineage) db.
Proof.
  unfold insert_execution_row, reject_duplicate. intros H. tx_step H. subst.
  apply bool_decide_eq_false in Erej. split; [by apply eq_None_not_Some|].
  unfold dbx in Hs. tx_step Hs. unfold insert_execution in Hs. apply constrained_ok in Hs as [Hok ->].
  apply andb_true_iff in Hok as [Hok _]. apply andb_true_iff in Hok as [_ Hok]. split; [done|].
  by apply insert_artifacts_inv in H.
Qed.

Lemma insert_validated_inv r lineage db u db' :
  insert_validated r lineage db = Ok (u, db') ->
  exists len elapsed, insert_execution_row r len elapsed lineage db = Ok (u, db') /\
    optional_counter (exec_content_length_bytes r) = Ok len /\
    optional_counter (exec_provider_elapsed_ms r) = Ok elapsed /\
    exists run, load_run_context (exec_crawl_run_id r) db = Ok run /\
      validate_references r run db = Ok tt /\ validate_artifact_references r db = Ok tt.
Proof.
  unfold insert_validated. intros H. tx_step H. subst.
  repeat match goal with u : unit |- _ => destruct u end. eauto 10.
Qed.

Lemma optional_counter_ok v n : optional_counter v = Ok n -> n = v.
Proof.
  destruct v as [v|]; simpl; [|by intros [= <-]]. destruct (checked_counter v) eqn:Hv; [|done].
  apply checked_counter_ok in Hv as [-> _]. by intros [= <-].
Qed.

(** What the recording of current work did. *)
Lemma persist_current_inv r k job attempt state generation now db u db' :
  tables_wf (traversal db) ->
  persist_current_work r k job attempt state generation now db = (Ok u, db') ->
  exists c s, crawl_url_state (traversal db) !! k = Some c /\
    us_run c = id_to_string (exec_crawl_run_id r) /\ us_canonical_url c = exec_canonical_url r /\
    work_view (traversal db) k = Work generation s /\ s ∈ [WorkPending; WorkRunning] /\
    outcome_matches_work_state (exec_outcome r) state = true /\
    active_attempt (exec_crawl_run_id r) job attempt now db = true /\
    execution_results (traversal db) !! id_to_string (exec_id r) = None /\
    execution_results (traversal db') = <[id_to_string (exec_id r) :=
      execution_row r (exec_content_length_bytes r) (exec_provider_elapsed_ms r)
        (Some (k, attempt, generation))]> (execution_results (traversal db)) /\
    crawl_url_state (traversal db') = <[k := set_work generation (Some state)
      (Some (id_to_string (exec_id r))) c]> (crawl_url_state (traversal db)) /\
    jobs db' = jobs db /\ crawl_runs db' = crawl_runs db.
Proof.
  intros Hwf. unfold persist_current_work. destruct (validate_record_input r); [|done].
  destruct (_ || _) eqn:Hm; [done|]. intros Htx%transact_ok. boolify.
  unfold validate_current_work_owner, validate_active_attempt_owner, persist_in_transaction_with_lineage,
    reject_duplicate, dbx in Htx.
  tx_step Htx. subst. apply negb_false_iff in Erej, Erej0, Erej2. apply Nat.eqb_eq in Erej2. subst.
  apply owned_state_inv in Erej as (c & s & Hk & Hr & Hu & Ha & Hp & Hg & Hcs & Hv); [|done].
  unfold open_work in Hp. rewrite Hcs in Hp. apply bool_decide_eq_true in Hp.
  apply checked_counter_ok in Eof as [-> Hmax].
  match goal with Hi : insert_validated _ _ _ = _ |- _ =>
    apply insert_validated_inv in Hi as (len & elapsed & Hi & Hlen & Hel & _);
    apply optional_counter_ok in Hlen, Hel; subst; apply insert_execution_row_inv in Hi as (Hnew & _ & ->) end.
  match goal with Hu : update_url_states _ _ _ _ = _ |- _ =>
    apply update_key_inv in Hu as [(_ & c' & Hk' & _ & _ & _ & ->)|[? _]] end; [|done].
  simpl in Hk'. rewrite Hk in Hk'. injection Hk' as <-. exists c, s. simpl.
  split_and!; try done. set_solver.
Qed.

Lemma activate_inv run_id k job attempt generation now db u db' :
  tables_wf (traversal db) ->
  activate_current_work run_id k job attempt generation now db = (Ok u, db') ->
  exists s, work_view (traversal db) k = Work generation s /\ s ∈ [WorkPending; WorkRunning; WorkFailed].
Proof.
  intros Hwf. unfold activate_current_work. destruct (_ || _); [done|]. intros H%transact_ok.
  unfold validate_active_attempt_owner, dbx in H. tx_step H. subst.
  apply negb_false_iff, Nat.eqb_eq in Erej0. subst. apply checked_counter_ok in Eof as [-> Hmax].
  match goal with Hu : update_url_states _ _ _ _ = _ |- _ =>
    apply update_key_inv in Hu as [(_ & c & Hk & _ & Hq & _)|[? _]] end; [|done].
  boolify. destruct (view_admitted _ _ _ Hwf Hk) as (s & Hs & Hv); [done|]. exists s.
  split; [congruence|]. set_solver.
Qed.

Lemma persist_historical_inv r k job attempt generation now db u db' :
  tables_wf (traversal db) ->
  persist_historical_work r k job attempt generation now db = (Ok u, db') ->
  exists s, work_view (traversal db) k = Work generation s.
Proof.
  intros Hwf. unfold persist_historical_work. destruct (validate_record_input r); [|done].
  destruct (_ || _); [done|]. intros H%transact_ok. unfold validate_historical_work_owner in H.
  tx_step H. subst. apply negb_false_iff in Erej.
  apply owned_state_inv in Erej as (c & s & _ & _ & _ & _ & _ & _ & _ & Hv); [|done]. by exists s.
Qed.
End execution_lemmas.

(** What a later database may still accept of a unit of work. *)
Lemma later_view `{U : UuidLib} `{L : UrlLib} `{SD : SerdeLib} `{J : JsonLib} `{Hash : HashLib}
    `{Hosts : HostLib} `{W : !SnapshotWire} `{VW : !VersionWire} db db' k w w' :
  crawl_reachable db -> crawl_steps db db' -> work_view (traversal db) k = w ->
  work_view (traversal db') k = w' -> follows w w'.
Proof.
  intros Hr Hs <- <-. apply steps_follow, changes_steps; [by apply crawl_reachable_wf|].
  by apply crawl_steps_changes.
Qed.

Lemma refused_by {E A} (op : Db -> result E A * Db) db :
  (forall r db', op db = (r, db') -> is_err r = true -> db' = db) ->
  (forall a db', op db = (Ok a, db') -> False) -> refused (op db) db.
Proof.
  intros H1 H2. destruct (op db) as [[a|e] db'] eqn:H; [by destruct (H2 a db')|].
  split; [done|]. by apply (H1 (Err e) db').
Qed.

Section execution_theorems.
Context `{U : UuidLib} `{L : UrlLib} `{SD : SerdeLib} `{J : JsonLib} `{Hash : HashLib} `{Hosts : HostLib}.
Context `{W : !SnapshotWire} `{VW : !VersionWire}.

Lemma persist_current_err r k job attempt state generation now db o db' :
  persist_current_work r k job attempt state generation now db = (o, db') -> is_err o = true -> db' = db.
Proof.
  unfold persist_current_work. destruct o as [|e]; [done|]. intros H _.
  destruct (validate_record_input r); [|by injection H as _ <-].
  destruct (_ || _); [by injection H as _ <-|]. by apply transact_err in H.
Qed.

Lemma activate_err run_id k job attempt generation now db o db' :
  activate_current_work run_id k job attempt generation now db = (o, db') -> is_err o = true -> db' = db.
Proof.
  unfold activate_current_work. destruct o as [|e]; [done|]. intros H _.
  destruct (_ || _); [by injection H as _ <-|]. by apply transact_err in H.
Qed.

Lemma persist_historical_err r k job attempt generation now db o db' :
  persist_historical_work r k job attempt generation now db = (o, db') -> is_err o = true -> db' = db.
Proof.
  unfold persist_historical_work. destruct o as [|e]; [done|]. intros H _.
  destruct (validate_record_input r); [|by injection H as _ <-].
  destruct (_ || _); [by injection H as _ <-|]. by apply transact_err in H.
Qed.

(** * Properties *)

(** C23. Work is fenced by its generation: once a unit of work has reached a generation,
    in every later database no execution of an earlier generation is recorded, no
    earlier generation is activated, and none is added as history, whoever asks; each
    such call fails and changes nothing. *)
Theorem superseded_execution_refused db db' k G s r run_id job attempt state generation now :
  crawl_reachable db -> work_view (traversal db) k = Work G s -> crawl_steps db db' -> generation < G ->
  refused (persist_current_work r k job attempt state generation now db') db' /\
  refused (activate_current_work run_id k job attempt generation now db') db' /\
  refused (persist_historical_work r k job attempt generation now db') db'.
Proof.
  intros Hr Hw Hs Hlt. pose proof (crawl_steps_wf _ _ Hr Hs) as Hwf.
  assert (Hno : forall s', work_view (traversal db') k <> Work generation s').
  { intros s' Hv. pose proof (later_view _ _ _ _ _ Hr Hs Hw Hv) as [?|(? & _)]; lia. }
  split_and!; apply refused_by; intros ? ?.
  - by apply persist_current_err.
  - intros H. apply persist_current_inv in H as (c & s' & _ & _ & _ & Hv & _); [|done]. by eapply Hno.
  - by apply activate_err.
  - intros H. apply activate_inv in H as (s' & Hv & _); [|done]. by eapply Hno.
  - by apply persist_historical_err.
  - intros H. apply persist_historical_inv in H as [s' Hv]; [|done]. by eapply Hno.
Qed.

(** C24. Recording the execution of current work advances exactly that work: it was open
    in the expected generation of a state of the run, under a live lease; it becomes
    the state the outcome calls for, with the execution as its evidence, and the
    execution's row names the state, the attempt and the generation.  A completed,
    partial or cancelled generation is recorded once: in every later database recording
    or activating it again fails and changes nothing. *)
Theorem work_is_recorded_once db db1 db2 r k job attempt state generation now u :
  crawl_reachable db -> persist_current_work r k job attempt state generation now db = (Ok u, db1) ->
  crawl_steps db1 db2 ->
  (exists c, crawl_url_state (traversal db) !! k = Some c /\
     us_run c = id_to_string (exec_crawl_run_id r) /\ us_canonical_url c = exec_canonical_url r /\
     crawl_url_state (traversal db1) = <[k := set_work generation (Some state)
       (Some (id_to_string (exec_id r))) c]> (crawl_url_state (traversal db))) /\
  active_attempt (exec_crawl_run_id r) job attempt now db = true /\
  outcome_matches_work_state (exec_outcome r) state = true /\
  execution_results (traversal db1) = <[id_to_string (exec_id r) :=
    execution_row r (exec_content_length_bytes r) (exec_provider_elapsed_ms r)
      (Some (k, attempt, generation))]> (execution_results (traversal db)) /\
  (finished state -> forall r' run_id job' attempt' state' now',
     refused (persist_current_work r' k job' attempt' state' generation now' db2) db2 /\
     refused (activate_current_work run_id k job' attempt' generation now' db2) db2).
Proof.
  intros Hr Hp Hs. pose proof (crawl_reachable_wf _ Hr) as Hwf.
  assert (Hr1 : crawl_reachable db1).
  { destruct Hr as (db0 & H0 & H). exists db0. split; [done|]. etrans; [done|].
    apply rtc_once. by eapply op_persist_current. }
  pose proof (crawl_steps_wf _ _ Hr1 Hs) as Hwf2. pose proof Hp as Hp'.
  apply persist_current_inv in Hp as (c & s & Hk & Hrun & Hurl & Hv & _ & Hm & Hact & _ & Hex & Hst & _); [|done].
  split; [by exists c|]. split; [done|]. split; [done|]. split; [done|]. intros Hf r' run_id job' attempt' state' now'.
  assert (Hv1 : work_view (traversal db1) k = Work generation state).
  { unfold work_view in *. rewrite Hk in Hv. rewrite Hst, lookup_insert_eq.
    unfold view_columns in *. simpl. by destruct (us_admission_state c), (us_current_work_state c). }
  assert (Hno : forall s', work_view (traversal db2) k = Work generation s' -> s' = state).
  { intros s' Hv2. pose proof (later_view _ _ _ _ _ Hr1 Hs Hv1 Hv2) as [?|(_ & H & _)]; [lia|by apply H]. }
  unfold finished in Hf. split; apply refused_by; intros ? ?.
  - by apply persist_current_err.
  - intros H. apply persist_current_inv in H as (c' & s' & _ & _ & _ & Hv2 & Hs' & _); [|done].
    apply Hno in Hv2 as ->. set_solver.
  - by apply activate_err.
  - intros H. apply activate_inv in H as (s' & Hv2 & Hs'); [|done]. apply Hno in Hv2 as ->. set_solver.
Qed.
End execution_theorems.

(** * Witnesses *)

(** The page fetched with its Markdown and its HTML. *)
Definition crawl_execution : CrawlExecutionRecord (U := plain_uuid) :=
  {| exec_id := new_id 5; exec_crawl_run_id := crawl_run;
     exec_requested_url := "http://shop.example.com/"; exec_canonical_url := "http://shop.example.com/";
     exec_observed_final_url := None; exec_source_id := None; exec_page_type_id := None;
     exec_transition_id := None; exec_discovered_url_id := None; exec_outcome := ExecutionCompleted;
     exec_error_code := None; exec_http_status := Some 200; exec_media_type := Some "text/html"%string;
     exec_content_length_bytes := Some 120; exec_provider_elapsed_ms := Some 30;
     exec_artifacts := [{| artifact_id := crawl_artifact 8; artifact_kind := RawHtml |};
                        {| artifact_id := crawl_artifact 9; artifact_kind := Markdown |}] |}.

Definition crawl_recorded : Db :=
  (persist_current_work crawl_execution "s0" "retry" "a" WorkCompleted 0 20 crawl_initialized).2.

Lemma crawl_recorded_ok :
  persist_current_work crawl_execution "s0" "retry" "a" WorkCompleted 0 20 crawl_initialized
  = (Ok tt, crawl_recorded).
Proof.
  assert ((persist_current_work crawl_execution "s0" "retry" "a" WorkCompleted 0 20 crawl_initialized).1 = Ok tt)
    as H by (vm_compute; reflexivity).
  rewrite <- H. apply surjective_pairing.
Qed.

Lemma superseded_execution_refused_witness :
  refused (persist_current_work crawl_execution "s0" "retry" "a" WorkCompleted 0 30 crawl_retried) crawl_retried.
Proof.
  destruct (superseded_execution_refused crawl_retried crawl_retried "s0" 1 WorkPending crawl_execution crawl_run
    "retry" "a" WorkCompleted 0 30) as [H _].
  - exact crawl_retried_reachable.
  - vm_compute. reflexivity.
  - apply rtc_refl.
  - lia.
  - exact H.
Defined.

Lemma work_is_recorded_once_witness :
  refused (activate_current_work crawl_run "s0" "retry" "a" 0 30 crawl_recorded) crawl_recorded.
Proof.
  destruct (work_is_recorded_once crawl_initialized crawl_recorded crawl_recorded crawl_execution "s0"
    "retry" "a" WorkCompleted 0 20 tt) as (_ & _ & _ & _ & H).
  - exact crawl_initialized_reachable.
  - exact crawl_recorded_ok.
  - apply rtc_refl.
  - apply (H ltac:(left) crawl_execution crawl_run "retry"%string "a"%string WorkCompleted 30).
Defined.
