(* ===== verification/ExecutionReadBack.v ===== *)
(** * Executions read back

    What [persist] writes, [read_execution] returns: the identifiers parse to
    themselves, the references are validated again with the same answer, and the
    artifacts come back in the order of their kinds. *)

From S2P Require Import Prelude Externals JsonFacts Base Instances Settings Guardrails Crawler Snapshot.
From S2P Require Import TraversalTables Store TraversalStore Progress Checkpoint Runs Traversal CrawlExecution.
From S2P Require Import TraversalInvariants TraversalTheorems ExecutionTheorems.

(** ** Specification *)

Section specification.
Context `{U : UuidLib}.

Definition artifact_cmp : CrawlExecutionArtifact -> CrawlExecutionArtifact -> comparison :=
  cmp_on (fun a => (artifact_kind_name (artifact_kind a), id_to_string (artifact_id a)))
    (cmp_pair String.compare String.compare).

(** The record with its artifacts in the order of their kinds' names. *)
Definition in_kind_order (r : CrawlExecutionRecord) : CrawlExecutionRecord :=
  {| exec_id := exec_id r; exec_crawl_run_id := exec_crawl_run_id r;
     exec_requested_url := exec_requested_url r; exec_canonical_url := exec_canonical_url r;
     exec_observed_final_url := exec_observed_final_url r; exec_source_id := exec_source_id r;
     exec_page_type_id := exec_page_type_id r; exec_transition_id := exec_transition_id r;
     exec_discovered_url_id := exec_discovered_url_id r; exec_outcome := exec_outcome r;
     exec_error_code := exec_error_code r; exec_http_status := exec_http_status r;
     exec_media_type := exec_media_type r; exec_content_length_bytes := exec_content_length_bytes r;
     exec_provider_elapsed_ms := exec_provider_elapsed_ms r;
     exec_artifacts := sort_by artifact_cmp (exec_artifacts r) |}.
End specification.

(** * Lemmas *)

Section read_back.
Context `{U : UuidLib} `{L : UrlLib} `{SD : SerdeLib} `{J : JsonLib} `{Hash : HashLib} `{Hosts : HostLib}.
Context `{W : !SnapshotWire} `{VW : !VersionWire} {UL : UuidLaws U}.

(** ** Identifiers *)

Lemma parse_id_version {k} (i : typed_id k) :
  uuid_version (as_uuid i) = 7 -> parse_id (id_to_string i) = Ok i.
Proof.
  intros Hv. unfold parse_id, id_to_string. rewrite uuid_parse_to_string. simpl.
  by rewrite (proj2 (from_uuid_as_uuid _ i)).
Qed.

Lemma stored_id_parses {k} (i : typed_id k) u : stored_id_is i = Ok u -> parse_id (id_to_string i) = Ok i.
Proof.
  unfold stored_id_is. destruct (parse_id _) as [j|] eqn:Hj; [|done]. intros H%reject_if_ok.
  apply bool_decide_eq_false, dec_stable in H. by subst.
Qed.

Definition parses_back {k} (o : option (typed_id k)) : Prop :=
  parse_optional_id (id_to_string <$> o) = Ok o.

Lemma parses_back_some {k} (i : typed_id k) : parse_id (id_to_string i) = Ok i -> parses_back (Some i).
Proof. unfold parses_back. simpl. by intros ->. Qed.

Lemma parses_back_none {k} (o : option (typed_id k)) : is_some o = false -> parses_back o.
Proof. by destruct o. Qed.

Lemma source_reference_parses r source db u :
  validate_source_reference r source db = Ok u -> parse_id (id_to_string source) = Ok source.
Proof.
  unfold validate_source_reference. destruct (ok_or _ _); [|done].
  destruct (stored_id_is source) eqn:H; [|done]. intros _. by eapply stored_id_parses.
Qed.

Lemma page_type_reference_parses version page_type db u :
  validate_page_type_reference version page_type db = Ok u -> parse_id (id_to_string page_type) = Ok page_type.
Proof.
  unfold validate_page_type_reference. destruct (ok_or _ _); [|done].
  destruct (parse_id (id_to_string page_type)) as [j|]; [|done]. destruct (parse_id _); [|done].
  destruct (reject_if _ _) eqn:H; [|done]. intros _. apply reject_if_ok in H.
  apply bool_decide_eq_false, dec_stable in H. by subst.
Qed.

Lemma transition_reference_parses version t db p :
  validate_transition_reference version t db = Ok p -> parse_id (id_to_string t) = Ok t.
Proof.
  unfold validate_transition_reference. destruct (ok_or _ _); [|done].
  destruct (parse_id (id_to_string t)) as [j|]; [|done]. destruct (parse_id _); [|done].
  destruct (ok_or _ _); [|done]. destruct (reject_if _ _) eqn:H; [|done]. intros _. apply reject_if_ok in H.
  apply orb_false_iff in H as [H _]. apply bool_decide_eq_false, dec_stable in H. by subst.
Qed.

(** Validated references are identifiers that parse to themselves. *)
Lemma references_parse r run db u :
  validate_references r run db = Ok u ->
  parses_back (exec_source_id r) /\ parses_back (exec_page_type_id r) /\ parses_back (exec_transition_id r).
Proof.
  unfold validate_references. destruct (reject_if _ _); [|done].
  assert (Hs : forall u, match exec_source_id r with
    | Some source => validate_source_reference r source db | None => Ok tt end = Ok u ->
    parses_back (exec_source_id r)).
  { intros v Hv. destruct (exec_source_id r); [|done].
    by eapply parses_back_some, source_reference_parses. }
  destruct (match exec_source_id r with Some _ => _ | None => _ end) as [v|] eqn:Hv; [|done].
  specialize (Hs v eq_refl). destruct (match exec_discovered_url_id r with Some _ => _ | None => _ end); [|done].
  destruct (ctx_crawler_version_id run) as [id|].
  - destruct (load_version id db) as [version|]; [|done].
    destruct (reject_if _ _); [|done]. destruct (reject_if _ _); [|done]. intros H. split; [done|].
    assert (Hp : parses_back (exec_page_type_id r)).
    { destruct (exec_page_type_id r); [|done]. destruct (validate_page_type_reference _ _ _) eqn:Hp; [|done].
      by eapply parses_back_some, page_type_reference_parses. }
    split; [done|]. destruct (match exec_page_type_id r with Some _ => _ | None => _ end); [|done].
    destruct (exec_transition_id r); [|done]. destruct (validate_transition_reference _ _ _) eqn:Ht; [|done].
    by eapply parses_back_some, transition_reference_parses.
  - destruct (reject_if (is_some (exec_page_type_id r)) _) eqn:Hp; [|done]. apply reject_if_ok in Hp.
    destruct (reject_if (is_some (exec_transition_id r)) _) eqn:Ht; [|done]. apply reject_if_ok in Ht.
    intros _. split; [done|]. split; by apply parses_back_none.
Qed.

Lemma artifact_reference_parses r db a u :
  validate_artifact_reference r db a = Ok u -> parse_id (id_to_string (artifact_id a)) = Ok (artifact_id a).
Proof.
  unfold validate_artifact_reference. destruct (ok_or _ _); [|done].
  destruct (parse_id (id_to_string (artifact_id a))) as [j|]; [|done].
  destruct (parse_optional_id (ar_run _)); [|done]. destruct (parse_optional_id (ar_source_id _)); [|done].
  destruct (reject_if _ _) eqn:H; [|done]. intros _. apply reject_if_ok in H.
  apply bool_decide_eq_false, dec_stable in H. by subst.
Qed.

(** ** Artifacts *)

Lemma distinct_artifacts_spec l : forall kinds ids,
  distinct_artifacts kinds ids l = true <->
  NoDup (map artifact_kind l) /\ NoDup (map artifact_id l) /\
  (forall a, a ∈ l -> (artifact_kind a ∉ kinds) /\ (artifact_id a ∉ ids)).
Proof.
  induction l as [|a l IH]; intros kinds ids; simpl.
  - split; [|done]. intros _. split; [constructor|]. split; [constructor|]. by intros a ?%not_elem_of_nil.
  - rewrite !andb_true_iff, !negb_true_iff, !bool_decide_eq_false, IH, !NoDup_cons, !elem_of_map. split.
    + intros [[Hk Hi] (Hnk & Hni & Hl)].
      split; [split; [|done]|split; [split; [|done]|]].
      * intros (b & Heq & Hb). destruct (Hl b Hb) as [H _]. apply H. rewrite Heq. left.
      * intros (b & Heq & Hb). destruct (Hl b Hb) as [_ H]. apply H. rewrite Heq. left.
      * intros b [->|Hb]%elem_of_cons; [done|]. destruct (Hl b Hb) as [H1 H2].
        split; intros Hin; [apply H1|apply H2]; by right.
    + intros [[Hk Hnk] [[Hi Hni] Hl]]. split; [apply (Hl a); left|]. split; [done|]. split; [done|].
      intros b Hb. destruct (Hl b) as [H1 H2]; [by right|]. rewrite !elem_of_cons. split.
      * intros [Heq|?]; [|done]. apply Hk. by exists b.
      * intros [Heq|?]; [|done]. apply Hi. by exists b.
Qed.

Lemma distinct_artifacts_perm l l' :
  l ≡ₚ l' -> distinct_artifacts [] [] l = true -> distinct_artifacts [] [] l' = true.
Proof.
  intros Hp. rewrite !distinct_artifacts_spec. intros (H1 & H2 & _).
  rewrite <- (Permutation_map artifact_kind Hp), <- (Permutation_map artifact_id Hp).
  split; [done|]. split; [done|]. intros a _. split; apply not_elem_of_nil.
Qed.

Definition artifact_row (id : string) (a : CrawlExecutionArtifact)
    : string * CrawlExecutionArtifactKind * string := (id, artifact_kind a, id_to_string (artifact_id a)).

Lemma artifact_entries_lookup id l : forall m key,
  NoDup (map artifact_kind l) -> (forall kind, m !! (id, kind) = None) ->
  forall x, artifact_entries id l m !! (id, key) = Some x <->
    exists a, a ∈ l /\ artifact_kind a = key /\ id_to_string (artifact_id a) = x.
Proof.
  induction l as [|a l IH] using rev_ind; intros m key Hnd Hm x; simpl.
  - unfold artifact_entries. simpl. rewrite Hm. split; [done|]. by intros (a & ?%not_elem_of_nil & _).
  - rewrite map_app in Hnd. apply NoDup_app in Hnd as (Hnd & Hdis & _).
    unfold artifact_entries in *. rewrite foldl_app. simpl. rewrite lookup_insert_Some, (IH m key Hnd Hm).
    split.
    + intros [[[= <-] <-]|[_ (b & Hb & H)]]; [exists a|exists b]; rewrite elem_of_app, ?list_elem_of_singleton; tauto.
    + intros (b & Hb & <- & <-). apply elem_of_app in Hb as [Hb|Hb]; [right|left].
      2: { by apply list_elem_of_singleton in Hb as ->. }
      split.
      * intros [= Heq]. apply (Hdis (artifact_kind b)); [apply elem_of_map; by exists b|].
        rewrite <- Heq. by left.
      * by exists b.
Qed.

Lemma artifact_rows_after r row db :
  tables_wf (traversal db) -> execution_results (traversal db) !! id_to_string (exec_id r) = None ->
  distinct_artifacts [] [] (exec_artifacts r) = true ->
  artifact_rows (id_to_string (exec_id r)) (with_execution r row db) =
    map (artifact_row (id_to_string (exec_id r))) (sort_by artifact_cmp (exec_artifacts r)).
Proof.
  intros Hwf Hnew (Hk & Hi & _)%distinct_artifacts_spec. unfold artifact_rows.
  set (id := id_to_string (exec_id r)) in *.
  assert (Hnone : forall kind, execution_artifacts (traversal db) !! (id, kind) = None).
  { intros kind. apply eq_None_not_Some. intros [x Hx]. destruct (tw_artifacts _ Hwf _ _ _ Hx). congruence. }
  assert (Hinj : NoDup (map (fun kv => (artifact_kind_name kv.1.2, kv.2)) (map (artifact_row id) (exec_artifacts r)))).
  { rewrite List.map_map. simpl. apply (NoDup_fmap_1 fst). change (list_fmap _ _ fst ?l) with (map fst l).
    rewrite List.map_map. simpl. rewrite <- (List.map_map artifact_kind artifact_kind_name).
    apply NoDup_fmap_2; [|done]. by intros [] []. }
  rewrite <- (sort_by_map (artifact_row id) artifact_cmp (cmp_on (fun kv => (artifact_kind_name kv.1.2, kv.2))
    (cmp_pair String.compare String.compare))); [|done].
  symmetry. apply sort_by_key_permutation; [apply _|exact Hinj|].
  apply NoDup_Permutation; [by apply NoDup_fmap_1 in Hinj|apply NoDup_filter, NoDup_map_to_list|].
  intros [[id' kind] x]. rewrite elem_of_map, list_elem_of_filter, elem_of_map_to_list. simpl.
  unfold with_execution. simpl. fold id. split.
  - intros (a & [= -> -> ->] & Ha). split; [apply String.eqb_refl|].
    apply artifact_entries_lookup; [done..|]. by exists a.
  - intros [->%String.eqb_eq Hx]. apply artifact_entries_lookup in Hx as (a & Ha & <- & <-); [|done..].
    by exists a.
Qed.

Lemma sorted_artifacts_perm r : exec_artifacts (in_kind_order r) ≡ₚ exec_artifacts r.
Proof. apply sort_by_perm. Qed.

Lemma read_artifacts_after r row db :
  tables_wf (traversal db) -> execution_results (traversal db) !! id_to_string (exec_id r) = None ->
  distinct_artifacts [] [] (exec_artifacts r) = true ->
  (forall a, a ∈ exec_artifacts r -> parse_id (id_to_string (artifact_id a)) = Ok (artifact_id a)) ->
  read_artifacts (exec_id r) (with_execution r row db) = Ok (exec_artifacts (in_kind_order r)).
Proof.
  intros Hwf Hnew Hd Hp. unfold read_artifacts. rewrite (artifact_rows_after _ _ _ Hwf Hnew Hd).
  assert (Hc : collect (fun kv : string * CrawlExecutionArtifactKind * string =>
      let? a := parse_id kv.2 in Ok {| artifact_id := a; artifact_kind := kv.1.2 |})
      (map (artifact_row (id_to_string (exec_id r))) (sort_by artifact_cmp (exec_artifacts r)))
    = Ok (sort_by artifact_cmp (exec_artifacts r))).
  { assert (Hin : forall a, a ∈ sort_by artifact_cmp (exec_artifacts r) -> a ∈ exec_artifacts r)
      by (intros a; by rewrite elem_of_sort_by).
    induction (sort_by artifact_cmp (exec_artifacts r)) as [|a l IH]; [done|]. simpl.
    rewrite Hp by (apply Hin; left). rewrite IH; [by destruct a|]. intros b Hb. apply Hin. by right. }
  rewrite Hc. rewrite (distinct_artifacts_perm _ _ (Permutation_sym (sort_by_perm _ _)) Hd). done.
Qed.

(** *** Validation of the record read back *)

Lemma validate_sorted r u : validate_record_input r = Ok u -> validate_record_input (in_kind_order r) = Ok tt.
Proof.
  unfold validate_record_input. simpl. intros H.
  repeat match type of H with
  | match ?c with _ => _ end = _ => destruct c as [[]|]; [|done]
  end. apply reject_if_ok, negb_false_iff in H. apply reject_if_ok, negb_false_iff.
  eapply distinct_artifacts_perm, H. symmetry. apply sorted_artifacts_perm.
Qed.

Lemma validated_record_inv r u :
  validate_record_input r = Ok u ->
  uuid_version (as_uuid (exec_id r)) = 7 /\ uuid_version (as_uuid (exec_crawl_run_id r)) = 7 /\
  parse_optional_status (exec_http_status r) = Ok (exec_http_status r) /\
  distinct_artifacts [] [] (exec_artifacts r) = true.
Proof.
  unfold validate_record_input. rewrite !reject_then_ok, orb_false_iff, !negb_false_iff, !Z.eqb_eq.
  intros ([H1 H2] & H). split; [done|]. split; [done|].
  repeat match type of H with
  | match reject_if (negb (between _ _ _)) _ with _ => _ end = _ => fail 1
  | match ?c with _ => _ end = _ => destruct c as [[]|]; [|done]
  end. apply reject_then_ok in H as [Hs H]. apply negb_false_iff in Hs.
  destruct (validate_outcome_error _ _); [|done]. apply reject_if_ok, negb_false_iff in H. split; [|done].
  unfold between in Hs. unfold parse_optional_status. by destruct (exec_http_status r); [rewrite Hs|].
Qed.

Lemma artifact_references_sorted r db u :
  validate_artifact_references r db = Ok u -> validate_artifact_references (in_kind_order r) db = Ok tt.
Proof.
  unfold validate_artifact_references. rewrite !for_each_ok. intros H.
  rewrite Forall_forall in H |- *. intros a Ha. rewrite sorted_artifacts_perm in Ha. by apply H.
Qed.

(** Reading the row that the insertion of a validated record left. *)
Lemma read_record_after r lineage db u db' :
  tables_wf (traversal db) -> validate_record_input r = Ok u -> insert_validated r lineage db = Ok (u, db') ->
  exists row, execution_results (traversal db') !! id_to_string (exec_id r) = Some row /\
    read_record (id_to_string (exec_id r)) row db' = Ok (in_kind_order r).
Proof.
  intros Hwf Hv (len & elapsed & Hins & Hlen & Hel & run & Hrun & Href & Hart)%insert_validated_inv.
  apply optional_counter_ok in Hlen, Hel. subst.
  apply insert_execution_row_inv in Hins as (Hnew & Hcheck & ->).
  set (row := execution_row r _ _ lineage) in *. exists row.
  split; [unfold with_execution; simpl; apply lookup_insert_eq|].
  destruct (validated_record_inv r u Hv) as (Hid & Hrid & Hstatus & Hd).
  destruct (references_parse _ _ _ _ Href) as (Hs & Hp & Ht). unfold parses_back in Hs, Hp, Ht.
  assert (Hc : parse_optional_counter (exec_content_length_bytes r) = Ok (exec_content_length_bytes r) /\
               parse_optional_counter (exec_provider_elapsed_ms r) = Ok (exec_provider_elapsed_ms r)).
  { unfold execution_check in Hcheck. simpl in Hcheck. apply andb_true_iff in Hcheck as [Hcheck _].
    apply andb_true_iff in Hcheck as [Hcheck _]. apply andb_true_iff in Hcheck as [Hcheck He].
    apply andb_true_iff in Hcheck as [_ Hl]. unfold parse_optional_counter.
    destruct (exec_content_length_bytes r), (exec_provider_elapsed_ms r); by rewrite ?Hl, ?He. }
  destruct Hc as [Hcl Hce]. unfold read_record. rewrite (parse_id_version (exec_id r) Hid). simpl.
  rewrite (parse_id_version (exec_crawl_run_id r) Hrid), Hs, Hp, Ht, Hstatus, Hcl, Hce.
  rewrite (read_artifacts_after r row db Hwf Hnew Hd).
  - change {| exec_id := exec_id r |} with (in_kind_order r).
    rewrite (validate_sorted r u Hv).
    change (load_run_context (exec_crawl_run_id r) (with_execution r row db))
      with (load_run_context (exec_crawl_run_id r) db). rewrite Hrun.
    change (validate_references (in_kind_order r) run (with_execution r row db))
      with (validate_references r run db). rewrite Href.
    change (validate_artifact_references (in_kind_order r) (with_execution r row db))
      with (validate_artifact_references (in_kind_order r) db).
    by rewrite (artifact_references_sorted r db tt Hart).
  - intros a Ha. unfold validate_artifact_references in Hart. apply for_each_ok in Hart.
    rewrite Forall_forall in Hart. specialize (Hart a Ha). by eapply artifact_reference_parses.
Qed.

(** * Property *)

(** C33. What is persisted is read back: reading the identity of an execution that was
    persisted returns the record itself, every field validated anew, with its artifacts
    in the order of their kinds. *)
Theorem persisted_execution_reads_back r db u db' :
  crawl_reachable db -> persist r db = (Ok u, db') ->
  read_execution (exec_id r) db' = Ok (in_kind_order r) /\
  exec_artifacts (in_kind_order r) ≡ₚ exec_artifacts r.
Proof.
  intros Hwf%crawl_reachable_wf Hp. split; [|apply sorted_artifacts_perm]. unfold persist in Hp.
  destruct (validate_record_input r) as [v|] eqn:Hv; [|done]. apply transact_ok in Hp. destruct u, v.
  destruct (read_record_after r None db tt db' Hwf Hv Hp) as (row & Hrow & Hread).
  unfold read_execution. rewrite Hrow. simpl. by rewrite Hread.
Qed.
End read_back.

(** * Witness *)

Definition crawl_persisted : Db := (persist crawl_execution crawl_initialized).2.

Lemma crawl_persisted_ok : persist crawl_execution crawl_initialized = (Ok tt, crawl_persisted).
Proof.
  assert ((persist crawl_execution crawl_initialized).1 = Ok tt) as H by (vm_compute; reflexivity).
  rewrite <- H. apply surjective_pairing.
Qed.

Lemma persisted_execution_reads_back_witness :
  read_execution (exec_id crawl_execution) crawl_persisted = Ok (in_kind_order crawl_execution).
Proof.
  destruct (persisted_execution_reads_back crawl_execution crawl_initialized tt crawl_persisted) as [H _].
  - exact crawl_initialized_reachable.
  - exact crawl_persisted_ok.
  - exact H.
Defined.
