(* ===== verification/DiscoveryTheorems.v ===== *)
(** * Discovery boundaries

    Recorded evidence is immutable under replay; a redirect to a URL the run has not
    seen makes the boundary that reports it fail. *)

From S2P Require Import Prelude Externals JsonFacts Base Instances Settings Guardrails Crawler Snapshot.
From S2P Require Import TraversalTables Store TraversalStore Progress Checkpoint Runs Traversal CrawlExecution.
From S2P Require Import TraversalInvariants TraversalTheorems ExecutionTheorems.

(** ** Specifications *)

(** Evidence of the same observation; the time of it is left out. *)
Definition same_observation `{U : UuidLib} (r r' : DiscoveredUrlRecord) : Prop :=
  dr_crawl_run_id r = dr_crawl_run_id r' /\ dr_source_id r = dr_source_id r' /\
  dr_raw_href r = dr_raw_href r' /\ dr_original_url r = dr_original_url r' /\
  dr_canonical_url r = dr_canonical_url r' /\ dr_status r = dr_status r' /\
  exists v, json_equiv (dr_detail r) v /\ json_eqb (dr_detail r') v = true.

Definition state_at (t : gmap string UrlStateColumns) (run url : string) (k : string) (c : UrlStateColumns)
    : Prop := t !! k = Some c /\ us_run c = run /\ us_canonical_url c = url.

(** The alias is admitted work of the run, and no state of the run has the final URL. *)
Record unseen_redirect (run alias final : string) (t : gmap string UrlStateColumns) : Prop := {
  ur_alias : exists k c, state_at t run alias k c;
  ur_admitted : forall k c, state_at t run alias k c -> us_admission_state c = AdmittedWork;
  ur_final : forall k c, state_at t run final k c -> False
}.

(** * Lemmas *)

(** ** Evidence *)

Section evidence.
Context `{U : UuidLib, UL : !UuidLaws U} `{L : UrlLib} `{SD : SerdeLib, SL : !SerdeLaws SD}.

Lemma fmap_id_inj {k} (a b : option (typed_id k)) : id_to_string <$> a = id_to_string <$> b -> a = b.
Proof.
  destruct a as [a|], b as [b|]; simpl; [|done..]. intros [= H]. f_equal. by apply id_to_string_inj.
Qed.

Lemma same_evidence_spec r r' v :
  same_evidence (discovered_row r) v r' = true <->
  dr_crawl_run_id r = dr_crawl_run_id r' /\ dr_source_id r = dr_source_id r' /\
  dr_raw_href r = dr_raw_href r' /\ dr_original_url r = dr_original_url r' /\
  dr_canonical_url r = dr_canonical_url r' /\ dr_status r = dr_status r' /\
  json_eqb (dr_detail r') v = true.
Proof.
  unfold same_evidence. simpl. rewrite !andb_true_iff, !bool_decide_eq_true, !String.eqb_eq. split.
  - intros ((((((H1 & H2) & H3) & H4) & H5) & H6) & H7).
    apply id_to_string_inj in H1. apply fmap_id_inj in H2. done.
  - intros (-> & -> & -> & -> & -> & -> & ->). done.
Qed.

(** Recording again what is stored. *)
Lemma replay_same r db :
  discovered_urls (traversal db) !! dr_id r = Some (discovered_row r) -> json_wf (dr_detail r) = true ->
  validate_discovered_url_record r = Ok tt -> record_discovered_url_in_transaction r db = Ok (tt, db).
Proof.
  intros Hrow Hwf Hval. destruct (json_round_trip _ Hwf) as (v & Hv & Heq).
  unfold record_discovered_url_in_transaction, tx_bind, tx_of, tx_get. rewrite Hval. simpl.
  rewrite Hrow. change (du_detail_json (discovered_row r)) with (json_to_string (dr_detail r)).
  rewrite Hv. simpl. assert (same_evidence (discovered_row r) v r = true) as Hs.
  { apply same_evidence_spec. repeat (split; [done|]). by apply json_eqb_equiv. }
  unfold tx_reject, tx_of. by rewrite Hs.
Qed.

Lemma replay_inv r r' db u db' :
  discovered_urls (traversal db) !! dr_id r = Some (discovered_row r) -> json_wf (dr_detail r) = true ->
  dr_id r' = dr_id r -> record_discovered_url_in_transaction r' db = Ok (u, db') ->
  db' = db /\ same_observation r r'.
Proof.
  intros Hrow Hwf Hid H. destruct (json_round_trip _ Hwf) as (v & Hv & Heq).
  unfold record_discovered_url_in_transaction in H. rewrite Hid in H. tx_step H. subst. rewrite Hrow in H.
  tx_step H. subst. change (du_detail_json (discovered_row r)) with (json_to_string (dr_detail r)) in Eof0.
  rewrite Hv in Eof0. injection Eof0 as <-. apply negb_false_iff in Erej.
  apply same_evidence_spec in Erej as (H1 & H2 & H3 & H4 & H5 & H6 & H7).
  split; [done|]. repeat (split; [done|]). by exists v.
Qed.
End evidence.

(** ** Redirects *)

Section redirects.
Context `{U : UuidLib} `{L : UrlLib} `{SD : SerdeLib} `{J : JsonLib} `{Hash : HashLib} `{Hosts : HostLib}.
Context `{W : !SnapshotWire} `{VW : !VersionWire}.

(** A transaction that keeps a property of the states. *)
Definition keeps_states {E A} (P : gmap string UrlStateColumns -> Prop) : Tx E A -> Prop :=
  preserves (fun db => P (crawl_url_state (traversal db))).

Lemma keeps_elsewhere {E A} P (t : Tx E A) :
  (forall db a db', t db = Ok (a, db') -> crawl_url_state (traversal db') = crawl_url_state (traversal db)) ->
  keeps_states P t.
Proof. intros H db a db' HP Ht. simpl. by rewrite (H db a db' Ht). Qed.

Lemma keeps_each {E A} P (f : A -> Tx E unit) l :
  (forall x, x ∈ l -> keeps_states P (f x)) -> keeps_states P (tx_each f l).
Proof.
  intros Hf. induction l as [|x l IH]; [apply preserves_ret|].
  apply preserves_bind; [apply Hf; left|]. intros []. apply IH. intros y Hy. apply Hf. by right.
Qed.

Lemma keeps_discovery P r : keeps_states P (record_discovered_url_in_transaction r).
Proof.
  apply keeps_elsewhere. intros db u db' H. unfold record_discovered_url_in_transaction in H. tx_step H. subst.
  destruct (discovered_urls _ !! dr_id r); tx_step H; subst; [done|].
  unfold record_discovered_url_values in H. tx_step H. unfold insert_discovered_url in H.
  by apply constrained_ok in H as [_ ->].
Qed.

Lemma keeps_provenance P s : keeps_states P (insert_seed_provenance s).
Proof.
  apply preserves_fold. intros _ seed. apply keeps_elsewhere. intros db u db' H.
  unfold insert_seed_provenance_value, dbt in H. tx_step H. subst.
  destruct (bool_decide _); tx_step H; subst; [done|].
  unfold insert_seed_provenance_row in H. by apply constrained_ok in H as [_ ->].
Qed.

Lemma keeps_ownership P s run : keeps_states P (validate_state_ownership s run).
Proof. apply keeps_elsewhere. by intros db u db' [-> _]%ownership_ok. Qed.

(** An update of one state that leaves what identifies it. *)
Lemma unseen_update run alias final t k c c' :
  unseen_redirect run alias final t -> t !! k = Some c -> us_run c' = us_run c ->
  us_canonical_url c' = us_canonical_url c -> us_admission_state c' = us_admission_state c ->
  unseen_redirect run alias final (<[k := c']> t).
Proof.
  intros [(ka & ca & Ha1 & Ha2 & Ha3) Hadm Hfin] Hk Hr Hu Hs.
  assert (Hback : forall url j d, state_at (<[k := c']> t) run url j d -> exists d0,
    state_at t run url j d0 /\ us_admission_state d0 = us_admission_state d).
  { intros url j d (Hj & Hdr & Hdu). apply lookup_insert_Some in Hj as [[<- <-]|[_ Hj]]; [|by exists d].
    exists c. split; [|done]. split; [done|]. split; congruence. }
  split.
  - destruct (decide (ka = k)) as [->|Hne].
    + exists k, c'. split; [by rewrite lookup_insert_eq|]. split; congruence.
    + exists ka, ca. split; [by rewrite lookup_insert_ne|done].
  - intros j d (d0 & Hd0 & <-)%Hback. by eapply Hadm.
  - intros j d (d0 & Hd0 & _)%Hback. by eapply Hfin.
Qed.

Lemma keeps_insert_state run alias final s :
  us_canonical_url (st_columns s) <> final ->
  (us_run (st_columns s) = run -> us_canonical_url (st_columns s) <> alias) ->
  keeps_states (unseen_redirect run alias final) (insert_state s).
Proof.
  intros Hfinal Halias db u db' [(ka & ca & Ha) Hadm Hfin] H. unfold insert_state, dbt in H. tx_step H. subst.
  match goal with Ho : validate_state_ownership _ _ _ = _ |- _ => apply ownership_ok in Ho as (-> & _ & _) end.
  match goal with Hi : insert_url_state _ _ _ = _ |- _ =>
    apply insert_url_state_ok in Hi as (Hnone & _ & _ & ->) end.
  apply stored_columns_ok in Eof0 as [-> _].
  refine (keeps_provenance (unseen_redirect run alias final) s _ u db' _ H). simpl. split.
  - exists ka, ca. destruct Ha as (Hk & Ha). split; [|done]. rewrite lookup_insert_ne; [done|]. congruence.
  - intros j d (Hj & Hdr & Hdu). apply lookup_insert_Some in Hj as [[<- <-]|[_ Hj]]; [by destruct Halias|].
    by apply (Hadm j).
  - intros j d (Hj & Hdr & Hdu). apply lookup_insert_Some in Hj as [[<- <-]|[_ Hj]]; [done|].
    by apply (Hfin j d).
Qed.

Lemma keeps_update run alias final k r q f sw :
  (forall c, us_run (f c) = us_run c /\ us_canonical_url (f c) = us_canonical_url c /\
     us_admission_state (f c) = us_admission_state c) ->
  keeps_states (unseen_redirect run alias final) (dbt (update_url_states sw (state_key k r q) f)).
Proof.
  intros Hf db n db' HP H. unfold dbt in H. tx_step H.
  apply update_key_inv in H as [(_ & c & Hk & _ & _ & _ & ->)|[_ ->]]; [|done]. simpl.
  destruct (Hf c) as (H1 & H2 & H3). by apply (unseen_update _ _ _ _ k c).
Qed.

Lemma keeps_upsert run alias final s :
  us_canonical_url (st_columns s) <> final ->
  keeps_states (unseen_redirect run alias final) (upsert_discovery_state s).
Proof.
  intros Hfinal db u db' HP H. unfold upsert_discovery_state in H. tx_step H. subst.
  match goal with Ho : validate_state_ownership _ _ _ = _ |- _ => apply ownership_ok in Ho as (-> & _ & _) end.
  destruct (row_by_canonical _ _ db) as [[k c]|] eqn:Hrow.
  - tx_step H. match goal with Hu : (if _ then _ else _) _ = Ok (_, ?d) |- _ =>
      assert (Hd : unseen_redirect run alias final (crawl_url_state (traversal d))) end.
    { destruct (_ && _ && _); tx_step Hs; subst; by eapply (keeps_update run alias final), Hs. }
    by eapply keeps_provenance, H.
  - eapply keeps_insert_state, H; [done| |done]. intros Hr Hu.
    destruct (ur_alias _ _ _ _ HP) as (ka & ca & Hk & Hkr & Hku).
    pose proof (row_by_canonical_none _ _ _ Hrow ka ca Hk) as Hno. unfold at_canonical in Hno.
    rewrite Hr, Hu, Hkr, Hku, !String.eqb_refl in Hno. done.
Qed.

Lemma row_by_canonical_absent run url db :
  (forall k c, state_at (crawl_url_state (traversal db)) run url k c -> False) ->
  row_by_canonical run url db = None.
Proof.
  intros H. destruct (row_by_canonical run url db) as [[k c]|] eqn:Hr; [|done].
  apply row_by_canonical_some in Hr as (Hk & Hrun & Hurl). by destruct (H k c).
Qed.

(** The copy of the alias under the final URL has the alias's admission sequence. *)
Lemma redirected_copy_conflicts final_id final k c tr :
  crawl_url_state tr !! k = Some c -> is_Some (us_admission_sequence c) ->
  crawl_url_state tr !! final_id = None -> no_conflict tr final_id (redirected_copy final c) -> False.
Proof.
  intros Hk [n Hn] Hid Hno. specialize (Hno k c Hk). unfold url_state_conflict in Hno. simpl in Hno.
  rewrite Hn, String.eqb_refl, bool_decide_true, orb_true_r in Hno by done.
  destruct (String.eqb_spec k final_id); [congruence|done].
Qed.

Lemma reconcile_unseen run redirect db u db' :
  unseen_redirect run (alias_canonical_url redirect) (final_canonical_url redirect)
    (crawl_url_state (traversal db)) ->
  reconcile_redirect run redirect db = Ok (u, db') -> False.
Proof.
  intros [_ Hadm Hfin] H. unfold reconcile_redirect in H. tx_step H. subst.
  apply ok_or_ok in Eof0. subst. apply read_by_canonical_ok in Eof as (Hk & Hr & Hu & Hty & Hv).
  pose proof (Hadm _ _ (conj Hk (conj Hr Hu))) as Ha. rewrite Ha in H.
  apply tx_bind_ok in H as (found & db1 & Hf & H). tx_step Hf. subst.
  assert (found = None) as ->.
  { revert Eof. unfold read_state_by_canonical. rewrite row_by_canonical_absent by done. by intros [= <-]. }
  apply tx_bind_ok in H as (v & db2 & Hi & _). unfold insert_state, dbt in Hi. tx_step Hi. subst.
  match goal with Ho : validate_state_ownership _ _ _ = _ |- _ => apply ownership_ok in Ho as (-> & _ & _) end.
  match goal with Hi : insert_url_state _ _ _ = _ |- _ =>
    apply insert_url_state_ok in Hi as (Hnone & _ & Hno & _) end.
  match goal with Hc : stored_columns _ = _ |- _ => apply stored_columns_ok in Hc as [-> _] end.
  apply (redirected_copy_conflicts _ _ _ _ _ Hk) in Hno; [done| |done].
  apply validate_state_ok in Hv as (_ & _ & _ & _ & _ & Hseq). by apply Hseq.
Qed.

Lemma unseen_of_reachable db run alias final k c :
  crawl_reachable db -> state_at (crawl_url_state (traversal db)) run alias k c ->
  us_admission_state c = AdmittedWork ->
  (forall k c, state_at (crawl_url_state (traversal db)) run final k c -> False) ->
  unseen_redirect run alias final (crawl_url_state (traversal db)).
Proof.
  intros Hwf%crawl_reachable_wf (Hk & Hr & Hu) Ha Hfin. split; [by exists k, c| |done].
  intros j d (Hj & Hdr & Hdu). destruct (decide (j = k)) as [->|Hne]; [congruence|].
  destruct (tw_states _ Hwf _ _ Hk) as (_ & _ & Hno). specialize (Hno j d Hj).
  unfold url_state_conflict in Hno. rewrite Hdr, Hr, Hdu, Hu, !String.eqb_refl in Hno.
  by destruct (String.eqb_spec j k).
Qed.

(** * Properties *)

(** A discovery boundary that reports a redirect to a URL the run has not seen is
    always rejected, with all its evidence and work: the state created for the final
    URL copies the admission sequence of the alias, which the unique index of the run's
    sequences refuses. *)
Theorem redirect_to_unseen_url_rejected run evidence work control counts p redirect rest in_flight db k c :
  crawl_reachable db ->
  state_at (crawl_url_state (traversal db)) run (alias_canonical_url redirect) k c ->
  us_admission_state c = AdmittedWork ->
  (forall k c, state_at (crawl_url_state (traversal db)) run (final_canonical_url redirect) k c -> False) ->
  Forall (fun s => us_canonical_url (st_columns s) <> final_canonical_url redirect) work ->
  refused (apply_discovery_delta_with_projection run evidence work control counts p (redirect :: rest)
    in_flight db) db.
Proof.
  intros Hr Hk Ha Hfin Hwork. pose proof (unseen_of_reachable _ _ _ _ _ _ Hr Hk Ha Hfin) as Hun.
  unfold apply_discovery_delta_with_projection. destruct (_ || _); [done|]. apply transact_refused.
  intros u db' H. apply tx_bind_ok in H as (u1 & d1 & H1 & H). unfold ensure_run in H1. tx_step H1. subst.
  apply tx_bind_ok in H as (u2 & d2 & H2 & H). apply tx_bind_ok in H as (u3 & d3 & H3 & H).
  apply tx_bind_ok in H as (u4 & d4 & H4 & _). apply tx_bind_ok in H4 as (u5 & d5 & H5 & _).
  eapply reconcile_unseen, H5. clear H5. revert H3. apply keeps_each.
  - intros s Hs. rewrite Forall_forall in Hwork. apply preserves_bind; [apply keeps_ownership|].
    intros _. by apply keeps_upsert, Hwork.
  - revert H2. apply keeps_each; [|done]. intros r _. apply preserves_map_err, keeps_discovery.
Qed.
End redirects.

Section immutability.
Context `{U : UuidLib, UL : !UuidLaws U} `{L : UrlLib} `{SD : SerdeLib, SL : !SerdeLaws SD}.
Context `{J : JsonLib} `{Hash : HashLib} `{Hosts : HostLib} `{W : !SnapshotWire} `{VW : !VersionWire}.

(** Discovery evidence is immutable under replay: whatever the operations do after
    it is recorded, recording the same evidence again succeeds and changes nothing, and
    another record of its identity is accepted only if it is of the same observation. *)
Theorem discovered_evidence_immutable r db u db1 db2 :
  crawl_reachable db -> record_discovered_url r db = (Ok u, db1) -> json_wf (dr_detail r) = true ->
  crawl_steps db1 db2 ->
  record_discovered_url_in_transaction r db2 = Ok (tt, db2) /\
  forall r' u' db3, dr_id r' = dr_id r -> record_discovered_url_in_transaction r' db2 = Ok (u', db3) ->
    db3 = db2 /\ same_observation r r'.
Proof.
  intros Hr Hrec Hwf Hs. assert (Hr1 : crawl_reachable db1).
  { destruct Hr as (db0 & H0 & H). exists db0. split; [done|]. etrans; [done|].
    apply rtc_once. by eapply op_record_discovered. }
  unfold record_discovered_url in Hrec. destruct (validate_discovered_url_record r) as [[]|] eqn:Hval; [|done].
  apply transact_ok in Hrec. unfold record_discovered_url_values in Hrec. tx_step Hrec. subst.
  unfold insert_discovered_url in Hrec. apply constrained_ok in Hrec as [_ ->].
  assert (Hrow : discovered_urls (traversal db2) !! dr_id r = Some (discovered_row r)).
  { eapply lookup_weaken; [|eapply ek_discovered, evidence_changes;
      [by apply crawl_reachable_wf|by apply crawl_steps_changes]]. simpl. apply lookup_insert_eq. }
  split; [by apply replay_same|]. intros r' u' db3 Hid H. by eapply replay_inv.
Qed.
End immutability.

(** * Witnesses *)

(** The page [s0] redirects to a URL that no state of the run has. *)
Definition crawl_redirect : CrawlRedirectReconciliation :=
  {| alias_url_state_id := "s0"; final_url_state_id := "s1";
     alias_canonical_url := "http://shop.example.com/";
     final_canonical_url := "http://shop.example.com/home" |}.

Lemma redirect_to_unseen_url_rejected_witness :
  refused (apply_discovery_delta_with_projection crawl_run_text [] []
    {| ctl_run := crawl_run_text; ctl_columns := crawl_control |} []
    {| url_states := []; projection_page_type_counts := [] |} [crawl_redirect] [] crawl_initialized)
    crawl_initialized.
Proof.
  apply (redirect_to_unseen_url_rejected _ _ _ _ _ _ _ _ _ _ "s0" (st_columns (crawl_page "s0" "/" 0))).
  - exact crawl_initialized_reachable.
  - split; [vm_compute; reflexivity|]. split; vm_compute; reflexivity.
  - reflexivity.
  - intros k c (Hk & _ & Hu).
    assert (Ht : crawl_url_state (traversal crawl_initialized) =
      {["s0"%string := st_columns (crawl_page "s0" "/" 0)]}) by (vm_compute; reflexivity).
    rewrite Ht in Hk. apply lookup_singleton_Some in Hk as [_ <-]. vm_compute in Hu. discriminate.
  - constructor.
Defined.

Definition crawl_discovery : DiscoveredUrlRecord (U := plain_uuid) :=
  {| dr_id := uuid_to_string (uuid_now_v7 (UuidLib := plain_uuid) 6); dr_crawl_run_id := crawl_run;
     dr_source_id := None; dr_raw_href := Some "/item"%string;
     dr_original_url := "http://shop.example.com/item"; dr_canonical_url := "http://shop.example.com/item";
     dr_status := "ADMITTED"; dr_discovered_at := "2026-01-01T00:00:00Z";
     dr_detail := JObject [("depth"%string, JNumber "1")] |}.

Lemma crawl_discovery_recorded : exists db1,
  record_discovered_url (L := plain_url) (SD := plain_serde) crawl_discovery crawl_initialized = (Ok tt, db1).
Proof. eexists. vm_compute. reflexivity. Qed.

Lemma discovered_evidence_immutable_witness : exists db1,
  record_discovered_url_in_transaction (L := plain_url) (SD := plain_serde) crawl_discovery db1 = Ok (tt, db1).
Proof.
  destruct crawl_discovery_recorded as [db1 H]. exists db1.
  destruct (discovered_evidence_immutable crawl_discovery crawl_initialized tt db1 db1) as [Hr _].
  - exact crawl_initialized_reachable.
  - exact H.
  - reflexivity.
  - apply rtc_refl.
  - exact Hr.
Defined.
