(* ===== verification/JobQueue.v ===== *)
(** * The durable job queue

    [crates/erabi-db/src/repositories/job.rs]: [JobRepository], the sole mutation
    boundary of the job lifecycle, attempt history, leases and stale recovery.  Every
    operation is the transaction the code runs, statement by statement; an [Err]
    rolls it back. *)

From S2P Require Import Prelude Externals JsonFacts Base Instances Settings Snapshot Store.
From S2P Require Import Progress Checkpoint Runs.

(** ** Enumerations as stored *)

Inductive JobRepositoryError :=
| Database (e : DbError)
| InvalidJobKind | InvalidMaxAttempts | NotFound | IllegalTransition | AttemptsExhausted
| RemovalUnsafe | NotReprioritizable | ActionAlreadyActive | RetryAlreadyContinued | LeaseLost
| StorageAdmissionBlocked | QueueInvariant
| CheckpointFailure (e : CheckpointRepositoryError).

Definition job_state_as_sql (s : JobState) : string :=
  match s with
  | Queued => "QUEUED" | Running => "RUNNING" | Succeeded => "SUCCEEDED" | Failed => "FAILED"
  | Cancelled => "CANCELLED"
  end.

Definition job_state_parse (value : string) : result JobRepositoryError JobState :=
  if String.eqb value "QUEUED" then Ok Queued
  else if String.eqb value "RUNNING" then Ok Running
  else if String.eqb value "SUCCEEDED" then Ok Succeeded
  else if String.eqb value "FAILED" then Ok Failed
  else if String.eqb value "CANCELLED" then Ok Cancelled
  else Err QueueInvariant.

Definition failure_code_as_sql (c : JobFailureCode) : string :=
  match c with
  | HandlerFailed => "HANDLER_FAILED" | HandlerPanicked => "HANDLER_PANICKED"
  | LeaseExpiredCode => "LEASE_EXPIRED" | CancelledCode => "CANCELLED"
  | StoragePressureCode => "STORAGE_PRESSURE"
  end.

Definition failure_code_parse (value : string) : result JobRepositoryError JobFailureCode :=
  if String.eqb value "HANDLER_FAILED" then Ok HandlerFailed
  else if String.eqb value "HANDLER_PANICKED" then Ok HandlerPanicked
  else if String.eqb value "LEASE_EXPIRED" then Ok LeaseExpiredCode
  else if String.eqb value "CANCELLED" then Ok CancelledCode
  else if String.eqb value "STORAGE_PRESSURE" then Ok StoragePressureCode
  else Err QueueInvariant.

Definition outcome_as_sql (o : AttemptOutcome) : string :=
  match o with
  | AttemptRunning => "RUNNING" | AttemptSucceeded => "SUCCEEDED" | AttemptFailed => "FAILED"
  | AttemptLeaseExpired => "LEASE_EXPIRED"
  end.

Definition outcome_parse (value : string) : result JobRepositoryError AttemptOutcome :=
  if String.eqb value "RUNNING" then Ok AttemptRunning
  else if String.eqb value "SUCCEEDED" then Ok AttemptSucceeded
  else if String.eqb value "FAILED" then Ok AttemptFailed
  else if String.eqb value "LEASE_EXPIRED" then Ok AttemptLeaseExpired
  else Err QueueInvariant.

Definition job_kind_new (value : string) : result JobRepositoryError string :=
  if str_is_empty value || (64 <? byte_len value) || negb (forallb upper_identifier_byte (bytes value))
  then Err InvalidJobKind else Ok value.

Inductive JobStorageClass := StorageLight | ArtifactHeavy.

#[export] Instance storage_class_eq_dec : EqDecision JobStorageClass.
Proof. solve_decision. Defined.

(** ** Data *)

Record NewJob := {
  nj_id : string;
  nj_kind : string;
  nj_priority : Z;
  nj_parent_job_id : option string;
  nj_crawl_run_id : option string;
  nj_scheduled_at : Z;
  nj_max_attempts : Z
}.

Record JobRecord := {
  job_id : string;
  job_kind : string;
  job_priority : Z;
  job_state : JobState;
  job_parent_job_id : option string;
  job_crawl_run_id : option string;
  job_scheduled_at : Z;
  job_current_attempt : Z;
  job_max_attempts : Z;
  job_lease_generation : Z;
  job_lease : option JobLease;
  job_failure_code : option JobFailureCode;
  job_created_at : Z;
  job_updated_at : Z
}.

Definition storage_class (job : JobRecord) : JobStorageClass :=
  match job_crawl_run_id job with Some _ => ArtifactHeavy | None => StorageLight end.

Record JobAttempt := {
  attempt_id : string;
  attempt_job_id : string;
  attempt_number : Z;
  attempt_lease_id : string;
  attempt_lease_generation : Z;
  attempt_worker_id : string;
  attempt_started_at : Z;
  attempt_finished_at : option Z;
  attempt_outcome : AttemptOutcome;
  attempt_failure_code : option JobFailureCode
}.

Record AcquiredJob := { acquired_job : JobRecord; acquired_attempt : JobAttempt }.

Record StaleJobRecovery := {
  requeued : Z;
  failed : Z;
  resume_candidates : Z;
  restart_required : Z;
  invalid_checkpoints : Z
}.

Record TerminalJobReconciliation := {
  reconciled_state : JobState;
  reconciled_progress : ProgressTerminalState
}.

(** ** Reading rows *)

Definition positive_u32 (value : Z) : result JobRepositoryError Z :=
  if (1 <=? value) && (value <=? u32_max) then Ok value else Err QueueInvariant.
Definition positive_u32_or_zero (value : Z) : result JobRepositoryError Z :=
  if (0 <=? value) && (value <=? u32_max) then Ok value else Err QueueInvariant.
Definition positive_u64 (value : Z) : result JobRepositoryError Z :=
  if (1 <=? value) && (value <=? u64_max) then Ok value else Err QueueInvariant.
Definition nonnegative_u64 (value : Z) : result JobRepositoryError Z :=
  if (0 <=? value) && (value <=? u64_max) then Ok value else Err QueueInvariant.

(** [i64::try_from] of a [u64] generation. *)
Definition i64_of_u64 (value : Z) : result JobRepositoryError Z :=
  if value <=? i64_max then Ok value else Err QueueInvariant.

(** [row.get] into a type that a [NULL] or an out-of-range value does not fit. *)
Definition column {A} (o : option A) : result JobRepositoryError A :=
  ok_or (Database (DbDatabase Conversion)) o.
Definition column_i32 (value : Z) : result JobRepositoryError Z :=
  if (- 2 ^ 31 <=? value) && (value <? 2 ^ 31) then Ok value else Err (Database (DbDatabase Conversion)).

Definition lease_from_row (r : JobRow) : result JobRepositoryError (option JobLease) :=
  match row_lease_id r with
  | None => Ok None
  | Some id =>
    let? owner := column (row_lease_owner r) in
    let? generation := positive_u64 (row_lease_generation r) in
    let? acquired_at := column (row_lease_acquired_at r) in
    let? expires_at := column (row_lease_expires_at r) in
    let? heartbeat_at := column (row_heartbeat_at r) in
    Ok (Some {| lease_id := id; lease_owner := owner; lease_generation := generation;
                lease_acquired_at := acquired_at; lease_expires_at := expires_at;
                lease_heartbeat_at := heartbeat_at |})
  end.

Definition job_from_row (id : string) (r : JobRow) : result JobRepositoryError JobRecord :=
  let? lease := lease_from_row r in
  let? kind := job_kind_new (row_kind r) in
  let? priority := column_i32 (row_priority r) in
  let? current_attempt := positive_u32_or_zero (row_current_attempt r) in
  let? max_attempts := positive_u32 (row_max_attempts r) in
  let? generation := nonnegative_u64 (row_lease_generation r) in
  Ok {| job_id := id; job_kind := kind; job_priority := priority; job_state := row_state r;
        job_parent_job_id := row_parent_job_id r; job_crawl_run_id := row_crawl_run_id r;
        job_scheduled_at := row_scheduled_at r; job_current_attempt := current_attempt;
        job_max_attempts := max_attempts; job_lease_generation := generation; job_lease := lease;
        job_failure_code := row_failure_code r; job_created_at := row_created_at r;
        job_updated_at := row_updated_at r |}.

Definition attempt_from_row (id : string) (a : AttemptRow) : result JobRepositoryError JobAttempt :=
  let? number := positive_u32 (att_number a) in
  let? generation := positive_u64 (att_lease_generation a) in
  Ok {| attempt_id := id; attempt_job_id := att_job_id a; attempt_number := number;
        attempt_lease_id := att_lease_id a; attempt_lease_generation := generation;
        attempt_worker_id := att_worker_id a; attempt_started_at := att_started_at a;
        attempt_finished_at := att_finished_at a; attempt_outcome := att_outcome a;
        attempt_failure_code := att_failure_code a |}.

(** [SELECT ... FROM jobs WHERE id = ?]; also [JobRepository::job]. *)
Definition job (id : string) (db : Db) : result JobRepositoryError JobRecord :=
  let? row := ok_or NotFound (jobs db !! id) in job_from_row id row.

Definition select_job (id : string) : Tx JobRepositoryError JobRecord :=
  let! db := tx_get in tx_of (job id db).

(** [JobRepository::attempts], in execution order. *)
Definition attempts (id : string) (db : Db) : result JobRepositoryError (list JobAttempt) :=
  collect (fun e => attempt_from_row e.1 e.2)
    (sort_by (cmp_on (fun e => att_number e.2) Z.compare)
      (select_where (fun _ a => String.eqb (att_job_id a) id) (job_attempts db))).

(** ** Input validation *)

Definition new_job (id kind : string) (priority scheduled_at max_attempts : Z)
    : result JobRepositoryError NewJob :=
  if max_attempts =? 0 then Err InvalidMaxAttempts
  else Ok {| nj_id := id; nj_kind := kind; nj_priority := priority; nj_parent_job_id := None;
             nj_crawl_run_id := None; nj_scheduled_at := scheduled_at;
             nj_max_attempts := max_attempts |}.

Definition valid_worker_id (value : string) : bool :=
  negb (str_is_empty value) && (byte_len value <=? 128)
  && forallb (fun b => is_ascii_alphanumeric b || (b =? 45) || (b =? 95) || (b =? 46)) (bytes value).

Definition is_recovery_continuation_kind (kind : string) : bool :=
  String.eqb kind "RETRY" || String.eqb kind "RETRY_FAILED_PARTS"
  || String.eqb kind "RESUME_CHECKPOINT" || String.eqb kind "RESTART_FROM_BEGINNING".

(** ** The [SET] clauses *)

Definition queued_row (j : NewJob) (parent run : option string) (now : Z) : JobRow :=
  {| row_kind := nj_kind j; row_priority := nj_priority j; row_state := Queued;
     row_parent_job_id := parent; row_crawl_run_id := run; row_scheduled_at := nj_scheduled_at j;
     row_current_attempt := 0; row_max_attempts := nj_max_attempts j; row_lease_id := None;
     row_lease_owner := None; row_lease_generation := 0; row_lease_acquired_at := None;
     row_lease_expires_at := None; row_heartbeat_at := None; row_failure_code := None;
     row_created_at := now; row_updated_at := now |}.

(** [state = ?, scheduled_at = ?, lease columns = NULL, failure_code = ?, updated_at = ?] *)
Definition released_row (s : JobState) (scheduled_at : Z) (failure : option JobFailureCode)
    (now : Z) (r : JobRow) : JobRow :=
  {| row_kind := row_kind r; row_priority := row_priority r; row_state := s;
     row_parent_job_id := row_parent_job_id r; row_crawl_run_id := row_crawl_run_id r;
     row_scheduled_at := scheduled_at; row_current_attempt := row_current_attempt r;
     row_max_attempts := row_max_attempts r; row_lease_id := None; row_lease_owner := None;
     row_lease_generation := row_lease_generation r; row_lease_acquired_at := None;
     row_lease_expires_at := None; row_heartbeat_at := None; row_failure_code := failure;
     row_created_at := row_created_at r; row_updated_at := now |}.

(** The same without [scheduled_at]. *)
Definition closed_row (s : JobState) (failure : option JobFailureCode) (now : Z) (r : JobRow) : JobRow :=
  released_row s (row_scheduled_at r) failure now r.

Definition leased_row_of (attempt : Z) (lease : JobLease) (r : JobRow) : JobRow :=
  {| row_kind := row_kind r; row_priority := row_priority r; row_state := Running;
     row_parent_job_id := row_parent_job_id r; row_crawl_run_id := row_crawl_run_id r;
     row_scheduled_at := row_scheduled_at r; row_current_attempt := attempt;
     row_max_attempts := row_max_attempts r; row_lease_id := Some (lease_id lease);
     row_lease_owner := Some (lease_owner lease); row_lease_generation := lease_generation lease;
     row_lease_acquired_at := Some (lease_acquired_at lease);
     row_lease_expires_at := Some (lease_expires_at lease);
     row_heartbeat_at := Some (lease_heartbeat_at lease); row_failure_code := None;
     row_created_at := row_created_at r; row_updated_at := lease_acquired_at lease |}.

Definition renewed_row (now expires_at : Z) (r : JobRow) : JobRow :=
  {| row_kind := row_kind r; row_priority := row_priority r; row_state := row_state r;
     row_parent_job_id := row_parent_job_id r; row_crawl_run_id := row_crawl_run_id r;
     row_scheduled_at := row_scheduled_at r; row_current_attempt := row_current_attempt r;
     row_max_attempts := row_max_attempts r; row_lease_id := row_lease_id r;
     row_lease_owner := row_lease_owner r; row_lease_generation := row_lease_generation r;
     row_lease_acquired_at := row_lease_acquired_at r; row_lease_expires_at := Some expires_at;
     row_heartbeat_at := Some now; row_failure_code := row_failure_code r;
     row_created_at := row_created_at r; row_updated_at := now |}.

(** [state = 'CANCELLED', failure_code = 'CANCELLED', updated_at = ?] *)
Definition cancelled_row (now : Z) (r : JobRow) : JobRow :=
  {| row_kind := row_kind r; row_priority := row_priority r; row_state := Cancelled;
     row_parent_job_id := row_parent_job_id r; row_crawl_run_id := row_crawl_run_id r;
     row_scheduled_at := row_scheduled_at r; row_current_attempt := row_current_attempt r;
     row_max_attempts := row_max_attempts r; row_lease_id := row_lease_id r;
     row_lease_owner := row_lease_owner r; row_lease_generation := row_lease_generation r;
     row_lease_acquired_at := row_lease_acquired_at r; row_lease_expires_at := row_lease_expires_at r;
     row_heartbeat_at := row_heartbeat_at r; row_failure_code := Some CancelledCode;
     row_created_at := row_created_at r; row_updated_at := now |}.

Definition reprioritized_row (priority scheduled_at now : Z) (r : JobRow) : JobRow :=
  {| row_kind := row_kind r; row_priority := priority; row_state := row_state r;
     row_parent_job_id := row_parent_job_id r; row_crawl_run_id := row_crawl_run_id r;
     row_scheduled_at := scheduled_at; row_current_attempt := row_current_attempt r;
     row_max_attempts := row_max_attempts r; row_lease_id := row_lease_id r;
     row_lease_owner := row_lease_owner r; row_lease_generation := row_lease_generation r;
     row_lease_acquired_at := row_lease_acquired_at r; row_lease_expires_at := row_lease_expires_at r;
     row_heartbeat_at := row_heartbeat_at r; row_failure_code := row_failure_code r;
     row_created_at := row_created_at r; row_updated_at := now |}.

Definition finished_attempt (now : Z) (outcome : AttemptOutcome) (failure : option JobFailureCode)
    (a : AttemptRow) : AttemptRow :=
  {| att_job_id := att_job_id a; att_number := att_number a; att_lease_id := att_lease_id a;
     att_lease_generation := att_lease_generation a; att_worker_id := att_worker_id a;
     att_started_at := att_started_at a; att_finished_at := Some now; att_outcome := outcome;
     att_failure_code := failure |}.

(** ** Shared steps *)

(** [execute(...)] followed by [if changed != 1 { return Err(e) }]. *)
Definition one_row (e : JobRepositoryError) (t : Tx DbError nat) : Tx JobRepositoryError unit :=
  let! changed := tx_map_err Database t in tx_reject (negb (Nat.eqb changed 1)) e.

Definition select_owned_running_job (id : string) (lease : JobLease) (now : Z)
    : Tx JobRepositoryError JobRecord :=
  let! job := select_job id in
  let! _ := tx_reject (negb (bool_decide (job_state job = Running))) IllegalTransition in
  let! _ := tx_reject (negb (bool_decide (job_lease job = Some lease)) || (lease_expires_at lease <=? now))
    LeaseLost in
  tx_ret job.

(** The [WHERE] of every update that needs the lease. *)
Definition lease_holds (lease : JobLease) (generation : Z) (r : JobRow) : bool :=
  bool_decide (row_state r = Running) && bool_decide (row_lease_id r = Some (lease_id lease))
  && bool_decide (row_lease_owner r = Some (lease_owner lease))
  && (row_lease_generation r =? generation).

Definition finish_attempt_in_transaction (id : string) (lease : JobLease) (now : Z)
    (outcome : AttemptOutcome) (failure : option JobFailureCode) : Tx JobRepositoryError unit :=
  let! generation := tx_of (i64_of_u64 (lease_generation lease)) in
  one_row LeaseLost (update_attempts
    (fun _ a => String.eqb (att_job_id a) id && String.eqb (att_lease_id a) (lease_id lease)
      && (att_lease_generation a =? generation) && String.eqb (att_worker_id a) (lease_owner lease)
      && bool_decide (att_outcome a = AttemptRunning))
    (finished_attempt now outcome failure)).

(** [UPDATE jobs SET ... WHERE id = ? AND state = 'RUNNING' AND lease_id = ? AND
    lease_owner = ? AND lease_generation = ?], which must change the row. *)
Definition update_leased_job (id : string) (lease : JobLease) (f : JobRow -> JobRow)
    : Tx JobRepositoryError unit :=
  let! generation := tx_of (i64_of_u64 (lease_generation lease)) in
  one_row LeaseLost (update_jobs true (fun k r => String.eqb k id && lease_holds lease generation r) f).

Definition finish_job_after_terminal_run (id : string) (lease : JobLease) (now : Z) (s : JobState)
    (failure : option JobFailureCode) : Tx JobRepositoryError unit :=
  update_leased_job id lease (closed_row s failure now).

Definition cancel_related_run (crawl_run_id : option string) : Tx JobRepositoryError unit :=
  match crawl_run_id with
  | None => tx_ret tt
  | Some run =>
    let! _ := tx_map_err Database (update_run_status run [RunQueued; RunRunning] RunCancelled) in
    tx_ret tt
  end.

Definition select_crawl_run_status (run : string) (db : Db) : option CrawlRunStatus :=
  run_status <$> crawl_runs db !! run.

(** The job outcome a terminal run stands for. *)
Definition terminal_outcome (s : CrawlRunStatus)
    : option (JobState * AttemptOutcome * option JobFailureCode * ProgressTerminalState) :=
  match s with
  | RunSucceeded | RunPartialResult => Some (Succeeded, AttemptSucceeded, None, TerminalSucceeded)
  | RunFailed => Some (Failed, AttemptFailed, Some HandlerFailed, TerminalFailed)
  | RunCancelled => Some (Cancelled, AttemptFailed, Some CancelledCode, TerminalCancelled)
  | RunQueued | RunRunning => None
  end.

Definition reconcile_terminal_job_in_transaction (id : string) (run_status : CrawlRunStatus) (now : Z)
    : Tx JobRepositoryError (option TerminalJobReconciliation) :=
  match terminal_outcome run_status with
  | None => tx_ret None
  | Some (s, outcome, failure, progress) =>
    let! job := select_job id in
    let! _ :=
      match job_state job with
      | Running =>
        let! lease := tx_of (ok_or QueueInvariant (job_lease job)) in
        let! _ := finish_attempt_in_transaction id lease now outcome failure in
        finish_job_after_terminal_run id lease now s failure
      | Queued => tx_fail QueueInvariant
      | Succeeded | Failed | Cancelled =>
        tx_reject (negb (bool_decide (job_state job = s))) QueueInvariant
      end in
    tx_ret (Some {| reconciled_state := s; reconciled_progress := progress |})
  end.

Definition finish_after_terminal_crawl_run (id : string) (lease : JobLease) (run : string) (now : Z)
    : Tx JobRepositoryError (option TerminalJobReconciliation) :=
  let! db := tx_get in
  match select_crawl_run_status run db with
  | None => tx_ret None
  | Some run_status => reconcile_terminal_job_in_transaction id run_status now
  end.

(** ** Invariant check *)

Definition no_row {Row} (p : string -> Row -> bool) (t : gmap string Row) : bool :=
  negb (exists_where p t).

(** [a <> column], which is not true of a [NULL] column. *)
Definition differs (a : string) (column : option string) : bool :=
  match column with Some c => negb (String.eqb a c) | None => false end.

(** [COALESCE(MAX(attempt_number), 0)] over the attempts of a job. *)
Definition max_attempt_number (id : string) (db : Db) : Z :=
  match map (fun e => att_number e.2)
      (select_where (fun _ a => String.eqb (att_job_id a) id) (job_attempts db)) with
  | [] => 0
  | n :: rest => foldl Z.max n rest
  end.

(** The five queries of [ensure_queue_invariants], each selecting an inconsistency. *)
Definition queue_consistent (db : Db) : bool :=
  no_row (fun _ r =>
      if decide (row_state r = Running)
      then (row_current_attempt r =? 0) || bool_decide (row_lease_id r = None)
        || bool_decide (row_lease_owner r = None) || (row_lease_generation r =? 0)
        || bool_decide (row_lease_acquired_at r = None) || bool_decide (row_lease_expires_at r = None)
        || bool_decide (row_heartbeat_at r = None)
      else negb (lease_columns_null r)) (jobs db)
  && no_row (fun id r =>
      let current := matching (fun _ a => String.eqb (att_job_id a) id
          && (att_number a =? row_current_attempt r)
          && bool_decide (att_outcome a = AttemptRunning)) (job_attempts db) in
      bool_decide (row_state r = Running)
      && (bool_decide (current = ∅)
        || exists_where (fun _ a => differs (att_lease_id a) (row_lease_id r)
             || negb (att_lease_generation a =? row_lease_generation r)
             || differs (att_worker_id a) (row_lease_owner r)) current)) (jobs db)
  && no_row (fun _ a => bool_decide (att_outcome a = AttemptRunning)
      && match jobs db !! att_job_id a with
         | Some r => negb (bool_decide (row_state r = Running)) | None => false end) (job_attempts db)
  && no_row (fun id r => negb (row_current_attempt r =? max_attempt_number id db)) (jobs db)
  && no_row (fun _ a =>
      match jobs db !! att_job_id a with
      | None => true | Some r => row_max_attempts r <? att_number a end) (job_attempts db).

Definition ensure_queue_invariants (db : Db) : result JobRepositoryError unit :=
  reject_if (negb (queue_consistent db)) QueueInvariant.

Definition check_invariants (db : Db) : result JobRepositoryError unit := ensure_queue_invariants db.

Section queue.
Context `{U : UuidLib} `{L : UrlLib} `{SD : SerdeLib}.

(** ** Creating jobs *)

Definition enqueue (j : NewJob) (now : Z) (db : Db) : result JobRepositoryError unit * Db :=
  transact (tx_map_err Database (insert_job (nj_id j)
    (queued_row j (nj_parent_job_id j) (nj_crawl_run_id j) now))) db.

(** A run and its root job, committed together ([QuickScrapeRunJob],
    [ProductionRunJob]: the run's identity and the job's). *)
Definition create_run_with_root_job (s : CrawlRunSnapshot) (j : NewJob) (now : Z)
    : Tx JobRepositoryError (CrawlRunId * string) :=
  let! drawn := draw_uuid in
  let run : CrawlRunId := mk_id drawn in
  let! _ := tx_map_err Database
    (insert_run_in_transaction run RunQueued s (json_to_string (snapshot_json s))) in
  let! _ := tx_map_err Database
    (insert_job (nj_id j) (queued_row j None (Some (id_to_string run)) now)) in
  tx_ret (run, nj_id j).

Definition unlinked (j : NewJob) : bool :=
  bool_decide (nj_parent_job_id j = None) && bool_decide (nj_crawl_run_id j = None).

Definition create_quick_scrape_run_with_root_job (s : CrawlRunSnapshot) (j : NewJob) (now : Z) (db : Db)
    : result JobRepositoryError (CrawlRunId * string) * Db :=
  match draft_configuration (snapshot_draft s) with
  | ConfQuickScrape _ _ =>
    if unlinked j then transact (create_run_with_root_job s j now) db else (Err QueueInvariant, db)
  | ConfCrawlerVersion _ _ _ => (Err QueueInvariant, db)
  end.

Definition create_production_run_with_root_job (s : CrawlRunSnapshot) (j : NewJob) (now : Z) (db : Db)
    : result JobRepositoryError (CrawlRunId * string) * Db :=
  match draft_configuration (snapshot_draft s) with
  | ConfCrawlerVersion _ _ _ =>
    if bool_decide (draft_run_type (snapshot_draft s) = ProductionRun) && unlinked j
    then transact (create_run_with_root_job s j now) db else (Err QueueInvariant, db)
  | ConfQuickScrape _ _ => (Err QueueInvariant, db)
  end.

(** ** Failing the run of a job *)

Definition run_id_of (stored : option string) : option CrawlRunId :=
  value ← stored; parsed ← uuid_parse_str value; from_uuid parsed.

Definition finalize_crawl_failure_in_transaction (job : JobRecord) (now : Z)
    : Tx JobRepositoryError unit :=
  let! run := tx_of (ok_or QueueInvariant (run_id_of (job_crawl_run_id job))) in
  let! _ := tx_map_err (fun _ => QueueInvariant)
    (transition_execution_status_in_transaction run RunFailed) in
  let! event := tx_of (map_err (fun _ => QueueInvariant)
    (progress_event_terminal (job_id job) TerminalFailed ∅)) in
  let! _ := tx_map_err (fun _ => QueueInvariant) (append_progress_in_transaction event now) in
  tx_ret tt.

(** ** Stale recovery *)

Definition has_any_checkpoint (id : string) (db : Db) : bool :=
  exists_where (fun _ c => String.eqb (ckpt_job_id c) id) (job_checkpoints db).

Definition no_recovery : StaleJobRecovery :=
  {| requeued := 0; failed := 0; resume_candidates := 0; restart_required := 0;
     invalid_checkpoints := 0 |}.

Definition count_disposition (d : option CheckpointEnvelopeDisposition) (r : StaleJobRecovery)
    : StaleJobRecovery :=
  {| requeued := requeued r; failed := failed r;
     resume_candidates := match d with Some ResumeCandidate => saturating_add u32_max (resume_candidates r) 1
                          | _ => resume_candidates r end;
     restart_required := match d with Some RestartRequired => saturating_add u32_max (restart_required r) 1
                         | _ => restart_required r end;
     invalid_checkpoints := match d with Some InvalidCheckpoint => saturating_add u32_max (invalid_checkpoints r) 1
                            | _ => invalid_checkpoints r end |}.

Definition count_next_state (s : JobState) (r : StaleJobRecovery) : StaleJobRecovery :=
  {| requeued := match s with Queued => saturating_add u32_max (requeued r) 1 | _ => requeued r end;
     failed := match s with Queued => failed r | _ => saturating_add u32_max (failed r) 1 end;
     resume_candidates := resume_candidates r; restart_required := restart_required r;
     invalid_checkpoints := invalid_checkpoints r |}.

(** The assessment of a stale job's checkpoint, when there is one to assess. *)
Definition stale_disposition (job : JobRecord) (db : Db)
    : result JobRepositoryError (option CheckpointEnvelopeDisposition) :=
  if bool_decide (is_Some (job_crawl_run_id job)) || has_any_checkpoint (job_id job) db then
    let? d := map_err CheckpointFailure (assess_one_stale_job (job_id job) (job_crawl_run_id job) db) in
    Ok (Some d)
  else Ok None.

Definition allows_recovery (d : option CheckpointEnvelopeDisposition) : bool :=
  match d with Some (RestartRequired | InvalidCheckpoint) => false | _ => true end.

(** One iteration of the loop. *)
Definition recover_one (now : Z) (recovery : StaleJobRecovery) (id : string)
    : Tx JobRepositoryError StaleJobRecovery :=
  let! job := select_job id in
  let! lease := tx_of (ok_or QueueInvariant (job_lease job)) in
  if now <? lease_expires_at lease then tx_ret recovery
  else
    let! reconciled :=
      match job_crawl_run_id job with
      | Some run => finish_after_terminal_crawl_run id lease run now
      | None => tx_ret None
      end in
    match reconciled with
    | Some _ => tx_ret recovery
    | None =>
      let! db := tx_get in
      let! disposition := tx_of (stale_disposition job db) in
      let recovery := count_disposition disposition recovery in
      let! _ := finish_attempt_in_transaction id lease now AttemptLeaseExpired (Some LeaseExpiredCode) in
      let next_state :=
        if allows_recovery disposition && (job_current_attempt job <? job_max_attempts job)
        then Queued else Failed in
      let recovery := count_next_state next_state recovery in
      let! generation := tx_of (i64_of_u64 (lease_generation lease)) in
      let! _ := one_row LeaseLost (update_jobs true
        (fun k r => String.eqb k id && (lease_holds lease generation r
          && match row_lease_expires_at r with Some e => e <=? now | None => false end))
        (released_row next_state now (Some LeaseExpiredCode) now)) in
      let! _ :=
        if bool_decide (next_state = Failed) && bool_decide (is_Some (job_crawl_run_id job))
        then finalize_crawl_failure_in_transaction job now else tx_ret tt in
      tx_ret recovery
    end.

(** [SELECT id FROM jobs WHERE state = 'RUNNING' AND lease_expires_at <= ? ORDER BY id] *)
Definition expired_jobs (now : Z) (db : Db) : list string :=
  map fst (select_where (fun _ r => bool_decide (row_state r = Running)
    && match row_lease_expires_at r with Some e => e <=? now | None => false end) (jobs db)).

Definition recover_expired_in_transaction (now : Z) : Tx JobRepositoryError StaleJobRecovery :=
  let! db := tx_get in tx_fold (recover_one now) (expired_jobs now db) no_recovery.

(** ** Terminal progress *)

Definition expected_terminal : ProgressTerminalState -> string := terminal_as_storage.

(** The loop over the stored payloads: the number of terminal events. *)
Definition count_terminal (terminal : ProgressTerminalState) (count : Z) (row : string * ProgressRow)
    : result JobRepositoryError Z :=
  let? payload := ok_or QueueInvariant (json_from_str (prog_payload_json row.2)) in
  match json_get "terminal" payload with
  | None | Some JNull => Ok count
  | Some v =>
    if bool_decide (json_as_str v = Some (expected_terminal terminal))
    then Ok (saturating_add u8_max count 1) else Err QueueInvariant
  end.

Fixpoint count_terminals (terminal : ProgressTerminalState) (count : Z)
    (rows : list (string * ProgressRow)) : result JobRepositoryError Z :=
  match rows with
  | [] => Ok count
  | row :: rows => let? count := count_terminal terminal count row in count_terminals terminal count rows
  end.

Definition append_terminal_progress_if_missing_in_transaction (id : string)
    (terminal : ProgressTerminalState) (now : Z) : Tx JobRepositoryError unit :=
  let! db := tx_get in
  let! terminal_count := tx_of (count_terminals terminal 0 (stream_rows id db)) in
  if 1 <? terminal_count then tx_fail QueueInvariant
  else if terminal_count =? 1 then tx_ret tt
  else
    let! event := tx_of (map_err (fun _ => QueueInvariant) (progress_event_terminal id terminal ∅)) in
    let! _ := tx_map_err (fun _ => QueueInvariant) (append_progress_in_transaction event now) in
    tx_ret tt.

Definition append_terminal_progress_if_missing (id : string) (terminal : ProgressTerminalState)
    (now : Z) (db : Db) : result JobRepositoryError unit * Db :=
  transact (append_terminal_progress_if_missing_in_transaction id terminal now) db.

(** ** Reconciling jobs with terminal runs *)

Definition run_is_terminal (s : CrawlRunStatus) : bool :=
  match s with RunSucceeded | RunPartialResult | RunFailed | RunCancelled => true | _ => false end.

(** The join of [jobs] with terminal [crawl_runs], [ORDER BY jobs.id]. *)
Definition jobs_of_terminal_runs (db : Db) : list (string * CrawlRunStatus) :=
  omap (fun e : string * JobRow =>
    run ← row_crawl_run_id e.2; r ← crawl_runs db !! run;
    if run_is_terminal (run_status r) then Some (e.1, run_status r) else None)
    (select_where (fun _ _ => true) (jobs db)).

Definition reconcile_all_in_transaction (now : Z)
    : Tx JobRepositoryError (list (string * ProgressTerminalState)) :=
  let! db := tx_get in
  tx_fold (fun repairs e =>
    let! reconciliation := reconcile_terminal_job_in_transaction e.1 e.2 now in
    tx_ret match reconciliation with
           | Some r => repairs ++ [(e.1, reconciled_progress r)]
           | None => repairs
           end) (jobs_of_terminal_runs db) [].

(** Each repair commits on its own; the first failure ends the loop. *)
Fixpoint repair_progress (repairs : list (string * ProgressTerminalState)) (now : Z) (db : Db)
    : result JobRepositoryError unit * Db :=
  match repairs with
  | [] => (Ok tt, db)
  | (id, terminal) :: repairs =>
    match append_terminal_progress_if_missing id terminal now db with
    | (Ok _, db') => repair_progress repairs now db'
    | (Err e, db') => (Err e, db')
    end
  end.

Definition reconcile_terminal_crawl_runs (now : Z) (db : Db) : result JobRepositoryError unit * Db :=
  match transact (reconcile_all_in_transaction now) db with
  | (Ok repairs, db') => repair_progress repairs now db'
  | (Err e, db') => (Err e, db')
  end.

Definition reconcile_terminal_crawl_run (id : string) (lease : JobLease) (run : string) (now : Z) (db : Db)
    : result JobRepositoryError TerminalJobReconciliation * Db :=
  transact (
    let! db := tx_get in
    let! run_status := tx_of (ok_or QueueInvariant (select_crawl_run_status run db)) in
    let! current_job := select_job id in
    let! _ := tx_reject (negb (bool_decide (job_crawl_run_id current_job = Some run))) QueueInvariant in
    let! _ := tx_reject (bool_decide (job_state current_job = Running)
      && negb (bool_decide (job_lease current_job = Some lease))) LeaseLost in
    let! reconciliation := reconcile_terminal_job_in_transaction id run_status now in
    tx_of (ok_or QueueInvariant reconciliation)) db.

Definition recover_stale_jobs (now : Z) (db : Db) : result JobRepositoryError StaleJobRecovery * Db :=
  match transact (
    let! db := tx_get in
    let! _ := tx_of (ensure_queue_invariants db) in
    recover_expired_in_transaction now) db with
  | (Ok recovery, db') =>
    match reconcile_terminal_crawl_runs now db' with
    | (Ok _, db'') => (Ok recovery, db'')
    | (Err e, db'') => (Err e, db'')
    end
  | (Err e, db') => (Err e, db')
  end.

(** ** Acquiring *)

(** [ORDER BY priority DESC, scheduled_at, created_at, id] *)
Definition eligible_order (x y : string * JobRow) : comparison :=
  cmp_lex (Z.compare (row_priority y.2) (row_priority x.2))
    (cmp_lex (Z.compare (row_scheduled_at x.2) (row_scheduled_at y.2))
      (cmp_lex (Z.compare (row_created_at x.2) (row_created_at y.2)) (String.compare x.1 y.1))).

Definition eligible (now : Z) (allow_artifact_heavy : bool) (r : JobRow) : bool :=
  bool_decide (row_state r = Queued) && (row_scheduled_at r <=? now)
  && (allow_artifact_heavy || bool_decide (row_crawl_run_id r = None)).

Definition select_eligible_job (now : Z) (allow_artifact_heavy : bool) (db : Db) : option string :=
  fst <$> head (sort_by eligible_order
    (select_where (fun _ r => eligible now allow_artifact_heavy r) (jobs db))).

Definition lease_queued_job (id worker_id : string) (now lease_duration_seconds : Z)
    (allow_artifact_heavy : bool) : Tx JobRepositoryError AcquiredJob :=
  let! job := select_job id in
  let! _ := tx_reject (negb (bool_decide (job_state job = Queued)) || (now <? job_scheduled_at job)
    || (job_max_attempts job <=? job_current_attempt job)) IllegalTransition in
  let! _ := tx_reject (negb allow_artifact_heavy && bool_decide (storage_class job = ArtifactHeavy))
    StorageAdmissionBlocked in
  let! drawn := draw_uuid in
  let lease_id := uuid_to_string drawn in
  let lease_generation := saturating_add u64_max (job_lease_generation job) 1 in
  let! expires_at := tx_of (ok_or QueueInvariant (i64_checked_add now lease_duration_seconds)) in
  let attempt_number := saturating_add u32_max (job_current_attempt job) 1 in
  let! generation := tx_of (i64_of_u64 lease_generation) in
  let! _ := one_row IllegalTransition (update_jobs true
    (fun k r => String.eqb k id && (bool_decide (row_state r = Queued) && (row_scheduled_at r <=? now)
      && (row_current_attempt r =? job_current_attempt job)))
    (leased_row_of attempt_number {| lease_id := lease_id; lease_owner := worker_id;
       lease_generation := generation; lease_acquired_at := now; lease_expires_at := expires_at;
       lease_heartbeat_at := now |})) in
  let! drawn := draw_uuid in
  let attempt := {| attempt_id := uuid_to_string drawn; attempt_job_id := id;
    attempt_number := attempt_number; attempt_lease_id := lease_id;
    attempt_lease_generation := lease_generation; attempt_worker_id := worker_id;
    attempt_started_at := now; attempt_finished_at := None; attempt_outcome := AttemptRunning;
    attempt_failure_code := None |} in
  let! _ := tx_map_err Database (insert_attempt (attempt_id attempt)
    {| att_job_id := id; att_number := attempt_number; att_lease_id := lease_id;
       att_lease_generation := generation; att_worker_id := worker_id; att_started_at := now;
       att_finished_at := None; att_outcome := AttemptRunning; att_failure_code := None |}) in
  let! job := select_job id in
  tx_ret {| acquired_job := job; acquired_attempt := attempt |}.

Definition acquire_next_with_storage_admission (worker_id : string) (now lease_duration_seconds : Z)
    (allow_artifact_heavy : bool) (db : Db) : result JobRepositoryError (option AcquiredJob) * Db :=
  if negb (valid_worker_id worker_id) || (lease_duration_seconds <=? 0) then (Err QueueInvariant, db)
  else transact (
    let! db := tx_get in
    let! _ := tx_of (ensure_queue_invariants db) in
    let! _ := recover_expired_in_transaction now in
    let! db := tx_get in
    match select_eligible_job now allow_artifact_heavy db with
    | None => tx_ret None
    | Some id =>
      let! acquired := lease_queued_job id worker_id now lease_duration_seconds allow_artifact_heavy in
      tx_ret (Some acquired)
    end) db.

Definition acquire_next (worker_id : string) (now lease_duration_seconds : Z) (db : Db)
    : result JobRepositoryError (option AcquiredJob) * Db :=
  acquire_next_with_storage_admission worker_id now lease_duration_seconds true db.

(** ** Owner operations *)

Definition ownership_error (id : string) (db : Db) : JobRepositoryError :=
  match job id db with
  | Ok j => if decide (job_state j = Running) then LeaseLost else IllegalTransition
  | Err NotFound => NotFound
  | Err _ => LeaseLost
  end.

Definition heartbeat (id : string) (lease : JobLease) (now lease_duration_seconds : Z) (db : Db)
    : result JobRepositoryError JobLease * Db :=
  if lease_duration_seconds <=? 0 then (Err QueueInvariant, db)
  else match i64_checked_add now lease_duration_seconds with
  | None => (Err QueueInvariant, db)
  | Some expires_at =>
    let update : Tx JobRepositoryError nat :=
      let! generation := tx_of (i64_of_u64 (lease_generation lease)) in
      tx_map_err Database (update_jobs false
        (fun k r => String.eqb k id && (lease_holds lease generation r
          && bool_decide (row_lease_expires_at r = Some (lease_expires_at lease))
          && bool_decide (row_heartbeat_at r = Some (lease_heartbeat_at lease))
          && match row_lease_expires_at r with Some e => now <? e | None => false end))
        (renewed_row now expires_at)) in
    match transact update db with
    | (Ok changed, db') =>
      if Nat.eqb changed 1
      then (Ok {| lease_id := lease_id lease; lease_owner := lease_owner lease;
                  lease_generation := lease_generation lease;
                  lease_acquired_at := lease_acquired_at lease; lease_expires_at := expires_at;
                  lease_heartbeat_at := now |}, db')
      else (Err (ownership_error id db'), db')
    | (Err e, db') => (Err e, db')
    end
  end.

Definition finish (id : string) (lease : JobLease) (now : Z) (outcome : AttemptOutcome)
    (failure : option JobFailureCode) (db : Db) : result JobRepositoryError unit * Db :=
  transact (
    let! _ := select_owned_running_job id lease now in
    let! _ := finish_attempt_in_transaction id lease now outcome failure in
    update_leased_job id lease (closed_row Succeeded None now)) db.

Definition succeed (id : string) (lease : JobLease) (now : Z) (db : Db)
    : result JobRepositoryError unit * Db :=
  finish id lease now AttemptSucceeded None db.

Definition fail_with_disposition (id : string) (lease : JobLease) (now : Z) (failure : JobFailureCode)
    (retry_at : Z) (terminal : bool) (db : Db) : result JobRepositoryError JobState * Db :=
  transact (
    let! job := select_owned_running_job id lease now in
    let next_state :=
      if negb terminal && (job_current_attempt job <? job_max_attempts job) then Queued else Failed in
    let! _ := finish_attempt_in_transaction id lease now AttemptFailed (Some failure) in
    let! _ := update_leased_job id lease (released_row next_state
      (if decide (next_state = Queued) then retry_at else job_scheduled_at job) (Some failure) now) in
    tx_ret next_state) db.

Definition fail (id : string) (lease : JobLease) (now : Z) (failure : JobFailureCode) (retry_at : Z)
    (db : Db) : result JobRepositoryError JobState * Db :=
  fail_with_disposition id lease now failure retry_at false db.

Definition fail_terminal (id : string) (lease : JobLease) (now : Z) (failure : JobFailureCode) (db : Db)
    : result JobRepositoryError unit * Db :=
  match fail_with_disposition id lease now failure now true db with
  | (Ok Failed, db') => (Ok tt, db')
  | (Ok _, db') => (Err QueueInvariant, db')
  | (Err e, db') => (Err e, db')
  end.

Definition fail_terminal_production (id : string) (lease : JobLease) (now : Z) (failure : JobFailureCode)
    (db : Db) : result JobRepositoryError unit * Db :=
  transact (
    let! job := select_owned_running_job id lease now in
    let! db := tx_get in
    let! _ :=
      if String.eqb (job_kind job) "PRODUCTION_CRAWL" then tx_ret tt
      else
        let! run := tx_of (ok_or QueueInvariant (job_crawl_run_id job)) in
        let! row := tx_of (ok_or QueueInvariant (crawl_runs db !! run)) in
        tx_reject (negb (bool_decide (run_type row = ProductionRun))) QueueInvariant in
    let! _ := finish_attempt_in_transaction id lease now AttemptFailed (Some failure) in
    let! _ := update_leased_job id lease (released_row Failed (job_scheduled_at job) (Some failure) now) in
    finalize_crawl_failure_in_transaction job now) db.

(** The run outcomes a cancelled owner defers to. *)
Definition cancel_outcome (status : option CrawlRunStatus)
    : option (AttemptOutcome * JobState * option JobFailureCode) :=
  match status with
  | Some (RunSucceeded | RunPartialResult) => Some (AttemptSucceeded, Succeeded, None)
  | Some RunFailed => Some (AttemptFailed, Failed, Some HandlerFailed)
  | _ => None
  end.

Definition cancel (id : string) (lease : JobLease) (now : Z) (db : Db)
    : result JobRepositoryError unit * Db :=
  transact (
    let! job := select_owned_running_job id lease now in
    let! db := tx_get in
    match cancel_outcome (run ← job_crawl_run_id job; select_crawl_run_status run db) with
    | Some (outcome, s, failure) =>
      let! _ := finish_attempt_in_transaction id lease now outcome failure in
      finish_job_after_terminal_run id lease now s failure
    | None =>
      let! _ := finish_attempt_in_transaction id lease now AttemptFailed (Some CancelledCode) in
      let! _ := update_leased_job id lease (closed_row Cancelled (Some CancelledCode) now) in
      cancel_related_run (job_crawl_run_id job)
    end) db.

Definition has_checkpoint_for_current_attempt (id : string) (lease : JobLease) (db : Db)
    : result JobRepositoryError bool :=
  let? generation := i64_of_u64 (lease_generation lease) in
  Ok (exists_where (fun _ c => String.eqb (ckpt_job_id c) id &&
    match ckpt_attempt_id c ≫= fun a => job_attempts db !! a with
    | Some a => String.eqb (att_job_id a) id && String.eqb (att_lease_id a) (lease_id lease)
        && (att_lease_generation a =? generation) && bool_decide (att_outcome a = AttemptRunning)
    | None => false
    end) (job_checkpoints db)).

Definition requeue_in_transaction (id : string) (lease : JobLease) (now : Z)
    : Tx JobRepositoryError (option TerminalJobReconciliation * JobState) :=
  let! job := select_owned_running_job id lease now in
  let! reconciliation :=
    match job_crawl_run_id job with
    | Some run => finish_after_terminal_crawl_run id lease run now
    | None => tx_ret None
    end in
  match reconciliation with
  | Some r => tx_ret (Some r, reconciled_state r)
  | None =>
    let! db := tx_get in
    let! has_checkpoint := tx_of (has_checkpoint_for_current_attempt id lease db) in
    let next_state :=
      if has_checkpoint && (job_current_attempt job <? job_max_attempts job) then Queued else Failed in
    let! _ := finish_attempt_in_transaction id lease now AttemptFailed (Some StoragePressureCode) in
    let! _ := update_leased_job id lease (released_row next_state now (Some StoragePressureCode) now) in
    let! _ :=
      if bool_decide (next_state = Failed) && bool_decide (is_Some (job_crawl_run_id job))
      then finalize_crawl_failure_in_transaction job now else tx_ret tt in
    tx_ret (None, next_state)
  end.

Definition requeue_after_storage_pressure (id : string) (lease : JobLease) (now : Z) (db : Db)
    : result JobRepositoryError JobState * Db :=
  match transact (requeue_in_transaction id lease now) db with
  | (Ok (Some r, _), db') =>
    match append_terminal_progress_if_missing id (reconciled_progress r) now db' with
    | (Ok _, db'') => (Ok (reconciled_state r), db'')
    | (Err e, db'') => (Err e, db'')
    end
  | (Ok (None, s), db') => (Ok s, db')
  | (Err e, db') => (Err e, db')
  end.

(** ** Queue actions *)

Definition cancel_queued (id : string) (now : Z) (db : Db) : result JobRepositoryError JobState * Db :=
  transact (
    let! job := select_job id in
    if bool_decide (job_state job = Queued) then
      let! _ := one_row IllegalTransition (update_jobs true
        (fun k r => String.eqb k id && bool_decide (row_state r = Queued)) (cancelled_row now)) in
      let! _ := cancel_related_run (job_crawl_run_id job) in
      tx_ret Cancelled
    else tx_ret (job_state job)) db.

Definition reprioritize (id : string) (priority scheduled_at now : Z) (db : Db)
    : result JobRepositoryError JobRecord * Db :=
  match transact (tx_map_err Database (update_jobs false
      (fun k r => String.eqb k id && bool_decide (row_state r = Queued))
      (reprioritized_row priority scheduled_at now))) db with
  | (Ok changed, db') =>
    if Nat.eqb changed 1 then (job id db', db')
    else match job id db' with
         | Err NotFound => (Err NotFound, db')
         | _ => (Err NotReprioritizable, db')
         end
  | (Err e, db') => (Err e, db')
  end.

Definition has_evidence (id : string) (db : Db) : bool :=
  exists_where (fun _ a => String.eqb (att_job_id a) id) (job_attempts db)
  || exists_where (fun _ c => String.eqb (ckpt_job_id c) id) (job_checkpoints db)
  || exists_where (fun _ e => String.eqb (prog_job_id e) id) (job_progress_events db)
  || exists_where (fun _ r => bool_decide (row_parent_job_id r = Some id)) (jobs db).

Definition remove_if_safe (id : string) (db : Db) : result JobRepositoryError unit * Db :=
  transact (
    let! job := select_job id in
    let! _ := tx_reject (negb (bool_decide (job_state job = Queued)) || negb (job_current_attempt job =? 0)
      || bool_decide (is_Some (job_crawl_run_id job)) || bool_decide (is_Some (job_parent_job_id job)))
      RemovalUnsafe in
    let! db := tx_get in
    let! _ := tx_reject (has_evidence id db) RemovalUnsafe in
    one_row RemovalUnsafe (delete_jobs (fun k r => String.eqb k id
      && (bool_decide (row_state r = Queued) && (row_current_attempt r =? 0)
      && bool_decide (row_crawl_run_id r = None) && bool_decide (row_parent_job_id r = None))))) db.

(** *** Action children *)

Inductive ActionRunAssociation :=
| NoRun
| SameSourceRun
| NewIndependentRun (s : CrawlRunSnapshot).

Definition is_active (s : JobState) : bool :=
  match s with Queued | Running => true | _ => false end.

Definition action_child_exists (source : string) (p : JobRow -> bool) (db : Db) : bool :=
  exists_where (fun _ r => bool_decide (row_parent_job_id r = Some source) && p r) (jobs db).

Definition active_equivalent_action_child (source action_kind : string) (db : Db) : bool :=
  action_child_exists source (fun r => String.eqb (row_kind r) action_kind && is_active (row_state r)) db.

Definition validate_action_child_lineage (source : JobRecord) (source_id action_kind : string) (db : Db)
    : result JobRepositoryError unit :=
  let? _ := reject_if (is_active (job_state source)) IllegalTransition in
  let? _ := reject_if (active_equivalent_action_child source_id action_kind db) ActionAlreadyActive in
  reject_if (is_recovery_continuation_kind action_kind
    && action_child_exists source_id
         (fun r => is_recovery_continuation_kind (row_kind r) && is_active (row_state r)) db)
    ActionAlreadyActive.

Definition action_child_crawl_run_id (source : JobRecord) (association : ActionRunAssociation)
    : Tx JobRepositoryError (option string) :=
  match association with
  | SameSourceRun =>
    let! run := tx_of (ok_or QueueInvariant (job_crawl_run_id source)) in
    let! _ := one_row QueueInvariant (update_run_status run
      [RunQueued; RunSucceeded; RunPartialResult; RunFailed; RunCancelled] RunQueued) in
    tx_ret (Some run)
  | NewIndependentRun s =>
    let! drawn := draw_uuid in
    let run : CrawlRunId := mk_id drawn in
    let! _ := tx_map_err Database
      (insert_run_in_transaction run RunQueued s (json_to_string (snapshot_json s))) in
    tx_ret (Some (id_to_string run))
  | NoRun => tx_ret None
  end.

Definition enqueue_action_child (source_id action_kind : string) (now : Z)
    (association : ActionRunAssociation) (max_attempts : option Z) (db : Db)
    : result JobRepositoryError JobRecord * Db :=
  transact (
    let! source := select_job source_id in
    let! db := tx_get in
    let! _ := tx_of (validate_action_child_lineage source source_id action_kind db) in
    let! drawn := draw_uuid in
    let child := uuid_to_string drawn in
    let! run := action_child_crawl_run_id source association in
    let! _ := tx_map_err Database (insert_job child (queued_row
      {| nj_id := child; nj_kind := action_kind; nj_priority := job_priority source;
         nj_parent_job_id := Some source_id; nj_crawl_run_id := run; nj_scheduled_at := now;
         nj_max_attempts := default (job_max_attempts source) max_attempts |}
      (Some source_id) run now)) in
    select_job child) db.

(** ** Views *)

(** The ancestors of a job, itself first; [fuel] bounds the walk. *)
Fixpoint lineage (fuel : nat) (id : string) (db : Db) : option (result JobRepositoryError (list string)) :=
  match fuel with
  | O => None
  | S fuel =>
    match job id db with
    | Err e => Some (Err e)
    | Ok j =>
      match job_parent_job_id j with
      | None => Some (Ok [id])
      | Some parent =>
        match lineage fuel parent db with
        | None => None
        | Some (Err e) => Some (Err e)
        | Some (Ok ids) => Some (Ok (id :: ids))
        end
      end
    end
  end.

Fixpoint first_checkpoint (ids : list string) (db : Db)
    : result JobRepositoryError (option CheckpointRecord) :=
  match ids with
  | [] => Ok None
  | id :: ids =>
    let? found := map_err CheckpointFailure (latest id db) in
    match found with Some record => Ok (Some record) | None => first_checkpoint ids db end
  end.

Definition latest_checkpoint_for_lineage (fuel : nat) (id : string) (db : Db)
    : option (result JobRepositoryError (option CheckpointRecord)) :=
  match lineage fuel id db with
  | None => None
  | Some (Err e) => Some (Err e)
  | Some (Ok ids) => Some (first_checkpoint ids db)
  end.

(** The ids of the jobs running under a live lease. *)
Definition rebuild_concurrency_state (now : Z) (db : Db) : result JobRepositoryError (list string) :=
  let? _ := check_invariants db in
  Ok (map fst (select_where (fun _ r => bool_decide (row_state r = Running)
    && match row_lease_expires_at r with Some e => now <? e | None => false end) (jobs db))).

(** [append_checkpoint] of the queue: the checkpoint repository's. *)
Definition append_job_checkpoint (id attempt : string) (lease : JobLease) (c : CheckpointEnvelope)
    (created_at : Z) (db : Db) : result JobRepositoryError CheckpointRecord * Db :=
  match append_checkpoint id attempt lease c created_at db with
  | (Ok r, db') => (Ok r, db')
  | (Err e, db') => (Err (CheckpointFailure e), db')
  end.
End queue.
