(* ===== verification/JobInvariants.v ===== *)
(** * The job queue: invariant, step relation and refinement

    What [JobQueue.v] keeps true.  [queue_wf] is the invariant of the queue tables;
    [change] is the relation of its elementary changes; every operation of the
    repository is a sequence of changes, so that what each change guarantees (the
    invariant, the finality of terminal jobs and of finished attempts, the abstract
    lease protocol of [LeaseSpec]) holds of every operation. *)

From S2P Require Import Prelude Externals JsonFacts Base Instances Settings Snapshot Store.
From S2P Require Import Progress Checkpoint Runs JobQueue.

(** ** The invariant *)

Definition no_lease (r : JobRow) : Prop :=
  row_lease_id r = None /\ row_lease_owner r = None /\ row_lease_acquired_at r = None /\
  row_lease_expires_at r = None /\ row_heartbeat_at r = None.

(** The row holds [l], in an acquired-heartbeat-expiry order. *)
Definition holds_lease (r : JobRow) (l : JobLease) : Prop :=
  row_lease_id r = Some (lease_id l) /\ row_lease_owner r = Some (lease_owner l) /\
  row_lease_generation r = lease_generation l /\
  row_lease_acquired_at r = Some (lease_acquired_at l) /\
  row_lease_expires_at r = Some (lease_expires_at l) /\
  row_heartbeat_at r = Some (lease_heartbeat_at l) /\
  lease_acquired_at l <= lease_heartbeat_at l <= lease_expires_at l.

Record row_ok (r : JobRow) : Prop := {
  ro_kind : job_kind_new (row_kind r) = Ok (row_kind r);
  ro_priority : - 2 ^ 31 <= row_priority r < 2 ^ 31;
  ro_max : 1 <= row_max_attempts r <= u32_max;
  ro_current : 0 <= row_current_attempt r <= row_max_attempts r;
  (** each lease is one attempt *)
  ro_generation : row_lease_generation r = row_current_attempt r;
  (** queued work may always be attempted *)
  ro_queued : row_state r = Queued -> row_current_attempt r < row_max_attempts r;
  ro_lease : if decide (row_state r = Running)
    then 1 <= row_current_attempt r /\ exists l, holds_lease r l else no_lease r
}.

(** [a] is the attempt the row's lease belongs to. *)
Definition attempt_of (r : JobRow) (a : AttemptRow) : Prop :=
  row_state r = Running /\ att_number a = row_current_attempt r /\
  row_lease_id r = Some (att_lease_id a) /\ row_lease_owner r = Some (att_worker_id a).

Record queue_wf (db : Db) : Prop := {
  qw_rows : forall id r, jobs db !! id = Some r -> row_ok r;
  (** every attempt belongs to a job; only the current attempt of a running job runs *)
  qw_attempts : forall i a, job_attempts db !! i = Some a ->
    exists r, jobs db !! att_job_id a = Some r /\ 1 <= att_number a <= row_current_attempt r /\
      att_lease_generation a = att_number a /\ (att_outcome a = AttemptRunning -> attempt_of r a);
  (** a running job has its running attempt *)
  qw_running : forall id r, jobs db !! id = Some r -> row_state r = Running ->
    exists i a, job_attempts db !! i = Some a /\ att_job_id a = id /\
      att_outcome a = AttemptRunning /\ attempt_of r a;
  (** attempts are numbered 1 to the current one, without a gap or a repetition *)
  qw_history : forall id r n, jobs db !! id = Some r -> 1 <= n <= row_current_attempt r ->
    exists i a, job_attempts db !! i = Some a /\ att_job_id a = id /\ att_number a = n;
  qw_unique : forall i k a b, job_attempts db !! i = Some a -> job_attempts db !! k = Some b ->
    att_job_id a = att_job_id b -> att_number a = att_number b -> i = k;
  (** no two attempts share a lease *)
  qw_leases : forall i k a b, job_attempts db !! i = Some a -> job_attempts db !! k = Some b ->
    att_lease_id a = att_lease_id b -> i = k
}.

(** ** Elementary changes *)

(** The row after a lease is given up; requeued work has attempts left. *)
Definition releases (r r' : JobRow) : Prop :=
  row_kind r' = row_kind r /\ row_priority r' = row_priority r /\
  row_parent_job_id r' = row_parent_job_id r /\ row_crawl_run_id r' = row_crawl_run_id r /\
  row_current_attempt r' = row_current_attempt r /\ row_max_attempts r' = row_max_attempts r /\
  row_lease_generation r' = row_lease_generation r /\ row_created_at r' = row_created_at r /\
  row_state r' <> Running /\ no_lease r' /\
  (row_state r' = Queued -> row_current_attempt r < row_max_attempts r).

Definition finishes (a a' : AttemptRow) : Prop :=
  exists now outcome failure, outcome <> AttemptRunning /\ a' = finished_attempt now outcome failure a.

(** A row that may be inserted. *)
Definition fresh_row (r : JobRow) : Prop :=
  row_state r = Queued /\ row_current_attempt r = 0 /\ row_ok r.

Inductive change (db db' : Db) : Prop :=
| change_elsewhere :
    jobs db' = jobs db -> job_attempts db' = job_attempts db -> change db db'
| change_insert id r :
    jobs db !! id = None -> fresh_row r ->
    (forall p, row_parent_job_id r = Some p -> is_Some (jobs db !! p)) ->
    jobs db' = <[id := r]> (jobs db) -> job_attempts db' = job_attempts db -> change db db'
| change_lease id r lease aid a :
    jobs db !! id = Some r -> row_state r = Queued ->
    lease_generation lease = row_current_attempt r + 1 ->
    lease_acquired_at lease <= lease_heartbeat_at lease <= lease_expires_at lease ->
    job_attempts db !! aid = None ->
    (forall i b, job_attempts db !! i = Some b -> att_lease_id b <> lease_id lease) ->
    a = {| att_job_id := id; att_number := row_current_attempt r + 1;
           att_lease_id := lease_id lease; att_lease_generation := lease_generation lease;
           att_worker_id := lease_owner lease; att_started_at := lease_acquired_at lease;
           att_finished_at := None; att_outcome := AttemptRunning; att_failure_code := None |} ->
    jobs db' = <[id := leased_row_of (row_current_attempt r + 1) lease r]> (jobs db) ->
    job_attempts db' = <[aid := a]> (job_attempts db) -> change db db'
| change_renew id r now expires_at :
    jobs db !! id = Some r -> row_state r = Running ->
    (forall l, holds_lease r l -> lease_acquired_at l <= now <= expires_at) ->
    jobs db' = <[id := renewed_row now expires_at r]> (jobs db) ->
    job_attempts db' = job_attempts db -> change db db'
| change_release id r r' aid a a' :
    jobs db !! id = Some r -> row_state r = Running -> releases r r' ->
    job_attempts db !! aid = Some a -> att_job_id a = id -> att_outcome a = AttemptRunning ->
    finishes a a' ->
    jobs db' = <[id := r']> (jobs db) -> job_attempts db' = <[aid := a']> (job_attempts db) ->
    change db db'
| change_cancel id r now :
    jobs db !! id = Some r -> row_state r = Queued ->
    jobs db' = <[id := cancelled_row now r]> (jobs db) -> job_attempts db' = job_attempts db ->
    change db db'
| change_reprioritize id r priority scheduled_at now :
    jobs db !! id = Some r -> row_state r = Queued -> - 2 ^ 31 <= priority < 2 ^ 31 ->
    jobs db' = <[id := reprioritized_row priority scheduled_at now r]> (jobs db) ->
    job_attempts db' = job_attempts db -> change db db'
| change_remove id r :
    jobs db !! id = Some r -> row_state r = Queued -> row_current_attempt r = 0 ->
    row_crawl_run_id r = None -> row_parent_job_id r = None ->
    (forall k x, jobs db !! k = Some x -> row_parent_job_id x <> Some id) ->
    jobs db' = delete id (jobs db) -> job_attempts db' = job_attempts db -> change db db'.

Definition changes : Db -> Db -> Prop := rtc change.

(** * Lemmas *)

(** ** Rows *)

Lemma attempt_running_lease db i a r :
  queue_wf db -> job_attempts db !! i = Some a -> att_outcome a = AttemptRunning ->
  jobs db !! att_job_id a = Some r -> attempt_of r a.
Proof.
  intros Hwf Ha Hrun Hr. destruct (qw_attempts _ Hwf _ _ Ha) as (r' & Hr' & _ & _ & H).
  rewrite Hr in Hr'. injection Hr' as <-. by apply H.
Qed.

(** Preservation: the cases that touch one row and no attempt. *)
Lemma wf_update_row db db' id r r' :
  queue_wf db -> jobs db !! id = Some r -> jobs db' = <[id := r']> (jobs db) ->
  job_attempts db' = job_attempts db -> row_ok r' ->
  row_current_attempt r' = row_current_attempt r ->
  (row_state r = Running <-> row_state r' = Running) ->
  (row_state r = Running -> row_lease_id r' = row_lease_id r /\ row_lease_owner r' = row_lease_owner r) ->
  queue_wf db'.
Proof.
  intros Hwf Hr Hj Ha Hok Hcur Hst Hlease.
  assert (Hof : forall a, attempt_of r a -> attempt_of r' a).
  { intros a (H1 & H2 & H3 & H4). destruct (Hlease H1) as [H5 H6].
    split_and!; [by apply Hst|congruence..]. }
  split; rewrite ?Hj, ?Ha.
  - intros k x [[<- <-]|[_ Hx]]%lookup_insert_Some; [done|]. by eapply qw_rows.
  - intros i a Hi. destruct (qw_attempts _ Hwf _ _ Hi) as (x & Hx & Hn & Hg & Hrun).
    destruct (decide (att_job_id a = id)) as [Heq|Hne].
    + rewrite Heq in *. rewrite Hr in Hx. injection Hx as <-. exists r'. rewrite lookup_insert_eq.
      rewrite Hcur. naive_solver.
    + exists x. by rewrite lookup_insert_ne by done.
  - intros k x [[<- <-]|[_ Hx]]%lookup_insert_Some Hrun; [|by eapply qw_running].
    apply Hst in Hrun. destruct (qw_running _ Hwf _ _ Hr Hrun) as (i & a & H1 & H2 & H3 & H4).
    exists i, a. auto.
  - intros k x n [[<- <-]|[_ Hx]]%lookup_insert_Some Hn; [|by eapply qw_history].
    rewrite Hcur in Hn. by eapply qw_history.
  - apply (qw_unique _ Hwf).
  - apply (qw_leases _ Hwf).
Qed.

Lemma wf_elsewhere db db' :
  jobs db' = jobs db -> job_attempts db' = job_attempts db -> queue_wf db -> queue_wf db'.
Proof. intros Hj Ha [H1 H2 H3 H4 H5 H6]. by split; rewrite ?Hj, ?Ha. Qed.

Lemma wf_insert db db' id r :
  queue_wf db -> jobs db !! id = None -> fresh_row r ->
  jobs db' = <[id := r]> (jobs db) -> job_attempts db' = job_attempts db -> queue_wf db'.
Proof.
  intros Hwf Hid (Hst & Hcur & Hok) Hj Ha. split; rewrite ?Hj, ?Ha.
  - intros k x [[<- <-]|[_ Hx]]%lookup_insert_Some; [done|]. by eapply qw_rows.
  - intros i a Hi. destruct (qw_attempts _ Hwf _ _ Hi) as (x & Hx & H).
    exists x. rewrite lookup_insert_ne by (intros Heq; congruence). done.
  - intros k x [[<- <-]|[_ Hx]]%lookup_insert_Some Hrun; [congruence|by eapply qw_running].
  - intros k x n [[<- <-]|[_ Hx]]%lookup_insert_Some Hn; [lia|by eapply qw_history].
  - apply (qw_unique _ Hwf).
  - apply (qw_leases _ Hwf).
Qed.

Lemma leased_row_ok r lease :
  row_ok r -> row_state r = Queued -> lease_generation lease = row_current_attempt r + 1 ->
  lease_acquired_at lease <= lease_heartbeat_at lease <= lease_expires_at lease ->
  row_ok (leased_row_of (row_current_attempt r + 1) lease r).
Proof.
  intros [H1 H2 H3 H4 H5 H6 H7] Hq Hgen Htime. specialize (H6 Hq).
  split; simpl; try done; [lia|]. split; [lia|]. exists lease. destruct Htime. by split_and!.
Qed.

Lemma wf_lease db db' id r lease aid a :
  queue_wf db -> jobs db !! id = Some r -> row_state r = Queued ->
  lease_generation lease = row_current_attempt r + 1 ->
  lease_acquired_at lease <= lease_heartbeat_at lease <= lease_expires_at lease ->
  job_attempts db !! aid = None ->
  (forall i b, job_attempts db !! i = Some b -> att_lease_id b <> lease_id lease) ->
  a = {| att_job_id := id; att_number := row_current_attempt r + 1;
         att_lease_id := lease_id lease; att_lease_generation := lease_generation lease;
         att_worker_id := lease_owner lease; att_started_at := lease_acquired_at lease;
         att_finished_at := None; att_outcome := AttemptRunning; att_failure_code := None |} ->
  jobs db' = <[id := leased_row_of (row_current_attempt r + 1) lease r]> (jobs db) ->
  job_attempts db' = <[aid := a]> (job_attempts db) -> queue_wf db'.
Proof.
  intros Hwf Hr Hq Hgen Htime Haid Hfresh Ha Hj Hat.
  pose proof (qw_rows _ Hwf _ _ Hr) as Hok.
  assert (Hcur : 0 <= row_current_attempt r) by apply Hok.
  assert (Hnum : forall i b, job_attempts db !! i = Some b -> att_job_id b = id ->
    1 <= att_number b <= row_current_attempt r /\ att_outcome b <> AttemptRunning).
  { intros i b Hb Hid. destruct (qw_attempts _ Hwf _ _ Hb) as (x & Hx & Hn & _ & Hrun).
    rewrite Hid, Hr in Hx. injection Hx as <-. split; [done|]. intros [Hst _]%Hrun. congruence. }
  split; rewrite ?Hj, ?Hat.
  - intros k x [[<- <-]|[_ Hx]]%lookup_insert_Some; [by apply leased_row_ok|by eapply qw_rows].
  - intros i b [[<- <-]|[_ Hb]]%lookup_insert_Some.
    + rewrite Ha. simpl. eexists. rewrite lookup_insert_eq. split; [done|]. simpl.
      split; [lia|]. split; [done|]. intros _. by split_and!.
    + destruct (qw_attempts _ Hwf _ _ Hb) as (x & Hx & Hn & Hg & Hrun).
      destruct (decide (att_job_id b = id)) as [Heq|Hne].
      * eexists. rewrite Heq, lookup_insert_eq. split; [done|]. simpl.
        destruct (Hnum _ _ Hb Heq) as [Hn' Hnr]. split; [lia|]. by split.
      * exists x. by rewrite lookup_insert_ne by done.
  - intros k x [[<- <-]|[Hne Hx]]%lookup_insert_Some Hrun.
    + exists aid, a. rewrite lookup_insert_eq, Ha. split; [done|]. by split_and!.
    + destruct (qw_running _ Hwf _ _ Hx Hrun) as (i & b & Hb & H).
      exists i, b. rewrite lookup_insert_ne by (intros Heq; congruence). done.
  - intros k x n [[<- <-]|[Hne Hx]]%lookup_insert_Some Hn.
    + simpl in Hn. destruct (decide (n = row_current_attempt r + 1)) as [-> |Hlt].
      * exists aid, a. by rewrite lookup_insert_eq, Ha.
      * destruct (qw_history _ Hwf _ _ n Hr) as (i & b & Hb & H); [lia|].
        exists i, b. rewrite lookup_insert_ne by (intros Heq; congruence). done.
    + destruct (qw_history _ Hwf _ _ n Hx Hn) as (i & b & Hb & H).
      exists i, b. rewrite lookup_insert_ne by (intros Heq; congruence). done.
  - intros i k b c [[<- <-]|[_ Hb]]%lookup_insert_Some [[<- <-]|[_ Hc]]%lookup_insert_Some Hid Hn.
    + done.
    + rewrite Ha in Hid, Hn. simpl in *. destruct (Hnum _ _ Hc (eq_sym Hid)). lia.
    + rewrite Ha in Hid, Hn. simpl in *. destruct (Hnum _ _ Hb Hid). lia.
    + by eapply (qw_unique _ Hwf).
  - intros i k b c [[<- <-]|[_ Hb]]%lookup_insert_Some [[<- <-]|[_ Hc]]%lookup_insert_Some Hl.
    + done.
    + rewrite Ha in Hl. simpl in Hl. by destruct (Hfresh _ _ Hc).
    + rewrite Ha in Hl. simpl in Hl. by destruct (Hfresh _ _ Hb).
    + by eapply (qw_leases _ Hwf).
Qed.

Lemma released_row_ok r r' : row_ok r -> releases r r' -> row_ok r'.
Proof.
  intros [H1 H2 H3 H4 H5 H6 H7] (E1 & E2 & E3 & E4 & E5 & E6 & E7 & E8 & Hst & Hno & Hq).
  split; rewrite ?E1, ?E2, ?E5, ?E6, ?E7; try done. by rewrite decide_False.
Qed.

Lemma wf_release db db' id r r' aid a a' :
  queue_wf db -> jobs db !! id = Some r -> row_state r = Running -> releases r r' ->
  job_attempts db !! aid = Some a -> att_job_id a = id -> att_outcome a = AttemptRunning ->
  finishes a a' ->
  jobs db' = <[id := r']> (jobs db) -> job_attempts db' = <[aid := a']> (job_attempts db) ->
  queue_wf db'.
Proof.
  intros Hwf Hr Hst Hrel Ha Hid Hrun (now & outcome & failure & Hout & Ha') Hj Hat.
  pose proof Hrel as (E1 & E2 & E3 & E4 & E5 & E6 & E7 & E8 & Hst' & Hno & Hq).
  assert (Hsame : att_job_id a' = att_job_id a /\ att_number a' = att_number a /\
    att_lease_generation a' = att_lease_generation a /\ att_lease_id a' = att_lease_id a /\
    att_outcome a' <> AttemptRunning) by (subst a'; done).
  destruct Hsame as (S1 & S2 & S3 & S4 & S5).
  assert (Hone : forall i b, job_attempts db !! i = Some b -> att_job_id b = id ->
    att_outcome b = AttemptRunning -> i = aid).
  { intros i b Hb Hbid Hbrun. eapply (qw_unique _ Hwf); [done..|congruence|].
    destruct (attempt_running_lease _ _ _ r Hwf Hb Hbrun) as (_ & -> & _); [congruence|].
    by destruct (attempt_running_lease _ _ _ r Hwf Ha Hrun) as (_ & -> & _); [congruence|]. }
  split; rewrite ?Hj, ?Hat.
  - intros k x [[<- <-]|[_ Hx]]%lookup_insert_Some; [|by eapply qw_rows].
    eapply released_row_ok; [|done]. by eapply qw_rows.
  - intros i b [[<- <-]|[Hne Hb]]%lookup_insert_Some.
    + destruct (qw_attempts _ Hwf _ _ Ha) as (x & Hx & Hn & Hg & _).
      rewrite S1, S2, S3, Hid, lookup_insert_eq. exists r'. split; [done|].
      rewrite Hid, Hr in Hx. injection Hx as <-. rewrite E5. split; [done|]. split; [done|].
      by intros ?%S5.
    + destruct (qw_attempts _ Hwf _ _ Hb) as (x & Hx & Hn & Hg & Hbrun).
      destruct (decide (att_job_id b = id)) as [Heq|Hneq].
      * exists r'. rewrite Heq, lookup_insert_eq. split; [done|].
        rewrite Heq, Hr in Hx. injection Hx as <-. rewrite E5. split; [done|]. split; [done|].
        intros Hbr. by destruct Hne; rewrite (Hone _ _ Hb Heq Hbr).
      * exists x. by rewrite lookup_insert_ne by done.
  - intros k x [[<- <-]|[Hne Hx]]%lookup_insert_Some Hxrun; [done|].
    destruct (qw_running _ Hwf _ _ Hx Hxrun) as (i & b & Hb & Hbid & H).
    exists i, b. rewrite lookup_insert_ne; [done|]. intros <-. congruence.
  - intros k x n [[<- <-]|[Hne Hx]]%lookup_insert_Some Hn.
    + rewrite E5 in Hn. destruct (qw_history _ Hwf _ _ n Hr Hn) as (i & b & Hb & Hbid & Hbn).
      destruct (decide (i = aid)) as [-> |Hi].
      * exists aid, a'. rewrite lookup_insert_eq. split; [done|]. split; congruence.
      * exists i, b. by rewrite lookup_insert_ne by done.
    + destruct (qw_history _ Hwf _ _ n Hx Hn) as (i & b & Hb & Hbid & Hbn).
      exists i, b. rewrite lookup_insert_ne; [done|]. intros <-. congruence.
  - intros i k b c [[<- <-]|[_ Hb]]%lookup_insert_Some [[<- <-]|[_ Hc]]%lookup_insert_Some Hbc Hn; [done|..];
      (eapply (qw_unique _ Hwf); [done..|congruence|congruence]).
  - intros i k b c [[<- <-]|[_ Hb]]%lookup_insert_Some [[<- <-]|[_ Hc]]%lookup_insert_Some Hl; [done|..];
      (eapply (qw_leases _ Hwf); [done..|congruence]).
Qed.

Lemma wf_remove db db' id r :
  queue_wf db -> jobs db !! id = Some r -> row_current_attempt r = 0 ->
  jobs db' = delete id (jobs db) -> job_attempts db' = job_attempts db -> queue_wf db'.
Proof.
  intros Hwf Hr Hcur Hj Ha.
  split; rewrite ?Hj, ?Ha.
  - intros k x [_ Hx]%lookup_delete_Some. by eapply qw_rows.
  - intros i a Hi. destruct (qw_attempts _ Hwf _ _ Hi) as (x & Hx & Hn & H).
    exists x. rewrite lookup_delete_ne; [done|]. intros Heq. rewrite <- Heq, Hr in Hx.
    injection Hx as <-. lia.
  - intros k x [_ Hx]%lookup_delete_Some Hrun. by eapply qw_running.
  - intros k x n [_ Hx]%lookup_delete_Some Hn. by eapply qw_history.
  - apply (qw_unique _ Hwf).
  - apply (qw_leases _ Hwf).
Qed.

Lemma renewed_row_ok r now expires_at :
  row_ok r -> row_state r = Running ->
  (forall l, holds_lease r l -> lease_acquired_at l <= now <= expires_at) ->
  row_ok (renewed_row now expires_at r).
Proof.
  intros [H1 H2 H3 H4 H5 H6 H7] Hst Ht. split; simpl; try done.
  rewrite Hst in *. simpl in *. destruct H7 as [Hc [l Hl]]. split; [done|].
  specialize (Ht _ Hl). destruct Hl as (L1 & L2 & L3 & L4 & L5 & L6 & L7).
  exists {| lease_id := lease_id l; lease_owner := lease_owner l; lease_generation := lease_generation l;
    lease_acquired_at := lease_acquired_at l; lease_expires_at := expires_at; lease_heartbeat_at := now |}.
  destruct Ht. by split_and!.
Qed.

(** Every change keeps the invariant. *)
Lemma change_wf db db' : queue_wf db -> change db db' -> queue_wf db'.
Proof.
  intros Hwf. destruct 1 as [Hj Ha|id r Hid Hf _ Hj Ha|id r lease aid a Hr Hq Hg Ht Haid Hl Ha0 Hj Ha
    |id r now e Hr Hst Ht Hj Ha|id r r' aid a a' Hr Hst Hrel Ha0 Hid Hrun Hf Hj Ha
    |id r now Hr Hq Hj Ha|id r p s now Hr Hq Hp Hj Ha|id r Hr Hq Hc _ _ _ Hj Ha].
  - by eapply wf_elsewhere.
  - by eapply wf_insert.
  - by eapply wf_lease.
  - eapply wf_update_row; try done. apply renewed_row_ok; [by eapply qw_rows|done..].
  - by eapply wf_release.
  - pose proof (qw_rows _ Hwf _ _ Hr) as [H1 H2 H3 H4 H5 H6 H7]. rewrite Hq in H7. simpl in H7.
    eapply wf_update_row; try done. by rewrite Hq.
  - pose proof (qw_rows _ Hwf _ _ Hr) as [H1 H2 H3 H4 H5 H6 H7].
    eapply wf_update_row; try done.
  - by eapply wf_remove.
Qed.

Lemma changes_wf db db' : queue_wf db -> changes db db' -> queue_wf db'.
Proof. intros Hwf H. induction H; [done|]. eauto using change_wf. Qed.

(** ** Records *)

Definition row_lease (r : JobRow) : option JobLease :=
  id ← row_lease_id r; owner ← row_lease_owner r; acquired ← row_lease_acquired_at r;
  expires ← row_lease_expires_at r; beat ← row_heartbeat_at r;
  Some {| lease_id := id; lease_owner := owner; lease_generation := row_lease_generation r;
          lease_acquired_at := acquired; lease_expires_at := expires; lease_heartbeat_at := beat |}.

Definition record_of (id : string) (r : JobRow) : JobRecord :=
  {| job_id := id; job_kind := row_kind r; job_priority := row_priority r; job_state := row_state r;
     job_parent_job_id := row_parent_job_id r; job_crawl_run_id := row_crawl_run_id r;
     job_scheduled_at := row_scheduled_at r; job_current_attempt := row_current_attempt r;
     job_max_attempts := row_max_attempts r; job_lease_generation := row_lease_generation r;
     job_lease := row_lease r; job_failure_code := row_failure_code r;
     job_created_at := row_created_at r; job_updated_at := row_updated_at r |}.

Lemma holds_row_lease r l : holds_lease r l -> row_lease r = Some l.
Proof.
  intros (H1 & H2 & H3 & H4 & H5 & H6 & _). unfold row_lease.
  rewrite H1, H2, H3, H4, H5, H6. by destruct l.
Qed.

Lemma u32_below_u64 : u32_max < u64_max.
Proof. done. Qed.

Lemma lease_from_row_ok r : row_ok r -> lease_from_row r = Ok (row_lease r).
Proof.
  intros [_ _ Hmax Hcur Hgen _ Hl]. unfold lease_from_row. case_decide.
  - destruct Hl as [H1 [l Hl]]. rewrite (holds_row_lease _ _ Hl).
    destruct Hl as (E1 & E2 & E3 & E4 & E5 & E6 & _). rewrite E1, E2, E4, E5, E6. simpl.
    unfold positive_u64. pose proof u32_below_u64.
    assert ((1 <=? row_lease_generation r) && (row_lease_generation r <=? u64_max) = true) as ->
      by (apply andb_true_iff; rewrite !Z.leb_le; lia).
    rewrite E3. by destruct l.
  - destruct Hl as (E1 & _). unfold row_lease. by rewrite E1.
Qed.

Lemma job_from_row_ok id r : row_ok r -> job_from_row id r = Ok (record_of id r).
Proof.
  intros Hok. unfold job_from_row. rewrite (lease_from_row_ok _ Hok).
  destruct Hok as [Hkind Hpri Hmax Hcur Hgen _ _]. rewrite Hkind. pose proof u32_below_u64.
  unfold column_i32, positive_u32_or_zero, positive_u32, nonnegative_u64.
  assert ((- 2 ^ 31 <=? row_priority r) && (row_priority r <? 2 ^ 31) = true) as ->
    by (apply andb_true_iff; rewrite Z.leb_le, Z.ltb_lt; lia).
  assert ((0 <=? row_current_attempt r) && (row_current_attempt r <=? u32_max) = true) as ->
    by (apply andb_true_iff; rewrite !Z.leb_le; lia).
  assert ((1 <=? row_max_attempts r) && (row_max_attempts r <=? u32_max) = true) as ->
    by (apply andb_true_iff; rewrite !Z.leb_le; lia).
  assert ((0 <=? row_lease_generation r) && (row_lease_generation r <=? u64_max) = true) as ->
    by (apply andb_true_iff; rewrite !Z.leb_le; lia).
  done.
Qed.

Lemma job_ok db id :
  queue_wf db -> job id db = match jobs db !! id with
                             | Some r => Ok (record_of id r) | None => Err NotFound end.
Proof.
  intros Hwf. unfold job. destruct (jobs db !! id) as [r|] eqn:Hr; simpl; [|done].
  apply job_from_row_ok. by eapply qw_rows.
Qed.

Lemma select_job_inv id db j db' :
  queue_wf db -> select_job id db = Ok (j, db') ->
  exists r, jobs db !! id = Some r /\ j = record_of id r /\ db' = db.
Proof.
  intros Hwf H. unfold select_job in H. tx_step H. rewrite job_ok in Eof by done.
  destruct (jobs db !! id) as [r|]; [|done]. injection Eof as <-. by exists r.
Qed.

(** ** Statements *)

Lemma one_row_inv e t db u db' : one_row e t db = Ok (u, db') -> t db = Ok (1%nat, db').
Proof.
  intros H. unfold one_row in H. tx_step H. apply negb_false_iff, Nat.eqb_eq in Erej. by subst.
Qed.

Lemma update_jobs_one sets p f db db' :
  update_jobs sets p f db = Ok (1%nat, db') ->
  exists id r, selects p (jobs db) id r /\ jobs_check (f r) = true /\
    (sets = true -> legal_transition (row_state r) (row_state (f r)) = true) /\
    db' = with_jobs (<[id := f r]> (jobs db)) db.
Proof.
  unfold update_jobs. destruct (update_where _ _ _ _) as [[n t]|] eqn:Hu; [|done].
  intros [= -> <-]. apply update_where_one in Hu as (id & r & Hs & Hc & ->).
  exists id, r. split; [done|]. apply andb_true_iff in Hc as [Hc Hl]. split; [done|]. split; [|done].
  intros ->. done.
Qed.

Lemma update_attempts_one p f db db' :
  update_attempts p f db = Ok (1%nat, db') ->
  exists i a, selects p (job_attempts db) i a /\ attempts_check (f a) = true /\
    attempt_update_allowed a (f a) = true /\ db' = with_attempts (<[i := f a]> (job_attempts db)) db.
Proof.
  unfold update_attempts. destruct (update_where _ _ _ _) as [[n t]|] eqn:Hu; [|done].
  intros [= -> <-]. apply update_where_one in Hu as (i & a & Hs & Hc & ->).
  apply andb_true_iff in Hc as [Hc Hl]. by exists i, a.
Qed.

(** The attempt and the job that a lease closes together. *)
Definition closed (id : string) (lease : JobLease) (now : Z) (outcome : AttemptOutcome)
    (failure : option JobFailureCode) (f : JobRow -> JobRow) (db db' : Db) : Prop :=
  exists r i a, jobs db !! id = Some r /\ lease_holds lease (lease_generation lease) r = true /\
    job_attempts db !! i = Some a /\ att_job_id a = id /\ att_lease_id a = lease_id lease /\
    att_outcome a = AttemptRunning /\
    db' = with_jobs (<[id := f r]> (jobs db))
            (with_attempts (<[i := finished_attempt now outcome failure a]> (job_attempts db)) db).

Lemma i64_of_u64_ok g n : i64_of_u64 g = Ok n -> n = g.
Proof. unfold i64_of_u64. destruct (_ <=? _); naive_solver. Qed.

Lemma finish_attempt_inv id lease now outcome failure db u d :
  finish_attempt_in_transaction id lease now outcome failure db = Ok (u, d) ->
  outcome <> AttemptRunning /\
  exists i a, job_attempts db !! i = Some a /\ att_job_id a = id /\ att_lease_id a = lease_id lease /\
    att_outcome a = AttemptRunning /\
    d = with_attempts (<[i := finished_attempt now outcome failure a]> (job_attempts db)) db.
Proof.
  intros H. unfold finish_attempt_in_transaction in H. tx_step H.
  apply one_row_inv, update_attempts_one in H as (i & x & (Hi & Hp & _) & _ & Hal & ->).
  unfold attempt_update_allowed in Hal. boolify. split; [done|]. by exists i, x.
Qed.

Lemma lease_holds_running lease g r : lease_holds lease g r = true -> row_state r = Running.
Proof. unfold lease_holds. intros H. by boolify. Qed.

(** An update of the leased row, whatever else its [WHERE] asks for. *)
Lemma leased_update_inv id lease g q f db u db' :
  g = lease_generation lease ->
  one_row LeaseLost (update_jobs true (fun k r => String.eqb k id && (lease_holds lease g r && q r)) f) db
    = Ok (u, db') ->
  exists r, jobs db !! id = Some r /\ lease_holds lease (lease_generation lease) r = true /\ q r = true /\
    jobs_check (f r) = true /\ legal_transition Running (row_state (f r)) = true /\
    db' = with_jobs (<[id := f r]> (jobs db)) db.
Proof.
  intros -> (k & r & (Hk & Hp & _) & Hc & Hl & ->)%one_row_inv%update_jobs_one.
  boolify. subst k. exists r. split_and!; try done. specialize (Hl eq_refl).
  match goal with H : lease_holds _ _ r = true |- _ => by rewrite <- (lease_holds_running _ _ _ H) end.
Qed.

Lemma update_leased_inv id lease f db u db' :
  update_leased_job id lease f db = Ok (u, db') ->
  exists r, jobs db !! id = Some r /\ lease_holds lease (lease_generation lease) r = true /\
    jobs_check (f r) = true /\ legal_transition Running (row_state (f r)) = true /\
    db' = with_jobs (<[id := f r]> (jobs db)) db.
Proof.
  intros H. unfold update_leased_job in H. tx_step H. apply i64_of_u64_ok in Eof.
  apply one_row_inv, update_jobs_one in H as (k & r & (Hk & Hp & _) & Hc & Hl & ->).
  boolify. subst. exists r. split_and!; try done. specialize (Hl eq_refl).
  match goal with H : lease_holds _ _ r = true |- _ => by rewrite <- (lease_holds_running _ _ _ H) end.
Qed.

Lemma close_inv id lease now outcome failure f db u d u' db' :
  finish_attempt_in_transaction id lease now outcome failure db = Ok (u, d) ->
  update_leased_job id lease f d = Ok (u', db') ->
  outcome <> AttemptRunning /\ closed id lease now outcome failure f db db'.
Proof.
  intros [Ho (i & a & Hi & Hid & Hl & Hrun & ->)]%finish_attempt_inv
    (r & Hr & Hh & _ & _ & ->)%update_leased_inv.
  split; [done|]. exists r, i, a. by split_and!.
Qed.

Lemma closed_change id lease now outcome failure f db db' :
  closed id lease now outcome failure f db db' -> outcome <> AttemptRunning ->
  (forall r, jobs db !! id = Some r -> row_state r = Running -> releases r (f r)) -> change db db'.
Proof.
  intros (r & i & a & Hr & Hh & Ha & Hid & Hl & Hrun & ->) Ho Hrel.
  pose proof (lease_holds_running _ _ _ Hh) as Hst.
  eapply change_release; try done; [by apply Hrel|]. by exists now, outcome, failure.
Qed.

Lemma released_releases s scheduled failure now r :
  s <> Running -> (s = Queued -> row_current_attempt r < row_max_attempts r) ->
  releases r (released_row s scheduled failure now r).
Proof. intros Hs Hq. by split_and!. Qed.

Lemma closed_releases s failure now r :
  s <> Running -> s <> Queued -> releases r (closed_row s failure now r).
Proof. intros Hs Hq. apply released_releases; naive_solver. Qed.

(** ** Transactions as sequences of changes *)

Definition tx_changes {E A} (t : Tx E A) : Prop :=
  forall db a db', queue_wf db -> t db = Ok (a, db') -> changes db db'.

Lemma changes_refl db : changes db db.
Proof. apply rtc_refl. Qed.
Lemma changes_once db db' : change db db' -> changes db db'.
Proof. apply rtc_once. Qed.
Lemma changes_trans db1 db2 db3 : changes db1 db2 -> changes db2 db3 -> changes db1 db3.
Proof. intros H1 H2. by transitivity db2. Qed.
Lemma changes_elsewhere db db' :
  jobs db' = jobs db -> job_attempts db' = job_attempts db -> changes db db'.
Proof. intros Hj Ha. by apply changes_once, change_elsewhere. Qed.

Lemma tx_changes_bind {E A B} (t : Tx E A) (k : A -> Tx E B) :
  tx_changes t -> (forall a, tx_changes (k a)) -> tx_changes (tx_bind t k).
Proof.
  intros Ht Hk db b db' Hwf (a & d & H1 & H2)%tx_bind_ok.
  pose proof (Ht _ _ _ Hwf H1) as Hc. eapply changes_trans; [exact Hc|].
  eapply Hk, H2. by eapply changes_wf.
Qed.

Lemma tx_changes_map_err {E F A} (f : E -> F) (t : Tx E A) : tx_changes t -> tx_changes (tx_map_err f t).
Proof. intros Ht db a db' Hwf H%tx_map_err_ok. by eapply Ht. Qed.

Lemma tx_changes_none {E A} (t : Tx E A) :
  (forall db a db', t db = Ok (a, db') -> jobs db' = jobs db /\ job_attempts db' = job_attempts db) ->
  tx_changes t.
Proof. intros Ht db a db' Hwf [Hj Ha]%Ht. by apply changes_elsewhere. Qed.

Lemma tx_changes_ret {E A} (a : A) : tx_changes (E := E) (tx_ret a).
Proof. apply tx_changes_none. by intros db b db' [_ ->]%tx_ret_ok. Qed.
Lemma tx_changes_get {E} : tx_changes (E := E) tx_get.
Proof. apply tx_changes_none. by intros db b db' [_ ->]%tx_get_ok. Qed.
Lemma tx_changes_of {E A} (r : result E A) : tx_changes (tx_of r).
Proof. apply tx_changes_none. by intros db b db' [_ ->]%tx_of_ok. Qed.
Lemma tx_changes_reject {E} bad (e : E) : tx_changes (tx_reject bad e).
Proof. apply tx_changes_of. Qed.
Lemma tx_changes_fail {E A} (e : E) : tx_changes (A := A) (tx_fail e).
Proof. by intros db b db'. Qed.

Lemma tx_changes_fold {E A B} (f : B -> A -> Tx E B) l :
  (forall b a, tx_changes (f b a)) -> forall acc, tx_changes (tx_fold f l acc).
Proof.
  intros Hf. induction l as [|x l IH]; intros acc; [apply tx_changes_ret|].
  apply tx_changes_bind; [done|]. intros b. apply IH.
Qed.

Lemma tx_changes_select id : tx_changes (select_job id).
Proof.
  apply tx_changes_none. intros db a db' H. unfold select_job in H. by tx_step H.
Qed.

Lemma tx_changes_run_status id from s : tx_changes (update_run_status id from s).
Proof.
  apply tx_changes_none. intros db n db' [[_ (r & _ & _ & ->)]|(_ & -> & _)]%update_run_status_inv; done.
Qed.

Lemma tx_changes_draw `{U : UuidLib} {E} : tx_changes (E := E) draw_uuid.
Proof. apply tx_changes_none. unfold draw_uuid. by intros db a db' [= <- <-]. Qed.

#[export] Hint Resolve tx_changes_bind tx_changes_map_err tx_changes_ret tx_changes_get tx_changes_of
  tx_changes_reject tx_changes_fail tx_changes_fold tx_changes_select tx_changes_run_status
  tx_changes_draw : erabi.

Lemma transact_changes {E A} (t : Tx E A) db r db' :
  tx_changes t -> queue_wf db -> transact t db = (r, db') -> changes db db'.
Proof.
  unfold transact. intros Ht Hwf. destruct (t db) as [[a d]|] eqn:H; intros [= _ <-].
  - by eapply Ht.
  - apply changes_refl.
Qed.

Lemma insert_job_inv id r db u db' :
  insert_job id r db = Ok (u, db') ->
  jobs db !! id = None /\ jobs_check r = true /\ row_state r = Queued /\
  (forall p, row_parent_job_id r = Some p -> p = id \/ is_Some (jobs db !! p)) /\
  db' = with_jobs (<[id := r]> (jobs db)) db.
Proof.
  intros H. unfold insert_job in H. tx_step H.
  destruct (bool_decide (jobs db !! id = None)) eqn:H1; [|done].
  destruct (jobs_check r) eqn:H2; [|done].
  destruct (bool_decide (row_state r = Queued)) eqn:H3; [|done].
  simpl in H. destruct (match row_parent_job_id r with Some _ => _ | None => _ end) eqn:H4; [|done].
  simpl in H. destruct (match row_crawl_run_id r with Some _ => _ | None => _ end) eqn:H5; [|done].
  injection H as _ <-. boolify. split_and!; try done.
  intros p Hp. rewrite Hp in H4. apply orb_true_iff in H4 as [?%bool_decide_eq_true_1|?%bool_decide_eq_true_1];
    [by left|by right].
Qed.

(** What the types of [NewJob] guarantee; a job does not name itself as its parent. *)
Record new_job_ok (j : NewJob) : Prop := {
  njo_kind : job_kind_new (nj_kind j) = Ok (nj_kind j);
  njo_priority : - 2 ^ 31 <= nj_priority j < 2 ^ 31;
  njo_max : 0 <= nj_max_attempts j <= u32_max;
  njo_parent : nj_parent_job_id j <> Some (nj_id j)
}.

Lemma queued_row_fresh j parent run now :
  new_job_ok j -> jobs_check (queued_row j parent run now) = true ->
  fresh_row (queued_row j parent run now).
Proof.
  intros [Hk Hp Hm _] Hc. unfold jobs_check in Hc. simpl in Hc. boolify.
  split; [done|]. split; [done|]. split; simpl; try done; lia.
Qed.

Lemma insert_queued_changes j parent run now db u db' :
  new_job_ok j -> parent <> Some (nj_id j) ->
  insert_job (nj_id j) (queued_row j parent run now) db = Ok (u, db') -> changes db db'.
Proof.
  intros Hj Hparent (Hid & Hc & _ & Hpar & ->)%insert_job_inv. apply changes_once.
  eapply change_insert; try done; [by apply queued_row_fresh|].
  intros p Hp. simpl in Hp. destruct (Hpar p Hp) as [-> |]; [congruence|done].
Qed.

Section operations.
Context `{U : UuidLib} `{L : UrlLib} `{SD : SerdeLib}.

Lemma tx_changes_insert_run id status s serialized :
  tx_changes (insert_run_in_transaction id status s serialized).
Proof.
  apply tx_changes_none. intros db a db' H. unfold insert_run_in_transaction in H. tx_step H.
  apply insert_run_inv in Hs as [_ ->]. by apply insert_audit_inv in H as ->.
Qed.

Lemma tx_changes_transition id s : tx_changes (transition_execution_status_in_transaction id s).
Proof.
  apply tx_changes_none. intros db a db' H. unfold transition_execution_status_in_transaction in H.
  destruct (execution_sources s); [|done]. by apply transition_from_inv in H as (r & _ & _ & ->).
Qed.

Lemma tx_changes_progress event now : tx_changes (append_progress_in_transaction event now).
Proof.
  apply tx_changes_none. intros db a db' H. by apply append_inv in H as (_ & _ & _ & _ & _ & _ & ->).
Qed.

Lemma tx_changes_checkpoint id attempt lease c now :
  tx_changes (append_checkpoint_in_transaction id attempt lease c now).
Proof.
  apply tx_changes_none. intros db a db' H.
  by apply append_checkpoint_inv in H as (_ & n & text & _ & _ & _ & _ & ->).
Qed.

Hint Resolve tx_changes_insert_run tx_changes_transition tx_changes_progress : erabi.

Lemma tx_changes_finalize job now : tx_changes (finalize_crawl_failure_in_transaction job now).
Proof. unfold finalize_crawl_failure_in_transaction. auto 12 with erabi. Qed.

Lemma tx_changes_cancel_related run : tx_changes (cancel_related_run run).
Proof. destruct run; simpl; auto with erabi. Qed.

Lemma tx_changes_terminal_progress id terminal now :
  tx_changes (append_terminal_progress_if_missing_in_transaction id terminal now).
Proof.
  unfold append_terminal_progress_if_missing_in_transaction.
  apply tx_changes_bind; [auto with erabi|]. intros db.
  apply tx_changes_bind; [auto with erabi|]. intros n. repeat case_match; auto 10 with erabi.
Qed.

Hint Resolve tx_changes_finalize tx_changes_cancel_related : erabi.

(** The job and its attempt are closed together, whatever follows. *)
Lemma close_then_changes {B} id lease now outcome failure f (k : unit -> Tx JobRepositoryError B) db b db' :
  queue_wf db ->
  (forall r, jobs db !! id = Some r -> row_state r = Running -> releases r (f r)) ->
  (forall u, tx_changes (k u)) ->
  tx_bind (finish_attempt_in_transaction id lease now outcome failure)
    (fun _ => tx_bind (update_leased_job id lease f) k) db = Ok (b, db') ->
  changes db db'.
Proof.
  intros Hwf Hrel Hk H. tx_step H. destruct (close_inv _ _ _ _ _ _ _ _ _ _ _ Hs Hs0) as [Ho Hcl].
  pose proof (changes_once _ _ (closed_change _ _ _ _ _ _ _ _ Hcl Ho Hrel)) as Hc.
  eapply changes_trans; [exact Hc|]. eapply Hk, H. by eapply changes_wf.
Qed.

Lemma close_changes id lease now outcome failure f db u db' :
  (forall r, jobs db !! id = Some r -> row_state r = Running -> releases r (f r)) ->
  tx_bind (finish_attempt_in_transaction id lease now outcome failure)
    (fun _ => update_leased_job id lease f) db = Ok (u, db') ->
  changes db db'.
Proof.
  intros Hrel H. tx_step H. destruct (close_inv _ _ _ _ _ _ _ _ _ _ _ Hs H) as [Ho Hcl].
  by eapply changes_once, closed_change.
Qed.

Lemma terminal_outcome_state status s outcome failure progress :
  terminal_outcome status = Some (s, outcome, failure, progress) ->
  s <> Running /\ s <> Queued /\ outcome <> AttemptRunning.
Proof. destruct status; simpl; naive_solver. Qed.

Lemma tx_changes_reconcile id status now : tx_changes (reconcile_terminal_job_in_transaction id status now).
Proof.
  unfold reconcile_terminal_job_in_transaction.
  destruct (terminal_outcome status) as [[[[s outcome] failure] progress]|] eqn:Ht; [|auto with erabi].
  apply terminal_outcome_state in Ht as (Hs1 & Hs2 & _).
  apply tx_changes_bind; [auto with erabi|]. intros j.
  apply tx_changes_bind; [|auto with erabi]. destruct (job_state j); auto with erabi.
  apply tx_changes_bind; [auto with erabi|]. intros lease db u db' Hwf H.
  eapply close_changes; [|exact H]. intros r _ _. by apply closed_releases.
Qed.

Lemma tx_changes_finish_after id lease run now :
  tx_changes (finish_after_terminal_crawl_run id lease run now).
Proof.
  unfold finish_after_terminal_crawl_run. apply tx_changes_bind; [auto with erabi|]. intros db.
  destruct (select_crawl_run_status run db); [apply tx_changes_reconcile|auto with erabi].
Qed.

(** An inconclusive run leaves the transaction where it was. *)
Lemma finish_after_none id lease run now db d :
  finish_after_terminal_crawl_run id lease run now db = Ok (None, d) -> d = db.
Proof.
  unfold finish_after_terminal_crawl_run. intros H. tx_step H.
  destruct (select_crawl_run_status run db) as [st|]; [|by apply tx_ret_ok in H as [_ ->]].
  unfold reconcile_terminal_job_in_transaction in H.
  destruct (terminal_outcome st) as [[[[s o] f] p]|]; [|by apply tx_ret_ok in H as [_ ->]].
  apply tx_bind_ok in H as (j0 & d0 & Hj0 & H). apply tx_bind_ok in H as (u0 & d1 & _ & H).
  by apply tx_ret_ok in H as [? _].
Qed.

(** The state a stale job goes to. *)
Definition stale_next (d : option CheckpointEnvelopeDisposition) (r : JobRow) : JobState :=
  if allows_recovery d && (row_current_attempt r <? row_max_attempts r) then Queued else Failed.

Lemma stale_next_releases d now r :
  releases r (released_row (stale_next d r) now (Some LeaseExpiredCode) now r).
Proof.
  unfold stale_next. apply released_releases.
  - by destruct (_ && _).
  - destruct (_ && _) eqn:Hb; [|done]. intros _. by boolify.
Qed.

(** The job of an expired lease: nothing to do, closed by its run, or released. *)
Inductive recovered (now : Z) (id : string) (r : JobRow) (db db' : Db) : Prop :=
| recovered_live lease :
    row_lease r = Some lease -> now < lease_expires_at lease -> db' = db -> recovered now id r db db'
| recovered_by_run lease run rec :
    row_crawl_run_id r = Some run ->
    finish_after_terminal_crawl_run id lease run now db = Ok (Some rec, db') ->
    recovered now id r db db'
| recovered_released lease d mid :
    stale_disposition (record_of id r) db = Ok d ->
    closed id lease now AttemptLeaseExpired (Some LeaseExpiredCode)
      (released_row (stale_next d r) now (Some LeaseExpiredCode) now) db mid ->
    (if bool_decide (stale_next d r = Failed) && bool_decide (is_Some (row_crawl_run_id r))
     then finalize_crawl_failure_in_transaction (record_of id r) now else tx_ret tt) mid = Ok (tt, db') ->
    recovered now id r db db'.

Lemma recover_one_inv now acc id db b db' :
  queue_wf db -> recover_one now acc id db = Ok (b, db') ->
  exists r, jobs db !! id = Some r /\ recovered now id r db db'.
Proof.
  intros Hwf H. unfold recover_one in H. apply tx_bind_ok in H as (j & d & Hsel & H).
  destruct (select_job_inv _ _ _ _ Hwf Hsel) as (r & Hr & -> & ->). exists r. split; [done|].
  apply tx_bind_ok in H as (lease & d & Hl & H). apply tx_of_ok in Hl as [Hl ->].
  destruct (now <? lease_expires_at lease) eqn:Hlive.
  { apply tx_ret_ok in H as [_ ->]. boolify. eapply recovered_live; [|done|done].
    simpl in Hl. by destruct (row_lease r); [injection Hl as ->|]. }
  apply tx_bind_ok in H as (reconciled & d & Hrec & H). destruct reconciled as [rec|].
  { apply tx_ret_ok in H as [_ ->]. simpl in Hrec.
    destruct (row_crawl_run_id r) as [run|] eqn:Hrun; [by eapply recovered_by_run|].
    by apply tx_ret_ok in Hrec as [? _]. }
  assert (d = db) as ->.
  { destruct (job_crawl_run_id (record_of id r)); [by eapply finish_after_none|].
    by apply tx_ret_ok in Hrec as [_ ->]. }
  apply tx_bind_ok in H as (d0 & d1 & Hg & H). apply tx_get_ok in Hg as [-> ->].
  apply tx_bind_ok in H as (disposition & d1 & Hd & H). apply tx_of_ok in Hd as [Hd ->].
  cbv zeta in H. apply tx_bind_ok in H as (u1 & d1 & Hfin & H).
  apply tx_bind_ok in H as (g & d2 & Hg & H). apply tx_of_ok in Hg as [Hg%i64_of_u64_ok ->].
  apply tx_bind_ok in H as (u2 & mid & Hupd & H). apply tx_bind_ok in H as ([] & d3 & Htail & H).
  apply tx_ret_ok in H as [_ ->].
  apply finish_attempt_inv in Hfin as [Ho (i & a & Hi & Hid & Hla & Hrun & ->)].
  apply leased_update_inv in Hupd as (r' & Hr' & Hh & _ & _ & _ & ->); [|done].
  eapply recovered_released; [exact Hd| |exact Htail]. by exists r', i, a.
Qed.

Lemma tx_changes_recover_one now acc id : tx_changes (recover_one now acc id).
Proof.
  intros db b db' Hwf H. destruct (recover_one_inv _ _ _ _ _ _ Hwf H) as (r & Hr & Hrec).
  destruct Hrec as [l _ _ -> | l run rec _ Hf | l d mid _ Hcl Htail].
  - apply changes_refl.
  - by eapply tx_changes_finish_after.
  - assert (Hc : changes db mid).
    { eapply changes_once, closed_change; [exact Hcl|done|]. intros x Hx _.
      rewrite Hr in Hx. injection Hx as <-. apply stale_next_releases. }
    eapply changes_trans; [exact Hc|]. apply (changes_wf _ _ Hwf) in Hc.
    destruct (_ && _); [by eapply tx_changes_finalize|by eapply tx_changes_ret].
Qed.

Lemma tx_changes_recover now : tx_changes (recover_expired_in_transaction now).
Proof.
  unfold recover_expired_in_transaction. apply tx_changes_bind; [auto with erabi|]. intros db.
  apply tx_changes_fold. intros acc id. apply tx_changes_recover_one.
Qed.
(** *** Leasing *)

(** [id] is leased to [worker_id], and nothing else changes. *)
Record leased (id worker_id : string) (now duration : Z) (r : JobRow) (lease : JobLease)
    (db db' : Db) : Prop := {
  ld_row : jobs db !! id = Some r;
  ld_queued : row_state r = Queued;
  ld_due : row_scheduled_at r <= now;
  ld_budget : row_current_attempt r < row_max_attempts r;
  ld_generation : lease_generation lease = row_current_attempt r + 1;
  ld_owner : lease_owner lease = worker_id;
  ld_acquired : lease_acquired_at lease = now;
  ld_heartbeat : lease_heartbeat_at lease = now;
  ld_expires : lease_expires_at lease = now + duration;
  ld_new : forall i b, job_attempts db !! i = Some b -> att_lease_id b <> lease_id lease;
  ld_jobs : jobs db' = <[id := leased_row_of (row_current_attempt r + 1) lease r]> (jobs db);
  ld_attempts : exists aid, job_attempts db !! aid = None /\ job_attempts db' =
    <[aid := {| att_job_id := id; att_number := row_current_attempt r + 1;
                att_lease_id := lease_id lease; att_lease_generation := lease_generation lease;
                att_worker_id := worker_id; att_started_at := now; att_finished_at := None;
                att_outcome := AttemptRunning; att_failure_code := None |}]> (job_attempts db)
}.

Lemma leased_change id w now duration r lease db db' :
  0 <= duration -> leased id w now duration r lease db db' -> change db db'.
Proof.
  intros Hd [H1 H2 H3 H4 H5 H6 H7 H8 H9 H10 H11 (aid & H12 & H13)].
  eapply change_lease; try done; [lia|]. by rewrite H6, H7.
Qed.

Lemma insert_attempt_inv aid a db u db' :
  insert_attempt aid a db = Ok (u, db') ->
  job_attempts db !! aid = None /\
  (forall i b, job_attempts db !! i = Some b -> att_lease_id b <> att_lease_id a) /\
  db' = with_attempts (<[aid := a]> (job_attempts db)) db.
Proof.
  unfold insert_attempt. destruct (_ && _) eqn:H; [|done]. intros [= _ <-].
  apply andb_true_iff in H as [H Hl]. apply negb_true_iff in Hl.
  rewrite exists_where_false in Hl. boolify. split; [done|]. split; [|done].
  intros i b Hb%Hl. by apply String.eqb_neq in Hb.
Qed.

Lemma saturating_one n max : n < max -> max <= u32_max -> saturating_add u32_max n 1 = n + 1.
Proof. unfold saturating_add. lia. Qed.
Lemma saturating_one_u64 n max : n < max -> max <= u32_max -> saturating_add u64_max n 1 = n + 1.
Proof. unfold saturating_add. pose proof u32_below_u64. lia. Qed.

Lemma checked_expiry a b e :
  ok_or QueueInvariant (i64_checked_add a b) = Ok e -> e = a + b.
Proof. unfold i64_checked_add. by case_match; intros [= <-]. Qed.

Lemma lease_queued_inv id w now duration heavy db acquired db' :
  queue_wf db -> 0 < duration -> lease_queued_job id w now duration heavy db = Ok (acquired, db') ->
  exists r lease, leased id w now duration r lease db db' /\
    (heavy = true \/ row_crawl_run_id r = None) /\
    acquired_job acquired = record_of id (leased_row_of (row_current_attempt r + 1) lease r).
Proof.
  intros Hwf Hdur H. unfold lease_queued_job in H. apply tx_bind_ok in H as (j & d & Hsel & H).
  destruct (select_job_inv _ _ _ _ Hwf Hsel) as (r & Hr & -> & ->). clear Hsel.
  pose proof (qw_rows _ Hwf _ _ Hr) as Hok.
  apply tx_bind_ok in H as (u1 & d & [Hb1 ->]%tx_reject_ok & H).
  apply tx_bind_ok in H as (u2 & d & [Hb2 ->]%tx_reject_ok & H).
  apply tx_bind_ok in H as (u & d & Hu & H). injection Hu as <- <-.
  cbv zeta in H.
  apply tx_bind_ok in H as (e & d & [He ->]%tx_of_ok & H).
  apply tx_bind_ok in H as (g & d & [Hg ->]%tx_of_ok & H). apply i64_of_u64_ok in Hg as ->.
  simpl in *. boolify.
  match goal with H : row_state r = Queued |- _ => pose proof (ro_queued _ Hok H) as Hcur end.
  rewrite (ro_generation _ Hok), (saturating_one _ _ Hcur), (saturating_one_u64 _ _ Hcur) in H
    by (destruct Hok; lia).
  set (lease := {| lease_id := _; lease_owner := w; lease_generation := _; lease_acquired_at := now;
    lease_expires_at := e; lease_heartbeat_at := now |}) in H.
  apply tx_bind_ok in H as (u3 & d & Hupd & H).
  apply one_row_inv, update_jobs_one in Hupd as (k & x & (Hk & Hp & _) & _ & _ & ->).
  boolify. subst k. simpl in Hk. rewrite Hr in Hk. injection Hk as <-.
  apply tx_bind_ok in H as (u & d & Hu & H). injection Hu as <- <-.
  apply tx_bind_ok in H as (u4 & d & Hins & H). apply tx_map_err_ok in Hins.
  apply insert_attempt_inv in Hins as (Haid & Hnew & ->).
  apply tx_bind_ok in H as (j & d & Hsel & H). apply tx_ret_ok in H as [-> ->].
  apply checked_expiry in He as ->.
  assert (Hlease : row_ok (leased_row_of (row_current_attempt r + 1) lease r)).
  { apply leased_row_ok; simpl; [done..|lia]. }
  unfold select_job, job in Hsel. tx_step Hsel. simpl in Eof. rewrite lookup_insert_eq in Eof. simpl in Eof.
  rewrite (job_from_row_ok _ _ Hlease) in Eof. injection Eof as <-.
  exists r, lease. split; [|split; [|done]].
  - split; try done. eexists. split; [exact Haid|done].
  - destruct heavy; [by left|right]. simpl in Hb2. apply bool_decide_eq_false_1 in Hb2.
    unfold storage_class in Hb2. simpl in Hb2. by destruct (row_crawl_run_id r).
Qed.
(** *** Operations *)

(** An operation that is a sequence of changes, whatever it answers. *)
Definition op_changes {A} (op : Db -> A * Db) : Prop :=
  forall db a db', queue_wf db -> op db = (a, db') -> changes db db'.

Lemma op_transact {E A} (t : Tx E A) : tx_changes t -> op_changes (transact t).
Proof. intros Ht db r db' Hwf H. by eapply transact_changes. Qed.

Lemma op_here {E A} (e : E) : op_changes (fun db => (Err (A := A) e, db)).
Proof. intros db r db' _ [= _ <-]. apply changes_refl. Qed.

Lemma enqueue_changes j now : new_job_ok j -> op_changes (enqueue j now).
Proof.
  intros Hj. apply op_transact, tx_changes_map_err. intros db u db' _ H.
  eapply insert_queued_changes, H; [done|apply Hj].
Qed.

Lemma tx_changes_create s j now : new_job_ok j -> tx_changes (create_run_with_root_job s j now).
Proof.
  intros Hj. unfold create_run_with_root_job. apply tx_changes_bind; [auto with erabi|]. intros drawn.
  cbv zeta. apply tx_changes_bind; [auto with erabi|]. intros _.
  apply tx_changes_bind; [|auto with erabi]. apply tx_changes_map_err. intros db u db' _ H.
  by eapply insert_queued_changes, H.
Qed.

Lemma create_quick_scrape_changes s j now :
  new_job_ok j -> op_changes (create_quick_scrape_run_with_root_job s j now).
Proof.
  intros Hj db r db' Hwf. unfold create_quick_scrape_run_with_root_job.
  repeat case_match;
    first [by apply op_here|by apply op_transact; [apply tx_changes_create|]].
Qed.

Lemma create_production_changes s j now :
  new_job_ok j -> op_changes (create_production_run_with_root_job s j now).
Proof.
  intros Hj db r db' Hwf. unfold create_production_run_with_root_job.
  repeat case_match;
    first [by apply op_here|by apply op_transact; [apply tx_changes_create|]].
Qed.

Lemma acquire_changes w now duration heavy :
  op_changes (acquire_next_with_storage_admission w now duration heavy).
Proof.
  intros db r db' Hwf. unfold acquire_next_with_storage_admission.
  destruct (negb (valid_worker_id w) || (duration <=? 0)) eqn:Hv; [by apply op_here|]. boolify.
  apply op_transact; [|done].
  apply tx_changes_bind; [auto with erabi|]. intros db0.
  apply tx_changes_bind; [auto with erabi|]. intros _.
  apply tx_changes_bind; [apply tx_changes_recover|]. intros _.
  apply tx_changes_bind; [auto with erabi|]. intros db1.
  destruct (select_eligible_job now heavy db1) as [id|]; [|auto with erabi].
  apply tx_changes_bind; [|auto with erabi]. intros d a d' Hwf' Hlq.
  apply lease_queued_inv in Hlq as (x & lease & Hl & _); [|done|lia].
  eapply changes_once, leased_change, Hl. lia.
Qed.

(** An update by primary key changes the row, or nothing. *)
Lemma update_jobs_key sets id q f db n db' :
  update_jobs sets (fun k r => String.eqb k id && q r) f db = Ok (n, db') ->
  (n = 1%nat /\ exists r, jobs db !! id = Some r /\ q r = true /\ jobs_check (f r) = true /\
     (sets = true -> legal_transition (row_state r) (row_state (f r)) = true) /\
     db' = with_jobs (<[id := f r]> (jobs db)) db) \/
  (n = 0%nat /\ (forall r, jobs db !! id = Some r -> q r = false) /\ db' = db).
Proof.
  intros H. unfold update_jobs in H.
  destruct (jobs db !! id) as [r|] eqn:Hr; [destruct (q r) eqn:Hq|].
  - rewrite (update_where_selects _ _ _ _ _ _ (selects_key q _ _ _ Hr Hq)) in H.
    destruct (jobs_check (f r)) eqn:Hc; [|done]. destruct (negb sets || _) eqn:Hl; [|done].
    injection H as <- <-. left. split; [done|]. exists r. split_and!; try done. by intros ->.
  - rewrite update_where_none in H.
    + injection H as <- <-. right. split_and!; [done|naive_solver|by destruct db].
    + intros k x Hk. destruct (String.eqb k id) eqn:He; [|done]. boolify. subst k.
      rewrite Hr in Hk. by injection Hk as <-.
  - rewrite update_where_none in H.
    + injection H as <- <-. right. split_and!; [done|naive_solver|by destruct db].
    + intros k x Hk. destruct (String.eqb k id) eqn:He; [|done]. boolify. congruence.
Qed.

Lemma heartbeat_changes id lease now duration : op_changes (heartbeat id lease now duration).
Proof.
  intros db r db' Hwf. unfold heartbeat. destruct (duration <=? 0) eqn:Hd; [by apply op_here|].
  destruct (i64_checked_add now duration) as [e|] eqn:He; [|by apply op_here].
  set (update := tx_bind _ _). assert (Hu : tx_changes update).
  { apply tx_changes_bind; [auto with erabi|]. intros g d n d' Hwf' Hupd%tx_map_err_ok.
    apply update_jobs_key in Hupd as [(-> & x & Hx & Hq & Hc & _ & ->)|(_ & _ & ->)];
      [|apply changes_refl].
    boolify. apply changes_once. eapply change_renew; [exact Hx|by eapply lease_holds_running| |done..].
    intros l (L1 & L2 & L3 & L4 & L5 & L6 & L7). unfold jobs_check in Hc. simpl in Hc. boolify.
    rewrite L4 in *. simpl in *. boolify. lia. }
  destruct (transact update db) as [[n|err] d] eqn:Ht; apply (transact_changes _ _ _ _ Hu Hwf) in Ht;
    [case_match|]; by intros [= _ <-].
Qed.

Lemma tx_changes_owned id lease now : tx_changes (select_owned_running_job id lease now).
Proof. unfold select_owned_running_job. auto with erabi. Qed.
Hint Resolve tx_changes_owned : erabi.

Lemma finish_changes id lease now outcome failure : op_changes (finish id lease now outcome failure).
Proof.
  apply op_transact. apply tx_changes_bind; [auto with erabi|]. intros j db u db' Hwf H.
  eapply close_changes, H. intros r _ _. by apply closed_releases.
Qed.

Lemma select_owned_inv id lease now db j db' :
  queue_wf db -> select_owned_running_job id lease now db = Ok (j, db') ->
  db' = db /\ exists r, jobs db !! id = Some r /\ j = record_of id r /\ row_state r = Running /\
    row_lease r = Some lease /\ now < lease_expires_at lease.
Proof.
  intros Hwf H. unfold select_owned_running_job in H. tx_step H. boolify.
  destruct (select_job_inv _ _ _ _ Hwf Hs) as (r & Hr & -> & ->). split; [done|]. by exists r.
Qed.

Lemma fail_disposition_changes id lease now failure retry_at terminal :
  op_changes (fail_with_disposition id lease now failure retry_at terminal).
Proof.
  apply op_transact. intros db s db' Hwf H. apply tx_bind_ok in H as (j & d & Hj & H).
  destruct (select_owned_inv _ _ _ _ _ _ Hwf Hj) as (-> & r & Hr & -> & Hst & _).
  cbv zeta in H. eapply close_then_changes; [exact Hwf| | |exact H]; [|intros ?; cbv beta; auto with erabi].
  intros x Hx _. rewrite Hr in Hx. injection Hx as <-. simpl. apply released_releases.
  - by destruct (negb terminal && _).
  - destruct (negb terminal && _) eqn:Hb; [|done]. by boolify.
Qed.

Lemma fail_changes id lease now failure retry_at : op_changes (fail id lease now failure retry_at).
Proof. apply fail_disposition_changes. Qed.

Lemma fail_terminal_changes id lease now failure : op_changes (fail_terminal id lease now failure).
Proof.
  intros db r db' Hwf. unfold fail_terminal.
  destruct (fail_with_disposition _ _ _ _ _ _ _) as [[s|e] d] eqn:H;
    apply (fail_disposition_changes _ _ _ _ _ _ _ _ _ Hwf) in H; [destruct s|]; by intros [= _ <-].
Qed.

Lemma fail_terminal_production_changes id lease now failure :
  op_changes (fail_terminal_production id lease now failure).
Proof.
  apply op_transact. apply tx_changes_bind; [auto with erabi|]. intros j.
  apply tx_changes_bind; [auto with erabi|]. intros db0.
  apply tx_changes_bind.
  { destruct (String.eqb _ _); [auto with erabi|].
    apply tx_changes_bind; [auto with erabi|]. intros run.
    apply tx_changes_bind; auto with erabi. }
  intros _ db u db' Hwf H. eapply close_then_changes; [exact Hwf| | |exact H]; [|intros ?; cbv beta; auto with erabi].
  intros r _ _. by apply released_releases.
Qed.

Lemma cancel_changes id lease now : op_changes (cancel id lease now).
Proof.
  apply op_transact. apply tx_changes_bind; [auto with erabi|]. intros j.
  apply tx_changes_bind; [auto with erabi|]. intros d0.
  destruct (cancel_outcome _) as [[[outcome s] failure]|] eqn:Ho; intros db u db' Hwf H.
  - eapply close_changes, H. intros r _ _.
    unfold cancel_outcome in Ho. repeat case_match; simplify_eq; by apply closed_releases.
  - eapply close_then_changes; [exact Hwf| | |exact H]; [|intros ?; cbv beta; auto with erabi].
    intros r _ _. by apply closed_releases.
Qed.

Lemma append_terminal_changes id terminal now :
  op_changes (append_terminal_progress_if_missing id terminal now).
Proof. apply op_transact, tx_changes_terminal_progress. Qed.

Lemma tx_changes_requeue id lease now : tx_changes (requeue_in_transaction id lease now).
Proof.
  intros db b db' Hwf H. unfold requeue_in_transaction in H. apply tx_bind_ok in H as (j & d & Hj & H).
  destruct (select_owned_inv _ _ _ _ _ _ Hwf Hj) as (-> & r & Hr & -> & Hst & _).
  apply tx_bind_ok in H as (reconciled & d & Hrec & H). destruct reconciled as [rec|].
  { apply tx_ret_ok in H as [_ ->]. simpl in Hrec. destruct (row_crawl_run_id r) as [run|].
    - by eapply tx_changes_finish_after.
    - by apply tx_ret_ok in Hrec as [? _]. }
  assert (d = db) as ->.
  { simpl in Hrec. destruct (row_crawl_run_id r); [by eapply finish_after_none|].
    by apply tx_ret_ok in Hrec as [_ ->]. }
  apply tx_bind_ok in H as (d0 & d1 & Hg & H). apply tx_get_ok in Hg as [-> ->].
  apply tx_bind_ok in H as (ckpt & d1 & Hd & H). apply tx_of_ok in Hd as [Hd ->]. cbv zeta in H.
  eapply close_then_changes; [exact Hwf| | |exact H].
  - intros x Hx _. rewrite Hr in Hx. injection Hx as <-. simpl. apply released_releases.
    + by destruct (ckpt && _).
    + destruct (ckpt && _) eqn:Hb; [|done]. by boolify.
  - intros ?. cbv beta. apply tx_changes_bind; [|auto with erabi].
    destruct (ckpt && _); simpl; destruct (bool_decide (is_Some _)); simpl; auto with erabi.
Qed.

Lemma requeue_changes id lease now : op_changes (requeue_after_storage_pressure id lease now).
Proof.
  intros db r db' Hwf. unfold requeue_after_storage_pressure.
  destruct (transact _ db) as [[[[rec|] s]|e] d] eqn:H;
    apply (transact_changes _ _ _ _ (tx_changes_requeue _ _ _) Hwf) in H; [|by intros [= _ <-]..].
  destruct (append_terminal_progress_if_missing _ _ _ d) as [[u|e] d'] eqn:H';
    apply (append_terminal_changes _ _ _ _ _ _ (changes_wf _ _ Hwf H)) in H'; intros [= _ <-];
    by eapply changes_trans.
Qed.

Lemma tx_changes_reconcile_all now : tx_changes (reconcile_all_in_transaction now).
Proof.
  unfold reconcile_all_in_transaction. apply tx_changes_bind; [auto with erabi|]. intros db.
  apply tx_changes_fold. intros acc e. apply tx_changes_bind; [apply tx_changes_reconcile|].
  intros ?. cbv beta. apply tx_changes_ret.
Qed.

Lemma repair_changes repairs now : op_changes (repair_progress repairs now).
Proof.
  induction repairs as [|[id terminal] repairs IH]; intros db r db' Hwf; simpl.
  { intros [= _ <-]. apply changes_refl. }
  destruct (append_terminal_progress_if_missing id terminal now db) as [[u|e] d] eqn:H;
    apply (append_terminal_changes _ _ _ _ _ _ Hwf) in H.
  - intros Hr. eapply changes_trans; [exact H|]. eapply IH, Hr. by eapply changes_wf.
  - by intros [= _ <-].
Qed.

Lemma reconcile_runs_changes now : op_changes (reconcile_terminal_crawl_runs now).
Proof.
  intros db r db' Hwf. unfold reconcile_terminal_crawl_runs.
  destruct (transact _ db) as [[repairs|e] d] eqn:H;
    apply (transact_changes _ _ _ _ (tx_changes_reconcile_all now) Hwf) in H; [|by intros [= _ <-]].
  intros Hr. eapply changes_trans; [exact H|]. eapply repair_changes, Hr. by eapply changes_wf.
Qed.

Lemma reconcile_run_changes id lease run now :
  op_changes (reconcile_terminal_crawl_run id lease run now).
Proof.
  apply op_transact. repeat (apply tx_changes_bind; [auto using tx_changes_reconcile with erabi|];
    let x := fresh in intros x). auto with erabi.
Qed.

Lemma recover_changes now : op_changes (recover_stale_jobs now).
Proof.
  intros db r db' Hwf. unfold recover_stale_jobs. set (t := tx_bind _ _).
  assert (Ht : tx_changes t).
  { apply tx_changes_bind; [auto with erabi|]. intros db0. apply tx_changes_bind; [auto with erabi|].
    intros _. apply tx_changes_recover. }
  destruct (transact t db) as [[recovery|e] d] eqn:H; apply (transact_changes _ _ _ _ Ht Hwf) in H;
    [|by intros [= _ <-]].
  destruct (reconcile_terminal_crawl_runs now d) as [[u|e] d'] eqn:H';
    apply (reconcile_runs_changes _ _ _ _ (changes_wf _ _ Hwf H)) in H'; intros [= _ <-];
    by eapply changes_trans.
Qed.

Lemma cancel_queued_changes id now : op_changes (cancel_queued id now).
Proof.
  apply op_transact. apply tx_changes_bind; [auto with erabi|]. intros j.
  destruct (bool_decide _); [|auto with erabi].
  apply tx_changes_bind; [|intros ?; apply tx_changes_bind; auto with erabi].
  intros db u db' Hwf H. apply one_row_inv, update_jobs_key in H as [(_ & r & Hr & Hq & _ & _ & ->)|(? & _)]; [|done].
  boolify. by eapply changes_once, change_cancel.
Qed.

Lemma reprioritize_changes id priority scheduled_at now :
  - 2 ^ 31 <= priority < 2 ^ 31 -> op_changes (reprioritize id priority scheduled_at now).
Proof.
  intros Hp db r db' Hwf. unfold reprioritize. set (t := tx_map_err _ _).
  assert (Ht : tx_changes t).
  { intros d n d' Hwf' Hupd%tx_map_err_ok.
    apply update_jobs_key in Hupd as [(-> & x & Hx & Hq & _ & _ & ->)|(_ & _ & ->)];
      [|apply changes_refl].
    boolify. by eapply changes_once, change_reprioritize. }
  destruct (transact t db) as [[n|e] d] eqn:H; apply (transact_changes _ _ _ _ Ht Hwf) in H;
    [|by intros [= _ <-]].
  repeat case_match; by intros [= _ <-].
Qed.

Lemma delete_jobs_key id q r db n db' :
  jobs db !! id = Some r ->
  delete_jobs (fun k x => String.eqb k id && q x) db = Ok (n, db') ->
  (n = 1%nat -> q r = true) /\
  (q r = true -> jobs db' = delete id (jobs db) /\ job_attempts db' = job_attempts db).
Proof.
  intros Hr H. unfold delete_jobs in H. case_match; [done|]. injection H as <- <-.
  destruct (q r) eqn:Hq; simpl.
  - split; [done|]. intros _. split; [|done]. apply map_eq. intros k. apply option_eq. intros x.
    rewrite map_lookup_filter_Some, lookup_delete_Some. simpl. split.
    + intros [Hk Hne]. split; [|done]. intros <-. rewrite String.eqb_refl in Hne.
      rewrite Hr in Hk. injection Hk as <-. by rewrite Hq in Hne.
    + intros [Hne Hk]. split; [done|]. destruct (String.eqb k id) eqn:He; [|done]. by boolify.
  - split; [|done]. intros Hone.
    assert (matching (fun k x => String.eqb k id && q x) (jobs db) = ∅) as Hm.
    { apply map_eq. intros k. rewrite lookup_empty. apply eq_None_not_Some. intros [x Hx].
      apply matching_lookup in Hx as [Hk Hp]. boolify. subst k. rewrite Hr in Hk. injection Hk as <-. congruence. }
    by rewrite Hm, map_size_empty in Hone.
Qed.

Lemma remove_changes id : op_changes (remove_if_safe id).
Proof.
  apply op_transact. intros db u db' Hwf H. unfold remove_if_safe in H.
  apply tx_bind_ok in H as (j & d & Hj & H). destruct (select_job_inv _ _ _ _ Hwf Hj) as (r & Hr & -> & ->).
  apply tx_bind_ok in H as (u1 & d & [Hb ->]%tx_reject_ok & H).
  apply tx_bind_ok in H as (d0 & d & [-> ->]%tx_get_ok & H).
  apply tx_bind_ok in H as (u2 & d & [He ->]%tx_reject_ok & H).
  apply one_row_inv, (delete_jobs_key _ _ _ _ _ _ Hr) in H as [Hq Hd].
  specialize (Hq eq_refl). destruct (Hd Hq) as [Hjobs Hatts]. boolify.
  apply changes_once. eapply change_remove; [exact Hr|done|lia|done..| |done|done].
  intros k x Hx Hpar. unfold has_evidence in He. boolify.
  match goal with H : exists_where _ (jobs db) = false |- _ =>
    rewrite exists_where_false in H; specialize (H _ _ Hx) end. by boolify.
Qed.

Definition tx_quiet {E A} (t : Tx E A) : Prop :=
  forall db a db', t db = Ok (a, db') -> jobs db' = jobs db /\ job_attempts db' = job_attempts db.

Lemma tx_quiet_run_id source association : tx_quiet (action_child_crawl_run_id source association).
Proof.
  intros db a db' H. destruct association; simpl in H.
  - by tx_step H.
  - apply tx_bind_ok in H as (run & d & [_ ->]%tx_of_ok & H).
    apply tx_bind_ok in H as (u & d & Hu & H). apply tx_ret_ok in H as [_ ->].
    by apply one_row_inv, update_run_status_inv in Hu as [[_ (r & _ & _ & ->)]|(? & _)].
  - apply tx_bind_ok in H as (drawn & d & Hd & H). injection Hd as _ <-. cbv zeta in H.
    apply tx_bind_ok in H as (u & d & Hu & H). apply tx_ret_ok in H as [_ ->].
    apply tx_map_err_ok in Hu. unfold insert_run_in_transaction in Hu. tx_step Hu.
    apply insert_run_inv in Hs as [_ ->]. by apply insert_audit_inv in Hu as ->.
Qed.

Lemma action_child_changes source kind now association max :
  job_kind_new kind = Ok kind -> (forall m, max = Some m -> 0 <= m <= u32_max) ->
  op_changes (enqueue_action_child source kind now association max).
Proof.
  intros Hkind Hmax. apply op_transact. intros db j db' Hwf H.
  apply tx_bind_ok in H as (s & d & Hs & H). destruct (select_job_inv _ _ _ _ Hwf Hs) as (r & Hr & -> & ->).
  apply tx_bind_ok in H as (d0 & d & [-> ->]%tx_get_ok & H).
  apply tx_bind_ok in H as (u1 & d & [_ ->]%tx_of_ok & H).
  apply tx_bind_ok in H as (drawn & d & Hd & H). injection Hd as _ <-. cbv zeta in H.
  apply tx_bind_ok in H as (run & d & Hrun & H). apply tx_quiet_run_id in Hrun as [Hj Ha]. simpl in Hj, Ha.
  apply tx_bind_ok in H as (u2 & d' & Hins & H). apply tx_map_err_ok in Hins.
  pose proof (changes_elsewhere _ _ Hj Ha) as Hc. pose proof (changes_wf _ _ Hwf Hc) as Hwf'.
  unfold select_job in H. tx_step H. eapply changes_trans; [exact Hc|].
  pose proof (insert_job_inv _ _ _ _ _ Hins) as (Hnew & _). pose proof (qw_rows _ Hwf _ _ Hr) as [].
  assert (Some source <> Some (uuid_to_string drawn)) as Hne.
  { intros [= Heq]. rewrite Hj, <- Heq in Hnew. congruence. }
  match type of Hins with insert_job _ (queued_row ?nj _ _ _) _ = _ =>
    refine (insert_queued_changes nj _ _ _ _ _ _ _ Hne Hins) end.
  split; simpl; try done. destruct max as [m|]; simpl; [by apply Hmax|lia].
Qed.

Lemma append_checkpoint_changes id attempt lease c created_at :
  op_changes (append_job_checkpoint id attempt lease c created_at).
Proof.
  assert (Ht : op_changes (append_checkpoint id attempt lease c created_at)).
  { intros db r db' Hwf. unfold append_checkpoint. case_match; [by apply op_here|].
    by apply op_transact; [apply tx_changes_checkpoint|]. }
  intros db r db' Hwf. unfold append_job_checkpoint.
  destruct (append_checkpoint id attempt lease c created_at db) as [[rec|e] d] eqn:H;
    intros [= _ <-]; by eapply Ht.
Qed.

Lemma append_progress_changes event created_at : op_changes (append_at event created_at).
Proof. apply op_transact, tx_changes_progress. Qed.

Lemma tx_changes_transition_from from s m id : tx_changes (transition_from from s m id).
Proof. apply tx_changes_none. by intros db a db' (r & _ & _ & ->)%transition_from_inv. Qed.

Lemma run_execution_changes run status : op_changes (transition_execution_status run status).
Proof. apply op_transact, tx_changes_transition. Qed.
Lemma run_recovery_changes run : op_changes (transition_recovery_status run).
Proof. apply op_transact, tx_changes_transition_from. Qed.
Lemma run_restart_changes run : op_changes (transition_restart_status run).
Proof. apply op_transact, tx_changes_transition_from. Qed.
End operations.
