(* ===== verification/JobTheorems.v ===== *)
(** * The job queue: what it guarantees

    The public operations of [JobQueue.v] as the steps of a transition system, and
    what holds of every reachable queue: its invariant, the finality of evidence,
    lease fencing, the choice [acquire_next] makes, stale recovery, the refinement
    of the abstract lease protocol [LeaseSpec], and the bounded lineage walk. *)

From S2P Require Import Prelude Externals JsonFacts Base Instances Settings Snapshot Store.
From S2P Require Import Progress Checkpoint Runs JobQueue JobInvariants.

(** ** The transition system *)

Section system.
Context `{U : UuidLib} `{L : UrlLib} `{SD : SerdeLib}.

Inductive queue_op :=
| OpEnqueue (j : NewJob) (now : Z)
| OpQuickScrape (s : CrawlRunSnapshot) (j : NewJob) (now : Z)
| OpProduction (s : CrawlRunSnapshot) (j : NewJob) (now : Z)
| OpAcquire (worker_id : string) (now duration : Z) (allow_artifact_heavy : bool)
| OpHeartbeat (id : string) (lease : JobLease) (now duration : Z)
| OpSucceed (id : string) (lease : JobLease) (now : Z)
| OpFail (id : string) (lease : JobLease) (now : Z) (failure : JobFailureCode) (retry_at : Z)
| OpFailTerminal (id : string) (lease : JobLease) (now : Z) (failure : JobFailureCode)
| OpFailProduction (id : string) (lease : JobLease) (now : Z) (failure : JobFailureCode)
| OpCancel (id : string) (lease : JobLease) (now : Z)
| OpRequeue (id : string) (lease : JobLease) (now : Z)
| OpReconcileRun (id : string) (lease : JobLease) (run : string) (now : Z)
| OpReconcileRuns (now : Z)
| OpRecover (now : Z)
| OpTerminalProgress (id : string) (terminal : ProgressTerminalState) (now : Z)
| OpCancelQueued (id : string) (now : Z)
| OpReprioritize (id : string) (priority scheduled_at now : Z)
| OpRemove (id : string)
| OpActionChild (source kind : string) (now : Z) (association : ActionRunAssociation)
    (max_attempts : option Z)
| OpCheckpoint (id attempt : string) (lease : JobLease) (c : CheckpointEnvelope) (created_at : Z)
| OpProgress (event : NewProgressEvent) (created_at : Z)
| OpRunExecution (run : CrawlRunId) (status : CrawlRunStatus)
| OpRunRecovery (run : CrawlRunId)
| OpRunRestart (run : CrawlRunId).

(** What the parameter types of the operation guarantee ([JobKind], [u32], [i32]). *)
Definition op_typed (o : queue_op) : Prop :=
  match o with
  | OpEnqueue j _ | OpQuickScrape _ j _ | OpProduction _ j _ => new_job_ok j
  | OpReprioritize _ priority _ _ => - 2 ^ 31 <= priority < 2 ^ 31
  | OpActionChild _ kind _ _ max =>
    job_kind_new kind = Ok kind /\ (forall m, max = Some m -> 0 <= m <= u32_max)
  | OpProgress event _ => event_ok event
  | _ => True
  end.

Definition run_op (o : queue_op) (db : Db) : Db :=
  match o with
  | OpEnqueue j now => (enqueue j now db).2
  | OpQuickScrape s j now => (create_quick_scrape_run_with_root_job s j now db).2
  | OpProduction s j now => (create_production_run_with_root_job s j now db).2
  | OpAcquire w now duration heavy => (acquire_next_with_storage_admission w now duration heavy db).2
  | OpHeartbeat id lease now duration => (heartbeat id lease now duration db).2
  | OpSucceed id lease now => (succeed id lease now db).2
  | OpFail id lease now failure retry_at => (fail id lease now failure retry_at db).2
  | OpFailTerminal id lease now failure => (fail_terminal id lease now failure db).2
  | OpFailProduction id lease now failure => (fail_terminal_production id lease now failure db).2
  | OpCancel id lease now => (cancel id lease now db).2
  | OpRequeue id lease now => (requeue_after_storage_pressure id lease now db).2
  | OpReconcileRun id lease run now => (reconcile_terminal_crawl_run id lease run now db).2
  | OpReconcileRuns now => (reconcile_terminal_crawl_runs now db).2
  | OpRecover now => (recover_stale_jobs now db).2
  | OpTerminalProgress id terminal now => (append_terminal_progress_if_missing id terminal now db).2
  | OpCancelQueued id now => (cancel_queued id now db).2
  | OpReprioritize id priority scheduled_at now => (reprioritize id priority scheduled_at now db).2
  | OpRemove id => (remove_if_safe id db).2
  | OpActionChild source kind now association max =>
    (enqueue_action_child source kind now association max db).2
  | OpCheckpoint id attempt lease c created_at => (append_job_checkpoint id attempt lease c created_at db).2
  | OpProgress event created_at => (append_at event created_at db).2
  | OpRunExecution run status => (transition_execution_status run status db).2
  | OpRunRecovery run => (transition_recovery_status run db).2
  | OpRunRestart run => (transition_restart_status run db).2
  end.

Definition step (db db' : Db) : Prop := exists o, op_typed o /\ db' = run_op o db.
Definition steps : Db -> Db -> Prop := rtc step.

(** The databases the operations can make of a freshly migrated one. *)
Definition reachable (db : Db) : Prop := exists crawler_ids version_ids, steps (empty_db crawler_ids version_ids) db.

(** ** The invariant *)

Lemma op_changes_run {A} (op : Db -> A * Db) db : op_changes op -> queue_wf db -> changes db (op db).2.
Proof. intros Hop Hwf. destruct (op db) as [a db'] eqn:H. by eapply Hop. Qed.

Lemma run_op_changes o db : op_typed o -> queue_wf db -> changes db (run_op o db).
Proof.
  intros Ho Hwf. destruct o; simpl in Ho |- *; eapply op_changes_run, Hwf; auto using
    enqueue_changes, create_quick_scrape_changes, create_production_changes, acquire_changes,
    heartbeat_changes, finish_changes, fail_changes, fail_terminal_changes,
    fail_terminal_production_changes, cancel_changes, requeue_changes, reconcile_run_changes,
    reconcile_runs_changes, recover_changes, append_terminal_changes, cancel_queued_changes,
    reprioritize_changes, remove_changes, append_checkpoint_changes, append_progress_changes,
    run_execution_changes, run_recovery_changes, run_restart_changes.
  - apply finish_changes.
  - apply action_child_changes; apply Ho.
Qed.

Lemma step_changes db db' : queue_wf db -> step db db' -> changes db db'.
Proof. intros Hwf (o & Ho & ->). by apply run_op_changes. Qed.

Lemma steps_changes db db' : queue_wf db -> steps db db' -> changes db db'.
Proof.
  intros Hwf H. induction H as [|x y z Hxy _ IH]; [apply changes_refl|].
  pose proof (step_changes _ _ Hwf Hxy) as Hc. eapply changes_trans; [exact Hc|].
  apply IH. by eapply changes_wf.
Qed.

Lemma steps_wf db db' : queue_wf db -> steps db db' -> queue_wf db'.
Proof. intros Hwf H. eapply changes_wf; [exact Hwf|]. by apply steps_changes. Qed.

Lemma empty_wf db : jobs db = ∅ -> job_attempts db = ∅ -> queue_wf db.
Proof.
  intros Hj Ha. split; rewrite ?Hj, ?Ha; intros *; rewrite ?lookup_empty; try done.
Qed.

Lemma reachable_wf db : reachable db -> queue_wf db.
Proof. intros (c & v & H). eapply steps_wf, H. by apply empty_wf. Qed.
End system.

(** ** The five consistency queries *)

Lemma no_row_spec {Row} (p : string -> Row -> bool) (t : gmap string Row) :
  no_row p t = true <-> forall k r, t !! k = Some r -> p k r = false.
Proof. unfold no_row. by rewrite negb_true_iff, exists_where_false. Qed.

Lemma no_lease_null r : no_lease r -> lease_columns_null r = true.
Proof. intros (H1 & H2 & H3 & H4 & H5). unfold lease_columns_null. by rewrite H1, H2, H3, H4, H5. Qed.

(** The attempts of a job, in the order of their keys. *)
Definition attempts_of (id : string) (db : Db) : list (string * AttemptRow) :=
  select_where (fun _ a => String.eqb (att_job_id a) id) (job_attempts db).

Lemma elem_of_attempts_of id db i a :
  (i, a) ∈ attempts_of id db <-> job_attempts db !! i = Some a /\ att_job_id a = id.
Proof. unfold attempts_of. by rewrite elem_of_select_where, String.eqb_eq. Qed.

Lemma foldl_Zmax_bounds (l : list Z) m :
  m <= foldl Z.max m l /\ Forall (fun x => x <= foldl Z.max m l) l.
Proof. apply foldl_max_ge. Qed.

Lemma max_attempt_number_spec db id r :
  queue_wf db -> jobs db !! id = Some r -> max_attempt_number id db = row_current_attempt r.
Proof.
  intros Hwf Hr. unfold max_attempt_number. fold (attempts_of id db).
  set (l := map (fun e : string * AttemptRow => att_number e.2) (attempts_of id db)).
  assert (Hall : forall n, n ∈ l <-> 1 <= n <= row_current_attempt r).
  { intros n. unfold l. split.
    - intros ([i a] & -> & Hin)%elem_of_map. apply elem_of_attempts_of in Hin as [Hi Hid].
      destruct (qw_attempts _ Hwf _ _ Hi) as (x & Hx & Hn & _). rewrite Hid, Hr in Hx. by injection Hx as <-.
    - intros Hn. destruct (qw_history _ Hwf _ _ n Hr Hn) as (i & a & Hi & Hid & <-).
      apply elem_of_map. exists (i, a). split; [done|]. by apply elem_of_attempts_of. }
  pose proof (ro_current _ (qw_rows _ Hwf _ _ Hr)) as [Hpos _].
  clearbody l. destruct l as [|n rest].
  - destruct (decide (row_current_attempt r = 0)) as [->|Hne]; [done|].
    assert (1 ∈ ([] : list Z)) as Hin by (apply Hall; lia). by apply elem_of_nil in Hin.
  - assert (Hin : foldl Z.max n rest ∈ n :: rest).
    { destruct (foldl_max_in rest n) as [Hm|Hm]; unfold Z.max in *; rewrite ?Hm; [left|by right]. }
    apply Hall in Hin. destruct (foldl_Zmax_bounds rest n) as [Hge Hle]. rewrite Forall_forall in Hle.
    assert (row_current_attempt r ∈ n :: rest) as [Heq|Hr']%elem_of_cons by (apply Hall; lia); [lia|].
    specialize (Hle _ Hr'). lia.
Qed.

Lemma running_attempt_current db id r :
  queue_wf db -> jobs db !! id = Some r -> row_state r = Running ->
  exists i a, matching (fun _ a => String.eqb (att_job_id a) id
      && (att_number a =? row_current_attempt r)
      && bool_decide (att_outcome a = AttemptRunning)) (job_attempts db) = {[i := a]} /\
    row_lease_id r = Some (att_lease_id a) /\ row_lease_owner r = Some (att_worker_id a) /\
    att_lease_generation a = row_lease_generation r.
Proof.
  intros Hwf Hr Hst. destruct (qw_running _ Hwf _ _ Hr Hst) as (i & a & Hi & Hid & Hrun & Hof).
  pose proof Hof as (_ & Hn & Hl & Hw). exists i, a. split; [|split; [done|split; [done|]]].
  - apply matching_one. split; [done|]. split.
    + rewrite <- Hid, String.eqb_refl, Hn, Z.eqb_refl, Hrun. done.
    + intros k b Hk Hb. boolify. eapply (qw_unique _ Hwf); [exact Hk|exact Hi|congruence|congruence].
  - destruct (qw_attempts _ Hwf _ _ Hi) as (x & Hx & _ & Hg & _).
    rewrite (ro_generation _ (qw_rows _ Hwf _ _ Hr)). congruence.
Qed.

Lemma wf_consistent db : queue_wf db -> queue_consistent db = true.
Proof.
  intros Hwf. unfold queue_consistent. rewrite !andb_true_iff, !no_row_spec. split_and!.
  - intros id r Hr. pose proof (qw_rows _ Hwf _ _ Hr) as [_ _ _ _ Hgen _ Hl]. case_decide.
    + destruct Hl as [Hc (l & E1 & E2 & _ & E4 & E5 & E6 & _)].
      rewrite E1, E2, E4, E5, E6, Hgen. simpl. apply orb_false_iff.
      assert ((row_current_attempt r =? 0) = false) as -> by (apply Z.eqb_neq; lia). done.
    + by rewrite no_lease_null.
  - intros id r Hr. case_bool_decide as Hst; [|done]. simpl.
    destruct (running_attempt_current _ _ _ Hwf Hr Hst) as (i & a & -> & Hl & Hw & Hg).
    rewrite bool_decide_eq_false_2 by apply map_non_empty_singleton. simpl.
    rewrite exists_where_false. intros k b [<- <-]%lookup_singleton_Some.
    by rewrite Hl, Hw, Hg, Z.eqb_refl; simpl; rewrite !String.eqb_refl.
  - intros i a Hi. case_bool_decide as Hrun; [|done]. simpl.
    destruct (qw_attempts _ Hwf _ _ Hi) as (r & -> & _ & _ & H).
    destruct (H Hrun) as (Hst & _). by rewrite bool_decide_eq_true_2.
  - intros id r Hr. by rewrite (max_attempt_number_spec _ _ _ Hwf Hr), Z.eqb_refl.
  - intros i a Hi. destruct (qw_attempts _ Hwf _ _ Hi) as (r & Hr & Hn & _). rewrite Hr.
    pose proof (ro_current _ (qw_rows _ Hwf _ _ Hr)). apply Z.ltb_ge. lia.
Qed.

(** ** What never changes *)

Definition is_terminal (s : JobState) : bool :=
  match s with Succeeded | Failed | Cancelled => true | _ => false end.

(** The identity of an attempt, which outlives its outcome. *)
Definition same_attempt (a a' : AttemptRow) : Prop :=
  att_job_id a' = att_job_id a /\ att_number a' = att_number a /\ att_lease_id a' = att_lease_id a /\
  att_lease_generation a' = att_lease_generation a /\ att_worker_id a' = att_worker_id a /\
  att_started_at a' = att_started_at a.

(** A job that has ever been leased, or has ended, stays and only moves forward. *)
Definition settled (r : JobRow) : Prop := 1 <= row_current_attempt r \/ is_terminal (row_state r) = true.

Record later_row (r r' : JobRow) : Prop := {
  lr_kind : row_kind r' = row_kind r;
  lr_parent : row_parent_job_id r' = row_parent_job_id r;
  lr_run : row_crawl_run_id r' = row_crawl_run_id r;
  lr_created : row_created_at r' = row_created_at r;
  lr_max : row_max_attempts r' = row_max_attempts r;
  lr_attempt : row_current_attempt r <= row_current_attempt r';
  lr_generation : row_lease_generation r <= row_lease_generation r';
  (** a generation is held at most once, by one lease *)
  lr_fence : row_lease_generation r' = row_lease_generation r -> row_state r' = Running ->
    row_state r = Running /\ row_lease_id r' = row_lease_id r /\ row_lease_owner r' = row_lease_owner r;
  lr_terminal : is_terminal (row_state r) = true -> r' = r
}.

(** Attempts are never lost; a finished one never changes. *)
Definition keeps_attempts (db db' : Db) : Prop :=
  forall i a, job_attempts db !! i = Some a ->
    exists a', job_attempts db' !! i = Some a' /\ same_attempt a a' /\
      (att_outcome a <> AttemptRunning -> a' = a).

Record evolves (db db' : Db) : Prop := {
  ev_jobs : forall id r, jobs db !! id = Some r -> settled r ->
    exists r', jobs db' !! id = Some r' /\ later_row r r';
  ev_attempts : keeps_attempts db db'
}.

Lemma later_refl r : later_row r r.
Proof. by split. Qed.

Lemma later_settled r r' : later_row r r' -> settled r -> settled r'.
Proof.
  intros H [Hc|Ht]; [left|right].
  - pose proof (lr_attempt _ _ H). lia.
  - by rewrite (lr_terminal _ _ H Ht).
Qed.

Lemma later_trans r1 r2 r3 : later_row r1 r2 -> later_row r2 r3 -> later_row r1 r3.
Proof.
  intros [A1 A2 A3 A4 A5 A6 A7 A8 A9] [B1 B2 B3 B4 B5 B6 B7 B8 B9].
  split; try congruence; try lia.
  - intros Hg Hrun. destruct B8 as (Hst & Hl & Ho); [lia|done|].
    destruct A8 as (Hst1 & Hl1 & Ho1); [lia|done|]. split_and!; congruence.
  - intros Ht. specialize (A9 Ht) as ->. auto.
Qed.

Lemma same_attempt_refl a : same_attempt a a.
Proof. by split_and!. Qed.

Lemma evolves_refl db : evolves db db.
Proof.
  split.
  - intros id r Hr _. exists r. split; [done|apply later_refl].
  - intros i a Ha. exists a. split; [done|]. split; [apply same_attempt_refl|done].
Qed.

Lemma evolves_trans db1 db2 db3 : evolves db1 db2 -> evolves db2 db3 -> evolves db1 db3.
Proof.
  intros [J1 A1] [J2 A2]. split.
  - intros id r Hr Hs. destruct (J1 _ _ Hr Hs) as (r' & Hr' & H1).
    destruct (J2 _ _ Hr' (later_settled _ _ H1 Hs)) as (r'' & Hr'' & H2).
    exists r''. split; [done|]. by eapply later_trans.
  - intros i a Ha. destruct (A1 _ _ Ha) as (a' & Ha' & (S1 & S2 & S3 & S4 & S5 & S6) & E1).
    destruct (A2 _ _ Ha') as (a'' & Ha'' & (T1 & T2 & T3 & T4 & T5 & T6) & E2). exists a''.
    split; [done|]. split; [split_and!; congruence|]. intros Ho. specialize (E1 Ho) as ->. auto.
Qed.

#[export] Instance evolves_preorder : PreOrder evolves.
Proof. split; [exact evolves_refl|exact evolves_trans]. Qed.

(** A change of one row. *)
Lemma evolves_row db db' id r r' :
  jobs db !! id = Some r -> jobs db' = <[id := r']> (jobs db) ->
  (settled r -> later_row r r') ->
  keeps_attempts db db' -> evolves db db'.
Proof.
  intros Hr Hj Hl Ha. split; [|exact Ha]. intros k x Hk Hs. rewrite Hj.
  destruct (decide (k = id)) as [->|Hne].
  - rewrite Hr in Hk. injection Hk as <-. exists r'. rewrite lookup_insert_eq. auto.
  - exists x. rewrite lookup_insert_ne by done. split; [done|apply later_refl].
Qed.

Lemma attempts_kept db db' : job_attempts db' = job_attempts db -> keeps_attempts db db'.
Proof. unfold keeps_attempts. intros -> i a Ha. exists a. split; [done|]. split; [apply same_attempt_refl|done]. Qed.

Lemma attempts_inserted db db' aid b : job_attempts db !! aid = None ->
  job_attempts db' = <[aid := b]> (job_attempts db) -> keeps_attempts db db'.
Proof.
  unfold keeps_attempts. intros Hnew -> i a Ha. exists a. rewrite lookup_insert_ne by congruence.
  split; [done|]. split; [apply same_attempt_refl|done].
Qed.

Lemma attempts_finished db db' aid b b' :
  job_attempts db !! aid = Some b -> att_outcome b = AttemptRunning -> finishes b b' ->
  job_attempts db' = <[aid := b']> (job_attempts db) -> keeps_attempts db db'.
Proof.
  unfold keeps_attempts. intros Hb Hrun (now & outcome & failure & _ & ->) -> i a Ha.
  destruct (decide (i = aid)) as [->|Hne].
  - rewrite Hb in Ha. injection Ha as <-. eexists. rewrite lookup_insert_eq. split; [done|].
    split; [by split_and!|done].
  - exists a. rewrite lookup_insert_ne by done. split; [done|]. split; [apply same_attempt_refl|done].
Qed.

Lemma change_evolves db db' : queue_wf db -> change db db' -> evolves db db'.
Proof.
  intros Hwf. destruct 1 as [Hj Ha|id r Hid Hf _ Hj Ha|id r lease aid a Hr Hq Hg Ht Haid Hl Ha0 Hj Ha
    |id r now e Hr Hst Ht Hj Ha|id r r' aid a a' Hr Hst Hrel Ha0 Hid Hrun Hf Hj Ha
    |id r now Hr Hq Hj Ha|id r p s now Hr Hq Hp Hj Ha|id r Hr Hq Hc _ _ _ Hj Ha].
  - split; [|by apply attempts_kept]. intros id r Hr _. rewrite Hj. exists r.
    split; [done|apply later_refl].
  - split; [|by apply attempts_kept]. intros k x Hk _. rewrite Hj. exists x.
    rewrite lookup_insert_ne by congruence. split; [done|apply later_refl].
  - pose proof (ro_generation _ (qw_rows _ Hwf _ _ Hr)) as Hgen.
    eapply evolves_row; [exact Hr|exact Hj| |by eapply attempts_inserted].
    intros _. split; simpl; try done; try lia. by rewrite Hq.
  - eapply evolves_row; [exact Hr|exact Hj| |by apply attempts_kept].
    intros _. split; try done. by rewrite Hst.
  - eapply evolves_row; [exact Hr|exact Hj| |by eapply attempts_finished].
    intros _. destruct Hrel as (E1 & E2 & E3 & E4 & E5 & E6 & E7 & E8 & Hst' & _).
    split; try done; try lia. by rewrite Hst.
  - eapply evolves_row; [exact Hr|exact Hj| |by apply attempts_kept].
    intros _. split; try done. by rewrite Hq.
  - eapply evolves_row; [exact Hr|exact Hj| |by apply attempts_kept].
    intros _. split; simpl; try done. by rewrite Hq.
  - split; [|by apply attempts_kept]. intros k x Hk Hs. rewrite Hj. exists x.
    destruct (decide (k = id)) as [->|Hne].
    + rewrite Hr in Hk. injection Hk as <-. destruct Hs as [Hs|Hs]; [lia|]. by rewrite Hq in Hs.
    + rewrite lookup_delete_ne by done. split; [done|apply later_refl].
Qed.

Lemma changes_evolves db db' : queue_wf db -> changes db db' -> evolves db db'.
Proof.
  intros Hwf H. induction H as [|x y z Hxy _ IH]; [apply evolves_refl|].
  eapply evolves_trans; [by apply change_evolves|]. apply IH. by eapply change_wf.
Qed.

(** ** Lease fencing *)

(** The lease is no longer the row's. *)
Definition fenced (lease : JobLease) (r : JobRow) : Prop :=
  lease_generation lease < row_lease_generation r \/
  (lease_generation lease = row_lease_generation r /\
   (row_state r <> Running \/ row_lease_id r <> Some (lease_id lease))).

Lemma fenced_later lease r r' : later_row r r' -> fenced lease r -> fenced lease r'.
Proof.
  intros H Hf. pose proof (lr_generation _ _ H) as Hg. unfold fenced in *.
  destruct (decide (row_lease_generation r' = row_lease_generation r)) as [Heq|Hne]; [|left; lia].
  destruct Hf as [Hf|[Hf1 Hf2]]; [left; lia|right]. split; [lia|].
  destruct (decide (row_state r' = Running)) as [Hrun|]; [right|by left].
  destruct (lr_fence _ _ H Heq Hrun) as (Hst & Hl & _). rewrite Hl. by destruct Hf2.
Qed.

(** A lease that the owner operations refuse at [now]. *)
Definition refused (lease : JobLease) (now : Z) (r : JobRow) : Prop :=
  fenced lease r \/ lease_expires_at lease <= now.

Definition refusal (o : option JobRow) : JobRepositoryError :=
  match o with
  | None => NotFound
  | Some r => if decide (row_state r = Running) then LeaseLost else IllegalTransition
  end.

Lemma fenced_not_held lease r : row_ok r -> fenced lease r -> row_lease r <> Some lease.
Proof.
  intros Hok Hf Hl. unfold row_lease in Hl.
  destruct (row_lease_id r) as [id|] eqn:Hid; [|done]. simpl in Hl.
  assert (Hrun : row_state r = Running).
  { pose proof (ro_lease _ Hok) as H. case_decide; [done|]. destruct H. congruence. }
  repeat (match type of Hl with context [?o ≫= _] => destruct o; [|done] end; simpl in Hl).
  injection Hl as <-. destruct Hf as [Hf|[_ [Hf|Hf]]]; simpl in *; [lia|done|done].
Qed.

Lemma owned_refused id lease now db :
  queue_wf db -> (forall r, jobs db !! id = Some r -> refused lease now r) ->
  select_owned_running_job id lease now db = Err (refusal (jobs db !! id)).
Proof.
  intros Hwf Hf. unfold select_owned_running_job, select_job, tx_bind, tx_get, tx_of.
  rewrite (job_ok _ _ Hwf). destruct (jobs db !! id) as [r|] eqn:Hr; [|done].
  unfold refusal. unfold tx_reject, tx_of. cbn [job_state record_of]. case_decide as Hst.
  - rewrite bool_decide_eq_true_2 by done. cbn [negb reject_if job_lease record_of].
    destruct (Hf _ eq_refl) as [Hf'|Hf'].
    + rewrite bool_decide_eq_false_2; [done|].
      apply fenced_not_held; [by eapply qw_rows|done].
    + assert ((lease_expires_at lease <=? now) = true) as -> by lia. by rewrite orb_true_r.
  - by rewrite bool_decide_eq_false_2.
Qed.

Section fencing.
Context `{U : UuidLib} `{L : UrlLib} `{SD : SerdeLib}.

Lemma transact_owned {A} id lease now (k : JobRecord -> Tx JobRepositoryError A) db :
  queue_wf db -> (forall r, jobs db !! id = Some r -> refused lease now r) ->
  transact (tx_bind (select_owned_running_job id lease now) k) db = (Err (refusal (jobs db !! id)), db).
Proof.
  intros Hwf Hf. unfold transact, tx_bind at 1. by rewrite (owned_refused _ _ _ _ Hwf Hf).
Qed.

Lemma heartbeat_refused id lease now duration db :
  queue_wf db -> (forall r, jobs db !! id = Some r -> refused lease now r) ->
  exists e, heartbeat id lease now duration db = (Err e, db).
Proof.
  intros Hwf Hf. unfold heartbeat. case_match; [by eexists|]. case_match; [|by eexists].
  set (update := tx_bind _ _). destruct (transact update db) as [[n|e] d] eqn:Ht.
  - apply transact_ok in Ht. unfold update in Ht.
    apply tx_bind_ok in Ht as (g & d' & [Hg ->]%tx_of_ok & Ht). apply i64_of_u64_ok in Hg as ->.
    apply tx_map_err_ok, update_jobs_key in Ht as [(_ & r & Hr & Hq & _)|(-> & _ & ->)]; [|by eexists].
    unfold lease_holds in Hq. boolify. specialize (Hf _ Hr). exfalso.
    match goal with H : row_lease_expires_at r = Some _ |- _ => rewrite H in * end. boolify.
    destruct Hf as [[Hf|[_ [Hf|Hf]]]|Hf]; try done; lia.
  - apply transact_err in Ht as ->. by eexists.
Qed.

Lemma steps_fenced id lease r db db' :
  queue_wf db -> steps db db' -> 1 <= lease_generation lease ->
  jobs db !! id = Some r -> fenced lease r ->
  forall r', jobs db' !! id = Some r' -> fenced lease r'.
Proof.
  intros Hwf Hs Hgen Hr Hf r' Hr'.
  destruct (ev_jobs _ _ (changes_evolves _ _ Hwf (steps_changes _ _ Hwf Hs)) _ _ Hr) as (x & Hx & Hl).
  - left. rewrite <- (ro_generation _ (qw_rows _ Hwf _ _ Hr)).
    destruct Hf as [Hf|[Hf _]]; lia.
  - rewrite Hr' in Hx. injection Hx as <-. by eapply fenced_later.
Qed.

(** C2. Lease fencing.  Once a lease has been given up or superseded (the job's
    generation has moved past it, or the job is no longer running under it), then
    after any later operations, at any time and for any outcome, every operation of
    its former owner is refused with the error that tells a lost lease from an ended
    or a missing job, and changes nothing; heartbeats are refused too.  So are the
    operations of an owner whose lease has expired. *)
Theorem stale_lease_fenced id lease r db db' now :
  reachable db -> steps db db' ->
  jobs db !! id = Some r -> 1 <= lease_generation lease ->
  fenced lease r \/ lease_expires_at lease <= now ->
  let answer {A} : result JobRepositoryError A * Db := (Err (refusal (jobs db' !! id)), db') in
  (forall duration, exists e, heartbeat id lease now duration db' = (Err e, db')) /\
  succeed id lease now db' = answer /\
  (forall failure retry_at, fail id lease now failure retry_at db' = answer) /\
  (forall failure, fail_terminal id lease now failure db' = answer) /\
  (forall failure, fail_terminal_production id lease now failure db' = answer) /\
  cancel id lease now db' = answer /\
  requeue_after_storage_pressure id lease now db' = answer.
Proof.
  intros Hreach Hs Hr Hgen Hstale answer. pose proof (reachable_wf _ Hreach) as Hwf.
  pose proof (steps_wf _ _ Hwf Hs) as Hwf'.
  assert (Hf : forall r', jobs db' !! id = Some r' -> refused lease now r').
  { intros r' Hr'. destruct Hstale as [Hf|He]; [left|by right].
    eapply (steps_fenced id lease r db db'); eassumption. }
  split_and!; intros; unfold answer.
  - by apply heartbeat_refused.
  - by apply transact_owned.
  - by apply transact_owned.
  - unfold fail_terminal, fail_with_disposition. by rewrite transact_owned.
  - by apply transact_owned.
  - by apply transact_owned.
  - unfold requeue_after_storage_pressure, requeue_in_transaction. by rewrite transact_owned.
Qed.
End fencing.

Section guarantees.
Context `{U : UuidLib} `{L : UrlLib} `{SD : SerdeLib}.

(** C1. The queue invariant.  Whatever operations run, in whatever order and with
    whatever arguments, the queue is well formed: rows decode, a running job holds a
    complete lease whose generation is its attempt number and has exactly one running
    attempt, which that lease owns, other jobs hold none; attempts are numbered
    without gap or repetition up to the current one, which never exceeds the
    maximum; leases are unique.  Hence the five consistency queries that guard
    acquisition and stale recovery never refuse: [check_invariants] succeeds. *)
Theorem queue_invariant db :
  reachable db -> queue_wf db /\ check_invariants db = Ok tt.
Proof.
  intros H%reachable_wf. split; [done|]. unfold check_invariants, ensure_queue_invariants.
  by rewrite (wf_consistent _ H).
Qed.

(** C4. Evidence is final.  Over any sequence of operations a job that has ended
    keeps its row bit for bit; a finished attempt keeps its row; a running attempt
    is never lost and keeps its job, number, lease, generation, worker and start; a
    job that was ever leased is never removed, keeps its kind, parent, run, creation
    time and budget, never lowers its attempt counter or its generation, and holds
    one generation under one lease only. *)
Theorem evidence_is_final db db' : reachable db -> steps db db' -> evolves db db'.
Proof. intros Hwf%reachable_wf H. by apply changes_evolves, steps_changes. Qed.
End guarantees.

(** ** The abstract lease protocol *)

Module LeaseSpec.
(** What clients of the queue see: a job waits, is held by a worker under a fencing
    number, or has ended; a budget bounds the grants. *)
Inductive phase :=
| Waiting
| Held (owner : string) (fence : Z)
| Ended.

Record ajob := { a_phase : phase; a_used : Z; a_budget : Z }.

Definition set_phase (p : phase) (j : ajob) : ajob :=
  {| a_phase := p; a_used := a_used j; a_budget := a_budget j |}.

Inductive astep (s : gmap string ajob) : gmap string ajob -> Prop :=
| a_submit id budget :
    s !! id = None -> 1 <= budget ->
    astep s (<[id := {| a_phase := Waiting; a_used := 0; a_budget := budget |}]> s)
| a_grant id j owner :
    s !! id = Some j -> a_phase j = Waiting -> a_used j < a_budget j ->
    astep s (<[id := {| a_phase := Held owner (a_used j + 1); a_used := a_used j + 1;
                        a_budget := a_budget j |}]> s)
| a_requeue id j owner fence :
    s !! id = Some j -> a_phase j = Held owner fence -> a_used j < a_budget j ->
    astep s (<[id := set_phase Waiting j]> s)
| a_end id j :
    s !! id = Some j -> a_phase j <> Ended -> astep s (<[id := set_phase Ended j]> s)
| a_withdraw id j :
    s !! id = Some j -> a_phase j = Waiting -> a_used j = 0 -> astep s (delete id s).

Definition asteps : gmap string ajob -> gmap string ajob -> Prop := rtc astep.
End LeaseSpec.
Import LeaseSpec.

(** The phase a row stands for. *)
Definition abs_phase (r : JobRow) : phase :=
  match row_state r with
  | Queued => Waiting
  | Running => Held (default EmptyString (row_lease_owner r)) (row_lease_generation r)
  | Succeeded | Failed | Cancelled => Ended
  end.

Definition abs_job (r : JobRow) : ajob :=
  {| a_phase := abs_phase r; a_used := row_current_attempt r; a_budget := row_max_attempts r |}.

Definition abs (db : Db) : gmap string ajob := abs_job <$> jobs db.

Lemma abs_lookup db id r : jobs db !! id = Some r -> abs db !! id = Some (abs_job r).
Proof. intros H. unfold abs. by rewrite lookup_fmap, H. Qed.

Lemma abs_insert db db' id r :
  jobs db' = <[id := r]> (jobs db) -> abs db' = <[id := abs_job r]> (abs db).
Proof. intros H. unfold abs. by rewrite H, fmap_insert. Qed.

(** A row whose abstraction does not change. *)
Lemma abs_same db db' id r r' :
  jobs db !! id = Some r -> jobs db' = <[id := r']> (jobs db) -> abs_job r' = abs_job r ->
  abs db' = abs db.
Proof.
  intros Hr Hj Heq. rewrite (abs_insert _ _ _ _ Hj), Heq. apply insert_id. by apply abs_lookup.
Qed.

Lemma change_refines db db' : queue_wf db -> change db db' -> asteps (abs db) (abs db').
Proof.
  intros Hwf. destruct 1 as [Hj Ha|id r Hid Hf _ Hj Ha|id r lease aid a Hr Hq Hg Ht Haid Hl Ha0 Hj Ha
    |id r now e Hr Hst Ht Hj Ha|id r r' aid a a' Hr Hst Hrel Ha0 Hid Hrun Hf Hj Ha
    |id r now Hr Hq Hj Ha|id r p s now Hr Hq Hp Hj Ha|id r Hr Hq Hc _ _ _ Hj Ha].
  - unfold abs. rewrite Hj. apply rtc_refl.
  - rewrite (abs_insert _ _ _ _ Hj). destruct Hf as (Hq & Hc & Hok).
    assert (abs_job r = {| a_phase := Waiting; a_used := 0; a_budget := row_max_attempts r |}) as ->
      by (unfold abs_job, abs_phase; by rewrite Hq, Hc).
    apply rtc_once, a_submit; [|by apply Hok]. unfold abs. by rewrite lookup_fmap, Hid.
  - rewrite (abs_insert _ _ _ _ Hj). pose proof (ro_queued _ (qw_rows _ Hwf _ _ Hr) Hq) as Hb.
    assert (abs_job (leased_row_of (row_current_attempt r + 1) lease r)
      = {| a_phase := Held (lease_owner lease) (a_used (abs_job r) + 1);
           a_used := a_used (abs_job r) + 1; a_budget := a_budget (abs_job r) |}) as ->
      by (unfold abs_job, abs_phase; simpl; by rewrite Hg).
    apply rtc_once, a_grant; [by apply abs_lookup| |done]. simpl. unfold abs_phase. by rewrite Hq.
  - rewrite (abs_same _ _ _ _ _ Hr Hj); [apply rtc_refl|done].
  - rewrite (abs_insert _ _ _ _ Hj). destruct Hrel as (E1 & E2 & E3 & E4 & E5 & E6 & E7 & E8 & Hn & _ & Hq).
    assert (Hheld : a_phase (abs_job r) = Held (default EmptyString (row_lease_owner r)) (row_lease_generation r))
      by (simpl; unfold abs_phase; by rewrite Hst).
    assert (Habs : abs_job r' = set_phase (abs_phase r') (abs_job r))
      by (unfold abs_job, set_phase; simpl; by rewrite E5, E6).
    rewrite Habs. apply rtc_once. unfold abs_phase at 1. destruct (row_state r'); try done.
    + eapply a_requeue; [by apply abs_lookup|exact Hheld|by apply Hq].
    + apply a_end; [by apply abs_lookup|by rewrite Hheld].
    + apply a_end; [by apply abs_lookup|by rewrite Hheld].
    + apply a_end; [by apply abs_lookup|by rewrite Hheld].
  - rewrite (abs_insert _ _ _ _ Hj). apply rtc_once.
    change (abs_job (cancelled_row now r)) with (set_phase Ended (abs_job r)).
    apply a_end; [by apply abs_lookup|]. simpl. unfold abs_phase. by rewrite Hq.
  - rewrite (abs_same _ _ _ _ _ Hr Hj); [apply rtc_refl|done].
  - unfold abs. rewrite Hj, fmap_delete. apply rtc_once. eapply a_withdraw; [by apply abs_lookup| |done].
    simpl. unfold abs_phase. by rewrite Hq.
Qed.

Lemma changes_refine db db' : queue_wf db -> changes db db' -> asteps (abs db) (abs db').
Proof.
  intros Hwf H. induction H as [|x y z Hxy _ IH]; [apply rtc_refl|].
  etransitivity; [by apply change_refines|]. apply IH. by eapply change_wf.
Qed.

(** In the protocol, fences are the grants used, within the budget. *)
Definition protocol_inv (s : gmap string ajob) : Prop :=
  map_Forall (fun _ j => 0 <= a_used j <= a_budget j /\
    match a_phase j with
    | Held _ fence => fence = a_used j
    | Waiting => a_used j < a_budget j
    | Ended => True
    end) s.

Lemma asteps_inv s : asteps ∅ s -> protocol_inv s.
Proof.
  apply (rtc_ind_r protocol_inv); [apply map_Forall_empty|].
  intros x y _ Hs IH. destruct Hs as [id b Hn Hb|id j o Hj Hp Hu|id j o f Hj Hp Hu|id j Hj Hp|id j Hj Hp Hu].
  - apply map_Forall_insert_2; [simpl; lia|done].
  - apply map_Forall_insert_2; [|done]. apply IH in Hj. simpl in *. lia.
  - apply map_Forall_insert_2; [|done]. apply IH in Hj as [H1 _]. by split.
  - apply map_Forall_insert_2; [|done]. apply IH in Hj as [H1 _]. by split.
  - by apply map_Forall_delete.
Qed.

Section refinement.
Context `{U : UuidLib} `{L : UrlLib} `{SD : SerdeLib}.

(** C3. Refinement.  Every operation of the repository is a run of the abstract
    lease protocol (submit, grant to one owner under the next fence, requeue while
    the budget lasts, end, withdraw before the first grant); a job the protocol ended
    is never granted again, no fence is granted twice and no job more often than its
    budget allows. *)
Theorem queue_refines_lease_protocol db o :
  reachable db -> op_typed o ->
  asteps ∅ (abs db) /\ asteps (abs db) (abs (run_op o db)) /\
  forall id j, abs (run_op o db) !! id = Some j -> 0 <= a_used j <= a_budget j /\
    forall owner fence, a_phase j = Held owner fence -> fence = a_used j.
Proof.
  intros Hreach Ho. pose proof (reachable_wf _ Hreach) as Hwf. destruct Hreach as (c & v & Hs).
  assert (H1 : asteps ∅ (abs db)).
  { assert (Hwf0 : queue_wf (empty_db c v)) by (by apply empty_wf).
    pose proof (changes_refine _ _ Hwf0 (steps_changes _ _ Hwf0 Hs)) as H.
    unfold abs at 1 in H. simpl in H. by rewrite fmap_empty in H. }
  assert (H2 : asteps (abs db) (abs (run_op o db))) by (by apply changes_refine, run_op_changes).
  split; [done|]. split; [done|]. intros id j Hj.
  assert (H : asteps ∅ (abs (run_op o db))) by (by etransitivity).
  apply (asteps_inv _ H) in Hj as [Hb Hp]. split; [done|]. intros owner fence Hh. rewrite Hh in Hp. apply Hp.
Qed.
End refinement.

(** ** Acquisition *)

#[export] Instance eligible_order_pre : PreCmp eligible_order.
Proof.
  change eligible_order with (cmp_on (fun e : string * JobRow =>
      (row_priority e.2, (row_scheduled_at e.2, (row_created_at e.2, e.1))))
    (cmp_pair (cmp_reverse Z.compare) (cmp_pair Z.compare (cmp_pair Z.compare String.compare)))).
  apply _.
Qed.

(** [id] is a first eligible job, in the order of the queue. *)
Definition best_eligible (now : Z) (heavy : bool) (db : Db) (id : string) (r : JobRow) : Prop :=
  jobs db !! id = Some r /\ eligible now heavy r = true /\
  forall id' r', jobs db !! id' = Some r' -> eligible now heavy r' = true ->
    cmp_le eligible_order (id, r) (id', r').

Lemma select_eligible_spec now heavy db :
  match select_eligible_job now heavy db with
  | Some id => exists r, best_eligible now heavy db id r
  | None => forall id r, jobs db !! id = Some r -> eligible now heavy r = false
  end.
Proof.
  unfold select_eligible_job. set (l := select_where _ _).
  assert (Hin : forall id r, (id, r) ∈ sort_by eligible_order l <->
      jobs db !! id = Some r /\ eligible now heavy r = true).
  { intros id r. by rewrite elem_of_sort_by; unfold l; rewrite elem_of_select_where. }
  pose proof (sort_by_Sorted eligible_order l) as Hs.
  destruct (sort_by eligible_order l) as [|[id r] rest]; simpl.
  - intros id r Hr. destruct (eligible now heavy r) eqn:He; [|done].
    assert ((id, r) ∈ ([] : list (string * JobRow))) as H by (by apply Hin). by apply elem_of_nil in H.
  - assert (Hid : (id, r) ∈ (id, r) :: rest) by left. exists r.
    apply Hin in Hid as [Hid He]. split; [done|]. split; [done|]. intros id' r' Hr' He'.
    assert (H : (id', r') ∈ (id, r) :: rest) by (by apply Hin).
    apply elem_of_cons in H as [[= -> ->]|H]; [apply cmp_le_refl; apply _|].
    inversion Hs as [|x y Hrest Hall]; subst. rewrite Forall_forall in Hall. by apply Hall.
Qed.

Section acquisition.
Context `{U : UuidLib} `{L : UrlLib} `{SD : SerdeLib}.

(** C25. What [acquire_next] answers.  It first releases expired leases; then, if no
    queued job is due (artifact-heavy ones, which belong to a run, counting only when
    storage admits them), it answers [None] and changes nothing more; otherwise it
    leases a job that comes first by priority, schedule, creation and identity, under
    the next generation and attempt number, to the caller, until [now] plus the
    duration, with a lease no attempt ever had, and returns that job's new record. *)
Theorem acquire_next_best worker_id now duration heavy db answer db' :
  reachable db ->
  acquire_next_with_storage_admission worker_id now duration heavy db = (Ok answer, db') ->
  valid_worker_id worker_id = true /\ 0 < duration /\
  exists recovery mid, recover_expired_in_transaction now db = Ok (recovery, mid) /\
  match answer with
  | None => db' = mid /\ forall id r, jobs mid !! id = Some r -> eligible now heavy r = false
  | Some acquired => exists id r lease,
      best_eligible now heavy mid id r /\ leased id worker_id now duration r lease mid db' /\
      acquired_job acquired = record_of id (leased_row_of (row_current_attempt r + 1) lease r)
  end.
Proof.
  intros Hwf%reachable_wf H. unfold acquire_next_with_storage_admission in H.
  destruct (negb (valid_worker_id worker_id) || (duration <=? 0)) eqn:Hv; [done|]. boolify.
  split; [done|]. split; [lia|]. apply transact_ok in H.
  apply tx_bind_ok in H as (d0 & d & [-> ->]%tx_get_ok & H).
  apply tx_bind_ok in H as (u & d & [_ ->]%tx_of_ok & H).
  apply tx_bind_ok in H as (recovery & mid & Hrec & H).
  apply tx_bind_ok in H as (d0 & d & [-> ->]%tx_get_ok & H).
  exists recovery, mid. split; [done|].
  assert (Hmid : queue_wf mid) by (eapply changes_wf, tx_changes_recover; done).
  pose proof (select_eligible_spec now heavy mid) as Hsel.
  destruct (select_eligible_job now heavy mid) as [id|].
  - destruct Hsel as (r & Hbest). apply tx_bind_ok in H as (acquired & d & Hl & H).
    apply tx_ret_ok in H as [-> ->].
    apply lease_queued_inv in Hl as (x & lease & Hl & _ & Ha); [|done|lia].
    exists id, x, lease. split; [|done]. destruct Hbest as (Hr & Hbest).
    pose proof (ld_row _ _ _ _ _ _ _ _ Hl) as Hx. rewrite Hr in Hx. by injection Hx as <-.
  - by apply tx_ret_ok in H as [-> ->].
Qed.

Lemma kind_chars k :
  job_kind_new k = Ok k -> 1 <= Z.of_nat (char_count k) <= 64.
Proof.
  unfold job_kind_new. destruct (_ || _) eqn:H; [done|]. intros _. boolify. unfold char_count, byte_len, str_len in *.
  pose proof (chars_length k). split; [|lia]. destruct k as [|a k]; [done|]. simpl in *. boolify.
  assert ((byte_of a <? 128) = true) as ->; [|simpl; lia].
  unfold upper_identifier_byte, is_ascii_upper, is_ascii_digit in *. lia.
Qed.

(** The identifiers the next acquisition draws are new. *)
Definition fresh_uuids (db : Db) : Prop :=
  (forall i a, job_attempts db !! i = Some a ->
     att_lease_id a <> uuid_to_string (uuid_now_v7 (uuids_drawn db))) /\
  job_attempts db !! uuid_to_string (uuid_now_v7 (S (uuids_drawn db))) = None.

Lemma leased_check r lease :
  row_ok r -> row_current_attempt r < row_max_attempts r ->
  lease_generation lease = row_current_attempt r + 1 ->
  lease_acquired_at lease <= lease_heartbeat_at lease <= lease_expires_at lease ->
  jobs_check (leased_row_of (row_current_attempt r + 1) lease r) = true.
Proof.
  intros Hok Hb Hg Ht. destruct Hok as [H1 H2 H3 H4 H5 H6 H7]. apply kind_chars in H1.
  unfold jobs_check. simpl. unfold lease_columns_set. simpl. rewrite !andb_true_iff, !Z.leb_le.
  split_and!; try done; lia.
Qed.

Lemma checked_add_in a b : i64_min <= a + b <= i64_max -> i64_checked_add a b = Some (a + b).
Proof.
  intros H. unfold i64_checked_add.
  assert ((i64_min <=? a + b) && (a + b <=? i64_max) = true) as ->; [|done].
  apply andb_true_iff. rewrite !Z.leb_le. lia.
Qed.

Lemma tx_bind_some {E A B} (t : Tx E A) (k : A -> Tx E B) db a d :
  t db = Ok (a, d) -> tx_bind t k db = k a d.
Proof. unfold tx_bind. by intros ->. Qed.

Lemma one_row_some e t db d : t db = Ok (1%nat, d) -> one_row e t db = Ok (tt, d).
Proof. intros H. unfold one_row, tx_bind, tx_map_err. by rewrite H. Qed.

Lemma u32_below_i64 : u32_max < i64_max.
Proof. done. Qed.

(** The statement that leases a queued job goes through. *)
Lemma lease_update_goes db id r now lease :
  row_ok r -> jobs db !! id = Some r -> row_state r = Queued -> row_scheduled_at r <= now ->
  lease_generation lease = row_current_attempt r + 1 ->
  lease_acquired_at lease <= lease_heartbeat_at lease <= lease_expires_at lease ->
  one_row IllegalTransition (update_jobs true
    (fun k x => String.eqb k id && (bool_decide (row_state x = Queued) && (row_scheduled_at x <=? now)
      && (row_current_attempt x =? row_current_attempt r)))
    (leased_row_of (row_current_attempt r + 1) lease)) db
  = Ok (tt, with_jobs (<[id := leased_row_of (row_current_attempt r + 1) lease r]> (jobs db)) db).
Proof.
  intros Hok Hr Hq Hdue Hg Ht. apply one_row_some. unfold update_jobs.
  rewrite (update_where_selects _ _ _ _ id r).
  - rewrite (leased_check r lease Hok (ro_queued _ Hok Hq) Hg Ht), Hq. done.
  - apply (selects_key (fun x => bool_decide (row_state x = Queued) && (row_scheduled_at x <=? now)
      && (row_current_attempt x =? row_current_attempt r))); [done|].
    rewrite bool_decide_eq_true_2, Z.eqb_refl, andb_true_r by done. simpl. lia.
Qed.

Lemma insert_attempt_goes aid a db :
  job_attempts db !! aid = None -> attempts_check a = true -> is_Some (jobs db !! att_job_id a) ->
  (forall i b, job_attempts db !! i = Some b -> att_job_id b = att_job_id a -> att_number b <> att_number a) ->
  (forall i b, job_attempts db !! i = Some b -> att_lease_id b <> att_lease_id a) ->
  insert_attempt aid a db = Ok (tt, with_attempts (<[aid := a]> (job_attempts db)) db).
Proof.
  intros H1 H2 H3 H4 H5. unfold insert_attempt.
  rewrite (bool_decide_eq_true_2 (job_attempts db !! aid = None)), H2, bool_decide_eq_true_2 by done.
  assert (exists_where (fun _ b => bool_decide (att_job_id b = att_job_id a)
      && (att_number b =? att_number a)) (job_attempts db) = false) as ->.
  { apply exists_where_false. intros i b Hb. case_bool_decide as Hid; [|done]. simpl.
    apply Z.eqb_neq. by eapply H4. }
  assert (exists_where (fun _ b => String.eqb (att_lease_id b) (att_lease_id a)) (job_attempts db) = false) as ->.
  { apply exists_where_false. intros i b Hb. apply String.eqb_neq. by eapply H5. }
  done.
Qed.

(** The attempt of a new lease, and the record it answers. *)
Lemma lease_recorded db id r lease aid :
  queue_wf db -> jobs db !! id = Some r -> row_state r = Queued ->
  lease_generation lease = row_current_attempt r + 1 ->
  lease_acquired_at lease <= lease_heartbeat_at lease <= lease_expires_at lease ->
  (forall i a, job_attempts db !! i = Some a -> att_lease_id a <> lease_id lease) ->
  job_attempts db !! aid = None ->
  let row := leased_row_of (row_current_attempt r + 1) lease r in
  let attempt := {| att_job_id := id; att_number := row_current_attempt r + 1;
    att_lease_id := lease_id lease; att_lease_generation := row_current_attempt r + 1;
    att_worker_id := lease_owner lease; att_started_at := lease_acquired_at lease;
    att_finished_at := None; att_outcome := AttemptRunning; att_failure_code := None |} in
  forall d, jobs d = <[id := row]> (jobs db) -> job_attempts d = job_attempts db ->
  insert_attempt aid attempt d = Ok (tt, with_attempts (<[aid := attempt]> (job_attempts d)) d) /\
  select_job id (with_attempts (<[aid := attempt]> (job_attempts d)) d)
  = Ok (record_of id row, with_attempts (<[aid := attempt]> (job_attempts d)) d).
Proof.
  intros Hwf Hr Hq Hg Ht Hl Ha row attempt d Hj Hat. pose proof (qw_rows _ Hwf _ _ Hr) as Hok.
  pose proof (ro_current _ Hok) as [Hc _]. split.
  - apply insert_attempt_goes; rewrite ?Hat; simpl; try done.
    + unfold attempts_check. simpl. rewrite !andb_true_iff, !Z.leb_le. split_and!; try done; lia.
    + rewrite Hj, lookup_insert_eq. by eexists.
    + intros i b Hb Hid. destruct (qw_attempts _ Hwf _ _ Hb) as (x & Hx & Hn & _).
      rewrite Hid, Hr in Hx. injection Hx as <-. lia.
  - unfold select_job, job, tx_bind, tx_get, tx_of. simpl. rewrite Hj, lookup_insert_eq. simpl.
    rewrite job_from_row_ok; [done|]. by apply leased_row_ok.
Qed.

Lemma lease_queued_goes id r w now duration heavy db :
  queue_wf db -> jobs db !! id = Some r -> eligible now heavy r = true ->
  0 < duration -> i64_min <= now + duration <= i64_max -> fresh_uuids db ->
  exists acquired db', lease_queued_job id w now duration heavy db = Ok (acquired, db').
Proof.
  intros Hwf Hr He Hd Hfit [Hl Ha]. pose proof (qw_rows _ Hwf _ _ Hr) as Hok.
  unfold eligible in He. apply andb_true_iff in He as [He Hheavy]. boolify.
  match goal with H : row_state r = Queued |- _ => rename H into Hq end.
  pose proof (ro_queued _ Hok Hq) as Hb. pose proof (ro_max _ Hok) as [_ Hmax].
  pose proof (ro_current _ Hok) as [Hc0 _].
  unfold lease_queued_job.
  rewrite (tx_bind_some _ _ _ (record_of id r) db)
    by (unfold select_job, tx_bind, tx_get, tx_of; by rewrite (job_ok _ _ Hwf), Hr).
  rewrite (tx_bind_some _ _ _ tt db); [|apply tx_reject_ok; split; [simpl|done]].
  2:{ rewrite bool_decide_eq_true_2 by done. simpl. apply orb_false_iff. lia. }
  rewrite (tx_bind_some _ _ _ tt db); [|apply tx_reject_ok; split; [|done]].
  2:{ destruct heavy; [done|]. simpl in Hheavy. boolify. unfold storage_class. simpl.
      by match goal with H : row_crawl_run_id r = None |- _ => rewrite H end. }
  rewrite (tx_bind_some draw_uuid _ _ _ _ eq_refl). cbv zeta. cbn [job_lease_generation job_current_attempt record_of].
  rewrite (ro_generation _ Hok), (saturating_one _ _ Hb Hmax), (saturating_one_u64 _ _ Hb Hmax), (checked_add_in _ _ Hfit).
  rewrite (tx_bind_some (tx_of (ok_or QueueInvariant (Some (now + duration)))) _ _ _ _ eq_refl).
  rewrite (tx_bind_some _ _ _ (row_current_attempt r + 1) (with_drawn (S (uuids_drawn db)) db)).
  2:{ unfold tx_of, i64_of_u64. assert ((row_current_attempt r + 1 <=? i64_max) = true) as ->; [|done].
      apply Z.leb_le. pose proof u32_below_i64. lia. }
  rewrite (tx_bind_some _ _ _ _ _ (lease_update_goes (with_drawn (S (uuids_drawn db)) db) id r now
    {| lease_id := uuid_to_string (uuid_now_v7 (uuids_drawn db)); lease_owner := w;
       lease_generation := row_current_attempt r + 1; lease_acquired_at := now;
       lease_expires_at := now + duration; lease_heartbeat_at := now |} Hok Hr Hq ltac:(done) eq_refl ltac:(simpl; lia))).
  rewrite (tx_bind_some draw_uuid _ _ _ _ eq_refl). cbn [uuids_drawn with_jobs with_drawn].
  set (lease := {| lease_id := uuid_to_string _; lease_owner := w; lease_generation := _;
    lease_acquired_at := now; lease_expires_at := _; lease_heartbeat_at := now |}).
  set (d := with_drawn _ (with_jobs _ _)). set (aid := uuid_to_string (uuid_now_v7 (S _))).
  edestruct (lease_recorded db id r lease aid Hwf Hr Hq eq_refl ltac:(simpl; lia) Hl Ha d eq_refl eq_refl)
    as [Hins Hsel].
  eexists _, _. erewrite tx_bind_some; [|apply tx_map_err_ok; exact Hins].
  by erewrite tx_bind_some; [|exact Hsel].
Qed.

(** C27. Acquisition is never stuck.  With no expired lease to recover, a valid worker
    and a duration that fits, a due and admissible queued job is always leased: the
    budget, the constraints of the tables and the consistency queries never refuse. *)
Theorem acquire_never_stuck worker_id now duration heavy db id r :
  reachable db -> jobs db !! id = Some r -> eligible now heavy r = true ->
  expired_jobs now db = [] -> valid_worker_id worker_id = true ->
  0 < duration -> i64_min <= now + duration <= i64_max -> fresh_uuids db ->
  exists acquired db',
    acquire_next_with_storage_admission worker_id now duration heavy db = (Ok (Some acquired), db').
Proof.
  intros Hwf%reachable_wf Hr He Hexp Hw Hd Hfit Hf. unfold acquire_next_with_storage_admission.
  rewrite Hw. assert ((duration <=? 0) = false) as -> by lia. simpl.
  pose proof (select_eligible_spec now heavy db) as Hsel.
  destruct (select_eligible_job now heavy db) as [k|] eqn:Hk; [|by rewrite (Hsel _ _ Hr) in He].
  destruct Hsel as (x & Hx & Hex & _).
  destruct (lease_queued_goes k x worker_id now duration heavy db Hwf Hx Hex Hd Hfit Hf) as (a & d & Hl).
  exists a, d. apply transact_ok.
  rewrite (tx_bind_some tx_get _ _ _ _ eq_refl).
  rewrite (tx_bind_some _ _ _ tt db).
  2:{ apply tx_of_ok. unfold ensure_queue_invariants. by rewrite (wf_consistent _ Hwf). }
  rewrite (tx_bind_some _ _ _ no_recovery db).
  2:{ unfold recover_expired_in_transaction. rewrite (tx_bind_some tx_get _ _ _ _ eq_refl). by rewrite Hexp. }
  rewrite (tx_bind_some tx_get _ _ _ _ eq_refl), Hk. by rewrite (tx_bind_some _ _ _ _ _ Hl).
Qed.
End acquisition.

(** ** Stale recovery *)

(** No lease is granted or renewed. *)
Definition only_releases (db db' : Db) : Prop :=
  forall id r, jobs db' !! id = Some r -> row_state r = Running -> jobs db !! id = Some r.

Lemma only_releases_same db db' : jobs db' = jobs db -> only_releases db db'.
Proof. unfold only_releases. by intros ->. Qed.

Lemma only_releases_refl db : only_releases db db.
Proof. by apply only_releases_same. Qed.

Lemma only_releases_trans db1 db2 db3 :
  only_releases db1 db2 -> only_releases db2 db3 -> only_releases db1 db3.
Proof. intros H1 H2 id r Hr Hst. apply H1; [by apply H2|done]. Qed.

Lemma only_releases_insert db db' id r :
  jobs db' = <[id := r]> (jobs db) -> row_state r <> Running -> only_releases db db'.
Proof. unfold only_releases. intros -> Hst k x [[<- <-]|[_ Hx]]%lookup_insert_Some Hrun; done. Qed.

Lemma closed_releases_only id lease now outcome failure f db db' :
  closed id lease now outcome failure f db db' ->
  (forall r, jobs db !! id = Some r -> row_state (f r) <> Running) ->
  only_releases db db' /\ forall r, jobs db' !! id = Some r -> row_state r <> Running.
Proof.
  intros (r & i & a & Hr & _ & _ & _ & _ & _ & ->) Hf. split.
  - eapply only_releases_insert; [done|by apply Hf].
  - intros x Hx. simpl in Hx. rewrite lookup_insert_eq in Hx. injection Hx as <-. by apply Hf.
Qed.

Lemma stale_next_stops d r : stale_next d r <> Running.
Proof. unfold stale_next. by destruct (_ && _). Qed.

Definition expired (now : Z) (r : JobRow) : Prop :=
  row_state r = Running /\ exists e, row_lease_expires_at r = Some e /\ e <= now.

Lemma elem_of_expired_jobs now db id :
  id ∈ expired_jobs now db <-> exists r, jobs db !! id = Some r /\ expired now r.
Proof.
  unfold expired_jobs. rewrite elem_of_map. split.
  - intros ([k r] & -> & [Hr Hp]%elem_of_select_where). boolify. exists r. split; [done|]. split; [done|].
    destruct (row_lease_expires_at r) as [e|]; [|done]. exists e. split; [done|]. lia.
  - intros (r & Hr & Hst & e & He & Hle). exists (id, r). split; [done|]. apply elem_of_select_where.
    split; [done|]. rewrite bool_decide_eq_true_2, He by done. simpl. lia.
Qed.

Section recovery.
Context `{U : UuidLib} `{L : UrlLib} `{SD : SerdeLib}.

Lemma tx_quiet_finalize job now : tx_quiet (finalize_crawl_failure_in_transaction job now).
Proof.
  intros db u db' H. unfold finalize_crawl_failure_in_transaction in H.
  apply tx_bind_ok in H as (run & d & [_ ->]%tx_of_ok & H).
  apply tx_bind_ok in H as (u1 & d & Ht & H). apply tx_map_err_ok in Ht.
  unfold transition_execution_status_in_transaction in Ht. simpl in Ht.
  apply transition_from_inv in Ht as (x & _ & _ & ->).
  apply tx_bind_ok in H as (event & d & [_ ->]%tx_of_ok & H).
  apply tx_bind_ok in H as (e & d & He & H). apply tx_ret_ok in H as [_ ->].
  by apply tx_map_err_ok, append_inv in He as (_ & _ & _ & _ & _ & _ & ->).
Qed.

(** What a terminal run makes of a job. *)
Lemma reconcile_inv id status now db o db' :
  queue_wf db -> reconcile_terminal_job_in_transaction id status now db = Ok (o, db') ->
  match o with
  | None => db' = db /\ run_is_terminal status = false
  | Some rec => is_terminal (reconciled_state rec) = true /\ exists r, jobs db !! id = Some r /\
      ((row_state r = reconciled_state rec /\ db' = db) \/
       exists lease outcome failure, row_state r = Running /\
         closed id lease now outcome failure (closed_row (reconciled_state rec) failure now) db db')
  end.
Proof.
  intros Hwf H. unfold reconcile_terminal_job_in_transaction in H.
  destruct (terminal_outcome status) as [[[[s outcome] failure] progress]|] eqn:Ht.
  2:{ apply tx_ret_ok in H as [-> ->]. split; [done|]. by destruct status. }
  apply tx_bind_ok in H as (j & d & Hj & H). destruct (select_job_inv _ _ _ _ Hwf Hj) as (r & Hr & -> & ->).
  apply tx_bind_ok in H as (u & d & Hu & H). apply tx_ret_ok in H as [-> ->]. cbn [reconciled_state].
  apply terminal_outcome_state in Ht as (Hs1 & Hs2 & _).
  split; [by destruct s|]. exists r. split; [done|]. cbn [job_state record_of] in Hu.
  destruct (row_state r) eqn:Hst; [done| |left..].
  - right. apply tx_bind_ok in Hu as (lease & d' & [_ ->]%tx_of_ok & Hu).
    apply tx_bind_ok in Hu as (u1 & d' & Hfin & Hu).
    destruct (close_inv _ _ _ _ _ _ _ _ _ _ _ Hfin Hu) as [_ Hc]. by exists lease, outcome, failure.
  - apply tx_reject_ok in Hu as [Hb ->]. by boolify.
  - apply tx_reject_ok in Hu as [Hb ->]. by boolify.
  - apply tx_reject_ok in Hu as [Hb ->]. by boolify.
Qed.

Lemma reconcile_releases id status now db o db' :
  queue_wf db -> reconcile_terminal_job_in_transaction id status now db = Ok (o, db') ->
  only_releases db db' /\
  (is_Some o -> forall r, jobs db' !! id = Some r -> row_state r <> Running).
Proof.
  intros Hwf H. apply reconcile_inv in H; [|done]. destruct o as [rec|].
  - destruct H as (Ht & r & Hr & [[Hst ->]|(lease & outcome & failure & Hst & Hc)]).
    + split; [apply only_releases_refl|]. intros _ x Hx. rewrite Hr in Hx. injection Hx as <-.
      rewrite Hst. by destruct (reconciled_state rec).
    + apply closed_releases_only in Hc; [naive_solver|]. intros x _. simpl.
      by destruct (reconciled_state rec).
  - destruct H as [-> _]. split; [apply only_releases_refl|]. by intros [? ?].
Qed.

Lemma row_lease_expiry r l : row_lease r = Some l -> row_lease_expires_at r = Some (lease_expires_at l).
Proof.
  unfold row_lease. intros H.
  repeat (match type of H with context [?o ≫= _] => destruct o; [|done] end; simpl in H).
  by injection H as <-.
Qed.

Lemma recover_one_releases now acc id db b db' :
  queue_wf db -> recover_one now acc id db = Ok (b, db') ->
  only_releases db db' /\ forall r, jobs db' !! id = Some r -> ~ expired now r.
Proof.
  intros Hwf H. destruct (recover_one_inv _ _ _ _ _ _ Hwf H) as (r & Hr & Hrec).
  destruct Hrec as [l Hl Hlive -> | l run rec _ Hf | l d mid _ Hcl Htail].
  - split; [apply only_releases_refl|]. intros x Hx (_ & e & He & Hle). rewrite Hr in Hx.
    injection Hx as <-. apply row_lease_expiry in Hl. rewrite Hl in He. injection He as <-. lia.
  - unfold finish_after_terminal_crawl_run in Hf. apply tx_bind_ok in Hf as (d0 & d & [-> ->]%tx_get_ok & Hf).
    destruct (select_crawl_run_status run db) as [st|]; [|by apply tx_ret_ok in Hf as [? _]].
    apply reconcile_releases in Hf as [H1 H2]; [|done]. split; [done|].
    intros x Hx [Hst _]. by apply (H2 ltac:(by eexists) x Hx).
  - apply closed_releases_only in Hcl as [H1 H2].
    2:{ intros x _. apply stale_next_stops. }
    assert (jobs db' = jobs mid) as Hj.
    { destruct (_ && _); [by apply tx_quiet_finalize in Htail as [? _]|].
      by apply tx_ret_ok in Htail as [_ ->]. }
    split; [eapply only_releases_trans; [exact H1|by apply only_releases_same]|].
    rewrite Hj. intros x Hx [Hst _]. by apply (H2 x Hx).
Qed.

Lemma recover_fold_releases now l : forall acc db b db',
  queue_wf db -> tx_fold (recover_one now) l acc db = Ok (b, db') ->
  only_releases db db' /\ forall id, id ∈ l -> forall r, jobs db' !! id = Some r -> ~ expired now r.
Proof.
  induction l as [|id l IH]; intros acc db b db' Hwf H; simpl in H.
  { apply tx_ret_ok in H as [_ ->]. split; [apply only_releases_refl|]. by intros id ?%elem_of_nil. }
  apply tx_bind_ok in H as (acc' & mid & H1 & H2).
  assert (Hmid : queue_wf mid) by (eapply changes_wf, tx_changes_recover_one; done).
  apply recover_one_releases in H1 as [R1 E1]; [|done]. apply IH in H2 as [R2 E2]; [|done].
  split; [by eapply only_releases_trans|]. intros k [->|Hk]%elem_of_cons; [|by apply E2].
  intros r Hr He. refine (E1 r _ He). apply R2; [exact Hr|apply He].
Qed.

Lemma recover_expired_releases now db b db' :
  queue_wf db -> recover_expired_in_transaction now db = Ok (b, db') ->
  only_releases db db' /\ forall id r, jobs db' !! id = Some r -> ~ expired now r.
Proof.
  intros Hwf H. unfold recover_expired_in_transaction in H.
  apply tx_bind_ok in H as (d0 & d & [-> ->]%tx_get_ok & H).
  apply recover_fold_releases in H as [R E]; [|done]. split; [done|].
  intros id r Hr He. eapply E; [|exact Hr|exact He]. apply elem_of_expired_jobs.
  exists r. split; [|done]. by apply R, He.
Qed.

Lemma reconcile_fold_releases now l : forall acc db (b : list (string * ProgressTerminalState)) db',
  queue_wf db ->
  tx_fold (fun repairs e =>
    let! reconciliation := reconcile_terminal_job_in_transaction e.1 e.2 now in
    tx_ret match reconciliation with
           | Some r => repairs ++ [(e.1, reconciled_progress r)]
           | None => repairs
           end) l acc db = Ok (b, db') -> only_releases db db'.
Proof.
  induction l as [|[id st] l IH]; intros acc db b db' Hwf H; simpl in H.
  { apply tx_ret_ok in H as [_ ->]. apply only_releases_refl. }
  apply tx_bind_ok in H as (acc' & mid & H1 & H2).
  apply tx_bind_ok in H1 as (o & d & H1 & Hr). apply tx_ret_ok in Hr as [-> ->].
  assert (Hmid : queue_wf d) by (eapply changes_wf, tx_changes_reconcile; done).
  apply reconcile_releases in H1 as [R1 _]; [|done]. eapply only_releases_trans; [exact R1|].
  by eapply IH.
Qed.

Lemma terminal_progress_quiet id terminal now db r db' :
  append_terminal_progress_if_missing id terminal now db = (r, db') ->
  jobs db' = jobs db /\ job_attempts db' = job_attempts db.
Proof.
  unfold append_terminal_progress_if_missing, transact.
  destruct (append_terminal_progress_if_missing_in_transaction id terminal now db) as [[u d]|e] eqn:H;
    intros [= _ <-]; [|done].
  unfold append_terminal_progress_if_missing_in_transaction in H.
  apply tx_bind_ok in H as (d0 & d1 & [-> ->]%tx_get_ok & H).
  apply tx_bind_ok in H as (n & d1 & [_ ->]%tx_of_ok & H). case_match; [done|]. case_match.
  - by apply tx_ret_ok in H as [_ ->].
  - apply tx_bind_ok in H as (event & d1 & [_ ->]%tx_of_ok & H).
    apply tx_bind_ok in H as (e & d1 & He & H). apply tx_ret_ok in H as [_ ->].
    by apply tx_map_err_ok, append_inv in He as (_ & _ & _ & _ & _ & _ & ->).
Qed.

Lemma repair_quiet repairs now : forall db r db',
  repair_progress repairs now db = (r, db') -> jobs db' = jobs db.
Proof.
  induction repairs as [|[id t] repairs IH]; intros db r db' H; simpl in H; [by injection H as _ <-|].
  destruct (append_terminal_progress_if_missing id t now db) as [[u|e] d] eqn:Ht;
    apply terminal_progress_quiet in Ht as [Ht _].
  - apply IH in H. congruence.
  - injection H as _ <-. done.
Qed.

Lemma recover_stale_releases now db recovery db' :
  queue_wf db -> recover_stale_jobs now db = (Ok recovery, db') ->
  only_releases db db' /\ forall id r, jobs db' !! id = Some r -> ~ expired now r.
Proof.
  intros Hwf H. unfold recover_stale_jobs in H. destruct (transact _ db) as [[n|e] mid] eqn:Ht; [|done].
  apply transact_ok in Ht. apply tx_bind_ok in Ht as (d0 & d & [-> ->]%tx_get_ok & Ht).
  apply tx_bind_ok in Ht as (u & d & [_ ->]%tx_of_ok & Ht).
  assert (Hmid : queue_wf mid) by (eapply changes_wf, tx_changes_recover; [exact Hwf|exact Hwf|exact Ht]).
  apply recover_expired_releases in Ht as [R1 E1]; [|done].
  assert (R2 : only_releases mid db').
  { destruct (reconcile_terminal_crawl_runs now mid) as [[u'|e] d] eqn:Hr; [|done]. injection H as _ <-.
    unfold reconcile_terminal_crawl_runs in Hr.
    destruct (transact _ mid) as [[repairs|e] d'] eqn:Ht'; [|done]. apply transact_ok in Ht'.
    apply repair_quiet in Hr. apply tx_bind_ok in Ht' as (d0 & d1 & [-> ->]%tx_get_ok & Ht').
    apply reconcile_fold_releases in Ht'; [|done]. intros k x Hx. rewrite Hr in Hx. by apply Ht'. }
  split; [by eapply only_releases_trans|].
  intros id r Hr He. refine (E1 id r _ He). apply R2; [exact Hr|apply He].
Qed.

(** C29. Stale recovery is complete.  When it answers, no job runs under an expired
    lease, no lease was granted or renewed, and every job whose lease had expired is
    still there with no lease and no running attempt, queued again only if it has an
    attempt left. *)
Theorem recovery_is_complete now db recovery db' :
  reachable db -> recover_stale_jobs now db = (Ok recovery, db') ->
  only_releases db db' /\
  (forall id r, jobs db' !! id = Some r -> row_state r = Running ->
     exists e, row_lease_expires_at r = Some e /\ now < e) /\
  (forall id, id ∈ expired_jobs now db -> exists r, jobs db' !! id = Some r /\
     row_state r <> Running /\ no_lease r /\
     (row_state r = Queued -> row_current_attempt r < row_max_attempts r) /\
     forall i a, job_attempts db' !! i = Some a -> att_job_id a = id -> att_outcome a <> AttemptRunning).
Proof.
  intros Hwf%reachable_wf H. pose proof (recover_changes now _ _ _ Hwf H) as Hc.
  pose proof (changes_wf _ _ Hwf Hc) as Hwf'. pose proof (changes_evolves _ _ Hwf Hc) as Hev.
  apply recover_stale_releases in H as [R Hlive]; [|done].
  split; [done|]. split.
  - intros id r Hr Hst. pose proof (ro_lease _ (qw_rows _ Hwf' _ _ Hr)) as Hl.
    rewrite decide_True in Hl by done. destruct Hl as (_ & l & _ & _ & _ & _ & Hexp & _).
    exists (lease_expires_at l). split; [done|]. apply Z.nle_gt. intros Hle. apply (Hlive id r Hr).
    split; [done|]. by exists (lease_expires_at l).
  - intros id Hid. apply elem_of_expired_jobs in Hid as (r0 & Hr0 & He0).
    pose proof (ro_lease _ (qw_rows _ Hwf _ _ Hr0)) as Hl0. destruct He0 as [Hst0 He0].
    rewrite decide_True in Hl0 by done.
    destruct (ev_jobs _ _ Hev id r0 Hr0) as (r & Hr & _); [left; apply Hl0|].
    assert (Hst : row_state r <> Running).
    { intros Hst. assert (Hback : jobs db !! id = Some r) by (by apply R).
      rewrite Hr0 in Hback. injection Hback as <-. by apply (Hlive id r0 Hr). }
    exists r. pose proof (qw_rows _ Hwf' _ _ Hr) as Hok. split; [done|]. split; [done|].
    split; [pose proof (ro_lease _ Hok) as Hl; by rewrite decide_False in Hl|].
    split; [apply (ro_queued _ Hok)|]. intros i a Ha Hai Hrun.
    destruct (attempt_running_lease _ _ _ r Hwf' Ha Hrun) as [? _]; congruence.
Qed.
End recovery.

(** * Witnesses *)

Section runs_of_ops.
Context `{U : UuidLib} `{L : UrlLib} `{SD : SerdeLib}.

(** The database a sequence of operations makes of an empty one. *)
Definition run_ops (crawler_ids version_ids : gset string) (ops : list queue_op) : Db :=
  foldl (fun db o => run_op o db) (empty_db crawler_ids version_ids) ops.

Lemma run_ops_reachable c v ops : Forall op_typed ops -> reachable (run_ops c v ops).
Proof.
  intros H. exists c, v. unfold run_ops. generalize (empty_db c v). induction H as [|o ops Ho _ IH]; intros db.
  - apply rtc_refl.
  - simpl. eapply rtc_l; [by exists o|]. apply IH.
Qed.
End runs_of_ops.

Definition ex_job : NewJob :=
  {| nj_id := "j"; nj_kind := "QUICK_SCRAPE"; nj_priority := 0; nj_parent_job_id := None;
     nj_crawl_run_id := None; nj_scheduled_at := 0; nj_max_attempts := 2 |}.

Lemma ex_job_ok : new_job_ok ex_job.
Proof. split; [reflexivity|simpl; lia|simpl; unfold u32_max; lia|discriminate]. Qed.

(** One job, leased by [w] from 1 to 11. *)
Definition ex_ops : list (queue_op (U := plain_uuid) (L := plain_url)) :=
  [OpEnqueue ex_job 0; OpAcquire "w" 1 10 true].
Definition ex_queued : Db :=
  run_ops (U := plain_uuid) (L := plain_url) (SD := plain_serde) ∅ ∅ (take 1 ex_ops).
Definition ex_leased : Db :=
  run_ops (U := plain_uuid) (L := plain_url) (SD := plain_serde) ∅ ∅ ex_ops.

Lemma ex_ops_typed n : Forall op_typed (take n ex_ops).
Proof.
  apply Forall_take. apply Forall_cons. split; [exact ex_job_ok|].
  apply Forall_cons. split; [exact I|constructor].
Qed.

Lemma ex_queued_reachable : reachable (U := plain_uuid) (L := plain_url) (SD := plain_serde) ex_queued.
Proof. apply run_ops_reachable, ex_ops_typed. Qed.
Lemma ex_leased_reachable : reachable (U := plain_uuid) (L := plain_url) (SD := plain_serde) ex_leased.
Proof. apply run_ops_reachable. apply (ex_ops_typed 2). Qed.

Definition ex_lease : JobLease :=
  {| lease_id := uuid_to_string (uuid_now_v7 (UuidLib := plain_uuid) 0); lease_owner := "w";
     lease_generation := 1; lease_acquired_at := 1; lease_expires_at := 11; lease_heartbeat_at := 1 |}.

Definition ex_row : JobRow := leased_row_of 1 ex_lease (queued_row ex_job None None 0).

Lemma ex_leased_row : jobs ex_leased !! "j"%string = Some ex_row.
Proof. vm_compute. reflexivity. Qed.

Lemma ex_acquired : exists a,
  acquire_next_with_storage_admission (U := plain_uuid) (SD := plain_serde) "w" 1 10 true ex_queued
  = (Ok (Some a), ex_leased).
Proof. eexists. vm_compute. reflexivity. Qed.

Lemma queue_invariant_witness : check_invariants ex_leased = Ok tt.
Proof. apply (queue_invariant (U := plain_uuid) (L := plain_url) (SD := plain_serde)), ex_leased_reachable. Defined.

Lemma evidence_is_final_witness : exists r, jobs ex_leased !! "j"%string = Some r /\ later_row ex_row r.
Proof.
  destruct (evidence_is_final (U := plain_uuid) (L := plain_url) (SD := plain_serde) ex_leased ex_leased) as [H _].
  - exact ex_leased_reachable.
  - apply rtc_refl.
  - destruct (H "j"%string ex_row) as (r & Hr & Hl).
    + exact ex_leased_row.
    + left. simpl. lia.
    + by exists r.
Defined.

(** At 11 the lease of [w] has expired. *)
Lemma stale_lease_fenced_witness :
  succeed "j" ex_lease 11 ex_leased = (Err LeaseLost, ex_leased).
Proof.
  destruct (stale_lease_fenced (U := plain_uuid) (L := plain_url) (SD := plain_serde)
    "j" ex_lease ex_row ex_leased ex_leased 11) as (_ & H & _).
  - exact ex_leased_reachable.
  - apply rtc_refl.
  - exact ex_leased_row.
  - simpl. lia.
  - right. simpl. lia.
  - rewrite H, ex_leased_row. reflexivity.
Defined.

Lemma queue_refines_lease_protocol_witness : asteps ∅ (abs ex_leased).
Proof.
  apply (queue_refines_lease_protocol (U := plain_uuid) (L := plain_url) (SD := plain_serde)
    ex_leased (OpRecover 11) ex_leased_reachable). exact I.
Defined.

Lemma acquire_next_best_witness : exists recovery mid id r,
  recover_expired_in_transaction (U := plain_uuid) (SD := plain_serde) 1 ex_queued = Ok (recovery, mid) /\
  best_eligible 1 true mid id r.
Proof.
  destruct ex_acquired as [a Ha].
  destruct (acquire_next_best (U := plain_uuid) (L := plain_url) (SD := plain_serde)
    "w" 1 10 true ex_queued (Some a) ex_leased) as (_ & _ & recovery & mid & Hrec & id & r & lease & Hbest & _).
  - exact ex_queued_reachable.
  - exact Ha.
  - by exists recovery, mid, id, r.
Defined.

Lemma acquire_never_stuck_witness : exists a db',
  acquire_next_with_storage_admission (U := plain_uuid) (SD := plain_serde) "w" 1 10 true ex_queued = (Ok (Some a), db').
Proof.
  apply (acquire_never_stuck (U := plain_uuid) (L := plain_url) (SD := plain_serde)
    "w" 1 10 true ex_queued "j" (queued_row ex_job None None 0)).
  - exact ex_queued_reachable.
  - vm_compute. reflexivity.
  - vm_compute. reflexivity.
  - vm_compute. reflexivity.
  - vm_compute. reflexivity.
  - lia.
  - vm_compute. split; discriminate.
  - split.
    + intros i a H. assert (Hn : job_attempts ex_queued = ∅) by (vm_compute; reflexivity).
      rewrite Hn, lookup_empty in H. discriminate H.
    + vm_compute. reflexivity.
Defined.

(** At 11 the lease of [w] expires; the job goes back to the queue. *)
Lemma ex_recovered : exists n db',
  recover_stale_jobs (U := plain_uuid) (SD := plain_serde) 11 ex_leased = (Ok n, db').
Proof. eexists _, _. vm_compute. reflexivity. Qed.

Lemma recovery_is_complete_witness : exists n db' r,
  recover_stale_jobs (U := plain_uuid) (SD := plain_serde) 11 ex_leased = (Ok n, db') /\
  jobs db' !! "j"%string = Some r /\ row_state r <> Running /\ no_lease r.
Proof.
  destruct ex_recovered as (n & db' & H). exists n, db'.
  destruct (recovery_is_complete (U := plain_uuid) (L := plain_url) (SD := plain_serde) 11 ex_leased n db')
    as (_ & _ & Hexp).
  - exact ex_leased_reachable.
  - exact H.
  - destruct (Hexp "j"%string) as (r & Hr & Hs & Hl & _).
    + apply elem_of_expired_jobs. exists ex_row. split; [exact ex_leased_row|].
      split; [reflexivity|]. exists 11. split; [reflexivity|lia].
    + exists r. split; [exact H|]. split; [exact Hr|]. split; [exact Hs|exact Hl].
Defined.
