(* ===== verification/JobEvidence.v ===== *)
(** * The job queue: lineage, reconciliation and progress evidence

    Job lineages are finite, so that the walk to the latest checkpoint ends; a
    finished job whose run finishes otherwise makes reconciliation refuse; and every
    operation of the queue keeps the progress streams of [Progress.v] well formed. *)

From S2P Require Import Prelude Externals JsonFacts Base Instances Settings Snapshot Store.
From S2P Require Import Progress Checkpoint Runs JobQueue JobInvariants JobTheorems.

(** ** Lineage *)

(** Every parent exists and ranks below its children. *)
Definition ranked_by (rank : string -> nat) (db : Db) : Prop :=
  forall id r p, jobs db !! id = Some r -> row_parent_job_id r = Some p ->
    is_Some (jobs db !! p) /\ (rank p < rank id)%nat.

Definition ranked (db : Db) : Prop := exists rank, ranked_by rank db.

Lemma ranked_row db db' id r r' :
  jobs db !! id = Some r -> jobs db' = <[id := r']> (jobs db) ->
  row_parent_job_id r' = row_parent_job_id r -> ranked db -> ranked db'.
Proof.
  intros Hr Hj Hp [rank H]. exists rank. intros k x p Hk Hx. rewrite Hj in *.
  assert (is_Some (jobs db !! p) /\ (rank p < rank k)%nat) as [H1 H2].
  { apply lookup_insert_Some in Hk as [[<- <-]|[_ Hk]]; [|by eapply H].
    eapply H; [exact Hr|congruence]. }
  split; [|done]. destruct (decide (p = id)) as [->|Hne].
  - rewrite lookup_insert_eq. by eexists.
  - by rewrite lookup_insert_ne.
Qed.

Lemma ranked_insert db db' id r :
  jobs db !! id = None -> jobs db' = <[id := r]> (jobs db) ->
  (forall p, row_parent_job_id r = Some p -> is_Some (jobs db !! p)) -> ranked db -> ranked db'.
Proof.
  intros Hid Hj Hpar [rank H].
  exists (fun k => if decide (k = id) then S (from_option rank 0%nat (row_parent_job_id r)) else rank k).
  intros k x p Hk Hx. rewrite Hj in *.
  apply lookup_insert_Some in Hk as [[<- <-]|[Hne Hk]].
  - pose proof (Hpar _ Hx) as Hp. assert (p <> id) as Hpi by (intros ->; rewrite Hid in Hp; by destruct Hp).
    rewrite lookup_insert_ne by done. split; [done|].
    rewrite decide_False, decide_True, Hx by done. simpl. lia.
  - destruct (H _ _ _ Hk Hx) as [Hp Hlt].
    assert (p <> id) as Hpi by (intros ->; rewrite Hid in Hp; by destruct Hp).
    rewrite lookup_insert_ne by done. split; [done|]. by rewrite !decide_False.
Qed.

Lemma change_ranked db db' : change db db' -> ranked db -> ranked db'.
Proof.
  destruct 1 as [Hj Ha|id r Hid Hf Hp Hj Ha|id r lease aid a Hr Hq Hg Ht Haid Hl Ha0 Hj Ha
    |id r now e Hr Hst Ht Hj Ha|id r r' aid a a' Hr Hst Hrel Ha0 Hid Hrun Hf Hj Ha
    |id r now Hr Hq Hj Ha|id r p s now Hr Hq Hp Hj Ha|id r Hr Hq Hc _ _ Hkids Hj Ha].
  - intros [rank H]. exists rank. intros k x p. rewrite Hj. apply H.
  - by eapply ranked_insert.
  - by eapply ranked_row.
  - by eapply ranked_row.
  - eapply ranked_row; [exact Hr|exact Hj|]. by destruct Hrel as (_ & _ & ? & _).
  - by eapply ranked_row.
  - by eapply ranked_row.
  - intros [rank H]. exists rank. intros k x p. rewrite Hj. intros [Hne Hk]%lookup_delete_Some Hx.
    destruct (H _ _ _ Hk Hx) as [Hp Hlt]. split; [|done]. rewrite lookup_delete_ne; [done|].
    intros <-. by apply (Hkids _ _ Hk).
Qed.

Lemma changes_ranked db db' : changes db db' -> ranked db -> ranked db'.
Proof. induction 1; eauto using change_ranked. Qed.

(** [ids] are the ancestors of [id], itself first, up to a job without a parent. *)
Inductive ancestors (db : Db) : string -> list string -> Prop :=
| ancestors_root id r :
    jobs db !! id = Some r -> row_parent_job_id r = None -> ancestors db id [id]
| ancestors_child id r p ids :
    jobs db !! id = Some r -> row_parent_job_id r = Some p -> ancestors db p ids ->
    ancestors db id (id :: ids).

Lemma ancestors_exist rank db : ranked_by rank db ->
  forall n id r, (rank id < n)%nat -> jobs db !! id = Some r ->
  exists ids, ancestors db id ids /\ NoDup ids /\
    Forall (fun k => is_Some (jobs db !! k) /\ (rank k <= rank id)%nat) ids.
Proof.
  intros H. induction n as [|n IH]; intros id r Hn Hr; [lia|].
  destruct (row_parent_job_id r) as [p|] eqn:Hp.
  - destruct (H _ _ _ Hr Hp) as [[x Hx] Hlt].
    destruct (IH p x) as (ids & Ha & Hnd & Hall); [lia|done|]. exists (id :: ids). split; [|split].
    + by eapply ancestors_child.
    + constructor; [|done]. intros Hin. rewrite Forall_forall in Hall. apply Hall in Hin as [_ Hin]. lia.
    + constructor; [split; [by eexists|lia]|]. eapply Forall_impl; [exact Hall|].
      intros k [Hk Hle]. split; [done|lia].
  - exists [id]. split; [by eapply ancestors_root|]. split; [apply NoDup_singleton|].
    repeat constructor. by eexists.
Qed.

Section lineage.
Context `{U : UuidLib} `{L : UrlLib} `{SD : SerdeLib}.

Lemma reachable_ranked db : reachable db -> ranked db.
Proof.
  intros (c & v & H). eapply changes_ranked; [apply steps_changes, H; by apply empty_wf|].
  exists (fun _ => 0%nat). intros id r p Hr. simpl in Hr. by rewrite lookup_empty in Hr.
Qed.

Lemma lineage_ancestors db id ids : queue_wf db -> ancestors db id ids ->
  forall fuel, (length ids <= fuel)%nat -> lineage fuel id db = Some (Ok ids).
Proof.
  intros Hwf. induction 1 as [id r Hr Hp|id r p ids Hr Hp _ IH]; intros [|fuel] Hf; simpl in *; try lia;
    rewrite (job_ok _ _ Hwf), Hr; simpl; rewrite Hp; [done|].
  by rewrite (IH fuel) by lia.
Qed.

(** Lineages end.  The walk from any job to its parents visits distinct jobs and
    reaches one without a parent in at most as many steps as there are jobs: with that
    fuel the loop of [latest_checkpoint_for_lineage] always ends, and answers the
    first checkpoint found along those ancestors. *)
Theorem lineage_terminates db id r :
  reachable db -> jobs db !! id = Some r ->
  exists ids, ancestors db id ids /\ NoDup ids /\
    forall fuel, (size (jobs db) <= fuel)%nat ->
      lineage fuel id db = Some (Ok ids) /\
      latest_checkpoint_for_lineage fuel id db = Some (first_checkpoint ids db).
Proof.
  intros Hreach Hr. pose proof (reachable_wf _ Hreach) as Hwf.
  destruct (reachable_ranked _ Hreach) as [rank Hrank].
  destruct (ancestors_exist rank db Hrank (S (rank id)) id r) as (ids & Ha & Hnd & Hall); [lia|done|].
  exists ids. split; [done|]. split; [done|]. intros fuel Hf.
  assert (Hlen : (length ids <= size (jobs db))%nat).
  { rewrite <- (size_dom (D := gset string)), <- (size_list_to_set (C := gset string) ids) by done.
    apply subseteq_size. intros k Hk%elem_of_list_to_set. rewrite Forall_forall in Hall.
    apply elem_of_dom. by apply Hall. }
  assert (Hl : lineage fuel id db = Some (Ok ids)) by (by apply lineage_ancestors; [| |lia]).
  split; [done|]. unfold latest_checkpoint_for_lineage. by rewrite Hl.
Qed.
End lineage.

(** ** Reconciliation with terminal runs *)

Section reconciliation.
Context `{U : UuidLib} `{L : UrlLib} `{SD : SerdeLib}.

(** The job's row and its run's outcome contradict each other. *)
Definition contradicts (s : JobState) (status : CrawlRunStatus) : Prop :=
  is_terminal s = true /\ exists s' outcome failure progress,
    terminal_outcome status = Some (s', outcome, failure, progress) /\ s' <> s.

Lemma reconcile_contradiction id r status now db :
  queue_wf db -> jobs db !! id = Some r -> contradicts (row_state r) status ->
  reconcile_terminal_job_in_transaction id status now db = Err QueueInvariant.
Proof.
  intros Hwf Hr (Ht & s & outcome & failure & progress & Hs & Hne).
  unfold reconcile_terminal_job_in_transaction. rewrite Hs.
  rewrite (tx_bind_some _ _ _ (record_of id r) db)
    by (unfold select_job, tx_bind, tx_get, tx_of; by rewrite (job_ok _ _ Hwf), Hr).
  cbn [job_state record_of].
  assert (Hb : negb (bool_decide (row_state r = s)) = true)
    by (rewrite bool_decide_eq_false_2; [done|congruence]).
  unfold tx_bind. destruct (row_state r); try done; unfold tx_reject, tx_of; by rewrite Hb.
Qed.

(** One contradiction anywhere in the list fails the whole transaction. *)
Lemma reconcile_fold_contradiction now l id r status : forall db acc,
  queue_wf db -> (id, status) ∈ l -> jobs db !! id = Some r -> contradicts (row_state r) status ->
  exists e, tx_fold (fun repairs e =>
    let! reconciliation := reconcile_terminal_job_in_transaction e.1 e.2 now in
    tx_ret match reconciliation with
           | Some r => repairs ++ [(e.1, reconciled_progress r)]
           | None => repairs
           end) l acc db = Err (A := list (string * ProgressTerminalState) * Db) e.
Proof.
  induction l as [|[k st] l IH]; intros db acc Hwf Hin Hr Hc; [by apply elem_of_nil in Hin|].
  cbn [tx_fold fst snd]. unfold tx_bind at 1 2.
  destruct (reconcile_terminal_job_in_transaction k st now db) as [[o d]|e] eqn:H; [|by eexists].
  apply elem_of_cons in Hin as [[= <- <-]|Hin]; [by rewrite (reconcile_contradiction _ _ _ _ _ Hwf Hr Hc) in H|].
  pose proof (tx_changes_reconcile _ _ _ _ _ _ Hwf H) as Hd.
  destruct (ev_jobs _ _ (changes_evolves _ _ Hwf Hd) _ _ Hr) as (r' & Hr' & Hl); [right; apply Hc|].
  rewrite (lr_terminal _ _ Hl) in Hr' by apply Hc.
  apply IH; [by eapply changes_wf|done..].
Qed.

(** A contradiction blocks startup.  When a finished job belongs to a run whose
    terminal status stands for another outcome - what a job keeps after a same-run
    recovery child takes its run to success - reconciliation refuses and rolls back,
    and so, with no expired lease around, does the recovery every startup performs. *)
Theorem contradiction_blocks_reconciliation db id r run row now :
  reachable db -> jobs db !! id = Some r -> row_crawl_run_id r = Some run ->
  crawl_runs db !! run = Some row -> contradicts (row_state r) (run_status row) ->
  expired_jobs now db = [] ->
  (exists e, reconcile_terminal_crawl_runs now db = (Err e, db)) /\
  (exists e, recover_stale_jobs now db = (Err e, db)).
Proof.
  intros Hwf%reachable_wf Hr Hrun Hrow Hc Hexp.
  assert (Hin : (id, run_status row) ∈ jobs_of_terminal_runs db).
  { unfold jobs_of_terminal_runs. apply list_elem_of_omap. exists (id, r). split.
    - by apply elem_of_select_where.
    - simpl. rewrite Hrun. simpl. rewrite Hrow. simpl.
      destruct Hc as (_ & s & o & f & p & Ht & _). by destruct (run_status row). }
  assert (Hrec : exists e, reconcile_terminal_crawl_runs now db = (Err e, db)).
  { destruct (reconcile_fold_contradiction now _ _ _ _ db [] Hwf Hin Hr Hc) as [e He]. exists e.
    unfold reconcile_terminal_crawl_runs, transact, reconcile_all_in_transaction.
    rewrite (tx_bind_some tx_get _ _ _ _ eq_refl). by rewrite He. }
  split; [done|]. destruct Hrec as [e He]. exists e. unfold recover_stale_jobs.
  assert (Ht : transact (let! db := tx_get in let! _ := tx_of (ensure_queue_invariants db) in
    recover_expired_in_transaction now) db = (Ok no_recovery, db)).
  { apply transact_ok. rewrite (tx_bind_some tx_get _ _ _ _ eq_refl).
    rewrite (tx_bind_some _ _ _ tt db).
    - unfold recover_expired_in_transaction. rewrite (tx_bind_some tx_get _ _ _ _ eq_refl). by rewrite Hexp.
    - apply tx_of_ok. unfold ensure_queue_invariants. by rewrite (wf_consistent _ Hwf). }
  by rewrite Ht, He.
Qed.
End reconciliation.

(** ** Progress streams *)

Create HintDb erabi_progress.

(** Transactions that leave the progress table alone. *)
Definition keeps_progress {E A} (t : Tx E A) : Prop :=
  forall db a db', t db = Ok (a, db') -> job_progress_events db' = job_progress_events db.

Lemma keeps_progress_bind {E A B} (t : Tx E A) (k : A -> Tx E B) :
  keeps_progress t -> (forall a, keeps_progress (k a)) -> keeps_progress (tx_bind t k).
Proof.
  intros Ht Hk db b db' (a & d & H1 & H2)%tx_bind_ok. apply Ht in H1. apply Hk in H2. congruence.
Qed.
Lemma keeps_progress_ret {E A} (a : A) : keeps_progress (E := E) (tx_ret a).
Proof. by intros db b db' [_ ->]%tx_ret_ok. Qed.
Lemma keeps_progress_get {E} : keeps_progress (E := E) tx_get.
Proof. by intros db b db' [_ ->]%tx_get_ok. Qed.
Lemma keeps_progress_of {E A} (r : result E A) : keeps_progress (tx_of r).
Proof. by intros db b db' [_ ->]%tx_of_ok. Qed.
Lemma keeps_progress_reject {E} bad (e : E) : keeps_progress (tx_reject bad e).
Proof. apply keeps_progress_of. Qed.
Lemma keeps_progress_fail {E A} (e : E) : keeps_progress (A := A) (tx_fail e).
Proof. by intros db b db'. Qed.
Lemma keeps_progress_map_err {E F A} (f : E -> F) (t : Tx E A) :
  keeps_progress t -> keeps_progress (tx_map_err f t).
Proof. intros Ht db a db' H%tx_map_err_ok. by eapply Ht. Qed.
#[export] Hint Resolve keeps_progress_bind keeps_progress_ret keeps_progress_get keeps_progress_of
  keeps_progress_reject keeps_progress_fail keeps_progress_map_err : erabi_progress.

Lemma keeps_progress_update_jobs sets p f : keeps_progress (update_jobs sets p f).
Proof. intros db n db'. unfold update_jobs. by destruct (update_where _ _ _ _) as [[m t]|]; intros [= _ <-]. Qed.
Lemma keeps_progress_update_attempts p f : keeps_progress (update_attempts p f).
Proof. intros db n db'. unfold update_attempts. by destruct (update_where _ _ _ _) as [[m t]|]; intros [= _ <-]. Qed.
Lemma keeps_progress_run_status id from s : keeps_progress (update_run_status id from s).
Proof. intros db n db'. unfold update_run_status. by destruct (update_where _ _ _ _) as [[m t]|]; intros [= _ <-]. Qed.
Lemma keeps_progress_delete_jobs p : keeps_progress (delete_jobs p).
Proof. intros db n db'. unfold delete_jobs. by case_match; intros [= _ <-]. Qed.
Lemma keeps_progress_insert_job id r : keeps_progress (insert_job id r).
Proof. by intros db n db' (_ & _ & _ & _ & ->)%insert_job_inv. Qed.
Lemma keeps_progress_insert_attempt id a : keeps_progress (insert_attempt id a).
Proof. by intros db n db' (_ & _ & ->)%insert_attempt_inv. Qed.
Lemma keeps_progress_insert_checkpoint id c : keeps_progress (insert_checkpoint id c).
Proof. intros db n db'. unfold insert_checkpoint. by case_match; intros [= _ <-]. Qed.
Lemma keeps_progress_insert_run id r : keeps_progress (insert_run id r).
Proof. intros db n db'. unfold insert_run. by case_match; intros [= _ <-]. Qed.
Lemma keeps_progress_insert_audit id a : keeps_progress (insert_audit id a).
Proof. by intros db n db' ->%insert_audit_inv. Qed.
Lemma keeps_progress_draw `{U : UuidLib} {E} : keeps_progress (E := E) draw_uuid.
Proof. by intros db n db' [= _ <-]. Qed.
Lemma keeps_progress_select id : keeps_progress (select_job id).
Proof. unfold select_job. auto with erabi_progress. Qed.
#[export] Hint Resolve keeps_progress_update_jobs keeps_progress_update_attempts
  keeps_progress_run_status keeps_progress_delete_jobs keeps_progress_insert_job
  keeps_progress_insert_attempt keeps_progress_insert_checkpoint keeps_progress_insert_run
  keeps_progress_insert_audit keeps_progress_draw keeps_progress_select : erabi_progress.

Lemma keeps_progress_one_row e t : keeps_progress t -> keeps_progress (one_row e t).
Proof. intros Ht. unfold one_row. auto with erabi_progress. Qed.
#[export] Hint Resolve keeps_progress_one_row : erabi_progress.

Lemma keeps_progress_finish_attempt id lease now outcome failure :
  keeps_progress (finish_attempt_in_transaction id lease now outcome failure).
Proof. unfold finish_attempt_in_transaction. auto with erabi_progress. Qed.
Lemma keeps_progress_leased id lease f : keeps_progress (update_leased_job id lease f).
Proof. unfold update_leased_job. auto with erabi_progress. Qed.
Lemma keeps_progress_owned id lease now : keeps_progress (select_owned_running_job id lease now).
Proof. unfold select_owned_running_job. auto 10 with erabi_progress. Qed.
Lemma keeps_progress_cancel_related run : keeps_progress (cancel_related_run run).
Proof. destruct run; simpl; auto with erabi_progress. Qed.
#[export] Hint Resolve keeps_progress_finish_attempt keeps_progress_leased keeps_progress_owned
  keeps_progress_cancel_related : erabi_progress.

Section streams.
Context `{U : UuidLib} `{L : UrlLib} `{SD : SerdeLib} {UL : UuidLaws U} {SL : SerdeLaws SD}.

Lemma streams_same db db' :
  job_progress_events db' = job_progress_events db -> streams_ok db -> streams_ok db'.
Proof.
  intros Heq Hok job_id. destruct (Hok job_id) as [H1 H2 H3].
  assert (stream_rows job_id db' = stream_rows job_id db) as Hs by (unfold stream_rows; by rewrite Heq).
  split; by rewrite Hs.
Qed.

Lemma preserves_streams {E A} (t : Tx E A) : keeps_progress t -> preserves streams_ok t.
Proof. intros Ht db a db' Hok H%Ht. by eapply streams_same. Qed.
Hint Resolve preserves_streams : erabi.
Hint Extern 2 (keeps_progress _) => solve [auto 12 with erabi_progress] : erabi.

Lemma terminal_event_ok id terminal event :
  progress_event_terminal id terminal ∅ = Ok event -> event_ok event.
Proof.
  unfold progress_event_terminal.
  assert (Hk : progress_key_new "COMPLETED" = Ok "COMPLETED"%string) by (vm_compute; reflexivity).
  rewrite Hk. intros [= <-]. split; [exact Hk|split|done].
  - done.
  - intros k v Hv. change ((∅ : gmap string ProgressMetadataValue) !! k = Some v) in Hv.
    by rewrite lookup_empty in Hv.
Qed.

Lemma streams_append_terminal {E} id terminal now (f : ProgressRepositoryError -> E) g :
  preserves streams_ok (let! event := tx_of (map_err g (progress_event_terminal id terminal ∅)) in
    let! _ := tx_map_err f (append_progress_in_transaction event now) in tx_ret tt).
Proof.
  intros db u db' Hok H. apply tx_bind_ok in H as (event & d & [He ->]%tx_of_ok & H).
  apply tx_bind_ok in H as (e & d & Ha & H). apply tx_ret_ok in H as [_ ->].
  apply tx_map_err_ok in Ha. eapply append_streams_ok, Ha; [|done].
  apply (terminal_event_ok id terminal).
  destruct (progress_event_terminal id terminal ∅); simpl in He; congruence.
Qed.

Lemma streams_finalize job now : preserves streams_ok (finalize_crawl_failure_in_transaction job now).
Proof.
  unfold finalize_crawl_failure_in_transaction. apply preserves_bind; [auto with erabi|]. intros run.
  apply preserves_bind; [|intros _; apply streams_append_terminal].
  apply preserves_map_err, preserves_streams. intros db a db' H.
  unfold transition_execution_status_in_transaction in H. simpl in H.
  by apply transition_from_inv in H as (x & _ & _ & ->).
Qed.

Lemma streams_terminal_progress id terminal now :
  preserves streams_ok (append_terminal_progress_if_missing_in_transaction id terminal now).
Proof.
  unfold append_terminal_progress_if_missing_in_transaction.
  apply preserves_bind; [auto with erabi|]. intros db. apply preserves_bind; [auto with erabi|].
  intros n. repeat case_match; auto with erabi. apply streams_append_terminal.
Qed.

Lemma keeps_progress_reconcile id status now :
  keeps_progress (reconcile_terminal_job_in_transaction id status now).
Proof.
  unfold reconcile_terminal_job_in_transaction, finish_job_after_terminal_run.
  destruct (terminal_outcome status) as [[[[s o] f] p]|]; [|auto with erabi_progress].
  apply keeps_progress_bind; [auto with erabi_progress|]. intros j.
  apply keeps_progress_bind; [|auto with erabi_progress]. destruct (job_state j); auto 12 with erabi_progress.
Qed.

Lemma keeps_progress_finish_after id lease run now :
  keeps_progress (finish_after_terminal_crawl_run id lease run now).
Proof.
  unfold finish_after_terminal_crawl_run. apply keeps_progress_bind; [auto with erabi_progress|].
  intros db. destruct (select_crawl_run_status run db); [apply keeps_progress_reconcile|auto with erabi_progress].
Qed.

Hint Resolve keeps_progress_reconcile keeps_progress_finish_after : erabi_progress.

Definition op_streams {A} (op : Db -> A * Db) : Prop :=
  forall db a db', streams_ok db -> op db = (a, db') -> streams_ok db'.

Lemma op_streams_transact {E A} (t : Tx E A) : preserves streams_ok t -> op_streams (transact t).
Proof. intros Ht db r db' Hok H. by eapply transact_preserves. Qed.

Lemma op_streams_keeps {E A} (t : Tx E A) : keeps_progress t -> op_streams (transact t).
Proof. intros Ht. by apply op_streams_transact, preserves_streams. Qed.

Lemma op_streams_here {E A} (e : E) : op_streams (fun db => (Err (A := A) e, db)).
Proof. by intros db r db' Hok [= _ <-]. Qed.

(** A second operation after the first has answered. *)
Lemma op_streams_then {E A B} (op : Db -> result E A * Db) (next : A -> Db -> B * Db) (stop : E -> B) :
  op_streams op -> (forall a, op_streams (next a)) ->
  op_streams (fun db => match op db with
    | (Ok a, db') => next a db'
    | (Err e, db') => (stop e, db')
    end).
Proof.
  intros Hop Hnext db b db' Hok H. destruct (op db) as [[a|e] d] eqn:H1; apply Hop in H1; try done.
  - by eapply Hnext, H.
  - by injection H as _ <-.
Qed.

Lemma keeps_progress_insert_run_tx id status s text :
  keeps_progress (insert_run_in_transaction id status s text).
Proof. unfold insert_run_in_transaction. auto with erabi_progress. Qed.
Hint Resolve keeps_progress_insert_run_tx : erabi_progress.

Lemma streams_enqueue j now : op_streams (enqueue j now).
Proof. apply op_streams_keeps. auto with erabi_progress. Qed.

Lemma keeps_progress_create s j now : keeps_progress (create_run_with_root_job s j now).
Proof. unfold create_run_with_root_job. auto 10 with erabi_progress. Qed.

Lemma streams_create_quick s j now : op_streams (create_quick_scrape_run_with_root_job s j now).
Proof.
  intros db r db' Hok. unfold create_quick_scrape_run_with_root_job.
  repeat case_match; first [by apply op_streams_here|by apply op_streams_keeps; [apply keeps_progress_create|]].
Qed.

Lemma streams_create_production s j now : op_streams (create_production_run_with_root_job s j now).
Proof.
  intros db r db' Hok. unfold create_production_run_with_root_job.
  repeat case_match; first [by apply op_streams_here|by apply op_streams_keeps; [apply keeps_progress_create|]].
Qed.

Lemma streams_recover_one now acc id : preserves streams_ok (recover_one now acc id).
Proof.
  unfold recover_one. apply preserves_bind; [auto with erabi|]. intros job.
  apply preserves_bind; [auto with erabi|]. intros lease. case_match; [auto with erabi|].
  apply preserves_bind; [destruct (job_crawl_run_id job); auto with erabi|].
  intros [rec|]; [auto with erabi|].
  apply preserves_bind; [auto with erabi|]. intros db.
  apply preserves_bind; [auto with erabi|]. intros d. cbv zeta.
  apply preserves_bind; [auto with erabi|]. intros _.
  apply preserves_bind; [auto with erabi|]. intros g.
  apply preserves_bind; [auto with erabi|]. intros _.
  apply preserves_bind; [|auto with erabi].
  destruct (_ && bool_decide (is_Some _)); [apply streams_finalize|auto with erabi].
Qed.

Lemma streams_recover_expired now : preserves streams_ok (recover_expired_in_transaction now).
Proof.
  unfold recover_expired_in_transaction. apply preserves_bind; [auto with erabi|]. intros db.
  apply preserves_fold. intros acc id. apply streams_recover_one.
Qed.

Lemma keeps_progress_lease id w now duration heavy :
  keeps_progress (lease_queued_job id w now duration heavy).
Proof.
  unfold lease_queued_job. repeat (apply keeps_progress_bind; [auto with erabi_progress|];
    let x := fresh in intros x; cbv zeta). auto with erabi_progress.
Qed.

Lemma streams_acquire w now duration heavy :
  op_streams (acquire_next_with_storage_admission w now duration heavy).
Proof.
  intros db r db' Hok. unfold acquire_next_with_storage_admission. case_match; [by apply op_streams_here|].
  apply op_streams_transact; [|done].
  apply preserves_bind; [auto with erabi|]. intros d0. apply preserves_bind; [auto with erabi|]. intros _.
  apply preserves_bind; [apply streams_recover_expired|]. intros _.
  apply preserves_bind; [auto with erabi|]. intros d1. case_match; [|auto with erabi].
  apply preserves_bind; [|auto with erabi]. apply preserves_streams, keeps_progress_lease.
Qed.

Lemma streams_heartbeat id lease now duration : op_streams (heartbeat id lease now duration).
Proof.
  intros db r db' Hok. unfold heartbeat. case_match; [by apply op_streams_here|].
  case_match; [|by apply op_streams_here]. set (t := tx_bind _ _).
  assert (Ht : op_streams (transact t)) by (apply op_streams_keeps; unfold t; auto with erabi_progress).
  destruct (transact t db) as [[n|e] d] eqn:H'; apply (Ht _ _ _ Hok) in H'; [case_match|]; by intros [= _ <-].
Qed.

Lemma streams_fail_disposition id lease now failure retry_at terminal :
  op_streams (fail_with_disposition id lease now failure retry_at terminal).
Proof.
  apply op_streams_keeps. apply keeps_progress_bind; [auto with erabi_progress|]. intros j. cbv zeta.
  auto 10 with erabi_progress.
Qed.

Lemma streams_fail_terminal id lease now failure : op_streams (fail_terminal id lease now failure).
Proof.
  intros db r db' Hok. unfold fail_terminal.
  destruct (fail_with_disposition _ _ _ _ _ _ _) as [[s|e] d] eqn:H;
    apply (streams_fail_disposition _ _ _ _ _ _ _ _ _ Hok) in H; [destruct s|]; by intros [= _ <-].
Qed.

Lemma streams_fail_production id lease now failure :
  op_streams (fail_terminal_production id lease now failure).
Proof.
  apply op_streams_transact. apply preserves_bind; [auto with erabi|]. intros j.
  apply preserves_bind; [auto with erabi|]. intros d0.
  apply preserves_bind; [apply preserves_streams; case_match; auto with erabi_progress|]. intros _.
  apply preserves_bind; [auto with erabi|]. intros _. apply preserves_bind; [auto with erabi|]. intros _.
  apply streams_finalize.
Qed.

Lemma streams_cancel id lease now : op_streams (cancel id lease now).
Proof.
  apply op_streams_keeps. apply keeps_progress_bind; [auto with erabi_progress|]. intros j.
  apply keeps_progress_bind; [auto with erabi_progress|]. intros d0. unfold finish_job_after_terminal_run.
  destruct (cancel_outcome _) as [[[o s] f]|]; auto 10 with erabi_progress.
Qed.

Lemma streams_terminal_append id terminal now :
  op_streams (append_terminal_progress_if_missing id terminal now).
Proof. apply op_streams_transact, streams_terminal_progress. Qed.

Lemma streams_requeue id lease now : op_streams (requeue_after_storage_pressure id lease now).
Proof.
  assert (Ht : preserves streams_ok (requeue_in_transaction id lease now)).
  { unfold requeue_in_transaction. apply preserves_bind; [auto with erabi|]. intros j.
    apply preserves_bind; [destruct (job_crawl_run_id j); auto with erabi|].
    intros [rec|]; [auto with erabi|]. apply preserves_bind; [auto with erabi|]. intros db.
    apply preserves_bind; [auto with erabi|]. intros ckpt. cbv zeta.
    apply preserves_bind; [auto with erabi|]. intros _. apply preserves_bind; [auto with erabi|]. intros _.
    apply preserves_bind; [|auto with erabi].
    destruct (_ && bool_decide (is_Some _)); [apply streams_finalize|auto with erabi]. }
  intros db r db' Hok. unfold requeue_after_storage_pressure.
  destruct (transact _ db) as [[[[rec|] s]|e] d] eqn:H;
    apply (transact_preserves _ _ _ _ _ Ht Hok) in H; [|by intros [= _ <-]..].
  destruct (append_terminal_progress_if_missing _ _ _ d) as [[u|e] d'] eqn:H';
    apply (streams_terminal_append _ _ _ _ _ _ H) in H'; by intros [= _ <-].
Qed.

Lemma streams_reconcile_run id lease run now : op_streams (reconcile_terminal_crawl_run id lease run now).
Proof.
  apply op_streams_keeps. repeat (apply keeps_progress_bind; [auto with erabi_progress|];
    let x := fresh in intros x). auto with erabi_progress.
Qed.

Lemma streams_repair repairs now : op_streams (repair_progress repairs now).
Proof.
  induction repairs as [|[id t] repairs IH]; intros db r db' Hok H; simpl in H; [by injection H as _ <-|].
  destruct (append_terminal_progress_if_missing id t now db) as [[u|e] d] eqn:Ht;
    apply (streams_terminal_append _ _ _ _ _ _ Hok) in Ht; [by eapply IH, H|by injection H as _ <-].
Qed.

Lemma streams_reconcile_runs now : op_streams (reconcile_terminal_crawl_runs now).
Proof.
  assert (Ht : preserves streams_ok (reconcile_all_in_transaction now)).
  { unfold reconcile_all_in_transaction. apply preserves_bind; [auto with erabi|]. intros db.
    apply preserves_fold. intros acc e. apply preserves_bind; [auto with erabi|]. intros o. auto with erabi. }
  intros db r db' Hok. unfold reconcile_terminal_crawl_runs.
  destruct (transact _ db) as [[repairs|e] d] eqn:H;
    apply (transact_preserves _ _ _ _ _ Ht Hok) in H; [by apply streams_repair|by intros [= _ <-]].
Qed.

Lemma streams_recover now : op_streams (recover_stale_jobs now).
Proof.
  intros db r db' Hok. unfold recover_stale_jobs. set (t := tx_bind _ _).
  assert (Ht : preserves streams_ok t).
  { apply preserves_bind; [auto with erabi|]. intros d0. apply preserves_bind; [auto with erabi|]. intros _.
    apply streams_recover_expired. }
  destruct (transact t db) as [[n|e] d] eqn:H; apply (transact_preserves _ _ _ _ _ Ht Hok) in H;
    [|by intros [= _ <-]].
  destruct (reconcile_terminal_crawl_runs now d) as [[u|e] d'] eqn:H';
    apply (streams_reconcile_runs _ _ _ _ H) in H'; by intros [= _ <-].
Qed.

Lemma streams_cancel_queued id now : op_streams (cancel_queued id now).
Proof.
  apply op_streams_keeps. apply keeps_progress_bind; [auto with erabi_progress|]. intros j.
  case_match; auto 10 with erabi_progress.
Qed.

Lemma streams_reprioritize id priority scheduled_at now :
  op_streams (reprioritize id priority scheduled_at now).
Proof.
  intros db r db' Hok. unfold reprioritize. set (t := tx_map_err _ _).
  assert (Ht : op_streams (transact t)) by (apply op_streams_keeps; unfold t; auto with erabi_progress).
  destruct (transact t db) as [[n|e] d] eqn:H; apply (Ht _ _ _ Hok) in H; repeat case_match;
    by intros [= _ <-].
Qed.

Lemma streams_remove id : op_streams (remove_if_safe id).
Proof.
  apply op_streams_keeps. unfold remove_if_safe. repeat (apply keeps_progress_bind; [auto with erabi_progress|];
    let x := fresh in intros x). auto with erabi_progress.
Qed.

Lemma streams_action_child source kind now association max :
  op_streams (enqueue_action_child source kind now association max).
Proof.
  apply op_streams_keeps.
  assert (Hrun : forall s, keeps_progress (action_child_crawl_run_id s association)).
  { intros s. destruct association; simpl; auto 10 with erabi_progress. }
  repeat (apply keeps_progress_bind; [auto with erabi_progress|]; let x := fresh in intros x; cbv zeta).
  auto with erabi_progress.
Qed.

Lemma streams_checkpoint id attempt lease c created_at :
  op_streams (append_job_checkpoint id attempt lease c created_at).
Proof.
  assert (Ht : op_streams (append_checkpoint id attempt lease c created_at)).
  { intros db r db' Hok. unfold append_checkpoint. case_match; [by apply op_streams_here|].
    apply op_streams_keeps; [|done].
    by intros x a x' (_ & n & text & _ & _ & _ & _ & ->)%append_checkpoint_inv. }
  intros db r db' Hok. unfold append_job_checkpoint.
  destruct (append_checkpoint id attempt lease c created_at db) as [[rec|e] d] eqn:H;
    intros [= _ <-]; by eapply Ht.
Qed.

Lemma streams_transition_from from s m id : op_streams (transact (transition_from from s m id)).
Proof. apply op_streams_keeps. by intros db a db' (r & _ & _ & ->)%transition_from_inv. Qed.

Lemma streams_execution run status : op_streams (transition_execution_status run status).
Proof.
  apply op_streams_keeps. intros db a db' H. unfold transition_execution_status_in_transaction in H.
  destruct (execution_sources status); [|done]. by apply transition_from_inv in H as (r & _ & _ & ->).
Qed.

Lemma streams_progress event created_at : event_ok event -> op_streams (append_at event created_at).
Proof. intros He. apply op_streams_transact. intros db e db' Hok H. by eapply append_streams_ok. Qed.

Lemma run_op_streams o db : op_typed o -> streams_ok db -> streams_ok (run_op o db).
Proof.
  assert (Hrun : forall A (op : Db -> A * Db), op_streams op -> streams_ok db -> streams_ok (op db).2).
  { intros A op Hop Hok. destruct (op db) as [a db'] eqn:H. by eapply Hop. }
  intros Ho Hok. destruct o; simpl in Ho |- *; eapply Hrun, Hok; auto using streams_enqueue,
    streams_create_quick, streams_create_production, streams_acquire, streams_heartbeat,
    streams_fail_disposition, streams_fail_terminal, streams_fail_production, streams_cancel,
    streams_requeue, streams_reconcile_run, streams_reconcile_runs, streams_recover,
    streams_terminal_append, streams_cancel_queued, streams_reprioritize, streams_remove,
    streams_action_child, streams_checkpoint, streams_progress, streams_execution.
  - apply op_streams_keeps. unfold succeed, finish. auto 10 with erabi_progress.
  - apply streams_fail_disposition.
  - apply streams_transition_from.
  - apply streams_transition_from.
Qed.

(** C36. Every stream of every reachable queue is well formed: numbered 1, 2, 3, ...
    without a gap, each event readable, a terminal event last and only once.  No
    operation of the queue, whichever path it appends its terminal event by, can
    leave a stream that replay would refuse or that says anything after its end. *)
Theorem streams_always_well_formed db : reachable db -> streams_ok db.
Proof.
  intros (c & v & H). assert (Hok : streams_ok (empty_db c v)) by (by apply streams_ok_empty).
  induction H as [x|x y z (o & Ho & ->) _ IH]; [done|]. by apply IH, run_op_streams.
Qed.
End streams.

(** ** Reading the queue *)

Lemma seqZ_sorted m n : StronglySorted (cmp_le Z.compare) (seqZ m n).
Proof.
  destruct (decide (0 <= n)) as [Hn|Hn]; [|by rewrite seqZ_nil by lia; constructor].
  revert m. pattern n. apply natlike_ind; [by constructor| |done]. clear n Hn. intros n Hn IH m.
  rewrite seqZ_cons by lia. constructor; [replace (Z.pred (Z.succ n)) with n by lia; apply IH|].
  apply Forall_forall. intros x Hx%elem_of_seqZ. unfold cmp_le. rewrite Z.compare_gt_iff. lia.
Qed.

Lemma sorted_map {A} (key : A -> Z) l :
  StronglySorted (cmp_le (cmp_on key Z.compare)) l -> StronglySorted (cmp_le Z.compare) (map key l).
Proof.
  induction 1 as [|x l Hl IH Hx]; simpl; [constructor|]. constructor; [done|].
  apply Forall_map. eapply Forall_impl; [exact Hx|]. done.
Qed.

Lemma attempt_from_row_ok db i a :
  queue_wf db -> job_attempts db !! i = Some a ->
  exists x, attempt_from_row i a = Ok x /\ attempt_number x = att_number a.
Proof.
  intros Hwf Ha. destruct (qw_attempts _ Hwf _ _ Ha) as (r & Hr & Hn & Hg & _).
  pose proof (qw_rows _ Hwf _ _ Hr) as [_ _ Hmax Hcur _ _ _]. pose proof u32_below_u64.
  unfold attempt_from_row, positive_u32, positive_u64. rewrite Hg.
  assert ((1 <=? att_number a) && (att_number a <=? u32_max) = true) as ->
    by (apply andb_true_iff; rewrite !Z.leb_le; lia).
  assert ((1 <=? att_number a) && (att_number a <=? u64_max) = true) as ->
    by (apply andb_true_iff; rewrite !Z.leb_le; lia).
  by eexists.
Qed.

Lemma attempts_numbers db id r :
  queue_wf db -> jobs db !! id = Some r ->
  map (fun e => att_number e.2) (sort_by (cmp_on (fun e => att_number e.2) Z.compare) (attempts_of id db))
  = seqZ 1 (row_current_attempt r).
Proof.
  intros Hwf Hr. apply (sorted_perm_unique Z.compare).
  - apply sorted_map, sort_by_Sorted. apply _.
  - apply seqZ_sorted.
  - apply NoDup_Permutation; [|apply NoDup_seqZ|].
    + rewrite (Permutation_map _ (sort_by_perm _ _)). unfold attempts_of.
      apply NoDup_fmap_2_strong; [|apply select_where_NoDup].
      intros [i a] [k b] [Hi Hai]%elem_of_attempts_of [Hk Hbk]%elem_of_attempts_of Hn. simpl in Hn.
      assert (i = k) as -> by (eapply (qw_unique _ Hwf); [done..|congruence|done]). congruence.
    + intros n. rewrite elem_of_seqZ, elem_of_map. split.
      * intros ([i a] & -> & Hin). rewrite elem_of_sort_by in Hin.
        apply elem_of_attempts_of in Hin as [Hi Hid].
        destruct (qw_attempts _ Hwf _ _ Hi) as (x & Hx & Hn & _). rewrite Hid, Hr in Hx.
        injection Hx as <-. simpl. lia.
      * intros Hn. destruct (qw_history _ Hwf _ _ n Hr) as (i & a & Hi & Hid & <-); [lia|].
        exists (i, a). split; [done|]. rewrite elem_of_sort_by. by apply elem_of_attempts_of.
Qed.

Section reading.
Context `{U : UuidLib} `{L : UrlLib} `{SD : SerdeLib}.

(** C38. Stored jobs are well typed.  Every row of a reachable queue decodes: the
    reader of a job never meets a value outside [u32], [u64], [i32] or the job kinds,
    the decoded job has a lease exactly when it runs, that lease's generation and the
    job's attempt counter agree, and its attempts, read in order, are numbered from 1
    to that counter. *)
Theorem stored_jobs_well_typed db id r :
  reachable db -> jobs db !! id = Some r ->
  job id db = Ok (record_of id r) /\
  (job_state (record_of id r) = Running <-> is_Some (job_lease (record_of id r))) /\
  (forall lease, job_lease (record_of id r) = Some lease ->
     lease_generation lease = job_current_attempt (record_of id r)) /\
  exists history, attempts id db = Ok history /\
    map attempt_number history = seqZ 1 (job_current_attempt (record_of id r)).
Proof.
  intros Hwf%reachable_wf Hr. pose proof (qw_rows _ Hwf _ _ Hr) as Hok.
  pose proof (ro_lease _ Hok) as Hl. simpl.
  split; [by rewrite (job_ok _ _ Hwf), Hr|]. split; [|split].
  - case_decide as Hst.
    + destruct Hl as (_ & l & Hl). rewrite (holds_row_lease _ _ Hl). split; [by eexists|done].
    + split; [done|]. destruct Hl as (E & _). unfold row_lease. rewrite E. by intros [? ?].
  - intros lease Hlease. case_decide as Hst.
    + destruct Hl as (_ & l & Hl). rewrite (holds_row_lease _ _ Hl) in Hlease. injection Hlease as <-.
      destruct Hl as (_ & _ & Hg & _). by rewrite <- Hg, (ro_generation _ Hok).
    + destruct Hl as (E & _). unfold row_lease in Hlease. by rewrite E in Hlease.
  - unfold attempts. fold (attempts_of id db). set (l := sort_by _ _).
    assert (exists history, Forall2 (fun e x => attempt_from_row e.1 e.2 = Ok x) l history /\
      map attempt_number history = map (fun e => att_number e.2) l) as (history & Hh & Hnum).
    { assert (Hall : Forall (fun e : string * AttemptRow => job_attempts db !! e.1 = Some e.2) l).
      { apply Forall_forall. intros [i a] Hin. unfold l in Hin. rewrite elem_of_sort_by in Hin.
        by apply elem_of_attempts_of in Hin as [? _]. }
      clearbody l. induction Hall as [|[i a] l Hi _ (h & Hh & Hn)]; [by exists []|].
      destruct (attempt_from_row_ok _ _ _ Hwf Hi) as (x & Hx & Hxn). exists (x :: h).
      split; [by constructor|]. simpl. by rewrite Hn, Hxn. }
    exists history. split; [by apply collect_ok|]. rewrite Hnum. by apply attempts_numbers.
Qed.

(** Stored enumerations round trip: each state, failure code and attempt outcome
    reads back from the text it is stored as, and no other text reads as it. *)
Theorem stored_enums_round_trip :
  (forall s v, job_state_parse v = Ok s <-> v = job_state_as_sql s) /\
  (forall c v, failure_code_parse v = Ok c <-> v = failure_code_as_sql c) /\
  (forall o v, outcome_parse v = Ok o <-> v = outcome_as_sql o).
Proof.
  assert (Hparse : forall A (parse : string -> result JobRepositoryError A) (text : A -> string),
    (forall a, parse (text a) = Ok a) -> (forall a v, parse v = Ok a -> v = text a) ->
    forall a v, parse v = Ok a <-> v = text a).
  { intros A parse text H1 H2 a v. split; [apply H2|]. intros ->. apply H1. }
  split_and!; apply Hparse.
  - by intros [].
  - intros s v. unfold job_state_parse. repeat case_match; intros [= <-]; by apply String.eqb_eq.
  - by intros [].
  - intros s v. unfold failure_code_parse. repeat case_match; intros [= <-]; by apply String.eqb_eq.
  - by intros [].
  - intros s v. unfold outcome_parse. repeat case_match; intros [= <-]; by apply String.eqb_eq.
Qed.
End reading.

(** * Witnesses *)

Definition uid (n : nat) : string := uuid_to_string (uuid_now_v7 (UuidLib := plain_uuid) n).

Definition ex_root : NewJob :=
  {| nj_id := "root"; nj_kind := "PRODUCTION_CRAWL"; nj_priority := 0; nj_parent_job_id := None;
     nj_crawl_run_id := None; nj_scheduled_at := 0; nj_max_attempts := 1 |}.

Definition ex_snapshot : CrawlRunSnapshot (U := plain_uuid) (L := plain_url) :=
  {| snapshot_draft := example_draft "operator";
     snapshot_hash := example_hash "a"; checkpoint_compatibility_hash := example_hash "b" |}.

Definition ex_run : CrawlRunId := mk_id (uuid_now_v7 (UuidLib := plain_uuid) 0).

Definition lease_of (n : nat) (at_ : Z) : JobLease :=
  {| lease_id := uid n; lease_owner := "w"; lease_generation := 1; lease_acquired_at := at_;
     lease_expires_at := at_ + 100; lease_heartbeat_at := at_ |}.

(** A production run fails, is retried on the same run by a child, and succeeds. *)
Definition ex_retry_ops : list (queue_op (U := plain_uuid) (L := plain_url)) :=
  [OpProduction ex_snapshot ex_root 0; OpAcquire "w" 1 100 true;
   OpFailProduction "root" (lease_of 1 1) 2 HandlerFailed;
   OpActionChild "root" "RETRY" 3 SameSourceRun None; OpAcquire "w" 4 100 true;
   OpRunExecution ex_run RunRunning; OpRunExecution ex_run RunSucceeded;
   OpSucceed (uid 4) (lease_of 5 4) 6].

Definition ex_retried : Db := run_ops (U := plain_uuid) (L := plain_url) (SD := plain_serde)
  {[id_to_string (new_id (U := plain_uuid) (k := CrawlerKind) 0)]}
  {[id_to_string (new_id (U := plain_uuid) (k := CrawlerVersionKind) 1)]} ex_retry_ops.

Lemma ex_root_ok : new_job_ok ex_root.
Proof. split; [reflexivity|simpl; lia|simpl; unfold u32_max; lia|discriminate]. Qed.

Lemma ex_retried_reachable : reachable (U := plain_uuid) (L := plain_url) (SD := plain_serde) ex_retried.
Proof.
  apply run_ops_reachable. repeat (apply Forall_cons; split; [first [exact ex_root_ok|exact I|idtac]|]).
  - split; [reflexivity|discriminate].
  - constructor.
Qed.

(** The failed root job still belongs to the run its retry made succeed. *)
Lemma ex_root_row : exists r row,
  jobs ex_retried !! "root"%string = Some r /\ row_crawl_run_id r = Some (uid 0) /\ row_state r = Failed /\
  crawl_runs ex_retried !! uid 0 = Some row /\ run_status row = RunSucceeded.
Proof.
  eexists _, _. split; [vm_compute; reflexivity|]. split; [vm_compute; reflexivity|].
  split; [vm_compute; reflexivity|]. split; vm_compute; reflexivity.
Qed.

Lemma contradiction_blocks_reconciliation_witness : exists e,
  recover_stale_jobs (U := plain_uuid) (SD := plain_serde) 10 ex_retried = (Err e, ex_retried).
Proof.
  destruct ex_root_row as (r & row & Hr & Hrun & Hst & Hrow & Hstatus).
  destruct (contradiction_blocks_reconciliation (U := plain_uuid) (L := plain_url) (SD := plain_serde)
    ex_retried "root" r (uid 0) row 10) as [_ H].
  - exact ex_retried_reachable.
  - exact Hr.
  - exact Hrun.
  - exact Hrow.
  - rewrite Hst, Hstatus. split; [reflexivity|].
    exists Succeeded, AttemptSucceeded, None, TerminalSucceeded. split; [reflexivity|discriminate].
  - vm_compute. reflexivity.
  - exact H.
Defined.

Lemma lineage_terminates_witness : exists ids,
  lineage (size (jobs ex_retried)) (uid 4) ex_retried = Some (Ok ids) /\ NoDup ids.
Proof.
  assert (exists r, jobs ex_retried !! uid 4 = Some r) as [r Hr] by (eexists; vm_compute; reflexivity).
  destruct (lineage_terminates (U := plain_uuid) (L := plain_url) (SD := plain_serde) ex_retried (uid 4) r)
    as (ids & _ & Hnd & Hf).
  - exact ex_retried_reachable.
  - exact Hr.
  - exists ids. split; [|exact Hnd]. apply Hf. reflexivity.
Defined.

Lemma streams_always_well_formed_witness : streams_ok (U := plain_uuid) (SD := plain_serde) ex_retried.
Proof.
  apply (streams_always_well_formed (L := plain_url) (UL := plain_uuid_laws) (SL := plain_serde_laws)).
  exact ex_retried_reachable.
Defined.

Lemma stored_jobs_well_typed_witness : exists history,
  attempts "root" ex_retried = Ok history /\ map attempt_number history = [1].
Proof.
  assert (exists r, jobs ex_retried !! "root"%string = Some r /\ row_current_attempt r = 1) as (r & Hr & Hc)
    by (eexists; split; vm_compute; reflexivity).
  destruct (stored_jobs_well_typed (U := plain_uuid) (L := plain_url) (SD := plain_serde) ex_retried "root" r)
    as (_ & _ & _ & history & Hh & Hn).
  - exact ex_retried_reachable.
  - exact Hr.
  - exists history. split; [exact Hh|]. rewrite Hn. simpl. rewrite Hc. reflexivity.
Defined.
