(* ===== verification/Preview.v ===== *)
(** * Discovery preview: limits, evidence and observations

    [crates/erabi-domain/src/discovery_preview.rs], the evidence types of
    [crates/erabi-domain/src/test_evidence.rs] that a preview retains,
    [crates/erabi-crawler/src/observation.rs] and
    [crates/erabi-crawler/src/discovery_preview/provider.rs]: what the traversal of
    [SemanticTraversal.v] reads from a provider and what it reports. *)

From S2P Require Import Prelude Externals Base Instances Guardrails Canonicalization DomainScope UrlMatcher.

Definition MAX_PREVIEW_SELECTED_SEEDS : nat := 32.
Definition MAX_PREVIEW_LINKS_PER_OBSERVATION : nat := 256.
Definition MAX_PREVIEW_PROVENANCE_EDGES : nat := 4096.
Definition MAX_PREVIEW_DIAGNOSTICS : nat := 256.
Definition MAX_PREVIEW_TRANSITION_LIMITS : nat := 128.
Definition MAX_PREVIEW_URL_CHARS : nat := 4096.
Definition DOMINANT_TRANSITION_MIN_EDGES : Z := 8.
Definition DOMINANT_TRANSITION_SHARE_PERCENT : Z := 70.
Definition QUERY_EXPLOSION_MIN_VARIANTS : Z := 8.
Definition QUERY_EXPLOSION_QUERY_BEARING_PERCENT : Z := 75.
Definition HIGH_UNMATCHED_MIN_DENOMINATOR : Z := 8.
Definition HIGH_UNMATCHED_SHARE_PERCENT : Z := 50.
Definition WIDESPREAD_AMBIGUITY_MIN_DENOMINATOR : Z := 4.
Definition WIDESPREAD_AMBIGUITY_SHARE_PERCENT : Z := 40.
Definition BUDGET_PRESSURE_PERCENT : Z := 80.

(** ** Evidence ([test_evidence.rs]) *)

Inductive CanonicalizationOutcome := Canonicalized | CanonicalizationInvalidUrl.

Inductive CanonicalizationDecisionCode :=
| CodeSchemeNormalized | CodeHostNormalized | CodeDefaultPortRemoved | CodeFragmentRemoved
| CodePathNormalized | CodeQuerySorted | CodeTrackingParameterRemoved
| CodeCustomParameterDropped | CodeExplicitParameterKept.

Record CanonicalizationDecisionEvidence := {
  decision_code : CanonicalizationDecisionCode;
  decision_parameter : option string
}.

Record CanonicalizationEvidence := {
  evidence_original_url : string;
  evidence_canonical_url : option string;
  evidence_outcome : CanonicalizationOutcome;
  evidence_decisions : list CanonicalizationDecisionEvidence
}.

Definition decision_evidence (d : CanonicalizationDecision) : CanonicalizationDecisionEvidence :=
  match d with
  | SchemeNormalized => Build_CanonicalizationDecisionEvidence CodeSchemeNormalized None
  | HostNormalized => Build_CanonicalizationDecisionEvidence CodeHostNormalized None
  | DefaultPortRemoved => Build_CanonicalizationDecisionEvidence CodeDefaultPortRemoved None
  | FragmentRemoved => Build_CanonicalizationDecisionEvidence CodeFragmentRemoved None
  | PathNormalized => Build_CanonicalizationDecisionEvidence CodePathNormalized None
  | QuerySorted => Build_CanonicalizationDecisionEvidence CodeQuerySorted None
  | TrackingParameterRemoved p =>
    Build_CanonicalizationDecisionEvidence CodeTrackingParameterRemoved (Some p)
  | CustomParameterDropped p =>
    Build_CanonicalizationDecisionEvidence CodeCustomParameterDropped (Some p)
  | ExplicitParameterKept p =>
    Build_CanonicalizationDecisionEvidence CodeExplicitParameterKept (Some p)
  end.

Inductive PageTypeMatchStatus := StatusMatched | StatusAmbiguous | StatusUnmatched.

#[export] Instance match_status_eq_dec : EqDecision PageTypeMatchStatus.
Proof. solve_decision. Defined.

Inductive MatcherKindEvidence :=
| EvidenceExactUrl | EvidenceExactHostPathTemplate | EvidencePathPrefixOrGlob | EvidenceRegex.

Definition from_kind (k : UrlMatcherKind) : MatcherKindEvidence :=
  match k with
  | KindExactUrl => EvidenceExactUrl
  | KindExactHostPathTemplate => EvidenceExactHostPathTemplate
  | KindPathPrefixOrGlob => EvidencePathPrefixOrGlob
  | KindRegex => EvidenceRegex
  end.

Record MatcherSpecificityEvidence := {
  spec_matcher_kind_rank : Z;
  spec_literal_path_segments : Z;
  spec_explicit_query_constraints : Z;
  spec_literal_characters : Z;
  spec_wildcard_capture_count : Z
}.

Definition from_key (key : SpecificityKey) : MatcherSpecificityEvidence :=
  {| spec_matcher_kind_rank := matcher_kind_rank key;
     spec_literal_path_segments := literal_path_segments key;
     spec_explicit_query_constraints := explicit_query_constraints key;
     spec_literal_characters := literal_characters key;
     spec_wildcard_capture_count := inverse_wildcards key |}.

Inductive DomainScopeStatus := StatusInScope | StatusExternal | StatusBlocked.

#[export] Instance scope_status_eq_dec : EqDecision DomainScopeStatus.
Proof. solve_decision. Defined.

(** [DomainScopeRationaleEvidence] has the constructors of [DomainScopeRationale]. *)
Record DomainScopeEvidence := {
  scope_classification : DomainScopeStatus;
  scope_host : string;
  scope_rationale : DomainScopeRationale
}.

Definition from_classification (c : DomainScopeClassification) : DomainScopeEvidence :=
  match c with
  | InScope host rationale => Build_DomainScopeEvidence StatusInScope host rationale
  | External host rationale => Build_DomainScopeEvidence StatusExternal host rationale
  | Blocked host rationale => Build_DomainScopeEvidence StatusBlocked host rationale
  end.

Record TestDiagnostic := { test_code : string; test_message : string }.

Inductive PaginationKind := RelNext | NextOlderMoreLink | NumberedPagination | UrlPageNumber.

(** ** States and budgets ([discovery_preview.rs]) *)

Inductive PreviewUrlState :=
| Sampled | InScopeMatched | AmbiguousPageType | UnmatchedUrl | ExternalUrl | BlockedUrl
| CanonicalDuplicate | RobotsExcluded | BudgetExcluded | ProviderErrorState | InvalidUrlState.

#[export] Instance preview_url_state_eq_dec : EqDecision PreviewUrlState.
Proof. solve_decision. Defined.

Inductive PreviewBudgetKind :=
| HitMaxPages | HitMaxDepth | HitMaxDuration | HitMaxDownloadedBytes | HitPageTypePageBudget
| HitTransitionPerSourcePage | HitTransitionTotal | HitProvenanceRetention
| HitDiagnosticRetention.

#[export] Instance preview_budget_kind_eq_dec : EqDecision PreviewBudgetKind.
Proof. solve_decision. Defined.

(** The position in the declaration, as the derived [Ord] compares. *)
Definition budget_kind_rank (k : PreviewBudgetKind) : nat :=
  match k with
  | HitMaxPages => 0 | HitMaxDepth => 1 | HitMaxDuration => 2 | HitMaxDownloadedBytes => 3
  | HitPageTypePageBudget => 4 | HitTransitionPerSourcePage => 5 | HitTransitionTotal => 6
  | HitProvenanceRetention => 7 | HitDiagnosticRetention => 8
  end.

Definition budget_kind_of_rank (n : nat) : PreviewBudgetKind :=
  match n with
  | 0 => HitMaxPages | 1 => HitMaxDepth | 2 => HitMaxDuration | 3 => HitMaxDownloadedBytes
  | 4 => HitPageTypePageBudget | 5 => HitTransitionPerSourcePage | 6 => HitTransitionTotal
  | 7 => HitProvenanceRetention | _ => HitDiagnosticRetention
  end%nat.

#[export] Instance preview_budget_kind_countable : Countable PreviewBudgetKind.
Proof. apply (inj_countable' budget_kind_rank budget_kind_of_rank). by intros []. Defined.

Record PreviewDiagnostic := {
  diagnostic_code : string;
  diagnostic_message : string;
  diagnostic_observed : option Z;
  diagnostic_threshold : option Z
}.

Inductive DiscoveryPreviewLimitError :=
| MaxPagesMustBePositive | MaxDurationMustBePositive | DefaultTransitionTotalLimitMustBePositive
| TransitionTotalLimitMustBePositive | DuplicateTransitionLimit | TooManyTransitionLimits.

Section preview.
Context `{U : UuidLib} `{L : UrlLib}.

Record TransitionPreviewTotalLimit := {
  override_transition_id : DiscoveryTransitionId;
  max_total_links : Z
}.

Record DiscoveryPreviewLimits := {
  request_max_pages : Z;
  request_max_depth : Z;
  request_max_duration_ms : Z;
  default_transition_total_limit : Z;
  request_transition_total_limits : list TransitionPreviewTotalLimit
}.

(** The loop over the overrides, with the identifiers seen so far. *)
Fixpoint validate_overrides (ids : gset string) (l : list TransitionPreviewTotalLimit)
    : result DiscoveryPreviewLimitError unit :=
  match l with
  | [] => Ok tt
  | limit :: l' =>
    let? _ := reject_if (max_total_links limit =? 0) TransitionTotalLimitMustBePositive in
    let key := id_to_string (override_transition_id limit) in
    let? _ := reject_if (bool_decide (key ∈ ids)) DuplicateTransitionLimit in
    validate_overrides ({[key]} ∪ ids) l'
  end.

Definition limits_validate (self : DiscoveryPreviewLimits)
    : result DiscoveryPreviewLimitError unit :=
  let? _ := reject_if (request_max_pages self =? 0) MaxPagesMustBePositive in
  let? _ := reject_if (request_max_duration_ms self =? 0) MaxDurationMustBePositive in
  let? _ := reject_if (default_transition_total_limit self =? 0)
    DefaultTransitionTotalLimitMustBePositive in
  let? _ := reject_if
    (MAX_PREVIEW_TRANSITION_LIMITS <? length (request_transition_total_limits self))%nat
    TooManyTransitionLimits in
  validate_overrides ∅ (request_transition_total_limits self).

Record EffectiveTransitionPreviewTotalLimit := {
  limited_transition_id : DiscoveryTransitionId;
  effective_total_limit : Z
}.

Record EffectiveDiscoveryPreviewLimits := {
  eff_max_pages : Z;
  eff_max_depth : Z;
  eff_max_duration_ms : Z;
  eff_max_downloaded_bytes : Z;
  transition_total_limits : list EffectiveTransitionPreviewTotalLimit
}.

Record DiscoveryPreviewRequest := {
  request_seed_ids : list SeedId;
  request_limits : DiscoveryPreviewLimits
}.

Record PageTypeCandidateEvidence := {
  winner_page_type_id : PageTypeId;
  winner_page_type_name : string;
  winner_priority : Z;
  winner_matcher_kind : MatcherKindEvidence;
  winner_specificity : MatcherSpecificityEvidence;
  winner_matched_patterns : list string
}.

Definition from_candidate (c : PageTypeCandidate) : PageTypeCandidateEvidence :=
  {| winner_page_type_id := cand_id c; winner_page_type_name := cand_name c;
     winner_priority := cand_priority c; winner_matcher_kind := from_kind (cand_kind c);
     winner_specificity := from_key (cand_specificity c);
     winner_matched_patterns := cand_patterns c |}.

Record PageTypeMatchEvidence := {
  match_decision : PageTypeMatchStatus;
  winner : option PageTypeCandidateEvidence;
  match_candidates : list PageTypeCandidateEvidence
}.

Definition from_decision (d : PageTypeMatchDecision) : PageTypeMatchEvidence :=
  match d with
  | Matched c =>
    let c := from_candidate c in
    {| match_decision := StatusMatched; winner := Some c; match_candidates := [c] |}
  | Ambiguous cs =>
    {| match_decision := StatusAmbiguous; winner := None;
       match_candidates := map from_candidate cs |}
  | Unmatched =>
    {| match_decision := StatusUnmatched; winner := None; match_candidates := [] |}
  end.

Record PreviewBudgetHit := {
  hit_kind : PreviewBudgetKind;
  hit_transition_id : option DiscoveryTransitionId;
  hit_page_type_id : option PageTypeId;
  hit_observed : Z;
  hit_limit : Z
}.

Record DiscoveryPreviewSeed := {
  root_seed_id : SeedId;
  root_requested_url : string;
  root_canonical_url : string;
  root_entry_page_type_hint : option PageTypeId;
  root_state : PreviewUrlState;
  root_duplicate_of : option string;
  root_scope : option DomainScopeEvidence;
  root_page_type_match : option PageTypeMatchEvidence;
  root_budget_hits : list PreviewBudgetHit
}.

Record DiscoveryPreviewPage := {
  page_requested_url : string;
  page_requested_canonical_url : string;
  page_final_url : option string;
  page_canonical_url : option string;
  page_depth : Z;
  page_state : PreviewUrlState;
  page_seed_ids : list SeedId;
  page_scope : option DomainScopeEvidence;
  page_match : option PageTypeMatchEvidence;
  page_downloaded_bytes : option Z;
  page_robots_reason : option string;
  page_diagnostic : option TestDiagnostic;
  page_budget_hits : list PreviewBudgetHit
}.

Record PreviewTransitionEvaluation := {
  eval_transition_id : DiscoveryTransitionId;
  eval_transition_name : string;
  eval_source_page_type_id : PageTypeId;
  eval_target_page_type_id : PageTypeId;
  eval_priority : Z;
  selector_eligible : bool;
  target_page_type_eligible : bool;
  constraints_eligible : bool;
  eval_eligible : bool;
  eval_budget_hits : list PreviewBudgetHit;
  eval_diagnostic : option PreviewDiagnostic
}.

Record DiscoveryPath := {
  path_seed_id : SeedId;
  path_seed_ids : list SeedId;
  path_source_requested_url : string;
  path_source_final_url : option string;
  path_source_canonical_url : string;
  path_source_match : PageTypeMatchEvidence;
  path_selector : option string;
  path_raw_href : string;
  path_resolved_url : option string;
  path_canonical_url : option string;
  path_canonicalization : option CanonicalizationEvidence;
  path_scope : option DomainScopeEvidence;
  path_state : PreviewUrlState;
  path_duplicate_of : option string;
  path_target_match : option PageTypeMatchEvidence;
  path_source_depth : Z;
  path_prospective_depth : option Z;
  path_evaluations : list PreviewTransitionEvaluation;
  path_budget_hits : list PreviewBudgetHit
}.

Definition canonicalization_evidence (r : CanonicalizationResult) : CanonicalizationEvidence :=
  {| evidence_original_url := result_original_url r;
     evidence_canonical_url := Some (url_as_str (result_canonical_url r));
     evidence_outcome := Canonicalized;
     evidence_decisions := map decision_evidence (result_decisions r) |}.

(** ** The report *)

Record PreviewTransitionCount := {
  count_transition_id : DiscoveryTransitionId;
  count_transition_name : string;
  count_eligible_edges : Z;
  count_source_pages : Z
}.

Record PreviewPageTypeDistribution := {
  dist_page_type_id : PageTypeId;
  dist_page_type_name : string;
  dist_discovered_unique_urls : Z;
  dist_sampled_pages : Z
}.

Record PreviewQueryVariantGroup := {
  group_host : string;
  group_path : string;
  total_identities : Z;
  query_bearing_identities : Z;
  canonical_query_variants : Z
}.

Inductive PreviewGrowthWarningCode :=
| CyclicTransitionDominance | QueryParameterExplosion | HighUnmatchedRate
| WidespreadPageTypeAmbiguity | BudgetPressure.

Record PreviewGrowthWarning := {
  warning_code : PreviewGrowthWarningCode;
  warning_message : string;
  warning_observed : Z;
  warning_threshold : Z
}.

Record PreviewGrowthIndicators := {
  peak_new_canonical_urls_from_one_page : Z;
  total_newly_enqueued_urls : Z;
  growth_frontier_remaining : Z;
  dominant_transition_id : option DiscoveryTransitionId;
  dominant_transition_eligible_edges : Z;
  total_eligible_transition_edges : Z;
  dominant_transition_share_percent : option Z;
  growth_query_variant_groups : list PreviewQueryVariantGroup;
  unmatched_denominator : Z;
  ambiguity_denominator : Z
}.

Record DiscoveryPreviewSummary := {
  sum_pages_sampled : Z;
  sum_urls_discovered : Z;
  sum_canonical_unique_urls : Z;
  sum_duplicates_prevented : Z;
  sum_page_type_distribution : list PreviewPageTypeDistribution;
  sum_ambiguous_urls : Z;
  sum_unmatched_urls : Z;
  sum_external_urls : Z;
  sum_blocked_urls : Z;
  sum_robots_excluded : Z;
  sum_provider_errors : Z;
  sum_transition_counts : list PreviewTransitionCount;
  sum_budget_hit_counts : gmap PreviewBudgetKind Z;
  sum_frontier_remaining : Z;
  sum_newly_enqueued_urls : Z;
  sum_pagination_truncation_count : Z;
  sum_duration_work_not_expanded : bool
}.

(** [result_semantics] has one value, [PreviewOnly]. *)
Record DiscoveryPreviewResult := {
  result_version_id : CrawlerVersionId;
  result_config_hash : string;
  result_selected_seed_ids : list SeedId;
  result_effective_limits : EffectiveDiscoveryPreviewLimits;
  result_seeds : list DiscoveryPreviewSeed;
  result_pages : list DiscoveryPreviewPage;
  result_discovery_paths : list DiscoveryPath;
  result_summary : DiscoveryPreviewSummary;
  result_growth_indicators : PreviewGrowthIndicators;
  result_growth_warnings : list PreviewGrowthWarning;
  result_warnings : list PreviewDiagnostic
}.

(** ** Observations ([observation.rs]) and provider outcomes ([provider.rs]) *)

Record ObservedLink := { raw_href : string; link_observed_selector : option string }.

Record SelectorObservation := { observed_selector : string; matches_found : Z }.

Record PaginationObservation := {
  pagination_kind : PaginationKind;
  pagination_selector : option string;
  target_url : option string
}.

Record PageObservation := {
  requested_url : string;
  final_url : option string;
  artifact_ids : list ArtifactId;
  discovered_links : list ObservedLink;
  selector_observations : list SelectorObservation;
  pagination_observations : list PaginationObservation
}.

Record DiscoveryPreviewObservationRequest := {
  observe_url : string;
  remaining_download_bytes : Z
}.

Inductive DiscoveryPreviewInterruption := InterruptedCancelled | InterruptedStoragePressure.

Inductive DiscoveryPreviewProviderOutcome :=
| Observed (observation : PageObservation) (observed_bytes : Z)
| RobotsExcludedOutcome (reason : string)
| PageFailed (diagnostic : TestDiagnostic)
| Interrupted (reason : DiscoveryPreviewInterruption).

(** [DiscoveryPreviewProviderError] has one value, [Unavailable]. *)
Inductive DiscoveryPreviewProviderError := Unavailable.
End preview.
