(* ===== verification/SemanticTraversal.v ===== *)
(** * The semantic traversal

    [crates/erabi-crawler/src/discovery_preview/service.rs]: the bounded breadth-first
    traversal discovery preview and production crawls share.  The state is the record
    [SemanticTraversal]; a method that takes [&mut self] is a function to the changed
    record, and an error ends the traversal, as every caller abandons it then.

    The provider and the clock are trait objects: the answer to the [n]-th call of
    either is whatever [provider n] and [clock n] say.  [observations] and [readings]
    count the calls made. *)

From S2P Require Import Prelude Externals Base Instances Guardrails Canonicalization DomainScope UrlMatcher Crawler Preview.

Definition MAX_PROVIDER_DIAGNOSTIC_CHARS : nat := 1024.
Definition MAX_ROBOTS_REASON_CHARS : nat := 512.

Inductive DiscoveryPreviewError :=
| CrawlerNotFound | CrawlerVersionNotFound | VersionNotOwnedByCrawler | VersionNotDraft
| VersionNotActiveDraft | InvalidRequest | NoSelectedSeeds | DuplicateSeedSelection
| SeedNotOwnedByVersion | SeedDisabled | InvalidPreviewLimits | InvalidTransitionPreviewLimit
| TransitionNotOwnedByVersion | ProviderUnavailable | ProviderObservationRequestMismatch
| ProviderObservationInvalid | PersistedStateInvalid | QueueEntryMissingSeedProvenance
| PreviewBudgetOverflow.

(** [a.checked_sub(b)] on an unsigned integer. *)
Definition checked_sub (a b : Z) : option Z := if b <=? a then Some (a - b) else None.

(** [*map.entry(key).or_default() += 1]. *)
Definition increment `{Countable K} (key : K) (m : gmap K Z) : gmap K Z :=
  <[key := default 0 (m !! key) + 1]> m.

Definition preview_diagnostic (code message : string) (observed threshold : option Z)
    : PreviewDiagnostic :=
  {| diagnostic_code := code; diagnostic_message := message;
     diagnostic_observed := observed; diagnostic_threshold := threshold |}.

Definition validate_safe_text (value : string) (max : nat) : result DiscoveryPreviewError unit :=
  reject_if (str_is_empty value || (max <? char_count value)%nat || has_control value)
    ProviderObservationInvalid.

Definition validate_diagnostic (d : TestDiagnostic) : result DiscoveryPreviewError unit :=
  let? _ := validate_safe_text (test_code d) 128 in
  validate_safe_text (test_message d) MAX_PROVIDER_DIAGNOSTIC_CHARS.

Definition is_in_scope (scope : option DomainScopeEvidence) : bool :=
  match scope with
  | Some e => bool_decide (scope_classification e = StatusInScope)
  | None => false
  end.

Definition scope_state (scope : option DomainScopeEvidence) : PreviewUrlState :=
  match scope_classification <$> scope with
  | Some StatusExternal => ExternalUrl
  | Some StatusBlocked => BlockedUrl
  | _ => InScopeMatched
  end.

Definition map_provider_error (e : DiscoveryPreviewProviderError) : DiscoveryPreviewError :=
  match e with Unavailable => ProviderUnavailable end.

Section semantic_traversal.
Context `{U : UuidLib} `{L : UrlLib} `{R : RegexLib} `{H : HostLib} `{J : !UrlJoin L}.

(** ** The frozen snapshot ([erabi-db/src/repositories/crawler.rs]) *)

Record UrlMatcherRecord := {
  matcher_record_id : string;
  matcher_page_type_id : PageTypeId;
  matcher_ordinal : Z;
  record_matcher : UrlMatcher
}.

Record PageTypeRecord := {
  record_id : PageTypeId;
  record_version_id : CrawlerVersionId;
  record_name : string;
  record_priority : Z;
  record_matchers : list UrlMatcherRecord
}.

Definition domain_page_type (self : PageTypeRecord) : PageType :=
  {| pt_id := record_id self; pt_name := record_name self; pt_priority := record_priority self;
     pt_matchers := map record_matcher (record_matchers self) |}.

Record DiscoveryTransitionRecord := {
  transition_record_version_id : CrawlerVersionId;
  record_transition : DiscoveryTransition
}.

Record CrawlerSemanticSnapshot := {
  snapshot_version : CrawlerVersion;
  snapshot_page_types : list PageTypeRecord;
  snapshot_transitions : list DiscoveryTransitionRecord;
  config_hash : string
}.

Record PreviewContext := {
  ctx_snapshot : CrawlerSemanticSnapshot;
  ctx_page_types : list PageType;
  ctx_transitions : list DiscoveryTransition;
  graph : TransitionGraph;
  limits : EffectiveDiscoveryPreviewLimits
}.

Definition ctx_version (c : PreviewContext) : CrawlerVersion := snapshot_version (ctx_snapshot c).
Definition ctx_guardrails (c : PreviewContext) : CrawlerVersionGuardrails :=
  version_guardrails (ctx_version c).

(** [iter().map(|id| id.to_string()).collect::<BTreeSet<_>>()]. *)
Definition id_set {k} (ids : list (typed_id k)) : gset string :=
  list_to_set (map id_to_string ids).

Definition from_snapshot (snapshot : CrawlerSemanticSnapshot)
    (limits : EffectiveDiscoveryPreviewLimits) : result DiscoveryPreviewError PreviewContext :=
  let version := snapshot_version snapshot in
  let? _ := map_err (fun _ => PersistedStateInvalid) (validate_semantic_contract version) in
  let page_types := map domain_page_type (snapshot_page_types snapshot) in
  let? _ := reject_if
    (bool_decide (id_set (map pt_id page_types) <> id_set (page_type_ids version)))
    PersistedStateInvalid in
  let transitions := map record_transition (snapshot_transitions snapshot) in
  let? _ := reject_if
    (bool_decide (id_set (map transition_id transitions) <> id_set (transition_ids version)))
    PersistedStateInvalid in
  let? graph := map_err (fun _ => PersistedStateInvalid)
    (graph_new (page_type_ids version) transitions) in
  Ok {| ctx_snapshot := snapshot; ctx_page_types := page_types; ctx_transitions := transitions;
        graph := graph; limits := limits |}.

(** [preview_transition_total_limits.get(id)]: the last entry of a key stays in the map. *)
Definition preview_total_override (limits : DiscoveryPreviewLimits) (id : DiscoveryTransitionId)
    : option Z :=
  max_total_links <$>
    find (fun o => bool_decide (override_transition_id o = id))
      (rev (request_transition_total_limits limits)).

Definition effective_transition_total (limits : DiscoveryPreviewLimits) (t : DiscoveryTransition)
    : EffectiveTransitionPreviewTotalLimit :=
  let preview_cap :=
    default (default_transition_total_limit limits)
      (preview_total_override limits (transition_id t)) in
  {| limited_transition_id := transition_id t;
     effective_total_limit :=
       match total_budget (transition_budget t) with
       | Some configured_cap => Z.min preview_cap configured_cap
       | None => preview_cap
       end |}.

(** [PreviewContext::new]. *)
Definition context_new (snapshot : CrawlerSemanticSnapshot) (limits : DiscoveryPreviewLimits)
    : result DiscoveryPreviewError PreviewContext :=
  let transitions := map record_transition (snapshot_transitions snapshot) in
  let g := version_guardrails (snapshot_version snapshot) in
  let semantic_duration := max_duration_seconds g * 1000 in
  let? _ := reject_if (u64_max <? semantic_duration) PreviewBudgetOverflow in
  let? _ := for_each (fun o =>
      reject_if (bool_decide (override_transition_id o ∉ map transition_id transitions))
        TransitionNotOwnedByVersion)
    (request_transition_total_limits limits) in
  from_snapshot snapshot
    {| eff_max_pages := Z.min (request_max_pages limits) (max_pages g);
       eff_max_depth := Z.min (request_max_depth limits) (max_depth g);
       eff_max_duration_ms := Z.min (request_max_duration_ms limits) semantic_duration;
       eff_max_downloaded_bytes := max_downloaded_bytes g;
       transition_total_limits :=
         sort_by (cmp_on (fun l => id_to_string (limited_transition_id l)) String.compare)
           (map (effective_transition_total limits) transitions) |}.

Definition transition_total_limit (self : PreviewContext) (id : DiscoveryTransitionId)
    : option Z :=
  effective_total_limit <$>
    find (fun l => bool_decide (limited_transition_id l = id))
      (transition_total_limits (limits self)).

Definition context_seed (self : PreviewContext) (id : SeedId) : option Seed :=
  find (fun s => bool_decide (seed_id s = id)) (version_seeds (ctx_version self)).

Definition select_seed (context : PreviewContext) (id : SeedId)
    : result DiscoveryPreviewError Seed :=
  let version := ctx_version context in
  let? seed := ok_or SeedNotOwnedByVersion (context_seed context id) in
  let? _ := reject_if (negb (enabled seed)) SeedDisabled in
  let? canonical := map_err (fun _ => PersistedStateInvalid)
    (canonicalize (canonicalization_policy version) (url_as_str (original_url seed))) in
  let? _ := reject_if (bool_decide (result_canonical_url canonical <> canonical_url seed))
    PersistedStateInvalid in
  let? _ := reject_if
    (match entry_page_type_hint seed with
     | Some hint => bool_decide (hint ∉ page_type_ids version)
     | None => false
     end) PersistedStateInvalid in
  Ok seed.

Definition select_seeds (context : PreviewContext) (ids : list SeedId)
    : result DiscoveryPreviewError (list Seed) := collect (select_seed context) ids.

(** ** State *)

Record QueueEntry := {
  qe_requested_url : string;
  qe_canonical_url : string;
  qe_depth : Z;
  qe_seed_ids : list SeedId;
  qe_target_page_type_id : option PageTypeId;
  qe_transition_id : option DiscoveryTransitionId;
  qe_parent_canonical_url : option string;
  qe_pagination : bool;
  qe_order : Z
}.

Definition primary_seed_id (self : QueueEntry) : option SeedId := head (qe_seed_ids self).

Definition eta_entry (e : QueueEntry) : QueueEntry :=
  {| qe_requested_url := qe_requested_url e; qe_canonical_url := qe_canonical_url e;
     qe_depth := qe_depth e; qe_seed_ids := qe_seed_ids e;
     qe_target_page_type_id := qe_target_page_type_id e;
     qe_transition_id := qe_transition_id e;
     qe_parent_canonical_url := qe_parent_canonical_url e;
     qe_pagination := qe_pagination e; qe_order := qe_order e |}.

#[export] Instance set_qe_depth : Setter qe_depth.
Proof. setter_of eta_entry qe_depth. Defined.
#[export] Instance set_qe_seed_ids : Setter qe_seed_ids.
Proof. setter_of eta_entry qe_seed_ids. Defined.

Record TransitionRuntimeCount := {
  rt_transition_id : DiscoveryTransitionId;
  rt_name : string;
  eligible_edges : Z;
  source_pages : gset string
}.

Record SemanticTraversal := {
  context : PreviewContext;
  selected_seed_ids : list SeedId;
  provider : nat -> DiscoveryPreviewObservationRequest ->
    result DiscoveryPreviewProviderError DiscoveryPreviewProviderOutcome;
  observations : nat;
  clock : nat -> Z;
  readings : nat;
  start_millis : Z;
  queue : list QueueEntry;
  queued : gmap string QueueEntry;
  admitted : gset string;
  seen : gset string;
  sampled : gset string;
  expanded : gset string;
  pages : list DiscoveryPreviewPage;
  seeds : list DiscoveryPreviewSeed;
  paths : list DiscoveryPath;
  diagnostics : list PreviewDiagnostic;
  budget_hits : gmap PreviewBudgetKind Z;
  transition_counts : gmap string TransitionRuntimeCount;
  transition_page_counts : gmap (string * string) Z;
  page_type_sampled : gmap string Z;
  page_type_discovered : gmap string Z;
  page_type_scheduled : gmap string Z;
  matching_urls : gset string;
  unmatched_urls : gset string;
  ambiguous_urls : gset string;
  in_scope_urls : gset string;
  consumed_bytes : Z;
  pages_sampled : Z;
  urls_discovered : Z;
  duplicates_prevented : Z;
  robots_excluded : Z;
  provider_errors : Z;
  external_urls : Z;
  blocked_urls : Z;
  newly_enqueued_urls : Z;
  peak_new_from_page : Z;
  time_budget_hit : bool;
  pagination_truncated : Z;
  duration_work_not_expanded : bool
}.

Definition eta_traversal (s : SemanticTraversal) : SemanticTraversal :=
  {| context := context s; selected_seed_ids := selected_seed_ids s; provider := provider s;
     observations := observations s; clock := clock s; readings := readings s;
     start_millis := start_millis s; queue := queue s; queued := queued s;
     admitted := admitted s; seen := seen s; sampled := sampled s; expanded := expanded s;
     pages := pages s; seeds := seeds s; paths := paths s; diagnostics := diagnostics s;
     budget_hits := budget_hits s; transition_counts := transition_counts s;
     transition_page_counts := transition_page_counts s;
     page_type_sampled := page_type_sampled s; page_type_discovered := page_type_discovered s;
     page_type_scheduled := page_type_scheduled s; matching_urls := matching_urls s;
     unmatched_urls := unmatched_urls s; ambiguous_urls := ambiguous_urls s;
     in_scope_urls := in_scope_urls s; consumed_bytes := consumed_bytes s;
     pages_sampled := pages_sampled s; urls_discovered := urls_discovered s;
     duplicates_prevented := duplicates_prevented s; robots_excluded := robots_excluded s;
     provider_errors := provider_errors s; external_urls := external_urls s;
     blocked_urls := blocked_urls s; newly_enqueued_urls := newly_enqueued_urls s;
     peak_new_from_page := peak_new_from_page s; time_budget_hit := time_budget_hit s;
     pagination_truncated := pagination_truncated s;
     duration_work_not_expanded := duration_work_not_expanded s |}.

#[export] Instance set_observations : Setter observations.
Proof. setter_of eta_traversal observations. Defined.
#[export] Instance set_readings : Setter readings.
Proof. setter_of eta_traversal readings. Defined.
#[export] Instance set_queue : Setter queue.
Proof. setter_of eta_traversal queue. Defined.
#[export] Instance set_queued : Setter queued.
Proof. setter_of eta_traversal queued. Defined.
#[export] Instance set_admitted : Setter admitted.
Proof. setter_of eta_traversal admitted. Defined.
#[export] Instance set_seen : Setter seen.
Proof. setter_of eta_traversal seen. Defined.
#[export] Instance set_sampled : Setter sampled.
Proof. setter_of eta_traversal sampled. Defined.
#[export] Instance set_expanded : Setter expanded.
Proof. setter_of eta_traversal expanded. Defined.
#[export] Instance set_pages : Setter pages.
Proof. setter_of eta_traversal pages. Defined.
#[export] Instance set_seeds : Setter seeds.
Proof. setter_of eta_traversal seeds. Defined.
#[export] Instance set_paths : Setter paths.
Proof. setter_of eta_traversal paths. Defined.
#[export] Instance set_diagnostics : Setter diagnostics.
Proof. setter_of eta_traversal diagnostics. Defined.
#[export] Instance set_budget_hits : Setter budget_hits.
Proof. setter_of eta_traversal budget_hits. Defined.
#[export] Instance set_transition_counts : Setter transition_counts.
Proof. setter_of eta_traversal transition_counts. Defined.
#[export] Instance set_transition_page_counts : Setter transition_page_counts.
Proof. setter_of eta_traversal transition_page_counts. Defined.
#[export] Instance set_page_type_sampled : Setter page_type_sampled.
Proof. setter_of eta_traversal page_type_sampled. Defined.
#[export] Instance set_page_type_discovered : Setter page_type_discovered.
Proof. setter_of eta_traversal page_type_discovered. Defined.
#[export] Instance set_page_type_scheduled : Setter page_type_scheduled.
Proof. setter_of eta_traversal page_type_scheduled. Defined.
#[export] Instance set_matching_urls : Setter matching_urls.
Proof. setter_of eta_traversal matching_urls. Defined.
#[export] Instance set_unmatched_urls : Setter unmatched_urls.
Proof. setter_of eta_traversal unmatched_urls. Defined.
#[export] Instance set_ambiguous_urls : Setter ambiguous_urls.
Proof. setter_of eta_traversal ambiguous_urls. Defined.
#[export] Instance set_in_scope_urls : Setter in_scope_urls.
Proof. setter_of eta_traversal in_scope_urls. Defined.
#[export] Instance set_consumed_bytes : Setter consumed_bytes.
Proof. setter_of eta_traversal consumed_bytes. Defined.
#[export] Instance set_pages_sampled : Setter pages_sampled.
Proof. setter_of eta_traversal pages_sampled. Defined.
#[export] Instance set_urls_discovered : Setter urls_discovered.
Proof. setter_of eta_traversal urls_discovered. Defined.
#[export] Instance set_duplicates_prevented : Setter duplicates_prevented.
Proof. setter_of eta_traversal duplicates_prevented. Defined.
#[export] Instance set_robots_excluded : Setter robots_excluded.
Proof. setter_of eta_traversal robots_excluded. Defined.
#[export] Instance set_provider_errors : Setter provider_errors.
Proof. setter_of eta_traversal provider_errors. Defined.
#[export] Instance set_external_urls : Setter external_urls.
Proof. setter_of eta_traversal external_urls. Defined.
#[export] Instance set_blocked_urls : Setter blocked_urls.
Proof. setter_of eta_traversal blocked_urls. Defined.
#[export] Instance set_newly_enqueued_urls : Setter newly_enqueued_urls.
Proof. setter_of eta_traversal newly_enqueued_urls. Defined.
#[export] Instance set_peak_new_from_page : Setter peak_new_from_page.
Proof. setter_of eta_traversal peak_new_from_page. Defined.
#[export] Instance set_time_budget_hit : Setter time_budget_hit.
Proof. setter_of eta_traversal time_budget_hit. Defined.
#[export] Instance set_pagination_truncated : Setter pagination_truncated.
Proof. setter_of eta_traversal pagination_truncated. Defined.
#[export] Instance set_duration_work_not_expanded : Setter duration_work_not_expanded.
Proof. setter_of eta_traversal duration_work_not_expanded. Defined.

(** [SemanticTraversal::new]. *)
Definition traversal_new (ctx : PreviewContext) (seed_ids : list SeedId)
    (provider : nat -> DiscoveryPreviewObservationRequest ->
      result DiscoveryPreviewProviderError DiscoveryPreviewProviderOutcome)
    (clock : nat -> Z) (readings : nat) (start_millis : Z) : SemanticTraversal :=
  {| context := ctx; selected_seed_ids := seed_ids; provider := provider; observations := 0;
     clock := clock; readings := readings; start_millis := start_millis; queue := []; queued := ∅;
     admitted := ∅; seen := ∅; sampled := ∅; expanded := ∅; pages := []; seeds := [];
     paths := []; diagnostics := []; budget_hits := ∅;
     transition_counts := list_to_map (rev (map (fun t => (id_to_string (transition_id t),
       {| rt_transition_id := transition_id t; rt_name := transition_name t;
          eligible_edges := 0; source_pages := ∅ |})) (ctx_transitions ctx)));
     transition_page_counts := ∅; page_type_sampled := ∅; page_type_discovered := ∅;
     page_type_scheduled := ∅; matching_urls := ∅; unmatched_urls := ∅; ambiguous_urls := ∅;
     in_scope_urls := ∅; consumed_bytes := 0; pages_sampled := 0; urls_discovered := 0;
     duplicates_prevented := 0; robots_excluded := 0; provider_errors := 0; external_urls := 0;
     blocked_urls := 0; newly_enqueued_urls := 0; peak_new_from_page := 0;
     time_budget_hit := false; pagination_truncated := 0;
     duration_work_not_expanded := false |}.

(** ** Clock, budgets and diagnostics *)

Definition elapsed_millis (s : SemanticTraversal) : Z * SemanticTraversal :=
  (saturating_sub (clock s (readings s)) (start_millis s), s <| readings ::= S |>).

Definition record_budget (hit : PreviewBudgetHit) (s : SemanticTraversal) : SemanticTraversal :=
  s <| budget_hits ::= increment (hit_kind hit) |>.

Definition push_diagnostic (d : PreviewDiagnostic) (s : SemanticTraversal) : SemanticTraversal :=
  if (length (diagnostics s) <? MAX_PREVIEW_DIAGNOSTICS)%nat
  then s <| diagnostics ::= fun l => l ++ [d] |>
  else s <| budget_hits ::= increment HitDiagnosticRetention |>.

Definition record_pagination_truncation (count : Z) (message code : string)
    (s : SemanticTraversal) : SemanticTraversal :=
  if count =? 0 then s
  else push_diagnostic (preview_diagnostic code message (Some count) (Some 0))
    (s <| pagination_truncated ::= fun n => saturating_add u64_max n count |>).

Definition hit_time_budget (s : SemanticTraversal) : SemanticTraversal :=
  if time_budget_hit s then s
  else
    let '(elapsed, s) := elapsed_millis (s <| time_budget_hit := true |>) in
    record_budget
      {| hit_kind := HitMaxDuration; hit_transition_id := None; hit_page_type_id := None;
         hit_observed := elapsed; hit_limit := eff_max_duration_ms (limits (context s)) |} s.

(** [budget_hit]: the hit is recorded and returned. *)
Definition budget_hit (kind : PreviewBudgetKind) (transition : option DiscoveryTransitionId)
    (page_type : option PageTypeId) (observed limit : Z) (s : SemanticTraversal)
    : PreviewBudgetHit * SemanticTraversal :=
  let hit := {| hit_kind := kind; hit_transition_id := transition;
                hit_page_type_id := page_type; hit_observed := observed; hit_limit := limit |} in
  (hit, record_budget hit s).

Definition count_scope (state : PreviewUrlState) (s : SemanticTraversal) : SemanticTraversal :=
  match state with
  | ExternalUrl => s <| external_urls ::= fun n => saturating_add u64_max n 1 |>
  | BlockedUrl => s <| blocked_urls ::= fun n => saturating_add u64_max n 1 |>
  | _ => s
  end.

Definition classify_scope (s : SemanticTraversal) (u : url)
    : result DiscoveryPreviewError (option DomainScopeEvidence) :=
  let version := ctx_version (context s) in
  match classify (domain_scope version) u (version_seeds version) with
  | Ok c => Ok (Some (from_classification c))
  | Err _ => Err PersistedStateInvalid
  end.

(** ** The queue *)

(** [depth], then [order], [canonical_url] and [requested_url]. *)
Definition entry_cmp : QueueEntry -> QueueEntry -> comparison :=
  cmp_on (fun e => (qe_depth e, (qe_order e, (qe_canonical_url e, qe_requested_url e))))
    (cmp_pair Z.compare (cmp_pair Z.compare (cmp_pair String.compare String.compare))).

Definition rebuild_queue (s : SemanticTraversal) : SemanticTraversal :=
  s <| queue := sort_by entry_cmp (btree_values (queued s)) |>.

(** [if !seed_ids.contains(id) { seed_ids.push(id) }] for each id. *)
Definition merge_seed_ids (seed_ids more : list SeedId) : list SeedId :=
  foldl (fun acc id => if bool_decide (id ∈ acc) then acc else acc ++ [id]) seed_ids more.

(** The entry already queued takes the provenance and the smaller depth; the queue is
    rebuilt when that changes it. *)
Definition merge_queued_duplicate_provenance (canonical : string) (ids : list SeedId)
    (prospective_depth : option Z) (s : SemanticTraversal) : SemanticTraversal :=
  match queued s !! canonical with
  | None => s
  | Some e =>
    let merged := merge_seed_ids (qe_seed_ids e) ids in
    let lower := match prospective_depth with Some d => d <? qe_depth e | None => false end in
    let changed := negb (Nat.eqb (length merged) (length (qe_seed_ids e))) || lower in
    let e := e <| qe_seed_ids := merged |> in
    let e := if lower then e <| qe_depth := default 0 prospective_depth |> else e in
    let s := s <| queued ::= <[canonical := e]> |> in
    if changed then rebuild_queue s else s
  end.

(** ** Roots *)

Definition fragment_free_url (u : url) : string := url_as_str (url_set_fragment u None).

Definition root_entry (order : nat) (seed : Seed) : QueueEntry :=
  {| qe_requested_url := fragment_free_url (original_url seed);
     qe_canonical_url := url_as_str (canonical_url seed); qe_depth := 0;
     qe_seed_ids := [seed_id seed]; qe_target_page_type_id := None; qe_transition_id := None;
     qe_parent_canonical_url := None; qe_pagination := false; qe_order := Z.of_nat order |}.

(** The retained evidence of a root. *)
Definition root_evidence (seed : Seed) (state : PreviewUrlState) (duplicate_of : option string)
    (scope : option DomainScopeEvidence) : DiscoveryPreviewSeed :=
  {| root_seed_id := seed_id seed; root_requested_url := url_as_str (original_url seed);
     root_canonical_url := url_as_str (canonical_url seed);
     root_entry_page_type_hint := entry_page_type_hint seed; root_state := state;
     root_duplicate_of := duplicate_of; root_scope := scope; root_page_type_match := None;
     root_budget_hits := [] |}.

(** One iteration of the loop of [admit_roots]. *)
Definition admit_root (order : nat) (seed : Seed) (s : SemanticTraversal)
    : result DiscoveryPreviewError SemanticTraversal :=
  let canonical := url_as_str (canonical_url seed) in
  let? scope := classify_scope s (canonical_url seed) in
  let retain state duplicate s :=
    s <| seeds ::= fun l => l ++ [root_evidence seed state duplicate scope] |> in
  if bool_decide (canonical ∈ seen s) then
    let s := s <| duplicates_prevented ::= fun n => saturating_add u64_max n 1 |> in
    Ok (retain CanonicalDuplicate (Some canonical)
      (merge_queued_duplicate_provenance canonical [seed_id seed] None s))
  else
    let s := s <| seen ::= fun l => {[canonical]} ∪ l |> in
    if is_in_scope scope then
      let count := Z.of_nat (size (admitted s)) in
      let max := eff_max_pages (limits (context s)) in
      if max <=? count then
        Ok (retain BudgetExcluded None
          (record_budget {| hit_kind := HitMaxPages; hit_transition_id := None;
             hit_page_type_id := None; hit_observed := count; hit_limit := max |} s))
      else
        let s := s <| admitted ::= fun l => {[canonical]} ∪ l |>
                   <| queued ::= <[canonical := root_entry order seed]> |> in
        let s := rebuild_queue s in
        Ok (retain InScopeMatched None
          (s <| newly_enqueued_urls ::= fun n => saturating_add u64_max n 1 |>))
    else
      let state := scope_state scope in
      Ok (retain state None (count_scope state s)).

Fixpoint admit_roots_from (order : nat) (l : list Seed) (s : SemanticTraversal)
    : result DiscoveryPreviewError SemanticTraversal :=
  match l with
  | [] => Ok s
  | seed :: l' => let? s := admit_root order seed s in admit_roots_from (S order) l' s
  end.

Definition admit_roots (l : list Seed) (s : SemanticTraversal)
    : result DiscoveryPreviewError SemanticTraversal := admit_roots_from 0 l s.

(** The clock is read once, for the start. *)
Definition for_frozen_snapshot (snapshot : CrawlerSemanticSnapshot) (seed_ids : list SeedId)
    (limits : EffectiveDiscoveryPreviewLimits)
    (provider : nat -> DiscoveryPreviewObservationRequest ->
      result DiscoveryPreviewProviderError DiscoveryPreviewProviderOutcome)
    (clock : nat -> Z) : result DiscoveryPreviewError SemanticTraversal :=
  let? context := from_snapshot snapshot limits in
  let? selected := select_seeds context seed_ids in
  admit_roots selected (traversal_new context seed_ids provider clock 1 (clock 0%nat)).

(** ** Matches and seed outcomes *)

Definition register_match (u : string) (evidence : PageTypeMatchEvidence)
    (discovered_from_href : bool) (s : SemanticTraversal) : SemanticTraversal :=
  if bool_decide (u ∈ in_scope_urls s) then s
  else
    let s := s <| in_scope_urls ::= fun l => {[u]} ∪ l |>
               <| matching_urls ::= fun l => {[u]} ∪ l |> in
    match match_decision evidence with
    | StatusMatched =>
      match winner evidence with
      | Some w =>
        if discovered_from_href
        then s <| page_type_discovered ::= increment (id_to_string (winner_page_type_id w)) |>
        else s
      | None => s
      end
    | StatusAmbiguous => s <| ambiguous_urls ::= fun l => {[u]} ∪ l |>
    | StatusUnmatched => s <| unmatched_urls ::= fun l => {[u]} ∪ l |>
    end.

(** [for seed in &mut self.seeds { if ids.contains(&seed.seed_id) { ... } }]. *)
Definition update_seeds (ids : list SeedId) (f : DiscoveryPreviewSeed -> DiscoveryPreviewSeed)
    (s : SemanticTraversal) : SemanticTraversal :=
  s <| seeds ::= map (fun seed => if bool_decide (root_seed_id seed ∈ ids) then f seed else seed) |>.

Definition update_seed_outcome (ids : list SeedId) (state : PreviewUrlState)
    (scope : option DomainScopeEvidence) (hits : list PreviewBudgetHit) (s : SemanticTraversal)
    : SemanticTraversal :=
  update_seeds ids (fun seed =>
    {| root_seed_id := root_seed_id seed; root_requested_url := root_requested_url seed;
       root_canonical_url := root_canonical_url seed;
       root_entry_page_type_hint := root_entry_page_type_hint seed; root_state := state;
       root_duplicate_of := root_duplicate_of seed; root_scope := scope;
       root_page_type_match := root_page_type_match seed; root_budget_hits := hits |}) s.

(** The page of an entry that was not observed. *)
Definition failed_page (entry : QueueEntry) (state : PreviewUrlState)
    (scope : option DomainScopeEvidence) (reason : option string)
    (diagnostic : option TestDiagnostic) : DiscoveryPreviewPage :=
  {| page_requested_url := qe_requested_url entry;
     page_requested_canonical_url := qe_canonical_url entry; page_final_url := None;
     page_canonical_url := Some (qe_canonical_url entry); page_depth := qe_depth entry;
     page_state := state; page_seed_ids := qe_seed_ids entry; page_scope := scope;
     page_match := None; page_downloaded_bytes := None; page_robots_reason := reason;
     page_diagnostic := diagnostic; page_budget_hits := [] |}.

(** [Url::parse(..).ok().map(|url| self.scope(&url)).transpose()?.flatten()]. *)
Definition scope_of_text (s : SemanticTraversal) (u : string)
    : result DiscoveryPreviewError (option DomainScopeEvidence) :=
  match url_parse u with Some u => classify_scope s u | None => Ok None end.

(** ** Expansion of a page *)

(** [ObservedSource]: the one identity of the observed page. *)
Record ObservedSource := {
  source_requested : string;
  source_final_url : option string;
  source_canonical : string
}.

Record TraversalObservedLink := { link : ObservedLink; is_pagination : bool }.

(** [raw_href], then [selector]. *)
Definition link_cmp : TraversalObservedLink -> TraversalObservedLink -> comparison :=
  cmp_on (fun l => (raw_href (link l), link_observed_selector (link l)))
    (cmp_pair String.compare (cmp_option String.compare)).

Definition pagination_link (p : PaginationObservation) : option TraversalObservedLink :=
  (fun target =>
    {| link := {| raw_href := target; link_observed_selector := pagination_selector p |};
       is_pagination := true |}) <$> target_url p.

(** The regular links and the pagination targets, sorted, each link once.
    [Vec::dedup_by] passes the later element first and drops it, so the flag the
    closure merges is merged into the dropped element: the first of equal links stays
    as it is. *)
Definition collect_links (o : PageObservation) : list TraversalObservedLink :=
  dedup link_cmp (sort_by link_cmp
    (map (fun l => {| link := l; is_pagination := false |}) (discovered_links o)
     ++ omap pagination_link (pagination_observations o))).

(** [priority] descending, then [name] and [id]. *)
Definition transition_order : DiscoveryTransition -> DiscoveryTransition -> comparison :=
  cmp_on (fun t => (transition_priority t, (transition_name t, id_to_string (transition_id t))))
    (cmp_pair (cmp_reverse Z.compare) (cmp_pair String.compare String.compare)).

Definition sorted_transitions_for (s : SemanticTraversal) (source : PageTypeId)
    : list DiscoveryTransition :=
  sort_by transition_order
    (filter (fun t => transition_enabled t = true /\ source_page_type_id t = source)
      (ctx_transitions (context s))).

(** [path_base], without the fields a caller replaces. *)
Definition path_base (entry : QueueEntry) (source : ObservedSource)
    (source_match : PageTypeMatchEvidence) (l : ObservedLink)
    (resolved canonical : option string) (canonicalization : option CanonicalizationResult)
    (scope : option DomainScopeEvidence) (state : PreviewUrlState)
    (target_match : option PageTypeMatchEvidence) (duplicate : option string)
    (prospective_depth : option Z) (evaluations : list PreviewTransitionEvaluation)
    (hits : list PreviewBudgetHit) : result DiscoveryPreviewError DiscoveryPath :=
  let? primary := ok_or QueueEntryMissingSeedProvenance (primary_seed_id entry) in
  Ok {| path_seed_id := primary; path_seed_ids := qe_seed_ids entry;
        path_source_requested_url := source_requested source;
        path_source_final_url := source_final_url source;
        path_source_canonical_url := source_canonical source;
        path_source_match := source_match; path_selector := link_observed_selector l;
        path_raw_href := raw_href l; path_resolved_url := resolved;
        path_canonical_url := canonical;
        path_canonicalization := canonicalization_evidence <$> canonicalization;
        path_scope := scope; path_state := state; path_duplicate_of := duplicate;
        path_target_match := target_match; path_source_depth := qe_depth entry;
        path_prospective_depth := prospective_depth; path_evaluations := evaluations;
        path_budget_hits := hits |}.

Definition invalid_path (entry : QueueEntry) (source : ObservedSource)
    (source_match : PageTypeMatchEvidence) (l : ObservedLink)
    : result DiscoveryPreviewError DiscoveryPath :=
  path_base entry source source_match l None None None None InvalidUrlState None None None [] [].

Definition push_path (p : DiscoveryPath) (s : SemanticTraversal) : SemanticTraversal :=
  s <| paths ::= fun l => l ++ [p] |>.

Definition page_type_limit (s : SemanticTraversal) (id : PageTypeId) : option Z :=
  guardrails_page_type (ctx_guardrails (context s)) id ≫= page_budget.

Definition scheduled_count (s : SemanticTraversal) (id : PageTypeId) : Z :=
  default 0 (page_type_scheduled s !! id_to_string id).

(** The limit a semantic exclusion is reported with. *)
Definition exclusion_hit (s : SemanticTraversal) (why : DiscoveryBudgetExclusion)
    (t : DiscoveryTransition) (c : DiscoveryBudgetCandidate) : PreviewBudgetKind * Z * Z :=
  match why with
  | MaxPages => (HitMaxPages, pages_already_scheduled c, eff_max_pages (limits (context s)))
  | MaxDuration =>
    (HitMaxDuration, elapsed_duration_seconds c, max_duration_seconds (ctx_guardrails (context s)))
  | MaxDepth =>
    (HitMaxDepth, saturating_add u32_max (current_depth c) (depth_contribution (transition_budget t)),
     eff_max_depth (limits (context s)))
  | MaxDownloadedBytes =>
    (HitMaxDownloadedBytes, downloaded_bytes c, eff_max_downloaded_bytes (limits (context s)))
  | PageTypePageBudget =>
    (HitPageTypePageBudget, page_type_pages c,
     default (page_type_pages c) (page_type_limit s (target_page_type_id t)))
  | TransitionPerPageLinkLimit =>
    (HitTransitionPerSourcePage, transition_links_on_source_page c,
     max_links_per_source_page (transition_budget t))
  | TransitionTotalBudget =>
    (HitTransitionTotal, transition_total_links c,
     default (transition_total_links c) (total_budget (transition_budget t)))
  end.

Definition budget_hit_from_exclusion (why : DiscoveryBudgetExclusion) (t : DiscoveryTransition)
    (c : DiscoveryBudgetCandidate) (s : SemanticTraversal) : PreviewBudgetHit * SemanticTraversal :=
  let '(kind, observed, limit) := exclusion_hit s why t c in
  budget_hit kind (Some (transition_id t)) (Some (target_page_type_id t)) observed limit s.

Definition map_budget_error (e : DiscoveryBudgetError) : DiscoveryPreviewError :=
  match e with Overflow => PreviewBudgetOverflow | _ => PersistedStateInvalid end.

Definition transition_page_count (s : SemanticTraversal) (t : DiscoveryTransition)
    (source : string) : Z :=
  default 0 (transition_page_counts s !! (id_to_string (transition_id t), source)).

Definition transition_total (s : SemanticTraversal) (t : DiscoveryTransition) : Z :=
  match transition_counts s !! id_to_string (transition_id t) with
  | Some count => eligible_edges count
  | None => 0
  end.

Definition check_transition_budget (entry : QueueEntry) (source : string)
    (t : DiscoveryTransition) (target_match : PageTypeMatchEvidence) (s : SemanticTraversal)
    : result DiscoveryPreviewError (option PreviewBudgetHit * SemanticTraversal) :=
  let per_page := transition_page_count s t source in
  let total := transition_total s t in
  let page_count :=
    match winner target_match with Some w => scheduled_count s (winner_page_type_id w) | None => 0 end in
  let count := Z.of_nat (size (admitted s)) in
  if eff_max_pages (limits (context s)) <=? count then
    let '(hit, s) := budget_hit HitMaxPages (Some (transition_id t)) (Some (target_page_type_id t))
      count (eff_max_pages (limits (context s))) s in
    Ok (Some hit, s)
  else
    let '(elapsed, s) := elapsed_millis s in
    let candidate :=
      {| pages_already_scheduled := count; current_depth := qe_depth entry;
         elapsed_duration_seconds := elapsed / 1000; downloaded_bytes := consumed_bytes s;
         page_type_pages := page_count; transition_links_on_source_page := per_page;
         transition_total_links := total; prospective_download_bytes := 0 |} in
    let guardrails := ctx_guardrails (context s) in
    let? decision := map_err map_budget_error (evaluate
      {| ev_guardrails := guardrails;
         ev_page_type := guardrails_page_type guardrails (target_page_type_id t);
         ev_transition := Some (transition_budget t) |} candidate) in
    match decision with
    | Excluded why =>
      let '(hit, s) := budget_hit_from_exclusion why t candidate s in
      Ok (Some hit, s)
    | Allowed =>
      let? limit := ok_or PersistedStateInvalid
        (transition_total_limit (context s) (transition_id t)) in
      if limit <=? total then
        let '(hit, s) := budget_hit HitTransitionTotal (Some (transition_id t)) None total limit s in
        Ok (Some hit, s)
      else Ok (None, s)
    end.

Definition actual_final_page_type_budget_hit (entry : QueueEntry) (actual : PageTypeId)
    (s : SemanticTraversal) : option PreviewBudgetHit * SemanticTraversal :=
  if bool_decide (qe_target_page_type_id entry = Some actual) then (None, s)
  else
    match page_type_limit s actual with
    | None => (None, s)
    | Some limit =>
      let scheduled := scheduled_count s actual in
      if limit <=? scheduled then
        let '(hit, s) := budget_hit HitPageTypePageBudget None (Some actual) scheduled limit s in
        (Some hit, s)
      else (None, s)
    end.

Definition consume_transition (t : DiscoveryTransition) (source : string) (s : SemanticTraversal)
    : SemanticTraversal :=
  let key := id_to_string (transition_id t) in
  let s := s <| transition_page_counts ::= increment (key, source) |> in
  s <| transition_counts ::= alter (fun count =>
        {| rt_transition_id := rt_transition_id count; rt_name := rt_name count;
           eligible_edges := saturating_add u64_max (eligible_edges count) 1;
           source_pages := {[source]} ∪ source_pages count |}) key |>.

(** The smallest depth a repeated link gives an entry that is already queued. *)
Definition queued_duplicate_prospective_depth (entry : QueueEntry)
    (source_match : PageTypeMatchEvidence) (l : ObservedLink) (canonical : string)
    (s : SemanticTraversal) : result DiscoveryPreviewError (option Z) :=
  match queued s !! canonical ≫= qe_target_page_type_id, winner source_match with
  | Some target, Some w =>
    let applicable := filter (fun t =>
      transition_enabled t = true /\ source_page_type_id t = winner_page_type_id w /\
      target_page_type_id t = target /\ url_constraints t = None /\
      link_observed_selector l = Some (link_selector t)) (ctx_transitions (context s)) in
    let? depths := collect (fun t =>
      ok_or PreviewBudgetOverflow
        (checked_add u32_max (qe_depth entry) (depth_contribution (transition_budget t))))
      applicable in
    Ok (min_by Z.compare depths)
  | _, _ => Ok None
  end.

Definition unevaluated_constraint : PreviewDiagnostic :=
  preview_diagnostic "TRANSITION_URL_CONSTRAINT_UNEVALUATED"
    "The transition URL constraint has no executable DSL in this Preview." None None.

Definition is_eligible_target (target_match : PageTypeMatchEvidence) (t : DiscoveryTransition) : bool :=
  bool_decide (match_decision target_match = StatusMatched)
  && match winner target_match with
     | Some w => bool_decide (winner_page_type_id w = target_page_type_id t)
     | None => false
     end.

(** The budgets of one semantically eligible transition: the hits, and the depth of
    the target when none excludes it. *)
Definition admit_transition (entry : QueueEntry) (source : string) (t : DiscoveryTransition)
    (target_match : PageTypeMatchEvidence) (s : SemanticTraversal)
    : result DiscoveryPreviewError (list PreviewBudgetHit * option Z * SemanticTraversal) :=
  let? (hit, s) := check_transition_budget entry source t target_match s in
  match hit with
  | Some hit => Ok ([hit], None, s)
  | None =>
    let? depth := ok_or PreviewBudgetOverflow
      (checked_add u32_max (qe_depth entry) (depth_contribution (transition_budget t))) in
    let max := eff_max_depth (limits (context s)) in
    if max <? depth then
      let '(hit, s) := budget_hit HitMaxDepth (Some (transition_id t))
        (Some (target_page_type_id t)) depth max s in
      Ok ([hit], None, s)
    else Ok ([], Some depth, consume_transition t source s)
  end.

(** One iteration of the loop over the source's transitions: the evaluation, and the
    depth of the target when the transition is eligible. *)
Definition evaluate_transition (entry : QueueEntry) (source : string) (l : ObservedLink)
    (target_match : PageTypeMatchEvidence) (t : DiscoveryTransition) (s : SemanticTraversal)
    : result DiscoveryPreviewError (PreviewTransitionEvaluation * option Z * SemanticTraversal) :=
  let by_selector := bool_decide (link_observed_selector l = Some (link_selector t)) in
  let by_target := is_eligible_target target_match t in
  let by_constraints := bool_decide (url_constraints t = None) in
  let? (hits, depth, s) :=
    if by_selector && by_target && by_constraints
    then admit_transition entry source t target_match s else Ok ([], None, s) in
  Ok ({| eval_transition_id := transition_id t; eval_transition_name := transition_name t;
         eval_source_page_type_id := source_page_type_id t;
         eval_target_page_type_id := target_page_type_id t;
         eval_priority := transition_priority t; selector_eligible := by_selector;
         target_page_type_eligible := by_target; constraints_eligible := by_constraints;
         eval_eligible := bool_decide (is_Some depth); eval_budget_hits := hits;
         eval_diagnostic := if by_constraints then None else Some unevaluated_constraint |},
      depth, s).

(** The loop: the evaluations, and the eligible transitions with their depths. *)
Fixpoint evaluate_transitions (entry : QueueEntry) (source : string) (l : ObservedLink)
    (target_match : PageTypeMatchEvidence) (ts : list DiscoveryTransition) (s : SemanticTraversal)
    : result DiscoveryPreviewError (list PreviewTransitionEvaluation
        * list (DiscoveryTransition * Z) * SemanticTraversal) :=
  match ts with
  | [] => Ok ([], [], s)
  | t :: ts' =>
    let? (evaluation, depth, s) := evaluate_transition entry source l target_match t s in
    let? (evaluations, eligible, s) := evaluate_transitions entry source l target_match ts' s in
    Ok (evaluation :: evaluations,
        match depth with Some d => (t, d) :: eligible | None => eligible end, s)
  end.

(** What is decided about a unique in-scope target. *)
Record Admission := {
  adm_state : PreviewUrlState;
  adm_hits : list PreviewBudgetHit;
  adm_entry : option (Z * PageTypeId * option DiscoveryTransitionId)
}.

Definition target_state (target_match : PageTypeMatchEvidence)
    (evaluations : list PreviewTransitionEvaluation) (eligible : list (DiscoveryTransition * Z))
    : PreviewUrlState :=
  match match_decision target_match with
  | StatusAmbiguous => AmbiguousPageType
  | StatusUnmatched => UnmatchedUrl
  | StatusMatched =>
    match eligible with
    | [] =>
      if existsb (fun e => match eval_budget_hits e with [] => false | _ => true end) evaluations
      then BudgetExcluded else InScopeMatched
    | _ => InScopeMatched
    end
  end.

(** The transition of least identifier among those of the least depth. *)
Definition admission_transition (eligible : list (DiscoveryTransition * Z)) (depth : Z)
    : option DiscoveryTransitionId :=
  min_by (cmp_on id_to_string String.compare)
    (map (fun e => transition_id e.1) (filter (fun e => e.2 = depth) eligible)).

Definition decide_link_admission (target_match : PageTypeMatchEvidence)
    (evaluations : list PreviewTransitionEvaluation) (eligible : list (DiscoveryTransition * Z))
    (s : SemanticTraversal) : Admission * SemanticTraversal :=
  let state := target_state target_match evaluations eligible in
  let hits := concat (map eval_budget_hits evaluations) in
  match min_by Z.compare (map snd eligible), winner target_match with
  | Some depth, Some w =>
    let page_type := winner_page_type_id w in
    let count := scheduled_count s page_type in
    let admitted_count := Z.of_nat (size (admitted s)) in
    let max := eff_max_pages (limits (context s)) in
    let exceeded := match page_type_limit s page_type with
                    | Some limit => negb (count <? limit) | None => false end in
    if exceeded then
      let '(hit, s) := budget_hit HitPageTypePageBudget None (Some page_type) count
        (default count (page_type_limit s page_type)) s in
      ({| adm_state := BudgetExcluded; adm_hits := hits ++ [hit]; adm_entry := None |}, s)
    else if max <=? admitted_count then
      let '(hit, s) := budget_hit HitMaxPages None None admitted_count max s in
      ({| adm_state := BudgetExcluded; adm_hits := hits ++ [hit]; adm_entry := None |}, s)
    else
      ({| adm_state := state; adm_hits := hits;
          adm_entry := Some (depth, page_type, admission_transition eligible depth) |}, s)
  | _, _ => ({| adm_state := state; adm_hits := hits; adm_entry := None |}, s)
  end.

(** The admitted target joins the frontier; the queue is rebuilt when the page is done. *)
Definition enqueue (entry : QueueEntry) (source : ObservedSource) (pagination : bool)
    (canonical : string) (depth : Z) (page_type : PageTypeId)
    (transition : option DiscoveryTransitionId) (s : SemanticTraversal) : SemanticTraversal :=
  s <| admitted ::= fun l => {[canonical]} ∪ l |>
    <| page_type_scheduled ::= increment (id_to_string page_type) |>
    <| queued ::= <[canonical :=
         {| qe_requested_url := canonical; qe_canonical_url := canonical; qe_depth := depth;
            qe_seed_ids := qe_seed_ids entry; qe_target_page_type_id := Some page_type;
            qe_transition_id := transition;
            qe_parent_canonical_url := Some (source_canonical source);
            qe_pagination := pagination;
            qe_order := newly_enqueued_urls s + Z.of_nat (length (selected_seed_ids s)) |}]> |>
    <| newly_enqueued_urls ::= fun n => saturating_add u64_max n 1 |>.

(** The three ways a resolved link ends; the number is what it adds to [new_from_page]. *)
Definition expand_out_of_scope (entry : QueueEntry) (source : ObservedSource)
    (source_match : PageTypeMatchEvidence) (l : TraversalObservedLink) (resolved : string)
    (canonicalization : CanonicalizationResult) (scope : option DomainScopeEvidence)
    (unique : bool) (s : SemanticTraversal)
    : result DiscoveryPreviewError (Z * SemanticTraversal) :=
  let canonical := url_as_str (result_canonical_url canonicalization) in
  let state := if unique then scope_state scope else CanonicalDuplicate in
  let s := if unique then count_scope state s
           else s <| duplicates_prevented ::= fun n => saturating_add u64_max n 1 |> in
  let? path := path_base entry source source_match (link l) (Some resolved) (Some canonical)
    (Some canonicalization) scope state None None None [] [] in
  Ok (0, push_path path s).

Definition expand_duplicate (entry : QueueEntry) (source : ObservedSource)
    (source_match : PageTypeMatchEvidence) (l : TraversalObservedLink) (resolved : string)
    (canonicalization : CanonicalizationResult) (scope : option DomainScopeEvidence)
    (s : SemanticTraversal) : result DiscoveryPreviewError (Z * SemanticTraversal) :=
  let canonical := url_as_str (result_canonical_url canonicalization) in
  let s := s <| duplicates_prevented ::= fun n => saturating_add u64_max n 1 |> in
  let? (depth, s) :=
    if bool_decide (canonical ∈ sampled s) then Ok (None, s)
    else
      let? depth := queued_duplicate_prospective_depth entry source_match (link l) canonical s in
      Ok (depth, merge_queued_duplicate_provenance canonical (qe_seed_ids entry) depth s) in
  let? path := path_base entry source source_match (link l) (Some resolved) (Some canonical)
    (Some canonicalization) scope CanonicalDuplicate None (Some canonical) depth [] [] in
  Ok (0, push_path path s).

Definition expand_unique (entry : QueueEntry) (source : ObservedSource)
    (source_match : PageTypeMatchEvidence) (source_page_type : PageTypeId)
    (l : TraversalObservedLink) (resolved : string) (canonicalization : CanonicalizationResult)
    (scope : option DomainScopeEvidence) (s : SemanticTraversal)
    : result DiscoveryPreviewError (Z * SemanticTraversal) :=
  let canonical := url_as_str (result_canonical_url canonicalization) in
  let target_match :=
    from_decision (resolve_page_type (result_canonical_url canonicalization)
      (ctx_page_types (context s))) in
  let s := register_match canonical target_match true s in
  let? (evaluations, eligible, s) := evaluate_transitions entry (source_canonical source) (link l)
    target_match (sorted_transitions_for s source_page_type) s in
  let '(admission, s) := decide_link_admission target_match evaluations eligible s in
  let s := if is_pagination l && bool_decide (adm_state admission = BudgetExcluded)
    then record_pagination_truncation 1
      "Observed pagination was rejected by a bounded admission limit."
      "PREVIEW_PAGINATION_NOT_EXPANDED" s
    else s in
  let? path := path_base entry source source_match (link l) (Some resolved) (Some canonical)
    (Some canonicalization) scope (adm_state admission) (Some target_match) None
    (min_by Z.compare (map snd eligible)) evaluations (adm_hits admission) in
  let s := push_path path s in
  match adm_entry admission with
  | Some (depth, page_type, transition) =>
    Ok (1, enqueue entry source (is_pagination l) canonical depth page_type transition s)
  | None => Ok (0, s)
  end.

(** The URL a link resolves to, with its canonicalization. *)
Definition resolve_link (s : SemanticTraversal) (base : url) (l : ObservedLink)
    : option (string * CanonicalizationResult) :=
  resolved ← url_join base (raw_href l);
  if (MAX_PREVIEW_URL_CHARS <? char_count (url_as_str resolved))%nat then None
  else
    match canonicalize (canonicalization_policy (ctx_version (context s))) (url_as_str resolved) with
    | Ok r => Some (url_as_str resolved, r)
    | Err _ => None
    end.

(** A link past the retention cap is counted, not retained. *)
Definition truncate_link (l : TraversalObservedLink) (truncated : bool) (s : SemanticTraversal)
    : SemanticTraversal :=
  let s := if is_pagination l
    then record_pagination_truncation 1
      "Observed pagination exceeded the bounded provenance retention limit."
      "PREVIEW_PAGINATION_NOT_EXPANDED" s
    else s in
  let observed := Z.of_nat (length (paths s)) in
  if truncated then s
  else push_diagnostic (preview_diagnostic "PREVIEW_PROVENANCE_TRUNCATED"
      "The bounded provenance retention cap was reached; raw href counts continue to include omitted edges."
      (Some observed) (Some (Z.of_nat MAX_PREVIEW_PROVENANCE_EDGES)))
    (record_budget {| hit_kind := HitProvenanceRetention; hit_transition_id := None;
       hit_page_type_id := None; hit_observed := observed;
       hit_limit := Z.of_nat MAX_PREVIEW_PROVENANCE_EDGES |} s).

(** A retained link: it is resolved, then told apart by scope and by whether its
    identity was seen before. *)
Definition expand_retained_link (entry : QueueEntry) (source : ObservedSource)
    (source_match : PageTypeMatchEvidence) (source_page_type : PageTypeId) (base : url)
    (l : TraversalObservedLink) (s : SemanticTraversal)
    : result DiscoveryPreviewError (Z * SemanticTraversal) :=
  match resolve_link s base (link l) with
  | None =>
    let? path := invalid_path entry source source_match (link l) in
    Ok (0, push_path path s)
  | Some (resolved, canonicalization) =>
    let canonical := url_as_str (result_canonical_url canonicalization) in
    let? scope := classify_scope s (result_canonical_url canonicalization) in
    let unique := bool_decide (canonical ∉ seen s) in
    let s := s <| seen ::= fun l => {[canonical]} ∪ l |> in
    if negb (is_in_scope scope) then
      expand_out_of_scope entry source source_match l resolved canonicalization scope unique s
    else if unique then
      expand_unique entry source source_match source_page_type l resolved canonicalization scope s
    else expand_duplicate entry source source_match l resolved canonicalization scope s
  end.

(** The loop over the links, with [new_from_page] and [provenance_truncated]. *)
Fixpoint expand_links (entry : QueueEntry) (source : ObservedSource)
    (source_match : PageTypeMatchEvidence) (source_page_type : PageTypeId) (base : url)
    (ls : list TraversalObservedLink) (new_from_page : Z) (truncated : bool)
    (s : SemanticTraversal) : result DiscoveryPreviewError (Z * SemanticTraversal) :=
  match ls with
  | [] => Ok (new_from_page, s)
  | l :: ls' =>
    let s := s <| urls_discovered ::= fun n => saturating_add u64_max n 1 |> in
    if (MAX_PREVIEW_PROVENANCE_EDGES <=? length (paths s))%nat then
      expand_links entry source source_match source_page_type base ls' new_from_page true
        (truncate_link l truncated s)
    else
      let? (added, s) :=
        expand_retained_link entry source source_match source_page_type base l s in
      expand_links entry source source_match source_page_type base ls'
        (saturating_add u64_max new_from_page added) truncated s
  end.

Definition expand_page (entry : QueueEntry) (observation : PageObservation)
    (source : ObservedSource) (source_match : PageTypeMatchEvidence) (s : SemanticTraversal)
    : result DiscoveryPreviewError SemanticTraversal :=
  if bool_decide (source_canonical source ∈ expanded s) then Ok s
  else
    let s := s <| expanded ::= fun l => {[source_canonical source]} ∪ l |> in
    match winner source_match with
    | None => Ok s
    | Some w =>
      let? base := ok_or ProviderObservationInvalid
        (url_parse (default (source_requested source) (source_final_url source))) in
      let? (new_from_page, s) := expand_links entry source source_match (winner_page_type_id w)
        base (collect_links observation) 0 false s in
      Ok (rebuild_queue (s <| peak_new_from_page ::= fun n => Z.max n new_from_page |>))
    end.

(** ** One work unit *)

Definition validate_link (l : ObservedLink) : result DiscoveryPreviewError unit :=
  let? _ := validate_safe_text (raw_href l) MAX_PREVIEW_URL_CHARS in
  match link_observed_selector l with
  | Some selector => validate_safe_text selector 1024
  | None => Ok tt
  end.

Definition validate_observation (o : PageObservation) : result DiscoveryPreviewError unit :=
  let? _ := validate_safe_text (requested_url o) MAX_PREVIEW_URL_CHARS in
  let? _ := match final_url o with
            | Some u => validate_safe_text u MAX_PREVIEW_URL_CHARS
            | None => Ok tt
            end in
  for_each validate_link (discovered_links o).

(** The start of [process_observation]: the guards, the bytes and the final identity. *)
Definition accept_observation (entry : QueueEntry) (o : PageObservation) (bytes : Z)
    (s : SemanticTraversal)
    : result DiscoveryPreviewError (CanonicalizationResult * SemanticTraversal) :=
  let? _ := reject_if (negb (String.eqb (requested_url o) (qe_requested_url entry)))
    ProviderObservationRequestMismatch in
  let? remaining := ok_or PreviewBudgetOverflow
    (checked_sub (eff_max_downloaded_bytes (limits (context s))) (consumed_bytes s)) in
  let? _ := reject_if
    ((remaining <? bytes) || (MAX_PREVIEW_LINKS_PER_OBSERVATION <? length (discovered_links o))%nat)
    ProviderObservationInvalid in
  let? _ := validate_observation o in
  let? consumed := ok_or PreviewBudgetOverflow (checked_add u64_max (consumed_bytes s) bytes) in
  let s := s <| consumed_bytes := consumed |> in
  let? canonical := map_err (fun _ => ProviderObservationInvalid)
    (canonicalize (canonicalization_policy (ctx_version (context s)))
      (default (requested_url o) (final_url o))) in
  Ok (canonical, s).

(** A slot of the page type the entry was admitted under is given back. *)
Definition release_reservation (target : option PageTypeId) (s : SemanticTraversal)
    : result DiscoveryPreviewError SemanticTraversal :=
  match target with
  | None => Ok s
  | Some id =>
    let key := id_to_string id in
    let? scheduled := ok_or PersistedStateInvalid (page_type_scheduled s !! key) in
    let? scheduled := ok_or PersistedStateInvalid (checked_sub scheduled 1) in
    Ok (s <| page_type_scheduled ::= <[key := scheduled]> |>)
  end.

(** A redirect moves the admitted identity to the final one; if that was admitted
    already, the two become one. *)
Definition move_admission (entry : QueueEntry) (canonical : string) (s : SemanticTraversal)
    : result DiscoveryPreviewError SemanticTraversal :=
  if bool_decide (qe_canonical_url entry ∈ admitted s) then
    let remaining := admitted s ∖ {[qe_canonical_url entry]} in
    let s := s <| admitted := {[canonical]} ∪ remaining |> in
    if bool_decide (canonical ∈ remaining) then
      release_reservation (qe_target_page_type_id entry)
        (s <| newly_enqueued_urls ::= fun n => saturating_sub n 1 |>)
    else Ok s
  else Ok s.

(** The alias keeps its place in [seen] only. *)
Definition forget_alias (entry : QueueEntry) (canonical : string) (s : SemanticTraversal)
    : SemanticTraversal :=
  let alias := qe_canonical_url entry in
  rebuild_queue
    (s <| in_scope_urls ::= fun l => l ∖ {[alias]} |>
       <| matching_urls ::= fun l => l ∖ {[alias]} |>
       <| unmatched_urls ::= fun l => l ∖ {[alias]} |>
       <| ambiguous_urls ::= fun l => l ∖ {[alias]} |>
       <| queued ::= delete canonical |>).

Definition follow_redirect (entry : QueueEntry) (canonical : string) (s : SemanticTraversal)
    : result DiscoveryPreviewError SemanticTraversal :=
  let? s := move_admission entry canonical s in
  Ok (forget_alias entry canonical s).

(** The final identity is seen; a redirect is followed. *)
Definition settle_identity (entry : QueueEntry) (canonical : string) (s : SemanticTraversal)
    : result DiscoveryPreviewError SemanticTraversal :=
  let was_seen := bool_decide (canonical ∈ seen s) in
  let redirected := bool_decide (canonical <> qe_canonical_url entry) in
  let s := s <| seen ::= fun l => {[canonical]} ∪ l |> in
  let s := if was_seen && redirected
    then s <| duplicates_prevented ::= fun n => saturating_add u64_max n 1 |> else s in
  if redirected then follow_redirect entry canonical s else Ok s.

(** The match of an in-scope final URL, registered without counting a discovery. *)
Definition match_final (final : url) (canonical : string) (scope : option DomainScopeEvidence)
    (s : SemanticTraversal) : option PageTypeMatchEvidence * SemanticTraversal :=
  if is_in_scope scope then
    let evidence := from_decision (resolve_page_type final (ctx_page_types (context s))) in
    (Some evidence, register_match canonical evidence false s)
  else (None, s).

(** The page type a sampled page counts for. *)
Definition sampled_page_type (page_match : option PageTypeMatchEvidence) : option PageTypeId :=
  match page_match with
  | Some m =>
    if bool_decide (match_decision m = StatusMatched) then winner_page_type_id <$> winner m else None
  | None => None
  end.

(** The first observation of a final identity takes its sample; the hits are the
    page's. *)
Definition sample_final (entry : QueueEntry) (canonical : string)
    (page_match : option PageTypeMatchEvidence) (s : SemanticTraversal)
    : list PreviewBudgetHit * SemanticTraversal :=
  if bool_decide (canonical ∈ sampled s) then ([], s)
  else
    let '(hits, s) :=
      match sampled_page_type page_match with
      | Some id =>
        let '(hit, s) := actual_final_page_type_budget_hit entry id s in
        (match hit with Some hit => [hit] | None => [] end,
         s <| page_type_sampled ::= increment (id_to_string id) |>)
      | None => ([], s)
      end in
    (hits, s <| pages_sampled ::= fun n => saturating_add u64_max n 1 |>
             <| sampled ::= fun l => {[canonical]} ∪ l |>).

Definition final_page_state (scope : option DomainScopeEvidence)
    (page_match : option PageTypeMatchEvidence) : PreviewUrlState :=
  match scope_classification <$> scope with
  | Some StatusExternal => ExternalUrl
  | Some StatusBlocked => BlockedUrl
  | _ =>
    match match_decision <$> page_match with
    | Some StatusAmbiguous => AmbiguousPageType
    | Some StatusMatched => Sampled
    | Some StatusUnmatched | None => UnmatchedUrl
    end
  end.

(** The page of an observed entry joins the report, and its roots take its outcome. *)
Definition retain_page (entry : QueueEntry) (o : PageObservation) (canonical : string) (bytes : Z)
    (scope : option DomainScopeEvidence) (page_match : option PageTypeMatchEvidence)
    (hits : list PreviewBudgetHit) (s : SemanticTraversal) : SemanticTraversal :=
  let state := final_page_state scope page_match in
  let s := update_seeds (qe_seed_ids entry) (fun seed =>
    {| root_seed_id := root_seed_id seed; root_requested_url := root_requested_url seed;
       root_canonical_url := root_canonical_url seed;
       root_entry_page_type_hint := root_entry_page_type_hint seed; root_state := state;
       root_duplicate_of := root_duplicate_of seed; root_scope := root_scope seed;
       root_page_type_match := page_match; root_budget_hits := hits |}) s in
  s <| pages ::= fun l => l ++
        [{| page_requested_url := qe_requested_url entry;
            page_requested_canonical_url := qe_canonical_url entry;
            page_final_url := final_url o; page_canonical_url := Some canonical;
            page_depth := qe_depth entry; page_state := state;
            page_seed_ids := qe_seed_ids entry; page_scope := scope; page_match := page_match;
            page_downloaded_bytes := Some bytes; page_robots_reason := None;
            page_diagnostic := None; page_budget_hits := hits |}] |>.

(** The duration boundary has been reached: nothing of the page is expanded. *)
Definition stop_at_duration (o : PageObservation) (can_expand : bool) (targetful targetless : Z)
    (s : SemanticTraversal) : SemanticTraversal :=
  let s := hit_time_budget s in
  let links := Z.of_nat (length (discovered_links o)) in
  let regular_work := negb (links =? 0) in
  let s := if can_expand && (0 <? targetful)
    then record_pagination_truncation targetful
      "Observed pagination was not expanded before the duration boundary."
      "PREVIEW_PAGINATION_NOT_EXPANDED" s
    else s in
  let s := s <| duration_work_not_expanded ::= fun b => b || regular_work |>
             <| urls_discovered ::= fun n =>
                  saturating_add u64_max (saturating_add u64_max n links) targetful |> in
  if regular_work || (0 <? targetful) || (0 <? targetless)
  then push_diagnostic (preview_diagnostic "PREVIEW_TIME_BUDGET_LINKS_NOT_EXPANDED"
    "Observed links or pagination were not expanded after the duration boundary."
    (Some (links + targetful)) (Some 0)) s
  else s.

(** The end of [process_observation]: what becomes of the links of the page. *)
Definition expand_observation (entry : QueueEntry) (o : PageObservation) (canonical : string)
    (scope : option DomainScopeEvidence) (page_match : option PageTypeMatchEvidence)
    (hits : list PreviewBudgetHit) (s : SemanticTraversal)
    : result DiscoveryPreviewError SemanticTraversal :=
  let targetful := Z.of_nat (count_where (fun p => bool_decide (is_Some (target_url p)))
    (pagination_observations o)) in
  let targetless := Z.of_nat (count_where (fun p => bool_decide (target_url p = None))
    (pagination_observations o)) in
  let can_expand := is_in_scope scope
    && bool_decide (match_decision <$> page_match = Some StatusMatched) in
  let s := if can_expand && (0 <? targetless)
    then record_pagination_truncation targetless
      "Observed pagination did not provide a usable target URL."
      "PREVIEW_PAGINATION_TARGET_UNAVAILABLE" s
    else s in
  let '(elapsed, s) := elapsed_millis s in
  let no_hits := match hits with [] => true | _ => false end in
  if eff_max_duration_ms (limits (context s)) <=? elapsed then
    Ok (stop_at_duration o can_expand targetful targetless s)
  else if can_expand && (0 <? targetful) && negb no_hits then
    Ok (record_pagination_truncation targetful
      "Observed pagination was not expanded because the observed page reached a bounded PageType limit."
      "PREVIEW_PAGINATION_NOT_EXPANDED" s)
  else if no_hits && can_expand && bool_decide (canonical ∉ expanded s) then
    match page_match with
    | Some source_match =>
      expand_page entry o
        {| source_requested := qe_requested_url entry; source_final_url := final_url o;
           source_canonical := canonical |} source_match s
    | None => Ok s
    end
  else Ok s.

Definition process_observation (entry : QueueEntry) (o : PageObservation) (bytes : Z)
    (s : SemanticTraversal) : result DiscoveryPreviewError SemanticTraversal :=
  let? (final, s) := accept_observation entry o bytes s in
  let canonical := url_as_str (result_canonical_url final) in
  let first := bool_decide (canonical ∉ sampled s) in
  let? s := settle_identity entry canonical s in
  let? scope := classify_scope s (result_canonical_url final) in
  let '(page_match, s) := match_final (result_canonical_url final) canonical scope s in
  let '(hits, s) := sample_final entry canonical page_match s in
  let s := if first then count_scope (final_page_state scope page_match) s else s in
  let s := retain_page entry o canonical bytes scope page_match hits s in
  expand_observation entry o canonical scope page_match hits s.

Definition process_outcome (entry : QueueEntry) (outcome : DiscoveryPreviewProviderOutcome)
    (s : SemanticTraversal) : result DiscoveryPreviewError SemanticTraversal :=
  match outcome with
  | RobotsExcludedOutcome reason =>
    let? _ := validate_safe_text reason MAX_ROBOTS_REASON_CHARS in
    let s := s <| robots_excluded ::= fun n => saturating_add u64_max n 1 |> in
    let? scope := scope_of_text s (qe_canonical_url entry) in
    let s := update_seed_outcome (qe_seed_ids entry) RobotsExcluded scope [] s in
    Ok (s <| pages ::= fun l => l ++ [failed_page entry RobotsExcluded scope (Some reason) None] |>)
  | PageFailed diagnostic =>
    let? _ := validate_diagnostic diagnostic in
    let s := s <| provider_errors ::= fun n => saturating_add u64_max n 1 |> in
    let? scope := scope_of_text s (qe_canonical_url entry) in
    let s := update_seed_outcome (qe_seed_ids entry) ProviderErrorState scope [] s in
    Ok (s <| pages ::= fun l =>
      l ++ [failed_page entry ProviderErrorState scope None (Some diagnostic)] |>)
  | Interrupted _ => Err PersistedStateInvalid
  | Observed observation bytes => process_observation entry observation bytes s
  end.

Inductive SemanticTraversalStep :=
| Processed (new_pages : list DiscoveryPreviewPage) (new_paths : list DiscoveryPath)
| Complete
| StepInterrupted (reason : DiscoveryPreviewInterruption).

(** The provider is asked; its answer depends on the number of earlier calls. *)
Definition observe (request : DiscoveryPreviewObservationRequest) (s : SemanticTraversal)
    : result DiscoveryPreviewError (DiscoveryPreviewProviderOutcome * SemanticTraversal) :=
  let? outcome := map_err map_provider_error (provider s (observations s) request) in
  Ok (outcome, s <| observations ::= S |>).

Definition take_entry (entry : QueueEntry) (rest : list QueueEntry) (s : SemanticTraversal)
    : SemanticTraversal :=
  s <| queue := rest |> <| queued ::= delete (qe_canonical_url entry) |>.

Definition put_back (entry : QueueEntry) (s : SemanticTraversal) : SemanticTraversal :=
  rebuild_queue (s <| queued ::= <[qe_canonical_url entry := entry]> |>).

(** The unit at the head of the queue is observed and processed. *)
Definition step_entry (entry : QueueEntry) (rest : list QueueEntry) (s : SemanticTraversal)
    : result DiscoveryPreviewError (SemanticTraversalStep * SemanticTraversal) :=
  let s := take_entry entry rest s in
  let? remaining := ok_or PreviewBudgetOverflow
    (checked_sub (eff_max_downloaded_bytes (limits (context s))) (consumed_bytes s)) in
  let? (outcome, s) := observe
    {| observe_url := qe_requested_url entry; remaining_download_bytes := remaining |} s in
  match outcome with
  | Interrupted reason =>
    Ok (StepInterrupted reason, put_back entry s)
  | _ =>
    let '(elapsed, s) := elapsed_millis s in
    let s := if eff_max_duration_ms (limits (context s)) <=? elapsed then hit_time_budget s else s in
    let? s' := process_outcome entry outcome s in
    Ok (Processed (drop (length (pages s)) (pages s')) (drop (length (paths s)) (paths s')), s')
  end.

Definition step (s : SemanticTraversal)
    : result DiscoveryPreviewError (SemanticTraversalStep * SemanticTraversal) :=
  match queue s with
  | [] => Ok (Complete, s)
  | entry :: rest =>
    let '(elapsed, s) := elapsed_millis s in
    let max_bytes := eff_max_downloaded_bytes (limits (context s)) in
    if eff_max_duration_ms (limits (context s)) <=? elapsed then Ok (Complete, hit_time_budget s)
    else if max_bytes <=? consumed_bytes s then
      Ok (Complete, record_budget
        {| hit_kind := HitMaxDownloadedBytes; hit_transition_id := None; hit_page_type_id := None;
           hit_observed := consumed_bytes s; hit_limit := max_bytes |} s)
    else step_entry entry rest s
  end.

(** [while let Processed { .. } = self.step().await? {}]; [None] when the fuel runs out. *)
Fixpoint traverse (fuel : nat) (s : SemanticTraversal)
    : option (result DiscoveryPreviewError SemanticTraversal) :=
  match fuel with
  | O => None
  | S fuel' =>
    match step s with
    | Err e => Some (Err e)
    | Ok (Processed _ _, s) => traverse fuel' s
    | Ok (_, s) => Some (Ok s)
    end
  end.

Definition has_pending_work (s : SemanticTraversal) : bool :=
  match queue s with [] => false | _ => true end.

Definition next_pending_canonical_url (s : SemanticTraversal) : option string :=
  qe_canonical_url <$> head (queue s).

Definition seed_evidence (s : SemanticTraversal) : list DiscoveryPreviewSeed := seeds s.
End semantic_traversal.
