(* ===== verification/SemanticCheckpoint.v ===== *)
(** * Checkpoints of the semantic traversal

    [crates/erabi-crawler/src/discovery_preview/service.rs]: the state a traversal
    exports at a boundary ([checkpoint_state]) and the three ways back
    ([restore_state], [restore_from_checkpoint], [restore_for_recovery]). *)

From S2P Require Import Prelude Externals Base Instances Guardrails Canonicalization DomainScope UrlMatcher Crawler Preview SemanticTraversal.

Section semantic_checkpoint.
Context `{U : UuidLib} `{L : UrlLib} `{R : RegexLib} `{H : HostLib} `{J : !UrlJoin L}.

Record SemanticTraversalQueueEntry := {
  sq_requested_url : string;
  sq_canonical_url : string;
  sq_depth : Z;
  sq_seed_ids : list SeedId;
  sq_target_page_type_id : option PageTypeId;
  sq_transition_id : option DiscoveryTransitionId;
  sq_parent_canonical_url : option string;
  sq_pagination : bool;
  sq_discovered_url_id : option string;
  sq_order : Z
}.

Record SemanticTraversalTransitionState := {
  st_transition_id : DiscoveryTransitionId;
  st_name : string;
  st_eligible_edges : Z;
  st_source_pages : list string
}.

Record SemanticTraversalCheckpoint := {
  cp_selected_seed_ids : list SeedId;
  pending : list SemanticTraversalQueueEntry;
  admitted_canonical_urls : list string;
  seen_canonical_urls : list string;
  sampled_canonical_urls : list string;
  expanded_canonical_urls : list string;
  matching_canonical_urls : list string;
  unmatched_canonical_urls : list string;
  ambiguous_canonical_urls : list string;
  in_scope_canonical_urls : list string;
  cp_consumed_bytes : Z;
  cp_pages_sampled : Z;
  cp_urls_discovered : Z;
  cp_duplicates_prevented : Z;
  cp_robots_excluded : Z;
  cp_provider_errors : Z;
  cp_external_urls : Z;
  cp_blocked_urls : Z;
  cp_newly_enqueued_urls : Z;
  cp_peak_new_from_page : Z;
  cp_time_budget_hit : bool;
  cp_pagination_truncation_count : Z;
  cp_duration_work_not_expanded : bool;
  cp_page_type_sampled : list (PageTypeId * Z);
  cp_page_type_discovered : list (PageTypeId * Z);
  cp_page_type_scheduled : list (PageTypeId * Z);
  cp_transition_counts : list SemanticTraversalTransitionState;
  cp_transition_page_counts : list (DiscoveryTransitionId * string * Z);
  cp_elapsed_millis : Z
}.

(** ** Export *)

Definition export_entry (e : QueueEntry) : SemanticTraversalQueueEntry :=
  {| sq_requested_url := qe_requested_url e; sq_canonical_url := qe_canonical_url e;
     sq_depth := qe_depth e; sq_seed_ids := qe_seed_ids e;
     sq_target_page_type_id := qe_target_page_type_id e; sq_transition_id := qe_transition_id e;
     sq_parent_canonical_url := qe_parent_canonical_url e; sq_pagination := qe_pagination e;
     sq_discovered_url_id := None; sq_order := Z.min u64_max (qe_order e) |}.

(** The order of [pending]: that of the queue. *)
Definition pending_cmp : SemanticTraversalQueueEntry -> SemanticTraversalQueueEntry -> comparison :=
  cmp_on (fun e => (sq_depth e, (sq_order e, (sq_canonical_url e, sq_requested_url e))))
    (cmp_pair Z.compare (cmp_pair Z.compare (cmp_pair String.compare String.compare))).

Definition page_type_values (s : SemanticTraversal) (values : gmap string Z)
    : list (PageTypeId * Z) :=
  omap (fun p => pair (pt_id p) <$> values !! id_to_string (pt_id p)) (ctx_page_types (context s)).

Definition export_count (c : TransitionRuntimeCount) : SemanticTraversalTransitionState :=
  {| st_transition_id := rt_transition_id c; st_name := rt_name c;
     st_eligible_edges := eligible_edges c; st_source_pages := btree_elements (source_pages c) |}.

Definition export_page_count (s : SemanticTraversal) (row : (string * string) * Z)
    : option (DiscoveryTransitionId * string * Z) :=
  let '((id, source), count) := row in
  (fun t => (transition_id t, source, count)) <$>
    find (fun t => String.eqb (id_to_string (transition_id t)) id) (ctx_transitions (context s)).

Definition checkpoint_state (s : SemanticTraversal) : SemanticTraversalCheckpoint :=
  {| cp_selected_seed_ids := selected_seed_ids s;
     pending := sort_by pending_cmp (map export_entry (btree_values (queued s)));
     admitted_canonical_urls := btree_elements (admitted s);
     seen_canonical_urls := btree_elements (seen s);
     sampled_canonical_urls := btree_elements (sampled s);
     expanded_canonical_urls := btree_elements (expanded s);
     matching_canonical_urls := btree_elements (matching_urls s);
     unmatched_canonical_urls := btree_elements (unmatched_urls s);
     ambiguous_canonical_urls := btree_elements (ambiguous_urls s);
     in_scope_canonical_urls := btree_elements (in_scope_urls s);
     cp_consumed_bytes := consumed_bytes s; cp_pages_sampled := pages_sampled s;
     cp_urls_discovered := urls_discovered s; cp_duplicates_prevented := duplicates_prevented s;
     cp_robots_excluded := robots_excluded s; cp_provider_errors := provider_errors s;
     cp_external_urls := external_urls s; cp_blocked_urls := blocked_urls s;
     cp_newly_enqueued_urls := newly_enqueued_urls s;
     cp_peak_new_from_page := peak_new_from_page s; cp_time_budget_hit := time_budget_hit s;
     cp_pagination_truncation_count := pagination_truncated s;
     cp_duration_work_not_expanded := duration_work_not_expanded s;
     cp_page_type_sampled := page_type_values s (page_type_sampled s);
     cp_page_type_discovered := page_type_values s (page_type_discovered s);
     cp_page_type_scheduled := page_type_values s (page_type_scheduled s);
     cp_transition_counts := map export_count (btree_values (transition_counts s));
     cp_transition_page_counts := omap (export_page_count s)
       (sort_by (cmp_on fst (cmp_pair String.compare String.compare))
         (map_to_list (transition_page_counts s)));
     cp_elapsed_millis := saturating_sub (clock s (readings s)) (start_millis s) |}.

(** ** Restoration *)

Definition validate_url (value : string) : result DiscoveryPreviewError unit :=
  let? parsed := ok_or PersistedStateInvalid (url_parse value) in
  reject_if (bool_decide (is_Some (url_fragment parsed))
             || (MAX_PREVIEW_URL_CHARS <? str_len value)%nat) PersistedStateInvalid.

(** The values into a set; each is a URL, none occurs twice. *)
Fixpoint collect_urls_into (output : gset string) (values : list string)
    : result DiscoveryPreviewError (gset string) :=
  match values with
  | [] => Ok output
  | value :: values' =>
    let? _ := validate_url value in
    let? _ := reject_if (bool_decide (value ∈ output)) PersistedStateInvalid in
    collect_urls_into ({[value]} ∪ output) values'
  end.

Definition collect_urls (values : list string) : result DiscoveryPreviewError (gset string) :=
  collect_urls_into ∅ values.

Definition known_page_type (s : SemanticTraversal) (id : PageTypeId) : bool :=
  bool_decide (id_to_string id ∈ id_set (map pt_id (ctx_page_types (context s)))).

Definition known_transition (s : SemanticTraversal) (id : DiscoveryTransitionId) : bool :=
  bool_decide (id_to_string id ∈ id_set (map transition_id (ctx_transitions (context s)))).

(** [option.is_some_and(|v| !p(v))]. *)
Definition some_fails {A} (p : A -> bool) (o : option A) : bool :=
  match o with Some v => negb (p v) | None => false end.

Definition valid_discovered_id (id : string) : bool := negb (str_is_empty id) && (str_len id <=? 512)%nat.

Definition import_entry (e : SemanticTraversalQueueEntry) : QueueEntry :=
  {| qe_requested_url := sq_requested_url e; qe_canonical_url := sq_canonical_url e;
     qe_depth := sq_depth e; qe_seed_ids := sq_seed_ids e;
     qe_target_page_type_id := sq_target_page_type_id e; qe_transition_id := sq_transition_id e;
     qe_parent_canonical_url := sq_parent_canonical_url e; qe_pagination := sq_pagination e;
     qe_order := sq_order e |}.

(** The checks of one pending entry against the sets restored before it. *)
Definition validate_pending (s : SemanticTraversal) (admitted sampled expanded : gset string)
    (e : SemanticTraversalQueueEntry) : result DiscoveryPreviewError unit :=
  let? _ := validate_url (sq_requested_url e) in
  let? _ := validate_url (sq_canonical_url e) in
  let? _ := reject_if (contains_ch "#" (sq_requested_url e) || contains_ch "#" (sq_canonical_url e))
    PersistedStateInvalid in
  let? _ := reject_if
    (match sq_seed_ids e with [] => true | _ => false end
     || negb (Nat.eqb (size (id_set (sq_seed_ids e))) (length (sq_seed_ids e)))
     || (eff_max_depth (limits (context s)) <? sq_depth e)
     || existsb (fun id => bool_decide (id_to_string id ∉ id_set (selected_seed_ids s))) (sq_seed_ids e)
     || bool_decide (sq_canonical_url e ∉ admitted)
     || bool_decide (sq_canonical_url e ∈ sampled)
     || bool_decide (sq_canonical_url e ∈ expanded)) PersistedStateInvalid in
  reject_if
    (some_fails (known_page_type s) (sq_target_page_type_id e)
     || some_fails (known_transition s) (sq_transition_id e)
     || some_fails (fun u => is_ok (validate_url u)) (sq_parent_canonical_url e)
     || some_fails valid_discovered_id (sq_discovered_url_id e)) PersistedStateInvalid.

Fixpoint restore_pending (s : SemanticTraversal) (admitted sampled expanded : gset string)
    (output : gmap string QueueEntry) (entries : list SemanticTraversalQueueEntry)
    : result DiscoveryPreviewError (gmap string QueueEntry) :=
  match entries with
  | [] => Ok output
  | e :: entries' =>
    let? _ := validate_pending s admitted sampled expanded e in
    let? _ := reject_if (bool_decide (is_Some (output !! sq_canonical_url e))) PersistedStateInvalid in
    restore_pending s admitted sampled expanded (<[sq_canonical_url e := import_entry e]> output)
      entries'
  end.

Fixpoint restore_page_type_counts (s : SemanticTraversal) (output : gmap string Z)
    (values : list (PageTypeId * Z)) : result DiscoveryPreviewError (gmap string Z) :=
  match values with
  | [] => Ok output
  | (id, value) :: values' =>
    let? _ := reject_if
      (negb (known_page_type s id) || bool_decide (is_Some (output !! id_to_string id)))
      PersistedStateInvalid in
    restore_page_type_counts s (<[id_to_string id := value]> output) values'
  end.

Definition import_count (c : SemanticTraversalTransitionState) : TransitionRuntimeCount :=
  {| rt_transition_id := st_transition_id c; rt_name := st_name c;
     eligible_edges := st_eligible_edges c; source_pages := list_to_set (st_source_pages c) |}.

Fixpoint restore_counts_into (s : SemanticTraversal) (output : gmap string TransitionRuntimeCount)
    (values : list SemanticTraversalTransitionState)
    : result DiscoveryPreviewError (gmap string TransitionRuntimeCount) :=
  match values with
  | [] => Ok output
  | c :: values' =>
    let? t := ok_or PersistedStateInvalid
      (find (fun t => bool_decide (transition_id t = st_transition_id c)) (ctx_transitions (context s))) in
    let key := id_to_string (st_transition_id c) in
    let? _ := reject_if
      (negb (String.eqb (transition_name t) (st_name c)) || bool_decide (is_Some (output !! key)))
      PersistedStateInvalid in
    restore_counts_into s (<[key := import_count c]> output) values'
  end.

Definition restore_transition_counts (s : SemanticTraversal)
    (values : list SemanticTraversalTransitionState)
    : result DiscoveryPreviewError (gmap string TransitionRuntimeCount) :=
  let? output := restore_counts_into s ∅ values in
  let? _ := reject_if (negb (Nat.eqb (size output) (length (ctx_transitions (context s)))))
    PersistedStateInvalid in
  Ok output.

Fixpoint restore_page_counts (s : SemanticTraversal) (output : gmap (string * string) Z)
    (values : list (DiscoveryTransitionId * string * Z))
    : result DiscoveryPreviewError (gmap (string * string) Z) :=
  match values with
  | [] => Ok output
  | (id, source, count) :: values' =>
    let? _ := validate_url source in
    let? _ := reject_if
      (negb (known_transition s id) || bool_decide (is_Some (output !! (id_to_string id, source))))
      PersistedStateInvalid in
    restore_page_counts s (<[(id_to_string id, source) := count]> output) values'
  end.

(** What [restore_state] requires of the sets and counters. *)
Definition restored_sets_invalid
    (admitted seen sampled expanded matching unmatched ambiguous in_scope : gset string) : bool :=
  negb (bool_decide (admitted ⊆ seen) && bool_decide (sampled ⊆ seen)
        && bool_decide (expanded ⊆ sampled) && bool_decide (matching ⊆ in_scope)
        && bool_decide (unmatched ⊆ in_scope) && bool_decide (ambiguous ⊆ in_scope)
        && bool_decide (matching ∩ unmatched = ∅) && bool_decide (matching ∩ ambiguous = ∅)
        && bool_decide (unmatched ∩ ambiguous = ∅)).

Definition restored_counts_invalid (s : SemanticTraversal) (state : SemanticTraversalCheckpoint)
    (admitted sampled : gset string) : bool :=
  (eff_max_pages (limits (context s)) <? Z.of_nat (size admitted))
  || (eff_max_downloaded_bytes (limits (context s)) <? cp_consumed_bytes state)
  || negb (cp_pages_sampled state =? Z.of_nat (size sampled))
  || negb (cp_newly_enqueued_urls state =? Z.of_nat (size admitted)).

(** The root evidence of a restored traversal. *)
Definition restored_root (seed : Seed) : DiscoveryPreviewSeed :=
  root_evidence seed InScopeMatched None None.

Definition restore_state (state : SemanticTraversalCheckpoint) (selected : list Seed)
    (s : SemanticTraversal) : result DiscoveryPreviewError SemanticTraversal :=
  let? _ := reject_if
    (negb (Nat.eqb (size (id_set (selected_seed_ids s))) (length (selected_seed_ids s)))
     || bool_decide (cp_selected_seed_ids state <> selected_seed_ids s)) PersistedStateInvalid in
  let? admitted' := collect_urls (admitted_canonical_urls state) in
  let? seen' := collect_urls (seen_canonical_urls state) in
  let? sampled' := collect_urls (sampled_canonical_urls state) in
  let? expanded' := collect_urls (expanded_canonical_urls state) in
  let? matching' := collect_urls (matching_canonical_urls state) in
  let? unmatched' := collect_urls (unmatched_canonical_urls state) in
  let? ambiguous' := collect_urls (ambiguous_canonical_urls state) in
  let? in_scope' := collect_urls (in_scope_canonical_urls state) in
  let? _ := reject_if
    (restored_sets_invalid admitted' seen' sampled' expanded' matching' unmatched' ambiguous' in_scope')
    PersistedStateInvalid in
  let? _ := reject_if (restored_counts_invalid s state admitted' sampled') PersistedStateInvalid in
  let? pending' := restore_pending s admitted' sampled' expanded' ∅ (pending state) in
  let? page_counts := restore_page_counts s ∅ (cp_transition_page_counts state) in
  let s := rebuild_queue (s <| queued := pending' |>) in
  let s := s <| admitted := admitted' |> <| seen := seen' |> <| sampled := sampled' |>
             <| expanded := expanded' |> <| matching_urls := matching' |>
             <| unmatched_urls := unmatched' |> <| ambiguous_urls := ambiguous' |>
             <| in_scope_urls := in_scope' |>
             <| consumed_bytes := cp_consumed_bytes state |>
             <| pages_sampled := cp_pages_sampled state |>
             <| urls_discovered := cp_urls_discovered state |>
             <| duplicates_prevented := cp_duplicates_prevented state |>
             <| robots_excluded := cp_robots_excluded state |>
             <| provider_errors := cp_provider_errors state |>
             <| external_urls := cp_external_urls state |>
             <| blocked_urls := cp_blocked_urls state |>
             <| newly_enqueued_urls := cp_newly_enqueued_urls state |>
             <| peak_new_from_page := cp_peak_new_from_page state |>
             <| time_budget_hit := cp_time_budget_hit state |>
             <| pagination_truncated := cp_pagination_truncation_count state |>
             <| duration_work_not_expanded := cp_duration_work_not_expanded state |> in
  let? sampled_counts := restore_page_type_counts s ∅ (cp_page_type_sampled state) in
  let? discovered_counts := restore_page_type_counts s ∅ (cp_page_type_discovered state) in
  let? scheduled_counts := restore_page_type_counts s ∅ (cp_page_type_scheduled state) in
  let? counts := restore_transition_counts s (cp_transition_counts state) in
  Ok (s <| page_type_sampled := sampled_counts |> <| page_type_discovered := discovered_counts |>
        <| page_type_scheduled := scheduled_counts |> <| transition_counts := counts |>
        <| transition_page_counts := page_counts |> <| seeds := map restored_root selected |>).

(** The clock is read once; the time already spent counts. *)
Definition restore_from_checkpoint (snapshot : CrawlerSemanticSnapshot) (seed_ids : list SeedId)
    (limits : EffectiveDiscoveryPreviewLimits)
    (provider : nat -> DiscoveryPreviewObservationRequest ->
      result DiscoveryPreviewProviderError DiscoveryPreviewProviderOutcome)
    (clock : nat -> Z) (state : SemanticTraversalCheckpoint)
    : result DiscoveryPreviewError SemanticTraversal :=
  let? context := from_snapshot snapshot limits in
  let? selected := select_seeds context seed_ids in
  let? _ := reject_if (bool_decide (cp_selected_seed_ids state <> seed_ids)) PersistedStateInvalid in
  restore_state state selected
    (traversal_new context seed_ids provider clock 1
      (saturating_sub (clock 0%nat) (cp_elapsed_millis state))).

(** ** Recovery *)

Definition valid_recovery_url (value : string) : bool :=
  bool_decide (is_Some (url_parse value)) && negb (contains_ch "#" value)
  && negb (has_control value) && (str_len value <=? MAX_PREVIEW_URL_CHARS)%nat.

Definition invalid_recovery_entry (s : SemanticTraversal) (e : SemanticTraversalQueueEntry) : bool :=
  negb (valid_recovery_url (sq_requested_url e)) || negb (valid_recovery_url (sq_canonical_url e))
  || (eff_max_depth (limits (context s)) <? sq_depth e)
  || bool_decide (sq_canonical_url e ∉ admitted s)
  || bool_decide (is_Some (queued s !! sq_canonical_url e))
  || match sq_seed_ids e with [] => true | _ => false end
  || existsb (fun id => bool_decide (id ∉ selected_seed_ids s)) (sq_seed_ids e)
  || some_fails (known_page_type s) (sq_target_page_type_id e)
  || some_fails (fun id => bool_decide (id ∈ map transition_id (ctx_transitions (context s))))
       (sq_transition_id e)
  || some_fails valid_recovery_url (sq_parent_canonical_url e)
  || some_fails valid_discovered_id (sq_discovered_url_id e).

Fixpoint admit_recovery_entries (entries : list SemanticTraversalQueueEntry) (s : SemanticTraversal)
    : result DiscoveryPreviewError SemanticTraversal :=
  match entries with
  | [] => Ok s
  | e :: entries' =>
    let? _ := reject_if (invalid_recovery_entry s e) PersistedStateInvalid in
    admit_recovery_entries entries'
      (s <| queued ::= <[sq_canonical_url e := import_entry e]> |>)
  end.

(** Only the selected units are pending. *)
Definition restore_for_recovery (snapshot : CrawlerSemanticSnapshot) (seed_ids : list SeedId)
    (limits : EffectiveDiscoveryPreviewLimits)
    (provider : nat -> DiscoveryPreviewObservationRequest ->
      result DiscoveryPreviewProviderError DiscoveryPreviewProviderOutcome)
    (clock : nat -> Z) (state : SemanticTraversalCheckpoint)
    (recovery_entries : list SemanticTraversalQueueEntry)
    : result DiscoveryPreviewError SemanticTraversal :=
  let? s := restore_from_checkpoint snapshot seed_ids limits provider clock state in
  let s := rebuild_queue (s <| queued := ∅ |>) in
  let? s := admit_recovery_entries recovery_entries s in
  Ok (rebuild_queue s).
End semantic_checkpoint.
