(* ===== verification/PreviewReport.v ===== *)
(** * The report of a preview

    [crates/erabi-crawler/src/discovery_preview/service.rs]: [finish] and the growth
    warnings it derives, and [DiscoveryPreviewService::execute], the request from its
    checks to its report. *)

From S2P Require Import Prelude Externals Base Instances Guardrails Canonicalization DomainScope UrlMatcher Crawler Preview SemanticTraversal.

Section preview_report.
Context `{U : UuidLib} `{L : UrlLib} `{R : RegexLib} `{H : HostLib} `{J : !UrlJoin L}.

(** ** Cycles and dominance *)

(** The enabled transitions that leave a page type. *)
Definition enabled_from (ts : list DiscoveryTransition) (from : PageTypeId)
    : list DiscoveryTransition :=
  filter (fun t => transition_enabled t = true /\ source_page_type_id t = from) ts.

(** [edges.iter().any(|t| search(t.target, visited))], which stops at the first hit. *)
Fixpoint any_edge (search : PageTypeId -> gset string -> option (bool * gset string))
    (edges : list DiscoveryTransition) (visited : gset string) : option (bool * gset string) :=
  match edges with
  | [] => Some (false, visited)
  | t :: edges' =>
    match search (target_page_type_id t) visited with
    | Some (true, visited) => Some (true, visited)
    | Some (false, visited) => any_edge search edges' visited
    | None => None
    end
  end.

(** The search and the set of page types it leaves visited; [None] when the fuel runs
    out. *)
Fixpoint page_type_reaches (fuel : nat) (ts : list DiscoveryTransition)
    (from target : PageTypeId) (visited : gset string) : option (bool * gset string) :=
  match fuel with
  | O => None
  | S fuel' =>
    if bool_decide (from = target) then Some (true, visited)
    else if bool_decide (id_to_string from ∈ visited) then Some (false, visited)
    else any_edge (fun id => page_type_reaches fuel' ts id target) (enabled_from ts from)
           ({[id_to_string from]} ∪ visited)
  end.

(** Every page type on the stack but the last is the source of a transition. *)
Definition reach_fuel (ts : list DiscoveryTransition) : nat := S (S (length ts)).

Definition transition_participates_in_cycle (g : TransitionGraph) (t : DiscoveryTransition) : bool :=
  bool_decide (source_page_type_id t = target_page_type_id t)
  || match page_type_reaches (reach_fuel (transitions g)) (transitions g)
             (target_page_type_id t) (source_page_type_id t) ∅ with
     | Some (found, _) => found
     | None => false
     end.

Definition unique_dominant_transition (counts : list PreviewTransitionCount)
    : option PreviewTransitionCount :=
  match max_by Z.compare (map count_eligible_edges counts) with
  | None => None
  | Some maximum =>
    if maximum =? 0 then None
    else match filter (fun c => count_eligible_edges c = maximum) counts with
         | [dominant] => Some dominant
         | _ => None
         end
  end.

(** ** Query variants *)

Record QueryGroupAccounting := {
  acc_total : Z;
  acc_query_bearing : Z;
  acc_variants : gset string
}.

Definition account (query : option string) (a : QueryGroupAccounting) : QueryGroupAccounting :=
  {| acc_total := saturating_add u64_max (acc_total a) 1;
     acc_query_bearing := match query with
       | Some _ => saturating_add u64_max (acc_query_bearing a) 1 | None => acc_query_bearing a end;
     acc_variants := match query with
       | Some q => {[q]} ∪ acc_variants a | None => acc_variants a end |}.

Definition group_key (u : url) : string * string :=
  (to_ascii_lowercase (default EmptyString (url_host_str u)), url_path u).

Definition account_url (groups : gmap (string * string) QueryGroupAccounting) (value : string)
    : gmap (string * string) QueryGroupAccounting :=
  match url_parse value with
  | Some u =>
    let empty := {| acc_total := 0; acc_query_bearing := 0; acc_variants := ∅ |} in
    <[group_key u := account (url_query u) (default empty (groups !! group_key u))]> groups
  | None => groups
  end.

Definition query_variant_groups (urls : gset string) : list PreviewQueryVariantGroup :=
  let groups := foldl account_url ∅ (btree_elements urls) in
  omap (fun row =>
      let '((host, path), a) := row in
      let variants := Z.of_nat (size (acc_variants a)) in
      if QUERY_EXPLOSION_MIN_VARIANTS <=? variants
      then Some {| group_host := host; group_path := path; total_identities := acc_total a;
                   query_bearing_identities := acc_query_bearing a;
                   canonical_query_variants := variants |}
      else None)
    (sort_by (cmp_on fst (cmp_pair String.compare String.compare)) (map_to_list groups)).

(** ** Budget pressure *)

Definition relevant_budget_kind (k : PreviewBudgetKind) : bool :=
  match k with HitProvenanceRetention | HitDiagnosticRetention => false | _ => true end.

Definition has_relevant_budget_hit (hits : gmap PreviewBudgetKind Z) : bool :=
  existsb relevant_budget_kind (map fst (map_to_list hits)).

Definition reaches_budget_pressure (observed limit : Z) : bool :=
  (0 <? limit) && (limit * BUDGET_PRESSURE_PERCENT <=? observed * 100).

Definition page_type_budget_under_pressure (s : SemanticTraversal) (p : PageType) : bool :=
  match page_type_limit s (pt_id p) with
  | Some limit => reaches_budget_pressure (scheduled_count s (pt_id p)) limit
  | None => false
  end.

Definition page_count_under_pressure (s : SemanticTraversal) (row : (string * string) * Z) : bool :=
  match find (fun t => String.eqb (id_to_string (transition_id t)) row.1.1)
          (ctx_transitions (context s)) with
  | Some t => reaches_budget_pressure row.2 (max_links_per_source_page (transition_budget t))
  | None => false
  end.

Definition has_transition_total_budget_pressure (counts : list PreviewTransitionCount)
    (limits : EffectiveDiscoveryPreviewLimits) : bool :=
  existsb (fun c =>
      match find (fun l => bool_decide (limited_transition_id l = count_transition_id c))
              (transition_total_limits limits) with
      | Some l => reaches_budget_pressure (count_eligible_edges c) (effective_total_limit l)
      | None => false
      end) counts.

Definition has_budget_pressure_utilization (s : SemanticTraversal)
    (counts : list PreviewTransitionCount) (total : Z) : bool :=
  let l := limits (context s) in
  reaches_budget_pressure (Z.of_nat (size (admitted s))) (eff_max_pages l)
  || reaches_budget_pressure (consumed_bytes s) (eff_max_downloaded_bytes l)
  || reaches_budget_pressure (fst (elapsed_millis s)) (eff_max_duration_ms l)
  || existsb (page_type_budget_under_pressure s) (ctx_page_types (context s))
  || existsb (page_count_under_pressure s) (map_to_list (transition_page_counts s))
  || ((0 <? total) && has_transition_total_budget_pressure counts l).

(** ** Growth warnings *)

Definition growth_warning (code : PreviewGrowthWarningCode) (message : string)
    (observed threshold : Z) : PreviewGrowthWarning :=
  {| warning_code := code; warning_message := message; warning_observed := observed;
     warning_threshold := threshold |}.

Definition cyclic_dominance (s : SemanticTraversal) (dominant : option PreviewTransitionCount)
    (share : option Z) : list PreviewGrowthWarning :=
  match dominant, share with
  | Some d, Some share =>
    let cyclic :=
      match find (fun t => bool_decide (transition_id t = count_transition_id d))
              (ctx_transitions (context s)) with
      | Some t => transition_participates_in_cycle (graph (context s)) t
      | None => false
      end in
    push_if (cyclic && (DOMINANT_TRANSITION_MIN_EDGES <=? count_eligible_edges d)
             && (DOMINANT_TRANSITION_SHARE_PERCENT <=? share))
      (growth_warning CyclicTransitionDominance
        "A cyclic transition dominates eligible preview edges."
        share DOMINANT_TRANSITION_SHARE_PERCENT)
  | _, _ => []
  end.

Definition exploding_group (g : PreviewQueryVariantGroup) : bool :=
  (QUERY_EXPLOSION_MIN_VARIANTS <=? canonical_query_variants g)
  && (Z.min u64_max (total_identities g * QUERY_EXPLOSION_QUERY_BEARING_PERCENT)
      <=? Z.min u64_max (query_bearing_identities g * 100)).

Definition query_explosion (groups : list PreviewQueryVariantGroup) : list PreviewGrowthWarning :=
  match List.filter exploding_group groups with
  | [] => []
  | exploding =>
    [growth_warning QueryParameterExplosion "A host/path has many canonical query variants."
       (default 0 (max_by Z.compare (map canonical_query_variants exploding)))
       QUERY_EXPLOSION_MIN_VARIANTS]
  end.

Definition growth_warnings (s : SemanticTraversal) (counts : list PreviewTransitionCount)
    (total : Z) (dominant : option PreviewTransitionCount) (share : option Z)
    (groups : list PreviewQueryVariantGroup) (frontier : Z) : list PreviewGrowthWarning :=
  let denominator := Z.of_nat (size (matching_urls s)) in
  let unmatched := Z.of_nat (size (unmatched_urls s)) in
  let ambiguous := Z.of_nat (size (ambiguous_urls s)) in
  cyclic_dominance s dominant share ++ query_explosion groups
  ++ push_if ((HIGH_UNMATCHED_MIN_DENOMINATOR <=? denominator)
              && (denominator * HIGH_UNMATCHED_SHARE_PERCENT <=? unmatched * 100))
       (growth_warning HighUnmatchedRate "At least half of matched in-scope URLs were unmatched."
         unmatched HIGH_UNMATCHED_SHARE_PERCENT)
  ++ push_if ((WIDESPREAD_AMBIGUITY_MIN_DENOMINATOR <=? denominator)
              && (denominator * WIDESPREAD_AMBIGUITY_SHARE_PERCENT <=? ambiguous * 100))
       (growth_warning WidespreadPageTypeAmbiguity
         "Many matched in-scope URLs have ambiguous PageTypes."
         ambiguous WIDESPREAD_AMBIGUITY_SHARE_PERCENT)
  ++ push_if ((0 <? frontier) && (has_relevant_budget_hit (budget_hits s)
                                  || has_budget_pressure_utilization s counts total))
       (growth_warning BudgetPressure
         "The remaining frontier is pressing against a bounded preview budget."
         frontier BUDGET_PRESSURE_PERCENT).

(** ** [finish] *)

Definition transition_count_rows (s : SemanticTraversal) : list PreviewTransitionCount :=
  map (fun c => {| count_transition_id := rt_transition_id c; count_transition_name := rt_name c;
                   count_eligible_edges := eligible_edges c;
                   count_source_pages := Z.of_nat (size (source_pages c)) |})
    (btree_values (transition_counts s)).

Definition distributions (s : SemanticTraversal) : list PreviewPageTypeDistribution :=
  map (fun p => {| dist_page_type_id := pt_id p; dist_page_type_name := pt_name p;
                   dist_discovered_unique_urls :=
                     default 0 (page_type_discovered s !! id_to_string (pt_id p));
                   dist_sampled_pages := default 0 (page_type_sampled s !! id_to_string (pt_id p)) |})
    (ctx_page_types (context s)).

Definition finish_summary (s : SemanticTraversal) : DiscoveryPreviewSummary :=
  {| sum_pages_sampled := pages_sampled s; sum_urls_discovered := urls_discovered s;
     sum_canonical_unique_urls := Z.of_nat (size (seen s));
     sum_duplicates_prevented := duplicates_prevented s;
     sum_page_type_distribution := distributions s;
     sum_ambiguous_urls := Z.of_nat (size (ambiguous_urls s));
     sum_unmatched_urls := Z.of_nat (size (unmatched_urls s));
     sum_external_urls := external_urls s; sum_blocked_urls := blocked_urls s;
     sum_robots_excluded := robots_excluded s; sum_provider_errors := provider_errors s;
     sum_transition_counts := transition_count_rows s;
     sum_budget_hit_counts :=
       (if time_budget_hit s
        then <[HitMaxDuration := default 1 (budget_hits s !! HitMaxDuration)]> (budget_hits s)
        else budget_hits s);
     sum_frontier_remaining := Z.of_nat (length (queue s));
     sum_newly_enqueued_urls := newly_enqueued_urls s;
     sum_pagination_truncation_count := pagination_truncated s;
     sum_duration_work_not_expanded := duration_work_not_expanded s |}.

Definition note_time_budget (s : SemanticTraversal) : SemanticTraversal :=
  if time_budget_hit s then
    let '(elapsed, s) := elapsed_millis s in
    push_diagnostic (preview_diagnostic "PREVIEW_TIME_BUDGET_HIT"
      "Preview stopped at a safe clock boundary." (Some elapsed)
      (Some (eff_max_duration_ms (limits (context s))))) s
  else s.

Definition finish (s : SemanticTraversal) : DiscoveryPreviewResult :=
  let s := note_time_budget s in
  let frontier := Z.of_nat (length (queue s)) in
  let counts := transition_count_rows s in
  let total := foldl Z.add 0 (map count_eligible_edges counts) in
  let dominant := unique_dominant_transition counts in
  let share := if 0 <? total
    then (fun d => Z.min u64_max (count_eligible_edges d * 100) / total) <$> dominant else None in
  let groups := query_variant_groups (in_scope_urls s) in
  {| result_version_id := version_id (ctx_version (context s));
     result_config_hash := config_hash (ctx_snapshot (context s));
     result_selected_seed_ids := selected_seed_ids s;
     result_effective_limits := limits (context s); result_seeds := seeds s;
     result_pages := pages s; result_discovery_paths := paths s;
     result_summary := finish_summary s;
     result_growth_indicators :=
       {| peak_new_canonical_urls_from_one_page := peak_new_from_page s;
          total_newly_enqueued_urls := newly_enqueued_urls s;
          growth_frontier_remaining := frontier;
          dominant_transition_id := count_transition_id <$> dominant;
          dominant_transition_eligible_edges := default 0 (count_eligible_edges <$> dominant);
          total_eligible_transition_edges := total;
          dominant_transition_share_percent := share;
          growth_query_variant_groups := groups;
          unmatched_denominator := Z.of_nat (size (matching_urls s));
          ambiguity_denominator := Z.of_nat (size (matching_urls s)) |};
     result_growth_warnings := growth_warnings s counts total dominant share groups frontier;
     result_warnings := diagnostics s |}.

(** ** [DiscoveryPreviewService::execute] *)

(** [evaluation_snapshot] reads the active draft; its errors arrive mapped. *)
Definition execute_preview (request : DiscoveryPreviewRequest)
    (read_draft : result DiscoveryPreviewError CrawlerSemanticSnapshot)
    (provider : option (nat -> DiscoveryPreviewObservationRequest ->
      result DiscoveryPreviewProviderError DiscoveryPreviewProviderOutcome))
    (clock : nat -> Z) (fuel : nat)
    : option (result DiscoveryPreviewError DiscoveryPreviewResult) :=
  let admitted_roots :=
    let? _ := map_err (fun _ => InvalidPreviewLimits) (limits_validate (request_limits request)) in
    let? _ := reject_if (match request_seed_ids request with [] => true | _ => false end)
      NoSelectedSeeds in
    let? _ := reject_if (MAX_PREVIEW_SELECTED_SEEDS <? length (request_seed_ids request))%nat
      InvalidRequest in
    let? _ := reject_if
      (negb (Nat.eqb (size (id_set (request_seed_ids request))) (length (request_seed_ids request))))
      DuplicateSeedSelection in
    let? provider := ok_or ProviderUnavailable provider in
    let? draft := read_draft in
    let? context := context_new draft (request_limits request) in
    let? selected := select_seeds context (request_seed_ids request) in
    admit_roots selected
      (traversal_new context (request_seed_ids request) provider clock 1 (clock 0%nat)) in
  match admitted_roots with
  | Err e => Some (Err e)
  | Ok s =>
    match traverse fuel s with
    | None => None
    | Some (Ok s) => Some (Ok (finish s))
    | Some (Err e) => Some (Err e)
    end
  end.

(** [execute(mut self)] of a traversal built elsewhere. *)
Definition execute (fuel : nat) (s : SemanticTraversal)
    : option (result DiscoveryPreviewError DiscoveryPreviewResult) :=
  match traverse fuel s with
  | None => None
  | Some (Ok s) => Some (Ok (finish s))
  | Some (Err e) => Some (Err e)
  end.
End preview_report.
