(* ===== verification/SemanticInvariants.v ===== *)
(** * The invariant of the semantic traversal

    The part of a traversal that decides what is requested ([Core]), what holds of it
    at every boundary ([core_ok]), and that every method keeps it: the methods that
    only count, time or report leave the core alone, the others change it as their
    lemma says. *)

From S2P Require Import Prelude Externals Base Instances Guardrails Canonicalization DomainScope UrlMatcher Crawler Preview SemanticTraversal.

Section semantic_invariants.
Context `{U : UuidLib} `{L : UrlLib} `{R : RegexLib} `{H : HostLib} `{J : !UrlJoin L}.

(** ** The core of a traversal *)

Record Core := {
  c_context : PreviewContext;
  c_provider : nat -> DiscoveryPreviewObservationRequest ->
    result DiscoveryPreviewProviderError DiscoveryPreviewProviderOutcome;
  c_selected : list SeedId;
  c_queued : gmap string QueueEntry;
  c_admitted : gset string;
  c_seen : gset string;
  c_sampled : gset string;
  c_expanded : gset string;
  c_bytes : Z;
  c_pages_sampled : Z;
  c_newly : Z;
  c_scheduled : gmap string Z;
  c_totals : gmap string TransitionRuntimeCount;
  c_page_counts : gmap (string * string) Z;
  c_matching : gset string;
  c_unmatched : gset string;
  c_ambiguous : gset string;
  c_in_scope : gset string
}.

Definition core (s : SemanticTraversal) : Core :=
  {| c_context := context s; c_provider := provider s; c_selected := selected_seed_ids s; c_queued := queued s;
     c_admitted := admitted s; c_seen := seen s; c_sampled := sampled s;
     c_expanded := expanded s; c_bytes := consumed_bytes s; c_pages_sampled := pages_sampled s;
     c_newly := newly_enqueued_urls s; c_scheduled := page_type_scheduled s;
     c_totals := transition_counts s; c_page_counts := transition_page_counts s;
     c_matching := matching_urls s; c_unmatched := unmatched_urls s;
     c_ambiguous := ambiguous_urls s; c_in_scope := in_scope_urls s |}.

Definition eta_core (c : Core) : Core :=
  {| c_context := c_context c; c_provider := c_provider c; c_selected := c_selected c; c_queued := c_queued c;
     c_admitted := c_admitted c; c_seen := c_seen c; c_sampled := c_sampled c;
     c_expanded := c_expanded c; c_bytes := c_bytes c; c_pages_sampled := c_pages_sampled c;
     c_newly := c_newly c; c_scheduled := c_scheduled c; c_totals := c_totals c;
     c_page_counts := c_page_counts c; c_matching := c_matching c; c_unmatched := c_unmatched c;
     c_ambiguous := c_ambiguous c; c_in_scope := c_in_scope c |}.

#[export] Instance set_c_provider : Setter c_provider.
Proof. setter_of eta_core c_provider. Defined.
#[export] Instance set_c_queued : Setter c_queued.
Proof. setter_of eta_core c_queued. Defined.
#[export] Instance set_c_admitted : Setter c_admitted.
Proof. setter_of eta_core c_admitted. Defined.
#[export] Instance set_c_seen : Setter c_seen.
Proof. setter_of eta_core c_seen. Defined.
#[export] Instance set_c_sampled : Setter c_sampled.
Proof. setter_of eta_core c_sampled. Defined.
#[export] Instance set_c_expanded : Setter c_expanded.
Proof. setter_of eta_core c_expanded. Defined.
#[export] Instance set_c_bytes : Setter c_bytes.
Proof. setter_of eta_core c_bytes. Defined.
#[export] Instance set_c_pages_sampled : Setter c_pages_sampled.
Proof. setter_of eta_core c_pages_sampled. Defined.
#[export] Instance set_c_newly : Setter c_newly.
Proof. setter_of eta_core c_newly. Defined.
#[export] Instance set_c_scheduled : Setter c_scheduled.
Proof. setter_of eta_core c_scheduled. Defined.
#[export] Instance set_c_totals : Setter c_totals.
Proof. setter_of eta_core c_totals. Defined.
#[export] Instance set_c_page_counts : Setter c_page_counts.
Proof. setter_of eta_core c_page_counts. Defined.
#[export] Instance set_c_matching : Setter c_matching.
Proof. setter_of eta_core c_matching. Defined.
#[export] Instance set_c_unmatched : Setter c_unmatched.
Proof. setter_of eta_core c_unmatched. Defined.
#[export] Instance set_c_ambiguous : Setter c_ambiguous.
Proof. setter_of eta_core c_ambiguous. Defined.
#[export] Instance set_c_in_scope : Setter c_in_scope.
Proof. setter_of eta_core c_in_scope. Defined.

(** ** The invariant *)

(** What a frozen context guarantees, and the ranges of its integer types. *)
Record context_ok (ctx : PreviewContext) : Prop := {
  ok_max_pages : in_u64 (eff_max_pages (limits ctx));
  ok_max_bytes : in_u64 (eff_max_downloaded_bytes (limits ctx));
  ok_max_depth : in_u32 (eff_max_depth (limits ctx));
  ok_totals : Forall (fun l => in_u64 (effective_total_limit l)) (transition_total_limits (limits ctx));
  ok_unique : NoDup (map transition_id (ctx_transitions ctx));
  ok_contribution : Forall (fun t => in_u32 (depth_contribution (transition_budget t)) /\
    in_u32 (max_links_per_source_page (transition_budget t)) /\
    forall n, total_budget (transition_budget t) = Some n -> in_u64 n) (ctx_transitions ctx);
  ok_page_budgets : Forall (fun b => forall n, page_budget b = Some n -> in_u64 n)
    (guardrails_page_types (ctx_guardrails ctx))
}.

(** The queued entries reserved under a page type. *)
Definition reserved (key : string) (q : gmap string QueueEntry) : nat :=
  size (filter (fun x => id_to_string <$> qe_target_page_type_id x.2 = Some key) q).

(** What an entry names is in the context; its order counts the selected seeds and the
    pages admitted before it. *)
Record entry_known (ctx : PreviewContext) (selected : list SeedId) (e : QueueEntry) : Prop := {
  ek_order : 0 <= qe_order e <= eff_max_pages (limits ctx) + Z.of_nat (length selected);
  ek_target : forall p, qe_target_page_type_id e = Some p -> p ∈ map pt_id (ctx_page_types ctx);
  ek_transition : forall t, qe_transition_id e = Some t -> t ∈ map transition_id (ctx_transitions ctx)
}.

(** An entry of a traversal whose frontier is at depth [d]. *)
Record entry_ok (d : Z) (ctx : PreviewContext) (selected : list SeedId) (e : QueueEntry) : Prop := {
  eo_depth : d <= qe_depth e <= eff_max_depth (limits ctx);
  eo_seeds : qe_seed_ids e <> [];
  eo_seeds_unique : NoDup (qe_seed_ids e);
  eo_selected : qe_seed_ids e ⊆ selected;
  eo_known : entry_known ctx selected e
}.

(** The identities: what is queued is admitted and not yet sampled; what is expanded
    is sampled, what is sampled is admitted, what is admitted is seen. *)
Record identities_ok (d : Z) (c : Core) : Prop := {
  io_key : forall k e, c_queued c !! k = Some e -> 
    qe_canonical_url e = k /\ entry_ok d (c_context c) (c_selected c) e;
  io_queued : forall k, is_Some (c_queued c !! k) -> k ∈ c_admitted c /\ k ∉ c_sampled c;
  io_admitted : c_admitted c ⊆ c_seen c;
  io_sampled : c_sampled c ⊆ c_admitted c;
  io_expanded : c_expanded c ⊆ c_sampled c
}.

(** The budgets: pages, bytes and page types, with the counters that stand for them. *)
Record budgets_ok (c : Core) : Prop := {
  bo_pages : Z.of_nat (size (c_admitted c)) <= eff_max_pages (limits (c_context c));
  bo_newly : c_newly c = Z.of_nat (size (c_admitted c));
  bo_pages_sampled : c_pages_sampled c = Z.of_nat (size (c_sampled c));
  bo_bytes : 0 <= c_bytes c <= eff_max_downloaded_bytes (limits (c_context c));
  bo_reserved : forall key, Z.of_nat (reserved key (c_queued c)) <= default 0 (c_scheduled c !! key);
  bo_page_types : forall p limit,
    guardrails_page_type (ctx_guardrails (c_context c)) p ≫= page_budget = Some limit ->
    default 0 (c_scheduled c !! id_to_string p) <= limit
}.

Definition total_of (c : Core) (t : DiscoveryTransition) : Z :=
  match c_totals c !! id_to_string (transition_id t) with
  | Some n => eligible_edges n | None => 0 end.

Definition page_count_of (c : Core) (t : DiscoveryTransition) (source : string) : Z :=
  default 0 (c_page_counts c !! (id_to_string (transition_id t), source)).

(** The keys of the counters are those of the context: every transition has a total, under
    its own name. *)
Record keys_known (c : Core) : Prop := {
  kk_total : forall k n, c_totals c !! k = Some n -> exists t, t ∈ ctx_transitions (c_context c) /\
    transition_id t = rt_transition_id n /\ transition_name t = rt_name n /\
    id_to_string (transition_id t) = k;
  kk_every : forall t, t ∈ ctx_transitions (c_context c) ->
    is_Some (c_totals c !! id_to_string (transition_id t));
  kk_count : forall k, is_Some (c_page_counts c !! k) ->
    exists t, t ∈ ctx_transitions (c_context c) /\ id_to_string (transition_id t) = k.1;
  kk_scheduled : forall k, is_Some (c_scheduled c !! k) ->
    exists p, p ∈ ctx_page_types (c_context c) /\ id_to_string (pt_id p) = k
}.

(** The transitions: no source page and no traversal exceeds what they allow. *)
Record transitions_ok (c : Core) : Prop := {
  to_total : forall t limit, t ∈ ctx_transitions (c_context c) ->
    transition_total_limit (c_context c) (transition_id t) = Some limit ->
    total_of c t <= limit;
  to_semantic : forall t limit, t ∈ ctx_transitions (c_context c) ->
    total_budget (transition_budget t) = Some limit -> total_of c t <= limit;
  to_page : forall t source, t ∈ ctx_transitions (c_context c) ->
    page_count_of c t source <= max_links_per_source_page (transition_budget t);
  to_known : keys_known c
}.

(** The match sets: every in-scope identity is counted in [matching_urls]. *)
Record matches_ok (c : Core) : Prop := {
  mo_matching : c_matching c = c_in_scope c;
  mo_unmatched : c_unmatched c ⊆ c_in_scope c;
  mo_ambiguous : c_ambiguous c ⊆ c_in_scope c;
  mo_disjoint : c_unmatched c ## c_ambiguous c
}.

Record core_ok (d : Z) (c : Core) : Prop := {
  co_identities : identities_ok d c;
  co_budgets : budgets_ok c;
  co_transitions : transitions_ok c;
  co_matches : matches_ok c
}.

(** [queue] is [queued] in the order of the traversal. *)
Definition queue_ok (s : SemanticTraversal) : Prop :=
  StronglySorted (cmp_le entry_cmp) (queue s) /\ queue s ≡ₚ map snd (map_to_list (queued s)).

(** The provider's byte counts are of their type. *)
Definition typed_provider (provider : nat -> DiscoveryPreviewObservationRequest ->
    result DiscoveryPreviewProviderError DiscoveryPreviewProviderOutcome) : Prop :=
  forall n request o bytes, provider n request = Ok (Observed o bytes) -> in_u64 bytes.

Record traversal_ok (d : Z) (s : SemanticTraversal) : Prop := {
  tr_context : context_ok (context s);
  tr_provider : typed_provider (provider s);
  tr_core : core_ok d (core s);
  tr_queue : queue_ok s
}.

(** ** Methods that leave the core and the queue alone *)

Definition kept (s s' : SemanticTraversal) : Prop := core s' = core s /\ queue s' = queue s.

#[export] Instance kept_preorder : PreOrder kept.
Proof.
  split; [done|]. intros a b c [H1 H2] [H3 H4]. split; congruence.
Qed.

Lemma kept_elapsed s : kept s (elapsed_millis s).2.
Proof. done. Qed.

Lemma kept_record_budget h s : kept s (record_budget h s).
Proof. done. Qed.

Lemma kept_push_diagnostic d s : kept s (push_diagnostic d s).
Proof. unfold push_diagnostic. by destruct (_ <? _)%nat. Qed.

Lemma kept_pagination_truncation n m c s : kept s (record_pagination_truncation n m c s).
Proof.
  unfold record_pagination_truncation. destruct (n =? 0); [done|].
  etrans; [|apply kept_push_diagnostic]. done.
Qed.

Lemma kept_hit_time_budget s : kept s (hit_time_budget s).
Proof. unfold hit_time_budget. by destruct (time_budget_hit s). Qed.

Lemma kept_budget_hit k t p o l s : kept s (budget_hit k t p o l s).2.
Proof. done. Qed.

Lemma kept_count_scope st s : kept s (count_scope st s).
Proof. by destruct st. Qed.

Lemma kept_update_seeds ids f s : kept s (update_seeds ids f s).
Proof. done. Qed.

Lemma kept_push_path p s : kept s (push_path p s).
Proof. done. Qed.

Lemma kept_truncate_link l b s : kept s (truncate_link l b s).
Proof.
  unfold truncate_link. destruct (is_pagination l), b; try done.
  - apply kept_pagination_truncation.
  - etrans; [apply kept_pagination_truncation|]. etrans; [|apply kept_push_diagnostic]. done.
  - etrans; [|apply kept_push_diagnostic]. done.
Qed.

Lemma kept_if (b : bool) s t u : kept s t -> kept s u -> kept s (if b then t else u).
Proof. by destruct b. Qed.

Lemma kept_stop_at_duration o e t l s : kept s (stop_at_duration o e t l s).
Proof.
  unfold stop_at_duration. set (s1 := hit_time_budget s).
  set (s2 := if e && (0 <? t) then _ else s1).
  assert (kept s s2) as Hk.
  { etrans; [apply kept_hit_time_budget|]. apply kept_if; [apply kept_pagination_truncation|done]. }
  apply kept_if; [etrans; [|apply kept_push_diagnostic]|]; exact Hk.
Qed.

Lemma queue_ok_rebuild s : queue_ok (rebuild_queue s).
Proof.
  unfold queue_ok, rebuild_queue, btree_values, btree_to_list. simpl.
  split; [apply sort_by_Sorted; apply _|]. by rewrite !sort_by_perm.
Qed.

Lemma core_rebuild s : core (rebuild_queue s) = core s.
Proof. done. Qed.

(** ** Transition budgets *)

Lemma transition_key_inj `{!UuidLaws U} ctx t t' : context_ok ctx ->
  t ∈ ctx_transitions ctx -> t' ∈ ctx_transitions ctx ->
  id_to_string (transition_id t) = id_to_string (transition_id t') -> t = t'.
Proof. intros Hc Ht Ht' Hid%id_to_string_inj. eapply NoDup_map_inj; [apply Hc|done..]. Qed.

(** No budget excludes the transition [t] from the page [source]. *)
Record within_transition (c : Core) (t : DiscoveryTransition) (source : string) : Prop := {
  wt_page : page_count_of c t source < max_links_per_source_page (transition_budget t);
  wt_semantic : forall limit, total_budget (transition_budget t) = Some limit -> total_of c t < limit;
  wt_total : forall limit, transition_total_limit (c_context c) (transition_id t) = Some limit ->
    total_of c t < limit
}.

Lemma check_transition_budget_spec entry source t m s hit s' :
  check_transition_budget entry source t m s = Ok (hit, s') ->
  kept s s' /\ (hit = None -> within_transition (core s) t source).
Proof.
  unfold check_transition_budget. destruct (_ <=? Z.of_nat _); [intros [= <- <-]; by split|].
  destruct (elapsed_millis s) as [el s1] eqn:He.
  assert (context s1 = context s) as Hctx by (injection He as <- <-; done).
  assert (kept s s1) as Hk by (injection He as <- <-; done). clear He.
  destruct (evaluate _ _) as [d|] eqn:Hev; simpl; [|done]. destruct d as [|why].
  2:{ destruct (budget_hit_from_exclusion _ _ _ _) as [h s2] eqn:Hb. intros [= <- <-].
      unfold budget_hit_from_exclusion in Hb. destruct (exclusion_hit _ _ _ _) as [[? ?] ?].
      injection Hb as <- <-. by split. }
  destruct (transition_total_limit _ _) as [l|] eqn:Hl; simpl; [|done].
  destruct (_ <=? transition_total s t) eqn:Hle; intros [= <- <-]; (split; [exact Hk|]); [done|].
  intros _. clear Hk. boolify. apply evaluate_allowed_sound in Hev as (_ & Hv & _).
  unfold first_violation, caps in Hv. simpl in Hv. rewrite Hctx in *.
  repeat case_match_in Hv. boolify.
  unfold transition_page_count, transition_total in *.
  split; unfold page_count_of, total_of; simpl; [lia| |].
  - intros limit Hlim. rewrite Hlim in *. simpl in *. boolify. done.
  - intros limit. rewrite Hl. by intros [= <-].
Qed.

Definition consumed (t : DiscoveryTransition) (source : string) (c : Core) : Core :=
  c <| c_page_counts ::= increment (id_to_string (transition_id t), source) |>
    <| c_totals ::= alter (fun n =>
         {| rt_transition_id := rt_transition_id n; rt_name := rt_name n;
            eligible_edges := saturating_add u64_max (eligible_edges n) 1;
            source_pages := {[source]} ∪ source_pages n |}) (id_to_string (transition_id t)) |>.

Lemma core_consume t source s : core (consume_transition t source s) = consumed t source (core s).
Proof. done. Qed.

Lemma total_consumed c t source : total_of (consumed t source c) t <= total_of c t + 1.
Proof.
  unfold total_of; simpl. rewrite lookup_alter_eq.
  destruct (c_totals c !! _); simpl; unfold saturating_add; lia.
Qed.

Lemma total_consumed_other c t source t' :
  id_to_string (transition_id t) <> id_to_string (transition_id t') ->
  total_of (consumed t source c) t' = total_of c t'.
Proof. intros Hne. unfold total_of; simpl. by rewrite lookup_alter_ne. Qed.

Lemma page_count_consumed c t source : page_count_of (consumed t source c) t source = page_count_of c t source + 1.
Proof. unfold page_count_of, consumed, increment; simpl. by rewrite lookup_insert_eq. Qed.

Lemma page_count_consumed_other c t source t' source' :
  (id_to_string (transition_id t), source) <> (id_to_string (transition_id t'), source') ->
  page_count_of (consumed t source c) t' source' = page_count_of c t' source'.
Proof. intros Hne. unfold page_count_of, consumed, increment; simpl. by rewrite lookup_insert_ne. Qed.

Lemma consumed_known c t source : t ∈ ctx_transitions (c_context c) ->
  keys_known c -> keys_known (consumed t source c).
Proof.
  intros Ht [K1 K2 K3 K4]. split; simpl.
  - intros k n. rewrite lookup_alter_Some. intros [(<- & m & Hm & ->)|[_ Hn]]; [|by apply K1].
    simpl. by apply K1 in Hm.
  - intros t' Ht'. rewrite lookup_alter. case_decide; [rewrite fmap_is_Some|]; by apply K2.
  - intros k. unfold increment. rewrite lookup_insert. case_decide as Hk; [|by apply K3].
    intros _. subst k. by exists t.
  - done.
Qed.

Lemma consumed_ok `{!UuidLaws U} c t source : context_ok (c_context c) ->
  t ∈ ctx_transitions (c_context c) -> within_transition c t source ->
  transitions_ok c -> transitions_ok (consumed t source c).
Proof.
  intros Hc Ht [Hp Hs Hl] [Htot Hsem Hpage Hkn].
  assert (forall t', t' ∈ ctx_transitions (c_context c) ->
    t' = t \/ id_to_string (transition_id t) <> id_to_string (transition_id t')) as Hcase.
  { intros t' Ht'. destruct (decide (id_to_string (transition_id t) = id_to_string (transition_id t')));
      [left|by right]. symmetry. by eapply transition_key_inj. }
  split.
  - intros t' limit Ht' Hlim. destruct (Hcase t' Ht') as [->|Hne].
    + apply Hl in Hlim. pose proof (total_consumed c t source). lia.
    + rewrite total_consumed_other by done. by apply Htot.
  - intros t' limit Ht' Hlim. destruct (Hcase t' Ht') as [->|Hne].
    + apply Hs in Hlim. pose proof (total_consumed c t source). lia.
    + rewrite total_consumed_other by done. by apply Hsem.
  - intros t' source' Ht'. destruct (Hcase t' Ht') as [->|Hne].
    + destruct (decide (source = source')) as [<-|].
      * rewrite page_count_consumed. lia.
      * rewrite page_count_consumed_other by congruence. by apply Hpage.
    + rewrite page_count_consumed_other by congruence. by apply Hpage.
  - by apply consumed_known.
Qed.

(** ** Evaluating the transitions of a page *)

(** Only the transition counters differ. *)
Definition counted (c c' : Core) : Prop :=
  exists totals counts, c' = c <| c_totals := totals |> <| c_page_counts := counts |>.

#[export] Instance counted_preorder : PreOrder counted.
Proof.
  split.
  - intros c. exists (c_totals c), (c_page_counts c). by destruct c.
  - intros a b c (t1 & p1 & ->) (t2 & p2 & ->). by exists t2, p2.
Qed.

(** The depth an eligible transition gives its target. *)
Definition depth_via (entry : QueueEntry) (ctx : PreviewContext) (d : Z) : Prop :=
  qe_depth entry <= d <= eff_max_depth (limits ctx).

Lemma admit_transition_spec `{!UuidLaws U} entry source t m s hits depth s' :
  context_ok (context s) -> t ∈ ctx_transitions (context s) -> transitions_ok (core s) ->
  admit_transition entry source t m s = Ok (hits, depth, s') ->
  counted (core s) (core s') /\ transitions_ok (core s') /\
  (forall d, depth = Some d -> depth_via entry (context s) d).
Proof.
  intros Hc Ht Hok. unfold admit_transition.
  destruct (check_transition_budget _ _ _ _ _) as [[hit s1]|] eqn:Hb; [|done].
  apply check_transition_budget_spec in Hb as [[Hk Hq] Hw]. destruct hit as [hit|].
  { intros [= <- <- <-]. rewrite Hk. by split_and!. }
  specialize (Hw eq_refl). assert (context s1 = context s) as Hctx by exact (f_equal c_context Hk).
  destruct (checked_add _ _ _) as [d|] eqn:Hd; simpl; [|done].
  apply checked_add_some in Hd as [-> _]. rewrite Hctx.
  destruct (_ <? _) eqn:Hmax; intros [= <- <- <-].
  { split_and!; [change (counted (core s) (core s1))|change (transitions_ok (core s1))|done];
      by rewrite Hk. }
  boolify. rewrite core_consume, Hk. split_and!; [by do 2 eexists|by apply consumed_ok|].
  intros d [= <-]. unfold depth_via. destruct Hc as [_ _ _ _ _ Hcon _].
  rewrite Forall_forall in Hcon. destruct (Hcon t Ht) as [[] _]. lia.
Qed.

Lemma evaluate_transition_spec `{!UuidLaws U} entry source l m t s evaluation depth s' :
  context_ok (context s) -> t ∈ ctx_transitions (context s) -> transitions_ok (core s) ->
  evaluate_transition entry source l m t s = Ok (evaluation, depth, s') ->
  counted (core s) (core s') /\ transitions_ok (core s') /\
  (forall d, depth = Some d -> depth_via entry (context s) d).
Proof.
  intros Hc Ht Hok. unfold evaluate_transition. destruct (_ && _ && _).
  - destruct (admit_transition _ _ _ _ _) as [[[hits d] s1]|] eqn:Ha; [|done].
    intros [= <- <- <-]. by eapply admit_transition_spec.
  - intros [= <- <- <-]. by split_and!.
Qed.

Lemma evaluate_transitions_spec `{!UuidLaws U} entry source l m ts s evaluations eligible s' :
  context_ok (context s) -> ts ⊆ ctx_transitions (context s) -> transitions_ok (core s) ->
  evaluate_transitions entry source l m ts s = Ok (evaluations, eligible, s') ->
  counted (core s) (core s') /\ transitions_ok (core s') /\
  Forall (fun e => depth_via entry (context s) e.2 /\ e.1 ∈ ctx_transitions (context s)) eligible.
Proof.
  revert s evaluations eligible s'. induction ts as [|t ts IH]; simpl; intros s evs el s' Hc Hts Hok.
  { intros [= <- <- <-]. by split_and!. }
  destruct (evaluate_transition _ _ _ _ _ _) as [[[ev d] s1]|] eqn:Ht; [|done].
  apply evaluate_transition_spec in Ht as (Hcnt & Hok1 & Hd); [|done|set_solver|done].
  assert (context s1 = context s) as Hctx.
  { destruct Hcnt as (? & ? & Heq). exact (f_equal c_context Heq). }
  destruct (evaluate_transitions _ _ _ _ ts s1) as [[[evs' el'] s2]|] eqn:Hts'; [|done].
  intros [= <- <- <-]. eapply IH in Hts' as (Hcnt' & Hok2 & Hf); [|by rewrite Hctx|
    rewrite Hctx; set_solver|done].
  rewrite Hctx in Hf. split_and!; [by etrans|done|].
  destruct d as [d|]; [|done]. constructor; [split; [by apply Hd|set_solver]|done].
Qed.

(** ** How the core changes *)

(** What every change keeps: identities are not forgotten, and one that is seen but
    not queued is never queued again. *)
Record grows (c c' : Core) : Prop := {
  gr_context : c_context c' = c_context c;
  gr_provider : c_provider c' = c_provider c;
  gr_selected : c_selected c' = c_selected c;
  gr_seen : c_seen c ⊆ c_seen c';
  gr_expanded : c_expanded c ⊆ c_expanded c';
  gr_closed : forall k, k ∈ c_seen c -> c_queued c !! k = None -> c_queued c' !! k = None
}.

#[export] Instance grows_preorder : PreOrder grows.
Proof.
  split; [by split|]. intros a b c [Ha1 Ha0 Ha2 Ha3 Ha4 Ha5] [Hb1 Hb0 Hb2 Hb3 Hb4 Hb5].
  split; [congruence..|set_solver|set_solver|]. intros k Hk Hq. apply Hb5; [set_solver|auto].
Qed.

Lemma counted_identities d c c' : counted c c' -> identities_ok d c -> identities_ok d c'.
Proof. intros (? & ? & ->) []. by split. Qed.

Lemma counted_budgets c c' : counted c c' -> budgets_ok c -> budgets_ok c'.
Proof. intros (? & ? & ->) []. by split. Qed.

Lemma counted_matches c c' : counted c c' -> matches_ok c -> matches_ok c'.
Proof. intros (? & ? & ->) []. by split. Qed.

Lemma counted_grows c c' : counted c c' -> grows c c'.
Proof. intros (? & ? & ->). by split. Qed.

(** An identity becomes seen. *)
Definition sees (u : string) (c : Core) : Core := c <| c_seen ::= fun l => {[u]} ∪ l |>.

Lemma sees_ok d u c : core_ok d c -> core_ok d (sees u c).
Proof.
  intros [[H1 H2 H3 H4 H5] [B1 B2 B3 B4 B5 B6] [T1 T2 T3 [K1 K2 K3 K4]] [M1 M2 M3 M4]].
  split; split; simpl; try done. set_solver.
Qed.

Lemma sees_grows u c : grows c (sees u c).
Proof. split; simpl; [done..|set_solver|done|done]. Qed.

(** A match is registered. *)
Definition matched (c c' : Core) : Prop :=
  exists m u a i, c' = c <| c_matching := m |> <| c_unmatched := u |> <| c_ambiguous := a |>
                         <| c_in_scope := i |>.

Lemma matched_identities d c c' : matched c c' -> identities_ok d c -> identities_ok d c'.
Proof. intros (? & ? & ? & ? & ->) []. by split. Qed.

Lemma matched_budgets c c' : matched c c' -> budgets_ok c -> budgets_ok c'.
Proof. intros (? & ? & ? & ? & ->) []. by split. Qed.

Lemma matched_transitions c c' : matched c c' -> transitions_ok c -> transitions_ok c'.
Proof. intros (? & ? & ? & ? & ->) [T1 T2 T3 []]. by split. Qed.

Lemma matched_grows c c' : matched c c' -> grows c c'.
Proof. intros (? & ? & ? & ? & ->). by split. Qed.

Lemma register_match_spec u m b s :
  matched (core s) (core (register_match u m b s)) /\ queue (register_match u m b s) = queue s /\
  (matches_ok (core s) -> matches_ok (core (register_match u m b s))).
Proof.
  unfold register_match. destruct (bool_decide (u ∈ in_scope_urls s)) eqn:Hin; boolify.
  { split_and!; [|done|done]. do 4 eexists. reflexivity. }
  destruct (match_decision m); [destruct (winner m); [destruct b|]|..];
    (split_and!; [do 4 eexists; reflexivity|done|]);
    intros [H1 H2 H3 H4]; simpl in *; split; simpl; set_solver.
Qed.

(** ** Reservations *)

Definition holds_key (key : string) (e : QueueEntry) : nat :=
  if decide (id_to_string <$> qe_target_page_type_id e = Some key) then 1 else 0.

Lemma reserved_insert key k e q : q !! k = None ->
  reserved key (<[k := e]> q) = (reserved key q + holds_key key e)%nat.
Proof.
  intros Hk. unfold reserved, holds_key. destruct (decide _) as [Ht|Ht].
  - rewrite map_filter_insert_True by done. rewrite map_size_insert_None; [lia|].
    apply map_lookup_filter_None. by left.
  - rewrite map_filter_insert_False by done. rewrite delete_id by done. lia.
Qed.

Lemma reserved_delete key k e q : q !! k = Some e ->
  reserved key q = (reserved key (delete k q) + holds_key key e)%nat.
Proof.
  intros Hk. rewrite <- (reserved_insert key k e (delete k q)) by apply lookup_delete_eq.
  by rewrite insert_delete_id.
Qed.

Lemma reserved_delete_le key k q : (reserved key (delete k q) <= reserved key q)%nat.
Proof.
  destruct (q !! k) as [e|] eqn:Hk; [|by rewrite delete_id].
  rewrite (reserved_delete key k e q Hk). lia.
Qed.

Lemma reserved_replace key k e e' q : q !! k = Some e ->
  qe_target_page_type_id e' = qe_target_page_type_id e ->
  reserved key (<[k := e']> q) = reserved key q.
Proof.
  intros Hk Ht. rewrite <- insert_delete_eq. rewrite reserved_insert by apply lookup_delete_eq.
  rewrite (reserved_delete key k e q Hk). unfold holds_key. by rewrite Ht.
Qed.

(** ** Provenance merges *)

Lemma merge_seed_ids_spec ids more selected : NoDup ids -> ids ⊆ selected -> more ⊆ selected ->
  NoDup (merge_seed_ids ids more) /\ merge_seed_ids ids more ⊆ selected /\
  (ids <> [] -> merge_seed_ids ids more <> []).
Proof.
  unfold merge_seed_ids. revert ids. induction more as [|id more IH]; intros ids Hn Hi Hm; simpl; [done|].
  assert (id ∈ selected /\ more ⊆ selected) as [Hid Hmore] by set_solver.
  destruct (bool_decide (id ∈ ids)) eqn:Hin; boolify; [by apply IH|].
  destruct (IH (ids ++ [id])) as (H1 & H2 & H3); [|set_solver|done|].
  - apply NoDup_app. split_and!; [done|set_solver|]. constructor; [set_solver|constructor].
  - split_and!; [done|done|]. intros Hne. apply H3. by destruct ids.
Qed.

Lemma merge_queued_spec d canonical ids depth s :
  ids ⊆ selected_seed_ids s -> (forall n, depth = Some n -> d <= n) -> core_ok d (core s) ->
  core_ok d (core (merge_queued_duplicate_provenance canonical ids depth s)) /\
  grows (core s) (core (merge_queued_duplicate_provenance canonical ids depth s)).
Proof.
  intros Hids Hdepth Hok. unfold merge_queued_duplicate_provenance.
  destruct (queued s !! canonical) as [e|] eqn:He; [|done].
  set (lower := match depth with Some n => n <? qe_depth e | None => false end).
  set (merged := merge_seed_ids _ _).
  set (e' := if lower then _ else _).
  set (b := _ || lower).
  destruct Hok as [[H1 H2 H3 H4 H5] [B1 B2 B3 B4 B5 B6] T M].
  destruct (H1 _ _ He) as [Hkey [Hd Hs Hn Hsel []]].
  destruct (merge_seed_ids_spec (qe_seed_ids e) ids (selected_seed_ids s)) as (Hm1 & Hm2 & Hm3); [done..|].
  assert (qe_canonical_url e' = canonical /\ qe_target_page_type_id e' = qe_target_page_type_id e /\
    entry_ok d (context s) (selected_seed_ids s) e') as (Hk' & Ht' & Hok').
  { subst e'. destruct lower eqn:Hl; subst lower; simpl; (split_and!; [done|done|]); split; simpl; auto; try by split.
    destruct depth as [n|]; [|done]. boolify. specialize (Hdepth n eq_refl). simpl in *. lia. }
  assert (core (if b then rebuild_queue (s <| queued ::= <[canonical := e']> |>)
    else s <| queued ::= <[canonical := e']> |>) = (core s) <| c_queued ::= <[canonical := e']> |>)
    as Hcore by by destruct b.
  rewrite Hcore. split.
  - split; [split|split|destruct T as [? ? ? []]; by split|destruct M; by split]; simpl; try done.
    + intros k x. rewrite lookup_insert. case_decide as Hk; [|by apply H1].
      intros [= <-]. by subst k.
    + intros k. rewrite lookup_insert. case_decide as Hk; [|by apply H2].
      intros _. subst k. apply H2. by exists e.
    + intros key. rewrite (reserved_replace key canonical e e') by done. apply B5.
  - split; simpl; [done..|]. intros k _ Hk. rewrite lookup_insert_ne; [done|]. congruence.
Qed.

Lemma prospective_depth_spec entry m l canonical s depth n : context_ok (context s) ->
  queued_duplicate_prospective_depth entry m l canonical s = Ok depth -> depth = Some n ->
  qe_depth entry <= n.
Proof.
  intros Hc. unfold queued_duplicate_prospective_depth.
  destruct (queued s !! canonical ≫= _); [|by intros [= <-]]. destruct (winner m); [|by intros [= <-]].
  destruct (collect _ _) as [ds|] eqn:Hd; [|done]. intros [= <-] Hmin.
  destruct (min_by_some Z.compare ds n Hmin) as [Hin _]. apply collect_ok in Hd.
  apply list_elem_of_lookup in Hin as (i & Hi).
  eapply Forall2_lookup_r in Hd as (t & Ht & Ho); [|done]. apply ok_or_ok, checked_add_some in Ho as [-> _].
  apply list_elem_of_lookup_2, list_elem_of_filter in Ht as [_ Ht]. destruct Hc as [_ _ _ _ _ Hcon _].
  rewrite Forall_forall in Hcon. destruct (Hcon t Ht) as [[] _]. lia.
Qed.

(** ** Admission *)

Lemma page_type_limit_core s p :
  page_type_limit s p = guardrails_page_type (ctx_guardrails (c_context (core s))) p ≫= page_budget.
Proof. done. Qed.

(** The winner of a match is one of the page types. *)
Lemma winner_known u pts w : winner (from_decision (resolve_page_type u pts)) = Some w ->
  winner_page_type_id w ∈ map pt_id pts.
Proof.
  destruct (resolve_cases u pts) as [[-> _]|[(c & -> & Hb)|(c & d & l & -> & _)]]; simpl; [done| |done].
  intros [= <-]. simpl. assert (c ∈ best_candidates (page_type_candidates u pts)) as Hc
    by (rewrite Hb; left).
  apply elem_of_best_candidates in Hc as [Hc _].
  apply list_elem_of_omap in Hc as (p & Hp & Hc). apply candidate_of_some in Hc as (-> & _).
  apply elem_of_map. by exists p.
Qed.

Lemma decide_link_admission_spec m evaluations eligible s admission s' :
  decide_link_admission m evaluations eligible s = (admission, s') ->
  kept s s' /\
  (forall depth p t, adm_entry admission = Some (depth, p, t) ->
    depth ∈ map snd eligible /\
    (exists w, winner m = Some w /\ p = winner_page_type_id w) /\
    (forall id, t = Some id -> id ∈ map (fun e => transition_id e.1) eligible) /\
    Z.of_nat (size (admitted s)) < eff_max_pages (limits (context s)) /\
    forall limit, page_type_limit s p = Some limit -> scheduled_count s p < limit).
Proof.
  unfold decide_link_admission. destruct (min_by Z.compare (map snd eligible)) as [depth|] eqn:Hmin;
    [destruct (winner m) as [w|]|]; [|by intros [= <- <-]..].
  destruct (match page_type_limit s _ with Some _ => _ | None => _ end) eqn:Hex; [by intros [= <- <-]|].
  destruct (_ <=? Z.of_nat _) eqn:Hmax; intros [= <- <-]; [done|]. boolify. split; [done|].
  intros ? ? ? [= <- <- <-]. destruct (min_by_some Z.compare _ _ Hmin) as [Hin _].
  split_and!; [done|by exists w| |lia|].
  - unfold admission_transition. intros id Hid.
    pose proof (min_by_some (cmp_on id_to_string String.compare) _ _ Hid) as [Hid' _].
    clear Hid. rename Hid' into Hid.
    apply elem_of_map in Hid as (x & -> & [_ Hx]%list_elem_of_filter). apply elem_of_map. by exists x.
  - intros limit Hl. rewrite Hl in Hex. boolify. lia.
Qed.

(** The entry [enqueue] inserts. *)
Definition discovered_entry (entry : QueueEntry) (source : ObservedSource) (pagination : bool)
    (canonical : string) (depth : Z) (p : PageTypeId) (t : option DiscoveryTransitionId) (order : Z)
    : QueueEntry :=
  {| qe_requested_url := canonical; qe_canonical_url := canonical; qe_depth := depth;
     qe_seed_ids := qe_seed_ids entry; qe_target_page_type_id := Some p; qe_transition_id := t;
     qe_parent_canonical_url := Some (source_canonical source); qe_pagination := pagination;
     qe_order := order |}.

(** An identity nothing is known of but that it was seen. *)
Record fresh (u : string) (c : Core) : Prop := {
  fr_seen : u ∈ c_seen c;
  fr_admitted : u ∉ c_admitted c;
  fr_queued : c_queued c !! u = None
}.

Lemma enqueue_ok `{!UuidLaws U} d entry source pagination canonical depth p t s :
  context_ok (context s) -> core_ok d (core s) ->
  entry_ok d (context s) (selected_seed_ids s) entry -> depth_via entry (context s) depth ->
  p ∈ map pt_id (ctx_page_types (context s)) ->
  (forall id, t = Some id -> id ∈ map transition_id (ctx_transitions (context s))) ->
  fresh canonical (core s) ->
  Z.of_nat (size (admitted s)) < eff_max_pages (limits (context s)) ->
  (forall limit, page_type_limit s p = Some limit -> scheduled_count s p < limit) ->
  core_ok d (core (enqueue entry source pagination canonical depth p t s)).
Proof.
  intros Hc [[H1 H2 H3 H4 H5] [B1 B2 B3 B4 B5 B6] [T1 T2 T3 [K1 K2 K3 K4]] M]
    [E1 E2 E3 E4 _] [Hd1 Hd2] Hp Ht [F1 F2 F3] Hmax Hlim.
  simpl in *. destruct Hc as [[_ Hu] _ _ _ _ _ _].
  assert (size ({[canonical]} ∪ admitted s) = S (size (admitted s))) as Hsize.
  { rewrite size_union by set_solver. by rewrite size_singleton. }
  assert (keys_known (core (enqueue entry source pagination canonical depth p t s))) as Hkeys.
  { split; simpl; [done..|]. intros k. unfold increment. rewrite lookup_insert.
    case_decide as Hk; [|by apply K4]. intros _. subst k.
    apply elem_of_map in Hp as (pt & -> & Hpt). by exists pt. }
  split; [split|split|by split|destruct M; by split]; simpl.
  - intros k e. rewrite lookup_insert. case_decide as Hk; [|by apply H1].
    intros [= <-]. simpl. split; [done|]. split; simpl; [lia|done..|].
    split; simpl; [rewrite B2; lia|by intros ? [= <-]|exact Ht].
  - intros k. rewrite lookup_insert. case_decide as Hk; [subst k; intros _; set_solver|].
    intros Hq. apply H2 in Hq. set_solver.
  - set_solver.
  - set_solver.
  - done.
  - rewrite Hsize. lia.
  - rewrite Hsize, B2. unfold saturating_add. lia.
  - done.
  - done.
  - intros key. rewrite reserved_insert by done. unfold increment, holds_key. simpl.
    specialize (B5 key). destruct (decide (id_to_string p = key)) as [<-|Hne].
    + rewrite decide_True, lookup_insert_eq by done. simpl. lia.
    + rewrite decide_False, lookup_insert_ne by congruence. lia.
  - intros q limit Hq. unfold increment. rewrite lookup_insert. case_decide as Hk; [|by apply B6].
    apply id_to_string_inj in Hk as ->. specialize (Hlim limit Hq). unfold scheduled_count in Hlim.
    simpl. lia.
Qed.

Lemma enqueue_grows entry source pagination canonical depth p t s (c : Core) :
  canonical ∉ c_seen c -> grows c (core s) ->
  grows c (core (enqueue entry source pagination canonical depth p t s)).
Proof.
  intros Hn [G1 G0 G2 G3 G4 G5]. split; simpl; try done. intros k Hk Hq.
  rewrite lookup_insert_ne; [by apply G5|]. congruence.
Qed.

(** ** The links of a page *)

(** What the expansion of a page at depth [d] keeps. *)
Definition expands (d : Z) (s s' : SemanticTraversal) : Prop :=
  core_ok d (core s') /\ grows (core s) (core s').

Lemma kept_expands d s s1 s' : kept s s1 -> expands d s1 s' -> expands d s s'.
Proof. intros [Hk _]. unfold expands. by rewrite Hk. Qed.

Lemma sees_expands d u s s1 s' : core s1 = sees u (core s) -> expands d s1 s' -> expands d s s'.
Proof.
  intros Hs [H1 H2]. split; [done|]. rewrite Hs in H2. etrans; [apply (sees_grows u)|done].
Qed.

Lemma classify_context s s' u : context s = context s' -> classify_scope s u = classify_scope s' u.
Proof. unfold classify_scope. by intros ->. Qed.

Section links.
Context `{!UuidLaws U}.
Context (d : Z) (entry : QueueEntry) (source : ObservedSource) (source_match : PageTypeMatchEvidence).

(** The state a link is expanded in. *)
Record expansion_ok (s : SemanticTraversal) : Prop := {
  xo_context : context_ok (context s);
  xo_core : core_ok d (core s);
  xo_entry : entry_ok d (context s) (selected_seed_ids s) entry
}.

Lemma expansion_grows s s' : expansion_ok s -> expands d s s' -> expansion_ok s'.
Proof.
  intros [H1 _ H3] [Hok Hg]. assert (context s' = context s) as Hc by apply Hg.
  assert (selected_seed_ids s' = selected_seed_ids s) as Hs by apply Hg.
  split; [by rewrite Hc|done|by rewrite Hc, Hs].
Qed.

Lemma expansion_sees u s s' : expansion_ok s -> core s' = sees u (core s) -> expansion_ok s'.
Proof.
  intros Hx Hs. apply (expansion_grows s); [done|]. destruct Hx as [_ Hc _].
  split; rewrite Hs; [by apply sees_ok|apply sees_grows].
Qed.

Lemma expand_out_of_scope_ok l resolved r scope unique s added s' : expansion_ok s ->
  expand_out_of_scope entry source source_match l resolved r scope unique s = Ok (added, s') ->
  expands d s s'.
Proof.
  intros [_ Hc _]. unfold expand_out_of_scope. set (s1 := if unique then count_scope _ _ else _).
  destruct (path_base _ _ _ _ _ _ _ _ _ _ _ _ _ _) as [p|]; [|done]. intros [= <- <-].
  assert (kept s s1) as Hk by (subst s1; destruct unique; [apply kept_count_scope|done]).
  apply (kept_expands d s s1); [done|]. destruct Hk as [Hk _].
  split; [|done]. change (core_ok d (core s1)). by rewrite Hk.
Qed.

Lemma expand_duplicate_ok l resolved r scope s added s' : expansion_ok s ->
  expand_duplicate entry source source_match l resolved r scope s = Ok (added, s') -> expands d s s'.
Proof.
  intros [Hctx Hc [He1 _ _ He4 _]]. unfold expand_duplicate. set (canonical := url_as_str _).
  set (s1 := s <| duplicates_prevented ::= _ |>).
  change (core_ok d (core s1)) in Hc. change (sampled s1) with (sampled s).
  destruct (bool_decide (canonical ∈ sampled s)).
  - destruct (path_base _ _ _ _ _ _ _ _ _ _ _ _ _ _); [|done]. by intros [= <- <-].
  - destruct (queued_duplicate_prospective_depth _ _ _ _ _) as [depth|] eqn:Hd; [|done].
    destruct (path_base _ _ _ _ _ _ _ _ _ _ _ _ _ _); [|done]. intros [= <- <-].
    apply (merge_queued_spec d canonical (qe_seed_ids entry) depth s1); [done| |done].
    intros n Hn. eapply prospective_depth_spec in Hd; [|done|done]. lia.
Qed.

Lemma expand_unique_ok source_page_type l resolved r scope s added s' (c : Core) : expansion_ok s ->
  url_as_str (result_canonical_url r) ∉ c_seen c -> grows c (core s) ->
  fresh (url_as_str (result_canonical_url r)) (core s) ->
  expand_unique entry source source_match source_page_type l resolved r scope s = Ok (added, s') ->
  core_ok d (core s') /\ grows c (core s').
Proof.
  intros [Hctx Hc He] Hunseen Hg Hfresh. unfold expand_unique. set (canonical := url_as_str _) in *.
  set (m := from_decision _). set (s1 := register_match canonical m true s).
  destruct (register_match_spec canonical m true s) as (Hm & _ & Hmok). fold s1 in Hm, Hmok.
  assert (context s1 = context s) as Hctx1 by apply (matched_grows _ _ Hm).
  destruct (evaluate_transitions _ _ _ _ _ s1) as [[[evs eligible] s2]|] eqn:Hev; [|done].
  apply evaluate_transitions_spec in Hev as (Hcnt & Htr & Hel);
    [|by rewrite Hctx1| |eapply matched_transitions; [done|apply Hc]].
  2:{ intros t Ht. unfold sorted_transitions_for in Ht. apply elem_of_sort_by, list_elem_of_filter in Ht.
      apply Ht. }
  assert (core_ok d (core s2)) as Hok2.
  { destruct Hc as [I B T M]. split.
    - eapply counted_identities, matched_identities; done.
    - eapply counted_budgets, matched_budgets; done.
    - done.
    - eapply counted_matches; [done|]. by apply Hmok. }
  assert (grows (core s) (core s2)) as Hg2.
  { etrans; [by apply matched_grows|by apply counted_grows]. }
  assert (context s2 = context s /\ selected_seed_ids s2 = selected_seed_ids s) as [Hctx2 Hsel2]
    by (split; apply Hg2).
  assert (fresh canonical (core s2)) as Hfresh2.
  { destruct Hfresh as [F1 F2 F3]. destruct Hcnt as (? & ? & Hcnt), Hm as (? & ? & ? & ? & Hm).
    rewrite Hcnt, Hm. by split. }
  destruct (decide_link_admission m evs eligible s2) as [admission s3] eqn:Ha.
  apply decide_link_admission_spec in Ha as [[Hk3 _] Ha].
  set (s4 := if is_pagination l && _ then _ else s3).
  assert (core s4 = core s2) as Hk4.
  { rewrite <- Hk3. subst s4. destruct (_ && _); [apply kept_pagination_truncation|done]. }
  destruct (path_base _ _ _ _ _ _ _ _ _ _ _ _ _ _) as [path|]; [|done].
  assert (core (push_path path s4) = core s2) as Hk5 by exact Hk4.
  revert Hk5. generalize (push_path path s4). intros s5 Hk5.
  assert (grows c (core s5)) as Hg5 by (rewrite Hk5; by etrans).
  destruct (adm_entry admission) as [[[depth p] t]|] eqn:Hadm; intros [= <- <-].
  2:{ by rewrite Hk5 in *. }
  destruct (Ha _ _ _ eq_refl) as (Hdepth & (w & Hw & ->) & Htr' & Hmax & Hlim).
  assert (context s5 = context s) as Hctx5 by (rewrite <- Hctx2; exact (f_equal c_context Hk5)).
  assert (selected_seed_ids s5 = selected_seed_ids s) as Hsel5
    by (rewrite <- Hsel2; exact (f_equal c_selected Hk5)).
  split; [|by apply enqueue_grows]. apply enqueue_ok; rewrite ?Hk5, ?Hctx5, ?Hsel5; try done.
  - apply elem_of_map in Hdepth as (x & -> & Hx). rewrite Forall_forall in Hel.
    rewrite <- Hctx1. by apply Hel.
  - by eapply winner_known.
  - intros id Hid. apply Htr', elem_of_map in Hid as (x & -> & Hx). rewrite Forall_forall in Hel.
    apply elem_of_map. exists x.1. split; [done|]. rewrite <- Hctx1. by apply Hel.
  - rewrite <- Hctx2. exact (eq_ind_r (fun n => Z.of_nat (size n) < _) Hmax (f_equal c_admitted Hk5)).
  - intros limit. rewrite page_type_limit_core, Hk5, <- page_type_limit_core. unfold scheduled_count.
    intros Hl. rewrite (f_equal c_scheduled Hk5 : page_type_scheduled s5 = page_type_scheduled s2).
    by apply Hlim.
Qed.

Lemma expand_retained_link_ok source_page_type base l s added s' : expansion_ok s ->
  expand_retained_link entry source source_match source_page_type base l s = Ok (added, s') ->
  expands d s s'.
Proof.
  intros Hx. unfold expand_retained_link. destruct (resolve_link s base (link l)) as [[resolved r]|].
  2:{ destruct (invalid_path _ _ _ _); [|done]. intros [= <- <-]. split; [apply Hx|done]. }
  destruct (classify_scope s _) as [scope|]; [|done].
  set (canonical := url_as_str _). set (s1 := s <| seen ::= _ |>).
  assert (core s1 = sees canonical (core s)) as Hs1 by done.
  assert (expansion_ok s1) as Hx1 by (by eapply expansion_sees).
  destruct (negb (is_in_scope scope)).
  { intros Ho. eapply expand_out_of_scope_ok in Ho; [|done]. by eapply sees_expands. }
  destruct (bool_decide (canonical ∉ seen s)) eqn:Hu; boolify.
  - intros Ho. eapply (expand_unique_ok source_page_type l resolved r scope s1 added s' (core s)) in Ho;
      [done|done|exact Hu|apply sees_grows|].
    destruct Hx as [_ [[I1 I2 I3 I4 I5] _ _ _] _]. fold canonical. rewrite Hs1. split; simpl.
    + set_solver.
    + intros Ha. apply Hu. by apply I3.
    + destruct (queued s !! canonical) as [e|] eqn:He; [|done]. exfalso. apply Hu, I3.
      apply I2. by exists e.
  - intros Ho. eapply expand_duplicate_ok in Ho; [|done]. by eapply sees_expands.
Qed.

Lemma expand_links_ok source_page_type base ls new truncated s new' s' : expansion_ok s ->
  expand_links entry source source_match source_page_type base ls new truncated s = Ok (new', s') ->
  expands d s s'.
Proof.
  revert new truncated s. induction ls as [|l ls IH]; intros new truncated s Hx; cbn [expand_links].
  { intros [= <- <-]. split; [apply Hx|done]. }
  set (s1 := s <| urls_discovered ::= fun n => saturating_add u64_max n 1 |>).
  assert (expansion_ok s1) as Hx1 by (destruct Hx; by split).
  change (paths s1) with (paths s). destruct (_ <=? length (paths s))%nat.
  - intros He. assert (kept s (truncate_link l truncated s1)) as Hk by apply (kept_truncate_link l truncated s1).
    apply (kept_expands d s (truncate_link l truncated s1)); [done|]. apply IH in He; [done|].
    apply (expansion_grows s); [done|]. destruct Hk as [Hk _]. split; rewrite Hk; [apply Hx|done].
  - destruct (expand_retained_link _ _ _ _ _ _ s1) as [[added s2]|] eqn:Hl; [|done].
    apply expand_retained_link_ok in Hl; [|done]. intros He. apply IH in He.
    + destruct Hl as [_ Hg], He as [Hok Hg']. split; [done|by etrans].
    + by apply (expansion_grows s1).
Qed.

(** A page that is expanded joins [expanded]. *)
Lemma expand_page_ok o s s' : expansion_ok s -> queue_ok s -> source_canonical source ∈ sampled s ->
  expand_page entry o source source_match s = Ok s' ->
  expands d s s' /\ queue_ok s' /\ source_canonical source ∈ expanded s'.
Proof.
  intros Hx Hq Hs. unfold expand_page.
  destruct (bool_decide (source_canonical source ∈ expanded s)) eqn:He; boolify.
  { intros [= <-]. split_and!; [split; [apply Hx|done]|done|done]. }
  set (s1 := s <| expanded ::= _ |>).
  assert (expands d s s1) as Hs1.
  { destruct Hx as [_ [[I1 I2 I3 I4 I5] [] [? ? ? []] []] _]. split; [split; split; simpl; try done|].
    - set_solver.
    - split; simpl; [done..|set_solver|done]. }
  assert (source_canonical source ∈ expanded s1) as Hin by (simpl; set_solver).
  destruct (winner source_match) as [w|].
  2:{ intros [= <-]. split_and!; [done|exact Hq|done]. }
  destruct (url_parse _) as [base|]; simpl; [|done].
  destruct (expand_links _ _ _ _ _ _ _ _ s1) as [[new s2]|] eqn:Hl; [|done].
  apply expand_links_ok in Hl; [|by apply (expansion_grows s)]. intros [= <-].
  destruct Hs1 as [_ Hg1], Hl as [Hok2 Hg2]. split_and!.
  - split; [exact Hok2|]. etrans; [exact Hg1|exact Hg2].
  - apply queue_ok_rebuild.
  - apply Hg2 in Hin. exact Hin.
Qed.
End links.

(** ** Redirects *)

(** The entry being processed has left the queue, but keeps its admission. *)
Record open_entry (c : Core) (e : QueueEntry) : Prop := {
  oe_admitted : qe_canonical_url e ∈ c_admitted c;
  oe_unsampled : qe_canonical_url e ∉ c_sampled c;
  oe_closed : c_queued c !! qe_canonical_url e = None;
  oe_reserved : forall key,
    Z.of_nat (reserved key (c_queued c) + holds_key key e) <= default 0 (c_scheduled c !! key)
}.

(** The final identity of an observation, once redirects are followed. *)
Record settled (u : string) (c : Core) : Prop := {
  sd_seen : u ∈ c_seen c;
  sd_admitted : u ∈ c_admitted c;
  sd_queued : c_queued c !! u = None
}.

Lemma release_reservation_spec `{!UuidLaws U} (q : gmap string QueueEntry) target s :
  (forall key, Z.of_nat (reserved key q)
     + (if decide (id_to_string <$> target = Some key) then 1 else 0)
     <= default 0 (page_type_scheduled s !! key)) ->
  exists m, release_reservation target s = Ok (s <| page_type_scheduled := m |>) /\
    (forall key, Z.of_nat (reserved key q) <= default 0 (m !! key)
                 <= default 0 (page_type_scheduled s !! key)) /\
    (forall key, is_Some (m !! key) -> is_Some (page_type_scheduled s !! key)).
Proof.
  intros Hr. destruct target as [p|]; simpl.
  2:{ exists (page_type_scheduled s). split; [by destruct s|]. split; [|done]. intros key.
      specialize (Hr key). rewrite decide_False in Hr by done. lia. }
  pose proof (Hr (id_to_string p)) as Hp. rewrite decide_True in Hp by done.
  destruct (page_type_scheduled s !! id_to_string p) as [n|] eqn:Hn; simpl in *; [|lia].
  unfold checked_sub. rewrite (proj2 (Z.leb_le 1 n)) by lia. simpl. eexists. split; [reflexivity|].
  split; intros key; rewrite lookup_insert; case_decide as Hk.
  - subst key. rewrite Hn. simpl. lia.
  - specialize (Hr key). rewrite decide_False in Hr by (simpl; congruence). lia.
  - subst key. by rewrite Hn.
  - done.
Qed.

(** The core after the admission has moved: the counters follow the sets. *)
Lemma move_admission_spec `{!UuidLaws U} d e u s :
  core_ok d (core s) -> open_entry (core s) e -> u ∈ seen s ->
  exists s', move_admission e u s = Ok s' /\ queue s' = queue s /\ grows (core s) (core s') /\
    queued s' = queued s /\ sampled s' = sampled s /\ expanded s' = expanded s /\
    u ∈ admitted s' /\ context s' = context s /\ core_ok d (core s').
Proof.
  intros [[I1 I2 I3 I4 I5] [B1 B2 B3 B4 B5 B6] [T1 T2 T3 [K1 K2 K3 K4]] M] [O1 O2 O3 O4] Hu. simpl in *.
  unfold move_admission. rewrite bool_decide_true by done.
  set (remaining := admitted s ∖ {[qe_canonical_url e]}). simpl.
  assert (S (size remaining) = size (admitted s)) as Hsize.
  { subst remaining. rewrite size_difference by set_solver. rewrite size_singleton.
    assert (size (admitted s) <> 0)%nat; [|lia]. intros Hz%size_empty_inv. set_solver. }
  assert (forall k, is_Some (queued s !! k) -> k ∈ {[u]} ∪ remaining /\ k ∉ sampled s) as Hq.
  { intros k Hk. destruct (I2 k Hk) as [Ha Hs]. split; [|done]. subst remaining.
    destruct (decide (k = qe_canonical_url e)) as [->|]; [|set_solver].
    destruct Hk as [x Hx]. congruence. }
  assert (sampled s ⊆ {[u]} ∪ remaining) as Hsub by (subst remaining; set_solver).
  destruct (bool_decide (u ∈ remaining)) eqn:Hin; boolify.
  - assert ({[u]} ∪ remaining = remaining) as Heq by set_solver.
    destruct (release_reservation_spec (queued s) (qe_target_page_type_id e)
      (s <| admitted := {[u]} ∪ remaining |> <| newly_enqueued_urls ::= fun n => saturating_sub n 1 |>))
      as (m & Hm & Hrange & Hmk).
    { intros key. specialize (O4 key). unfold holds_key in O4. simpl. destruct (decide _); lia. }
    eexists. split; [exact Hm|]. simpl. split_and!; [done|by split|done..|set_solver|done|].
    split; [split|split|split; [done..|split; auto]|destruct M; by split]; simpl; try done.
    + subst remaining. set_solver.
    + rewrite Heq. lia.
    + rewrite Heq, B2. unfold saturating_sub. lia.
    + intros key. apply Hrange.
    + intros p limit Hl. specialize (B6 p limit Hl). specialize (Hrange (id_to_string p)). simpl in *. lia.
  - assert (size ({[u]} ∪ remaining) = size (admitted s)) as Hsz.
    { rewrite size_union by set_solver. rewrite size_singleton. lia. }
    eexists. split; [reflexivity|]. simpl. split_and!; [done|by split|done..|set_solver|done|].
    split; [split|split|by split|destruct M; by split]; simpl; try done.
    + subst remaining. set_solver.
    + by rewrite Hsz.
    + by rewrite Hsz.
Qed.

Lemma forget_alias_spec d e u s : core_ok d (core s) -> qe_canonical_url e <> u ->
  u ∈ seen s -> u ∈ admitted s ->
  core_ok d (core (forget_alias e u s)) /\ grows (core s) (core (forget_alias e u s)) /\
  settled u (core (forget_alias e u s)).
Proof.
  intros [[I1 I2 I3 I4 I5] [B1 B2 B3 B4 B5 B6] T [M1 M2 M3 M4]] Hne Hs Ha. simpl in *.
  split_and!.
  - split; [split|split|destruct T as [? ? ? []]; by split|split]; simpl; try done.
    + intros k x. rewrite lookup_delete_Some. intros [_ Hk]. by apply I1.
    + intros k. intros [x Hx]. apply lookup_delete_Some in Hx as [_ Hx]. apply I2. by exists x.
    + intros key. specialize (B5 key). pose proof (reserved_delete_le key u (queued s)). lia.
    + by rewrite M1.
    + set_solver.
    + set_solver.
    + set_solver.
  - split; simpl; [done..|]. intros k _ Hk. by rewrite lookup_delete_None; right.
  - split; simpl; [done|done|]. apply lookup_delete_eq.
Qed.

Lemma settle_identity_spec `{!UuidLaws U} d e u s :
  core_ok d (core s) -> queue_ok s -> open_entry (core s) e ->
  exists s', settle_identity e u s = Ok s' /\ core_ok d (core s') /\ queue_ok s' /\
    grows (core s) (core s') /\ settled u (core s') /\ context s' = context s /\
    sampled s' = sampled s /\ expanded s' = expanded s /\
    (queued s' = queued s \/ queued s' = delete u (queued s)).
Proof.
  intros Hok Hq Ho. unfold settle_identity.
  set (s1 := s <| seen ::= _ |>). set (s2 := if _ && _ then _ else s1).
  assert (core s2 = sees u (core s) /\ queue s2 = queue s) as [Hs2 Hq2] by (subst s2; by destruct (_ && _)).
  assert (core_ok d (core s2)) as Hok2 by (rewrite Hs2; by apply sees_ok).
  assert (grows (core s) (core s2)) as Hg2 by (rewrite Hs2; apply sees_grows).
  assert (open_entry (core s2) e) as Ho2 by (rewrite Hs2; destruct Ho; by split).
  assert (u ∈ seen s2) as Hu.
  { rewrite (f_equal c_seen Hs2 : seen s2 = _). simpl. set_solver. }
  assert (queued s2 = queued s /\ sampled s2 = sampled s /\ expanded s2 = expanded s /\
    context s2 = context s) as (Hqd & Hsm & Hex & Hctx)
    by (split_and!; [exact (f_equal c_queued Hs2)|exact (f_equal c_sampled Hs2)|
          exact (f_equal c_expanded Hs2)|exact (f_equal c_context Hs2)]).
  destruct (bool_decide (u <> qe_canonical_url e)) eqn:Hr; boolify.
  - unfold follow_redirect.
    destruct (move_admission_spec d e u s2) as (s3 & -> & Hq3 & Hg3 & Hqd3 & Hsm3 & Hex3 & Ha3 & Hctx3 & Hok3);
      [done..|]. eexists. split; [reflexivity|].
    destruct (forget_alias_spec d e u s3) as (Hok4 & Hg4 & Hst); [done|congruence| |done|].
    { apply Hg3 in Hu. exact Hu. }
    split_and!; [done|apply queue_ok_rebuild| |done| | | |].
    + etrans; [exact Hg2|]. by etrans.
    + change (context s3 = context s). congruence.
    + change (sampled s3 = sampled s). congruence.
    + change (expanded s3 = expanded s). congruence.
    + right. change (delete u (queued s3) = delete u (queued s)). congruence.
  - apply dec_stable in Hr. subst u. eexists. split; [reflexivity|].
    split_and!; [done| |done| |done..|by left].
    + unfold queue_ok. by rewrite Hq2, Hqd.
    + destruct Ho2. split; done.
Qed.

(** ** Observations *)

Lemma accept_observation_spec entry o bytes d r s s' :
  context_ok (context s) -> core_ok d (core s) -> 0 <= bytes ->
  accept_observation entry o bytes s = Ok (r, s') ->
  queue s' = queue s /\ exists n, core s' = (core s) <| c_bytes := n |> /\ core_ok d (core s').
Proof.
  intros Hc Hok Hb. unfold accept_observation. destruct (reject_if _ _); [|done].
  destruct (checked_sub _ _) as [rem|] eqn:Hrem; simpl; [|done].
  destruct (reject_if _ _) eqn:Hrej; [|done]. apply reject_if_ok in Hrej.
  destruct (validate_observation o); [|done].
  destruct (checked_add _ _ _) as [n|] eqn:Hn; simpl; [|done].
  destruct (canonicalize _ _) as [c|]; simpl; [|done]. intros [= <- <-].
  split; [done|]. exists n. split; [done|]. apply orb_false_iff in Hrej as [Hle _]. boolify.
  apply checked_add_some in Hn as [-> _]. unfold checked_sub in Hrem.
  destruct (Z.leb_spec (consumed_bytes s) (eff_max_downloaded_bytes (limits (context s)))); simplify_eq.
  destruct Hok as [[] [B1 B2 B3 B4 B5 B6] [? ? ? []] []]. split; split; simpl in *; try done. lia.
Qed.

Lemma match_final_spec final canonical scope d s m s' : core_ok d (core s) ->
  match_final final canonical scope s = (m, s') ->
  matched (core s) (core s') /\ queue s' = queue s /\ core_ok d (core s').
Proof.
  intros Hok. unfold match_final. destruct (is_in_scope scope); intros [= <- <-].
  - match goal with |- context [register_match ?u ?m ?b ?s] =>
      destruct (register_match_spec u m b s) as (Hm & Hq & Hmok) end.
    split_and!; [done|done|]. destruct Hok as [I B T M].
    split; [by eapply matched_identities|by eapply matched_budgets|by eapply matched_transitions|auto].
  - split_and!; [|done|done]. do 4 eexists. by destruct s.
Qed.

Lemma actual_hit_kept entry p s : kept s (actual_final_page_type_budget_hit entry p s).2.
Proof.
  unfold actual_final_page_type_budget_hit. destruct (bool_decide _); [done|].
  destruct (page_type_limit s p); [|done]. by destruct (_ <=? _).
Qed.

Lemma sample_final_spec entry canonical m d s hits s' :
  context_ok (context s) -> core_ok d (core s) -> settled canonical (core s) ->
  sample_final entry canonical m s = (hits, s') ->
  core_ok d (core s') /\ grows (core s) (core s') /\ queue s' = queue s /\
  queued s' = queued s /\ expanded s' = expanded s /\ canonical ∈ sampled s'.
Proof.
  intros Hc Hok [S1 S2 S3]. unfold sample_final.
  destruct (bool_decide (canonical ∈ sampled s)) eqn:Hs; boolify; [by intros [= <- <-]|].
  set (x := match sampled_page_type m with Some _ => _ | None => _ end).
  assert (kept s x.2) as [Hk Hkq].
  { subst x. destruct (sampled_page_type m) as [p|]; [|done].
    pose proof (actual_hit_kept entry p s) as Hh.
    destruct (actual_final_page_type_budget_hit entry p s) as [hit s1]. exact Hh. }
  destruct x as [hs s1]. simpl in Hk, Hkq. intros [= <- <-].
  assert (size (sampled s) < size (admitted s))%nat as Hlt.
  { apply subset_size. destruct Hok as [[I1 I2 I3 I4 I5] _ _ _]. simpl in *. set_solver. }
  set (c' := (core s) <| c_pages_sampled ::= fun n => saturating_add u64_max n 1 |>
                      <| c_sampled ::= fun l => {[canonical]} ∪ l |>).
  match goal with |- core_ok _ (core ?t) /\ _ => assert (core t = c') as Hc' end.
  { subst c'. rewrite <- Hk. done. }
  rewrite Hc'. destruct Hok as [[I1 I2 I3 I4 I5] [B1 B2 B3 B4 B5 B6] T M]. simpl in *.
  destruct Hc as [[_ Hu] _ _ _ _ _ _].
  assert (size ({[canonical]} ∪ sampled s) = S (size (sampled s))) as Hsize.
  { rewrite size_union by set_solver. by rewrite size_singleton. }
  split_and!; [| |exact Hkq|exact (f_equal c_queued Hk)|exact (f_equal c_expanded Hk)|].
  - split; [split|split|destruct T as [? ? ? []]; by split|destruct M; by split]; simpl; try done.
    + intros k Hq. destruct (I2 k Hq) as [Ha Hn]. split; [done|].
      rewrite elem_of_union, elem_of_singleton. intros [->|]; [|done].
      destruct Hq as [y Hy]. congruence.
    + set_solver.
    + set_solver.
    + rewrite Hsize, B3. unfold saturating_add. lia.
  - by split.
  - simpl. rewrite (f_equal c_sampled Hk : sampled s1 = sampled s). set_solver.
Qed.

(** What the processing of a unit at depth [d] establishes: the core is kept, the queue
    is in order, and either a page joined [expanded] or nothing was queued. *)
Record processed (d : Z) (s s' : SemanticTraversal) : Prop := {
  pr_core : core_ok d (core s');
  pr_queue : queue_ok s';
  pr_grows : grows (core s) (core s');
  pr_progress : expanded s ⊂ expanded s' \/ (expanded s' = expanded s /\ queued s' ⊆ queued s)
}.

Lemma processed_refl d s : core_ok d (core s) -> queue_ok s -> processed d s s.
Proof. intros Hok Hq. split; [done..|by right]. Qed.

Lemma processed_kept d s s1 s' : kept s s1 -> processed d s1 s' -> processed d s s'.
Proof.
  intros [Hk _] [P1 P2 P3 P4]. rewrite Hk in P3.
  assert (expanded s1 = expanded s /\ queued s1 = queued s) as [He Hq]
    by (split; [exact (f_equal c_expanded Hk)|exact (f_equal c_queued Hk)]).
  split; [done..|]. by rewrite He, Hq in P4.
Qed.

Lemma kept_processed d s s' : kept s s' -> core_ok d (core s) -> queue_ok s -> processed d s s'.
Proof.
  intros [Hk Hq] Hok Hqok. split.
  - by rewrite Hk.
  - unfold queue_ok. rewrite Hq. by rewrite (f_equal c_queued Hk : queued s' = queued s).
  - by rewrite Hk.
  - right. by rewrite (f_equal c_queued Hk : queued s' = queued s),
      (f_equal c_expanded Hk : expanded s' = expanded s).
Qed.

Lemma expand_observation_spec `{!UuidLaws U} d entry o canonical scope m hits s s' :
  expansion_ok d entry s -> queue_ok s -> canonical ∈ sampled s ->
  expand_observation entry o canonical scope m hits s = Ok s' -> processed d s s'.
Proof.
  intros Hx Hq Hs. unfold expand_observation.
  set (can := is_in_scope scope && bool_decide _).
  set (s1 := if _ && _ then record_pagination_truncation _ _ _ s else s).
  assert (kept s s1) as Hk1 by (apply kept_if; [apply kept_pagination_truncation|done]).
  destruct (elapsed_millis s1) as [el s2] eqn:He.
  assert (kept s s2) as Hk2 by (injection He as _ <-; exact Hk1). clear He.
  assert (forall t, kept s2 t -> processed d s t) as Hdone.
  { intros t Ht. apply kept_processed; [by etrans|apply Hx|done]. }
  assert (expansion_ok d entry s2) as Hx2.
  { apply (expansion_grows d entry s); [done|]. destruct Hk2 as [Hk _]. split; rewrite Hk; [apply Hx|done]. }
  assert (queue_ok s2 /\ canonical ∈ sampled s2 /\ expanded s2 = expanded s) as (Hq2 & Hs2 & He2).
  { destruct Hk2 as [Hk Hqk]. unfold queue_ok.
    rewrite Hqk, (f_equal c_queued Hk : queued s2 = queued s),
      (f_equal c_sampled Hk : sampled s2 = sampled s), (f_equal c_expanded Hk : expanded s2 = expanded s).
    split; [exact Hq|done]. }
  destruct (_ <=? el); [intros [= <-]; apply Hdone, kept_stop_at_duration|].
  destruct (can && _ && _); [intros [= <-]; apply Hdone, kept_pagination_truncation|].
  destruct (_ && can && bool_decide (canonical ∉ expanded s2)) eqn:Hcond;
    [|intros [= <-]; by apply Hdone].
  apply andb_true_iff in Hcond as [_ Hnot]. boolify.
  destruct m as [m|]; [|intros [= <-]; by apply Hdone]. intros Hp.
  eapply expand_page_ok in Hp as ([Hok Hg] & Hqok & Hin); [|done..].
  apply (processed_kept d s s2); [done|]. split; [done..|]. left. simpl in Hin.
  apply strict_spec_alt. split; [apply Hg|]. set_solver.
Qed.

Lemma process_observation_spec `{!UuidLaws U} d entry o bytes s s' :
  expansion_ok d entry s -> queue_ok s -> open_entry (core s) entry -> 0 <= bytes ->
  process_observation entry o bytes s = Ok s' -> processed d s s'.
Proof.
  intros [Hc Hok He] Hq Ho Hb. unfold process_observation.
  destruct (accept_observation entry o bytes s) as [[r s1]|] eqn:Ha; [|done].
  eapply accept_observation_spec in Ha as (Hq1 & n & Hs1 & Hok1); [|done..].
  set (canonical := url_as_str _). set (first := bool_decide _).
  assert (queued s1 = queued s /\ expanded s1 = expanded s /\ context s1 = context s) as (Hqd1 & Hex1 & Hctx1).
  { rewrite (f_equal c_queued Hs1 : queued s1 = _), (f_equal c_expanded Hs1 : expanded s1 = _),
      (f_equal c_context Hs1 : context s1 = _). done. }
  assert (grows (core s) (core s1)) as Hg1 by (rewrite Hs1; by split).
  assert (queue_ok s1) as Hqok1 by (unfold queue_ok; by rewrite Hq1, Hqd1).
  assert (open_entry (core s1) entry) as Ho1 by (rewrite Hs1; destruct Ho; by split).
  destruct (settle_identity_spec d entry canonical s1) as
    (s2 & -> & Hok2 & Hqok2 & Hg2 & Hset2 & Hctx2 & Hsm2 & Hex2 & Hqd2); [done..|].
  destruct (classify_scope s2 _) as [scope|]; [|done].
  destruct (match_final _ canonical scope s2) as [m s3] eqn:Hm.
  eapply match_final_spec in Hm as (Hmat & Hq3 & Hok3); [|done].
  assert (Hg3 : grows (core s2) (core s3)) by by apply matched_grows.
  assert (settled canonical (core s3) /\ context s3 = context s2 /\ queued s3 = queued s2 /\
    expanded s3 = expanded s2) as (Hset3 & Hctx3 & Hqd3 & Hex3).
  { destruct Hmat as (? & ? & ? & ? & Hmat).
    rewrite (f_equal c_queued Hmat : queued s3 = _), (f_equal c_expanded Hmat : expanded s3 = _),
      (f_equal c_context Hmat : context s3 = _), Hmat. split_and!; [|done..]. destruct Hset2. by split. }
  destruct (sample_final entry canonical m s3) as [hits s4] eqn:Hs4.
  eapply sample_final_spec in Hs4 as (Hok4 & Hg4 & Hq4 & Hqd4 & Hex4 & Hsm4); [|by rewrite Hctx3, Hctx2, Hctx1|done..].
  set (s5 := if first then _ else s4). set (s6 := retain_page _ _ _ _ _ _ _ s5).
  assert (kept s4 s6) as Hk6.
  { etrans; [apply (kept_if first s4 (count_scope (final_page_state scope m) s4) s4);
      [apply kept_count_scope|done]|]. done. }
  assert (grows (core s) (core s4)) as Hg by (etrans; [done|]; etrans; [done|]; by etrans).
  intros Hx. eapply expand_observation_spec in Hx.
  - destruct Hx as [P1 P2 P3 P4]. destruct Hk6 as [Hk6 _]. rewrite Hk6 in P3.
    split; [done|done|by etrans|].
    rewrite (f_equal c_expanded Hk6 : expanded s6 = _), (f_equal c_queued Hk6 : queued s6 = _) in P4.
    simpl in P4. rewrite Hex4, Hex3, Hex2, Hex1, Hqd4, Hqd3 in P4.
    destruct P4 as [?|[? Hsub]]; [by left|right]. split; [done|]. etrans; [exact Hsub|].
    rewrite <- Hqd1. destruct Hqd2 as [-> | ->]; [done|apply delete_subseteq].
  - apply (expansion_grows d entry s); [done|]. destruct Hk6 as [Hk6 _].
    split; rewrite Hk6; done.
  - destruct Hk6 as [Hk6 Hkq6]. unfold queue_ok.
    rewrite Hkq6, (f_equal c_queued Hk6 : queued s6 = queued s4), Hq4, Hqd4, Hq3, Hqd3. exact Hqok2.
  - destruct Hk6 as [Hk6 _]. by rewrite (f_equal c_sampled Hk6 : sampled s6 = sampled s4).
Qed.

Lemma process_outcome_spec `{!UuidLaws U} d entry outcome s s' :
  expansion_ok d entry s -> queue_ok s -> open_entry (core s) entry ->
  (forall o bytes, outcome = Observed o bytes -> 0 <= bytes) ->
  process_outcome entry outcome s = Ok s' -> processed d s s'.
Proof.
  intros Hx Hq Ho Hb. unfold process_outcome. destruct outcome as [o bytes|reason|diagnostic|reason]; [| | |done].
  - intros Hp. eapply process_observation_spec; [done..|by eapply Hb|done].
  - destruct (validate_safe_text _ _); [|done]. destruct (scope_of_text _ _); [|done].
    intros [= <-]. apply kept_processed; [done|apply Hx|done].
  - destruct (validate_diagnostic _); [|done]. destruct (scope_of_text _ _); [|done].
    intros [= <-]. apply kept_processed; [done|apply Hx|done].
Qed.

(** ** One step *)

Lemma queue_lookup s e : queue_ok s -> e ∈ queue s -> exists k, queued s !! k = Some e.
Proof.
  intros [_ Hp]. rewrite Hp. intros ([k x] & -> & Hin)%elem_of_map. exists k. by apply elem_of_map_to_list.
Qed.

(** Taking the head of the queue: it is an entry of least depth, and what is left is
    the frontier at that depth. *)
Lemma pop_spec d s e rest : core_ok d (core s) -> queue_ok s -> queue s = e :: rest ->
  let s1 := take_entry e rest s in
  queued s !! qe_canonical_url e = Some e /\ d <= qe_depth e /\
  core_ok (qe_depth e) (core s1) /\ queue_ok s1 /\ open_entry (core s1) e /\
  entry_ok (qe_depth e) (context s) (selected_seed_ids s) e /\ grows (core s) (core s1).
Proof.
  intros [[I1 I2 I3 I4 I5] [B1 B2 B3 B4 B5 B6] T M] Hq Hhead s1. simpl in *.
  destruct (queue_lookup s e) as [k Hk]; [done|rewrite Hhead; left|].
  destruct (I1 k e Hk) as [Hkey [Ed Es En El Ek]]. subst k. destruct Hq as [Hsort Hperm].
  rewrite Hhead in Hsort, Hperm. inversion Hsort as [|? ? Hrest Hmin]; subst.
  assert (map snd (map_to_list (queued s))
    ≡ₚ e :: map snd (map_to_list (delete (qe_canonical_url e) (queued s)))) as Hmap.
  { rewrite <- (insert_delete_id (queued s) (qe_canonical_url e) e) at 1 by done.
    rewrite map_to_list_insert by apply lookup_delete_eq. done. }
  assert (rest ≡ₚ map snd (map_to_list (delete (qe_canonical_url e) (queued s)))) as Hrestp.
  { apply (Permutation_cons_inv (a := e)). by rewrite <- Hmap. }
  assert (forall k x, delete (qe_canonical_url e) (queued s) !! k = Some x ->
    queued s !! k = Some x /\ qe_depth e <= qe_depth x) as Hdel.
  { intros k x Hx. assert (x ∈ rest) as Hin.
    { rewrite Hrestp. apply elem_of_map. exists (k, x). split; [done|]. by apply elem_of_map_to_list. }
    apply lookup_delete_Some in Hx as [_ Hx]. split; [done|].
    rewrite Forall_forall in Hmin. specialize (Hmin x Hin).
    unfold cmp_le, entry_cmp, cmp_on, cmp_pair, cmp_lex in Hmin. simpl in Hmin.
    destruct (Z.compare_spec (qe_depth e) (qe_depth x)); [lia|lia|done]. }
  split_and!; [done|lia|split; [split|split|destruct T as [? ? ? []]; by split|destruct M; by split]| | | |].
  - intros k x Hx. apply Hdel in Hx as [Hx Hle]. destruct (I1 k x Hx) as [? []]. split; [done|].
    split; simpl; [lia|done..].
  - intros k [x Hx]. apply Hdel in Hx as [Hx _]. apply I2. by exists x.
  - done.
  - done.
  - done.
  - done.
  - done.
  - done.
  - done.
  - intros key. specialize (B5 key). pose proof (reserved_delete_le key (qe_canonical_url e) (queued s)).
    simpl. lia.
  - done.
  - split; [exact Hrest|exact Hrestp].
  - destruct (I2 (qe_canonical_url e)) as [Ha Hs]; [by exists e|].
    split; simpl; [done|done|apply lookup_delete_eq|]. intros key. specialize (B5 key).
    by rewrite (reserved_delete key (qe_canonical_url e) e) in B5.
  - split; [lia|done..].
  - split; simpl; [done..|]. intros k _ Hk'. by rewrite lookup_delete_None; right.
Qed.

(** Putting it back. *)
Lemma put_back_spec d s e s1 : traversal_ok d s -> queued s !! qe_canonical_url e = Some e ->
  core s1 = (core s) <| c_queued ::= delete (qe_canonical_url e) |> -> traversal_ok d (put_back e s1).
Proof.
  intros [Hc Hp Hok Hq] Hlook Hs1.
  assert (core (put_back e s1) = core s) as Ht.
  { transitivity ((core s1) <| c_queued ::= <[qe_canonical_url e := e]> |>); [done|]. rewrite Hs1.
    transitivity ((core s) <| c_queued :=
      <[qe_canonical_url e := e]> (delete (qe_canonical_url e) (queued s)) |>); [done|].
    by rewrite insert_delete_id. }
  split; [|  |by rewrite Ht|apply queue_ok_rebuild].
  - by rewrite (f_equal c_context Ht : context (put_back e s1) = context s).
  - by rewrite (f_equal c_provider Ht : provider (put_back e s1) = provider s).
Qed.

(** A processed unit: the entry taken, of least depth, is never queued again, and the
    traversal comes closer to its end. *)
Record unit_done (d : Z) (s : SemanticTraversal) (e : QueueEntry) (s' : SemanticTraversal) : Prop := {
  ud_queued : queued s !! qe_canonical_url e = Some e;
  ud_depth : d <= qe_depth e <= eff_max_depth (limits (context s));
  ud_ok : traversal_ok (qe_depth e) s';
  ud_grows : grows (core s) (core s');
  ud_closed : queued s' !! qe_canonical_url e = None;
  ud_progress : expanded s ⊂ expanded s' \/
    (expanded s' = expanded s /\ (size (queued s') < size (queued s))%nat)
}.

Lemma step_entry_spec `{!UuidLaws U} d s e rest r s' : traversal_ok d s -> queue s = e :: rest ->
  step_entry e rest s = Ok (r, s') ->
  match r with
  | Processed _ _ => unit_done d s e s'
  | Complete => False
  | StepInterrupted _ => traversal_ok d s'
  end.
Proof.
  intros Hok Hhead. unfold step_entry.
  destruct (pop_spec d s e rest) as (Hlook & Hd & Hcore & Hq & Hopen & Hentry & Hg); [apply Hok..|done|].
  assert (core (take_entry e rest s) = (core s) <| c_queued ::= delete (qe_canonical_url e) |>) as Htake by done.
  destruct (checked_sub _ _) as [rem|]; cbn [ok_or]; [|done].
  unfold observe. change (provider (take_entry e rest s)) with (provider s).
  destruct (provider s _ _) as [outcome|] eqn:Hprov; cbn [map_err]; [|done].
  set (s1 := (take_entry e rest s) <| observations ::= S |>).
  assert (kept (take_entry e rest s) s1) as Hk1 by done.
  assert (forall o b, outcome = Observed o b -> 0 <= b) as Hb.
  { intros o b ->. eapply (tr_provider d s Hok) in Hprov. unfold in_u64 in Hprov. lia. }
  destruct (elapsed_millis s1) as [el s2] eqn:He.
  assert (kept s1 s2) as Hk2 by (injection He as _ <-; done). clear He.
  set (s3 := if _ <=? el then _ else _).
  assert (kept (take_entry e rest s) s3) as Hk3.
  { etrans; [exact Hk1|]. etrans; [exact Hk2|]. apply kept_if; [apply kept_hit_time_budget|done]. }
  destruct Hk3 as [Hk3 Hkq3].
  assert (context s3 = context s /\ selected_seed_ids s3 = selected_seed_ids s /\
    queued s3 = delete (qe_canonical_url e) (queued s) /\ expanded s3 = expanded s /\ queue s3 = rest)
    as (Hctx & Hsel & Hqd & Hex & Hqq).
  { split_and!; [exact (f_equal c_context Hk3)|exact (f_equal c_selected Hk3)|
      exact (f_equal c_queued Hk3)|exact (f_equal c_expanded Hk3)|exact Hkq3]. }
  assert (forall s4, process_outcome e outcome s3 = Ok s4 -> unit_done d s e s4) as Hdone.
  { intros s4 Hp. eapply process_outcome_spec in Hp as [P1 P2 P3 P4]; cycle 1.
    - split; [rewrite Hctx; apply Hok|rewrite Hk3; exact Hcore|rewrite Hctx, Hsel; exact Hentry].
    - unfold queue_ok. rewrite Hqq, Hqd. exact Hq.
    - by rewrite Hk3.
    - exact Hb.
    - rewrite Hk3 in P3. assert (grows (core s) (core s4)) as Hg4 by (etrans; [exact Hg|exact P3]).
      split; [done|destruct Hentry; lia| |done| |].
      + split; [rewrite (gr_context _ _ Hg4 : context s4 = _); apply Hok|
          rewrite (gr_provider _ _ Hg4 : provider s4 = _); apply Hok|done|done].
      + apply (gr_closed _ _ P3); [|by destruct Hopen].
        destruct Hcore as [[_ _ I3 _ _] _ _ _]. apply I3. by destruct Hopen.
      + rewrite Hex in P4. destruct P4 as [?|[? Hsub]]; [by left|right]. split; [done|].
        apply map_subseteq_size in Hsub. rewrite Hqd, map_size_delete_Some in Hsub by done.
        assert (size (queued s) <> 0)%nat; [|lia]. intros Hz%map_size_empty_inv. by rewrite Hz in Hlook. }
  destruct outcome as [o bytes|reason|diagnostic|reason].
  1-3: destruct (process_outcome _ _ s3) as [s4|] eqn:Hp; [|done]; intros [= <- <-]; by apply Hdone.
  intros [= <- <-]. by eapply put_back_spec.
Qed.
End semantic_invariants.
