(* ===== verification/PreviewExample.v ===== *)
(** * A crawl the witnesses evaluate

    A shop with a home page, item pages, an unmatched page and a link to another host,
    as a frozen snapshot and a provider with one fixture per URL. *)

From S2P Require Import Prelude Externals Base Instances Guardrails Canonicalization DomainScope UrlMatcher Crawler Preview SemanticTraversal.

Section example.
#[local] Existing Instances plain_uuid plain_url plain_regex plain_hosts plain_join.

Definition shop_url (path : string) (H : plain_ok (mk_plain false "shop.example.com" path None None) = true)
    : url := plain_page_url "shop.example.com" path H.

Definition home_type : PageTypeId := new_id 2.
Definition item_type : PageTypeId := new_id 3.

Definition shop_seed : Seed := new_seed 4 (shop_url "/" eq_refl) (shop_url "/" eq_refl).

Definition shop_transition (n : nat) (source target : PageTypeId) (name selector : string)
    : DiscoveryTransition :=
  {| transition_id := new_id n; source_page_type_id := source; target_page_type_id := target;
     transition_name := name; transition_enabled := true; link_selector := selector;
     url_constraints := None; transition_priority := 0;
     transition_budget :=
       {| max_links_per_source_page := 10; total_budget := Some 20; depth_contribution := 1 |};
     deduplicate := true; latest_test_evidence_id := None |}.

Definition shop_transitions : list DiscoveryTransition :=
  [shop_transition 5 home_type item_type "Items" "a.item";
   shop_transition 6 item_type item_type "Next" "a.next"].

Definition shop_version : CrawlerVersion :=
  {| version_id := new_id 1; version_crawler_id := new_id 0; version_state := Published;
     version_seeds := [shop_seed]; page_type_ids := [home_type; item_type];
     transition_ids := map transition_id shop_transitions; canonicalization_policy_id := None;
     domain_scope_id := None; canonicalization_policy := default_canonicalization;
     domain_scope := seed_domains_only; version_guardrails := default_guardrails |}.

Definition shop_page_type (id : PageTypeId) (name : string) (m : UrlMatcher) : PageTypeRecord :=
  {| record_id := id; record_version_id := new_id 1; record_name := name; record_priority := 0;
     record_matchers := [{| matcher_record_id := name; matcher_page_type_id := id;
                            matcher_ordinal := 0; record_matcher := m |}] |}.

Definition shop_snapshot : CrawlerSemanticSnapshot :=
  {| snapshot_version := shop_version;
     snapshot_page_types :=
       [shop_page_type home_type "Home" (ExactUrl (shop_url "/" eq_refl));
        shop_page_type item_type "Item" (PathPrefix None "/items")];
     snapshot_transitions := map (fun t =>
       {| transition_record_version_id := new_id 1; record_transition := t |}) shop_transitions;
     config_hash := "hash" |}.

Definition shop_limits : EffectiveDiscoveryPreviewLimits :=
  {| eff_max_pages := 10; eff_max_depth := 3; eff_max_duration_ms := 1000;
     eff_max_downloaded_bytes := 100000;
     transition_total_limits := map (fun t =>
       {| limited_transition_id := transition_id t; effective_total_limit := 20 |}) shop_transitions |}.

Definition shop_link (href selector : string) : ObservedLink :=
  {| raw_href := href; link_observed_selector := Some selector |}.

Definition shop_page (u : string) (final : option string) (links : list ObservedLink)
    (paginations : list PaginationObservation) : PageObservation :=
  {| requested_url := u; final_url := final; artifact_ids := []; discovered_links := links;
     selector_observations := []; pagination_observations := paginations |}.

(** The second item redirects to the third. *)
Definition shop_provider (home_links : list ObservedLink) (n : nat)
    (request : DiscoveryPreviewObservationRequest)
    : result DiscoveryPreviewProviderError DiscoveryPreviewProviderOutcome :=
  let u := observe_url request in
  Ok (if String.eqb u "http://shop.example.com/" then
        Observed (shop_page u None home_links []) 100
      else if String.eqb u "http://shop.example.com/items/1" then
        Observed (shop_page u None [shop_link "/items/4" "a.next"; shop_link "/items/2" "a.next"] []) 50
      else if String.eqb u "http://shop.example.com/items/2" then
        Observed (shop_page u (Some "http://shop.example.com/items/3") [] []) 50
      else if String.eqb u "http://shop.example.com/items/4" then
        RobotsExcludedOutcome "disallowed"
      else PageFailed {| test_code := "MISSING"; test_message := "no fixture" |}).

Definition shop_links : list ObservedLink :=
  [shop_link "/items/2" "a.item"; shop_link "/items/1" "a.item"; shop_link "/items/3" "a.item";
   shop_link "http://other.example.org/" "a.item"].

(** A page no page type matches. *)
Definition shop_links_unmatched : list ObservedLink := shop_link "/about" "a.item" :: shop_links.

Definition shop_start (links : list ObservedLink) : result DiscoveryPreviewError SemanticTraversal :=
  for_frozen_snapshot shop_snapshot [seed_id shop_seed] shop_limits (shop_provider links)
    (fun _ => 0).

(** The units the traversal processes, and where it stops. *)
Fixpoint run_units (fuel : nat) (s : SemanticTraversal) : list QueueEntry * SemanticTraversal :=
  match fuel, queue s, step s with
  | S fuel', e :: _, Ok (Processed _ _, s') =>
    let '(l, s'') := run_units fuel' s' in (e :: l, s'')
  | _, _, _ => ([], s)
  end.
End example.
