(* ===== verification/SemanticTheorems.v ===== *)
(** * Theorems on the semantic traversal

    Reachable traversals: those a frozen snapshot starts and steps continue.  Their
    invariant, the order and uniqueness of what they request, their budgets and their
    termination. *)

From S2P Require Import Prelude Externals Base Instances Guardrails Canonicalization DomainScope UrlMatcher Crawler Preview SemanticTraversal SemanticInvariants PreviewExample.

Section semantic_theorems.
Context `{U : UuidLib} `{L : UrlLib} `{R : RegexLib} `{H : HostLib} `{J : !UrlJoin L}.

(** The integers of a snapshot and of the limits are of their types. *)
Record typed_snapshot (snapshot : CrawlerSemanticSnapshot) (limits : EffectiveDiscoveryPreviewLimits)
    : Prop := {
  ts_max_pages : in_u64 (eff_max_pages limits);
  ts_max_bytes : in_u64 (eff_max_downloaded_bytes limits);
  ts_max_depth : in_u32 (eff_max_depth limits);
  ts_totals : Forall (fun l => in_u64 (effective_total_limit l)) (transition_total_limits limits);
  ts_transitions : Forall (fun t => in_u32 (depth_contribution (transition_budget t)) /\
    in_u32 (max_links_per_source_page (transition_budget t)) /\
    forall n, total_budget (transition_budget t) = Some n -> in_u64 n)
    (map record_transition (snapshot_transitions snapshot));
  ts_page_budgets : Forall (fun b => forall n, page_budget b = Some n -> in_u64 n)
    (guardrails_page_types (version_guardrails (snapshot_version snapshot)))
}.

(** ** The start *)

Lemma from_snapshot_ok `{!UuidLaws U} snapshot limits ctx : typed_snapshot snapshot limits ->
  from_snapshot snapshot limits = Ok ctx -> context_ok ctx.
Proof.
  intros [T1 T2 T3 T4 T5 T6]. unfold from_snapshot. destruct (validate_semantic_contract _); simpl; [|done].
  destruct (reject_if _ _); [|done]. destruct (reject_if _ _); [|done].
  destruct (graph_new _ _) as [g|] eqn:Hg; simpl; [|done]. intros [= <-].
  apply graph_new_spec in Hg as [[_ Hu _ _] _]. by split.
Qed.

Lemma select_seeds_spec ctx ids selected : select_seeds ctx ids = Ok selected ->
  Forall (fun seed => seed_id seed ∈ ids) selected /\ length selected = length ids.
Proof.
  unfold select_seeds. rewrite collect_ok, Forall_forall. intros Hf.
  split; [|symmetry; by eapply Forall2_length]. intros seed (i & Hi)%list_elem_of_lookup.
  eapply Forall2_lookup_r in Hf as (id & Hid & Hs); [|done].
  unfold select_seed in Hs. destruct (context_seed ctx id) as [s|] eqn:Hc; simpl in Hs; [|done].
  repeat case_match_in Hs. apply list_elem_of_lookup_2 in Hid.
  unfold context_seed in Hc. apply List.find_some in Hc as [_ Hc]. boolify. by subst.
Qed.

Lemma merge_seed_ids_prefix ids more : exists l, merge_seed_ids ids more = ids ++ l.
Proof.
  unfold merge_seed_ids. revert ids. induction more as [|id more IH]; intros ids; simpl.
  { exists []. by rewrite app_nil_r. }
  destruct (bool_decide _); [apply IH|]. destruct (IH (ids ++ [id])) as [l ->].
  exists (id :: l). by rewrite <- app_assoc.
Qed.

(** When nothing changes, the queue is still the map's. *)
Lemma merge_queued_queue canonical ids depth s : queue_ok s ->
  queue_ok (merge_queued_duplicate_provenance canonical ids depth s).
Proof.
  intros Hq. unfold merge_queued_duplicate_provenance.
  destruct (queued s !! canonical) as [e|] eqn:He; [|done].
  set (lower := match depth with Some n => n <? qe_depth e | None => false end).
  destruct (negb _ || lower) eqn:Hb; [apply queue_ok_rebuild|].
  apply orb_false_iff in Hb as [Hm ->]. apply negb_false_iff, Nat.eqb_eq in Hm.
  destruct (merge_seed_ids_prefix (qe_seed_ids e) ids) as [l Hl]. rewrite Hl, length_app in Hm.
  assert (l = []) as -> by (destruct l; simpl in *; [done|lia]). rewrite app_nil_r in Hl.
  unfold queue_ok. simpl. rewrite Hl.
  replace (set_qe_seed_ids (fun _ => qe_seed_ids e) e) with e by by destruct e.
  by rewrite insert_id.
Qed.

Lemma kept_queue s s' : kept s s' -> queue_ok s -> queue_ok s'.
Proof.
  intros [Hk Hq] Hok. unfold queue_ok. rewrite Hq. by rewrite (f_equal c_queued Hk : queued s' = queued s).
Qed.

Lemma admit_root_ok order seed s s' : context_ok (context s) -> core_ok 0 (core s) -> queue_ok s ->
  seed_id seed ∈ selected_seed_ids s -> (order <= length (selected_seed_ids s))%nat ->
  admit_root order seed s = Ok s' ->
  core_ok 0 (core s') /\ queue_ok s' /\ grows (core s) (core s').
Proof.
  intros Hc Hok Hq Hin Hord. unfold admit_root. set (canonical := url_as_str _).
  destruct (classify_scope s _) as [scope|]; [|done].
  destruct (bool_decide (canonical ∈ seen s)) eqn:Hseen; boolify.
  - intros [= <-]. set (s1 := s <| duplicates_prevented ::= fun n => saturating_add u64_max n 1 |>).
    destruct (merge_queued_spec 0 canonical [seed_id seed] None s1) as [Hok1 Hg1]; [|done|done|].
    { intros x ->%list_elem_of_singleton. exact Hin. }
    split_and!; [exact Hok1| |exact Hg1].
    exact (merge_queued_queue canonical [seed_id seed] None s1 Hq).
  - set (s1 := s <| seen ::= _ |>).
    assert (core_ok 0 (core s1)) as Hok1 by exact (sees_ok 0 canonical (core s) Hok).
    assert (grows (core s) (core s1)) as Hg1 by exact (sees_grows canonical (core s)).
    destruct (is_in_scope scope).
    2:{ intros [= <-]. destruct (kept_count_scope (scope_state scope) s1) as [Hk Hkq].
        match goal with |- core_ok _ (core ?t) /\ _ => assert (kept s1 t) as Hkt end.
        { etrans; [apply (kept_count_scope (scope_state scope) s1)|done]. }
        split_and!; [by rewrite (proj1 Hkt)|by eapply kept_queue|by rewrite (proj1 Hkt)]. }
    change (admitted s1) with (admitted s). change (context s1) with (context s).
    destruct (_ <=? Z.of_nat _) eqn:Hmax; boolify; intros [= <-].
    { split_and!; [exact Hok1|exact Hq|exact Hg1]. }
    assert ((canonical ∉ admitted s) /\ queued s !! canonical = None) as [Hna Hnq].
    { destruct Hok as [[_ I2 I3 _ _] _ _ _]. split; [intros Ha; by apply Hseen, I3|].
      destruct (queued s !! canonical) eqn:He; [|done]. exfalso. apply Hseen, I3, I2. by eexists. }
    destruct Hok1 as [[I1 I2 I3 I4 I5] [B1 B2 B3 B4 B5 B6] T M]. simpl in *.
    assert (size ({[canonical]} ∪ admitted s) = S (size (admitted s))) as Hsize.
    { rewrite size_union by set_solver. by rewrite size_singleton. }
    destruct Hc as [[_ Hu] _ [Hdep _] _ _ _ _].
    split; [split; [split|split|destruct T as [? ? ? []]; by split|destruct M; by split]|split]; simpl; try done.
    + intros k e. rewrite lookup_insert. case_decide as Hk; [|by apply I1].
      intros [= <-]. simpl. split; [done|]. split; simpl; [lia|done|apply NoDup_singleton| |].
      * intros x ->%list_elem_of_singleton. exact Hin.
      * split; simpl; [lia|done|done].
    + intros k. rewrite lookup_insert. case_decide as Hk; [subst k; intros _; set_solver|].
      intros Hx. apply I2 in Hx. set_solver.
    + set_solver.
    + set_solver.
    + rewrite Hsize. lia.
    + rewrite Hsize, B2. unfold saturating_add. lia.
    + intros key. rewrite reserved_insert by done. unfold holds_key. simpl.
      specialize (B5 key). lia.
    + exact (queue_ok_rebuild (s1 <| admitted ::= fun l => {[canonical]} ∪ l |>
        <| queued ::= <[canonical := root_entry order seed]> |>)).
    + split; simpl; [done..|set_solver|done|]. intros k Hk Hkn. rewrite lookup_insert_ne; [done|].
      congruence.
Qed.

Lemma admit_roots_from_ok order l s s' : context_ok (context s) -> core_ok 0 (core s) -> queue_ok s ->
  Forall (fun seed => seed_id seed ∈ selected_seed_ids s) l ->
  (order + length l <= length (selected_seed_ids s))%nat ->
  admit_roots_from order l s = Ok s' ->
  core_ok 0 (core s') /\ queue_ok s' /\ grows (core s) (core s').
Proof.
  revert order s. induction l as [|seed l IH]; intros order s Hc Hok Hq Hf Hlen; cbn [admit_roots_from].
  { by intros [= <-]. }
  apply Forall_cons in Hf as [Hin Hf]. destruct (admit_root order seed s) as [s1|] eqn:Ha; [|done].
  simpl in Hlen. apply admit_root_ok in Ha as (Hok1 & Hq1 & Hg1); [|done..|lia]. intros Hr.
  assert (context s1 = context s /\ selected_seed_ids s1 = selected_seed_ids s) as [Hctx Hsel]
    by (split; apply Hg1).
  apply IH in Hr as (Hok' & Hq' & Hg'); [|by rewrite Hctx|done|done|by rewrite Hsel|rewrite Hsel; lia].
  split_and!; [done|done|by etrans].
Qed.

Lemma total_of_new ctx ids provider clock n start t :
  total_of (core (traversal_new ctx ids provider clock n start)) t = 0.
Proof.
  unfold total_of. simpl. destruct (_ !! _) as [x|] eqn:Hx; [|done].
  apply elem_of_list_to_map_2 in Hx. rewrite list_elem_of_In, <- in_rev, <- list_elem_of_In in Hx.
  apply elem_of_map in Hx as (y & Hy & _). by injection Hy as _ ->.
Qed.

Lemma keys_new_known `{!UuidLaws U} ctx ids provider clock n start : context_ok ctx ->
  keys_known (core (traversal_new ctx ids provider clock n start)).
Proof.
  intros Hc. split; simpl.
  - intros k x Hx. apply elem_of_list_to_map_2 in Hx.
    rewrite list_elem_of_In, <- in_rev, <- list_elem_of_In in Hx.
    apply elem_of_map in Hx as (t & [= -> ->] & Ht). by exists t.
  - intros t Ht. destruct (list_to_map _ !! _) eqn:Hn; [done|]. exfalso.
    apply not_elem_of_list_to_map_2 in Hn. apply Hn. rewrite <- map_rev, map_map. simpl.
    apply elem_of_map. exists t. split; [done|]. by rewrite list_elem_of_In, <- in_rev, <- list_elem_of_In.
  - intros k [x Hx]. by rewrite lookup_empty in Hx.
  - intros k [x Hx]. by rewrite lookup_empty in Hx.
Qed.

Lemma core_new_ok `{!UuidLaws U} ctx ids provider clock n start : context_ok ctx ->
  core_ok 0 (core (traversal_new ctx ids provider clock n start)).
Proof.
  intros Hc. pose proof (keys_new_known ctx ids provider clock n start Hc) as Hkeys.
  destruct Hc as [[C1 _] [C2 _] _ C4 _ C6 C7]. rewrite Forall_forall in C4. rewrite Forall_forall in C6.
  rewrite Forall_forall in C7.
  split; [split|split|split|split]; try done.
  - intros k [x Hx]. simpl in Hx. by rewrite lookup_empty in Hx.
  - intros p limit Hl. simpl in *. rewrite lookup_empty. simpl.
    destruct (guardrails_page_type _ p) as [b|] eqn:Hb; simpl in Hl; [|done].
    apply List.find_some in Hb as [Hb _]. apply list_elem_of_In in Hb. apply (C7 b Hb) in Hl as [? _]. done.
  - intros t limit Ht Hl. rewrite total_of_new. simpl in Hl. unfold transition_total_limit in Hl.
    destruct (find _ _) as [x|] eqn:Hx; simpl in Hl; simplify_eq.
    apply List.find_some in Hx as [Hx _]. apply list_elem_of_In in Hx. by apply C4 in Hx as [? _].
  - intros t limit Ht Hl. rewrite total_of_new. by apply (C6 t Ht) in Hl as [? _].
  - intros t source Ht. unfold page_count_of. simpl. rewrite lookup_empty. simpl.
    destruct (C6 t Ht) as (_ & [? _] & _). done.
Qed.

(** ** Reachable traversals *)

Lemma traversal_kept d s s' : kept s s' -> traversal_ok d s -> traversal_ok d s'.
Proof.
  intros Hk [Hc Hp Hok Hq]. destruct Hk as [Hk Hkq]. split.
  - by rewrite (f_equal c_context Hk : context s' = context s).
  - by rewrite (f_equal c_provider Hk : provider s' = provider s).
  - by rewrite Hk.
  - by apply (kept_queue s).
Qed.

(** A started traversal: its context is the snapshot's, its seeds are the selected ones. *)
Lemma for_frozen_snapshot_spec `{!UuidLaws U} snapshot ids limits prov clk s :
  typed_snapshot snapshot limits -> typed_provider prov ->
  for_frozen_snapshot snapshot ids limits prov clk = Ok s ->
  traversal_ok 0 s /\ from_snapshot snapshot limits = Ok (context s) /\
  is_ok (select_seeds (context s) ids) = true /\ selected_seed_ids s = ids.
Proof.
  intros Ht Hp. unfold for_frozen_snapshot.
  destruct (from_snapshot snapshot limits) as [ctx|] eqn:Hctx; [|done].
  pose proof (from_snapshot_ok _ _ _ Ht Hctx) as Hc.
  destruct (select_seeds ctx ids) as [selected|] eqn:Hsel; [|done].
  pose proof (select_seeds_spec _ _ _ Hsel) as [Hin Hlen].
  intros Hr. set (s0 := traversal_new ctx ids prov clk 1 (clk 0%nat)) in *.
  destruct (admit_roots_from_ok 0 selected s0 s) as (Hok & Hq & Hg); [done| | |done| |done|].
  - by apply core_new_ok.
  - split; [constructor|]. simpl. by rewrite map_to_list_empty.
  - simpl. lia.
  - assert (context s = ctx) as -> by exact (gr_context _ _ Hg).
    split_and!; [split|done|by rewrite Hsel|exact (gr_selected _ _ Hg)]; [|  |done|done].
    + by rewrite (gr_context _ _ Hg : context s = context s0).
    + by rewrite (gr_provider _ _ Hg : provider s = provider s0).
Qed.

Lemma for_frozen_snapshot_ok `{!UuidLaws U} snapshot ids limits prov clk s :
  typed_snapshot snapshot limits -> typed_provider prov ->
  for_frozen_snapshot snapshot ids limits prov clk = Ok s -> traversal_ok 0 s.
Proof. intros Ht Hp Hs. by eapply for_frozen_snapshot_spec. Qed.

Lemma from_snapshot_limits snapshot l ctx : from_snapshot snapshot l = Ok ctx -> limits ctx = l.
Proof. unfold from_snapshot. intros Hc. repeat case_match_in Hc. by simplify_eq. Qed.

Lemma from_snapshot_page_types snapshot l ctx : from_snapshot snapshot l = Ok ctx ->
  map pt_id (ctx_page_types ctx) = map record_id (snapshot_page_types snapshot).
Proof.
  unfold from_snapshot. intros Hc. repeat case_match_in Hc. simplify_eq/=. by rewrite map_map.
Qed.

Lemma step_spec `{!UuidLaws U} d s r s' : traversal_ok d s -> step s = Ok (r, s') ->
  match r with
  | Processed _ _ => exists e rest, queue s = e :: rest /\ unit_done d s e s'
  | _ => traversal_ok d s'
  end.
Proof.
  intros Hok. unfold step. destruct (queue s) as [|e rest] eqn:Hq; [by intros [= <- <-]|].
  destruct (elapsed_millis s) as [el s1] eqn:He.
  assert (kept s s1) as Hk by (injection He as _ <-; done). clear He.
  assert (traversal_ok d s1) as Hok1 by by eapply traversal_kept.
  destruct (_ <=? el).
  { intros [= <- <-]. eapply traversal_kept; [apply kept_hit_time_budget|done]. }
  destruct (_ <=? consumed_bytes s1).
  { intros [= <- <-]. eapply traversal_kept; [apply kept_record_budget|done]. }
  intros Hs.
  eapply step_entry_spec in Hs; [|done|by rewrite (proj2 Hk)].
  destruct r as [pages paths| |reason]; [|done|done]. exists e, rest. split; [done|].
  destruct Hk as [Hk _], Hs as [D1 D2 D3 D4 D5 D6].
  rewrite (f_equal c_queued Hk : queued s1 = queued s),
    ?(f_equal c_context Hk : context s1 = context s),
    ?(f_equal c_expanded Hk : expanded s1 = expanded s), ?Hk in *.
  by split.
Qed.

(** What no step changes. *)
Definition same_request (s s' : SemanticTraversal) : Prop :=
  context s' = context s /\ selected_seed_ids s' = selected_seed_ids s.

Lemma grows_request s s' : grows (core s) (core s') -> same_request s s'.
Proof. intros Hg. split; [exact (gr_context _ _ Hg)|exact (gr_selected _ _ Hg)]. Qed.

Lemma kept_request s s' : kept s s' -> same_request s s'.
Proof. intros [Hk _]. apply grows_request. by rewrite Hk. Qed.

Lemma step_entry_request e rest s reason s' : step_entry e rest s = Ok (StepInterrupted reason, s') ->
  same_request s s'.
Proof.
  unfold step_entry. destruct (ok_or _ _) as [rem|]; [|done]. unfold observe.
  destruct (map_err _ _) as [outcome|]; [|done].
  destruct outcome as [o bytes|why|diagnostic|why].
  4: { intros [= _ <-]. split; reflexivity. }
  all: match goal with |- context [elapsed_millis ?t] => destruct (elapsed_millis t) as [el s2] end;
    destruct (process_outcome _ _ _); discriminate.
Qed.

Lemma step_request `{!UuidLaws U} d s r s' : traversal_ok d s -> step s = Ok (r, s') ->
  same_request s s'.
Proof.
  intros Hok Hs. destruct r as [pages paths| |reason].
  { apply (step_spec d) in Hs as (e & rest & _ & Hd); [|done]. by eapply grows_request, ud_grows. }
  all: unfold step in Hs; destruct (queue s) as [|e rest] eqn:Hq; [by simplify_eq|].
  all: destruct (elapsed_millis s) as [el s1] eqn:He.
  all: assert (kept s s1) as Hk by (injection He as _ <-; done); clear He.
  all: assert (same_request s1 s' -> same_request s s') as Htr
    by (intros [H1 H2]; destruct (kept_request s s1 Hk); split; congruence).
  all: destruct (_ <=? el);
    [try discriminate; injection Hs as <-; apply Htr, kept_request, kept_hit_time_budget|].
  all: destruct (_ <=? consumed_bytes s1);
    [try discriminate; injection Hs as <-; apply Htr, kept_request, kept_record_budget|].
  - apply (step_entry_spec d s1) in Hs; [done|by eapply traversal_kept|by rewrite (proj2 Hk)].
  - by eapply Htr, step_entry_request.
Qed.

(** What a frozen snapshot starts and steps continue. *)
Inductive reachable (s0 : SemanticTraversal) : SemanticTraversal -> Prop :=
| reach_start : reachable s0 s0
| reach_step s r s' : reachable s0 s -> step s = Ok (r, s') -> reachable s0 s'.

Lemma reachable_ok `{!UuidLaws U} d s0 s : traversal_ok d s0 -> reachable s0 s ->
  exists d', d <= d' /\ traversal_ok d' s.
Proof.
  intros H0. induction 1 as [|s r s' _ (d' & Hle & Hok) Hs]; [by exists d|].
  apply (step_spec d') in Hs; [|done].
  destruct r; [destruct Hs as (e & rest & _ & Hd)|..]; [|by exists d'..].
  exists (qe_depth e). destruct Hd as [_ [? _] ? _ _ _]. split; [lia|done].
Qed.

Lemma reachable_request `{!UuidLaws U} d s0 s : traversal_ok d s0 -> reachable s0 s ->
  same_request s0 s.
Proof.
  intros H0 Hr. induction Hr as [|s r s' Hr IH Hs]; [done|].
  destruct (reachable_ok d s0 s) as (d' & _ & Hok); [done..|].
  destruct IH, (step_request d' s r s' Hok Hs). split; congruence.
Qed.

(** A run: the units processed, in order. *)
Inductive runs : SemanticTraversal -> list QueueEntry -> SemanticTraversal -> Prop :=
| runs_nil s : runs s [] s
| runs_cons s e rest pages paths s1 l s2 :
    queue s = e :: rest -> step s = Ok (Processed pages paths, s1) -> runs s1 l s2 ->
    runs s (e :: l) s2.

Lemma runs_grow `{!UuidLaws U} d s l s' : traversal_ok d s -> runs s l s' ->
  grows (core s) (core s') /\ exists d', d <= d' /\ traversal_ok d' s'.
Proof.
  intros Hok Hr. revert d Hok. induction Hr as [s|s e rest pages paths s1 l s2 Hq Hs _ IH]; intros d Hok.
  { split; [done|by exists d]. }
  apply (step_spec d) in Hs as (e' & rest' & Hq' & [D1 [D2 _] D3 D4 _ _]); [|done].
  destruct (IH _ D3) as (Hg & d' & Hle & Hok'). split; [by etrans|].
  exists d'. split; [lia|done].
Qed.

(** The units of a run from a frontier at depth [d]. *)
Lemma runs_units `{!UuidLaws U} d s l s' : traversal_ok d s -> runs s l s' ->
  NoDup (map qe_canonical_url l) /\
  Sorted Z.le (map qe_depth l) /\
  Forall (fun e => d <= qe_depth e <= eff_max_depth (limits (context s)) /\
    ~ (qe_canonical_url e ∈ seen s /\ queued s !! qe_canonical_url e = None)) l.
Proof.
  intros Hok Hr. revert d Hok. induction Hr as [s|s e rest pages paths s1 l s2 Hq Hs Hr IH]; intros d Hok.
  { split_and!; constructor. }
  pose proof Hs as Hu. apply (step_spec d) in Hu as (e' & rest' & Hq' & [D1 D2 D3 D4 D5 D6]); [|done].
  assert (e' = e) as -> by congruence. destruct (IH _ D3) as (Hn & Hs' & Hf).
  assert (context s1 = context s) as Hctx by apply D4.
  assert (qe_canonical_url e ∈ seen s1) as Hseen.
  { apply (gr_seen _ _ D4). destruct (tr_core _ _ Hok) as [[_ I2 I3 _ _] _ _ _]. apply I3, I2. by exists e. }
  rewrite Forall_forall in Hf. split_and!; simpl.
  - constructor; [|done]. intros (x & Hx & Hin)%elem_of_map. destruct (Hf x Hin) as [_ Hc].
    apply Hc. rewrite <- Hx. done.
  - constructor; [done|]. destruct l as [|x l]; constructor. apply (Hf x). left.
  - constructor; [split; [done|]; rewrite D1; by intros [_ ?]|]. rewrite Forall_forall. intros x Hin.
    destruct (Hf x Hin) as [Hd Hc]. rewrite Hctx in Hd. split; [lia|]. intros [Hs1 Hq1]. apply Hc.
    split; [by apply (gr_seen _ _ D4)|by apply (gr_closed _ _ D4)].
Qed.

(** ** Termination *)

Lemma terminates_from `{!UuidLaws U} n m d s : traversal_ok d s ->
  (Z.to_nat (eff_max_pages (limits (context s))) - size (expanded s) <= n)%nat ->
  (size (queued s) <= m)%nat -> exists fuel r, traverse fuel s = Some r.
Proof.
  revert m d s. induction n as [n IHn] using lt_wf_ind. intros m.
  induction m as [m IHm] using lt_wf_ind. intros d s Hok Hn Hm.
  destruct (step s) as [[r s']|e] eqn:Hs; [|exists 1%nat, (Err e); simpl; by rewrite Hs].
  destruct r as [pages paths| |reason]; [|exists 1%nat, (Ok s'); simpl; by rewrite Hs..].
  pose proof Hs as Hu. apply (step_spec d) in Hu as (e & rest & _ & [_ _ D3 D4 _ D6]); [|done].
  assert (context s' = context s) as Hctx by apply D4.
  assert (exists fuel r, traverse fuel s' = Some r) as (fuel & r & Hr).
  { destruct D6 as [Hex|[Hex Hq]].
    - pose proof (subset_size _ _ Hex) as Hlt.
      assert (Z.of_nat (size (expanded s')) <= eff_max_pages (limits (context s'))) as Hmax.
      { destruct (tr_core _ _ D3) as [[_ _ _ I4 I5] [B1 _ _ _ _ _] _ _]. simpl in *.
        pose proof (subseteq_size _ _ I4). pose proof (subseteq_size _ _ I5). lia. }
      eapply (IHn (n - 1)%nat); [|exact D3| |reflexivity]; rewrite ?Hctx in *; lia.
    - eapply (IHm (m - 1)%nat); [lia|exact D3|rewrite Hctx, Hex; lia|lia]. }
  exists (S fuel), r. simpl. by rewrite Hs.
Qed.

(** ** What holds of every traversal of a frozen snapshot *)

(** C18. Every traversal that a frozen snapshot starts and steps continue satisfies the
    invariant of the traversal, whatever the provider answers and the clock shows: the
    queue holds exactly the queued entries, ordered by depth; what is queued is admitted,
    not sampled and within the depth limit, with non-empty provenance among the selected
    seeds; expanded pages are sampled, sampled ones admitted, admitted ones seen; and
    every counter equals the size of its set. *)
Theorem traversal_invariant `{!UuidLaws U} (snapshot : CrawlerSemanticSnapshot) (ids : list SeedId)
    (limits : EffectiveDiscoveryPreviewLimits)
    (prov : nat -> DiscoveryPreviewObservationRequest ->
      result DiscoveryPreviewProviderError DiscoveryPreviewProviderOutcome)
    (clk : nat -> Z) (s0 s : SemanticTraversal)
    (Ht : typed_snapshot snapshot limits) (Hp : typed_provider prov)
    (Hs : for_frozen_snapshot snapshot ids limits prov clk = Ok s0) (Hr : reachable s0 s) :
  exists d, 0 <= d /\ traversal_ok d s.
Proof.
  eapply for_frozen_snapshot_ok in Hs; [|done..]. destruct (reachable_ok 0 s0 s Hs Hr) as (d & ? & ?).
  by exists d.
Qed.

(** C19. The budgets hold at every boundary: no more pages are admitted than [max_pages],
    nor bytes consumed than [max_downloaded_bytes]; a page type never holds more
    reservations than its budget; and the links counted for a transition, from one page
    or in all, stay within its own and the request's limits. *)
Theorem traversal_budgets_respected `{!UuidLaws U} (snapshot : CrawlerSemanticSnapshot)
    (ids : list SeedId) (limits : EffectiveDiscoveryPreviewLimits)
    (prov : nat -> DiscoveryPreviewObservationRequest ->
      result DiscoveryPreviewProviderError DiscoveryPreviewProviderOutcome)
    (clk : nat -> Z) (s0 s : SemanticTraversal)
    (Ht : typed_snapshot snapshot limits) (Hp : typed_provider prov)
    (Hs : for_frozen_snapshot snapshot ids limits prov clk = Ok s0) (Hr : reachable s0 s) :
  Z.of_nat (size (admitted s)) <= eff_max_pages limits /\
  Z.of_nat (size (sampled s)) <= eff_max_pages limits /\
  0 <= consumed_bytes s <= eff_max_downloaded_bytes limits /\
  (forall p limit, page_type_limit s p = Some limit -> scheduled_count s p <= limit) /\
  (forall t, t ∈ ctx_transitions (context s) ->
    (forall source, transition_page_count s t source
      <= max_links_per_source_page (transition_budget t)) /\
    (forall limit, total_budget (transition_budget t) = Some limit -> transition_total s t <= limit) /\
    (forall limit, transition_total_limit (context s) (transition_id t) = Some limit ->
      transition_total s t <= limit)).
Proof.
  eapply for_frozen_snapshot_spec in Hs as (Hs & Hlim%from_snapshot_limits & _); [|done..].
  destruct (reachable_ok 0 s0 s Hs Hr) as (d & _ & Hok).
  assert (context s = context s0) as Hctx by by eapply reachable_request.
  rewrite <- Hlim, <- Hctx.
  destruct (tr_core _ _ Hok) as [[_ _ _ I4 _] [B1 _ _ B4 _ B6] [T1 T2 T3] _].
  pose proof (subseteq_size _ _ I4) as Hsub. simpl in *.
  split_and!; [done|lia|lia|lia|exact B6|]. intros t Hin. split_and!.
  - intros source. exact (T3 t source Hin).
  - intros limit. exact (T2 t limit Hin).
  - intros limit. exact (T1 t limit Hin).
Qed.

(** C20. The units of a run are requested once and breadth first: no canonical URL is
    taken from the queue twice, the depths of the units never decrease and stay within
    the depth limit. *)
Theorem units_once_breadth_first `{!UuidLaws U} (snapshot : CrawlerSemanticSnapshot)
    (ids : list SeedId) (limits : EffectiveDiscoveryPreviewLimits)
    (prov : nat -> DiscoveryPreviewObservationRequest ->
      result DiscoveryPreviewProviderError DiscoveryPreviewProviderOutcome)
    (clk : nat -> Z) (s0 s : SemanticTraversal) (l : list QueueEntry)
    (Ht : typed_snapshot snapshot limits) (Hp : typed_provider prov)
    (Hs : for_frozen_snapshot snapshot ids limits prov clk = Ok s0) (Hr : runs s0 l s) :
  NoDup (map qe_canonical_url l) /\ Sorted Z.le (map qe_depth l) /\
  Forall (fun e => 0 <= qe_depth e <= eff_max_depth (SemanticTraversal.limits (context s0))) l.
Proof.
  eapply for_frozen_snapshot_ok in Hs; [|done..].
  destruct (runs_units 0 s0 l s Hs Hr) as (Hn & Hd & Hf). split_and!; [done..|].
  eapply Forall_impl; [exact Hf|]. by intros e [? _].
Qed.

(** C21. [traverse] returns, whatever the provider and the clock do: every unit either
    expands a further page, of which there are at most [max_pages], or shortens the
    queue, so enough fuel always exists. *)
Theorem traverse_terminates `{!UuidLaws U} (snapshot : CrawlerSemanticSnapshot) (ids : list SeedId)
    (limits : EffectiveDiscoveryPreviewLimits)
    (prov : nat -> DiscoveryPreviewObservationRequest ->
      result DiscoveryPreviewProviderError DiscoveryPreviewProviderOutcome)
    (clk : nat -> Z) (s0 : SemanticTraversal)
    (Ht : typed_snapshot snapshot limits) (Hp : typed_provider prov)
    (Hs : for_frozen_snapshot snapshot ids limits prov clk = Ok s0) :
  exists fuel r, traverse fuel s0 = Some r.
Proof. eapply for_frozen_snapshot_ok in Hs; [|done..]. by eapply terminates_from. Qed.
End semantic_theorems.

(** ** Witnesses on the shop *)

Section witnesses.
#[local] Existing Instances plain_uuid plain_url plain_regex plain_hosts plain_join.

Lemma shop_typed : typed_snapshot shop_snapshot shop_limits.
Proof.
  split; unfold in_u64, in_u32, u64_max, u32_max; [cbn; lia..| | |constructor]; apply Forall_map; cbn;
    repeat (apply Forall_cons; split); try apply Forall_nil; cbn; try done.
  all: split; [lia|split; [lia|]]; intros n [= <-]; lia.
Qed.

Lemma shop_provider_typed links : typed_provider (shop_provider links).
Proof.
  intros n request o bytes. unfold shop_provider. cbv zeta.
  repeat case_match; first [discriminate|intros [= _ <-]; unfold in_u64, u64_max; lia].
Qed.

Lemma shop_starts : exists s0, shop_start shop_links = Ok s0.
Proof. apply is_ok_exists. vm_compute. reflexivity. Qed.

Lemma run_units_runs fuel s : runs s (run_units fuel s).1 (run_units fuel s).2.
Proof.
  revert s. induction fuel as [|fuel IH]; intros s; [constructor|]. cbn [run_units].
  destruct (queue s) as [|e rest] eqn:Hq; [constructor|].
  destruct (step s) as [[[pages paths| |reason] s1]|] eqn:Hs; try constructor.
  specialize (IH s1). destruct (run_units fuel s1) as [l s2]. by econstructor.
Qed.

Lemma run_units_reachable s0 s l s' : reachable s0 s -> runs s l s' -> reachable s0 s'.
Proof. intros Hr H. induction H; [done|]. apply IHruns. by econstructor. Qed.

(** Four units: the home page and three item pages, the last at depth 2. *)
Lemma shop_run : exists s0 l s, shop_start shop_links = Ok s0 /\ runs s0 l s /\ reachable s0 s /\
  map qe_depth l = [0; 1; 1; 2].
Proof.
  destruct shop_starts as [s0 Hs]. exists s0, (run_units 10 s0).1, (run_units 10 s0).2.
  pose proof (run_units_runs 10 s0) as Hr. split; [exact Hs|]. split; [exact Hr|].
  split; [eapply run_units_reachable; [constructor|exact Hr]|].
  change (map qe_depth (run_units 10 s0).1) with
    (match Ok (E := DiscoveryPreviewError) s0 with
     | Ok s0 => map qe_depth (run_units 10 s0).1 | Err _ => [] end).
  rewrite <- Hs. vm_compute. reflexivity.
Qed.

Lemma traversal_invariant_witness : exists s0 s, shop_start shop_links = Ok s0 /\ reachable s0 s /\
  exists d, 0 <= d /\ traversal_ok d s.
Proof.
  destruct shop_run as (s0 & l & s & Hs & _ & Hr & _). exists s0, s. split; [exact Hs|].
  split; [exact Hr|].
  exact (traversal_invariant _ _ _ _ _ s0 s shop_typed (shop_provider_typed shop_links) Hs Hr).
Defined.

Lemma traversal_budgets_respected_witness : exists s0 s, shop_start shop_links = Ok s0 /\
  reachable s0 s /\ Z.of_nat (size (admitted s)) <= 10.
Proof.
  destruct shop_run as (s0 & l & s & Hs & _ & Hr & _). exists s0, s. split; [exact Hs|].
  split; [exact Hr|].
  exact (proj1 (traversal_budgets_respected _ _ _ _ _ s0 s shop_typed
    (shop_provider_typed shop_links) Hs Hr)).
Defined.

Lemma units_once_breadth_first_witness : exists s0 l s, runs s0 l s /\
  map qe_depth l = [0; 1; 1; 2] /\ NoDup (map qe_canonical_url l).
Proof.
  destruct shop_run as (s0 & l & s & Hs & Hr & _ & Hl). exists s0, l, s. split; [exact Hr|].
  split; [exact Hl|].
  exact (proj1 (units_once_breadth_first _ _ _ _ _ s0 s l shop_typed
    (shop_provider_typed shop_links) Hs Hr)).
Defined.

Lemma traverse_terminates_witness : exists s0 fuel r, shop_start shop_links = Ok s0 /\
  traverse fuel s0 = Some r.
Proof.
  destruct shop_starts as [s0 Hs]. exists s0.
  destruct (traverse_terminates _ _ _ _ _ s0 shop_typed (shop_provider_typed shop_links) Hs)
    as (fuel & r & H). exists fuel, r. split; [exact Hs|exact H].
Defined.
End witnesses.
