(* ===== verification/ReportTheorems.v ===== *)
(** * Theorems on the report of a preview

    The cycle search decides reachability over the enabled transitions, the dominant
    transition is the strict maximum, and the query groups count what they say. *)

From S2P Require Import Prelude Externals Base Instances Guardrails Canonicalization DomainScope UrlMatcher Crawler Preview SemanticTraversal PreviewReport PreviewExample.

Section report_theorems.
Context `{U : UuidLib} `{L : UrlLib} `{R : RegexLib} `{H : HostLib} `{J : !UrlJoin L}.

(** ** Cycles *)

(** An enabled transition leads from a page type to another. *)
Definition enabled_edge (ts : list DiscoveryTransition) (a b : PageTypeId) : Prop :=
  exists t, t ∈ ts /\ transition_enabled t = true /\ source_page_type_id t = a /\
    target_page_type_id t = b.

Lemma elem_of_enabled_from ts from t : t ∈ enabled_from ts from <->
  transition_enabled t = true /\ source_page_type_id t = from /\ t ∈ ts.
Proof. unfold enabled_from. rewrite list_elem_of_filter. tauto. Qed.

(** What a search that fails leaves behind: the page types it added are not the target
    and every enabled transition from them leads into the set. *)
Record closed_from (ts : list DiscoveryTransition) (target : PageTypeId) (v v' : gset string)
    : Prop := {
  cf_grows : v ⊆ v';
  cf_misses : id_to_string target ∈ v' -> id_to_string target ∈ v;
  cf_edges : forall a b, id_to_string a ∈ v' -> id_to_string a ∉ v -> enabled_edge ts a b ->
    id_to_string b ∈ v'
}.

Lemma closed_from_refl ts target v : closed_from ts target v v.
Proof. split; [done|done|]. intros a b ? ?. done. Qed.

Lemma closed_from_trans ts target v1 v2 v3 :
  closed_from ts target v1 v2 -> closed_from ts target v2 v3 -> closed_from ts target v1 v3.
Proof.
  intros [G1 M1 E1] [G2 M2 E2]. split; [by etrans|auto|]. intros a b Ha Hn He.
  destruct (decide (id_to_string a ∈ v2)) as [Hin|Hin]; [apply G2|]; eauto.
Qed.

(** The outcome of a search from [from]. *)
Definition search_spec (ts : list DiscoveryTransition) (target from : PageTypeId)
    (v : gset string) (r : option (bool * gset string)) : Prop :=
  match r with
  | Some (true, _) => rtc (enabled_edge ts) from target
  | Some (false, v') => id_to_string from ∈ v' /\ closed_from ts target v v'
  | None => True
  end.

Lemma any_edge_spec ts target search edges :
  (forall id v, search_spec ts target id v (search id v)) ->
  forall v, match any_edge search edges v with
  | Some (true, _) => exists t, t ∈ edges /\ rtc (enabled_edge ts) (target_page_type_id t) target
  | Some (false, v') => closed_from ts target v v' /\
      Forall (fun t => id_to_string (target_page_type_id t) ∈ v') edges
  | None => True
  end.
Proof.
  intros Hs. induction edges as [|t edges IH]; intros v; cbn [any_edge].
  { split; [apply closed_from_refl|constructor]. }
  specialize (Hs (target_page_type_id t) v).
  destruct (search _ v) as [[[] v1]|]; cbn [search_spec] in Hs; [|..|done].
  { exists t. split; [left|done]. }
  destruct Hs as [Hin Hc]. specialize (IH v1). destruct (any_edge _ _ v1) as [[[] v2]|]; [..|done].
  - destruct IH as (x & Hx & Hr). exists x. split; [by right|done].
  - destruct IH as [Hc2 Hf]. split; [by eapply closed_from_trans|].
    constructor; [by apply Hc2|done].
Qed.

Lemma page_type_reaches_spec `{!UuidLaws U} ts target fuel from v :
  search_spec ts target from v (page_type_reaches fuel ts from target v).
Proof.
  revert from v. induction fuel as [|fuel IH]; intros from v; [done|]. cbn [page_type_reaches].
  destruct (decide (from = target)) as [->|Ht];
    [rewrite bool_decide_eq_true_2 by done; apply rtc_refl|rewrite bool_decide_eq_false_2 by done].
  destruct (bool_decide (_ ∈ v)) eqn:Hv; boolify; [split; [done|apply closed_from_refl]|].
  pose proof (any_edge_spec ts target _ (enabled_from ts from) IH ({[id_to_string from]} ∪ v)) as Ha.
  destruct (any_edge _ _ _) as [[[] v']|]; [..|done]; cbn [search_spec].
  - destruct Ha as (t & (He & Hsrc & Hin)%elem_of_enabled_from & Hr).
    eapply rtc_l; [|exact Hr]. by exists t.
  - destruct Ha as [[G M E] Hf]. rewrite Forall_forall in Hf. split; [apply G; set_solver|].
    split; [set_solver| |].
    + intros Hin%M. apply elem_of_union in Hin as [Hin|Hin]; [|done].
      apply elem_of_singleton, id_to_string_inj in Hin. congruence.
    + intros a b Ha Hn He. destruct (decide (a = from)) as [->|Hne].
      * destruct He as (t & Hin & Hen & Hsrc & <-). apply Hf, elem_of_enabled_from. done.
      * apply (E a b); [done| |done]. rewrite elem_of_union, elem_of_singleton.
        intros [Heq%id_to_string_inj|?]; done.
Qed.

(** *** The fuel *)

(** The sources the search has not visited. *)
Definition unvisited (ts : list DiscoveryTransition) (v : gset string) : nat :=
  size (id_set (map source_page_type_id ts) ∖ v).

Lemma unvisited_le ts v v' : v ⊆ v' -> (unvisited ts v' <= unvisited ts v)%nat.
Proof. intros Hv. apply subseteq_size. set_solver. Qed.

Lemma unvisited_visit ts from v t : t ∈ enabled_from ts from -> id_to_string from ∉ v ->
  (unvisited ts ({[id_to_string from]} ∪ v) < unvisited ts v)%nat.
Proof.
  intros (He & Hsrc & Hin)%elem_of_enabled_from Hv. apply subset_size.
  assert (id_to_string from ∈ id_set (map source_page_type_id ts)).
  { unfold id_set. rewrite elem_of_list_to_set, elem_of_map. exists from. split; [done|].
    rewrite elem_of_map. by exists t. }
  split; set_solver.
Qed.

Lemma any_edge_fuel ts n search edges v :
  (forall id v, (unvisited ts v <= n)%nat -> exists r v', search id v = Some (r, v') /\ v ⊆ v') ->
  (unvisited ts v <= n)%nat -> exists r v', any_edge search edges v = Some (r, v') /\ v ⊆ v'.
Proof.
  intros Hs. revert v. induction edges as [|t edges IH]; intros v Hn; cbn [any_edge]; [eauto|].
  destruct (Hs (target_page_type_id t) v Hn) as (r & v1 & -> & Hv1). destruct r; [eauto|].
  destruct (IH v1) as (r & v2 & -> & Hv2); [pose proof (unvisited_le ts v v1 Hv1); lia|].
  exists r, v2. split; [done|by etrans].
Qed.

Lemma page_type_reaches_fuel ts target fuel from v : (unvisited ts v < fuel)%nat ->
  exists r v', page_type_reaches fuel ts from target v = Some (r, v') /\ v ⊆ v'.
Proof.
  revert from v. induction fuel as [|fuel IH]; intros from v Hn; [lia|]. cbn [page_type_reaches].
  destruct (bool_decide (from = target)); [eauto|].
  destruct (bool_decide (_ ∈ v)) eqn:Hv; boolify; [eauto|].
  destruct (enabled_from ts from) as [|t edges] eqn:He.
  { cbn [any_edge]. exists false, ({[id_to_string from]} ∪ v). split; [done|set_solver]. }
  pose proof (unvisited_visit ts from v t) as Hlt. rewrite He in Hlt.
  specialize (Hlt ltac:(left) Hv). rewrite <- He.
  destruct (any_edge_fuel ts (pred fuel)
    (fun id => page_type_reaches fuel ts id target) (enabled_from ts from)
    ({[id_to_string from]} ∪ v)) as (r & v' & -> & Hv').
  - intros id w Hw. apply IH. lia.
  - lia.
  - exists r, v'. split; [done|set_solver].
Qed.

Lemma size_list_to_set_le (l : list string) : (size (list_to_set l : gset string) <= length l)%nat.
Proof.
  induction l as [|x l IH]; cbn [list_to_set length]; [by rewrite (size_empty (C := gset string))|].
  pose proof (size_union_alt {[x]} (list_to_set l : gset string)) as Hs.
  rewrite Hs, size_singleton. etrans; [|apply le_n_S, IH]. apply le_n_S, subseteq_size. set_solver.
Qed.

Lemma unvisited_sources ts v : (unvisited ts v <= length ts)%nat.
Proof.
  etrans; [apply (unvisited_le ts ∅); set_solver|]. unfold unvisited, id_set.
  rewrite difference_empty_L. etrans; [apply size_list_to_set_le|]. by rewrite !length_map.
Qed.

(** A closed set without the target holds no path to it. *)
Lemma closed_misses ts target v from : closed_from ts target ∅ v -> id_to_string from ∈ v ->
  ~ rtc (enabled_edge ts) from target.
Proof.
  intros [_ M E] Hin Hr. assert (id_to_string target ∈ v) as Ht; [|set_solver].
  clear M. induction Hr as [|a b c Hab _ IH]; [done|]. apply IH, (E a b); [done|set_solver|done].
Qed.

(** The cycle search of a transition returns whether its source page type is
    reachable from its target page type over the enabled transitions of the graph, a
    self-loop included; the fuel it is given always suffices. *)
Theorem cycle_search_decides `{!UuidLaws U} (g : TransitionGraph) (t : DiscoveryTransition) :
  (exists found, page_type_reaches (reach_fuel (transitions g)) (transitions g)
     (target_page_type_id t) (source_page_type_id t) ∅ = Some found) /\
  (transition_participates_in_cycle g t = true <->
   rtc (enabled_edge (transitions g)) (target_page_type_id t) (source_page_type_id t)).
Proof.
  destruct (page_type_reaches_fuel (transitions g) (source_page_type_id t)
    (reach_fuel (transitions g)) (target_page_type_id t) ∅) as (found & v & Hr & _).
  { pose proof (unvisited_sources (transitions g) ∅). unfold reach_fuel. lia. }
  split; [by eexists|]. unfold transition_participates_in_cycle. rewrite Hr, orb_true_iff.
  rewrite bool_decide_eq_true.
  pose proof (page_type_reaches_spec (transitions g) (source_page_type_id t)
    (reach_fuel (transitions g)) (target_page_type_id t) ∅) as Hs. rewrite Hr in Hs.
  destruct found; cbn [search_spec] in Hs; [by split; auto|]. destruct Hs as [Hin Hc].
  split; [intros [->|?]; done|]. intros Hp. by eapply closed_misses in Hp.
Qed.

(** ** The dominant transition *)

Lemma filter_singleton {A} (P : A -> Prop) `{!forall x, Decision (P x)} (l : list A) d :
  filter P l = [d] <-> exists l1 l2, l = l1 ++ d :: l2 /\ P d /\ Forall (fun x => ~ P x) (l1 ++ l2).
Proof.
  split.
  - induction l as [|x l IH]; [done|]. rewrite filter_cons. case_decide as Hx.
    + intros [= -> Hl]. exists [], l. split; [done|]. split; [done|]. simpl.
      apply Forall_forall. intros y Hy HP. assert (y ∈ filter P l) as Hin by (by apply list_elem_of_filter).
      rewrite Hl in Hin. by apply not_elem_of_nil in Hin.
    + intros (l1 & l2 & -> & Hd & Hf)%IH. exists (x :: l1), l2. split; [done|]. split; [done|].
      by constructor.
  - intros (l1 & l2 & -> & Hd & [H1 H2]%Forall_app).
    assert (forall l, Forall (fun x => ~ P x) l -> filter P l = []) as Hnil.
    { clear. induction 1 as [|x l Hx _ IH]; [done|]. rewrite filter_cons. by rewrite decide_False. }
    rewrite filter_app, filter_cons, decide_True by done. by rewrite !Hnil.
Qed.

(** The dominant transition of a list of counts is the one that has eligible edges
    and strictly more of them than every other; without such a one, ties included, there
    is none. *)
Theorem dominant_transition_strict (counts : list PreviewTransitionCount)
    (d : PreviewTransitionCount) :
  Forall (fun c => 0 <= count_eligible_edges c) counts ->
  unique_dominant_transition counts = Some d <->
  exists l1 l2, counts = l1 ++ d :: l2 /\ 0 < count_eligible_edges d /\
    Forall (fun c => count_eligible_edges c < count_eligible_edges d) (l1 ++ l2).
Proof.
  intros Hpos. unfold unique_dominant_transition. split.
  - destruct (max_by _ _) as [m|] eqn:Hm; [|done].
    pose proof (max_by_some Z.compare _ _ Hm) as [_ Hle].
    destruct (m =? 0) eqn:H0; [done|]. apply Z.eqb_neq in H0.
    destruct (filter _ counts) as [|x [|]] eqn:Hf; [done| |done]. intros [= ->].
    apply filter_singleton in Hf as (l1 & l2 & -> & <- & Hne). exists l1, l2. split; [done|].
    rewrite Forall_map in Hle.
    rewrite Forall_forall in Hpos, Hne, Hle. split.
    { specialize (Hpos d ltac:(set_solver)). lia. }
    apply Forall_forall. intros c Hc. specialize (Hne c Hc).
    specialize (Hle c ltac:(set_solver)). unfold cmp_le in Hle.
    destruct (Z.compare_spec (count_eligible_edges c) (count_eligible_edges d)); [lia..|congruence].
  - intros (l1 & l2 & -> & Hd & Hlt).
    rewrite (max_by_unique Z.compare _ (count_eligible_edges d)).
    + destruct (_ =? 0) eqn:H0; [apply Z.eqb_eq in H0; lia|].
      replace (filter _ _) with [d]; [done|]. symmetry. apply filter_singleton. exists l1, l2.
      split; [done|]. split; [done|]. eapply Forall_impl; [exact Hlt|]. simpl. lia.
    + apply elem_of_map. exists d. split; [done|set_solver].
    + apply Forall_map, Forall_forall. rewrite Forall_forall in Hlt. unfold cmp_le.
      intros c Hc. assert (c = d \/ c ∈ l1 ++ l2) as [->|Hin] by set_solver.
      * by rewrite Z.compare_refl.
      * apply Hlt in Hin. destruct (Z.compare_spec (count_eligible_edges c) (count_eligible_edges d)); congruence || lia.
Qed.

(** ** Query groups *)

(** The identities of a group, in their order, and their queries. *)
Definition group_members (key : string * string) (values : list string) : list string :=
  filter (fun v => group_key <$> url_parse v = Some key) values.

Definition group_queries (key : string * string) (values : list string) : list string :=
  omap (fun v => url_parse v ≫= url_query) (group_members key values).

Definition group_account (key : string * string) (values : list string) : QueryGroupAccounting :=
  {| acc_total := Z.min u64_max (Z.of_nat (length (group_members key values)));
     acc_query_bearing := Z.min u64_max (Z.of_nat (length (group_queries key values)));
     acc_variants := list_to_set (group_queries key values) |}.

Lemma saturating_succ n : Z.min u64_max n + 1 <= u64_max \/ u64_max <= n ->
  saturating_add u64_max (Z.min u64_max n) 1 = Z.min u64_max (n + 1).
Proof. unfold saturating_add. lia. Qed.

Lemma account_group query key values n m :
  n = Z.of_nat (length (group_members key values)) ->
  m = Z.of_nat (length (group_queries key values)) ->
  account query (group_account key values) =
  {| acc_total := Z.min u64_max (n + 1);
     acc_query_bearing := Z.min u64_max (m + match query with Some _ => 1 | None => 0 end);
     acc_variants := match query with
       | Some q => {[q]} ∪ list_to_set (group_queries key values)
       | None => list_to_set (group_queries key values) end |}.
Proof.
  intros -> ->. unfold account, group_account. simpl.
  destruct query; simpl; rewrite ?saturating_succ by lia; [done|]. by rewrite Z.add_0_r.
Qed.

Lemma group_members_snoc key values v : group_members key (values ++ [v]) =
  group_members key values ++ (if decide (group_key <$> url_parse v = Some key) then [v] else []).
Proof. unfold group_members. rewrite filter_app, filter_cons. by case_decide. Qed.

Lemma group_queries_snoc key values v : group_queries key (values ++ [v]) =
  group_queries key values ++
  (if decide (group_key <$> url_parse v = Some key)
   then option_list (url_parse v ≫= url_query) else []).
Proof.
  unfold group_queries. rewrite group_members_snoc, omap_app. case_decide; [|done].
  simpl. by destruct (url_parse v ≫= url_query).
Qed.

(** The groups of a list of identities. *)
Lemma account_urls_spec values key :
  foldl account_url ∅ values !! key =
  match group_members key values with [] => None | _ => Some (group_account key values) end.
Proof.
  induction values as [|v values IH] using rev_ind; [done|].
  rewrite foldl_app. cbn [foldl]. unfold account_url at 1.
  destruct (url_parse v) as [u|] eqn:Hv.
  - rewrite lookup_insert. case_decide as Hk.
    + assert (group_key <$> url_parse v = Some key) as Hd by (rewrite Hv; simpl; congruence).
      rewrite Hk, IH. set (g := group_account key values).
      replace (default _ _) with g; cycle 1.
      { destruct (group_members key values) eqn:Hm; [|done]. subst g. unfold group_account, group_queries.
        rewrite Hm. done. }
      subst g. erewrite account_group by done. rewrite group_members_snoc, decide_True by done.
      destruct (group_members key values ++ [v]) as [|x l] eqn:Hx; [by destruct (group_members key values)|].
      f_equal. unfold group_account. rewrite group_queries_snoc, group_members_snoc, !decide_True by done.
      rewrite Hv. simpl. rewrite !length_app. f_equal; [simpl; lia|destruct (url_query u); simpl; lia|].
      rewrite list_to_set_app_L. destruct (url_query u); simpl; set_solver.
    + rewrite group_members_snoc, decide_False, app_nil_r by (rewrite Hv; simpl; congruence).
      rewrite IH. destruct (group_members key values) eqn:Hm; [done|]. unfold group_account.
      by rewrite group_queries_snoc, group_members_snoc, !decide_False, !app_nil_r
        by (rewrite Hv; simpl; congruence).
  - rewrite group_members_snoc, decide_False, app_nil_r by (by rewrite Hv).
    rewrite IH. destruct (group_members key values) eqn:Hm; [done|]. unfold group_account.
    by rewrite group_queries_snoc, group_members_snoc, !decide_False, !app_nil_r by (by rewrite Hv).
Qed.

(** A group of query variants is reported exactly for every host and path under which
    the in-scope identities have at least [QUERY_EXPLOSION_MIN_VARIANTS] different
    queries; its counts are those of the identities under that host and path and of the
    ones that bear a query. *)
Theorem query_variant_groups_exact (urls : gset string) (g : PreviewQueryVariantGroup) :
  g ∈ query_variant_groups urls <->
  exists host path,
    let members := group_members (host, path) (btree_elements urls) in
    let queries := group_queries (host, path) (btree_elements urls) in
    let variants := Z.of_nat (size (list_to_set queries : gset string)) in
    QUERY_EXPLOSION_MIN_VARIANTS <= variants /\
    g = {| group_host := host; group_path := path;
           total_identities := Z.min u64_max (Z.of_nat (length members));
           query_bearing_identities := Z.min u64_max (Z.of_nat (length queries));
           canonical_query_variants := variants |}.
Proof.
  unfold query_variant_groups. rewrite list_elem_of_omap. split.
  - intros ([[host path] a] & Hin & Hg). exists host, path. cbv zeta.
    rewrite (sort_by_perm _ _), elem_of_map_to_list, account_urls_spec in Hin.
    destruct (group_members _ _) eqn:Hm in Hin; [done|]. injection Hin as <-.
    destruct (_ <=? _) eqn:Hmin; [|done]. apply Z.leb_le in Hmin. injection Hg as <-. done.
  - intros (host & path & Hmin & ->). cbv zeta in *.
    exists (host, path, group_account (host, path) (btree_elements urls)). split.
    + rewrite (sort_by_perm _ _), elem_of_map_to_list, account_urls_spec.
      destruct (group_members _ _) eqn:Hm; [|done]. exfalso. unfold group_queries in Hmin.
      rewrite Hm in Hmin. cbn [omap list_omap list_to_set] in Hmin.
      rewrite (size_empty (C := gset string)) in Hmin. by apply Hmin.
    + simpl. by rewrite (proj2 (Z.leb_le _ _) Hmin).
Qed.
End report_theorems.

(** ** Witnesses *)

Section witnesses.
#[local] Existing Instances plain_uuid plain_url.

Lemma dominant_transition_strict_witness : exists a b : PreviewTransitionCount,
  unique_dominant_transition [a; b] = Some b.
Proof.
  set (c n := {| count_transition_id := new_id (U := plain_uuid) n; count_transition_name := "Items";
                 count_eligible_edges := Z.of_nat n; count_source_pages := 1 |}).
  exists (c 1%nat), (c 4%nat). apply (dominant_transition_strict [c 1%nat; c 4%nat] (c 4%nat)).
  - repeat constructor; simpl; lia.
  - exists [c 1%nat], []. split; [reflexivity|]. split; [simpl; lia|]. repeat constructor; simpl; lia.
Defined.

(** Page types 0 and 1 link to each other, so the first link lies on a cycle. *)
Lemma cycle_search_decides_witness :
  let ts := [example_transition 2 0 1; example_transition 3 1 0] in
  rtc (enabled_edge ts) (new_id 1) (new_id 0).
Proof.
  intros ts. apply (cycle_search_decides {| transitions := ts |} (example_transition 2 0 1)).
  vm_compute. reflexivity.
Defined.
End witnesses.
