(* ===== verification/SemanticRoundTrip.v ===== *)
(** * Theorems on the checkpoints of the semantic traversal

    What a traversal exports at a boundary, restored, is the traversal again when no
    in-scope URL was unmatched or ambiguous, and is refused when one was. *)

From S2P Require Import Prelude Externals Base Instances Guardrails Canonicalization DomainScope UrlMatcher Crawler Preview SemanticTraversal SemanticCheckpoint SemanticInvariants PreviewExample SemanticTheorems.

Section semantic_round_trip.
Context `{U : UuidLib} `{L : UrlLib} `{R : RegexLib} `{H : HostLib} `{J : !UrlJoin L}.

(** ** Maps rebuilt from their rows *)

(** The rows inserted one by one. *)
Definition inserts {K A B} `{Countable K} (key : B -> K) (value : B -> A) (output : gmap K A)
    (rows : list B) : gmap K A :=
  foldl (fun m x => <[key x := value x]> m) output rows.

Lemma inserts_lookup {K A B} `{Countable K} (key : B -> K) (value : B -> A) rows output k :
  NoDup (map key rows) ->
  (forall x, x ∈ rows -> key x = k -> inserts key value output rows !! k = Some (value x)) /\
  ((forall x, x ∈ rows -> key x <> k) -> inserts key value output rows !! k = output !! k).
Proof.
  revert output. induction rows as [|y rows IH]; intros output Hn; simpl.
  { split; [|done]. intros x Hx. by apply not_elem_of_nil in Hx. }
  apply NoDup_cons in Hn as [Hy Hn]. destruct (IH (<[key y := value y]> output) Hn) as [IH1 IH2].
  split.
  - intros x [->|Hx]%elem_of_cons Hk; [|by apply IH1]. rewrite IH2; [by rewrite <- Hk, lookup_insert_eq|].
    intros z Hz Hzk. apply Hy. apply elem_of_map. exists z. split; [congruence|done].
  - intros Hne. rewrite IH2; [|set_solver]. rewrite lookup_insert_ne; [done|]. apply Hne. left.
Qed.

(** Rows that are exactly those of a map rebuild it. *)
Lemma inserts_rebuild {K A B} `{Countable K} (key : B -> K) (value : B -> A) rows (m : gmap K A) :
  NoDup (map key rows) -> (forall x, x ∈ rows -> m !! key x = Some (value x)) ->
  (forall k, is_Some (m !! k) -> exists x, x ∈ rows /\ key x = k) ->
  inserts key value ∅ rows = m.
Proof.
  intros Hn Hv Hk. apply map_eq. intros k.
  destruct (inserts_lookup key value rows ∅ k Hn) as [H1 H2].
  destruct (m !! k) as [v|] eqn:Hm.
  - destruct (Hk k) as (x & Hx & <-); [by rewrite Hm|]. rewrite (H1 x Hx eq_refl).
    rewrite Hv in Hm by done. congruence.
  - rewrite H2, lookup_empty; [done|]. intros x Hx <-. rewrite Hv in Hm by done. done.
Qed.

(** The values of a map in the order of its keys. *)
Lemma btree_values_perm {A} (m : gmap string A) : btree_values m ≡ₚ map snd (map_to_list m).
Proof. unfold btree_values, btree_to_list. by rewrite sort_by_perm. Qed.

Lemma elem_of_btree_values {A} (m : gmap string A) x : x ∈ btree_values m <-> exists k, m !! k = Some x.
Proof.
  rewrite btree_values_perm, elem_of_map. split.
  - intros ([k y] & -> & Hin%elem_of_map_to_list). by exists k.
  - intros [k Hk]. exists (k, x). split; [done|]. by apply elem_of_map_to_list.
Qed.

(** Values that carry their key do not repeat it. *)
Lemma btree_values_nodup {A} (key : A -> string) (m : gmap string A) :
  (forall k x, m !! k = Some x -> key x = k) -> NoDup (map key (btree_values m)).
Proof.
  intros Hk. rewrite btree_values_perm. rewrite map_map.
  replace (map _ (map_to_list m)) with (map fst (map_to_list m)); [apply NoDup_fst_map_to_list|].
  apply map_ext_in. intros [k x] Hin%list_elem_of_In. apply elem_of_map_to_list in Hin. simpl.
  symmetry. by apply Hk.
Qed.

Lemma elem_of_btree_elements (l : gset string) u : u ∈ btree_elements l <-> u ∈ l.
Proof. unfold btree_elements. by rewrite elem_of_sort_by, elem_of_elements. Qed.

(** ** Sets of URLs *)

Lemma collect_urls_into_err values output e : collect_urls_into output values = Err e ->
  e = PersistedStateInvalid.
Proof.
  revert output. induction values as [|u values IH]; intros output; simpl; [done|].
  unfold validate_url. destruct (url_parse u); simpl; [|by intros [= <-]].
  destruct (reject_if _ _) eqn:Hr; [|by apply reject_if_err in Hr as [_ ->]; intros [= <-]].
  destruct (reject_if _ _) eqn:Hr' at 1; [apply IH|by apply reject_if_err in Hr' as [_ ->]; intros [= <-]].
Qed.

Lemma collect_urls_into_ok values output r : collect_urls_into output values = Ok r ->
  r = list_to_set values ∪ output.
Proof.
  revert output. induction values as [|u values IH]; intros output; simpl; [intros [= <-]; set_solver|].
  destruct (validate_url u); [|done]. destruct (reject_if _ _); [|done]. intros ->%IH. set_solver.
Qed.

Lemma collect_urls_own (l : gset string) r : collect_urls (btree_elements l) = Ok r -> r = l.
Proof.
  intros ->%collect_urls_into_ok. apply set_eq. intros u.
  rewrite elem_of_union, elem_of_list_to_set, elem_of_btree_elements. set_solver.
Qed.

Lemma collect_urls_into_valid values output : Forall (fun u => validate_url u = Ok tt) values ->
  NoDup values -> (forall u, u ∈ values -> u ∉ output) -> is_ok (collect_urls_into output values) = true.
Proof.
  revert output. induction values as [|u values IH]; intros output Hv Hn Hd; simpl; [done|].
  apply Forall_cons in Hv as [-> Hv]. apply NoDup_cons in Hn as [Hu Hn].
  rewrite bool_decide_eq_false_2 by (apply Hd; left). simpl. apply IH; set_solver.
Qed.

Lemma collect_urls_valid (l : gset string) : (forall u, u ∈ l -> validate_url u = Ok tt) ->
  collect_urls (btree_elements l) = Ok l.
Proof.
  intros Hv. unfold collect_urls. destruct (collect_urls_into ∅ (btree_elements l)) as [r|e] eqn:Hr.
  - f_equal. by apply collect_urls_own.
  - pose proof (collect_urls_into_valid (btree_elements l) ∅) as Hok. rewrite Hr in Hok. exfalso.
    cbn in Hok. enough (false = true) by done. apply Hok; [|  |set_solver].
    + apply Forall_forall. intros u Hu%elem_of_btree_elements. by apply Hv.
    + unfold btree_elements. rewrite sort_by_perm. apply NoDup_elements.
Qed.

(** ** A checkpoint the restoration refuses *)

Lemma restore_state_unmatched s selected b : matches_ok (core s) ->
  unmatched_urls s ∪ ambiguous_urls s <> ∅ ->
  restore_state (checkpoint_state s) selected b = Err PersistedStateInvalid.
Proof.
  intros [M1 M2 M3 _] Hne. unfold restore_state. cbn [checkpoint_state cp_selected_seed_ids
    admitted_canonical_urls seen_canonical_urls sampled_canonical_urls expanded_canonical_urls
    matching_canonical_urls unmatched_canonical_urls ambiguous_canonical_urls in_scope_canonical_urls].
  destruct (reject_if _ _) eqn:Hr; [|by apply reject_if_err in Hr as [_ ->]].
  repeat match goal with
  | |- context [collect_urls ?l] =>
      let E := fresh "Hs" in destruct (collect_urls l) as [?x|?e] eqn:E;
      [apply collect_urls_own in E; subst|by rewrite (collect_urls_into_err _ _ _ E)]
  end.
  assert (restored_sets_invalid (admitted s) (seen s) (sampled s) (expanded s) (matching_urls s)
    (unmatched_urls s) (ambiguous_urls s) (in_scope_urls s) = true) as ->; [|done].
  unfold restored_sets_invalid. apply negb_true_iff, not_true_iff_false. intros Hall.
  boolify. simpl in *. set_solver.
Qed.

(** A checkpoint that a traversal with an unmatched or ambiguous in-scope URL exports is
    never restored: [register_match] also counts such a URL among the matching ones, and
    [restore_state] requires the three sets to be disjoint, so the restoration fails with
    [PersistedStateInvalid], under any provider and clock. *)
Theorem unmatched_checkpoint_rejected `{!UuidLaws U} (snapshot : CrawlerSemanticSnapshot)
    (ids : list SeedId) (limits : EffectiveDiscoveryPreviewLimits)
    (prov prov' : nat -> DiscoveryPreviewObservationRequest ->
      result DiscoveryPreviewProviderError DiscoveryPreviewProviderOutcome)
    (clk clk' : nat -> Z) (s0 s : SemanticTraversal)
    (Ht : typed_snapshot snapshot limits) (Hp : typed_provider prov)
    (Hs : for_frozen_snapshot snapshot ids limits prov clk = Ok s0) (Hr : reachable s0 s)
    (Hne : unmatched_urls s ∪ ambiguous_urls s <> ∅) :
  restore_from_checkpoint snapshot ids limits prov' clk' (checkpoint_state s)
  = Err PersistedStateInvalid.
Proof.
  eapply for_frozen_snapshot_spec in Hs as (Hok0 & Hctx & Hsel & Hids); [|done..].
  destruct (reachable_ok 0 s0 s Hok0 Hr) as (d & _ & Hok).
  unfold restore_from_checkpoint. rewrite Hctx. apply is_ok_exists in Hsel as [selected ->].
  destruct (reject_if _ _) eqn:Hrej; [|by apply reject_if_err in Hrej as [_ ->]].
  apply restore_state_unmatched; [|done]. apply Hok.
Qed.

(** ** The loops of the restoration *)

(** The rows that follow one are still to be inserted. *)
Lemma fresh_rows {K A B} `{Countable K} (key : B -> K) (output : gmap K A) v x rows :
  NoDup (map key (x :: rows)) -> (forall y, y ∈ x :: rows -> output !! key y = None) ->
  forall y, y ∈ rows -> <[key x := v]> output !! key y = None.
Proof.
  intros [Hx _]%NoDup_cons Hf y Hy. rewrite lookup_insert_ne; [apply Hf; by right|].
  intros Hk. apply Hx. apply elem_of_map. by exists y.
Qed.

(** A URL the restoration accepts. *)
Record restorable (value : string) : Prop := {
  rv_valid : validate_url value = Ok tt;
  rv_no_fragment : contains_ch "#" value = false
}.

Lemma restore_pending_inserts b ad sm ex rows output :
  (forall e, e ∈ rows -> validate_pending b ad sm ex e = Ok tt) -> NoDup (map sq_canonical_url rows) ->
  (forall e, e ∈ rows -> output !! sq_canonical_url e = None) ->
  restore_pending b ad sm ex output rows = Ok (inserts sq_canonical_url import_entry output rows).
Proof.
  revert output. induction rows as [|e rows IH]; intros output Hv Hn Hf; simpl; [done|].
  pose proof Hn as [_ Hn']%NoDup_cons.
  rewrite Hv, Hf by left. rewrite bool_decide_eq_false_2 by (by intros [? ?]). simpl. apply IH; [|done|].
  - intros x Hx. apply Hv. by right.
  - by apply (fresh_rows sq_canonical_url).
Qed.

Lemma restore_page_types_inserts b rows output :
  (forall x, x ∈ rows -> known_page_type b x.1 = true) -> NoDup (map (fun x => id_to_string x.1) rows) ->
  (forall x, x ∈ rows -> output !! id_to_string x.1 = None) ->
  restore_page_type_counts b output rows = Ok (inserts (fun x => id_to_string x.1) snd output rows).
Proof.
  revert output. induction rows as [|[id v] rows IH]; intros output Hv Hn Hf; simpl; [done|].
  pose proof Hn as [_ Hn']%NoDup_cons.
  pose proof (Hv (id, v) ltac:(left)) as Hk. pose proof (Hf (id, v) ltac:(left)) as Hnone.
  simpl in Hk, Hnone. rewrite Hk, Hnone. rewrite bool_decide_eq_false_2 by (by intros [? ?]).
  simpl. apply IH; [|done|].
  - intros x Hx. apply Hv. by right.
  - by apply (fresh_rows (fun x => id_to_string x.1) output v (id, v)).
Qed.

Lemma restore_counts_inserts b rows output :
  (forall c, c ∈ rows -> exists t, find (fun t => bool_decide (transition_id t = st_transition_id c))
     (ctx_transitions (context b)) = Some t /\ transition_name t = st_name c) ->
  NoDup (map (fun c => id_to_string (st_transition_id c)) rows) ->
  (forall c, c ∈ rows -> output !! id_to_string (st_transition_id c) = None) ->
  restore_counts_into b output rows
  = Ok (inserts (fun c => id_to_string (st_transition_id c)) import_count output rows).
Proof.
  revert output. induction rows as [|c rows IH]; intros output Hv Hn Hf; simpl; [done|].
  pose proof Hn as [_ Hn']%NoDup_cons. destruct (Hv c) as (t & -> & Ht); [left|]. simpl.
  rewrite Ht, Hf by left. rewrite String.eqb_refl, bool_decide_eq_false_2 by (by intros [? ?]). simpl.
  apply IH; [|done|].
  - intros x Hx. apply Hv. by right.
  - by apply (fresh_rows (fun c => id_to_string (st_transition_id c))).
Qed.

Definition count_row_key (x : DiscoveryTransitionId * string * Z) : string * string :=
  (id_to_string x.1.1, x.1.2).

Lemma restore_page_counts_inserts b rows output :
  (forall x, x ∈ rows -> validate_url x.1.2 = Ok tt /\ known_transition b x.1.1 = true) ->
  NoDup (map count_row_key rows) -> (forall x, x ∈ rows -> output !! count_row_key x = None) ->
  restore_page_counts b output rows = Ok (inserts count_row_key snd output rows).
Proof.
  revert output. induction rows as [|[[id u] v] rows IH]; intros output Hv Hn Hf; simpl; [done|].
  pose proof Hn as [_ Hn']%NoDup_cons.
  destruct (Hv (id, u, v)) as [Hu Hk]; [left|]. simpl in Hu, Hk. rewrite Hu, Hk.
  pose proof (Hf (id, u, v) ltac:(left)) as Hnone. unfold count_row_key in Hnone. simpl in Hnone.
  rewrite Hnone. rewrite bool_decide_eq_false_2 by (by intros [? ?]).
  simpl. apply IH; [|done|].
  - intros x Hx. apply Hv. by right.
  - by apply (fresh_rows count_row_key output v (id, u, v)).
Qed.
(** ** The rows of a checkpoint *)

Lemma omap_nodup {A B K} (k1 : A -> K) (k2 : B -> K) (f : A -> option B) l :
  (forall x y, f x = Some y -> k2 y = k1 x) -> NoDup (map k1 l) -> NoDup (map k2 (omap f l)).
Proof.
  intros Hf. induction l as [|x l IH]; simpl; [done|]. intros [Hx Hn]%NoDup_cons.
  destruct (f x) as [y|] eqn:Hy; [|by apply IH]. simpl. constructor; [|by apply IH].
  rewrite (Hf x y Hy). intros (z & Hz & (w & Hw & Hfz)%list_elem_of_omap)%elem_of_map.
  apply Hx, elem_of_map. exists w. split; [|done]. by rewrite Hz, (Hf w z).
Qed.

(** What a URL of the traversal must be for its checkpoint to be restored. *)
Record urls_restorable (s : SemanticTraversal) : Prop := {
  ur_seen : forall u, u ∈ seen s -> restorable u;
  ur_in_scope : forall u, u ∈ in_scope_urls s -> restorable u;
  ur_queued : forall k e, queued s !! k = Some e -> restorable (qe_requested_url e) /\
    forall u, qe_parent_canonical_url e = Some u -> restorable u;
  ur_sources : forall k, is_Some (transition_page_counts s !! k) -> restorable k.2
}.

Section own_checkpoint.
Context `{!UuidLaws U}.
Context (d : Z) (s b : SemanticTraversal).
Context (Hctx : context_ok (context s)) (Hok : core_ok d (core s)).
Context (Hpt : NoDup (map pt_id (ctx_page_types (context s)))).
Context (Hroom : eff_max_pages (limits (context s)) + Z.of_nat (length (selected_seed_ids s)) <= u64_max).
Context (Hurls : urls_restorable s).
Context (Hb : same_request s b).

Lemma import_export e : in_u64 (qe_order e) -> import_entry (export_entry e) = e.
Proof. intros [_ Hle]. destruct e. unfold import_entry, export_entry. simpl in *. f_equal. lia. Qed.

Lemma queued_order k e : queued s !! k = Some e -> in_u64 (qe_order e).
Proof.
  intros He. destruct (co_identities _ _ Hok) as [I1 _ _ _ _].
  destruct (I1 k e He) as [_ [_ _ _ _ [Ho _ _]]]. simpl in Ho. unfold in_u64. lia.
Qed.

Lemma elem_of_pending x : x ∈ pending (checkpoint_state s) <->
  exists e, queued s !! qe_canonical_url e = Some e /\ x = export_entry e.
Proof.
  cbn [pending checkpoint_state]. rewrite elem_of_sort_by, elem_of_map. setoid_rewrite elem_of_btree_values.
  destruct (co_identities _ _ Hok) as [I1 _ _ _ _]. split.
  - intros (e & -> & k & Hk). exists e. split; [|done]. by destruct (I1 k e Hk) as [-> _].
  - intros (e & He & ->). exists e. eauto.
Qed.

Lemma pending_nodup : NoDup (map sq_canonical_url (pending (checkpoint_state s))).
Proof.
  cbn [pending checkpoint_state]. rewrite (sort_by_perm _ _), map_map.
  apply (btree_values_nodup qe_canonical_url). intros k e He.
  destruct (co_identities _ _ Hok) as [I1 _ _ _ _]. by destruct (I1 k e He).
Qed.

Lemma pending_rebuilds : inserts sq_canonical_url import_entry ∅ (pending (checkpoint_state s)) = queued s.
Proof.
  apply inserts_rebuild; [apply pending_nodup|..].
  - intros x (e & He & ->)%elem_of_pending. rewrite import_export; [done|]. by eapply queued_order.
  - intros k [e He]. exists (export_entry e). rewrite elem_of_pending.
    destruct (co_identities _ _ Hok) as [I1 _ _ _ _]. destruct (I1 k e He) as [<- _].
    split; [by exists e|done].
Qed.

Lemma id_set_size {k} (ids : list (typed_id k)) : NoDup ids -> size (id_set ids) = length ids.
Proof.
  intros Hn. unfold id_set. rewrite size_list_to_set, length_map; [done|].
  apply NoDup_fmap_2_strong; [|done]. intros x y _ _. apply id_to_string_inj.
Qed.

Lemma elem_of_id_set {k} (ids : list (typed_id k)) id : id_to_string id ∈ id_set ids <-> id ∈ ids.
Proof.
  unfold id_set. rewrite elem_of_list_to_set, elem_of_map. split.
  - intros (x & ->%id_to_string_inj & Hx). done.
  - eauto.
Qed.

Lemma pending_valid x : x ∈ pending (checkpoint_state s) ->
  validate_pending b (admitted s) (sampled s) (expanded s) x = Ok tt.
Proof.
  intros (e & He & ->)%elem_of_pending.
  destruct Hok as [[I1 I2 I3 I4 I5] _ _ _]. simpl in *.
  destruct (I1 _ e He) as [_ [E1 E2 E3 E4 [_ K2 K3]]].
  destruct (I2 _ (ex_intro _ e He)) as [Ha Hns].
  destruct (ur_queued s Hurls _ e He) as [[Hr1 Hr2] Hpar].
  destruct (ur_seen s Hurls (qe_canonical_url e)) as [Hc1 Hc2]; [by apply I3|].
  destruct Hb as [Hbc Hbs]. unfold validate_pending. cbn [export_entry sq_requested_url sq_canonical_url
    sq_depth sq_seed_ids sq_target_page_type_id sq_transition_id sq_parent_canonical_url
    sq_discovered_url_id]. rewrite Hr1, Hc1, Hr2, Hc2, Hbc, Hbs.
  assert (existsb (fun id => bool_decide (id_to_string id ∉ id_set (selected_seed_ids s)))
    (qe_seed_ids e) = false) as Hex.
  { apply not_true_iff_false. intros (id & Hid & Hn)%existsb_exists. boolify. apply Hn.
    apply elem_of_id_set, E4. by apply list_elem_of_In. }
  rewrite Hex, id_set_size, Nat.eqb_refl by done.
  rewrite (proj2 (Z.ltb_ge _ _)) by lia.
  rewrite !bool_decide_eq_false_2 by (set_solver || (intros Hn; by apply Hn)).
  destruct (qe_seed_ids e); [done|]. cbn.
  assert (some_fails (known_page_type b) (qe_target_page_type_id e) = false) as ->.
  { destruct (qe_target_page_type_id e) as [p|]; [|done]. simpl. unfold known_page_type.
    rewrite Hbc, bool_decide_eq_true_2; [done|]. apply elem_of_id_set. by apply K2. }
  assert (some_fails (known_transition b) (qe_transition_id e) = false) as ->.
  { destruct (qe_transition_id e) as [t|]; [|done]. simpl. unfold known_transition.
    rewrite Hbc, bool_decide_eq_true_2; [done|]. apply elem_of_id_set. by apply K3. }
  destruct (qe_parent_canonical_url e) as [u|]; [|done]. simpl.
  destruct (Hpar u eq_refl) as [-> _]. done.
Qed.

(** *** Page types *)

Lemma page_type_row values x : x ∈ page_type_values s values <->
  x.1 ∈ map pt_id (ctx_page_types (context s)) /\ values !! id_to_string x.1 = Some x.2.
Proof.
  unfold page_type_values. rewrite list_elem_of_omap, elem_of_map. split.
  - intros (p & Hp & Hx). destruct (values !! _) as [v|] eqn:Hv; simplify_eq/=. split; [by exists p|done].
  - intros [(p & Hx & Hp) Hv]. exists p. split; [done|]. rewrite <- Hx, Hv. simpl. by destruct x; simplify_eq/=.
Qed.

Lemma page_type_rows_restored values : exists m, restore_page_type_counts b ∅ (page_type_values s values) = Ok m /\
  (forall p, p ∈ map pt_id (ctx_page_types (context s)) -> m !! id_to_string p = values !! id_to_string p) /\
  ((forall k, is_Some (values !! k) -> exists p, p ∈ ctx_page_types (context s) /\ id_to_string (pt_id p) = k) ->
   m = values).
Proof.
  assert (NoDup (map (fun x : PageTypeId * Z => id_to_string x.1) (page_type_values s values))) as Hn.
  { apply (omap_nodup (fun p => id_to_string (pt_id p))).
    - intros p x. destruct (values !! _); by intros [= <-].
    - rewrite <- (map_map pt_id id_to_string). apply NoDup_fmap_2_strong; [|done].
      intros x y _ _. apply id_to_string_inj. }
  eexists. split; [apply restore_page_types_inserts; [|done|]|].
  - intros x [Hx _]%page_type_row. unfold known_page_type. rewrite (proj1 Hb).
    apply bool_decide_eq_true_2, elem_of_id_set. done.
  - intros x _. apply lookup_empty.
  - split.
    + intros p Hp. edestruct (inserts_lookup (fun x : PageTypeId * Z => id_to_string x.1) snd
        (page_type_values s values) ∅ (id_to_string p)) as [H1 H2]; [done|].
      destruct (values !! id_to_string p) as [v|] eqn:Hv.
      * apply (H1 (p, v)); [by apply page_type_row|done].
      * etrans; [apply H2|apply lookup_empty]. intros x [_ Hx]%page_type_row Heq.
        pose proof (eq_trans (eq_sym Hx) (f_equal (fun k => values !! k) Heq)) as Hc.
        simpl in Hc. by rewrite Hv in Hc.
    + intros Hk. apply inserts_rebuild; [done|..].
      * by intros x [_ Hx]%page_type_row.
      * intros k [v Hv]. destruct (Hk k) as (p & Hp & <-); [by exists v|]. exists (pt_id p, v).
        split; [|done]. apply page_type_row. split; [|done]. apply elem_of_map. by exists p.
Qed.

(** *** Transitions *)

Lemma find_transition t : t ∈ ctx_transitions (context s) ->
  find (fun x => bool_decide (transition_id x = transition_id t)) (ctx_transitions (context s)) = Some t.
Proof.
  intros Ht. destruct (find _ _) as [x|] eqn:Hx.
  - apply List.find_some in Hx as [Hx%list_elem_of_In Heq]. boolify. f_equal.
    eapply NoDup_map_inj; [apply Hctx|done..].
  - apply List.find_none with (x := t) in Hx; [|by apply list_elem_of_In]. by boolify.
Qed.

Lemma total_rows_known c : c ∈ cp_transition_counts (checkpoint_state s) ->
  transition_counts s !! id_to_string (st_transition_id c) = Some (import_count c) /\
  exists t, t ∈ ctx_transitions (context s) /\ transition_id t = st_transition_id c /\
    transition_name t = st_name c.
Proof.
  destruct (to_known _ (co_transitions _ _ Hok)) as [K1 _ _ _]. cbn [checkpoint_state cp_transition_counts].
  intros (n & -> & [k Hn]%elem_of_btree_values)%elem_of_map.
  destruct (K1 k n Hn) as (t & Ht & Hid & Hname & <-). simpl in *. rewrite <- Hid. split; [|by exists t].
  rewrite Hn. f_equal. unfold import_count, export_count. destruct n as [i m el sp]. simpl. f_equal.
  apply set_eq. intros u. by rewrite elem_of_list_to_set, elem_of_btree_elements.
Qed.

Lemma totals_size : size (transition_counts s) = length (ctx_transitions (context s)).
Proof.
  destruct (to_known _ (co_transitions _ _ Hok)) as [K1 K2 _ _]. simpl in *.
  rewrite <- (size_dom (D := gset string)).
  rewrite <- (length_map transition_id), <- (id_set_size (map transition_id _)) by apply Hctx.
  f_equal. apply set_eq. intros k. unfold id_set. rewrite elem_of_dom, elem_of_list_to_set, elem_of_map. split.
  - intros [n Hn]. destruct (K1 k n Hn) as (t & Ht & _ & _ & <-). exists (transition_id t).
    split; [done|]. apply elem_of_map. by exists t.
  - intros (id & -> & (t & -> & Ht)%elem_of_map). by apply K2.
Qed.

Lemma totals_restored :
  restore_transition_counts b (cp_transition_counts (checkpoint_state s)) = Ok (transition_counts s).
Proof.
  assert (NoDup (map (fun c => id_to_string (st_transition_id c))
    (cp_transition_counts (checkpoint_state s)))) as Hn.
  { cbn [checkpoint_state cp_transition_counts]. rewrite map_map. simpl.
    apply (btree_values_nodup (fun n => id_to_string (rt_transition_id n))). intros k n Hn.
    destruct (to_known _ (co_transitions _ _ Hok)) as [K1 _ _ _].
    by destruct (K1 k n Hn) as (t & _ & <- & _ & <-). }
  unfold restore_transition_counts. rewrite restore_counts_inserts; [|  |done|intros; apply lookup_empty].
  - rewrite (inserts_rebuild _ _ _ (transition_counts s)); [|done|..].
    + rewrite totals_size, (proj1 Hb), Nat.eqb_refl. done.
    + intros c Hc. by apply total_rows_known.
    + intros k [n Hk]. exists (export_count n). cbn [checkpoint_state cp_transition_counts]. split.
      * apply elem_of_map. exists n. split; [done|]. apply elem_of_btree_values. by exists k.
      * destruct (to_known _ (co_transitions _ _ Hok)) as [K1 _ _ _].
        destruct (K1 k n Hk) as (t & _ & Hid & _ & <-). simpl. by rewrite Hid.
  - intros c Hc. apply total_rows_known in Hc as (_ & t & Ht & Hid & Hname).
    exists t. split; [|done]. rewrite (proj1 Hb), <- Hid. by apply find_transition.
Qed.

(** A row of the page counts. *)
Lemma export_page_count_some row x : export_page_count s row = Some x ->
  count_row_key x = row.1 /\ x.2 = row.2 /\
  x.1.1 ∈ map transition_id (ctx_transitions (context s)).
Proof.
  destruct row as [[id u] n]. simpl. destruct (find _ _) as [t|] eqn:Ht; [|done]. intros [= <-].
  apply List.find_some in Ht as [Ht%list_elem_of_In Hid]. boolify. split_and!; [|done|].
  - unfold count_row_key. simpl. by rewrite Hid.
  - apply elem_of_map. by exists t.
Qed.

Lemma elem_of_count_rows x : x ∈ cp_transition_page_counts (checkpoint_state s) ->
  transition_page_counts s !! count_row_key x = Some x.2 /\
  x.1.1 ∈ map transition_id (ctx_transitions (context s)).
Proof.
  cbn [checkpoint_state cp_transition_page_counts]. intros (row & Hrow & Hx)%list_elem_of_omap.
  apply export_page_count_some in Hx as (-> & -> & ?). split; [|done].
  rewrite (sort_by_perm _ _) in Hrow. destruct row. by apply elem_of_map_to_list in Hrow.
Qed.

Lemma count_rows_nodup : NoDup (map count_row_key (cp_transition_page_counts (checkpoint_state s))).
Proof.
  cbn [checkpoint_state cp_transition_page_counts]. apply (omap_nodup fst).
  - intros row x Hx. by apply export_page_count_some in Hx as (-> & _).
  - rewrite (sort_by_perm _ _). apply NoDup_fst_map_to_list.
Qed.

Lemma page_counts_restored :
  restore_page_counts b ∅ (cp_transition_page_counts (checkpoint_state s)) = Ok (transition_page_counts s).
Proof.
  rewrite restore_page_counts_inserts.
  - f_equal. apply inserts_rebuild; [apply count_rows_nodup|..].
    + intros x Hx. by apply elem_of_count_rows.
    + intros k [n Hk].
      destruct (to_known _ (co_transitions _ _ Hok)) as [_ _ K3 _].
      destruct (K3 k) as (t & Ht & Hid); [by exists n|].
      destruct (export_page_count s (k, n)) as [x|] eqn:Hx.
      * exists x. split; [|by apply export_page_count_some in Hx as (-> & _)].
        cbn [checkpoint_state cp_transition_page_counts]. apply list_elem_of_omap. exists (k, n).
        split; [|done]. rewrite (sort_by_perm _ _). by apply elem_of_map_to_list.
      * exfalso. destruct k as [id u]. simpl in Hx, Hid. destruct (find _ _) eqn:Hf; [done|].
        apply List.find_none with (x := t) in Hf; [|by apply list_elem_of_In]. boolify. done.
  - intros x [Hv Hid]%elem_of_count_rows. split.
    + destruct (ur_sources s Hurls (count_row_key x)) as [Hr _]; [by rewrite Hv|done].
    + unfold known_transition. rewrite (proj1 Hb). by apply bool_decide_eq_true_2, elem_of_id_set.
  - apply count_rows_nodup.
  - intros x _. apply lookup_empty.
Qed.
End own_checkpoint.

(** ** The round trip *)

(** The statistics a checkpoint carries beside the core. *)
Definition statistics (s : SemanticTraversal) :=
  ([urls_discovered s; duplicates_prevented s; robots_excluded s; provider_errors s; external_urls s;
    blocked_urls s; peak_new_from_page s; pagination_truncated s],
   time_budget_hit s, duration_work_not_expanded s).

(** The same order of the same entries. *)
Lemma queue_unique s l : queue_ok s -> (forall k e, queued s !! k = Some e -> qe_canonical_url e = k) ->
  StronglySorted (cmp_le entry_cmp) l -> l ≡ₚ map snd (map_to_list (queued s)) -> l = queue s.
Proof.
  intros [Hs Hp] Hk Hsl Hpl. apply (sorted_perm_unique_on entry_cmp); [|done|done|by rewrite Hpl, Hp].
  assert (forall e, e ∈ l -> queued s !! qe_canonical_url e = Some e) as Hin.
  { intros e He. rewrite Hpl in He. apply elem_of_map in He as ([k x] & -> & Hx%elem_of_map_to_list).
    simpl. by rewrite (Hk k x Hx). }
  intros x y Hx Hy Hc. unfold entry_cmp, cmp_on in Hc. apply cmp_eq in Hc. injection Hc as _ _ Hc _.
  apply Hin in Hx. apply Hin in Hy. congruence.
Qed.

Lemma restored_sets_own d s : core_ok d (core s) -> unmatched_urls s = ∅ -> ambiguous_urls s = ∅ ->
  restored_sets_invalid (admitted s) (seen s) (sampled s) (expanded s) (matching_urls s)
    (unmatched_urls s) (ambiguous_urls s) (in_scope_urls s) = false.
Proof.
  intros [[_ _ I3 I4 I5] _ _ [M1 M2 M3 _]] Hun Ham. simpl in *. unfold restored_sets_invalid.
  rewrite Hun, Ham. apply negb_false_iff. rewrite !andb_true_iff, !bool_decide_eq_true.
  split_and!; set_solver.
Qed.

Lemma restored_counts_own d s b : core_ok d (core s) -> same_request s b ->
  restored_counts_invalid b (checkpoint_state s) (admitted s) (sampled s) = false.
Proof.
  intros [_ [B1 B2 B3 B4 _ _] _ _] [Hbc _]. simpl in *. unfold restored_counts_invalid.
  cbn [checkpoint_state cp_consumed_bytes cp_pages_sampled cp_newly_enqueued_urls].
  rewrite Hbc, B2, B3, !Z.eqb_refl, (proj2 (Z.ltb_ge _ _)), (proj2 (Z.ltb_ge _ _)) by lia. done.
Qed.

Lemma restore_state_own `{!UuidLaws U} d s b selected :
  context_ok (context s) -> core_ok d (core s) -> queue_ok s ->
  NoDup (map pt_id (ctx_page_types (context s))) -> NoDup (selected_seed_ids s) ->
  eff_max_pages (limits (context s)) + Z.of_nat (length (selected_seed_ids s)) <= u64_max ->
  urls_restorable s -> same_request s b -> unmatched_urls s = ∅ -> ambiguous_urls s = ∅ ->
  exists s', restore_state (checkpoint_state s) selected b = Ok s' /\
    core s' = (core s) <| c_provider := provider b |> /\ queue s' = queue s /\
    statistics s' = statistics s /\ start_millis s' = start_millis b /\ clock s' = clock b /\
    (forall p, p ∈ map pt_id (ctx_page_types (context s)) ->
      page_type_sampled s' !! id_to_string p = page_type_sampled s !! id_to_string p /\
      page_type_discovered s' !! id_to_string p = page_type_discovered s !! id_to_string p).
Proof.
  intros Hctx Hok Hq Hpt Hids Hroom Hurls Hb Hun Ham. pose proof Hok as [[I1 I2 I3 I4 I5] [B1 B2 B3 B4 B5 B6] [_ _ _ [_ _ _ K4]] [M1 M2 M3 M4]].
  simpl in *. unfold restore_state. destruct Hb as [Hbc Hbs]. rewrite Hbs.
  cbn [checkpoint_state cp_selected_seed_ids
    admitted_canonical_urls seen_canonical_urls sampled_canonical_urls expanded_canonical_urls
    matching_canonical_urls unmatched_canonical_urls ambiguous_canonical_urls in_scope_canonical_urls].
  rewrite id_set_size, Nat.eqb_refl, bool_decide_eq_false_2 by (done || (intros Hn; by apply Hn)).
  cbn [negb orb reject_if].
  assert (forall l, l ⊆ seen s -> collect_urls (btree_elements l) = Ok l) as Hcol.
  { intros l Hl. apply collect_urls_valid. intros u Hu. by apply (ur_seen s Hurls), Hl. }
  assert (forall l, l ⊆ in_scope_urls s -> collect_urls (btree_elements l) = Ok l) as Hcol'.
  { intros l Hl. apply collect_urls_valid. intros u Hu. by apply (ur_in_scope s Hurls), Hl. }
  rewrite (Hcol (admitted s)), (Hcol (seen s)), (Hcol (sampled s)), (Hcol (expanded s)) by
    (done || (etrans; [eassumption|]; done) || (do 2 (etrans; [eassumption|]); done)).
  rewrite (Hcol' (matching_urls s)), (Hcol' (unmatched_urls s)), (Hcol' (ambiguous_urls s)),
    (Hcol' (in_scope_urls s)) by (done || by rewrite M1).
  rewrite (restored_sets_own d s), (restored_counts_own d s b) by (done || by split).
  cbn [reject_if]. rewrite restore_pending_inserts, (pending_rebuilds d s); [|done|done| | |].
  2:{ intros e He. by eapply pending_valid. }
  2:{ by eapply pending_nodup. }
  2:{ intros e _. apply lookup_empty. }
  rewrite (page_counts_restored d s b) by (done || by split).
  set (b' := rebuild_queue (b <| queued := queued s |>)).
  assert (queue b' = queue s) as Hqb.
  { apply queue_unique; [done|intros k e He; by destruct (I1 k e He)|by apply sort_by_Sorted, _|].
    simpl. by rewrite (sort_by_perm _ _), btree_values_perm. }
  match goal with |- context [restore_page_type_counts ?x ∅ (cp_page_type_sampled _)] => set (x' := x) end.
  assert (same_request s x') as Hx by by split.
  destruct (page_type_rows_restored s x' Hpt Hx (page_type_sampled s)) as (m1 & Hm1 & Hv1 & _).
  destruct (page_type_rows_restored s x' Hpt Hx (page_type_discovered s)) as (m2 & Hm2 & Hv2 & _).
  destruct (page_type_rows_restored s x' Hpt Hx (page_type_scheduled s)) as (m3 & Hm3 & _ & Hv3).
  change (cp_page_type_sampled (checkpoint_state s)) with (page_type_values s (page_type_sampled s)).
  change (cp_page_type_discovered (checkpoint_state s)) with (page_type_values s (page_type_discovered s)).
  change (cp_page_type_scheduled (checkpoint_state s)) with (page_type_values s (page_type_scheduled s)).
  rewrite Hm1, Hm2, Hm3, (Hv3 K4), (totals_restored d s x') by done. eexists. split; [reflexivity|].
  split_and!; [|exact Hqb|done..|].
  - unfold core. simpl. by rewrite Hbc, Hbs.
  - intros p Hin. split; [exact (Hv1 p Hin)|exact (Hv2 p Hin)].
Qed.

(** C35. A checkpoint restores the traversal it was taken of.  When a reachable traversal has no
    unmatched or ambiguous URL, its URLs are read back without a fragment and within the
    length the restoration accepts, its seeds and page types have distinct ids and its
    order numbers have room in a [u64],
    restoring its checkpoint under the same snapshot, seeds and limits succeeds with the same
    core (queue, identity sets, budgets, transition and page-type counters, match sets), the
    same order of the queue and the same statistics, under the new provider and clock, the time
    already spent deducted. *)
Theorem checkpoint_round_trip `{!UuidLaws U} (snapshot : CrawlerSemanticSnapshot)
    (ids : list SeedId) (limits : EffectiveDiscoveryPreviewLimits)
    (prov prov' : nat -> DiscoveryPreviewObservationRequest ->
      result DiscoveryPreviewProviderError DiscoveryPreviewProviderOutcome)
    (clk clk' : nat -> Z) (s0 s : SemanticTraversal)
    (Ht : typed_snapshot snapshot limits) (Hp : typed_provider prov)
    (Hs : for_frozen_snapshot snapshot ids limits prov clk = Ok s0) (Hr : reachable s0 s)
    (Hids : NoDup ids) (Hpt : NoDup (map record_id (snapshot_page_types snapshot)))
    (Hroom : eff_max_pages limits + Z.of_nat (length ids) <= u64_max)
    (Hurls : urls_restorable s) (Hun : unmatched_urls s = ∅) (Ham : ambiguous_urls s = ∅) :
  exists s', restore_from_checkpoint snapshot ids limits prov' clk' (checkpoint_state s) = Ok s' /\
    core s' = (core s) <| c_provider := prov' |> /\ queue s' = queue s /\
    statistics s' = statistics s /\
    start_millis s' = saturating_sub (clk' 0%nat) (fst (elapsed_millis s)) /\ clock s' = clk' /\
    (forall p, p ∈ map pt_id (ctx_page_types (context s)) ->
      page_type_sampled s' !! id_to_string p = page_type_sampled s !! id_to_string p /\
      page_type_discovered s' !! id_to_string p = page_type_discovered s !! id_to_string p).
Proof.
  pose proof Hs as Hs'.
  eapply for_frozen_snapshot_spec in Hs as (Hok0 & Hctx & Hsel & Hsids); [|done..].
  destruct (reachable_ok 0 s0 s Hok0 Hr) as (d & _ & [Hc _ Hok Hq]).
  destruct (reachable_request 0 s0 s Hok0 Hr) as [Hcs Hss].
  unfold restore_from_checkpoint. rewrite Hctx. apply is_ok_exists in Hsel as [selected ->].
  assert (selected_seed_ids s = ids) as Hi by congruence.
  cbn [checkpoint_state cp_selected_seed_ids]. rewrite Hi, bool_decide_eq_false_2 by (intros Hn; by apply Hn).
  cbn [reject_if]. rewrite <- Hcs.
  set (b := traversal_new _ _ _ _ _ _).
  destruct (restore_state_own d s b selected) as (s' & -> & Hrest); try done.
  - by rewrite Hcs, (from_snapshot_page_types _ _ _ Hctx).
  - by rewrite Hi.
  - rewrite Hi, Hcs. by rewrite (from_snapshot_limits _ _ _ Hctx).
  - by exists s'.
Qed.
End semantic_round_trip.

(** ** Witnesses on the shop *)

Section witnesses.
#[local] Existing Instances plain_uuid plain_url plain_regex plain_hosts plain_join.

Definition restorable_b (value : string) : bool :=
  is_ok (validate_url value) && negb (contains_ch "#" value).

Lemma restorable_b_ok value : restorable_b value = true -> restorable value.
Proof.
  unfold restorable_b. destruct (validate_url value) as [[]|] eqn:Hv; [|discriminate].
  intros Hf. split; [exact Hv|]. by apply negb_true_iff.
Qed.

(** The URLs of a traversal, listed. *)
Definition urls_restorable_b (s : SemanticTraversal) : bool :=
  forallb restorable_b (elements (seen s)) && forallb restorable_b (elements (in_scope_urls s))
  && forallb (fun x => restorable_b (qe_requested_url x.2)
       && match qe_parent_canonical_url x.2 with Some u => restorable_b u | None => true end)
     (map_to_list (queued s))
  && forallb (fun x => restorable_b x.1.2) (map_to_list (transition_page_counts s)).

Lemma urls_restorable_b_ok s : urls_restorable_b s = true -> urls_restorable s.
Proof.
  unfold urls_restorable_b. rewrite !andb_true_iff. intros [[[H1 H2] H3] H4].
  rewrite forallb_forall in H1. rewrite forallb_forall in H2. rewrite forallb_forall in H3.
  rewrite forallb_forall in H4. split.
  - intros u Hu. apply restorable_b_ok, H1, list_elem_of_In, elem_of_elements, Hu.
  - intros u Hu. apply restorable_b_ok, H2, list_elem_of_In, elem_of_elements, Hu.
  - intros k e He. apply elem_of_map_to_list, list_elem_of_In, H3, andb_true_iff in He as [Hr Hp].
    split; [apply restorable_b_ok, Hr|]. intros u Hu. simpl in Hp. rewrite Hu in Hp.
    apply restorable_b_ok, Hp.
  - intros k [n Hn]. apply elem_of_map_to_list, list_elem_of_In, H4 in Hn. apply restorable_b_ok, Hn.
Qed.

(** Where the shop stands after a number of units. *)
Definition shop_after (links : list ObservedLink) (fuel : nat) : option SemanticTraversal :=
  match shop_start links with Ok s0 => Some (run_units fuel s0).2 | Err _ => None end.

Lemma shop_after_reachable links fuel s : shop_after links fuel = Some s ->
  exists s0, shop_start links = Ok s0 /\ reachable s0 s.
Proof.
  unfold shop_after. destruct (shop_start links) as [s0|]; [|discriminate]. intros [= <-].
  exists s0. split; [reflexivity|]. eapply run_units_reachable; [constructor|apply run_units_runs].
Qed.

Lemma shop_after_some links fuel (P : SemanticTraversal -> bool) :
  match shop_after links fuel with Some s => P s | None => false end = true ->
  exists s0 s, shop_start links = Ok s0 /\ reachable s0 s /\ P s = true.
Proof.
  destruct (shop_after links fuel) as [s|] eqn:Hs; [|discriminate]. intros HP.
  apply shop_after_reachable in Hs as (s0 & Hs0 & Hr). by exists s0, s.
Qed.

Lemma unmatched_checkpoint_rejected_witness : exists s0 s,
  shop_start shop_links_unmatched = Ok s0 /\ reachable s0 s /\
  restore_from_checkpoint shop_snapshot [seed_id shop_seed] shop_limits
    (shop_provider shop_links_unmatched) (fun _ => 5) (checkpoint_state s) = Err PersistedStateInvalid.
Proof.
  destruct (shop_after_some shop_links_unmatched 2
    (fun s => bool_decide (unmatched_urls s ∪ ambiguous_urls s <> ∅))) as (s0 & s & Hs & Hr & Hne).
  { vm_compute. reflexivity. }
  exists s0, s. split; [exact Hs|]. split; [exact Hr|].
  exact (unmatched_checkpoint_rejected _ _ _ _ _ _ _ s0 s shop_typed
    (shop_provider_typed shop_links_unmatched) Hs Hr (bool_decide_eq_true_1 _ Hne)).
Defined.

Lemma checkpoint_round_trip_witness : exists s0 s s',
  shop_start shop_links = Ok s0 /\ reachable s0 s /\ queue s <> [] /\
  restore_from_checkpoint shop_snapshot [seed_id shop_seed] shop_limits
    (shop_provider []) (fun _ => 5) (checkpoint_state s) = Ok s' /\ queue s' = queue s.
Proof.
  destruct (shop_after_some shop_links 2 (fun s => urls_restorable_b s
    && bool_decide (unmatched_urls s = ∅) && bool_decide (ambiguous_urls s = ∅)
    && negb (Nat.eqb (length (queue s)) 0))) as (s0 & s & Hs & Hr & HP).
  { vm_compute. reflexivity. }
  apply andb_true_iff in HP as [HP Hq]. apply andb_true_iff in HP as [HP Ham].
  apply andb_true_iff in HP as [Hurls Hun].
  destruct (checkpoint_round_trip _ _ _ _ (shop_provider []) _ (fun _ => 5) s0 s shop_typed
    (shop_provider_typed shop_links) Hs Hr) as (s' & Hs' & _ & Hq' & _).
  - apply NoDup_singleton.
  - apply (bool_decide_eq_true_1 _). vm_compute. reflexivity.
  - vm_compute. discriminate.
  - exact (urls_restorable_b_ok s Hurls).
  - exact (bool_decide_eq_true_1 _ Hun).
  - exact (bool_decide_eq_true_1 _ Ham).
  - exists s0, s, s'. split; [exact Hs|]. split; [exact Hr|]. split; [|split; [exact Hs'|exact Hq']].
    intros He. rewrite He in Hq. discriminate.
Defined.
End witnesses.
