(* ===== verification/LinkTheorems.v ===== *)
(** * Theorems on the links of a page

    What the traversal expands of an observed page: each link once, and a failure when
    the domain scope cannot classify one. *)

From S2P Require Import Prelude Externals Base Instances Guardrails Canonicalization DomainScope UrlMatcher Crawler Preview SemanticTraversal PreviewExample.

(** ** Sorting and deduplication keep the first of equal elements *)

Section first_of_equals.
Context {A : Type} (c : A -> A -> comparison) `{!PreCmp c}.

(** The elements of a list that compare equal to [x], in their order. *)
Definition equals (x : A) (l : list A) : list A := List.filter (fun y => match c x y with Eq => true | _ => false end) l.

Lemma cmp_eq_sym x y : c x y = Eq -> c y x = Eq.
Proof. rewrite (cmp_opp (c := c) y x). by intros ->. Qed.

Lemma cmp_eq_le x y : c x y = Eq -> cmp_le c x y.
Proof. unfold cmp_le. by intros ->. Qed.

Lemma cmp_le_both x y : cmp_le c x y -> cmp_le c y x -> c x y = Eq.
Proof. unfold cmp_le. rewrite (cmp_opp (c := c) y x). by destruct (c x y). Qed.

Lemma cmp_eq_trans x y z : c x y = Eq -> c y z = Eq -> c x z = Eq.
Proof.
  intros H1 H2. apply cmp_le_both; eapply (cmp_le_trans (c := c)) with (y := y);
    apply cmp_eq_le; first [done|by apply cmp_eq_sym].
Qed.

Lemma equals_insert x y l : equals x (insert_sorted c y l) = equals x (y :: l).
Proof.
  induction l as [|z l IH]; [done|]. cbn [insert_sorted].
  destruct (c y z) eqn:Hyz; [done|done|]. unfold equals in *. cbn [List.filter] in *. rewrite IH.
  destruct (c x y) eqn:Hxy; [|done..]. destruct (c x z) eqn:Hxz; [|done..].
  apply cmp_eq_sym in Hxy. by rewrite (cmp_eq_trans y x z) in Hyz.
Qed.

(** The sort is stable. *)
Lemma equals_sort x l : equals x (sort_by c l) = equals x l.
Proof.
  induction l as [|y l IH]; [done|]. unfold sort_by in *. cbn [foldr]. rewrite equals_insert.
  unfold equals in *. cbn [List.filter]. by rewrite IH.
Qed.

Lemma cmp_lt_le_trans x y z : c x y = Lt -> cmp_le c y z -> c x z = Lt.
Proof.
  intros H1 H2. assert (cmp_le c x z) as Hle.
  { eapply (cmp_le_trans (c := c)); [|exact H2]. unfold cmp_le. by rewrite H1. }
  unfold cmp_le in Hle. destruct (c x z) eqn:Hz; [|done..]. exfalso.
  assert (c x y = Eq); [|congruence]. apply cmp_le_both; [unfold cmp_le; by rewrite H1|].
  eapply (cmp_le_trans (c := c)); [exact H2|]. apply cmp_eq_le. by apply cmp_eq_sym.
Qed.

Lemma dedup_subset x l : x ∈ dedup c l -> x ∈ l.
Proof.
  induction l as [|y l IH]; [done|]. cbn [dedup]. destruct (dedup c l) as [|z k]; [set_solver|].
  destruct (c y z); set_solver.
Qed.

Lemma cmp_eq_lt_trans x y z : c x y = Eq -> c y z = Lt -> c x z = Lt.
Proof.
  intros H1 H2. assert (cmp_le c x z) as Hle.
  { eapply (cmp_le_trans (c := c)); [by apply cmp_eq_le|]. unfold cmp_le. by rewrite H2. }
  unfold cmp_le in Hle. destruct (c x z) eqn:Hz; [|done..]. exfalso.
  apply cmp_eq_sym in H1. pose proof (cmp_eq_trans y x z H1 Hz). congruence.
Qed.

(** A least element ahead of a strictly sorted deduplication: it stays, and what compares
    equal to it goes. *)
Lemma dedup_cons y l : StronglySorted (fun a b => c a b = Lt) (dedup c l) ->
  (forall w, w ∈ l -> cmp_le c y w) ->
  exists k, dedup c (y :: l) = y :: k /\ StronglySorted (fun a b => c a b = Lt) (y :: k) /\
    forall w, w ∈ k <-> w ∈ dedup c l /\ c y w = Lt.
Proof.
  intros Hs Hy. cbn [dedup]. destruct (dedup c l) as [|z m] eqn:Hd.
  { exists []. split; [done|]. split; [repeat constructor|]. set_solver. }
  inversion Hs as [|? ? Hm Hz]; subst. pose proof (Hz) as Hz'. rewrite Forall_forall in Hz'.
  assert (cmp_le c y z) as Hyz by (apply Hy, dedup_subset; rewrite Hd; left).
  destruct (c y z) eqn:Hc; [| |by unfold cmp_le in Hyz].
  - assert (forall w, w ∈ m -> c y w = Lt) as Hym
      by (intros w Hw; apply (cmp_eq_lt_trans y z w Hc); auto).
    exists m. split; [done|]. split; [constructor; [done|by apply Forall_forall]|].
    intros w. split; [intros Hw; split; [by right|auto]|]. intros [[->|]%elem_of_cons ?]; [congruence|done].
  - assert (forall w, w ∈ z :: m -> c y w = Lt) as Hym.
    { intros w [->|Hw]%elem_of_cons; [done|]. apply (cmp_lt_le_trans y z w Hc).
      unfold cmp_le. by rewrite Hz'. }
    exists (z :: m). split; [done|]. split; [constructor; [done|by apply Forall_forall]|].
    intros w. split; [auto|by intros [? _]].
Qed.

(** Deduplicating a sorted list keeps the first of each run of equal elements. *)
Lemma dedup_sorted l : StronglySorted (cmp_le c) l ->
  StronglySorted (fun x y => c x y = Lt) (dedup c l) /\
  forall x, x ∈ dedup c l <-> head (equals x l) = Some x.
Proof.
  induction 1 as [|y l Hl [IH1 IH2] Hy]; [split; [cbn; constructor|intros x; cbn; set_solver]|].
  rewrite Forall_forall in Hy.
  destruct (dedup_cons y l IH1 Hy) as (k & -> & Hs & Hk). split; [done|]. intros x.
  rewrite elem_of_cons, Hk, IH2. unfold equals. cbn [List.filter].
  destruct (c x y) eqn:Hxy; cbn [head].
  - split; [intros [->|[_ Hlt]]; [done|]|intros [= ->]; by left].
    apply cmp_eq_sym in Hxy. congruence.
  - split; [intros [->|[? _]]; [by rewrite (cmp_refl c) in Hxy|done]|]. intros Hx. right.
    split; [done|]. apply IH2, dedup_subset, Hy in Hx. unfold cmp_le in Hx.
    rewrite (cmp_opp (c := c) y x), Hxy in Hx. done.
  - split; [intros [->|[? _]]; [by rewrite (cmp_refl c) in Hxy|done]|]. intros Hx. right.
    split; [done|]. by rewrite (cmp_opp (c := c) y x), Hxy.
Qed.
End first_of_equals.

Section link_theorems.
Context `{U : UuidLib} `{L : UrlLib} `{R : RegexLib} `{H : HostLib} `{J : !UrlJoin L}.

(** ** The links of an observation *)

#[export] Instance link_cmp_pre : PreCmp link_cmp.
Proof. unfold link_cmp. apply _. Qed.

#[export] Instance observed_link_eq_dec : EqDecision ObservedLink.
Proof. solve_decision. Defined.

Lemma link_cmp_eq a b : link_cmp a b = Eq <-> link a = link b.
Proof.
  unfold link_cmp, cmp_on. split.
  - intros Hc%cmp_eq. destruct (link a), (link b). simpl in Hc. congruence.
  - intros ->. apply (cmp_refl _).
Qed.

Lemma elem_of_equals l x ls : x ∈ equals link_cmp l ls <-> x ∈ ls /\ link x = link l.
Proof.
  unfold equals. rewrite list_elem_of_In, filter_In, <- list_elem_of_In.
  split; intros [Hx Hc]; (split; [done|]).
  - destruct (link_cmp l x) eqn:Hl; [|done..]. symmetry. by apply link_cmp_eq.
  - by rewrite (proj2 (link_cmp_eq l x)).
Qed.

Lemma head_some {A} (l : list A) x : head l = Some x -> x ∈ l.
Proof. destruct l; [done|]. intros [= ->]. left. Qed.

Lemma head_exists {A} (l : list A) x : x ∈ l -> exists y, head l = Some y.
Proof. destruct l as [|y l]; [by intros ?%not_elem_of_nil|]. by exists y. Qed.

(** The first link of a list whose flag is [flag] throughout. *)
Lemma head_uniform flag l ls : Forall (fun x => is_pagination x = flag) ls ->
  (head (equals link_cmp l ls) = Some l <->
   is_pagination l = flag /\ exists x, x ∈ ls /\ link x = link l).
Proof.
  rewrite Forall_forall. intros Hf. split.
  - intros Hl%head_some%elem_of_equals. destruct Hl as [Hl _]. split; [by apply Hf|by exists l].
  - intros [Hl (x & Hx & Hk)]. destruct (head_exists (equals link_cmp l ls) x) as [y Hy];
      [by apply elem_of_equals|]. rewrite Hy. f_equal. apply head_some, elem_of_equals in Hy as [Hy Hyl].
    apply Hf in Hy. destruct y, l. simpl in *. congruence.
Qed.

(** The links of a page are expanded in strictly increasing order, each href and selector
    once.  One is treated as pagination exactly when it is a pagination target and no link the
    page discovered has its href and selector: where both do, the flag of the pagination
    target is lost, since [dedup_by] hands the later element over first and drops it. *)
Theorem collected_links_exact (o : PageObservation) :
  StronglySorted (fun a b => link_cmp a b = Lt) (collect_links o) /\
  forall l, l ∈ collect_links o <->
    (is_pagination l = false /\ link l ∈ discovered_links o) \/
    (is_pagination l = true /\ ~ (link l ∈ discovered_links o) /\
     exists p, p ∈ pagination_observations o /\ pagination_link p = Some l).
Proof.
  unfold collect_links. set (regular := map _ _). set (targets := omap _ _).
  destruct (dedup_sorted link_cmp (sort_by link_cmp (regular ++ targets))) as [Hs Hin];
    [apply sort_by_Sorted, _|].
  split; [exact Hs|]. intros l. rewrite Hin, (equals_sort link_cmp).
  assert (Forall (fun x => is_pagination x = false) regular) as Hreg.
  { apply Forall_map, Forall_true. done. }
  assert (Forall (fun x => is_pagination x = true) targets) as Htar.
  { apply Forall_forall. intros x (p & _ & Hp)%list_elem_of_omap. unfold pagination_link in Hp.
    destruct (target_url p); by simplify_eq/=. }
  assert ((exists x, x ∈ regular /\ link x = link l) <-> link l ∈ discovered_links o) as Hr.
  { split; [intros (x & (y & -> & Hy)%elem_of_map & <-); done|]. intros Hl.
    eexists. split; [apply elem_of_map; by exists (link l)|done]. }
  assert (is_pagination l = true -> ((exists x, x ∈ targets /\ link x = link l) <->
    exists p, p ∈ pagination_observations o /\ pagination_link p = Some l)) as Ht.
  { intros Hl. split.
    - intros (x & Hx & Hk). rewrite Forall_forall in Htar. pose proof (Htar x Hx) as Hxf.
      apply list_elem_of_omap in Hx as (p & Hp & Hpx). exists p. split; [done|].
      rewrite Hpx. destruct x, l. simpl in *. congruence.
    - intros (p & Hp & Hpl). exists l. split; [|done]. apply list_elem_of_omap. by exists p. }
  assert (equals link_cmp l (regular ++ targets)
    = equals link_cmp l regular ++ equals link_cmp l targets) as -> by apply List.filter_app.
  destruct (decide (link l ∈ discovered_links o)) as [Hd|Hd].
  - assert (head (equals link_cmp l regular ++ equals link_cmp l targets)
      = head (equals link_cmp l regular)) as ->.
    { apply Hr in Hd as (x & Hx & Hk). destruct (head_exists (equals link_cmp l regular) x) as [y Hy];
        [by apply elem_of_equals|]. by destruct (equals link_cmp l regular). }
    rewrite (head_uniform false) by done. rewrite Hr. naive_solver.
  - assert (equals link_cmp l regular = []) as ->.
    { destruct (equals link_cmp l regular) as [|x k] eqn:He; [done|]. exfalso. apply Hd, Hr.
      exists x. apply elem_of_equals. rewrite He. left. }
    cbn [app]. rewrite (head_uniform true) by done. naive_solver.
Qed.

(** ** A link the domain scope cannot classify *)

(** A policy on registrable domains fails on a host without one. *)
Lemma classify_unregistrable self u seeds subdomains h e :
  policy self = SameRegistrableDomain subdomains -> normalized_url_host u = Ok h ->
  registrable_domain h = Err e -> exists e', classify self u seeds = Err e'.
Proof.
  intros Hp Hh Hr. unfold classify. rewrite Hh, Hp.
  destruct (scope_validate self); simpl; [|eauto]. destruct (validate_crawl_url u); simpl; [|eauto].
  destruct (seed_hosts seeds) as [hosts|]; simpl; [|eauto].
  destruct (reject_if _ _); simpl; [|eauto]. destruct (collect _ _); simpl; [|eauto].
  rewrite Hr. simpl. eauto.
Qed.

(** The links before one are expanded as if it were not there. *)
Lemma expand_links_app entry source m p base ls1 ls2 new truncated s n s1 :
  expand_links entry source m p base ls1 new truncated s = Ok (n, s1) ->
  exists truncated', expand_links entry source m p base (ls1 ++ ls2) new truncated s
    = expand_links entry source m p base ls2 n truncated' s1.
Proof.
  revert new truncated s. induction ls1 as [|l ls1 IH]; intros new truncated s; cbn [expand_links app].
  { intros [= -> ->]. by exists truncated. }
  destruct (_ <=? _)%nat; [apply IH|]. destruct (expand_retained_link _ _ _ _ _ _ _) as [[added s2]|];
    [apply IH|done].
Qed.

(** One link the scope cannot classify fails the expansion of the whole page.  Under a policy
    on registrable domains, once the links before it are expanded and provenance is not yet
    truncated, a resolvable link to a host that has no registrable domain (a public suffix such as
    [github.io]) ends the expansion with [PersistedStateInvalid], whatever links follow; it is not
    recorded as an external or invalid link. *)
Theorem unclassifiable_link_fails_page (entry : QueueEntry) (source : ObservedSource)
    (m : PageTypeMatchEvidence) (p : PageTypeId) (base : url)
    (ls1 ls2 : list TraversalObservedLink) (l : TraversalObservedLink) (s s1 : SemanticTraversal)
    (n : Z) (resolved : string) (r : CanonicalizationResult) (subdomains : gset string)
    (h : string) (e : ProductError)
    (Hreach : expand_links entry source m p base ls1 0 false s = Ok (n, s1))
    (Hroom : (length (paths s1) < MAX_PREVIEW_PROVENANCE_EDGES)%nat)
    (Hlink : resolve_link s1 base (link l) = Some (resolved, r))
    (Hpolicy : policy (domain_scope (ctx_version (context s1))) = SameRegistrableDomain subdomains)
    (Hhost : normalized_url_host (result_canonical_url r) = Ok h)
    (Hsuffix : registrable_domain h = Err e) :
  expand_links entry source m p base (ls1 ++ l :: ls2) 0 false s = Err PersistedStateInvalid.
Proof.
  destruct (expand_links_app entry source m p base ls1 (l :: ls2) 0 false s n s1 Hreach) as [tr ->].
  cbn [expand_links]. set (s2 := s1 <| urls_discovered ::= _ |>).
  change (paths s2) with (paths s1). rewrite (proj2 (Nat.leb_gt _ _)) by done.
  unfold expand_retained_link. change (resolve_link s2) with (resolve_link s1). rewrite Hlink.
  unfold classify_scope. change (context s2) with (context s1).
  destruct (classify_unregistrable (domain_scope (ctx_version (context s1))) (result_canonical_url r)
    (version_seeds (ctx_version (context s1))) subdomains h e) as [e' ->]; done.
Qed.
End link_theorems.

(** ** Witnesses *)

Section witnesses.
#[local] Existing Instances plain_uuid plain_url plain_regex plain_join.

(** [github.io] is a public suffix. *)
Definition suffix_hosts : HostLib := {|
  parses_as_ip _ := false;
  psl_domain h := if String.eqb h "github.io" then None else plain_psl_domain h
|}.

(** The home page of the shop, under a policy on registrable domains. *)
Definition suffix_start : SemanticTraversal :=
  traversal_new
    {| ctx_snapshot :=
         {| snapshot_version :=
              {| version_id := version_id shop_version; version_crawler_id := version_crawler_id shop_version;
                 version_state := version_state shop_version; version_seeds := version_seeds shop_version;
                 page_type_ids := page_type_ids shop_version;
                 transition_ids := transition_ids shop_version; canonicalization_policy_id := None;
                 domain_scope_id := None;
                 canonicalization_policy := canonicalization_policy shop_version;
                 domain_scope := {| scope_version := DOMAIN_SCOPE_POLICY_VERSION;
                                   policy := SameRegistrableDomain ∅ |};
                 version_guardrails := version_guardrails shop_version |};
            snapshot_page_types := snapshot_page_types shop_snapshot;
            snapshot_transitions := snapshot_transitions shop_snapshot; config_hash := "hash" |};
       ctx_page_types := map domain_page_type (snapshot_page_types shop_snapshot);
       ctx_transitions := shop_transitions;
       graph := {| transitions := shop_transitions |}; limits := shop_limits |}
    [seed_id shop_seed] (shop_provider []) (fun _ => 0) 1 0.

Definition suffix_link : TraversalObservedLink :=
  {| link := shop_link "http://github.io/" "a.item"; is_pagination := false |}.

Lemma unclassifiable_link_fails_page_witness : exists entry source m p base,
  expand_links (H := suffix_hosts) entry source m p base
    ([] ++ suffix_link :: [{| link := shop_link "/items/1" "a.item"; is_pagination := false |}])
    0 false suffix_start = Err PersistedStateInvalid.
Proof.
  set (base := shop_url "/" eq_refl).
  assert (is_ok (match resolve_link suffix_start base (link suffix_link) with
    | Some (_, r) => match normalized_url_host (result_canonical_url r) with
        | Ok h => if String.eqb h "github.io" then Ok tt else Err tt | Err _ => Err tt end
    | None => Err tt end) = true) as Hok.
  { vm_compute. reflexivity. }
  destruct (resolve_link suffix_start base (link suffix_link)) as [[resolved r]|] eqn:Hr; [|discriminate].
  destruct (normalized_url_host (result_canonical_url r)) as [h|] eqn:Hh; [|discriminate].
  destruct (String.eqb h "github.io") eqn:Hs; [|discriminate]. apply String.eqb_eq in Hs.
  exists (root_entry 0 shop_seed),
    {| source_requested := "http://shop.example.com/"; source_final_url := None;
       source_canonical := "http://shop.example.com/" |},
    {| match_decision := StatusUnmatched; winner := None; match_candidates := [] |}, home_type, base.
  eapply (unclassifiable_link_fails_page (H := suffix_hosts)).
  - reflexivity.
  - apply Nat.ltb_lt. vm_compute. reflexivity.
  - exact Hr.
  - reflexivity.
  - exact Hh.
  - subst h. vm_compute. reflexivity.
Defined.
End witnesses.
