(* ===== verification/StructuralFacts.v ===== *)
(** * Structural facts of a crawl

    [crates/erabi-crawler/src/finalization.rs]: the facts a finished crawl is judged by,
    rebuilt from its executions, discovery evidence, traversal control and logical work,
    and [complete_snapshot_input] of [crates/erabi-jobs/src/production/finalization.rs],
    which hands them to the decision of [Guardrails.v].

    A [BTreeSet<String>] is a [gset], a [BTreeMap] a [gmap]; run identifiers are compared
    by their text, as in [Traversal.v]. *)

From S2P Require Import Prelude Externals Base Instances Snapshot Guardrails TraversalTables Runs.
From S2P Require Import TraversalStore Traversal CrawlExecution.

Record CrawlStructuralFacts := {
  facts_status : CrawlRunStatus;
  facts_pages_planned : Z;
  facts_pages_completed : Z;
  facts_pagination_truncation : Z;
  facts_unresolved_partial : Z;
  facts_page_type_ambiguity : Z
}.

#[export] Instance facts_eq_dec : EqDecision CrawlStructuralFacts.
Proof. solve_decision. Defined.

Inductive CrawlStructuralFactsError := InconsistentDurableState.

Inductive DurablePageOutcome := OutcomeFailed | OutcomePartial | OutcomeCompleted.

Definition rank (o : DurablePageOutcome) : Z :=
  match o with OutcomeFailed => 0 | OutcomePartial => 1 | OutcomeCompleted => 2 end.

Definition page_outcome (o : CrawlExecutionOutcome) : DurablePageOutcome :=
  match o with
  | ExecutionCompleted => OutcomeCompleted
  | ExecutionPartial => OutcomePartial
  | ExecutionFailed | ExecutionCancelled => OutcomeFailed
  end.

Definition count (n : nat) : result CrawlStructuralFactsError Z :=
  if Z.of_nat n <=? u64_max then Ok (Z.of_nat n) else Err InconsistentDurableState.

Definition ensure_counts_are_coherent (planned completed : Z)
    : result CrawlStructuralFactsError unit :=
  reject_if (planned <? completed) InconsistentDurableState.

Definition ensure_run_id (expected : option string) (actual : string)
    : result CrawlStructuralFactsError unit :=
  reject_if (match expected with Some run => negb (String.eqb run actual) | None => false end)
    InconsistentDurableState.

(** The set of the values [f] gives for the elements of [l]: a [for] loop that inserts. *)
Definition set_of {A} (f : A -> option string) (l : list A) : gset string :=
  list_to_set (omap f l).

Section facts.
Context `{U : UuidLib} `{L : UrlLib}.

(** ** Validation *)

Definition validate_fragment_free (value : string) : result CrawlStructuralFactsError unit :=
  reject_if (contains_ch "#" value || is_none (url_parse value)) InconsistentDurableState.

Definition validate_execution (r : CrawlExecutionRecord) : result CrawlStructuralFactsError unit :=
  let? _ := validate_fragment_free (exec_requested_url r) in
  let? _ := validate_fragment_free (exec_canonical_url r) in
  reject_if (match exec_observed_final_url r with
    | Some value => contains_ch "#" value
    | None => false
    end) InconsistentDurableState.

Definition execution_run (r : CrawlExecutionRecord) : string := id_to_string (exec_crawl_run_id r).
Definition discovered_run (r : DiscoveredUrlRecord) : string := id_to_string (dr_crawl_run_id r).
Definition state_run (s : CrawlUrlStateRecord) : string := us_run (st_columns s).

(** [Option::or_else]. *)
Definition or_else {A} (o o' : option A) : option A :=
  match o with Some x => Some x | None => o' end.

Definition expected_run_id (executions : list CrawlExecutionRecord)
    (discovered : list DiscoveredUrlRecord) (control : option CrawlTraversalControl)
    (work : option (list CrawlUrlStateRecord)) : option string :=
  or_else (values ← work; state_run <$> head values)
    (or_else (execution_run <$> head executions)
      (or_else (discovered_run <$> head discovered) (ctl_run <$> control))).

Definition validate_evidence (executions : list CrawlExecutionRecord)
    (discovered : list DiscoveredUrlRecord) (control : option CrawlTraversalControl)
    (work : option (list CrawlUrlStateRecord)) : result CrawlStructuralFactsError unit :=
  let expected := expected_run_id executions discovered control work in
  let? _ := for_each (fun e =>
    let? _ := validate_execution e in ensure_run_id expected (execution_run e)) executions in
  let? _ := for_each (fun d =>
    let? _ := ensure_run_id expected (discovered_run d) in
    let? _ := validate_fragment_free (dr_original_url d) in
    validate_fragment_free (dr_canonical_url d)) discovered in
  let? _ := match control with
    | Some c => ensure_run_id expected (ctl_run c)
    | None => Ok tt
    end in
  match work with
  | Some states => for_each (fun s => ensure_run_id expected (state_run s)) states
  | None => Ok tt
  end.

(** ** Pages *)

Definition state_url (s : CrawlUrlStateRecord) : string := us_canonical_url (st_columns s).
Definition is_admitted (s : CrawlUrlStateRecord) : bool :=
  bool_decide (us_admission_state (st_columns s) = AdmittedWork).

Definition planned_pages (executions : list CrawlExecutionRecord)
    (discovered : list DiscoveredUrlRecord) (work : option (list CrawlUrlStateRecord))
    : gset string :=
  set_of (fun e => Some (exec_canonical_url e)) executions ∪
  match work with
  | Some states => set_of (fun s => if is_admitted s then Some (state_url s) else None) states
  | None => set_of (fun d =>
      if String.eqb (dr_status d) "ADMITTED" then Some (dr_canonical_url d) else None) discovered
  end.

(** The arms of the [match] on an admitted state: whether it counts as completed, and
    whether it stays unresolved. *)
Definition work_completed (w : option CrawlWorkState) : bool :=
  match w with Some (WorkCompleted | WorkPartial) => true | _ => false end.
Definition work_unresolved (w : option CrawlWorkState) : bool :=
  match w with Some WorkCompleted => false | _ => true end.

(** One turn of the loop over the executions: [entry().and_modify().or_insert()]. *)
Definition record_outcome (m : gmap string DurablePageOutcome) (e : CrawlExecutionRecord)
    : gmap string DurablePageOutcome :=
  let outcome := page_outcome (exec_outcome e) in
  <[exec_canonical_url e := match m !! exec_canonical_url e with
     | Some current => if rank current <? rank outcome then outcome else current
     | None => outcome
     end]> m.

Definition current_outcomes (executions : list CrawlExecutionRecord)
    : gmap string DurablePageOutcome :=
  foldl record_outcome ∅ executions.

Definition outcome_completed (o : DurablePageOutcome) : bool :=
  match o with OutcomeFailed => false | _ => true end.
Definition outcome_unresolved (o : DurablePageOutcome) : bool :=
  match o with OutcomeCompleted => false | _ => true end.

Definition pages_where (p : DurablePageOutcome -> bool) (m : gmap string DurablePageOutcome)
    : gset string :=
  set_of (fun e => if p e.2 then Some e.1 else None) (map_to_list m).

Definition states_where (p : option CrawlWorkState -> bool) (states : list CrawlUrlStateRecord)
    : gset string :=
  set_of (fun s => if is_admitted s && p (us_current_work_state (st_columns s))
    then Some (state_url s) else None) states.

Definition completed_pages (executions : list CrawlExecutionRecord)
    (work : option (list CrawlUrlStateRecord)) : gset string :=
  match work with
  | Some states => states_where work_completed states
  | None => pages_where outcome_completed (current_outcomes executions)
  end.

Definition unresolved_pages (executions : list CrawlExecutionRecord)
    (work : option (list CrawlUrlStateRecord)) : gset string :=
  match work with
  | Some states => states_where work_unresolved states
  | None => pages_where outcome_unresolved (current_outcomes executions)
  end.

Definition AMBIGUOUS_PAGE_TYPE : string := "AMBIGUOUS_PAGE_TYPE".

Definition ambiguous_pages (discovered : list DiscoveredUrlRecord)
    (work : option (list CrawlUrlStateRecord)) : gset string :=
  match work with
  | Some states => set_of (fun s =>
      if bool_decide (us_preserve_reason (st_columns s) = Some AMBIGUOUS_PAGE_TYPE)
      then Some (state_url s) else None) states
  | None => ∅
  end ∪
  set_of (fun d => if String.eqb (dr_status d) AMBIGUOUS_PAGE_TYPE
    then Some (dr_canonical_url d) else None) discovered.

(** ** The facts *)

Definition admitted_in (w : CrawlWorkState) (s : CrawlUrlStateRecord) : bool :=
  is_admitted s && bool_decide (us_current_work_state (st_columns s) = Some w).

Definition quick_scrape_current_terminal_status (work : option (list CrawlUrlStateRecord))
    : option CrawlRunStatus :=
  states ← work;
  if existsb (admitted_in WorkFailed) states then Some RunFailed
  else if existsb (admitted_in WorkCancelled) states then Some RunCancelled
  else None.

Definition final_status (run_type : CrawlRunType) (current_status : CrawlRunStatus)
    (work : option (list CrawlUrlStateRecord)) (structurally_incomplete : bool) : CrawlRunStatus :=
  let by_structure := if structurally_incomplete then RunPartialResult else RunSucceeded in
  match current_status with
  | RunCancelled => RunCancelled
  | RunFailed => RunFailed
  | RunPartialResult => RunPartialResult
  | RunQueued | RunRunning | RunSucceeded =>
    if bool_decide (run_type = QuickScrape)
    then default by_structure (quick_scrape_current_terminal_status work)
    else by_structure
  end.

Definition reconstruct_crawl_structural_facts (snapshot : CrawlRunSnapshot)
    (current_status : CrawlRunStatus) (executions : list CrawlExecutionRecord)
    (discovered : list DiscoveredUrlRecord) (control : option CrawlTraversalControl)
    (work : option (list CrawlUrlStateRecord))
    : result CrawlStructuralFactsError CrawlStructuralFacts :=
  let? _ := validate_evidence executions discovered control work in
  let pagination_truncation_count :=
    match control with Some c => ct_pagination_truncation_count (ctl_columns c) | None => 0 end in
  let? planned_count := count (size (planned_pages executions discovered work)) in
  let? completed_count := count (size (completed_pages executions work)) in
  let? _ := ensure_counts_are_coherent planned_count completed_count in
  let? unresolved := count (size (unresolved_pages executions work)) in
  let? unresolved_count := ok_or InconsistentDurableState (checked_add u64_max unresolved
    (match control with
     | Some c => if ct_duration_work_not_expanded (ctl_columns c) then 1 else 0
     | None => 0
     end)) in
  let? ambiguity_count := count (size (ambiguous_pages discovered work)) in
  let structurally_incomplete :=
    (completed_count <? planned_count) || (0 <? unresolved_count)
    || (0 <? pagination_truncation_count) || (0 <? ambiguity_count) in
  Ok {| facts_status := final_status (draft_run_type (snapshot_draft snapshot)) current_status work
          structurally_incomplete;
        facts_pages_planned := planned_count; facts_pages_completed := completed_count;
        facts_pagination_truncation := pagination_truncation_count;
        facts_unresolved_partial := unresolved_count;
        facts_page_type_ambiguity := ambiguity_count |}.

(** [production/finalization.rs] *)
Definition complete_snapshot_input (snapshot : CrawlRunSnapshot) (facts : CrawlStructuralFacts)
    (health : ExtractionHealth) : CompleteSnapshotStructuralInput :=
  {| input_run_type := draft_run_type (snapshot_draft snapshot);
     input_status := facts_status facts;
     in_scope_pages_planned := facts_pages_planned facts;
     in_scope_pages_completed := facts_pages_completed facts;
     pagination_truncation_count := facts_pagination_truncation facts;
     unresolved_partial_work_count := facts_unresolved_partial facts;
     page_type_ambiguity_count := facts_page_type_ambiguity facts;
     extraction_health := health |}.
End facts.

(** * Lemmas *)

Lemma elem_of_set_of {A} (f : A -> option string) l u :
  u ∈ set_of f l <-> exists x, x ∈ l /\ f x = Some u.
Proof. unfold set_of. rewrite elem_of_list_to_set, list_elem_of_omap. done. Qed.

Lemma set_of_if {A} (p : A -> bool) (f : A -> string) l u :
  u ∈ set_of (fun x => if p x then Some (f x) else None) l <->
  exists x, x ∈ l /\ p x = true /\ f x = u.
Proof. rewrite elem_of_set_of. split; intros (x & Hx & H); exists x; destruct (p x); naive_solver. Qed.

Lemma set_of_perm {A} (f : A -> option string) l l' : l ≡ₚ l' -> set_of f l = set_of f l'.
Proof.
  intros H. apply set_eq. intros u. rewrite !elem_of_set_of. by setoid_rewrite H.
Qed.

Lemma size_set_of {A} (f : A -> option string) l : (size (set_of f l) <= length l)%nat.
Proof.
  unfold set_of. induction l as [|x l IH]; [done|]. cbn [omap list_omap].
  destruct (f x) as [u|]; [|simpl; lia]. cbn [list_to_set]. rewrite size_union_alt, size_singleton.
  match goal with |- (_ + size (?b ∖ ?a) <= _)%nat =>
    pose proof (subseteq_size (b ∖ a) b ltac:(set_solver)) end.
  simpl. lia.
Qed.

(** A [for] loop that can only fail with one error does not depend on the order. *)
Lemma for_each_perm {E A} (f : A -> result E unit) (e : E) l l' :
  (forall e', e' = e) -> l ≡ₚ l' -> for_each f l = for_each f l'.
Proof.
  intros He Hp. destruct (for_each f l) as [[]|e1] eqn:H1, (for_each f l') as [[]|e2] eqn:H2; try done.
  - apply for_each_ok in H1. rewrite Hp, <- for_each_ok, H2 in H1. done.
  - apply for_each_ok in H2. rewrite <- Hp, <- for_each_ok, H1 in H2. done.
  - by rewrite (He e1), (He e2).
Qed.

Lemma count_ok n : Z.of_nat n <= u64_max -> count n = Ok (Z.of_nat n).
Proof. intros H. unfold count. by rewrite (proj2 (Z.leb_le _ _) H). Qed.

Lemma count_value n z : count n = Ok z -> z = Z.of_nat n.
Proof. unfold count. destruct (_ <=? _); congruence. Qed.

Section lemmas.
Context `{U : UuidLib} `{L : UrlLib}.

(** ** The outcome a page is left with *)

(** The best outcome of the executions of page [u], if it has any. *)
Definition best_outcome (l : list CrawlExecutionRecord) (u : string)
    (found : option DurablePageOutcome) : Prop :=
  match found with
  | None => forall e, e ∈ l -> exec_canonical_url e <> u
  | Some o =>
    (exists e, e ∈ l /\ exec_canonical_url e = u /\ page_outcome (exec_outcome e) = o) /\
    forall e, e ∈ l -> exec_canonical_url e = u -> rank (page_outcome (exec_outcome e)) <= rank o
  end.

Lemma outcome_rank_inj o o' : rank o = rank o' -> o = o'.
Proof. by destruct o, o'. Qed.

Lemma best_outcome_unique l u o o' : best_outcome l u o -> best_outcome l u o' -> o = o'.
Proof.
  destruct o as [o|], o' as [o'|]; simpl; [|naive_solver..]. intros [(e & He & Hu & <-) H1] [(f & Hf & Hv & <-) H2].
  f_equal. apply outcome_rank_inj. specialize (H1 _ Hf Hv). specialize (H2 _ He Hu). lia.
Qed.

Lemma best_outcome_snoc l e u m : best_outcome l u (m !! u) ->
  best_outcome (l ++ [e]) u (record_outcome m e !! u).
Proof.
  intros H. unfold record_outcome. destruct (decide (exec_canonical_url e = u)) as [<-|Hne].
  - rewrite lookup_insert_eq. destruct (m !! exec_canonical_url e) as [c|]; simpl in *.
    + destruct H as [(x & Hx & Hu & Hc) Hle].
      destruct (Z.ltb_spec (rank c) (rank (page_outcome (exec_outcome e)))); split;
        try (intros y [Hy| ->%list_elem_of_singleton]%elem_of_app Hyu; [specialize (Hle _ Hy Hyu)|]; lia);
        [exists e|exists x]; set_solver.
    + split; [exists e; set_solver|]. intros y [Hy| ->%list_elem_of_singleton]%elem_of_app Hyu; [|lia].
      by apply H in Hy.
  - rewrite lookup_insert_ne by done. destruct (m !! u) as [c|]; simpl in *.
    + destruct H as [(x & Hx & Hu & Hc) Hle]. split; [exists x; set_solver|].
      intros y [Hy| ->%list_elem_of_singleton]%elem_of_app Hyu; [auto|done].
    + intros y [Hy| ->%list_elem_of_singleton]%elem_of_app; auto.
Qed.

Lemma current_outcomes_best l u : best_outcome l u (current_outcomes l !! u).
Proof.
  unfold current_outcomes. induction l as [|e l IH] using rev_ind.
  - simpl. rewrite lookup_empty. intros e He. by apply not_elem_of_nil in He.
  - rewrite foldl_app. by apply best_outcome_snoc.
Qed.

Lemma current_outcomes_perm l l' : l ≡ₚ l' -> current_outcomes l = current_outcomes l'.
Proof.
  intros Hp. apply map_eq. intros u.
  apply (best_outcome_unique l u); [apply current_outcomes_best|].
  pose proof (current_outcomes_best l' u) as H. revert H.
  destruct (_ !! u); simpl; by setoid_rewrite Hp.
Qed.

Lemma elem_of_pages_where p m u : u ∈ pages_where p m <-> exists o, m !! u = Some o /\ p o = true.
Proof.
  unfold pages_where. rewrite set_of_if. split.
  - intros ([v o] & Hin%elem_of_map_to_list & Hp & <-). by exists o.
  - intros (o & Hin & Hp). exists (u, o). by rewrite elem_of_map_to_list.
Qed.

Lemma elem_of_states_where p states u :
  u ∈ states_where p states <-> exists s, s ∈ states /\ is_admitted s = true /\
    p (us_current_work_state (st_columns s)) = true /\ state_url s = u.
Proof.
  unfold states_where. rewrite set_of_if. setoid_rewrite andb_true_iff. naive_solver.
Qed.

(** ** What the sets hold *)

Lemma executions_planned e executions discovered work :
  e ∈ executions -> exec_canonical_url e ∈ planned_pages executions discovered work.
Proof. intros He. apply elem_of_union_l, elem_of_set_of. eauto. Qed.

Lemma admitted_planned s executions discovered states :
  s ∈ states -> is_admitted s = true -> state_url s ∈ planned_pages executions discovered (Some states).
Proof. intros Hs Ha. apply elem_of_union_r, set_of_if. eauto. Qed.

Lemma pages_where_planned p executions discovered work :
  pages_where p (current_outcomes executions) ⊆ planned_pages executions discovered work.
Proof.
  intros u (o & Ho & _)%elem_of_pages_where. pose proof (current_outcomes_best executions u) as H.
  rewrite Ho in H. destruct H as [(e & He & <- & _) _]. by apply executions_planned.
Qed.

Lemma states_where_planned p executions discovered states :
  states_where p states ⊆ planned_pages executions discovered (Some states).
Proof. intros u (s & Hs & Ha & _ & <-)%elem_of_states_where. by apply admitted_planned. Qed.

Lemma completed_subseteq executions discovered work :
  completed_pages executions work ⊆ planned_pages executions discovered work.
Proof. destruct work; [apply states_where_planned|apply pages_where_planned]. Qed.

Lemma unresolved_subseteq executions discovered work :
  unresolved_pages executions work ⊆ planned_pages executions discovered work.
Proof. destruct work; [apply states_where_planned|apply pages_where_planned]. Qed.

(** A bound on the evidence handed over, which a 64-bit address space implies. *)
Definition evidence_size (executions : list CrawlExecutionRecord)
    (discovered : list DiscoveredUrlRecord) (work : option (list CrawlUrlStateRecord)) : nat :=
  length executions + length discovered + length (default [] work).

Lemma planned_size executions discovered work :
  (size (planned_pages executions discovered work) <= evidence_size executions discovered work)%nat.
Proof.
  unfold planned_pages, evidence_size. rewrite size_union_alt.
  pose proof (size_set_of (fun e => Some (exec_canonical_url e)) executions).
  match goal with |- (_ + size (?b ∖ ?a) <= _)%nat =>
    pose proof (subseteq_size (b ∖ a) b ltac:(set_solver)) end.
  destruct work as [states|]; cbn [default];
    match goal with H : (size _ <= size (set_of ?f ?l))%nat |- _ => pose proof (size_set_of f l) end;
    simpl in *; lia.
Qed.

Lemma ambiguous_size discovered executions work :
  (size (ambiguous_pages discovered work) <= evidence_size executions discovered work)%nat.
Proof.
  unfold ambiguous_pages, evidence_size. rewrite size_union_alt.
  match goal with |- (_ + size (?b ∖ ?a) <= _)%nat =>
    pose proof (subseteq_size (b ∖ a) b ltac:(set_solver)) end.
  match goal with H : (size _ <= size (set_of ?f ?l))%nat |- _ => pose proof (size_set_of f l) end.
  destruct work as [states|]; cbn [from_option].
  - match goal with |- (size (set_of ?f ?l) + _ <= _)%nat => pose proof (size_set_of f l) end.
    simpl in *. lia.
  - rewrite (size_empty (C := gset string)). simpl in *. lia.
Qed.

(** ** Coherent evidence *)

Definition evidence_runs (executions : list CrawlExecutionRecord)
    (discovered : list DiscoveredUrlRecord) (control : option CrawlTraversalControl)
    (work : option (list CrawlUrlStateRecord)) : list string :=
  map state_run (default [] work) ++ map execution_run executions ++ map discovered_run discovered
    ++ option_list (ctl_run <$> control).

Definition fragment_free (value : string) : Prop :=
  contains_ch "#" value = false /\ is_Some (url_parse value).

(** All the evidence is of one run, and its URLs are absolute and without a fragment. *)
Record evidence_coherent (executions : list CrawlExecutionRecord)
    (discovered : list DiscoveredUrlRecord) (control : option CrawlTraversalControl)
    (work : option (list CrawlUrlStateRecord)) : Prop := {
  coherent_run : forall r r', r ∈ evidence_runs executions discovered control work ->
    r' ∈ evidence_runs executions discovered control work -> r = r';
  coherent_executions : forall e, e ∈ executions ->
    fragment_free (exec_requested_url e) /\ fragment_free (exec_canonical_url e) /\
    forall v, exec_observed_final_url e = Some v -> contains_ch "#" v = false;
  coherent_discovered : forall d, d ∈ discovered ->
    fragment_free (dr_original_url d) /\ fragment_free (dr_canonical_url d)
}.

Lemma validate_fragment_free_ok value : validate_fragment_free value = Ok tt <-> fragment_free value.
Proof.
  unfold validate_fragment_free, fragment_free, is_none, is_some. rewrite reject_if_ok, orb_false_iff.
  apply and_iff_compat_l. rewrite <- not_eq_None_Some. destruct (url_parse value); naive_solver.
Qed.

Lemma validate_execution_ok e : validate_execution e = Ok tt <->
  fragment_free (exec_requested_url e) /\ fragment_free (exec_canonical_url e) /\
  forall v, exec_observed_final_url e = Some v -> contains_ch "#" v = false.
Proof.
  unfold validate_execution. rewrite <- !validate_fragment_free_ok.
  destruct (validate_fragment_free (exec_requested_url e)) as [[]|]; [|naive_solver].
  destruct (validate_fragment_free (exec_canonical_url e)) as [[]|]; [|naive_solver].
  rewrite reject_if_ok. destruct (exec_observed_final_url e); naive_solver.
Qed.

Lemma expected_run_head executions discovered control work :
  expected_run_id executions discovered control work =
  head (evidence_runs executions discovered control work).
Proof.
  unfold expected_run_id, evidence_runs, or_else.
  destruct work as [[|s work]|], executions, discovered, control; done.
Qed.

Lemma ensure_run_id_ok expected actual :
  ensure_run_id expected actual = Ok tt <-> forall run, expected = Some run -> run = actual.
Proof.
  unfold ensure_run_id. rewrite reject_if_ok. destruct expected as [run|]; [|naive_solver].
  rewrite negb_false_iff, String.eqb_eq. naive_solver.
Qed.

Lemma one_run (l : list string) :
  (forall r, r ∈ l -> forall run, head l = Some run -> run = r) <->
  (forall r r', r ∈ l -> r' ∈ l -> r = r').
Proof.
  split.
  - destruct l as [|x l]; [intros _ r r' Hr; by apply not_elem_of_nil in Hr|].
    intros H r r' Hr Hr'. rewrite <- (H r Hr x eq_refl). by apply H.
  - intros H r Hr run Hh. apply H; [|done]. by apply head_Some_elem_of.
Qed.

Lemma then_ok {E A} (r : result E unit) (k : result E A) (a : A) :
  (let? _ := r in k) = Ok a <-> r = Ok tt /\ k = Ok a.
Proof. destruct r as [[]|]; naive_solver. Qed.

Lemma validate_evidence_ok executions discovered control work :
  validate_evidence executions discovered control work = Ok tt <->
  evidence_coherent executions discovered control work.
Proof.
  unfold validate_evidence. cbv zeta. rewrite !then_ok, !for_each_ok, expected_run_head.
  set (runs := evidence_runs _ _ _ _). set (head_run := head runs).
  assert (match control with Some c => ensure_run_id head_run (ctl_run c) | None => Ok tt end = Ok tt
    <-> forall r, r ∈ option_list (ctl_run <$> control) -> ensure_run_id head_run r = Ok tt) as ->.
  { destruct control; simpl; set_solver. }
  assert (match work with
    | Some states => for_each (fun s => ensure_run_id head_run (state_run s)) states
    | None => Ok tt end = Ok tt
    <-> forall s, s ∈ default [] work -> ensure_run_id head_run (state_run s) = Ok tt) as ->.
  { destruct work; simpl; [by rewrite for_each_ok, Forall_forall|set_solver]. }
  assert ((forall r r', r ∈ runs -> r' ∈ runs -> r = r') <->
    forall r, r ∈ runs -> ensure_run_id head_run r = Ok tt) as Hrun.
  { rewrite <- one_run. by setoid_rewrite ensure_run_id_ok. }
  rewrite !Forall_forall. setoid_rewrite then_ok. setoid_rewrite validate_execution_ok.
  setoid_rewrite then_ok. setoid_rewrite validate_fragment_free_ok. split.
  - intros (He & Hd & Hc & Hw). split; [|by intros e (? & ?)%He|by intros d (? & ?)%Hd].
    apply Hrun. intros r. unfold runs, evidence_runs. rewrite !elem_of_app, !elem_of_map.
    intros [(s & -> & Hs)|[(e & -> & (_ & H)%He)|[(d & -> & (H & _)%Hd)|H]]]; auto.
  - intros [Hr He Hd]. pose proof (proj1 Hrun Hr) as H. unfold runs, evidence_runs in H.
    setoid_rewrite elem_of_app in H. repeat setoid_rewrite elem_of_app in H.
    repeat setoid_rewrite elem_of_map in H. split_and!.
    + intros e Hin. split; [by apply He|]. apply H. eauto.
    + intros d Hin. split; [apply H; eauto 6|by apply Hd].
    + intros r Hin. apply H. auto.
    + intros w Hin. apply H. eauto.
Qed.
End lemmas.

(** * Theorems *)

Section theorems.
Context `{U : UuidLib} `{L : UrlLib}.

Definition duration_left (control : option CrawlTraversalControl) : bool :=
  match control with Some c => ct_duration_work_not_expanded (ctl_columns c) | None => false end.
Definition truncation (control : option CrawlTraversalControl) : Z :=
  match control with Some c => ct_pagination_truncation_count (ctl_columns c) | None => 0 end.

(** What is rebuilt from coherent evidence: the sizes of the four sets. *)
Definition rebuilt_facts (snapshot : CrawlRunSnapshot) (current_status : CrawlRunStatus)
    (executions : list CrawlExecutionRecord) (discovered : list DiscoveredUrlRecord)
    (control : option CrawlTraversalControl) (work : option (list CrawlUrlStateRecord))
    : CrawlStructuralFacts :=
  let planned := Z.of_nat (size (planned_pages executions discovered work)) in
  let completed := Z.of_nat (size (completed_pages executions work)) in
  let unresolved := Z.of_nat (size (unresolved_pages executions work))
    + (if duration_left control then 1 else 0) in
  let ambiguity := Z.of_nat (size (ambiguous_pages discovered work)) in
  {| facts_status := final_status (draft_run_type (snapshot_draft snapshot)) current_status work
       ((completed <? planned) || (0 <? unresolved) || (0 <? truncation control) || (0 <? ambiguity));
     facts_pages_planned := planned; facts_pages_completed := completed;
     facts_pagination_truncation := truncation control;
     facts_unresolved_partial := unresolved; facts_page_type_ambiguity := ambiguity |}.

Lemma reconstruct_coherent snapshot st executions discovered control work
    (Hsize : Z.of_nat (evidence_size executions discovered work) < u64_max) :
  evidence_coherent executions discovered control work ->
  reconstruct_crawl_structural_facts snapshot st executions discovered control work =
  Ok (rebuilt_facts snapshot st executions discovered control work).
Proof.
  intros Hc%validate_evidence_ok. unfold reconstruct_crawl_structural_facts. rewrite Hc. cbv zeta.
  pose proof (planned_size executions discovered work) as Hp.
  pose proof (ambiguous_size discovered executions work) as Ha.
  pose proof (subseteq_size _ _ (completed_subseteq executions discovered work)) as Hd.
  pose proof (subseteq_size _ _ (unresolved_subseteq executions discovered work)) as Hu.
  rewrite !count_ok by lia. unfold ensure_counts_are_coherent, reject_if.
  rewrite (proj2 (Z.ltb_ge _ _)) by lia. unfold checked_add.
  replace (match control with
    | Some c => if ct_duration_work_not_expanded (ctl_columns c) then 1 else 0
    | None => 0 end) with (if duration_left control then 1 else 0) by (by destruct control).
  rewrite (proj2 (Z.leb_le _ _)) by (destruct (duration_left control); lia). done.
Qed.

(** The facts of a crawl are rebuilt exactly when its durable evidence is coherent: all of it
    belongs to one run and every URL parses and has no fragment.  The error for more
    pages completed than planned, and the overflow of the count of unresolved pages, are
    unreachable. *)
Theorem structural_facts_accepted_iff snapshot st executions discovered control work
    (Hsize : Z.of_nat (evidence_size executions discovered work) < u64_max) :
  is_ok (reconstruct_crawl_structural_facts snapshot st executions discovered control work) = true <->
  evidence_coherent executions discovered control work.
Proof.
  split; [|intros Hc; by rewrite reconstruct_coherent].
  rewrite <- validate_evidence_ok. unfold reconstruct_crawl_structural_facts.
  by destruct (validate_evidence _ _ _ _) as [[]|].
Qed.

Lemma reconstruct_facts snapshot st executions discovered control work f
    (Hsize : Z.of_nat (evidence_size executions discovered work) < u64_max) :
  reconstruct_crawl_structural_facts snapshot st executions discovered control work = Ok f ->
  evidence_coherent executions discovered control work /\
  f = rebuilt_facts snapshot st executions discovered control work.
Proof.
  intros H. assert (evidence_coherent executions discovered control work) as Hc.
  { apply validate_evidence_ok. revert H. unfold reconstruct_crawl_structural_facts.
    by destruct (validate_evidence _ _ _ _) as [[]|]. }
  rewrite reconstruct_coherent in H by done. by simplify_eq.
Qed.

Lemma existsb_perm {A} (f : A -> bool) l l' : l ≡ₚ l' -> existsb f l = existsb f l'.
Proof. intros Hp. apply eq_true_iff_eq. rewrite !existsb_exists. setoid_rewrite <- list_elem_of_In. by setoid_rewrite Hp. Qed.

(** The order in which the repositories return the rows. *)
Definition same_work (work work' : option (list CrawlUrlStateRecord)) : Prop :=
  match work, work' with
  | Some l, Some l' => l ≡ₚ l'
  | None, None => True
  | _, _ => False
  end.

Lemma validate_evidence_perm executions executions' discovered discovered' control work work' :
  executions ≡ₚ executions' -> discovered ≡ₚ discovered' -> same_work work work' ->
  validate_evidence executions discovered control work =
  validate_evidence executions' discovered' control work'.
Proof.
  intros He Hd Hw.
  assert (Hrun : forall r, r ∈ evidence_runs executions discovered control work <->
    r ∈ evidence_runs executions' discovered' control work').
  { intros r. unfold evidence_runs. rewrite !elem_of_app, !elem_of_map. setoid_rewrite He. setoid_rewrite Hd.
    destruct work, work'; simpl in *; try done. by setoid_rewrite Hw. }
  assert (Hc : evidence_coherent executions discovered control work <->
    evidence_coherent executions' discovered' control work').
  { split; intros [H1 H2 H3]; (split; [intros r r' Hr Hr'; apply H1; by apply Hrun|..]); intros x Hx;
      first [apply H2|apply H3]; by rewrite ?He, ?Hd in *. }
  rewrite <- !validate_evidence_ok in Hc.
  destruct (validate_evidence executions _ _ _) as [[]|[]], (validate_evidence executions' _ _ _) as [[]|[]];
    naive_solver.
Qed.

(** The facts do not depend on the order in which executions, discovery evidence and
    logical work are read. *)
Theorem structural_facts_order_irrelevant snapshot st executions executions' discovered discovered'
    control work work' (He : executions ≡ₚ executions') (Hd : discovered ≡ₚ discovered')
    (Hw : same_work work work') :
  reconstruct_crawl_structural_facts snapshot st executions discovered control work =
  reconstruct_crawl_structural_facts snapshot st executions' discovered' control work'.
Proof.
  unfold reconstruct_crawl_structural_facts, planned_pages, completed_pages, unresolved_pages, ambiguous_pages.
  rewrite (validate_evidence_perm executions executions' discovered discovered' control work work') by done.
  rewrite (set_of_perm _ _ _ He), (current_outcomes_perm _ _ He).
  destruct work as [states|], work' as [states'|]; simpl in Hw; try done.
  - unfold states_where, final_status, quick_scrape_current_terminal_status. simpl.
    rewrite !(set_of_perm _ _ _ Hw), (set_of_perm _ _ _ Hd), !(existsb_perm _ _ _ Hw). done.
  - by rewrite !(set_of_perm _ _ _ Hd).
Qed.

Lemma size_zero_no (X : gset string) : Z.of_nat (size X) = 0 <-> forall u, u ∉ X.
Proof.
  rewrite <- elem_of_equiv_empty_L. split; [intros H; apply leibniz_equiv, size_empty_inv; lia|intros ->; done].
Qed.

Lemma equal_sizes (X Y : gset string) : X ⊆ Y ->
  (Z.of_nat (size X) = Z.of_nat (size Y) <-> Y ⊆ X).
Proof.
  intros Hsub. split.
  - intros Hs. by rewrite (set_subseteq_size_eq X Y) by (done || lia).
  - intros Hsup. f_equal. f_equal. by apply set_eq_subseteq.
Qed.

(** Every admitted page is completed and every executed page was admitted, the duration
    budget cut nothing off, no pagination was truncated and no page type was ambiguous. *)
Record crawl_whole (executions : list CrawlExecutionRecord) (discovered : list DiscoveredUrlRecord)
    (control : option CrawlTraversalControl) (states : list CrawlUrlStateRecord) : Prop := {
  whole_work : forall s, s ∈ states -> is_admitted s = true ->
    us_current_work_state (st_columns s) = Some WorkCompleted;
  whole_executions : forall e, e ∈ executions -> exists s, s ∈ states /\ is_admitted s = true /\
    state_url s = exec_canonical_url e;
  whole_duration : duration_left control = false;
  whole_pagination : truncation control = 0;
  whole_matching : forall s, s ∈ states ->
    us_preserve_reason (st_columns s) <> Some AMBIGUOUS_PAGE_TYPE;
  whole_evidence : forall d, d ∈ discovered -> dr_status d <> AMBIGUOUS_PAGE_TYPE
}.

Lemma whole_iff executions discovered control states :
  crawl_whole executions discovered control states <->
  planned_pages executions discovered (Some states) ⊆ completed_pages executions (Some states) /\
  (forall u, u ∉ unresolved_pages executions (Some states)) /\ duration_left control = false /\
  truncation control = 0 /\ (forall u, u ∉ ambiguous_pages discovered (Some states)).
Proof.
  unfold planned_pages, completed_pages, unresolved_pages, ambiguous_pages. split.
  - intros [Hw He Hd Hp Hm Hv]. split_and!; try done.
    + intros u. rewrite elem_of_union, elem_of_set_of, set_of_if, elem_of_states_where.
      intros [(e & Hin & [= <-])|(s & Hs & Ha & <-)].
      * destruct (He e Hin) as (s & Hs & Ha & <-). exists s. by rewrite (Hw s).
      * exists s. by rewrite (Hw s).
    + intros u (s & Hs & Ha & Hu & _)%elem_of_states_where. by rewrite (Hw s) in Hu.
    + intros u. rewrite elem_of_union, !set_of_if. setoid_rewrite bool_decide_eq_true.
      setoid_rewrite String.eqb_eq. intros [(s & Hs & Hr & _)|(d & Hin & Hr & _)];
        [by apply (Hm s)|by apply (Hv d)].
  - intros (Hp & Hu & Hd & Ht & Ha). split; try done.
    + intros s Hs Had. assert (work_unresolved (us_current_work_state (st_columns s)) = false) as Hn.
      { apply not_true_is_false. intros Hn. apply (Hu (state_url s)), elem_of_states_where. eauto. }
      by destruct (us_current_work_state (st_columns s)) as [[]|].
    + intros e Hin. assert (exec_canonical_url e ∈ states_where work_completed states) as Hx.
      { apply Hp, elem_of_union_l, elem_of_set_of. eauto. }
      apply elem_of_states_where in Hx as (s & Hs & Had & _ & Hc). eauto.
    + intros s Hs Hr. apply (Ha (state_url s)), elem_of_union_l, set_of_if. exists s.
      by rewrite bool_decide_eq_true.
    + intros d Hin Hr. apply (Ha (dr_canonical_url d)), elem_of_union_r, set_of_if. exists d.
      by rewrite String.eqb_eq.
Qed.

Lemma decide_never_fails (i : CompleteSnapshotStructuralInput) :
  in_scope_pages_completed i <= in_scope_pages_planned i -> is_ok (decide_snapshot i) = true.
Proof. intros H. unfold decide_snapshot, reject_if. rewrite (proj2 (Z.ltb_ge _ _)) by done. by break. Qed.

#[local] Arguments completed_pages : simpl never.
#[local] Arguments unresolved_pages : simpl never.
#[local] Arguments planned_pages : simpl never.
#[local] Arguments ambiguous_pages : simpl never.

(** C34. A crawl is trusted as a complete snapshot exactly when it is a production run that
    was not cancelled and had not failed or ended with a partial result, its extraction
    health allows it and its durable evidence shows a whole crawl: a page that was
    executed but never admitted, an unfinished unit of work, a truncated pagination, an
    exhausted duration or an ambiguous page type each forbids it.  The decision itself
    never fails on rebuilt facts. *)
Theorem production_snapshot_trusted_iff snapshot st executions discovered control states health f
    (Hsize : Z.of_nat (evidence_size executions discovered (Some states)) < u64_max)
    (Htrunc : 0 <= truncation control)
    (Hf : reconstruct_crawl_structural_facts snapshot st executions discovered control (Some states) = Ok f) :
  is_ok (decide_snapshot (complete_snapshot_input snapshot f health)) = true /\
  (decide_snapshot (complete_snapshot_input snapshot f health) = Ok Complete <->
   draft_run_type (snapshot_draft snapshot) = ProductionRun /\
   st <> RunCancelled /\ st <> RunFailed /\ st <> RunPartialResult /\
   (health = NotRequired \/ health = Healthy) /\ crawl_whole executions discovered control states).
Proof.
  apply reconstruct_facts in Hf as [_ ->]; [|done].
  pose proof (completed_subseteq executions discovered (Some states)) as Hsub.
  pose proof (subseteq_size _ _ Hsub) as Hle.
  set (P := planned_pages _ _ _) in *. set (C := completed_pages _ _) in *. split.
  - apply decide_never_fails. simpl. fold P C. lia.
  - rewrite decide_snapshot_complete by (cbn; split_and!; destruct (duration_left control); cbn; lia).
    rewrite whole_iff, <- !size_zero_no. fold P C. rewrite <- (equal_sizes _ _ Hsub).
    unfold complete_snapshot_input, rebuilt_facts, final_status. split.
    + intros [Htype Hs Hp Ht Hu Ha Hh]; simpl in *. fold P C in Hp. split; [done|].
      split; [by intros ->|]. split; [by intros ->|]. split; [by intros ->|]. split; [done|].
      destruct (duration_left control); split_and!; (done || lia).
    + intros (Htype & Hs1 & Hs2 & Hs3 & Hh & Hp & Hu & Hd & Ht & Ha).
      split; simpl; fold P C; rewrite ?Htype, ?Hd, ?Hu, ?Ht, ?Ha, ?Hp; try done.
      rewrite Z.ltb_irrefl. by destruct st.
Qed.

(** Without logical work, the attempts at a page count once: it is completed when some
    attempt completed, wholly or in part, and it stays unresolved when no attempt
    completed it wholly. *)
Theorem attempts_count_once executions u :
  (u ∈ completed_pages executions None <-> exists e, e ∈ executions /\ exec_canonical_url e = u /\
     (exec_outcome e = ExecutionCompleted \/ exec_outcome e = ExecutionPartial)) /\
  (u ∈ unresolved_pages executions None <->
     (exists e, e ∈ executions /\ exec_canonical_url e = u) /\
     forall e, e ∈ executions -> exec_canonical_url e = u -> exec_outcome e <> ExecutionCompleted).
Proof.
  unfold completed_pages, unresolved_pages. rewrite !elem_of_pages_where.
  pose proof (current_outcomes_best executions u) as H.
  destruct (current_outcomes executions !! u) as [o|]; simpl in H.
  2: { split; split; [intros (? & ? & _)|intros (e & He & Hu & _)|intros (? & ? & _)|intros ((e & He & Hu) & _)];
       (done || by apply H in He). }
  destruct H as [(e & He & Hu & Ho) Hle]. split; split.
  - intros (o' & [= <-] & Hc). exists e. split_and!; try done. destruct (exec_outcome e); simpl in Ho; subst; naive_solver.
  - intros (x & Hx & Hxu & Hc). exists o. split; [done|]. specialize (Hle _ Hx Hxu).
    destruct o; [|done..]. destruct Hc as [Hc|Hc]; rewrite Hc in Hle; by apply Z.leb_le in Hle.
  - intros (o' & [= <-] & Hc). split; [eauto|]. intros x Hx Hxu Hout. specialize (Hle _ Hx Hxu).
    rewrite Hout in Hle. destruct o; try done; by apply Z.leb_le in Hle.
  - intros [_ Hno]. exists o. split; [done|]. specialize (Hno e He Hu).
    destruct (exec_outcome e); simpl in Ho; by subst.
Qed.
End theorems.

(** * Witnesses *)

Section witnesses.
#[local] Existing Instances plain_uuid plain_url.

Definition facts_run : CrawlRunId := new_id 20.

Definition facts_snapshot : CrawlRunSnapshot := {|
  snapshot_draft := example_draft "operator"; snapshot_hash := ""; checkpoint_compatibility_hash := "" |}.

(** A page that failed first and completed on its second attempt. *)
Definition facts_execution (n : nat) (outcome : CrawlExecutionOutcome) : CrawlExecutionRecord := {|
  exec_id := new_id n; exec_crawl_run_id := facts_run;
  exec_requested_url := "http://example.com/"; exec_canonical_url := "http://example.com/";
  exec_observed_final_url := None; exec_source_id := None; exec_page_type_id := None;
  exec_transition_id := None; exec_discovered_url_id := None; exec_outcome := outcome;
  exec_error_code := None; exec_http_status := None; exec_media_type := None;
  exec_content_length_bytes := None; exec_provider_elapsed_ms := None; exec_artifacts := [] |}.

Definition facts_executions : list CrawlExecutionRecord :=
  [facts_execution 21 ExecutionFailed; facts_execution 22 ExecutionCompleted].

Definition facts_state : CrawlUrlStateRecord := {|
  st_id := id_to_string (new_id (k := ArtifactKind) 23);
  st_columns := {|
    us_run := id_to_string facts_run; us_canonical_url := "http://example.com/";
    us_first_discovered_url_id := None; us_requested_url := "http://example.com/";
    us_parent_url_state_id := None; us_parent_discovered_url_id := None;
    us_admission_state := AdmittedWork; us_preserve_reason := None;
    us_resolved_to_url_state_id := None; us_admission_sequence := Some 0; us_depth := Some 0;
    us_target_page_type_id := None; us_transition_id := None; us_pagination := false;
    us_final_canonical_url := None; us_current_work_state := Some WorkCompleted;
    us_work_generation := 0; us_current_execution_id := Some (id_to_string (new_id (k := CrawlExecutionKind) 22));
    us_seen := true; us_sampled := true; us_expanded := true; us_in_scope := true;
    us_page_type_match_state := None |};
  st_seed_provenance := [] |}.

Lemma structural_facts_accepted_iff_witness :
  evidence_coherent facts_executions [] None (Some [facts_state]).
Proof.
  apply (structural_facts_accepted_iff facts_snapshot RunRunning facts_executions [] None
    (Some [facts_state])); vm_compute; reflexivity.
Defined.

Lemma structural_facts_order_irrelevant_witness :
  reconstruct_crawl_structural_facts facts_snapshot RunRunning facts_executions [] None None =
  reconstruct_crawl_structural_facts facts_snapshot RunRunning (rev facts_executions) [] None None.
Proof.
  apply (structural_facts_order_irrelevant facts_snapshot RunRunning facts_executions
    (rev facts_executions) [] [] None None None); [apply perm_swap|reflexivity|exact I].
Defined.

Lemma production_snapshot_trusted_iff_witness :
  crawl_whole facts_executions [] None [facts_state] /\
  decide_snapshot (complete_snapshot_input facts_snapshot
    {| facts_status := RunCancelled; facts_pages_planned := 1; facts_pages_completed := 1;
       facts_pagination_truncation := 0; facts_unresolved_partial := 0;
       facts_page_type_ambiguity := 0 |} Healthy) <> Ok Complete.
Proof.
  split.
  - apply (production_snapshot_trusted_iff facts_snapshot RunRunning facts_executions [] None
      [facts_state] Healthy
      {| facts_status := RunSucceeded; facts_pages_planned := 1; facts_pages_completed := 1;
         facts_pagination_truncation := 0; facts_unresolved_partial := 0;
         facts_page_type_ambiguity := 0 |});
      [vm_compute; reflexivity|vm_compute; discriminate|vm_compute; reflexivity|vm_compute; reflexivity].
  - intros H. eapply (production_snapshot_trusted_iff facts_snapshot RunCancelled facts_executions [] None
      [facts_state] Healthy) in H;
      [destruct H as (_ & Hc & _); apply Hc; reflexivity
      |vm_compute; reflexivity|vm_compute; discriminate|vm_compute; reflexivity].
Defined.
End witnesses.
