(* ===== verification/CompactSerde.v ===== *)
(** * JSON text with eight bits to a byte

    A second implementation of the [serde_json] interface for the witnesses: the code of a
    value packed into bytes, so that the bounds on stored payloads hold for it. *)

From S2P Require Import Prelude Externals JsonFacts Instances.

Fixpoint pos_bits (p : positive) : list bool :=
  match p with xH => [true] | xO q => false :: pos_bits q | xI q => true :: pos_bits q end.

Fixpoint bits_pos (l : list bool) : option positive :=
  match l with
  | [] => None
  | b :: l =>
    match bits_pos l with
    | Some q => Some (if b then xI q else xO q)
    | None => if b then Some xH else None
    end
  end.

Definition byte_bits (c : ascii) : list bool :=
  match c with Ascii b0 b1 b2 b3 b4 b5 b6 b7 => [b0; b1; b2; b3; b4; b5; b6; b7] end.

Fixpoint pack (l : list bool) : string :=
  match l with
  | [] => EmptyString
  | b0 :: b1 :: b2 :: b3 :: b4 :: b5 :: b6 :: b7 :: l' => String (Ascii b0 b1 b2 b3 b4 b5 b6 b7) (pack l')
  | _ => let bit n := nth n l false in
    String (Ascii (bit 0%nat) (bit 1%nat) (bit 2%nat) (bit 3%nat) (bit 4%nat) (bit 5%nat) (bit 6%nat)
      (bit 7%nat)) EmptyString
  end.

Fixpoint unpack (s : string) : list bool :=
  match s with EmptyString => [] | String c s' => byte_bits c ++ unpack s' end.

Lemma bits_pos_padded p n : bits_pos (pos_bits p ++ replicate n false) = Some p.
Proof.
  induction p as [p IH|p IH|]; simpl; [by rewrite IH..|].
  assert (bits_pos (replicate n false) = None) as ->; [|done].
  induction n as [|n IH]; simpl; [done|]. by rewrite IH.
Qed.

Lemma unpack_pack l : exists n, unpack (pack l) = l ++ replicate n false.
Proof.
  assert (H : forall k l, (length l <= k)%nat -> exists n, unpack (pack l) = l ++ replicate n false).
  { induction k as [|k IH]; intros m Hm; [destruct m; [by exists 0%nat|simpl in Hm; lia]|].
    destruct m as [|b0 [|b1 [|b2 [|b3 [|b4 [|b5 [|b6 [|b7 m]]]]]]]]; simpl in Hm.
    9: { destruct (IH m) as [n Hn]; [lia|]. exists n. simpl. by rewrite Hn. }
    - by exists 0%nat.
    - by exists 7%nat.
    - by exists 6%nat.
    - by exists 5%nat.
    - by exists 4%nat.
    - by exists 3%nat.
    - by exists 2%nat.
    - by exists 1%nat. }
  by apply (H (length l)).
Qed.

Definition compact_serde : SerdeLib := {|
  json_to_string v := pack (pos_bits (encode (plain_tree v)));
  json_from_str s := p ← bits_pos (unpack s); plain_untree <$> decode p
|}.

Lemma compact_serde_laws : SerdeLaws compact_serde.
Proof.
  split. intros v Hv. exists v. split; [|by apply json_equiv_refl]. simpl.
  destruct (unpack_pack (pos_bits (encode (plain_tree v)))) as [n ->]. rewrite bits_pos_padded. simpl.
  rewrite decode_encode. simpl. by rewrite plain_untree_tree.
Qed.
