(* ===== verification/Diagnostics.v ===== *)
(** * Execution diagnostics

    [crates/erabi-jobs/src/lib.rs] and [production/mod.rs]: the bounded record a handler
    keeps of what went wrong during one attempt: a primary failure and at most eight
    secondary ones, and the errors of a production crawl that are made of them. *)

From S2P Require Import Prelude Externals Base.

Inductive OrchestrationErrorCategory :=
| CatRepository | CatLeaseClaim | CatCheckpointRecovery | CatProvider | CatNetworkAdmission
| CatPacing | CatArtifact | CatSerializationProjection | CatFinalization
| CatProgressPublication | CatInvariant.

Inductive ExecutionOperation :=
| LoadJob | LoadRunSnapshot | LoadCheckpoint | TransitionRun | AcquireAdmission
| ProviderExecution | RecordOutcome | PersistArtifact | PersistExecution | FinalizeRun
| AppendProgress | PublishProgress | ReconcileTerminality | QueueLifecycle | Serialization.

Inductive ExecutionAction := DoContinue | DoRetry | DoFail | DoReconcile | DoPublish.

#[export] Instance category_eq_dec : EqDecision OrchestrationErrorCategory.
Proof. solve_decision. Defined.
#[export] Instance operation_eq_dec : EqDecision ExecutionOperation.
Proof. solve_decision. Defined.
#[export] Instance action_eq_dec : EqDecision ExecutionAction.
Proof. solve_decision. Defined.

(** Identifiers are held by their text. *)
Record ExecutionDiagnostic := {
  diag_run_id : option string;
  diag_job_id : option string;
  diag_job_attempt_id : option string;
  diag_execution_id : option string;
  diag_work_generation : option Z;
  diag_operation : ExecutionOperation;
  diag_category : OrchestrationErrorCategory;
  diag_action : ExecutionAction;
  diag_provider : option string;
  diag_attempt : option Z;
  diag_terminal_outcome : option CrawlRunStatus;
  diag_code : string
}.

#[export] Instance diagnostic_eq_dec : EqDecision ExecutionDiagnostic.
Proof. solve_decision. Defined.

Definition eta_diagnostic (d : ExecutionDiagnostic) : ExecutionDiagnostic :=
  {| diag_run_id := diag_run_id d; diag_job_id := diag_job_id d;
     diag_job_attempt_id := diag_job_attempt_id d; diag_execution_id := diag_execution_id d;
     diag_work_generation := diag_work_generation d; diag_operation := diag_operation d;
     diag_category := diag_category d; diag_action := diag_action d;
     diag_provider := diag_provider d; diag_attempt := diag_attempt d;
     diag_terminal_outcome := diag_terminal_outcome d; diag_code := diag_code d |}.

#[export] Instance set_diag_run_id : Setter diag_run_id.
Proof. setter_of eta_diagnostic diag_run_id. Defined.
#[export] Instance set_diag_job_id : Setter diag_job_id.
Proof. setter_of eta_diagnostic diag_job_id. Defined.
#[export] Instance set_diag_job_attempt_id : Setter diag_job_attempt_id.
Proof. setter_of eta_diagnostic diag_job_attempt_id. Defined.
#[export] Instance set_diag_attempt : Setter diag_attempt.
Proof. setter_of eta_diagnostic diag_attempt. Defined.
#[export] Instance set_diag_terminal_outcome : Setter diag_terminal_outcome.
Proof. setter_of eta_diagnostic diag_terminal_outcome. Defined.

(** [ExecutionDiagnostic::new]. *)
Definition diagnostic_new (category : OrchestrationErrorCategory) (operation : ExecutionOperation)
    (action : ExecutionAction) (code : string) : ExecutionDiagnostic :=
  {| diag_run_id := None; diag_job_id := None; diag_job_attempt_id := None;
     diag_execution_id := None; diag_work_generation := None; diag_operation := operation;
     diag_category := category; diag_action := action; diag_provider := None;
     diag_attempt := None; diag_terminal_outcome := None; diag_code := code |}.

Definition with_run (run : string) (d : ExecutionDiagnostic) : ExecutionDiagnostic :=
  d <| diag_run_id := Some run |>.
Definition with_terminal_outcome (status : CrawlRunStatus) (d : ExecutionDiagnostic)
    : ExecutionDiagnostic :=
  d <| diag_terminal_outcome := Some status |>.

(** [with_context]: the job, the attempt and its number. *)
Definition with_context (job attempt_id : string) (attempt_number : Z) (d : ExecutionDiagnostic)
    : ExecutionDiagnostic :=
  d <| diag_job_id := Some job |> <| diag_job_attempt_id := Some attempt_id |>
    <| diag_attempt := Some attempt_number |>.

(** ** The diagnostics of one attempt *)

Record ExecutionDiagnostics := {
  primary : option ExecutionDiagnostic;
  secondary : list ExecutionDiagnostic
}.

#[export] Instance diagnostics_eq_dec : EqDecision ExecutionDiagnostics.
Proof. solve_decision. Defined.

Definition MAX_SECONDARY : nat := 8.

Definition no_diagnostics : ExecutionDiagnostics := {| primary := None; secondary := [] |}.

Definition diagnostics_is_empty (self : ExecutionDiagnostics) : bool :=
  match primary self, secondary self with None, [] => true | _, _ => false end.

Definition add_secondary (self : ExecutionDiagnostics) (d : ExecutionDiagnostic)
    : ExecutionDiagnostics :=
  if Nat.ltb (length (secondary self)) MAX_SECONDARY
  then {| primary := primary self; secondary := secondary self ++ [d] |} else self.

Definition add_primary (self : ExecutionDiagnostics) (d : ExecutionDiagnostic)
    : ExecutionDiagnostics :=
  match primary self with
  | None => {| primary := Some d; secondary := secondary self |}
  | Some _ => add_secondary self d
  end.

(** [record_diagnostics] and [record_secondary_diagnostics] of a job's context, where
    [stamp] is [with_context]: the failure of a handler joins those recorded before. *)
Definition record_diagnostics (stamp : ExecutionDiagnostic -> ExecutionDiagnostic)
    (self incoming : ExecutionDiagnostics) : ExecutionDiagnostics :=
  let self := match primary incoming with
    | Some d => if decide (primary self = Some (stamp d)) then self else add_primary self (stamp d)
    | None => self
    end in
  foldl (fun self d => add_secondary self (stamp d)) self (secondary incoming).

Definition record_secondary_diagnostics (stamp : ExecutionDiagnostic -> ExecutionDiagnostic)
    (self incoming : ExecutionDiagnostics) : ExecutionDiagnostics :=
  let self := match primary incoming with
    | Some d => if decide (primary self = Some (stamp d)) then self else add_secondary self (stamp d)
    | None => self
    end in
  foldl (fun self d => add_secondary self (stamp d)) self (secondary incoming).

(** ** The errors of a production crawl ([production/mod.rs]) *)

Definition production_error (d : ExecutionDiagnostic) : ExecutionDiagnostics :=
  add_primary no_diagnostics d.

Definition repository_error (operation : ExecutionOperation) (code : string) : ExecutionDiagnostics :=
  production_error (diagnostic_new CatRepository operation DoRetry code).
Definition checkpoint_failure (operation : ExecutionOperation) (code : string) : ExecutionDiagnostics :=
  production_error (diagnostic_new CatCheckpointRecovery operation DoRetry code).
Definition progress_error (operation : ExecutionOperation) (code : string) : ExecutionDiagnostics :=
  production_error (diagnostic_new CatProgressPublication operation DoReconcile code).
Definition artifact_error (operation : ExecutionOperation) (code : string) : ExecutionDiagnostics :=
  production_error (diagnostic_new CatArtifact operation DoRetry code).
Definition projection_error (operation : ExecutionOperation) (code : string) : ExecutionDiagnostics :=
  production_error (diagnostic_new CatSerializationProjection operation DoFail code).

(** * Lemmas *)

(** The secondary failures stay within the bound, and the primary failure, once recorded,
    is never replaced. *)
Definition diagnostics_ok (self : ExecutionDiagnostics) : Prop :=
  (length (secondary self) <= MAX_SECONDARY)%nat.

Definition diagnostics_kept (old new : ExecutionDiagnostics) : Prop :=
  (forall d, primary old = Some d -> primary new = Some d) /\
  (exists more, secondary new = secondary old ++ more) /\
  (diagnostics_ok old -> diagnostics_ok new).

#[export] Instance diagnostics_kept_pre : PreOrder diagnostics_kept.
Proof.
  split.
  - intros x. split_and!; auto. exists []. by rewrite app_nil_r.
  - intros x y z (H1 & [m1 H2] & H3) (H4 & [m2 H5] & H6). split_and!; auto.
    exists (m1 ++ m2). by rewrite H5, H2, app_assoc.
Qed.

Lemma add_secondary_kept self d : diagnostics_kept self (add_secondary self d).
Proof.
  unfold add_secondary. destruct (Nat.ltb_spec (length (secondary self)) MAX_SECONDARY); [|reflexivity].
  split_and!; simpl; [done|by eexists|]. intros _. unfold diagnostics_ok. simpl.
  rewrite length_app. simpl. lia.
Qed.

Lemma add_primary_kept self d : diagnostics_kept self (add_primary self d).
Proof.
  unfold add_primary. destruct (primary self) eqn:Hp; [apply add_secondary_kept|].
  split_and!; simpl; [congruence| |done]. exists []. by rewrite app_nil_r.
Qed.

Lemma add_all_kept (stamp : ExecutionDiagnostic -> ExecutionDiagnostic) self l :
  diagnostics_kept self (foldl (fun self d => add_secondary self (stamp d)) self l).
Proof.
  revert self. induction l as [|d l IH]; intros self; [reflexivity|]. simpl.
  etrans; [apply (add_secondary_kept self (stamp d))|apply IH].
Qed.

(** Whatever is recorded later, the first failure of an attempt stays its primary one. *)
Lemma record_diagnostics_kept stamp self incoming :
  diagnostics_kept self (record_diagnostics stamp self incoming) /\
  diagnostics_kept self (record_secondary_diagnostics stamp self incoming).
Proof.
  unfold record_diagnostics, record_secondary_diagnostics.
  split; (etrans; [|apply add_all_kept]); destruct (primary incoming); try reflexivity;
    case_decide; try reflexivity; [apply add_primary_kept|apply add_secondary_kept].
Qed.
