(* ===== verification/CrawlRecovery.v ===== *)
(** * Crawl recovery

    [crates/erabi-crawler/src/checkpoint.rs]: the control record a crawl stores in the
    checkpoint envelope of [Checkpoint.v], and [crates/erabi-jobs/src/recovery.rs]: the one
    interpretation of it that authorises further work, together with the structural facts
    of the durable crawl.

    The derived serde form of the record is written out here; [serde_json] reads a unit
    variant from its name or from an object holding its name. *)

From stdpp Require Import pretty.
From S2P Require Import Prelude Externals JsonFacts Base Instances Settings Snapshot Guardrails.
From S2P Require Import TraversalTables Store TraversalStore Progress Checkpoint Runs Traversal.
From S2P Require Import CrawlExecution StructuralFacts JobQueue CompactSerde.

Definition CRAWL_RECOVERY_FORMAT_VERSION : Z := 1.
Definition CRAWL_RECOVERY_PAYLOAD_KIND : string := "CRAWL_RECOVERY".
Definition MAX_CRAWL_RECOVERY_PAYLOAD_BYTES : Z := 1024.

Inductive CrawlRecoveryPhase := Initialized | Traversing | Finalizing.

#[export] Instance recovery_phase_eq_dec : EqDecision CrawlRecoveryPhase.
Proof. solve_decision. Defined.

Inductive CrawlRecoveryCheckpointError :=
| RcUnsupportedFormatVersion | RcUnexpectedPayloadKind | RcMalformedPayload
| RcIncompatibleRunIdentity | RcUnsupportedRunType | RcSerialization.

Definition is_supported_run_type (t : CrawlRunType) : bool :=
  match t with ProductionRun | QuickScrape => true | TestRun | DiscoveryPreview => false end.

Definition is_valid_hash (value : string) : bool :=
  (byte_len value =? 64) && forallb is_ascii_hexdigit (bytes value).

Section recovery.
Context `{U : UuidLib} `{L : UrlLib} `{SD : SerdeLib}.

Record CrawlRecoveryCheckpoint := {
  rc_format_version : Z;
  rc_crawl_run_id : CrawlRunId;
  rc_run_type : CrawlRunType;
  rc_snapshot_hash : string;
  rc_compatibility_hash : string;
  rc_crawler_version_id : option CrawlerVersionId;
  rc_semantic_config_hash : option string;
  rc_recovery_phase : CrawlRecoveryPhase
}.

#[export] Instance recovery_checkpoint_eq_dec : EqDecision CrawlRecoveryCheckpoint.
Proof. solve_decision. Defined.

(** ** Validation *)

Definition validate_shape (self : CrawlRecoveryCheckpoint) : result CrawlRecoveryCheckpointError unit :=
  let? _ := reject_if (negb (rc_format_version self =? CRAWL_RECOVERY_FORMAT_VERSION))
    RcUnsupportedFormatVersion in
  let? _ := reject_if (negb (is_supported_run_type (rc_run_type self))) RcUnsupportedRunType in
  let? _ := reject_if (negb (is_valid_hash (rc_snapshot_hash self))
    || negb (is_valid_hash (rc_compatibility_hash self))) RcIncompatibleRunIdentity in
  match rc_run_type self with
  | ProductionRun =>
    reject_if (is_none (rc_crawler_version_id self)
      || match rc_semantic_config_hash self with Some h => negb (is_valid_hash h) | None => true end)
      RcIncompatibleRunIdentity
  | QuickScrape =>
    reject_if (is_some (rc_crawler_version_id self) || is_some (rc_semantic_config_hash self))
      RcIncompatibleRunIdentity
  | TestRun | DiscoveryPreview => Err RcUnsupportedRunType
  end.

Definition snapshot_run_type (s : CrawlRunSnapshot) : CrawlRunType := draft_run_type (snapshot_draft s).

Definition validate_against (self : CrawlRecoveryCheckpoint) (s : CrawlRunSnapshot)
    : result CrawlRecoveryCheckpointError unit :=
  let? _ := reject_if (negb (is_supported_run_type (snapshot_run_type s))) RcUnsupportedRunType in
  let? _ := validate_shape self in
  let? _ := reject_if (bool_decide (rc_run_type self <> snapshot_run_type s)
    || negb (String.eqb (rc_snapshot_hash self) (snapshot_hash s))
    || negb (String.eqb (rc_compatibility_hash self) (checkpoint_compatibility_hash s)))
    RcIncompatibleRunIdentity in
  match draft_configuration (snapshot_draft s), rc_crawler_version_id self, rc_semantic_config_hash self with
  | ConfCrawlerVersion _ version hash, Some actual_version, Some actual_hash =>
    reject_if (negb (bool_decide (version = actual_version) && String.eqb hash actual_hash))
      RcIncompatibleRunIdentity
  | ConfQuickScrape _ _, None, None => Ok tt
  | _, _, _ => Err RcIncompatibleRunIdentity
  end.

(** The record [CrawlRecoveryCheckpoint::new] builds before it validates it. *)
Definition recovery_control (run : CrawlRunId) (s : CrawlRunSnapshot) (phase : CrawlRecoveryPhase)
    : CrawlRecoveryCheckpoint :=
  let ids := match draft_configuration (snapshot_draft s) with
    | ConfCrawlerVersion _ version hash => (Some version, Some hash)
    | ConfQuickScrape _ _ => (None, None)
    end in
  {| rc_format_version := CRAWL_RECOVERY_FORMAT_VERSION; rc_crawl_run_id := run;
     rc_run_type := snapshot_run_type s; rc_snapshot_hash := snapshot_hash s;
     rc_compatibility_hash := checkpoint_compatibility_hash s; rc_crawler_version_id := ids.1;
     rc_semantic_config_hash := ids.2; rc_recovery_phase := phase |}.

Definition recovery_new (run : CrawlRunId) (s : CrawlRunSnapshot) (phase : CrawlRecoveryPhase)
    : result CrawlRecoveryCheckpointError CrawlRecoveryCheckpoint :=
  let checkpoint := recovery_control run s phase in
  let? _ := validate_against checkpoint s in
  Ok checkpoint.

(** ** The serde form *)

Definition phase_as_str (p : CrawlRecoveryPhase) : string :=
  match p with
  | Initialized => "INITIALIZED" | Traversing => "TRAVERSING" | Finalizing => "FINALIZING"
  end.

Definition recovery_json (self : CrawlRecoveryCheckpoint) : Json :=
  JObject [("format_version"%string, number_json (rc_format_version self));
    ("crawl_run_id"%string, id_json (rc_crawl_run_id self));
    ("run_type"%string, run_type_json (rc_run_type self));
    ("snapshot_hash"%string, JString (rc_snapshot_hash self));
    ("checkpoint_compatibility_hash"%string, JString (rc_compatibility_hash self));
    ("crawler_version_id"%string, option_json id_json (rc_crawler_version_id self));
    ("semantic_config_hash"%string, option_json JString (rc_semantic_config_hash self));
    ("recovery_phase"%string, JString (phase_as_str (rc_recovery_phase self)))].

Definition unit_variant (v : Json) : option string :=
  match v with
  | JString name => Some name
  | JObject [(name, JNull)] => Some name
  | _ => None
  end.

Definition run_type_of_json (v : Json) : option CrawlRunType :=
  name ← unit_variant v;
  if String.eqb name "QUICK_SCRAPE" then Some QuickScrape
  else if String.eqb name "TEST_RUN" then Some TestRun
  else if String.eqb name "DISCOVERY_PREVIEW" then Some DiscoveryPreview
  else if String.eqb name "PRODUCTION_RUN" then Some ProductionRun
  else None.

Definition phase_of_json (v : Json) : option CrawlRecoveryPhase :=
  name ← unit_variant v;
  if String.eqb name "INITIALIZED" then Some Initialized
  else if String.eqb name "TRAVERSING" then Some Traversing
  else if String.eqb name "FINALIZING" then Some Finalizing
  else None.

(** A transparent identifier: any UUID, whatever its version. *)
Definition id_of_json {k} (v : Json) : option (typed_id k) :=
  text ← json_as_str v; mk_id <$> uuid_parse_str text.

(** [Option<T>]: [null], or a value. *)
Definition option_of_json {A} (f : Json -> option A) (v : Json) : option (option A) :=
  match v with JNull => Some None | _ => Some <$> f v end.

Definition recovery_of_json (v : Json) : option CrawlRecoveryCheckpoint :=
  version ← json_get "format_version" v ≫= json_unsigned u16_max;
  run ← json_get "crawl_run_id" v ≫= id_of_json;
  run_type ← json_get "run_type" v ≫= run_type_of_json;
  hash ← json_get "snapshot_hash" v ≫= json_as_str;
  compatibility ← json_get "checkpoint_compatibility_hash" v ≫= json_as_str;
  crawler_version ← json_get "crawler_version_id" v ≫= option_of_json id_of_json;
  config_hash ← json_get "semantic_config_hash" v ≫= option_of_json json_as_str;
  phase ← json_get "recovery_phase" v ≫= phase_of_json;
  Some {| rc_format_version := version; rc_crawl_run_id := run; rc_run_type := run_type;
          rc_snapshot_hash := hash; rc_compatibility_hash := compatibility;
          rc_crawler_version_id := crawler_version; rc_semantic_config_hash := config_hash;
          rc_recovery_phase := phase |}.

(** ** To and from the envelope *)

Definition to_envelope (self : CrawlRecoveryCheckpoint)
    : result CrawlRecoveryCheckpointError CheckpointEnvelope :=
  let? _ := validate_shape self in
  let body := recovery_json self in
  let? _ := reject_if (MAX_CRAWL_RECOVERY_PAYLOAD_BYTES <? byte_len (json_to_string body))
    RcSerialization in
  let? i := map_err (fun _ => RcSerialization)
    (identity_new (id_to_string (rc_crawl_run_id self)) (rc_snapshot_hash self)
      (rc_compatibility_hash self)) in
  let? kind := map_err (fun _ => RcSerialization) (payload_kind_new CRAWL_RECOVERY_PAYLOAD_KIND) in
  let? envelope := map_err (fun _ => RcSerialization) (envelope_new i kind body) in
  let? _ := map_err (fun _ => RcSerialization) (encode_envelope envelope) in
  Ok envelope.

Definition REQUIRED_FIELDS : list string :=
  ["crawl_run_id"; "run_type"; "snapshot_hash"; "checkpoint_compatibility_hash";
   "crawler_version_id"; "semantic_config_hash"; "recovery_phase"]%string.

Definition from_envelope (envelope : CheckpointEnvelope) (s : CrawlRunSnapshot) (run : CrawlRunId)
    : result CrawlRecoveryCheckpointError CrawlRecoveryCheckpoint :=
  let? _ := reject_if (negb (format_version envelope =? CHECKPOINT_ENVELOPE_FORMAT_VERSION))
    RcUnsupportedFormatVersion in
  let? _ := reject_if (negb (String.eqb (payload_kind envelope) CRAWL_RECOVERY_PAYLOAD_KIND))
    RcUnexpectedPayloadKind in
  let body := payload envelope in
  let? _ := reject_if (negb (is_object body)) RcMalformedPayload in
  let? _ := reject_if (is_some (json_get "payload_version" body)) RcMalformedPayload in
  let? version := ok_or RcMalformedPayload (json_get "format_version" body) in
  let? _ := reject_if
    match version with
    | JNumber _ => bool_decide (json_as_u64 version <> Some CRAWL_RECOVERY_FORMAT_VERSION)
    | _ => false
    end RcUnsupportedFormatVersion in
  let? _ := for_each (fun required =>
    reject_if (is_none (json_get required body)) RcMalformedPayload) REQUIRED_FIELDS in
  let? _ := reject_if (MAX_CRAWL_RECOVERY_PAYLOAD_BYTES <? byte_len (json_to_string body))
    RcMalformedPayload in
  let? checkpoint := ok_or RcMalformedPayload (recovery_of_json body) in
  let? _ := validate_against checkpoint s in
  let? _ := reject_if (bool_decide (rc_crawl_run_id checkpoint <> run)
    || negb (String.eqb (snapshot_id (identity envelope)) (id_to_string run))
    || negb (String.eqb (identity_snapshot_hash (identity envelope)) (rc_snapshot_hash checkpoint))
    || negb (String.eqb (compatibility_hash (identity envelope)) (rc_compatibility_hash checkpoint)))
    RcIncompatibleRunIdentity in
  Ok checkpoint.

(** ** Recovery ([recovery.rs]) *)

Inductive CrawlRecoveryValidationError :=
| RecoveryMissing | FormatUnsupported | RecoveryMalformed | IdentityMismatch | StateInvalid.

Definition diagnostic_code (e : CrawlRecoveryValidationError) : string :=
  match e with
  | RecoveryMissing => "CHECKPOINT_MISSING"
  | FormatUnsupported => "CHECKPOINT_FORMAT_UNSUPPORTED"
  | RecoveryMalformed => "CHECKPOINT_MALFORMED"
  | IdentityMismatch => "CHECKPOINT_IDENTITY_MISMATCH"
  | StateInvalid => "RECOVERY_STATE_INVALID"
  end.

Definition map_crawl_checkpoint_error (e : CrawlRecoveryCheckpointError) : CrawlRecoveryValidationError :=
  match e with
  | RcUnsupportedFormatVersion | RcUnexpectedPayloadKind | RcUnsupportedRunType => FormatUnsupported
  | RcMalformedPayload | RcSerialization => RecoveryMalformed
  | RcIncompatibleRunIdentity => IdentityMismatch
  end.

Definition map_checkpoint_repository_error (e : CheckpointRepositoryError)
    : option CrawlRecoveryValidationError :=
  match e with
  | UnsupportedFormatVersion => Some FormatUnsupported
  | Malformed | InvalidEnvelope | PayloadTooLarge | CkptSerialization => Some RecoveryMalformed
  | CkptDatabase _ | CkptNotFound | CkptLeaseLost => None
  end.

Definition checkpoint_error_code (e : JobRepositoryError) : option string :=
  match e with
  | CheckpointFailure e => diagnostic_code <$> map_checkpoint_repository_error e
  | _ => None
  end.

(** [ValidatedCrawlRecovery] holds the facts. *)
Definition validate_crawl_recovery (checkpoint : option CheckpointRecord) (s : CrawlRunSnapshot)
    (run : CrawlRunId) (current_status : CrawlRunStatus) (executions : list CrawlExecutionRecord)
    (discovered : list DiscoveredUrlRecord) (durable : option ReconstructedTraversalState)
    : result CrawlRecoveryValidationError CrawlStructuralFacts :=
  let? record := ok_or RecoveryMissing checkpoint in
  let? _ := map_err map_crawl_checkpoint_error (from_envelope (record_checkpoint record) s run) in
  let? state := ok_or StateInvalid durable in
  map_err (fun _ => StateInvalid)
    (reconstruct_crawl_structural_facts s current_status executions discovered
      (Some (rec_control state)) (Some (rec_work state))).
End recovery.

(** * Lemmas *)

Lemma ok_or_then_ok {E A B} (e : E) (o : option A) (k : A -> result E B) (b : B) :
  match ok_or e o with Ok x => k x | Err e => Err e end = Ok b <-> exists a, o = Some a /\ k a = Ok b.
Proof. destruct o; simpl; naive_solver. Qed.

(** The checks and bindings that a successful chain of [?] has passed. *)
Ltac peel_ok H :=
  repeat first
    [ apply reject_then_ok in H as [? H]
    | apply ok_or_then_ok in H as (? & ? & H)
    | apply then_ok in H as [? H] ].

Section lemmas.
Context `{U : UuidLib} `{L : UrlLib} `{SD : SerdeLib}.

Lemma validate_shape_ok self : validate_shape self = Ok tt ->
  rc_format_version self = CRAWL_RECOVERY_FORMAT_VERSION /\ is_supported_run_type (rc_run_type self) = true.
Proof.
  unfold validate_shape. rewrite !reject_then_ok, !negb_false_iff, Z.eqb_eq. by intros (-> & -> & _).
Qed.

Lemma validate_against_control self s :
  validate_against self s = Ok tt <->
  self = recovery_control (rc_crawl_run_id self) s (rc_recovery_phase self) /\
  validate_shape self = Ok tt.
Proof.
  unfold validate_against. rewrite reject_then_ok, then_ok, reject_then_ok, negb_false_iff.
  rewrite !orb_false_iff, bool_decide_eq_false, !negb_false_iff, !String.eqb_eq. split.
  - intros (_ & Hs & ((Ht & Hh) & Hc) & H). split; [|done]. apply dec_stable in Ht.
    unfold recovery_control. destruct self as [v run t h c version config phase]; simpl in *. subst.
    assert (v = CRAWL_RECOVERY_FORMAT_VERSION) as ->.
    { by apply validate_shape_ok in Hs as [? _]. }
    destruct (draft_configuration (snapshot_draft s)), version, config; try done; simpl.
    rewrite reject_if_ok, negb_false_iff, andb_true_iff, bool_decide_eq_true, String.eqb_eq in H.
    by destruct H as [-> ->].
  - intros [Hself Hs]. assert (snapshot_run_type s = rc_run_type self) as Hrt by (by rewrite Hself).
    assert (is_supported_run_type (rc_run_type self) = true) as Hsup.
    { by apply validate_shape_ok in Hs as [_ ?]. }
    split; [by rewrite Hrt|]. split; [done|]. rewrite Hrt.
    split; [split; [split; [tauto|]|]; by rewrite Hself|].
    rewrite Hself. simpl. destruct (draft_configuration (snapshot_draft s)); simpl; [|done].
    by rewrite bool_decide_eq_true_2, String.eqb_refl.
Qed.

(** An accepted envelope holds the control record of this run and snapshot, under this
    identity: only the phase is its own. *)
Lemma from_envelope_ok e s run c :
  from_envelope e s run = Ok c ->
  c = recovery_control run s (rc_recovery_phase c) /\
  identity e = {| snapshot_id := id_to_string run; identity_snapshot_hash := snapshot_hash s;
                  compatibility_hash := checkpoint_compatibility_hash s |} /\
  payload_kind e = CRAWL_RECOVERY_PAYLOAD_KIND /\ recovery_of_json (payload e) = Some c.
Proof.
  unfold from_envelope. cbv zeta. intros H. peel_ok H. simplify_eq.
  match goal with Ha : validate_against _ _ = Ok _ |- _ => apply validate_against_control in Ha as [Ha _] end.
  boolify. match goal with Hr : ~ (_ <> _) |- _ => apply dec_stable in Hr as <- end.
  split_and!; try done. destruct (identity e) as [i h p]; simpl in *. subst i h p.
  match goal with Ha : c = _ |- _ => by rewrite Ha end.
Qed.

(** ** Reading the written form back *)

Context {UL : UuidLaws U} {SL : SerdeLaws SD}.

Lemma recovery_json_wf c : json_wf (recovery_json c) = true.
Proof.
  unfold recovery_json. json_object; try apply pretty_Z_text; try done.
  - by destruct (rc_crawler_version_id c).
  - by destruct (rc_semantic_config_hash c).
Qed.

Lemma option_of_equiv {A} (f : A -> Json) (g : Json -> option A) o v :
  (forall x w, json_equiv (f x) w -> w <> JNull /\ g w = Some x) ->
  json_equiv (option_json f o) v -> option_of_json g v = Some o.
Proof.
  intros Hg. destruct o as [x|]; simpl; intros H.
  - destruct (Hg x v H) as [Hn Hx]. unfold option_of_json. destruct v; simpl; by rewrite ?Hx.
  - by apply json_equiv_null in H as ->.
Qed.

Lemma id_of_equiv {k} (i : typed_id k) v : json_equiv (id_json i) v -> v <> JNull /\ id_of_json v = Some i.
Proof.
  intros H. apply json_equiv_string in H as ->. split; [done|]. unfold id_of_json. simpl.
  unfold id_to_string. rewrite uuid_parse_to_string. by destruct i.
Qed.

Lemma run_type_of_equiv t v : json_equiv (run_type_json t) v -> run_type_of_json v = Some t.
Proof. intros ->%json_equiv_string. by destruct t. Qed.

Lemma phase_of_equiv p v : json_equiv (JString (phase_as_str p)) v -> phase_of_json v = Some p.
Proof. intros ->%json_equiv_string. by destruct p. Qed.

Lemma recovery_of_equiv c v :
  rc_format_version c = CRAWL_RECOVERY_FORMAT_VERSION -> json_equiv (recovery_json c) v ->
  recovery_of_json v = Some c /\ json_get "format_version" v = Some (JNumber "1") /\
  json_get "payload_version" v = None /\ is_object v = true /\
  for_each (fun required => reject_if (is_none (json_get required v)) RcMalformedPayload)
    REQUIRED_FIELDS = Ok tt.
Proof.
  intros Hv H. unfold recovery_of_json.
  assert (json_get "payload_version" v = None /\ is_object v = true) as [-> ->].
  { pose proof (json_get_equiv "payload_version" _ _ H) as Hf. cbn in Hf.
    apply json_equiv_object in H as (l' & -> & _). split; [|done]. by destruct (json_get _ _). }
  unfold REQUIRED_FIELDS. cbn [for_each].
  field_of H "format_version"%string. apply json_equiv_number in Hf as ->. rewrite Hv.
  field_of H "crawl_run_id"%string. apply id_of_equiv in Hf as [_ Hid].
  field_of H "run_type"%string.
  apply run_type_of_equiv in Hf as Ht.
  field_of H "snapshot_hash"%string. apply json_equiv_string in Hf0 as ->.
  field_of H "checkpoint_compatibility_hash"%string. apply json_equiv_string in Hf0 as ->.
  field_of H "crawler_version_id"%string. apply (option_of_equiv _ id_of_json) in Hf0; [|apply id_of_equiv].
  field_of H "semantic_config_hash"%string. apply (option_of_equiv _ json_as_str) in Hf1;
    [|by intros x w ->%json_equiv_string].
  field_of H "recovery_phase"%string.
  apply phase_of_equiv in Hf2 as Hp.
  cbn [mbind option_bind]. rewrite Hid. cbn [mbind option_bind]. rewrite Ht. cbn [mbind option_bind json_as_str].
  rewrite Hf0. cbn [mbind option_bind]. rewrite Hf1. cbn [mbind option_bind]. rewrite Hp.
  split_and!; try done. destruct c; simpl in *. by subst.
Qed.
End lemmas.

(** * Theorems *)

Section theorems.
Context `{U : UuidLib} `{L : UrlLib} `{SD : SerdeLib}.

(** A recovery checkpoint accepted for a run carries no authority of its own: it is the
    control record of exactly this run and snapshot, stored under their identity, and
    only its phase is read from it. *)
Theorem recovery_identity_exact e s run c (H : from_envelope e s run = Ok c) :
  (exists phase, c = recovery_control run s phase) /\
  identity e = {| snapshot_id := id_to_string run; identity_snapshot_hash := snapshot_hash s;
                  compatibility_hash := checkpoint_compatibility_hash s |} /\
  payload_kind e = CRAWL_RECOVERY_PAYLOAD_KIND.
Proof. apply from_envelope_ok in H as (Hc & Hi & Hk & _). split; [by eexists|done]. Qed.

Context {UL : UuidLaws U} {SL : SerdeLaws SD}.

Lemma recovery_new_ok run s phase c : recovery_new run s phase = Ok c ->
  c = recovery_control run s phase /\ validate_against c s = Ok tt.
Proof. unfold recovery_new. cbv zeta. intros H. peel_ok H. by simplify_eq. Qed.

Lemma to_envelope_ok c e : to_envelope c = Ok e ->
  e = {| format_version := CHECKPOINT_ENVELOPE_FORMAT_VERSION; ckpt_sequence := 0;
         identity := {| snapshot_id := id_to_string (rc_crawl_run_id c);
                        identity_snapshot_hash := rc_snapshot_hash c;
                        compatibility_hash := rc_compatibility_hash c |};
         payload_kind := CRAWL_RECOVERY_PAYLOAD_KIND; payload := recovery_json c |}.
Proof.
  unfold to_envelope, identity_new, payload_kind_new, envelope_new. cbv zeta.
  destruct (validate_shape c) as [[]|]; [|done]. destruct (reject_if _ _) as [[]|]; [|done].
  destruct (identity_validate _) as [[]|]; simpl; [|done].
  destruct (envelope_validate _) as [[]|]; simpl; [|done].
  destruct (encode_envelope _); simpl; [|done]. congruence.
Qed.

Lemma read_back_control c e n e' s run phase :
  recovery_new run s phase = Ok c -> to_envelope c = Ok e -> same_envelope (with_sequence n e) e' ->
  byte_len (json_to_string (payload e')) <= MAX_CRAWL_RECOVERY_PAYLOAD_BYTES ->
  from_envelope e' s run = Ok c.
Proof.
  intros [Hc Ha]%recovery_new_ok He%to_envelope_ok (Hv & _ & Hi & Hk & Hp) Hlen. subst e.
  cbn [format_version identity payload_kind payload with_sequence] in *.
  apply recovery_of_equiv in Hp as (Hr & Hfv & Hpv & Ho & Hreq); [|by rewrite Hc].
  unfold from_envelope. cbv zeta. rewrite Hv, Hk, Ho, Hpv, Hfv. cbn [reject_if ok_or].
  rewrite Hreq. unfold reject_if at 4. rewrite (proj2 (Z.ltb_ge _ _)) by done.
  rewrite Hr. cbn [ok_or]. rewrite Ha, Hi.
  cbn [snapshot_id identity_snapshot_hash compatibility_hash]. rewrite !String.eqb_refl.
  replace (rc_crawl_run_id c) with run by (by rewrite Hc).
  rewrite !String.eqb_refl, (bool_decide_eq_false_2 (run <> run)) by (intros Hx; by apply Hx). done.
Qed.

(** The control record of a run survives its storage: appended under any sequence number,
    encoded, and decoded again, it is accepted for the same run and snapshot and yields
    the record that was written, provided the payload, written again, is within the
    length the reader accepts: [serde_json] may order the fields it has read back
    differently. *)
Theorem recovery_control_round_trip run s phase c e n text
    (Hnew : recovery_new run s phase = Ok c) (Hto : to_envelope c = Ok e)
    (Hn : 1 <= n <= u64_max) (Henc : encode_envelope (with_sequence n e) = Ok text) :
  exists e', decode_envelope text (byte_len text) = Ok e' /\ ckpt_sequence e' = n /\
    (byte_len (json_to_string (payload e')) <= MAX_CRAWL_RECOVERY_PAYLOAD_BYTES ->
     from_envelope e' s run = Ok c).
Proof.
  destruct (decode_encoded (with_sequence n e) text (byte_len text)) as (e' & Hd & Hsame); [|done..|].
  { apply to_envelope_ok in Hto as ->. exact (recovery_json_wf c). }
  exists e'. split; [done|]. split; [by destruct Hsame as (_ & -> & _)|].
  by apply (read_back_control c e n e' s run phase).
Qed.

(** C26. Work resumes exactly when a checkpoint exists, is accepted for this run and snapshot,
    the durable traversal state can be read and its evidence is coherent. *)
Theorem recovery_authorised_iff checkpoint s run st executions discovered durable
    (Hsize : forall d, durable = Some d ->
       Z.of_nat (evidence_size executions discovered (Some (rec_work d))) < u64_max) :
  is_ok (validate_crawl_recovery checkpoint s run st executions discovered durable) = true <->
  exists record c d, checkpoint = Some record /\ durable = Some d /\
    from_envelope (record_checkpoint record) s run = Ok c /\
    evidence_coherent executions discovered (Some (rec_control d)) (Some (rec_work d)).
Proof.
  unfold validate_crawl_recovery. split.
  - destruct checkpoint as [record|]; [|done]. simpl.
    destruct (from_envelope _ _ _) as [c|] eqn:Hc; [|done]. destruct durable as [d|]; [|done]. simpl.
    destruct (reconstruct_crawl_structural_facts _ _ _ _ _ _) as [f|] eqn:Hf; [|done]. intros _.
    apply reconstruct_facts in Hf as [Hcoh _]; [|by apply Hsize]. by exists record, c, d.
  - intros (record & c & d & -> & -> & Hc & Hcoh). simpl. rewrite Hc. simpl.
    rewrite reconstruct_coherent by auto. done.
Qed.
End theorems.

(** * Witnesses *)

Section witnesses.
#[local] Existing Instances plain_uuid plain_url compact_serde compact_serde_laws.

Definition example_hash : string := "0123456789abcdef0123456789abcdef0123456789abcdef0123456789abcdef".

Definition recovery_snapshot : CrawlRunSnapshot := {|
  snapshot_draft := example_draft "operator"; snapshot_hash := example_hash;
  checkpoint_compatibility_hash := example_hash |}.

Definition recovery_example : CrawlRecoveryCheckpoint :=
  recovery_control facts_run recovery_snapshot Traversing.

Definition recovery_envelope (n : Z) : CheckpointEnvelope := {|
  format_version := CHECKPOINT_ENVELOPE_FORMAT_VERSION; ckpt_sequence := n;
  identity := {| snapshot_id := id_to_string facts_run; identity_snapshot_hash := example_hash;
                 compatibility_hash := example_hash |};
  payload_kind := CRAWL_RECOVERY_PAYLOAD_KIND; payload := recovery_json recovery_example |}.

Definition recovery_record : CheckpointRecord := {|
  record_id := "r"; record_job_id := "j"; record_attempt_id := Some "a";
  record_checkpoint := recovery_envelope 1; record_created_at := 0 |}.

Definition recovery_durable : ReconstructedTraversalState := {|
  rec_control := {| ctl_run := id_to_string facts_run;
    ctl_columns := {| ct_consumed_bytes := 0; ct_raw_link_count := 0; ct_duplicate_count := 0;
      ct_robots_excluded_count := 0; ct_provider_error_count := 0; ct_external_url_count := 0;
      ct_blocked_url_count := 0; ct_peak_expansion_count := 0; ct_elapsed_millis := 0;
      ct_time_budget_hit := false; ct_duration_work_not_expanded := false;
      ct_pagination_truncation_count := 0; ct_next_admission_sequence := 1 |} |};
  rec_work := [facts_state]; rec_transition_source_counts := []; rec_page_type_counts := [] |}.

Lemma recovery_identity_exact_witness :
  exists phase, recovery_example = recovery_control facts_run recovery_snapshot phase.
Proof.
  apply (recovery_identity_exact (recovery_envelope 1) recovery_snapshot facts_run recovery_example).
  vm_compute. reflexivity.
Defined.

Lemma recovery_control_round_trip_witness : exists text e',
  encode_envelope (recovery_envelope 3) = Ok text /\
  decode_envelope text (byte_len text) = Ok e' /\ ckpt_sequence e' = 3.
Proof.
  destruct (encode_envelope (recovery_envelope 3)) as [text|err] eqn:Ht;
    [|exfalso; vm_compute in Ht; discriminate Ht].
  exists text.
  destruct (recovery_control_round_trip facts_run recovery_snapshot Traversing recovery_example
    (recovery_envelope 0) 3 text) as (e' & H1 & H2 & _);
    [vm_compute; reflexivity|vm_compute; reflexivity|split; vm_compute; discriminate|exact Ht|].
  exists e'. split; [reflexivity|]. split; [exact H1|exact H2].
Defined.

Lemma recovery_authorised_iff_witness :
  evidence_coherent facts_executions [] (Some (rec_control recovery_durable)) (Some [facts_state]).
Proof.
  destruct (recovery_authorised_iff (Some recovery_record) recovery_snapshot facts_run RunRunning
    facts_executions [] (Some recovery_durable)) as [H _].
  - intros d Hd. apply (f_equal (default recovery_durable)) in Hd. simpl in Hd. subst d.
    vm_compute. reflexivity.
  - destruct H as (record & c & d & _ & Hd & _ & Hc); [vm_compute; reflexivity|].
    apply (f_equal (default recovery_durable)) in Hd. simpl in Hd. subst d. exact Hc.
Defined.
End witnesses.
