(* ===== verification/Finalization.v ===== *)
(** * Finalization of a production crawl

    [crates/erabi-jobs/src/production/finalization.rs]: what a crawl is declared to be once
    its pages have been executed.  It composes the repositories' readings, the recovery
    checkpoint, the structural facts and the complete-snapshot decision, and commits the
    summary and the final status in one transaction. *)

From S2P Require Import Prelude Externals JsonFacts Base Instances Settings Snapshot Guardrails Crawler.
From S2P Require Import TraversalTables Store TraversalStore Progress Checkpoint Runs Traversal.
From S2P Require Import CrawlExecution JobQueue StructuralFacts Diagnostics CrawlRecovery.
From S2P Require Import TraversalTheorems ExecutionTheorems.

(** [TerminalCrawlRunCommit] ([lib.rs]): what the handler's context is told of a terminal
    run, by [mark_terminal_crawl_run] and [mark_terminal_progress_durable]. *)
Record TerminalCrawlRunCommit := {
  commit_run_id : string;
  commit_status : CrawlRunStatus;
  terminal_progress_durable : bool
}.

Definition eta_commit (c : TerminalCrawlRunCommit) : TerminalCrawlRunCommit :=
  {| commit_run_id := commit_run_id c; commit_status := commit_status c;
     terminal_progress_durable := terminal_progress_durable c |}.
#[export] Instance set_progress_durable : Setter terminal_progress_durable.
Proof. setter_of eta_commit terminal_progress_durable. Defined.

Definition production_recovery_error (operation : ExecutionOperation) (e : CrawlRecoveryValidationError)
    : ExecutionDiagnostics :=
  checkpoint_failure operation (diagnostic_code e).

Definition production_checkpoint_load_error (operation : ExecutionOperation) (e : JobRepositoryError)
    : ExecutionDiagnostics :=
  checkpoint_failure operation (default "CHECKPOINT_LOAD_FAILED"%string (checkpoint_error_code e)).

Definition production_traversal_error (operation : ExecutionOperation) (e : CrawlTraversalRepositoryError)
    : ExecutionDiagnostics :=
  match e with
  | TrCrawlRunNotFound | TrInvalidState | TrCorruptState => production_recovery_error operation StateInvalid
  | TrCheckpoint e =>
    match map_checkpoint_repository_error e with
    | Some mapped => production_recovery_error operation mapped
    | None => checkpoint_failure operation "CHECKPOINT_LOAD_FAILED"
    end
  | TrDatabase _ => repository_error operation "TRAVERSAL_STATE_LOAD_FAILED"
  | TrDiscovery _ => repository_error operation "DISCOVERY_LOAD_FAILED"
  end.

Definition finalization_error (run : string) : ExecutionDiagnostics :=
  production_error (with_run run
    (diagnostic_new CatFinalization FinalizeRun DoRetry "CRAWL_RUN_FINALIZATION_FAILED")).

Section finalization.
Context `{U : UuidLib} `{L : UrlLib} `{SD : SerdeLib} `{J : JsonLib} `{Hash : HashLib} `{Hosts : HostLib}.
Context `{W : !SnapshotWire} `{V : !VersionWire}.

Definition facts_summary (run : CrawlRunId) (i : CompleteSnapshotStructuralInput) : CrawlExecutionSummary :=
  {| summary_run_id := run;
     summary_columns := {|
       sm_in_scope_pages_planned := in_scope_pages_planned i;
       sm_in_scope_pages_completed := in_scope_pages_completed i;
       sm_pagination_truncation_count := pagination_truncation_count i;
       sm_unresolved_partial_work_count := unresolved_partial_work_count i;
       sm_page_type_ambiguity_count := page_type_ambiguity_count i |} |}.

(** The facts a finalization commits, from what it reads; it does not change the store.
    [latest] is the answer of [latest_checkpoint_for_lineage]. *)
Definition facts_to_finalize (latest : result JobRepositoryError (option CheckpointRecord))
    (s : CrawlRunSnapshot) (run : CrawlRunId) (current_status : CrawlRunStatus)
    (health : ExtractionHealth) (db : Db)
    : result ExecutionDiagnostics (CrawlStructuralFacts * CompleteSnapshotStructuralInput) :=
  let? executions := map_err (fun _ => repository_error PersistExecution "EXECUTIONS_LOAD_FAILED")
    (list_for_run run db) in
  let? discovered := map_err (fun _ => repository_error LoadRunSnapshot "DISCOVERY_LOAD_FAILED")
    (discovered_urls_of run db) in
  let? record := map_err (production_checkpoint_load_error LoadCheckpoint) latest in
  let? durable := map_err (production_traversal_error LoadCheckpoint)
    (reconstruct_recovery_state (id_to_string run) db) in
  let? _ := match record with
    | Some r => map_err (production_recovery_error LoadCheckpoint)
        (let? _ := validate_crawl_recovery (Some r) s run current_status executions discovered
           (Some durable) in Ok tt)
    | None => Ok tt
    end in
  let? facts := map_err (fun _ => production_recovery_error FinalizeRun StateInvalid)
    (reconstruct_crawl_structural_facts s current_status executions discovered
      (Some (rec_control durable)) (Some (rec_work durable))) in
  let input := complete_snapshot_input s facts health in
  let? _ := map_err (fun _ => finalization_error (id_to_string run)) (decide_snapshot input) in
  Ok (facts, input).

(** [fuel] bounds the walk along the job's ancestors; no fuel answers [None]. *)
Definition finalize_durable_evidence (fuel : nat) (job : string) (s : CrawlRunSnapshot)
    (run : CrawlRunId) (current_status : CrawlRunStatus) (health : ExtractionHealth) (db : Db)
    : option (result ExecutionDiagnostics (CrawlRunStatus * TerminalCrawlRunCommit) * Db) :=
  latest ← latest_checkpoint_for_lineage fuel job db;
  Some match facts_to_finalize latest s run current_status health db with
  | Err e => (Err e, db)
  | Ok (facts, input) =>
    match finalize (facts_summary run input) (facts_status facts) db with
    | (Err _, db') => (Err (finalization_error (id_to_string run)), db')
    | (Ok _, db') =>
      (Ok (facts_status facts, {| commit_run_id := id_to_string run; commit_status := facts_status facts;
             terminal_progress_durable := false |}), db')
    end
  end.

(** [finalize_ready_for_post_crawl] and [finalize_cancelled]. *)
Definition finalize_ready_for_post_crawl (fuel : nat) (job : string) (s : CrawlRunSnapshot)
    (run : CrawlRunId) (current_status : CrawlRunStatus) :=
  finalize_durable_evidence fuel job s run current_status NotEvaluated.
Definition finalize_cancelled (fuel : nat) (job : string) (s : CrawlRunSnapshot) (run : CrawlRunId) :=
  finalize_durable_evidence fuel job s run RunCancelled NotEvaluated.
End finalization.

(** * Lemmas *)

Section lemmas.
Context `{U : UuidLib} `{L : UrlLib} `{SD : SerdeLib} `{J : JsonLib} `{Hash : HashLib} `{Hosts : HostLib}.
Context `{W : !SnapshotWire} `{V : !VersionWire}.

Definition with_summary (key : string) (c : SummaryColumns) (db : Db) : Db :=
  with_traversal (set_execution_summaries (<[key := c]> (execution_summaries (traversal db)))
    (traversal db)) db.

Definition with_run_status (key : string) (row : RunRow) (status : CrawlRunStatus) (db : Db) : Db :=
  with_runs (<[key := set_run_status status row]> (crawl_runs db)) db.

Lemma save_summary_ok s values db u db' :
  save_summary_in_transaction s values db = Ok (u, db') ->
  db' = with_summary (id_to_string (summary_run_id s)) values db.
Proof.
  unfold save_summary_in_transaction. intros H. tx_step H.
  destruct (execution_summaries (traversal db) !! _) as [existing|] eqn:He.
  - unfold dbx in H. tx_step H. match goal with Hu : update_summary _ _ _ = _ |- _ => revert Hu end.
    unfold update_summary. destruct (update_where _ _ _ _) as [[n t]|] eqn:Hw; [|done].
    intros [= -> <-]. apply negb_false_iff, Nat.eqb_eq in Erej as ->.
    apply update_where_one in Hw as (k & r & (Hk & Hp & _) & _ & ->). apply String.eqb_eq in Hp as ->. done.
  - unfold dbx in H. tx_step H. unfold insert_summary in H. by apply constrained_ok in H as [_ ->].
Qed.

Lemma transition_from_ok from status illegal id db u db' :
  transition_from from status illegal id db = Ok (u, db') ->
  exists row, crawl_runs db !! id_to_string id = Some row /\ run_status row ∈ from /\
    db' = with_run_status (id_to_string id) row status db.
Proof.
  unfold transition_from. intros H. tx_step H.
  match goal with Hu : update_run_status _ _ _ _ = _ |- _ => revert Hu end.
  unfold update_run_status. destruct (update_where _ _ _ _) as [[n t]|] eqn:Hw; [|done].
  intros [= -> <-]. match type of H with context [Nat.eqb ?n 1] => destruct (Nat.eqb_spec n 1) as [->|] end.
  - tx_step H. apply update_where_one in Hw as (k & r & (Hk & Hp & _) & _ & ->).
    apply andb_true_iff in Hp as [->%String.eqb_eq Hp%bool_decide_eq_true]. by exists r.
  - tx_step H.
Qed.

(** The run statuses a final status may follow. *)
Definition may_become (status : CrawlRunStatus) : list CrawlRunStatus :=
  match status with
  | RunCancelled => [RunQueued; RunRunning; RunCancelled]
  | other => default [] (execution_sources other)
  end.

Lemma finalize_ok s status db u db' :
  finalize s status db = (Ok u, db') ->
  exists row, crawl_runs db !! id_to_string (summary_run_id s) = Some row /\
    run_status row ∈ may_become status /\
    db' = with_run_status (id_to_string (summary_run_id s)) row status
            (with_summary (id_to_string (summary_run_id s)) (summary_columns s) db).
Proof.
  unfold finalize. destruct (summary_sql_values s) as [values|] eqn:Hv; [|done].
  assert (values = summary_columns s) as ->.
  { unfold summary_sql_values in Hv. peel_ok Hv. destruct (collect _ _); [|done]. congruence. }
  rewrite transact_ok. intros H. tx_step H.
  match goal with Hs : save_summary_in_transaction _ _ _ = _ |- _ => apply save_summary_ok in Hs; subst end.
  unfold may_become. destruct (decide (status = RunCancelled)) as [->|Hne].
  - rewrite bool_decide_eq_true_2 in H by done. by apply transition_from_ok in H.
  - rewrite bool_decide_eq_false_2 in H by done. unfold transition_execution_status_in_transaction in H.
    destruct (execution_sources status) as [from|] eqn:Hs; [|done].
    apply transition_from_ok in H as (row & Hrow & Hin & ->). exists row.
    destruct status; try done; simpl in *; simplify_eq; done.
Qed.

Lemma finalize_err s status db e db' : finalize s status db = (Err e, db') -> db' = db.
Proof.
  unfold finalize. destruct (summary_sql_values s); [|congruence]. apply transact_err.
Qed.
End lemmas.

Lemma not_evaluated_incomplete i d :
  decide_snapshot i = Ok d -> extraction_health i = NotEvaluated ->
  exists reasons, d = Incomplete reasons /\ ExtractionHealthNotEvaluated ∈ reasons.
Proof.
  unfold decide_snapshot. intros H Hh. rewrite Hh in H. apply reject_then_ok in H as [_ H].
  match type of H with match ?l with _ => _ end = _ =>
    assert (ExtractionHealthNotEvaluated ∈ l) as Hin by set_solver; destruct l as [|reason rest] end.
  - by apply not_elem_of_nil in Hin.
  - exists (reason :: rest). split; [congruence|done].
Qed.

(** * Theorems *)

Section theorems.
Context `{U : UuidLib} `{L : UrlLib} `{SD : SerdeLib} `{J : JsonLib} `{Hash : HashLib} `{Hosts : HostLib}.
Context `{W : !SnapshotWire} `{V : !VersionWire}.

(** The durable evidence of a run, as the repositories read it. *)
Record run_evidence (run : CrawlRunId) (db : Db) (executions : list CrawlExecutionRecord)
    (discovered : list DiscoveredUrlRecord) (durable : ReconstructedTraversalState) : Prop := {
  evidence_executions : list_for_run run db = Ok executions;
  evidence_discovered : discovered_urls_of run db = Ok discovered;
  evidence_durable : reconstruct_recovery_state (id_to_string run) db = Ok durable
}.

Lemma facts_to_finalize_ok latest s run st health db facts input :
  facts_to_finalize latest s run st health db = Ok (facts, input) ->
  exists executions discovered durable, run_evidence run db executions discovered durable /\
    reconstruct_crawl_structural_facts s st executions discovered (Some (rec_control durable))
      (Some (rec_work durable)) = Ok facts /\
    input = complete_snapshot_input s facts health.
Proof.
  unfold facts_to_finalize.
  destruct (list_for_run run db) as [executions|] eqn:He; [|done]. simpl.
  destruct (discovered_urls_of run db) as [discovered|] eqn:Hd; [|done]. simpl.
  destruct latest as [record|]; [|done]. simpl.
  destruct (reconstruct_recovery_state (id_to_string run) db) as [durable|] eqn:Hr; [|done]. simpl.
  destruct (match record with Some _ => _ | None => _ end) as [[]|]; [|done].
  destruct (reconstruct_crawl_structural_facts _ _ _ _ _ _) as [f|] eqn:Hf; [|done]. simpl.
  destruct (decide_snapshot _); [|done]. intros [= <- <-]. by exists executions, discovered, durable.
Qed.

(** C15. A finalization commits exactly the facts of the run's durable evidence: its summary
    and its final status are written together and nothing else changes, a final status
    never follows an incompatible one, the committed run is the one the worker is told of,
    and a finalization that fails leaves the store as it was. *)
Theorem finalization_commits_facts fuel job s run st health db outcome db'
    (H : finalize_durable_evidence fuel job s run st health db = Some (outcome, db')) :
  match outcome with
  | Err _ => db' = db
  | Ok (status, commit) =>
    exists executions discovered durable facts row,
      run_evidence run db executions discovered durable /\
      reconstruct_crawl_structural_facts s st executions discovered (Some (rec_control durable))
        (Some (rec_work durable)) = Ok facts /\
      status = facts_status facts /\
      crawl_runs db !! id_to_string run = Some row /\ run_status row ∈ may_become status /\
      db' = with_run_status (id_to_string run) row status
              (with_summary (id_to_string run)
                 (summary_columns (facts_summary run (complete_snapshot_input s facts health))) db) /\
      commit = {| commit_run_id := id_to_string run; commit_status := status;
                  terminal_progress_durable := false |}
  end.
Proof.
  unfold finalize_durable_evidence in H. destruct (latest_checkpoint_for_lineage fuel job db) as [latest|]; [|done].
  simpl in H. destruct (facts_to_finalize latest s run st health db) as [[facts input]|] eqn:Hf.
  2: { by simplify_eq. }
  apply facts_to_finalize_ok in Hf as (ex & disc & dur & Hev & Hfacts & ->).
  destruct (finalize _ _ db) as [[[]|e] db1] eqn:Hfin; simplify_eq.
  - apply finalize_ok in Hfin as (row & Hrow & Hin & ->). by exists ex, disc, dur, facts, row.
  - by apply finalize_err in Hfin.
Qed.

(** A crawl finalized after its pages were executed has the extraction health
    [NotEvaluated]: whatever its pages, the decision its finalization takes names that
    reason, so that no crawl is trusted as a complete snapshot before its extraction was
    evaluated. *)
Theorem finalization_never_trusts_unevaluated fuel job s run st db status commit db'
    (H : finalize_ready_for_post_crawl fuel job s run st db = Some (Ok (status, commit), db')) :
  exists facts, status = facts_status facts /\
    exists reasons, decide_snapshot (complete_snapshot_input s facts NotEvaluated) = Ok (Incomplete reasons)
      /\ ExtractionHealthNotEvaluated ∈ reasons.
Proof.
  unfold finalize_ready_for_post_crawl, finalize_durable_evidence in H.
  destruct (latest_checkpoint_for_lineage fuel job db) as [latest|]; [|done]. simpl in H.
  destruct (facts_to_finalize latest s run st NotEvaluated db) as [[facts input]|] eqn:Hf; [|done].
  exists facts. destruct (finalize _ _ db) as [[[]|e] db1]; simplify_eq. split; [done|].
  revert Hf. unfold facts_to_finalize.
  destruct (list_for_run run db) as [executions|]; [|done]. simpl.
  destruct (discovered_urls_of run db) as [discovered|]; [|done]. simpl.
  destruct latest as [record|]; [|done]. simpl.
  destruct (reconstruct_recovery_state (id_to_string run) db) as [durable|]; [|done]. simpl.
  destruct (match record with Some _ => _ | None => _ end) as [[]|]; [|done].
  destruct (reconstruct_crawl_structural_facts _ _ _ _ _ _) as [f|]; [|done]. simpl.
  destruct (decide_snapshot _) as [d|] eqn:Hd; [|done]. intros [= <- _]. rewrite Hd.
  apply not_evaluated_incomplete in Hd; [|done]. destruct Hd as (reasons & -> & Hin). by exists reasons.
Qed.
End theorems.

(** * Witnesses *)

Section witnesses.
#[local] Existing Instances plain_uuid plain_url.

Definition finalized_snapshot : CrawlRunSnapshot := {|
  snapshot_draft := crawl_draft; snapshot_hash := crawl_hash;
  checkpoint_compatibility_hash := crawl_compatibility |}.

(** The run whose one page was recorded as completed. *)
Definition finalized : option (result ExecutionDiagnostics (CrawlRunStatus * TerminalCrawlRunCommit) * Db) :=
  finalize_ready_for_post_crawl 3 "retry" finalized_snapshot crawl_run RunRunning crawl_recorded.

Definition finalized_db : Db := default crawl_recorded (snd <$> finalized).

Definition finalized_commit : TerminalCrawlRunCommit :=
  {| commit_run_id := crawl_run_text; commit_status := RunSucceeded; terminal_progress_durable := false |}.

Lemma finalized_ok :
  finalize_durable_evidence 3 "retry" finalized_snapshot crawl_run RunRunning NotEvaluated crawl_recorded =
  Some (Ok (RunSucceeded, finalized_commit), finalized_db).
Proof.
  change (finalized = Some (Ok (RunSucceeded, finalized_commit), finalized_db)).
  unfold finalized_db. assert (fst <$> finalized = Some (Ok (RunSucceeded, finalized_commit))) as H
    by (vm_compute; reflexivity).
  revert H. destruct finalized as [[o d]|]; simpl; congruence.
Qed.

Lemma finalization_commits_facts_witness : exists facts row,
  RunSucceeded = facts_status facts /\ crawl_runs crawl_recorded !! crawl_run_text = Some row /\
  run_status row ∈ [RunQueued; RunRunning; RunSucceeded].
Proof.
  destruct (finalization_commits_facts 3 "retry" finalized_snapshot crawl_run RunRunning NotEvaluated
    crawl_recorded (Ok (RunSucceeded, finalized_commit)) finalized_db finalized_ok)
    as (ex & disc & dur & facts & row & _ & _ & Hs & Hr & Hin & _).
  exists facts, row. split; [exact Hs|]. split; [exact Hr|exact Hin].
Defined.

Lemma finalization_never_trusts_unevaluated_witness : exists facts, RunSucceeded = facts_status facts.
Proof.
  destruct (finalization_never_trusts_unevaluated 3 "retry" finalized_snapshot crawl_run RunRunning
    crawl_recorded RunSucceeded finalized_commit finalized_db finalized_ok) as (facts & H & _).
  exists facts. exact H.
Defined.
End witnesses.
