(* ===== verification/WorkerSignals.v ===== *)
(** * Signals to running work

    [crates/erabi-jobs/src/cancellation.rs] and [storage_pressure.rs]: the controllers that
    tell the handler of a running job that it should stop.  A token is a shared flag: the
    store of all tokens is a list, a token its index, so that a controller and a handler
    hold the same flag.

    Each critical section under a controller's mutex is one step, and so is each signal
    sent after the mutex was released: [in_flight] holds the tokens that a thread has
    read out of the controller and not yet signalled.  The critical sections do not
    panic, so a mutex is never poisoned.

    The wake-up of a waiting handler is tokio's [Notify], an interface whose laws are its
    documentation. *)

From S2P Require Import Prelude Externals Base Instances JobQueue.

(** ** Cancellation *)

Record CancellationController := {
  requested : gset string;
  active : gmap string nat;
  shutdown_requested : bool;
  flags : list bool;
  in_flight : gset nat
}.

Definition eta_controller (c : CancellationController) : CancellationController :=
  {| requested := requested c; active := active c; shutdown_requested := shutdown_requested c;
     flags := flags c; in_flight := in_flight c |}.

#[export] Instance set_requested : Setter requested.
Proof. setter_of eta_controller requested. Defined.
#[export] Instance set_active : Setter active.
Proof. setter_of eta_controller active. Defined.
#[export] Instance set_shutdown : Setter shutdown_requested.
Proof. setter_of eta_controller shutdown_requested. Defined.
#[export] Instance set_flags : Setter flags.
Proof. setter_of eta_controller flags. Defined.
#[export] Instance set_in_flight : Setter in_flight.
Proof. setter_of eta_controller in_flight. Defined.

(** [CancellationController::default]. *)
Definition controller_new : CancellationController :=
  {| requested := ∅; active := ∅; shutdown_requested := false; flags := []; in_flight := ∅ |}.

Definition is_cancelled (t : nat) (c : CancellationController) : bool := default false (flags c !! t).

(** [CancellationToken::cancel]: the swap of the flag. *)
Definition cancel_token (t : nat) (c : CancellationController) : CancellationController :=
  c <| flags ::= insert t true |> <| in_flight ::= (fun l => l ∖ {[t]}) |>.

Definition register (job : string) (c : CancellationController) : nat * CancellationController :=
  let cancel_now := shutdown_requested c || bool_decide (job ∈ requested c) in
  let t := length (flags c) in
  (t, c <| flags ::= (fun l => l ++ [cancel_now]) |> <| active ::= insert job t |>).

(** The critical sections of [request] and [cancel_all]. *)
Definition request_locked (job : string) (c : CancellationController) : CancellationController :=
  let c := c <| requested ::= union {[job]} |> in
  match active c !! job with
  | Some t => c <| in_flight ::= union {[t]} |>
  | None => c
  end.

Definition active_tokens (c : CancellationController) : gset nat :=
  list_to_set (map snd (map_to_list (active c))).

Definition cancel_all_locked (c : CancellationController) : CancellationController :=
  c <| shutdown_requested := true |> <| in_flight ::= union (active_tokens c) |>.

(** A thread that runs them alone: the tokens it read are signalled before it returns. *)
Definition deliver (tokens : gset nat) (c : CancellationController) : CancellationController :=
  set_fold cancel_token c tokens.
Definition request (job : string) (c : CancellationController) : CancellationController :=
  match active c !! job with
  | Some t => cancel_token t (request_locked job c)
  | None => request_locked job c
  end.
Definition cancel_all (c : CancellationController) : CancellationController :=
  deliver (active_tokens c) (cancel_all_locked c).

Definition release (job : string) (terminal_boundary : bool) (c : CancellationController)
    : CancellationController :=
  let c := c <| active ::= delete job |> in
  if terminal_boundary then c <| requested ::= (fun l => l ∖ {[job]}) |> else c.

Definition retire_after_terminal_boundary (job : string) (c : CancellationController)
    : CancellationController :=
  c <| requested ::= (fun l => l ∖ {[job]}) |>.

(** Any thread's next step. *)
Inductive controller_step : CancellationController -> CancellationController -> Prop :=
| step_register job c : controller_step c (register job c).2
| step_request job c : controller_step c (request_locked job c)
| step_cancel_all c : controller_step c (cancel_all_locked c)
| step_deliver t c : t ∈ in_flight c -> controller_step c (cancel_token t c)
(** the worker cancels the token of work whose lease it lost *)
| step_cancel t c : is_Some (flags c !! t) -> controller_step c (cancel_token t c)
| step_release job terminal c : controller_step c (release job terminal c)
| step_retire job c : controller_step c (retire_after_terminal_boundary job c).

(** ** Storage pressure *)

Definition DEFAULT_WARNING_FREE_BYTES : Z := 10 * 1024 * 1024 * 1024.
Definition DEFAULT_CRITICAL_FREE_BYTES : Z := 1024 * 1024 * 1024.

Inductive StoragePressureLevel := PressureHealthy | PressureWarning | PressureCritical | PressureUnavailable.

#[export] Instance pressure_level_eq_dec : EqDecision StoragePressureLevel.
Proof. solve_decision. Defined.

Record StoragePressurePolicy := { warning_free_bytes : Z; critical_free_bytes : Z }.

Definition default_pressure_policy : StoragePressurePolicy :=
  {| warning_free_bytes := DEFAULT_WARNING_FREE_BYTES;
     critical_free_bytes := DEFAULT_CRITICAL_FREE_BYTES |}.

Inductive StoragePressurePolicyError := InvalidThresholdOrdering.

Definition pressure_policy_new (warning critical : Z)
    : result StoragePressurePolicyError StoragePressurePolicy :=
  if warning <=? critical then Err InvalidThresholdOrdering
  else Ok {| warning_free_bytes := warning; critical_free_bytes := critical |}.

Record StoragePressureState := {
  level : StoragePressureLevel;
  free_bytes : option Z;
  warning_threshold : Z;
  critical_threshold : Z
}.

Definition classify_free_bytes (p : StoragePressurePolicy) (free : Z) : StoragePressureState :=
  {| level := if free <=? critical_free_bytes p then PressureCritical
              else if free <=? warning_free_bytes p then PressureWarning else PressureHealthy;
     free_bytes := Some free; warning_threshold := warning_free_bytes p;
     critical_threshold := critical_free_bytes p |}.

Definition pressure_unavailable (p : StoragePressurePolicy) : StoragePressureState :=
  {| level := PressureUnavailable; free_bytes := None; warning_threshold := warning_free_bytes p;
     critical_threshold := critical_free_bytes p |}.

Definition allows_artifact_heavy (s : StoragePressureState) : bool :=
  match level s with PressureCritical | PressureUnavailable => false | _ => true end.

Record StoragePressureController := {
  pressure_policy : StoragePressurePolicy;
  pressure_state : StoragePressureState;
  active_heavy : gmap string nat;
  signals : list bool;
  signals_in_flight : gset nat;
  (** threads between the publication of a critical state and their reading of the active work *)
  publishing : nat;
  (** tokens inserted whose registration has not read the state yet *)
  registering : gset nat
}.

Definition eta_pressure (c : StoragePressureController) : StoragePressureController :=
  {| pressure_policy := pressure_policy c; pressure_state := pressure_state c;
     active_heavy := active_heavy c; signals := signals c; signals_in_flight := signals_in_flight c;
     publishing := publishing c; registering := registering c |}.

#[export] Instance set_pressure_state : Setter pressure_state.
Proof. setter_of eta_pressure pressure_state. Defined.
#[export] Instance set_active_heavy : Setter active_heavy.
Proof. setter_of eta_pressure active_heavy. Defined.
#[export] Instance set_signals : Setter signals.
Proof. setter_of eta_pressure signals. Defined.
#[export] Instance set_signals_in_flight : Setter signals_in_flight.
Proof. setter_of eta_pressure signals_in_flight. Defined.
#[export] Instance set_publishing : Setter publishing.
Proof. setter_of eta_pressure publishing. Defined.
#[export] Instance set_registering : Setter registering.
Proof. setter_of eta_pressure registering. Defined.

Definition pressure_new (p : StoragePressurePolicy) : StoragePressureController :=
  {| pressure_policy := p; pressure_state := pressure_unavailable p; active_heavy := ∅;
     signals := []; signals_in_flight := ∅; publishing := 0; registering := ∅ |}.

Definition is_signalled (t : nat) (c : StoragePressureController) : bool := default false (signals c !! t).

Definition signal_token (t : nat) (c : StoragePressureController) : StoragePressureController :=
  c <| signals ::= insert t true |> <| signals_in_flight ::= (fun l => l ∖ {[t]}) |>.

(** [update]: the write of the state, then the reading of the active work. *)
Definition publish_state (next : StoragePressureState) (c : StoragePressureController)
    : StoragePressureController :=
  let c := c <| pressure_state := next |> in
  if bool_decide (level next = PressureCritical) then c <| publishing ::= S |> else c.

Definition heavy_tokens (c : StoragePressureController) : gset nat :=
  list_to_set (map snd (map_to_list (active_heavy c))).

Definition read_active (c : StoragePressureController) : StoragePressureController :=
  c <| signals_in_flight ::= union (heavy_tokens c) |> <| publishing ::= pred |>.

(** [register]: the insertion, then the check of the state again. *)
Definition insert_token (job : string) (class : JobStorageClass) (c : StoragePressureController)
    : nat * StoragePressureController :=
  let t := length (signals c) in
  let c := c <| signals ::= (fun l => l ++ [false]) |> in
  match class with
  | ArtifactHeavy => (t, c <| active_heavy ::= insert job t |> <| registering ::= union {[t]} |>)
  | StorageLight => (t, c)
  end.

Definition recheck_token (t : nat) (c : StoragePressureController) : StoragePressureController :=
  let c := c <| registering ::= (fun l => l ∖ {[t]}) |> in
  if bool_decide (level (pressure_state c) = PressureCritical) then signal_token t c else c.

Definition release_heavy (job : string) (c : StoragePressureController) : StoragePressureController :=
  c <| active_heavy ::= delete job |>.

(** [StoragePressureMonitor::refresh] publishes what the probe observed. *)
Definition observe (p : StoragePressurePolicy) (probed : option Z) : StoragePressureState :=
  match probed with Some free => classify_free_bytes p free | None => pressure_unavailable p end.

(** A thread that runs alone. *)
Definition update (next : StoragePressureState) (c : StoragePressureController)
    : StoragePressureController :=
  let c := publish_state next c in
  if bool_decide (level next = PressureCritical)
  then set_fold signal_token (read_active c) (heavy_tokens c) else c.
Definition refresh (probed : option Z) (c : StoragePressureController)
    : StoragePressureState * StoragePressureController :=
  let state := observe (pressure_policy c) probed in
  (state, update state c).
Definition register_pressure (job : string) (class : JobStorageClass) (c : StoragePressureController)
    : nat * StoragePressureController :=
  let '(t, c) := insert_token job class c in
  (t, match class with ArtifactHeavy => recheck_token t c | StorageLight => c end).

Inductive pressure_step : StoragePressureController -> StoragePressureController -> Prop :=
| step_publish next c : pressure_step c (publish_state next c)
| step_read_active c : (0 < publishing c)%nat -> pressure_step c (read_active c)
| step_signal t c : t ∈ signals_in_flight c -> pressure_step c (signal_token t c)
| step_insert job class c : pressure_step c (insert_token job class c).2
| step_recheck t c : t ∈ registering c -> pressure_step c (recheck_token t c)
| step_release_heavy job c : pressure_step c (release_heavy job c).

(** ** Waiting for a signal *)

(** [tokio::sync::Notify]: creating a [Notified] future, [notify_waiters], and whether a
    future would complete when polled. *)
Class NotifyLib := {
  notify : Type;
  notified_future : Type;
  notify_new : notify;
  notified : notify -> notified_future * notify;
  notify_waiters : notify -> notify;
  is_ready : notified_future -> notify -> bool
}.

Inductive notify_step `{NotifyLib} : notify -> notify -> Prop :=
| notify_created n : notify_step n (notified n).2
| notify_woken n : notify_step n (notify_waiters n).

Inductive created_step `{NotifyLib} : notify -> notify -> Prop :=
| only_created n : created_step n (notified n).2.

(** A future receives every [notify_waiters] that follows its creation, polled or not; one
    that came before leaves it nothing. *)
Class NotifyLaws (N : NotifyLib) : Prop := {
  notified_woken : forall n n1 n2,
    rtc notify_step (notified n).2 n1 -> rtc notify_step (notify_waiters n1) n2 ->
    is_ready (notified n).1 n2 = true;
  notified_alone : forall n n1,
    rtc created_step (notified n).2 n1 -> is_ready (notified n).1 n1 = false
}.

Section waiting.
Context `{N : NotifyLib}.

(** [CancellationToken::cancelled] reads the flag and then creates its future;
    [StoragePressureToken::signalled] creates and enables its future first. *)
Inductive wait_point :=
| WaitStart | CancelChecked | SignalEnabled (f : notified_future)
| Awaiting (f : notified_future) | WaitDone.

(** A token, the thread that has set its flag and not yet called [notify_waiters], and one
    waiting handler. *)
Record WaitState := {
  flag : bool;
  notifying : bool;
  notify_state : notify;
  waiter : wait_point
}.

Definition wait_new : WaitState :=
  {| flag := false; notifying := false; notify_state := notify_new; waiter := WaitStart |}.

Definition at_point (p : wait_point) (s : WaitState) : WaitState :=
  {| flag := flag s; notifying := notifying s; notify_state := notify_state s; waiter := p |}.
Definition with_notify (n : notify) (s : WaitState) : WaitState :=
  {| flag := flag s; notifying := notifying s; notify_state := n; waiter := waiter s |}.

(** The signalling side, and the other handles that wait on the token. *)
Inductive signaller_step : WaitState -> WaitState -> Prop :=
| signal_swap s : flag s = false -> signaller_step s
    {| flag := true; notifying := true; notify_state := notify_state s; waiter := waiter s |}
| signal_notify s : notifying s = true -> signaller_step s
    {| flag := flag s; notifying := false; notify_state := notify_waiters (notify_state s);
       waiter := waiter s |}
| signal_other s : signaller_step s (with_notify (notified (notify_state s)).2 s).

(** The waiting handler: [cancelled()] and [signalled()]. *)
Inductive cancelled_step : WaitState -> WaitState -> Prop :=
| cancelled_check s : waiter s = WaitStart ->
    cancelled_step s (at_point (if flag s then WaitDone else CancelChecked) s)
| cancelled_await s : waiter s = CancelChecked ->
    cancelled_step s (at_point (Awaiting (notified (notify_state s)).1)
      (with_notify (notified (notify_state s)).2 s))
| cancelled_woken s f : waiter s = Awaiting f -> is_ready f (notify_state s) = true ->
    cancelled_step s (at_point WaitStart s).

Inductive signalled_step : WaitState -> WaitState -> Prop :=
| signalled_enable s : waiter s = WaitStart ->
    signalled_step s (at_point (SignalEnabled (notified (notify_state s)).1)
      (with_notify (notified (notify_state s)).2 s))
| signalled_check s f : waiter s = SignalEnabled f ->
    signalled_step s (at_point (if flag s then WaitDone else Awaiting f) s)
| signalled_woken s f : waiter s = Awaiting f -> is_ready f (notify_state s) = true ->
    signalled_step s (at_point WaitStart s).

Definition interleaved (handler : WaitState -> WaitState -> Prop) (s s' : WaitState) : Prop :=
  handler s s' \/ signaller_step s s'.
End waiting.

(** * Lemmas *)

(** ** Controllers *)

Definition tokens_known (c : CancellationController) : Prop :=
  (forall job t, active c !! job = Some t -> (t < length (flags c))%nat) /\
  (forall t, t ∈ in_flight c -> (t < length (flags c))%nat).

(** What a job that was asked to stop owes its token. *)
Definition signal_due (c : CancellationController) : Prop :=
  forall job t, active c !! job = Some t -> job ∈ requested c \/ shutdown_requested c = true ->
    flags c !! t = Some true \/ t ∈ in_flight c.

Lemma elem_of_active_tokens c t : t ∈ active_tokens c <-> exists job, active c !! job = Some t.
Proof.
  unfold active_tokens. rewrite elem_of_list_to_set, elem_of_map. split.
  - intros ([job t'] & -> & H%elem_of_map_to_list). by exists job.
  - intros [job H%elem_of_map_to_list]. by exists (job, t).
Qed.

Lemma controller_step_invariant c c' :
  controller_step c c' -> tokens_known c /\ signal_due c -> tokens_known c' /\ signal_due c'.
Proof.
  intros Hstep [[Ha Hf] Hd]. destruct Hstep; simpl in *.
  - split; [split|].
    + simpl. intros j t. rewrite length_app, lookup_insert_Some. simpl.
      intros [[_ <-]|[_ Hj%Ha]]; lia.
    + simpl. intros t Ht%Hf. rewrite length_app. lia.
    + intros j t. simpl. rewrite lookup_insert_Some. intros [[<- <-]|[Hne Hj]] Hr.
      * left. rewrite lookup_app_r, Nat.sub_diag by done. simpl. f_equal.
        destruct Hr as [Hr| ->]; [|done]. by rewrite (bool_decide_eq_true_2 _ Hr), orb_true_r.
      * destruct (Hd j t Hj Hr) as [Hl|Hl]; [left|by right]. by apply lookup_app_l_Some.
  - unfold request_locked. simpl. destruct (active c !! job) as [t0|] eqn:Hact.
    + split; [split|].
      * done.
      * simpl. intros t. rewrite elem_of_union, elem_of_singleton. intros [->|Ht%Hf]; [by eapply Ha|done].
      * intros j t Hj Hr. simpl in *. rewrite elem_of_union, elem_of_singleton.
        destruct (decide (j = job)) as [->|Hne]; [right; left; congruence|].
        destruct (Hd j t Hj) as [?|?]; [set_solver|by left|by right; right].
    + split; [by split|]. intros j t Hj Hr. simpl in *. apply (Hd j t Hj).
      destruct (decide (j = job)) as [->|Hne]; [congruence|set_solver].
  - split; [split|].
    + done.
    + simpl. intros t. rewrite elem_of_union, elem_of_active_tokens. intros [[j Hj%Ha]|Ht%Hf]; done.
    + intros j t Hj _. simpl in *. right. rewrite elem_of_union, elem_of_active_tokens. eauto.
  - unfold cancel_token. split; [split|]; simpl.
    + intros j t' Hj. rewrite length_insert. eauto.
    + intros t' Ht. rewrite length_insert. apply Hf. set_solver.
    + intros j t' Hj Hr. simpl in *. destruct (decide (t' = t)) as [->|Hne].
      * left. apply list_lookup_insert_eq. by eapply Ha.
      * rewrite list_lookup_insert_ne by done. destruct (Hd j t' Hj Hr); [by left|right; set_solver].
  - unfold cancel_token. split; [split|]; simpl.
    + intros j t' Hj. rewrite length_insert. eauto.
    + intros t' Ht. rewrite length_insert. apply Hf. set_solver.
    + intros j t' Hj Hr. simpl in *. destruct (decide (t' = t)) as [->|Hne].
      * left. apply list_lookup_insert_eq. by eapply Ha.
      * rewrite list_lookup_insert_ne by done. destruct (Hd j t' Hj Hr); [by left|right; set_solver].
  - unfold release. assert (forall c1, active c1 = delete job (active c) -> flags c1 = flags c ->
      in_flight c1 = in_flight c -> shutdown_requested c1 = shutdown_requested c ->
      requested c1 ⊆ requested c -> tokens_known c1 /\ signal_due c1) as Hsame.
    { intros c1 H1 H2 H3 H4 H5. unfold tokens_known, signal_due. rewrite H1, H2, H3, H4.
      split; [split; [|done]|]; intros j t [_ Hj]%lookup_delete_Some; [eauto|].
      intros Hr. apply (Hd j t Hj). set_solver. }
    destruct terminal; apply Hsame; try done; simpl; set_solver.
  - split; [by split|]. intros j t Hj Hr. simpl in *. apply (Hd j t Hj). set_solver.
Qed.

Definition controller_reachable (c : CancellationController) : Prop :=
  rtc controller_step controller_new c.

Lemma controller_invariant c : controller_reachable c -> tokens_known c /\ signal_due c.
Proof.
  intros H. eapply (rtc_ind_r (fun c => tokens_known c /\ signal_due c) controller_new); [| |exact H].
  - split; [split|]; intros ?; try intros ?; simpl; rewrite ?lookup_empty; done || set_solver.
  - intros y z _ Hstep IH. by eapply controller_step_invariant.
Qed.

(** A step that does not retire the request of [job]. *)
Definition keeps_request (job : string) (c c' : CancellationController) : Prop :=
  controller_step c c' /\ (job ∈ requested c -> job ∈ requested c').

(** ** Storage pressure *)

Definition pressure_tokens_known (c : StoragePressureController) : Prop :=
  (forall job t, active_heavy c !! job = Some t -> (t < length (signals c))%nat) /\
  (forall t, t ∈ signals_in_flight c -> (t < length (signals c))%nat) /\
  (forall t, t ∈ registering c -> (t < length (signals c))%nat).

(** What critical pressure owes the active work that may grow the storage. *)
Definition pressure_due (c : StoragePressureController) : Prop :=
  level (pressure_state c) = PressureCritical ->
  forall job t, active_heavy c !! job = Some t ->
    signals c !! t = Some true \/ t ∈ signals_in_flight c \/ t ∈ registering c \/ (0 < publishing c)%nat.

Lemma elem_of_heavy_tokens c t : t ∈ heavy_tokens c <-> exists job, active_heavy c !! job = Some t.
Proof.
  unfold heavy_tokens. rewrite elem_of_list_to_set, elem_of_map. split.
  - intros ([job t'] & -> & H%elem_of_map_to_list). by exists job.
  - intros [job H%elem_of_map_to_list]. by exists (job, t).
Qed.

Lemma signal_token_invariant t c : (t < length (signals c))%nat ->
  pressure_tokens_known c /\ pressure_due c ->
  pressure_tokens_known (signal_token t c) /\ pressure_due (signal_token t c).
Proof.
  intros Ht [(Ha & Hf & Hr) Hd]. split; [split_and!|].
  - intros j t' Hj. simpl in *. rewrite length_insert. eauto.
  - intros t' Hin. simpl in *. rewrite length_insert. apply Hf. set_solver.
  - intros t' Hin. simpl in *. rewrite length_insert. eauto.
  - intros Hl j t' Hj. simpl in *. destruct (decide (t' = t)) as [->|Hne].
    + left. by apply list_lookup_insert_eq.
    + rewrite list_lookup_insert_ne by done. destruct (Hd Hl j t' Hj) as [?|[?|?]]; [by left|right; left; set_solver|by right; right].
Qed.

Lemma pressure_step_invariant c c' :
  pressure_step c c' -> pressure_tokens_known c /\ pressure_due c ->
  pressure_tokens_known c' /\ pressure_due c'.
Proof.
  intros Hstep [(Ha & Hf & Hr) Hd]. destruct Hstep as [next c|c Hp|t c Ht|job class c|t c Ht|job c].
  - unfold publish_state. case_bool_decide as Hl; (split; [by split_and!|]); intros Hc j t Hj; simpl in *.
    + right; right; right. lia.
    + done.
  - split; [split_and!|]; simpl; [done| |done|].
    + intros t. rewrite elem_of_union, elem_of_heavy_tokens. intros [[j Hj%Ha]|Ht%Hf]; done.
    + intros Hl j t Hj. simpl in *. right; left. rewrite elem_of_union, elem_of_heavy_tokens. eauto.
  - apply signal_token_invariant; [by apply Hf|by split; [split_and!|]].
  - destruct class; simpl.
    + split; [split_and!|]; simpl.
      * intros j t Hj. rewrite length_app. apply Ha in Hj. lia.
      * intros t Ht%Hf. rewrite length_app. lia.
      * intros t Ht%Hr. rewrite length_app. lia.
      * intros Hl j t Hj. simpl in *. destruct (Hd Hl j t Hj); [left; by apply lookup_app_l_Some|by right].
    + split; [split_and!|]; simpl.
      * intros j t. rewrite length_app, lookup_insert_Some. simpl. intros [[_ <-]|[_ Hj%Ha]]; lia.
      * intros t Ht%Hf. rewrite length_app. lia.
      * intros t. rewrite length_app, elem_of_union, elem_of_singleton. simpl. intros [->|Ht%Hr]; lia.
      * intros Hl j t. simpl in *. rewrite lookup_insert_Some. intros [[_ <-]|[_ Hj]].
        -- right; right; left. set_solver.
        -- destruct (Hd Hl j t Hj) as [?|[?|[?|?]]]; [left; by apply lookup_app_l_Some|by right; left
             |right; right; left; set_solver|by right; right; right].
  - unfold recheck_token. case_bool_decide as Hl.
    + split; [split_and!|].
      * intros j t' Hj. simpl in *. rewrite length_insert. eauto.
      * intros t' Hin. simpl in *. rewrite length_insert. apply Hf. set_solver.
      * intros t' Hin. simpl in *. rewrite length_insert. apply Hr. set_solver.
      * intros Hl' j t' Hj. simpl in *. destruct (decide (t' = t)) as [->|Hne].
        -- left. by apply list_lookup_insert_eq, Hr.
        -- rewrite list_lookup_insert_ne by done.
           destruct (Hd Hl j t' Hj) as [?|[?|[?|?]]]; [by left|right; left; set_solver|right; right; left; set_solver
             |by right; right; right].
    + split; [split_and!; [done|done|]|].
      * intros t' Hin. simpl in *. apply Hr. set_solver.
      * intros Hl' j t' Hj. done.
  - split; [split_and!; [|done|done]|].
    + intros j t Hj. simpl in *. apply lookup_delete_Some in Hj as [_ Hj]. eauto.
    + intros Hl j t Hj. simpl in *. apply lookup_delete_Some in Hj as [_ Hj]. by eapply Hd.
Qed.

Definition pressure_reachable (p : StoragePressurePolicy) (c : StoragePressureController) : Prop :=
  rtc pressure_step (pressure_new p) c.

Lemma pressure_invariant p c : pressure_reachable p c -> pressure_tokens_known c /\ pressure_due c.
Proof.
  intros H. eapply (rtc_ind_r (fun c => pressure_tokens_known c /\ pressure_due c) (pressure_new p)); [| |exact H].
  - split; [split_and!|]; [intros ? ?|intros ?|intros ?|intros Hl ? ?]; simpl in *; rewrite ?lookup_empty; try done; set_solver.
  - intros y z _ Hstep IH. by eapply pressure_step_invariant.
Qed.

(** ** Waiting *)

Section waiting_lemmas.
Context `{N : NotifyLib} {NL : NotifyLaws N}.

Definition future_of (p : wait_point) : option notified_future :=
  match p with SignalEnabled f | Awaiting f => Some f | _ => None end.

(** The future of a [signalled()] was created before the flag was read: once the flag is set,
    either the call of [notify_waiters] is still to come or it came after the creation. *)
Definition future_sound (s : WaitState) : Prop :=
  forall f, future_of (waiter s) = Some f ->
    exists n, f = (notified n).1 /\ rtc notify_step (notified n).2 (notify_state s) /\
      (waiter s = Awaiting f -> flag s = true -> notifying s = true \/
        exists m, rtc notify_step (notified n).2 m /\ rtc notify_step (notify_waiters m) (notify_state s)).

Lemma signalled_invariant s s' :
  interleaved signalled_step s s' -> future_sound s -> waiter s <> CancelChecked ->
  future_sound s' /\ waiter s' <> CancelChecked.
Proof.
  intros [Hstep|Hstep] Hs Hn.
  - destruct Hstep as [s Hw|s f Hw|s f Hw Hr]; (split; [|simpl; try done; by destruct (flag s)]).
    + intros f [= <-]. simpl. exists (notify_state s). split_and!; [done|apply rtc_refl|done].
    + intros f' Hf'. simpl in *. destruct (flag s) eqn:Hflag; simpl in *; simplify_eq.
      destruct (Hs f') as (n & -> & Hn1 & _); [by rewrite Hw|]. by exists n.
    + done.
  - destruct Hstep as [s Hflag|s Hnot|s]; (split; [|done]); intros f Hf; simpl in *;
      destruct (Hs f Hf) as (n & -> & Hn1 & Hw); exists n; (split; [done|]).
    + split; [done|by left].
    + split; [eapply rtc_r; [exact Hn1|constructor]|]. intros _ _. right. exists (notify_state s).
      split; [done|apply rtc_refl].
    + split; [eapply rtc_r; [exact Hn1|constructor]|]. intros Ha Hflag.
      destruct (Hw Ha Hflag) as [?|(m & Hm & Hm')]; [by left|right]. exists m. split; [done|].
      eapply rtc_r; [exact Hm'|constructor].
Qed.

Definition signalled_reachable (s : WaitState) : Prop := rtc (interleaved signalled_step) wait_new s.

Lemma signalled_sound s : signalled_reachable s -> future_sound s /\ waiter s <> CancelChecked.
Proof.
  intros H. eapply (rtc_ind_r (fun s => future_sound s /\ waiter s <> CancelChecked) wait_new); [| |exact H].
  - by split; [intros f Hf|].
  - intros y z _ Hstep [H1 H2]. by apply (signalled_invariant y).
Qed.

Lemma check_done s f : waiter s = SignalEnabled f -> flag s = true ->
  signalled_step s (at_point WaitDone s).
Proof. intros Hw Hf. pose proof (signalled_check s f Hw) as H. by rewrite Hf in H. Qed.

Lemma start_returns s : waiter s = WaitStart -> flag s = true ->
  exists s', rtc signalled_step s s' /\ waiter s' = WaitDone.
Proof.
  intros Hw Hf. eexists. split; [|shelve]. eapply rtc_l; [by apply signalled_enable|].
  eapply rtc_l; [by eapply check_done|apply rtc_refl]. Unshelve. done.
Qed.
End waiting_lemmas.

(** A cancelled token stays cancelled. *)
Lemma flag_kept t c c' : rtc controller_step c c' -> is_cancelled t c = true -> is_cancelled t c' = true.
Proof.
  induction 1 as [|c c1 c2 Hstep _ IH]; [done|]. intros Ht. apply IH. revert Ht.
  unfold is_cancelled. destruct Hstep; simpl.
  - intros Ht. destruct (flags c !! t) eqn:Hl; [|done]. by erewrite lookup_app_l_Some.
  - unfold request_locked. simpl. by case_match.
  - done.
  - intros Ht. destruct (decide (t0 = t)) as [->|Hne].
    + destruct (flags c !! t) eqn:Hl; [|done]. rewrite list_lookup_insert_eq; [done|].
      by apply lookup_lt_Some in Hl.
    + by rewrite list_lookup_insert_ne.
  - intros Ht. destruct (decide (t0 = t)) as [->|Hne].
    + destruct (flags c !! t) eqn:Hl; [|done]. rewrite list_lookup_insert_eq; [done|].
      by apply lookup_lt_Some in Hl.
    + by rewrite list_lookup_insert_ne.
  - by destruct terminal.
  - done.
Qed.

(** * Theorems *)

(** C17. No cancellation is lost between the controller's threads.  Once a job was asked to stop,
    or shutdown began, however requests, registrations, releases and signals interleave: if
    a handler of it runs, its token is cancelled or in the hands of a thread about to
    cancel it; and whether one runs or not, a handler registered from then on starts with
    a cancelled token, and keeps it cancelled whatever happens next. *)
Theorem cancellation_reaches_handler c job
    (Hc : controller_reachable c) (Hr : job ∈ requested c \/ shutdown_requested c = true) :
  (forall t, active c !! job = Some t -> is_cancelled t c = true \/ t ∈ in_flight c) /\
  active (register job c).2 !! job = Some (register job c).1 /\
  (forall c', rtc controller_step (register job c).2 c' -> is_cancelled (register job c).1 c' = true).
Proof.
  destruct (controller_invariant c Hc) as [_ Hd]. split; [|split].
  - intros t Ht. destruct (Hd job t Ht Hr) as [Hl|Hl]; [left|by right]. unfold is_cancelled. by rewrite Hl.
  - simpl. by rewrite lookup_insert_eq.
  - intros c' Hsteps. eapply flag_kept; [exact Hsteps|].
    unfold is_cancelled, register. simpl. rewrite lookup_app_r, Nat.sub_diag by done. simpl.
    destruct Hr as [Hr| ->]; [|done]. by rewrite (bool_decide_eq_true_2 _ Hr), orb_true_r.
Qed.

(** C30. Critical storage pressure reaches the work that may grow the storage: while the state is
    critical and no thread is in the middle of publishing it or of registering the token,
    the token of every active artifact-heavy job is signalled or about to be, although the
    state and the active work are guarded by different locks. *)
Theorem pressure_reaches_active_work p c job t
    (Hc : pressure_reachable p c) (Ht : active_heavy c !! job = Some t)
    (Hl : level (pressure_state c) = PressureCritical)
    (Hp : publishing c = 0%nat) (Hr : t ∉ registering c) :
  is_signalled t c = true \/ t ∈ signals_in_flight c.
Proof.
  destruct (pressure_invariant p c Hc) as [_ Hd].
  destruct (Hd Hl job t Ht) as [Hs|[?|[?|?]]]; [left|by right|done|lia].
  unfold is_signalled. by rewrite Hs.
Qed.

Section waiting_theorems.
Context `{N : NotifyLib} {NL : NotifyLaws N}.

(** A handler that waits for storage pressure is woken: wherever it stands when the signal
    has been sent, its own steps take it to the return of [signalled()]. *)
Theorem pressure_wait_returns s
    (Hs : signalled_reachable s) (Hf : flag s = true) (Hn : notifying s = false) :
  exists s', rtc signalled_step s s' /\ waiter s' = WaitDone.
Proof.
  destruct (signalled_sound s Hs) as [Hsound Hcc].
  destruct (waiter s) as [| |f|f|] eqn:Hw; [by apply start_returns|done| | |].
  - eexists. split; [eapply rtc_once; by eapply check_done|done].
  - destruct (Hsound f) as (n & -> & _ & H); [by rewrite Hw|].
    destruct (H Hw Hf) as [?|(m & Hm & Hm')]; [congruence|].
    destruct (start_returns (at_point WaitStart s)) as (s' & Hs' & Hd); [done..|].
    exists s'. split; [|done]. eapply rtc_l; [|exact Hs'].
    eapply signalled_woken; [exact Hw|]. by eapply notified_woken.
  - exists s. split; [apply rtc_refl|done].
Qed.

(** The wait for a cancellation can miss it: [cancelled()] reads the flag before it creates
    its future, so that a cancellation between the two wakes nobody, and the handler then
    waits for ever although its token is cancelled. *)
Theorem cancellation_wait_can_be_lost :
  exists s, rtc (interleaved cancelled_step) wait_new s /\ flag s = true /\ notifying s = false /\
    forall s', rtc (interleaved cancelled_step) s s' -> exists f, waiter s' = Awaiting f.
Proof.
  set (s1 := at_point CancelChecked wait_new).
  set (s2 := {| flag := true; notifying := true; notify_state := notify_state s1; waiter := waiter s1 |}).
  set (s3 := {| flag := true; notifying := false; notify_state := notify_waiters (notify_state s2);
                waiter := waiter s2 |}).
  set (s4 := at_point (Awaiting (notified (notify_state s3)).1)
               (with_notify (notified (notify_state s3)).2 s3)).
  exists s4. split_and!; [|done|done|].
  - eapply rtc_l; [left; apply (cancelled_check wait_new); done|].
    eapply rtc_l; [right; by apply (signal_swap s1)|].
    eapply rtc_l; [right; by apply (signal_notify s2)|].
    eapply rtc_l; [left; by apply (cancelled_await s3)|apply rtc_refl].
  - intros s' H.
    assert (waiter s' = Awaiting (notified (notify_state s3)).1 /\ flag s' = true /\ notifying s' = false /\
      rtc created_step (notified (notify_state s3)).2 (notify_state s')) as (Hw & _); [|by eexists].
    eapply (rtc_ind_r (fun s' => waiter s' = Awaiting (notified (notify_state s3)).1 /\ flag s' = true /\
      notifying s' = false /\ rtc created_step (notified (notify_state s3)).2 (notify_state s')) s4); [| |exact H].
    + split_and!; [done..|apply rtc_refl].
    + intros y z _ Hstep (Hw & Hf & Hn & Hc). destruct Hstep as [Hstep|Hstep]; destruct Hstep; simpl in *; try congruence.
      * match goal with Ha : waiter s = Awaiting f, Hr : is_ready f _ = true |- _ =>
          rewrite Hw in Ha; injection Ha as <-; rewrite notified_alone in Hr by done; congruence end.
      * split_and!; try done. eapply rtc_r; [exact Hc|constructor].
Qed.
End waiting_theorems.

(** * Witnesses *)

(** A [Notify] that counts the calls of [notify_waiters]; a future is the count at its
    creation. *)
Definition counting_notify : NotifyLib := {|
  notify := nat; notified_future := nat; notify_new := 0%nat; notified n := (n, n);
  notify_waiters := S; is_ready f n := Nat.ltb f n |}.

Lemma counting_notify_laws : NotifyLaws counting_notify.
Proof.
  assert (Hmono : forall a b : notify (NotifyLib := counting_notify), rtc notify_step a b -> (a <= b)%nat).
  { intros a b H. induction H as [|a b d Hs _ IH]; [lia|]. destruct Hs; simpl in *; lia. }
  split.
  - intros n n1 n2 H1%Hmono H2%Hmono. simpl in *. apply Nat.ltb_lt. lia.
  - intros n n1 H. simpl in *. apply Nat.ltb_ge.
    induction H as [|a b d Hs _ IH]; [lia|]. destruct Hs. simpl in *. lia.
Qed.

Section witnesses.
#[local] Existing Instances counting_notify counting_notify_laws.

(** A job that was asked to stop while its handler ran, and one that was asked before it
    had any. *)
Definition signalled_controller : CancellationController :=
  request_locked "job" (register "job" controller_new).2.
Definition asked_controller : CancellationController := request_locked "job" controller_new.

Lemma cancellation_reaches_handler_witness :
  (is_cancelled 0 signalled_controller = true \/ 0%nat ∈ in_flight signalled_controller) /\
  active asked_controller !! "job"%string = None /\
  is_cancelled (register "job" asked_controller).1 (register "job" asked_controller).2 = true.
Proof.
  split; [|split; [reflexivity|]].
  - apply (cancellation_reaches_handler signalled_controller "job").
    + eapply rtc_l; [apply step_register|]. eapply rtc_once, step_request.
    + left. set_solver.
    + vm_compute. reflexivity.
  - apply (cancellation_reaches_handler asked_controller "job").
    + eapply rtc_once, step_request.
    + left. set_solver.
    + apply rtc_refl.
Defined.

Definition critical_state : StoragePressureState :=
  observe default_pressure_policy (Some DEFAULT_CRITICAL_FREE_BYTES).

Definition pressured_controller : StoragePressureController :=
  read_active (publish_state critical_state
    (recheck_token 0 (insert_token "job" ArtifactHeavy (pressure_new default_pressure_policy)).2)).

Lemma pressure_reaches_active_work_witness :
  is_signalled 0 pressured_controller = true \/ 0%nat ∈ signals_in_flight pressured_controller.
Proof.
  apply (pressure_reaches_active_work default_pressure_policy pressured_controller "job" 0).
  - eapply rtc_l; [apply (step_insert "job" ArtifactHeavy)|].
    eapply rtc_l; [apply (step_recheck 0); vm_compute; set_solver|].
    eapply rtc_l; [apply (step_publish critical_state)|].
    eapply rtc_once, step_read_active. vm_compute. lia.
  - vm_compute. reflexivity.
  - vm_compute. reflexivity.
  - vm_compute. reflexivity.
  - vm_compute. set_solver.
Defined.

(** The handler waits, then the flag is set and the waiters are notified. *)
Definition signalled_wait : WaitState :=
  {| flag := true; notifying := false; notify_state := 1%nat; waiter := Awaiting 0%nat |}.

Lemma pressure_wait_returns_witness :
  exists s', rtc signalled_step signalled_wait s' /\ waiter s' = WaitDone.
Proof.
  apply (pressure_wait_returns signalled_wait); [|reflexivity|reflexivity].
  set (w0 := wait_new). set (w1 := at_point (SignalEnabled (N := counting_notify) 0%nat) w0).
  set (w2 := at_point (Awaiting (N := counting_notify) 0%nat) w1).
  set (w3 := {| flag := true; notifying := true; notify_state := notify_state w2; waiter := waiter w2 |}).
  apply (rtc_l _ _ w1); [left; exact (signalled_enable w0 eq_refl)|].
  apply (rtc_l _ _ w2); [left; exact (signalled_check w1 0%nat eq_refl)|].
  apply (rtc_l _ _ w3); [right; exact (signal_swap w2 eq_refl)|].
  apply rtc_once. right. exact (signal_notify w3 eq_refl).
Defined.

Lemma cancellation_wait_can_be_lost_witness :
  exists s : WaitState, rtc (interleaved cancelled_step) wait_new s /\ flag s = true.
Proof.
  destruct cancellation_wait_can_be_lost as (s & H1 & H2 & _). exists s. split; [exact H1|exact H2].
Defined.
End witnesses.
