(* ===== verification/JobRuntime.v ===== *)
(** * The worker runtime

    [crates/erabi-jobs/src/lib.rs]: one turn of a worker, from the acquisition of a job to
    the durable record of its outcome, with the heartbeats that renew its lease while the
    handler runs.

    A turn acts on the store, on the cancellation controller and on the storage-pressure
    controller; the three make a [World].  [tokio::select!] picks whichever of the handler
    and the heartbeat is ready: the turn is given the sequence of what happens, in which
    the steps of the handler and of all other threads are arbitrary functions, the clock
    and the probe of each heartbeat are explicit, and the handler's result is the last
    event.  Telemetry is left out. *)

From S2P Require Import Prelude Externals Base Instances Settings Snapshot Store Progress Checkpoint Runs.
From S2P Require Import JobQueue Diagnostics WorkerSignals Finalization.

(** ** Policy *)

Record WorkerPolicy := { lease_duration_seconds : Z; retry_delay_seconds : Z }.

Definition conservative : WorkerPolicy := {| lease_duration_seconds := 30; retry_delay_seconds := 5 |}.

Definition policy_valid (p : WorkerPolicy) : bool :=
  (2 <=? lease_duration_seconds p) && (0 <=? retry_delay_seconds p).

(** In seconds; the quotient of two [i64] rounds toward zero. *)
Definition heartbeat_interval (p : WorkerPolicy) : Z :=
  Z.abs (Z.max (Z.quot (lease_duration_seconds p) 3) 1).

(** ** Errors *)

Inductive JobRuntimeError := RuntimeInvalidPolicy | RuntimeRepository (e : JobRepositoryError).

Inductive WorkerRuntimeDisposition := KeepPolling | LostLease | FatalStop.

#[export] Instance disposition_eq_dec : EqDecision WorkerRuntimeDisposition.
Proof. solve_decision. Defined.

Definition db_error_disposition (e : DbError) : WorkerRuntimeDisposition :=
  if is_durable_invariant e then FatalStop else KeepPolling.

Definition disposition (e : JobRuntimeError) : WorkerRuntimeDisposition :=
  match e with
  | RuntimeInvalidPolicy => FatalStop
  | RuntimeRepository e =>
    match e with
    | LeaseLost | CheckpointFailure CkptLeaseLost => LostLease
    | Database e | CheckpointFailure (CkptDatabase e) => db_error_disposition e
    | InvalidJobKind | InvalidMaxAttempts | NotFound | IllegalTransition | AttemptsExhausted
    | RemovalUnsafe | NotReprioritizable | ActionAlreadyActive | RetryAlreadyContinued
    | QueueInvariant
    | CheckpointFailure (UnsupportedFormatVersion | InvalidEnvelope | PayloadTooLarge | Malformed
        | CkptSerialization | CkptNotFound) => FatalStop
    | StorageAdmissionBlocked => KeepPolling
    end
  end.

Definition safe_code (e : JobRuntimeError) : string :=
  match e with
  | RuntimeInvalidPolicy => "WORKER_POLICY_INVALID"
  | RuntimeRepository e =>
    match e with
    | Database e | CheckpointFailure (CkptDatabase e) =>
      if is_durable_invariant e then "DATABASE_INVARIANT" else "JOB_REPOSITORY_RUNTIME_ERROR"
    | QueueInvariant => "QUEUE_INVARIANT"
    | InvalidJobKind | InvalidMaxAttempts => "JOB_REPOSITORY_INVARIANT"
    | LeaseLost | CheckpointFailure CkptLeaseLost => "LEASE_LOST"
    | CheckpointFailure (UnsupportedFormatVersion | InvalidEnvelope | PayloadTooLarge | Malformed
        | CkptSerialization | CkptNotFound) => "CHECKPOINT_RUNTIME_ERROR"
    | StorageAdmissionBlocked | NotFound | IllegalTransition | AttemptsExhausted | RemovalUnsafe
    | NotReprioritizable | ActionAlreadyActive | RetryAlreadyContinued => "JOB_REPOSITORY_RUNTIME_ERROR"
    end
  end.

(** ** The world of a turn *)

Record World := {
  w_db : Db;
  w_cancellation : CancellationController;
  w_pressure : StoragePressureController
}.

Definition eta_world (w : World) : World :=
  {| w_db := w_db w; w_cancellation := w_cancellation w; w_pressure := w_pressure w |}.
#[export] Instance set_w_db : Setter w_db.
Proof. setter_of eta_world w_db. Defined.
#[export] Instance set_w_cancellation : Setter w_cancellation.
Proof. setter_of eta_world w_cancellation. Defined.
#[export] Instance set_w_pressure : Setter w_pressure.
Proof. setter_of eta_world w_pressure. Defined.

(** Steps that may fail; unlike a transaction, a failure keeps what was done before it. *)
Definition Run (A : Type) : Type := World -> result JobRuntimeError A * World.

Definition run_ret {A} (a : A) : Run A := fun w => (Ok a, w).
Definition run_of {A} (r : result JobRuntimeError A) : Run A := fun w => (r, w).
Definition run_bind {A B} (t : Run A) (k : A -> Run B) : Run B := fun w =>
  match t w with (Ok a, w') => k a w' | (Err e, w') => (Err e, w') end.
Notation "'let+' x := t 'in' k" := (run_bind t (fun x => k))
  (at level 10, x name, t at level 100, k at level 200) : erabi_scope.

(** A call of the repository. *)
Definition repository {A} (op : Db -> result JobRepositoryError A * Db) : Run A := fun w =>
  let '(r, db) := op (w_db w) in (map_err RuntimeRepository r, w <| w_db := db |>).

(** ** What a turn hands to its handler *)

(** The cells of [JobExecutionContext] and of its [CheckpointWriter] that the handler and
    the worker share are held by their current content. *)
Record JobExecutionContext := {
  cx_job_id : string;
  cx_kind : string;
  cx_attempt_id : string;
  cx_attempt_number : Z;
  cx_worker_id : string;
  cx_lease : JobLease;
  cx_cancellation : nat;
  cx_storage_pressure : nat;
  cx_initial_now : Z;
  cx_writer_lease : JobLease;
  cx_persisted : bool;
  cx_terminal_failure : bool;
  cx_diagnostics : ExecutionDiagnostics;
  cx_terminal_crawl_run : option TerminalCrawlRunCommit
}.

Definition eta_context (c : JobExecutionContext) : JobExecutionContext :=
  {| cx_job_id := cx_job_id c; cx_kind := cx_kind c; cx_attempt_id := cx_attempt_id c;
     cx_attempt_number := cx_attempt_number c; cx_worker_id := cx_worker_id c;
     cx_lease := cx_lease c; cx_cancellation := cx_cancellation c;
     cx_storage_pressure := cx_storage_pressure c; cx_initial_now := cx_initial_now c;
     cx_writer_lease := cx_writer_lease c; cx_persisted := cx_persisted c;
     cx_terminal_failure := cx_terminal_failure c; cx_diagnostics := cx_diagnostics c;
     cx_terminal_crawl_run := cx_terminal_crawl_run c |}.
#[export] Instance set_cx_writer_lease : Setter cx_writer_lease.
Proof. setter_of eta_context cx_writer_lease. Defined.
#[export] Instance set_cx_persisted : Setter cx_persisted.
Proof. setter_of eta_context cx_persisted. Defined.
#[export] Instance set_cx_terminal_failure : Setter cx_terminal_failure.
Proof. setter_of eta_context cx_terminal_failure. Defined.
#[export] Instance set_cx_diagnostics : Setter cx_diagnostics.
Proof. setter_of eta_context cx_diagnostics. Defined.
#[export] Instance set_cx_terminal_crawl_run : Setter cx_terminal_crawl_run.
Proof. setter_of eta_context cx_terminal_crawl_run. Defined.

Definition stamp (cx : JobExecutionContext) : ExecutionDiagnostic -> ExecutionDiagnostic :=
  with_context (cx_job_id cx) (cx_attempt_id cx) (cx_attempt_number cx).

(** [i64::try_from] of the elapsed whole seconds, added to the time of the turn. *)
Definition elapsed_time {E} (e : E) (initial_now elapsed : Z) : result E Z :=
  if elapsed <=? i64_max then ok_or e (i64_checked_add initial_now elapsed) else Err e.

Definition current_queue_time (initial_now elapsed : Z) : result JobRuntimeError Z :=
  elapsed_time RuntimeInvalidPolicy initial_now elapsed.

(** [CheckpointWriter::lineage]. *)
Definition lineage_of (elapsed : Z) (cx : JobExecutionContext)
    : result JobRepositoryError (string * string * JobLease * Z) :=
  let? created_at := elapsed_time QueueInvariant (cx_initial_now cx) elapsed in
  Ok (cx_job_id cx, cx_attempt_id cx, cx_writer_lease cx, created_at).

Definition ownership_now (elapsed : Z) (cx : JobExecutionContext) : Z :=
  Z.max i64_min (Z.min i64_max (cx_initial_now cx + Z.min elapsed i64_max)).

Definition mark_checkpoint_persisted (cx : JobExecutionContext) : JobExecutionContext :=
  cx <| cx_persisted := true |>.
Definition mark_terminal_failure (cx : JobExecutionContext) : JobExecutionContext :=
  cx <| cx_terminal_failure := true |>.
Definition record_primary_diagnostic (d : ExecutionDiagnostic) (cx : JobExecutionContext)
    : JobExecutionContext :=
  cx <| cx_diagnostics ::= (fun ds => add_primary ds (stamp cx d)) |>.
Definition record_secondary_diagnostic (d : ExecutionDiagnostic) (cx : JobExecutionContext)
    : JobExecutionContext :=
  cx <| cx_diagnostics ::= (fun ds => add_secondary ds (stamp cx d)) |>.
Definition context_record_diagnostics (ds : ExecutionDiagnostics) (cx : JobExecutionContext)
    : JobExecutionContext :=
  cx <| cx_diagnostics ::= (fun self => record_diagnostics (stamp cx) self ds) |>.
Definition context_record_secondary (ds : ExecutionDiagnostics) (cx : JobExecutionContext)
    : JobExecutionContext :=
  cx <| cx_diagnostics ::= (fun self => record_secondary_diagnostics (stamp cx) self ds) |>.
Definition mark_terminal_crawl_run (run : string) (status : CrawlRunStatus) (cx : JobExecutionContext)
    : JobExecutionContext :=
  cx <| cx_terminal_crawl_run := Some {| commit_run_id := run; commit_status := status;
          terminal_progress_durable := false |} |>.
Definition mark_terminal_progress_durable (cx : JobExecutionContext) : JobExecutionContext :=
  cx <| cx_terminal_crawl_run ::= (fun o => (fun c => c <| terminal_progress_durable := true |>) <$> o) |>.

Section runtime.
Context `{U : UuidLib} `{L : UrlLib} `{SD : SerdeLib} `{J : JsonLib} `{Hash : HashLib} `{W : !SnapshotWire}.

(** [JobExecutionContext::checkpoint]. *)
Definition checkpoint (elapsed : Z) (c : CheckpointEnvelope) (cx : JobExecutionContext) (db : Db)
    : result JobRepositoryError CheckpointRecord * JobExecutionContext * Db :=
  match lineage_of elapsed cx with
  | Err e => (Err e, cx, db)
  | Ok (job, attempt, lease, created_at) =>
    match append_job_checkpoint job attempt lease c created_at db with
    | (Ok r, db') => (Ok r, mark_checkpoint_persisted cx, db')
    | (Err e, db') => (Err e, cx, db')
    end
  end.

(** ** Turns *)

Inductive HandlerResult := Returned | ReturnedError | Unwound.

Inductive WorkerTurn :=
| TurnIdle
| TurnSucceeded (job : string) (diagnostics : option ExecutionDiagnostics)
| TurnRetryScheduled (job : string) (failure : JobFailureCode) (diagnostics : option ExecutionDiagnostics)
| TurnFailed (job : string) (failure : JobFailureCode) (diagnostics : option ExecutionDiagnostics)
| TurnCancelled (job : string) (checkpoint_persisted : bool) (diagnostics : option ExecutionDiagnostics)
| TurnStoragePressure (job : string) (state : JobState) (checkpoint_persisted : bool).

Definition non_empty (ds : ExecutionDiagnostics) : option ExecutionDiagnostics :=
  if diagnostics_is_empty ds then None else Some ds.

Definition is_root_action_kind (kind : string) : bool :=
  bool_decide (kind ∈ ["RETRY"; "RETRY_FAILED_PARTS"; "RESUME_CHECKPOINT"; "RERUN_FULL_CRAWL";
                       "RESTART_FROM_BEGINNING"]%string).

Definition is_production_context (cx : JobExecutionContext) (db : Db) : result JobRuntimeError bool :=
  if String.eqb (cx_kind cx) "PRODUCTION_CRAWL" then Ok true
  else if negb (is_root_action_kind (cx_kind cx)) then Ok false
  else
    let? j := map_err RuntimeRepository (job (cx_job_id cx) db) in
    match job_crawl_run_id j with
    | None => Ok false
    | Some stored =>
      let? run := ok_or (RuntimeRepository QueueInvariant) (run_id_of (Some stored)) in
      let? snapshot := map_err (fun _ => RuntimeRepository QueueInvariant) (snapshot_of run db) in
      Ok (bool_decide (draft_run_type (snapshot_draft snapshot) = ProductionRun))
    end.

Definition record_failure (p : WorkerPolicy) (cx : JobExecutionContext) (lease : JobLease) (now : Z)
    (failure : JobFailureCode) (terminal : bool) (diagnostics : option ExecutionDiagnostics)
    : Run WorkerTurn := fun w =>
  (let+ production := run_of (is_production_context cx (w_db w)) in
  if production then
    let+ _ := repository (fail_terminal_production (cx_job_id cx) lease now failure) in
    run_ret (TurnFailed (cx_job_id cx) failure diagnostics)
  else if terminal then
    let+ _ := repository (fail_terminal (cx_job_id cx) lease now failure) in
    run_ret (TurnFailed (cx_job_id cx) failure diagnostics)
  else
    let+ retry_at := run_of (ok_or RuntimeInvalidPolicy
      (i64_checked_add now (retry_delay_seconds p))) in
    let+ state := repository (fail (cx_job_id cx) lease now failure retry_at) in
    match state with
    | Queued => run_ret (TurnRetryScheduled (cx_job_id cx) failure diagnostics)
    | Failed => run_ret (TurnFailed (cx_job_id cx) failure diagnostics)
    | _ => run_of (Err (RuntimeRepository QueueInvariant))
    end) w.

(** Whether the first events of a stream hold another terminal state, or two. *)
Fixpoint contradicts (expected : ProgressTerminalState) (seen : bool) (events : list ProgressEvent) : bool :=
  match events with
  | [] => false
  | e :: events =>
    match event_terminal e with
    | None => contradicts expected seen events
    | Some status => seen || negb (bool_decide (status = expected)) || contradicts expected true events
    end
  end.

Definition terminal_progress_contradiction (job : string) (expected : ProgressTerminalState) (db : Db)
    : bool :=
  match replay_request_new None 256 with
  | Err _ => false
  | Ok request =>
    match replay job request db with
    | Err _ => false
    | Ok page => contradicts expected false (page_events page)
    end
  end.

Definition terminal_commit_diagnostics (commit : TerminalCrawlRunCommit)
    (diagnostics : option ExecutionDiagnostics) (r : HandlerResult) : ExecutionDiagnostics :=
  let ds := default no_diagnostics diagnostics in
  match r with
  | Returned => ds
  | _ => match primary ds with
    | Some _ => ds
    | None => add_primary ds (with_run (commit_run_id commit)
        (diagnostic_new CatFinalization ReconcileTerminality DoReconcile
          "HANDLER_FAILED_AFTER_TERMINAL_COMMIT"))
    end
  end.

(** The repair of a missing terminal event: a failure that does not stop the worker is kept
    as a secondary diagnostic. *)
Definition repair_terminal_progress (cx : JobExecutionContext) (now : Z) (commit : TerminalCrawlRunCommit)
    (progress : ProgressTerminalState) (ds : ExecutionDiagnostics) : Run ExecutionDiagnostics := fun w =>
  match repository (append_terminal_progress_if_missing (cx_job_id cx) progress now) w with
  | (Ok _, w) => (Ok ds, w)
  | (Err e, w) =>
    if bool_decide (disposition e = FatalStop) then (Err e, w)
    else (Ok (add_secondary ds (with_terminal_outcome (commit_status commit)
            (with_run (commit_run_id commit)
              (diagnostic_new CatProgressPublication AppendProgress DoReconcile
                "TERMINAL_PROGRESS_REPAIR_FAILED")))), w)
  end.

Definition reconcile_terminal_commit (cx : JobExecutionContext) (lease : JobLease) (now : Z)
    (commit : TerminalCrawlRunCommit) (diagnostics : option ExecutionDiagnostics) (r : HandlerResult)
    : Run WorkerTurn :=
  let ds := terminal_commit_diagnostics commit diagnostics r in
  let+ reconciliation := repository (reconcile_terminal_crawl_run (cx_job_id cx) lease
    (commit_run_id commit) now) in
  let+ ds := if terminal_progress_durable commit then run_ret ds
    else repair_terminal_progress cx now commit (reconciled_progress reconciliation) ds in
  match reconciled_state reconciliation with
  | Succeeded => run_ret (TurnSucceeded (cx_job_id cx) (non_empty ds))
  | Failed => run_ret (TurnFailed (cx_job_id cx) HandlerFailed (non_empty ds))
  | Cancelled => run_ret (TurnCancelled (cx_job_id cx) (cx_persisted cx) (non_empty ds))
  | Queued | Running => run_of (Err (RuntimeRepository QueueInvariant))
  end.

(** What follows the handler's result in [execute_acquired]. *)
Definition record_outcome (p : WorkerPolicy) (cx : JobExecutionContext) (lease : JobLease)
    (completed_at : Z) (r : HandlerResult) : Run WorkerTurn := fun w =>
  let diagnostics := non_empty (cx_diagnostics cx) in
  match cx_terminal_crawl_run cx with
  | Some commit => reconcile_terminal_commit cx lease completed_at commit diagnostics r w
  | None =>
    if is_cancelled (cx_cancellation cx) (w_cancellation w) then
      (let+ _ := repository (cancel (cx_job_id cx) lease completed_at) in
       run_ret (TurnCancelled (cx_job_id cx) (cx_persisted cx) diagnostics)) w
    else if is_signalled (cx_storage_pressure cx) (w_pressure w) then
      (let+ state := repository (requeue_after_storage_pressure (cx_job_id cx) lease completed_at) in
       run_ret (TurnStoragePressure (cx_job_id cx) state (cx_persisted cx))) w
    else
      match r with
      | Returned =>
        (let+ _ := repository (succeed (cx_job_id cx) lease completed_at) in
         run_ret (TurnSucceeded (cx_job_id cx) diagnostics)) w
      | ReturnedError => record_failure p cx lease completed_at HandlerFailed (cx_terminal_failure cx)
          diagnostics w
      | Unwound => record_failure p cx lease completed_at HandlerPanicked false diagnostics w
      end
  end.

(** *** The loop of [execute_acquired] *)

Inductive TurnEvent :=
| Concurrent (f : JobExecutionContext * World -> JobExecutionContext * World)
| Tick (elapsed : Z) (probed : option Z)
| Finished (r : HandlerResult) (elapsed : Z).

(** The handler alone, once its lease is lost: its result is not used. *)
Fixpoint handler_stops (events : list TurnEvent) (s : JobExecutionContext * World)
    : option (JobExecutionContext * World) :=
  match events with
  | [] => None
  | Concurrent f :: events => handler_stops events (f s)
  | Tick _ _ :: events => handler_stops events s
  | Finished _ _ :: _ => Some s
  end.

Inductive LoopExit := LoopResult (r : HandlerResult) (elapsed : Z) | LoopError (e : JobRuntimeError).

(** [None]: the handler does not end within these events. *)
Fixpoint heartbeat_loop (p : WorkerPolicy) (now : Z) (events : list TurnEvent) (lease : JobLease)
    (s : JobExecutionContext * World) : option (LoopExit * JobLease * (JobExecutionContext * World)) :=
  match events with
  | [] => None
  | Concurrent f :: events => heartbeat_loop p now events lease (f s)
  | Finished r elapsed :: _ => Some (LoopResult r elapsed, lease, s)
  | Tick elapsed probed :: events =>
    match current_queue_time now elapsed with
    | Err e => Some (LoopError e, lease, s)
    | Ok heartbeat_now =>
      let '(cx, w) := s in
      let w := w <| w_pressure ::= (fun c => (refresh probed c).2) |> in
      match heartbeat (cx_job_id cx) lease heartbeat_now (lease_duration_seconds p) (w_db w) with
      | (Ok renewed, db) =>
        heartbeat_loop p now events renewed (cx <| cx_writer_lease := renewed |>, w <| w_db := db |>)
      | (Err e, db) =>
        let w := w <| w_db := db |> <| w_cancellation ::= cancel_token (cx_cancellation cx) |> in
        s ← handler_stops events (cx, w);
        Some (LoopError (RuntimeRepository e), lease, s)
      end
    end
  end.

Definition execute_acquired (p : WorkerPolicy) (events : list TurnEvent) (cx : JobExecutionContext)
    (now : Z) (w : World) : option (result JobRuntimeError WorkerTurn * World) :=
  exit ← heartbeat_loop p now events (cx_lease cx) (cx, w);
  let '(e, lease, (cx, w)) := exit in
  Some match e with
  | LoopError e => (Err e, w)
  | LoopResult r elapsed =>
    match current_queue_time now elapsed with
    | Err e => (Err e, w)
    | Ok completed_at => record_outcome p cx lease completed_at r w
    end
  end.

Definition ends_the_job (r : result JobRuntimeError WorkerTurn) : bool :=
  match r with
  | Ok (TurnSucceeded _ _ | TurnFailed _ _ _ | TurnCancelled _ _ _) => true
  | _ => false
  end.

Definition context_of (worker_id : string) (now : Z) (a : AcquiredJob) (lease : JobLease)
    (cancellation storage_pressure : nat) : JobExecutionContext :=
  {| cx_job_id := job_id (acquired_job a); cx_kind := job_kind (acquired_job a);
     cx_attempt_id := attempt_id (acquired_attempt a);
     cx_attempt_number := attempt_number (acquired_attempt a); cx_worker_id := worker_id;
     cx_lease := lease; cx_cancellation := cancellation; cx_storage_pressure := storage_pressure;
     cx_initial_now := now; cx_writer_lease := lease; cx_persisted := false;
     cx_terminal_failure := false; cx_diagnostics := no_diagnostics; cx_terminal_crawl_run := None |}.

Definition release_signals (job : string) (terminal : bool) (w : World) : World :=
  w <| w_cancellation ::= release job terminal |> <| w_pressure ::= release_heavy job |>.

(** [JobRuntime::execute_next_at]; [probed] is what the storage probe reads first, and
    [handler] the events of the turn it is given. *)
Definition execute_next_at (p : WorkerPolicy) (worker_id : string)
    (handler : JobExecutionContext -> list TurnEvent) (now : Z) (probed : option Z) (w : World)
    : option (result JobRuntimeError WorkerTurn * World) :=
  if shutdown_requested (w_cancellation w) then Some (Ok TurnIdle, w)
  else
    let '(state, pressure) := refresh probed (w_pressure w) in
    let w := w <| w_pressure := pressure |> in
    match repository (acquire_next_with_storage_admission worker_id now (lease_duration_seconds p)
        (allows_artifact_heavy state)) w with
    | (Err e, w) => Some (Err e, w)
    | (Ok None, w) => Some (Ok TurnIdle, w)
    | (Ok (Some a), w) =>
      let id := job_id (acquired_job a) in
      let '(token, cancellation) := register id (w_cancellation w) in
      let '(heavy, pressure) := register_pressure id (storage_class (acquired_job a)) (w_pressure w) in
      let w := w <| w_cancellation := cancellation |> <| w_pressure := pressure |> in
      match job_lease (acquired_job a) with
      | None => Some (Err (RuntimeRepository QueueInvariant), release_signals id false w)
      | Some lease =>
        let cx := context_of worker_id now a lease token heavy in
        outcome ← execute_acquired p (handler cx) cx now w;
        Some (outcome.1, release_signals id (ends_the_job outcome.1) outcome.2)
      end
    end.

(** [JobRuntime::with_storage_pressure_monitor]. *)
Definition runtime_new (worker_id : string) (p : WorkerPolicy) : result JobRuntimeError unit :=
  reject_if (negb (policy_valid p) || str_is_empty worker_id || (128 <? byte_len worker_id))
    RuntimeInvalidPolicy.

(** ** Requests from outside *)

Definition request_job_cancellation (job : string) (now : Z) : Run JobState := fun w =>
  let w := w <| w_cancellation ::= request job |> in
  match repository (cancel_queued job now) w with
  | (Ok state, w) =>
    (Ok state, match state with
      | Succeeded | Failed | Cancelled => w <| w_cancellation ::= retire_after_terminal_boundary job |>
      | _ => w
      end)
  | (Err e, w) => (Err e, w)
  end.

(** The hooks of a start, before any worker runs. *)
Definition recover_and_rebuild_at (now : Z) (db : Db)
    : result JobRepositoryError (StaleJobRecovery * list string) * Db :=
  match recover_stale_jobs now db with
  | (Err e, db) => (Err e, db)
  | (Ok recovery, db) =>
    (let? concurrency := rebuild_concurrency_state now db in Ok (recovery, concurrency), db)
  end.

(** ** The dispatcher of the root jobs *)

Inductive RootHandler := QuickScrapeHandler | ProductionHandler.

Definition root_handler (kind id : string) (db : Db) : result unit RootHandler :=
  if String.eqb kind "QUICK_SCRAPE" then Ok QuickScrapeHandler
  else if String.eqb kind "PRODUCTION_CRAWL" then Ok ProductionHandler
  else if is_root_action_kind kind then
    let? j := map_err (fun _ => tt) (job id db) in
    let? run := ok_or tt (run_id_of (job_crawl_run_id j)) in
    let? snapshot := map_err (fun _ => tt) (snapshot_of run db) in
    match draft_run_type (snapshot_draft snapshot) with
    | QuickScrape => Ok QuickScrapeHandler
    | ProductionRun => Ok ProductionHandler
    | TestRun | DiscoveryPreview => Err tt
    end
  else Err tt.
End runtime.
