(* ===== verification/RuntimeTheorems.v ===== *)
(** * The worker runtime: what a turn reports and what it may do

    Proofs about [JobRuntime.v]: the outcome a turn reports is the durable state of its
    job, a turn whose lease was taken over records nothing, a job that was asked to stop is
    cancelled by its next turn, and every turn gives back its signals. *)

From S2P Require Import Prelude Externals JsonFacts Base Instances Settings Snapshot Store Progress.
From S2P Require Import Checkpoint Runs JobQueue JobInvariants JobTheorems Diagnostics WorkerSignals.
From S2P Require Import JobEvidence Finalization JobRuntime.

(** * Lemmas *)

(** ** The durable outcome of the owner's operations *)

Definition ends_in (id : string) (s : JobState) (db : Db) : Prop :=
  exists r, jobs db !! id = Some r /\ row_state r = s.

Lemma ends_in_same id s db db' : jobs db' = jobs db -> ends_in id s db -> ends_in id s db'.
Proof. unfold ends_in. by intros ->. Qed.

Lemma closed_ends id lease now outcome failure f db db' s :
  closed id lease now outcome failure f db db' -> (forall r, row_state (f r) = s) -> ends_in id s db'.
Proof.
  intros (r & i & a & _ & _ & _ & _ & _ & _ & ->) Hs. exists (f r).
  by rewrite <- (Hs r); simpl; rewrite lookup_insert_eq.
Qed.

Section outcomes.
Context `{U : UuidLib} `{L : UrlLib} `{SD : SerdeLib}.

(** The job is closed in [s], and what follows leaves the jobs alone. *)
Lemma close_then_ends {B} id lease now outcome failure f (k : unit -> Tx JobRepositoryError B) db b db' s :
  tx_bind (finish_attempt_in_transaction id lease now outcome failure)
    (fun _ => tx_bind (update_leased_job id lease f) k) db = Ok (b, db') ->
  (forall r, row_state (f r) = s) -> (forall u d b d', k u d = Ok (b, d') -> jobs d' = jobs d) ->
  ends_in id s db'.
Proof.
  intros H Hs Hk. tx_step H. destruct (close_inv _ _ _ _ _ _ _ _ _ _ _ Hs0 Hs1) as [_ Hc].
  eapply ends_in_same; [by eapply Hk|]. by eapply closed_ends.
Qed.

Lemma close_ends id lease now outcome failure f db u db' s :
  tx_bind (finish_attempt_in_transaction id lease now outcome failure)
    (fun _ => update_leased_job id lease f) db = Ok (u, db') ->
  (forall r, row_state (f r) = s) -> ends_in id s db'.
Proof.
  intros H Hs. tx_step H. destruct (close_inv _ _ _ _ _ _ _ _ _ _ _ Hs0 H) as [_ Hc].
  by eapply closed_ends.
Qed.

Lemma succeed_ends id lease now db u db' :
  succeed id lease now db = (Ok u, db') -> ends_in id Succeeded db'.
Proof.
  unfold succeed, finish. rewrite transact_ok. intros H. apply tx_bind_ok in H as (j & d & _ & H).
  by eapply close_ends.
Qed.

Lemma fail_disposition_ends id lease now failure retry_at terminal db s db' :
  queue_wf db -> fail_with_disposition id lease now failure retry_at terminal db = (Ok s, db') ->
  (s = Queued \/ s = Failed) /\
  exists r, jobs db' !! id = Some r /\ row_state r = s /\ row_failure_code r = Some failure /\
    (s = Queued -> terminal = false /\ row_scheduled_at r = retry_at /\
       row_current_attempt r < row_max_attempts r).
Proof.
  intros Hwf. unfold fail_with_disposition. rewrite transact_ok. intros H.
  apply tx_bind_ok in H as (j & d & Hj & H).
  destruct (select_owned_inv _ _ _ _ _ _ Hwf Hj) as (-> & r & Hr & -> & _). cbv zeta in H. tx_step H.
  destruct (close_inv _ _ _ _ _ _ _ _ _ _ _ Hs Hs0) as [_ (r' & i & att & Hr' & _ & _ & _ & _ & _ & ->)].
  rewrite Hr in Hr'. injection Hr' as <-.
  split; [destruct (negb terminal && _); auto|].
  eexists. split; [simpl; by rewrite lookup_insert_eq|]. simpl. split; [done|]. split; [done|].
  intros Hq. rewrite Hq, decide_True by done. destruct (negb terminal && _) eqn:Hb; [|done].
  simpl in Hb. boolify. split_and!; [done|done|lia].
Qed.

Lemma fail_terminal_ends id lease now failure db u db' :
  queue_wf db -> fail_terminal id lease now failure db = (Ok u, db') -> ends_in id Failed db'.
Proof.
  intros Hwf. unfold fail_terminal.
  destruct (fail_with_disposition _ _ _ _ _ _ _) as [[s|e] d] eqn:H; [destruct s|]; try done.
  intros [= _ <-]. apply fail_disposition_ends in H as (_ & r & Hr & Hs & _); [|done]. by exists r.
Qed.

Lemma fail_production_ends id lease now failure db u db' :
  fail_terminal_production id lease now failure db = (Ok u, db') -> ends_in id Failed db'.
Proof.
  unfold fail_terminal_production. rewrite transact_ok. intros H.
  apply tx_bind_ok in H as (j & d & _ & H). apply tx_bind_ok in H as (d0 & d1 & _ & H).
  apply tx_bind_ok in H as (u1 & d2 & _ & H). eapply close_then_ends; [exact H|done|].
  intros u2 d3 b d4 Hf. exact (proj1 (tx_quiet_finalize _ _ _ _ _ Hf)).
Qed.

Lemma cancel_related_quiet run db u db' : cancel_related_run run db = Ok (u, db') -> jobs db' = jobs db.
Proof.
  unfold cancel_related_run. destruct run as [run|]; intros H; [|by apply tx_ret_ok in H as [_ ->]].
  apply tx_bind_ok in H as (n & d & Hu & H). apply tx_ret_ok in H as [_ ->].
  apply tx_map_err_ok, update_run_status_inv in Hu as [(_ & r & _ & _ & ->)|(_ & -> & _)]; done.
Qed.

(** How the run of a job ended, as the job sees it. *)
Definition run_outcome (id : string) (s : JobState) (db : Db) : Prop :=
  exists r run status, jobs db !! id = Some r /\ row_crawl_run_id r = Some run /\
    select_crawl_run_status run db = Some status /\
    ((s = Succeeded /\ (status = RunSucceeded \/ status = RunPartialResult)) \/
     (s = Failed /\ status = RunFailed)).

Lemma cancel_outcome_ended o outcome s failure :
  cancel_outcome o = Some (outcome, s, failure) ->
  exists status, o = Some status /\
    ((s = Succeeded /\ (status = RunSucceeded \/ status = RunPartialResult)) \/
     (s = Failed /\ status = RunFailed)).
Proof. destruct o as [[]|]; simpl; try done; intros [= <- <- <-]; eexists; eauto 6. Qed.

(** The job is cancelled, with the reason, and so is its run. *)
Definition cancelled_in (id : string) (db : Db) : Prop :=
  exists r, jobs db !! id = Some r /\ row_state r = Cancelled /\ row_failure_code r = Some CancelledCode /\
    forall run status, row_crawl_run_id r = Some run -> select_crawl_run_status run db = Some status ->
      status = RunCancelled.

Lemma cancel_related_cancels run db u db' status :
  cancel_related_run (Some run) db = Ok (u, db') -> cancel_outcome (select_crawl_run_status run db) = None ->
  select_crawl_run_status run db' = Some status -> status = RunCancelled.
Proof.
  unfold cancel_related_run, select_crawl_run_status. intros H Ho Hs. apply tx_bind_ok in H as (n & d & Hu & H).
  apply tx_ret_ok in H as [_ ->].
  apply tx_map_err_ok, update_run_status_inv in Hu as [(_ & r & _ & _ & ->)|(_ & -> & Hno)].
  - simpl in Hs. rewrite lookup_insert_eq in Hs. by injection Hs as <-.
  - destruct (crawl_runs db !! run) as [r|]; [|done]. specialize (Hno r eq_refl).
    injection Hs as <-. simpl in Ho. destruct (run_status r); try done; exfalso; apply Hno; set_solver.
Qed.

Lemma cancel_cancels id lease now db u db' :
  queue_wf db -> cancel id lease now db = (Ok u, db') ->
  cancelled_in id db' \/ exists s, run_outcome id s db' /\ ends_in id s db'.
Proof.
  intros Hwf. unfold cancel. rewrite transact_ok. intros H. apply tx_bind_ok in H as (j & d & Hj & H).
  destruct (select_owned_inv _ _ _ _ _ _ Hwf Hj) as (-> & r & Hr & -> & _).
  apply tx_bind_ok in H as (d0 & d1 & [-> ->]%tx_get_ok & H).
  destruct (cancel_outcome _) as [[[outcome s] failure]|] eqn:Ho.
  - right. exists s. split; [|by eapply close_ends].
    apply cancel_outcome_ended in Ho as (status & Hs & Hst). simpl in Hs.
    destruct (row_crawl_run_id r) as [run|] eqn:Hrun; [|done]. tx_step H.
    destruct (close_inv _ _ _ _ _ _ _ _ _ _ _ Hs0 H) as [_ (r' & i & att & Hr' & _ & _ & _ & _ & _ & ->)].
    rewrite Hr in Hr'. injection Hr' as <-.
    eexists _, run, status. split; [simpl; by rewrite lookup_insert_eq|]. done.
  - left. tx_step H.
    destruct (close_inv _ _ _ _ _ _ _ _ _ _ _ Hs Hs0) as [_ (r' & i & att & Hr' & _ & _ & _ & _ & _ & ->)].
    rewrite Hr in Hr'. injection Hr' as <-. eexists. split; [|split; [|split]].
    + rewrite (cancel_related_quiet _ _ _ _ H). simpl. by rewrite lookup_insert_eq.
    + done.
    + done.
    + intros run status Hrun Hstatus. cbn [row_crawl_run_id closed_row released_row] in Hrun.
      change (job_crawl_run_id (record_of id r)) with (row_crawl_run_id r) in H, Ho. rewrite Hrun in H, Ho.
      by eapply cancel_related_cancels.
Qed.

Lemma cancel_ends id lease now db u db' :
  queue_wf db -> cancel id lease now db = (Ok u, db') ->
  ends_in id Cancelled db' \/ exists s, run_outcome id s db' /\ ends_in id s db'.
Proof.
  intros Hwf H. apply cancel_cancels in H as [(r & Hr & Hs & _)|?]; [left; by exists r|by right|done].
Qed.

Lemma reconcile_run_inv id lease run now db rec db' :
  queue_wf db -> reconcile_terminal_crawl_run id lease run now db = (Ok rec, db') ->
  is_terminal (reconciled_state rec) = true /\ exists r, jobs db !! id = Some r /\
    ((row_state r = reconciled_state rec /\ db' = db) \/
     (row_state r = Running /\ row_lease r = Some lease /\ exists l outcome failure,
        closed id l now outcome failure (closed_row (reconciled_state rec) failure now) db db')).
Proof.
  intros Hwf. unfold reconcile_terminal_crawl_run. rewrite transact_ok. intros H. tx_step H.
  destruct (select_job_inv _ _ _ _ Hwf Hs) as (r & Hr & -> & ->).
  apply reconcile_inv in Hs0; [|done]. destruct a3 as [rec'|]; [|done]. injection Eof0 as ->.
  destruct Hs0 as (Ht & r' & Hr' & Hcases). rewrite Hr in Hr'. injection Hr' as <-.
  split; [done|]. exists r. split; [done|].
  destruct Hcases as [?|(l & outcome & failure & Hst & Hc)]; [by left|right]. simpl in Erej0.
  rewrite Hst, bool_decide_eq_true_2 in Erej0 by done. simpl in Erej0. boolify.
  split_and!; [done|done|by exists l, outcome, failure].
Qed.

Lemma reconcile_ends id lease run now db rec db' :
  queue_wf db -> reconcile_terminal_crawl_run id lease run now db = (Ok rec, db') ->
  ends_in id (reconciled_state rec) db'.
Proof.
  intros Hwf H. apply reconcile_run_inv in H as (_ & r & Hr & [[Hs ->]|(_ & _ & l & o & f & Hc)]); [| |done].
  - by exists r.
  - by eapply closed_ends.
Qed.

Lemma finish_after_ends id lease run now db rec db' :
  queue_wf db -> finish_after_terminal_crawl_run id lease run now db = Ok (Some rec, db') ->
  ends_in id (reconciled_state rec) db'.
Proof.
  intros Hwf H. unfold finish_after_terminal_crawl_run in H. apply tx_bind_ok in H as (d0 & d & Hg & H).
  apply tx_get_ok in Hg as [-> ->]. destruct (select_crawl_run_status run db) as [status|].
  - apply reconcile_inv in H; [|done]. destruct H as (_ & r & Hr & [[Hs ->]|(l & o & f & _ & Hc)]).
    + by exists r.
    + by eapply closed_ends.
  - by apply tx_ret_ok in H as [? _].
Qed.

Lemma requeue_transaction_ends id lease now db o s db' :
  queue_wf db -> requeue_in_transaction id lease now db = Ok ((o, s), db') ->
  ends_in id s db' /\ (forall rec, o = Some rec -> s = reconciled_state rec).
Proof.
  intros Hwf H. unfold requeue_in_transaction in H. apply tx_bind_ok in H as (j & d & Hj & H).
  destruct (select_owned_inv _ _ _ _ _ _ Hwf Hj) as (-> & r & Hr & -> & Hst & _).
  apply tx_bind_ok in H as (reconciled & d & Hrec & H). simpl in Hrec. destruct reconciled as [rec|].
  - apply tx_ret_ok in H as [[= -> ->] ->].
    destruct (row_crawl_run_id r) as [run|]; [|by apply tx_ret_ok in Hrec as [? _]].
    split; [by eapply finish_after_ends|by intros ? [= ->]].
  - assert (d = db) as ->.
    { destruct (row_crawl_run_id r); [by eapply finish_after_none|by apply tx_ret_ok in Hrec as [_ ->]]. }
    apply tx_bind_ok in H as (d0 & d1 & Hg & H). apply tx_get_ok in Hg as [-> ->].
    apply tx_bind_ok in H as (ckpt & d1 & Hd & H). apply tx_of_ok in Hd as [_ ->]. cbv zeta in H.
    set (next := if (_ && _) then _ else _) in H. tx_step H.
    destruct (close_inv _ _ _ _ _ _ _ _ _ _ _ Hs Hs0) as [_ Hc]. simplify_eq. split; [|done].
    eapply ends_in_same; [|by eapply closed_ends].
    destruct (_ && _) in Hs1; [|by apply tx_ret_ok in Hs1 as [_ ->]].
    exact (proj1 (tx_quiet_finalize _ _ _ _ _ Hs1)).
Qed.

Lemma requeue_ends id lease now db s db' :
  queue_wf db -> requeue_after_storage_pressure id lease now db = (Ok s, db') -> ends_in id s db'.
Proof.
  intros Hwf. unfold requeue_after_storage_pressure.
  destruct (transact _ db) as [[[o s']|e] d] eqn:H; [|done]. apply transact_ok in H.
  apply requeue_transaction_ends in H as [He Ho]; [|done]. destruct o as [rec|].
  - specialize (Ho _ eq_refl) as ->.
    destruct (append_terminal_progress_if_missing _ _ _ d) as [[u|e] d'] eqn:Ha; intros [= <- <-].
    apply terminal_progress_quiet in Ha as [Ha _]. by eapply ends_in_same.
  - by intros [= <- <-].
Qed.
End outcomes.

(** ** Steps of a turn *)

Lemma run_bind_ok {A B} (t : Run A) (k : A -> Run B) w b w' :
  run_bind t k w = (Ok b, w') <-> exists a w1, t w = (Ok a, w1) /\ k a w1 = (Ok b, w').
Proof. unfold run_bind. destruct (t w) as [[a|e] w1]; naive_solver. Qed.

Lemma run_of_ok {A} (r : result JobRuntimeError A) w a w' :
  run_of r w = (Ok a, w') <-> r = Ok a /\ w' = w.
Proof. unfold run_of. naive_solver. Qed.

Lemma run_ret_ok {A} (x : A) w a w' : run_ret x w = (Ok a, w') <-> a = x /\ w' = w.
Proof. unfold run_ret. naive_solver. Qed.

Lemma repository_ok {A} (op : Db -> result JobRepositoryError A * Db) w a w' :
  repository op w = (Ok a, w') -> exists db, op (w_db w) = (Ok a, db) /\ w' = w <| w_db := db |>.
Proof.
  unfold repository. destruct (op (w_db w)) as [[x|e] db]; simpl; [|done]. intros [= <- <-]. by exists db.
Qed.

(** Runs a hypothesis [H : t w = (Ok a, w')] to its steps. *)
Ltac run_step H :=
  lazymatch type of H with
  | run_bind _ _ _ = (Ok _, _) =>
    let a := fresh "a" in let w := fresh "w" in let Hs := fresh "Hs" in
    apply run_bind_ok in H as (a & w & Hs & H); cbv beta in H; run_step Hs; run_step H
  | run_ret _ _ = (Ok _, _) => apply run_ret_ok in H as [-> ->]
  | run_of _ _ = (Ok _, _) => let E := fresh "Eof" in apply run_of_ok in H as [E ->]
  | repository _ _ = (Ok _, _) =>
    let db := fresh "db" in let Hop := fresh "Hop" in apply repository_ok in H as (db & Hop & ->)
  | _ => idtac
  end.

(** ** What a turn reports *)

(** The report of a turn agrees with the store.  A cancelled turn defers to a run that has
    ended: then the job has the run's outcome. *)
Definition agrees (turn : WorkerTurn) (db : Db) : Prop :=
  match turn with
  | TurnIdle => True
  | TurnSucceeded id _ => ends_in id Succeeded db
  | TurnRetryScheduled id failure _ => exists r, jobs db !! id = Some r /\ row_state r = Queued /\
      row_failure_code r = Some failure /\ row_current_attempt r < row_max_attempts r
  | TurnFailed id _ _ => ends_in id Failed db
  | TurnCancelled id _ _ => ends_in id Cancelled db \/
      exists s, run_outcome id s db /\ ends_in id s db
  | TurnStoragePressure id s _ => ends_in id s db
  end.

(** What the handler and the other threads may do between the worker's own steps: anything
    that keeps the queue well formed and leaves the turn its job. *)
Definition admissible (e : TurnEvent) : Prop :=
  match e with
  | Concurrent f => forall s, queue_wf (w_db s.2) ->
      queue_wf (w_db (f s).2) /\ cx_job_id (f s).1 = cx_job_id s.1
  | _ => True
  end.

Lemma handler_stops_keeps events : Forall admissible events -> forall s s',
  handler_stops events s = Some s' -> queue_wf (w_db s.2) ->
  queue_wf (w_db s'.2) /\ cx_job_id s'.1 = cx_job_id s.1.
Proof.
  induction 1 as [|[f|t p|r t] events He _ IH]; intros s s' H Hwf; simpl in H; [done| |eauto|naive_solver].
  destruct (He s Hwf) as [Hwf' <-]. by apply IH.
Qed.

Lemma heartbeat_loop_keeps p now events : Forall admissible events -> forall lease s e lease' s',
  heartbeat_loop p now events lease s = Some (e, lease', s') -> queue_wf (w_db s.2) ->
  queue_wf (w_db s'.2) /\ cx_job_id s'.1 = cx_job_id s.1.
Proof.
  induction 1 as [|[f|t probed|r t] events He Hes IH]; intros lease s e lease' s' H Hwf; simpl in H;
    [done| | |by injection H as _ _ <-].
  - destruct (He s Hwf) as [Hwf' <-]. by eapply IH.
  - destruct (current_queue_time now t) as [at_|]; [|by injection H as _ _ <-].
    destruct s as [cx w]. simpl in H.
    destruct (heartbeat _ _ _ _ _) as [[renewed|err] db] eqn:Hb;
      apply (heartbeat_changes _ _ _ _ _ _ _ Hwf) in Hb; apply (changes_wf _ _ Hwf) in Hb as Hwf'.
    + by apply IH in H.
    + destruct (handler_stops events _) as [s1|] eqn:Hs; [|done]. injection H as _ _ <-.
      by apply (handler_stops_keeps _ Hes) in Hs.
Qed.

Section turns.
Context `{U : UuidLib} `{L : UrlLib} `{SD : SerdeLib} `{J : JsonLib} `{Hash : HashLib} `{W : !SnapshotWire}.

Lemma record_failure_agrees p cx lease now failure terminal ds w turn w' :
  queue_wf (w_db w) -> record_failure p cx lease now failure terminal ds w = (Ok turn, w') ->
  agrees turn (w_db w').
Proof.
  intros Hwf H. unfold record_failure in H. apply run_bind_ok in H as (production & w1 & Hp & H).
  apply run_of_ok in Hp as [_ ->]. destruct production; [|destruct terminal]; run_step H; simpl.
  - by eapply fail_production_ends.
  - by eapply fail_terminal_ends.
  - unfold fail in Hop. apply fail_disposition_ends in Hop as (Hst & r & Hr & Hs & Hf & Hq); [|done].
    destruct Hst as [-> | ->]; run_step H; simpl; [|by exists r].
    exists r. split_and!; [done..|]. by apply Hq.
Qed.

Lemma repair_keeps_jobs cx now commit progress ds w r w' :
  repair_terminal_progress cx now commit progress ds w = (r, w') ->
  jobs (w_db w') = jobs (w_db w) /\ job_attempts (w_db w') = job_attempts (w_db w).
Proof.
  unfold repair_terminal_progress, repository.
  destruct (append_terminal_progress_if_missing _ _ _ _) as [u db] eqn:Ha.
  apply terminal_progress_quiet in Ha. destruct (map_err _ u); [|case_bool_decide]; by intros [= _ <-].
Qed.

Lemma terminal_commit_agrees cx lease now commit ds r w turn w' :
  queue_wf (w_db w) -> reconcile_terminal_commit cx lease now commit ds r w = (Ok turn, w') ->
  agrees turn (w_db w').
Proof.
  intros Hwf H. unfold reconcile_terminal_commit in H. cbv zeta in H.
  apply run_bind_ok in H as (rec & w1 & Hrec & H). apply repository_ok in Hrec as (db & Hop & ->).
  apply run_bind_ok in H as (ds' & w2 & Hrep & H).
  assert (jobs (w_db w2) = jobs db) as Hsame.
  { destruct (terminal_progress_durable commit); [by apply run_ret_ok in Hrep as [_ ->]|].
    by apply repair_keeps_jobs in Hrep as [? _]. }
  apply reconcile_ends in Hop; [|done]. apply (ends_in_same _ _ _ _ Hsame) in Hop.
  destruct (reconciled_state rec); run_step H; simpl; [done..|]. by left.
Qed.

Lemma record_outcome_agrees p cx lease now r w turn w' :
  queue_wf (w_db w) -> record_outcome p cx lease now r w = (Ok turn, w') -> agrees turn (w_db w').
Proof.
  intros Hwf H. unfold record_outcome in H. cbv zeta in H.
  destruct (cx_terminal_crawl_run cx) as [commit|]; [by eapply terminal_commit_agrees|].
  destruct (is_cancelled _ _); [|destruct (is_signalled _ _); [|destruct r]].
  - run_step H. simpl. by apply cancel_ends in Hop.
  - run_step H. simpl. by eapply requeue_ends.
  - run_step H. simpl. by eapply succeed_ends.
  - by eapply record_failure_agrees.
  - by eapply record_failure_agrees.
Qed.

(** C6. A turn reports what is durable.  Whatever its handler and the other threads do, as
    long as they keep the queue well formed, and however often its lease is renewed: when
    the turn answers, the job's row is in the state the answer names.  A retry is
    scheduled only with the failure recorded and attempts left; a cancelled turn defers
    only to a run that had already ended. *)
Theorem turn_reports_durable_state p worker handler now probed w turn w'
    (Hwf : queue_wf (w_db w))
    (Hhandler : forall cx, Forall admissible (handler cx))
    (H : execute_next_at p worker handler now probed w = Some (Ok turn, w')) :
  agrees turn (w_db w').
Proof.
  unfold execute_next_at in H. destruct (shutdown_requested _); [by injection H as <- <-|].
  destruct (refresh probed _) as [state pressure]. cbv zeta in H.
  destruct (repository _ _) as [[[a|]|e] w1] eqn:Ha; [|by injection H as <- <-|done].
  apply repository_ok in Ha as (db & Ha & ->).
  destruct (register _ _) as [token c]. destruct (register_pressure _ _ _) as [heavy pc].
  destruct (job_lease (acquired_job a)) as [lease|]; [|done].
  destruct (execute_acquired _ _ _ _ _) as [[r w2]|] eqn:He; [|done]. simpl in H.
  injection H as -> <-. change (w_db (release_signals _ _ w2)) with (w_db w2).
  unfold execute_acquired in He.
  destruct (heartbeat_loop _ _ _ _ _) as [[[e l] [cx w3]]|] eqn:Hl; [|done]. simpl in He.
  apply heartbeat_loop_keeps in Hl as [Hwf3 _]; [|apply Hhandler|].
  2:{ simpl. apply acquire_changes in Ha; [|done]. by eapply changes_wf. }
  injection He as He. destruct e as [r elapsed|]; [|done].
  destruct (current_queue_time now elapsed); [|done]. by eapply record_outcome_agrees.
Qed.

(** ** A lease taken over *)


Lemma repository_refused {A} (op : Db -> result JobRepositoryError A * Db) e w :
  op (w_db w) = (Err e, w_db w) -> repository op w = (Err (RuntimeRepository e), w).
Proof. unfold repository. intros ->. by destruct w. Qed.

(** What the owner's operations answer once its lease is gone: an error, and nothing changes. *)
Record owner_refused (id : string) (lease : JobLease) (now : Z) (db : Db) : Prop := {
  or_succeed : exists e, succeed id lease now db = (Err e, db);
  or_fail : forall failure at_, exists e, fail id lease now failure at_ db = (Err e, db);
  or_terminal : forall failure, exists e, fail_terminal id lease now failure db = (Err e, db);
  or_production : forall failure, exists e, fail_terminal_production id lease now failure db = (Err e, db);
  or_cancel : exists e, cancel id lease now db = (Err e, db);
  or_requeue : exists e, requeue_after_storage_pressure id lease now db = (Err e, db)
}.

Lemma refused_owner id lease now db :
  queue_wf db -> (forall r, jobs db !! id = Some r -> refused lease now r) -> owner_refused id lease now db.
Proof.
  intros Hwf Hf. split; intros; eexists.
  - by apply transact_owned.
  - by apply transact_owned.
  - unfold fail_terminal, fail_with_disposition. by rewrite transact_owned.
  - by apply transact_owned.
  - by apply transact_owned.
  - unfold requeue_after_storage_pressure, requeue_in_transaction. by rewrite transact_owned.
Qed.

Lemma refused_failure p cx lease now failure terminal ds w :
  owner_refused (cx_job_id cx) lease now (w_db w) ->
  exists e, record_failure p cx lease now failure terminal ds w = (Err e, w).
Proof.
  intros [_ Hf Ht Hp _ _]. unfold record_failure, run_bind, run_of.
  destruct (is_production_context cx (w_db w)) as [[]|e]; [| |by eexists].
  - destruct (Hp failure) as [e He]. rewrite (repository_refused _ _ _ He). by eexists.
  - destruct terminal.
    + destruct (Ht failure) as [e He]. rewrite (repository_refused _ _ _ He). by eexists.
    + destruct (ok_or _ _) as [at_|e]; [|by eexists].
      destruct (Hf failure at_) as [e He]. rewrite (repository_refused _ _ _ He). by eexists.
Qed.

Lemma refused_outcome p cx lease now r w :
  owner_refused (cx_job_id cx) lease now (w_db w) -> cx_terminal_crawl_run cx = None ->
  exists e, record_outcome p cx lease now r w = (Err e, w).
Proof.
  intros Hr Hc. pose proof Hr as [[e1 Hs] _ _ _ [e2 Hcancel] [e3 Hq]].
  unfold record_outcome. rewrite Hc. cbv zeta. unfold run_bind at 1 2 3.
  destruct (is_cancelled _ _); [|destruct (is_signalled _ _); [|destruct r]].
  - rewrite (repository_refused _ _ _ Hcancel). by eexists.
  - rewrite (repository_refused _ _ _ Hq). by eexists.
  - rewrite (repository_refused _ _ _ Hs). by eexists.
  - by apply refused_failure.
  - by apply refused_failure.
Qed.

Lemma fenced_commit_keeps_jobs cx lease now commit ds r w row res w' :
  queue_wf (w_db w) -> jobs (w_db w) !! cx_job_id cx = Some row -> fenced lease row ->
  reconcile_terminal_commit cx lease now commit ds r w = (res, w') ->
  jobs (w_db w') = jobs (w_db w) /\ job_attempts (w_db w') = job_attempts (w_db w).
Proof.
  intros Hwf Hrow Hf. unfold reconcile_terminal_commit, run_bind at 1, repository at 1. cbv zeta.
  destruct (reconcile_terminal_crawl_run _ _ _ _ _) as [[rec|e] db] eqn:Hop; simpl.
  2:{ intros [= _ <-]. unfold reconcile_terminal_crawl_run in Hop. by apply transact_err in Hop as ->. }
  apply reconcile_run_inv in Hop as (_ & row' & Hrow' & [[_ ->]|(_ & Hl & _)]); [| |done].
  2:{ rewrite Hrow in Hrow'. injection Hrow' as <-. apply fenced_not_held in Hf; [done|].
      by eapply qw_rows. }
  unfold run_bind.
  set (w1 := w <| w_db := w_db w |>).
  destruct (if terminal_progress_durable commit then _ else _) as [r' w2] eqn:Hrep.
  assert (jobs (w_db w2) = jobs (w_db w) /\ job_attempts (w_db w2) = job_attempts (w_db w)) as Hsame.
  { destruct (terminal_progress_durable commit); [by injection Hrep as _ <-|].
    by apply repair_keeps_jobs in Hrep. }
  destruct r' as [ds'|e]; [|by intros [= _ <-]].
  unfold run_ret, run_of. destruct (reconciled_state rec); by intros [= _ <-].
Qed.

(** C22. A turn whose lease was taken over, or whose job ended under it, records nothing:
    whatever its handler returned, the jobs and their attempts stay as they are, and
    unless the handler had already ended the crawl run the whole store does, and the turn
    fails. *)
Theorem taken_over_turn_records_nothing p events cx now w exit lease cx' w1 row res w'
    (Hloop : heartbeat_loop p now events (cx_lease cx) (cx, w) = Some (exit, lease, (cx', w1)))
    (Hwf : queue_wf (w_db w1)) (Hrow : jobs (w_db w1) !! cx_job_id cx' = Some row)
    (Hfenced : fenced lease row)
    (H : execute_acquired p events cx now w = Some (res, w')) :
  jobs (w_db w') = jobs (w_db w1) /\ job_attempts (w_db w') = job_attempts (w_db w1) /\
  (cx_terminal_crawl_run cx' = None -> w_db w' = w_db w1 /\ is_ok res = false).
Proof.
  unfold execute_acquired in H. rewrite Hloop in H. simpl in H. injection H as H.
  destruct exit as [r elapsed|e]; [|injection H as <- <-; by split_and!].
  destruct (current_queue_time now elapsed) as [completed_at|e]; [|injection H as <- <-; by split_and!].
  assert (owner_refused (cx_job_id cx') lease completed_at (w_db w1)) as Href.
  { apply refused_owner; [done|]. intros r' Hr'. left. congruence. }
  destruct (cx_terminal_crawl_run cx') as [commit|] eqn:Hc.
  - unfold record_outcome in H. rewrite Hc in H. destruct (fenced_commit_keeps_jobs _ _ _ _ _ _ _ _ _ _ Hwf Hrow Hfenced H) as [? ?].
    by split_and!.
  - destruct (refused_outcome p cx' lease completed_at r w1 Href Hc) as [e He].
    rewrite He in H. injection H as <- <-. by split_and!.
Qed.
End turns.

(** ** Requests to stop *)




Lemma cancelled_again t u c : is_cancelled t c = true -> is_cancelled t (cancel_token u c) = true.
Proof.
  intros Ht. assert (is_Some (flags c !! u) \/ flags c !! u = None) as [Hu|Hu].
  { destruct (flags c !! u); [by left; eexists|by right]. }
  - apply (flag_kept t c); [|done]. by apply rtc_once, step_cancel.
  - unfold is_cancelled in *. simpl. rewrite list_lookup_insert_ne; [done|]. intros ->. by rewrite Hu in Ht.
Qed.





Section requests.
Context `{U : UuidLib} `{L : UrlLib} `{SD : SerdeLib} `{J : JsonLib} `{Hash : HashLib} `{W : !SnapshotWire}.




End requests.

Section boundaries.
Context `{U : UuidLib} `{L : UrlLib} `{SD : SerdeLib} `{J : JsonLib} `{Hash : HashLib} `{W : !SnapshotWire}.

Lemma cancel_queued_ends id now db s db' :
  queue_wf db -> cancel_queued id now db = (Ok s, db') -> ends_in id s db' /\ s <> Queued.
Proof.
  intros Hwf. unfold cancel_queued. rewrite transact_ok. intros H.
  apply tx_bind_ok in H as (j & d & Hj & H). destruct (select_job_inv _ _ _ _ Hwf Hj) as (r & Hr & -> & ->).
  case_bool_decide as Hq; simpl in Hq.
  - tx_step H. apply one_row_inv, update_jobs_key in Hs as [(_ & x & Hx & _ & _ & _ & ->)|(? & _)]; [|done].
    split; [|done]. eapply ends_in_same; [by apply cancel_related_quiet in Hs0|].
    eexists. simpl. by rewrite lookup_insert_eq.
  - apply tx_ret_ok in H as [-> ->]. split; [by exists r|done].
Qed.

(** A request to stop settles.  A queued job is cancelled at once and a job that has
    ended stays as it is, and neither keeps the request; a job that runs keeps it for its
    next turn, and the handler of its current turn has been signalled before the request
    returns. *)
Theorem cancellation_request_settles id now w state w'
    (Hwf : queue_wf (w_db w)) (Hknown : tokens_known (w_cancellation w))
    (H : request_job_cancellation id now w = (Ok state, w')) :
  ends_in id state (w_db w') /\ state <> Queued /\
  if decide (state = Running)
  then id ∈ requested (w_cancellation w') /\
       forall t, active (w_cancellation w) !! id = Some t -> is_cancelled t (w_cancellation w') = true
  else id ∉ requested (w_cancellation w').
Proof.
  unfold request_job_cancellation in H. cbv zeta in H.
  destruct (repository _ _) as [[s|e] w1] eqn:Hop; [|done].
  apply repository_ok in Hop as (db & Hop & ->). apply cancel_queued_ends in Hop as [Hend Hq]; [|done].
  injection H as -> <-.
  assert (id ∈ requested (request id (w_cancellation w)) /\
    forall t, active (w_cancellation w) !! id = Some t -> is_cancelled t (request id (w_cancellation w)) = true)
    as [Hin Hflag].
  { unfold request, request_locked. destruct (active (w_cancellation w) !! id) as [t|] eqn:Ht; simpl; rewrite Ht; simpl.
    - split; [set_solver|]. intros t' [= <-]. unfold is_cancelled. simpl.
      rewrite list_lookup_insert_eq; [done|]. by apply (proj1 Hknown id).
    - by split; [set_solver|]. }
  split; [by destruct state|]. split; [done|]. destruct state; [done|done|..]; simpl; set_solver.
Qed.

Lemma root_action_kinds : Forall (fun k => is_root_action_kind k = true)
  ["RETRY"; "RETRY_FAILED_PARTS"; "RESUME_CHECKPOINT"; "RERUN_FULL_CRAWL"; "RESTART_FROM_BEGINNING"]%string.
Proof. repeat constructor. Qed.

(** The dispatcher and the failure policy agree.  Whatever handler the root dispatcher
    picks for a job, the worker treats the job as a production crawl, whose failures are
    never retried, exactly when that handler is the production one. *)
Theorem dispatch_agrees_with_policy kind id db h cx
    (Hkind : cx_kind cx = kind) (Hid : cx_job_id cx = id) (H : root_handler kind id db = Ok h) :
  is_production_context cx db = Ok (match h with ProductionHandler => true | QuickScrapeHandler => false end).
Proof.
  subst kind id. unfold root_handler in H. unfold is_production_context.
  destruct (String.eqb_spec (cx_kind cx) "QUICK_SCRAPE") as [Hk|_].
  { rewrite Hk. simpl. by injection H as <-. }
  destruct (String.eqb (cx_kind cx) "PRODUCTION_CRAWL"); [by injection H as <-|].
  destruct (is_root_action_kind (cx_kind cx)); [|done]. cbn [negb].
  destruct (job (cx_job_id cx) db) as [j|]; [|done]. cbn [map_err] in *.
  destruct (job_crawl_run_id j) as [stored|]; [|done].
  destruct (run_id_of (Some stored)) as [run|]; [|done]. cbn [ok_or] in *.
  destruct (snapshot_of run db) as [s|]; [|done]. cbn [map_err] in *.
  destruct (draft_run_type (snapshot_draft s)); try discriminate H; injection H as <-; reflexivity.
Qed.

(** The lease outlives its renewals: under a valid policy two heartbeats fit into one
    lease, so that one of them may be missed before the lease expires. *)
Theorem heartbeats_precede_expiry p (Hp : policy_valid p = true) :
  1 <= heartbeat_interval p /\ 2 * heartbeat_interval p <= lease_duration_seconds p.
Proof.
  unfold policy_valid in Hp. boolify. unfold heartbeat_interval.
  assert (3 * Z.quot (lease_duration_seconds p) 3 <= lease_duration_seconds p).
  { apply Z.mul_quot_le; lia. }
  lia.
Qed.

Lemma elem_of_live now db id :
  id ∈ map fst (select_where (fun _ r => bool_decide (row_state r = Running)
    && match row_lease_expires_at r with Some e => now <? e | None => false end) (jobs db)) <->
  exists r e, jobs db !! id = Some r /\ row_state r = Running /\ row_lease_expires_at r = Some e /\ now < e.
Proof.
  rewrite elem_of_map. split.
  - intros ([k r] & -> & Hin). apply elem_of_select_where in Hin as [Hk Hp]. boolify.
    destruct (row_lease_expires_at r) as [e|] eqn:He; [|done]. boolify. by exists r, e.
  - intros (r & e & Hr & Hs & He & Hlt). exists (id, r). split; [done|].
    apply elem_of_select_where. split; [done|]. rewrite (bool_decide_eq_true_2 _ Hs), He. simpl. lia.
Qed.

(** A start leaves no orphan.  After the hooks of a start, the jobs counted as running
    are exactly the jobs that run, each under a lease that has not expired: the leases a
    crashed process left behind have been given up. *)
Theorem startup_rebuild_is_exact now db recovery ids db'
    (Hreach : reachable db) (H : recover_and_rebuild_at now db = (Ok (recovery, ids), db')) id :
  id ∈ ids <-> ends_in id Running db'.
Proof.
  unfold recover_and_rebuild_at in H.
  destruct (recover_stale_jobs now db) as [[rec|e] d] eqn:Hrec; [|done].
  pose proof (reachable_wf _ Hreach) as Hwf.
  pose proof (changes_wf _ _ Hwf (recover_changes now _ _ _ Hwf Hrec)) as Hwf'.
  apply recover_stale_releases in Hrec as [_ Hlive]; [|done].
  unfold rebuild_concurrency_state in H. destruct (check_invariants d) as [[]|]; [|done]. simpl in H.
  injection H as <- <- <-. rewrite elem_of_live. split.
  - intros (r & e & Hr & Hs & _). by exists r.
  - intros (r & Hr & Hs). pose proof (ro_lease _ (qw_rows _ Hwf' _ _ Hr)) as Hl.
    rewrite decide_True in Hl by done. destruct Hl as (_ & l & _ & _ & _ & _ & He & _).
    exists r, (lease_expires_at l). split_and!; [done..|]. apply Z.nle_gt. intros Hle.
    apply (Hlive _ _ Hr). split; [done|]. by exists (lease_expires_at l).
Qed.

Lemma contradicts_none expected seen events :
  (forall e, e ∈ events -> event_terminal e = None) -> contradicts expected seen events = false.
Proof.
  revert seen. induction events as [|e events IH]; intros seen Hn; simpl; [done|].
  rewrite (Hn e) by set_solver. apply IH. set_solver.
Qed.
End boundaries.

(** ** A cancelled turn whose run has ended *)

Section hidden.
Context `{U : UuidLib} `{L : UrlLib} `{SD : SerdeLib} `{J : JsonLib} `{Hash : HashLib} `{W : !SnapshotWire}.

(** A cancelled turn can report another outcome than the durable one.  When the run of
    the job has already ended, [cancel] closes the job with the run's outcome and answers
    [Ok]; the turn still reports [Cancelled]. *)
Theorem cancelled_turn_hides_ended_run p cx lease now r w s u db'
    (Hwf : queue_wf (w_db w)) (Hcommit : cx_terminal_crawl_run cx = None)
    (Hflag : is_cancelled (cx_cancellation cx) (w_cancellation w) = true)
    (Hended : run_outcome (cx_job_id cx) s (w_db w))
    (Hcancel : cancel (cx_job_id cx) lease now (w_db w) = (Ok u, db')) :
  exists persisted ds w', record_outcome p cx lease now r w = (Ok (TurnCancelled (cx_job_id cx) persisted ds), w') /\
    ends_in (cx_job_id cx) s (w_db w') /\ s <> Cancelled.
Proof.
  unfold record_outcome. rewrite Hcommit, Hflag. cbv zeta. unfold run_bind, repository. rewrite Hcancel.
  eexists _, _, _. split; [reflexivity|]. simpl.
  destruct Hended as (row & run & status & Hrow & Hrun & Hst & Hs).
  unfold cancel in Hcancel. rewrite transact_ok in Hcancel.
  apply tx_bind_ok in Hcancel as (j & d & Hj & H).
  destruct (select_owned_inv _ _ _ _ _ _ Hwf Hj) as (-> & r' & Hr' & -> & _).
  rewrite Hrow in Hr'. injection Hr' as <-. apply tx_bind_ok in H as (d0 & d1 & [-> ->]%tx_get_ok & H).
  simpl in H. rewrite Hrun in H. simpl in H. rewrite Hst in H.
  destruct Hs as [[-> [-> | ->]]|[-> ->]]; simpl in H; (split; [by eapply close_ends|done]).
Qed.
End hidden.

(** ** Telemetry of a contradiction *)

Section contradiction.
Context `{U : UuidLib} `{SD : SerdeLib}.

(** The check of [terminal_progress_contradiction] sees the first 256 events only: a
    well-formed stream closes with its terminal event, so that in a longer stream no
    contradiction is ever found. *)
Theorem long_stream_hides_contradiction id expected db :
  is_Some (jobs db !! id) -> stream_ok id db -> (256 < length (stream_rows id db))%nat ->
  terminal_progress_contradiction id expected db = false.
Proof.
  intros Hjob Hok Hlen. destruct (stream_decodes _ _ Hok) as (events & Hdec & _ & _).
  unfold terminal_progress_contradiction. 
  change (replay_request_new None 256) with (Ok (E := ProgressRepositoryError)
    {| replay_after := None; replay_limit := 256 |}). cbv iota beta.
  rewrite (replay_page id db events None 0 256 Hjob Hok Hdec) by (done || unfold MAX_REPLAY_LIMIT; lia).
  cbn [page_events]. rewrite drop_0. apply contradicts_none. intros e He.
  apply list_elem_of_lookup in He as [i Hi]. apply lookup_take_Some in Hi as [Hi Hlt].
  unfold decode_rows in Hdec. apply collect_ok in Hdec.
  destruct (Forall2_lookup_r _ _ _ _ _ Hdec Hi) as ([k row] & Hrow & Hev).
  destruct (so_rows _ _ Hok _ _ _ Hrow) as (e' & He' & Hlast). simpl in Hev. rewrite He' in Hev.
  injection Hev as ->. destruct (event_terminal e) as [t|]; [|done].
  assert (S i = length (stream_rows id db)) by (apply Hlast; by eexists). lia.
Qed.
End contradiction.

(** * Witnesses *)

Section witnesses.
#[local] Existing Instances plain_uuid plain_url plain_serde plain_json plain_hash.

#[local] Instance no_wire : SnapshotWire (U := plain_uuid) (L := plain_url) := {| snapshot_wire _ := None |}.

Definition turn_world (db : Db) (c : CancellationController) : World :=
  {| w_db := db; w_cancellation := c; w_pressure := pressure_new default_pressure_policy |}.

(** A handler that runs over two heartbeats and returns. *)
Definition turn_events (r : HandlerResult) : list TurnEvent :=
  [Tick 3 (Some (2 ^ 40)); Tick 12 (Some (2 ^ 40)); Finished r 14].

Definition turn_of (r : HandlerResult) (w : World) : option (result JobRuntimeError WorkerTurn * World) :=
  execute_next_at conservative "w" (fun _ => turn_events r) 1 (Some (2 ^ 40)) w.

Definition world_of (o : option (result JobRuntimeError WorkerTurn * World)) : World :=
  default (turn_world (empty_db ∅ ∅) controller_new) (snd <$> o).

Lemma turn_is r w turn : fst <$> turn_of r w = Some (Ok turn) ->
  turn_of r w = Some (Ok turn, world_of (turn_of r w)).
Proof. unfold world_of. destruct (turn_of r w) as [[x w']|]; simpl; congruence. Qed.

Lemma turn_events_admissible r : Forall admissible (turn_events r).
Proof. by repeat constructor. Qed.

Definition queued_world : World := turn_world ex_queued controller_new.

Lemma turn_reports_durable_state_witness :
  ends_in "j" Succeeded (w_db (world_of (turn_of Returned queued_world))) /\
  exists r, jobs (w_db (world_of (turn_of ReturnedError queued_world))) !! "j"%string = Some r /\
    row_state r = Queued.
Proof.
  split.
  - apply (turn_reports_durable_state conservative "w" (fun _ => turn_events Returned) 1 (Some (2 ^ 40))
      queued_world (TurnSucceeded "j" None)).
    + exact (reachable_wf _ ex_queued_reachable).
    + intros cx. exact (turn_events_admissible Returned).
    + apply (turn_is Returned). vm_compute. reflexivity.
  - destruct (turn_reports_durable_state conservative "w" (fun _ => turn_events ReturnedError) 1
      (Some (2 ^ 40)) queued_world (TurnRetryScheduled "j" HandlerFailed None)
      (world_of (turn_of ReturnedError queued_world))) as (r & Hr & Hs & _).
    + exact (reachable_wf _ ex_queued_reachable).
    + intros cx. exact (turn_events_admissible ReturnedError).
    + apply (turn_is ReturnedError). vm_compute. reflexivity.
    + exists r. split; [exact Hr|exact Hs].
Defined.


(** The context of the turn that leased the job in [ex_leased]. *)
Definition leased_context : JobExecutionContext := {|
  cx_job_id := "j"; cx_kind := "QUICK_SCRAPE"; cx_attempt_id := "a"; cx_attempt_number := 1;
  cx_worker_id := "w"; cx_lease := ex_lease; cx_cancellation := 0; cx_storage_pressure := 0;
  cx_initial_now := 1; cx_writer_lease := ex_lease; cx_persisted := false;
  cx_terminal_failure := false; cx_diagnostics := no_diagnostics; cx_terminal_crawl_run := None |}.

(** Another worker's recovery ends the attempt while the handler runs. *)
Definition ex_taken : Db := (recover_stale_jobs (U := plain_uuid) (SD := plain_serde) 11 ex_leased).2.

Definition taken_events : list TurnEvent :=
  [Concurrent (fun s => (s.1, turn_world ex_taken controller_new)); Finished Returned 20].

Definition taken_row : JobRow := default ex_row (jobs ex_taken !! "j"%string).

Lemma taken_over_turn_records_nothing_witness : exists res w',
  execute_acquired conservative taken_events leased_context 1 (turn_world ex_leased controller_new) = Some (res, w') /\
  w_db w' = ex_taken /\ is_ok res = false.
Proof.
  destruct (execute_acquired conservative taken_events leased_context 1 (turn_world ex_leased controller_new))
    as [[res w']|] eqn:He; [|vm_compute in He; discriminate He].
  exists res, w'. split; [reflexivity|].
  destruct (taken_over_turn_records_nothing conservative taken_events leased_context 1
    (turn_world ex_leased controller_new) (LoopResult Returned 20) ex_lease leased_context
    (turn_world ex_taken controller_new) taken_row res w') as (_ & _ & H).
  - reflexivity.
  - apply (steps_wf (U := plain_uuid) (L := plain_url) (SD := plain_serde) ex_leased).
    + exact (reachable_wf _ ex_leased_reachable).
    + apply rtc_once. exists (OpRecover 11). split; [exact I|reflexivity].
  - vm_compute. reflexivity.
  - right. split; [vm_compute; reflexivity|]. left. vm_compute. discriminate.
  - exact He.
  - exact (H eq_refl).
Defined.

(** The job runs and its handler's token is registered. *)
Definition running_world : World := turn_world ex_leased (register "j" controller_new).2.

Definition asked : result JobRuntimeError JobState * World := request_job_cancellation "j" 5 running_world.

Lemma cancellation_request_settles_witness : is_cancelled 0 (w_cancellation asked.2) = true.
Proof.
  destruct (cancellation_request_settles "j" 5 running_world Running asked.2) as (_ & _ & _ & H).
  - exact (reachable_wf _ ex_leased_reachable).
  - split.
    + intros j t. vm_compute. intros Hj. revert Hj.
      destruct (decide (j = "j"%string)) as [->|Hne].
      * vm_compute. intros [= <-]. repeat constructor.
      * intros Hj. exfalso. apply Hne.
        assert (({["j"%string := 0%nat]} : gmap string nat) !! j = Some t) as Hl by exact Hj.
        apply lookup_singleton_Some in Hl as [Hl _]. symmetry. exact Hl.
    + intros t Ht. exfalso. revert Ht. apply not_elem_of_empty.
  - vm_compute. reflexivity.
  - apply (H 0%nat). vm_compute. reflexivity.
Defined.

Lemma startup_rebuild_is_exact_witness : exists (ids : list string) db',
  ("j"%string ∉ ids) /\ ends_in "j" Queued db' /\ ends_in "j" Running ex_leased.
Proof.
  destruct (recover_and_rebuild_at 11 ex_leased) as [[[recovery ids]|e] db'] eqn:H;
    [|vm_compute in H; discriminate H].
  exists ids, db'.
  pose proof (startup_rebuild_is_exact 11 ex_leased recovery ids db' ex_leased_reachable H "j") as [Hin _].
  assert (Hq : ends_in "j" Queued (recover_and_rebuild_at 11 ex_leased).2).
  { exists (default ex_row (jobs (recover_and_rebuild_at 11 ex_leased).2 !! "j"%string)).
    split; vm_compute; reflexivity. }
  rewrite H in Hq. split; [|split; [exact Hq|]].
  - intros Hj. destruct (Hin Hj) as (r & Hr & Hs). destruct Hq as (r' & Hr' & Hs'). simpl in Hr'.
    rewrite Hr in Hr'. apply (f_equal (default r)) in Hr'. simpl in Hr'. subst r'.
    rewrite Hs in Hs'. discriminate Hs'.
  - exists ex_row. split; [exact ex_leased_row|reflexivity].
Defined.

(** A production run that succeeds while its job still runs. *)
Definition ended_ops : list (queue_op (U := plain_uuid) (L := plain_url)) := take 2 ex_retry_ops ++
  [OpRunExecution ex_run RunRunning; OpRunExecution ex_run RunSucceeded].
Definition ended_db : Db := run_ops (U := plain_uuid) (L := plain_url) (SD := plain_serde)
  {[id_to_string (new_id (U := plain_uuid) (k := CrawlerKind) 0)]}
  {[id_to_string (new_id (U := plain_uuid) (k := CrawlerVersionKind) 1)]} ended_ops.

Definition ended_context : JobExecutionContext := {|
  cx_job_id := "root"; cx_kind := "PRODUCTION_CRAWL"; cx_attempt_id := "a"; cx_attempt_number := 1;
  cx_worker_id := "w"; cx_lease := lease_of 1 1; cx_cancellation := 0; cx_storage_pressure := 0;
  cx_initial_now := 1; cx_writer_lease := lease_of 1 1; cx_persisted := false;
  cx_terminal_failure := false; cx_diagnostics := no_diagnostics; cx_terminal_crawl_run := None |}.

Definition ended_world : World :=
  turn_world ended_db (cancel_token 0 (register "root" controller_new).2).

Lemma cancelled_turn_hides_ended_run_witness : exists persisted ds w',
  record_outcome conservative ended_context (lease_of 1 1) 5 Returned ended_world
    = (Ok (TurnCancelled "root" persisted ds), w') /\ ends_in "root" Succeeded (w_db w').
Proof.
  destruct (cancel "root" (lease_of 1 1) 5 ended_db) as [[u|e] db'] eqn:Hc;
    [|vm_compute in Hc; discriminate Hc].
  destruct (cancelled_turn_hides_ended_run conservative ended_context (lease_of 1 1) 5 Returned ended_world
    Succeeded u db') as (persisted & ds & w' & Hr & He & _).
  - apply (reachable_wf (U := plain_uuid) (L := plain_url) (SD := plain_serde)), run_ops_reachable.
    repeat (apply Forall_cons; split; [first [exact ex_root_ok|exact I]|]). constructor.
  - reflexivity.
  - vm_compute. reflexivity.
  - exists (default ex_row (jobs ended_db !! "root"%string)), (id_to_string ex_run), RunSucceeded.
    split; [vm_compute; reflexivity|]. split; [vm_compute; reflexivity|]. split; [vm_compute; reflexivity|].
    left. split; [reflexivity|]. left. reflexivity.
  - exact Hc.
  - exists persisted, ds, w'. split; [exact Hr|exact He].
Defined.
End witnesses.
