(* ===== verification/JobActions.v ===== *)
(** * Job actions

    [crates/erabi-jobs/src/actions.rs]: the explicit actions on a job (retry, retry of the
    failed parts, resumption, restart, rerun, cancellation, reprioritisation, removal).  An
    action decides from what it reads and then performs one transaction of the repository;
    the decision is a [ChildPlan], so that what happens between the two can be stated.

    The walk of [latest_checkpoint_for_lineage] takes fuel; with as many steps as there are
    jobs it ends ([JobEvidence.v]).  Telemetry is left out. *)

From stdpp Require Import pretty.
From S2P Require Import Prelude Externals JsonFacts Base Instances Settings Snapshot Guardrails.
From S2P Require Import TraversalTables Store TraversalStore Progress Checkpoint Runs Traversal.
From S2P Require Import CrawlExecution JobQueue StructuralFacts.
From S2P Require Import CrawlRecovery WorkerSignals JobRuntime.

Inductive JobAction :=
| RetryFailedParts | RerunFullCrawl | ResumeCheckpoint | RestartFromBeginning | Retry
| Cancel | Reprioritize | Remove.

Record JobActionResult := {
  result_action : JobAction;
  result_job_id : string;
  result_parent_job_id : option string;
  result_crawl_run_id : option string;
  result_state : JobState;
  failed_part_count : option nat
}.

Definition eta_action_result (r : JobActionResult) : JobActionResult :=
  {| result_action := result_action r; result_job_id := result_job_id r;
     result_parent_job_id := result_parent_job_id r; result_crawl_run_id := result_crawl_run_id r;
     result_state := result_state r; failed_part_count := failed_part_count r |}.
#[export] Instance set_result_state : Setter result_state.
Proof. setter_of eta_action_result result_state. Defined.

(** ** Errors *)

Inductive JobActionError :=
| ActionNotFound | IllegalLifecycleState | ActionAttemptsExhausted | ActionRetryAlreadyContinued
| CrawlRunRequired | RobotsOverrideReasonRequired | RobotsOverrideReasonInvalid
| CheckpointMissing | CheckpointFormatUnsupported | CheckpointMalformed | CheckpointIdentityMismatch
| RecoveryStateInvalid | NotRemovable | ActionNotReprioritizable | ConcurrentTransition
| ActionRepository (e : JobRepositoryError)
| Cancellation (e : JobRuntimeError).

Definition action_repository_error (e : JobRepositoryError) : JobActionError :=
  match e with
  | NotFound => ActionNotFound
  | AttemptsExhausted => ActionAttemptsExhausted
  | RetryAlreadyContinued => ActionRetryAlreadyContinued
  | RemovalUnsafe => NotRemovable
  | NotReprioritizable => ActionNotReprioritizable
  | ActionAlreadyActive | LeaseLost => ConcurrentTransition
  | IllegalTransition => IllegalLifecycleState
  | other => ActionRepository other
  end.

Definition run_repository_error (e : CrawlRunRepositoryError) : JobActionError :=
  match e with
  | RunNotFound => ActionNotFound
  | RunDatabase e => ActionRepository (Database e)
  end.

Definition checkpoint_error (e : JobRepositoryError) : JobActionError :=
  match e with
  | CheckpointFailure UnsupportedFormatVersion => CheckpointFormatUnsupported
  | CheckpointFailure (Malformed | InvalidEnvelope | PayloadTooLarge | CkptSerialization) =>
    CheckpointMalformed
  | CheckpointFailure CkptNotFound => ActionNotFound
  | other => action_repository_error other
  end.

Definition action_recovery_error (e : CrawlRecoveryValidationError) : JobActionError :=
  match e with
  | RecoveryMissing => CheckpointMissing
  | FormatUnsupported => CheckpointFormatUnsupported
  | RecoveryMalformed => CheckpointMalformed
  | IdentityMismatch => CheckpointIdentityMismatch
  | StateInvalid => RecoveryStateInvalid
  end.

Definition execution_repository_error (e : CrawlExecutionRepositoryError) : JobActionError :=
  match e with
  | ExCrawlRunNotFound | ExNotFound | SummaryNotFound => ActionNotFound
  | ExDatabase e => ActionRepository (Database e)
  | _ => RecoveryStateInvalid
  end.

Definition traversal_repository_error (e : CrawlTraversalRepositoryError) : JobActionError :=
  match e with
  | TrCrawlRunNotFound | TrInvalidState | TrCorruptState => RecoveryStateInvalid
  | TrDatabase e => ActionRepository (Database e)
  | TrCheckpoint e =>
    match map_checkpoint_repository_error e with
    | Some mapped => action_recovery_error mapped
    | None => action_repository_error (CheckpointFailure e)
    end
  | TrDiscovery e => run_repository_error e
  end.

Definition action_kind (a : JobAction) : result JobActionError string :=
  map_err ActionRepository (job_kind_new
    match a with
    | RetryFailedParts => "RETRY_FAILED_PARTS"
    | RerunFullCrawl => "RERUN_FULL_CRAWL"
    | ResumeCheckpoint => "RESUME_CHECKPOINT"
    | RestartFromBeginning => "RESTART_FROM_BEGINNING"
    | Retry => "RETRY"
    | Cancel => "CANCEL"
    | Reprioritize => "REPRIORITIZE"
    | Remove => "REMOVE"
    end).

Definition action_result (a : JobAction) (j : JobRecord) (parts : option nat) : JobActionResult :=
  {| result_action := a; result_job_id := job_id j; result_parent_job_id := job_parent_job_id j;
     result_crawl_run_id := job_crawl_run_id j; result_state := job_state j; failed_part_count := parts |}.

Section actions.
Context `{U : UuidLib} `{L : UrlLib} `{SD : SerdeLib} `{J : JsonLib} `{Hash : HashLib} `{Hosts : HostLib}.
Context `{W : !SnapshotWire} `{V : !VersionWire}.

(** ** What an action reads *)

(** A job that has ended. *)
Definition terminal_source (id : string) (db : Db) : result JobActionError JobRecord :=
  let? j := map_err action_repository_error (job id db) in
  let? _ := reject_if (is_active (job_state j)) IllegalLifecycleState in
  Ok j.

(** A job that failed or was cancelled. *)
Definition recoverable_source (id : string) (db : Db) : result JobActionError JobRecord :=
  let? j := terminal_source id db in
  let? _ := reject_if (negb (bool_decide (job_state j ∈ [Failed; Cancelled]))) IllegalLifecycleState in
  Ok j.

Definition snapshot_for (source : JobRecord) (db : Db) : result JobActionError (option CrawlRunSnapshot) :=
  match job_crawl_run_id source with
  | Some run => let? s := map_err run_repository_error (snapshot_by_stored_id run db) in Ok (Some s)
  | None => Ok None
  end.

Definition has_run_type (t : CrawlRunType) (s : option CrawlRunSnapshot) : bool :=
  match s with Some s => bool_decide (snapshot_run_type s = t) | None => false end.

Definition is_production (source : JobRecord) (db : Db) : result JobActionError bool :=
  let? s := snapshot_for source db in Ok (has_run_type ProductionRun s).

Definition same_run_association (source : JobRecord) : ActionRunAssociation :=
  match job_crawl_run_id source with Some _ => SameSourceRun | None => NoRun end.

Definition is_failed_part (w : CrawlUrlStateRecord) : bool :=
  bool_decide (us_admission_state (st_columns w) = AdmittedWork)
  && bool_decide (us_current_work_state (st_columns w) ∈ [Some WorkFailed; Some WorkPartial]).

(** [latest] is the answer of [latest_checkpoint_for_lineage] for the source. *)
Definition compatible_checkpoint (latest : result JobRepositoryError (option CheckpointRecord))
    (source : JobRecord) (db : Db) : result JobActionError (CrawlRunSnapshot * nat) :=
  let? run := ok_or CheckpointMissing (job_crawl_run_id source) in
  let? s := map_err run_repository_error (snapshot_by_stored_id run db) in
  let? found := map_err checkpoint_error latest in
  let? record := ok_or CheckpointMissing found in
  let? parsed := ok_or CheckpointIdentityMismatch (run_id_of (Some run)) in
  let? status := map_err run_repository_error (run_status_of parsed db) in
  let? executions := map_err execution_repository_error (list_for_run parsed db) in
  let? discovered := map_err run_repository_error (discovered_urls_of parsed db) in
  let? durable := map_err traversal_repository_error
    (reconstruct_recovery_state (id_to_string parsed) db) in
  let? _ := map_err action_recovery_error
    (validate_crawl_recovery (Some record) s parsed status executions discovered (Some durable)) in
  Ok (s, length (filter (fun w => is_failed_part w) (rec_work durable))).

(** ** The decisions *)

Record ChildPlan := {
  plan_association : ActionRunAssociation;
  plan_attempts : option Z;
  plan_parts : option nat
}.

Definition retry_plan (latest : result JobRepositoryError (option CheckpointRecord)) (id : string) (db : Db)
    : result JobActionError ChildPlan :=
  let? source := recoverable_source id db in
  let? _ := reject_if (job_current_attempt source =? 0) IllegalLifecycleState in
  let? _ := match job_crawl_run_id source with
    | Some _ => let? _ := compatible_checkpoint latest source db in Ok tt
    | None => Ok tt
    end in
  let? production := is_production source db in
  if production then
    Ok {| plan_association := same_run_association source;
          plan_attempts := Some (Z.max (job_max_attempts source) 1); plan_parts := None |}
  else
    let? _ := reject_if (job_max_attempts source <=? job_current_attempt source) ActionAttemptsExhausted in
    let? _ := snapshot_for source db in
    Ok {| plan_association := same_run_association source;
          plan_attempts := Some (job_max_attempts source - job_current_attempt source);
          plan_parts := None |}.

Definition retry_failed_parts_plan (latest : result JobRepositoryError (option CheckpointRecord))
    (id : string) (db : Db) : result JobActionError ChildPlan :=
  let? source := recoverable_source id db in
  let? production := is_production source db in
  let? _ := reject_if ((job_max_attempts source <=? job_current_attempt source) && negb production)
    ActionAttemptsExhausted in
  let? checked := compatible_checkpoint latest source db in
  let? _ := reject_if (Nat.eqb checked.2 0) IllegalLifecycleState in
  Ok {| plan_association := SameSourceRun;
        plan_attempts := Some (if production then Z.max (job_max_attempts source) 1
          else job_max_attempts source - job_current_attempt source);
        plan_parts := Some checked.2 |}.

Definition resume_plan (latest : result JobRepositoryError (option CheckpointRecord)) (id : string) (db : Db)
    : result JobActionError ChildPlan :=
  let? source := recoverable_source id db in
  let? production := is_production source db in
  let? _ := compatible_checkpoint latest source db in
  Ok {| plan_association := SameSourceRun;
        plan_attempts := if production then Some (Z.max (job_max_attempts source) 1) else None;
        plan_parts := None |}.

Definition restart_plan (id : string) (db : Db) : result JobActionError ChildPlan :=
  let? source := terminal_source id db in
  let? s := snapshot_for source db in
  let? _ := reject_if (has_run_type ProductionRun s) IllegalLifecycleState in
  let quick_scrape_root := String.eqb (job_kind source) "QUICK_SCRAPE" && has_run_type QuickScrape s in
  let? _ := reject_if (negb quick_scrape_root
    && negb (bool_decide (job_state source ∈ [Failed; Cancelled]))) IllegalLifecycleState in
  Ok {| plan_association := same_run_association source; plan_attempts := None; plan_parts := None |}.

(** The snapshot of a rerun: the source's configuration, decided and created now, with a
    reason of its own where the source overrides the robots policy. *)
Definition independent_rerun_snapshot (source : CrawlRunSnapshot) (reason : option string) (now : Z)
    : result JobActionError CrawlRunSnapshot :=
  let occurred_at := pretty now in
  let d := snapshot_draft source in
  let r := draft_robots d in
  let? robots := match robots_decision r with
    | Respect => Ok (respect (robots_actor r) occurred_at (affected_scope r) (robots_user_agent r)
        (robots_crawler_version_id r))
    | Override _ =>
      let? reason := ok_or RobotsOverrideReasonRequired reason in
      map_err (fun _ => RobotsOverrideReasonInvalid)
        (override_with_reason reason (robots_actor r) occurred_at (affected_scope r)
          (robots_user_agent r) (robots_crawler_version_id r))
    end in
  map_err (fun _ => RobotsOverrideReasonInvalid) (snapshot_new
    {| draft_run_type := draft_run_type d; draft_configuration := draft_configuration d;
       draft_selected_seed_ids := draft_selected_seed_ids d;
       draft_run_profile_id := draft_run_profile_id d; draft_settings := draft_settings d;
       draft_robots := robots; draft_actor := draft_actor d; draft_created_at := occurred_at |}).

Definition rerun_plan (id : string) (now : Z) (reason : option string) (db : Db)
    : result JobActionError ChildPlan :=
  let? source := terminal_source id db in
  let? found := snapshot_for source db in
  let? s := ok_or CrawlRunRequired found in
  let? rerun := independent_rerun_snapshot s reason now in
  Ok {| plan_association := NewIndependentRun rerun; plan_attempts := None; plan_parts := None |}.

(** ** The actions *)

(** The transaction that a plan asks for. *)
Definition enqueue_child (a : JobAction) (p : ChildPlan) (id : string) (now : Z) (db : Db)
    : result JobActionError JobActionResult * Db :=
  match action_kind a with
  | Err e => (Err e, db)
  | Ok kind =>
    match enqueue_action_child id kind now (plan_association p) (plan_attempts p) db with
    | (Ok j, db') => (Ok (action_result a j (plan_parts p)), db')
    | (Err e, db') => (Err (action_repository_error e), db')
    end
  end.

Definition act (a : JobAction) (plan : result JobActionError ChildPlan) (id : string) (now : Z) (db : Db)
    : result JobActionError JobActionResult * Db :=
  match plan with
  | Err e => (Err e, db)
  | Ok p => enqueue_child a p id now db
  end.

Definition retry (fuel : nat) (id : string) (now : Z) (db : Db)
    : option (result JobActionError JobActionResult * Db) :=
  latest ← latest_checkpoint_for_lineage fuel id db;
  Some (act Retry (retry_plan latest id db) id now db).

Definition retry_failed_parts (fuel : nat) (id : string) (now : Z) (db : Db)
    : option (result JobActionError JobActionResult * Db) :=
  latest ← latest_checkpoint_for_lineage fuel id db;
  Some (act RetryFailedParts (retry_failed_parts_plan latest id db) id now db).

Definition resume (fuel : nat) (id : string) (now : Z) (db : Db)
    : option (result JobActionError JobActionResult * Db) :=
  latest ← latest_checkpoint_for_lineage fuel id db;
  Some (act ResumeCheckpoint (resume_plan latest id db) id now db).

Definition restart_from_beginning (id : string) (now : Z) (db : Db)
    : result JobActionError JobActionResult * Db :=
  act RestartFromBeginning (restart_plan id db) id now db.

Definition rerun_full_crawl (id : string) (now : Z) (reason : option string) (db : Db)
    : result JobActionError JobActionResult * Db :=
  act RerunFullCrawl (rerun_plan id now reason db) id now db.

Definition cancel_action (id : string) (now : Z) (w : World) : result JobActionError JobActionResult * World :=
  match request_job_cancellation id now w with
  | (Err e, w) => (Err (Cancellation e), w)
  | (Ok state, w) =>
    (let? j := map_err action_repository_error (job id (w_db w)) in
     Ok ((action_result Cancel j None) <| result_state := state |>), w)
  end.

Definition reprioritize_action (id : string) (priority : Z) (scheduled_at : option Z) (now : Z) (db : Db)
    : result JobActionError JobActionResult * Db :=
  match job id db with
  | Err e => (Err (action_repository_error e), db)
  | Ok existing =>
    match reprioritize id priority (default (job_scheduled_at existing) scheduled_at) now db with
    | (Ok j, db') => (Ok (action_result Reprioritize j None), db')
    | (Err e, db') => (Err (action_repository_error e), db')
    end
  end.

Definition remove_action (id : string) (db : Db) : result JobActionError JobActionResult * Db :=
  match remove_if_safe id db with
  | (Ok _, db') =>
    (Ok {| result_action := Remove; result_job_id := id; result_parent_job_id := None;
           result_crawl_run_id := None; result_state := Cancelled; failed_part_count := None |}, db')
  | (Err e, db') => (Err (action_repository_error e), db')
  end.
End actions.
