(* ===== verification/ActionTheorems.v ===== *)
(** * Job actions: what an action may start

    Proofs about [JobActions.v]: a continuation starts only from a job that failed or was
    cancelled and, for a crawl, from recovery evidence that was accepted; a rerun is
    independent of its source; an action that is refused changes nothing; and the attempts
    that retries of one job can add up to. *)

From stdpp Require Import pretty.
From S2P Require Import Prelude Externals JsonFacts Base Instances Settings Snapshot Guardrails.
From S2P Require Import TraversalTables Store TraversalStore Progress Checkpoint Runs Traversal.
From S2P Require Import CrawlExecution JobQueue JobInvariants JobTheorems JobEvidence StructuralFacts.
From S2P Require Import TraversalTheorems CompactSerde CrawlRecovery WorkerSignals JobRuntime RuntimeTheorems JobActions.

(** * Lemmas *)

Section lemmas.
Context `{U : UuidLib} `{L : UrlLib} `{SD : SerdeLib} `{J : JsonLib} `{Hash : HashLib} `{Hosts : HostLib}.
Context `{W : !SnapshotWire} `{V : !VersionWire}.

(** The row of a fresh child. *)
Definition child_row (source : JobRow) (id kind : string) (run : option string) (max now : Z) (r : JobRow) : Prop :=
  row_kind r = kind /\ row_state r = Queued /\ row_parent_job_id r = Some id /\ row_crawl_run_id r = run /\
  row_priority r = row_priority source /\ row_scheduled_at r = now /\ row_current_attempt r = 0 /\
  row_max_attempts r = max.

(** The run of a child: none, its source's (queued again), or one of its own. *)
Definition child_run (source : JobRow) (association : ActionRunAssociation) (run : option string)
    (db db' : Db) : Prop :=
  match association with
  | NoRun => run = None /\ crawl_runs db' = crawl_runs db
  | SameSourceRun => run = row_crawl_run_id source /\ exists key row, run = Some key /\
      crawl_runs db !! key = Some row /\
      crawl_runs db' = <[key := set_run_status RunQueued row]> (crawl_runs db)
  | NewIndependentRun s => exists (id : CrawlRunId) row, run = Some (id_to_string id) /\
      crawl_runs db !! id_to_string id = None /\ run_status row = RunQueued /\
      run_type row = draft_run_type (snapshot_draft s) /\ run_snapshot_hash row = snapshot_hash s /\
      crawl_runs db' = <[id_to_string id := row]> (crawl_runs db)
  end.

(** The run of a job queued again, whatever its outcome was. *)
Definition requeue_run (run : option string) (db : Db) : Db :=
  match run with
  | Some key => match crawl_runs db !! key with
    | Some row => with_runs (<[key := set_run_status RunQueued row]> (crawl_runs db)) db
    | None => db
    end
  | None => db
  end.

(** The store with a child that continues on the run of its source. *)
Definition continued_store (run : option string) (id : string) (child : JobRow) (db : Db) : Db :=
  with_jobs (<[id := child]> (jobs db)) (requeue_run run (with_drawn (S (uuids_drawn db)) db)).

Lemma action_child_inv id kind now association max db j db' :
  queue_wf db -> job_kind_new kind = Ok kind -> (forall m, max = Some m -> 0 <= m <= u32_max) ->
  enqueue_action_child id kind now association max db = (Ok j, db') ->
  exists source child run, jobs db !! id = Some source /\ is_active (row_state source) = false /\
    active_equivalent_action_child id kind db = false /\ jobs db !! job_id j = None /\
    child_run source association run db db' /\
    child_row source id kind run (default (row_max_attempts source) max) now child /\
    j = record_of (job_id j) child /\ jobs db' = <[job_id j := child]> (jobs db) /\
    job_attempts db' = job_attempts db /\
    match association with
    | NewIndependentRun _ => True
    | _ => db' = continued_store run (job_id j) child db
    end.
Proof.
  intros Hwf Hkind Hmax H. pose proof (action_child_changes id kind now association max Hkind Hmax _ _ _ Hwf H) as Hc.
  pose proof (changes_wf _ _ Hwf Hc) as Hwf'. unfold enqueue_action_child in H. rewrite transact_ok in H.
  apply tx_bind_ok in H as (s & d & Hs & H). destruct (select_job_inv _ _ _ _ Hwf Hs) as (source & Hr & -> & ->).
  apply tx_bind_ok in H as (d0 & d & [-> ->]%tx_get_ok & H).
  apply tx_bind_ok in H as (u1 & d & [Hv ->]%tx_of_ok & H).
  apply tx_bind_ok in H as (drawn & d & Hd & H). injection Hd as _ <-. cbv zeta in H.
  apply tx_bind_ok in H as (run & d & Hrun & H).
  pose proof (tx_quiet_run_id _ _ _ _ _ Hrun) as [Hj Ha]. simpl in Hj, Ha.
  apply tx_bind_ok in H as (u2 & d' & Hins & H). apply tx_map_err_ok in Hins.
  apply insert_job_inv in Hins as (Hnew & _ & _ & _ & ->).
  assert (db' = with_jobs (<[uuid_to_string drawn := queued_row
    {| nj_id := uuid_to_string drawn; nj_kind := kind; nj_priority := row_priority source;
       nj_parent_job_id := Some id; nj_crawl_run_id := run; nj_scheduled_at := now;
       nj_max_attempts := default (row_max_attempts source) max |} (Some id) run now]> (jobs d)) d) as ->.
  { unfold select_job in H. apply tx_bind_ok in H as (d0 & d1 & [-> ->]%tx_get_ok & H).
    by apply tx_of_ok in H as [_ ->]. }
  destruct (select_job_inv _ _ _ _ Hwf' H) as (child & Hchild & -> & _).
  simpl in Hchild. rewrite lookup_insert_eq in Hchild. injection Hchild as <-.
  unfold validate_action_child_lineage in Hv. apply reject_then_ok in Hv as [Hact Hv].
  apply reject_then_ok in Hv as [Heq _]. simpl in Hact.
  match goal with |- context [record_of _ ?row] => exists source, row, run end.
  split; [done|]. split; [done|]. split; [done|]. cbn [job_id record_of].
  rewrite Hj in Hnew |- *. split; [done|]. split.
  { destruct association as [| |s]; simpl in Hrun |- *.
    - apply tx_ret_ok in Hrun as [-> ->]. by split.
    - apply tx_bind_ok in Hrun as (x & d1 & [Hx ->]%tx_of_ok & Hrun).
      apply tx_bind_ok in Hrun as (u & d1 & Hu & Hrun). apply tx_ret_ok in Hrun as [-> ->].
      simpl in Hx. destruct (row_crawl_run_id source); [|done]. injection Hx as ->. split; [done|].
      apply one_row_inv, update_run_status_inv in Hu as [[_ (row & Hrow & _ & ->)]|(? & _)]; [|done].
      by exists x, row.
    - apply tx_bind_ok in Hrun as (drawn' & d1 & Hd' & Hrun). injection Hd' as <- <-. cbv zeta in Hrun.
      apply tx_bind_ok in Hrun as (u & d1 & Hu & Hrun). apply tx_ret_ok in Hrun as [-> ->].
      apply tx_map_err_ok in Hu. unfold insert_run_in_transaction in Hu. tx_step Hu.
      apply insert_run_inv in Hs0 as [Hfresh ->]. apply insert_audit_inv in Hu as ->.
      eexists _, _. split; [done|]. split; [exact Hfresh|].
      split; [|split; [|split; [|reflexivity]]]; reflexivity. }
  split; [unfold child_row; by split_and!|]. split; [done|]. split; [done|]. split; [done|].
  destruct association as [| |s]; [| |done].
  - apply tx_ret_ok in Hrun as [-> ->]. reflexivity.
  - apply tx_bind_ok in Hrun as (x & d2 & [_ ->]%tx_of_ok & Hrun).
    apply tx_bind_ok in Hrun as (u & d2 & Hu & Hrun). apply tx_ret_ok in Hrun as [-> ->].
    apply one_row_inv, update_run_status_inv in Hu as [[_ (row & Hrow & _ & ->)]|(? & _)]; [|done].
    unfold continued_store, requeue_run. simpl in Hrow |- *. by rewrite Hrow.
Qed.

(** What authorises further work on a crawl: a checkpoint of the job's lineage that is
    accepted for this very run and snapshot, and durable evidence that is coherent. *)
Definition resumable (latest : result JobRepositoryError (option CheckpointRecord)) (run : string)
    (parts : nat) (db : Db) : Prop :=
  exists s (parsed : CrawlRunId) record c status executions discovered durable facts,
    snapshot_by_stored_id run db = Ok s /\ run_id_of (Some run) = Some parsed /\
    latest = Ok (Some record) /\ from_envelope (record_checkpoint record) s parsed = Ok c /\
    reconstruct_recovery_state (id_to_string parsed) db = Ok durable /\
    reconstruct_crawl_structural_facts s status executions discovered (Some (rec_control durable))
      (Some (rec_work durable)) = Ok facts /\
    parts = length (filter (fun w => is_failed_part w) (rec_work durable)).

Lemma map_err_ok {E F A} (f : E -> F) (r : result E A) a : map_err f r = Ok a <-> r = Ok a.
Proof. destruct r; simpl; naive_solver. Qed.

Lemma compatible_checkpoint_ok latest source db s parts :
  compatible_checkpoint latest source db = Ok (s, parts) ->
  exists run, job_crawl_run_id source = Some run /\ resumable latest run parts db.
Proof.
  unfold compatible_checkpoint. intros H.
  destruct (job_crawl_run_id source) as [run|]; [|done]. cbn [ok_or] in H.
  destruct (snapshot_by_stored_id run db) as [s0|] eqn:Hs0; [|done]. cbn [map_err] in H.
  destruct latest as [[record|]|]; [|done..]. cbn [map_err ok_or] in H.
  destruct (run_id_of (Some run)) as [parsed|] eqn:Hp; [|done]. cbn [ok_or] in H.
  destruct (run_status_of parsed db) as [status|]; [|done]. cbn [map_err] in H.
  destruct (list_for_run parsed db) as [executions|]; [|done]. cbn [map_err] in H.
  destruct (discovered_urls_of parsed db) as [discovered|]; [|done]. cbn [map_err] in H.
  destruct (reconstruct_recovery_state (id_to_string parsed) db) as [durable|] eqn:Hd; [|done].
  cbn [map_err] in H. unfold validate_crawl_recovery in H. cbn [ok_or] in H.
  destruct (from_envelope (record_checkpoint record) s0 parsed) as [c|] eqn:Hc; [|done]. cbn [map_err] in H.
  destruct (reconstruct_crawl_structural_facts _ _ _ _ _ _) as [facts|] eqn:Hf; [|done].
  cbn [map_err] in H. injection H as <- <-. exists run. split; [done|].
  by exists s0, parsed, record, c, status, executions, discovered, durable, facts.
Qed.

Lemma terminal_source_ok id db j :
  queue_wf db -> terminal_source id db = Ok j ->
  exists r, jobs db !! id = Some r /\ j = record_of id r /\ is_active (row_state r) = false.
Proof.
  intros Hwf. unfold terminal_source. rewrite (job_ok _ _ Hwf).
  destruct (jobs db !! id) as [r|]; [|done]. simpl. destruct (is_active (row_state r)) eqn:Ha; [done|].
  intros [= <-]. by exists r.
Qed.

Lemma recoverable_source_ok id db j :
  queue_wf db -> recoverable_source id db = Ok j ->
  exists r, jobs db !! id = Some r /\ j = record_of id r /\ (row_state r = Failed \/ row_state r = Cancelled).
Proof.
  intros Hwf. unfold recoverable_source. destruct (terminal_source id db) as [j'|] eqn:Hj; [|done].
  apply terminal_source_ok in Hj as (r & Hr & -> & _); [|done]. intros H. peel_ok H. boolify.
  injection H as <-. exists r. split; [done|]. split; [done|]. simpl in *. set_solver.
Qed.

Lemma action_kind_new a kind : action_kind a = Ok kind -> job_kind_new kind = Ok kind.
Proof. by destruct a; intros [= <-]. Qed.

Lemma act_ok a plan id now db r db' :
  act a plan id now db = (Ok r, db') -> exists p kind j, plan = Ok p /\ action_kind a = Ok kind /\
    enqueue_action_child id kind now (plan_association p) (plan_attempts p) db = (Ok j, db') /\
    r = action_result a j (plan_parts p).
Proof.
  unfold act, enqueue_child. destruct plan as [p|]; [|done]. destruct (action_kind a) as [kind|]; [|done].
  destruct (enqueue_action_child _ _ _ _ _ _) as [[j|e] d] eqn:He; [|done]. intros [= <- <-].
  by exists p, kind, j.
Qed.

Lemma act_err a plan id now db e db' : act a plan id now db = (Err e, db') -> db' = db.
Proof.
  unfold act, enqueue_child. destruct plan as [p|]; [|by intros [= _ <-]].
  destruct (action_kind a) as [kind|]; [|by intros [= _ <-]].
  destruct (enqueue_action_child _ _ _ _ _ _) as [[j|e'] d] eqn:He; intros [= _ <-].
  unfold enqueue_action_child in He. by apply transact_err in He.
Qed.
End lemmas.

(** * Theorems *)

Section theorems.
Context `{U : UuidLib} `{L : UrlLib} `{SD : SerdeLib} `{J : JsonLib} `{Hash : HashLib} `{Hosts : HostLib}.
Context `{W : !SnapshotWire} `{V : !VersionWire}.

(** ** Continuations *)

(** The actions that continue a job on its own run. *)
Definition continuation (a : JobAction) (fuel : nat) (id : string) (now : Z) (db : Db)
    : option (result JobActionError JobActionResult * Db) :=
  match a with
  | Retry => retry fuel id now db
  | RetryFailedParts => retry_failed_parts fuel id now db
  | ResumeCheckpoint => resume fuel id now db
  | _ => None
  end.

(** The attempts a continuation is given. *)
Definition granted_attempts (a : JobAction) (production : bool) (source : JobRow) : Z :=
  if production then row_max_attempts source
  else match a with
       | ResumeCheckpoint => row_max_attempts source
       | _ => row_max_attempts source - row_current_attempt source
       end.

(** What the plan of a continuation has checked. *)
Record planned (a : JobAction) (latest : result JobRepositoryError (option CheckpointRecord)) (id : string)
    (source : JobRow) (production : bool) (p : ChildPlan) (db : Db) : Prop := {
  pl_source : jobs db !! id = Some source;
  pl_ended : row_state source = Failed \/ row_state source = Cancelled;
  pl_production : is_production (record_of id source) db = Ok production;
  pl_run : match plan_association p with
    | SameSourceRun => is_Some (row_crawl_run_id source)
    | NoRun => row_crawl_run_id source = None /\ a = Retry
    | NewIndependentRun _ => False
    end;
  pl_attempts : default (row_max_attempts source) (plan_attempts p) = granted_attempts a production source;
  pl_range : 1 <= granted_attempts a production source <= row_max_attempts source;
  pl_evidence : forall run, row_crawl_run_id source = Some run ->
    exists parts, resumable latest run parts db /\
      (a = RetryFailedParts -> plan_parts p = Some parts /\ (0 < parts)%nat)
}.

Lemma retry_planned latest id db p : queue_wf db -> retry_plan latest id db = Ok p ->
  exists source production, planned Retry latest id source production p db.
Proof.
  intros Hwf H. unfold retry_plan in H. destruct (recoverable_source id db) as [j|] eqn:Hj; [|done].
  apply recoverable_source_ok in Hj as (source & Hr & -> & Hst); [|done].
  pose proof (qw_rows _ Hwf _ _ Hr) as [_ _ Hm Hc _ _ _].
  apply reject_then_ok in H as [H0 H]. apply Z.eqb_neq in H0. cbn [job_current_attempt record_of] in H0.
  assert (forall run, row_crawl_run_id source = Some run -> exists parts, resumable latest run parts db) as Hev.
  { intros run Hrun. cbn [job_crawl_run_id record_of] in H. rewrite Hrun in H.
    destruct (compatible_checkpoint latest (record_of id source) db) as [[s parts]|] eqn:Hck; [|done].
    apply compatible_checkpoint_ok in Hck as (run' & Hrun' & Hres). simpl in Hrun'. rewrite Hrun in Hrun'.
    injection Hrun' as <-. by exists parts. }
  destruct (match job_crawl_run_id _ with Some _ => _ | None => _ end) as [[]|]; [|done].
  destruct (is_production (record_of id source) db) as [production|] eqn:Hp; [|done].
  exists source, production. destruct production.
  - injection H as <-. split; simpl; try done.
    + unfold same_run_association. simpl. by destruct (row_crawl_run_id source).
    + unfold granted_attempts. lia.
    + unfold granted_attempts. lia.
    + intros run Hrun. destruct (Hev run Hrun) as [parts ?]. by exists parts.
  - apply reject_then_ok in H as [Hle H]. apply Z.leb_gt in Hle. simpl in Hle.
    destruct (snapshot_for (record_of id source) db) as [s|]; [|done]. injection H as <-.
    split; simpl; try done.
    + unfold same_run_association. simpl. by destruct (row_crawl_run_id source).
    + lia.
    + intros run Hrun. destruct (Hev run Hrun) as [parts ?]. by exists parts.
Qed.

Lemma retry_parts_planned latest id db p : queue_wf db -> retry_failed_parts_plan latest id db = Ok p ->
  exists source production, planned RetryFailedParts latest id source production p db.
Proof.
  intros Hwf H. unfold retry_failed_parts_plan in H.
  destruct (recoverable_source id db) as [j|] eqn:Hj; [|done].
  apply recoverable_source_ok in Hj as (source & Hr & -> & Hst); [|done].
  pose proof (qw_rows _ Hwf _ _ Hr) as [_ _ Hm Hc _ _ _].
  destruct (is_production (record_of id source) db) as [production|] eqn:Hp; [|done].
  apply reject_then_ok in H as [Hle H]. simpl in Hle.
  destruct (compatible_checkpoint latest (record_of id source) db) as [[s parts]|] eqn:Hck; [|done].
  apply compatible_checkpoint_ok in Hck as (run & Hrun & Hres). simpl in Hrun.
  apply reject_then_ok in H as [H0 H]. apply Nat.eqb_neq in H0. simpl in H0. injection H as <-.
  exists source, production. split; simpl; try done.
  - unfold granted_attempts. destruct production; lia.
  - unfold granted_attempts. destruct production; [lia|]. rewrite andb_true_r in Hle. lia.
  - intros run' Hrun'. rewrite Hrun in Hrun'. injection Hrun' as <-. exists parts.
    split; [done|]. intros _. split; [done|lia].
Qed.

Lemma resume_planned latest id db p : queue_wf db -> resume_plan latest id db = Ok p ->
  exists source production, planned ResumeCheckpoint latest id source production p db.
Proof.
  intros Hwf H. unfold resume_plan in H. destruct (recoverable_source id db) as [j|] eqn:Hj; [|done].
  apply recoverable_source_ok in Hj as (source & Hr & -> & Hst); [|done].
  pose proof (qw_rows _ Hwf _ _ Hr) as [_ _ Hm Hc _ _ _].
  destruct (is_production (record_of id source) db) as [production|] eqn:Hp; [|done].
  destruct (compatible_checkpoint latest (record_of id source) db) as [[s parts]|] eqn:Hck; [|done].
  apply compatible_checkpoint_ok in Hck as (run & Hrun & Hres). simpl in Hrun. injection H as <-.
  exists source, production. split; simpl; try done.
  - unfold granted_attempts. destruct production; simpl; lia.
  - unfold granted_attempts. destruct production; lia.
  - intros run' Hrun'. rewrite Hrun in Hrun'. injection Hrun' as <-. by exists parts.
Qed.

Lemma continuation_planned a fuel id now db r db' : queue_wf db ->
  continuation a fuel id now db = Some (Ok r, db') ->
  exists latest source production p kind j, latest_checkpoint_for_lineage fuel id db = Some latest /\
    planned a latest id source production p db /\ action_kind a = Ok kind /\
    enqueue_action_child id kind now (plan_association p) (plan_attempts p) db = (Ok j, db') /\
    r = action_result a j (plan_parts p).
Proof.
  intros Hwf H.
  destruct a; try done; simpl in H; unfold retry, retry_failed_parts, resume in H;
    (destruct (latest_checkpoint_for_lineage fuel id db) as [latest|]; [|done]); simpl in H;
    injection H as H; apply act_ok in H as (p & kind & j & Hp & Hk & He & ->).
  - apply retry_parts_planned in Hp as (source & production & Hp); [|done]. by eauto 12.
  - apply resume_planned in Hp as (source & production & Hp); [|done]. by eauto 12.
  - apply retry_planned in Hp as (source & production & Hp); [|done]. by eauto 12.
Qed.

(** C7. A continuation is authorised.  A retry, a retry of the failed parts or a resumption
    succeeds only for a job that failed or was cancelled, none of whose continuations of
    that kind is active; for a job with a crawl run only if a checkpoint of its lineage is
    accepted for that run and the durable evidence is coherent, and a retry of failed
    parts only if there is one.  All it does to the store is to add one queued job, the
    child of its source on the same run, and to queue that run again, if there is one.  A
    retry of other than a production crawl is given what is left of the source's attempts;
    a resumption, and any continuation of a production crawl, is given all of them again,
    for a retry against the documentation of [retry]. *)
Theorem continuation_authorised a fuel id now db r db'
    (Hwf : queue_wf db) (H : continuation a fuel id now db = Some (Ok r, db')) :
  exists source child production kind latest,
    jobs db !! id = Some source /\ (row_state source = Failed \/ row_state source = Cancelled) /\
    action_kind a = Ok kind /\ active_equivalent_action_child id kind db = false /\
    is_production (record_of id source) db = Ok production /\
    latest_checkpoint_for_lineage fuel id db = Some latest /\
    (forall run, row_crawl_run_id source = Some run -> exists parts, resumable latest run parts db /\
       (a = RetryFailedParts -> failed_part_count r = Some parts /\ (0 < parts)%nat)) /\
    (row_crawl_run_id source = None -> a = Retry) /\
    jobs db !! result_job_id r = None /\ result_state r = Queued /\
    child_row source id kind (row_crawl_run_id source) (granted_attempts a production source) now child /\
    (forall run, row_crawl_run_id source = Some run -> is_Some (crawl_runs db !! run)) /\
    db' = continued_store (row_crawl_run_id source) (result_job_id r) child db.
Proof.
  apply continuation_planned in H as (latest & source & production & p & kind & j & Hl & Hp & Hk & He & ->);
    [|done].
  pose proof Hp as [Hr Hst Hprod Hrun Hatt Hrange Hev]. pose proof (qw_rows _ Hwf _ _ Hr) as [_ _ Hm _ _ _ _].
  apply action_child_inv in He
    as (source' & child & run & Hr' & _ & Heq & Hnew & Hcr & Hchild & Hj & _ & _ & Hstore);
    [|done|by eapply action_kind_new|].
  2: { intros m Hm'. rewrite Hm' in Hatt. simpl in Hatt. lia. }
  rewrite Hr in Hr'. injection Hr' as <-. rewrite Hatt in Hchild.
  assert (run = row_crawl_run_id source /\
    (forall key, row_crawl_run_id source = Some key -> is_Some (crawl_runs db !! key))) as [-> Hsome].
  { destruct (plan_association p); simpl in Hcr; [destruct Hrun as [Hnone _]; rewrite Hnone; by destruct Hcr| |done].
    destruct Hcr as (-> & key & row & Hkey & Hrow & _). split; [done|].
    intros key' Hkey'. exists row. congruence. }
  exists source, child, production, kind, latest. split_and!; try done.
  - intros Hnone. destruct (plan_association p); [by destruct Hrun|by rewrite Hnone in Hrun; destruct Hrun|done].
  - simpl. rewrite Hj. simpl. by destruct Hchild as (_ & -> & _).
  - by destruct (plan_association p).
Qed.

(** ** Reruns *)

(** The decision on robots of a rerun: the source's, or an override with a reason given for
    this rerun. *)
Definition rerun_decision (source : RobotsDecision) (reason : option string) (d : RobotsDecision) : Prop :=
  match source with
  | Respect => d = Respect
  | Override _ => exists why, reason = Some why /\ d = Override why /\ blank why = false /\
      (char_count why <= MAX_ROBOTS_OVERRIDE_REASON_CHARS)%nat
  end.

(** The snapshot of a rerun has the source's configuration and its own decision, time and hashes. *)
Record rerun_of (s : CrawlRunSnapshot) (reason : option string) (now : Z) (s' : CrawlRunSnapshot) : Prop := {
  rr_type : draft_run_type (snapshot_draft s') = draft_run_type (snapshot_draft s);
  rr_configuration : draft_configuration (snapshot_draft s') = draft_configuration (snapshot_draft s);
  rr_seeds : draft_selected_seed_ids (snapshot_draft s') = draft_selected_seed_ids (snapshot_draft s);
  rr_settings : draft_settings (snapshot_draft s') = draft_settings (snapshot_draft s);
  rr_decision : rerun_decision (robots_decision (draft_robots (snapshot_draft s))) reason
    (robots_decision (draft_robots (snapshot_draft s')));
  rr_decided : decided_at (draft_robots (snapshot_draft s')) = pretty now;
  rr_created : draft_created_at (snapshot_draft s') = pretty now;
  rr_hash : snapshot_hash s' = canonical_sha256 (draft_json (snapshot_draft s'));
  rr_compatibility : checkpoint_compatibility_hash s' = canonical_sha256 (compatibility_json (snapshot_draft s'))
}.

Lemma independent_rerun_ok s reason now s' :
  independent_rerun_snapshot s reason now = Ok s' -> rerun_of s reason now s'.
Proof.
  unfold independent_rerun_snapshot. cbv zeta. intros H.
  destruct (robots_decision (draft_robots (snapshot_draft s))) as [|old] eqn:Hd.
  - apply map_err_ok, snapshot_new_ok in H as [_ ->]. split; simpl; try done. by rewrite Hd.
  - destruct reason as [why|]; [|done]. simpl in H. unfold override_with_reason in H.
    destruct (require_non_empty "robots override reason" why) as [[]|] eqn:Hb; [|done].
    destruct (reject_if _ reason_too_long) as [[]|] eqn:Hl; [|done]. cbn [map_err] in H.
    apply map_err_ok, snapshot_new_ok in H as [_ ->]. split; simpl; try done. rewrite Hd.
    exists why. split; [done|]. split; [done|]. apply require_non_empty_ok in Hb. split; [done|].
    apply reject_if_ok, Nat.ltb_ge in Hl. exact Hl.
Qed.

(** C28. A rerun is independent of its source.  It succeeds only for a job that has ended and
    has a crawl run; it adds one run of its own, queued, whose snapshot has the source's
    configuration, seeds and settings but its own decision, times and hashes, an override of
    the robots policy only with a reason given anew; and one queued job for that run.  The
    source, its run and all others stay as they are. *)
Theorem rerun_is_independent id now reason db r db'
    (Hwf : queue_wf db) (H : rerun_full_crawl id now reason db = (Ok r, db')) :
  exists source stored s s' (run : CrawlRunId) row child,
    jobs db !! id = Some source /\ is_active (row_state source) = false /\
    row_crawl_run_id source = Some stored /\ snapshot_by_stored_id stored db = Ok s /\
    rerun_of s reason now s' /\
    crawl_runs db !! id_to_string run = None /\ crawl_runs db' = <[id_to_string run := row]> (crawl_runs db) /\
    run_status row = RunQueued /\ run_snapshot_hash row = snapshot_hash s' /\
    jobs db !! result_job_id r = None /\ jobs db' = <[result_job_id r := child]> (jobs db) /\
    child_row source id "RERUN_FULL_CRAWL" (Some (id_to_string run)) (row_max_attempts source) now child.
Proof.
  unfold rerun_full_crawl in H. apply act_ok in H as (p & kind & j & Hp & Hk & He & ->).
  unfold rerun_plan in Hp. destruct (terminal_source id db) as [src|] eqn:Hsrc; [|done].
  apply terminal_source_ok in Hsrc as (source & Hr & -> & Hact); [|done].
  unfold snapshot_for in Hp. cbn [job_crawl_run_id record_of] in Hp.
  destruct (row_crawl_run_id source) as [stored|] eqn:Hrun; [|done].
  destruct (snapshot_by_stored_id stored db) as [s|] eqn:Hs; [|done]. cbn [map_err ok_or] in Hp.
  destruct (independent_rerun_snapshot s reason now) as [s'|] eqn:Hs'; [|done]. injection Hp as <-.
  apply independent_rerun_ok in Hs'. injection Hk as <-. cbn [plan_association plan_attempts] in He.
  apply action_child_inv in He as (source' & child & run & Hr' & _ & _ & Hnew & Hcr & Hchild & Hj & Hjobs & _ & _);
    [|done..].
  rewrite Hr in Hr'. injection Hr' as <-. simpl in Hcr.
  destruct Hcr as (new & row & -> & Hfresh & Hst & _ & Hhash & Hruns).
  by exists source, stored, s, s', new, row, child.
Qed.

(** ** Refusals *)

(** A refused action changes nothing: whatever the reason, a continuation, a restart, a
    rerun, a removal or a reprioritisation that answers an error has left the store as it
    was. *)
Theorem refused_action_changes_nothing db (Hwf : queue_wf db) :
  (forall a fuel id now e db', continuation a fuel id now db = Some (Err e, db') -> db' = db) /\
  (forall id now e db', restart_from_beginning id now db = (Err e, db') -> db' = db) /\
  (forall id now reason e db', rerun_full_crawl id now reason db = (Err e, db') -> db' = db) /\
  (forall id e db', remove_action id db = (Err e, db') -> db' = db) /\
  (forall id priority scheduled_at now e db', - 2 ^ 31 <= priority < 2 ^ 31 ->
     reprioritize_action id priority scheduled_at now db = (Err e, db') -> db' = db).
Proof.
  split_and!.
  - intros a fuel id now e db' H.
    destruct a; try done; simpl in H; unfold retry, retry_failed_parts, resume in H;
      (destruct (latest_checkpoint_for_lineage fuel id db) as [latest|]; [|done]); simpl in H;
      injection H as H; by apply act_err in H.
  - intros id now e db'. apply act_err.
  - intros id now reason e db'. apply act_err.
  - intros id e db'. unfold remove_action. destruct (remove_if_safe id db) as [[u|e'] d] eqn:Hr; [done|].
    intros [= _ <-]. unfold remove_if_safe in Hr. by apply transact_err in Hr.
  - intros id priority scheduled_at now e db' Hp. unfold reprioritize_action.
    destruct (job id db) as [existing|]; [|by intros [= _ <-]].
    set (at_ := default _ _).
    destruct (reprioritize id priority at_ now db) as [[j|e'] d] eqn:Hr; [done|].
    intros [= _ <-]. pose proof (reprioritize_changes id priority at_ now Hp _ _ _ Hwf Hr) as Hc.
    apply (changes_wf _ _ Hwf) in Hc as Hwf'. unfold reprioritize in Hr.
    destruct (transact _ db) as [[n|e''] d'] eqn:Ht.
    + apply transact_ok, tx_map_err_ok, update_jobs_key in Ht as [(-> & x & _ & _ & _ & _ & ->)|(-> & _ & ->)].
      * injection Hr as Hj <-. rewrite (job_ok _ _ Hwf') in Hj. simpl in Hj.
        by rewrite lookup_insert_eq in Hj.
      * by destruct (job id db) as [?|[]]; injection Hr as _ <-.
    + injection Hr as _ <-. by apply transact_err in Ht.
Qed.
End theorems.

(** * Witnesses *)

Section witnesses.
#[local] Existing Instances plain_uuid plain_url plain_json plain_hash plain_hosts compact_serde.

(** A quick scrape that stored its recovery checkpoint, initialised its traversal and was
    then cancelled. *)
Definition act_snapshot : CrawlRunSnapshot := {| snapshot_draft := crawl_draft;
  snapshot_hash := crawl_hash; checkpoint_compatibility_hash := crawl_compatibility |}.
Definition act_root : NewJob :=
  {| nj_id := "root"; nj_kind := "QUICK_SCRAPE"; nj_priority := 0; nj_parent_job_id := None;
     nj_crawl_run_id := None; nj_scheduled_at := 0; nj_max_attempts := 3 |}.
Definition act_run : CrawlRunId := mk_id (uuid_now_v7 0).
Definition act_lease : JobLease :=
  {| lease_id := uid 1; lease_owner := "w"; lease_generation := 1; lease_acquired_at := 1;
     lease_expires_at := 101; lease_heartbeat_at := 1 |}.
Definition act_envelope : CheckpointEnvelope := {|
  format_version := CHECKPOINT_ENVELOPE_FORMAT_VERSION; ckpt_sequence := 0;
  identity := {| snapshot_id := id_to_string act_run; identity_snapshot_hash := crawl_hash;
                 compatibility_hash := crawl_compatibility |};
  payload_kind := CRAWL_RECOVERY_PAYLOAD_KIND;
  payload := recovery_json (recovery_control act_run act_snapshot Traversing) |}.
Definition act_started : Db := run_ops ∅ ∅
  [OpQuickScrape act_snapshot act_root 0; OpAcquire "w" 1 100 true;
   OpCheckpoint "root" (uid 2) act_lease act_envelope 2].
Definition act_initialized : Db := (initialize_run_state crawl_run_text [crawl_page "s0" "/" 0]
  {| ctl_run := crawl_run_text; ctl_columns := crawl_control |} act_started).2.
Definition act_ended : Db := run_op (OpCancel "root" act_lease 5) act_initialized.

Lemma act_root_ok : new_job_ok act_root.
Proof. split; [reflexivity|simpl; lia|simpl; unfold u32_max; lia|discriminate]. Qed.

Lemma act_ended_wf : queue_wf act_ended.
Proof.
  assert (queue_wf act_started) as Hs.
  { apply reachable_wf, run_ops_reachable.
    repeat (apply Forall_cons; split; [first [exact act_root_ok|exact I]|]). constructor. }
  assert (queue_wf act_initialized) as Hi.
  { apply (wf_elsewhere act_started); [vm_compute; reflexivity..|exact Hs]. }
  apply (steps_wf act_initialized); [exact Hi|]. apply rtc_once.
  exists (OpCancel "root" act_lease 5). split; [exact I|reflexivity].
Qed.

Lemma act_ended_row : exists r, jobs act_ended !! "root"%string = Some r /\
  row_crawl_run_id r = Some crawl_run_text /\ row_state r = Cancelled.
Proof. eexists. split; [vm_compute; reflexivity|]. split; vm_compute; reflexivity. Qed.

Definition resumed : result JobActionError JobActionResult * Db :=
  default (Err ActionNotFound, act_ended) (resume 2 "root" 6 act_ended).

(** The resumption of the cancelled crawl queues its run again. *)
Lemma continuation_authorised_witness : exists r source child parts latest,
  resume 2 "root" 6 act_ended = Some (Ok r, resumed.2) /\ jobs act_ended !! "root"%string = Some source /\
  row_state source = Cancelled /\ resumable latest crawl_run_text parts act_ended /\
  resumed.2 = continued_store (Some crawl_run_text) (result_job_id r) child act_ended /\
  run_status <$> crawl_runs act_ended !! crawl_run_text = Some RunCancelled /\
  run_status <$> crawl_runs resumed.2 !! crawl_run_text = Some RunQueued.
Proof.
  assert (exists r, resume 2 "root" 6 act_ended = Some (Ok r, resumed.2)) as [r Hr].
  { unfold resumed. destruct (resume 2 "root" 6 act_ended) as [[[r|e] d]|] eqn:H.
    - exists r. reflexivity.
    - vm_compute in H. discriminate H.
    - vm_compute in H. discriminate H. }
  destruct (continuation_authorised ResumeCheckpoint 2 "root" 6 act_ended r resumed.2 act_ended_wf Hr)
    as (source & child & production & kind & latest & Hs & Hst & _ & _ & _ & _ & Hev & _ & _ & _ & _ & _ & Hstore).
  destruct act_ended_row as (row & Hrow & Hrun & Hc). rewrite Hs in Hrow. injection Hrow as <-.
  destruct (Hev crawl_run_text Hrun) as (parts & Hres & _). rewrite Hrun in Hstore.
  exists r, source, child, parts, latest. split; [exact Hr|]. split; [exact Hs|]. split; [exact Hc|].
  split; [exact Hres|]. split; [exact Hstore|].
  split; vm_compute; reflexivity.
Defined.

Definition rerun : result JobActionError JobActionResult * Db := rerun_full_crawl "root" 6 None act_ended.

Lemma rerun_is_independent_witness : exists s', rerun_of act_snapshot None 6 s'.
Proof.
  destruct (rerun_full_crawl "root" 6 None act_ended) as [[r|e] d] eqn:H.
  2: { vm_compute in H. discriminate H. }
  destruct (rerun_is_independent "root" 6 None act_ended r d act_ended_wf H)
    as (source & stored & s & s' & run & row & child & Hs & _ & Hrun & Hsnap & Hof & _).
  exists s'. assert (s = act_snapshot) as <-; [|exact Hof].
  assert (snapshot_by_stored_id stored act_ended = Ok act_snapshot) as Hx.
  { destruct act_ended_row as (row' & Hrow & Hrun' & _). rewrite Hs in Hrow. injection Hrow as <-.
    rewrite Hrun in Hrun'. injection Hrun' as ->. vm_compute. reflexivity. }
  rewrite Hsnap in Hx. injection Hx as ->. reflexivity.
Defined.

Lemma refused_action_changes_nothing_witness : exists e,
  retry_failed_parts 2 "root" 6 act_ended = Some (Err e, act_ended).
Proof.
  destruct (retry_failed_parts 2 "root" 6 act_ended) as [[[r|e] d]|] eqn:H;
    [vm_compute in H; discriminate H| |vm_compute in H; discriminate H].
  exists e. destruct (refused_action_changes_nothing act_ended act_ended_wf) as [Hc _].
  rewrite (Hc RetryFailedParts 2%nat "root"%string 6 e d H). reflexivity.
Defined.

(** A job without a crawl, cancelled in its first of two attempts. *)
Definition spent_lease (n generation at_ : Z) : JobLease :=
  {| lease_id := uid (Z.to_nat n); lease_owner := "w"; lease_generation := generation;
     lease_acquired_at := at_; lease_expires_at := at_ + 10; lease_heartbeat_at := at_ |}.
Definition spent_0 : Db := run_ops ∅ ∅ (ex_ops ++ [OpCancel "j" ex_lease 2]).
Definition after_retry (now : Z) (db : Db) : Db := default db (snd <$> retry 1 "j" now db).
Definition spent_1 : Db := after_retry 3 spent_0.
(** The child uses its one attempt and fails. *)
Definition spent_2 : Db := run_op (OpFail (uid 2) (spent_lease 3 1 4) 5 HandlerFailed 6)
  (run_op (OpAcquire "w" 4 10 true) spent_1).
Definition spent_3 : Db := after_retry 7 spent_2.
Definition spent_4 : Db := run_op (OpAcquire "w" 8 10 true) spent_3.

Lemma retried db now : (exists r d, retry 1 "j" now db = Some (Ok r, d)) ->
  exists r, retry 1 "j" now db = Some (Ok r, after_retry now db).
Proof. intros (r & d & H). exists r. unfold after_retry. by rewrite H. Qed.

Lemma spent_retries : exists r1 r2,
  retry 1 "j" 3 spent_0 = Some (Ok r1, spent_1) /\ result_job_id r1 = uid 2 /\
  retry 1 "j" 7 spent_2 = Some (Ok r2, spent_3) /\ result_job_id r2 = uid 5.
Proof.
  destruct (retry 1 "j" 3 spent_0) as [[[r1|e] d1]|] eqn:H1; [|vm_compute in H1; discriminate H1..].
  destruct (retry 1 "j" 7 spent_2) as [[[r2|e] d2]|] eqn:H2; [|vm_compute in H2; discriminate H2..].
  exists r1, r2. unfold spent_1, spent_3, after_retry. rewrite H1, H2. split; [done|].
  assert (result_job_id <$> (fst <$> retry 1 "j" 3 spent_0) ≫= (fun r => match r with Ok r => Some r | _ => None end)
    = Some (uid 2)) as Hid1 by (vm_compute; reflexivity).
  assert (result_job_id <$> (fst <$> retry 1 "j" 7 spent_2) ≫= (fun r => match r with Ok r => Some r | _ => None end)
    = Some (uid 5)) as Hid2 by (vm_compute; reflexivity).
  rewrite H1 in Hid1. rewrite H2 in Hid2. simpl in Hid1, Hid2. split; [congruence|]. split; [done|congruence].
Qed.

(** Retries of one job are not bounded by its attempts.  A job cancelled in its first of
    two attempts is retried; its child uses the one attempt left and fails; then the same
    job is retried again, and its second child is given that attempt once more. *)
Theorem repeated_retry_exceeds_budget :
  exists db r1 db1 db2 r2 db3 db4 root c1 c2,
    reachable db /\ retry 1 "j" 3 db = Some (Ok r1, db1) /\ steps db1 db2 /\
    retry 1 "j" 7 db2 = Some (Ok r2, db3) /\ steps db3 db4 /\
    jobs db4 !! "j"%string = Some root /\ jobs db4 !! result_job_id r1 = Some c1 /\
    jobs db4 !! result_job_id r2 = Some c2 /\
    row_parent_job_id c1 = Some "j"%string /\ row_parent_job_id c2 = Some "j"%string /\
    row_max_attempts root < row_current_attempt root + row_current_attempt c1 + row_current_attempt c2.
Proof.
  destruct spent_retries as (r1 & r2 & H1 & Hid1 & H2 & Hid2).
  exists spent_0, r1, spent_1, spent_2, r2, spent_3, spent_4.
  do 3 eexists. rewrite Hid1, Hid2. split; [|split; [exact H1|split; [|split; [exact H2|split]]]].
  - apply run_ops_reachable. repeat (apply Forall_cons; split; [first [exact ex_job_ok|exact I]|]). constructor.
  - apply (rtc_l _ _ (run_op (OpAcquire "w" 4 10 true) spent_1)).
    + exists (OpAcquire "w" 4 10 true). split; [exact I|reflexivity].
    + apply rtc_once. exists (OpFail (uid 2) (spent_lease 3 1 4) 5 HandlerFailed 6).
      split; [exact I|reflexivity].
  - apply rtc_once. exists (OpAcquire "w" 8 10 true). split; [exact I|reflexivity].
  - split; [vm_compute; reflexivity|]. split; [vm_compute; reflexivity|]. split; [vm_compute; reflexivity|].
    vm_compute. split; [reflexivity|]. split; reflexivity.
Qed.
End witnesses.
