(* ===== verification/TestEvidence.v ===== *)
(** * Test evidence

    [crates/erabi-domain/src/test_evidence.rs]: the record a Test Lab run leaves, the
    contract it is checked against before it is stored and after it is read
    ([validate]), and the comparison of page-type matches by behaviour
    ([behaviorally_equivalent]).  The evidence types a discovery preview shares are in
    [Preview.v].  The texts of the errors are kept, as they are what the caller sees. *)

From S2P Require Import Prelude Externals Base Instances Canonicalization DomainScope UrlMatcher Preview.

Definition TEST_EVIDENCE_SCHEMA_VERSION : Z := 1.
Definition MAX_TEST_EVIDENCE_INPUT_URLS : nat := 8.
Definition MAX_TEST_EVIDENCE_DISCOVERED_URLS : nat := 64.
Definition MAX_TEST_EVIDENCE_ARTIFACTS : nat := 16.
Definition MAX_TEST_EVIDENCE_DIAGNOSTICS : nat := 32.
Definition MAX_TEST_EVIDENCE_URL_CHARS : nat := 4096.
Definition MAX_TEST_EVIDENCE_DIAGNOSTIC_CODE_CHARS : nat := 128.
Definition MAX_TEST_EVIDENCE_DIAGNOSTIC_MESSAGE_CHARS : nat := 1024.

Inductive TestKind :=
| TestUrlCanonicalization | TestPageTypeMatching | TestExtraction | TestSelectorCoverage
| TestPagination | TestDiscoveryTransition | TestDiscoveredUrlPreview | TestCombinedUrlEvaluation.

#[export] Instance test_kind_eq_dec : EqDecision TestKind.
Proof. solve_decision. Defined.

Inductive SelectorCoverageStatus := Observed | NoMatches | Unavailable.

#[export] Instance coverage_status_eq_dec : EqDecision SelectorCoverageStatus.
Proof. solve_decision. Defined.

Record SelectorCoverageEvidence := {
  coverage_selector : string;
  matches_found : Z;
  coverage_status : SelectorCoverageStatus
}.

Record ExtractionFieldEvidence := { field_name : string; field_observed : bool }.

Inductive ExtractionObservation :=
| ExtractionAvailable (fields : list ExtractionFieldEvidence)
| ExtractionUnavailable (reason : string)
| ExtractionError (diagnostic : TestDiagnostic).

Record PaginationEvidence := {
  pagination_kind : PaginationKind;
  pagination_selector : option string;
  pagination_target_url : option string
}.

Inductive TransitionBudgetExclusionEvidence :=
| ExcludedByMaxPages | ExcludedByMaxDuration | ExcludedByMaxDepth | ExcludedByMaxDownloadedBytes
| ExcludedByPageTypePageBudget | ExcludedByTransitionPerPageLinkLimit
| ExcludedByTransitionTotalBudget.

Record TransitionBudgetEvidence := {
  budget_allowed : bool;
  budget_exclusion : option TransitionBudgetExclusionEvidence
}.

Inductive PublishedComparisonStatus := Compared | NoActivePublishedVersion.

#[export] Instance decision_code_eq_dec : EqDecision CanonicalizationDecisionCode.
Proof. solve_decision. Defined.
#[export] Instance decision_evidence_eq_dec : EqDecision CanonicalizationDecisionEvidence.
Proof. solve_decision. Defined.
#[export] Instance canonicalization_outcome_eq_dec : EqDecision CanonicalizationOutcome.
Proof. solve_decision. Defined.
#[export] Instance canonicalization_evidence_eq_dec : EqDecision CanonicalizationEvidence.
Proof. solve_decision. Defined.
#[export] Instance kind_evidence_eq_dec : EqDecision MatcherKindEvidence.
Proof. solve_decision. Defined.
#[export] Instance specificity_evidence_eq_dec : EqDecision MatcherSpecificityEvidence.
Proof. solve_decision. Defined.

(** [s.is_empty() || s.chars().count() > max || s.chars().any(char::is_control)] *)
Definition bad_text (max : nat) (s : string) : bool :=
  str_is_empty s || (max <? char_count s)%nat || has_control s.

(** [option.as_ref().is_some_and(p)] *)
Definition some_and {A} (p : A -> bool) (o : option A) : bool :=
  match o with Some a => p a | None => false end.

(** [option.as_ref().is_none_or(p)] *)
Definition none_or {A} (p : A -> bool) (o : option A) : bool :=
  match o with Some a => p a | None => true end.

(** [if let Some(a) = &option { f(a)?; }] *)
Definition validate_if {A} (f : A -> result string unit) (o : option A) : result string unit :=
  match o with Some a => f a | None => Ok tt end.

(** [hash.len() != 64 || !hash.chars().all(|c| c.is_ascii_hexdigit())] *)
Definition bad_hash (hash : string) : bool :=
  negb (Nat.eqb (str_len hash) 64) || negb (forallb is_ascii_hexdigit (chars hash)).

(** ** Page-type matches by behaviour *)

Definition matcher_kind_rank (k : MatcherKindEvidence) : Z :=
  match k with
  | EvidenceExactUrl => 4
  | EvidenceExactHostPathTemplate => 3
  | EvidencePathPrefixOrGlob => 2
  | EvidenceRegex => 1
  end.

Record SemanticPageTypeCandidate := {
  sem_page_type_name : string;
  sem_priority : Z;
  sem_matcher_kind_rank : Z;
  sem_specificity : Z * (Z * (Z * (Z * Z)));
  sem_matched_patterns : list string
}.

#[export] Instance semantic_candidate_eq_dec : EqDecision SemanticPageTypeCandidate.
Proof. solve_decision. Defined.

(** The fields in the order of the derived [Ord]. *)
Definition semantic_fields (c : SemanticPageTypeCandidate) :=
  (sem_page_type_name c, (sem_priority c, (sem_matcher_kind_rank c,
    (sem_specificity c, sem_matched_patterns c)))).

Definition semantic_cmp : SemanticPageTypeCandidate -> SemanticPageTypeCandidate -> comparison :=
  cmp_on semantic_fields (cmp_pair String.compare (cmp_pair Z.compare (cmp_pair Z.compare
    (cmp_pair (cmp_pair Z.compare (cmp_pair Z.compare (cmp_pair Z.compare
      (cmp_pair Z.compare Z.compare)))) (cmp_list String.compare))))).

Section test_evidence.
Context `{U : UuidLib} `{L : UrlLib}.

#[export] Instance candidate_evidence_eq_dec : EqDecision PageTypeCandidateEvidence.
Proof. solve_decision. Defined.
#[export] Instance match_evidence_eq_dec : EqDecision PageTypeMatchEvidence.
Proof. solve_decision. Defined.

Definition semantic_from_evidence (c : PageTypeCandidateEvidence) : SemanticPageTypeCandidate :=
  let s := winner_specificity c in
  {| sem_page_type_name := winner_page_type_name c;
     sem_priority := winner_priority c;
     sem_matcher_kind_rank := matcher_kind_rank (winner_matcher_kind c);
     sem_specificity := (spec_matcher_kind_rank s, (spec_literal_path_segments s,
       (spec_explicit_query_constraints s, (spec_literal_characters s,
         spec_wildcard_capture_count s))));
     sem_matched_patterns := sort_by String.compare (winner_matched_patterns c) |}.

Definition semantic_candidate_multiset (candidates : list PageTypeCandidateEvidence)
    : list SemanticPageTypeCandidate :=
  sort_by semantic_cmp (map semantic_from_evidence candidates).

Definition semantic_winner (w : option PageTypeCandidateEvidence) : option SemanticPageTypeCandidate :=
  semantic_from_evidence <$> w.

Definition behaviorally_equivalent (self other : PageTypeMatchEvidence) : bool :=
  bool_decide (match_decision self = match_decision other)
  && bool_decide (semantic_candidate_multiset (match_candidates self)
       = semantic_candidate_multiset (match_candidates other))
  && bool_decide (semantic_winner (winner self) = semantic_winner (winner other)).

Definition page_type_match_sequences_behaviorally_equivalent
    (left right : list PageTypeMatchEvidence) : bool :=
  Nat.eqb (length left) (length right)
  && forallb (fun p => behaviorally_equivalent p.1 p.2) (zip left right).

(** ** Evidence *)

Record DiscoveredUrlEvidence := {
  raw_href : string;
  resolved_original_url : option string;
  discovered_canonical_url : option string;
  discovered_canonicalization : option CanonicalizationEvidence;
  discovered_scope : option DomainScopeEvidence;
  duplicate : bool;
  duplicate_of_canonical_url : option string;
  discovered_match : option PageTypeMatchEvidence;
  transition_eligible : bool;
  discovered_budget : option TransitionBudgetEvidence
}.

Record DiscoveryTransitionEvidence := {
  disc_transition_id : option DiscoveryTransitionId;
  disc_transition_name : option string;
  disc_source_page_type_id : option PageTypeId;
  disc_target_page_type_id : option PageTypeId;
  source_match : option PageTypeMatchEvidence;
  disc_selector : SelectorCoverageEvidence;
  discovered_urls : list DiscoveredUrlEvidence;
  eligible_link_count : Z;
  per_page_limit : Z;
  per_page_limit_reached : bool
}.

Record TestLabComparison := {
  comparison_status : PublishedComparisonStatus;
  draft_version_id : CrawlerVersionId;
  draft_config_hash : string;
  published_version_id : option CrawlerVersionId;
  published_config_hash : option string;
  canonicalization_difference : bool;
  draft_canonicalization : list CanonicalizationEvidence;
  published_canonicalization : list CanonicalizationEvidence;
  page_type_match_difference : bool;
  draft_page_type_match : list PageTypeMatchEvidence;
  published_page_type_match : list PageTypeMatchEvidence;
  discovery_difference : option bool;
  extraction_difference : option bool;
  comparison_warnings : list TestDiagnostic
}.

Record TestEvidence := {
  ev_schema_version : Z;
  ev_id : TestEvidenceId;
  ev_crawler_version_id : CrawlerVersionId;
  ev_test_kind : TestKind;
  ev_input_urls : list string;
  ev_evaluated_page_type_id : option PageTypeId;
  ev_tested_transition_id : option DiscoveryTransitionId;
  ev_canonicalization : list CanonicalizationEvidence;
  ev_page_type_match : list PageTypeMatchEvidence;
  ev_extraction : option ExtractionObservation;
  ev_selector_coverage : list SelectorCoverageEvidence;
  ev_pagination : option PaginationEvidence;
  ev_discovery : option DiscoveryTransitionEvidence;
  ev_warnings : list TestDiagnostic;
  ev_errors : list TestDiagnostic;
  ev_artifact_ids : list ArtifactId;
  ev_config_hash : string;
  ev_executed_at : string;
  ev_published_comparison : option TestLabComparison
}.

(** [id.as_uuid().get_version_num() != 7] *)
Definition not_v7 {k} (i : typed_id k) : bool := negb (uuid_version (as_uuid i) =? 7).

Definition validate_url_string (value : string) : result string unit :=
  reject_if ((MAX_TEST_EVIDENCE_URL_CHARS <? char_count value)%nat || has_control value
      || bool_decide (url_parse value = None))
    "TestEvidence contains an invalid URL"%string.

Definition validate_diagnostic (d : TestDiagnostic) : result string unit :=
  reject_if (bad_text MAX_TEST_EVIDENCE_DIAGNOSTIC_CODE_CHARS (test_code d)
      || bad_text MAX_TEST_EVIDENCE_DIAGNOSTIC_MESSAGE_CHARS (test_message d))
    "TestEvidence diagnostic is invalid"%string.

Definition validate_canonicalization (e : CanonicalizationEvidence) : result string unit :=
  let? _ := reject_if (bad_text MAX_TEST_EVIDENCE_URL_CHARS (evidence_original_url e))
    "canonicalization evidence contains an invalid original URL"%string in
  let? _ := match evidence_outcome e, evidence_canonical_url e with
    | Canonicalized, Some u => validate_url_string u
    | CanonicalizationInvalidUrl, None => Ok tt
    | _, _ => Err "canonicalization evidence outcome is inconsistent"%string
    end in
  for_each (fun d => reject_if (some_and (bad_text MAX_TEST_EVIDENCE_URL_CHARS) (decision_parameter d))
    "canonicalization evidence contains an invalid parameter"%string) (evidence_decisions e).

Definition validate_page_type_candidate (c : PageTypeCandidateEvidence) : result string unit :=
  reject_if (not_v7 (winner_page_type_id c)
      || bad_text MAX_TEST_EVIDENCE_DIAGNOSTIC_MESSAGE_CHARS (winner_page_type_name c)
      || (MAX_TEST_EVIDENCE_INPUT_URLS <? length (winner_matched_patterns c))%nat
      || existsb (bad_text MAX_TEST_EVIDENCE_URL_CHARS) (winner_matched_patterns c))
    "PageType candidate evidence is invalid"%string.

Definition validate_page_type_match (e : PageTypeMatchEvidence) : result string unit :=
  let? _ := for_each validate_page_type_candidate (match_candidates e) in
  let? _ := validate_if validate_page_type_candidate (winner e) in
  match match_decision e with
  | StatusMatched =>
    let? w := ok_or "matched PageType evidence has no winner"%string (winner e) in
    reject_if (bool_decide (match_candidates e <> [w]))
      "matched PageType evidence has inconsistent candidates"%string
  | StatusAmbiguous =>
    reject_if (bool_decide (is_Some (winner e)) || (length (match_candidates e) <? 2)%nat)
      "ambiguous PageType evidence is incomplete"%string
  | StatusUnmatched =>
    reject_if (bool_decide (is_Some (winner e)) || negb (Nat.eqb (length (match_candidates e)) 0))
      "unmatched PageType evidence has candidates"%string
  end.

Definition validate_selector_coverage (e : SelectorCoverageEvidence) : result string unit :=
  reject_if (bad_text MAX_TEST_EVIDENCE_URL_CHARS (coverage_selector e)
      || ((matches_found e =? 0) && bool_decide (coverage_status e = Observed))
      || ((0 <? matches_found e) && bool_decide (coverage_status e <> Observed)))
    "selector coverage evidence is invalid"%string.

Definition validate_pagination (e : PaginationEvidence) : result string unit :=
  let? _ := reject_if (some_and (bad_text MAX_TEST_EVIDENCE_URL_CHARS) (pagination_selector e))
    "pagination selector evidence is invalid"%string in
  validate_if validate_url_string (pagination_target_url e).

Definition validate_extraction (e : ExtractionObservation) : result string unit :=
  match e with
  | ExtractionAvailable fields =>
    let? _ := reject_if (MAX_TEST_EVIDENCE_DISCOVERED_URLS <? length fields)%nat
      "extraction observation is outside its bounded range"%string in
    for_each (fun f => reject_if (bad_text MAX_TEST_EVIDENCE_URL_CHARS (field_name f))
      "extraction field evidence is invalid"%string) fields
  | ExtractionUnavailable reason =>
    reject_if (bad_text MAX_TEST_EVIDENCE_DIAGNOSTIC_MESSAGE_CHARS reason)
      "extraction unavailable observation is invalid"%string
  | ExtractionError d => validate_diagnostic d
  end.

(** The loop of [validate_discovery]. *)
Definition validate_discovered (d : DiscoveredUrlEvidence) : result string unit :=
  let? _ := reject_if (bad_text MAX_TEST_EVIDENCE_URL_CHARS (raw_href d)
      || some_and (fun u => is_err (validate_url_string u)) (duplicate_of_canonical_url d)
      || (duplicate d && bool_decide (duplicate_of_canonical_url d = None))
      || (negb (duplicate d) && bool_decide (is_Some (duplicate_of_canonical_url d))))
    "discovered URL evidence is invalid"%string in
  let? _ := validate_if validate_url_string (resolved_original_url d) in
  let? _ := validate_if validate_url_string (discovered_canonical_url d) in
  let? _ := validate_if validate_canonicalization (discovered_canonicalization d) in
  let? _ := validate_if validate_page_type_match (discovered_match d) in
  let? _ := reject_if (transition_eligible d
      && none_or (fun b => negb (budget_allowed b)) (discovered_budget d))
    "eligible discovered URL has no allowed budget evidence"%string in
  reject_if (some_and (fun b => xorb (budget_allowed b) (transition_eligible d)
      || (negb (budget_allowed b) && bool_decide (budget_exclusion b = None))
      || (budget_allowed b && bool_decide (is_Some (budget_exclusion b)))) (discovered_budget d))
    "discovered URL budget evidence is invalid"%string.

Definition validate_discovery (e : DiscoveryTransitionEvidence) : result string unit :=
  let has_transition := bool_decide (is_Some (disc_transition_id e)) in
  let? _ := reject_if (some_and not_v7 (disc_transition_id e)
      || xorb has_transition (bool_decide (is_Some (disc_transition_name e)))
      || xorb has_transition (bool_decide (is_Some (disc_source_page_type_id e)))
      || xorb has_transition (bool_decide (is_Some (disc_target_page_type_id e)))
      || some_and (bad_text MAX_TEST_EVIDENCE_DIAGNOSTIC_MESSAGE_CHARS) (disc_transition_name e)
      || some_and not_v7 (disc_source_page_type_id e)
      || some_and not_v7 (disc_target_page_type_id e)
      || (MAX_TEST_EVIDENCE_DISCOVERED_URLS <? length (discovered_urls e))%nat
      || (Z.of_nat (length (discovered_urls e)) <? eligible_link_count e)
      || (negb has_transition && (negb (per_page_limit e =? 0) || per_page_limit_reached e))
      || (has_transition && (per_page_limit e =? 0)))
    "discovery transition evidence is invalid"%string in
  let? _ := validate_if validate_page_type_match (source_match e) in
  let? _ := validate_selector_coverage (disc_selector e) in
  for_each validate_discovered (discovered_urls e).

Definition validate_comparison (c : TestLabComparison) (e : TestEvidence) : result string unit :=
  let? _ := reject_if (bool_decide (draft_version_id c <> ev_crawler_version_id e)
      || negb (String.eqb (draft_config_hash c) (ev_config_hash e))
      || bool_decide (draft_canonicalization c <> ev_canonicalization e)
      || bool_decide (draft_page_type_match c <> ev_page_type_match e)
      || bad_hash (draft_config_hash c)
      || (MAX_TEST_EVIDENCE_INPUT_URLS <? length (draft_canonicalization c))%nat
      || (MAX_TEST_EVIDENCE_INPUT_URLS <? length (published_canonicalization c))%nat
      || (MAX_TEST_EVIDENCE_INPUT_URLS <? length (draft_page_type_match c))%nat
      || (MAX_TEST_EVIDENCE_INPUT_URLS <? length (published_page_type_match c))%nat
      || (MAX_TEST_EVIDENCE_DIAGNOSTICS <? length (comparison_warnings c))%nat)
    "Published comparison does not match evidence identity"%string in
  let? _ := for_each validate_canonicalization (draft_canonicalization c ++ published_canonicalization c) in
  let? _ := for_each validate_page_type_match (draft_page_type_match c ++ published_page_type_match c) in
  let? _ := for_each validate_diagnostic (comparison_warnings c) in
  match comparison_status c with
  | Compared =>
    let? _ := reject_if (none_or not_v7 (published_version_id c)
        || none_or bad_hash (published_config_hash c))
      "Published comparison identity is incomplete"%string in
    reject_if (xorb (canonicalization_difference c)
          (bool_decide (draft_canonicalization c <> published_canonicalization c))
        || Bool.eqb (page_type_match_difference c)
          (page_type_match_sequences_behaviorally_equivalent (draft_page_type_match c)
            (published_page_type_match c)))
      "Published comparison differences are inconsistent"%string
  | NoActivePublishedVersion =>
    reject_if (bool_decide (is_Some (published_version_id c))
        || bool_decide (is_Some (published_config_hash c))
        || negb (Nat.eqb (length (published_canonicalization c)) 0)
        || negb (Nat.eqb (length (published_page_type_match c)) 0)
        || canonicalization_difference c
        || page_type_match_difference c
        || bool_decide (is_Some (discovery_difference c))
        || bool_decide (is_Some (extraction_difference c)))
      "no-Published comparison has Published identity"%string
  end.

(** [strings.windows(2).all(|w| w[0] < w[1])] *)
Fixpoint windows_increasing (l : list string) : bool :=
  match l with
  | a :: (b :: _) as l' => match String.compare a b with Lt => windows_increasing l' | _ => false end
  | _ => true
  end.

Definition is_sorted_unique {k} (ids : list (typed_id k)) : bool :=
  let strings := map id_to_string ids in
  windows_increasing strings
  && Nat.eqb (size (list_to_set strings : gset string)) (length strings).

(** The [match] on the test kind. *)
Definition incomplete (e : TestEvidence) : option string :=
  match ev_test_kind e with
  | TestExtraction =>
    if bool_decide (ev_extraction e = None) then Some "extraction evidence is incomplete"%string else None
  | TestDiscoveryTransition =>
    if none_or (fun d => bool_decide (disc_transition_id d <> ev_tested_transition_id e)) (ev_discovery e)
    then Some "transition evidence is incomplete"%string else None
  | TestDiscoveredUrlPreview =>
    if none_or (fun d => bool_decide (is_Some (disc_transition_id d))
        || bool_decide (is_Some (disc_transition_name d))
        || bool_decide (is_Some (disc_source_page_type_id d))
        || bool_decide (is_Some (disc_target_page_type_id d))) (ev_discovery e)
    then Some "discovered URL preview evidence is incomplete"%string else None
  | _ => None
  end.

Definition page_type_is_required (k : TestKind) : bool :=
  match k with TestExtraction | TestSelectorCoverage => true | _ => false end.
Definition page_type_is_allowed (k : TestKind) : bool :=
  match k with
  | TestPageTypeMatching | TestExtraction | TestSelectorCoverage | TestCombinedUrlEvaluation => true
  | _ => false
  end.

Definition evidence_validate (self : TestEvidence) : result string unit :=
  let? _ := reject_if (negb (ev_schema_version self =? TEST_EVIDENCE_SCHEMA_VERSION))
    "unsupported TestEvidence schema version"%string in
  let? _ := reject_if (not_v7 (ev_id self) || not_v7 (ev_crawler_version_id self)
      || some_and not_v7 (ev_evaluated_page_type_id self)
      || some_and not_v7 (ev_tested_transition_id self)
      || existsb not_v7 (ev_artifact_ids self))
    "TestEvidence contains an invalid UUIDv7 identity"%string in
  let? _ := reject_if (Nat.eqb (length (ev_input_urls self)) 0
      || (MAX_TEST_EVIDENCE_INPUT_URLS <? length (ev_input_urls self))%nat)
    "TestEvidence input URL count is outside its bounded range"%string in
  let? _ := reject_if (existsb (bad_text MAX_TEST_EVIDENCE_URL_CHARS) (ev_input_urls self))
    "TestEvidence contains an invalid input URL"%string in
  let? _ := reject_if (bad_hash (ev_config_hash self))
    "TestEvidence config hash is not a SHA-256 hex value"%string in
  let? _ := reject_if (blank (ev_executed_at self) || has_control (ev_executed_at self))
    "TestEvidence execution timestamp is invalid"%string in
  let? _ := reject_if ((MAX_TEST_EVIDENCE_ARTIFACTS <? length (ev_artifact_ids self))%nat
      || negb (is_sorted_unique (ev_artifact_ids self)))
    "TestEvidence artifact references are not deterministic"%string in
  let page_type := bool_decide (is_Some (ev_evaluated_page_type_id self)) in
  let? _ := reject_if ((page_type_is_required (ev_test_kind self) && negb page_type)
      || (negb (page_type_is_allowed (ev_test_kind self)) && page_type))
    "TestEvidence PageType reference is inconsistent with its test kind"%string in
  let? _ := reject_if (xorb (bool_decide (ev_test_kind self = TestDiscoveryTransition))
      (bool_decide (is_Some (ev_tested_transition_id self))))
    "TestEvidence transition reference is inconsistent with its test kind"%string in
  let? _ := match incomplete self with Some e => Err e | None => Ok tt end in
  let? _ := reject_if ((MAX_TEST_EVIDENCE_INPUT_URLS <? length (ev_canonicalization self))%nat
      || (MAX_TEST_EVIDENCE_INPUT_URLS <? length (ev_page_type_match self))%nat
      || (MAX_TEST_EVIDENCE_INPUT_URLS <? length (ev_selector_coverage self))%nat)
    "TestEvidence observation count is outside its bounded range"%string in
  let? _ := reject_if ((MAX_TEST_EVIDENCE_DIAGNOSTICS <? length (ev_warnings self))%nat
      || (MAX_TEST_EVIDENCE_DIAGNOSTICS <? length (ev_errors self))%nat)
    "TestEvidence diagnostic count is outside its bounded range"%string in
  let? _ := for_each validate_diagnostic (ev_warnings self ++ ev_errors self) in
  let? _ := for_each validate_canonicalization (ev_canonicalization self) in
  let? _ := for_each validate_page_type_match (ev_page_type_match self) in
  let? _ := for_each validate_selector_coverage (ev_selector_coverage self) in
  let? _ := validate_if validate_pagination (ev_pagination self) in
  let? _ := validate_if validate_discovery (ev_discovery self) in
  let? _ := validate_if validate_extraction (ev_extraction self) in
  validate_if (fun c => validate_comparison c self) (ev_published_comparison self).
End test_evidence.

(** ** Specification: matches alike in behaviour *)

Section specification.
Context `{U : UuidLib}.

(** Candidates that differ in their page type's identifier at most, and in the order in
    which their patterns are listed. *)
Record same_candidate (c d : PageTypeCandidateEvidence) : Prop := {
  same_name : winner_page_type_name c = winner_page_type_name d;
  same_priority : winner_priority c = winner_priority d;
  same_kind : winner_matcher_kind c = winner_matcher_kind d;
  same_specificity : winner_specificity c = winner_specificity d;
  same_patterns : winner_matched_patterns c ≡ₚ winner_matched_patterns d
}.

Definition same_candidates (cs ds : list PageTypeCandidateEvidence) : Prop :=
  exists es, cs ≡ₚ es /\ Forall2 same_candidate es ds.

Record same_behaviour (e f : PageTypeMatchEvidence) : Prop := {
  same_decision : match_decision e = match_decision f;
  same_choice : same_candidates (match_candidates e) (match_candidates f);
  same_winner : option_Forall2 same_candidate (winner e) (winner f)
}.

(** What the contract asks of a candidate. *)
Definition storable_candidate (c : PageTypeCandidate) : Prop :=
  uuid_version (as_uuid (cand_id c)) = 7 /\
  bad_text MAX_TEST_EVIDENCE_DIAGNOSTIC_MESSAGE_CHARS (cand_name c) = false /\
  (length (cand_patterns c) <= MAX_TEST_EVIDENCE_INPUT_URLS)%nat /\
  Forall (fun p => bad_text MAX_TEST_EVIDENCE_URL_CHARS p = false) (cand_patterns c).
End specification.

(** * Theorems *)

#[export] Instance semantic_cmp_lawful : LawfulCmp semantic_cmp.
Proof.
  apply lawful_cmp_on; [apply _|]. intros [] []. unfold semantic_fields; simpl. congruence.
Qed.

Lemma sort_by_eq_iff {A} (c : A -> A -> comparison) `{!LawfulCmp c} l k :
  sort_by c l = sort_by c k <-> l ≡ₚ k.
Proof.
  split; [|apply sort_by_permutation; apply _].
  intros H. rewrite <- (sort_by_perm c l), H. apply sort_by_perm.
Qed.

Lemma Forall2_map_eq {A B} (f : A -> B) (R : A -> A -> Prop) l k :
  (forall x y, R x y <-> f x = f y) -> Forall2 R l k <-> map f l = map f k.
Proof.
  intros HR. revert k. induction l as [|x l IH]; intros [|y k]; simpl.
  - split; [done|constructor].
  - split; [inversion 1|done].
  - split; [inversion 1|done].
  - rewrite Forall2_cons, IH, HR. split; [by intros [-> ->]|by intros [= -> ->]].
Qed.

Section behaviour.
Context `{U : UuidLib}.

Lemma semantic_from_evidence_eq c d :
  same_candidate c d <-> semantic_from_evidence c = semantic_from_evidence d.
Proof.
  unfold semantic_from_evidence. destruct c as [i n p k s ps], d as [j m q k' s' qs].
  destruct s, s'; cbn. split.
  - intros [Hn Hp Hk Hs Hps]; cbn in *. simplify_eq. f_equal. by apply sort_by_permutation; [apply _|].
  - intros H. simplify_eq H. intros; simplify_eq. split; cbn; try done.
    + by destruct k, k'.
    + by apply (sort_by_eq_iff String.compare).
Qed.

Lemma same_candidates_semantic cs ds :
  same_candidates cs ds <-> map semantic_from_evidence cs ≡ₚ map semantic_from_evidence ds.
Proof.
  unfold same_candidates. split.
  - intros (es & Hp & Hs). rewrite Hp.
    apply (Forall2_map_eq semantic_from_evidence) in Hs; [by rewrite Hs|apply semantic_from_evidence_eq].
  - intros Hm. symmetry in Hm. apply Permutation_map_inv in Hm as (es & He & Hp). exists es.
    split; [done|]. apply (Forall2_map_eq semantic_from_evidence); [apply semantic_from_evidence_eq|done].
Qed.

Lemma semantic_multiset_eq cs ds :
  semantic_candidate_multiset cs = semantic_candidate_multiset ds <-> same_candidates cs ds.
Proof.
  unfold semantic_candidate_multiset.
  rewrite (sort_by_eq_iff semantic_cmp), same_candidates_semantic. done.
Qed.

Lemma semantic_winner_eq w v : semantic_winner w = semantic_winner v <-> option_Forall2 same_candidate w v.
Proof.
  unfold semantic_winner. destruct w as [c|], v as [d|]; simpl.
  - split.
    + intros Heq. constructor. apply semantic_from_evidence_eq. congruence.
    + intros Hf. inversion Hf; subst. f_equal. by apply semantic_from_evidence_eq.
  - split; [done|inversion 1].
  - split; [done|inversion 1].
  - split; [constructor|done].
Qed.

Lemma behaviorally_equivalent_iff e f : behaviorally_equivalent e f = true <-> same_behaviour e f.
Proof.
  unfold behaviorally_equivalent.
  rewrite !andb_true_iff, !bool_decide_eq_true, semantic_multiset_eq, semantic_winner_eq.
  split; [by intros [[? ?] ?]|by intros []].
Qed.

#[export] Instance same_behaviour_equivalence : Equivalence same_behaviour.
Proof.
  unfold Reflexive. split.
  - intros e. apply behaviorally_equivalent_iff. unfold behaviorally_equivalent.
    by rewrite !bool_decide_eq_true_2.
  - intros e f. rewrite <- !behaviorally_equivalent_iff. unfold behaviorally_equivalent.
    rewrite !andb_true_iff, !bool_decide_eq_true. naive_solver.
  - intros e f g. rewrite <- !behaviorally_equivalent_iff. unfold behaviorally_equivalent.
    rewrite !andb_true_iff, !bool_decide_eq_true. intros [[-> ->] ->] [[-> ->] ->]. done.
Qed.

Lemma sequences_equivalent_iff ls rs :
  page_type_match_sequences_behaviorally_equivalent ls rs = true <-> Forall2 same_behaviour ls rs.
Proof.
  unfold page_type_match_sequences_behaviorally_equivalent.
  rewrite andb_true_iff, Nat.eqb_eq. revert rs. induction ls as [|l ls IH]; intros [|r rs]; simpl.
  - split; [constructor|done].
  - split; [by intros [? _]|inversion 1].
  - split; [by intros [? _]|inversion 1].
  - rewrite Forall2_cons, <- IH, andb_true_iff, behaviorally_equivalent_iff. naive_solver.
Qed.
End behaviour.

Section contract.
Context `{U : UuidLib} `{L : UrlLib} `{R : RegexLib}.

(** C37. Evidence is compared by behaviour.  The comparison holds exactly when the two
    matches have the same decision, and the same candidates and winner up to the
    identifiers of the page types, the order of the candidates and the order of each
    candidate's patterns; it is an equivalence, and of sequences of matches it is the
    pointwise one. *)
Theorem behaviour_comparison_exact :
  (forall e f, behaviorally_equivalent e f = true <-> same_behaviour e f) /\
  Equivalence same_behaviour /\
  (forall ls rs, page_type_match_sequences_behaviorally_equivalent ls rs = true <->
    Forall2 same_behaviour ls rs).
Proof.
  split; [apply behaviorally_equivalent_iff|]. split; [apply _|]. apply sequences_equivalent_iff.
Qed.

Lemma validate_candidate_ok c :
  validate_page_type_candidate (from_candidate c) = Ok tt <-> storable_candidate c.
Proof.
  unfold validate_page_type_candidate, storable_candidate, not_v7, from_candidate.
  cbn [winner_page_type_id winner_page_type_name winner_matched_patterns].
  rewrite reject_if_ok, !orb_false_iff, negb_false_iff, Z.eqb_eq, Nat.ltb_ge.
  rewrite Forall_forall. split.
  - intros [[[? ?] ?] Hp]. split_and!; try done. intros p Hin.
    apply not_true_iff_false. intros Hb. apply not_true_iff_false in Hp. apply Hp.
    apply existsb_exists. exists p. split; [by apply list_elem_of_In|done].
  - intros (? & ? & ? & Hp). split_and!; try done. apply not_true_iff_false.
    intros (p & Hin & Hb)%existsb_exists. apply list_elem_of_In in Hin. by rewrite (Hp p Hin) in Hb.
Qed.

(** The evidence of a resolution passes its own contract exactly when each of the best
    candidates has an identifier of version 7, a bounded name and at most eight bounded
    patterns. *)
Theorem resolution_evidence_valid_iff (u : url) (pts : list PageType) :
  validate_page_type_match (from_decision (resolve_page_type u pts)) = Ok tt <->
  match resolve_page_type u pts with
  | Unmatched => True
  | Matched c => storable_candidate c
  | Ambiguous cs => Forall storable_candidate cs
  end.
Proof.
  destruct (resolve_cases u pts) as [[-> _]|[(c & -> & _)|(c & d & l & -> & _)]];
    unfold validate_page_type_match; cbn -[validate_page_type_candidate for_each].
  - done.
  - rewrite <- validate_candidate_ok. simpl.
    destruct (validate_page_type_candidate (from_candidate c)) as [[]|]; [|done]. simpl.
    rewrite bool_decide_eq_false_2 by tauto. done.
  - change (from_candidate c :: from_candidate d :: map from_candidate l)
      with (map from_candidate (c :: d :: l)).
    transitivity (for_each validate_page_type_candidate (map from_candidate (c :: d :: l)) = Ok tt).
    + destruct (for_each validate_page_type_candidate (map from_candidate (c :: d :: l))) as [[]|]; [|done].
      done.
    + rewrite for_each_ok. change (map from_candidate (c :: d :: l)) with (from_candidate <$> (c :: d :: l)).
      rewrite Forall_fmap. apply Forall_iff. intros x. apply validate_candidate_ok.
Qed.

(** A stored comparison is exact.  Evidence that passes its contract compares its own
    version, hash, canonicalizations and matches; against a published version, the flags
    say exactly whether the canonicalizations are unequal and whether some match differs
    in behaviour; without one, nothing of a published version is recorded. *)
Theorem stored_comparison_exact (e : TestEvidence) (c : TestLabComparison)
    (H : evidence_validate e = Ok tt) (Hc : ev_published_comparison e = Some c) :
  draft_version_id c = ev_crawler_version_id e /\ draft_config_hash c = ev_config_hash e /\
  draft_canonicalization c = ev_canonicalization e /\ draft_page_type_match c = ev_page_type_match e /\
  match comparison_status c with
  | Compared =>
    is_Some (published_version_id c) /\ is_Some (published_config_hash c) /\
    (canonicalization_difference c = true <->
      draft_canonicalization c <> published_canonicalization c) /\
    (page_type_match_difference c = true <->
      ~ Forall2 same_behaviour (draft_page_type_match c) (published_page_type_match c))
  | NoActivePublishedVersion =>
    published_version_id c = None /\ published_config_hash c = None /\
    published_canonicalization c = [] /\ published_page_type_match c = [] /\
    canonicalization_difference c = false /\ page_type_match_difference c = false /\
    discovery_difference c = None /\ extraction_difference c = None
  end.
Proof.
  assert (validate_comparison c e = Ok tt) as Hv.
  { unfold evidence_validate in H. cbv zeta in H. rewrite Hc in H.
    do 19 apply bind_ok in H as ([] & _ & H). exact H. }
  clear H Hc. unfold validate_comparison in Hv.
  apply reject_then_ok in Hv as [Hid Hv]. do 3 apply bind_ok in Hv as ([] & _ & Hv).
  rewrite !orb_false_iff, !bool_decide_eq_false, negb_false_iff, String.eqb_eq in Hid.
  destruct Hid as [[[[[[[[[H1 H2] H3] H4] _] _] _] _] _] _].
  apply dec_stable in H1, H3, H4.
  split_and!; try done. destruct (comparison_status c).
  - apply reject_then_ok in Hv as [Hi Hd]. apply reject_if_ok in Hd.
    apply orb_false_iff in Hi as [Hi1 Hi2]. apply orb_false_iff in Hd as [Hd1 Hd2].
    destruct (published_version_id c); [|done]. destruct (published_config_hash c); [|done].
    split; [by eexists|]. split; [by eexists|]. split.
    + apply xorb_eq in Hd1 as ->. by rewrite bool_decide_eq_true.
    + rewrite <- sequences_equivalent_iff.
      destruct (page_type_match_difference c),
        (page_type_match_sequences_behaviorally_equivalent _ _); try done.
  - apply reject_if_ok in Hv. rewrite !orb_false_iff, !bool_decide_eq_false, !negb_false_iff, !Nat.eqb_eq in Hv.
    destruct Hv as [[[[[[[Ha Hb] Hc] Hd] ?] ?] He] Hf].
    apply eq_None_not_Some in Ha, Hb, He, Hf.
    split_and!; try done; by apply nil_length_inv.
Qed.
End contract.

(** * Witnesses *)

Section witnesses.

Definition example_match (n : nat) : PageTypeMatchEvidence :=
  let c := {| winner_page_type_id := new_id n; winner_page_type_name := "item"; winner_priority := 1;
     winner_matcher_kind := EvidencePathPrefixOrGlob;
     winner_specificity := {| spec_matcher_kind_rank := 2; spec_literal_path_segments := 1;
       spec_explicit_query_constraints := 0; spec_literal_characters := 5;
       spec_wildcard_capture_count := 0 |};
     winner_matched_patterns := ["/items"%string] |} in
  {| match_decision := StatusMatched; winner := Some c; match_candidates := [c] |}.

Definition example_canonicalization (decisions : list CanonicalizationDecisionEvidence)
    : CanonicalizationEvidence :=
  {| evidence_original_url := "https://shop.example.com/items/42";
     evidence_canonical_url := Some "https://shop.example.com/items/42"%string;
     evidence_outcome := Canonicalized; evidence_decisions := decisions |}.

Definition example_config_hash : string :=
  "0123456789abcdef0123456789abcdef0123456789abcdef0123456789abcdef".

(** A draft compared with the published version it was cloned from: the page types have
    other identifiers, and one canonicalization has one decision more. *)
Definition example_comparison : TestLabComparison :=
  {| comparison_status := Compared; draft_version_id := new_id 2; draft_config_hash := example_config_hash;
     published_version_id := Some (new_id 1); published_config_hash := Some example_config_hash;
     canonicalization_difference := true;
     draft_canonicalization := [example_canonicalization []];
     published_canonicalization := [example_canonicalization
       [Build_CanonicalizationDecisionEvidence CodeQuerySorted None]];
     page_type_match_difference := false;
     draft_page_type_match := [example_match 3]; published_page_type_match := [example_match 4];
     discovery_difference := None; extraction_difference := None; comparison_warnings := [] |}.

Definition example_evidence : TestEvidence :=
  {| ev_schema_version := 1; ev_id := new_id 5; ev_crawler_version_id := new_id 2;
     ev_test_kind := TestCombinedUrlEvaluation;
     ev_input_urls := ["https://shop.example.com/items/42"%string];
     ev_evaluated_page_type_id := Some (new_id 3); ev_tested_transition_id := None;
     ev_canonicalization := [example_canonicalization []]; ev_page_type_match := [example_match 3];
     ev_extraction := None; ev_selector_coverage := []; ev_pagination := None; ev_discovery := None;
     ev_warnings := []; ev_errors := []; ev_artifact_ids := []; ev_config_hash := example_config_hash;
     ev_executed_at := "2026-01-01T00:00:00Z"; ev_published_comparison := Some example_comparison |}.

Lemma stored_comparison_exact_witness :
  draft_canonicalization example_comparison <> published_canonicalization example_comparison.
Proof.
  assert (evidence_validate example_evidence = Ok tt) as H by (vm_compute; reflexivity).
  destruct (stored_comparison_exact example_evidence example_comparison H eq_refl)
    as (_ & _ & _ & _ & _ & _ & Hd & _).
  apply Hd. reflexivity.
Defined.
End witnesses.
