(* ===== verification/VersionValidation.v ===== *)
(** * Validation of a version before its publication

    [crates/erabi-domain/src/version_validation.rs]: a registry of contributors, each of
    which returns bounded issues; the core contributor; and the report a publication
    decides by.  A [dyn VersionValidationContributor] is a record of its methods. *)

From S2P Require Import Prelude Externals Base Instances Settings Guardrails Canonicalization DomainScope UrlMatcher Crawler Snapshot Preview TestEvidence.

Definition MAX_VALIDATION_IDENTIFIER_CHARS : nat := 64.
Definition MAX_VALIDATION_MESSAGE_CHARS : nat := 512.
Definition MAX_VALIDATION_ISSUES_PER_CONTRIBUTOR : nat := 256.
Definition MAX_VALIDATION_ISSUES : nat := 512.
Definition MAX_VALIDATION_DETAILS : nat := 16.
Definition MAX_VALIDATION_DETAIL_CHARS : nat := 256.

(** ** The libraries used here only *)

(** [url.query_pairs_mut().append_pair(key, value)]. *)
Class UrlAppend (L : UrlLib) := url_append_pair : url -> string -> string -> url.

(** The [Debug] form of a string, which escapes by the tables of the Unicode version of
    the standard library. *)
Class DebugText := debug_str : string -> string.

(** ** Issues *)

(** [ValidationContributorKey], [ValidationIssueCode] and [ValidationSubjectKind] are texts
    that passed this check. *)
Definition identifier_byte (index : nat) (b : Z) : bool :=
  (is_ascii_alphanumeric b || (b =? 95) || (b =? 45))
  && (negb (Nat.eqb index 0) || is_ascii_alphabetic b).

Definition valid_identifier (value : string) : bool :=
  negb (str_is_empty value || (MAX_VALIDATION_IDENTIFIER_CHARS <? char_count value)%nat
    || negb (forallb (fun b => b) (imap identifier_byte (bytes value)))).

Inductive InvalidValidationIdentifier := InvalidIdentifier.

Definition validate_identifier (value : string) : result InvalidValidationIdentifier unit :=
  reject_if (negb (valid_identifier value)) InvalidIdentifier.

Inductive VersionValidationSeverity := Blocker | Warning.

#[export] Instance severity_eq_dec : EqDecision VersionValidationSeverity.
Proof. solve_decision. Defined.

Record VersionValidationSubject := { subject_kind : string; subject_id : option string }.

#[export] Instance subject_eq_dec : EqDecision VersionValidationSubject.
Proof. solve_decision. Defined.

Record VersionValidationIssue := {
  issue_code : string;
  issue_severity : VersionValidationSeverity;
  issue_contributor : option string;
  issue_message : string;
  issue_subject : option VersionValidationSubject;
  issue_details : gmap string string
}.

#[export] Instance issue_eq_dec : EqDecision VersionValidationIssue.
Proof. solve_decision. Defined.

(** The derived [Ord]: the fields in their order, a [BTreeMap] by its pairs. *)
Definition severity_rank (s : VersionValidationSeverity) : nat :=
  match s with Blocker => 0 | Warning => 1 end%nat.
Definition subject_fields (s : VersionValidationSubject) := (subject_kind s, subject_id s).
Definition subject_cmp : VersionValidationSubject -> VersionValidationSubject -> comparison :=
  cmp_on subject_fields (cmp_pair String.compare (cmp_option String.compare)).
Definition details_cmp : gmap string string -> gmap string string -> comparison :=
  cmp_on btree_to_list (cmp_list (cmp_pair String.compare String.compare)).
Definition issue_fields (i : VersionValidationIssue) :=
  (issue_code i, (severity_rank (issue_severity i), (issue_contributor i, (issue_message i,
    (issue_subject i, issue_details i))))).
Definition issue_cmp : VersionValidationIssue -> VersionValidationIssue -> comparison :=
  cmp_on issue_fields (cmp_pair String.compare (cmp_pair Nat.compare
    (cmp_pair (cmp_option String.compare) (cmp_pair String.compare
      (cmp_pair (cmp_option subject_cmp) details_cmp))))).

Definition issue_new (code : string) (severity : VersionValidationSeverity) (message : string)
    : VersionValidationIssue :=
  {| issue_code := code; issue_severity := severity; issue_contributor := None;
     issue_message := message; issue_subject := None; issue_details := ∅ |}.

Definition with_subject (s : VersionValidationSubject) (i : VersionValidationIssue)
    : VersionValidationIssue :=
  {| issue_code := issue_code i; issue_severity := issue_severity i;
     issue_contributor := issue_contributor i; issue_message := issue_message i;
     issue_subject := Some s; issue_details := issue_details i |}.

Definition with_detail (key value : string) (i : VersionValidationIssue) : VersionValidationIssue :=
  {| issue_code := issue_code i; issue_severity := issue_severity i;
     issue_contributor := issue_contributor i; issue_message := issue_message i;
     issue_subject := issue_subject i; issue_details := <[key := value]> (issue_details i) |}.

Definition attributed (contributor : string) (i : VersionValidationIssue) : VersionValidationIssue :=
  {| issue_code := issue_code i; issue_severity := issue_severity i;
     issue_contributor := Some contributor; issue_message := issue_message i;
     issue_subject := issue_subject i; issue_details := issue_details i |}.

Inductive VersionValidationContributorError := ContributionInvalid | InternalFailure.

Definition bad_detail (kv : string * string) : bool :=
  str_is_empty kv.1 || (MAX_VALIDATION_DETAIL_CHARS <? char_count kv.1)%nat
  || (MAX_VALIDATION_DETAIL_CHARS <? char_count kv.2)%nat || has_control kv.1 || has_control kv.2.

Definition validate_bounds (self : VersionValidationIssue)
    : result VersionValidationContributorError unit :=
  reject_if (bad_text MAX_VALIDATION_MESSAGE_CHARS (issue_message self)
      || (MAX_VALIDATION_DETAILS <? size (issue_details self))%nat
      || existsb bad_detail (map_to_list (issue_details self))
      || some_and (fun s => some_and (bad_text MAX_VALIDATION_DETAIL_CHARS) (subject_id s))
           (issue_subject self))
    ContributionInvalid.

Definition subject_text (s : VersionValidationSubject) : string :=
  match subject_id s with
  | Some i => (subject_kind s ++ ":" ++ i)%string
  | None => subject_kind s
  end.

Definition audit_summary (self : VersionValidationIssue) : string :=
  let subject := match issue_subject self with Some s => subject_text s | None => EmptyString end in
  if str_is_empty subject then issue_code self else (issue_code self ++ ":" ++ subject)%string.

(** ** Contexts, contributors, reports *)

Inductive VersionValidationError :=
| InvalidContributorKey
| DuplicateContributorKey (key : string)
| TooManyIssues (key : string)
| ContributorFailed (key : string)
| InvalidContribution (key : string).

Section version_validation.
Context `{U : UuidLib} `{L : UrlLib} `{H : HostLib} `{R : RegexLib} `{Hash : HashLib}.
Context `{A : !UrlAppend L} `{D : DebugText}.

Record VersionValidationContext := {
  ctx_version : CrawlerVersion;
  ctx_page_types : list PageType;
  ctx_transitions : list DiscoveryTransition;
  ctx_test_evidence : list TestEvidence;
  ctx_config_hash : string
}.

Record VersionValidationContributor := {
  contributor_key : string;
  contributor_validate : VersionValidationContext ->
    result VersionValidationContributorError (list VersionValidationIssue)
}.

Record VersionValidationReport := {
  report_version_id : CrawlerVersionId;
  report_config_hash : string;
  blockers : list VersionValidationIssue;
  warnings : list VersionValidationIssue;
  publishable : bool
}.

Definition report_new (version : CrawlerVersionId) (config_hash : string)
    (bs ws : list VersionValidationIssue) : VersionValidationReport :=
  {| report_version_id := version; report_config_hash := config_hash; blockers := bs;
     warnings := ws; publishable := match bs with [] => true | _ => false end |}.

Definition warning_summary (self : VersionValidationReport) : list string :=
  dedup String.compare (sort_by String.compare (map audit_summary (warnings self))).

(** ** The registry *)

Definition VersionValidationRegistry := list VersionValidationContributor.

Definition registry_register (contributor : VersionValidationContributor)
    (self : VersionValidationRegistry) : result VersionValidationError VersionValidationRegistry :=
  let? _ := map_err (fun _ => InvalidContributorKey) (validate_identifier (contributor_key contributor)) in
  let? _ := reject_if (existsb (fun r => String.eqb (contributor_key r) (contributor_key contributor)) self)
    (DuplicateContributorKey (contributor_key contributor)) in
  Ok (self ++ [contributor]).

Definition registry_keys (self : VersionValidationRegistry) : list string :=
  sort_by String.compare (map contributor_key self).

(** The loop over one contribution. *)
Fixpoint add_issues (key : string) (new : list VersionValidationIssue)
    (issues : list VersionValidationIssue) : result VersionValidationError (list VersionValidationIssue) :=
  match new with
  | [] => Ok issues
  | i :: new =>
    let? _ := map_err (fun _ => InvalidContribution key) (validate_bounds i) in
    let issues := issues ++ [attributed key i] in
    let? _ := reject_if (MAX_VALIDATION_ISSUES <? length issues)%nat (TooManyIssues key) in
    add_issues key new issues
  end.

Definition contribution_error (key : string) (e : VersionValidationContributorError)
    : VersionValidationError :=
  match e with
  | ContributionInvalid => InvalidContribution key
  | InternalFailure => ContributorFailed key
  end.

(** The loop over the contributors, in the order of their keys. *)
Fixpoint collect_issues (ctx : VersionValidationContext) (seen : gset string)
    (issues : list VersionValidationIssue) (contributors : list VersionValidationContributor)
    : result VersionValidationError (list VersionValidationIssue) :=
  match contributors with
  | [] => Ok issues
  | c :: contributors =>
    let key := contributor_key c in
    let? _ := reject_if (bool_decide (key ∈ seen)) (DuplicateContributorKey key) in
    let? new := map_err (contribution_error key) (contributor_validate c ctx) in
    let? _ := reject_if (MAX_VALIDATION_ISSUES_PER_CONTRIBUTOR <? length new)%nat (TooManyIssues key) in
    let? issues := add_issues key new issues in
    collect_issues ctx ({[key]} ∪ seen) issues contributors
  end.

Definition is_severity (s : VersionValidationSeverity) (i : VersionValidationIssue) : Prop :=
  issue_severity i = s.
#[global] Instance is_severity_dec s i : Decision (is_severity s i) := severity_eq_dec _ _.

Definition registry_validate (self : VersionValidationRegistry) (ctx : VersionValidationContext)
    : result VersionValidationError VersionValidationReport :=
  let? _ := for_each (fun c => map_err (fun _ => InvalidContributorKey)
    (validate_identifier (contributor_key c))) self in
  let contributors := sort_by (cmp_on contributor_key String.compare) self in
  let? issues := collect_issues ctx ∅ [] contributors in
  let issues := dedup issue_cmp (sort_by issue_cmp issues) in
  Ok (report_new (version_id (ctx_version ctx)) (ctx_config_hash ctx)
    (filter (is_severity Blocker) issues) (filter (is_severity Warning) issues)).

(** ** The core contributor *)

Definition subject (kind : string) (i : option string) : VersionValidationSubject :=
  {| subject_kind := kind; subject_id := i |}.

Definition core_issue_with_severity (code : string) (severity : VersionValidationSeverity)
    (message : string) (s : option VersionValidationSubject) : VersionValidationIssue :=
  let issue := issue_new code severity message in
  match s with Some s => with_subject s issue | None => issue end.

Definition core_issue (code message : string) (s : option VersionValidationSubject)
    : VersionValidationIssue := core_issue_with_severity code Blocker message s.

Definition core_warning_issue (code message : string) (s : option VersionValidationSubject)
    : VersionValidationIssue := core_issue_with_severity code Warning message s.

Definition core_guardrail_issue (code : ErrorCode) : VersionValidationIssue :=
  let '(code, message) := match code with
    | InvalidPageTypeBudget => ("INVALID_PAGE_TYPE_BUDGET", "A PageType budget is invalid.")
    | InvalidTransitionBudget => ("INVALID_TRANSITION_BUDGET", "A transition budget is invalid.")
    | _ => ("INVALID_CRAWLER_GUARDRAILS", "Crawler guardrails are invalid.")
    end%string in
  core_issue code message None.

Definition sha256_hex (value : string) : string := hex_encode (sha256 value).

Definition core_ambiguity_issue (version : CrawlerVersionId) (canonical_witness : string)
    : VersionValidationIssue :=
  let issue := core_issue "UNRESOLVED_PAGE_TYPE_AMBIGUITY"
    "The canonical PageType resolver has an unresolved ambiguity for a known URL."
    (Some (subject "CRAWLER_VERSION" (Some (id_to_string version)))) in
  if (char_count canonical_witness <=? MAX_VALIDATION_DETAIL_CHARS)%nat then
    with_detail "witness_url" canonical_witness issue
  else
    let prefix := of_chars (take (MAX_VALIDATION_DETAIL_CHARS - 64) (chars canonical_witness)) in
    with_detail "witness_url_sha256" (sha256_hex canonical_witness)
      (with_detail "witness_url_prefix" prefix issue).

(** *** Witnesses of ambiguity *)

(** [segment.starts_with('{') && segment.ends_with('}')], and the other segments kept. *)
Definition map_captures (replacement template : string) : string :=
  join "/" (map (fun segment =>
    if starts_with segment "{" && ends_with segment "}" then replacement else segment)
    (split_on "/" template)).

Definition normalize_template (template : string) : string := map_captures "{}" template.
Definition normalize_template_witness (template : string) : string := map_captures "witness" template.

(** The [Debug] form of the [BTreeMap] of a query. *)
Definition debug_query (query : QueryMap) : string :=
  ("{" ++ join ", " (map (fun kv => debug_str kv.1 ++ ": " ++ debug_str kv.2) query) ++ "}")%string.

Definition matcher_fingerprint (m : UrlMatcher) : string :=
  match m with
  | ExactUrl u => "EXACT_URL|" ++ url_as_str u
  | ExactHostPathTemplate host path_template query =>
    "EXACT_HOST_PATH_TEMPLATE|" ++ to_ascii_lowercase host ++ "|"
      ++ normalize_template path_template ++ "|" ++ debug_query query
  | PathPrefix host prefix =>
    "PATH_PREFIX|" ++ to_ascii_lowercase (default EmptyString host) ++ "|" ++ prefix
  | PathGlob host pattern =>
    "PATH_GLOB|" ++ to_ascii_lowercase (default EmptyString host) ++ "|" ++ pattern
  | Regex pattern => "REGEX|" ++ pattern
  end%string.

Definition path_witness (host : option string) (path : string) : option url :=
  let host := default "example.test"%string host in
  let path := if str_is_empty path then "/"%string else path in
  url_parse ("https://" ++ host ++ path).

Definition matcher_witness (m : UrlMatcher) : option url :=
  match m with
  | ExactUrl u => Some u
  | ExactHostPathTemplate host path_template query =>
    u ← url_parse ("https://" ++ host ++ normalize_template_witness path_template);
    Some (foldl (fun u kv => url_append_pair u kv.1 kv.2) u query)
  | PathPrefix host prefix => path_witness host prefix
  | PathGlob host pattern => path_witness host (str_replace "*" "witness" pattern)
  | Regex _ => None
  end.

Definition is_ambiguous (d : PageTypeMatchDecision) : bool :=
  match d with Ambiguous _ => true | _ => false end.

(** The canonical form of a text, when its resolution is ambiguous. *)
Definition ambiguous_witness (ctx : VersionValidationContext) (text : string) : option string :=
  match canonicalize (canonicalization_policy (ctx_version ctx)) text with
  | Err _ => None
  | Ok r =>
    if is_ambiguous (resolve_page_type (result_canonical_url r) (ctx_page_types ctx))
    then Some (url_as_str (result_canonical_url r)) else None
  end.

Fixpoint pairs_after {T} (l : list T) : list (T * T) :=
  match l with [] => [] | x :: l' => map (pair x) l' ++ pairs_after l' end.

Definition matchers_overlap (l r : UrlMatcher) : bool :=
  negb (bool_decide (kind l = KindRegex) || bool_decide (kind r = KindRegex)
    || bool_decide (specificity l <> specificity r)
    || negb (String.eqb (matcher_fingerprint l) (matcher_fingerprint r))).

Definition pair_witnesses (ctx : VersionValidationContext) (p : PageType * PageType) : list string :=
  if negb (pt_priority p.1 =? pt_priority p.2) then [] else
  l ← pt_matchers p.1; r ← pt_matchers p.2;
  if matchers_overlap l r then
    match matcher_witness l with
    | Some w => option_list (ambiguous_witness ctx (url_as_str w))
    | None => []
    end
  else [].

Definition enabled_seeds (v : CrawlerVersion) : list Seed :=
  filter (fun s => enabled s = true) (version_seeds v).

Definition design_time_ambiguity_witnesses (ctx : VersionValidationContext) : gset string :=
  list_to_set (omap (fun s => ambiguous_witness ctx (url_as_str (original_url s)))
      (enabled_seeds (ctx_version ctx))
    ++ (p ← pairs_after (ctx_page_types ctx); pair_witnesses ctx p)).

(** *** The checks, in their order *)

Definition issue_if (bad : bool) (i : VersionValidationIssue) : list VersionValidationIssue :=
  if bad then [i] else [].

Definition seed_subject (s : Seed) : option VersionValidationSubject :=
  Some (subject "SEED" (Some (id_to_string (seed_id s)))).

Definition core_seed_issues (v : CrawlerVersion) : list VersionValidationIssue :=
  issue_if (bool_decide (enabled_seeds v = []))
    (core_issue "NO_ENABLED_SEED" "CrawlerVersion must contain at least one enabled Seed." None).

Definition core_canonicalization_issues (v : CrawlerVersion) : list VersionValidationIssue :=
  if is_err (canon_validate (canonicalization_policy v)) then
    [core_issue "INVALID_CANONICALIZATION" "The canonicalization policy is invalid." None]
  else
    s ← enabled_seeds v;
    match canonicalize (canonicalization_policy v) (url_as_str (original_url s)) with
    | Err _ => [core_issue "INVALID_SEED_CANONICALIZATION"
        "An enabled Seed cannot be canonicalized by the version policy." (seed_subject s)]
    | Ok r => issue_if (bool_decide (result_canonical_url r <> canonical_url s))
        (core_issue "INVALID_SEED_CANONICALIZATION"
          "An enabled Seed canonical URL does not match the version policy." (seed_subject s))
    end.

(** [page_type_ids.contains(&id.to_string())] *)
Definition known_page_type (ctx : VersionValidationContext) (i : PageTypeId) : bool :=
  bool_decide (id_to_string i ∈
    (list_to_set (map (fun p => id_to_string (pt_id p)) (ctx_page_types ctx)) : gset string)).

Definition core_hint_issues (ctx : VersionValidationContext) : list VersionValidationIssue :=
  s ← version_seeds (ctx_version ctx);
  issue_if (some_and (fun i => negb (known_page_type ctx i)) (entry_page_type_hint s))
    (core_issue "MISSING_SEED_PAGE_TYPE"
      "A Seed PageType hint must reference a PageType owned by the version." (seed_subject s)).

Definition page_type_subject (i : PageTypeId) : option VersionValidationSubject :=
  Some (subject "PAGETYPE" (Some (id_to_string i))).

Definition core_matcher_issues (ctx : VersionValidationContext) : list VersionValidationIssue :=
  p ← ctx_page_types ctx; m ← pt_matchers p;
  issue_if (is_err (validate_definition m))
    (core_issue "INVALID_MATCHER_SYNTAX" "A PageType contains an invalid URL matcher definition."
      (page_type_subject (pt_id p))).

Definition core_scope_issues (v : CrawlerVersion) : list VersionValidationIssue :=
  issue_if (is_err (scope_validate (domain_scope v)))
    (core_issue "INVALID_DOMAIN_SCOPE" "The Domain Scope policy is invalid." None).

Definition core_guardrail_issues (ctx : VersionValidationContext) : list VersionValidationIssue :=
  let guardrails := version_guardrails (ctx_version ctx) in
  match guardrails_validate guardrails with
  | Ok _ =>
    b ← guardrails_page_types guardrails;
    issue_if (negb (known_page_type ctx (page_type_id b)))
      (core_issue "INVALID_PAGE_TYPE_BUDGET"
        "A PageType budget references a PageType outside the version." (page_type_subject (page_type_id b)))
  | Err e => [core_guardrail_issue (code e)]
  end.

Definition transition_subject (t : DiscoveryTransition) : option VersionValidationSubject :=
  Some (subject "TRANSITION" (Some (id_to_string (transition_id t)))).

Definition transition_code (e : ProductError) : string :=
  match code e with
  | InvalidTransitionBudget => "INVALID_TRANSITION_BUDGET"
  | _ => "INVALID_DISCOVERY_TRANSITION"
  end.

Definition core_transition_issues (ctx : VersionValidationContext) : list VersionValidationIssue :=
  t ← ctx_transitions ctx;
  issue_if (negb (known_page_type ctx (source_page_type_id t)))
    (core_issue "MISSING_TRANSITION_SOURCE_PAGETYPE"
      "A DiscoveryTransition source PageType is missing from the version." (transition_subject t))
  ++ issue_if (negb (known_page_type ctx (target_page_type_id t)))
    (core_issue "MISSING_TRANSITION_TARGET_PAGETYPE"
      "A DiscoveryTransition target PageType is missing from the version." (transition_subject t))
  ++ match transition_validate t with
     | Ok _ => []
     | Err e => [core_issue (transition_code e) "A DiscoveryTransition or its budget is invalid."
         (transition_subject t)]
     end.

Definition core_ambiguity_issues (ctx : VersionValidationContext) : list VersionValidationIssue :=
  map (core_ambiguity_issue (version_id (ctx_version ctx)))
    (btree_elements (design_time_ambiguity_witnesses ctx)).

Definition page_type_evidence_kind (k : TestKind) : bool :=
  match k with
  | TestPageTypeMatching | TestExtraction | TestSelectorCoverage | TestCombinedUrlEvaluation => true
  | _ => false
  end.

(** Evidence of this version and configuration. *)
Definition current_evidence (ctx : VersionValidationContext) (e : TestEvidence) : bool :=
  bool_decide (ev_crawler_version_id e = version_id (ctx_version ctx))
  && String.eqb (ev_config_hash e) (ctx_config_hash ctx).

Definition evaluates_page_type (ctx : VersionValidationContext) (p : PageType) (e : TestEvidence) : bool :=
  current_evidence ctx e && page_type_evidence_kind (ev_test_kind e)
  && bool_decide (ev_evaluated_page_type_id e = Some (pt_id p)).

Definition core_page_type_warnings (ctx : VersionValidationContext) : list VersionValidationIssue :=
  p ← ctx_page_types ctx;
  let current := filter (fun e => evaluates_page_type ctx p e = true) (ctx_test_evidence ctx) in
  let observations := current ≫= ev_selector_coverage in
  let saw s := existsb (fun o => bool_decide (coverage_status o = s)) observations in
  issue_if (bool_decide (current = []))
    (core_warning_issue "PAGE_TYPE_TEST_EVIDENCE_MISSING"
      "No current TestEvidence evaluates this PageType configuration." (page_type_subject (pt_id p)))
  ++ issue_if (saw NoMatches && negb (saw Observed))
    (core_warning_issue "SELECTOR_COVERAGE_UNUSABLE"
      "Current selector observations report no usable matches." (page_type_subject (pt_id p))).

Definition evaluates_transition (ctx : VersionValidationContext) (t : DiscoveryTransition)
    (e : TestEvidence) : bool :=
  current_evidence ctx e && bool_decide (ev_test_kind e = TestDiscoveryTransition)
  && bool_decide (ev_tested_transition_id e = Some (transition_id t))
  && some_and (fun d => bool_decide (disc_transition_id d = Some (transition_id t))) (ev_discovery e).

Definition core_transition_warnings (ctx : VersionValidationContext) : list VersionValidationIssue :=
  t ← ctx_transitions ctx;
  issue_if (negb (existsb (evaluates_transition ctx t) (ctx_test_evidence ctx)))
    (core_warning_issue "TRANSITION_TEST_EVIDENCE_MISSING"
      "No current TestEvidence evaluates this DiscoveryTransition configuration." (transition_subject t)).

Definition core_validate (ctx : VersionValidationContext)
    : result VersionValidationContributorError (list VersionValidationIssue) :=
  Ok (core_seed_issues (ctx_version ctx) ++ core_canonicalization_issues (ctx_version ctx)
    ++ core_hint_issues ctx ++ core_matcher_issues ctx ++ core_scope_issues (ctx_version ctx)
    ++ core_guardrail_issues ctx ++ core_transition_issues ctx ++ core_ambiguity_issues ctx
    ++ core_page_type_warnings ctx ++ core_transition_warnings ctx).

Definition core_contributor : VersionValidationContributor :=
  {| contributor_key := "core"; contributor_validate := core_validate |}.

Definition registry_new : VersionValidationRegistry := [core_contributor].
End version_validation.
