(* ===== verification/ValidationTheorems.v ===== *)
(** * Theorems about the validation of a version

    What the registry of [VersionValidation.v] promises whatever its contributors do, and
    what the core contributor decides. *)

From S2P Require Import Prelude Externals Base Instances Settings Guardrails Canonicalization DomainScope UrlMatcher Crawler Snapshot Preview TestEvidence VersionValidation.

(** ** Sorting and deduplication *)

Lemma StronglySorted_filter {A} (R : A -> A -> Prop) (P : A -> Prop) `{!forall x, Decision (P x)} l :
  StronglySorted R l -> StronglySorted R (filter P l).
Proof.
  induction 1 as [|x l Hl IH Hx]; [constructor|]. rewrite filter_cons. destruct (decide (P x)); [|done].
  constructor; [done|]. rewrite Forall_forall in *. intros y [_ Hy]%list_elem_of_filter. by apply Hx.
Qed.

Lemma dedup_length {A} (c : A -> A -> comparison) l : (length (dedup c l) <= length l)%nat.
Proof.
  induction l as [|x l IH]; [done|]. simpl. destruct (dedup c l) as [|y k]; simpl in *; [lia|].
  destruct (c x y); simpl; lia.
Qed.

Lemma dedup_strict {A} (c : A -> A -> comparison) `{!LawfulCmp c} l :
  StronglySorted (cmp_le c) l -> StronglySorted (fun x y => c x y = Lt) (dedup c l).
Proof.
  induction 1 as [|x l Hl IH Hx]; [constructor|]. simpl.
  pose proof (fun y => proj1 (elem_of_dedup c y l)) as Hin.
  destruct (dedup c l) as [|y k]; [repeat constructor|].
  assert (c x y <> Gt) as Hxy.
  { rewrite Forall_forall in Hx. apply Hx, Hin. left. }
  apply StronglySorted_inv in IH as [Hk Hy].
  destruct (c x y) eqn:Hc; [| |done].
  - apply cmp_eq in Hc as ->. by constructor.
  - constructor; [by constructor|]. constructor; [done|].
    rewrite Forall_forall in *. intros z Hz. specialize (Hy z Hz).
    destruct (c x z) eqn:Hxz; [|done|].
    + apply cmp_eq in Hxz as ->. rewrite (cmp_opp (c := c) z y), Hy in Hc. done.
    + exfalso. apply (cmp_le_trans (c := c) x y z); [by rewrite Hc|by rewrite Hy|done].
Qed.

#[export] Instance subject_cmp_lawful : LawfulCmp subject_cmp.
Proof. apply lawful_cmp_on; [apply _|]. intros [] []. unfold subject_fields; simpl. congruence. Qed.

#[export] Instance details_cmp_lawful : LawfulCmp details_cmp.
Proof.
  apply lawful_cmp_on; [apply _|]. intros m n Heq. apply map_to_list_inj.
  unfold btree_to_list in Heq.
  rewrite <- (sort_by_perm (cmp_on fst String.compare) (map_to_list m)), Heq. apply sort_by_perm.
Qed.

#[export] Instance issue_cmp_lawful : LawfulCmp issue_cmp.
Proof.
  apply lawful_cmp_on; [apply _|]. intros [] []. unfold issue_fields; simpl. intros Heq. simplify_eq Heq.
  intros. destruct issue_severity, issue_severity0; simplify_eq/=; done.
Qed.

(** ** Registries *)

Section registry.
Context `{U : UuidLib} `{L : UrlLib} `{H : HostLib} `{R : RegexLib} `{Hash : HashLib}.
Context `{A : !UrlAppend L} `{D : DebugText}.

(** The registries a runtime can build. *)
Inductive registered : VersionValidationRegistry -> Prop :=
| registered_new : registered registry_new
| registered_more r c r' : registered r -> registry_register c r = Ok r' -> registered r'.

Lemma registered_keys r : registered r ->
  NoDup (map contributor_key r) /\ Forall (fun c => valid_identifier (contributor_key c) = true) r.
Proof.
  induction 1 as [|r c r' _ [Hnd Hv] Hr].
  - split; [|by repeat constructor]. apply NoDup_singleton.
  - unfold registry_register in Hr. apply bind_ok in Hr as ([] & Hk & Hr).
    apply reject_then_ok in Hr as [Hd [= <-]].
    destruct (validate_identifier (contributor_key c)) as [[]|] eqn:Hvc; [|done].
    apply reject_if_ok, negb_false_iff in Hvc. split.
    + rewrite map_app. apply NoDup_app. split; [done|]. split; [|apply NoDup_singleton].
      intros k Hk'%list_elem_of_fmap Hc%list_elem_of_singleton. subst k.
      destruct Hk' as (x & Hx & Hin). apply not_true_iff_false in Hd. apply Hd.
      apply existsb_exists. exists x. split; [by apply list_elem_of_In|]. apply String.eqb_eq. done.
    + apply Forall_app. by split; [|repeat constructor].
Qed.

(** What a contributor adds. *)
Definition contributed (ctx : VersionValidationContext) (c : VersionValidationContributor)
    : list VersionValidationIssue :=
  match contributor_validate c ctx with
  | Ok new => map (attributed (contributor_key c)) new
  | Err _ => []
  end.

Definition contributes (ctx : VersionValidationContext) (c : VersionValidationContributor) : Prop :=
  exists new, contributor_validate c ctx = Ok new /\
    (length new <= MAX_VALIDATION_ISSUES_PER_CONTRIBUTOR)%nat /\
    Forall (fun i => validate_bounds i = Ok tt) new.

Lemma add_issues_ok key new issues r : add_issues key new issues = Ok r ->
  Forall (fun i => validate_bounds i = Ok tt) new /\ r = issues ++ map (attributed key) new /\
  ((length issues <= MAX_VALIDATION_ISSUES)%nat -> (length r <= MAX_VALIDATION_ISSUES)%nat).
Proof.
  revert issues. induction new as [|i new IH]; intros issues; simpl.
  - intros [= <-]. by rewrite app_nil_r.
  - intros (u & Hb & Hr)%bind_ok. apply reject_then_ok in Hr as [Hl Hr].
    apply IH in Hr as (Hf & -> & Hn). apply Nat.ltb_ge in Hl.
    destruct (validate_bounds i) as [[]|] eqn:Hi; [|done].
    split; [by constructor|]. rewrite <- app_assoc. split; [done|]. intros _.
    rewrite <- app_assoc in Hn. by apply Hn.
Qed.

Lemma collect_issues_ok ctx seen issues cs r : collect_issues ctx seen issues cs = Ok r ->
  Forall (contributes ctx) cs /\ r = issues ++ (cs ≫= contributed ctx) /\
  ((length issues <= MAX_VALIDATION_ISSUES)%nat -> (length r <= MAX_VALIDATION_ISSUES)%nat).
Proof.
  revert seen issues. induction cs as [|c cs IH]; intros seen issues; simpl.
  - intros [= <-]. by rewrite app_nil_r.
  - intros (_ & Hr)%reject_then_ok. apply bind_ok in Hr as (new & Hnew & Hr).
    apply reject_then_ok in Hr as [Hl Hr]. apply Nat.ltb_ge in Hl.
    apply bind_ok in Hr as (issues' & Ha & Hr).
    apply add_issues_ok in Ha as (Hf & -> & Hn). apply IH in Hr as (Hc & -> & Hn').
    destruct (contributor_validate c ctx) as [new'|] eqn:Hv; [|done]. injection Hnew as ->.
    split; [constructor; [by exists new|done]|]. unfold contributed at 2. rewrite Hv, app_assoc.
    split; [done|]. auto.
Qed.

(** The issues a report is made of. *)
Lemma registry_validate_ok r ctx report : registry_validate r ctx = Ok report ->
  exists issues, Forall (contributes ctx) r /\
    issues ≡ₚ (r ≫= contributed ctx) /\ (length issues <= MAX_VALIDATION_ISSUES)%nat /\
    report = report_new (version_id (ctx_version ctx)) (ctx_config_hash ctx)
      (filter (is_severity Blocker) (dedup issue_cmp (sort_by issue_cmp issues)))
      (filter (is_severity Warning) (dedup issue_cmp (sort_by issue_cmp issues))).
Proof.
  unfold registry_validate. intros (u & _ & Hr)%bind_ok. cbv zeta in Hr.
  apply bind_ok in Hr as (issues & Hc & [= <-]).
  apply collect_issues_ok in Hc as (Hf & -> & Hn). simpl in *. eexists. split; [|split; [|split; [|done]]].
  - by rewrite (sort_by_perm (cmp_on contributor_key String.compare) r) in Hf.
  - by rewrite (sort_by_perm (cmp_on contributor_key String.compare) r).
  - apply Hn. unfold MAX_VALIDATION_ISSUES. lia.
Qed.

Lemma elem_of_report r ctx report i : registry_validate r ctx = Ok report ->
  i ∈ blockers report ++ warnings report <-> exists c, c ∈ r /\ i ∈ contributed ctx c.
Proof.
  intros (issues & _ & Hp & _ & ->)%registry_validate_ok. simpl.
  rewrite elem_of_app, !list_elem_of_filter, elem_of_dedup, elem_of_sort_by, Hp, list_elem_of_bind by apply _.
  unfold is_severity. destruct (issue_severity i); naive_solver.
Qed.

Lemma report_publishable r ctx report : registry_validate r ctx = Ok report ->
  publishable report = true <->
  forall c i, c ∈ r -> i ∈ contributed ctx c -> issue_severity i = Warning.
Proof.
  intros (issues & _ & Hp & _ & ->)%registry_validate_ok. simpl.
  assert (Hin : forall i, i ∈ dedup issue_cmp (sort_by issue_cmp issues) <->
    exists c, c ∈ r /\ i ∈ contributed ctx c).
  { intros i. rewrite elem_of_dedup, elem_of_sort_by, Hp, list_elem_of_bind by apply _. naive_solver. }
  destruct (filter (is_severity Blocker) _) as [|b bs] eqn:Hf.
  - split; [|done]. intros _ c i Hc Hi. destruct (issue_severity i) eqn:Hs; [exfalso|done].
    assert (i ∈ filter (is_severity Blocker) (dedup issue_cmp (sort_by issue_cmp issues))) as Hx.
    { apply list_elem_of_filter. split; [done|]. apply Hin. by exists c. }
    rewrite Hf in Hx. by apply not_elem_of_nil in Hx.
  - split; [done|]. intros Hw. exfalso.
    assert (b ∈ filter (is_severity Blocker) (dedup issue_cmp (sort_by issue_cmp issues))) as Hb
      by (rewrite Hf; left).
    apply list_elem_of_filter in Hb as [Hb (c & Hc & Hi)%Hin]. unfold is_severity in Hb.
    specialize (Hw c b Hc Hi). congruence.
Qed.

(** A report is normalized.  Whatever contributors a runtime registered, the blockers and
    the warnings of a report are strictly sorted, so that none is repeated; together they
    are exactly the issues contributed, each attributed to its contributor and within its
    bounds, at most 512 of them; and the version may be published exactly when no
    contributor found a blocker. *)
Theorem report_is_normalized r ctx report (Hreg : registered r)
    (Hrep : registry_validate r ctx = Ok report) :
  StronglySorted (fun i j => issue_cmp i j = Lt) (blockers report) /\
  StronglySorted (fun i j => issue_cmp i j = Lt) (warnings report) /\
  (length (blockers report) + length (warnings report) <= MAX_VALIDATION_ISSUES)%nat /\
  (forall i, i ∈ blockers report ++ warnings report <->
    exists c new j, c ∈ r /\ contributor_validate c ctx = Ok new /\ j ∈ new /\
      validate_bounds j = Ok tt /\ i = attributed (contributor_key c) j) /\
  Forall (is_severity Blocker) (blockers report) /\ Forall (is_severity Warning) (warnings report) /\
  (publishable report = true <-> blockers report = []).
Proof.
  pose proof (fun i => elem_of_report r ctx report i Hrep) as Hin.
  apply registry_validate_ok in Hrep as (issues & Hc & Hp & Hn & ->). cbn -[issue_cmp] in *.
  set (sorted := dedup issue_cmp (sort_by issue_cmp issues)) in *.
  assert (StronglySorted (fun i j => issue_cmp i j = Lt) sorted) as Hs.
  { apply dedup_strict; [apply _|]. apply sort_by_Sorted. apply _. }
  split; [by apply StronglySorted_filter|]. split; [by apply StronglySorted_filter|]. split; [|split; [|split; [|split]]].
  - pose proof (dedup_length issue_cmp (sort_by issue_cmp issues)) as Hd. fold sorted in Hd.
    rewrite sort_by_length in Hd.
    assert (length (filter (is_severity Blocker) sorted) + length (filter (is_severity Warning) sorted)
      <= length sorted)%nat; [|lia].
    clear. induction sorted as [|i l IH]; [done|]. rewrite !filter_cons.
    destruct (decide (is_severity Blocker i)) as [Hb|], (decide (is_severity Warning i)) as [Hw|];
      simpl; try lia. unfold is_severity in *. congruence.
  - intros i. rewrite Hin. unfold contributed. split.
    + intros (c & Hcr & Hi). rewrite Forall_forall in Hc. destruct (Hc c Hcr) as (new & Hv & _ & Hb).
      rewrite Hv in Hi. apply list_elem_of_fmap in Hi as (j & -> & Hj).
      rewrite Forall_forall in Hb. exists c, new, j. split_and!; try done. by apply Hb.
    + intros (c & new & j & Hcr & Hv & Hj & _ & ->). exists c. split; [done|]. rewrite Hv.
      by apply list_elem_of_fmap_2.
  - apply Forall_forall. by intros i [Hi _]%list_elem_of_filter.
  - apply Forall_forall. by intros i [Hi _]%list_elem_of_filter.
  - by destruct (filter (is_severity Blocker) sorted).
Qed.

(** The errors a contributor causes, as opposed to those of the registry itself. *)
Definition contributor_fault (e : VersionValidationError) : Prop :=
  match e with
  | TooManyIssues _ | ContributorFailed _ | InvalidContribution _ => True
  | InvalidContributorKey | DuplicateContributorKey _ => False
  end.

Lemma add_issues_err key new issues e : add_issues key new issues = Err e -> contributor_fault e.
Proof.
  revert issues. induction new as [|i new IH]; intros issues; simpl; [done|].
  destruct (validate_bounds i); simpl; [|by intros [= <-]].
  destruct (_ <? _)%nat; simpl; [by intros [= <-]|apply IH].
Qed.

Lemma collect_issues_err ctx seen issues cs e :
  NoDup (map contributor_key cs) -> Forall (fun c => contributor_key c ∉ seen) cs ->
  collect_issues ctx seen issues cs = Err e -> contributor_fault e.
Proof.
  revert seen issues. induction cs as [|c cs IH]; intros seen issues Hnd Hs; simpl; [done|].
  apply NoDup_cons in Hnd as [Hc Hnd]. apply Forall_cons in Hs as [Hs Hs'].
  rewrite (bool_decide_eq_false_2 _ Hs). simpl.
  destruct (contributor_validate c ctx) as [new|[]]; [|by intros [= <-]..]. simpl.
  destruct (_ <? _)%nat; simpl; [by intros [= <-]|].
  destruct (add_issues _ _ _) as [r|e'] eqn:Ha; [|by intros [= <-]; eapply add_issues_err].
  apply IH; [done|]. rewrite Forall_forall in *. intros x Hx [Heq%elem_of_singleton|Hin]%elem_of_union.
  - apply Hc. rewrite <- Heq. by apply (list_elem_of_fmap_2 contributor_key).
  - by apply (Hs' x Hx).
Qed.

(** The order in which contributors were registered does not matter: the report, or the
    error, of a registry that a runtime can build is that of each of its permutations, and
    an error is always the fault of a contributor, never of the registry. *)
Theorem registration_order_irrelevant r r' ctx (Hreg : registered r) (Hp : r ≡ₚ r') :
  registry_validate r' ctx = registry_validate r ctx /\
  (forall e, registry_validate r ctx = Err e -> contributor_fault e).
Proof.
  apply registered_keys in Hreg as [Hnd Hv].
  assert (Hkeys : forall q, r ≡ₚ q -> for_each (fun c => map_err (fun _ => InvalidContributorKey)
    (validate_identifier (contributor_key c))) q = Ok tt).
  { intros q Hq. apply for_each_ok. rewrite Hq in Hv. eapply Forall_impl; [exact Hv|].
    intros c Hc. unfold validate_identifier. by rewrite Hc. }
  assert (sort_by (cmp_on contributor_key String.compare) r'
    = sort_by (cmp_on contributor_key String.compare) r) as Hs.
  { symmetry. apply sort_by_key_permutation; [apply _|done|done]. }
  unfold registry_validate. rewrite (Hkeys r' Hp), (Hkeys r (Permutation_refl r)), Hs. cbv zeta.
  split; [done|]. intros e.
  destruct (collect_issues _ _ _ _) as [|e'] eqn:Hc; [done|]. intros [= <-].
  apply collect_issues_err in Hc; [done| |].
  - by rewrite (sort_by_perm (cmp_on contributor_key String.compare) r).
  - apply Forall_forall. intros c _. apply not_elem_of_empty.
Qed.
End registry.

(** ** The core contributor *)

Section core.
Context `{U : UuidLib} `{UL : !UuidLaws U} `{L : UrlLib} `{H : HostLib} `{R : RegexLib} `{Hash : HashLib}.
Context `{A : !UrlAppend L} `{D : DebugText}.

Definition page_types_of (ctx : VersionValidationContext) : list PageTypeId :=
  map pt_id (ctx_page_types ctx).

(** A text whose canonical form has one page type at most. *)
Definition resolves (ctx : VersionValidationContext) (text : string) : Prop :=
  forall r, canonicalize (canonicalization_policy (ctx_version ctx)) text = Ok r ->
    is_ambiguous (resolve_page_type (result_canonical_url r) (ctx_page_types ctx)) = false.

(** What the core contributor requires of a version. *)
Record publishable_version (ctx : VersionValidationContext) : Prop := {
  pv_seeds : enabled_seeds (ctx_version ctx) <> [];
  pv_canonicalization : canon_validate (canonicalization_policy (ctx_version ctx)) = Ok tt;
  pv_canonical : forall s, s ∈ enabled_seeds (ctx_version ctx) -> exists r,
    canonicalize (canonicalization_policy (ctx_version ctx)) (url_as_str (original_url s)) = Ok r /\
    result_canonical_url r = canonical_url s;
  pv_hints : forall s i, s ∈ version_seeds (ctx_version ctx) -> entry_page_type_hint s = Some i ->
    i ∈ page_types_of ctx;
  pv_matchers : forall p m, p ∈ ctx_page_types ctx -> m ∈ pt_matchers p -> validate_definition m = Ok tt;
  pv_scope : scope_validate (domain_scope (ctx_version ctx)) = Ok tt;
  pv_guardrails : guardrails_validate (version_guardrails (ctx_version ctx)) = Ok tt;
  pv_budgets : forall b, b ∈ guardrails_page_types (version_guardrails (ctx_version ctx)) ->
    page_type_id b ∈ page_types_of ctx;
  pv_transitions : forall t, t ∈ ctx_transitions ctx -> transition_validate t = Ok tt /\
    source_page_type_id t ∈ page_types_of ctx /\ target_page_type_id t ∈ page_types_of ctx;
  pv_seeds_resolve : forall s, s ∈ enabled_seeds (ctx_version ctx) ->
    resolves ctx (url_as_str (original_url s));
  pv_matchers_resolve : forall p q l r w, (p, q) ∈ pairs_after (ctx_page_types ctx) ->
    pt_priority p = pt_priority q -> l ∈ pt_matchers p -> r ∈ pt_matchers q ->
    matchers_overlap l r = true -> matcher_witness l = Some w -> resolves ctx (url_as_str w)
}.

Lemma issue_if_warning b i : (forall j, j ∈ issue_if b i -> issue_severity j = Warning) <->
  (b = true -> issue_severity i = Warning).
Proof.
  destruct b; simpl.
  - setoid_rewrite list_elem_of_singleton. naive_solver.
  - split; [done|]. by intros _ j Hj%not_elem_of_nil.
Qed.

Definition no_blocker (l : list VersionValidationIssue) : Prop :=
  forall i, i ∈ l -> issue_severity i = Warning.

Lemma no_blocker_nil : no_blocker [] <-> True.
Proof. split; [done|]. by intros _ i Hi%not_elem_of_nil. Qed.

Lemma no_blocker_core code m s : no_blocker [core_issue code m s] <-> False.
Proof.
  split; [|done]. intros Hn. specialize (Hn _ (list_elem_of_here _ _)). by destruct s.
Qed.

Lemma no_blocker_app l k : no_blocker (l ++ k) <-> no_blocker l /\ no_blocker k.
Proof. unfold no_blocker. setoid_rewrite elem_of_app. naive_solver. Qed.

Lemma no_blocker_bind {T} (f : T -> list VersionValidationIssue) l :
  no_blocker (l ≫= f) <-> forall x, x ∈ l -> no_blocker (f x).
Proof. unfold no_blocker. setoid_rewrite list_elem_of_bind. naive_solver. Qed.

Lemma no_blocker_if b code m s : no_blocker (issue_if b (core_issue code m s)) <-> b = false.
Proof.
  destruct b; simpl; [rewrite no_blocker_core|rewrite no_blocker_nil]; split; done.
Qed.

Lemma no_blocker_warning b code m s : no_blocker (issue_if b (core_warning_issue code m s)).
Proof. destruct b; simpl; [|by apply no_blocker_nil]. intros i ->%list_elem_of_singleton. by destruct s. Qed.

Lemma known_page_type_iff ctx i : known_page_type ctx i = true <-> i ∈ page_types_of ctx.
Proof.
  unfold known_page_type, page_types_of. rewrite bool_decide_eq_true, elem_of_list_to_set. split.
  - intros (p & He & Hp)%list_elem_of_fmap. apply id_to_string_inj in He as ->.
    by apply (list_elem_of_fmap_2 pt_id).
  - intros (p & -> & Hp)%list_elem_of_fmap.
    by apply (list_elem_of_fmap_2 (fun p => id_to_string (pt_id p))).
Qed.

Lemma ambiguous_witness_none ctx text : ambiguous_witness ctx text = None <-> resolves ctx text.
Proof.
  unfold ambiguous_witness, resolves. destruct (canonicalize _ text) as [r|e].
  - destruct (is_ambiguous _) eqn:Ha; split; try done.
    + intros Hr. specialize (Hr r eq_refl). congruence.
    + by intros _ r' [= <-].
  - by split.
Qed.

Lemma pair_witnesses_nil ctx p q : pair_witnesses ctx (p, q) = [] <->
  (pt_priority p = pt_priority q -> forall l r w, l ∈ pt_matchers p -> r ∈ pt_matchers q ->
    matchers_overlap l r = true -> matcher_witness l = Some w -> resolves ctx (url_as_str w)).
Proof.
  unfold pair_witnesses. simpl. destruct (Z.eqb_spec (pt_priority p) (pt_priority q)) as [He|Hne]; simpl;
    [|by split].
  assert (Hnil : forall l : list string, l = [] <-> forall x, x ∉ l).
  { intros [|x l]; split; try done.
    - intros _ x. apply not_elem_of_nil.
    - intros Hx. exfalso. apply (Hx x). left. }
  rewrite Hnil. setoid_rewrite list_elem_of_bind. setoid_rewrite list_elem_of_bind. split.
  - intros Hx _ l r w Hl Hr Ho Hw. apply ambiguous_witness_none.
    destruct (ambiguous_witness ctx (url_as_str w)) as [t|] eqn:Ht; [exfalso|done].
    apply (Hx t). exists l. split; [|done]. exists r. split; [|done]. rewrite Ho, Hw, Ht. left.
  - intros Hx t (l & (r & Ht & Hr) & Hl). destruct (matchers_overlap l r) eqn:Ho; [|by apply not_elem_of_nil in Ht].
    destruct (matcher_witness l) as [w|] eqn:Hw; [|by apply not_elem_of_nil in Ht].
    pose proof (Hx He l r w Hl Hr Ho Hw) as Hres. apply ambiguous_witness_none in Hres. rewrite Hres in Ht.
    by apply not_elem_of_nil in Ht.
Qed.

Lemma design_time_empty ctx : design_time_ambiguity_witnesses ctx = ∅ <->
  (forall s, s ∈ enabled_seeds (ctx_version ctx) -> resolves ctx (url_as_str (original_url s))) /\
  (forall p q, (p, q) ∈ pairs_after (ctx_page_types ctx) -> pair_witnesses ctx (p, q) = []).
Proof.
  unfold design_time_ambiguity_witnesses. rewrite list_to_set_app_L. split.
  - intros [Hs Hp]%empty_union_L. split.
    + intros s Hin. apply ambiguous_witness_none.
      destruct (ambiguous_witness ctx _) as [t|] eqn:Ht; [exfalso|done].
      apply (not_elem_of_empty (C := gset string) t). rewrite <- Hs.
      apply elem_of_list_to_set, list_elem_of_omap. by exists s.
    + intros p q Hin. destruct (pair_witnesses ctx (p, q)) as [|t l] eqn:Ht; [done|exfalso].
      apply (not_elem_of_empty (C := gset string) t). rewrite <- Hp.
      apply elem_of_list_to_set, list_elem_of_bind. exists (p, q). rewrite Ht. by split; [left|].
  - intros [Hs Hp]. apply empty_union_L. split; apply elem_of_equiv_empty_L; intros t.
    + intros (s & Hin & Ht)%elem_of_list_to_set%list_elem_of_omap.
      apply Hs, ambiguous_witness_none in Hin. congruence.
    + intros ([p q] & Ht & Hin)%elem_of_list_to_set%list_elem_of_bind. rewrite (Hp p q Hin) in Ht.
      by apply not_elem_of_nil in Ht.
Qed.

Lemma core_ambiguity_none ctx : no_blocker (core_ambiguity_issues ctx) <->
  design_time_ambiguity_witnesses ctx = ∅.
Proof.
  split.
  - intros Hn. apply elem_of_equiv_empty_L. intros t Ht.
    assert (core_ambiguity_issue (version_id (ctx_version ctx)) t ∈ core_ambiguity_issues ctx) as Hin.
    { apply list_elem_of_fmap_2. unfold btree_elements. by apply elem_of_sort_by, elem_of_elements. }
    specialize (Hn _ Hin). unfold core_ambiguity_issue in Hn. cbv zeta in Hn. by destruct (_ <=? _)%nat.
  - unfold core_ambiguity_issues. intros -> i Hi. unfold btree_elements in Hi. rewrite elements_empty in Hi.
    by apply not_elem_of_nil in Hi.
Qed.

Lemma is_err_false {E} (r : result E unit) : is_err r = false <-> r = Ok tt.
Proof. destruct r as [[]|]; by split. Qed.

Lemma core_canonicalization_none v : no_blocker (core_canonicalization_issues v) <->
  canon_validate (canonicalization_policy v) = Ok tt /\
  forall s, s ∈ enabled_seeds v -> exists r,
    canonicalize (canonicalization_policy v) (url_as_str (original_url s)) = Ok r /\
    result_canonical_url r = canonical_url s.
Proof.
  unfold core_canonicalization_issues. destruct (is_err _) eqn:He.
  - rewrite no_blocker_core. split; [done|]. intros [Hc _]. by rewrite Hc in He.
  - apply is_err_false in He. rewrite no_blocker_bind. split.
    + intros Hs. split; [done|]. intros s Hin. specialize (Hs s Hin).
      destruct (canonicalize _ _) as [r|e]; [|by apply no_blocker_core in Hs].
      apply no_blocker_if, bool_decide_eq_false in Hs. exists r. split; [done|by apply dec_stable].
    + intros [_ Hs] s Hin. destruct (Hs s Hin) as (r & -> & Hr).
      apply no_blocker_if, bool_decide_eq_false. by intros Hne.
Qed.

Lemma core_guardrails_none ctx : no_blocker (core_guardrail_issues ctx) <->
  guardrails_validate (version_guardrails (ctx_version ctx)) = Ok tt /\
  forall b, b ∈ guardrails_page_types (version_guardrails (ctx_version ctx)) ->
    page_type_id b ∈ page_types_of ctx.
Proof.
  unfold core_guardrail_issues. cbv zeta. destruct (guardrails_validate _) as [[]|e].
  - rewrite no_blocker_bind. setoid_rewrite no_blocker_if. setoid_rewrite negb_false_iff.
    setoid_rewrite known_page_type_iff. naive_solver.
  - split; [|naive_solver]. intros Hn. exfalso. unfold core_guardrail_issue in Hn.
    destruct (code e); by apply no_blocker_core in Hn.
Qed.

Lemma core_transitions_none ctx : no_blocker (core_transition_issues ctx) <->
  forall t, t ∈ ctx_transitions ctx -> transition_validate t = Ok tt /\
    source_page_type_id t ∈ page_types_of ctx /\ target_page_type_id t ∈ page_types_of ctx.
Proof.
  unfold core_transition_issues. rewrite no_blocker_bind.
  enough (Ht : forall t, no_blocker (issue_if (negb (known_page_type ctx (source_page_type_id t)))
    (core_issue "MISSING_TRANSITION_SOURCE_PAGETYPE"
      "A DiscoveryTransition source PageType is missing from the version." (transition_subject t))
    ++ issue_if (negb (known_page_type ctx (target_page_type_id t)))
    (core_issue "MISSING_TRANSITION_TARGET_PAGETYPE"
      "A DiscoveryTransition target PageType is missing from the version." (transition_subject t))
    ++ match transition_validate t with
       | Ok _ => []
       | Err e => [core_issue (transition_code e) "A DiscoveryTransition or its budget is invalid."
           (transition_subject t)]
       end) <-> transition_validate t = Ok tt /\
    source_page_type_id t ∈ page_types_of ctx /\ target_page_type_id t ∈ page_types_of ctx).
  { setoid_rewrite Ht. done. }
  intros t. rewrite !no_blocker_app, !no_blocker_if, !negb_false_iff, !known_page_type_iff.
  destruct (transition_validate t) as [[]|e]; [rewrite no_blocker_nil|rewrite no_blocker_core]; naive_solver.
Qed.

Lemma core_hints_none ctx : no_blocker (core_hint_issues ctx) <->
  forall s i, s ∈ version_seeds (ctx_version ctx) -> entry_page_type_hint s = Some i -> i ∈ page_types_of ctx.
Proof.
  unfold core_hint_issues. rewrite no_blocker_bind. setoid_rewrite no_blocker_if. split.
  - intros Hs s i Hin Hi. specialize (Hs s Hin). rewrite Hi in Hs. simpl in Hs.
    by apply known_page_type_iff, negb_false_iff.
  - intros Hs s Hin. destruct (entry_page_type_hint s) as [i|] eqn:Hi; [|done]. simpl.
    apply negb_false_iff, known_page_type_iff. by apply (Hs s).
Qed.

Lemma core_matchers_none ctx : no_blocker (core_matcher_issues ctx) <->
  forall p m, p ∈ ctx_page_types ctx -> m ∈ pt_matchers p -> validate_definition m = Ok tt.
Proof.
  unfold core_matcher_issues. rewrite no_blocker_bind. setoid_rewrite no_blocker_bind.
  setoid_rewrite no_blocker_if. setoid_rewrite is_err_false. naive_solver.
Qed.

Lemma core_warnings_none ctx :
  no_blocker (core_page_type_warnings ctx) /\ no_blocker (core_transition_warnings ctx).
Proof.
  split; apply no_blocker_bind; intros x _; [|apply no_blocker_warning].
  apply no_blocker_app. split; apply no_blocker_warning.
Qed.

Lemma core_publishable ctx issues : core_validate ctx = Ok issues ->
  no_blocker issues <-> publishable_version ctx.
Proof.
  intros [= <-]. rewrite !no_blocker_app, core_canonicalization_none, core_hints_none, core_matchers_none,
    core_guardrails_none, core_transitions_none, core_ambiguity_none, design_time_empty.
  unfold core_seed_issues, core_scope_issues.
  rewrite !no_blocker_if, bool_decide_eq_false, is_err_false.
  pose proof (core_warnings_none ctx) as [Hw1 Hw2]. setoid_rewrite pair_witnesses_nil. split.
  - intros (? & [? ?] & ? & ? & ? & [? ?] & ? & [? Hp] & _). split; try done.
    intros p q l r w Hin He. by apply (Hp p q Hin He).
  - intros []. split_and!; try done. intros p q Hin He l r w. by apply (pv_matchers_resolve0 p q).
Qed.

Lemma no_blocker_attributed key l : no_blocker (map (attributed key) l) <-> no_blocker l.
Proof.
  unfold no_blocker. split.
  - intros Hn i Hi. exact (Hn _ (list_elem_of_fmap_2 (attributed key) l i Hi)).
  - intros Hn i (j & -> & Hj)%list_elem_of_fmap. exact (Hn j Hj).
Qed.

(** C16. The core contributor decides publishability.  Its report lets a version be published
    exactly when some seed is enabled, the policies are valid, every enabled seed's
    canonical URL is the policy's, every page type that a seed, a budget or a transition
    names belongs to the version, every matcher and transition is valid, and neither an
    enabled seed nor the witness of two overlapping matchers has several best page types.
    A version published on such a report, whose page types are the loaded ones, satisfies
    its semantic contract. *)
Theorem core_report_decides ctx report (Hrep : registry_validate registry_new ctx = Ok report) :
  (publishable report = true <-> publishable_version ctx) /\
  (publishable report = true -> page_type_ids (ctx_version ctx) = page_types_of ctx ->
    validate_semantic_contract (ctx_version ctx) = Ok tt).
Proof.
  assert (publishable report = true <-> publishable_version ctx) as Hiff.
  { rewrite (report_publishable _ _ _ Hrep).
    destruct (core_validate ctx) as [issues|] eqn:Hc; [|done].
    rewrite <- (core_publishable ctx issues Hc), <- (no_blocker_attributed "core" issues).
    unfold no_blocker, registry_new. setoid_rewrite list_elem_of_singleton.
    assert (contributed ctx core_contributor = map (attributed "core") issues) as Hco.
    { unfold contributed, core_contributor. cbn [contributor_validate contributor_key]. by rewrite Hc. }
    split.
    - intros Hw i Hi. apply (Hw core_contributor i eq_refl). by rewrite Hco.
    - intros Hw c i -> Hi. apply (Hw i). by rewrite <- Hco. }
  split; [done|]. intros Hpub Hids. apply Hiff in Hpub as []. apply contract_parts. split_and!; try done.
  apply Forall_forall. rewrite Hids. intros b Hb. by apply pv_budgets0.
Qed.
End core.

(** ** The core contributor stays within its bounds *)

(** The hyphenated form of a UUID is 36 ASCII characters; a serialised URL is printable
    ASCII. *)
Class TextLaws (U : UuidLib) (L : UrlLib) : Prop := {
  uuid_text : forall a, bad_text MAX_VALIDATION_DETAIL_CHARS (uuid_to_string a) = false;
  url_text : forall u, Forall (fun b => 32 <= b < 127) (bytes (url_as_str u))
}.

Lemma chars_printable s : Forall (fun b => 32 <= b < 127) (bytes s) -> chars s = bytes s.
Proof.
  induction s as [|c s IH]; simpl; [done|]. intros [Hc Hs]%Forall_cons.
  destruct (Z.ltb_spec (byte_of c) 128); [|lia]. by rewrite IH.
Qed.

Lemma byte_of_chr z : 0 <= z < 256 -> byte_of (chr z) = z.
Proof. intros Hz. unfold byte_of, chr. rewrite N_ascii_embedding; lia. Qed.

Lemma chars_of_printable l : Forall (fun b => 32 <= b < 127) l -> chars (of_chars l) = l.
Proof.
  induction 1 as [|b l Hb Hl IH]; [done|]. simpl. unfold encode_utf8.
  destruct (Z.ltb_spec b 128); [|lia]. simpl. rewrite byte_of_chr by lia.
  destruct (Z.ltb_spec b 128); [|lia]. by rewrite IH.
Qed.

Lemma printable_no_control l : Forall (fun b => 32 <= b < 127) l -> existsb is_control l = false.
Proof.
  induction 1 as [|b l Hb Hl IH]; [done|]. simpl. rewrite IH, orb_false_r. unfold is_control.
  destruct (Z.leb_spec b 31), (Z.leb_spec 127 b); simpl; try lia; done.
Qed.

Lemma hexdigit_printable b : is_ascii_hexdigit b = true -> 32 <= b < 127.
Proof.
  unfold is_ascii_hexdigit, is_ascii_digit. rewrite !orb_true_iff, !andb_true_iff, !Z.leb_le. lia.
Qed.

Lemma bytes_length s : length (bytes s) = String.length s.
Proof. induction s as [|c s IH]; simpl; congruence. Qed.

Lemma hexdigit_no_control l : forallb is_ascii_hexdigit l = true -> existsb is_control l = false.
Proof.
  intros Hl. apply printable_no_control, Forall_forall. intros b Hb. apply hexdigit_printable.
  rewrite forallb_forall in Hl. apply Hl. by apply list_elem_of_In.
Qed.

Lemma existsb_none {T} (f : T -> bool) l : (forall x, x ∈ l -> f x = false) -> existsb f l = false.
Proof.
  intros Hf. apply not_true_iff_false. intros (x & Hx & Ht)%existsb_exists.
  apply list_elem_of_In in Hx. by rewrite (Hf x Hx) in Ht.
Qed.

Section bounds.
Context `{U : UuidLib} `{L : UrlLib} {TL : TextLaws U L} `{H : HostLib} `{R : RegexLib}.
Context `{Hash : HashLib} `{HL : !HashLaws Hash} `{A : !UrlAppend L} `{D : DebugText}.

Definition bounded (i : VersionValidationIssue) : Prop := validate_bounds i = Ok tt.

(** A subject that names nothing or an identifier. *)
Definition identified (s : option VersionValidationSubject) : Prop :=
  some_and (fun s => some_and (bad_text MAX_VALIDATION_DETAIL_CHARS) (subject_id s)) s = false.

Lemma identified_id {k} kind (i : typed_id k) : identified (Some (subject kind (Some (id_to_string i)))).
Proof. unfold identified. simpl. apply uuid_text. Qed.

Lemma issue_bounded i : bad_text MAX_VALIDATION_MESSAGE_CHARS (issue_message i) = false ->
  identified (issue_subject i) -> (size (issue_details i) <= MAX_VALIDATION_DETAILS)%nat ->
  (forall k v, issue_details i !! k = Some v -> bad_detail (k, v) = false) -> bounded i.
Proof.
  intros Hm Hs Hn Hd. unfold bounded, validate_bounds. apply reject_if_ok.
  rewrite !orb_false_iff, Nat.ltb_ge. split_and!; try done. apply existsb_none.
  intros [k v] Hin%elem_of_map_to_list. by apply Hd.
Qed.

Lemma core_bounded code severity message s : bad_text MAX_VALIDATION_MESSAGE_CHARS message = false ->
  identified s -> bounded (core_issue_with_severity code severity message s).
Proof.
  intros Hm Hs. unfold core_issue_with_severity. destruct s as [s|]; apply issue_bounded; simpl; try done;
    try (rewrite map_size_empty; lia); intros k v; by rewrite lookup_empty.
Qed.

Lemma sha256_hex_text s : char_count (sha256_hex s) = 64%nat /\ has_control (sha256_hex s) = false.
Proof.
  pose proof (hex_encode_digits (sha256 s) (sha256_bytes s)) as Hx. split.
  - assert (Forall (fun b => 32 <= b < 127) (bytes (sha256_hex s))) as Hp.
    { apply Forall_forall. unfold sha256_hex. generalize (sha256 s), (sha256_bytes s). clear.
      intros l Hl. induction Hl as [|b l Hb Hl IH]; simpl; [by intros x Hx%not_elem_of_nil|].
      intros x Hx. apply elem_of_cons in Hx as [->|Hx]; [|apply elem_of_cons in Hx as [->|Hx]; [|by apply IH]].
      - apply hexdigit_printable, hex_digit_value. apply u8_nibbles in Hb as (Hh & _). exact Hh.
      - apply hexdigit_printable, hex_digit_value. apply u8_nibbles in Hb as (_ & Hh & _). exact Hh. }
    unfold char_count. rewrite chars_printable by done. rewrite bytes_length.
    change (String.length (sha256_hex s)) with (str_len (hex_encode (sha256 s))).
    by rewrite hex_encode_length, sha256_length.
  - by apply hexdigit_no_control.
Qed.

Lemma ambiguous_witness_url ctx text t : ambiguous_witness ctx text = Some t -> exists u, t = url_as_str u.
Proof.
  unfold ambiguous_witness. destruct (canonicalize _ text) as [r|]; [|done].
  destruct (is_ambiguous _); [|done]. intros [= <-]. by eexists.
Qed.

Lemma pair_witness_url ctx p t : t ∈ pair_witnesses ctx p -> exists u, t = url_as_str u.
Proof.
  unfold pair_witnesses. destruct (negb _); [by intros Ht%not_elem_of_nil|].
  intros (l & (r & Ht & _)%list_elem_of_bind & _)%list_elem_of_bind.
  destruct (matchers_overlap l r); [|by apply not_elem_of_nil in Ht].
  destruct (matcher_witness l) as [w|]; [|by apply not_elem_of_nil in Ht].
  destruct (ambiguous_witness ctx _) as [x|] eqn:Hx; [|by apply not_elem_of_nil in Ht].
  apply list_elem_of_singleton in Ht as ->. by eapply ambiguous_witness_url.
Qed.

Lemma design_time_url ctx t : t ∈ design_time_ambiguity_witnesses ctx -> exists u, t = url_as_str u.
Proof.
  intros [Ht|Ht]%elem_of_list_to_set%elem_of_app.
  - apply list_elem_of_omap in Ht as (s & _ & Ht). by eapply ambiguous_witness_url.
  - apply list_elem_of_bind in Ht as (p & Ht & _). by eapply pair_witness_url.
Qed.

Lemma ambiguity_bounded version u : bounded (core_ambiguity_issue version (url_as_str u)).
Proof.
  pose proof (url_text u) as Hu. pose proof (chars_printable _ Hu) as Hc.
  unfold core_ambiguity_issue. cbv zeta. destruct (_ <=? _)%nat eqn:Hl.
  - apply Nat.leb_le in Hl. apply issue_bounded; simpl; [done|apply identified_id| |].
    + rewrite map_size_insert_None, map_size_empty by apply lookup_empty. unfold MAX_VALIDATION_DETAILS. lia.
    + intros k v [[<- <-]|[_ Hv]]%lookup_insert_Some; [|by rewrite lookup_empty in Hv].
      unfold bad_detail. simpl. rewrite (proj2 (Nat.ltb_ge _ _) Hl). simpl.
      unfold has_control. rewrite Hc, (printable_no_control _ Hu). done.
  - clear Hl. assert (Hp : Forall (fun b => 32 <= b < 127)
      (take (MAX_VALIDATION_DETAIL_CHARS - 64) (chars (url_as_str u)))).
    { rewrite Hc. by apply Forall_take. }
    destruct (sha256_hex_text (url_as_str u)) as [Hh Hhc].
    apply issue_bounded; cbn [issue_message issue_subject issue_details with_detail core_issue
      core_issue_with_severity with_subject issue_new].
    + done.
    + apply identified_id.
    + rewrite map_size_insert_None, map_size_insert_None, map_size_empty; simplify_map_eq; try done.
      unfold MAX_VALIDATION_DETAILS. lia.
    + intros k v [[<- <-]|[_ Hv]]%lookup_insert_Some.
      * unfold bad_detail. cbn [fst snd]. rewrite Hh, Hhc. done.
      * apply lookup_insert_Some in Hv as [[<- <-]|[_ Hv]]; [|by rewrite lookup_empty in Hv].
        unfold bad_detail, char_count, has_control. cbn [fst snd]. rewrite (chars_of_printable _ Hp).
        rewrite (printable_no_control _ Hp), length_take.
        assert ((MAX_VALIDATION_DETAIL_CHARS <? Nat.min (MAX_VALIDATION_DETAIL_CHARS - 64)
          (length (chars (url_as_str u))))%nat = false) as ->.
        { apply Nat.ltb_ge. unfold MAX_VALIDATION_DETAIL_CHARS. lia. }
        done.
Qed.

Lemma bounded_if b code severity message s : bad_text MAX_VALIDATION_MESSAGE_CHARS message = false ->
  identified s -> Forall bounded (issue_if b (core_issue_with_severity code severity message s)).
Proof. intros Hm Hs. destruct b; repeat constructor. by apply core_bounded. Qed.

Lemma core_issues_bounded ctx issues : core_validate ctx = Ok issues -> Forall bounded issues.
Proof.
  intros [= <-]. repeat (apply Forall_app; split).
  - by apply bounded_if.
  - unfold core_canonicalization_issues. destruct (is_err _); [by repeat constructor; apply core_bounded|].
    apply Forall_bind, Forall_forall. intros s _. unfold compose.
    destruct (canonicalize (canonicalization_policy (ctx_version ctx)) (url_as_str (original_url s))).
    + apply bounded_if; [done|apply identified_id].
    + constructor; [apply core_bounded; [done|apply identified_id]|constructor].
  - apply Forall_bind, Forall_forall. intros s _. apply bounded_if; [done|apply identified_id].
  - apply Forall_bind, Forall_forall. intros p _. apply Forall_bind, Forall_forall. intros m _.
    apply bounded_if; [done|apply identified_id].
  - by apply bounded_if.
  - unfold core_guardrail_issues. cbv zeta. destruct (guardrails_validate _) as [|e].
    + apply Forall_bind, Forall_forall. intros b _. apply bounded_if; [done|apply identified_id].
    + constructor; [|constructor]. unfold core_guardrail_issue. destruct (code e); by apply core_bounded.
  - apply Forall_bind, Forall_forall. intros t _. unfold compose. repeat (apply Forall_app; split).
    + apply bounded_if; [done|apply identified_id].
    + apply bounded_if; [done|apply identified_id].
    + destruct (transition_validate t); constructor; [|constructor].
      apply core_bounded; [done|apply identified_id].
  - apply Forall_fmap, Forall_forall. intros t Ht. unfold btree_elements in Ht.
    apply elem_of_sort_by, elem_of_elements, design_time_url in Ht as (u & ->). apply ambiguity_bounded.
  - apply Forall_bind, Forall_forall. intros p _. cbv zeta. apply Forall_app.
    split; (apply bounded_if; [done|apply identified_id]).
  - apply Forall_bind, Forall_forall. intros t _. apply bounded_if; [done|apply identified_id].
Qed.

Lemma add_issues_total key new issues : Forall bounded new ->
  (length issues + length new <= MAX_VALIDATION_ISSUES)%nat ->
  add_issues key new issues = Ok (issues ++ map (attributed key) new).
Proof.
  intros Hb. revert issues. induction Hb as [|i new Hi _ IH]; intros issues Hn; simpl in *.
  - by rewrite app_nil_r.
  - unfold bounded in Hi. rewrite Hi. simpl. rewrite length_app. simpl.
    rewrite (proj2 (Nat.ltb_ge _ _)) by lia. simpl. rewrite IH by (rewrite length_app; simpl; lia).
    by rewrite <- app_assoc.
Qed.

(** Validation by the core alone fails in one way.  Its issues are always within their
    bounds, long witnesses being cut and hashed, so that it answers with a report exactly
    when it found at most 256 issues, and otherwise that it found too many: a version with
    more than 256 untested page types and transitions cannot be validated. *)
Theorem core_validation_total ctx issues (Hc : core_validate ctx = Ok issues) :
  if (length issues <=? MAX_VALIDATION_ISSUES_PER_CONTRIBUTOR)%nat
  then exists report, registry_validate registry_new ctx = Ok report
  else registry_validate registry_new ctx = Err (TooManyIssues "core").
Proof.
  unfold registry_validate, registry_new. cbn [for_each sort_by foldr insert_sorted].
  change (validate_identifier (contributor_key core_contributor))
    with (Ok tt : result InvalidValidationIdentifier unit).
  cbn [map_err collect_issues]. cbv zeta.
  change (contributor_key core_contributor) with "core"%string.
  change (contributor_validate core_contributor ctx) with (core_validate ctx).
  rewrite (bool_decide_eq_false_2 _ (not_elem_of_empty _)), Hc. cbn [reject_if map_err].
  destruct (Nat.leb_spec (length issues) MAX_VALIDATION_ISSUES_PER_CONTRIBUTOR) as [Hl|Hl].
  - rewrite (proj2 (Nat.ltb_ge _ _)) by lia. cbn [reject_if].
    rewrite add_issues_total; [by eexists| |].
    + by apply core_issues_bounded in Hc.
    + simpl. unfold MAX_VALIDATION_ISSUES_PER_CONTRIBUTOR, MAX_VALIDATION_ISSUES in *. lia.
  - rewrite (proj2 (Nat.ltb_lt _ _)) by lia. done.
Qed.
End bounds.

(** * Witnesses *)

Section witnesses.

#[local] Instance plain_append : UrlAppend plain_url := fun u k v =>
  url_set_query u (Some (default EmptyString (url_query u) ++ "&" ++ k ++ "=" ++ v)%string).
#[local] Instance plain_debug : DebugText := fun s => ("'" ++ s ++ "'")%string.

(** A version with a seed and the two page types it names, without test evidence. *)
Definition validation_example : VersionValidationContext :=
  {| ctx_version := example_published;
     ctx_page_types := [new_page_type 2 "item" 1 [PathPrefix None "/items"];
       new_page_type 3 "home" 1 [PathPrefix None "/"]];
     ctx_transitions := []; ctx_test_evidence := []; ctx_config_hash := "c0ffee" |}.

Definition validation_issues : list VersionValidationIssue :=
  match core_validate validation_example with Ok l => l | Err _ => [] end.

Definition validation_report : VersionValidationReport :=
  match registry_validate registry_new validation_example with
  | Ok r => r
  | Err _ => report_new (version_id example_published) "" [] []
  end.

Lemma validation_report_ok : registry_validate registry_new validation_example = Ok validation_report.
Proof.
  unfold validation_report. destruct (registry_validate registry_new validation_example) as [r|e] eqn:Hr; [done|].
  vm_compute in Hr. discriminate Hr.
Qed.

Lemma core_report_decides_witness : publishable_version validation_example.
Proof.
  apply (core_report_decides validation_example validation_report validation_report_ok).
  vm_compute. reflexivity.
Defined.

Lemma report_is_normalized_witness : length (warnings validation_report) = 2%nat /\
  StronglySorted (fun i j => issue_cmp i j = Lt) (warnings validation_report).
Proof.
  split; [vm_compute; reflexivity|].
  exact (proj1 (proj2 (report_is_normalized registry_new validation_example validation_report
    registered_new validation_report_ok))).
Defined.

(** A second contributor, registered by a runtime. *)
Definition second_contributor : VersionValidationContributor :=
  {| contributor_key := "audit";
     contributor_validate _ := Ok [core_warning_issue "AUDIT" "Seen by the audit." None] |}.

Lemma registration_order_irrelevant_witness :
  registry_validate [second_contributor; core_contributor] validation_example
  = registry_validate [core_contributor; second_contributor] validation_example.
Proof.
  assert (registered [core_contributor; second_contributor]) as Hr.
  { apply (registered_more registry_new second_contributor); [exact registered_new|reflexivity]. }
  exact (proj1 (registration_order_irrelevant [core_contributor; second_contributor]
    [second_contributor; core_contributor] validation_example Hr (perm_swap _ _ []))).
Defined.
End witnesses.

Section bounded_witness.

(** One identifier and one URL, with their printable texts. *)
#[local] Instance one_uuid : UuidLib := {|
  uuid := unit; uuid_eq_dec := _; uuid_to_string _ := "01890000-0000-7000-8000-000000000000";
  uuid_parse_str _ := Some tt; uuid_version _ := 7; uuid_now_v7 _ := tt |}.
#[local] Instance one_url : UrlLib := {|
  url := unit; url_eq_dec := _; url_parse _ := Some tt; url_as_str _ := "https://example.test/";
  url_scheme _ := "https"; url_username _ := EmptyString; url_password _ := None;
  url_host_str _ := Some "example.test"%string; url_port _ := None; url_path _ := "/"; url_query _ := None;
  url_fragment _ := None; url_query_pairs _ := []; url_set_scheme u _ := Some u;
  url_set_host u _ := Some u; url_set_port u _ := Some u; url_set_path u _ := u;
  url_set_query u _ := u; url_set_fragment u _ := u; form_urlencoded_first_key _ := None |}.
#[local] Instance one_text : TextLaws one_uuid one_url.
Proof.
  split; [reflexivity|]. intros u. apply Forall_forall. intros b Hb.
  apply list_elem_of_In in Hb. vm_compute in Hb. repeat destruct Hb as [<-|Hb]; lia.
Qed.
#[local] Instance one_append : UrlAppend one_url := fun u _ _ => u.
#[local] Instance one_debug : DebugText := fun s => s.

(** An empty draft. *)
Definition empty_context : VersionValidationContext :=
  {| ctx_version := draft 1 (new_id 0); ctx_page_types := []; ctx_transitions := [];
     ctx_test_evidence := []; ctx_config_hash := "c0ffee" |}.

Lemma core_validation_total_witness :
  exists report, registry_validate registry_new empty_context = Ok report.
Proof.
  assert (core_validate empty_context = Ok [core_issue "NO_ENABLED_SEED"
    "CrawlerVersion must contain at least one enabled Seed." None]) as Hc by reflexivity.
  exact (core_validation_total empty_context _ Hc).
Defined.
End bounded_witness.
