(* ===== verification/SemanticHash.v ===== *)
(** * The semantic hash of a crawler version

    [crates/erabi-db/src/repositories/crawler.rs], from [SemanticHashTemplate] on: the
    hash that tells whether two configurations mean the same.  The ids of seeds, page
    types, matchers and transitions are random, so each is replaced by a label computed
    from what the configuration says of it: its own content and the places it is
    referred to from, refined until the labels separate no more entities.  Rows are then
    sorted by their text.  A [serde_json::Map] is a [BTreeMap]: the entries of an object
    are in the order of their keys. *)

From stdpp Require Import pretty.
From S2P Require Import Prelude Externals JsonFacts Base Instances Settings Crawler Snapshot.

(** ** Generic traversal *)

(** A loop over a list that threads a state. *)
Definition map_state {A B S} (f : A -> S -> B * S) : list A -> S -> list B * S :=
  fix go l s :=
    match l with
    | [] => ([], s)
    | x :: l' => let '(y, s) := f x s in let '(k, s) := go l' s in (y :: k, s)
    end.

(** A loop over a list with the index, appending what each item gives. *)
Definition collect_indexed {A B} (f : nat -> A -> list B) : nat -> list A -> list B :=
  fix go i l :=
    match l with
    | [] => []
    | x :: l' => f i x ++ go (S i) l'
    end.

(** A value as a tree of [Map]s: the entries of each object in key order. *)
Fixpoint json_of_maps (v : Json) : Json :=
  match v with
  | JArray l => JArray (map json_of_maps l)
  | JObject l => JObject (sort_by key_order (map (fun e => (e.1, json_of_maps e.2)) l))
  | _ => v
  end.

Definition json_object_remove (key : string) (v : Json) : Json :=
  match v with
  | JObject entries => JObject (filter (fun e => e.1 <> key) entries)
  | _ => v
  end.

(** ** Entities *)

Inductive SemanticEntityKind := KSeed | KPageType | KUrlMatcher | KTransition.

#[export] Instance semantic_entity_kind_eq_dec : EqDecision SemanticEntityKind.
Proof. solve_decision. Defined.

Definition label_prefix (k : SemanticEntityKind) : string :=
  match k with
  | KSeed => "seed"
  | KPageType => "page_type"
  | KUrlMatcher => "url_matcher"
  | KTransition => "transition"
  end.

Record SemanticHashTemplate := {
  st_version : Json;
  st_seeds : list Json;
  st_page_types : list Json;
  st_url_matchers : list Json;
  st_transitions : list Json
}.

Record SemanticEntity := {
  en_id : string;
  en_kind : SemanticEntityKind;
  en_value : Json
}.

Record SemanticCanonicalization := {
  known_kinds : gmap string SemanticEntityKind;
  labels : gmap string string;
  incoming : gmap string (list Json)
}.

(** The ids a version declares, as text. *)
Record DeclaredIds := {
  declared_seeds : list string;
  declared_page_types : list string;
  declared_transitions : list string
}.

Definition declared_ids `{U : UuidLib} `{L : UrlLib} (version : CrawlerVersion) : DeclaredIds := {|
  declared_seeds := map (fun s => id_to_string (seed_id s)) (version_seeds version);
  declared_page_types := map id_to_string (page_type_ids version);
  declared_transitions := map id_to_string (transition_ids version)
|}.

Definition row_id (row : Json) : option string := json_get "id" row ≫= json_as_str.

Definition id_only_row (id : string) : Json := JObject [("id", JString id)].

Definition keyed_rows (rows : list Json) : list (string * Json) :=
  omap (fun row => (fun id => (id, row)) <$> row_id row) rows.

(** A later row of the same id replaces an earlier one. *)
Definition rows_by_id (rows : list Json) : gmap string Json :=
  foldl (fun m kv => <[kv.1 := kv.2]> m) ∅ (keyed_rows rows).

(** [values.entry(id).or_insert_with(..)] for every declared id. *)
Definition declare_row (m : gmap string Json) (id : string) : gmap string Json :=
  match m !! id with Some _ => m | None => <[id := id_only_row id]> m end.

Definition extend_semantic_entities (kind : SemanticEntityKind) (declared : list string)
    (rows : list Json) : list SemanticEntity :=
  map (fun kv => {| en_id := kv.1; en_kind := kind; en_value := kv.2 |})
    (btree_to_list (foldl declare_row (rows_by_id rows) declared)).

Definition semantic_entities (template : SemanticHashTemplate) (ids : DeclaredIds) : list SemanticEntity :=
  extend_semantic_entities KSeed (declared_seeds ids) (st_seeds template)
  ++ extend_semantic_entities KPageType (declared_page_types ids) (st_page_types template)
  ++ extend_semantic_entities KUrlMatcher [] (st_url_matchers template)
  ++ extend_semantic_entities KTransition (declared_transitions ids) (st_transitions template).

(** [entities.iter().map(|e| (e.id, e.kind)).collect::<BTreeMap>()]. *)
Definition kinds_of (entities : list SemanticEntity) : gmap string SemanticEntityKind :=
  foldl (fun m e => <[en_id e := en_kind e]> m) ∅ entities.

(** ** References *)

(** [json_pointer_segment]. *)
Definition json_pointer_segment (value : string) : string :=
  str_replace "/" "~1" (str_replace "~" "~0" value).

(** [collect_semantic_references]: the places at which a value mentions a known id,
    other than its own [id] field, as (target, path). *)
Fixpoint collect_semantic_references (known : gmap string SemanticEntityKind) (owner_id path : string)
    (value : Json) : list (string * string) :=
  match value with
  | JArray values =>
    collect_indexed (fun i v =>
      collect_semantic_references known owner_id (path ++ "/" ++ pretty (Z.of_nat i)) v) 0%nat values
  | JObject entries =>
    collect_indexed (fun _ e =>
      collect_semantic_references known owner_id (path ++ "/" ++ json_pointer_segment e.1) e.2)
      0%nat entries
  | JString s =>
    match known !! s with
    | Some _ => if String.eqb path "/id" && String.eqb s owner_id then [] else [(s, path)]
    | None => []
    end
  | JNull | JBool _ | JNumber _ => []
  end.

Definition semantic_references (value : Json) (known : gmap string SemanticEntityKind)
    (owner_id : string) : list (string * string) :=
  collect_semantic_references known owner_id "" value.

(** ** Remapping *)

Record RemapState := {
  local_references : gmap string string;
  next_reference_index : gmap string Z
}.

Definition empty_remap : RemapState := {| local_references := ∅; next_reference_index := ∅ |}.

Definition kind_label (k : SemanticEntityKind) : string := "@" ++ label_prefix k.

Definition self_label (k : SemanticEntityKind) : string := "@self:" ++ label_prefix k.

(** The label a known id stands for in this round. *)
Definition reference_label (labels : option (gmap string string)) (k : SemanticEntityKind)
    (s : string) : string :=
  default (kind_label k) (labels ≫= (.!! s)).

(** A string of the value: its owner's id, a known id, or kept.  Different ids of one
    label are numbered in the order of their first mention. *)
Definition remap_string (known : gmap string SemanticEntityKind) (labels : option (gmap string string))
    (owner : option (string * SemanticEntityKind)) (s : string) (st : RemapState) : string * RemapState :=
  match (if (if owner is Some (o, _) then String.eqb s o else false) then owner else None) with
  | Some (_, k) => (self_label k, st)
  | None =>
    match known !! s with
    | Some k =>
      let label := reference_label labels k s in
      let next := default 0 (next_reference_index st !! label) in
      match local_references st !! s with
      | Some replacement =>
        (replacement, {| local_references := local_references st;
                         next_reference_index := <[label := next]> (next_reference_index st) |})
      | None =>
        let replacement := (label ++ "#" ++ pretty next)%string in
        (replacement, {| local_references := <[s := replacement]> (local_references st);
                         next_reference_index := <[label := next + 1]> (next_reference_index st) |})
      end
    | None => (s, st)
    end
  end.

Fixpoint remap_semantic_references_in_scope (known : gmap string SemanticEntityKind)
    (labels : option (gmap string string)) (owner : option (string * SemanticEntityKind))
    (value : Json) (st : RemapState) : Json * RemapState :=
  match value with
  | JArray values =>
    let '(values, st) :=
      map_state (remap_semantic_references_in_scope known labels owner) values st in
    (JArray values, st)
  | JObject entries =>
    let '(entries, st) :=
      map_state (fun e st =>
        let '(v, st) := remap_semantic_references_in_scope known labels owner e.2 st in
        ((e.1, v), st)) entries st in
    (JObject entries, st)
  | JString s => let '(s, st) := remap_string known labels owner s st in (JString s, st)
  | JNull | JBool _ | JNumber _ => (value, st)
  end.

Definition remap_semantic_references (known : gmap string SemanticEntityKind)
    (labels : option (gmap string string)) (owner : option (string * SemanticEntityKind))
    (value : Json) : Json :=
  (remap_semantic_references_in_scope known labels owner value empty_remap).1.

(** [remap_json_value], of the clone of a published version: each string that one of
    the maps knows is replaced, the first map that knows it deciding. *)
Fixpoint first_replacement (maps : list (gmap string string)) (s : string) : string :=
  match maps with
  | [] => s
  | m :: maps' => match m !! s with Some r => r | None => first_replacement maps' s end
  end.

Fixpoint remap_json_value (maps : list (gmap string string)) (value : Json) : Json :=
  match value with
  | JArray values => JArray (map (remap_json_value maps) values)
  | JObject entries => JObject (map (fun e => (e.1, remap_json_value maps e.2)) entries)
  | JString s => JString (first_replacement maps s)
  | JNull | JBool _ | JNumber _ => value
  end.

(** ** Labels *)

Section labels.
Context `{Serde : SerdeLib}.

(** [canonical_sort_key], [sorted_array]. *)
Definition canonical_sort_key (value : Json) : string := json_to_string value.
Definition sort_values (values : list Json) : list Json :=
  sort_by (cmp_on canonical_sort_key String.compare) values.
Definition sorted_array (values : list Json) : Json := JArray (sort_values values).

(** One mention of an entity, seen from its target. *)
Definition incidence (source path : string) : Json :=
  JObject [("path", JString path); ("source", JString source)].

Definition push_incidence (source : string) (m : gmap string (list Json)) (r : string * string)
    : gmap string (list Json) :=
  <[r.1 := default [] (m !! r.1) ++ [incidence source r.2]]> m.

Definition incoming_incidence (entities : list SemanticEntity)
    (known : gmap string SemanticEntityKind) (labels : option (gmap string string))
    : gmap string (list Json) :=
  foldl (fun m e =>
    let source := default (kind_label (en_kind e)) (labels ≫= (.!! (en_id e))) in
    foldl (push_incidence source) m (semantic_references (en_value e) known (en_id e)))
    ∅ entities.

(** What is known of an entity in one round. *)
Definition entity_signature (known : gmap string SemanticEntityKind)
    (previous : option (gmap string string)) (inc : gmap string (list Json)) (e : SemanticEntity) : string :=
  canonical_sort_key (JObject [
    ("incoming", sorted_array (default [] (inc !! en_id e)));
    ("kind", JString (label_prefix (en_kind e)));
    ("value", remap_semantic_references known previous (Some (en_id e, en_kind e)) (en_value e))]).

Definition rank_label (k : SemanticEntityKind) (rank : nat) : string :=
  ("@" ++ label_prefix k ++ ":" ++ pretty (Z.of_nat rank))%string.

(** [BTreeSet] of the signatures, in order. *)
Definition ranked (signatures : list string) : list string := btree_elements (list_to_set signatures).

(** The signatures of one kind, and the labels their ranks give. *)
Definition kind_signatures (known : gmap string SemanticEntityKind)
    (previous : option (gmap string string)) (inc : gmap string (list Json)) (k : SemanticEntityKind)
    (entities : list SemanticEntity) : list (string * string) :=
  map (fun e => (en_id e, entity_signature known previous inc e))
    (filter (fun e => en_kind e = k) entities).

Definition label_kind (k : SemanticEntityKind) (signatures : list (string * string))
    (m : gmap string string) : gmap string string :=
  let ranks := ranked (map snd signatures) in
  foldl (fun m x => <[x.1 := rank_label k (default 0%nat (position (String.eqb x.2) ranks))]> m) m signatures.

Definition all_kinds : list SemanticEntityKind := [KSeed; KPageType; KUrlMatcher; KTransition].

Definition labels_for_entities (entities : list SemanticEntity)
    (known : gmap string SemanticEntityKind) (previous : option (gmap string string))
    (inc : gmap string (list Json)) : gmap string string :=
  foldl (fun m k => label_kind k (kind_signatures known previous inc k entities) m) ∅ all_kinds.

(** [same_semantic_partition]: the sets of ids that share a label. *)
Definition label_groups (labels : gmap string string) : gmap string (gset string) :=
  foldl (fun groups x => <[x.2 := {[x.1]} ∪ default ∅ (groups !! x.2)]> groups) ∅
    (btree_to_list labels).

Definition same_semantic_partition (left right : gmap string string) : bool :=
  bool_decide ((list_to_set (map snd (map_to_list (label_groups left))) : gset (gset string))
    = list_to_set (map snd (map_to_list (label_groups right)))).

(** The loop [for _ in 0..entities.len()], left as soon as a round separates nothing. *)
Fixpoint refine_labels (rounds : nat) (entities : list SemanticEntity)
    (known : gmap string SemanticEntityKind) (labels : gmap string string) : gmap string string :=
  match rounds with
  | O => labels
  | S rounds' =>
    let refined := labels_for_entities entities known (Some labels)
      (incoming_incidence entities known (Some labels)) in
    if same_semantic_partition labels refined then refined
    else refine_labels rounds' entities known refined
  end.

Definition refine_semantic_labels (template : SemanticHashTemplate) (ids : DeclaredIds)
    : SemanticCanonicalization :=
  let entities := semantic_entities template ids in
  let known := kinds_of entities in
  let initial := labels_for_entities entities known None (incoming_incidence entities known None) in
  let final := refine_labels (length entities) entities known initial in
  {| known_kinds := known; labels := final;
     incoming := incoming_incidence entities known (Some final) |}.

(** ** The payload *)

Definition anonymous_incidence_profiles (c : SemanticCanonicalization) : Json :=
  sorted_array (omap (fun x =>
    (fun kind => JObject [
      ("incoming", sorted_array (default [] (incoming c !! x.1)));
      ("kind", JString (label_prefix kind));
      ("label", JString x.2)]) <$> known_kinds c !! x.1) (btree_to_list (labels c))).

Definition remap_row (c : SemanticCanonicalization) (kind : SemanticEntityKind) (row : Json) : Json :=
  remap_semantic_references (known_kinds c) (Some (labels c))
    ((fun id => (id, kind)) <$> row_id row) row.

Definition remapped_sorted_array (values : list Json) (kind : SemanticEntityKind)
    (c : SemanticCanonicalization) : Json :=
  sorted_array (map (remap_row c kind) values).

(** [values.sort_by_key(canonical_sort_key)] of one array of an object. *)
Definition sort_array_value (v : Json) : Json :=
  match v with JArray values => JArray (sort_values values) | _ => v end.

Definition update_entry (key : string) (f : Json -> Json) (v : Json) : Json :=
  match v with
  | JObject entries =>
    JObject (map (fun e => if String.eqb e.1 key then (e.1, f e.2) else e) entries)
  | _ => v
  end.

Definition sort_version_collections (value : Json) : Json :=
  update_entry "guardrails" (update_entry "page_types" sort_array_value)
    (foldl (fun v field => update_entry field sort_array_value v) value
       ["seeds"; "page_type_ids"; "transition_ids"]).

Definition remapped_semantic_payload (template : SemanticHashTemplate) (c : SemanticCanonicalization) : Json :=
  let version := sort_version_collections
    (remap_semantic_references (known_kinds c) (Some (labels c)) None (st_version template)) in
  JObject [
    ("incoming_incidence_profiles", anonymous_incidence_profiles c);
    ("page_types", remapped_sorted_array (st_page_types template) KPageType c);
    ("seeds", remapped_sorted_array (st_seeds template) KSeed c);
    ("transitions", remapped_sorted_array (st_transitions template) KTransition c);
    ("url_matchers", remapped_sorted_array (st_url_matchers template) KUrlMatcher c);
    ("version", version)].

(** The last steps of [semantic_hash_with_semantic_validation]. *)
Definition template_hash `{J : JsonLib} `{Hash : HashLib} (template : SemanticHashTemplate)
    (ids : DeclaredIds) : string :=
  canonical_sha256 (remapped_semantic_payload template (refine_semantic_labels template ids)).
End labels.
