(* ===== verification/SemanticHashTheorems.v ===== *)
(** * What the semantic hash does not depend on

    The labels of [SemanticHash.v] are computed from the configuration alone: renaming
    the version-local ids, or storing the rows in another order, changes neither the
    payload nor its hash. *)

From stdpp Require Import pretty.
From S2P Require Import Prelude Externals JsonFacts Base Instances Settings Crawler Snapshot SemanticHash.

(** ** Values whose objects are maps *)

Fixpoint keys_increase (l : list string) : bool :=
  match l with
  | [] => true
  | k :: l' =>
    forallb (fun k' => match String.compare k k' with Lt => true | _ => false end) l'
    && keys_increase l'
  end.

(** The entries of every object are in the order of their keys: a [serde_json::Map]. *)
Fixpoint json_ordered (v : Json) : bool :=
  match v with
  | JArray l => forallb json_ordered l
  | JObject l => keys_increase (map fst l) && forallb (fun e => json_ordered e.2) l
  | _ => true
  end.

Definition json_map (v : Json) : Prop := json_wf v = true /\ json_ordered v = true.

Lemma keys_increase_lt k l : keys_increase (k :: l) = true -> forall k', k' ∈ l -> String.compare k k' = Lt.
Proof.
  simpl. intros [H _]%andb_true_iff k' Hk%list_elem_of_In. eapply forallb_forall in H; [|exact Hk].
  by destruct (String.compare k k').
Qed.

Lemma keys_increase_tail k l : keys_increase (k :: l) = true -> keys_increase l = true.
Proof. simpl. by intros [_ H]%andb_true_iff. Qed.

(** Two orders of the same keys are the same. *)
Lemma keys_increase_unique (l k : list (string * Json)) :
  keys_increase (map fst l) = true -> keys_increase (map fst k) = true -> l ≡ₚ k -> l = k.
Proof.
  revert k. induction l as [|[a x] l IH]; intros k Hl Hk Hp.
  - symmetry. by apply Permutation_nil.
  - destruct k as [|[b y] k]; [by apply Permutation_sym, Permutation_nil in Hp|].
    pose proof (keys_increase_lt _ _ Hl) as Hla. pose proof (keys_increase_lt _ _ Hk) as Hkb.
    assert ((b, y) = (a, x)) as [= -> ->].
    { assert (Hb : (b, y) ∈ (a, x) :: l) by (rewrite Hp; left).
      assert (Ha : (a, x) ∈ (b, y) :: k) by (rewrite <- Hp; left).
      apply elem_of_cons in Hb as [|Hb]; [done|]. apply elem_of_cons in Ha as [|Ha]; [done|].
      assert (String.compare a b = Lt) as H1 by exact (Hla _ (list_elem_of_fmap_2 fst _ _ Hb)).
      assert (String.compare b a = Lt) as H2 by exact (Hkb _ (list_elem_of_fmap_2 fst _ _ Ha)).
      rewrite String.compare_antisym, H1 in H2. done. }
    f_equal. apply IH; [by eapply keys_increase_tail|by eapply keys_increase_tail|].
    by apply Permutation_cons_inv in Hp.
Qed.

Lemma json_ordered_items l : json_ordered (JArray l) = true <-> Forall (fun v => json_ordered v = true) l.
Proof.
  simpl. rewrite forallb_forall, Forall_forall. by setoid_rewrite list_elem_of_In.
Qed.

Lemma json_ordered_entries l : json_ordered (JObject l) = true <->
  keys_increase (map fst l) = true /\ Forall (fun e => json_ordered e.2 = true) l.
Proof.
  simpl. rewrite andb_true_iff, forallb_forall, Forall_forall. by setoid_rewrite list_elem_of_In.
Qed.

(** A map is determined by its entries: equivalent values are equal. *)
Lemma json_equiv_ordered v : forall u w, json_equiv v u -> json_equiv w u ->
  json_ordered v = true -> json_ordered w = true -> v = w.
Proof.
  induction v as [| | | |l IH|l IH] using json_induction; intros u w Hv Hw Ho Hp.
  1-4: inversion Hv; subst; by inversion Hw.
  - inversion Hv as [| | | |? l' Hl|]; subst. inversion Hw as [| | | |k ? Hk|]; subst. f_equal.
    apply json_ordered_items in Ho. apply json_ordered_items in Hp. clear Hv Hw.
    revert k Hk Hp. induction Hl as [|x y l l' Hx Hl IHl]; intros k Hk Hp.
    + by inversion Hk.
    + inversion Hk; subst. decompose_Forall_hyps. f_equal; eauto.
  - inversion Hv as [| | | | |? l1 l' Hnd Hl Hpl]; subst.
    inversion Hw as [| | | | |k k1 ? Hnk Hk Hpk]; subst.
    apply json_ordered_entries in Ho as [Ho Hol]. apply json_ordered_entries in Hp as [Hp Hpl'].
    assert (exists k', k ≡ₚ k' /\ Forall2 (fun e e' => e.1 = e'.1 /\ json_equiv e.2 e'.2) k' l1)
      as (k' & Hkk & Hk').
    { apply Forall2_flip in Hk. rewrite <- Hpl in Hpk.
      destruct (Permutation_Forall2 Hpk Hk) as (k' & ? & ?). exists k'. split; [done|].
      by apply Forall2_flip. }
    f_equal. apply keys_increase_unique; [done..|]. rewrite Hkk. clear -IH Hl Hk' Hol Hpl' Hkk.
    rewrite Hkk in Hpl'. clear Hkk k. revert k' Hk' Hpl'.
    induction Hl as [|x y l l1 [Hx1 Hx2] Hl IHl]; intros k' Hk' Hpl'.
    + inversion Hk'. by subst.
    + inversion Hk' as [|z ? k'' ? [Hz1 Hz2] Hk'']; subst. decompose_Forall_hyps.
      f_equiv; [|by apply IHl]. destruct x, z; simpl in *. subst. f_equal. eauto.
Qed.

Section text.
Context `{Serde : SerdeLib} {SL : SerdeLaws Serde}.

Lemma canonical_sort_key_inj v w : json_map v -> json_map w ->
  canonical_sort_key v = canonical_sort_key w -> v = w.
Proof.
  intros [Hv Ho] [Hw Hp] H. apply json_round_trip in Hv as (u & Hu & Hv).
  apply json_round_trip in Hw as (u' & Hu' & Hw). unfold canonical_sort_key in H.
  rewrite H, Hu' in Hu. simplify_eq. by eapply json_equiv_ordered.
Qed.

(** The rows of an array are sorted by a text that tells them apart. *)
Lemma sort_values_permutation l k : Forall json_map l -> l ≡ₚ k -> sort_values l = sort_values k.
Proof.
  intros Hl Hp. rewrite Forall_forall in Hl. apply (sorted_perm_unique_on (cmp_on canonical_sort_key String.compare)).
  - intros x y Hx%elem_of_sort_by Hy%elem_of_sort_by Hc.
    apply canonical_sort_key_inj; [by apply Hl..|]. by eapply cmp_eq.
  - apply sort_by_Sorted. apply _.
  - apply sort_by_Sorted. apply _.
  - unfold sort_values. by rewrite !sort_by_perm.
Qed.

Lemma sort_values_map l : Forall json_map l -> Forall json_map (sort_values l).
Proof. intros H. unfold sort_values. by rewrite sort_by_perm. Qed.
End text.

(** ** Loops over maps *)

Lemma foldl_commute {A B X Y} (f : A -> X -> A) (f' : B -> Y -> B) (G : A -> B) (g : X -> Y) l m :
  (forall m x, f' (G m) (g x) = G (f m x)) -> foldl f' (G m) (map g l) = G (foldl f m l).
Proof. intros H. revert m. induction l as [|x l IH]; intros m; simpl; [done|]. by rewrite H, IH. Qed.

Lemma omap_map_ext {A B C} (f : B -> option C) (f' : A -> option C) (g : A -> B) l :
  (forall x, f (g x) = f' x) -> omap f (map g l) = omap f' l.
Proof. intros H. induction l as [|x l IH]; [done|]. simpl. rewrite H. destruct (f' x); [f_equal|]; exact IH. Qed.

Lemma foldl_perm {A X} (f : A -> X -> A) l l' m :
  (forall m x y, f (f m x) y = f (f m y) x) -> l ≡ₚ l' -> foldl f m l = foldl f m l'.
Proof.
  intros Hc Hp. revert m. induction Hp as [|x l l' _ IH|x y l|l l' l'' _ IH1 _ IH2]; intros m; simpl.
  - done.
  - apply IH.
  - by rewrite Hc.
  - by rewrite IH1.
Qed.

Lemma foldl_insert_perm {X A} (key : X -> string) (val : X -> A) l l' (m : gmap string A) :
  NoDup (map key l) -> l ≡ₚ l' ->
  foldl (fun m x => <[key x := val x]> m) m l' = foldl (fun m x => <[key x := val x]> m) m l.
Proof.
  intros Hnd Hp. revert m. induction Hp as [|x l l' _ IH|x y l|l l' l'' Hp1 IH1 _ IH2]; intros m; simpl in *.
  - done.
  - apply IH. by inversion Hnd.
  - apply NoDup_cons in Hnd as [Hy _]. f_equal. apply insert_insert_ne.
    intros He. apply Hy. rewrite He. left.
  - rewrite IH2 by (by rewrite <- Hp1). by apply IH1.
Qed.

Lemma declare_row_comm m s t : declare_row (declare_row m s) t = declare_row (declare_row m t) s.
Proof.
  unfold declare_row. destruct (decide (s = t)) as [->|Hne]; [done|].
  destruct (m !! s) eqn:Hs, (m !! t) eqn:Ht; rewrite ?lookup_insert_ne, ?Hs, ?Ht by done; try done.
  by rewrite insert_insert_ne.
Qed.

(** ** Partitions *)

(** Two ids have the same label. *)
Definition share (m : gmap string string) (i j : string) : Prop :=
  exists l, m !! i = Some l /\ m !! j = Some l.

Lemma group_fold l : forall (g : gmap string (gset string)) i k,
  i ∈ default ∅ (foldl (fun g x => <[x.2 := {[x.1]} ∪ default ∅ (g !! x.2)]> g) g l !! k)
  <-> i ∈ default ∅ (g !! k) \/ (i, k) ∈ l.
Proof.
  induction l as [|[a b] l IH]; intros g i k; simpl; [set_solver|].
  rewrite IH. destruct (decide (b = k)) as [->|Hne].
  - rewrite lookup_insert_eq. simpl. set_solver.
  - rewrite lookup_insert_ne by done. set_solver.
Qed.

Lemma group_fold_dom l : forall (g : gmap string (gset string)) k,
  is_Some (foldl (fun g x => <[x.2 := {[x.1]} ∪ default ∅ (g !! x.2)]> g) g l !! k)
  <-> is_Some (g !! k) \/ exists i, (i, k) ∈ l.
Proof.
  induction l as [|[a b] l IH]; intros g k; simpl; [set_solver|].
  rewrite IH. destruct (decide (b = k)) as [->|Hne].
  - rewrite lookup_insert_eq. split; [|naive_solver]. intros _. right. exists a. left.
  - rewrite lookup_insert_ne by done. set_solver.
Qed.

Lemma elem_of_btree_to_list {A} (m : gmap string A) i x : (i, x) ∈ btree_to_list m <-> m !! i = Some x.
Proof. unfold btree_to_list. by rewrite elem_of_sort_by, elem_of_map_to_list. Qed.

(** A group is the class of one of its members. *)
Lemma label_groups_spec m (S : gset string) :
  S ∈ (list_to_set (map snd (map_to_list (label_groups m))) : gset (gset string))
  <-> exists i, share m i i /\ forall j, j ∈ S <-> share m i j.
Proof.
  assert (Hin : forall i k, i ∈ default ∅ (label_groups m !! k) <-> m !! i = Some k).
  { intros i k. unfold label_groups. rewrite group_fold, elem_of_btree_to_list, lookup_empty. set_solver. }
  rewrite elem_of_list_to_set, elem_of_map. split.
  - intros ([k S'] & -> & Hk%elem_of_map_to_list). simpl.
    assert (exists i, m !! i = Some k) as [i Hi].
    { assert (is_Some (label_groups m !! k)) as Hs by eauto. unfold label_groups in Hs.
      apply group_fold_dom in Hs as [[? Hs]|[i Hi%elem_of_btree_to_list]]; [by rewrite lookup_empty in Hs|eauto]. }
    exists i. split; [by exists k|]. intros j. specialize (Hin j k). rewrite Hk in Hin. simpl in Hin.
    rewrite Hin. unfold share. naive_solver.
  - intros (i & [k [Hk _]] & HS).
    assert (is_Some (label_groups m !! k)) as [S' HS'].
    { unfold label_groups. apply group_fold_dom. right. exists i. by apply elem_of_btree_to_list. }
    exists (k, S'). split; [|by apply elem_of_map_to_list]. simpl. apply set_eq. intros j.
    specialize (Hin j k). rewrite HS' in Hin. simpl in Hin. rewrite Hin, HS. unfold share. naive_solver.
Qed.

Lemma same_partition_spec left right :
  same_semantic_partition left right = true <-> forall i j, share left i j <-> share right i j.
Proof.
  unfold same_semantic_partition. rewrite bool_decide_eq_true.
  assert (Hclass : forall m m' : gmap string string,
    (list_to_set (map snd (map_to_list (label_groups m))) : gset (gset string))
      = list_to_set (map snd (map_to_list (label_groups m'))) ->
    forall i j, share m i j -> share m' i j).
  { intros m m' He i j [k [Hi Hj]].
    assert (exists i0, share m i0 i0 /\ forall x, x ∈ default ∅ (label_groups m !! k) <-> share m i0 x)
      as Hc by (unfold label_groups; exists i; split; [by exists k|]; intros x;
        rewrite group_fold, elem_of_btree_to_list, lookup_empty; unfold share; set_solver).
    apply label_groups_spec in Hc as Hg. rewrite He in Hg. apply label_groups_spec in Hg as (i1 & _ & Hg).
    assert (Hx : forall x, m !! x = Some k -> share m' i1 x).
    { intros x Hx. apply Hg. unfold label_groups.
      rewrite group_fold, elem_of_btree_to_list. by right. }
    destruct (Hx i Hi) as (l & H1 & H2), (Hx j Hj) as (l' & H3 & H4). exists l. naive_solver. }
  split; [intros He i j; split; by apply Hclass|].
  intros H. apply set_eq. intros S. rewrite !label_groups_spec. by setoid_rewrite H.
Qed.

(** ** Renaming *)

(** [ρ] applied to every string of a value (not to the keys of objects). *)
Fixpoint rename_json (ρ : string -> string) (v : Json) : Json :=
  match v with
  | JString s => JString (ρ s)
  | JArray l => JArray (map (rename_json ρ) l)
  | JObject l => JObject (map (fun e => (e.1, rename_json ρ e.2)) l)
  | _ => v
  end.

Fixpoint json_strings (v : Json) : list string :=
  match v with
  | JString s => [s]
  | JArray l => concat (map json_strings l)
  | JObject l => concat (map (fun e => json_strings e.2) l)
  | _ => []
  end.

Lemma map_state_map {A B A' B' S S'} (g : A -> A') (h : S -> S') (k : B -> B')
    (f : A -> S -> B * S) (f' : A' -> S' -> B' * S') l : 
  (forall x s, x ∈ l -> f' (g x) (h s) = prod_map k h (f x s)) ->
  forall s, map_state f' (map g l) (h s) = prod_map (map k) h (map_state f l s).
Proof.
  induction l as [|x l IH]; intros H s; simpl; [done|].
  rewrite H by left. destruct (f x s) as [y s1]. simpl.
  rewrite IH by (intros; apply H; by right). by destruct (map_state f l s1).
Qed.

Lemma collect_indexed_map {A B A' B'} (g : A -> A') (k : B -> B')
    (f : nat -> A -> list B) (f' : nat -> A' -> list B') l :
  (forall i x, x ∈ l -> f' i (g x) = map k (f i x)) ->
  forall i, collect_indexed f' i (map g l) = map k (collect_indexed f i l).
Proof.
  induction l as [|x l IH]; intros H i; simpl; [done|].
  rewrite H by left. rewrite map_app. f_equal. apply IH. intros; apply H; by right.
Qed.

(** What a traversal does to each string decides its shape. *)
Lemma map_state_Forall {A B S} (P : B -> Prop) (f : A -> S -> B * S) l s :
  (forall x s, x ∈ l -> P (f x s).1) -> Forall P (map_state f l s).1.
Proof.
  revert s. induction l as [|x l IH]; intros s H; simpl; [constructor|].
  pose proof (H x s ltac:(left)). destruct (f x s) as [y s1]. simpl in *.
  specialize (IH s1 ltac:(intros; apply H; by right)). destruct (map_state f l s1). by constructor.
Qed.

Lemma map_state_keys {V W S} (f : V -> S -> W * S) (l : list (string * V)) s :
  map fst (map_state (fun e st => let '(v, st) := f e.2 st in ((e.1, v), st)) l s).1 = map fst l.
Proof.
  revert s. induction l as [|[k v] l IH]; intros s; simpl; [done|].
  destruct (f v s) as [w s1]. specialize (IH s1). destruct (map_state _ l s1). simpl in *. by f_equal.
Qed.

(** The first premise of [H] becomes a goal. *)
Ltac give_premise H :=
  match type of H with
  | ?A -> _ => let Hp := fresh in assert A as Hp; [|specialize (H Hp); clear Hp]
  end.

Lemma remap_json_map known labels owner v : json_map v -> forall st,
  json_map (remap_semantic_references_in_scope known labels owner v st).1.
Proof.
  unfold json_map. induction v as [| | |s|l IH|l IH] using json_induction; intros [Hw Ho] st; simpl; try done.
  - by destruct (remap_string _ _ _ _ _).
  - pose proof (json_wf_items _ Hw) as Hws. apply json_ordered_items in Ho.
    pose proof (map_state_Forall (fun v => json_wf v = true /\ json_ordered v = true)
      (remap_semantic_references_in_scope known labels owner) l st) as H.
    give_premise H.
    { intros x s Hx. rewrite Forall_forall in *. eauto. }
    destruct (map_state _ l st) as [l' st']. simpl in *.
    split; [|by apply json_ordered_items; eapply Forall_impl; [exact H|]; intros ? []].
    apply forallb_forall. intros x Hx%list_elem_of_In. rewrite Forall_forall in H. by apply H.
  - pose proof (json_wf_entries _ Hw) as [Hnd Hws]. apply json_ordered_entries in Ho as [Hk Hos].
    set (f := fun v => remap_semantic_references_in_scope known labels owner v) in *.
    pose proof (map_state_keys f l st) as Hkeys.
    pose proof (map_state_Forall (fun e => json_wf e.2 = true /\ json_ordered e.2 = true)
      (fun e st => let '(v, st) := f e.2 st in ((e.1, v), st)) l st) as H.
    change (remap_semantic_references_in_scope known labels owner) with f.
    give_premise H.
    { intros x s Hx. rewrite Forall_forall in *.
      pose proof (IH x Hx (conj (Hws x Hx) (Hos x Hx)) s). by destruct (f x.2 s). }
    destruct (map_state _ l st) as [l' st']. cbn [fst snd] in *.
    split.
    + apply object_json_wf; [by rewrite Hkeys; apply bool_decide_eq_true|].
      eapply Forall_impl; [exact H|]. by intros ? [].
    + apply json_ordered_entries. rewrite Hkeys. split; [done|].
      eapply Forall_impl; [exact H|]. by intros ? [].
Qed.

Section renaming.
Context (ρ : string -> string) `{!Inj (=) (=) ρ}.

Definition rename_keys {A} (m : gmap string A) : gmap string A := kmap (M2 := gmap string) ρ m.

Lemma rename_keys_lookup {A} (m : gmap string A) s : rename_keys m !! ρ s = m !! s.
Proof. apply lookup_kmap. apply _. Qed.

Lemma rename_keys_insert {A} (m : gmap string A) s x :
  rename_keys (<[s := x]> m) = <[ρ s := x]> (rename_keys m).
Proof. apply kmap_insert. apply _. Qed.

Lemma rename_keys_list {A} (m : gmap string A) :
  map_to_list (rename_keys m) ≡ₚ map (prod_map ρ id) (map_to_list m).
Proof. apply map_to_list_kmap. apply _. Qed.

Definition rename_remap (st : RemapState) : RemapState :=
  {| local_references := rename_keys (local_references st);
     next_reference_index := next_reference_index st |}.

(** Every string of the value is a known id, or [ρ] keeps it. *)
Definition renames_known (known : gmap string SemanticEntityKind) (v : Json) : Prop :=
  Forall (fun s => is_Some (known !! s) \/ ρ s = s) (json_strings v).

Lemma renames_known_items known l : renames_known known (JArray l) <-> Forall (renames_known known) l.
Proof.
  unfold renames_known. simpl. rewrite Forall_concat. by rewrite Forall_map.
Qed.

Lemma renames_known_entries known l :
  renames_known known (JObject l) <-> Forall (fun e => renames_known known e.2) l.
Proof.
  unfold renames_known. simpl. rewrite Forall_concat.
  by rewrite Forall_map.
Qed.

Lemma string_eqb_rename s o : String.eqb (ρ s) (ρ o) = String.eqb s o.
Proof.
  destruct (String.eqb_spec s o) as [->|Hne]; [apply String.eqb_refl|].
  apply String.eqb_neq. naive_solver.
Qed.

(** A string is replaced by the same text whatever its id is called. *)
Lemma remap_string_rename known labels owner s st :
  is_Some (known !! s) \/ ρ s = s ->
  remap_string (rename_keys known) (rename_keys <$> labels) (prod_map ρ id <$> owner) (ρ s) (rename_remap st)
  = prod_map id rename_remap (remap_string known labels owner s st).
Proof.
  intros Hs. unfold remap_string, reference_label.
  assert ((if if prod_map ρ id <$> owner is Some (o, _) then String.eqb (ρ s) o else false
      then prod_map ρ id <$> owner else None)
    = prod_map ρ id <$> (if if owner is Some (o, _) then String.eqb s o else false then owner else None)) as ->.
  { destruct owner as [[o k]|]; simpl; [|done]. rewrite string_eqb_rename. by destruct (String.eqb s o). }
  destruct (if if owner is Some (o, _) then String.eqb s o else false then owner else None) as [[o k]|];
    simpl; [done|].
  rewrite rename_keys_lookup. destruct (known !! s) as [k|] eqn:Hk; [|by destruct Hs as [[]| ->]].
  assert ((rename_keys <$> labels) ≫= (.!! ρ s) = labels ≫= (.!! s)) as ->.
  { destruct labels; simpl; [apply rename_keys_lookup|done]. }
  rewrite rename_keys_lookup.
  destruct (local_references st !! s); simpl; [done|].
  unfold prod_map, rename_remap. simpl. by rewrite rename_keys_insert.
Qed.

Lemma remap_in_scope_rename known labels owner v : renames_known known v -> forall st,
  remap_semantic_references_in_scope (rename_keys known) (rename_keys <$> labels)
    (prod_map ρ id <$> owner) (rename_json ρ v) (rename_remap st)
  = prod_map id rename_remap (remap_semantic_references_in_scope known labels owner v st).
Proof.
  induction v as [| | |s|l IH|l IH] using json_induction; intros H st; simpl; try done.
  - rewrite remap_string_rename by (by exact (Forall_inv H)).
    by destruct (remap_string _ _ _ _ _).
  - apply renames_known_items in H. rewrite Forall_forall in IH, H.
    rewrite (map_state_map _ rename_remap id (remap_semantic_references_in_scope known labels owner))
      by (intros x s Hx; apply IH; auto).
    destruct (map_state _ l st). simpl. by rewrite map_id.
  - apply renames_known_entries in H. rewrite Forall_forall in IH, H.
    rewrite (map_state_map _ rename_remap id (fun e st =>
        let '(v, st) := remap_semantic_references_in_scope known labels owner e.2 st in ((e.1, v), st))).
    + destruct (map_state _ l st). simpl. by rewrite map_id.
    + intros x s Hx. simpl. rewrite IH by auto.
      by destruct (remap_semantic_references_in_scope _ _ _ _ _).
Qed.

Lemma remap_rename known labels owner v : renames_known known v ->
  remap_semantic_references (rename_keys known) (rename_keys <$> labels) (prod_map ρ id <$> owner)
    (rename_json ρ v)
  = remap_semantic_references known labels owner v.
Proof.
  intros H. unfold remap_semantic_references.
  change empty_remap with (rename_remap empty_remap) at 1. by rewrite remap_in_scope_rename.
Qed.

(** References are found at the same places. *)
Lemma references_rename known owner v : renames_known known v -> forall path,
  collect_semantic_references (rename_keys known) (ρ owner) path (rename_json ρ v)
  = map (prod_map ρ id) (collect_semantic_references known owner path v).
Proof.
  induction v as [| | |s|l IH|l IH] using json_induction; intros H path; simpl; try done.
  - rewrite rename_keys_lookup, string_eqb_rename. destruct (known !! s); [|done].
    by destruct (String.eqb path "/id" && String.eqb s owner).
  - apply renames_known_items in H. rewrite Forall_forall in IH, H.
    apply collect_indexed_map. intros i x Hx. by apply IH; auto.
  - apply renames_known_entries in H. rewrite Forall_forall in IH, H.
    apply (collect_indexed_map (fun e => (e.1, rename_json ρ e.2))). intros i x Hx. by apply IH; auto.
Qed.

(** ** Entities *)

Definition rename_entity (e : SemanticEntity) : SemanticEntity :=
  {| en_id := ρ (en_id e); en_kind := en_kind e; en_value := rename_json ρ (en_value e) |}.

Definition of_kind (k : SemanticEntityKind) (es : list SemanticEntity) : list SemanticEntity :=
  filter (fun e => en_kind e = k) es.

(** Two lists of entities that differ in the names of their ids and in their order. *)
Record renamed_entities (es es' : list SemanticEntity) : Prop := {
  re_perm : es' ≡ₚ map rename_entity es;
  re_unique k : NoDup (map en_id (of_kind k es));
  re_known : kinds_of es' = rename_keys (kinds_of es)
}.

Lemma of_kind_rename k es : of_kind k (map rename_entity es) = map rename_entity (of_kind k es).
Proof.
  induction es as [|e es IH]; [done|]. unfold of_kind in *. simpl. rewrite !filter_cons. simpl.
  case_decide; simpl; by rewrite IH.
Qed.

Lemma re_of_kind es es' k : renamed_entities es es' -> of_kind k es' ≡ₚ map rename_entity (of_kind k es).
Proof. intros H. unfold of_kind at 1. rewrite (re_perm _ _ H). by rewrite <- of_kind_rename. Qed.

Lemma row_id_rename row : row_id (rename_json ρ row) = ρ <$> row_id row.
Proof.
  unfold row_id. destruct row as [| | | | |l]; simpl; try done.
  induction l as [|[k v] l IH]; simpl; [done|].
  destruct (String.eqb k "id"); [|exact IH]. simpl. by destruct v.
Qed.

Lemma keyed_rows_rename rows :
  keyed_rows (map (rename_json ρ) rows) = map (prod_map ρ (rename_json ρ)) (keyed_rows rows).
Proof.
  induction rows as [|row rows IH]; simpl; [done|]. unfold keyed_rows in *. simpl.
  rewrite row_id_rename. destruct (row_id row); simpl; by rewrite IH.
Qed.

Definition rename_rows (m : gmap string Json) : gmap string Json := rename_json ρ <$> rename_keys m.

Lemma rename_rows_lookup m s : rename_rows m !! ρ s = rename_json ρ <$> m !! s.
Proof. unfold rename_rows. by rewrite lookup_fmap, rename_keys_lookup. Qed.

Lemma declare_row_rename m s : declare_row (rename_rows m) (ρ s) = rename_rows (declare_row m s).
Proof.
  unfold declare_row. rewrite rename_rows_lookup. destruct (m !! s); simpl; [done|].
  unfold rename_rows. by rewrite rename_keys_insert, fmap_insert.
Qed.

Lemma declare_rows_rename rows declared rows' declared' :
  NoDup (map fst (keyed_rows rows)) ->
  rows' ≡ₚ map (rename_json ρ) rows -> declared' ≡ₚ map ρ declared ->
  foldl declare_row (rows_by_id rows') declared'
  = rename_rows (foldl declare_row (rows_by_id rows) declared).
Proof.
  intros Hnd Hr Hd. assert (rows_by_id rows' = rename_rows (rows_by_id rows)) as ->.
  { unfold rows_by_id. rewrite (foldl_insert_perm fst snd (keyed_rows (map (rename_json ρ) rows)) (keyed_rows rows')).
    - rewrite keyed_rows_rename. change ∅ with (rename_rows ∅) at 1. apply foldl_commute.
      intros m [i v]. simpl. unfold rename_rows. by rewrite rename_keys_insert, fmap_insert.
    - rewrite keyed_rows_rename, map_map. simpl. rewrite <- (map_map fst ρ). by apply NoDup_fmap_2.
    - unfold keyed_rows. by rewrite Hr. }
  rewrite (foldl_perm declare_row) with (l' := map ρ declared); [|apply declare_row_comm|done].
  apply foldl_commute. intros m s. apply declare_row_rename.
Qed.

Definition entity_of (kind : SemanticEntityKind) (kv : string * Json) : SemanticEntity :=
  {| en_id := kv.1; en_kind := kind; en_value := kv.2 |}.

Lemma extend_rename kind rows declared rows' declared' :
  NoDup (map fst (keyed_rows rows)) ->
  rows' ≡ₚ map (rename_json ρ) rows -> declared' ≡ₚ map ρ declared ->
  extend_semantic_entities kind declared' rows'
  ≡ₚ map rename_entity (extend_semantic_entities kind declared rows).
Proof.
  intros Hnd Hr Hd. unfold extend_semantic_entities. rewrite (declare_rows_rename rows declared) by done.
  unfold btree_to_list. rewrite !sort_by_perm. unfold rename_rows. rewrite map_to_list_fmap.
  rewrite rename_keys_list.
  change (fmap (prod_map id (rename_json ρ))) with (map (prod_map (@id string) (rename_json ρ))).
  by rewrite !map_map.
Qed.

Lemma extend_ids kind rows declared :
  NoDup (map en_id (extend_semantic_entities kind declared rows)).
Proof.
  unfold extend_semantic_entities. rewrite map_map. cbn [en_id].
  unfold btree_to_list. rewrite sort_by_perm. apply NoDup_fst_map_to_list.
Qed.

Lemma of_kind_app k es fs : of_kind k (es ++ fs) = of_kind k es ++ of_kind k fs.
Proof. apply filter_app. Qed.

Lemma of_kind_extend k kind declared rows :
  of_kind k (extend_semantic_entities kind declared rows)
  = if decide (kind = k) then extend_semantic_entities kind declared rows else [].
Proof.
  unfold of_kind, extend_semantic_entities.
  induction (btree_to_list _) as [|kv l IH]; [by case_decide|]. simpl. rewrite filter_cons. simpl.
  rewrite IH. by case_decide.
Qed.

(** The kind a later entity gives an id replaces an earlier one. *)
Definition add_kinds (m : gmap string SemanticEntityKind) (es : list SemanticEntity) :=
  foldl (fun m e => <[en_id e := en_kind e]> m) m es.

Lemma add_kinds_rename m es es' :
  NoDup (map en_id es) -> es' ≡ₚ map rename_entity es ->
  add_kinds (rename_keys m) es' = rename_keys (add_kinds m es).
Proof.
  intros Hnd Hp. unfold add_kinds. rewrite (foldl_insert_perm en_id en_kind (map rename_entity es) es').
  - apply foldl_commute. intros n e. simpl. by rewrite rename_keys_insert.
  - rewrite map_map. simpl. rewrite <- (map_map en_id ρ). by apply NoDup_fmap_2.
  - done.
Qed.

(** The parts a hash is computed from, under other ids and in another order. *)
Record renamed_template (T : SemanticHashTemplate) (ids : DeclaredIds)
    (T' : SemanticHashTemplate) (ids' : DeclaredIds) : Prop := {
  rt_version : st_version T' = rename_json ρ (st_version T);
  rt_seeds : st_seeds T' ≡ₚ map (rename_json ρ) (st_seeds T);
  rt_page_types : st_page_types T' ≡ₚ map (rename_json ρ) (st_page_types T);
  rt_url_matchers : st_url_matchers T' ≡ₚ map (rename_json ρ) (st_url_matchers T);
  rt_transitions : st_transitions T' ≡ₚ map (rename_json ρ) (st_transitions T);
  rt_declared_seeds : declared_seeds ids' ≡ₚ map ρ (declared_seeds ids);
  rt_declared_page_types : declared_page_types ids' ≡ₚ map ρ (declared_page_types ids);
  rt_declared_transitions : declared_transitions ids' ≡ₚ map ρ (declared_transitions ids)
}.

Definition row_ids_unique (rows : list Json) : Prop := NoDup (map fst (keyed_rows rows)).

Record unique_rows (T : SemanticHashTemplate) : Prop := {
  ur_seeds : row_ids_unique (st_seeds T);
  ur_page_types : row_ids_unique (st_page_types T);
  ur_url_matchers : row_ids_unique (st_url_matchers T);
  ur_transitions : row_ids_unique (st_transitions T)
}.

Lemma semantic_entities_renamed T ids T' ids' :
  renamed_template T ids T' ids' -> unique_rows T ->
  renamed_entities (semantic_entities T ids) (semantic_entities T' ids').
Proof.
  intros [Hv Hs Hp Hm Ht Hds Hdp Hdt] [Us Up Um Ut].
  pose proof (extend_rename KSeed _ _ _ _ Us Hs Hds) as Es.
  pose proof (extend_rename KPageType _ _ _ _ Up Hp Hdp) as Ep.
  pose proof (extend_rename KUrlMatcher _ [] _ [] Um Hm ltac:(done)) as Em.
  pose proof (extend_rename KTransition _ _ _ _ Ut Ht Hdt) as Et.
  unfold semantic_entities. split.
  - rewrite !map_app. by rewrite Es, Ep, Em, Et.
  - intros k. rewrite !of_kind_app, !of_kind_extend.
    destruct k; simpl; rewrite ?app_nil_r; apply extend_ids.
  - unfold kinds_of. rewrite !foldl_app. fold add_kinds. fold (add_kinds ∅).
    change ∅ with (rename_keys (∅ : gmap string SemanticEntityKind)) at 1.
    repeat (erewrite add_kinds_rename; [|apply extend_ids|first [exact Es|exact Ep|exact Em|exact Et]]).
    done.
Qed.

(** ** Incidence *)

Definition source_of (labels : option (gmap string string)) (e : SemanticEntity) : string :=
  default (kind_label (en_kind e)) (labels ≫= (.!! (en_id e))).

(** The mentions of [t] in one entity. *)
Definition mentions (known : gmap string SemanticEntityKind) (labels : option (gmap string string))
    (t : string) (e : SemanticEntity) : list Json :=
  map (fun r => incidence (source_of labels e) r.2)
    (filter (fun r => r.1 = t) (semantic_references (en_value e) known (en_id e))).

Lemma push_incidence_lookup source refs m t :
  default [] (foldl (push_incidence source) m refs !! t)
  = default [] (m !! t) ++ map (fun r => incidence source r.2) (filter (fun r => r.1 = t) refs).
Proof.
  revert m. induction refs as [|[s p] refs IH]; intros m; simpl; [by rewrite app_nil_r|].
  rewrite IH, filter_cons. unfold push_incidence. simpl. case_decide as Hs.
  - subst. rewrite lookup_insert_eq. simpl. by rewrite <- app_assoc.
  - by rewrite lookup_insert_ne by done.
Qed.

Lemma incoming_lookup es known labels t :
  default [] (incoming_incidence es known labels !! t) = concat (map (mentions known labels t) es).
Proof.
  unfold incoming_incidence. enough (forall m, default [] (foldl (fun m e =>
    foldl (push_incidence (source_of labels e)) m (semantic_references (en_value e) known (en_id e))) m es !! t)
    = default [] (m !! t) ++ concat (map (mentions known labels t) es)) as H;
    [specialize (H ∅); rewrite lookup_empty in H; exact H|].
  induction es as [|e es IH]; intros m; simpl; [by rewrite app_nil_r|].
  by rewrite IH, push_incidence_lookup, <- app_assoc.
Qed.

Lemma mentions_rename known labels t e : renames_known known (en_value e) ->
  mentions (rename_keys known) (rename_keys <$> labels) (ρ t) (rename_entity e) = mentions known labels t e.
Proof.
  intros H. unfold mentions, semantic_references. simpl. rewrite references_rename by done.
  assert (source_of (rename_keys <$> labels) (rename_entity e) = source_of labels e) as ->.
  { unfold source_of. simpl. destruct labels; simpl; [by rewrite rename_keys_lookup|done]. }
  induction (collect_semantic_references known (en_id e) "" (en_value e)) as [|[s p] l IH]; [done|].
  simpl. rewrite !filter_cons. simpl. destruct (decide (s = t)) as [->|Hne].
  - rewrite decide_True by done. simpl. by rewrite IH.
  - by rewrite decide_False by naive_solver.
Qed.

Definition entities_ok (es : list SemanticEntity) : Prop :=
  Forall (fun e => json_map (en_value e) /\ renames_known (kinds_of es) (en_value e)) es.

Lemma incoming_renamed es es' labels t : renamed_entities es es' -> entities_ok es ->
  default [] (incoming_incidence es' (kinds_of es') (rename_keys <$> labels) !! ρ t)
  ≡ₚ default [] (incoming_incidence es (kinds_of es) labels !! t).
Proof.
  intros H Hok. rewrite !incoming_lookup, (re_known _ _ H), (re_perm _ _ H), map_map.
  apply reflexive_eq. f_equal. apply map_ext_Forall. eapply Forall_impl; [exact Hok|].
  intros e [_ He]. by apply mentions_rename.
Qed.

Lemma mentions_map known labels t e : Forall json_map (mentions known labels t e).
Proof.
  unfold mentions. apply Forall_map, Forall_true. intros r. by split.
Qed.

Lemma incoming_map es known labels t :
  Forall json_map (default [] (incoming_incidence es known labels !! t)).
Proof.
  rewrite incoming_lookup. apply Forall_concat, Forall_map, Forall_true. intros e. apply mentions_map.
Qed.

(** ** Labels *)

Context `{Serde : SerdeLib} {SL : SerdeLaws Serde}.

Lemma signature_renamed es es' labels e : renamed_entities es es' -> entities_ok es -> e ∈ es ->
  entity_signature (kinds_of es') (rename_keys <$> labels)
    (incoming_incidence es' (kinds_of es') (rename_keys <$> labels)) (rename_entity e)
  = entity_signature (kinds_of es) labels (incoming_incidence es (kinds_of es) labels) e.
Proof.
  intros H Hok He. unfold entity_signature, sorted_array. cbn [rename_entity en_id en_kind en_value].
  rewrite (sort_values_permutation _ (default [] (incoming_incidence es (kinds_of es) labels !! en_id e)))
    by first [apply incoming_map | by apply incoming_renamed].
  rewrite (re_known _ _ H).
  change (Some (ρ (en_id e), en_kind e)) with (prod_map ρ id <$> Some (en_id e, en_kind e)).
  unfold entities_ok in Hok. rewrite Forall_forall in Hok. rewrite remap_rename by by apply Hok. done.
Qed.

Lemma kind_signatures_renamed es es' labels k : renamed_entities es es' -> entities_ok es ->
  kind_signatures (kinds_of es') (rename_keys <$> labels)
    (incoming_incidence es' (kinds_of es') (rename_keys <$> labels)) k es'
  ≡ₚ map (prod_map ρ id)
    (kind_signatures (kinds_of es) labels (incoming_incidence es (kinds_of es) labels) k es).
Proof.
  intros H Hok. unfold kind_signatures. fold (of_kind k es') (of_kind k es).
  rewrite (re_of_kind _ _ k H), !map_map. apply reflexive_eq. apply map_ext_Forall, Forall_forall.
  intros e [_ He]%list_elem_of_filter. unfold prod_map. simpl. by rewrite (signature_renamed es).
Qed.

Lemma label_kind_renamed k l l' m : NoDup (map fst l) -> l' ≡ₚ map (prod_map ρ id) l ->
  label_kind k l' (rename_keys m) = rename_keys (label_kind k l m).
Proof.
  intros Hnd Hp. unfold label_kind.
  assert (ranked (map snd l') = ranked (map snd l)) as ->.
  { unfold ranked. f_equal. rewrite Hp, map_map. simpl. done. }
  rewrite (foldl_insert_perm fst (fun x => rank_label k (default 0%nat
    (position (String.eqb x.2) (ranked (map snd l))))) (map (prod_map ρ id) l) l').
  - apply foldl_commute. intros n [i s]. simpl. by rewrite rename_keys_insert.
  - rewrite map_map. simpl. rewrite <- (map_map fst ρ). by apply NoDup_fmap_2.
  - done.
Qed.

Lemma labels_renamed es es' labels : renamed_entities es es' -> entities_ok es ->
  labels_for_entities es' (kinds_of es') (rename_keys <$> labels)
    (incoming_incidence es' (kinds_of es') (rename_keys <$> labels))
  = rename_keys (labels_for_entities es (kinds_of es) labels (incoming_incidence es (kinds_of es) labels)).
Proof.
  intros H Hok. unfold labels_for_entities.
  change ∅ with (rename_keys (∅ : gmap string string)) at 1.
  generalize (∅ : gmap string string). induction all_kinds as [|k ks IH]; intros m; simpl; [done|].
  rewrite (label_kind_renamed _ (kind_signatures (kinds_of es) labels
    (incoming_incidence es (kinds_of es) labels) k es)); [apply IH| |by apply kind_signatures_renamed].
  unfold kind_signatures. rewrite map_map. exact (re_unique _ _ H k).
Qed.

Lemma share_rename m i j : share (rename_keys m) i j <->
  exists i' j', i = ρ i' /\ j = ρ j' /\ share m i' j'.
Proof.
  unfold share, rename_keys. setoid_rewrite (lookup_kmap_Some (M2 := gmap string) ρ). naive_solver.
Qed.

Lemma same_partition_rename left right :
  same_semantic_partition (rename_keys left) (rename_keys right) = same_semantic_partition left right.
Proof.
  apply eq_true_iff_eq. rewrite !same_partition_spec. setoid_rewrite share_rename. split.
  - intros H i j. specialize (H (ρ i) (ρ j)). naive_solver.
  - intros H i j. naive_solver.
Qed.

Lemma refine_renamed es es' rounds labels : renamed_entities es es' -> entities_ok es ->
  refine_labels rounds es' (kinds_of es') (rename_keys labels)
  = rename_keys (refine_labels rounds es (kinds_of es) labels).
Proof.
  intros H Hok. revert labels. induction rounds as [|rounds IH]; intros labels; simpl; [done|].
  pose proof (labels_renamed es es' (Some labels) H Hok) as Hl. simpl in Hl. rewrite Hl.
  rewrite same_partition_rename. destruct (same_semantic_partition _ _); [done|apply IH].
Qed.

(** ** The payload *)

Definition template_rows (T : SemanticHashTemplate) : list Json :=
  st_seeds T ++ st_page_types T ++ st_url_matchers T ++ st_transitions T.

(** Every value is a map, and [ρ] touches only ids that the configuration declares. *)
Definition template_ok (T : SemanticHashTemplate) (ids : DeclaredIds) : Prop :=
  Forall (fun v => json_map v /\ renames_known (kinds_of (semantic_entities T ids)) v)
    (st_version T :: template_rows T).

Lemma add_kinds_mono es m i : is_Some (m !! i) -> is_Some (add_kinds m es !! i).
Proof.
  revert m. induction es as [|e es IH]; intros m H; simpl; [done|].
  apply IH. destruct (decide (en_id e = i)) as [->|?]; [rewrite lookup_insert_eq; eauto|].
  by rewrite lookup_insert_ne.
Qed.

Lemma kinds_of_known es e : e ∈ es -> is_Some (kinds_of es !! en_id e).
Proof.
  unfold kinds_of. fold (add_kinds ∅ es). generalize (∅ : gmap string SemanticEntityKind).
  induction es as [|e' es IH]; intros m He; [by apply not_elem_of_nil in He|].
  apply elem_of_cons in He as [->|He]; [|by apply IH].
  simpl. apply add_kinds_mono. rewrite lookup_insert_eq. eauto.
Qed.

Lemma rows_by_id_elem rows i v : rows_by_id rows !! i = Some v -> v ∈ rows.
Proof.
  unfold rows_by_id. assert (Hkv : forall i v, (i, v) ∈ keyed_rows rows -> v ∈ rows).
  { intros j w (row & Hrow & Hj)%list_elem_of_omap. destruct (row_id row); by simplify_eq/=. }
  enough (forall l m, (forall i v, (i, v) ∈ l -> v ∈ rows) -> (forall i v, m !! i = Some v -> v ∈ rows) ->
    forall i v, foldl (fun m kv => <[kv.1 := kv.2]> m) m l !! i = Some v -> v ∈ rows) as H
    by (apply (H _ ∅ Hkv); intros ??; by rewrite lookup_empty).
  clear. induction l as [|[k w] l IH]; intros m Hl Hm i v; simpl; [apply Hm|].
  apply IH; [intros; apply (Hl i0); by right|]. intros j x. rewrite lookup_insert_Some.
  intros [[-> ->]|[_ ?]]; [apply (Hl j); left|eauto].
Qed.

Lemma extend_values kind declared rows e : e ∈ extend_semantic_entities kind declared rows ->
  en_value e ∈ rows \/ en_value e = id_only_row (en_id e).
Proof.
  unfold extend_semantic_entities. intros ([i v] & -> & H%elem_of_btree_to_list)%elem_of_map. simpl.
  revert i v H. pose proof (rows_by_id_elem rows) as Hm. revert Hm. generalize (rows_by_id rows).
  enough (forall m : gmap string Json,
    (forall i v, m !! i = Some v -> v ∈ rows \/ v = id_only_row i) ->
    forall i v, foldl declare_row m declared !! i = Some v -> v ∈ rows \/ v = id_only_row i) as H
    by (intros m Hm; apply H; eauto).
  induction declared as [|d declared IH]; intros m Hm i v; simpl; [apply Hm|].
  apply IH. intros j x. unfold declare_row. destruct (m !! d) eqn:Hd; [apply Hm|].
  rewrite lookup_insert_Some. intros [[-> <-]|[_ ?]]; [by right|eauto].
Qed.

Lemma template_entities_ok T ids : template_ok T ids -> entities_ok (semantic_entities T ids).
Proof.
  intros [_ H]%Forall_cons. unfold entities_ok. rewrite Forall_forall in H. apply Forall_forall. intros e He.
  assert (en_value e ∈ template_rows T \/ en_value e = id_only_row (en_id e)) as [Hr|Hr].
  { unfold semantic_entities in He. rewrite !elem_of_app in He. unfold template_rows.
    rewrite !elem_of_app. destruct He as [He|[He|[He|He]]]; apply extend_values in He; tauto. }
  - by apply H.
  - rewrite Hr. split; [by split|]. apply renames_known_entries, Forall_singleton, Forall_singleton.
    left. by apply kinds_of_known.
Qed.

Lemma payload_renamed T T' ids ids' c c' :
  renamed_template T ids T' ids' ->
  Forall (fun v => json_map v /\ renames_known (known_kinds c) v) (st_version T :: template_rows T) ->
  known_kinds c' = rename_keys (known_kinds c) -> labels c' = rename_keys (labels c) ->
  (forall t, default [] (incoming c' !! ρ t) ≡ₚ default [] (incoming c !! t)) ->
  (forall t, Forall json_map (default [] (incoming c !! t))) ->
  remapped_semantic_payload T' c' = remapped_semantic_payload T c.
Proof.
  intros [Hv Hs Hp Hm Ht _ _ _] [[_ Hvok] Hok]%Forall_cons Hknown Hlabels Hinc Hincm.
  assert (Hrow : forall k row, renames_known (known_kinds c) row ->
    remap_row c' k (rename_json ρ row) = remap_row c k row).
  { intros k row Hr. unfold remap_row. rewrite Hknown, Hlabels, row_id_rename.
    replace ((fun id => (id, k)) <$> (ρ <$> row_id row)) with (prod_map ρ id <$> ((fun id => (id, k)) <$> row_id row))
      by (by destruct (row_id row)).
    by apply (remap_rename _ (Some (labels c))). }
  assert (Hrows : forall k rows rows', rows' ≡ₚ map (rename_json ρ) rows -> rows ⊆ template_rows T ->
    remapped_sorted_array rows' k c' = remapped_sorted_array rows k c).
  { intros k rows rows' Hperm Hsub. unfold remapped_sorted_array, sorted_array. f_equal. symmetry.
    rewrite Forall_forall in Hok. apply sort_values_permutation.
    - apply Forall_map, Forall_forall. intros v Hin. unfold remap_row, remap_semantic_references.
      apply remap_json_map. by apply Hok, Hsub.
    - rewrite Hperm, map_map. apply reflexive_eq. apply map_ext_Forall, Forall_forall.
      intros v Hin. symmetry. by apply Hrow, Hok, Hsub. }
  unfold remapped_semantic_payload, template_rows in *.
  rewrite (Hrows _ _ _ Hs), (Hrows _ _ _ Hp), (Hrows _ _ _ Hm), (Hrows _ _ _ Ht) by set_solver.
  rewrite Hv, Hknown, Hlabels. rewrite (remap_rename (known_kinds c) (Some (labels c)) None) by done.
  f_equal. f_equal. f_equal. unfold anonymous_incidence_profiles, sorted_array. f_equal. symmetry.
  set (profile := fun x : string * string => (fun kind => JObject [
      ("incoming", JArray (sort_values (default [] (incoming c !! x.1))));
      ("kind", JString (label_prefix kind)); ("label", JString x.2)]) <$> known_kinds c !! x.1).
  assert (Hprofile : forall x, x ∈ omap profile (btree_to_list (labels c)) -> json_map x).
  { intros x ([i l] & _ & Hx)%list_elem_of_omap. unfold profile in Hx. simpl in Hx.
    destruct (known_kinds c !! i); simplify_eq/=. pose proof (sort_values_map _ (Hincm i)) as Hsorted.
    split; simpl; rewrite !andb_true_iff; split_and!; try done; apply forallb_forall;
      intros v Hv'%list_elem_of_In; rewrite Forall_forall in Hsorted; by apply Hsorted. }
  apply sort_values_permutation; [by apply Forall_forall|].
  rewrite Hlabels. unfold btree_to_list. rewrite !sort_by_perm, rename_keys_list.
  apply reflexive_eq. symmetry. apply omap_map_ext. intros [i l]. unfold profile.
  cbn [prod_map fst snd id]. rewrite Hknown, rename_keys_lookup.
  by rewrite <- (sort_values_permutation _ _ (Hincm i) (symmetry (Hinc i))).
Qed.
End renaming.

(** C12. A version's semantic hash is the same whatever its seeds, page types, matchers and
    transitions are called, and in whatever order their rows are read: [ρ] renames the
    ids that the configuration declares, and the rows of each table are permuted. *)
Theorem semantic_hash_ignores_ids `{Serde : SerdeLib} {SL : SerdeLaws Serde} `{J : JsonLib} `{Hash : HashLib}
    (ρ : string -> string) `{!Inj (=) (=) ρ} (T T' : SemanticHashTemplate) (ids ids' : DeclaredIds) :
  renamed_template ρ T ids T' ids' -> unique_rows T -> template_ok ρ T ids ->
  template_hash T' ids' = template_hash T ids.
Proof.
  intros Hr Hu Hok. unfold template_hash. f_equal.
  pose proof (semantic_entities_renamed ρ T ids T' ids' Hr Hu) as He.
  pose proof (template_entities_ok ρ T ids Hok) as Heok.
  assert (labels (refine_semantic_labels T' ids') = rename_keys ρ (labels (refine_semantic_labels T ids))) as Hl.
  { simpl. rewrite (labels_renamed ρ _ _ None He Heok). rewrite (refine_renamed ρ _ _ _ _ He Heok).
    f_equal. f_equal. rewrite (re_perm _ _ _ He). by rewrite length_map. }
  apply (payload_renamed ρ T T' ids ids'); [done|exact Hok|exact (re_known _ _ _ He)|exact Hl| |].
  - intros t. change (incoming (refine_semantic_labels T' ids')) with
      (incoming_incidence (semantic_entities T' ids') (kinds_of (semantic_entities T' ids'))
        (Some (labels (refine_semantic_labels T' ids')))). rewrite Hl.
    apply (incoming_renamed ρ _ _ (Some (labels (refine_semantic_labels T ids))) t He Heok).
  - intros t. apply incoming_map.
Qed.

(** The ids ["a"] and ["b"] of two page types that refer to each other are exchanged, and
    their rows are read in the other order. *)
Definition swap_ab (s : string) : string :=
  if String.eqb s "a" then "b" else if String.eqb s "b" then "a" else s.

#[local] Instance swap_ab_inj : Inj (=) (=) swap_ab.
Proof.
  intros s t. unfold swap_ab. repeat case_match; boolify; try naive_solver.
Qed.

Definition page_row (id name other : string) : Json :=
  JObject [("configuration", JObject [("next", JArray [JString other; JString id])]);
           ("id", JString id); ("name", JString name)].

Definition pair_template (first second : Json) (a b : string) : SemanticHashTemplate := {|
  st_version := JObject [("page_type_ids", JArray [JString a; JString b])];
  st_seeds := []; st_page_types := [first; second]; st_url_matchers := []; st_transitions := [] |}.

Definition pair_ids (a b : string) : DeclaredIds :=
  {| declared_seeds := []; declared_page_types := [a; b]; declared_transitions := [] |}.

Lemma semantic_hash_ignores_ids_witness :
  template_hash (Serde := plain_serde) (J := plain_json) (Hash := plain_hash)
    (pair_template (page_row "a" "second" "b") (page_row "b" "first" "a") "b" "a") (pair_ids "a" "b")
  = template_hash (Serde := plain_serde) (J := plain_json) (Hash := plain_hash)
    (pair_template (page_row "a" "first" "b") (page_row "b" "second" "a") "a" "b") (pair_ids "a" "b").
Proof.
  apply (semantic_hash_ignores_ids swap_ab).
  - split; try reflexivity; simpl; apply Permutation_swap.
  - split; unfold row_ids_unique; simpl; repeat constructor; set_solver.
  - repeat apply Forall_cons_2; try apply Forall_nil_2; (split; [split; reflexivity|]);
      unfold renames_known; repeat (apply Forall_nil_2 || (apply Forall_cons_2;
        [first [right; reflexivity | left; vm_compute; eauto] | simpl app])).
Defined.
