(* ===== verification/AuthoringStore.v ===== *)
(** * The tables of crawler authoring

    [migrations/0001_system.sql] and [0002_crawler_core.sql]: crawlers, their versions
    and the rows a version owns, with the constraints, foreign keys and triggers SQLite
    enforces, and the statements of [crates/erabi-db/src/repositories/crawler.rs] and
    [test_evidence.rs] on them.

    A table is a map from its primary key, and a transaction a function of the tables to
    an answer and the changed tables; it is rolled back on an error.  The rows of a crawl
    refer to published versions only, and the triggers keep the rows those own, so that
    their foreign keys reject no statement of these repositories. *)

From S2P Require Import Prelude Externals Base Crawler TraversalTables Store.

(** ** Tables *)

Record CrawlerRow := {
  cr_name : string;
  cr_collection_id : option string;
  cr_operational_defaults_json : string;
  cr_active_published : option string;
  cr_active_draft : option string
}.

Record CrawlerVersionRow := {
  vn_crawler_id : string;
  vn_state : CrawlerVersionState;
  vn_json : string
}.

Record SeedRow := {
  sd_version_id : string;
  sd_original_url : string;
  sd_canonical_url : string;
  sd_enabled : Z;
  sd_label : option string;
  sd_hint : option string
}.

Record PageTypeRow := {
  pg_version_id : string;
  pg_name : string;
  pg_priority : Z;
  pg_json : string
}.

Record MatcherRow := {
  um_page_type_id : string;
  um_ordinal : Z;
  um_json : string
}.

Record TransitionRow := {
  dt_version_id : string;
  dt_json : string
}.

Record EvidenceRow := {
  te_version_id : string;
  te_json : string;
  te_executed_at : string
}.

(** [t_drawn] counts the identifiers [Uuid::now_v7] has supplied. *)
Record AuthoringDb := {
  t_crawlers : gmap string CrawlerRow;
  t_versions : gmap string CrawlerVersionRow;
  t_seeds : gmap string SeedRow;
  t_page_types : gmap string PageTypeRow;
  t_url_matchers : gmap string MatcherRow;
  t_transitions : gmap string TransitionRow;
  t_audit : gmap string AuditRow;
  t_evidence : gmap string EvidenceRow;
  t_artifacts : gset string;
  t_collections : gset string;
  t_drawn : nat
}.

Definition empty_authoring (artifacts collections : gset string) : AuthoringDb :=
  {| t_crawlers := ∅; t_versions := ∅; t_seeds := ∅; t_page_types := ∅; t_url_matchers := ∅;
     t_transitions := ∅; t_audit := ∅; t_evidence := ∅; t_artifacts := artifacts;
     t_collections := collections; t_drawn := 0 |}.

(** The tables with some replaced. *)
Definition authoring_eta (r : AuthoringDb) : AuthoringDb :=
  Build_AuthoringDb (t_crawlers r) (t_versions r) (t_seeds r) (t_page_types r) (t_url_matchers r)
    (t_transitions r) (t_audit r) (t_evidence r) (t_artifacts r) (t_collections r) (t_drawn r).
#[export] Instance set_t_crawlers : Setter t_crawlers.
Proof. setter_of authoring_eta t_crawlers. Defined.
#[export] Instance set_t_versions : Setter t_versions.
Proof. setter_of authoring_eta t_versions. Defined.
#[export] Instance set_t_seeds : Setter t_seeds.
Proof. setter_of authoring_eta t_seeds. Defined.
#[export] Instance set_t_page_types : Setter t_page_types.
Proof. setter_of authoring_eta t_page_types. Defined.
#[export] Instance set_t_url_matchers : Setter t_url_matchers.
Proof. setter_of authoring_eta t_url_matchers. Defined.
#[export] Instance set_t_transitions : Setter t_transitions.
Proof. setter_of authoring_eta t_transitions. Defined.
#[export] Instance set_t_audit : Setter t_audit.
Proof. setter_of authoring_eta t_audit. Defined.
#[export] Instance set_t_evidence : Setter t_evidence.
Proof. setter_of authoring_eta t_evidence. Defined.
#[export] Instance set_t_drawn : Setter t_drawn.
Proof. setter_of authoring_eta t_drawn. Defined.

(** ** Transactions *)

Definition Atx (E A : Type) : Type := AuthoringDb -> result E (A * AuthoringDb).

Definition atx_ret {E A} (a : A) : Atx E A := fun db => Ok (a, db).
Definition atx_fail {E A} (e : E) : Atx E A := fun _ => Err e.
Definition atx_bind {E A B} (t : Atx E A) (k : A -> Atx E B) : Atx E B :=
  fun db => match t db with Ok (a, db') => k a db' | Err e => Err e end.
Definition atx_of {E A} (r : result E A) : Atx E A :=
  fun db => match r with Ok a => Ok (a, db) | Err e => Err e end.
(** A query, whose rows may fail to be read. *)
Definition atx_read {E A} (f : AuthoringDb -> result E A) : Atx E A := fun db => atx_of (f db) db.
Definition atx_map_err {E F A} (f : E -> F) (t : Atx E A) : Atx F A := fun db => map_err f (t db).
Definition atx_reject {E} (bad : bool) (e : E) : Atx E unit := atx_of (reject_if bad e).

Notation "'let*' x := t 'in' k" := (atx_bind t (fun x => k))
  (at level 10, x pattern, t at level 100, k at level 200) : erabi_scope.

Fixpoint atx_each {E A} (f : A -> Atx E unit) (l : list A) : Atx E unit :=
  match l with
  | [] => atx_ret tt
  | x :: l' => let* _ := f x in atx_each f l'
  end.

(** [transaction_with_behavior(Immediate)], then [commit] or [rollback]. *)
Definition atransact {E A} (t : Atx E A) (db : AuthoringDb) : result E A * AuthoringDb :=
  match t db with Ok (a, db') => (Ok a, db') | Err e => (Err e, db) end.

(** ** Statements *)

Definition rejected {A} : Atx DbError A := atx_fail (DbDatabase ConstraintViolation).

(** The state of a version: the subquery of the triggers. *)
Definition is_published (db : AuthoringDb) (version_id : string) : bool :=
  match t_versions db !! version_id with
  | Some v => bool_decide (vn_state v = Published)
  | None => false
  end.
Definition page_type_published (db : AuthoringDb) (page_type_id : string) : bool :=
  match t_page_types db !! page_type_id with
  | Some p => is_published db (pg_version_id p)
  | None => false
  end.

(** [INSERT] of a row whose checks and triggers are [allowed]. *)
Definition insert_row {Row} (field : AuthoringDb -> gmap string Row) `{!Setter field}
    (allowed : AuthoringDb -> bool) (id : string) (r : Row) : Atx DbError unit := fun db =>
  if bool_decide (field db !! id = None) && allowed db
  then Ok (tt, db <| field := <[id := r]> (field db) |>)
  else rejected db.

(** [UPDATE ... SET f WHERE p]: the number of rows changed; the triggers see each row
    before and after. *)
Definition update_rows {Row} (field : AuthoringDb -> gmap string Row) `{!Setter field}
    (allowed : AuthoringDb -> Row -> Row -> bool) (p : AuthoringDb -> string -> Row -> bool)
    (f : Row -> Row) : Atx DbError nat := fun db =>
  match update_where (allowed db) (p db) f (field db) with
  | Some (n, t) => Ok (n, db <| field := t |>)
  | None => rejected db
  end.

(** [DELETE FROM ... WHERE p]. *)
Definition delete_rows {Row} (field : AuthoringDb -> gmap string Row) `{!Setter field}
    (allowed : AuthoringDb -> string -> Row -> bool) (p : AuthoringDb -> string -> Row -> bool)
    : Atx DbError nat := fun db =>
  let gone := matching (p db) (field db) in
  if forallb (fun kv => allowed db kv.1 kv.2) (map_to_list gone)
  then Ok (size gone, db <| field := filter (fun kv => p db kv.1 kv.2 = false) (field db) |>)
  else rejected db.

Definition known_key {Row} (t : gmap string Row) (id : string) : bool := match t !! id with Some _ => true | None => false end.

Definition insert_crawler (id : string) (r : CrawlerRow) : Atx DbError unit :=
  insert_row t_crawlers (fun db => match cr_collection_id r with
    | Some c => bool_decide (c ∈ t_collections db) | None => true end) id r.

Definition insert_version (id : string) (r : CrawlerVersionRow) : Atx DbError unit :=
  insert_row t_versions (fun db => known_key (t_crawlers db) (vn_crawler_id r)) id r.

Definition insert_seed (id : string) (r : SeedRow) : Atx DbError unit :=
  insert_row t_seeds (fun db => known_key (t_versions db) (sd_version_id r)
    && negb (is_published db (sd_version_id r))) id r.

Definition insert_page_type (id : string) (r : PageTypeRow) : Atx DbError unit :=
  insert_row t_page_types (fun db => known_key (t_versions db) (pg_version_id r)
    && negb (is_published db (pg_version_id r))) id r.

(** [UNIQUE (page_type_id, ordinal)]. *)
Definition insert_matcher (id : string) (r : MatcherRow) : Atx DbError unit :=
  insert_row t_url_matchers (fun db => known_key (t_page_types db) (um_page_type_id r)
    && negb (page_type_published db (um_page_type_id r))
    && negb (exists_where (fun _ m => String.eqb (um_page_type_id m) (um_page_type_id r)
         && (um_ordinal m =? um_ordinal r)) (t_url_matchers db))) id r.

Definition insert_transition (id : string) (r : TransitionRow) : Atx DbError unit :=
  insert_row t_transitions (fun db => known_key (t_versions db) (dt_version_id r)
    && negb (is_published db (dt_version_id r))) id r.

Definition insert_audit_row (id : string) (r : AuditRow) : Atx DbError unit :=
  insert_row t_audit (fun _ => true) id r.

Definition insert_evidence (id : string) (r : EvidenceRow) : Atx DbError unit :=
  insert_row t_evidence (fun db => known_key (t_versions db) (te_version_id r)) id r.

(** The pointers of a crawler have no foreign key. *)
Definition update_crawlers (p : AuthoringDb -> string -> CrawlerRow -> bool)
    (f : CrawlerRow -> CrawlerRow) : Atx DbError nat :=
  update_rows t_crawlers (fun _ _ _ => true) p f.

(** Trigger [crawler_versions_published_no_update]. *)
Definition update_versions (p : AuthoringDb -> string -> CrawlerVersionRow -> bool)
    (f : CrawlerVersionRow -> CrawlerVersionRow) : Atx DbError nat :=
  update_rows t_versions (fun db old new => negb (bool_decide (vn_state old = Published))
    && known_key (t_crawlers db) (vn_crawler_id new)) p f.

Definition update_page_types (p : AuthoringDb -> string -> PageTypeRow -> bool)
    (f : PageTypeRow -> PageTypeRow) : Atx DbError nat :=
  update_rows t_page_types (fun db old new => negb (is_published db (pg_version_id old)
    || is_published db (pg_version_id new)) && known_key (t_versions db) (pg_version_id new)) p f.

(** The matchers are updated in place: neither the owner nor the ordinal changes. *)
Definition update_matchers (p : AuthoringDb -> string -> MatcherRow -> bool)
    (json : string) : Atx DbError nat :=
  update_rows t_url_matchers (fun db old new => negb (page_type_published db (um_page_type_id old)
    || page_type_published db (um_page_type_id new))) p
    (fun m => {| um_page_type_id := um_page_type_id m; um_ordinal := um_ordinal m; um_json := json |}).

Definition update_transitions (p : AuthoringDb -> string -> TransitionRow -> bool)
    (json : string) : Atx DbError nat :=
  update_rows t_transitions (fun db old new => negb (is_published db (dt_version_id old)
    || is_published db (dt_version_id new))) p
    (fun t => {| dt_version_id := dt_version_id t; dt_json := json |}).

Definition delete_seeds (p : AuthoringDb -> string -> SeedRow -> bool) : Atx DbError nat :=
  delete_rows t_seeds (fun db _ r => negb (is_published db (sd_version_id r))) p.

(** A page type that a matcher still names is not deleted. *)
Definition delete_page_types (p : AuthoringDb -> string -> PageTypeRow -> bool) : Atx DbError nat :=
  delete_rows t_page_types (fun db id r => negb (is_published db (pg_version_id r))
    && negb (exists_where (fun _ m => String.eqb (um_page_type_id m) id) (t_url_matchers db))) p.

Definition delete_matchers (p : AuthoringDb -> string -> MatcherRow -> bool) : Atx DbError nat :=
  delete_rows t_url_matchers (fun db _ r => negb (page_type_published db (um_page_type_id r))) p.

Definition delete_transitions (p : AuthoringDb -> string -> TransitionRow -> bool) : Atx DbError nat :=
  delete_rows t_transitions (fun db _ r => negb (is_published db (dt_version_id r))) p.

(** [Uuid::now_v7()]. *)
Definition draw `{U : UuidLib} {E} : Atx E nat := fun db => Ok (t_drawn db, db <| t_drawn := S (t_drawn db) |>).
Definition draw_many {E} (n : nat) : Atx E nat := fun db =>
  Ok (t_drawn db, db <| t_drawn := (t_drawn db + n)%nat |>).
