(* ===== verification/Authoring.v ===== *)
(** * The repository of crawlers and their versions: reading

    [crates/erabi-db/src/repositories/crawler.rs]: how the rows of a version are read
    back and checked against the configuration it declares, the hash of what it means,
    and [load_for_version_in_transaction] of [test_evidence.rs], the evidence a
    publication is validated with.  The derived (de)serializers are parameters
    ([AuthoringWire], with [VersionWire] of [CrawlExecution.v]). *)

From stdpp Require Import pretty.
From S2P Require Import Prelude Externals JsonFacts Base TraversalTables Store TraversalStore CrawlExecution Instances Settings Guardrails Canonicalization DomainScope UrlMatcher Crawler Snapshot Preview TestEvidence VersionValidation SemanticHash AuthoringStore.

Section authoring.
Context `{U : UuidLib} `{L : UrlLib} `{H : HostLib} `{R : RegexLib} `{J : JsonLib} `{Serde : SerdeLib}.
Context `{Hash : HashLib} `{A : !UrlAppend L} `{D : DebugText} `{VW : !VersionWire}.

(** [serde_json::to_string], [to_value] and [from_str] at the derived implementations of
    the domain's types. *)
Class AuthoringWire := {
  version_to_str : CrawlerVersion -> string;
  version_to_value : CrawlerVersion -> Json;
  transition_to_str : DiscoveryTransition -> string;
  transition_to_value : DiscoveryTransition -> Json;
  matcher_to_str : UrlMatcher -> string;
  matcher_to_value : UrlMatcher -> Json;
  matcher_from_str : string -> option UrlMatcher;
  overrides_to_str : OperationalOverrides -> string;
  overrides_from_str : string -> option OperationalOverrides;
  evidence_to_str : TestEvidence -> string;
  evidence_from_str : string -> option TestEvidence
}.
Context `{W : AuthoringWire}.

(** ** Errors *)

Inductive CrawlerRepositoryError :=
| CrawlerNotFound | CrawlerVersionNotFound | VersionNotOwnedByCrawler | ActiveDraftExists
| VersionNotDraft | VersionNotActiveDraft | VersionNotPublished | PublishedVersionImmutable
| PageTypeNotFound | PageTypeNotOwnedByVersion | PageTypeInUse
| UrlMatcherNotFound | UrlMatcherNotOwnedByPageType | InvalidUrlMatcherDefinition
| DiscoveryTransitionNotFound | TransitionNotOwnedByVersion
| TransitionSourcePageTypeNotFound | TransitionTargetPageTypeNotFound
| RepoInvalidDiscoveryTransition | RepoInvalidCanonicalizationPolicy | RepoInvalidDomainScope
| RepoInvalidCrawlGuardrails | RepoInvalidPageTypeBudget | RepoInvalidTransitionBudget
| InvalidLifecycleTransition | ConcurrentVersionTransition | RepoCorruptState
| PublicationValidationFailed (report : VersionValidationReport)
| PublicationValidationInfrastructure
| RepoDatabase (error : DbError).

Definition map_semantic_error (c : ErrorCode) : CrawlerRepositoryError :=
  match c with
  | InvalidCanonicalizationPolicy => RepoInvalidCanonicalizationPolicy
  | InvalidDomainScope | InvalidDomainScopeRule | RegistrableDomainUnavailable => RepoInvalidDomainScope
  | InvalidCrawlGuardrails => RepoInvalidCrawlGuardrails
  | InvalidPageTypeBudget => RepoInvalidPageTypeBudget
  | InvalidTransitionBudget => RepoInvalidTransitionBudget
  | InvalidDiscoveryTransition => RepoInvalidDiscoveryTransition
  | Conflict => PublishedVersionImmutable
  | _ => RepoCorruptState
  end.

(** [.map_err(|_| CorruptState)], [.map_err(|error| map_semantic_error(error.code))],
    and [.map_err(CrawlerRepositoryError::database)] of a statement. *)
Definition corrupt {E X} (r : result E X) : result CrawlerRepositoryError X :=
  map_err (fun _ => RepoCorruptState) r.
Definition semantic {X} (r : result ProductError X) : result CrawlerRepositoryError X :=
  map_err (fun e => map_semantic_error (code e)) r.
Definition stmt {X} (t : Atx DbError X) : Atx CrawlerRepositoryError X := atx_map_err RepoDatabase t.

(** [parse_crawler_id], [parse_version_id], ... *)
Definition parse_repo_id {k} (value : string) : result CrawlerRepositoryError (typed_id k) :=
  ok_or RepoCorruptState (uuid_parse_str value ≫= from_uuid).
Definition parse_optional_repo_id {k} (value : option string)
    : result CrawlerRepositoryError (option (typed_id k)) :=
  match value with Some v => let? i := parse_repo_id v in Ok (Some i) | None => Ok None end.
(** [Uuid::parse_str(id).map_or(true, |value| value.get_version_num() != 7)]. *)
Definition not_uuid_v7 (id : string) : bool :=
  match uuid_parse_str id with Some u => negb (uuid_version u =? 7) | None => true end.

(** ** Records *)

Record CrawlerAuditMetadata := {
  am_actor : option string;
  am_occurred_at : option string;
  am_config_hash : option string;
  am_warning_summary : list string;
  am_base_version_id : option CrawlerVersionId
}.

Definition default_audit : CrawlerAuditMetadata :=
  {| am_actor := None; am_occurred_at := None; am_config_hash := None; am_warning_summary := [];
     am_base_version_id := None |}.

Record CrawlerVersionRecord := { rec_version : CrawlerVersion; rec_audit : CrawlerAuditMetadata }.

Record UrlMatcherRecord := {
  mr_id : string;
  mr_page_type_id : PageTypeId;
  mr_ordinal : Z;
  mr_matcher : UrlMatcher
}.

Record PageTypeRecord := {
  pr_id : PageTypeId;
  pr_crawler_version_id : CrawlerVersionId;
  pr_name : string;
  pr_priority : Z;
  pr_matchers : list UrlMatcherRecord
}.

Definition domain_page_type (self : PageTypeRecord) : PageType :=
  {| pt_id := pr_id self; pt_name := pr_name self; pt_priority := pr_priority self;
     pt_matchers := map mr_matcher (pr_matchers self) |}.

Record DiscoveryTransitionRecord := {
  tr_crawler_version_id : CrawlerVersionId;
  tr_transition : DiscoveryTransition
}.

Record CrawlerSemanticSnapshot := {
  ss_version : CrawlerVersion;
  ss_page_types : list PageTypeRecord;
  ss_transitions : list DiscoveryTransitionRecord;
  ss_config_hash : string
}.

Record CrawlerEvaluationSnapshot := {
  es_draft : CrawlerSemanticSnapshot;
  es_active_published_version_id : option CrawlerVersionId;
  es_published : option CrawlerSemanticSnapshot
}.

(** ** Crawlers and pointers *)

Definition ensure_crawler_exists (db : AuthoringDb) (crawler : CrawlerId)
    : result CrawlerRepositoryError unit :=
  reject_if (negb (known_key (t_crawlers db) (id_to_string crawler))) CrawlerNotFound.

(** [EXISTS (SELECT 1 FROM crawler_versions WHERE id = .. AND crawler_id = .. AND state = ..)]. *)
Definition version_in_state (db : AuthoringDb) (crawler : string) (state : CrawlerVersionState)
    (version : string) : bool :=
  match t_versions db !! version with
  | Some v => String.eqb (vn_crawler_id v) crawler && bool_decide (vn_state v = state)
  | None => false
  end.

Definition pointer_dangles (db : AuthoringDb) (crawler : string) (state : CrawlerVersionState)
    (pointer : option string) : bool :=
  match pointer with Some v => negb (version_in_state db crawler state v) | None => false end.

Definition ensure_pointer_consistency (db : AuthoringDb) (crawler : CrawlerId)
    : result CrawlerRepositoryError unit :=
  let key := id_to_string crawler in
  reject_if (match t_crawlers db !! key with
    | Some c => pointer_dangles db key Draft (cr_active_draft c)
        || pointer_dangles db key Published (cr_active_published c)
    | None => false end) RepoCorruptState.

Definition active_draft_for (db : AuthoringDb) (crawler : CrawlerId)
    : result CrawlerRepositoryError (option string) :=
  let? row := ok_or CrawlerNotFound (t_crawlers db !! id_to_string crawler) in
  Ok (cr_active_draft row).

Definition crawler_from_row (id : string) (row : CrawlerRow) : result CrawlerRepositoryError Crawler :=
  let? id := parse_repo_id id in
  let? defaults := ok_or RepoCorruptState (overrides_from_str (cr_operational_defaults_json row)) in
  let? collection := parse_optional_repo_id (cr_collection_id row) in
  let? published := parse_optional_repo_id (cr_active_published row) in
  let? draft := parse_optional_repo_id (cr_active_draft row) in
  Ok {| crawler_id := id; crawler_name := cr_name row; crawler_collection_id := collection;
        operational_defaults := defaults; active_published_version_id := published;
        active_draft_version_id := draft |}.

(** ** Versions *)

Definition version_from_row_with_semantic_validation (validate_semantics : bool) (row_id : string)
    (row : CrawlerVersionRow) : result CrawlerRepositoryError CrawlerVersion :=
  let? version := ok_or RepoCorruptState (version_from_str (vn_json row)) in
  let? id := parse_repo_id row_id in
  let? owner := parse_repo_id (vn_crawler_id row) in
  let? _ := reject_if (bool_decide (version_id version <> id)
    || bool_decide (version_crawler_id version <> owner)
    || bool_decide (version_state version <> vn_state row)) RepoCorruptState in
  let? _ := if validate_semantics then corrupt (validate_semantic_contract version) else Ok tt in
  Ok version.

Definition version_from_row : string -> CrawlerVersionRow -> result CrawlerRepositoryError CrawlerVersion :=
  version_from_row_with_semantic_validation true.

(** *** Seeds *)

Record SeedProjection := {
  sp_original_url : string;
  sp_canonical_url : string;
  sp_enabled : bool;
  sp_label : option string;
  sp_entry_page_type_hint : option string
}.

#[export] Instance seed_projection_eq_dec : EqDecision SeedProjection.
Proof. solve_decision. Defined.

Definition project_seed (s : Seed) : SeedProjection :=
  {| sp_original_url := url_as_str (original_url s); sp_canonical_url := url_as_str (canonical_url s);
     sp_enabled := enabled s; sp_label := seed_label s;
     sp_entry_page_type_hint := id_to_string <$> entry_page_type_hint s |}.

Definition expected_seeds (seeds : list Seed) : gmap string SeedProjection :=
  foldl (fun m s => <[id_to_string (seed_id s) := project_seed s]> m) ∅ seeds.

Definition seed_from_row (kv : string * SeedRow) : result CrawlerRepositoryError (string * SeedProjection) :=
  let? enabled := match sd_enabled kv.2 with
    | 0 => Ok false | 1 => Ok true | _ => Err RepoCorruptState end in
  let? _ := reject_if (not_uuid_v7 kv.1
    || some_and (fun h => is_err (parse_repo_id (k := PageTypeKind) h)) (sd_hint kv.2)) RepoCorruptState in
  Ok (kv.1, {| sp_original_url := sd_original_url kv.2; sp_canonical_url := sd_canonical_url kv.2;
               sp_enabled := enabled; sp_label := sd_label kv.2;
               sp_entry_page_type_hint := sd_hint kv.2 |}).

(** The ids of the rows are a primary key, so that no two are the same. *)
Definition validate_seed_projection (db : AuthoringDb) (version : CrawlerVersion)
    : result CrawlerRepositoryError unit :=
  let expected := expected_seeds (version_seeds version) in
  let? _ := reject_if (negb (Nat.eqb (size expected) (length (version_seeds version)))
    || existsb (hint_missing (page_type_ids version)) (version_seeds version)) RepoCorruptState in
  let? actual := collect seed_from_row
    (select_where (fun _ r => String.eqb (sd_version_id r) (id_to_string (version_id version))) (t_seeds db)) in
  reject_if (bool_decide (list_to_map actual <> expected)) RepoCorruptState.

Definition load_version_with (validate_semantics : bool) (db : AuthoringDb) (version : CrawlerVersionId)
    : result CrawlerRepositoryError CrawlerVersion :=
  let? row := ok_or CrawlerVersionNotFound (t_versions db !! id_to_string version) in
  let? loaded := version_from_row_with_semantic_validation validate_semantics (id_to_string version) row in
  let? _ := validate_seed_projection db loaded in
  Ok loaded.

Definition load_version := load_version_with true.
Definition load_publication_version := load_version_with false.

(** *** Ownership of child rows *)

Definition ensure_page_type_belongs_to_version (db : AuthoringDb) (version : CrawlerVersionId)
    (page_type : PageTypeId) : result CrawlerRepositoryError unit :=
  let? row := ok_or PageTypeNotFound (t_page_types db !! id_to_string page_type) in
  let? owner := parse_repo_id (pg_version_id row) in
  reject_if (bool_decide (owner <> version)) PageTypeNotOwnedByVersion.

Definition ensure_transition_belongs_to_version (db : AuthoringDb) (version : CrawlerVersionId)
    (transition : DiscoveryTransitionId) : result CrawlerRepositoryError unit :=
  let? row := ok_or DiscoveryTransitionNotFound (t_transitions db !! id_to_string transition) in
  let? owner := parse_repo_id (dt_version_id row) in
  reject_if (bool_decide (owner <> version)) TransitionNotOwnedByVersion.

Definition ensure_matcher_belongs_to_page_type (db : AuthoringDb) (matcher : string)
    (page_type : PageTypeId) : result CrawlerRepositoryError unit :=
  let? row := ok_or UrlMatcherNotFound (t_url_matchers db !! matcher) in
  let? owner := parse_repo_id (um_page_type_id row) in
  reject_if (bool_decide (owner <> page_type)) UrlMatcherNotOwnedByPageType.

Definition transition_page_type_error (source : bool) (e : CrawlerRepositoryError) : CrawlerRepositoryError :=
  match e with
  | PageTypeNotFound => if source then TransitionSourcePageTypeNotFound else TransitionTargetPageTypeNotFound
  | PageTypeNotOwnedByVersion => TransitionNotOwnedByVersion
  | other => other
  end.

Definition ensure_transition_page_type (db : AuthoringDb) (version : CrawlerVersionId)
    (page_type : PageTypeId) (source : bool) : result CrawlerRepositoryError unit :=
  map_err (transition_page_type_error source) (ensure_page_type_belongs_to_version db version page_type).

Definition ensure_missing_transition_page_type_is_absent (db : AuthoringDb) (page_type : PageTypeId)
    : result CrawlerRepositoryError unit :=
  reject_if (known_key (t_page_types db) (id_to_string page_type)) RepoCorruptState.

(** *** Page types and matchers *)

(** The ids a version declares, as a set of texts; none twice. *)
Definition declared_set {k} (ids : list (typed_id k)) : gset string := list_to_set (map id_to_string ids).
Definition declared_twice {k} (ids : list (typed_id k)) : bool :=
  negb (Nat.eqb (size (declared_set ids)) (length ids)).

Definition matcher_from_row (page_type : PageTypeId) (kv : string * MatcherRow)
    : result CrawlerRepositoryError UrlMatcherRecord :=
  let? _ := reject_if (not_uuid_v7 kv.1) RepoCorruptState in
  let? stored := parse_repo_id (um_page_type_id kv.2) in
  let? _ := reject_if (bool_decide (stored <> page_type)) RepoCorruptState in
  let? matcher := ok_or RepoCorruptState (matcher_from_str (um_json kv.2)) in
  Ok {| mr_id := kv.1; mr_page_type_id := stored; mr_ordinal := um_ordinal kv.2; mr_matcher := matcher |}.

Definition load_matchers_for_page_type (db : AuthoringDb) (page_type : PageTypeId)
    : result CrawlerRepositoryError (list UrlMatcherRecord) :=
  collect (matcher_from_row page_type)
    (sort_by (cmp_on (fun kv : string * MatcherRow => um_ordinal kv.2) Z.compare)
      (select_where (fun _ r => String.eqb (um_page_type_id r) (id_to_string page_type)) (t_url_matchers db))).

(** [i32::try_from]. *)
Definition fits_i32 (z : Z) : bool := (-2147483648 <=? z) && (z <=? 2147483647).

Definition page_type_from_row (db : AuthoringDb) (version : CrawlerVersion) (kv : string * PageTypeRow)
    : result CrawlerRepositoryError PageTypeRecord :=
  let? id := parse_repo_id kv.1 in
  let? owner := parse_repo_id (pg_version_id kv.2) in
  let? _ := reject_if (bool_decide (owner <> version_id version)
    || negb (bool_decide (id_to_string id ∈ declared_set (page_type_ids version)))) RepoCorruptState in
  let? _ := ok_or RepoCorruptState (json_from_str (pg_json kv.2)) in
  let? _ := reject_if (negb (fits_i32 (pg_priority kv.2))) RepoCorruptState in
  let? matchers := load_matchers_for_page_type db id in
  Ok {| pr_id := id; pr_crawler_version_id := owner; pr_name := pg_name kv.2;
        pr_priority := pg_priority kv.2; pr_matchers := matchers |}.

(** [ORDER BY name COLLATE BINARY, id]. *)
Definition load_page_type_records (db : AuthoringDb) (version : CrawlerVersion)
    : result CrawlerRepositoryError (list PageTypeRecord) :=
  let declared := declared_set (page_type_ids version) in
  let? _ := reject_if (declared_twice (page_type_ids version)) RepoCorruptState in
  let? records := collect (page_type_from_row db version)
    (sort_by (cmp_on (fun kv : string * PageTypeRow => pg_name kv.2) String.compare)
      (select_where (fun _ r => String.eqb (pg_version_id r) (id_to_string (version_id version)))
         (t_page_types db))) in
  let? _ := reject_if (bool_decide (declared_set (map pr_id records) <> declared)) RepoCorruptState in
  Ok records.

(** *** Transitions *)

Definition check_transition_page_types (db : AuthoringDb) (version : CrawlerVersion)
    (validate_semantics : bool) (t : DiscoveryTransition) : result CrawlerRepositoryError unit :=
  let pages := [source_page_type_id t; target_page_type_id t] in
  if validate_semantics then
    let? _ := reject_if (existsb (fun p => bool_decide (p ∉ page_type_ids version)) pages) RepoCorruptState in
    let? _ := for_each (fun p =>
      corrupt (ensure_page_type_belongs_to_version db (version_id version) p)) pages in
    corrupt (transition_validate t)
  else
    for_each (fun p =>
      if bool_decide (p ∈ page_type_ids version) then Ok tt
      else ensure_missing_transition_page_type_is_absent db p) pages.

Definition transition_from_row (db : AuthoringDb) (version : CrawlerVersion) (validate_semantics : bool)
    (kv : string * TransitionRow) : result CrawlerRepositoryError DiscoveryTransitionRecord :=
  let? id := parse_repo_id kv.1 in
  let? owner := parse_repo_id (dt_version_id kv.2) in
  let? _ := reject_if (bool_decide (owner <> version_id version)
    || negb (bool_decide (id_to_string id ∈ declared_set (transition_ids version)))) RepoCorruptState in
  let? transition := ok_or RepoCorruptState (transition_from_str (dt_json kv.2)) in
  let? _ := reject_if (bool_decide (transition_id transition <> id)) RepoCorruptState in
  let? _ := check_transition_page_types db version validate_semantics transition in
  Ok {| tr_crawler_version_id := owner; tr_transition := transition |}.

Definition load_transition_records (db : AuthoringDb) (version : CrawlerVersion)
    (validate_semantics : bool) : result CrawlerRepositoryError (list DiscoveryTransitionRecord) :=
  let declared := declared_set (transition_ids version) in
  let? _ := reject_if (declared_twice (transition_ids version)) RepoCorruptState in
  let? records := collect (transition_from_row db version validate_semantics)
    (select_where (fun _ r => String.eqb (dt_version_id r) (id_to_string (version_id version)))
       (t_transitions db)) in
  let? _ := reject_if (bool_decide
    (declared_set (map (fun r => transition_id (tr_transition r)) records) <> declared)) RepoCorruptState in
  Ok records.

(** ** The semantic hash of a version *)

Definition optional_string (o : option string) : Json :=
  match o with Some s => JString s | None => JNull end.

Definition version_semantic_value (version : CrawlerVersion) : Json :=
  json_object_remove "state" (json_object_remove "crawler_id" (json_object_remove "id"
    (json_of_maps (version_to_value version)))).

Definition transition_semantic_value (t : DiscoveryTransition) : Json :=
  json_object_remove "latest_test_evidence_id" (json_of_maps (transition_to_value t)).

(** The objects of the four queries, their keys in order. *)
Definition seed_value (kv : string * SeedRow) : Json := JObject [
  ("canonical_url", JString (sd_canonical_url kv.2));
  ("enabled", JNumber (pretty (sd_enabled kv.2)));
  ("entry_page_type_hint", optional_string (sd_hint kv.2));
  ("id", JString kv.1);
  ("label", optional_string (sd_label kv.2));
  ("original_url", JString (sd_original_url kv.2))].

Definition page_type_value (kv : string * PageTypeRow) : result CrawlerRepositoryError Json :=
  let? configuration := ok_or RepoCorruptState (json_from_str (pg_json kv.2)) in
  Ok (JObject [("configuration", json_of_maps configuration); ("id", JString kv.1);
    ("name", JString (pg_name kv.2)); ("priority", JNumber (pretty (pg_priority kv.2)))]).

Definition matcher_value (kv : string * MatcherRow) : result CrawlerRepositoryError Json :=
  let? matcher := ok_or RepoCorruptState (matcher_from_str (um_json kv.2)) in
  Ok (JObject [("id", JString kv.1); ("matcher", json_of_maps (matcher_to_value matcher));
    ("page_type_id", JString (um_page_type_id kv.2))]).

Definition transition_value (kv : string * TransitionRow) : result CrawlerRepositoryError Json :=
  let? id := parse_repo_id kv.1 in
  let? transition := ok_or RepoCorruptState (transition_from_str (dt_json kv.2)) in
  let? _ := reject_if (bool_decide (transition_id transition <> id)) RepoCorruptState in
  Ok (JObject [("configuration", transition_semantic_value transition); ("id", JString (id_to_string id))]).

Definition of_version {Row} (owner : Row -> string) (version : CrawlerVersionId) : string -> Row -> bool :=
  fun _ r => String.eqb (owner r) (id_to_string version).

(** The matchers of the page types of a version: the join of the query. *)
Definition matcher_of_version (db : AuthoringDb) (version : CrawlerVersionId) : string -> MatcherRow -> bool :=
  fun _ m => match t_page_types db !! um_page_type_id m with
    | Some p => String.eqb (pg_version_id p) (id_to_string version)
    | None => false
    end.

Definition semantic_template (db : AuthoringDb) (version : CrawlerVersion)
    : result CrawlerRepositoryError SemanticHashTemplate :=
  let id := version_id version in
  let seeds := map seed_value (select_where (of_version sd_version_id id) (t_seeds db)) in
  let? pages := collect page_type_value (select_where (of_version pg_version_id id) (t_page_types db)) in
  let? matchers := collect matcher_value (select_where (matcher_of_version db id) (t_url_matchers db)) in
  let? transitions := collect transition_value (select_where (of_version dt_version_id id) (t_transitions db)) in
  Ok {| st_version := version_semantic_value version; st_seeds := seeds; st_page_types := pages;
        st_url_matchers := matchers; st_transitions := transitions |}.

Definition semantic_hash_with_semantic_validation (db : AuthoringDb) (version : CrawlerVersion)
    (validate_semantics : bool) : result CrawlerRepositoryError string :=
  let? _ := if validate_semantics then corrupt (validate_semantic_contract version) else Ok tt in
  let? _ := load_transition_records db version validate_semantics in
  let? template := semantic_template db version in
  Ok (template_hash template (declared_ids version)).

Definition semantic_hash (db : AuthoringDb) (version : CrawlerVersion) : result CrawlerRepositoryError string :=
  semantic_hash_with_semantic_validation db version true.

Definition load_semantic_snapshot (db : AuthoringDb) (crawler : CrawlerId) (version : CrawlerVersionId)
    : result CrawlerRepositoryError CrawlerSemanticSnapshot :=
  let? loaded := load_version db version in
  let? _ := reject_if (bool_decide (version_crawler_id loaded <> crawler)) VersionNotOwnedByCrawler in
  let? _ := validate_seed_projection db loaded in
  let? page_types := load_page_type_records db loaded in
  let? transitions := load_transition_records db loaded true in
  let? hash := semantic_hash_with_semantic_validation db loaded true in
  Ok {| ss_version := loaded; ss_page_types := page_types; ss_transitions := transitions;
        ss_config_hash := hash |}.

(** Whether a version is the active draft of its crawler. *)
Definition is_active_draft (pointer : option string) (version : CrawlerVersionId) : bool :=
  bool_decide (pointer = Some (id_to_string version)).

(** The version an edit applies to: the active draft, its child rows as it declares. *)
Definition load_mutation_version (db : AuthoringDb) (crawler : CrawlerId) (version : CrawlerVersionId)
    : result CrawlerRepositoryError CrawlerVersion :=
  let? _ := ensure_crawler_exists db crawler in
  let? loaded := load_version db version in
  let? _ := reject_if (bool_decide (version_crawler_id loaded <> crawler)) VersionNotOwnedByCrawler in
  let? _ := reject_if (bool_decide (version_state loaded <> Draft)) PublishedVersionImmutable in
  let? pointer := active_draft_for db crawler in
  let? _ := reject_if (negb (is_active_draft pointer version)) VersionNotActiveDraft in
  let? _ := load_page_type_records db loaded in
  let? _ := load_transition_records db loaded true in
  Ok loaded.

Definition evaluation_snapshot_in_transaction (db : AuthoringDb) (crawler : CrawlerId)
    (draft_version : CrawlerVersionId) (include_published : bool)
    : result CrawlerRepositoryError CrawlerEvaluationSnapshot :=
  let? _ := ensure_crawler_exists db crawler in
  let? _ := ensure_pointer_consistency db crawler in
  let? pointers := ok_or (RepoDatabase no_rows) (t_crawlers db !! id_to_string crawler) in
  let? active_published := parse_optional_repo_id (cr_active_published pointers) in
  let? draft := load_semantic_snapshot db crawler draft_version in
  let? _ := reject_if (bool_decide (version_state (ss_version draft) <> Draft)) VersionNotDraft in
  let? _ := reject_if (negb (is_active_draft (cr_active_draft pointers) draft_version)) VersionNotActiveDraft in
  let? published := match (if include_published then active_published else None) with
    | Some version => let? s := load_semantic_snapshot db crawler version in Ok (Some s)
    | None => Ok None
    end in
  Ok {| es_draft := draft; es_active_published_version_id := active_published;
        es_published := published |}.

(** ** References to a page type *)

Fixpoint json_contains_string (value : Json) (needle : string) : bool :=
  match value with
  | JArray values => existsb (fun v => json_contains_string v needle) values
  | JObject entries => existsb (fun e => json_contains_string e.2 needle) entries
  | JString s => String.eqb s needle
  | JNull | JBool _ | JNumber _ => false
  end.

(** The loop over the opaque rows: the first that mentions the id decides. *)
Fixpoint any_contains (needle : string) (configurations : list string) : result CrawlerRepositoryError bool :=
  match configurations with
  | [] => Ok false
  | c :: configurations =>
    let? value := ok_or RepoCorruptState (json_from_str c) in
    if json_contains_string value needle then Ok true else any_contains needle configurations
  end.

Definition page_type_is_in_use (db : AuthoringDb) (version : CrawlerVersion) (page_type : PageTypeId)
    : result CrawlerRepositoryError bool :=
  let needle := id_to_string page_type in
  if existsb (fun g => bool_decide (page_type_id g = page_type))
      (guardrails_page_types (version_guardrails version)) then Ok true
  else if exists_where (fun _ s => String.eqb (sd_version_id s) (id_to_string (version_id version))
      && bool_decide (sd_hint s = Some needle)) (t_seeds db) then Ok true
  else any_contains needle
    (map (fun kv => dt_json kv.2) (select_where (of_version dt_version_id (version_id version)) (t_transitions db))
     ++ map (fun kv => pg_json kv.2) (select_where (fun id p =>
          of_version pg_version_id (version_id version) id p && negb (String.eqb id needle)) (t_page_types db))).

(** ** Audit metadata *)

Definition ascending (l : list string) : bool :=
  forallb (fun p => match String.compare p.1 p.2 with Lt => true | _ => false end) (zip l (tail l)).

Definition audit_warning_summary (value : option Json) : result CrawlerRepositoryError (list string) :=
  match value with
  | None => Ok []
  | Some (JArray values) =>
    let? _ := reject_if (MAX_VALIDATION_ISSUES <? length values)%nat RepoCorruptState in
    let? summary := collect (fun v =>
      let? text := ok_or RepoCorruptState (json_as_str v) in
      let? _ := reject_if (str_is_empty text || (MAX_VALIDATION_MESSAGE_CHARS <? char_count text)%nat
        || has_control text) RepoCorruptState in
      Ok text) values in
    let? _ := reject_if (negb (ascending summary)) RepoCorruptState in
    Ok summary
  | Some _ => Err RepoCorruptState
  end.

Definition audit_step (metadata : CrawlerAuditMetadata) (row : AuditRow)
    : result CrawlerRepositoryError CrawlerAuditMetadata :=
  let? payload := ok_or RepoCorruptState (json_from_str (audit_payload_json row)) in
  if String.eqb (audit_event_type row) "CRAWLER_DRAFT_CREATED"
     || String.eqb (audit_event_type row) "CRAWLER_VERSION_PUBLISHED" then
    let? base := parse_optional_repo_id (json_get "base_version_id" payload ≫= json_as_str) in
    let? warnings := audit_warning_summary (json_get "warning_summary" payload) in
    Ok {| am_actor := Some (audit_actor row); am_occurred_at := Some (audit_occurred_at row);
          am_config_hash := match json_get "config_hash" payload ≫= json_as_str with
            | Some hash => Some hash | None => am_config_hash metadata end;
          am_warning_summary := warnings; am_base_version_id := base |}
  else Ok metadata.

Fixpoint audit_fold (metadata : CrawlerAuditMetadata) (rows : list AuditRow)
    : result CrawlerRepositoryError CrawlerAuditMetadata :=
  match rows with
  | [] => Ok metadata
  | row :: rows => let? metadata := audit_step metadata row in audit_fold metadata rows
  end.

(** [ORDER BY occurred_at, id]. *)
Definition version_events (db : AuthoringDb) (version : CrawlerVersionId) : list AuditRow :=
  map snd (sort_by (cmp_on (fun kv : string * AuditRow => audit_occurred_at kv.2) String.compare)
    (select_where (fun _ r => String.eqb (audit_entity_type r) "CRAWLER_VERSION"
       && String.eqb (audit_entity_id r) (id_to_string version)) (t_audit db))).

Definition audit_metadata (db : AuthoringDb) (version : CrawlerVersionId)
    : result CrawlerRepositoryError CrawlerAuditMetadata :=
  audit_fold default_audit (version_events db version).

Definition base_version_from_audit (db : AuthoringDb) (version : CrawlerVersionId)
    : result CrawlerRepositoryError (option CrawlerVersionId) :=
  let? metadata := audit_metadata db version in Ok (am_base_version_id metadata).

Definition audit_payload (version : CrawlerVersionId) (base : option CrawlerVersionId)
    (config_hash : option string) (warnings : list string) : string :=
  json_to_string (JObject [("base_version_id", optional_string (id_to_string <$> base));
    ("config_hash", optional_string config_hash); ("version_id", JString (id_to_string version));
    ("warning_summary", JArray (map JString warnings))]).
End authoring.
