(* ===== verification/EvidenceStore.v ===== *)
(** * Test evidence in the database

    [crates/erabi-db/src/repositories/test_evidence.rs]: the evidence of the test lab is
    stored against the configuration it was observed with; the newest evidence of a
    transition is attached to its row. *)

From S2P Require Import Prelude Externals JsonFacts Base TraversalTables Store TraversalStore CrawlExecution Instances Settings Guardrails Canonicalization DomainScope UrlMatcher Crawler Snapshot Preview TestEvidence VersionValidation SemanticHash AuthoringStore Authoring.

Section evidence_store.
Context `{U : UuidLib} `{L : UrlLib} `{H : HostLib} `{R : RegexLib} `{J : JsonLib} `{Serde : SerdeLib}.
Context `{Hash : HashLib} `{VW : !VersionWire} `{W : !AuthoringWire}.

Record TestEvidenceRecord := { er_evidence : TestEvidence; matches_current_configuration : bool }.

Inductive TestEvidenceRepositoryError :=
| EvCrawler (error : CrawlerRepositoryError)
| TestEvidenceNotFound | TestEvidenceNotOwnedByVersion | EvArtifactNotFound | ConfigurationChanged
| EvCorruptState
| EvDatabase (error : DbError).

Definition ev_parse_id {k} (value : string) : result TestEvidenceRepositoryError (typed_id k) :=
  ok_or EvCorruptState (uuid_parse_str value ≫= from_uuid).

(** [read_row]. *)
Definition evidence_from_row (id : string) (row : EvidenceRow) : result TestEvidenceRepositoryError TestEvidence :=
  let? row_id := ev_parse_id id in
  let? row_version := ev_parse_id (te_version_id row) in
  let? evidence := ok_or EvCorruptState (evidence_from_str (te_json row)) in
  let? _ := reject_if (bool_decide (ev_id evidence <> row_id)
    || bool_decide (ev_crawler_version_id evidence <> row_version)
    || negb (String.eqb (ev_executed_at evidence) (te_executed_at row))) EvCorruptState in
  Ok evidence.

(** ** References of evidence *)

Definition candidate_ids (m : PageTypeMatchEvidence) : list PageTypeId :=
  map winner_page_type_id (match_candidates m).

Definition option_to_list {X} (o : option X) : list X := match o with Some x => [x] | None => [] end.

Definition evidence_page_type_ids (e : TestEvidence) : list PageTypeId :=
  let ids := option_to_list (ev_evaluated_page_type_id e)
    ++ concat (map candidate_ids (ev_page_type_match e))
    ++ match ev_discovery e with
       | Some d => option_to_list (disc_source_page_type_id d)
           ++ option_to_list (disc_target_page_type_id d)
           ++ concat (map (fun u => concat (map candidate_ids (option_to_list (discovered_match u))))
                (discovered_urls d))
       | None => []
       end in
  dedup (cmp_on id_to_string String.compare) (sort_by (cmp_on id_to_string String.compare) ids).

Definition ensure_page_type (db : AuthoringDb) (version : CrawlerVersionId) (page_type : PageTypeId)
    : result TestEvidenceRepositoryError unit :=
  let? row := ok_or (EvCrawler PageTypeNotFound) (t_page_types db !! id_to_string page_type) in
  let? owner := ev_parse_id (pg_version_id row) in
  reject_if (bool_decide (owner <> version)) (EvCrawler PageTypeNotOwnedByVersion).

Definition ensure_transition (db : AuthoringDb) (version : CrawlerVersionId)
    (transition : DiscoveryTransitionId) : result TestEvidenceRepositoryError unit :=
  let? row := ok_or (EvCrawler DiscoveryTransitionNotFound) (t_transitions db !! id_to_string transition) in
  let? owner := ev_parse_id (dt_version_id row) in
  reject_if (bool_decide (owner <> version)) (EvCrawler TransitionNotOwnedByVersion).

Definition validate_semantic_references (db : AuthoringDb) (e : TestEvidence)
    : result TestEvidenceRepositoryError unit :=
  let? _ := for_each (ensure_page_type db (ev_crawler_version_id e)) (evidence_page_type_ids e) in
  match ev_tested_transition_id e with
  | Some t => ensure_transition db (ev_crawler_version_id e) t
  | None => Ok tt
  end.

Definition validate_artifact_references (db : AuthoringDb) (e : TestEvidence)
    : result TestEvidenceRepositoryError unit :=
  for_each (fun a => reject_if (bool_decide (id_to_string a ∉ t_artifacts db)) EvArtifactNotFound)
    (ev_artifact_ids e).

Definition validate_references (db : AuthoringDb) (e : TestEvidence)
    : result TestEvidenceRepositoryError unit :=
  let? _ := validate_semantic_references db e in validate_artifact_references db e.

(** ** Reading *)

(** [ORDER BY executed_at COLLATE BINARY, id COLLATE BINARY]. *)
Definition evidence_rows (db : AuthoringDb) (version : CrawlerVersionId) : list (string * EvidenceRow) :=
  sort_by (cmp_on (fun kv : string * EvidenceRow => te_executed_at kv.2) String.compare)
    (select_where (fun _ r => String.eqb (te_version_id r) (id_to_string version)) (t_evidence db)).

(** One row of a publication snapshot: its references are checked against the current
    rows only when it was observed with the candidate's configuration. *)
Definition publication_evidence (db : AuthoringDb) (version : CrawlerVersionId) (hash : string)
    (kv : string * EvidenceRow) : result TestEvidenceRepositoryError TestEvidence :=
  let? stored := evidence_from_row kv.1 kv.2 in
  let? _ := reject_if (bool_decide (ev_crawler_version_id stored <> version)) EvCorruptState in
  let? _ := map_err (fun _ => EvCorruptState) (evidence_validate stored) in
  let? _ := validate_artifact_references db stored in
  let? _ := if String.eqb (ev_config_hash stored) hash then validate_semantic_references db stored
    else Ok tt in
  Ok stored.

Definition load_for_version_in_transaction (db : AuthoringDb) (version : CrawlerVersionId)
    (candidate_config_hash : string) : result TestEvidenceRepositoryError (list TestEvidence) :=
  collect (publication_evidence db version candidate_config_hash) (evidence_rows db version).

Definition current_draft_semantic_hash_in_transaction (db : AuthoringDb) (crawler : CrawlerId)
    (version : CrawlerVersionId) : result CrawlerRepositoryError string :=
  let? _ := ensure_crawler_exists db crawler in
  let? _ := ensure_pointer_consistency db crawler in
  let? pointer := active_draft_for db crawler in
  let? _ := reject_if (negb (is_active_draft pointer version)) VersionNotActiveDraft in
  let? snapshot := load_semantic_snapshot db crawler version in
  let? _ := reject_if (bool_decide (version_state (ss_version snapshot) <> Draft)) VersionNotDraft in
  Ok (ss_config_hash snapshot).

Definition semantic_hash_for_version_in_connection (db : AuthoringDb) (crawler : CrawlerId)
    (version : CrawlerVersionId) : result CrawlerRepositoryError string :=
  let? _ := ensure_crawler_exists db crawler in
  let? _ := ensure_pointer_consistency db crawler in
  let? snapshot := load_semantic_snapshot db crawler version in
  Ok (ss_config_hash snapshot).

(** [TestEvidenceRepository::read]. *)
Definition read_evidence (db : AuthoringDb) (crawler : CrawlerId) (version : CrawlerVersionId)
    (evidence : TestEvidenceId) : result TestEvidenceRepositoryError TestEvidenceRecord :=
  let? row := ok_or TestEvidenceNotFound (t_evidence db !! id_to_string evidence) in
  let? stored := evidence_from_row (id_to_string evidence) row in
  let? _ := reject_if (bool_decide (ev_crawler_version_id stored <> version)) TestEvidenceNotOwnedByVersion in
  let? hash := map_err EvCrawler (semantic_hash_for_version_in_connection db crawler version) in
  Ok {| er_evidence := stored; matches_current_configuration := String.eqb (ev_config_hash stored) hash |}.

(** [TestEvidenceRepository::list]. *)
Definition list_evidence (db : AuthoringDb) (crawler : CrawlerId) (version : CrawlerVersionId)
    : result TestEvidenceRepositoryError (list TestEvidenceRecord) :=
  let? hash := map_err EvCrawler (semantic_hash_for_version_in_connection db crawler version) in
  collect (fun kv =>
    let? stored := evidence_from_row kv.1 kv.2 in
    let? _ := reject_if (bool_decide (ev_crawler_version_id stored <> version)) EvCorruptState in
    Ok {| er_evidence := stored; matches_current_configuration := String.eqb (ev_config_hash stored) hash |})
    (evidence_rows db version).

(** ** Persisting *)

Definition set_latest_evidence (e : option TestEvidenceId) (t : DiscoveryTransition) : DiscoveryTransition :=
  {| transition_id := transition_id t; source_page_type_id := source_page_type_id t;
     target_page_type_id := target_page_type_id t; transition_name := transition_name t;
     transition_enabled := transition_enabled t; link_selector := link_selector t;
     url_constraints := url_constraints t; transition_priority := transition_priority t;
     transition_budget := transition_budget t; deduplicate := deduplicate t;
     latest_test_evidence_id := e |}.

Definition is_valid_discovery_transition_evidence (e : TestEvidence) : bool :=
  bool_decide (ev_test_kind e = TestDiscoveryTransition)
  && match ev_tested_transition_id e with Some _ => true | None => false end
  && match ev_discovery e with
     | Some d => bool_decide (disc_transition_id d = ev_tested_transition_id e)
     | None => false
     end.

Definition owned_transition (version : CrawlerVersionId) (transition : DiscoveryTransitionId)
    : string -> TransitionRow -> bool :=
  fun id r => String.eqb id (id_to_string transition) && String.eqb (dt_version_id r) (id_to_string version).

Definition ev_stmt {X} (t : Atx DbError X) : Atx TestEvidenceRepositoryError X := atx_map_err EvDatabase t.

Definition attach_transition_evidence (version : CrawlerVersionId) (transition : DiscoveryTransitionId)
    (evidence : TestEvidenceId) : Atx TestEvidenceRepositoryError unit :=
  let* configuration := atx_read (fun db =>
    match select_where (owned_transition version transition) (t_transitions db) with
    | kv :: _ => Ok (dt_json kv.2)
    | [] => Err (EvCrawler TransitionNotOwnedByVersion)
    end) in
  let* stored := atx_of (ok_or EvCorruptState (transition_from_str configuration)) in
  let* _ := atx_reject (bool_decide (transition_id stored <> transition)) EvCorruptState in
  let* updated := ev_stmt (update_transitions (fun _ => owned_transition version transition)
    (transition_to_str (set_latest_evidence (Some evidence) stored))) in
  atx_reject (negb (Nat.eqb updated 1)) (EvCrawler ConcurrentVersionTransition).

Definition persist_in_transaction (crawler : CrawlerId) (e : TestEvidence)
    : Atx TestEvidenceRepositoryError unit :=
  let* current := atx_read (fun db => map_err EvCrawler
    (current_draft_semantic_hash_in_transaction db crawler (ev_crawler_version_id e))) in
  let* _ := atx_reject (negb (String.eqb current (ev_config_hash e))) ConfigurationChanged in
  let* _ := atx_read (fun db => validate_references db e) in
  let* _ := ev_stmt (insert_evidence (id_to_string (ev_id e))
    {| te_version_id := id_to_string (ev_crawler_version_id e); te_json := evidence_to_str e;
       te_executed_at := ev_executed_at e |}) in
  if is_valid_discovery_transition_evidence e then
    match ev_tested_transition_id e with
    | Some t => attach_transition_evidence (ev_crawler_version_id e) t (ev_id e)
    | None => atx_fail EvCorruptState
    end
  else atx_ret tt.

Definition persist_if_configuration_matches (crawler : CrawlerId) (e : TestEvidence) (db : AuthoringDb)
    : result TestEvidenceRepositoryError unit * AuthoringDb :=
  match evidence_validate e with
  | Err _ => (Err EvCorruptState, db)
  | Ok _ => atransact (persist_in_transaction crawler e) db
  end.
End evidence_store.
