(* ===== verification/AuthoringOps.v ===== *)
(** * The repository of crawlers and their versions: the operations

    [crates/erabi-db/src/repositories/crawler.rs]: creating, editing, publishing, cloning
    and reactivating versions, each in one transaction that also hashes the result and
    writes an audit event.  An operation is a function of the database to its answer and
    the database after it; where the code reads its answer back in a further call, so
    does the function. *)

From stdpp Require Import pretty.
From S2P Require Import Prelude Externals JsonFacts Base TraversalTables Store TraversalStore CrawlExecution Instances Settings Guardrails Canonicalization DomainScope UrlMatcher Crawler Snapshot Preview TestEvidence VersionValidation SemanticHash AuthoringStore Authoring EvidenceStore.

Definition LIFECYCLE_CONTENTION_ATTEMPTS : nat := 5.

Section authoring_ops.
Context `{U : UuidLib} `{L : UrlLib} `{H : HostLib} `{R : RegexLib} `{J : JsonLib} `{Serde : SerdeLib}.
Context `{Hash : HashLib} `{VW : !VersionWire} `{W : !AuthoringWire}.

(** ** Audit events *)

Definition insert_audit_event (id event_type actor occurred_at entity_id payload : string)
    : Atx CrawlerRepositoryError unit :=
  stmt (insert_audit_row id {| audit_event_type := event_type; audit_actor := actor;
    audit_occurred_at := occurred_at; audit_entity_type := "CRAWLER_VERSION";
    audit_entity_id := entity_id; audit_payload_json := payload |}).

(** [new_opaque_id]. *)
Definition new_opaque_id : Atx CrawlerRepositoryError string :=
  let* n := draw in atx_ret (uuid_to_string (uuid_now_v7 n)).

Definition insert_semantic_mutation_audit (event_type actor occurred_at : string)
    (version : CrawlerVersionId) (entity_id config_hash : string) : Atx CrawlerRepositoryError unit :=
  let* id := new_opaque_id in
  insert_audit_event id event_type actor occurred_at (id_to_string version)
    (json_to_string (JObject [("config_hash", JString config_hash); ("entity_id", JString entity_id);
      ("version_id", JString (id_to_string version))])).

(** ** Statements of versions *)

Definition draft_row (version : CrawlerVersion) : CrawlerVersionRow :=
  {| vn_crawler_id := id_to_string (version_crawler_id version); vn_state := Draft;
     vn_json := version_to_str version |}.

Definition set_version_json (json : string) (r : CrawlerVersionRow) : CrawlerVersionRow :=
  {| vn_crawler_id := vn_crawler_id r; vn_state := vn_state r; vn_json := json |}.

Definition draft_with_id (version : CrawlerVersionId) : string -> CrawlerVersionRow -> bool :=
  fun id r => String.eqb id (id_to_string version) && bool_decide (vn_state r = Draft).

Definition update_version_configuration (version : CrawlerVersion) : Atx CrawlerRepositoryError unit :=
  let* updated := stmt (update_versions (fun _ => draft_with_id (version_id version))
    (set_version_json (version_to_str version))) in
  atx_reject (negb (Nat.eqb updated 1)) ConcurrentVersionTransition.

Definition seed_row (version : CrawlerVersion) (s : Seed) : SeedRow :=
  {| sd_version_id := id_to_string (version_id version); sd_original_url := url_as_str (original_url s);
     sd_canonical_url := url_as_str (canonical_url s); sd_enabled := if enabled s then 1 else 0;
     sd_label := seed_label s; sd_hint := id_to_string <$> entry_page_type_hint s |}.

Definition sync_seed_rows (version : CrawlerVersion) : Atx CrawlerRepositoryError unit :=
  let* _ := stmt (delete_seeds (fun _ => of_version sd_version_id (version_id version))) in
  atx_each (fun s => stmt (insert_seed (id_to_string (seed_id s)) (seed_row version s)))
    (version_seeds version).

Definition set_pointers (published draft : option string) (r : CrawlerRow) : CrawlerRow :=
  {| cr_name := cr_name r; cr_collection_id := cr_collection_id r;
     cr_operational_defaults_json := cr_operational_defaults_json r;
     cr_active_published := published; cr_active_draft := draft |}.

(** [UPDATE crawlers SET active_draft_version_id = .. WHERE id = .. AND
    active_draft_version_id IS NULL], of one row. *)
Definition activate_draft_row (crawler : CrawlerId) (version : CrawlerVersionId)
    : Atx CrawlerRepositoryError unit :=
  let* activated := stmt (update_crawlers
    (fun _ id r => String.eqb id (id_to_string crawler) && bool_decide (cr_active_draft r = None))
    (fun r => set_pointers (cr_active_published r) (Some (id_to_string version)) r)) in
  atx_reject (negb (Nat.eqb activated 1)) ConcurrentVersionTransition.

(** The crawler of a new draft exists and has none. *)
Definition no_active_draft (db : AuthoringDb) (crawler : CrawlerId) : result CrawlerRepositoryError unit :=
  let? pointer := active_draft_for db crawler in
  reject_if (match pointer with Some _ => true | None => false end) ActiveDraftExists.

(** ** Drafts *)

Definition insert_draft_in_transaction (version : CrawlerVersion) (base : option CrawlerVersionId)
    (actor occurred_at : string) : Atx CrawlerRepositoryError unit :=
  let* _ := atx_of (semantic (validate_semantic_contract version)) in
  let* _ := atx_read (fun db => no_active_draft db (version_crawler_id version)) in
  let* _ := stmt (insert_version (id_to_string (version_id version)) (draft_row version)) in
  let* _ := sync_seed_rows version in
  let* _ := activate_draft_row (version_crawler_id version) (version_id version) in
  insert_audit_event ("draft:" ++ id_to_string (version_id version) ++ ":" ++ occurred_at)
    "CRAWLER_DRAFT_CREATED" actor occurred_at (id_to_string (version_id version))
    (audit_payload (version_id version) base None []).

Definition save_existing_draft (version : CrawlerVersion) : Atx CrawlerRepositoryError unit :=
  let* pointer := atx_read (fun db => active_draft_for db (version_crawler_id version)) in
  let* _ := atx_reject (negb (is_active_draft pointer (version_id version))) InvalidLifecycleTransition in
  let* _ := stmt (update_versions (fun _ => draft_with_id (version_id version))
    (set_version_json (version_to_str version))) in
  sync_seed_rows version.

Definition save_draft_in_transaction (version : CrawlerVersion) (actor occurred_at : string)
    : Atx CrawlerRepositoryError unit :=
  let* existing := atx_read (fun db => Ok (t_versions db !! id_to_string (version_id version))) in
  match existing with
  | Some row =>
    let* _ := atx_reject (negb (String.eqb (vn_crawler_id row) (id_to_string (version_crawler_id version))))
      VersionNotOwnedByCrawler in
    let* _ := atx_reject (bool_decide (vn_state row = Published)) PublishedVersionImmutable in
    save_existing_draft version
  | None => insert_draft_in_transaction version None actor occurred_at
  end.

(** *** Cloning a published version *)

(** [declared_child_id_map] of the pairs of two lists. *)
Definition declared_child_id_map (sources targets : list string) : gmap string string :=
  foldl (fun m p => <[p.1 := p.2]> m) ∅ (zip sources targets).

(** [augment_child_id_map] over the selected ids. *)
Fixpoint augment_child_id_map (ids : list string) (m : gmap string string)
    : Atx CrawlerRepositoryError (gmap string string) :=
  match ids with
  | [] => atx_ret m
  | id :: ids =>
    match m !! id with
    | Some _ => augment_child_id_map ids m
    | None => let* fresh := new_opaque_id in augment_child_id_map ids (<[id := fresh]> m)
    end
  end.

Definition mapped_or_new (m : gmap string string) (id : string) : Atx CrawlerRepositoryError string :=
  match m !! id with Some target => atx_ret target | None => new_opaque_id end.

Definition mapped (m : gmap string string) (id : string) : result CrawlerRepositoryError string :=
  ok_or RepoCorruptState (m !! id).

(** [remap_json_references]. *)
Definition remap_json_references (serialized : string) (maps : list (gmap string string))
    : result CrawlerRepositoryError string :=
  let? value := ok_or RepoCorruptState (json_from_str serialized) in
  Ok (json_to_string (remap_json_value maps (json_of_maps value))).

Section clone_rows.
Context (target : CrawlerVersionId) (seed_map page_map transition_map : gmap string string).
Let maps : list (gmap string string) := [seed_map; page_map; transition_map].

Definition clone_seed (kv : string * SeedRow) : Atx CrawlerRepositoryError (string * SeedRow) :=
  let* hint := atx_of (match sd_hint kv.2 with
    | Some h => let? h := mapped page_map h in Ok (Some h) | None => Ok None end) in
  let* id := mapped_or_new seed_map kv.1 in
  atx_ret (id, {| sd_version_id := id_to_string target; sd_original_url := sd_original_url kv.2;
    sd_canonical_url := sd_canonical_url kv.2; sd_enabled := sd_enabled kv.2;
    sd_label := sd_label kv.2; sd_hint := hint |}).

Fixpoint atx_collect {X Y} (f : X -> Atx CrawlerRepositoryError Y) (l : list X)
    : Atx CrawlerRepositoryError (list Y) :=
  match l with
  | [] => atx_ret []
  | x :: l => let* y := f x in let* ys := atx_collect f l in atx_ret (y :: ys)
  end.

Definition clone_page_type (kv : string * PageTypeRow) : Atx CrawlerRepositoryError unit :=
  let* configuration := atx_of (remap_json_references (pg_json kv.2) maps) in
  let* id := mapped_or_new page_map kv.1 in
  stmt (insert_page_type id {| pg_version_id := id_to_string target; pg_name := pg_name kv.2;
    pg_priority := pg_priority kv.2; pg_json := configuration |}).

Definition clone_matcher (kv : string * MatcherRow) : Atx CrawlerRepositoryError unit :=
  let* json := atx_of (remap_json_references (um_json kv.2) maps) in
  let* page := atx_of (mapped page_map (um_page_type_id kv.2)) in
  let* id := new_opaque_id in
  stmt (insert_matcher id {| um_page_type_id := page; um_ordinal := um_ordinal kv.2; um_json := json |}).

Definition clone_transition (kv : string * TransitionRow) : Atx CrawlerRepositoryError unit :=
  let* configuration := atx_of (remap_json_references (dt_json kv.2) maps) in
  let* transition := atx_of (ok_or RepoCorruptState (transition_from_str configuration)) in
  let* id := mapped_or_new transition_map kv.1 in
  stmt (insert_transition id {| dt_version_id := id_to_string target;
    dt_json := transition_to_str (set_latest_evidence None transition) |}).

(** [ORDER BY url_matchers.page_type_id, url_matchers.ordinal, url_matchers.id]. *)
Definition matchers_in_order (db : AuthoringDb) (source : CrawlerVersionId) : list (string * MatcherRow) :=
  sort_by (cmp_on (fun kv : string * MatcherRow => (um_page_type_id kv.2, um_ordinal kv.2))
      (cmp_pair String.compare Z.compare))
    (select_where (matcher_of_version db source) (t_url_matchers db)).

Definition clone_child_rows (source : CrawlerVersionId) : Atx CrawlerRepositoryError unit :=
  let* seeds := atx_read (fun db => Ok (select_where (of_version sd_version_id source) (t_seeds db))) in
  let* seed_rows := atx_collect clone_seed seeds in
  let* _ := atx_each (fun x => stmt (insert_seed x.1 x.2)) seed_rows in
  let* pages := atx_read (fun db => Ok (select_where (of_version pg_version_id source) (t_page_types db))) in
  let* _ := atx_each clone_page_type pages in
  let* matchers := atx_read (fun db => Ok (matchers_in_order db source)) in
  let* _ := atx_each clone_matcher matchers in
  let* transitions := atx_read (fun db =>
    Ok (select_where (of_version dt_version_id source) (t_transitions db))) in
  atx_each clone_transition transitions.
End clone_rows.

(** The number of identifiers a clone draws. *)
Definition clone_draws (source : CrawlerVersion) : nat :=
  S (length (version_seeds source) + length (page_type_ids source) + length (transition_ids source)).

Definition clone_draft_in_transaction (crawler : CrawlerId) (source_version : CrawlerVersionId)
    (actor occurred_at : string) : Atx CrawlerRepositoryError CrawlerVersion :=
  let* _ := atx_read (fun db => no_active_draft db crawler) in
  let* source := atx_read (fun db => load_version db source_version) in
  let* _ := atx_reject (bool_decide (version_crawler_id source <> crawler)) VersionNotOwnedByCrawler in
  let* _ := atx_reject (bool_decide (version_state source <> Published)) VersionNotPublished in
  let* n := draw_many (clone_draws source) in
  let* clone := atx_of (map_err (fun _ => InvalidLifecycleTransition) (draft_from_published n source)) in
  let* page_ids := atx_read (fun db => Ok (map fst
    (select_where (of_version pg_version_id source_version) (t_page_types db)))) in
  let* page_map := augment_child_id_map page_ids
    (declared_child_id_map (map id_to_string (page_type_ids source)) (map id_to_string (page_type_ids clone))) in
  let* transition_ids' := atx_read (fun db => Ok (map fst
    (select_where (of_version dt_version_id source_version) (t_transitions db)))) in
  let* transition_map := augment_child_id_map transition_ids'
    (declared_child_id_map (map id_to_string (transition_ids source)) (map id_to_string (transition_ids clone))) in
  let seed_map := declared_child_id_map (map (fun s => id_to_string (seed_id s)) (version_seeds source))
    (map (fun s => id_to_string (seed_id s)) (version_seeds clone)) in
  let* _ := stmt (insert_version (id_to_string (version_id clone))
    {| vn_crawler_id := id_to_string crawler; vn_state := Draft; vn_json := version_to_str clone |}) in
  let* _ := clone_child_rows (version_id clone) seed_map page_map transition_map source_version in
  let* _ := activate_draft_row crawler (version_id clone) in
  let* hash := atx_read (fun db => semantic_hash db clone) in
  let* _ := insert_audit_event ("draft:" ++ id_to_string (version_id clone) ++ ":" ++ occurred_at)
    "CRAWLER_DRAFT_CREATED" actor occurred_at (id_to_string (version_id clone))
    (audit_payload (version_id clone) (Some source_version) (Some hash) []) in
  atx_ret clone.

(** ** Publication *)

Definition evidence_error (e : TestEvidenceRepositoryError) : CrawlerRepositoryError :=
  match e with EvDatabase error => RepoDatabase error | _ => RepoCorruptState end.

Definition publication_validation_context (db : AuthoringDb) (crawler : CrawlerId)
    (version : CrawlerVersionId) : result CrawlerRepositoryError VersionValidationContext :=
  let? _ := ensure_crawler_exists db crawler in
  let? _ := ensure_pointer_consistency db crawler in
  let? loaded := load_publication_version db version in
  let? _ := reject_if (bool_decide (version_crawler_id loaded <> crawler)) VersionNotOwnedByCrawler in
  let? _ := reject_if (bool_decide (version_state loaded <> Draft)) VersionNotDraft in
  let? pointer := active_draft_for db crawler in
  let? _ := reject_if (negb (is_active_draft pointer version))
    (match pointer with Some _ => InvalidLifecycleTransition | None => VersionNotDraft end) in
  let? page_types := load_page_type_records db loaded in
  let? transitions := load_transition_records db loaded false in
  let? hash := semantic_hash_with_semantic_validation db loaded false in
  let? evidence := map_err evidence_error (load_for_version_in_transaction db version hash) in
  Ok {| ctx_version := loaded; ctx_page_types := map domain_page_type page_types;
        ctx_transitions := map tr_transition transitions; ctx_test_evidence := evidence;
        ctx_config_hash := hash |}.

Definition publication_validation_in_transaction (db : AuthoringDb) (crawler : CrawlerId)
    (version : CrawlerVersionId) (registry : VersionValidationRegistry)
    : result CrawlerRepositoryError VersionValidationReport :=
  let? context := publication_validation_context db crawler version in
  map_err (fun _ => PublicationValidationInfrastructure) (registry_validate registry context).

(** [UPDATE crawler_versions SET state = 'PUBLISHED', ... AND state = 'DRAFT'] and
    [UPDATE crawlers SET active_published_version_id = .., active_draft_version_id = NULL]. *)
Definition publish_rows (crawler : CrawlerId) (published : CrawlerVersion) (version : CrawlerVersionId)
    : Atx CrawlerRepositoryError unit :=
  let* updated := stmt (update_versions (fun _ id r => draft_with_id version id r
      && String.eqb (vn_crawler_id r) (id_to_string crawler))
    (fun r => {| vn_crawler_id := vn_crawler_id r; vn_state := Published;
                 vn_json := version_to_str published |})) in
  let* _ := atx_reject (negb (Nat.eqb updated 1)) ConcurrentVersionTransition in
  let* pointers := stmt (update_crawlers (fun _ id r => String.eqb id (id_to_string crawler)
      && bool_decide (cr_active_draft r = Some (id_to_string version)))
    (set_pointers (Some (id_to_string version)) None)) in
  atx_reject (negb (Nat.eqb pointers 1)) ConcurrentVersionTransition.

Definition publish_in_transaction (crawler : CrawlerId) (version : CrawlerVersionId)
    (actor occurred_at : string) (registry : VersionValidationRegistry)
    : Atx CrawlerRepositoryError CrawlerVersionRecord :=
  let* context := atx_read (fun db => publication_validation_context db crawler version) in
  let* report := atx_of (map_err (fun _ => PublicationValidationInfrastructure)
    (registry_validate registry context)) in
  let* _ := atx_reject (negb (publishable report)) (PublicationValidationFailed report) in
  let warnings := warning_summary report in
  let hash := report_config_hash report in
  let* published := atx_of (map_err (fun _ => PublishedVersionImmutable) (publish (ctx_version context))) in
  let* _ := publish_rows crawler published version in
  let* base := atx_read (fun db => base_version_from_audit db version) in
  let* _ := insert_audit_event ("publish:" ++ id_to_string version ++ ":" ++ occurred_at)
    "CRAWLER_VERSION_PUBLISHED" actor occurred_at (id_to_string version)
    (audit_payload version base (Some hash) warnings) in
  atx_ret {| rec_version := published;
    rec_audit := {| am_actor := Some actor; am_occurred_at := Some occurred_at;
      am_config_hash := Some hash; am_warning_summary := warnings; am_base_version_id := base |} |}.

Definition reactivate_in_transaction (crawler : CrawlerId) (version : CrawlerVersionId)
    (actor occurred_at : string) : Atx CrawlerRepositoryError unit :=
  let* loaded := atx_read (fun db => load_version db version) in
  let* _ := atx_reject (bool_decide (version_crawler_id loaded <> crawler)) VersionNotOwnedByCrawler in
  let* _ := atx_reject (bool_decide (version_state loaded <> Published)) VersionNotPublished in
  let* changed := stmt (update_crawlers (fun db id _ => String.eqb id (id_to_string crawler)
      && version_in_state db (id_to_string crawler) Published (id_to_string version))
    (fun r => set_pointers (Some (id_to_string version)) (cr_active_draft r) r)) in
  let* _ := atx_reject (negb (Nat.eqb changed 1)) ConcurrentVersionTransition in
  insert_audit_event ("reactivate:" ++ id_to_string version ++ ":" ++ occurred_at)
    "CRAWLER_VERSION_REACTIVATED" actor occurred_at (id_to_string version)
    (audit_payload version None None []).

(** ** The public operations *)

Definition op_err {E X} (e : E) (db : AuthoringDb) : result E X * AuthoringDb := (Err e, db).

(** A transaction followed by a call that reads the answer. *)
Definition transact_then {E X Y} (t : Atx E X) (read : X -> AuthoringDb -> result E Y) (db : AuthoringDb)
    : result E Y * AuthoringDb :=
  match atransact t db with
  | (Ok x, db') => (read x db', db')
  | (Err e, db') => (Err e, db')
  end.

(** [CrawlerRepository::create]. *)
Definition create (c : Crawler) (db : AuthoringDb) : result DbError unit * AuthoringDb :=
  atransact (insert_crawler (id_to_string (crawler_id c))
    {| cr_name := crawler_name c; cr_collection_id := None;
       cr_operational_defaults_json := overrides_to_str (operational_defaults c);
       cr_active_published := None; cr_active_draft := None |}) db.

Definition read_crawler (db : AuthoringDb) (kv : string * CrawlerRow) : result CrawlerRepositoryError Crawler :=
  let? crawler := crawler_from_row kv.1 kv.2 in
  let? _ := ensure_pointer_consistency db (crawler_id crawler) in
  Ok crawler.

(** [list], ordered by name and id, and [get]. *)
Definition list_crawlers (db : AuthoringDb) : result CrawlerRepositoryError (list Crawler) :=
  collect (read_crawler db)
    (sort_by (cmp_on (fun kv : string * CrawlerRow => cr_name kv.2) String.compare)
      (select_where (fun _ _ => true) (t_crawlers db))).

Definition get_crawler (db : AuthoringDb) (crawler : CrawlerId) : result CrawlerRepositoryError Crawler :=
  let key := id_to_string crawler in
  let? row := ok_or CrawlerNotFound (t_crawlers db !! key) in
  read_crawler db (key, row).

(** One row of [list_versions] and of [version]. *)
Definition read_version (db : AuthoringDb) (loaded : CrawlerVersion)
    : result CrawlerRepositoryError CrawlerVersionRecord :=
  let? _ := validate_seed_projection db loaded in
  let? _ := load_transition_records db loaded true in
  let? audit := audit_metadata db (version_id loaded) in
  Ok {| rec_version := loaded; rec_audit := audit |}.

Definition list_versions (db : AuthoringDb) (crawler : CrawlerId)
    : result CrawlerRepositoryError (list CrawlerVersionRecord) :=
  let? _ := ensure_crawler_exists db crawler in
  let? _ := ensure_pointer_consistency db crawler in
  collect (fun kv => let? loaded := version_from_row kv.1 kv.2 in read_version db loaded)
    (select_where (fun _ r => String.eqb (vn_crawler_id r) (id_to_string crawler)) (t_versions db)).

Definition version (db : AuthoringDb) (crawler : CrawlerId) (id : CrawlerVersionId)
    : result CrawlerRepositoryError CrawlerVersionRecord :=
  let? _ := ensure_crawler_exists db crawler in
  let? _ := ensure_pointer_consistency db crawler in
  let? row := ok_or CrawlerVersionNotFound (t_versions db !! id_to_string id) in
  let? loaded := version_from_row (id_to_string id) row in
  let? _ := reject_if (bool_decide (version_crawler_id loaded <> crawler)) VersionNotOwnedByCrawler in
  read_version db loaded.

(** *** Contention

    An attempt whose transaction could not begin or commit: the failure, what others
    did to the database meanwhile, and the failure of the query that follows, if any. *)
Record Contention := {
  co_failure : DatabaseFailure;
  co_meanwhile : AuthoringDb -> AuthoringDb;
  co_recheck : option DatabaseFailure
}.

Definition is_contention (f : DatabaseFailure) : bool :=
  match f with Busy | BusySnapshot => true | _ => false end.

Definition retry_lifecycle_contention (db : AuthoringDb) (crawler : CrawlerId) (attempt : nat)
    (c : Contention) : result CrawlerRepositoryError unit :=
  let answer := match co_recheck c with
    | Some f => Err (RepoDatabase (DbDatabase f))
    | None => active_draft_for db crawler
    end in
  let again := Nat.ltb (attempt + 1) LIFECYCLE_CONTENTION_ATTEMPTS in
  match answer with
  | Ok (Some _) => Err ActiveDraftExists
  | Ok None => if again then Ok tt else Err (RepoDatabase (DbDatabase (co_failure c)))
  | Err (RepoDatabase (DbDatabase f)) =>
    if is_contention f && again then Ok tt else Err (RepoDatabase (DbDatabase (co_failure c)))
  | Err e => Err e
  end.

(** The loop of the attempts; [None] is the [unreachable!] at its end. *)
Fixpoint lifecycle_attempts {X} (plan : nat -> option Contention) (t : Atx CrawlerRepositoryError X)
    (crawler : CrawlerId) (remaining attempt : nat) (db : AuthoringDb)
    : option (result CrawlerRepositoryError X * AuthoringDb) :=
  match remaining with
  | O => None
  | S remaining =>
    match plan attempt with
    | None => Some (atransact t db)
    | Some c =>
      let db := co_meanwhile c db in
      if is_contention (co_failure c) then
        match retry_lifecycle_contention db crawler attempt c with
        | Ok _ => lifecycle_attempts plan t crawler remaining (S attempt) db
        | Err e => Some (Err e, db)
        end
      else Some (Err (RepoDatabase (DbDatabase (co_failure c))), db)
    end
  end.

(** [CrawlerVersion::draft] draws its identifier once, before the attempts. *)
Definition create_draft (plan : nat -> option Contention) (crawler : CrawlerId) (actor occurred_at : string)
    (db : AuthoringDb) : option (result CrawlerRepositoryError CrawlerVersion * AuthoringDb) :=
  let fresh := draft (t_drawn db) crawler in
  lifecycle_attempts plan
    (let* _ := insert_draft_in_transaction fresh None actor occurred_at in atx_ret fresh)
    crawler LIFECYCLE_CONTENTION_ATTEMPTS 0 (db <| t_drawn := S (t_drawn db) |>).

Definition create_draft_from_published (plan : nat -> option Contention) (crawler : CrawlerId)
    (source : CrawlerVersionId) (actor occurred_at : string) (db : AuthoringDb)
    : option (result CrawlerRepositoryError CrawlerVersion * AuthoringDb) :=
  lifecycle_attempts plan (clone_draft_in_transaction crawler source actor occurred_at)
    crawler LIFECYCLE_CONTENTION_ATTEMPTS 0 db.

(** *** Saving and publishing *)

Definition save_draft_typed (v : CrawlerVersion) (actor occurred_at : string) (db : AuthoringDb)
    : result CrawlerRepositoryError unit * AuthoringDb :=
  if bool_decide (version_state v <> Draft) then op_err PublishedVersionImmutable db else
  match semantic (validate_semantic_contract v) with
  | Err e => op_err e db
  | Ok _ => atransact (save_draft_in_transaction v actor occurred_at) db
  end.

(** The messages of [thiserror]. *)
Definition repository_error_text (e : CrawlerRepositoryError) : string :=
  match e with
  | CrawlerNotFound => "Crawler was not found"
  | CrawlerVersionNotFound => "CrawlerVersion was not found"
  | VersionNotOwnedByCrawler => "CrawlerVersion does not belong to the requested Crawler"
  | ActiveDraftExists => "Crawler already has an active Draft"
  | VersionNotDraft => "CrawlerVersion is not a Draft"
  | VersionNotActiveDraft => "CrawlerVersion is not the active Draft"
  | VersionNotPublished => "CrawlerVersion is not Published"
  | PublishedVersionImmutable => "Published CrawlerVersion is immutable"
  | PageTypeNotFound => "PageType was not found"
  | PageTypeNotOwnedByVersion => "PageType does not belong to the requested CrawlerVersion"
  | PageTypeInUse => "PageType is still referenced by durable crawler semantics"
  | UrlMatcherNotFound => "URLMatcher was not found"
  | UrlMatcherNotOwnedByPageType => "URLMatcher does not belong to the requested PageType"
  | InvalidUrlMatcherDefinition => "URLMatcher definition is invalid"
  | DiscoveryTransitionNotFound => "DiscoveryTransition was not found"
  | TransitionNotOwnedByVersion => "DiscoveryTransition does not belong to the requested CrawlerVersion"
  | TransitionSourcePageTypeNotFound => "DiscoveryTransition source PageType was not found"
  | TransitionTargetPageTypeNotFound => "DiscoveryTransition target PageType was not found"
  | RepoInvalidDiscoveryTransition => "DiscoveryTransition is invalid"
  | RepoInvalidCanonicalizationPolicy => "canonicalization policy is invalid"
  | RepoInvalidDomainScope => "Domain Scope policy is invalid"
  | RepoInvalidCrawlGuardrails => "crawler guardrails are invalid"
  | RepoInvalidPageTypeBudget => "PageType budget is invalid"
  | RepoInvalidTransitionBudget => "transition budget is invalid"
  | InvalidLifecycleTransition => "CrawlerVersion lifecycle transition is invalid"
  | ConcurrentVersionTransition => "CrawlerVersion lifecycle transition conflicted with another request"
  | RepoCorruptState => "durable Crawler state is invalid"
  | PublicationValidationFailed _ => "CrawlerVersion publication validation failed"
  | PublicationValidationInfrastructure => "CrawlerVersion publication validation infrastructure failed"
  | RepoDatabase _ => "database operation failed"
  end.

Definition repository_error_as_db (e : CrawlerRepositoryError) : DbError :=
  match e with
  | RepoDatabase error => error
  | other => DbInvariant (repository_error_text other)
  end.

Definition as_db {X} (r : result CrawlerRepositoryError X * AuthoringDb) : result DbError X * AuthoringDb :=
  (map_err repository_error_as_db r.1, r.2).

(** [save_draft]: for a crawler that does not exist the bare insertion runs, to fail on
    its foreign key. *)
Definition save_draft (v : CrawlerVersion) (actor occurred_at : string) (db : AuthoringDb)
    : result DbError unit * AuthoringDb :=
  match save_draft_typed v actor occurred_at db with
  | (Err CrawlerNotFound, db) =>
    atransact (insert_version (id_to_string (version_id v)) (draft_row v)) db
  | r => as_db r
  end.

Definition publish_version (crawler : CrawlerId) (id : CrawlerVersionId) (actor occurred_at : string)
    (registry : VersionValidationRegistry) (db : AuthoringDb)
    : result CrawlerRepositoryError CrawlerVersionRecord * AuthoringDb :=
  atransact (publish_in_transaction crawler id actor occurred_at registry) db.

Definition publish_validation (crawler : CrawlerId) (id : CrawlerVersionId)
    (registry : VersionValidationRegistry) (db : AuthoringDb)
    : result CrawlerRepositoryError VersionValidationReport :=
  publication_validation_in_transaction db crawler id registry.

Definition publish_and_activate (c : Crawler) (v : CrawlerVersion) (actor occurred_at : string)
    (registry : VersionValidationRegistry) (db : AuthoringDb) : result DbError unit * AuthoringDb :=
  if bool_decide (version_crawler_id v <> crawler_id c) || bool_decide (version_state v <> Published) then
    op_err (DbInvariant "only a published version belonging to the Crawler can be activated") db
  else
    let r := as_db (publish_version (crawler_id c) (version_id v) actor occurred_at registry db) in
    ((let? _ := r.1 in Ok tt), r.2).

Definition reactivate_published_typed (crawler : CrawlerId) (id : CrawlerVersionId)
    (actor occurred_at : string) (db : AuthoringDb) : result CrawlerRepositoryError unit * AuthoringDb :=
  atransact (reactivate_in_transaction crawler id actor occurred_at) db.

(** [CrawlerRepository::reactivate_published]. *)
Definition repository_reactivate_published (c : Crawler) (v : CrawlerVersion) (actor occurred_at : string)
    (db : AuthoringDb) : result DbError unit * AuthoringDb :=
  if bool_decide (version_state v <> Published) || bool_decide (version_crawler_id v <> crawler_id c) then
    op_err (DbInvariant "only a published version belonging to the Crawler can be reactivated") db
  else as_db (reactivate_published_typed (crawler_id c) (version_id v) actor occurred_at db).

(** *** Reading *)

Definition pointers (db : AuthoringDb) (crawler : CrawlerId)
    : result DbError (option string * option string) :=
  let? row := ok_or no_rows (t_crawlers db !! id_to_string crawler) in
  Ok (cr_active_published row, cr_active_draft row).

Definition audit_event_count (db : AuthoringDb) (entity : string) : nat :=
  length (select_where (fun _ r => String.eqb (audit_entity_id r) entity) (t_audit db)).

Definition configuration_hash (db : AuthoringDb) (crawler : CrawlerId) (id : CrawlerVersionId)
    : result CrawlerRepositoryError string :=
  let? _ := ensure_crawler_exists db crawler in
  let? _ := ensure_pointer_consistency db crawler in
  let? loaded := load_version db id in
  let? _ := reject_if (bool_decide (version_crawler_id loaded <> crawler)) VersionNotOwnedByCrawler in
  let? _ := validate_seed_projection db loaded in
  let? _ := load_transition_records db loaded true in
  semantic_hash db loaded.

Definition published_semantic_snapshot (db : AuthoringDb) (crawler : CrawlerId) (id : CrawlerVersionId)
    : result CrawlerRepositoryError CrawlerSemanticSnapshot :=
  let? _ := ensure_crawler_exists db crawler in
  let? _ := ensure_pointer_consistency db crawler in
  let? snapshot := load_semantic_snapshot db crawler id in
  let? _ := reject_if (bool_decide (version_state (ss_version snapshot) <> Published)) VersionNotPublished in
  Ok snapshot.

(** [canonicalization_policy], [domain_scope_policy], [crawler_version_guardrails]. *)
Definition read_policy {X} (field : CrawlerVersion -> X) (db : AuthoringDb) (crawler : CrawlerId)
    (id : CrawlerVersionId) : result CrawlerRepositoryError X :=
  let? record := version db crawler id in Ok (field (rec_version record)).

Definition list_discovery_transitions (db : AuthoringDb) (crawler : CrawlerId) (id : CrawlerVersionId)
    : result CrawlerRepositoryError (list DiscoveryTransitionRecord) :=
  let? record := version db crawler id in
  load_transition_records db (rec_version record) true.

Definition discovery_transition (db : AuthoringDb) (crawler : CrawlerId) (id : CrawlerVersionId)
    (transition : DiscoveryTransitionId) : result CrawlerRepositoryError DiscoveryTransitionRecord :=
  let? transitions := list_discovery_transitions db crawler id in
  match List.find (fun r => bool_decide (transition_id (tr_transition r) = transition)) transitions with
  | Some record => Ok record
  | None =>
    let? _ := ensure_transition_belongs_to_version db id transition in
    Err RepoCorruptState
  end.

Definition list_page_types (db : AuthoringDb) (crawler : CrawlerId) (id : CrawlerVersionId)
    : result CrawlerRepositoryError (list PageTypeRecord) :=
  let? record := version db crawler id in
  load_page_type_records db (rec_version record).

Definition page_type (db : AuthoringDb) (crawler : CrawlerId) (id : CrawlerVersionId) (p : PageTypeId)
    : result CrawlerRepositoryError PageTypeRecord :=
  let? record := version db crawler id in
  let? _ := ensure_page_type_belongs_to_version db id p in
  let? records := load_page_type_records db (rec_version record) in
  ok_or RepoCorruptState (List.find (fun r => bool_decide (pr_id r = p)) records).

Definition list_url_matchers (db : AuthoringDb) (crawler : CrawlerId) (id : CrawlerVersionId) (p : PageTypeId)
    : result CrawlerRepositoryError (list UrlMatcherRecord) :=
  let? record := page_type db crawler id p in Ok (pr_matchers record).

Definition url_matcher (db : AuthoringDb) (crawler : CrawlerId) (id : CrawlerVersionId) (p : PageTypeId)
    (matcher : string) : result CrawlerRepositoryError UrlMatcherRecord :=
  let? record := page_type db crawler id p in
  match List.find (fun m => String.eqb (mr_id m) matcher) (pr_matchers record) with
  | Some m => Ok m
  | None =>
    let? row := ok_or UrlMatcherNotFound (t_url_matchers db !! matcher) in
    let? _ := reject_if (negb (String.eqb (um_page_type_id row) (id_to_string p))) UrlMatcherNotOwnedByPageType in
    Err RepoCorruptState
  end.
End authoring_ops.
