(* ===== verification/AuthoringEdits.v ===== *)
(** * Edits of a draft in the repository

    [crates/erabi-db/src/repositories/crawler.rs], [update_canonicalization_policy] to
    [delete_url_matcher]: each edit loads the active draft with its child rows, changes a
    policy or a row, hashes the result and writes an audit event, in one transaction. *)

From stdpp Require Import pretty.
From S2P Require Import Prelude Externals JsonFacts Base TraversalTables Store TraversalStore CrawlExecution Instances Settings Guardrails Canonicalization DomainScope UrlMatcher Crawler Snapshot Preview TestEvidence VersionValidation SemanticHash AuthoringStore Authoring EvidenceStore AuthoringOps.

Section authoring_edits.
Context `{U : UuidLib} `{L : UrlLib} `{H : HostLib} `{R : RegexLib} `{J : JsonLib} `{Serde : SerdeLib}.
Context `{Hash : HashLib} `{VW : !VersionWire} `{W : !AuthoringWire}.

(** ** The frame of an edit *)

Section edit.
Context (crawler : CrawlerId) (id : CrawlerVersionId) (actor occurred_at : string).

(** The end of each edit: the hash of the result, in an audit event. *)
Definition finish_edit (event_type entity_id : string) (updated : CrawlerVersion)
    : Atx CrawlerRepositoryError unit :=
  let* hash := atx_read (fun db => semantic_hash db updated) in
  insert_semantic_mutation_audit event_type actor occurred_at id entity_id hash.

Definition mutation_version : Atx CrawlerRepositoryError CrawlerVersion :=
  atx_read (fun db => load_mutation_version db crawler id).

(** One row was changed. *)
Definition expect_one (error : CrawlerRepositoryError) (t : Atx DbError nat) : Atx CrawlerRepositoryError unit :=
  let* n := stmt t in atx_reject (negb (Nat.eqb n 1)) error.

(** *** Policies *)

Definition update_semantic_version (event_type entity_id : string)
    (update : CrawlerVersion -> result CrawlerRepositoryError CrawlerVersion)
    : Atx CrawlerRepositoryError CrawlerVersion :=
  let* loaded := mutation_version in
  let* updated := atx_of (update loaded) in
  let* _ := atx_of (semantic (validate_semantic_contract updated)) in
  let* _ := update_version_configuration updated in
  let* _ := finish_edit event_type entity_id updated in
  atx_ret updated.

Definition update_canonicalization_policy (policy : CanonicalizationPolicy) (db : AuthoringDb)
    : result CrawlerRepositoryError CanonicalizationPolicy * AuthoringDb :=
  if is_err (canon_validate policy) then op_err RepoInvalidCanonicalizationPolicy db else
  transact_then (update_semantic_version "CANONICALIZATION_POLICY_UPDATED" "canonicalization"
    (fun v => semantic (set_canonicalization_policy policy v)))
    (fun updated _ => Ok (canonicalization_policy updated)) db.

Definition update_domain_scope_policy (policy : DomainScopePolicy) (db : AuthoringDb)
    : result CrawlerRepositoryError DomainScopePolicy * AuthoringDb :=
  if is_err (scope_validate policy) then op_err RepoInvalidDomainScope db else
  transact_then (update_semantic_version "DOMAIN_SCOPE_UPDATED" "domain_scope"
    (fun v => semantic (set_domain_scope policy v)))
    (fun updated _ => Ok (domain_scope updated)) db.

Definition update_crawler_version_guardrails (guardrails : CrawlerVersionGuardrails) (db : AuthoringDb)
    : result CrawlerRepositoryError CrawlerVersionGuardrails * AuthoringDb :=
  match semantic (guardrails_validate guardrails) with
  | Err e => op_err e db
  | Ok _ =>
    transact_then (update_semantic_version "CRAWLER_GUARDRAILS_UPDATED" "guardrails"
      (fun v => semantic (set_guardrails guardrails v)))
      (fun updated _ => Ok (version_guardrails updated)) db
  end.

(** *** Transitions *)

Definition new_transition (t : DiscoveryTransition) : Atx CrawlerRepositoryError unit :=
  let* loaded := mutation_version in
  let* _ := atx_read (fun db => ensure_transition_page_type db id (source_page_type_id t) true) in
  let* _ := atx_read (fun db => ensure_transition_page_type db id (target_page_type_id t) false) in
  let* _ := atx_read (fun db => reject_if (known_key (t_transitions db) (id_to_string (transition_id t)))
    RepoCorruptState) in
  let* _ := atx_reject (bool_decide (transition_id t ∈ transition_ids loaded)) RepoCorruptState in
  let* updated := atx_of (semantic (set_transition_ids (transition_ids loaded ++ [transition_id t]) loaded)) in
  let* _ := stmt (insert_transition (id_to_string (transition_id t))
    {| dt_version_id := id_to_string id; dt_json := transition_to_str t |}) in
  let* _ := update_version_configuration updated in
  finish_edit "DISCOVERY_TRANSITION_CREATED" (id_to_string (transition_id t)) updated.

Definition create_discovery_transition (t : DiscoveryTransition) (db : AuthoringDb)
    : result CrawlerRepositoryError DiscoveryTransitionRecord * AuthoringDb :=
  if is_err (transition_validate t) then op_err RepoInvalidDiscoveryTransition db else
  transact_then (new_transition t)
    (fun _ db => discovery_transition db crawler id (transition_id t)) db.

Definition replace_transition (t : DiscoveryTransition) : Atx CrawlerRepositoryError unit :=
  let* loaded := mutation_version in
  let* _ := atx_read (fun db => ensure_transition_belongs_to_version db id (transition_id t)) in
  let* _ := atx_read (fun db => ensure_transition_page_type db id (source_page_type_id t) true) in
  let* _ := atx_read (fun db => ensure_transition_page_type db id (target_page_type_id t) false) in
  let* _ := expect_one RepoCorruptState
    (update_transitions (fun _ => owned_transition id (transition_id t)) (transition_to_str t)) in
  finish_edit "DISCOVERY_TRANSITION_UPDATED" (id_to_string (transition_id t)) loaded.

Definition update_discovery_transition (transition : DiscoveryTransitionId) (t : DiscoveryTransition)
    (db : AuthoringDb) : result CrawlerRepositoryError DiscoveryTransitionRecord * AuthoringDb :=
  if bool_decide (transition_id t <> transition) || is_err (transition_validate t)
  then op_err RepoInvalidDiscoveryTransition db else
  transact_then (replace_transition t) (fun _ db => discovery_transition db crawler id transition) db.

Definition remove_transition (transition : DiscoveryTransitionId) : Atx CrawlerRepositoryError unit :=
  let* loaded := mutation_version in
  let* _ := atx_read (fun db => ensure_transition_belongs_to_version db id transition) in
  let* updated := atx_of (semantic
    (set_transition_ids (filter (fun i => i <> transition) (transition_ids loaded)) loaded)) in
  let* _ := expect_one RepoCorruptState (delete_transitions (fun _ => owned_transition id transition)) in
  let* _ := update_version_configuration updated in
  finish_edit "DISCOVERY_TRANSITION_DELETED" (id_to_string transition) updated.

Definition delete_discovery_transition (transition : DiscoveryTransitionId) (db : AuthoringDb)
    : result CrawlerRepositoryError unit * AuthoringDb := atransact (remove_transition transition) db.

(** *** Page types *)

Definition owned_page_type (p : PageTypeId) : string -> PageTypeRow -> bool :=
  fun key r => String.eqb key (id_to_string p) && String.eqb (pg_version_id r) (id_to_string id).

Definition new_page_type_row (p : PageTypeId) (name : string) (priority : Z)
    : Atx CrawlerRepositoryError unit :=
  let* loaded := mutation_version in
  let* updated := atx_of (semantic (set_page_type_ids (page_type_ids loaded ++ [p]) loaded)) in
  let* _ := stmt (insert_page_type (id_to_string p) {| pg_version_id := id_to_string id; pg_name := name;
    pg_priority := priority; pg_json := "{}" |}) in
  let* _ := update_version_configuration updated in
  finish_edit "PAGE_TYPE_CREATED" (id_to_string p) updated.

(** The page type's identifier is drawn before the transaction. *)
Definition create_page_type (name : string) (priority : Z) (db : AuthoringDb)
    : result CrawlerRepositoryError PageTypeRecord * AuthoringDb :=
  let p := new_id (t_drawn db) in
  transact_then (new_page_type_row p name priority) (fun _ db => page_type db crawler id p)
    (db <| t_drawn := S (t_drawn db) |>).

Definition change_page_type (p : PageTypeId) (name : string) (priority : Z)
    : Atx CrawlerRepositoryError unit :=
  let* loaded := mutation_version in
  let* _ := atx_read (fun db => ensure_page_type_belongs_to_version db id p) in
  let* _ := expect_one RepoCorruptState (update_page_types (fun _ => owned_page_type p)
    (fun r => {| pg_version_id := pg_version_id r; pg_name := name; pg_priority := priority;
                 pg_json := pg_json r |})) in
  finish_edit "PAGE_TYPE_UPDATED" (id_to_string p) loaded.

Definition update_page_type (p : PageTypeId) (name : string) (priority : Z) (db : AuthoringDb)
    : result CrawlerRepositoryError PageTypeRecord * AuthoringDb :=
  transact_then (change_page_type p name priority) (fun _ db => page_type db crawler id p) db.

Definition page_type_removal_error (e : ProductError) : CrawlerRepositoryError :=
  if bool_decide (code e = InvalidPageTypeBudget) then PageTypeInUse else map_semantic_error (code e).

Definition remove_page_type (p : PageTypeId) : Atx CrawlerRepositoryError unit :=
  let* loaded := mutation_version in
  let* _ := atx_read (fun db => ensure_page_type_belongs_to_version db id p) in
  let* in_use := atx_read (fun db => page_type_is_in_use db loaded p) in
  let* _ := atx_reject in_use PageTypeInUse in
  let* updated := atx_of (map_err page_type_removal_error
    (set_page_type_ids (filter (fun i => i <> p) (page_type_ids loaded)) loaded)) in
  let* _ := stmt (delete_matchers (fun _ _ m => String.eqb (um_page_type_id m) (id_to_string p))) in
  let* _ := expect_one RepoCorruptState (delete_page_types (fun _ => owned_page_type p)) in
  let* _ := update_version_configuration updated in
  finish_edit "PAGE_TYPE_DELETED" (id_to_string p) updated.

Definition delete_page_type (p : PageTypeId) (db : AuthoringDb)
    : result CrawlerRepositoryError unit * AuthoringDb := atransact (remove_page_type p) db.

(** *** Matchers *)

(** [SELECT COALESCE(MAX(ordinal), -1) + 1], read as an [i64]: past its range SQLite
    answers a real number. *)
Definition next_ordinal (db : AuthoringDb) (p : PageTypeId) : result CrawlerRepositoryError Z :=
  let ordinals := map (fun kv : string * MatcherRow => um_ordinal kv.2)
    (select_where (fun _ m => String.eqb (um_page_type_id m) (id_to_string p)) (t_url_matchers db)) in
  let next := match ordinals with [] => -1 | o :: os => foldr Z.max o os end + 1 in
  if next <=? i64_max then Ok next else Err (RepoDatabase (DbDatabase Conversion)).

Definition owned_matcher (p : PageTypeId) (matcher : string) : string -> MatcherRow -> bool :=
  fun key r => String.eqb key matcher && String.eqb (um_page_type_id r) (id_to_string p).

Definition new_matcher (p : PageTypeId) (matcher : string) (m : UrlMatcher)
    : Atx CrawlerRepositoryError unit :=
  let* loaded := mutation_version in
  let* _ := atx_read (fun db => ensure_page_type_belongs_to_version db id p) in
  let* ordinal := atx_read (fun db => next_ordinal db p) in
  let* _ := stmt (insert_matcher matcher {| um_page_type_id := id_to_string p; um_ordinal := ordinal;
    um_json := matcher_to_str m |}) in
  finish_edit "URL_MATCHER_CREATED" matcher loaded.

Definition create_url_matcher (p : PageTypeId) (m : UrlMatcher) (db : AuthoringDb)
    : result CrawlerRepositoryError UrlMatcherRecord * AuthoringDb :=
  let matcher := uuid_to_string (uuid_now_v7 (t_drawn db)) in
  let db := db <| t_drawn := S (t_drawn db) |> in
  if is_err (validate_definition m) then op_err InvalidUrlMatcherDefinition db else
  transact_then (new_matcher p matcher m) (fun _ db => url_matcher db crawler id p matcher) db.

(** When no row was changed, why not. *)
Definition change_matcher_rows (error : CrawlerRepositoryError) (p : PageTypeId) (matcher : string)
    (t : Atx DbError nat) : Atx CrawlerRepositoryError unit :=
  let* n := stmt t in
  if Nat.eqb n 1 then atx_ret tt else
    let* _ := atx_read (fun db => ensure_matcher_belongs_to_page_type db matcher p) in
    atx_fail error.

Definition change_matcher (p : PageTypeId) (matcher : string) (m : UrlMatcher)
    : Atx CrawlerRepositoryError unit :=
  let* loaded := mutation_version in
  let* _ := atx_read (fun db => ensure_page_type_belongs_to_version db id p) in
  let* _ := change_matcher_rows RepoCorruptState p matcher
    (update_matchers (fun _ => owned_matcher p matcher) (matcher_to_str m)) in
  finish_edit "URL_MATCHER_UPDATED" matcher loaded.

Definition update_url_matcher (p : PageTypeId) (matcher : string) (m : UrlMatcher) (db : AuthoringDb)
    : result CrawlerRepositoryError UrlMatcherRecord * AuthoringDb :=
  if is_err (validate_definition m) then op_err InvalidUrlMatcherDefinition db else
  transact_then (change_matcher p matcher m) (fun _ db => url_matcher db crawler id p matcher) db.

Definition remove_matcher (p : PageTypeId) (matcher : string) : Atx CrawlerRepositoryError unit :=
  let* loaded := mutation_version in
  let* _ := atx_read (fun db => ensure_page_type_belongs_to_version db id p) in
  let* _ := change_matcher_rows UrlMatcherNotFound p matcher
    (delete_matchers (fun _ => owned_matcher p matcher)) in
  finish_edit "URL_MATCHER_DELETED" matcher loaded.

Definition delete_url_matcher (p : PageTypeId) (matcher : string) (db : AuthoringDb)
    : result CrawlerRepositoryError unit * AuthoringDb := atransact (remove_matcher p matcher) db.
End edit.
End authoring_edits.

(** ** Every operation of the two repositories *)

Section operations.
Context `{U : UuidLib} `{L : UrlLib} `{H : HostLib} `{R : RegexLib} `{J : JsonLib} `{Serde : SerdeLib}.
Context `{Hash : HashLib} `{VW : !VersionWire} `{W : !AuthoringWire}.

Inductive AuthoringOp :=
| OpCreate (c : Crawler)
| OpCreateDraft (crawler : CrawlerId) (actor occurred_at : string)
| OpCreateDraftFromPublished (crawler : CrawlerId) (source : CrawlerVersionId) (actor occurred_at : string)
| OpSaveDraft (v : CrawlerVersion) (actor occurred_at : string)
| OpPublish (crawler : CrawlerId) (id : CrawlerVersionId) (actor occurred_at : string)
    (registry : VersionValidationRegistry)
| OpPublishAndActivate (c : Crawler) (v : CrawlerVersion) (actor occurred_at : string)
    (registry : VersionValidationRegistry)
| OpReactivate (crawler : CrawlerId) (id : CrawlerVersionId) (actor occurred_at : string)
| OpReactivatePublished (c : Crawler) (v : CrawlerVersion) (actor occurred_at : string)
| OpUpdateCanonicalization (crawler : CrawlerId) (id : CrawlerVersionId) (actor occurred_at : string)
    (policy : CanonicalizationPolicy)
| OpUpdateDomainScope (crawler : CrawlerId) (id : CrawlerVersionId) (actor occurred_at : string)
    (policy : DomainScopePolicy)
| OpUpdateGuardrails (crawler : CrawlerId) (id : CrawlerVersionId) (actor occurred_at : string)
    (guardrails : CrawlerVersionGuardrails)
| OpCreateTransition (crawler : CrawlerId) (id : CrawlerVersionId) (actor occurred_at : string)
    (t : DiscoveryTransition)
| OpUpdateTransition (crawler : CrawlerId) (id : CrawlerVersionId) (actor occurred_at : string)
    (transition : DiscoveryTransitionId) (t : DiscoveryTransition)
| OpDeleteTransition (crawler : CrawlerId) (id : CrawlerVersionId) (actor occurred_at : string)
    (transition : DiscoveryTransitionId)
| OpCreatePageType (crawler : CrawlerId) (id : CrawlerVersionId) (actor occurred_at : string)
    (name : string) (priority : Z)
| OpUpdatePageType (crawler : CrawlerId) (id : CrawlerVersionId) (actor occurred_at : string)
    (p : PageTypeId) (name : string) (priority : Z)
| OpDeletePageType (crawler : CrawlerId) (id : CrawlerVersionId) (actor occurred_at : string) (p : PageTypeId)
| OpCreateMatcher (crawler : CrawlerId) (id : CrawlerVersionId) (actor occurred_at : string)
    (p : PageTypeId) (m : UrlMatcher)
| OpUpdateMatcher (crawler : CrawlerId) (id : CrawlerVersionId) (actor occurred_at : string)
    (p : PageTypeId) (matcher : string) (m : UrlMatcher)
| OpDeleteMatcher (crawler : CrawlerId) (id : CrawlerVersionId) (actor occurred_at : string)
    (p : PageTypeId) (matcher : string)
| OpPersistEvidence (crawler : CrawlerId) (e : TestEvidence).

(** An operation that met no contention, and the database after it. *)
Definition uncontended : nat -> option Contention := fun _ => None.

Definition run_op (op : AuthoringOp) (db : AuthoringDb) : AuthoringDb :=
  match op with
  | OpCreate c => (create c db).2
  | OpCreateDraft c a o =>
    match create_draft uncontended c a o db with Some r => r.2 | None => db end
  | OpCreateDraftFromPublished c s a o =>
    match create_draft_from_published uncontended c s a o db with Some r => r.2 | None => db end
  | OpSaveDraft v a o => (save_draft v a o db).2
  | OpPublish c i a o r => (publish_version c i a o r db).2
  | OpPublishAndActivate c v a o r => (publish_and_activate c v a o r db).2
  | OpReactivate c i a o => (reactivate_published_typed c i a o db).2
  | OpReactivatePublished c v a o => (repository_reactivate_published c v a o db).2
  | OpUpdateCanonicalization c i a o p => (update_canonicalization_policy c i a o p db).2
  | OpUpdateDomainScope c i a o p => (update_domain_scope_policy c i a o p db).2
  | OpUpdateGuardrails c i a o g => (update_crawler_version_guardrails c i a o g db).2
  | OpCreateTransition c i a o t => (create_discovery_transition c i a o t db).2
  | OpUpdateTransition c i a o x t => (update_discovery_transition c i a o x t db).2
  | OpDeleteTransition c i a o t => (delete_discovery_transition c i a o t db).2
  | OpCreatePageType c i a o n p => (create_page_type c i a o n p db).2
  | OpUpdatePageType c i a o p n z => (update_page_type c i a o p n z db).2
  | OpDeletePageType c i a o p => (delete_page_type c i a o p db).2
  | OpCreateMatcher c i a o p m => (create_url_matcher c i a o p m db).2
  | OpUpdateMatcher c i a o p x m => (update_url_matcher c i a o p x m db).2
  | OpDeleteMatcher c i a o p x => (delete_url_matcher c i a o p x db).2
  | OpPersistEvidence c e => (persist_if_configuration_matches c e db).2
  end.

(** The databases the operations reach from the empty tables. *)
Inductive reachable_authoring (artifacts collections : gset string) : AuthoringDb -> Prop :=
| reachable_empty : reachable_authoring artifacts collections (empty_authoring artifacts collections)
| reachable_op op db :
    reachable_authoring artifacts collections db -> reachable_authoring artifacts collections (run_op op db).
End operations.
