(* ===== verification/AuthoringInvariants.v ===== *)
(** * What authoring keeps

    Two things hold of every operation of [AuthoringOps.v], [AuthoringEdits.v] and
    [EvidenceStore.v]: the history (published versions, the rows they own, audit events
    and evidence) is only extended ([history]), and the pointers of the crawlers agree
    with the states of the versions ([lifecycle_ok]). *)

From S2P Require Import Prelude Externals JsonFacts Base TraversalTables Store TraversalStore CrawlExecution Instances Settings Guardrails Canonicalization DomainScope UrlMatcher Crawler Snapshot Preview TestEvidence VersionValidation SemanticHash AuthoringStore Authoring EvidenceStore AuthoringOps AuthoringEdits.

(** ** Transactions *)

Lemma atx_bind_ok {E A B} (t : Atx E A) (k : A -> Atx E B) db b db' :
  atx_bind t k db = Ok (b, db') <-> exists a db1, t db = Ok (a, db1) /\ k a db1 = Ok (b, db').
Proof. unfold atx_bind. destruct (t db) as [[a db1]|e]; naive_solver. Qed.

Lemma atx_ret_ok {E A} (a : A) db b db' : atx_ret (E := E) a db = Ok (b, db') <-> b = a /\ db' = db.
Proof. unfold atx_ret. naive_solver. Qed.

Lemma atx_of_ok {E A} (r : result E A) db a db' : atx_of r db = Ok (a, db') <-> r = Ok a /\ db' = db.
Proof. unfold atx_of. destruct r; naive_solver. Qed.

Lemma atx_read_ok {E A} (f : AuthoringDb -> result E A) db a db' :
  atx_read f db = Ok (a, db') <-> f db = Ok a /\ db' = db.
Proof. apply atx_of_ok. Qed.

Lemma atx_map_err_ok {E F A} (f : E -> F) (t : Atx E A) db a db' :
  atx_map_err f t db = Ok (a, db') <-> t db = Ok (a, db').
Proof. unfold atx_map_err. destruct (t db) as [[]|]; naive_solver. Qed.

Lemma atx_reject_ok {E} bad (e : E) db u db' :
  atx_reject bad e db = Ok (u, db') <-> bad = false /\ db' = db.
Proof. unfold atx_reject. rewrite atx_of_ok, reject_if_ok. done. Qed.

Lemma atransact_ok {E A} (t : Atx E A) db a db' :
  atransact t db = (Ok a, db') <-> t db = Ok (a, db').
Proof. unfold atransact. destruct (t db) as [[]|]; naive_solver. Qed.

Lemma stmt_ok `{U : UuidLib} `{L : UrlLib} `{H : HostLib} {X} (t : Atx DbError X) db a db' :
  stmt t db = Ok (a, db') <-> t db = Ok (a, db').
Proof. apply atx_map_err_ok. Qed.

(** Runs a transaction hypothesis [H : t db = Ok (a, db')] to its steps. *)
Ltac atx_step H :=
  lazymatch type of H with
  | atx_bind _ _ _ = Ok _ =>
    let a := fresh "a" in let d := fresh "d" in let Hs := fresh "Hs" in
    apply atx_bind_ok in H as (a & d & Hs & H); cbv beta in H; atx_step Hs; atx_step H
  | atx_map_err _ _ _ = Ok _ => apply atx_map_err_ok in H; atx_step H
  | stmt _ _ = Ok _ => apply stmt_ok in H; atx_step H
  | atx_ret _ _ = Ok _ => let E := fresh "Eret" in apply atx_ret_ok in H as [E ->]; try subst
  | atx_of _ _ = Ok _ => let E := fresh "Eof" in apply atx_of_ok in H as [E ->]
  | atx_read _ _ = Ok _ => let E := fresh "Eread" in apply atx_read_ok in H as [E ->]; cbv beta in E
  | atx_reject _ _ _ = Ok _ => let E := fresh "Erej" in apply atx_reject_ok in H as [E ->]
  | atx_fail _ _ = Ok _ => discriminate H
  | _ => idtac
  end.

(** ** Relations kept by a transaction *)

Definition respects {E A} (Rel : relation AuthoringDb) (t : Atx E A) : Prop :=
  forall db a db', t db = Ok (a, db') -> Rel db db'.

Section respects.
Context (Rel : relation AuthoringDb) `{!PreOrder Rel}.

Lemma respects_bind {E A B} (t : Atx E A) (k : A -> Atx E B) :
  respects Rel t -> (forall a, respects Rel (k a)) -> respects Rel (atx_bind t k).
Proof. intros Ht Hk db b db' (a & d & H1 & H2)%atx_bind_ok. etrans; [by eapply Ht|by eapply Hk]. Qed.

Lemma respects_ret {E A} (a : A) : respects (E := E) Rel (atx_ret a).
Proof. by intros db b db' [_ ->]%atx_ret_ok. Qed.

Lemma respects_of {E A} (r : result E A) : respects Rel (atx_of r).
Proof. by intros db b db' [_ ->]%atx_of_ok. Qed.

Lemma respects_read {E A} (f : AuthoringDb -> result E A) : respects Rel (atx_read f).
Proof. by intros db b db' [_ ->]%atx_read_ok. Qed.

Lemma respects_reject {E} bad (e : E) : respects Rel (atx_reject bad e).
Proof. apply respects_of. Qed.

Lemma respects_fail {E A} (e : E) : respects (A := A) Rel (atx_fail e).
Proof. by intros db b db' H. Qed.

Lemma respects_map_err {E F A} (f : E -> F) (t : Atx E A) : respects Rel t -> respects Rel (atx_map_err f t).
Proof. intros Ht db a db' H%atx_map_err_ok. by eapply Ht. Qed.

Lemma respects_each {E A} (f : A -> Atx E unit) l : (forall x, respects Rel (f x)) -> respects Rel (atx_each f l).
Proof.
  intros Hf. induction l as [|x l IH]; simpl; [apply respects_ret|]. by apply respects_bind.
Qed.

Lemma atransact_respects {E A} (t : Atx E A) db r db' :
  respects Rel t -> atransact t db = (r, db') -> Rel db db'.
Proof.
  unfold atransact. intros Ht. destruct (t db) as [[a d]|e] eqn:Hr; intros [= <- <-]; [by eapply Ht|done].
Qed.

Lemma atransact_snd {E A} (t : Atx E A) db : respects Rel t -> Rel db (atransact t db).2.
Proof. intros Ht. destruct (atransact t db) eqn:?. by eapply atransact_respects. Qed.
End respects.

(** ** Statements *)

Section statement_facts.
Context {Row : Type} (field : AuthoringDb -> gmap string Row) `{S : !Setter field}.

Lemma insert_row_ok allowed id (r : Row) db u db' :
  insert_row field allowed id r db = Ok (u, db') <->
  field db !! id = None /\ allowed db = true /\ db' = db <| field := <[id := r]> (field db) |>.
Proof.
  unfold insert_row. destruct (bool_decide _ && _) eqn:Hc; boolify; split.
  - intros [= <- <-]. done.
  - intros (_ & _ & ->). by destruct u.
  - done.
  - intros (Hn & Ha & _). rewrite bool_decide_true, Ha in Hc by done. done.
Qed.

Lemma update_rows_ok allowed p f db n db' :
  update_rows field allowed p f db = Ok (n, db') <->
  (forall k r, field db !! k = Some r -> p db k r = true -> allowed db r (f r) = true) /\
  n = size (matching (p db) (field db)) /\
  db' = db <| field := map_imap (fun k r => Some (if p db k r then f r else r)) (field db) |>.
Proof.
  unfold update_rows, update_where. destruct (forallb _ _) eqn:Hall; split.
  - intros [= <- <-]. split; [|done]. intros k r Hk Hp.
    eapply forallb_forall in Hall; [|apply list_elem_of_In, elem_of_map_to_list; rewrite matching_lookup; eauto].
    done.
  - by intros (_ & -> & ->).
  - done.
  - intros (Ha & _ & _). exfalso. apply not_true_iff_false in Hall. apply Hall, forallb_forall.
    intros [k r] Hk%list_elem_of_In%elem_of_map_to_list%matching_lookup. destruct Hk. by eapply Ha.
Qed.

Lemma delete_rows_ok allowed p db n db' :
  delete_rows field allowed p db = Ok (n, db') <->
  (forall k r, field db !! k = Some r -> p db k r = true -> allowed db k r = true) /\
  n = size (matching (p db) (field db)) /\
  db' = db <| field := filter (fun kv => p db kv.1 kv.2 = false) (field db) |>.
Proof.
  unfold delete_rows. destruct (forallb _ _) eqn:Hall; split.
  - intros [= <- <-]. split; [|done]. intros k r Hk Hp.
    eapply forallb_forall in Hall; [|apply list_elem_of_In, elem_of_map_to_list; rewrite matching_lookup; eauto].
    done.
  - by intros (_ & -> & ->).
  - done.
  - intros (Ha & _ & _). exfalso. apply not_true_iff_false in Hall. apply Hall, forallb_forall.
    intros [k r] Hk%list_elem_of_In%elem_of_map_to_list%matching_lookup. destruct Hk. by eapply Ha.
Qed.
End statement_facts.

(** ** History *)

(** The rows of [t] that [keep] selects are the same in [t']. *)
Definition same_rows {Row} (keep : Row -> bool) (t t' : gmap string Row) : Prop :=
  forall id r, keep r = true -> t' !! id = Some r <-> t !! id = Some r.

Lemma same_rows_refl {Row} (keep : Row -> bool) t : same_rows keep t t.
Proof. done. Qed.

Lemma same_rows_insert {Row} (keep : Row -> bool) t id r :
  t !! id = None -> keep r = false -> same_rows keep t (<[id := r]> t).
Proof.
  intros Hn Hr i x Hx. rewrite lookup_insert_Some. split.
  - intros [[<- <-]|[_ Hi]]; [congruence|done].
  - intros Hi. right. split; [congruence|done].
Qed.

Lemma same_rows_update {Row} (keep : Row -> bool) (p : string -> Row -> bool) f t :
  (forall k r, t !! k = Some r -> p k r = true -> keep r = false /\ keep (f r) = false) ->
  same_rows keep t (map_imap (fun k r => Some (if p k r then f r else r)) t).
Proof.
  intros Hp i x Hx. rewrite map_lookup_imap. destruct (t !! i) as [r|] eqn:Hi; simpl; [|done].
  destruct (p i r) eqn:Hpi; [|done]. destruct (Hp _ _ Hi Hpi) as [H1 H2].
  split; intros [= <-]; congruence.
Qed.

Lemma same_rows_delete {Row} (keep : Row -> bool) (p : string -> Row -> bool) t :
  (forall k r, t !! k = Some r -> p k r = true -> keep r = false) ->
  same_rows keep t (filter (fun kv => p kv.1 kv.2 = false) t).
Proof.
  intros Hp i x Hx. rewrite map_lookup_filter_Some. simpl. split; [by intros []|]. intros Hi.
  split; [done|]. apply not_true_iff_false. intros Hpi. rewrite (Hp _ _ Hi Hpi) in Hx. done.
Qed.

Lemma same_rows_trans {Row} (keep keep' : Row -> bool) t1 t2 t3 :
  (forall r, keep r = true -> keep' r = true) ->
  same_rows keep t1 t2 -> same_rows keep' t2 t3 -> same_rows keep t1 t3.
Proof. intros Hk H12 H23 id r Hr. rewrite (H23 id r) by auto. by apply H12. Qed.

Record history (db db' : AuthoringDb) : Prop := {
  h_versions id r : t_versions db !! id = Some r -> vn_state r = Published -> t_versions db' !! id = Some r;
  h_seeds : same_rows (fun r => is_published db (sd_version_id r)) (t_seeds db) (t_seeds db');
  h_page_types : same_rows (fun r => is_published db (pg_version_id r)) (t_page_types db) (t_page_types db');
  h_matchers : same_rows (fun r => page_type_published db (um_page_type_id r)) (t_url_matchers db) (t_url_matchers db');
  h_transitions : same_rows (fun r => is_published db (dt_version_id r)) (t_transitions db) (t_transitions db');
  h_audit : t_audit db ⊆ t_audit db';
  h_evidence : t_evidence db ⊆ t_evidence db'
}.

Lemma is_published_spec db v : is_published db v = true <->
  exists r, t_versions db !! v = Some r /\ vn_state r = Published.
Proof.
  unfold is_published. destruct (t_versions db !! v) as [r|]; [|naive_solver].
  rewrite bool_decide_eq_true. naive_solver.
Qed.

Lemma h_published db db' v : history db db' -> is_published db v = true -> is_published db' v = true.
Proof. intros Hh. rewrite !is_published_spec. intros (r & Hr & Hs). exists r. split; [by eapply h_versions|done]. Qed.

Lemma h_page_type_published db db' p : history db db' ->
  page_type_published db p = true -> page_type_published db' p = true.
Proof.
  intros Hh. unfold page_type_published. destruct (t_page_types db !! p) as [r|] eqn:Hr; [|done]. intros Hp.
  apply (h_page_types _ _ Hh) in Hr; [|done]. rewrite Hr. by eapply h_published.
Qed.

#[export] Instance history_preorder : PreOrder history.
Proof.
  split; [intros db; split; intros; done|].
  intros d1 d2 d3 H12 H23. split.
  - intros id r Hr Hs. eapply h_versions; [done| |done]. by eapply h_versions.
  - eapply same_rows_trans; [|apply (h_seeds _ _ H12)|apply (h_seeds _ _ H23)]. intros r. by apply h_published.
  - eapply same_rows_trans; [|apply (h_page_types _ _ H12)|apply (h_page_types _ _ H23)]. intros r. by apply h_published.
  - eapply same_rows_trans; [|apply (h_matchers _ _ H12)|apply (h_matchers _ _ H23)]. intros r. by apply h_page_type_published.
  - eapply same_rows_trans; [|apply (h_transitions _ _ H12)|apply (h_transitions _ _ H23)]. intros r. by apply h_published.
  - etrans; by apply h_audit.
  - etrans; by apply h_evidence.
Qed.

(** Splits the history of one statement: the tables it does not touch are the same. *)
Ltac history_of H :=
  split; simpl; [intros ? ?; try done|try apply same_rows_refl|try apply same_rows_refl
    |try apply same_rows_refl|try apply same_rows_refl|try done|try done].

Lemma insert_crawler_history id r : respects history (insert_crawler id r).
Proof. intros db u db' (_ & _ & ->)%insert_row_ok. history_of H. Qed.

Lemma insert_version_history id r : respects history (insert_version id r).
Proof.
  intros db u db' (Hn & _ & ->)%insert_row_ok. history_of H. intros Hr Hs.
  rewrite lookup_insert_ne; [done|congruence].
Qed.

Lemma insert_seed_history id r : respects history (insert_seed id r).
Proof.
  intros db u db' (Hn & [_ Ha%negb_true_iff]%andb_true_iff & ->)%insert_row_ok. history_of H.
  by apply same_rows_insert.
Qed.

Lemma insert_page_type_history id r : respects history (insert_page_type id r).
Proof.
  intros db u db' (Hn & [_ Ha%negb_true_iff]%andb_true_iff & ->)%insert_row_ok. history_of H.
  by apply same_rows_insert.
Qed.

Lemma insert_matcher_history id r : respects history (insert_matcher id r).
Proof.
  intros db u db' (Hn & [[_ Ha%negb_true_iff]%andb_true_iff _]%andb_true_iff & ->)%insert_row_ok.
  history_of H. by apply same_rows_insert.
Qed.

Lemma insert_transition_history id r : respects history (insert_transition id r).
Proof.
  intros db u db' (Hn & [_ Ha%negb_true_iff]%andb_true_iff & ->)%insert_row_ok. history_of H.
  by apply same_rows_insert.
Qed.

Lemma insert_audit_history id r : respects history (insert_audit_row id r).
Proof.
  intros db u db' (Hn & _ & ->)%insert_row_ok. history_of H. by apply insert_subseteq.
Qed.

Lemma insert_evidence_history id r : respects history (insert_evidence id r).
Proof.
  intros db u db' (Hn & _ & ->)%insert_row_ok. history_of H. by apply insert_subseteq.
Qed.

Lemma update_crawlers_history p f : respects history (update_crawlers p f).
Proof. intros db n db' (_ & _ & ->)%update_rows_ok. history_of H. Qed.

Lemma update_versions_history p f : respects history (update_versions p f).
Proof.
  intros db n db' (Ha & _ & ->)%update_rows_ok. history_of H. intros Hr Hs.
  rewrite map_lookup_imap, Hr. simpl. destruct (p db id r) eqn:Hp; [|done].
  apply Ha in Hp; [|done]. boolify. done.
Qed.

Lemma update_page_types_history p f : respects history (update_page_types p f).
Proof.
  intros db n db' (Ha & _ & ->)%update_rows_ok. history_of H. apply same_rows_update.
  intros k r Hr Hp. apply Ha in Hp; [|done]. rewrite andb_true_iff, negb_orb, andb_true_iff, !negb_true_iff in Hp.
  tauto.
Qed.

Lemma update_matchers_history p json : respects history (update_matchers p json).
Proof.
  intros db n db' (Ha & _ & ->)%update_rows_ok. history_of H. apply same_rows_update.
  intros k r Hr Hp. apply Ha in Hp; [|done]. rewrite negb_orb, andb_true_iff, !negb_true_iff in Hp. tauto.
Qed.

Lemma update_transitions_history p json : respects history (update_transitions p json).
Proof.
  intros db n db' (Ha & _ & ->)%update_rows_ok. history_of H. apply same_rows_update.
  intros k r Hr Hp. apply Ha in Hp; [|done]. rewrite negb_orb, andb_true_iff, !negb_true_iff in Hp. tauto.
Qed.

Lemma delete_seeds_history p : respects history (delete_seeds p).
Proof.
  intros db n db' (Ha & _ & ->)%delete_rows_ok. history_of H. apply same_rows_delete.
  intros k r Hr Hp. apply Ha in Hp; [|done]. by apply negb_true_iff.
Qed.

Lemma delete_page_types_history p : respects history (delete_page_types p).
Proof.
  intros db n db' (Ha & _ & ->)%delete_rows_ok. history_of H. apply same_rows_delete.
  intros k r Hr Hp. apply Ha in Hp as [Hp _]%andb_true_iff; [|done]. by apply negb_true_iff.
Qed.

Lemma delete_matchers_history p : respects history (delete_matchers p).
Proof.
  intros db n db' (Ha & _ & ->)%delete_rows_ok. history_of H. apply same_rows_delete.
  intros k r Hr Hp. apply Ha in Hp; [|done]. by apply negb_true_iff.
Qed.

Lemma delete_transitions_history p : respects history (delete_transitions p).
Proof.
  intros db n db' (Ha & _ & ->)%delete_rows_ok. history_of H. apply same_rows_delete.
  intros k r Hr Hp. apply Ha in Hp; [|done]. by apply negb_true_iff.
Qed.

Lemma drawn_history db n : history db (db <| t_drawn := n |>).
Proof. history_of H. Qed.

Create HintDb authoring.
#[export] Hint Resolve insert_crawler_history insert_version_history insert_seed_history
  insert_page_type_history insert_matcher_history insert_transition_history insert_audit_history
  insert_evidence_history update_crawlers_history update_versions_history update_page_types_history
  update_matchers_history update_transitions_history delete_seeds_history delete_page_types_history
  delete_matchers_history delete_transitions_history : authoring.

(** A transaction respects a relation when its statements do. *)
Ltac respects_tac :=
  repeat first
    [ solve [auto with authoring]
    | apply respects_bind; [apply _| |intros ?]
    | apply respects_ret; apply _ | apply respects_of; apply _ | apply respects_read; apply _
    | apply respects_reject; apply _ | apply respects_fail
    | apply respects_map_err | apply respects_each; [apply _|intros ?]
    | case_match ].

Section operations_history.
Context `{U : UuidLib} `{L : UrlLib} `{H : HostLib} `{R : RegexLib} `{J : JsonLib} `{Serde : SerdeLib}.
Context `{Hash : HashLib} `{VW : !VersionWire} `{W : !AuthoringWire}.

Lemma new_opaque_id_history : respects history new_opaque_id.
Proof. unfold new_opaque_id. respects_tac. intros db n db' [= <- <-]. apply drawn_history. Qed.

Lemma draw_many_history n : respects (E := CrawlerRepositoryError) history (draw_many n).
Proof. intros db k db' [= <- <-]. apply drawn_history. Qed.

Lemma insert_audit_event_history a b c d e f : respects history (insert_audit_event a b c d e f).
Proof. unfold insert_audit_event, stmt. respects_tac. Qed.

Lemma update_version_configuration_history v : respects history (update_version_configuration v).
Proof. unfold update_version_configuration, stmt. respects_tac. Qed.

Lemma sync_seed_rows_history v : respects history (sync_seed_rows v).
Proof. unfold sync_seed_rows, stmt. respects_tac. Qed.

Lemma activate_draft_row_history c v : respects history (activate_draft_row c v).
Proof. unfold activate_draft_row, stmt. respects_tac. Qed.

Hint Resolve new_opaque_id_history draw_many_history insert_audit_event_history
  update_version_configuration_history sync_seed_rows_history activate_draft_row_history : authoring.

Lemma insert_draft_history v b a o : respects history (insert_draft_in_transaction v b a o).
Proof. unfold insert_draft_in_transaction, stmt. respects_tac. Qed.
Hint Resolve insert_draft_history : authoring.

Lemma save_draft_history v a o : respects history (save_draft_in_transaction v a o).
Proof. unfold save_draft_in_transaction, save_existing_draft, stmt. respects_tac. Qed.

Lemma augment_history ids m : respects history (augment_child_id_map ids m).
Proof. revert m. induction ids as [|i ids IH]; intros m; simpl; respects_tac; apply IH. Qed.

Lemma mapped_or_new_history m i : respects history (mapped_or_new m i).
Proof. unfold mapped_or_new. respects_tac. Qed.
Hint Resolve augment_history mapped_or_new_history : authoring.

Lemma atx_collect_history {X Y} (f : X -> Atx CrawlerRepositoryError Y) l :
  (forall x, respects history (f x)) -> respects history (atx_collect f l).
Proof. intros Hf. induction l as [|x l IH]; simpl; respects_tac. Qed.

Lemma clone_child_rows_history t s p r v : respects history (clone_child_rows t s p r v).
Proof.
  unfold clone_child_rows, stmt. respects_tac.
  apply atx_collect_history. intros kv. unfold clone_seed. respects_tac.
Qed.
Hint Resolve clone_child_rows_history : authoring.

Lemma clone_draft_history c s a o : respects history (clone_draft_in_transaction c s a o).
Proof. unfold clone_draft_in_transaction, stmt. respects_tac. Qed.

Lemma publish_history c v a o r : respects history (publish_in_transaction c v a o r).
Proof. unfold publish_in_transaction, publish_rows, stmt. respects_tac. Qed.

Lemma reactivate_history c v a o : respects history (reactivate_in_transaction c v a o).
Proof. unfold reactivate_in_transaction, stmt. respects_tac. Qed.

Lemma finish_edit_history i a o e n v : respects history (finish_edit i a o e n v).
Proof. unfold finish_edit, insert_semantic_mutation_audit. respects_tac. Qed.

Lemma mutation_version_history c i : respects history (mutation_version c i).
Proof. unfold mutation_version. respects_tac. Qed.

Lemma expect_one_history e t : respects history t -> respects history (expect_one e t).
Proof. intros Ht. unfold expect_one, stmt. respects_tac. Qed.

Lemma change_matcher_rows_history e p m t : respects history t -> respects history (change_matcher_rows e p m t).
Proof. intros Ht. unfold change_matcher_rows, stmt. respects_tac. Qed.
Hint Resolve finish_edit_history mutation_version_history expect_one_history change_matcher_rows_history : authoring.

Lemma update_semantic_history c i a o e n f : respects history (update_semantic_version c i a o e n f).
Proof. unfold update_semantic_version. respects_tac. Qed.

Lemma attach_history v t e : respects history (attach_transition_evidence v t e).
Proof. unfold attach_transition_evidence, ev_stmt. respects_tac. Qed.
Hint Resolve attach_history : authoring.

Lemma persist_history c e : respects history (persist_in_transaction c e).
Proof. unfold persist_in_transaction, ev_stmt. respects_tac. Qed.
Hint Resolve save_draft_history clone_draft_history publish_history reactivate_history
  update_semantic_history persist_history : authoring.

Lemma transact_then_snd {E X Y} (Rel : relation AuthoringDb) `{!PreOrder Rel} (t : Atx E X)
    (read : X -> AuthoringDb -> result E Y) db :
  respects Rel t -> Rel db (transact_then t read db).2.
Proof.
  intros Ht. pose proof (atransact_snd Rel t db Ht) as Hs. unfold transact_then.
  by destruct (atransact t db) as [[x|e] d].
Qed.

(** The operations of a relation that every transaction respects. *)
Record op_relation (Rel : relation AuthoringDb) : Prop := {
  or_preorder :: PreOrder Rel;
  or_drawn db n : Rel db (db <| t_drawn := n |>);
  or_create id r : cr_active_published r = None -> cr_active_draft r = None ->
    respects Rel (insert_crawler id r);
  or_draft v b a o : respects Rel (insert_draft_in_transaction v b a o);
  or_save v a o : respects Rel (save_draft_in_transaction v a o);
  or_clone c s a o : respects Rel (clone_draft_in_transaction c s a o);
  or_publish c v a o r : respects Rel (publish_in_transaction c v a o r);
  or_reactivate c v a o : respects Rel (reactivate_in_transaction c v a o);
  or_policy c i a o e n f : (forall v v', f v = Ok v' -> same_identity v v' /\ version_state v' = version_state v) ->
    respects Rel (update_semantic_version c i a o e n f);
  or_new_transition c i a o t : respects Rel (new_transition c i a o t);
  or_replace_transition c i a o t : respects Rel (replace_transition c i a o t);
  or_remove_transition c i a o t : respects Rel (remove_transition c i a o t);
  or_new_page_type c i a o p n z : respects Rel (new_page_type_row c i a o p n z);
  or_change_page_type c i a o p n z : respects Rel (change_page_type c i a o p n z);
  or_remove_page_type c i a o p : respects Rel (remove_page_type c i a o p);
  or_new_matcher c i a o p x m : respects Rel (new_matcher c i a o p x m);
  or_change_matcher c i a o p x m : respects Rel (change_matcher c i a o p x m);
  or_remove_matcher c i a o p x : respects Rel (remove_matcher c i a o p x);
  or_evidence c e : respects Rel (persist_in_transaction c e)
}.

(** *** The bare insertion of [save_draft] *)

(** A transaction that never fails with [e]. *)
Definition never {E A} (e : E) (t : Atx E A) : Prop := forall db, t db <> Err e.

Lemma never_bind {E A B} (e : E) (t : Atx E A) (k : A -> Atx E B) :
  never e t -> (forall a, never e (k a)) -> never e (atx_bind t k).
Proof.
  intros Ht Hk db. unfold atx_bind. specialize (Ht db). destruct (t db) as [[a d]|e'].
  - apply Hk.
  - congruence.
Qed.

Lemma never_stmt {X} (e : CrawlerRepositoryError) (t : Atx DbError X) :
  (forall f, e <> RepoDatabase f) -> never e (stmt t).
Proof. intros He db. unfold stmt, atx_map_err. destruct (t db) as [[]|]; simpl; [done|]. intros [= <-]. by eapply He. Qed.

Lemma never_reject {E} (e e' : E) bad : e <> e' -> never e (atx_reject bad e').
Proof. intros He db. unfold atx_reject, atx_of, reject_if. destruct bad; congruence. Qed.

Lemma never_each {E X} (e : E) (f : X -> Atx E unit) l : (forall x, never e (f x)) -> never e (atx_each f l).
Proof. intros Hf. induction l as [|x l IH]; simpl; [done|]. by apply never_bind. Qed.

Lemma sync_seed_rows_never v : never CrawlerNotFound (sync_seed_rows v).
Proof.
  unfold sync_seed_rows. apply never_bind; [by apply never_stmt|]. intros _.
  apply never_each. intros s. by apply never_stmt.
Qed.

Lemma activate_draft_row_never c v : never CrawlerNotFound (activate_draft_row c v).
Proof.
  unfold activate_draft_row. apply never_bind; [by apply never_stmt|]. intros n. by apply never_reject.
Qed.

Lemma semantic_never {X} (r : result ProductError X) : semantic r <> Err CrawlerNotFound.
Proof. destruct r as [|e]; simpl; [done|]. by destruct (code e). Qed.

Lemma active_draft_missing db c : active_draft_for db c = Err CrawlerNotFound ->
  t_crawlers db !! id_to_string c = None.
Proof. unfold active_draft_for. by destruct (t_crawlers db !! id_to_string c). Qed.

Lemma insert_draft_missing v b a o db :
  insert_draft_in_transaction v b a o db = Err CrawlerNotFound ->
  t_crawlers db !! id_to_string (version_crawler_id v) = None.
Proof.
  unfold insert_draft_in_transaction. unfold atx_bind at 1. unfold atx_of.
  pose proof (semantic_never (validate_semantic_contract v)) as Hn.
  destruct (semantic _); [|congruence]. clear Hn. unfold atx_bind at 1, atx_read at 1, atx_of, no_active_draft.
  destruct (active_draft_for db (version_crawler_id v)) as [p|e] eqn:Hp.
  - destruct p; simpl; [done|]. intros Hc. exfalso. revert Hc. apply never_bind; [by apply never_stmt|]. intros _.
    apply never_bind; [apply sync_seed_rows_never|]. intros _.
    apply never_bind; [apply activate_draft_row_never|]. intros _. by apply never_stmt.
  - intros [= ->]. by apply active_draft_missing.
Qed.

(** The insertion runs only for a crawler that does not exist, and its foreign key then
    rejects it. *)
Lemma save_draft_fallback v a o db d :
  save_draft_typed v a o db = (Err CrawlerNotFound, d) ->
  d = db /\ atransact (insert_version (id_to_string (version_id v)) (draft_row v)) db
            = (Err (DbDatabase ConstraintViolation), db).
Proof.
  unfold save_draft_typed. case_bool_decide; [done|].
  pose proof (semantic_never (validate_semantic_contract v)) as Hn.
  destruct (semantic (validate_semantic_contract v)); [|by intros [= -> ->]]. clear Hn.
  unfold atransact at 1. destruct (save_draft_in_transaction v a o db) as [[]|e] eqn:Hs; [done|].
  intros [= -> <-]. split; [done|].
  assert (t_crawlers db !! id_to_string (version_crawler_id v) = None) as Hc.
  { revert Hs. unfold save_draft_in_transaction. unfold atx_bind at 1, atx_read at 1, atx_of.
    destruct (t_versions db !! id_to_string (version_id v)); [|apply insert_draft_missing].
    unfold atx_bind at 1, atx_reject at 1, atx_of. destruct (reject_if _ VersionNotOwnedByCrawler) as [|e] eqn:He;
      [|by unfold reject_if in He; case_match; simplify_eq].
    unfold atx_bind at 1, atx_reject at 1, atx_of. destruct (reject_if _ PublishedVersionImmutable) as [|e] eqn:He';
      [|by unfold reject_if in He'; case_match; simplify_eq].
    unfold save_existing_draft. unfold atx_bind at 1, atx_read at 1, atx_of.
    destruct (active_draft_for db (version_crawler_id v)) as [p|e] eqn:Hp.
    - intros Hc. exfalso. revert Hc. apply never_bind; [by apply never_reject|]. intros _.
      apply never_bind; [by apply never_stmt|]. intros _. apply sync_seed_rows_never.
    - intros [= ->]. by apply active_draft_missing. }
  unfold atransact, insert_version, insert_row. unfold known_key. cbn [draft_row vn_crawler_id]. rewrite Hc.
  by rewrite andb_false_r.
Qed.

(** *** Every operation respects such a relation *)

Section run_op.
Context (Rel : relation AuthoringDb) (HR : op_relation Rel).

Lemma run_transact {E A} (t : Atx E A) db : respects Rel t -> Rel db (atransact t db).2.
Proof. apply atransact_snd. apply HR. Qed.

Lemma run_transact_then {E X Y} (t : Atx E X) (read : X -> AuthoringDb -> result E Y) db :
  respects Rel t -> Rel db (transact_then t read db).2.
Proof. apply transact_then_snd. apply HR. Qed.

Lemma rel_refl db : Rel db db.
Proof. apply HR. Qed.

Lemma rel_trans d1 d2 d3 : Rel d1 d2 -> Rel d2 d3 -> Rel d1 d3.
Proof. apply HR. Qed.

Lemma save_draft_respects v a o db : Rel db (save_draft v a o db).2.
Proof.
  unfold save_draft. destruct (save_draft_typed v a o db) as [r d] eqn:Hs.
  assert (Hd : Rel db d).
  { revert Hs. unfold save_draft_typed, op_err. repeat case_match; intros Hs; simplify_eq; try apply rel_refl.
    pose proof (run_transact (save_draft_in_transaction v a o) db (or_save _ HR v a o)) as Hr.
    by rewrite Hs in Hr. }
  destruct r as [|e]; [done|]. destruct e; try done.
  apply save_draft_fallback in Hs as [-> ->]. apply rel_refl.
Qed.

Lemma setter_identity v v' (e : VersionEdit) : e <> Publish -> apply_edit e v = Ok v' ->
  same_identity v v' /\ version_state v' = version_state v.
Proof.
  destruct e; intros Hne; simpl; try done; unfold add_seed, set_page_type_ids, set_transition_ids,
    set_canonicalization_policy_id, set_domain_scope_id, set_canonicalization_policy, set_domain_scope,
    set_guardrails; intros Hv; break_in Hv; done.
Qed.

Lemma semantic_ok {X} (r : result ProductError X) x : semantic r = Ok x -> r = Ok x.
Proof. destruct r; simpl; congruence. Qed.

Theorem run_op_respects op db : Rel db (run_op op db).
Proof.
  destruct op; simpl; unfold op_err.
  - apply run_transact. by apply HR.
  - unfold create_draft, lifecycle_attempts. simpl. eapply rel_trans; [apply (or_drawn _ HR db (S (t_drawn db)))|].
    eapply run_transact, respects_bind; [apply HR|apply HR|]. intros _. apply respects_ret, HR.
  - unfold create_draft_from_published, lifecycle_attempts. simpl. by apply run_transact, HR.
  - apply save_draft_respects.
  - by apply run_transact, HR.
  - unfold publish_and_activate, op_err. case_match; [apply rel_refl|]. by apply run_transact, HR.
  - by apply run_transact, HR.
  - unfold repository_reactivate_published, op_err. case_match; [apply rel_refl|]. by apply run_transact, HR.
  - unfold update_canonicalization_policy, op_err. case_match; [apply rel_refl|]. apply run_transact_then, HR.
    intros v v' Hv%semantic_ok. by apply (setter_identity v v' (SetCanonicalizationPolicy policy)).
  - unfold update_domain_scope_policy, op_err. case_match; [apply rel_refl|]. apply run_transact_then, HR.
    intros v v' Hv%semantic_ok. by apply (setter_identity v v' (SetDomainScope policy)).
  - unfold update_crawler_version_guardrails, op_err. case_match; [|apply rel_refl]. apply run_transact_then, HR.
    intros v v' Hv%semantic_ok. by apply (setter_identity v v' (SetGuardrails guardrails)).
  - unfold create_discovery_transition, op_err. case_match; [apply rel_refl|]. by apply run_transact_then, HR.
  - unfold update_discovery_transition, op_err. case_match; [apply rel_refl|]. by apply run_transact_then, HR.
  - by apply run_transact, HR.
  - unfold create_page_type. eapply rel_trans; [apply (or_drawn _ HR db (S (t_drawn db)))|]. by apply run_transact_then, HR.
  - by apply run_transact_then, HR.
  - by apply run_transact, HR.
  - unfold create_url_matcher, op_err. eapply rel_trans; [apply (or_drawn _ HR db (S (t_drawn db)))|].
    case_match; [apply rel_refl|]. by apply run_transact_then, HR.
  - unfold update_url_matcher, op_err. case_match; [apply rel_refl|]. by apply run_transact_then, HR.
  - by apply run_transact, HR.
  - unfold persist_if_configuration_matches. case_match; [|apply rel_refl]. by apply run_transact, HR.
Qed.
End run_op.

Lemma history_operations : op_relation history.
Proof.
  split; intros; try (auto with authoring; fail).
  - apply _.
  - apply drawn_history.
  - unfold new_transition, stmt. respects_tac.
  - unfold replace_transition, stmt. respects_tac.
  - unfold remove_transition, stmt. respects_tac.
  - unfold new_page_type_row, stmt. respects_tac.
  - unfold change_page_type, stmt. respects_tac.
  - unfold remove_page_type, stmt. respects_tac.
  - unfold new_matcher, stmt. respects_tac.
  - unfold change_matcher, stmt. respects_tac.
  - unfold remove_matcher, stmt. respects_tac.
Qed.
End operations_history.
