(* ===== verification/AuthoringLifecycle.v ===== *)
(** * The lifecycle of versions

    The pointers of the crawlers and the states of the versions, which every operation
    keeps in agreement ([lifecycle_ok]): a crawler points to its own draft and to a
    published version of its own, and its draft is the only one it has. *)

From S2P Require Import Prelude Externals JsonFacts Base TraversalTables Store TraversalStore CrawlExecution Instances Settings Guardrails Canonicalization DomainScope UrlMatcher Crawler Snapshot Preview TestEvidence VersionValidation SemanticHash AuthoringStore Authoring EvidenceStore AuthoringOps AuthoringEdits AuthoringInvariants.

(** The owner and the state of each version. *)
Definition version_states (db : AuthoringDb) : gmap string (string * CrawlerVersionState) :=
  (fun r => (vn_crawler_id r, vn_state r)) <$> t_versions db.

Record lifecycle (cs : gmap string CrawlerRow) (vs : gmap string (string * CrawlerVersionState)) : Prop := {
  lc_draft c r v : cs !! c = Some r -> cr_active_draft r = Some v -> vs !! v = Some (c, Draft);
  lc_published c r v : cs !! c = Some r -> cr_active_published r = Some v -> vs !! v = Some (c, Published);
  lc_unique v c : vs !! v = Some (c, Draft) -> exists r, cs !! c = Some r /\ cr_active_draft r = Some v;
  lc_owner v c s : vs !! v = Some (c, s) -> is_Some (cs !! c)
}.

Definition lifecycle_ok (db : AuthoringDb) : Prop := lifecycle (t_crawlers db) (version_states db).

(** ** The steps of the protocol *)

Lemma lifecycle_create cs vs c r : lifecycle cs vs -> cs !! c = None ->
  cr_active_published r = None -> cr_active_draft r = None -> lifecycle (<[c := r]> cs) vs.
Proof.
  intros [Hd Hp Hu Ho] Hc Hrp Hrd. split.
  - intros c' r' v [[<- <-]|[Hne Hr]]%lookup_insert_Some Hv; [congruence|by eapply Hd].
  - intros c' r' v [[<- <-]|[Hne Hr]]%lookup_insert_Some Hv; [congruence|by eapply Hp].
  - intros v c' Hv. destruct (Hu _ _ Hv) as (r' & Hr' & Hd'). exists r'. split; [|done].
    rewrite lookup_insert_ne; [done|congruence].
  - intros v c' s Hv. destruct (Ho _ _ _ Hv) as [r' Hr']. exists r'. rewrite lookup_insert_ne; [done|congruence].
Qed.

Lemma lifecycle_draft cs vs c r v : lifecycle cs vs -> cs !! c = Some r -> cr_active_draft r = None ->
  vs !! v = None ->
  lifecycle (<[c := set_pointers (cr_active_published r) (Some v) r]> cs) (<[v := (c, Draft)]> vs).
Proof.
  intros [Hd Hp Hu Ho] Hc Hr Hv. split.
  - intros c' r' v' [[<- <-]|[Hne Hr']]%lookup_insert_Some Hv'; simpl in *.
    + injection Hv' as <-. by rewrite lookup_insert_eq.
    + rewrite lookup_insert_ne; [by eapply Hd|]. intros <-. specialize (Hd _ _ _ Hr' Hv'). congruence.
  - intros c' r' v' [[<- <-]|[Hne Hr']]%lookup_insert_Some Hv'; simpl in *.
    + rewrite lookup_insert_ne; [by eapply Hp|]. intros <-. specialize (Hp _ _ _ Hc Hv'). congruence.
    + rewrite lookup_insert_ne; [by eapply Hp|]. intros <-. specialize (Hp _ _ _ Hr' Hv'). congruence.
  - intros v' c' [[<- [= <-]]|[Hne Hv']]%lookup_insert_Some.
    + eexists. by rewrite lookup_insert_eq.
    + destruct (Hu _ _ Hv') as (r' & Hr' & Hd'). exists r'. split; [|done].
      rewrite lookup_insert_ne; [done|]. intros <-. congruence.
  - intros v' c' s [[<- [= <- <-]]|[Hne Hv']]%lookup_insert_Some.
    + eexists. by rewrite lookup_insert_eq.
    + destruct (decide (c = c')) as [<-|?]; [eexists; by rewrite lookup_insert_eq|].
      rewrite lookup_insert_ne by done. by eapply Ho.
Qed.

Lemma lifecycle_publish cs vs c r v : lifecycle cs vs -> cs !! c = Some r -> cr_active_draft r = Some v ->
  lifecycle (<[c := set_pointers (Some v) None r]> cs) (<[v := (c, Published)]> vs).
Proof.
  intros [Hd Hp Hu Ho] Hc Hr. pose proof (Hd _ _ _ Hc Hr) as Hv. split.
  - intros c' r' v' [[<- <-]|[Hne Hr']]%lookup_insert_Some Hv'; simpl in *; [done|].
    rewrite lookup_insert_ne; [by eapply Hd|]. intros <-. specialize (Hd _ _ _ Hr' Hv'). congruence.
  - intros c' r' v' [[<- <-]|[Hne Hr']]%lookup_insert_Some Hv'; simpl in *.
    + injection Hv' as <-. by rewrite lookup_insert_eq.
    + rewrite lookup_insert_ne; [by eapply Hp|]. intros <-. specialize (Hp _ _ _ Hr' Hv'). congruence.
  - intros v' c' [[<- [=]]|[Hne Hv']]%lookup_insert_Some.
    destruct (Hu _ _ Hv') as (r' & Hr' & Hd'). exists r'. split; [|done].
    rewrite lookup_insert_ne; [done|]. intros <-. congruence.
  - intros v' c' s [[<- [= <- <-]]|[Hne Hv']]%lookup_insert_Some.
    + eexists. by rewrite lookup_insert_eq.
    + destruct (decide (c = c')) as [<-|?]; [eexists; by rewrite lookup_insert_eq|].
      rewrite lookup_insert_ne by done. by eapply Ho.
Qed.

Lemma lifecycle_reactivate cs vs c r v : lifecycle cs vs -> cs !! c = Some r -> vs !! v = Some (c, Published) ->
  lifecycle (<[c := set_pointers (Some v) (cr_active_draft r) r]> cs) vs.
Proof.
  intros [Hd Hp Hu Ho] Hc Hv. split.
  - intros c' r' v' [[<- <-]|[Hne Hr']]%lookup_insert_Some Hv'; simpl in *; by eapply Hd.
  - intros c' r' v' [[<- <-]|[Hne Hr']]%lookup_insert_Some Hv'; simpl in *; [congruence|by eapply Hp].
  - intros v' c' Hv'. destruct (Hu _ _ Hv') as (r' & Hr' & Hd').
    destruct (decide (c = c')) as [<-|?].
    + eexists. rewrite lookup_insert_eq. split; [done|]. simpl. congruence.
    + exists r'. by rewrite lookup_insert_ne.
  - intros v' c' s Hv'. destruct (decide (c = c')) as [<-|?]; [eexists; by rewrite lookup_insert_eq|].
    rewrite lookup_insert_ne by done. by eapply Ho.
Qed.

(** ** Statements *)

(** The two tables the lifecycle is about are the same. *)
Definition same_lifecycle (db db' : AuthoringDb) : Prop :=
  t_crawlers db' = t_crawlers db /\ version_states db' = version_states db.

#[export] Instance same_lifecycle_preorder : PreOrder same_lifecycle.
Proof. split; [done|]. intros d1 d2 d3 [H1 H2] [H3 H4]. split; congruence. Qed.

Definition keeps_lifecycle (db db' : AuthoringDb) : Prop := lifecycle_ok db -> lifecycle_ok db'.

#[export] Instance keeps_lifecycle_preorder : PreOrder keeps_lifecycle.
Proof. split; [by intros db Hdb|]. intros d1 d2 d3 H1 H2 Hd. by apply H2, H1. Qed.

Lemma same_keeps db db' : same_lifecycle db db' -> keeps_lifecycle db db'.
Proof. intros [H1 H2] Hd. unfold lifecycle_ok. by rewrite H1, H2. Qed.

Lemma respects_same_keeps {E A} (t : Atx E A) : respects same_lifecycle t -> respects keeps_lifecycle t.
Proof. intros Ht db a db' H. by eapply same_keeps, Ht. Qed.

Ltac same_statement lemma := intros db n db' (_ & _ & ->)%lemma; by split.

Lemma insert_seed_same id r : respects same_lifecycle (insert_seed id r).
Proof. same_statement (@insert_row_ok SeedRow). Qed.
Lemma insert_page_type_same id r : respects same_lifecycle (insert_page_type id r).
Proof. same_statement (@insert_row_ok PageTypeRow). Qed.
Lemma insert_matcher_same id r : respects same_lifecycle (insert_matcher id r).
Proof. same_statement (@insert_row_ok MatcherRow). Qed.
Lemma insert_transition_same id r : respects same_lifecycle (insert_transition id r).
Proof. same_statement (@insert_row_ok TransitionRow). Qed.
Lemma insert_audit_same id r : respects same_lifecycle (insert_audit_row id r).
Proof. same_statement (@insert_row_ok AuditRow). Qed.
Lemma insert_evidence_same id r : respects same_lifecycle (insert_evidence id r).
Proof. same_statement (@insert_row_ok EvidenceRow). Qed.
Lemma update_page_types_same p f : respects same_lifecycle (update_page_types p f).
Proof. same_statement (@update_rows_ok PageTypeRow). Qed.
Lemma update_matchers_same p j : respects same_lifecycle (update_matchers p j).
Proof. same_statement (@update_rows_ok MatcherRow). Qed.
Lemma update_transitions_same p j : respects same_lifecycle (update_transitions p j).
Proof. same_statement (@update_rows_ok TransitionRow). Qed.
Lemma delete_seeds_same p : respects same_lifecycle (delete_seeds p).
Proof. same_statement (@delete_rows_ok SeedRow). Qed.
Lemma delete_page_types_same p : respects same_lifecycle (delete_page_types p).
Proof. same_statement (@delete_rows_ok PageTypeRow). Qed.
Lemma delete_matchers_same p : respects same_lifecycle (delete_matchers p).
Proof. same_statement (@delete_rows_ok MatcherRow). Qed.
Lemma delete_transitions_same p : respects same_lifecycle (delete_transitions p).
Proof. same_statement (@delete_rows_ok TransitionRow). Qed.

(** The configuration of a version changes, neither its owner nor its state. *)
Lemma update_json_same p json : respects same_lifecycle (update_versions p (set_version_json json)).
Proof.
  intros db n db' (_ & _ & ->)%update_rows_ok. split; [done|]. unfold version_states. simpl.
  apply map_eq. intros i. rewrite !lookup_fmap, map_lookup_imap.
  destruct (t_versions db !! i) as [r|]; simpl; [|done]. by destruct (p db i r).
Qed.

#[export] Hint Resolve insert_seed_same insert_page_type_same insert_matcher_same insert_transition_same
  insert_audit_same insert_evidence_same update_page_types_same update_matchers_same
  update_transitions_same delete_seeds_same delete_page_types_same delete_matchers_same
  delete_transitions_same update_json_same : authoring.

(** An update that can change one row only, and did. *)
Lemma update_one {Row} (t : gmap string Row) (p : string -> Row -> bool) f key :
  (forall k r, p k r = true -> k = key) -> size (matching p t) = 1%nat ->
  exists r, t !! key = Some r /\ p key r = true /\
    map_imap (fun k r => Some (if p k r then f r else r)) t = <[key := f r]> t.
Proof.
  intros Hp Hs. assert (exists k r, matching p t !! k = Some r) as (k & r & Hk).
  { destruct (map_choose (matching p t)) as (k & r & Hk); [|eauto].
    intros He. by rewrite He, map_size_empty in Hs. }
  apply matching_lookup in Hk as [Hk Hpk]. pose proof (Hp _ _ Hpk) as ->.
  exists r. split_and!; [done..|]. apply (update_rows_one p f t key r). split_and!; [done..|].
  intros k' r' _ Hk'. by eapply Hp.
Qed.

(** ** Operations *)

Section operations_lifecycle.
Context `{U : UuidLib} `{L : UrlLib} `{H : HostLib} `{R : RegexLib} `{J : JsonLib} `{Serde : SerdeLib}.
Context `{Hash : HashLib} `{VW : !VersionWire} `{W : !AuthoringWire}.

Lemma new_opaque_id_same : respects same_lifecycle new_opaque_id.
Proof. unfold new_opaque_id. respects_tac. by intros db n db' [= <- <-]. Qed.

Lemma draw_many_same n : respects (E := CrawlerRepositoryError) same_lifecycle (draw_many n).
Proof. by intros db k db' [= <- <-]. Qed.

Lemma insert_audit_event_same a b c d e f : respects same_lifecycle (insert_audit_event a b c d e f).
Proof. unfold insert_audit_event, stmt. respects_tac. Qed.

Lemma update_version_configuration_same v : respects same_lifecycle (update_version_configuration v).
Proof. unfold update_version_configuration, stmt. respects_tac. Qed.

Lemma sync_seed_rows_same v : respects same_lifecycle (sync_seed_rows v).
Proof. unfold sync_seed_rows, stmt. respects_tac. Qed.
Hint Resolve new_opaque_id_same draw_many_same insert_audit_event_same
  update_version_configuration_same sync_seed_rows_same : authoring.

Lemma augment_same ids m : respects same_lifecycle (augment_child_id_map ids m).
Proof. revert m. induction ids as [|i ids IH]; intros m; simpl; respects_tac; apply IH. Qed.

Lemma mapped_or_new_same m i : respects same_lifecycle (mapped_or_new m i).
Proof. unfold mapped_or_new. respects_tac. Qed.
Hint Resolve augment_same mapped_or_new_same : authoring.

Lemma atx_collect_same {X Y} (f : X -> Atx CrawlerRepositoryError Y) l :
  (forall x, respects same_lifecycle (f x)) -> respects same_lifecycle (atx_collect f l).
Proof. intros Hf. induction l as [|x l IH]; simpl; respects_tac. Qed.

Lemma clone_child_rows_same t s p r v : respects same_lifecycle (clone_child_rows t s p r v).
Proof.
  unfold clone_child_rows, stmt. respects_tac.
  apply atx_collect_same. intros kv. unfold clone_seed. respects_tac.
Qed.

Lemma finish_edit_same i a o e n v : respects same_lifecycle (finish_edit i a o e n v).
Proof. unfold finish_edit, insert_semantic_mutation_audit. respects_tac. Qed.

Lemma mutation_version_same c i : respects same_lifecycle (mutation_version c i).
Proof. unfold mutation_version. respects_tac. Qed.

Lemma expect_one_same e t : respects same_lifecycle t -> respects same_lifecycle (expect_one e t).
Proof. intros Ht. unfold expect_one, stmt. respects_tac. Qed.

Lemma change_matcher_rows_same e p m t :
  respects same_lifecycle t -> respects same_lifecycle (change_matcher_rows e p m t).
Proof. intros Ht. unfold change_matcher_rows, stmt. respects_tac. Qed.

Lemma attach_same v t e : respects same_lifecycle (attach_transition_evidence v t e).
Proof. unfold attach_transition_evidence, ev_stmt. respects_tac. Qed.
Hint Resolve clone_child_rows_same finish_edit_same mutation_version_same expect_one_same
  change_matcher_rows_same attach_same : authoring.

(** *** A new draft *)

Lemma no_active_draft_ok db c u : no_active_draft db c = Ok u ->
  exists r, t_crawlers db !! id_to_string c = Some r /\ cr_active_draft r = None.
Proof.
  unfold no_active_draft, active_draft_for. destruct (t_crawlers db !! id_to_string c) as [r|]; simpl; [|done].
  destruct (cr_active_draft r) eqn:Hr; [done|]. eauto.
Qed.

Lemma insert_version_ok id r db u db' : insert_version id r db = Ok (u, db') ->
  t_crawlers db' = t_crawlers db /\ version_states db !! id = None /\
  version_states db' = <[id := (vn_crawler_id r, vn_state r)]> (version_states db).
Proof.
  intros (Hn & _ & ->)%insert_row_ok. simpl. unfold version_states. simpl.
  split_and!; [done|by rewrite lookup_fmap, Hn|by rewrite fmap_insert].
Qed.

Lemma activate_draft_row_ok c v db u db' : activate_draft_row c v db = Ok (u, db') ->
  version_states db' = version_states db /\
  exists r, t_crawlers db !! id_to_string c = Some r /\ cr_active_draft r = None /\
    t_crawlers db' = <[id_to_string c := set_pointers (cr_active_published r) (Some (id_to_string v)) r]>
      (t_crawlers db).
Proof.
  unfold activate_draft_row. intros Hr. atx_step Hr. apply update_rows_ok in Hs as (_ & -> & ->).
  apply negb_false_iff, Nat.eqb_eq in Erej. split; [done|]. simpl.
  destruct (update_one _ _ (fun r => set_pointers (cr_active_published r) (Some (id_to_string v)) r)
    (id_to_string c) ltac:(intros k r [Hk _]%andb_true_iff; by apply String.eqb_eq) Erej)
    as (r & Hr & Hp & Heq). exists r. split_and!; [done| |done].
  apply andb_true_iff in Hp as [_ Hp]. by apply bool_decide_eq_true in Hp.
Qed.

(** The frame of a new draft: the version, its rows, then the pointer. *)
Lemma new_draft_lifecycle c v row db d1 d2 d3 u u' u'' :
  lifecycle_ok db -> no_active_draft db c = Ok u ->
  insert_version (id_to_string v) row db = Ok (u', d1) ->
  vn_crawler_id row = id_to_string c -> vn_state row = Draft ->
  same_lifecycle d1 d2 -> activate_draft_row c v d2 = Ok (u'', d3) -> lifecycle_ok d3.
Proof.
  intros Hl (r & Hr & Hd)%no_active_draft_ok (Hc1 & Hn & Hv1)%insert_version_ok Hcr Hst [Hc2 Hv2]
    (Hv3 & r' & Hr' & _ & Hc3)%activate_draft_row_ok.
  unfold lifecycle_ok. rewrite Hc3, Hv3, Hc2, Hv2, Hc1, Hv1, Hcr, Hst.
  rewrite Hc2, Hc1 in Hr'. assert (r' = r) as -> by congruence. by apply lifecycle_draft.
Qed.

Lemma insert_draft_lifecycle v b a o : respects keeps_lifecycle (insert_draft_in_transaction v b a o).
Proof.
  intros db u db' Hr Hl. unfold insert_draft_in_transaction in Hr. atx_step Hr.
  eapply same_keeps; [by eapply insert_audit_event_same, Hr|].
  eapply new_draft_lifecycle; [exact Hl|exact Eread|exact Hs|done|done| |exact Hs1].
  by eapply sync_seed_rows_same.
Qed.

Lemma save_draft_lifecycle v a o : respects keeps_lifecycle (save_draft_in_transaction v a o).
Proof.
  unfold save_draft_in_transaction. apply respects_bind; [apply _|apply respects_read; apply _|].
  intros [row|]; [|apply insert_draft_lifecycle].
  apply respects_same_keeps. unfold save_existing_draft, stmt. respects_tac.
Qed.

Lemma clone_draft_lifecycle c s a o : respects keeps_lifecycle (clone_draft_in_transaction c s a o).
Proof.
  intros db v db' Hr Hl. unfold clone_draft_in_transaction in Hr. atx_step Hr. subst.
  (* the draws before the insertion *)
  repeat match goal with
  | Ht : draw_many _ _ = Ok _ |- _ => apply draw_many_same in Ht
  | Ht : augment_child_id_map _ _ _ = Ok _ |- _ => apply augment_same in Ht
  | Ht : clone_child_rows _ _ _ _ _ _ = Ok _ |- _ => apply clone_child_rows_same in Ht
  | Ht : insert_audit_event _ _ _ _ _ _ _ = Ok _ |- _ => apply insert_audit_event_same in Ht
  end.
  match goal with Ht : same_lifecycle ?d ?d' |- lifecycle_ok ?d' => apply (same_keeps _ _ Ht) end.
  match goal with Hi : insert_version _ _ ?d = Ok _ |- _ =>
    assert (same_lifecycle db d) as Hsame by (repeat (etrans; [eassumption|]); reflexivity) end.
  eapply new_draft_lifecycle; [by eapply same_keeps| |eassumption|done|done|eassumption|].
  - destruct Hsame as [Hc _]. unfold no_active_draft, active_draft_for in *. rewrite Hc. eassumption.
  - eassumption.
Qed.

(** *** Publication and reactivation *)

Lemma publish_rows_ok c v id db u db' : publish_rows c v id db = Ok (u, db') ->
  exists vr cr,
    t_versions db !! id_to_string id = Some vr /\ vn_state vr = Draft /\ vn_crawler_id vr = id_to_string c /\
    t_crawlers db !! id_to_string c = Some cr /\ cr_active_draft cr = Some (id_to_string id) /\
    db' = db <| t_versions := <[id_to_string id := {| vn_crawler_id := id_to_string c; vn_state := Published;
                                 vn_json := version_to_str v |}]> (t_versions db) |>
             <| t_crawlers := <[id_to_string c := set_pointers (Some (id_to_string id)) None cr]> (t_crawlers db) |>.
Proof.
  unfold publish_rows. intros Hr. atx_step Hr. apply update_rows_ok in Hs as (_ & -> & ->).
  apply update_rows_ok in Hs0 as (_ & -> & ->). apply negb_false_iff, Nat.eqb_eq in Erej, Erej0.
  pose proof (fun Hp => update_one _ _ (fun r => {| vn_crawler_id := vn_crawler_id r; vn_state := Published;
    vn_json := version_to_str v |}) (id_to_string id) Hp Erej) as Hone.
  destruct Hone as (vr & Hvr & Hp & Hv); [unfold draft_with_id; intros k r Hk; by boolify|].
  pose proof (fun Hp => update_one _ _ (set_pointers (Some (id_to_string id)) None) (id_to_string c) Hp Erej0)
    as Hone.
  destruct Hone as (cr & Hcr & Hpc & Hc); [intros k r Hk; by boolify|].
  unfold draft_with_id in Hp. boolify.
  exists vr, cr. split_and!; try done.
  assert (vn_crawler_id vr = id_to_string c) as Hown by done.
  simpl in *. by rewrite Hv, Hc, Hown.
Qed.

Lemma publish_rows_lifecycle c v id : respects keeps_lifecycle (publish_rows c v id).
Proof.
  intros db u db' (vr & cr & Hvr & Hst & Hown & Hcr & Hd & ->)%publish_rows_ok Hl.
  unfold lifecycle_ok, version_states. simpl. rewrite fmap_insert. simpl. by apply lifecycle_publish.
Qed.

Lemma publish_lifecycle c v a o r : respects keeps_lifecycle (publish_in_transaction c v a o r).
Proof.
  assert (Hrows : forall x, respects keeps_lifecycle (publish_rows c x v)) by (intros; apply publish_rows_lifecycle).
  assert (Haudit : forall a b c d e f, respects keeps_lifecycle (insert_audit_event a b c d e f))
    by (intros; apply respects_same_keeps, insert_audit_event_same).
  unfold publish_in_transaction. respects_tac.
Qed.

Lemma reactivate_lifecycle c v a o : respects keeps_lifecycle (reactivate_in_transaction c v a o).
Proof.
  intros db u db' Hr Hl. unfold reactivate_in_transaction in Hr. atx_step Hr.
  eapply same_keeps; [by eapply insert_audit_event_same, Hr|]. clear Hr.
  apply update_rows_ok in Hs as (_ & -> & ->). apply negb_false_iff, Nat.eqb_eq in Erej1.
  destruct (update_one _ _ (fun r => set_pointers (Some (id_to_string v)) (cr_active_draft r) r) (id_to_string c)
    ltac:(intros k r [Hk _]%andb_true_iff; by apply String.eqb_eq) Erej1) as (cr & Hcr & Hp & Hc).
  unfold lifecycle_ok. simpl. rewrite Hc. apply andb_true_iff in Hp as [_ Hp].
  apply lifecycle_reactivate; [exact Hl|done|]. unfold version_in_state in Hp.
  unfold version_states. simpl. rewrite lookup_fmap. destruct (t_versions db !! id_to_string v) as [vr|]; [|done].
  boolify. simpl. congruence.
Qed.

Lemma create_lifecycle id r : cr_active_published r = None -> cr_active_draft r = None ->
  respects keeps_lifecycle (insert_crawler id r).
Proof.
  intros Hp Hd db u db' (Hn & _ & ->)%insert_row_ok Hl. unfold lifecycle_ok. simpl.
  by apply lifecycle_create.
Qed.

Lemma lifecycle_operations : op_relation keeps_lifecycle.
Proof.
  split; intros; try (apply respects_same_keeps; unfold update_semantic_version, new_transition,
    replace_transition, remove_transition, new_page_type_row, change_page_type, remove_page_type,
    new_matcher, change_matcher, remove_matcher, persist_in_transaction, stmt, ev_stmt; respects_tac; fail).
  - apply _.
  - by intros Hl.
  - by apply create_lifecycle.
  - apply insert_draft_lifecycle.
  - apply save_draft_lifecycle.
  - apply clone_draft_lifecycle.
  - apply publish_lifecycle.
  - apply reactivate_lifecycle.
Qed.

Lemma empty_lifecycle artifacts collections : lifecycle_ok (empty_authoring artifacts collections).
Proof.
  unfold lifecycle_ok, version_states. simpl. rewrite fmap_empty.
  split; intros *; rewrite ?lookup_empty; done.
Qed.

Lemma reachable_lifecycle artifacts collections db :
  reachable_authoring artifacts collections db -> lifecycle_ok db.
Proof.
  induction 1 as [|op db _ IH]; [apply empty_lifecycle|].
  exact (run_op_respects keeps_lifecycle lifecycle_operations op db IH).
Qed.
End operations_lifecycle.
