(* ===== verification/AuthoringExample.v ===== *)
(** * A small authoring database

    Serializers that know the few values of a list by a name, and the operations of an
    operator who creates a crawler, saves its draft and publishes it: what the witnesses
    about authoring evaluate. *)

From stdpp Require Import pretty.
From S2P Require Import Prelude Externals JsonFacts Base TraversalTables Store TraversalStore CrawlExecution TraversalTheorems Instances Settings Guardrails Canonicalization DomainScope UrlMatcher Crawler Snapshot Preview TestEvidence VersionValidation SemanticHash AuthoringStore Authoring EvidenceStore AuthoringOps AuthoringEdits.

(** JSON text that only the empty object is read back from. *)
Fixpoint shown_json (v : Json) : string :=
  match v with
  | JNull => "null"
  | JBool b => if b then "true" else "false"
  | JNumber t => t
  | JString s => String "034" (s ++ String "034" EmptyString)%string
  | JArray l => ("[" ++ String.concat "," (map shown_json l) ++ "]")%string
  | JObject l => ("{" ++ String.concat "," (map (fun e => e.1 ++ ":" ++ shown_json e.2)%string l) ++ "}")%string
  end.

Section authoring_example.
#[local] Existing Instances plain_uuid plain_url plain_hosts plain_regex plain_json plain_hash.

Definition shown_serde : SerdeLib :=
  {| json_to_string := shown_json; json_from_str _ := Some (JObject []) |}.

(** ** The configurations *)

Definition shop_crawler : Crawler := new_crawler 0 "shop".
Definition shop_seed : Seed :=
  new_seed 4 (plain_page_url "shop.example.com" "/" eq_refl) (plain_page_url "shop.example.com" "/" eq_refl).

(** A draft with a seed, the version published from it, and one with two page types and
    the transition between them. *)
Definition shop_draft : CrawlerVersion :=
  {| version_id := new_id 1; version_crawler_id := new_id 0; version_state := Draft;
     version_seeds := [shop_seed]; page_type_ids := []; transition_ids := [];
     canonicalization_policy_id := None; domain_scope_id := None;
     canonicalization_policy := default_canonicalization; domain_scope := seed_domains_only;
     version_guardrails := default_guardrails |}.

Definition shop_linked : CrawlerVersion :=
  {| version_id := new_id 6; version_crawler_id := new_id 0; version_state := Draft;
     version_seeds := []; page_type_ids := [example_page 2; example_page 3]; transition_ids := [new_id 5];
     canonicalization_policy_id := None; domain_scope_id := None;
     canonicalization_policy := default_canonicalization; domain_scope := seed_domains_only;
     version_guardrails := default_guardrails |}.

Definition shop_transition : DiscoveryTransition := example_transition 5 2 3.

(** ** The serializers *)

Definition shown_version (v : CrawlerVersion) : string :=
  (match version_state v with Draft => "draft:" | Published => "published:" end ++ id_to_string (version_id v))%string.

Definition shown_transition (t : DiscoveryTransition) : string :=
  match latest_test_evidence_id t with Some e => id_to_string e | None => EmptyString end.

Definition shop_versions : VersionWire :=
  {| version_from_str s := List.find (fun v => String.eqb (shown_version v) s)
       [shop_draft; with_state Published shop_draft; shop_linked];
     transition_from_str s :=
       if String.eqb s EmptyString then Some shop_transition
       else e ← uuid_parse_str s ≫= from_uuid; Some (set_latest_evidence (Some e) shop_transition) |}.

Definition shop_wire (evidence : TestEvidence) : AuthoringWire := {|
  version_to_str := shown_version; version_to_value v := JString (shown_version v);
  transition_to_str := shown_transition; transition_to_value t := JString (transition_name t);
  matcher_to_str _ := EmptyString; matcher_to_value _ := JNull; matcher_from_str _ := None;
  overrides_to_str _ := EmptyString; overrides_from_str _ := None;
  evidence_to_str _ := EmptyString; evidence_from_str _ := Some evidence |}.

(** ** The databases *)

#[local] Existing Instances shown_serde shop_versions.
#[local] Instance example_wire : AuthoringWire := shop_wire example_evidence.

(** The crawler and its draft. *)
Definition drafted_db : AuthoringDb :=
  run_op (OpSaveDraft shop_draft "operator" "2026-01-01") (run_op (OpCreate shop_crawler) (empty_authoring ∅ ∅)).

Lemma drafted_reachable : reachable_authoring ∅ ∅ drafted_db.
Proof. constructor. constructor. constructor. Qed.

(** A draft with page types and a transition. *)
Definition linked_row (name : string) : PageTypeRow :=
  {| pg_version_id := id_to_string (version_id shop_linked); pg_name := name; pg_priority := 1; pg_json := "{}" |}.

Definition linked_db : AuthoringDb :=
  let version := id_to_string (version_id shop_linked) in
  (empty_authoring ∅ ∅)
    <| t_crawlers := {[id_to_string (crawler_id shop_crawler) :=
         {| cr_name := "shop"; cr_collection_id := None; cr_operational_defaults_json := EmptyString;
            cr_active_published := None; cr_active_draft := Some version |}]} |>
    <| t_versions := {[version := draft_row shop_linked]} |>
    <| t_page_types := {[id_to_string (example_page 2) := linked_row "list";
         id_to_string (example_page 3) := linked_row "item"]} |>
    <| t_transitions := {[id_to_string (transition_id shop_transition) :=
         {| dt_version_id := version; dt_json := shown_transition shop_transition |}]} |>.

(** What the transition found in a test against that draft. *)
Definition linked_hash : string :=
  match current_draft_semantic_hash_in_transaction linked_db (crawler_id shop_crawler) (version_id shop_linked) with
  | Ok hash => hash
  | Err _ => EmptyString
  end.

Definition linked_evidence : TestEvidence :=
  {| ev_schema_version := 1; ev_id := new_id 7; ev_crawler_version_id := version_id shop_linked;
     ev_test_kind := TestDiscoveryTransition; ev_input_urls := ["https://shop.example.com/list"%string];
     ev_evaluated_page_type_id := None; ev_tested_transition_id := Some (transition_id shop_transition);
     ev_canonicalization := []; ev_page_type_match := []; ev_extraction := None; ev_selector_coverage := [];
     ev_pagination := None;
     ev_discovery := Some {| disc_transition_id := Some (transition_id shop_transition);
       disc_transition_name := Some "next"%string; disc_source_page_type_id := Some (example_page 2);
       disc_target_page_type_id := Some (example_page 3); source_match := None;
       disc_selector := {| coverage_selector := "a.next"; matches_found := 0; coverage_status := NoMatches |};
       discovered_urls := []; eligible_link_count := 0; per_page_limit := 4; per_page_limit_reached := false |};
     ev_warnings := []; ev_errors := []; ev_artifact_ids := []; ev_config_hash := linked_hash;
     ev_executed_at := "2026-01-01T00:00:00Z"; ev_published_comparison := None |}.
End authoring_example.
