(* ===== verification/AuthoringTheorems.v ===== *)
(** * Theorems about authoring

    What holds of every sequence of operations of the repositories: published versions
    are immutable, the pointers are consistent, a publication is decided by the report on
    the stored rows alone, evidence does not change what a version means, and the
    contention loop always answers. *)

From S2P Require Import Prelude Externals JsonFacts Base TraversalTables Store TraversalStore CrawlExecution TraversalTheorems Instances Settings Guardrails Canonicalization DomainScope UrlMatcher Crawler Snapshot Preview TestEvidence VersionValidation SemanticHash AuthoringStore Authoring EvidenceStore AuthoringOps AuthoringEdits AuthoringInvariants AuthoringLifecycle AuthoringExample.

Section authoring_theorems.
Context `{U : UuidLib} `{L : UrlLib} `{H : HostLib} `{R : RegexLib} `{J : JsonLib} `{Serde : SerdeLib}.
Context `{Hash : HashLib} `{VW : !VersionWire} `{W : !AuthoringWire}.

Fixpoint run_ops (ops : list AuthoringOp) (db : AuthoringDb) : AuthoringDb :=
  match ops with
  | [] => db
  | op :: ops => run_ops ops (run_op op db)
  end.

(** C10. Whatever operations follow, a published version keeps its row, the seeds, page
    types, matchers and transitions it owns are neither changed nor removed nor joined
    by others, and no audit event or evidence is changed or removed. *)
Theorem published_history_kept (ops : list AuthoringOp) (db : AuthoringDb) : history db (run_ops ops db).
Proof.
  revert db. induction ops as [|op ops IH]; intros db; simpl; [done|].
  etrans; [apply (run_op_respects history history_operations)|apply IH].
Qed.

(** C11. In every database the operations reach, each crawler's pointers name a draft and
    a published version of its own, so that [ensure_pointer_consistency] never fails, and
    a crawler has no second draft. *)
Theorem reachable_pointers_consistent artifacts collections db
    (Hreach : reachable_authoring artifacts collections db) :
  (forall c, ensure_pointer_consistency db c = Ok tt) /\
  (forall v v' r r', t_versions db !! v = Some r -> t_versions db !! v' = Some r' ->
    vn_state r = Draft -> vn_state r' = Draft -> vn_crawler_id r = vn_crawler_id r' -> v = v') /\
  (forall v r, t_versions db !! v = Some r -> is_Some (t_crawlers db !! vn_crawler_id r)).
Proof.
  apply reachable_lifecycle in Hreach as [Hd Hp Hu Ho].
  assert (Hvs : forall v r, t_versions db !! v = Some r -> version_states db !! v = Some (vn_crawler_id r, vn_state r))
    by (intros v r Hr; unfold version_states; by rewrite lookup_fmap, Hr).
  assert (Hin : forall c s v, version_states db !! v = Some (c, s) -> version_in_state db c s v = true).
  { intros c s v Hv. unfold version_states in Hv. rewrite lookup_fmap in Hv. unfold version_in_state.
    destruct (t_versions db !! v) as [r|]; simplify_eq/=. rewrite String.eqb_refl. by rewrite bool_decide_true. }
  split_and!.
  - intros c. unfold ensure_pointer_consistency. apply reject_if_ok.
    destruct (t_crawlers db !! id_to_string c) as [r|] eqn:Hr; [|done]. apply orb_false_iff. unfold pointer_dangles.
    split.
    + destruct (cr_active_draft r) as [v|] eqn:Hv; [|done]. by rewrite (Hin _ _ _ (Hd _ _ _ Hr Hv)).
    + destruct (cr_active_published r) as [v|] eqn:Hv; [|done]. by rewrite (Hin _ _ _ (Hp _ _ _ Hr Hv)).
  - intros v v' r r' Hr Hr' Hs Hs' Hc. apply Hvs in Hr, Hr'. rewrite Hs in Hr. rewrite Hs', <- Hc in Hr'.
    destruct (Hu _ _ Hr) as (x & Hx & Hxd), (Hu _ _ Hr') as (y & Hy & Hyd). congruence.
  - intros v r Hr. eapply Ho, Hvs, Hr.
Qed.

(** ** Publication *)

(** The database after a publication. *)
Definition after_publication (c : CrawlerId) (id : CrawlerVersionId) (cr : CrawlerRow) (v : CrawlerVersion)
    (db : AuthoringDb) : AuthoringDb :=
  db <| t_versions := <[id_to_string id := {| vn_crawler_id := id_to_string c; vn_state := Published;
          vn_json := version_to_str v |}]> (t_versions db) |>
     <| t_crawlers := <[id_to_string c := set_pointers (Some (id_to_string id)) None cr]> (t_crawlers db) |>.

Definition publish_event_id (id : CrawlerVersionId) (occurred_at : string) : string :=
  "publish:" ++ id_to_string id ++ ":" ++ occurred_at.

Definition publish_event (id : CrawlerVersionId) (actor occurred_at : string) (base : option CrawlerVersionId)
    (report : VersionValidationReport) : AuditRow :=
  {| audit_event_type := "CRAWLER_VERSION_PUBLISHED"; audit_actor := actor;
     audit_occurred_at := occurred_at; audit_entity_type := "CRAWLER_VERSION";
     audit_entity_id := id_to_string id;
     audit_payload_json := audit_payload id base (Some (report_config_hash report)) (warning_summary report) |}.

Definition publish_record (v : CrawlerVersion) (actor occurred_at : string) (base : option CrawlerVersionId)
    (report : VersionValidationReport) : CrawlerVersionRecord :=
  {| rec_version := v; rec_audit := {| am_actor := Some actor; am_occurred_at := Some occurred_at;
       am_config_hash := Some (report_config_hash report); am_warning_summary := warning_summary report;
       am_base_version_id := base |} |}.

(** What a publication answers and does, by the report on the stored rows. *)
Definition publication (c : CrawlerId) (id : CrawlerVersionId) (actor occurred_at : string)
    (registry : VersionValidationRegistry) (db : AuthoringDb)
    : result CrawlerRepositoryError CrawlerVersionRecord * AuthoringDb :=
  match publication_validation_context db c id with
  | Err e => (Err e, db)
  | Ok ctx =>
    match registry_validate registry ctx with
    | Err _ => (Err PublicationValidationInfrastructure, db)
    | Ok report =>
      if negb (publishable report) then (Err (PublicationValidationFailed report), db) else
      match base_version_from_audit db id, t_crawlers db !! id_to_string c with
      | Ok base, Some cr =>
        let published := with_state Published (ctx_version ctx) in
        if known_key (t_audit db) (publish_event_id id occurred_at)
        then (Err (RepoDatabase (DbDatabase ConstraintViolation)), db)
        else (Ok (publish_record published actor occurred_at base report),
              after_publication c id cr published db
                <| t_audit := <[publish_event_id id occurred_at :=
                     publish_event id actor occurred_at base report]> (t_audit db) |>)
      | Err e, _ => (Err e, db)
      | _, None => (Err CrawlerNotFound, db)
      end
    end
  end.

Lemma context_facts db c id ctx : publication_validation_context db c id = Ok ctx ->
  version_state (ctx_version ctx) = Draft /\
  exists cr, t_crawlers db !! id_to_string c = Some cr /\ cr_active_draft cr = Some (id_to_string id).
Proof.
  unfold publication_validation_context, active_draft_for. intros Hc.
  destruct (ensure_crawler_exists db c); [|done]. destruct (ensure_pointer_consistency db c); [|done].
  destruct (load_publication_version db id) as [v|]; [|done].
  destruct (reject_if _ VersionNotOwnedByCrawler); [|done].
  destruct (reject_if (bool_decide (version_state v <> Draft)) _) as [|] eqn:Hst; [|done].
  destruct (t_crawlers db !! id_to_string c) as [cr|] eqn:Hcr; [|done]. simpl in Hc.
  destruct (reject_if (negb (is_active_draft _ _)) _) eqn:Hact; [|done].
  apply reject_if_ok in Hst, Hact. unfold is_active_draft in Hact. boolify.
  destruct (load_page_type_records _ _); [|done]. destruct (load_transition_records _ _ _); [|done].
  destruct (semantic_hash_with_semantic_validation _ _ _); [|done].
  destruct (map_err _ _); [|done]. injection Hc as <-. simpl. split; [by apply dec_stable|eauto].
Qed.

(** The rows a publication changes are there to be changed. *)
Lemma publish_rows_run c id v db cr : lifecycle_ok db ->
  t_crawlers db !! id_to_string c = Some cr -> cr_active_draft cr = Some (id_to_string id) ->
  publish_rows c v id db = Ok (tt, after_publication c id cr v db).
Proof.
  intros Hl Hcr Hd. pose proof (lc_draft _ _ Hl _ _ _ Hcr Hd) as Hv. unfold version_states in Hv.
  rewrite lookup_fmap in Hv. destruct (t_versions db !! id_to_string id) as [vr|] eqn:Hvr; [|done].
  injection Hv as Hown Hst.
  set (p := fun key r => draft_with_id id key r && String.eqb (vn_crawler_id r) (id_to_string c)).
  assert (Hsel : selects p (t_versions db) (id_to_string id) vr).
  { split_and!; [done| |].
    - unfold p, draft_with_id. rewrite String.eqb_refl, Hown, String.eqb_refl. by rewrite bool_decide_true.
    - intros k r _ Hk. unfold p, draft_with_id in Hk. by boolify. }
  set (q := fun key r => String.eqb key (id_to_string c) && bool_decide (cr_active_draft r = Some (id_to_string id))).
  assert (Hsel' : selects q (t_crawlers db) (id_to_string c) cr).
  { split_and!; [done| |].
    - unfold q. rewrite String.eqb_refl, Hd. by rewrite bool_decide_true.
    - intros k r _ Hk. unfold q in Hk. by boolify. }
  unfold publish_rows, atx_bind, stmt, atx_map_err, update_versions, update_crawlers, update_rows.
  fold p. rewrite (update_where_selects _ p _ _ _ _ Hsel). simpl. rewrite Hst, bool_decide_false by done. simpl.
  unfold known_key. rewrite Hown, Hcr. simpl.
  change (fun (id0 : string) (r : CrawlerRow) => String.eqb id0 (id_to_string c)
    && bool_decide (cr_active_draft r = Some (id_to_string id))) with q.
  rewrite (update_where_selects _ q _ _ _ _ Hsel'). reflexivity.
Qed.

(** C9. A publication is decided by the validation report on the rows as stored: it
    fails with that report when it has a blocker, and otherwise publishes the draft,
    moves both pointers and records the report's hash and warnings; it never loses a
    race, and a failure changes nothing. *)
Theorem publish_by_report c id actor occurred_at registry db (Hl : lifecycle_ok db) :
  publish_version c id actor occurred_at registry db = publication c id actor occurred_at registry db.
Proof.
  unfold publish_version, publication, atransact, publish_in_transaction.
  unfold atx_bind at 1, atx_read at 1, atx_of.
  destruct (publication_validation_context db c id) as [ctx|e] eqn:Hctx; [|done].
  destruct (context_facts _ _ _ _ Hctx) as (Hst & cr & Hcr & Hd). rewrite Hcr.
  unfold atx_bind at 1, atx_of. destruct (registry_validate registry ctx) as [report|e]; simpl; [|done].
  unfold atx_bind at 1, atx_reject, atx_of. destruct (publishable report); simpl; [|done].
  unfold atx_bind at 1. unfold publish, ensure_draft. rewrite bool_decide_false by congruence. simpl.
  unfold atx_bind at 1. rewrite (publish_rows_run c id _ db cr) by done.
  unfold atx_bind at 1, atx_read, atx_of.
  change (base_version_from_audit (after_publication c id cr (with_state Published (ctx_version ctx)) db) id)
    with (base_version_from_audit db id).
  destruct (base_version_from_audit db id) as [base|e]; [|done].
  unfold atx_bind, insert_audit_event, stmt, atx_map_err, insert_audit_row, insert_row, known_key.
  change (t_audit (after_publication c id cr (with_state Published (ctx_version ctx)) db)) with (t_audit db).
  match goal with |- context [bool_decide (t_audit db !! ?k = None)] =>
    change (publish_event_id id occurred_at) with k; destruct (t_audit db !! k) eqn:Ha end.
  - by rewrite bool_decide_false by done.
  - by rewrite bool_decide_true by done.
Qed.

(** ** Contention *)

(** The database after the contended attempts from [attempt] on, [n] of them. *)
Fixpoint contended (plan : nat -> option Contention) (attempt n : nat) (db : AuthoringDb) : AuthoringDb :=
  match n, plan attempt with
  | S n, Some c => contended plan (S attempt) n (co_meanwhile c db)
  | _, _ => db
  end.

Definition contended_from (plan : nat -> option Contention) (attempt n : nat) : Prop :=
  forall k, (attempt <= k < attempt + n)%nat -> exists c, plan k = Some c /\ is_contention (co_failure c) = true.

(** Why an operation gave way after a failure: a draft is active, the crawler is gone, or
    the failure itself. *)
Definition gave_way_for (f : DatabaseFailure) (db : AuthoringDb) (crawler : CrawlerId)
    (e : CrawlerRepositoryError) : Prop :=
  match e with
  | ActiveDraftExists => exists v, active_draft_for db crawler = Ok (Some v)
  | CrawlerNotFound => t_crawlers db !! id_to_string crawler = None
  | RepoDatabase (DbDatabase f') => f' = f
  | _ => False
  end.

(** How a lifecycle operation may end: with its transaction's answer after [n] contended
    attempts, or with no change of its own. *)
Inductive lifecycle_answer {X} (plan : nat -> option Contention) (t : Atx CrawlerRepositoryError X)
    (crawler : CrawlerId) (attempt : nat) (db : AuthoringDb)
    : result CrawlerRepositoryError X * AuthoringDb -> Prop :=
| answered n : (attempt + n < LIFECYCLE_CONTENTION_ATTEMPTS)%nat -> contended_from plan attempt n ->
    plan (attempt + n)%nat = None ->
    lifecycle_answer plan t crawler attempt db (atransact t (contended plan attempt n db))
| gave_way n c e : (attempt + n < LIFECYCLE_CONTENTION_ATTEMPTS)%nat -> contended_from plan attempt n ->
    plan (attempt + n)%nat = Some c -> gave_way_for (co_failure c) (contended plan attempt (S n) db) crawler e ->
    lifecycle_answer plan t crawler attempt db (Err e, contended plan attempt (S n) db).

Lemma lifecycle_answer_later {X} plan (t : Atx CrawlerRepositoryError X) crawler attempt db c r :
  plan attempt = Some c -> is_contention (co_failure c) = true ->
  lifecycle_answer plan t crawler (S attempt) (co_meanwhile c db) r ->
  lifecycle_answer plan t crawler attempt db r.
Proof.
  intros Hc Hcont.
  assert (Hfrom : forall n, contended_from plan (S attempt) n -> contended_from plan attempt (S n)).
  { intros n Hn k Hk. destruct (decide (k = attempt)) as [->|]; [by exists c|]. apply Hn. lia. }
  assert (Hdb : forall n, contended plan (S attempt) n (co_meanwhile c db) = contended plan attempt (S n) db)
    by (intros n; simpl; by rewrite Hc).
  intros [n Hn Hco Hplan|n c' e Hn Hco Hplan He]; rewrite ?Hdb in *;
    replace (S attempt + n)%nat with (attempt + S n)%nat in * by lia.
  - apply answered; [lia|by apply Hfrom|done].
  - eapply (gave_way _ _ _ _ _ (S n)); [lia|by apply Hfrom|done|done].
Qed.

(** The check after a contended attempt: the last one gives way. *)
Lemma retry_decides db crawler attempt c :
  match retry_lifecycle_contention db crawler attempt c with
  | Ok _ => (attempt + 1 < LIFECYCLE_CONTENTION_ATTEMPTS)%nat
  | Err e => gave_way_for (co_failure c) db crawler e
  end.
Proof.
  unfold retry_lifecycle_contention.
  destruct (Nat.ltb_spec (attempt + 1) LIFECYCLE_CONTENTION_ATTEMPTS) as [Hl|_];
    (destruct (co_recheck c) as [f|]; [destruct (is_contention f); simpl; done|]);
    (destruct (active_draft_for db crawler) as [[v|]|e] eqn:Ha; simpl; [by exists v|done|]);
    unfold active_draft_for in Ha; destruct (t_crawlers db !! id_to_string crawler) eqn:Hr; simplify_eq/=; done.
Qed.

Lemma attempts_answer {X} plan (t : Atx CrawlerRepositoryError X) crawler remaining attempt db :
  (S remaining + attempt = LIFECYCLE_CONTENTION_ATTEMPTS)%nat ->
  exists r, lifecycle_attempts plan t crawler (S remaining) attempt db = Some r /\
    lifecycle_answer plan t crawler attempt db r.
Proof.
  assert (Hnone : contended_from plan attempt 0) by (intros k; lia).
  revert attempt db Hnone. induction remaining as [|remaining IH]; intros attempt db Hnone Hn;
    cbn [lifecycle_attempts]; (destruct (plan attempt) as [c|] eqn:Hc;
      [|eexists; split; [reflexivity|];
        apply (answered plan t crawler attempt db 0); [lia|done|by rewrite Nat.add_0_r]]);
    (assert (Hgave : forall e, gave_way_for (co_failure c) (co_meanwhile c db) crawler e ->
        lifecycle_answer plan t crawler attempt db (Err e, co_meanwhile c db))
      by (intros e He; pose proof (gave_way plan t crawler attempt db 0 c e) as Hg; simpl in Hg;
        rewrite Hc in Hg; apply Hg; [lia|done|by rewrite Nat.add_0_r|done]));
    (destruct (is_contention (co_failure c)) eqn:Hf; [|eexists; split; [reflexivity|]; by apply Hgave]);
    pose proof (retry_decides (co_meanwhile c db) crawler attempt c) as Hr;
    (destruct (retry_lifecycle_contention _ _ _ _) as [|e]; [|eexists; split; [reflexivity|]; by apply Hgave]).
  - lia.
  - destruct (IH (S attempt) (co_meanwhile c db)) as (r & Hrun & Hans); [intros k; lia|lia|].
    exists r. split; [exact Hrun|]. by eapply lifecycle_answer_later.
Qed.

(** C14. Whatever contention an attempt to create a draft meets, it answers: within five
    attempts its transaction runs on the database the others left, or it gives way with
    nothing done of its own; [ActiveDraftExists] is answered so only when another draft
    is then active, and the [unreachable!] behind the loop is never reached. *)
Theorem draft_creation_answers plan crawler actor occurred_at db :
  let fresh := draft (t_drawn db) crawler in
  exists r, create_draft plan crawler actor occurred_at db = Some r /\
    lifecycle_answer plan
      (let* _ := insert_draft_in_transaction fresh None actor occurred_at in atx_ret fresh)
      crawler 0 (db <| t_drawn := S (t_drawn db) |>) r.
Proof. apply attempts_answer. reflexivity. Qed.
End authoring_theorems.

(** * Witnesses *)

Section witnesses.
#[local] Existing Instances plain_uuid plain_url plain_hosts plain_regex plain_json plain_hash.
#[local] Existing Instances shown_serde shop_versions example_wire.
#[local] Instance plain_append : UrlAppend plain_url := fun u k v =>
  url_set_query u (Some (default EmptyString (url_query u) ++ "&" ++ k ++ "=" ++ v)%string).
#[local] Instance plain_debug : DebugText := fun s => ("'" ++ s ++ "'")%string.

Lemma reachable_pointers_consistent_witness :
  cr_active_draft <$> t_crawlers drafted_db !! id_to_string (crawler_id shop_crawler)
    = Some (Some (id_to_string (version_id shop_draft))) /\
  ensure_pointer_consistency drafted_db (crawler_id shop_crawler) = Ok tt.
Proof.
  split; [vm_compute; reflexivity|].
  exact (proj1 (reachable_pointers_consistent ∅ ∅ drafted_db drafted_reachable) (crawler_id shop_crawler)).
Defined.

Lemma publish_by_report_witness :
  is_ok (publish_version (crawler_id shop_crawler) (version_id shop_draft) "operator" "2026-01-02" registry_new
    drafted_db).1 = true.
Proof.
  rewrite (publish_by_report (crawler_id shop_crawler) (version_id shop_draft) "operator" "2026-01-02" registry_new
    drafted_db (reachable_lifecycle ∅ ∅ drafted_db drafted_reachable)).
  vm_compute. reflexivity.
Defined.
End witnesses.
