(* ===== verification/EvidenceTheorems.v ===== *)
(** * Theorems about stored evidence

    [test_evidence.rs]: storing evidence leaves the configuration it was observed with as
    it was, although it rewrites the row of the tested transition. *)

From S2P Require Import Prelude Externals JsonFacts Base TraversalTables Store TraversalStore CrawlExecution TraversalTheorems Instances Settings Guardrails Canonicalization DomainScope UrlMatcher Crawler Snapshot Preview TestEvidence VersionValidation SemanticHash AuthoringStore Authoring EvidenceStore AuthoringOps AuthoringEdits AuthoringInvariants AuthoringLifecycle AuthoringExample.

Section evidence_theorems.
Context `{U : UuidLib} `{L : UrlLib} `{H : HostLib} `{R : RegexLib} `{J : JsonLib} `{Serde : SerdeLib}.
Context `{Hash : HashLib} `{VW : !VersionWire} `{W : !AuthoringWire}.

(** What is relied on of the derived serializers: what was read and is written with
    other evidence reads back so, and the values of two transitions that differ in their
    latest evidence differ in the field [latest_test_evidence_id] alone. *)
Class EvidenceWireLaws : Prop := {
  transition_rewritten s t (e : TestEvidenceId) : transition_from_str s = Some t -> not_v7 e = false ->
    transition_from_str (transition_to_str (set_latest_evidence (Some e) t))
      = Some (set_latest_evidence (Some e) t);
  latest_evidence_field t e :
    json_object_remove "latest_test_evidence_id" (json_of_maps (transition_to_value (set_latest_evidence e t)))
      = json_object_remove "latest_test_evidence_id" (json_of_maps (transition_to_value t))
}.

Lemma semantic_value_kept `{WL : !EvidenceWireLaws} t e :
  transition_semantic_value (set_latest_evidence e t) = transition_semantic_value t.
Proof. apply latest_evidence_field. Qed.

(** ** Rows rewritten in place *)

Definition rewrite_row {Row} (p : string -> Row -> bool) (f : Row -> Row) (kv : string * Row) : string * Row :=
  (kv.1, if p kv.1 kv.2 then f kv.2 else kv.2).

Lemma select_rewritten {Row} (p q : string -> Row -> bool) (f : Row -> Row) (t : gmap string Row) :
  (forall k r, q k (f r) = q k r) ->
  select_where q (map_imap (fun k r => Some (if p k r then f r else r)) t)
  = map (rewrite_row p f) (select_where q t).
Proof.
  intros Hq. set (t' := map_imap _ t).
  assert (Hk : map fst (map (rewrite_row p f) (select_where q t)) = map fst (select_where q t)).
  { rewrite map_map. by apply map_ext. }
  transitivity (sort_by (cmp_on fst String.compare) (map (rewrite_row p f) (select_where q t))).
  - rewrite <- (sort_by_sorted_id (cmp_on fst String.compare) (select_where q t')) by (apply sort_by_Sorted; apply _).
    apply sort_by_key_permutation; [apply _|apply select_where_keys|]. apply NoDup_Permutation.
    + apply select_where_NoDup.
    + apply (NoDup_fmap_1 fst).
      change (NoDup (map fst (map (rewrite_row p f) (select_where q t)))). rewrite Hk. apply select_where_keys.
    + intros [k r]. rewrite elem_of_select_where, elem_of_map. unfold t'. rewrite map_lookup_imap. split.
      * destruct (t !! k) as [x|] eqn:Hx; simpl; [|by intros []]. intros [[= <-] Hqr].
        exists (k, x). split; [done|]. apply elem_of_select_where. split; [done|].
        destruct (p k x); [by rewrite Hq in Hqr|done].
      * intros ([k' x] & Heq & Hx%elem_of_select_where). unfold rewrite_row in Heq. simplify_eq/=.
        destruct Hx as [-> Hqx]. simpl. split; [done|]. destruct (p k' x); [by rewrite Hq|done].
  - apply sort_by_sorted_id; [apply _|].
    assert (StronglySorted (cmp_le (cmp_on fst String.compare)) (select_where q t)) as Hs
      by (apply sort_by_Sorted; apply _).
    revert Hs. clear. induction 1 as [|x l Hl IH Hx]; simpl; [constructor|]. constructor; [done|].
    apply Forall_map. exact Hx.
Qed.

Lemma collect_map {E X Y Z'} (f : Y -> result E Z') (g : X -> Y) l :
  collect f (map g l) = collect (fun x => f (g x)) l.
Proof. induction l as [|x l IH]; simpl; [done|]. by rewrite IH. Qed.

Lemma collect_ext {E X Y} (f g : X -> result E Y) l :
  (forall x, x ∈ l -> f x = g x) -> collect f l = collect g l.
Proof.
  induction l as [|x l IH]; intros Hfg; simpl; [done|]. rewrite (Hfg x) by left.
  rewrite IH; [done|]. intros y Hy. apply Hfg. by right.
Qed.

(** Answers that differ by [h]. *)
Definition result_map {E X Y} (h : X -> Y) (r : result E X) : result E Y :=
  match r with Ok x => Ok (h x) | Err e => Err e end.

Lemma collect_result_map {E X Y Z'} (f : X -> result E Y) (h : Y -> Z') l :
  collect (fun x => result_map h (f x)) l = result_map (map h) (collect f l).
Proof.
  induction l as [|x l IH]; simpl; [done|]. rewrite IH. destruct (f x); simpl; [|done]. by destruct (collect f l).
Qed.

(** ** The rows of a version, before and after *)

Section attached.
Context `{UL : !UuidLaws U} {WL : EvidenceWireLaws}.
Context (db : AuthoringDb) (version : CrawlerVersionId) (transition : DiscoveryTransitionId).
Context (stored : DiscoveryTransition) (evidence : TestEvidenceId) (E : gmap string EvidenceRow).
Context (Hv7 : not_v7 evidence = false).

Let owned := owned_transition version transition.
Let rewritten : string := transition_to_str (set_latest_evidence (Some evidence) stored).
Let rewrite (r : TransitionRow) : TransitionRow := {| dt_version_id := dt_version_id r; dt_json := rewritten |}.

Context (Hstored : forall k r, t_transitions db !! k = Some r -> owned k r = true ->
  transition_from_str (dt_json r) = Some stored).

(** The database with the evidence stored and attached. *)
Definition attached_db : AuthoringDb :=
  db <| t_evidence := E |>
     <| t_transitions := map_imap (fun k r => Some (if owned k r then rewrite r else r)) (t_transitions db) |>.

Lemma attached_rows (id : CrawlerVersionId) :
  select_where (of_version dt_version_id id) (t_transitions attached_db)
  = map (rewrite_row owned rewrite) (select_where (of_version dt_version_id id) (t_transitions db)).
Proof. apply select_rewritten. done. Qed.

Lemma attached_parse kv : kv ∈ map_to_list (t_transitions db) ->
  set_latest_evidence None <$> transition_from_str (dt_json (rewrite_row owned rewrite kv).2)
  = set_latest_evidence None <$> transition_from_str (dt_json kv.2).
Proof.
  destruct kv as [k r]. intros Hin%elem_of_map_to_list. unfold rewrite_row. simpl.
  destruct (owned k r) eqn:Ho; [|done]. specialize (Hstored k r Hin Ho). simpl.
  unfold rewritten. rewrite Hstored. by rewrite (transition_rewritten (dt_json r) stored evidence).
Qed.

Lemma attached_owner kv : dt_version_id (rewrite_row owned rewrite kv).2 = dt_version_id kv.2.
Proof. unfold rewrite_row. simpl. by destruct (owned kv.1 kv.2). Qed.

(** A function of a parsed transition that does not look at its latest evidence. *)
Lemma attached_read {X} (f : DiscoveryTransition -> X) kv : kv ∈ map_to_list (t_transitions db) ->
  (forall t, f (set_latest_evidence None t) = f t) ->
  f <$> transition_from_str (dt_json (rewrite_row owned rewrite kv).2) = f <$> transition_from_str (dt_json kv.2).
Proof.
  intros Hin Hf. pose proof (attached_parse kv Hin) as Hp.
  destruct (transition_from_str (dt_json (rewrite_row owned rewrite kv).2)) as [t|],
    (transition_from_str (dt_json kv.2)) as [t'|]; simpl in *; try done.
  apply (inj Some) in Hp. f_equal. by rewrite <- (Hf t), <- (Hf t'), Hp.
Qed.

Lemma attached_value kv : kv ∈ map_to_list (t_transitions db) ->
  transition_value (rewrite_row owned rewrite kv) = transition_value kv.
Proof.
  intros Hin. pose proof (attached_read (fun t => (transition_id t, transition_semantic_value t)) kv Hin) as Hp.
  assert (Hf : forall t, (transition_id (set_latest_evidence None t),
    transition_semantic_value (set_latest_evidence None t)) = (transition_id t, transition_semantic_value t))
    by (intros t; by rewrite semantic_value_kept).
  specialize (Hp Hf). unfold transition_value. cbn [fst rewrite_row].
  destruct (parse_repo_id kv.1) as [id|]; [|done].
  change (if owned kv.1 kv.2 then rewrite kv.2 else kv.2) with (rewrite_row owned rewrite kv).2.
  cbn [snd] in *.
  destruct (transition_from_str (dt_json (rewrite_row owned rewrite kv).2)) as [t|],
    (transition_from_str (dt_json kv.2)) as [t'|]; simpl in *; try done.
  injection Hp as Hid Hval. by rewrite Hid, Hval.
Qed.

(** A record without its evidence. *)
Definition strip_evidence (r : DiscoveryTransitionRecord) : DiscoveryTransitionRecord :=
  {| tr_crawler_version_id := tr_crawler_version_id r;
     tr_transition := set_latest_evidence None (tr_transition r) |}.

Lemma attached_record v b kv : kv ∈ map_to_list (t_transitions db) ->
  result_map strip_evidence (transition_from_row attached_db v b (rewrite_row owned rewrite kv))
  = result_map strip_evidence (transition_from_row db v b kv).
Proof.
  intros Hin. unfold transition_from_row. rewrite attached_owner. cbn [fst snd rewrite_row].
  destruct (parse_repo_id kv.1) as [id|]; [|done].
  destruct (parse_repo_id (dt_version_id kv.2)) as [owner|]; [|done].
  destruct (reject_if _ RepoCorruptState); [|done].
  pose proof (attached_parse kv Hin) as Hp. cbn [rewrite_row fst snd] in Hp.
  destruct (transition_from_str (dt_json (if owned kv.1 kv.2 then rewrite kv.2 else kv.2))) as [t|],
    (transition_from_str (dt_json kv.2)) as [t'|]; cbn [ok_or fmap option_fmap option_map] in *; try done.
  injection Hp as Hid Hs Ht Hn He Hl Hu Hpr Hb Hd.
  rewrite Hid. destruct (reject_if (bool_decide (transition_id t' <> id)) RepoCorruptState); [|done].
  assert (check_transition_page_types attached_db v b t = check_transition_page_types db v b t') as ->.
  { unfold check_transition_page_types, transition_validate. rewrite Hs, Ht, Hn, Hl, Hu, Hb. reflexivity. }
  destruct (check_transition_page_types db v b t'); [|done].
  unfold result_map, strip_evidence, set_latest_evidence. simpl. congruence.
Qed.

Lemma selected_rows (id : CrawlerVersionId) kv :
  kv ∈ select_where (of_version dt_version_id id) (t_transitions db) -> kv ∈ map_to_list (t_transitions db).
Proof. destruct kv. intros [? _]%elem_of_select_where. by apply elem_of_map_to_list. Qed.

Lemma ids_of_stripped rs :
  map (fun r => transition_id (tr_transition r)) (map strip_evidence rs)
  = map (fun r => transition_id (tr_transition r)) rs.
Proof. induction rs as [|r rs IH]; [done|]. cbn [map]. rewrite IH. reflexivity. Qed.

Lemma attached_records v b :
  result_map (map strip_evidence) (load_transition_records attached_db v b)
  = result_map (map strip_evidence) (load_transition_records db v b).
Proof.
  unfold load_transition_records. destruct (reject_if (declared_twice _) _); [|done].
  fold (of_version dt_version_id (version_id v)). rewrite attached_rows, collect_map.
  assert (Hc : result_map (map strip_evidence) (collect (fun x =>
      transition_from_row attached_db v b (rewrite_row owned rewrite x))
      (select_where (of_version dt_version_id (version_id v)) (t_transitions db)))
    = result_map (map strip_evidence) (collect (transition_from_row db v b)
      (select_where (of_version dt_version_id (version_id v)) (t_transitions db)))).
  { rewrite <- !collect_result_map. apply collect_ext. intros kv Hkv%selected_rows. by apply attached_record. }
  destruct (collect (fun x => _) _) as [rs|], (collect (transition_from_row db v b) _) as [rs'|];
    simpl in Hc; try done.
  injection Hc as Hc.
  assert (Hids : map (fun r => transition_id (tr_transition r)) rs = map (fun r => transition_id (tr_transition r)) rs')
    by (rewrite <- (ids_of_stripped rs), <- (ids_of_stripped rs'); by f_equal).
  rewrite Hids. destruct (reject_if _ RepoCorruptState); simpl; [by rewrite Hc|done].
Qed.

Lemma attached_hash v b :
  semantic_hash_with_semantic_validation attached_db v b = semantic_hash_with_semantic_validation db v b.
Proof.
  unfold semantic_hash_with_semantic_validation. destruct (if b then _ else _); [|done].
  pose proof (attached_records v b) as Hr.
  destruct (load_transition_records attached_db v b), (load_transition_records db v b); simpl in Hr; try done;
    [|congruence].
  assert (semantic_template attached_db v = semantic_template db v) as ->; [|done].
  unfold semantic_template. rewrite attached_rows, collect_map.
  rewrite (collect_ext (fun x => transition_value (rewrite_row owned rewrite x)) transition_value)
    by (intros kv Hkv%selected_rows; by apply attached_value). reflexivity.
Qed.

Lemma attached_snapshot c id :
  result_map (fun s => (ss_version s, ss_config_hash s)) (load_semantic_snapshot attached_db c id)
  = result_map (fun s => (ss_version s, ss_config_hash s)) (load_semantic_snapshot db c id).
Proof.
  unfold load_semantic_snapshot.
  change (load_version attached_db id) with (load_version db id). destruct (load_version db id) as [v|]; [|done].
  destruct (reject_if _ VersionNotOwnedByCrawler); [|done].
  change (validate_seed_projection attached_db v) with (validate_seed_projection db v).
  destruct (validate_seed_projection db v); [|done].
  change (load_page_type_records attached_db v) with (load_page_type_records db v).
  destruct (load_page_type_records db v); [|done].
  pose proof (attached_records v true) as Hr. rewrite attached_hash.
  destruct (load_transition_records attached_db v true), (load_transition_records db v true); simpl in Hr; try done;
    [|congruence]. by destruct (semantic_hash_with_semantic_validation db v true).
Qed.
End attached.

(** ** Persisting *)

(** What a version means is read alike, before and after. *)
Definition same_meaning (db db' : AuthoringDb) : Prop :=
  t_crawlers db' = t_crawlers db /\ t_versions db' = t_versions db /\
  forall c id, result_map (fun s => (ss_version s, ss_config_hash s)) (load_semantic_snapshot db' c id)
    = result_map (fun s => (ss_version s, ss_config_hash s)) (load_semantic_snapshot db c id).

Lemma same_meaning_draft_hash db db' c id : same_meaning db db' ->
  current_draft_semantic_hash_in_transaction db' c id = current_draft_semantic_hash_in_transaction db c id.
Proof.
  intros (Hc & Hv & Hs). specialize (Hs c id).
  unfold current_draft_semantic_hash_in_transaction, ensure_crawler_exists, ensure_pointer_consistency,
    pointer_dangles, version_in_state, active_draft_for. rewrite Hc, Hv.
  destruct (load_semantic_snapshot db' c id), (load_semantic_snapshot db c id); try discriminate Hs;
    injection Hs; [intros -> ->|intros ->]; reflexivity.
Qed.

Lemma draft_hash_hash db c id h : current_draft_semantic_hash_in_transaction db c id = Ok h ->
  semantic_hash_for_version_in_connection db c id = Ok h.
Proof.
  unfold current_draft_semantic_hash_in_transaction, semantic_hash_for_version_in_connection.
  destruct (ensure_crawler_exists db c); [|done]. destruct (ensure_pointer_consistency db c); [|done].
  destruct (active_draft_for db c); [|done]. destruct (reject_if _ _); [|done].
  destruct (load_semantic_snapshot db c id); [|done]. by destruct (reject_if _ _).
Qed.

(** The row of a transition names this evidence as its newest. *)
Definition latest_evidence_is (db : AuthoringDb) (t : DiscoveryTransitionId) (e : TestEvidenceId) : Prop :=
  exists r stored, t_transitions db !! id_to_string t = Some r /\ transition_from_str (dt_json r) = Some stored /\
    latest_test_evidence_id stored = Some e.

Section persisting.
Context `{UL : !UuidLaws U} {WL : EvidenceWireLaws}.

Lemma attach_same_meaning version transition evidence db u db' E : not_v7 evidence = false ->
  attach_transition_evidence version transition evidence (db <| t_evidence := E |>) = Ok (u, db') ->
  t_evidence db' = E /\ same_meaning db db' /\ latest_evidence_is db' transition evidence.
Proof.
  intros Hv7. unfold attach_transition_evidence, atx_bind, atx_read, atx_of, atx_reject, ev_stmt, atx_map_err.
  change (t_transitions (db <| t_evidence := E |>)) with (t_transitions db).
  destruct (select_where (owned_transition version transition) (t_transitions db)) as [|[k r] rows] eqn:Hsel; [done|].
  simpl. destruct (transition_from_str (dt_json r)) as [stored|] eqn:Hs; [|done]. simpl.
  destruct (reject_if _ EvCorruptState); [|done].
  unfold atx_of, update_transitions, update_rows, update_where. cbv beta iota.
  match goal with |- context [if ?b then Some (?n, ?t) else None] => destruct b; [|done] end. simpl.
  destruct (reject_if _ _); [|done]. intros [= _ <-]. split; [done|].
  assert (Hrow : forall k' r', t_transitions db !! k' = Some r' -> owned_transition version transition k' r' = true ->
    transition_from_str (dt_json r') = Some stored).
  { intros k' r' Hr' Ho.
    assert ((k, r) ∈ select_where (owned_transition version transition) (t_transitions db)) as
      [Hr Hk]%elem_of_select_where by (rewrite Hsel; left).
    unfold owned_transition in *. boolify. congruence. }
  split; [split_and!; [done|done|]|].
  - intros c id. exact (attached_snapshot db version transition stored evidence E Hv7 Hrow c id).
  - assert ((k, r) ∈ select_where (owned_transition version transition) (t_transitions db)) as
      [Hr Hk]%elem_of_select_where by (rewrite Hsel; left).
    assert (k = id_to_string transition) as -> by (unfold owned_transition in Hk; by boolify).
    eexists _, _. split_and!; [simpl; rewrite map_lookup_imap, Hr; simpl; rewrite Hk; reflexivity| |].
    + by apply (transition_rewritten (dt_json r)).
    + done.
Qed.

Lemma persisted c e db db' : not_v7 (ev_id e) = false ->
  persist_in_transaction c e db = Ok (tt, db') ->
  current_draft_semantic_hash_in_transaction db c (ev_crawler_version_id e) = Ok (ev_config_hash e) /\
  same_meaning db db' /\
  t_evidence db' !! id_to_string (ev_id e) = Some {| te_version_id := id_to_string (ev_crawler_version_id e);
    te_json := evidence_to_str e; te_executed_at := ev_executed_at e |} /\
  (is_valid_discovery_transition_evidence e = true -> forall t, ev_tested_transition_id e = Some t ->
    latest_evidence_is db' t (ev_id e)).
Proof.
  intros Hv7. unfold persist_in_transaction. unfold atx_bind at 1, atx_read at 1, atx_of.
  destruct (current_draft_semantic_hash_in_transaction db c _) as [h|] eqn:Hh; [|done]. simpl.
  unfold atx_bind at 1, atx_reject, atx_of. destruct (String.eqb_spec h (ev_config_hash e)) as [->|]; [|done]. simpl.
  unfold atx_bind at 1, atx_read at 1, atx_of. destruct (validate_references db e); [|done].
  unfold atx_bind at 1, ev_stmt, atx_map_err, insert_evidence, insert_row.
  destruct (_ && _); [|done]. simpl. intros Hp. split; [done|].
  destruct (is_valid_discovery_transition_evidence e).
  - destruct (ev_tested_transition_id e) as [t|]; [|done].
    apply attach_same_meaning in Hp as (-> & Hs & Hl); [|done]. split; [done|]. rewrite lookup_insert_eq.
    split; [done|]. by intros _ t' [= <-].
  - injection Hp as <-. split; [|simpl; by rewrite lookup_insert_eq]. by split_and!.
Qed.

Lemma ev_parse_id_to_string {k} (i : typed_id k) : not_v7 i = false -> ev_parse_id (id_to_string i) = Ok i.
Proof.
  unfold not_v7, ev_parse_id, id_to_string. intros Hi%negb_false_iff. rewrite uuid_parse_to_string. simpl.
  unfold from_uuid. rewrite Hi. by destruct i.
Qed.

Lemma validated_ids e : evidence_validate e = Ok tt ->
  not_v7 (ev_id e) = false /\ not_v7 (ev_crawler_version_id e) = false.
Proof.
  unfold evidence_validate. destruct (reject_if (negb (ev_schema_version e =? _)) _); [|done].
  destruct (reject_if (not_v7 (ev_id e) || _ || _ || _ || _) _) as [|] eqn:Hr; [|done]. intros _.
  apply reject_if_ok in Hr. boolify. done.
Qed.

(** C13. Evidence that was stored describes the draft as it still is: storing it, and
    naming it in the row of its transition, leaves the draft's semantic hash as it was,
    so that it is read back unchanged and as matching the current configuration. *)
Theorem stored_evidence_is_current c e db db'
    (Hround : evidence_from_str (evidence_to_str e) = Some e)
    (Hstored : persist_if_configuration_matches c e db = (Ok tt, db')) :
  current_draft_semantic_hash_in_transaction db c (ev_crawler_version_id e) = Ok (ev_config_hash e) /\
  current_draft_semantic_hash_in_transaction db' c (ev_crawler_version_id e) = Ok (ev_config_hash e) /\
  read_evidence db' c (ev_crawler_version_id e) (ev_id e)
    = Ok {| er_evidence := e; matches_current_configuration := true |} /\
  (is_valid_discovery_transition_evidence e = true -> forall t, ev_tested_transition_id e = Some t ->
    latest_evidence_is db' t (ev_id e)).
Proof.
  unfold persist_if_configuration_matches, atransact in Hstored.
  destruct (evidence_validate e) as [[]|] eqn:Hval; [|done]. destruct (validated_ids e Hval) as [Hid Hvid].
  destruct (persist_in_transaction c e db) as [[[] db'']|] eqn:Hp; simplify_eq.
  destruct (persisted c e db db' Hid Hp) as (Hh & Hs & He & Hl).
  pose proof (same_meaning_draft_hash db db' c (ev_crawler_version_id e) Hs) as Hh'. rewrite Hh in Hh'.
  split_and!; [done|done| |done]. unfold read_evidence. rewrite He. simpl.
  unfold evidence_from_row. simpl. rewrite !ev_parse_id_to_string by done. simpl. rewrite Hround. simpl.
  rewrite !bool_decide_false, String.eqb_refl by naive_solver. simpl. rewrite bool_decide_false by naive_solver. simpl.
  rewrite (draft_hash_hash _ _ _ _ Hh'). simpl. by rewrite String.eqb_refl.
Qed.
End persisting.
End evidence_theorems.

(** * Witnesses *)

Section witnesses.
#[local] Existing Instances plain_uuid plain_url plain_hosts plain_regex plain_json plain_hash.
#[local] Existing Instances shown_serde shop_versions.
#[local] Instance linked_wire : AuthoringWire := shop_wire linked_evidence.

#[local] Instance linked_wire_laws : EvidenceWireLaws.
Proof.
  split; [|reflexivity]. intros s t e Hs He.
  assert (Ht : forall x, set_latest_evidence (Some e) (set_latest_evidence x shop_transition)
    = set_latest_evidence (Some e) shop_transition) by reflexivity.
  assert (t = shop_transition \/ exists x, t = set_latest_evidence (Some x) shop_transition) as Hknown.
  { simpl in Hs. destruct (String.eqb s EmptyString); [left; congruence|].
    destruct (plain_unbits s); [|discriminate Hs]. simpl in Hs. destruct (from_uuid _); [|discriminate Hs].
    right. eexists. injection Hs as <-. reflexivity. }
  assert (set_latest_evidence (Some e) t = set_latest_evidence (Some e) shop_transition) as ->
    by (destruct Hknown as [->|[x ->]]; reflexivity).
  unfold transition_to_str. simpl. unfold shown_transition. simpl.
  pose proof (ev_parse_id_to_string e He) as Hp. unfold ev_parse_id in Hp.
  unfold id_to_string in *. simpl in Hp |- *.
  destruct (String.eqb_spec (plain_bits (N.succ_pos (as_uuid e))) EmptyString) as [Hempty|_].
  - rewrite Hempty in Hp. discriminate Hp.
  - destruct (plain_unbits _) as [b|]; [|discriminate Hp]. simpl in Hp |- *.
    destruct (from_uuid _); [|discriminate Hp]. injection Hp as ->. reflexivity.
Qed.

Definition attached_linked : AuthoringDb :=
  (persist_if_configuration_matches (crawler_id shop_crawler) linked_evidence linked_db).2.

Lemma linked_stored : persist_if_configuration_matches (crawler_id shop_crawler) linked_evidence linked_db
  = (Ok tt, attached_linked).
Proof. vm_compute. reflexivity. Qed.

Lemma stored_evidence_is_current_witness :
  latest_evidence_is attached_linked (transition_id shop_transition) (new_id 7) /\
  read_evidence attached_linked (crawler_id shop_crawler) (version_id shop_linked) (new_id 7)
    = Ok {| er_evidence := linked_evidence; matches_current_configuration := true |}.
Proof.
  assert (evidence_from_str (evidence_to_str linked_evidence) = Some linked_evidence) as Hread by reflexivity.
  destruct (stored_evidence_is_current (crawler_id shop_crawler) linked_evidence linked_db attached_linked
    Hread linked_stored) as (_ & _ & Hrecord & Hlatest).
  split; [exact (Hlatest eq_refl (transition_id shop_transition) eq_refl)|exact Hrecord].
Defined.
End witnesses.
